(* ===== verification/_CoqProject ===== *)
-Q . S2P
Prelude.v
ByteArray.v
Codec.v
VarInt.v
Frame.v
FrameCodec.v
AckTracker.v
SwMap.v
CongestionControl.v
FlowControl.v
LossRecovery.v
Stream.v
StreamMap.v
ConnectionStreams.v
Dplpmtud.v
TransportParameters.v
PacketHeader.v
PacketCodec.v
Huffman.v
Qpack.v
Http3Frame.v
RingQueue.v
ByteRingBuffer.v
PieceTable.v
PieceTableSpec.v
SwString.v
ByteMap.v
Crypto.v
NumberText.v
JsonValue.v
JsonDocument.v
JsonLaws.v
JsonSpec.v
JsonTypes.v
DbCodec.v
DbWal.v
DbContents.v
DbMemory.v
DbTable.v
DbMemTable.v
DbSortedTables.v
DbReadModel.v
DbStore.v
DbVersions.v
DbTiers.v
DbApply.v
DbFlush.v
DbCompact.v
DbCaches.v
DbSystem.v
DbStoreSpec.v
HttpTypes.v
HttpParser.v
HttpMultipart.v
HttpParserLaws.v
HttpParserSteps.v
HttpMultipartLaws.v
HttpMultipartSpec.v
HttpParserSpec.v
HttpRouter.v
HttpRequestLine.v
HttpRouterSpec.v
Interleaving.v
NoCopyRing.v
NoCopyRingSpec.v
