(* ===== verification/Prelude.v ===== *)
(** * The SwStack core, verified

    This library models the protocol engines of SwStack: the QUIC transport, the
    HTTP/3 framing and header compression above it, the HTTP/1.1 request parser with
    its multipart bodies, the router behind both, JSON values and documents, the embedded
    database, the ring buffer processes share, the containers their I/O paths are
    built on, and the editor's text buffer.  Paths below are relative to the repository's [src/core],
    which stands at [src/src/core].

    ** The parts and how they interact

    A datagram reaches [SwQuicConnection] (io/quic/SwQuicConnection.h), which
    takes packets apart, hands their payload to the frame codec and dispatches
    the frames: STREAM frames to the flow-control ledger and the stream map, ACK
    frames to loss recovery, whose result drives congestion control and path MTU
    discovery; received packet numbers go to the ACK tracker, which writes the
    next ACK.  HTTP/3 reads the streams frame by frame and decompresses header
    blocks with QPACK, whose strings use the HPACK Huffman code.

    Over TCP, the server feeds what a socket reads to [SwHttpParser]
    (io/http/SwHttpParser.h), which keeps it in a [SwByteRingBuffer], takes lines and
    bodies off its front and puts out requests; the body of a form goes, run by
    contiguous run, to [SwHttpMultipartStreamParser] (io/http/SwHttpMultipart.h),
    which keeps fields in memory and writes files to disk.  [SwHttpRouter]
    (io/http/SwHttpRouter.h) finds the handler for a request of either protocol, or
    answers it with a redirect, a 405 or the not-found handler's response, and passes
    every response through its filters; it also builds the URL of a named route.

    [SwJsonDocument] (types/SwJsonDocument.h) holds a [SwJsonValue] and turns it into
    text and back; numbers are written by [SwString] and a stream and read by
    [strtoll] and [strtod], and under a key every scalar is encrypted by [SwCrypto].
    The databases ask [SwJsonSize] (types/SwJsonSize.h) how long the text would be.

    [SwEmbeddedDb] (storage/SwEmbeddedDb.h and storage/embeddeddb/) keeps records under
    primary keys, and indexes of them.  Not persistent, it is a map in memory that
    snapshots share until the next write.  Persistent, it is a log-structured tree: a
    request takes a sequence number, its batch is encoded as a frame of the journal, is
    applied to the mutable memtable, and the write service appends the frame; a full
    memtable becomes immutable and the flush task writes it as sorted tables of level 0;
    the compaction task merges tables into level 1.  A read looks through the memtables
    and the tables, newest first.  A snapshot builds a read model of everything, which
    later snapshots share, with an overlay of the writes since.

    [NoCopyRingBuffer] (remote/SwIpcNoCopyRingBuffer.h) passes video frames from one
    process to others through shared memory: a publisher fills slots in turn, consumers
    register and read the slots in place.

<<
  file                  models                                  under src/core
  Prelude               integers, bytes, the monad, tactics     -
  ByteArray             SwByteArray slicing                     types/SwByteArray.h
  Codec                 encoders, decoders, their interface     (shared shape of the codecs)
  VarInt                SwQuicVarIntCodec                       io/quic/SwQuicVarIntCodec.h
  Frame, FrameCodec     SwQuicFrame, SwQuicFrameCodec           io/quic/SwQuicFrame{,Codec}.h
  AckTracker            SwQuicAckTracker, ACK reconstruction    io/quic/SwQuicAckTracker.h,
                                                                SwQuicConnection.h processAckFrame_
  SwMap                 the ordered map                         types/SwMap.h
  CongestionControl     SwQuicCongestionControl                 io/quic/SwQuicCongestionControl.h
  FlowControl           stream and connection windows           io/quic/SwQuicFlowControl.h
  LossRecovery          SwQuicLossRecovery                      io/quic/SwQuicLossRecovery.h
  Stream, StreamMap     SwQuicStream, SwQuicStreamMap           io/quic/SwQuicStream{,Map}.h
  ConnectionStreams     receive side of SwQuicConnection        io/quic/SwQuicConnection.h
  Dplpmtud              SwQuicDplpmtud                          io/quic/SwQuicDplpmtud.h
  TransportParameters   SwQuicTransportParameters               io/quic/SwQuicTransportParameters.h
  PacketHeader,         SwQuicConnectionId, SwQuicPacketHeader, io/quic/SwQuicConnectionId.h,
  PacketCodec           SwQuicPacketCodec                       SwQuicPacket{Header,Codec}.h
  Huffman               SwHpackHuffman                          io/http3/SwHpackHuffman.h
  Qpack                 static table, encoder, decoder          io/http3/SwQpack*.h
  Http3Frame            SwHttp3Frame, SwHttp3FrameCodec         io/http3/SwHttp3FrameCodec.h
  RingQueue             SwRingQueue                             types/SwRingQueue.h
  ByteRingBuffer        SwByteRingBuffer                        types/SwByteRingBuffer.h
  PieceTable            SwPieceTable, the line index builder    types/SwPieceTable.h
  PieceTableSpec        its refinement of a text
  SwString              SwString searches, slices, splits       types/SwString.h
  Crypto                SwCrypto's Base64 and AES               types/SwCrypto.h
  NumberText            SwString::number, double literals,      types/SwString.h,
                        strtoll, strtod                         SwJsonValue.h
  JsonValue             SwJsonValue, SwJsonObject, SwJsonSize   types/SwJson{Value,Object,Inline,
                                                                StringScan,Size}.h
  JsonDocument          SwJsonDocument                          types/SwJsonDocument.h
  JsonLaws, JsonSpec,   the exact size, what is written is
  JsonTypes             read back, parsing is total and typed
  ByteMap               maps with byte strings as keys          types/SwMap.h
  DbCodec               records, keys, file names               storage/embeddeddb/SwEmbeddedDbCodec.h
  DbWal                 write batches, the journal              storage/SwEmbeddedDb.h, ...Wal.h
  DbContents            what a database promises to readers
  DbMemory              the memory backend                      ...Memory.h, ...Lifecycle.h
  DbTable               table files, their Bloom filter,        ...TableWriter.h, ...Table.h,
                        writer and reader                       ...BloomFilter.h
  DbMemTable            memtables                               ...MemTable.h, ...FlushScheduler.h
  DbSortedTables        tables as the store sees them
  DbReadModel           read model, overlay, snapshots, scans   ...ReadModel.h, ...Materializer.h,
                                                                ...ReadModelIterators.h,
                                                                ...SnapshotState.h
  DbStore               SwEmbeddedDb open for writing           ...Lookup.h, ...WriteCoordinator.h,
                                                                ...MemtableFlusher.h,
                                                                ...CompactionWorker.h,
                                                                ...MaintenanceHelpers.h
  DbVersions, DbTiers   versions of a key in layers, and the
                        tiers of a database as layers
  DbApply, DbFlush,     what applying a batch, a flush and a
  DbCompact, DbCaches   compaction do to the tiers
  DbSystem              the operations as interleaving steps,
                        with the invariant
  DbStoreSpec           its theorems
  HttpTypes             SwHttpRequest, SwHttpLimits, helpers    io/http/SwHttpTypes.h,
                                                                SwHttpMultipart.h
  HttpParser            SwHttpParser                            io/http/SwHttpParser.h
  HttpParserLaws,       the parser's invariant, what a step
  HttpParserSteps,      does when more bytes are behind it, and
  HttpParserSpec        its theorems
  HttpMultipart         SwHttpMultipartStreamParser             io/http/SwHttpMultipart.h
  HttpMultipartLaws,    the laws HttpParser relies on, and
  HttpMultipartSpec     its theorems
  HttpRouter            SwHttpRouter, SwHttpResponse            io/http/SwHttpRouter.h, SwHttpTypes.h
  HttpRequestLine       request lines with a plain path         (what the router theorems read)
  HttpRouterSpec        its theorems
  Interleaving          programs that share a memory, their
                        interleavings and invariants
  NoCopyRing            NoCopyRingBuffer                        remote/SwIpcNoCopyRingBuffer.h
  NoCopyRingSpec        its theorems
>>

    A class is a Module of its own name: its fields are the Record [t], its
    methods are definitions of the same names, an enum is an Inductive with the
    same constructors.  Where a method is long its loop is a Fixpoint named after
    it ([record_loop], [decode_loop], ...) and its blocks are definitions that
    the method composes.

    ** Conventions

    - Integers.  A [std::uint64_t] is a [Z] with the wrap-around written out:
      [+u], [-u], [*u] and [shl64] are modulo 2^64, [wrap32] modulo 2^32,
      [to_int] is [static_cast<int>].  Sizes are 64-bit.
    - Doubles (the RTT estimator, JSON numbers) are IEEE binary64, by the Standard
      Library's [SpecFloat], not reals.  [strtod], [strtoll] and the stream's [%g] with
      seventeen digits are defined exactly, over fractions of integers, rounding to
      nearest even.
    - Errors.  [bool f(..., SwString* error)] is a [result]: [Ok], [Err] with the
      message, or [NoFuel], which marks a loop whose bound was too small and which
      the theorems exclude.  In-place mutation is the state monad [M]; the state
      is kept on the error path.  The error pointer is taken as non-null: the
      tests for a null one guard only the message.
    - Bytes.  A byte array is the list of its bytes.  The flag by which a null
      array differs from an empty one is kept where an operation observes it
      (QPACK's equality with a literal) and left out elsewhere.
    - Raw storage (RingQueue, ByteRingBuffer) is modelled slot by slot and its
      misuse is an error of the model, so refinement there is memory safety too.
      Where a parser holds a ring buffer the model holds its bytes (ByteRingBuffer
      proves that this is what it is); how many of them one contiguous view shows
      is a function the parsers' theorems quantify over.
    - Outside code.  The HTTP parser sees the multipart parser through the class
      [MultipartStream] and its laws [MultipartLaws], of which HttpMultipartLaws
      gives the instance; the multipart parser sees the file system through the
      class [Files] and one law, that writing twice is writing once, of which
      [memoryFiles] is an instance.  Mapping a file into memory is an argument of
      [setMappedFile].  OpenSSL is the class [EVP] with the laws [EVPLaws]: SHA-256
      answers 32 bytes, and AES-256 turns whole blocks into as many bytes and back.
    - JSON.  A position of the parser is the text from there on.  A value is a tree:
      copies are deep in the code, and its pointers are taken as non-null.  The scan
      for the next character to escape is the scalar one.
    - Routing.  Handlers and filters are functions.  Asynchronous dispatch is a value,
      [dispatched]: not routed, a response given to the responder, or a handler
      started with its request and what the responder it is given does to a response.
      The query of a URL comes as the list in which the map is walked.
    - Shared memory.  Every access to it is an action of its own, as is every byte that
      is copied; a program is a tree of actions ([prog]), with a loop where the code
      spins, and processes interleave in any order.  Interleavings are sequentially
      consistent: that the code's acquire and release operations, which the C++ memory
      model orders less, give this order is assumed.  The trace of events ([Published],
      [Received]) is kept beside the memory.  Theorems are about runs in which fewer
      than 2^64 - 1 numbers have been drawn.
    - The database.  Its lock makes every stretch of code under it one step; a request,
      a flush and a compaction are several steps, between which anything else may step
      ([DbSystem.step]).  What a task does without the lock - writing and opening the
      tables - is one step.  Files are bytes by name.  The store sees sorted tables
      through the class [SortedTables] with the laws [SortedTablesLaws], of which
      DbSortedTables gives the instance made of DbTable; compression is the class
      [Miniz].  A hash map is a map in the order of its keys: where the code walks one
      and the order can be seen, it sorts.  Steps assume that sequence and file numbers
      do not run out, that memtables and groups of tables have less than 2^31 records.
      A ghost list, [sy_revived], collects the keys that a batch writes though a newer
      one has erased them and a compaction has dropped the tombstone: there the code
      loses the erase ([erase_lost]), and for these keys reads are left open.
    - Strings are byte strings.  [split] on a C string is modelled with its
      truncation of every piece at the first NUL ([splitLines]).

    ** What the theorems show

    - Wire formats (VarInt, FrameCodec, TransportParameters, PacketCodec,
      Huffman, Qpack, Http3Frame): what the encoder writes the decoder reads back,
      at any position and before any suffix; on arbitrary bytes the decoder ends
      and returns only values within the protocol's limits.  For the Huffman code
      the decoder is exactly the inverse of the encoder, padding included.
      [Codec] states the interface (class [Codec]) against which the generic
      round-trip lemma is proved, and the logic ([emits], [parses], [advances],
      [returns], [consumes]) by which each codec implements it.
    - Reassembly (Stream, StreamMap): the fragment buffer holds exactly the bytes
      received, in disjoint ordered fragments within both budgets; whatever the
      order, overlap and repetition of honest frames, the reader gets a prefix of
      the source, and all of it when reception is reported complete; streams do
      not affect each other.
    - Flow control: in every reachable state of a connection, with its stream data,
      resets, reads, credits and retired streams, the receive windows hold and the
      connection's counter is the sum over the streams it ever had; a sender that respects its limits is never refused, over a
      network that reorders, repeats and drops.
    - Acknowledgement and recovery: the tracker records exactly the window of
      packet numbers and its ACK frames carry exactly its ranges; an ACK splits
      the packets in flight into acknowledged, lost and kept; the congestion
      window stays within its bounds and reacts once per recovery period; packet
      numbers are recovered from their truncated form; MTU discovery ends at the
      largest size the path carries.
    - Containers: a ring queue and a byte ring buffer answer every history of
      operations as a list does.
    - The piece table holds the text its history of edits says (a remove whose end
      wraps around removes nothing, as in the code), and its line queries answer as
      the text does, with the index and without it.
    - HTTP/1.1: how the input is cut into calls of [feed] does not matter, neither
      to the request parser nor to the multipart parser; every call returns, and
      keeps buffer, bodies, header counts and the number of requests within the
      limits; the parts of a well-formed form come out exactly as they went in.
    - Routing: whatever the order of registration, the most specific route for path and
      method is chosen, the first of equals, or none exists and the methods listed are
      exactly the others; both kinds of dispatch agree; a URL built for a name,
      put into a request line and parsed, is matched by the route of that name, with
      its parameters; the target of a redirect stays on the host, and parsed as the
      next request line it is not redirected again.  Both are for paths of plain
      characters; [question_mark_splits] and [redirected_twice] are what happens beyond.
    - The shared ring: with one publisher, whatever interleaves, what a reader reads is one
      whole published message; a message that a live consumer needs is not overwritten,
      and the consumer's own turns are enough to receive it; the slots of a mapping share
      nothing.  [Interleaving] has the rule by which such invariants are proved program by
      program.
    - JSON: loading what a document or a value writes, in either layout, encrypted or
      not, gives the value back; whatever the text, loading ends with a well-typed
      value; the size computed for a value is that of its compact text, to the byte.
      Underneath, every 64-bit integer and every finite double survives its text, Base64
      is that of RFC 4648, and what is encrypted is decrypted.

    - The database: records, keys and batches survive their encoding, and encoded index
      keys sort as pairs do; a table file gives back the records it was written of; a
      journal that ends torn or is damaged in the middle gives the whole frames.  The
      memory backend is a table with its indexes, and its snapshots do not move.  In
      every interleaving of the persistent store's steps, a read answers what the table
      of all applied batches holds, in the order of their numbers.  The two
      implementations of applying a batch agree.

    ** Bounds and fuel

    [decodeFrames] has fuel one more than the payload's length (each turn consumes
    a byte), as have the loops over transport parameters, QPACK field lines and
    SETTINGS; [readContiguous] one more than the number of fragments (each turn
    removes one); QPACK integers ten continuation bytes (the code's own test on
    the shift); capacity doubling sixty-four steps (from one byte to 2^63); the
    drain loop of the HTTP parser twice the bytes buffered and three (a turn that
    takes no byte changes state, and no two such turns follow each other:
    [drainAvailable_drains]); its header loops, and the loops of the multipart
    parser, one more than the bytes buffered (each turn takes one:
    [process_runs]); the JSON parser twice the text and two (a turn takes a character,
    or goes on to a value that takes one: [parse_sound]); the digits of an integer
    sixty-four; the other loops recurse on their data.  Theorems about slicing assume payloads of
    at most 2^31 - 1 bytes, because the code casts positions to [int]; container
    theorems assume storage of at most 2^62 items, which no address space exceeds.

    ** Not modelled

    TLS and the cryptographic functions themselves, certificate handling, sockets, timers, threads and
    event loops; the parts of [SwQuicConnection] other than the fragments named
    above; exceptions thrown by element types and allocation failure; the HTTP/1.1
    server, client and middleware; of the shared ring the mapping itself, the registry
    of streams and the notification of subscribers; of the database recovery from the
    manifest and the journals, the flush that closing does, the collection of blob files,
    the block cache, notifications between processes, read-only mode, failures of files
    other than the manifest, and the facades for JSON records and tables; the mail, GUI
    and media subsystems; Retry and stateless reset of QUIC and the send side of a
    connection (packet-number spaces and retransmission), which are calls of cryptographic
    functions and of the event loop; the double-ended queue of types/. *)

From Stdlib Require Import ZArith Lia Strings.Byte.
From stdpp Require Import base list strings numbers gmap.

Declare Scope sw_scope.
Delimit Scope sw_scope with sw.
#[global] Open Scope Z_scope.

(** * Machine integers

    A [std::uint64_t] (and a [std::size_t] on the 64-bit targets) is a [Z] in
    [0, 2^64); the operations that can leave the range wrap explicitly. *)

Definition u64_modulus : Z := 18446744073709551616.

Definition u64_max : Z := 18446744073709551615.

Definition int_max : Z := 2147483647.

Definition wrap64 (z : Z) : Z := z mod 18446744073709551616.

Definition wrap32 (z : Z) : Z := z mod 4294967296.

Definition add64 (a b : Z) : Z := wrap64 (a + b).

Definition sub64 (a b : Z) : Z := wrap64 (a - b).

Definition mul64 (a b : Z) : Z := wrap64 (a * b).

Definition shl64 (a n : Z) : Z := wrap64 (Z.shiftl a n).

(** [static_cast<int>(x)]: two's complement reading of the low 32 bits. *)
Definition to_int (z : Z) : Z :=
  let r := wrap32 z in if r <? 2147483648 then r else r - 4294967296.

Definition is_u64 (z : Z) : Prop := 0 <= z < 18446744073709551616.

Notation "a +u b" := (add64 a b) (at level 50, left associativity) : sw_scope.
Notation "a -u b" := (sub64 a b) (at level 50, left associativity) : sw_scope.
Notation "a *u b" := (mul64 a b) (at level 40, left associativity) : sw_scope.
Open Scope sw_scope.

Lemma wrap64_range z : is_u64 (wrap64 z).
Proof. unfold is_u64, wrap64. apply Z.mod_pos_bound. lia. Qed.

Lemma wrap64_small z : 0 <= z < 18446744073709551616 -> wrap64 z = z.
Proof. intros H. unfold wrap64. by apply Z.mod_small. Qed.

Lemma add64_small a b : 0 <= a + b < 18446744073709551616 -> a +u b = a + b.
Proof. apply wrap64_small. Qed.

Lemma sub64_small a b : 0 <= a - b < 18446744073709551616 -> a -u b = a - b.
Proof. apply wrap64_small. Qed.

Lemma mul64_small a b : 0 <= a * b < 18446744073709551616 -> a *u b = a * b.
Proof. apply wrap64_small. Qed.

Lemma to_int_small z : 0 <= z < 2147483648 -> to_int z = z.
Proof.
  intros H. unfold to_int, wrap32. rewrite Z.mod_small by lia.
  destruct (z <? 2147483648) eqn:E; lia.
Qed.

Lemma to_int_le z : 0 <= z -> to_int z <= z.
Proof.
  intros H. unfold to_int, wrap32. pose proof (Z.mod_le z 4294967296 H ltac:(lia)).
  pose proof (Z.mod_pos_bound z 4294967296 ltac:(lia)).
  destruct (z mod 4294967296 <? 2147483648) eqn:E; lia.
Qed.

Create Rewrite HintDb u64.
#[export] Hint Rewrite wrap64_small add64_small sub64_small mul64_small
  to_int_small using lia : u64.

(** Boolean comparisons to propositions, then [lia]. *)
Ltac zbool :=
  repeat match goal with
  | H : context [Z.ltb ?a ?b] |- _ => destruct (Z.ltb_spec a b)
  | H : context [Z.leb ?a ?b] |- _ => destruct (Z.leb_spec a b)
  | H : context [Z.eqb ?a ?b] |- _ => destruct (Z.eqb_spec a b)
  | |- context [Z.ltb ?a ?b] => destruct (Z.ltb_spec a b)
  | |- context [Z.leb ?a ?b] => destruct (Z.leb_spec a b)
  | |- context [Z.eqb ?a ?b] => destruct (Z.eqb_spec a b)
  end.

(** Closed arithmetic side conditions, by evaluation. *)
Ltac by_eval := vm_compute; repeat split; first [done | discriminate].

(** * Bytes *)

Abbreviation byte := Byte.byte.

#[export] Instance byte_eq_decision : EqDecision byte := Byte.byte_eq_dec.

#[export] Instance byte_countable : Countable byte :=
  inj_countable Byte.to_N Byte.of_N Byte.of_to_N.

Definition b2z (b : byte) : Z := Z.of_N (Byte.to_N b).

(** [static_cast<std::uint8_t>(z)]. *)
Definition z2b (z : Z) : byte := default x00 (Byte.of_N (Z.to_N (z mod 256))).

Abbreviation zlen l := (Z.of_nat (length l)).

Lemma b2z_range b : 0 <= b2z b < 256.
Proof. unfold b2z. pose proof (Byte.to_N_bounded b). lia. Qed.

Lemma z2b_b2z b : z2b (b2z b) = b.
Proof.
  unfold z2b, b2z. rewrite Z.mod_small by (pose proof (b2z_range b); unfold b2z in *; lia).
  rewrite N2Z.id, Byte.of_to_N. done.
Qed.

Lemma b2z_z2b z : b2z (z2b z) = z mod 256.
Proof.
  unfold z2b, b2z. pose proof (Z.mod_pos_bound z 256 ltac:(lia)) as Hb.
  destruct (Byte.of_N (Z.to_N (z mod 256))) as [b|] eqn:E; simpl.
  - apply Byte.to_of_N in E. rewrite E. lia.
  - apply Byte.of_N_None_iff in E. lia.
Qed.

Lemma b2z_z2b_small z : 0 <= z < 256 -> b2z (z2b z) = z.
Proof. intros H. rewrite b2z_z2b. by apply Z.mod_small. Qed.

Lemma b2z_inj a b : b2z a = b2z b -> a = b.
Proof. intros H. by rewrite <- (z2b_b2z a), <- (z2b_b2z b), H. Qed.

#[export] Hint Rewrite b2z_z2b_small using lia : u64.

(** Big-endian value of a byte string and its inverse. *)
Definition be_value (bs : list byte) : Z :=
  fold_left (fun acc b => acc * 256 + b2z b) bs 0.

Fixpoint be_bytes (n : nat) (v : Z) : list byte :=
  match n with
  | O => []
  | S n' => be_bytes n' (v / 256) ++ [z2b v]
  end.

Lemma be_value_app bs b : be_value (bs ++ [b]) = be_value bs * 256 + b2z b.
Proof. unfold be_value. by rewrite fold_left_app. Qed.

Lemma length_be_bytes n v : length (be_bytes n v) = n.
Proof. revert v. induction n as [|n IH]; intros v; simpl; [done|]. rewrite length_app, IH. simpl. lia. Qed.

Lemma be_value_be_bytes n v : 0 <= v < 256 ^ Z.of_nat n -> be_value (be_bytes n v) = v.
Proof.
  revert v. induction n as [|n IH]; intros v Hv; simpl.
  - change (256 ^ Z.of_nat 0) with 1 in Hv. unfold be_value. simpl. lia.
  - rewrite Nat2Z.inj_succ, Z.pow_succ_r in Hv by lia.
    rewrite be_value_app, IH, b2z_z2b.
    + pose proof (Z.div_mod v 256). lia.
    + split; [apply Z.div_pos; lia|]. apply Z.div_lt_upper_bound; lia.
Qed.

Lemma be_bytes_front n v :
  be_bytes (S n) v = z2b (v / 256 ^ Z.of_nat n) :: be_bytes n v.
Proof.
  revert v. induction n as [|n IH]; intros v.
  - simpl. change (256 ^ Z.of_nat 0) with 1. by rewrite Z.div_1_r.
  - change (be_bytes (S (S n)) v) with (be_bytes (S n) (v / 256) ++ [z2b v]).
    rewrite IH. simpl. rewrite Nat2Z.inj_succ, Z.pow_succ_r by lia.
    by rewrite Z.div_div by lia.
Qed.

Lemma be_value_fold bs e :
  fold_left (fun acc b => acc * 256 + b2z b) bs e = e * 256 ^ zlen bs + be_value bs.
Proof.
  unfold be_value. revert e. induction bs as [|b bs IH]; intros e.
  - simpl. lia.
  - simpl length. rewrite Nat2Z.inj_succ, Z.pow_succ_r by lia. cbn [fold_left].
    rewrite IH, (IH (0 * 256 + b2z b)). lia.
Qed.

Lemma be_value_cons b bs : be_value (b :: bs) = b2z b * 256 ^ zlen bs + be_value bs.
Proof. unfold be_value at 1. simpl fold_left. by rewrite be_value_fold. Qed.

Lemma be_value_range bs : 0 <= be_value bs < 256 ^ zlen bs.
Proof.
  induction bs as [|b bs IH] using rev_ind; [done|].
  rewrite be_value_app, length_app, Nat2Z.inj_add, Z.pow_add_r by lia.
  change (256 ^ zlen [b]) with 256. pose proof (b2z_range b). lia.
Qed.

Lemma be_bytes_be_value bs : be_bytes (length bs) (be_value bs) = bs.
Proof.
  induction bs as [|b bs IH] using rev_ind; [done|].
  rewrite length_app, Nat.add_1_r, be_value_app. simpl.
  pose proof (b2z_range b). f_equal.
  - rewrite Z.div_add_l by lia. rewrite (Z.div_small (b2z b)) by lia. by rewrite Z.add_0_r.
  - f_equal. apply b2z_inj. rewrite b2z_z2b, Z.add_comm, Z.mod_add by lia.
    by apply Z.mod_small.
Qed.

(** * Bit operations *)

(** Setting bits above the top of a number adds them. *)
Lemma lor_disjoint a c k n :
  c = k * 2 ^ n -> 0 <= n -> 0 <= a < 2 ^ n -> Z.lor a c = a + c.
Proof.
  intros -> Hn Ha.
  assert (Z.land a (k * 2 ^ n) = 0) as H0.
  { apply Z.bits_inj'. intros i Hi. rewrite Z.land_spec, Z.bits_0.
    destruct (Z.lt_ge_cases i n).
    - rewrite (Z.mul_pow2_bits_low k n i) by lia. by rewrite andb_false_r.
    - rewrite <- (Z.mod_small a (2 ^ n)) by lia.
      by rewrite Z.mod_pow2_bits_high by lia. }
  by rewrite <- Z.lxor_lor, <- Z.add_nocarry_lxor by done.
Qed.

Lemma lor_range a b n :
  0 <= n -> 0 <= a < 2 ^ n -> 0 <= b < 2 ^ n -> 0 <= Z.lor a b < 2 ^ n.
Proof.
  intros Hn Ha Hb.
  assert (Z.lor a b = Z.lor a b mod 2 ^ n) as ->; [|apply Z.mod_pos_bound; lia].
  rewrite <- !Z.land_ones, Z.land_lor_distr_l, !Z.land_ones by done.
  by rewrite !Z.mod_small by done.
Qed.

Lemma land_mask a n : 0 <= n -> Z.land a (Z.ones n) = a mod 2 ^ n.
Proof. intros Hn. by apply Z.land_ones. Qed.

Lemma land_above x k : 0 <= k -> 0 <= x < 2 ^ k -> Z.land x (2 ^ k) = 0.
Proof.
  intros Hk Hx. rewrite <- Z.shiftl_1_l. apply Z.bits_inj'. intros i Hi.
  rewrite Z.land_spec, Z.bits_0. destruct (Z.lt_ge_cases i k).
  - rewrite Z.shiftl_spec, (Z.testbit_neg_r 1) by lia. apply andb_false_r.
  - by rewrite <- (Z.mod_small x (2 ^ k)), Z.mod_pow2_bits_high by lia.
Qed.

(** One step of the big-endian accumulation [(acc << 8) | byte]. *)
Lemma shl8_lor e b :
  0 <= e < 72057594037927936 -> Z.lor (shl64 e 8) (b2z b) = e * 256 + b2z b.
Proof.
  intros He. unfold shl64. rewrite Z.shiftl_mul_pow2 by lia. change (2 ^ 8) with 256.
  rewrite wrap64_small by lia. pose proof (b2z_range b).
  rewrite Z.lor_comm. rewrite (lor_disjoint (b2z b) (e * 256) e 8) by lia. lia.
Qed.

Lemma z2b_land_255 z : z2b (Z.land z 0xff) = z2b z.
Proof.
  apply b2z_inj. change 0xff with (Z.ones 8). rewrite !b2z_z2b, land_mask by lia.
  change (2 ^ 8) with 256. by rewrite Z.mod_mod by lia.
Qed.

(** * Fallible, state-passing code

    A C++ function [bool f(..., S& state, T& out, SwString* error)] is a
    function from the state to a result and the state it leaves behind: [Ok a]
    for [true] with the out-parameter [a], [Err msg] for [false] with the text
    stored through [error].  The state is kept on the error path too, because
    the code mutates it in place before it fails.  [NoFuel] marks a bounded
    loop whose bound was too small; each loop has a theorem that excludes it. *)

Inductive result (A : Type) : Type :=
| Ok (a : A)
| Err (msg : string)
| NoFuel.
Arguments Ok {A} a.
Arguments Err {A} msg.
Arguments NoFuel {A}.

#[export] Instance result_ret : MRet result := fun A => Ok.

#[export] Instance result_bind : MBind result := fun A B k r =>
  match r with Ok a => k a | Err e => Err e | NoFuel => NoFuel end.

Definition M (S A : Type) : Type := S -> result A * S.

#[export] Instance M_ret S : MRet (M S) := fun A a s => (Ok a, s).

#[export] Instance M_bind S : MBind (M S) := fun A B k m s =>
  match m s with
  | (Ok a, s') => k a s'
  | (Err e, s') => (Err e, s')
  | (NoFuel, s') => (NoFuel, s')
  end.

Definition get {S} : M S S := fun s => (Ok s, s).

Definition put {S} (s : S) : M S unit := fun _ => (Ok tt, s).

Definition modify {S} (f : S -> S) : M S unit := fun s => (Ok tt, f s).

Definition throw {S A} (msg : string) : M S A := fun s => (Err msg, s).

Definition out_of_fuel {S A} : M S A := fun s => (NoFuel, s).

(** [if (cond) { setError_(error, msg); return false; }] *)
Definition fail_if {S} (cond : bool) (msg : string) : M S unit :=
  if cond then throw msg else mret ().

(** A call whose outcome does not touch the state of the caller. *)
Definition of_result {S A} (r : result A) : M S A := fun s => (r, s).

Definition is_ok {A} (r : result A) : bool := match r with Ok _ => true | _ => false end.

Lemma bind_ok {S A B} (m : M S A) (k : A -> M S B) s s' b :
  mbind k m s = (Ok b, s') ->
  exists a s1, m s = (Ok a, s1) /\ k a s1 = (Ok b, s').
Proof. unfold mbind, M_bind. destruct (m s) as [[a|e|] s1]; naive_solver. Qed.

(** Splits a successful run of a monadic program into its steps. *)
Ltac bind_inv H :=
  let a := fresh "a" in let s := fresh "s" in
  let H1 := fresh "Hm" in let H2 := fresh "Hk" in
  apply bind_ok in H as (a & s & H1 & H2).

(** Unfolds the monad and reduces the steps already decided. *)
Ltac m_run := unfold mbind, M_bind, get, put, modify, fail_if, throw, of_result, mret, M_ret; cbv beta iota.

(** * Generic list lemmas *)

Lemma skipn_app_exact {A} (l k : list A) : drop (length l) (l ++ k) = k.
Proof. by rewrite drop_app_length. Qed.

Lemma firstn_app_exact {A} (l k : list A) : take (length l) (l ++ k) = l.
Proof. by rewrite take_app_length. Qed.

Lemma lookup_app_at {A} (l : list A) x k : (l ++ x :: k) !! length l = Some x.
Proof. by apply list_lookup_middle. Qed.

Lemma zlen_app {A} (l k : list A) : zlen (l ++ k) = zlen l + zlen k.
Proof. rewrite length_app. lia. Qed.

(** The [len] elements from index [from]. *)
Definition zslice {A} (l : list A) (from len : Z) : list A :=
  take (Z.to_nat len) (drop (Z.to_nat from) l).

Lemma zlen_zslice {A} (l : list A) a n : 0 <= a -> 0 <= n -> a + n <= zlen l -> zlen (zslice l a n) = n.
Proof. intros. unfold zslice. rewrite length_take, length_drop. lia. Qed.

Lemma zslice_all {A} (l : list A) n : zlen l <= n -> zslice l 0 n = l.
Proof. intros. unfold zslice. simpl. rewrite drop_0. apply take_ge. lia. Qed.

Lemma zslice_from_0 {A} (l : list A) n : zslice l 0 n = take (Z.to_nat n) l.
Proof. unfold zslice. simpl. by rewrite drop_0. Qed.

Lemma zslice_0 {A} (l : list A) a : zslice l a 0 = [].
Proof. done. Qed.

Lemma zslice_zslice {A} (l : list A) a n b m :
  0 <= a -> 0 <= b -> 0 <= m -> b + m <= n -> zslice (zslice l a n) b m = zslice l (a + b) m.
Proof.
  intros. unfold zslice. rewrite skipn_firstn_comm, take_take, drop_drop.
  f_equal; [lia|]. f_equal. lia.
Qed.

Lemma zslice_split {A} (l : list A) a n m :
  0 <= a -> 0 <= n -> 0 <= m -> zslice l a (n + m) = zslice l a n ++ zslice l (a + n) m.
Proof.
  intros. unfold zslice. rewrite !Z2Nat.inj_add, <-drop_drop by lia.
  by rewrite take_take_drop.
Qed.

Lemma zslice_app_l {A} (l k : list A) a n :
  0 <= a -> 0 <= n -> a + n <= zlen l -> zslice (l ++ k) a n = zslice l a n.
Proof.
  intros. unfold zslice. rewrite drop_app_le by lia. apply take_app_le. rewrite length_drop. lia.
Qed.

Lemma zslice_app_r {A} (l k : list A) a n :
  zlen l <= a -> zslice (l ++ k) a n = zslice k (a - zlen l) n.
Proof.
  intros. unfold zslice. rewrite drop_app_ge by lia. f_equal. f_equal. lia.
Qed.

Lemma lookup_zslice {A} (l : list A) a n i :
  0 <= a -> 0 <= i < n -> zslice l a n !! Z.to_nat i = l !! Z.to_nat (a + i).
Proof.
  intros. unfold zslice. rewrite lookup_take_lt by lia. rewrite lookup_drop. f_equal. lia.
Qed.

(** * Sums over finite maps *)

Definition map_sum {A} (f : A -> Z) (m : gmap Z A) : Z := map_fold (fun _ x acc => f x + acc) 0 m.

Lemma map_sum_insert_new {A} (f : A -> Z) m k x :
  m !! k = None -> map_sum f (<[k := x]> m) = f x + map_sum f m.
Proof. intros Hk. unfold map_sum. rewrite map_fold_insert_L; [done|intros; lia|done]. Qed.

Lemma map_sum_delete {A} (f : A -> Z) m k x :
  m !! k = Some x -> map_sum f m = f x + map_sum f (delete k m).
Proof. intros Hk. unfold map_sum. rewrite (map_fold_delete_L _ _ k x); [done|intros; lia|done]. Qed.

Lemma map_sum_insert {A} (f : A -> Z) m k x y :
  m !! k = Some x -> map_sum f (<[k := y]> m) = map_sum f m + f y - f x.
Proof.
  intros Hk. rewrite <- insert_delete_eq, map_sum_insert_new by apply lookup_delete_eq.
  rewrite (map_sum_delete f m k x Hk). lia.
Qed.

(** A boolean property of every binding of a map, by evaluation. *)
Lemma map_forallb {A} (f : Z -> A -> bool) (m : gmap Z A) k x :
  forallb (fun e => f e.1 e.2) (map_to_list m) = true -> m !! k = Some x -> f k x = true.
Proof.
  intros H Hk. rewrite forallb_forall in H. apply (H (k, x)).
  by apply list_elem_of_In, elem_of_map_to_list.
Qed.
