(* ===== verification/ByteArray.v ===== *)
(** [SwByteArray] (src/src/core/types/SwByteArray.h): the slicing operations the
    codecs rely on.  A byte array is the list of its bytes; the null flag that
    distinguishes a default-constructed array from an empty one is left out here:
    only QPACK's equality with a literal observes it, and Qpack.v keeps it. *)
From Stdlib Require Import ZArith Lia.
From stdpp Require Import base list strings numbers.
From S2P Require Import Prelude.

Module SwByteArray.

Abbreviation t := (list byte).

Definition size (bs : t) : Z := zlen bs.

Definition sanitizePosition (pos limit : Z) : Z :=
  if pos <? 0 then 0 else if limit <? pos then limit else pos.

(** [slice(pos, len)]: a copy of [len] bytes from [pos]. *)
Definition slice (bs : t) (pos len : Z) : t :=
  take (Z.to_nat len) (drop (Z.to_nat pos) bs).

Definition mid (bs : t) (pos len : Z) : t :=
  let start := sanitizePosition pos (size bs) in
  let length := if len <? 0 then size bs - start else Z.min len (size bs - start) in
  slice bs start length.

Definition left (bs : t) (len : Z) : t :=
  if len <=? 0 then [] else slice bs 0 (Z.min len (size bs)).

Definition append (bs other : t) : t := bs ++ other.

(** [static_cast<std::uint8_t>(bytes.constData()[i])], [i] within the array. *)
Definition byteAt (bs : t) (i : Z) : Z := b2z (default Byte.x00 (bs !! Z.to_nat i)).

Lemma size_nonneg bs : 0 <= size bs.
Proof. unfold size. lia. Qed.

Lemma size_app a b : size (a ++ b) = size a + size b.
Proof. unfold size. rewrite length_app. lia. Qed.

Lemma size_cons b bs : size (b :: bs) = 1 + size bs.
Proof. unfold size. simpl length. lia. Qed.

Lemma mid_spec bs pos len :
  0 <= pos <= size bs -> 0 <= len <= size bs - pos ->
  mid bs pos len = take (Z.to_nat len) (drop (Z.to_nat pos) bs).
Proof.
  intros Hp Hl. unfold mid, slice, sanitizePosition.
  zbool; try lia. by rewrite Z.min_l by lia.
Qed.

(** The bytes between a prefix and a suffix. *)
Lemma mid_middle pre bs suf :
  mid (pre ++ bs ++ suf) (size pre) (size bs) = bs.
Proof.
  rewrite mid_spec by (rewrite !size_app; unfold size; lia).
  unfold size. rewrite !Nat2Z.id, skipn_app_exact, firstn_app_exact. done.
Qed.

Lemma size_mid bs pos len :
  0 <= pos <= size bs -> 0 <= len <= size bs - pos -> size (mid bs pos len) = len.
Proof.
  intros Hp Hl. rewrite mid_spec by done. unfold size in *.
  rewrite length_take, length_drop. lia.
Qed.

(** [mid] yields the requested length even when the position has been cast down. *)
Lemma size_mid_le bs pos len :
  0 <= len -> Z.max 0 pos + len <= size bs -> size (mid bs pos len) = len.
Proof.
  intros Hl Hb. unfold mid, slice, sanitizePosition. unfold size in *.
  zbool; try lia; rewrite length_take, length_drop; lia.
Qed.

Lemma size_mid_bound bs pos len : size (mid bs pos len) <= size bs.
Proof. unfold mid, slice, size. rewrite length_take, length_drop. lia. Qed.

Lemma byteAt_middle pre b suf : byteAt (pre ++ b :: suf) (size pre) = b2z b.
Proof. unfold byteAt, size. by rewrite Nat2Z.id, lookup_app_at. Qed.

Lemma byteAt_head pre b bs suf : byteAt (pre ++ (b :: bs) ++ suf) (size pre) = b2z b.
Proof. apply byteAt_middle. Qed.

Lemma byteAt_range bs i : 0 <= byteAt bs i < 256.
Proof. apply b2z_range. Qed.

End SwByteArray.

#[export] Hint Rewrite SwByteArray.size_app SwByteArray.size_cons : u64.
