(* ===== verification/Codec.v ===== *)
(** The compositional logic of the wire codecs: what an encoder emits, what a
    decoder parses, how far a decoder may move, and the [Codec] interface that
    every wire format of the development implements. *)
From Stdlib Require Import ZArith Lia.
From stdpp Require Import base list strings numbers.
From S2P Require Import Prelude ByteArray.

(** Encoders append to [outBytes]; decoders read [payload] and advance [offset]. *)
Definition Enc (A : Type) : Type := M (list byte) A.

Definition Dec (A : Type) : Type := list byte -> M Z A.

(** [outBytes.append(static_cast<char>(value))] *)
Definition emit_byte (value : Z) : Enc unit := modify (fun out => out ++ [z2b value]).

(** [outBytes.append(bytes)] *)
Definition emit_bytes (bs : list byte) : Enc unit := modify (fun out => out ++ bs).

(** Encoder [m] succeeds with [a] and appends exactly [bs]. *)
Definition emits {A} (m : Enc A) (bs : list byte) (a : A) : Prop :=
  forall out, m out = (Ok a, out ++ bs).

(** Decoder [d], started where [bs] begins in any payload small enough for the
    [int] casts of the slicing code, returns [a] and stops where [bs] ends. *)
Definition parses {A} (d : Dec A) (bs : list byte) (a : A) : Prop :=
  forall pre suf, SwByteArray.size (pre ++ bs ++ suf) <= int_max ->
  d (pre ++ bs ++ suf) (SwByteArray.size pre) = (Ok a, SwByteArray.size (pre ++ bs)).

(** Whatever its result, decoder [d] only moves forward and stays inside the payload. *)
Definition advances {A} (d : Dec A) : Prop :=
  forall p off, 0 <= off <= SwByteArray.size p -> SwByteArray.size p < u64_modulus ->
  off <= (d p off).2 <= SwByteArray.size p /\ (d p off).1 <> NoFuel.

(** A successful run of [d] consumes at least one byte. *)
Definition consumes {A} (d : Dec A) : Prop :=
  forall p off a off', 0 <= off <= SwByteArray.size p -> SwByteArray.size p < u64_modulus ->
  d p off = (Ok a, off') -> off < off'.

(** Whatever its result, encoder [m] leaves what was already in the buffer. *)
Definition appends {A} (m : Enc A) : Prop :=
  forall out, exists bs, (m out).2 = out ++ bs.

Lemma emits_ret {A} (a : A) : emits (mret a) [] a.
Proof. intros out. by rewrite app_nil_r. Qed.

Lemma emits_byte v : emits (emit_byte v) [z2b v] tt.
Proof. done. Qed.

Lemma emits_byte_eq v b : z2b v = b -> emits (emit_byte v) [b] tt.
Proof. intros <-. done. Qed.

Lemma emits_bytes bs : emits (emit_bytes bs) bs tt.
Proof. done. Qed.

Lemma emits_bind {A B} (m : Enc A) (k : A -> Enc B) b1 b2 a b :
  emits m b1 a -> emits (k a) b2 b -> emits (mbind k m) (b1 ++ b2) b.
Proof.
  intros Hm Hk out. unfold mbind, M_bind. rewrite Hm, Hk. by rewrite app_assoc.
Qed.

Lemma emits_fail_if (c : bool) msg : c = false -> emits (fail_if c msg) [] tt.
Proof. intros -> out. by rewrite app_nil_r. Qed.

Lemma parses_ret {A} (a : A) : parses (fun _ => mret a) [] a.
Proof. intros pre suf _. by rewrite app_nil_r. Qed.

Lemma parses_bind {A B} (m : Dec A) (k : A -> Dec B) b1 b2 a b :
  parses m b1 a -> parses (k a) b2 b ->
  parses (fun p => mbind (fun x => k x p) (m p)) (b1 ++ b2) b.
Proof.
  intros Hm Hk pre suf Hs. unfold mbind, M_bind.
  rewrite <- (app_assoc b1 b2 suf) in Hs |- *. rewrite (Hm pre (b2 ++ suf)) by done.
  rewrite (app_assoc pre b1 (b2 ++ suf)) in Hs |- *. rewrite Hk by done.
  by rewrite <- app_assoc.
Qed.

Lemma parses_fail_if (c : bool) msg : c = false -> parses (fun _ => fail_if c msg) [] tt.
Proof. intros -> pre suf _. by rewrite app_nil_r. Qed.

Lemma parses_if {A} (c : bool) (d1 d2 : Dec A) bs a :
  parses (if c then d1 else d2) bs a -> parses (fun p => if c then d1 p else d2 p) bs a.
Proof. by destruct c. Qed.

(** The last read of a decoder, and the steps that read nothing. *)
Lemma parses_bind_last {A B} (m : Dec A) (k : A -> Dec B) bs a b :
  parses m bs a -> parses (k a) [] b -> parses (fun p => mbind (fun x => k x p) (m p)) bs b.
Proof. intros Hm Hk. rewrite <- (app_nil_r bs). by eapply parses_bind. Qed.

Lemma parses_check {B} (k : Dec B) (c : bool) msg bs b :
  c = false -> parses k bs b -> parses (fun p => mbind (fun _ => k p) (fail_if c msg)) bs b.
Proof. intros -> Hk. exact Hk. Qed.

Lemma parses_pure {A B} (k : A -> Dec B) a bs b :
  parses (k a) bs b -> parses (fun p => mbind (fun x => k x p) (mret a)) bs b.
Proof. intros Hk. exact Hk. Qed.

Lemma parses_get {B} (k : Z -> Dec B) bs b :
  (forall off, parses (k off) bs b) -> parses (fun p => mbind (fun x => k x p) get) bs b.
Proof. intros Hk pre suf. apply (Hk (SwByteArray.size pre)). Qed.

Lemma emits_check {B} (k : Enc B) (c : bool) msg bs b :
  c = false -> emits k bs b -> emits (mbind (fun _ => k) (fail_if c msg)) bs b.
Proof. intros -> Hk. exact Hk. Qed.

Lemma emits_pure {A B} (k : A -> Enc B) a bs b :
  emits (k a) bs b -> emits (mbind k (mret a)) bs b.
Proof. intros Hk. exact Hk. Qed.

Lemma advances_get {B} (k : Z -> Dec B) :
  (forall p off, 0 <= off <= SwByteArray.size p -> SwByteArray.size p < u64_modulus ->
     off <= (k off p off).2 <= SwByteArray.size p /\ (k off p off).1 <> NoFuel) ->
  advances (fun p => mbind (fun x => k x p) get).
Proof. intros Hk p off Hoff Hp. by apply Hk. Qed.

Lemma advances_ret {A} (a : A) : advances (fun _ => mret a).
Proof. intros p off Hoff _. simpl. split; [lia|done]. Qed.

Lemma advances_throw {A} msg : advances (fun _ => @throw _ A msg).
Proof. intros p off Hoff _. simpl. split; [lia|done]. Qed.

Lemma advances_bind {A B} (m : Dec A) (k : A -> Dec B) :
  advances m -> (forall a, advances (k a)) ->
  advances (fun p => mbind (fun x => k x p) (m p)).
Proof.
  intros Hm Hk p off Hoff Hp. unfold mbind, M_bind.
  destruct (Hm p off Hoff Hp) as [H1 H2]. destruct (m p off) as [[a|e|] off'] eqn:E; simpl in *.
  - destruct (Hk a p off' ltac:(lia) Hp) as [H3 H4]. split; [lia|done].
  - split; [lia|done].
  - done.
Qed.

Lemma advances_fail_if (c : bool) msg : advances (fun _ => fail_if c msg).
Proof. destruct c; [apply advances_throw|apply advances_ret]. Qed.

Lemma advances_if {A} (c : bool) (d1 d2 : Dec A) :
  advances d1 -> advances d2 -> advances (fun p => if c then d1 p else d2 p).
Proof. by destruct c. Qed.

(** Every value decoder [d] returns satisfies [P]. *)
Definition returns {A} (d : Dec A) (P : A -> Prop) : Prop :=
  forall p off a off', 0 <= off <= SwByteArray.size p -> SwByteArray.size p < u64_modulus ->
  d p off = (Ok a, off') -> P a.

(** Sequencing when the rest of the decoder needs to know something of the value read. *)
Lemma advances_bind_post {A B} (P : A -> Prop) (m : Dec A) (k : A -> Dec B) :
  advances m -> returns m P -> (forall a, P a -> advances (k a)) ->
  advances (fun p => mbind (fun x => k x p) (m p)).
Proof.
  intros Hm HP Hk p off Hoff Hp. unfold mbind, M_bind.
  destruct (Hm p off Hoff Hp) as [H1 H2]. destruct (m p off) as [[a|e|] off'] eqn:E; simpl in *.
  - destruct (Hk a (HP _ _ _ _ Hoff Hp E) p off' ltac:(lia) Hp) as [H3 H4]. split; [lia|done].
  - split; [lia|done].
  - done.
Qed.

Lemma returns_ret {A} (a : A) (P : A -> Prop) : P a -> returns (fun _ => mret a) P.
Proof. intros Ha p off b off' _ _ [= <- _]. done. Qed.

Lemma returns_throw {A} msg (P : A -> Prop) : returns (fun _ => throw msg) P.
Proof. intros p off b off' _ _ H. discriminate H. Qed.

Lemma returns_check {B} (k : Dec B) (c : bool) msg (Q : B -> Prop) :
  (c = false -> returns k Q) -> returns (fun p => mbind (fun _ => k p) (fail_if c msg)) Q.
Proof. destruct c; intros Hk; [intros p off a off' _ _ H; discriminate H|by apply Hk]. Qed.

Lemma returns_bind {A B} (m : Dec A) (k : A -> Dec B) (P : A -> Prop) (Q : B -> Prop) :
  advances m -> returns m P -> (forall a, P a -> returns (k a) Q) ->
  returns (fun p => mbind (fun x => k x p) (m p)) Q.
Proof.
  intros Hma Hm Hk p off b off' Hoff Hp H. apply bind_ok in H as (a & s & H1 & H2).
  pose proof (proj1 (Hma p off Hoff Hp)) as Hb. rewrite H1 in Hb; simpl in Hb.
  by apply (Hk a (Hm _ _ _ _ Hoff Hp H1) p s b off' ltac:(lia) Hp H2).
Qed.

(** A decoder whose first step consumes a byte consumes a byte. *)
Lemma consumes_bind {A B} (m : Dec A) (k : A -> Dec B) :
  advances m -> consumes m -> (forall a, advances (k a)) ->
  consumes (fun p => mbind (fun x => k x p) (m p)).
Proof.
  intros Hma Hm Hk p off b off' Hoff Hp H. apply bind_ok in H as (a & s & H1 & H2).
  pose proof (Hm _ _ _ _ Hoff Hp H1). pose proof (proj1 (Hma p off Hoff Hp)) as Hb.
  rewrite H1 in Hb; simpl in Hb.
  pose proof (proj1 (Hk a p s ltac:(lia) Hp)) as Hc. rewrite H2 in Hc. simpl in Hc. lia.
Qed.

Lemma appends_ret {A} (a : A) : appends (mret a).
Proof. intros out. exists []. by rewrite app_nil_r. Qed.

Lemma appends_byte v : appends (emit_byte v).
Proof. intros out. by eexists. Qed.

Lemma appends_bytes bs : appends (emit_bytes bs).
Proof. intros out. by eexists. Qed.

Lemma appends_throw {A} msg : appends (@throw _ A msg).
Proof. intros out. exists []. by rewrite app_nil_r. Qed.

Lemma appends_fail_if (c : bool) msg : appends (fail_if c msg).
Proof. destruct c; [apply appends_throw|apply appends_ret]. Qed.

Lemma appends_bind {A B} (m : Enc A) (k : A -> Enc B) :
  appends m -> (forall a, appends (k a)) -> appends (mbind k m).
Proof.
  intros Hm Hk out. unfold mbind, M_bind. destruct (Hm out) as [b1 H1].
  destruct (m out) as [[a|e|] out'] eqn:E; simpl in *; [|by eauto..].
  destruct (Hk a out') as [b2 H2]. exists (b1 ++ b2). by rewrite H2, H1, app_assoc.
Qed.

Lemma parses_of_result {B A} (r : result A) (k : A -> Dec B) a bs b :
  r = Ok a -> parses (k a) bs b -> parses (fun p => mbind (fun x => k x p) (of_result r)) bs b.
Proof. intros -> Hk. exact Hk. Qed.

(** The check that [n] more bytes are there, before a read that takes at least [n]. *)
Lemma parses_check_rest {B} (k : Dec B) n msg bs b :
  n <= SwByteArray.size bs -> parses k bs b ->
  parses (fun p => mbind (fun off => mbind (fun _ => k p)
    (fail_if (SwByteArray.size p -u off <? n) msg)) get) bs b.
Proof.
  intros Hn Hk pre suf Hs. pose proof (Hk pre suf Hs) as H. m_run.
  pose proof (SwByteArray.size_nonneg suf). pose proof (SwByteArray.size_nonneg pre).
  pose proof (SwByteArray.size_nonneg bs).
  rewrite !SwByteArray.size_app in *. unfold int_max in Hs. rewrite sub64_small by lia.
  destruct (Z.ltb_spec (SwByteArray.size pre + (SwByteArray.size bs + SwByteArray.size suf)
    - SwByteArray.size pre) n); [lia|exact H].
Qed.

Lemma advances_of_result {A} (r : result A) : r <> NoFuel -> advances (fun _ => of_result r).
Proof. intros Hr p off Hoff _. simpl. split; [lia|done]. Qed.

Lemma returns_of_result {A} (r : result A) (P : A -> Prop) :
  (forall a, r = Ok a -> P a) -> returns (fun _ => of_result r) P.
Proof. intros H p off a off' _ _ E. injection E as Hr _. by apply H. Qed.

Lemma returns_weaken {A} (d : Dec A) : returns d (fun _ => True).
Proof. by intros p off a off' _ _ _. Qed.

(** A look at the byte a decoder stands on. *)
Lemma parses_peek {B} (k : Z -> Dec B) msg b bs a :
  parses (k (b2z b)) (b :: bs) a ->
  parses (fun p => mbind (fun off => mbind (fun _ => k (SwByteArray.byteAt p off) p)
    (fail_if (SwByteArray.size p <=? off) msg)) get) (b :: bs) a.
Proof.
  intros Hk pre suf Hs. pose proof (Hk pre suf Hs) as H. m_run.
  rewrite SwByteArray.byteAt_head. rewrite !SwByteArray.size_app in *.
  pose proof (SwByteArray.size_nonneg suf). pose proof (SwByteArray.size_nonneg bs).
  rewrite SwByteArray.size_cons in *.
  destruct (Z.leb_spec (SwByteArray.size pre + (1 + SwByteArray.size bs + SwByteArray.size suf))
    (SwByteArray.size pre)); [lia|exact H].
Qed.

Lemma returns_if {A} (c : bool) (d1 d2 : Dec A) P :
  returns d1 P -> returns d2 P -> returns (fun p => if c then d1 p else d2 p) P.
Proof. by destruct c. Qed.

Lemma consumes_if {A} (c : bool) (d1 d2 : Dec A) :
  consumes d1 -> consumes d2 -> consumes (fun p => if c then d1 p else d2 p).
Proof. by destruct c. Qed.

Lemma consumes_check {B} (k : Dec B) (c : bool) msg :
  consumes k -> consumes (fun p => mbind (fun _ => k p) (fail_if c msg)).
Proof. destruct c; intros Hk p off a off' Hoff Hp H; [discriminate H|by apply (Hk p off a off')]. Qed.

Lemma consumes_throw {A} msg : consumes (fun _ => @throw _ A msg).
Proof. intros p off a off' _ _ H. discriminate H. Qed.

Create HintDb codec discriminated.
#[export] Hint Constants Opaque : codec.
#[export] Hint Resolve emits_ret emits_byte emits_bytes emits_fail_if
  parses_ret parses_fail_if
  advances_ret advances_throw advances_fail_if
  appends_ret appends_byte appends_bytes appends_throw appends_fail_if : codec.

(** Structural decomposition of [advances] and [appends] goals. *)
Ltac solve_advances :=
  repeat first
    [ solve [eauto 3 with codec]
    | apply advances_bind; [|intros ?]
    | apply advances_if ].

Ltac solve_appends :=
  repeat first
    [ solve [eauto 3 with codec]
    | apply appends_bind; [|intros ?]
    | match goal with |- appends (if ?c then _ else _) => destruct c end ].

(** Runs an encoder, step by step, against the bytes it emits. *)
Ltac emit_steps :=
  repeat first
    [ solve [eauto 4 with codec]
    | apply emits_check; [solve [eauto with codec | zbool; lia | lia]|]
    | apply emits_pure
    | eapply emits_bind; [solve [eauto 4 with codec]|] ].

(** Runs a decoder, step by step, against the bytes it is given. *)
Ltac parse_steps :=
  repeat first
    [ solve [eauto 4 with codec]
    | apply parses_check; [solve [eauto with codec | zbool; lia | lia]|]
    | apply parses_pure
    | eapply parses_bind; [solve [eauto 4 with codec]|]
    | eapply parses_bind_last; [solve [eauto 4 with codec]|]
    | apply parses_get; intros ? ].

(** * The interface of a wire format *)
Class Codec (A : Type) := {
  codec_encode : A -> Enc unit;
  codec_decode : Dec A;
  codec_valid : A -> Prop;
  codec_wire : A -> list byte;
  codec_emits : forall a, codec_valid a -> emits (codec_encode a) (codec_wire a) tt;
  codec_parses : forall a, codec_valid a -> parses codec_decode (codec_wire a) a;
}.

(** What every client of a wire format may rely on. *)
Lemma codec_roundtrip `{Codec A} a pre suf :
  codec_valid a ->
  SwByteArray.size (pre ++ codec_wire a ++ suf) <= int_max ->
  exists out, codec_encode a pre = (Ok tt, out) /\
    codec_decode (out ++ suf) (SwByteArray.size pre) = (Ok a, SwByteArray.size out).
Proof.
  intros Hv Hs. exists (pre ++ codec_wire a). split; [by apply codec_emits|].
  rewrite <- app_assoc. by apply codec_parses.
Qed.
