(* ===== verification/VarInt.v ===== *)
(** QUIC variable-length integers:
    src/src/core/io/quic/SwQuicVarIntCodec.h. *)
From Stdlib Require Import ZArith Lia.
From stdpp Require Import base list strings numbers.
From S2P Require Import Prelude ByteArray Codec.

Module SwQuicVarIntCodec.

Definition maxValue : Z := 0x3fffffffffffffff.

(** The loop of [appendBigEndian_]: bytes [i .. byteCount-1] of [value]. *)
Fixpoint appendBigEndian_from (value byteCount : Z) (i : Z) (todo : nat) : Enc unit :=
  match todo with
  | O => mret tt
  | S todo' =>
      let shift := (byteCount - 1 - i) * 8 in
      emit_byte (Z.land (Z.shiftr value shift) 0xff);;
      appendBigEndian_from value byteCount (i + 1) todo'
  end.

Definition appendBigEndian_ (value byteCount : Z) : Enc unit :=
  appendBigEndian_from value byteCount 0 (Z.to_nat byteCount).

Definition encode (value : Z) : Enc unit :=
  if maxValue <? value then throw "QUIC variable integer is too large" else
  if value <=? 0x3f then emit_byte value
  else if value <=? 0x3fff then appendBigEndian_ (Z.lor value 0x4000) 2
  else if value <=? 0x3fffffff then appendBigEndian_ (Z.lor value 0x80000000) 4
  else appendBigEndian_ (Z.lor value 0xc000000000000000) 8.

(** The accumulation loop of [decode]: [todo] bytes of [bytes] from [offset + i]. *)
Fixpoint accumulate (bytes : list byte) (offset i : Z) (todo : nat) (encoded : Z) : Z :=
  match todo with
  | O => encoded
  | S todo' =>
      accumulate bytes offset (i + 1) todo'
        (Z.lor (shl64 encoded 8) (SwByteArray.byteAt bytes (offset + i)))
  end.

Definition decode (bytes : list byte) : M Z Z :=
  offset ← get;
  fail_if (SwByteArray.size bytes <=? offset) "QUIC variable integer is missing";;
  let first := SwByteArray.byteAt bytes offset in
  let prefix := Z.shiftr first 6 in
  let byteCount := Z.shiftl 1 prefix in
  fail_if (SwByteArray.size bytes -u offset <? byteCount) "QUIC variable integer is truncated";;
  let encoded := accumulate bytes offset 0 (Z.to_nat byteCount) 0 in
  let outValue :=
    if byteCount =? 1 then Z.land encoded 0x3f
    else if byteCount =? 2 then Z.land encoded 0x3fff
    else if byteCount =? 4 then Z.land encoded 0x3fffffff
    else Z.land encoded maxValue in
  put (offset +u byteCount);;
  mret outValue.

Definition encodedSize (value : Z) : Z * bool :=
  let ok := value <=? maxValue in
  (if value <=? 0x3f then 1
   else if value <=? 0x3fff then 2
   else if value <=? 0x3fffffff then 4
   else if value <=? maxValue then 8
   else 0, ok).

(** The values the format can carry. *)
Definition valid (v : Z) : Prop := 0 <= v <= maxValue.

(** The wire form: the value, with the length class in the two top bits. *)
Definition wire (v : Z) : list byte :=
  if v <=? 0x3f then be_bytes 1 v
  else if v <=? 0x3fff then be_bytes 2 (v + 0x4000)
  else if v <=? 0x3fffffff then be_bytes 4 (v + 0x80000000)
  else be_bytes 8 (v + 0xc000000000000000).

Lemma appendBigEndian_from_emits value n todo : forall i, n = i + Z.of_nat todo ->
  emits (appendBigEndian_from value n i todo) (be_bytes todo value) tt.
Proof.
  induction todo as [|todo IH]; intros i Hn; [apply emits_ret|].
  rewrite be_bytes_front. cbn [appendBigEndian_from].
  apply (emits_bind _ _ [_] _ tt); [|apply IH; lia].
  apply emits_byte_eq. rewrite z2b_land_255. replace ((n - 1 - i) * 8) with (8 * Z.of_nat todo) by lia.
  rewrite Z.shiftr_div_pow2 by lia. by rewrite Z.pow_mul_r by lia.
Qed.

Lemma appendBigEndian_emits value n :
  0 <= n -> emits (appendBigEndian_ value n) (be_bytes (Z.to_nat n) value) tt.
Proof. intros Hn. apply appendBigEndian_from_emits. lia. Qed.

Lemma encode_emits v : valid v -> emits (encode v) (wire v) tt.
Proof.
  unfold valid, encode, wire, maxValue. intros Hv.
  destruct (0x3fffffffffffffff <? v) eqn:E; [lia|]. clear E.
  repeat case_match; try lia.
  - apply emits_byte.
  - rewrite (lor_disjoint v 0x4000 1 14) by lia. by apply appendBigEndian_emits.
  - rewrite (lor_disjoint v 0x80000000 2 30) by lia. by apply appendBigEndian_emits.
  - rewrite (lor_disjoint v 0xc000000000000000 3 62) by lia. by apply appendBigEndian_emits.
Qed.

Lemma accumulate_spec b2 : forall pre b1 suf e,
  (length b2 <= 8)%nat -> 0 <= e -> e * 256 ^ zlen b2 + 256 ^ zlen b2 <= u64_modulus ->
  accumulate (pre ++ b1 ++ b2 ++ suf) (SwByteArray.size pre) (SwByteArray.size b1)
    (length b2) e = e * 256 ^ zlen b2 + be_value b2.
Proof.
  induction b2 as [|b b2 IH]; intros pre b1 suf e Hl He Hb.
  - unfold be_value. simpl. lia.
  - simpl length in *. cbn [accumulate].
    rewrite Nat2Z.inj_succ, Z.pow_succ_r in Hb |- * by lia.
    assert (0 < 256 ^ zlen b2) by (apply Z.pow_pos_nonneg; lia).
    replace (pre ++ b1 ++ (b :: b2) ++ suf) with ((pre ++ b1) ++ b :: b2 ++ suf)
      by by rewrite <- !app_assoc.
    rewrite <- SwByteArray.size_app, SwByteArray.byteAt_middle.
    rewrite shl8_lor by (unfold u64_modulus in Hb; nia).
    replace ((pre ++ b1) ++ b :: b2 ++ suf) with (pre ++ (b1 ++ [b]) ++ b2 ++ suf)
      by by rewrite <- !app_assoc.
    replace (SwByteArray.size b1 + 1) with (SwByteArray.size (b1 ++ [b]))
      by (rewrite SwByteArray.size_app; done).
    pose proof (b2z_range b).
    rewrite IH by (try lia; unfold u64_modulus in *; nia).
    unfold be_value at 2. simpl fold_left. rewrite be_value_fold. lia.
Qed.

Lemma accumulate_be_value pre bs suf :
  (length bs <= 8)%nat ->
  accumulate (pre ++ bs ++ suf) (SwByteArray.size pre) 0 (length bs) 0 = be_value bs.
Proof.
  intros Hl. apply (accumulate_spec bs pre [] suf 0 Hl); [lia|].
  assert (256 ^ zlen bs <= 256 ^ 8) by (apply Z.pow_le_mono_r; lia).
  change (256 ^ 8) with u64_modulus in *. lia.
Qed.

(** Decoding a byte string whose first byte announces its own length. *)
Lemma decode_prefixed pre b bs suf c :
  SwByteArray.size (pre ++ (b :: bs) ++ suf) <= int_max ->
  0 <= c <= 3 -> b2z b / 64 = c -> SwByteArray.size (b :: bs) = 2 ^ c ->
  decode (pre ++ (b :: bs) ++ suf) (SwByteArray.size pre) =
    (Ok (be_value (b :: bs) mod 2 ^ (8 * 2 ^ c - 2)),
     SwByteArray.size (pre ++ b :: bs)).
Proof.
  intros Hs Hc Hb Hn. unfold decode, mbind, M_bind, get, put, mret, M_ret.
  pose proof (SwByteArray.size_nonneg suf). pose proof (SwByteArray.size_nonneg pre).
  pose proof (Z.pow_pos_nonneg 2 c ltac:(lia) ltac:(lia)).
  rewrite !SwByteArray.size_app in *. unfold int_max in Hs.
  destruct (SwByteArray.size pre + _ <=? _) eqn:E1; [lia|]. clear E1. cbn [fail_if].
  rewrite SwByteArray.byteAt_head, Z.shiftr_div_pow2 by lia. change (2 ^ 6) with 64.
  rewrite Hb, Z.shiftl_1_l, sub64_small by lia.
  destruct (_ <? 2 ^ c) eqn:E2; [lia|]. clear E2.
  rewrite add64_small by lia. unfold mret, M_ret. do 2 f_equal; [|lia].
  assert (Z.to_nat (2 ^ c) = length (b :: bs)) as -> by (rewrite <- Hn; unfold SwByteArray.size; lia).
  rewrite accumulate_be_value; cycle 1.
  { assert (2 ^ c <= 2 ^ 3) by (apply Z.pow_le_mono_r; lia).
    unfold SwByteArray.size in *. lia. }
  assert (c = 0 \/ c = 1 \/ c = 2 \/ c = 3) as [-> | [-> | [-> | ->]]] by lia;
    simpl; unfold maxValue.
  - by rewrite <- (land_mask _ 6).
  - by rewrite <- (land_mask _ 14).
  - by rewrite <- (land_mask _ 30).
  - by rewrite <- (land_mask _ 62).
Qed.

Lemma decode_class n v c :
  0 <= c <= 3 -> Z.of_nat n + 1 = 2 ^ c -> 0 <= v < 64 * 256 ^ Z.of_nat n ->
  parses decode (be_bytes (S n) (v + c * (64 * 256 ^ Z.of_nat n))) v.
Proof.
  intros Hc Hn Hv pre suf Hs. set (m := 256 ^ Z.of_nat n) in *.
  assert (0 < m) by (apply Z.pow_pos_nonneg; lia).
  assert ((v + c * (64 * m)) / m / 64 = c) as Hq.
  { rewrite Z.div_div by lia. rewrite (Z.mul_comm m 64), Z.div_add by lia.
    rewrite Z.div_small by lia. lia. }
  assert (0 <= (v + c * (64 * m)) / m < 256) as Hr.
  { split; [apply Z.div_pos; nia|]. apply Z.div_lt_upper_bound; nia. }
  pose proof (be_value_be_bytes (S n) (v + c * (64 * m))) as Hbv.
  rewrite be_bytes_front in *. fold m in Hs, Hbv |- *.
  rewrite (decode_prefixed _ _ _ _ c Hs Hc).
  - rewrite Hbv.
    2:{ rewrite Nat2Z.inj_succ, Z.pow_succ_r by lia. fold m. nia. }
    do 3 f_equal. rewrite <- Hn.
    replace (8 * (Z.of_nat n + 1) - 2) with (6 + 8 * Z.of_nat n) by lia.
    rewrite Z.pow_add_r, Z.pow_mul_r by lia. change (2 ^ 6) with 64. change (2 ^ 8) with 256.
    fold m. rewrite Z.mod_add by lia. by apply Z.mod_small.
  - by rewrite b2z_z2b_small by done.
  - rewrite SwByteArray.size_cons. unfold SwByteArray.size. rewrite length_be_bytes. lia.
Qed.

Lemma decode_parses v : valid v -> parses decode (wire v) v.
Proof.
  unfold valid, wire, maxValue. intros Hv. repeat case_match; try lia.
  - pose proof (decode_class 0 v 0) as H1. rewrite Z.add_0_r in H1. apply H1; simpl; lia.
  - apply (decode_class 1 v 1); simpl; lia.
  - apply (decode_class 3 v 2); simpl; lia.
  - apply (decode_class 7 v 3); simpl; lia.
Qed.

Lemma size_wire v : valid v -> SwByteArray.size (wire v) = (encodedSize v).1.
Proof.
  unfold valid, wire, encodedSize, SwByteArray.size, maxValue. intros Hv. simpl.
  repeat case_match; rewrite ?length_be_bytes; simpl; lia.
Qed.

Lemma accumulate_nonneg p off todo : forall i e, 0 <= e -> 0 <= accumulate p off i todo e.
Proof.
  induction todo as [|todo IH]; intros i e He; [done|]. apply IH.
  apply Z.lor_nonneg. split; [apply wrap64_range|apply SwByteArray.byteAt_range].
Qed.

(** Every run: an error that leaves the offset alone, or a value in range and
    at least one byte consumed. *)
Lemma decode_cases p off :
  0 <= off <= SwByteArray.size p -> SwByteArray.size p < u64_modulus ->
  (exists msg, decode p off = (Err msg, off)) \/
  (exists v n, decode p off = (Ok v, off + n) /\ 1 <= n <= SwByteArray.size p - off /\ valid v).
Proof.
  intros Hoff Hp. unfold u64_modulus in Hp.
  unfold decode, mbind, M_bind, get, put, mret, M_ret, fail_if.
  destruct (SwByteArray.size p <=? off) eqn:E1; [left; by eexists|].
  pose proof (SwByteArray.byteAt_range p off) as Hb.
  rewrite sub64_small, Z.shiftl_1_l, Z.shiftr_div_pow2 by lia. change (2 ^ 6) with 64.
  set (c := SwByteArray.byteAt p off / 64).
  assert (0 <= c <= 3) as Hc.
  { split; [apply Z.div_pos; lia|]. apply Z.lt_succ_r. apply Z.div_lt_upper_bound; lia. }
  assert (0 < 2 ^ c) by (apply Z.pow_pos_nonneg; lia).
  destruct (_ <? 2 ^ c) eqn:E2; [left; by eexists|]. right.
  rewrite add64_small by lia. eexists _, (2 ^ c). split; [done|]. split; [lia|].
  pose proof (accumulate_nonneg p off (Z.to_nat (2 ^ c)) 0 0 ltac:(lia)) as Ha.
  set (x := accumulate _ _ _ _ _) in *. unfold valid, maxValue.
  pose proof (land_mask x 6 ltac:(lia)) as H6. pose proof (land_mask x 14 ltac:(lia)) as H14.
  pose proof (land_mask x 30 ltac:(lia)) as H30. pose proof (land_mask x 62 ltac:(lia)) as H62.
  change (Z.ones 6) with 0x3f in H6. change (Z.ones 14) with 0x3fff in H14.
  change (Z.ones 30) with 0x3fffffff in H30. change (Z.ones 62) with 0x3fffffffffffffff in H62.
  rewrite H6, H14, H30, H62.
  pose proof (Z.mod_pos_bound x (2 ^ 6) ltac:(lia)). pose proof (Z.mod_pos_bound x (2 ^ 14) ltac:(lia)).
  pose proof (Z.mod_pos_bound x (2 ^ 30) ltac:(lia)). pose proof (Z.mod_pos_bound x (2 ^ 62) ltac:(lia)).
  repeat case_match; lia.
Qed.

Lemma decode_advances : advances decode.
Proof.
  intros p off Hoff Hp.
  destruct (decode_cases p off Hoff Hp) as [(m & ->)|(v & n & -> & Hn & _)]; simpl;
    (split; [lia|done]).
Qed.

Lemma decode_consumes : consumes decode.
Proof.
  intros p off a off' Hoff Hp H.
  destruct (decode_cases p off Hoff Hp) as [(m & E)|(v & n & E & Hn & _)];
    rewrite E in H; [done|]. injection H. lia.
Qed.

(** Every decoded value is one the encoder accepts. *)
Lemma decode_returns : returns decode valid.
Proof.
  intros p off a off' Hoff Hp H.
  destruct (decode_cases p off Hoff Hp) as [(m & E)|(v & n & E & Hn & Hv)];
    rewrite E in H; [done|]. injection H as <- _. exact Hv.
Qed.

Lemma encode_appends v : appends (encode v).
Proof.
  assert (forall value n i todo, appends (appendBigEndian_from value n i todo)) as Ha.
  { intros value n i todo. revert i. induction todo as [|todo IH]; intros i; simpl.
    - apply appends_ret.
    - apply appends_bind; [apply appends_byte|]. intros _. apply IH. }
  unfold encode, appendBigEndian_. repeat case_match; auto with codec.
Qed.

Lemma encode_error v : maxValue < v -> forall out, (encode v) out = (Err "QUIC variable integer is too large", out).
Proof. intros Hv out. unfold encode. by destruct (Z.ltb_spec maxValue v); [|lia]. Qed.

(** The interface, implemented. *)
#[export] Instance varint_codec : Codec Z := {|
  codec_encode := encode;
  codec_decode := decode;
  codec_valid := valid;
  codec_wire := wire;
  codec_emits := encode_emits;
  codec_parses := decode_parses;
|}.

(** A value of at most 62 bits is encoded in the shortest of the four
    lengths that holds it, which is what [encodedSize] announces, and decodes to
    itself at any position of any payload; a larger value is refused and nothing
    is appended. *)
Theorem varint_roundtrip v pre suf :
  0 <= v -> SwByteArray.size (pre ++ wire v ++ suf) <= int_max ->
  if v <=? maxValue then
    exists out, encode v pre = (Ok tt, out) /\
      decode (out ++ suf) (SwByteArray.size pre) = (Ok v, SwByteArray.size out) /\
      SwByteArray.size out = SwByteArray.size pre + (encodedSize v).1 /\
      (forall n, In n [1; 2; 4; 8] -> v < 2 ^ (8 * n - 2) -> (encodedSize v).1 <= n)
  else encode v pre = (Err "QUIC variable integer is too large", pre).
Proof.
  intros Hv Hs. destruct (Z.leb_spec v maxValue) as [Hm|Hm]; [|by apply encode_error].
  destruct (codec_roundtrip (A := Z) v pre suf) as (out & He & Hd); [by split|done|].
  exists out. split_and!; [done|done| |].
  - rewrite <- size_wire by by split. pose proof (encode_emits v (conj Hv Hm) pre) as He'.
    change (codec_encode v pre) with (encode v pre) in He. rewrite He in He'.
    injection He' as ->. apply SwByteArray.size_app.
  - unfold encodedSize. simpl. intros n Hn Hlt. unfold maxValue in Hm.
    destruct Hn as [<-|[<-|[<-|[<-|[]]]]]; simpl in Hlt; repeat case_match; lia.
Qed.

Lemma varint_roundtrip_witness :
  exists out, encode 15293 [Byte.xff] = (Ok tt, out) /\
    decode (out ++ [Byte.x00]) 1 = (Ok 15293, SwByteArray.size out) /\
    SwByteArray.size out = 1 + (encodedSize 15293).1 /\
    (forall n, In n [1; 2; 4; 8] -> 15293 < 2 ^ (8 * n - 2) -> (encodedSize 15293).1 <= n).
Proof. apply (varint_roundtrip 15293 [Byte.xff] [Byte.x00]); by_eval. Defined.

End SwQuicVarIntCodec.

#[export] Hint Resolve SwQuicVarIntCodec.encode_emits SwQuicVarIntCodec.decode_parses
  SwQuicVarIntCodec.decode_advances SwQuicVarIntCodec.decode_consumes
  SwQuicVarIntCodec.decode_returns
  SwQuicVarIntCodec.encode_appends : codec.
