(* ===== verification/Frame.v ===== *)
(** QUIC frames as values: src/src/core/io/quic/SwQuicFrame.h.  The class is one
    flat record with a type tag; each static factory starts from the private
    constructor's defaults and sets the members of its frame type. *)
From Stdlib Require Import ZArith Lia.
From stdpp Require Import base list strings numbers.
From S2P Require Import Prelude.

Module SwQuicFrame.

Inductive Type_ :=
| Padding | Ping | Ack | ResetStream | ResetStreamAt | StopSending | Crypto | NewToken
| Stream | MaxData | MaxStreamData | MaxStreams | DataBlocked | StreamDataBlocked
| StreamsBlocked | NewConnectionId | RetireConnectionId | PathChallenge | PathResponse
| ConnectionClose | HandshakeDone | Datagram.

#[global] Instance Type_eq_decision : EqDecision Type_.
Proof. solve_decision. Defined.

Record AckRange := { gap : Z; rangeLength : Z }.

#[global] Instance AckRange_eq_decision : EqDecision AckRange.
Proof. solve_decision. Defined.

Record t := mk {
  m_type : Type_;
  m_paddingLength : Z;
  m_largestAcknowledged : Z;
  m_ackDelay : Z;
  m_firstAckRange : Z;
  m_ackRanges : list AckRange;
  m_hasEcn : bool;
  m_ect0Count : Z;
  m_ect1Count : Z;
  m_ecnCeCount : Z;
  m_streamId : Z;
  m_offset : Z;
  m_data : list byte;
  m_fin : bool;
  m_finalSize : Z;
  m_reliableSize : Z;
  m_maximum : Z;
  m_bidirectional : bool;
  m_sequenceNumber : Z;
  m_retirePriorTo : Z;
  m_connectionId : list byte;
  m_statelessResetToken : list byte;
  m_errorCode : Z;
  m_errorFrameType : Z;
  m_reasonPhrase : list byte;
  m_applicationClose : bool;
}.

(** The private constructor [SwQuicFrame(Type type)]. *)
Definition make (type : Type_) : t := {|
  m_type := type;
  m_paddingLength := 1;
  m_largestAcknowledged := 0;
  m_ackDelay := 0;
  m_firstAckRange := 0;
  m_ackRanges := [];
  m_hasEcn := false;
  m_ect0Count := 0;
  m_ect1Count := 0;
  m_ecnCeCount := 0;
  m_streamId := 0;
  m_offset := 0;
  m_data := [];
  m_fin := false;
  m_finalSize := 0;
  m_reliableSize := 0;
  m_maximum := 0;
  m_bidirectional := true;
  m_sequenceNumber := 0;
  m_retirePriorTo := 0;
  m_connectionId := [];
  m_statelessResetToken := [];
  m_errorCode := 0;
  m_errorFrameType := 0;
  m_reasonPhrase := [];
  m_applicationClose := false;
|}.

(** Member assignments [frame.m_x = v]. *)
Definition set_m_paddingLength (v' : Z) (frame : t) : t :=
  let '(mk a _ c d e f g h i j k l m n o p q r s t u v w x y z) := frame in
  mk a v' c d e f g h i j k l m n o p q r s t u v w x y z.

Definition set_m_largestAcknowledged (v' : Z) (frame : t) : t :=
  let '(mk a b _ d e f g h i j k l m n o p q r s t u v w x y z) := frame in
  mk a b v' d e f g h i j k l m n o p q r s t u v w x y z.

Definition set_m_ackDelay (v' : Z) (frame : t) : t :=
  let '(mk a b c _ e f g h i j k l m n o p q r s t u v w x y z) := frame in
  mk a b c v' e f g h i j k l m n o p q r s t u v w x y z.

Definition set_m_firstAckRange (v' : Z) (frame : t) : t :=
  let '(mk a b c d _ f g h i j k l m n o p q r s t u v w x y z) := frame in
  mk a b c d v' f g h i j k l m n o p q r s t u v w x y z.

Definition set_m_ackRanges (v' : list AckRange) (frame : t) : t :=
  let '(mk a b c d e _ g h i j k l m n o p q r s t u v w x y z) := frame in
  mk a b c d e v' g h i j k l m n o p q r s t u v w x y z.

Definition set_m_hasEcn (v' : bool) (frame : t) : t :=
  let '(mk a b c d e f _ h i j k l m n o p q r s t u v w x y z) := frame in
  mk a b c d e f v' h i j k l m n o p q r s t u v w x y z.

Definition set_m_ect0Count (v' : Z) (frame : t) : t :=
  let '(mk a b c d e f g _ i j k l m n o p q r s t u v w x y z) := frame in
  mk a b c d e f g v' i j k l m n o p q r s t u v w x y z.

Definition set_m_ect1Count (v' : Z) (frame : t) : t :=
  let '(mk a b c d e f g h _ j k l m n o p q r s t u v w x y z) := frame in
  mk a b c d e f g h v' j k l m n o p q r s t u v w x y z.

Definition set_m_ecnCeCount (v' : Z) (frame : t) : t :=
  let '(mk a b c d e f g h i _ k l m n o p q r s t u v w x y z) := frame in
  mk a b c d e f g h i v' k l m n o p q r s t u v w x y z.

Definition set_m_streamId (v' : Z) (frame : t) : t :=
  let '(mk a b c d e f g h i j _ l m n o p q r s t u v w x y z) := frame in
  mk a b c d e f g h i j v' l m n o p q r s t u v w x y z.

Definition set_m_offset (v' : Z) (frame : t) : t :=
  let '(mk a b c d e f g h i j k _ m n o p q r s t u v w x y z) := frame in
  mk a b c d e f g h i j k v' m n o p q r s t u v w x y z.

Definition set_m_data (v' : list byte) (frame : t) : t :=
  let '(mk a b c d e f g h i j k l _ n o p q r s t u v w x y z) := frame in
  mk a b c d e f g h i j k l v' n o p q r s t u v w x y z.

Definition set_m_fin (v' : bool) (frame : t) : t :=
  let '(mk a b c d e f g h i j k l m _ o p q r s t u v w x y z) := frame in
  mk a b c d e f g h i j k l m v' o p q r s t u v w x y z.

Definition set_m_finalSize (v' : Z) (frame : t) : t :=
  let '(mk a b c d e f g h i j k l m n _ p q r s t u v w x y z) := frame in
  mk a b c d e f g h i j k l m n v' p q r s t u v w x y z.

Definition set_m_reliableSize (v' : Z) (frame : t) : t :=
  let '(mk a b c d e f g h i j k l m n o _ q r s t u v w x y z) := frame in
  mk a b c d e f g h i j k l m n o v' q r s t u v w x y z.

Definition set_m_maximum (v' : Z) (frame : t) : t :=
  let '(mk a b c d e f g h i j k l m n o p _ r s t u v w x y z) := frame in
  mk a b c d e f g h i j k l m n o p v' r s t u v w x y z.

Definition set_m_bidirectional (v' : bool) (frame : t) : t :=
  let '(mk a b c d e f g h i j k l m n o p q _ s t u v w x y z) := frame in
  mk a b c d e f g h i j k l m n o p q v' s t u v w x y z.

Definition set_m_sequenceNumber (v' : Z) (frame : t) : t :=
  let '(mk a b c d e f g h i j k l m n o p q r _ t u v w x y z) := frame in
  mk a b c d e f g h i j k l m n o p q r v' t u v w x y z.

Definition set_m_retirePriorTo (v' : Z) (frame : t) : t :=
  let '(mk a b c d e f g h i j k l m n o p q r s _ u v w x y z) := frame in
  mk a b c d e f g h i j k l m n o p q r s v' u v w x y z.

Definition set_m_connectionId (v' : list byte) (frame : t) : t :=
  let '(mk a b c d e f g h i j k l m n o p q r s t _ v w x y z) := frame in
  mk a b c d e f g h i j k l m n o p q r s t v' v w x y z.

Definition set_m_statelessResetToken (v' : list byte) (frame : t) : t :=
  let '(mk a b c d e f g h i j k l m n o p q r s t u _ w x y z) := frame in
  mk a b c d e f g h i j k l m n o p q r s t u v' w x y z.

Definition set_m_errorCode (v' : Z) (frame : t) : t :=
  let '(mk a b c d e f g h i j k l m n o p q r s t u v _ x y z) := frame in
  mk a b c d e f g h i j k l m n o p q r s t u v v' x y z.

Definition set_m_errorFrameType (v' : Z) (frame : t) : t :=
  let '(mk a b c d e f g h i j k l m n o p q r s t u v w _ y z) := frame in
  mk a b c d e f g h i j k l m n o p q r s t u v w v' y z.

Definition set_m_reasonPhrase (v' : list byte) (frame : t) : t :=
  let '(mk a b c d e f g h i j k l m n o p q r s t u v w x _ z) := frame in
  mk a b c d e f g h i j k l m n o p q r s t u v w x v' z.

Definition set_m_applicationClose (v' : bool) (frame : t) : t :=
  let '(mk a b c d e f g h i j k l m n o p q r s t u v w x y _) := frame in
  mk a b c d e f g h i j k l m n o p q r s t u v w x y v'.

Notation "f |> g" := (g f) (at level 51, left associativity, only parsing) : sw_scope.

Definition padding (length : Z) : t :=
  make Padding |> set_m_paddingLength (if length =? 0 then 1 else length).

Definition ping : t := make Ping.

Definition ack (largestAcknowledged ackDelay firstAckRange : Z) (ackRanges : list AckRange) : t :=
  make Ack |> set_m_largestAcknowledged largestAcknowledged |> set_m_ackDelay ackDelay
    |> set_m_firstAckRange firstAckRange |> set_m_ackRanges ackRanges.

Definition ackWithEcn (largestAcknowledged ackDelay firstAckRange : Z)
    (ackRanges : list AckRange) (ect0Count ect1Count ecnCeCount : Z) : t :=
  ack largestAcknowledged ackDelay firstAckRange ackRanges
    |> set_m_hasEcn true |> set_m_ect0Count ect0Count |> set_m_ect1Count ect1Count
    |> set_m_ecnCeCount ecnCeCount.

Definition resetStream (streamId applicationErrorCode finalSize : Z) : t :=
  make ResetStream |> set_m_streamId streamId |> set_m_errorCode applicationErrorCode
    |> set_m_finalSize finalSize.

Definition resetStreamAt (streamId applicationErrorCode finalSize reliableSize : Z) : t :=
  make ResetStreamAt |> set_m_streamId streamId |> set_m_errorCode applicationErrorCode
    |> set_m_finalSize finalSize |> set_m_reliableSize reliableSize.

Definition stopSending (streamId applicationErrorCode : Z) : t :=
  make StopSending |> set_m_streamId streamId |> set_m_errorCode applicationErrorCode.

Definition crypto (offset : Z) (data : list byte) : t :=
  make Crypto |> set_m_offset offset |> set_m_data data.

Definition newToken (token : list byte) : t := make NewToken |> set_m_data token.

Definition stream (streamId offset : Z) (data : list byte) (fin : bool) : t :=
  make Stream |> set_m_streamId streamId |> set_m_offset offset |> set_m_data data
    |> set_m_fin fin.

Definition maxData (maximumData : Z) : t := make MaxData |> set_m_maximum maximumData.

Definition maxStreamData (streamId maximumStreamData : Z) : t :=
  make MaxStreamData |> set_m_streamId streamId |> set_m_maximum maximumStreamData.

Definition maxStreams (bidirectional : bool) (maximumStreams : Z) : t :=
  make MaxStreams |> set_m_bidirectional bidirectional |> set_m_maximum maximumStreams.

Definition dataBlocked (dataLimit : Z) : t := make DataBlocked |> set_m_maximum dataLimit.

Definition streamDataBlocked (streamId streamDataLimit : Z) : t :=
  make StreamDataBlocked |> set_m_streamId streamId |> set_m_maximum streamDataLimit.

Definition streamsBlocked (bidirectional : bool) (streamLimit : Z) : t :=
  make StreamsBlocked |> set_m_bidirectional bidirectional |> set_m_maximum streamLimit.

Definition newConnectionId (sequenceNumber retirePriorTo : Z)
    (connectionId statelessResetToken : list byte) : t :=
  make NewConnectionId |> set_m_sequenceNumber sequenceNumber
    |> set_m_retirePriorTo retirePriorTo |> set_m_connectionId connectionId
    |> set_m_statelessResetToken statelessResetToken.

Definition retireConnectionId (sequenceNumber : Z) : t :=
  make RetireConnectionId |> set_m_sequenceNumber sequenceNumber.

Definition pathChallenge (data : list byte) : t := make PathChallenge |> set_m_data data.

Definition pathResponse (data : list byte) : t := make PathResponse |> set_m_data data.

Definition connectionClose (errorCode frameType : Z) (reasonPhrase : list byte) : t :=
  make ConnectionClose |> set_m_errorCode errorCode |> set_m_errorFrameType frameType
    |> set_m_reasonPhrase reasonPhrase |> set_m_applicationClose false.

Definition applicationClose (errorCode : Z) (reasonPhrase : list byte) : t :=
  make ConnectionClose |> set_m_errorCode errorCode |> set_m_reasonPhrase reasonPhrase
    |> set_m_applicationClose true.

Definition handshakeDone : t := make HandshakeDone.

Definition datagram (data : list byte) : t := make Datagram |> set_m_data data.

End SwQuicFrame.
