(* ===== verification/FrameCodec.v ===== *)
(** The QUIC frame codec: src/src/core/io/quic/SwQuicFrameCodec.h. *)
From Stdlib Require Import ZArith Lia.
From stdpp Require Import base list strings numbers.
From S2P Require Import Prelude ByteArray Codec VarInt Frame.

Module SwQuicFrameCodec.
Import SwQuicFrame.

Definition readByte_ (bytes : list byte) : M Z Z :=
  offset ← get;
  fail_if (SwByteArray.size bytes <=? offset) "QUIC frame is truncated";;
  put (offset +u 1);;
  mret (SwByteArray.byteAt bytes offset).

Definition appendVarInt_ (value : Z) : Enc unit := SwQuicVarIntCodec.encode value.

Definition readVarInt_ (payload : list byte) : M Z Z := SwQuicVarIntCodec.decode payload.

Definition ensureSizeFits_ {S} (value : Z) : M S unit :=
  fail_if (int_max <? value) "QUIC frame field is too large for SwByteArray slicing".

Definition readSlice_ (payload : list byte) (length : Z) : M Z (list byte) :=
  ensureSizeFits_ length;;
  offset ← get;
  fail_if (SwByteArray.size payload -u offset <? length) "QUIC frame field is truncated";;
  put (offset +u length);;
  mret (SwByteArray.mid payload (to_int offset) (to_int length)).

(** ** Encoders *)

Fixpoint encodeAckRanges_ (ranges : list AckRange) : Enc unit :=
  match ranges with
  | [] => mret tt
  | r :: rest =>
      appendVarInt_ (gap r);; appendVarInt_ (rangeLength r);; encodeAckRanges_ rest
  end.

Definition encodeAck_ (frame : t) : Enc unit :=
  emit_byte (if m_hasEcn frame then 0x03 else 0x02);;
  appendVarInt_ (m_largestAcknowledged frame);;
  appendVarInt_ (m_ackDelay frame);;
  appendVarInt_ (zlen (m_ackRanges frame));;
  appendVarInt_ (m_firstAckRange frame);;
  encodeAckRanges_ (m_ackRanges frame);;
  if m_hasEcn frame then
    appendVarInt_ (m_ect0Count frame);;
    appendVarInt_ (m_ect1Count frame);;
    appendVarInt_ (m_ecnCeCount frame)
  else mret tt.

Definition encodeResetStream_ (frame : t) : Enc unit :=
  emit_byte 0x04;;
  appendVarInt_ (m_streamId frame);;
  appendVarInt_ (m_errorCode frame);;
  appendVarInt_ (m_finalSize frame).

Definition encodeResetStreamAt_ (frame : t) : Enc unit :=
  emit_byte 0x24;;
  appendVarInt_ (m_streamId frame);;
  appendVarInt_ (m_errorCode frame);;
  appendVarInt_ (m_finalSize frame);;
  appendVarInt_ (m_reliableSize frame).

Definition encodeStopSending_ (frame : t) : Enc unit :=
  emit_byte 0x05;;
  appendVarInt_ (m_streamId frame);;
  appendVarInt_ (m_errorCode frame).

Definition encodeCrypto_ (frame : t) : Enc unit :=
  emit_byte 0x06;;
  appendVarInt_ (m_offset frame);;
  appendVarInt_ (SwByteArray.size (m_data frame));;
  emit_bytes (m_data frame).

Definition encodeNewToken_ (frame : t) : Enc unit :=
  emit_byte 0x07;;
  appendVarInt_ (SwByteArray.size (m_data frame));;
  emit_bytes (m_data frame).

Definition encodeStream_ (frame : t) : Enc unit :=
  let frameType := Z.lor 0x08 0x02 in
  let frameType := if 0 <? m_offset frame then Z.lor frameType 0x04 else frameType in
  let frameType := if m_fin frame then Z.lor frameType 0x01 else frameType in
  emit_byte frameType;;
  appendVarInt_ (m_streamId frame);;
  (if 0 <? m_offset frame then appendVarInt_ (m_offset frame) else mret tt);;
  appendVarInt_ (SwByteArray.size (m_data frame));;
  emit_bytes (m_data frame).

Definition encodeNewConnectionId_ (frame : t) : Enc unit :=
  fail_if ((SwByteArray.size (m_connectionId frame) <? 1)
           || (20 <? SwByteArray.size (m_connectionId frame)))
    "QUIC NEW_CONNECTION_ID length is invalid";;
  fail_if (negb (SwByteArray.size (m_statelessResetToken frame) =? 16))
    "QUIC NEW_CONNECTION_ID stateless reset token must be 16 bytes";;
  emit_byte 0x18;;
  appendVarInt_ (m_sequenceNumber frame);;
  appendVarInt_ (m_retirePriorTo frame);;
  emit_byte (SwByteArray.size (m_connectionId frame));;
  emit_bytes (m_connectionId frame);;
  emit_bytes (m_statelessResetToken frame).

Definition encodePathData_ (frame : t) : Enc unit :=
  fail_if (negb (SwByteArray.size (m_data frame) =? 8))
    "QUIC PATH_CHALLENGE/PATH_RESPONSE must carry 8 bytes";;
  emit_byte (if decide (m_type frame = PathResponse) then 0x1b else 0x1a);;
  emit_bytes (m_data frame).

Definition encodeConnectionClose_ (frame : t) : Enc unit :=
  emit_byte (if m_applicationClose frame then 0x1d else 0x1c);;
  appendVarInt_ (m_errorCode frame);;
  (if m_applicationClose frame then mret tt else appendVarInt_ (m_errorFrameType frame));;
  appendVarInt_ (SwByteArray.size (m_reasonPhrase frame));;
  emit_bytes (m_reasonPhrase frame).

Definition encodeDatagram_ (frame : t) : Enc unit :=
  emit_byte 0x31;;
  appendVarInt_ (SwByteArray.size (m_data frame));;
  emit_bytes (m_data frame).

Definition encodeFrame (frame : t) : Enc unit :=
  match m_type frame with
  | Padding => emit_bytes (replicate (Z.to_nat (m_paddingLength frame)) (z2b 0x00))
  | Ping => emit_byte 0x01
  | Ack => encodeAck_ frame
  | ResetStream => encodeResetStream_ frame
  | ResetStreamAt => encodeResetStreamAt_ frame
  | StopSending => encodeStopSending_ frame
  | Crypto => encodeCrypto_ frame
  | NewToken => encodeNewToken_ frame
  | Stream => encodeStream_ frame
  | MaxData => emit_byte 0x10;; appendVarInt_ (m_maximum frame)
  | MaxStreamData =>
      emit_byte 0x11;; appendVarInt_ (m_streamId frame);; appendVarInt_ (m_maximum frame)
  | MaxStreams =>
      emit_byte (if m_bidirectional frame then 0x12 else 0x13);;
      appendVarInt_ (m_maximum frame)
  | DataBlocked => emit_byte 0x14;; appendVarInt_ (m_maximum frame)
  | StreamDataBlocked =>
      emit_byte 0x15;; appendVarInt_ (m_streamId frame);; appendVarInt_ (m_maximum frame)
  | StreamsBlocked =>
      emit_byte (if m_bidirectional frame then 0x16 else 0x17);;
      appendVarInt_ (m_maximum frame)
  | NewConnectionId => encodeNewConnectionId_ frame
  | RetireConnectionId => emit_byte 0x19;; appendVarInt_ (m_sequenceNumber frame)
  | PathChallenge | PathResponse => encodePathData_ frame
  | ConnectionClose => encodeConnectionClose_ frame
  | HandshakeDone => emit_byte 0x1e
  | Datagram => encodeDatagram_ frame
  end.

(** The loop of [encodeFrames], after [outPayload.clear()]. *)
Fixpoint encodeFrames_from (frames : list t) : Enc unit :=
  match frames with
  | [] => mret tt
  | f :: rest => encodeFrame f;; encodeFrames_from rest
  end.

Definition encodeFrames (frames : list t) : Enc unit :=
  put [];; encodeFrames_from frames.

(** ** Decoders *)

Fixpoint decodeAckRanges_ (payload : list byte) (todo : nat) : M Z (list AckRange) :=
  match todo with
  | O => mret []
  | S todo' =>
      gap ← readVarInt_ payload;
      rangeLength ← readVarInt_ payload;
      rest ← decodeAckRanges_ payload todo';
      mret ({| gap := gap; rangeLength := rangeLength |} :: rest)
  end.

Definition decodeAck_ (hasEcn : bool) (payload : list byte) : M Z t :=
  largestAcknowledged ← readVarInt_ payload;
  ackDelay ← readVarInt_ payload;
  ackRangeCount ← readVarInt_ payload;
  firstAckRange ← readVarInt_ payload;
  fail_if (8192 <? ackRangeCount) "QUIC ACK frame has too many ranges for this decoder";;
  ranges ← decodeAckRanges_ payload (Z.to_nat ackRangeCount);
  if hasEcn then
    ect0 ← readVarInt_ payload;
    ect1 ← readVarInt_ payload;
    ecnCe ← readVarInt_ payload;
    mret (ackWithEcn largestAcknowledged ackDelay firstAckRange ranges ect0 ect1 ecnCe)
  else mret (ack largestAcknowledged ackDelay firstAckRange ranges).

Definition decodeResetStream_ (payload : list byte) : M Z t :=
  streamId ← readVarInt_ payload;
  errorCode ← readVarInt_ payload;
  finalSize ← readVarInt_ payload;
  mret (resetStream streamId errorCode finalSize).

Definition decodeResetStreamAt_ (payload : list byte) : M Z t :=
  streamId ← readVarInt_ payload;
  errorCode ← readVarInt_ payload;
  finalSize ← readVarInt_ payload;
  reliableSize ← readVarInt_ payload;
  fail_if (finalSize <? reliableSize) "RESET_STREAM_AT reliable size exceeds final size";;
  mret (resetStreamAt streamId errorCode finalSize reliableSize).

Definition decodeStopSending_ (payload : list byte) : M Z t :=
  streamId ← readVarInt_ payload;
  errorCode ← readVarInt_ payload;
  mret (stopSending streamId errorCode).

Definition decodeCrypto_ (payload : list byte) : M Z t :=
  frameOffset ← readVarInt_ payload;
  length ← readVarInt_ payload;
  data ← readSlice_ payload length;
  mret (crypto frameOffset data).

Definition decodeNewToken_ (payload : list byte) : M Z t :=
  length ← readVarInt_ payload;
  token ← readSlice_ payload length;
  mret (newToken token).

Definition decodeStream_ (frameType : Z) (payload : list byte) : M Z t :=
  let hasOffset := negb (Z.land frameType 0x04 =? 0) in
  let hasLength := negb (Z.land frameType 0x02 =? 0) in
  let fin := negb (Z.land frameType 0x01 =? 0) in
  streamId ← readVarInt_ payload;
  streamOffset ← (if hasOffset then readVarInt_ payload else mret 0);
  length ← (if hasLength then readVarInt_ payload
            else offset ← get; mret (SwByteArray.size payload -u offset));
  data ← readSlice_ payload length;
  mret (stream streamId streamOffset data fin).

Definition decodeMaxData_ (payload : list byte) : M Z t :=
  maximum ← readVarInt_ payload; mret (maxData maximum).

Definition decodeMaxStreamData_ (payload : list byte) : M Z t :=
  streamId ← readVarInt_ payload;
  maximum ← readVarInt_ payload;
  mret (maxStreamData streamId maximum).

Definition decodeMaxStreams_ (bidirectional : bool) (payload : list byte) : M Z t :=
  maximum ← readVarInt_ payload; mret (maxStreams bidirectional maximum).

Definition decodeDataBlocked_ (payload : list byte) : M Z t :=
  limit ← readVarInt_ payload; mret (dataBlocked limit).

Definition decodeStreamDataBlocked_ (payload : list byte) : M Z t :=
  streamId ← readVarInt_ payload;
  limit ← readVarInt_ payload;
  mret (streamDataBlocked streamId limit).

Definition decodeStreamsBlocked_ (bidirectional : bool) (payload : list byte) : M Z t :=
  limit ← readVarInt_ payload; mret (streamsBlocked bidirectional limit).

Definition decodeNewConnectionId_ (payload : list byte) : M Z t :=
  sequenceNumber ← readVarInt_ payload;
  retirePriorTo ← readVarInt_ payload;
  fail_if (sequenceNumber <? retirePriorTo)
    "QUIC NEW_CONNECTION_ID retires a future sequence number";;
  length ← readByte_ payload;
  fail_if ((length <? 1) || (20 <? length)) "QUIC NEW_CONNECTION_ID length is invalid";;
  connectionId ← readSlice_ payload length;
  statelessResetToken ← readSlice_ payload 16;
  mret (newConnectionId sequenceNumber retirePriorTo connectionId statelessResetToken).

Definition decodeRetireConnectionId_ (payload : list byte) : M Z t :=
  sequenceNumber ← readVarInt_ payload; mret (retireConnectionId sequenceNumber).

Definition decodePathData_ (response : bool) (payload : list byte) : M Z t :=
  data ← readSlice_ payload 8;
  mret (if response then pathResponse data else pathChallenge data).

Definition decodeConnectionClose_ (isApplicationClose : bool) (payload : list byte) : M Z t :=
  errorCode ← readVarInt_ payload;
  frameType ← (if isApplicationClose then mret 0 else readVarInt_ payload);
  reasonLength ← readVarInt_ payload;
  reason ← readSlice_ payload reasonLength;
  mret (if isApplicationClose then applicationClose errorCode reason
        else connectionClose errorCode frameType reason).

Definition decodeDatagram_ (hasLength : bool) (payload : list byte) : M Z t :=
  offset ← get;
  length ← (if hasLength then readVarInt_ payload
            else mret (SwByteArray.size payload -u offset));
  data ← readSlice_ payload length;
  mret (datagram data).

(** The [switch] of [decodeFrame]. *)
Definition decodeFrame_dispatch (frameType : Z) (payload : list byte) : M Z t :=
  match frameType with
  | 0x00 => mret (padding 1)
  | 0x01 => mret ping
  | 0x02 | 0x03 => decodeAck_ (frameType =? 0x03) payload
  | 0x04 => decodeResetStream_ payload
  | 0x05 => decodeStopSending_ payload
  | 0x06 => decodeCrypto_ payload
  | 0x07 => decodeNewToken_ payload
  | 0x08 | 0x09 | 0x0a | 0x0b | 0x0c | 0x0d | 0x0e | 0x0f => decodeStream_ frameType payload
  | 0x10 => decodeMaxData_ payload
  | 0x11 => decodeMaxStreamData_ payload
  | 0x12 | 0x13 => decodeMaxStreams_ (frameType =? 0x12) payload
  | 0x14 => decodeDataBlocked_ payload
  | 0x15 => decodeStreamDataBlocked_ payload
  | 0x16 | 0x17 => decodeStreamsBlocked_ (frameType =? 0x16) payload
  | 0x18 => decodeNewConnectionId_ payload
  | 0x19 => decodeRetireConnectionId_ payload
  | 0x1a => decodePathData_ false payload
  | 0x1b => decodePathData_ true payload
  | 0x1c | 0x1d => decodeConnectionClose_ (frameType =? 0x1d) payload
  | 0x1e => mret handshakeDone
  | 0x24 => decodeResetStreamAt_ payload
  | 0x30 | 0x31 => decodeDatagram_ (frameType =? 0x31) payload
  | _ => throw "Unsupported QUIC frame type"
  end.

Definition decodeFrame (payload : list byte) : M Z t :=
  frameType ← readByte_ payload;
  decodeFrame_dispatch frameType payload.

(** The inner loop of [decodeFrames]: the offset after the run of zero bytes. *)
Fixpoint skipZeros (payload : list byte) (offset : Z) (todo : nat) : Z :=
  match todo with
  | O => offset
  | S todo' =>
      if (offset <? SwByteArray.size payload) && (SwByteArray.byteAt payload offset =? 0)
      then skipZeros payload (offset + 1) todo' else offset
  end.

(** The outer loop; every turn consumes a byte, so the payload size bounds it. *)
Fixpoint decodeFrames_loop (fuel : nat) (payload : list byte) : M Z (list t) :=
  match fuel with
  | O => out_of_fuel
  | S fuel' =>
      offset ← get;
      if offset <? SwByteArray.size payload then
        if SwByteArray.byteAt payload offset =? 0 then
          let stop := skipZeros payload (offset + 1) (length payload) in
          put stop;;
          rest ← decodeFrames_loop fuel' payload;
          mret (padding (stop - offset) :: rest)
        else
          frame ← decodeFrame payload;
          rest ← decodeFrames_loop fuel' payload;
          mret (frame :: rest)
      else mret []
  end.

Definition decodeFrames (payload : list byte) : result (list t) :=
  (decodeFrames_loop (S (length payload)) payload 0).1.

(** ** Well-formed frames: what the factories build from values the wire can carry *)

Definition vi (v : Z) : Prop := SwQuicVarIntCodec.valid v.

Definition data_ok (bs : list byte) : Prop := SwByteArray.size bs <= int_max.

Definition range_ok (r : AckRange) : Prop := vi (gap r) /\ vi (rangeLength r).

Inductive wf : t -> Prop :=
| wf_padding n : 1 <= n -> wf (padding n)
| wf_ping : wf ping
| wf_ack l d f rs : vi l -> vi d -> vi f -> Forall range_ok rs -> zlen rs <= 8192 ->
    wf (ack l d f rs)
| wf_ackWithEcn l d f rs e0 e1 ce : vi l -> vi d -> vi f -> Forall range_ok rs ->
    zlen rs <= 8192 -> vi e0 -> vi e1 -> vi ce -> wf (ackWithEcn l d f rs e0 e1 ce)
| wf_resetStream s e f : vi s -> vi e -> vi f -> wf (resetStream s e f)
| wf_resetStreamAt s e f r : vi s -> vi e -> vi f -> vi r -> r <= f -> wf (resetStreamAt s e f r)
| wf_stopSending s e : vi s -> vi e -> wf (stopSending s e)
| wf_crypto o bs : vi o -> data_ok bs -> wf (crypto o bs)
| wf_newToken bs : data_ok bs -> wf (newToken bs)
| wf_stream s o bs fin : vi s -> vi o -> data_ok bs -> wf (stream s o bs fin)
| wf_maxData m : vi m -> wf (maxData m)
| wf_maxStreamData s m : vi s -> vi m -> wf (maxStreamData s m)
| wf_maxStreams b m : vi m -> wf (maxStreams b m)
| wf_dataBlocked m : vi m -> wf (dataBlocked m)
| wf_streamDataBlocked s m : vi s -> vi m -> wf (streamDataBlocked s m)
| wf_streamsBlocked b m : vi m -> wf (streamsBlocked b m)
| wf_newConnectionId s r cid tok : vi s -> vi r -> r <= s ->
    1 <= SwByteArray.size cid <= 20 -> SwByteArray.size tok = 16 ->
    wf (newConnectionId s r cid tok)
| wf_retireConnectionId s : vi s -> wf (retireConnectionId s)
| wf_pathChallenge bs : SwByteArray.size bs = 8 -> wf (pathChallenge bs)
| wf_pathResponse bs : SwByteArray.size bs = 8 -> wf (pathResponse bs)
| wf_connectionClose e ft r : vi e -> vi ft -> data_ok r -> wf (connectionClose e ft r)
| wf_applicationClose e r : vi e -> data_ok r -> wf (applicationClose e r)
| wf_handshakeDone : wf handshakeDone
| wf_datagram bs : data_ok bs -> wf (datagram bs).

(** A single frame as [decodeFrame] can return it: PADDING is read one byte at a time. *)
Definition single (f : t) : Prop := m_type f = Padding -> m_paddingLength f = 1.

(** The bytes [encodeFrame] appends. *)
Definition frame_wire (f : t) : list byte := (encodeFrame f []).2.

(** No frame but PADDING starts with a zero byte. *)
Definition nonzero_head (bs : list byte) : Prop :=
  match bs with b :: _ => b2z b <> 0 | [] => False end.

(** What [decodeFrames] makes of a run of PADDING frames: one frame of their total length. *)
Fixpoint coalesce (frames : list t) : list t :=
  match frames with
  | [] => []
  | f :: rest =>
      match coalesce rest with
      | g :: rest' =>
          if decide (m_type f = Padding /\ m_type g = Padding)
          then padding (m_paddingLength f + m_paddingLength g) :: rest'
          else f :: g :: rest'
      | [] => [f]
      end
  end.

(** ** Primitive steps *)

Lemma readByte_parses b : parses readByte_ [b] (b2z b).
Proof.
  intros pre suf Hs. unfold readByte_, mbind, M_bind, get, put, mret, M_ret.
  pose proof (SwByteArray.size_nonneg suf). pose proof (SwByteArray.size_nonneg pre).
  rewrite SwByteArray.byteAt_head. rewrite !SwByteArray.size_app in *.
  change (SwByteArray.size [b]) with 1 in *. unfold int_max in Hs.
  destruct (_ <=? _) eqn:E; [lia|]. cbn [fail_if]. unfold mret, M_ret.
  by rewrite add64_small by lia.
Qed.

Lemma readByte_advances : advances readByte_.
Proof.
  intros p off Hoff Hp. unfold readByte_, mbind, M_bind, get, put, mret, M_ret, fail_if.
  unfold u64_modulus in Hp. destruct (_ <=? _) eqn:E; simpl; [split; [lia|done]|].
  rewrite add64_small by lia. split; [lia|done].
Qed.

Lemma readByte_consumes : consumes readByte_.
Proof.
  intros p off a off' Hoff Hp. unfold readByte_, mbind, M_bind, get, put, mret, M_ret, fail_if.
  unfold u64_modulus in Hp. destruct (_ <=? _) eqn:E; simpl; [done|].
  rewrite add64_small by lia. intros [= _ <-]. lia.
Qed.

Lemma readSlice_parses bs : parses (fun p => readSlice_ p (SwByteArray.size bs)) bs bs.
Proof.
  intros pre suf Hs. unfold readSlice_, ensureSizeFits_, mbind, M_bind, get, put, mret, M_ret.
  pose proof (SwByteArray.size_nonneg suf). pose proof (SwByteArray.size_nonneg pre).
  pose proof (SwByteArray.size_nonneg bs).
  rewrite !SwByteArray.size_app in *. unfold int_max in *.
  destruct (_ <? _) eqn:E; [lia|]. clear E. cbn [fail_if]. unfold mret, M_ret.
  rewrite sub64_small by lia. destruct (_ <? _) eqn:E; [lia|]. cbn [fail_if].
  unfold mret, M_ret. rewrite add64_small, !to_int_small by lia.
  by rewrite SwByteArray.mid_middle.
Qed.

Lemma readSlice_advances len : 0 <= len -> advances (fun p => readSlice_ p len).
Proof.
  intros Hl p off Hoff Hp.
  unfold readSlice_, ensureSizeFits_, mbind, M_bind, get, put, mret, M_ret, fail_if.
  unfold u64_modulus in Hp. destruct (int_max <? len); simpl; [split; [lia|done]|].
  rewrite sub64_small by lia.
  destruct (_ - off <? len) eqn:E; simpl; [split; [lia|done]|].
  rewrite add64_small by lia. split; [lia|done].
Qed.

#[local] Hint Resolve readByte_parses readSlice_parses readByte_advances readByte_consumes
  readSlice_advances : codec.

Lemma readVarInt_parses v : vi v -> parses readVarInt_ (SwQuicVarIntCodec.wire v) v.
Proof. apply SwQuicVarIntCodec.decode_parses. Qed.

Lemma appendVarInt_emits v : vi v -> emits (appendVarInt_ v) (SwQuicVarIntCodec.wire v) tt.
Proof. apply SwQuicVarIntCodec.encode_emits. Qed.

Lemma readVarInt_advances : advances readVarInt_.
Proof. apply SwQuicVarIntCodec.decode_advances. Qed.

Lemma appendVarInt_appends v : appends (appendVarInt_ v).
Proof. apply SwQuicVarIntCodec.encode_appends. Qed.

Lemma vi_size bs : data_ok bs -> vi (SwByteArray.size bs).
Proof.
  unfold data_ok, vi, SwQuicVarIntCodec.valid, SwQuicVarIntCodec.maxValue, int_max.
  pose proof (SwByteArray.size_nonneg bs). lia.
Qed.

#[local] Hint Resolve readVarInt_parses appendVarInt_emits readVarInt_advances
  appendVarInt_appends vi_size : codec.

Definition range_wire (r : AckRange) : list byte :=
  SwQuicVarIntCodec.wire (gap r) ++ SwQuicVarIntCodec.wire (rangeLength r).

Lemma encodeAckRanges_emits rs :
  Forall range_ok rs -> emits (encodeAckRanges_ rs) (rs ≫= range_wire) tt.
Proof.
  induction 1 as [|r rs [Hg Hl] _ IH]; [apply emits_ret|].
  cbn [encodeAckRanges_]. rewrite bind_cons. unfold range_wire. rewrite <- app_assoc.
  eapply emits_bind; [by apply appendVarInt_emits|].
  eapply emits_bind; [by apply appendVarInt_emits|]. done.
Qed.

Lemma decodeAckRanges_parses rs :
  Forall range_ok rs ->
  parses (fun p => decodeAckRanges_ p (length rs)) (rs ≫= range_wire) rs.
Proof.
  induction 1 as [|r rs [Hg Hl] _ IH]; [apply parses_ret|].
  cbn [decodeAckRanges_ length]. rewrite bind_cons. unfold range_wire. rewrite <- app_assoc.
  eapply parses_bind; [by apply readVarInt_parses|].
  eapply parses_bind; [by apply readVarInt_parses|].
  rewrite <- (app_nil_r (mbind _ _)).
  eapply parses_bind; [exact IH|]. destruct r. apply parses_ret.
Qed.

Lemma decodeAckRanges_advances n : advances (fun p => decodeAckRanges_ p n).
Proof.
  induction n as [|n IH]; cbn [decodeAckRanges_]; [apply advances_ret|].
  apply advances_bind; [apply readVarInt_advances|intros g].
  apply advances_bind; [apply readVarInt_advances|intros l].
  apply advances_bind; [done|intros rest]. apply advances_ret.
Qed.

Lemma encodeAckRanges_appends rs : appends (encodeAckRanges_ rs).
Proof. induction rs; cbn [encodeAckRanges_]; solve_appends. Qed.

#[local] Hint Resolve encodeAckRanges_emits decodeAckRanges_parses
  decodeAckRanges_advances encodeAckRanges_appends : codec.

Lemma vi_count {A} (l : list A) : zlen l <= 8192 -> vi (zlen l).
Proof. unfold vi, SwQuicVarIntCodec.valid, SwQuicVarIntCodec.maxValue. lia. Qed.

Lemma decodeAckRanges_count_parses rs :
  Forall range_ok rs ->
  parses (fun p => decodeAckRanges_ p (Z.to_nat (zlen rs))) (rs ≫= range_wire) rs.
Proof. rewrite Nat2Z.id. apply decodeAckRanges_parses. Qed.

Lemma readSlice_parses_n bs n : SwByteArray.size bs = n -> parses (fun p => readSlice_ p n) bs bs.
Proof. intros <-. apply readSlice_parses. Qed.

Lemma readByte_parses_z v : 0 <= v < 256 -> parses readByte_ [z2b v] v.
Proof. intros Hv. rewrite <- (b2z_z2b_small v Hv) at 2. apply readByte_parses. Qed.

#[local] Hint Resolve vi_count decodeAckRanges_count_parses readSlice_parses_n : codec.
#[local] Hint Extern 4 (parses readByte_ [z2b _] _) => apply readByte_parses_z; lia : codec.

(** Reduces the factories and the frame-type dispatch, leaves the wire code alone. *)
Ltac frame_bits := repeat match goal with
  | |- context [Z.lor (Zpos ?a) (Zpos ?b)] =>
      let c := eval vm_compute in (Z.lor (Zpos a) (Zpos b)) in
      change (Z.lor (Zpos a) (Zpos b)) with c
  | |- context [Z.land (Zpos ?a) (Zpos ?b)] =>
      let c := eval vm_compute in (Z.land (Zpos a) (Zpos b)) in
      change (Z.land (Zpos a) (Zpos b)) with c
  end.

Ltac frame_cbn := cbn -[Z.ltb Z.leb z2b mbind decodeAckRanges_]; frame_bits;
  cbn -[Z.ltb Z.leb z2b mbind decodeAckRanges_].

Ltac frame_case_with reduce :=
  eexists; split_and!;
    [ frame_cbn;
      unfold encodeAck_, encodeResetStream_, encodeResetStreamAt_, encodeStopSending_,
        encodeCrypto_, encodeNewToken_, encodeStream_, encodeNewConnectionId_,
        encodePathData_, encodeConnectionClose_, encodeDatagram_;
      frame_cbn; reduce; frame_cbn; emit_steps
    | unfold decodeFrame, decodeFrame_dispatch;
      first [eapply parses_bind|eapply parses_bind_last];
        [apply readByte_parses_z; lia|]; frame_cbn;
      unfold decodeAck_, decodeResetStream_, decodeResetStreamAt_, decodeStopSending_,
        decodeCrypto_, decodeNewToken_, decodeStream_, decodeNewConnectionId_,
        decodePathData_, decodeConnectionClose_, decodeDatagram_;
      frame_cbn; parse_steps
    | intros _; simpl; rewrite b2z_z2b_small by lia; lia ].

Ltac frame_case := frame_case_with idtac.

Lemma frame_codec_ex f : wf f -> single f ->
  exists bs, emits (encodeFrame f) bs tt /\ parses decodeFrame bs f /\
    (m_type f <> Padding -> nonzero_head bs).
Proof.
  intros Hwf Hs. destruct Hwf; try solve [frame_case].
  - specialize (Hs eq_refl). unfold padding in Hs. simpl in Hs.
    destruct (Z.eqb_spec n 0); [lia|]. simpl in Hs. subst n.
    exists [z2b 0]. split_and!; [done| |done]. unfold decodeFrame, decodeFrame_dispatch.
    eapply parses_bind_last; [apply readByte_parses_z; lia|]. apply parses_ret.
  - assert (o = 0 \/ 0 < o) as [->|Ho] by (unfold vi, SwQuicVarIntCodec.valid in H0; lia).
    + destruct fin; frame_case_with ltac:(rewrite ?Z.ltb_irrefl).
    + apply Z.ltb_lt in Ho. destruct fin; frame_case_with ltac:(rewrite ?Ho).
  - destruct b; frame_case.
  - destruct b; frame_case.
  - assert ((SwByteArray.size cid <? 1) = false) as E1 by lia.
    assert ((20 <? SwByteArray.size cid) = false) as E2 by lia.
    frame_case_with ltac:(rewrite ?E1, ?E2, ?H3).
    apply (parses_bind _ _ [_]  _ (SwByteArray.size cid)); [apply readByte_parses_z; lia|].
    apply parses_check; [by rewrite E1, E2|]. parse_steps.
  - frame_case_with ltac:(rewrite ?H, ?decide_False by done).
  - frame_case_with ltac:(rewrite ?H, ?decide_True by done).
Qed.

Lemma frame_wire_emits f bs : emits (encodeFrame f) bs tt -> frame_wire f = bs.
Proof. intros H. unfold frame_wire. by rewrite H. Qed.

Lemma frame_emits f : wf f -> emits (encodeFrame f) (frame_wire f) tt.
Proof.
  intros Hwf. destruct (decide (m_type f = Padding)) as [Hp|Hp].
  - destruct Hwf; try discriminate. intros out. reflexivity.
  - destruct (frame_codec_ex f Hwf (fun E => False_ind _ (Hp E))) as (bs & He & _ & _).
    by rewrite (frame_wire_emits _ _ He).
Qed.

Lemma frame_parses f : wf f -> single f -> parses decodeFrame (frame_wire f) f.
Proof.
  intros Hwf Hs. destruct (frame_codec_ex f Hwf Hs) as (bs & He & Hp & _).
  by rewrite (frame_wire_emits _ _ He).
Qed.

(** A length just decoded, a byte, or what is left of the payload is never negative. *)
Lemma readVarInt_bind_advances {A} (k : Z -> Dec A) :
  (forall v, 0 <= v -> advances (k v)) ->
  advances (fun p => mbind (fun x => k x p) (readVarInt_ p)).
Proof.
  intros Hk. eapply advances_bind_post; [apply readVarInt_advances|apply SwQuicVarIntCodec.decode_returns|].
  intros a Ha. apply Hk. apply Ha.
Qed.

Lemma readByte_bind_advances {A} (k : Z -> Dec A) :
  (forall v, 0 <= v -> advances (k v)) ->
  advances (fun p => mbind (fun x => k x p) (readByte_ p)).
Proof.
  intros Hk. eapply (advances_bind_post (fun v => 0 <= v)); [apply readByte_advances| |done].
  intros p off a off' _ _ H. unfold readByte_ in H. bind_inv H. bind_inv Hk0. bind_inv Hk1.
  injection Hk0 as <- _. apply SwByteArray.byteAt_range.
Qed.

Lemma rest_bind_advances {A} (k : Z -> Dec A) :
  (forall v, 0 <= v -> advances (k v)) ->
  advances (fun p => mbind (fun x => k x p)
    (offset ← get; mret (SwByteArray.size p -u offset))).
Proof.
  intros Hk p off Hoff Hp. unfold mbind, M_bind, get, mret, M_ret.
  apply Hk; [apply wrap64_range|done..].
Qed.

#[local] Hint Extern 3 (0 <= _) => lia : codec.

Ltac frame_advances :=
  repeat first
    [ solve [eauto 3 with codec]
    | apply readVarInt_bind_advances; intros ? ?
    | apply readByte_bind_advances; intros ? ?
    | apply advances_bind; [solve [eauto 3 with codec]|intros ?] ].

Lemma decodeStream_advances ft : advances (decodeStream_ ft).
Proof.
  unfold decodeStream_. apply advances_bind; [apply readVarInt_advances|intros sid].
  apply advances_bind.
  { destruct (negb _); [apply readVarInt_advances|apply advances_ret]. }
  intros so. destruct (negb (Z.land ft 2 =? 0)).
  - frame_advances.
  - apply rest_bind_advances. intros v Hv. frame_advances.
Qed.

Lemma decodeDatagram_advances b : advances (decodeDatagram_ b).
Proof.
  destruct b; intros p off.
  - apply (readVarInt_bind_advances (fun v p => data ← readSlice_ p v; mret (datagram data))).
    intros v Hv. frame_advances.
  - apply (rest_bind_advances (fun v p => data ← readSlice_ p v; mret (datagram data))).
    intros v Hv. frame_advances.
Qed.

Lemma decodeConnectionClose_advances b : advances (decodeConnectionClose_ b).
Proof.
  unfold decodeConnectionClose_. apply advances_bind; [apply readVarInt_advances|intros e].
  apply advances_bind.
  - destruct b; [apply advances_ret|apply readVarInt_advances].
  - intros ft. frame_advances.
Qed.

#[local] Hint Resolve decodeStream_advances decodeDatagram_advances
  decodeConnectionClose_advances : codec.

(** The dispatch of [decodeFrame], whatever the type byte. *)
Lemma decodeFrame_dispatch_advances ft : advances (decodeFrame_dispatch ft).
Proof.
  unfold decodeFrame_dispatch. repeat case_match; subst; eauto 2 with codec;
  unfold decodeAck_, decodeResetStream_, decodeResetStreamAt_, decodeStopSending_,
    decodeCrypto_, decodeNewToken_, decodePathData_, decodeNewConnectionId_,
    decodeMaxData_, decodeMaxStreamData_, decodeMaxStreams_, decodeDataBlocked_,
    decodeStreamDataBlocked_, decodeStreamsBlocked_, decodeRetireConnectionId_; simpl; frame_advances.
Qed.

Lemma decodeFrame_advances : advances decodeFrame.
Proof.
  unfold decodeFrame. apply advances_bind; [apply readByte_advances|].
  apply decodeFrame_dispatch_advances.
Qed.

Lemma decodeFrame_consumes : consumes decodeFrame.
Proof.
  unfold decodeFrame. apply consumes_bind; [apply readByte_advances|apply readByte_consumes|].
  intros ft. apply decodeFrame_dispatch_advances.
Qed.

(** ** Everything the decoder accepts is well formed *)

Lemma readSlice_returns len :
  0 <= len -> returns (fun p => readSlice_ p len)
    (fun bs => SwByteArray.size bs = len /\ data_ok bs).
Proof.
  intros Hl p off a off' Hoff Hp. unfold u64_modulus in Hp.
  unfold readSlice_, ensureSizeFits_, mbind, M_bind, get, put, mret, M_ret, fail_if.
  destruct (int_max <? len) eqn:E1; simpl; [done|]. rewrite sub64_small by lia.
  destruct (_ - off <? len) eqn:E2; simpl; [done|]. intros [= <- _].
  unfold data_ok, int_max in *. pose proof (to_int_le off ltac:(lia)).
  rewrite (to_int_small len) by lia.
  rewrite SwByteArray.size_mid_le by lia. lia.
Qed.

Lemma readByte_returns : returns readByte_ (fun v => 0 <= v < 256).
Proof.
  intros p off a off' _ _ H. unfold readByte_ in H. bind_inv H. bind_inv Hk. bind_inv Hk0.
  injection Hk as <- _. apply SwByteArray.byteAt_range.
Qed.

Lemma decodeAckRanges_returns n :
  returns (fun p => decodeAckRanges_ p n) (fun rs => Forall range_ok rs /\ length rs = n).
Proof.
  induction n as [|n IH]; cbn [decodeAckRanges_]; [by apply returns_ret|].
  eapply returns_bind; [apply readVarInt_advances|apply SwQuicVarIntCodec.decode_returns|intros g Hg].
  eapply returns_bind; [apply readVarInt_advances|apply SwQuicVarIntCodec.decode_returns|intros l Hl].
  eapply returns_bind; [apply decodeAckRanges_advances|exact IH|intros rest [Hr <-]].
  apply returns_ret. split; [|done]. constructor; [split; assumption|done].
Qed.

Lemma readVarInt_bind_returns {A} (k : Z -> Dec A) Q :
  (forall v, vi v -> returns (k v) Q) ->
  returns (fun p => mbind (fun x => k x p) (readVarInt_ p)) Q.
Proof.
  eapply returns_bind; [apply readVarInt_advances|apply SwQuicVarIntCodec.decode_returns].
Qed.

Lemma readSlice_bind_returns {A} (k : list byte -> Dec A) len Q :
  0 <= len ->
  (forall bs, SwByteArray.size bs = len -> data_ok bs -> returns (k bs) Q) ->
  returns (fun p => mbind (fun x => k x p) (readSlice_ p len)) Q.
Proof.
  intros Hl Hk. eapply returns_bind; [by apply readSlice_advances|by apply readSlice_returns|].
  intros bs [H1 H2]. auto.
Qed.

Lemma rest_bind_returns {A} (k : Z -> Dec A) Q :
  (forall v, 0 <= v -> returns (k v) Q) ->
  returns (fun p => mbind (fun x => k x p)
    (offset ← get; mret (SwByteArray.size p -u offset))) Q.
Proof.
  intros Hk p off a off' Hoff Hp H. unfold mbind, M_bind, get, mret, M_ret in H.
  
  apply (Hk (SwByteArray.size p -u off)) in H; [done|apply wrap64_range|done..].
Qed.

Ltac frame_returns :=
  repeat first
    [ apply readVarInt_bind_returns; intros ? ?
    | apply readSlice_bind_returns; [unfold vi, SwQuicVarIntCodec.valid in *; lia|intros ? ? ?]
    | eapply returns_bind; [apply readByte_advances|apply readByte_returns|intros ? ?]
    | apply returns_check; intros ?
    | apply returns_throw
    | apply returns_ret; econstructor; try assumption; try lia ].

Lemma decodeAck_returns e : returns (decodeAck_ e) wf.
Proof.
  unfold decodeAck_. do 4 (apply readVarInt_bind_returns; intros ? ?).
  apply returns_check; intros E.
  eapply returns_bind; [apply decodeAckRanges_advances|apply decodeAckRanges_returns|intros rs [Hr Hn]].
  assert (zlen rs <= 8192) by (unfold vi, SwQuicVarIntCodec.valid in *; lia).
  destruct e; frame_returns.
Qed.

Lemma decodeStream_returns ft : returns (decodeStream_ ft) wf.
Proof.
  unfold decodeStream_. apply readVarInt_bind_returns; intros sid Hsid.
  apply (returns_bind _ _ vi).
  { destruct (negb _); [apply readVarInt_advances|apply advances_ret]. }
  { destruct (negb _); [apply SwQuicVarIntCodec.decode_returns|by apply returns_ret]. }
  intros so Hso. destruct (negb (Z.land ft 2 =? 0)).
  - frame_returns.
  - apply rest_bind_returns. intros v Hv. frame_returns.
Qed.

Lemma decodeDatagram_returns b : returns (decodeDatagram_ b) wf.
Proof.
  destruct b; intros p off a off'.
  - apply (readVarInt_bind_returns (fun v p => data ← readSlice_ p v; mret (datagram data))).
    intros v Hv. frame_returns.
  - apply (rest_bind_returns (fun v p => data ← readSlice_ p v; mret (datagram data))).
    intros v Hv. frame_returns.
Qed.

Lemma decodeConnectionClose_returns b : returns (decodeConnectionClose_ b) wf.
Proof.
  unfold decodeConnectionClose_. apply readVarInt_bind_returns; intros e He.
  apply (returns_bind _ _ vi).
  { destruct b; [apply advances_ret|apply readVarInt_advances]. }
  { destruct b; [by apply returns_ret|apply SwQuicVarIntCodec.decode_returns]. }
  intros ft Hft. destruct b; frame_returns.
Qed.

Lemma decodeFrame_returns : returns decodeFrame wf.
Proof.
  unfold decodeFrame. eapply returns_bind; [apply readByte_advances|apply readByte_returns|].
  intros ft Hft. unfold decodeFrame_dispatch.
  repeat case_match; subst;
    first [ apply decodeAck_returns | apply decodeStream_returns
          | apply decodeDatagram_returns | apply decodeConnectionClose_returns | idtac ];
  unfold decodeResetStream_, decodeResetStreamAt_, decodeStopSending_,
    decodeCrypto_, decodeNewToken_, decodePathData_, decodeNewConnectionId_,
    decodeMaxData_, decodeMaxStreamData_, decodeMaxStreams_, decodeDataBlocked_,
    decodeStreamDataBlocked_, decodeStreamsBlocked_, decodeRetireConnectionId_; simpl; frame_returns.
Qed.

(** ** The batch loops *)

Lemma skipZeros_bounds p n : forall off,
  0 <= off <= SwByteArray.size p -> off <= skipZeros p off n <= SwByteArray.size p.
Proof.
  induction n as [|n IH]; intros off Hoff; cbn [skipZeros]; [lia|].
  destruct (off <? SwByteArray.size p) eqn:E; simpl; [|lia].
  destruct (SwByteArray.byteAt p off =? 0); [|lia]. specialize (IH (off + 1)). lia.
Qed.

Lemma skipZeros_run zs : forall pre suf n,
  Forall (fun b => b2z b = 0) zs -> (suf = [] \/ nonzero_head suf) -> (length zs < n)%nat ->
  skipZeros (pre ++ zs ++ suf) (SwByteArray.size pre) n = SwByteArray.size (pre ++ zs).
Proof.
  induction zs as [|z zs IH]; intros pre suf n Hz Hs Hn; (destruct n as [|n]; [simpl in Hn; lia|]);
    cbn [skipZeros].
  - destruct suf as [|b suf].
    + rewrite !app_nil_r, Z.ltb_irrefl. done.
    + destruct Hs as [|Hb]; [done|]. simpl in Hb. simpl app.
      rewrite SwByteArray.byteAt_middle, app_nil_r. destruct (Z.eqb_spec (b2z b) 0); [done|].
      by rewrite andb_false_r.
  - apply Forall_cons_1 in Hz as [Hz Hzs]. rewrite SwByteArray.byteAt_head, Hz.
    pose proof (SwByteArray.size_nonneg zs). pose proof (SwByteArray.size_nonneg suf).
    rewrite !SwByteArray.size_app, SwByteArray.size_cons.
    destruct (Z.ltb_spec (SwByteArray.size pre) (SwByteArray.size pre + (1 + SwByteArray.size zs + SwByteArray.size suf))); [|lia].
    simpl andb. cbv iota.
    pose proof (IH (pre ++ [z]) suf n Hzs Hs ltac:(simpl in Hn; lia)) as IH'.
    rewrite <- (app_assoc pre [z]) in IH'. simpl app in IH' |- *.
    rewrite !SwByteArray.size_app in IH'. change (SwByteArray.size [z]) with 1 in IH'.
    rewrite IH'. lia.
Qed.

Lemma decodeFrames_loop_total p : SwByteArray.size p < u64_modulus -> forall fuel off,
  0 <= off <= SwByteArray.size p -> SwByteArray.size p - off < Z.of_nat fuel ->
  (decodeFrames_loop fuel p off).1 <> NoFuel.
Proof.
  intros Hp. induction fuel as [|fuel IH]; intros off Hoff Hf; [lia|].
  cbn [decodeFrames_loop]. unfold mbind, M_bind, get, put, mret, M_ret.
  destruct (off <? SwByteArray.size p) eqn:E; [|done].
  destruct (SwByteArray.byteAt p off =? 0).
  - pose proof (skipZeros_bounds p (length p) (off + 1) ltac:(lia)) as Hs.
    set (stop := skipZeros p (off + 1) (length p)) in *.
    specialize (IH stop ltac:(lia) ltac:(lia)).
    destruct (decodeFrames_loop fuel p stop) as [[r|e|] o]; done.
  - destruct (decodeFrame_advances p off Hoff Hp) as [Ha Hn].
    pose proof (decodeFrame_consumes p off) as Hc.
    destruct (decodeFrame p off) as [[f|e|] o] eqn:Ed; [|done..].
    specialize (Hc f o Hoff Hp eq_refl). simpl in Ha.
    specialize (IH o ltac:(lia) ltac:(lia)).
    destruct (decodeFrames_loop fuel p o) as [[r|e|] o']; done.
Qed.

Lemma decodeFrames_loop_wf p : SwByteArray.size p < u64_modulus -> forall fuel off fs off',
  0 <= off <= SwByteArray.size p -> decodeFrames_loop fuel p off = (Ok fs, off') -> Forall wf fs.
Proof.
  intros Hp. induction fuel as [|fuel IH]; intros off fs off' Hoff H; [done|].
  cbn [decodeFrames_loop] in H. unfold mbind, M_bind, get, put, mret, M_ret in H.
  destruct (off <? SwByteArray.size p) eqn:E; [|injection H as <- _; constructor].
  destruct (SwByteArray.byteAt p off =? 0).
  - pose proof (skipZeros_bounds p (length p) (off + 1) ltac:(lia)) as Hs.
    destruct (decodeFrames_loop fuel p _) as [[r|e|] o] eqn:El; [|done..].
    injection H as <- _. constructor; [constructor; lia|]. apply IH in El; [done|lia].
  - pose proof (decodeFrame_advances p off Hoff Hp) as [Ha _].
    pose proof (decodeFrame_returns p off) as Hr.
    destruct (decodeFrame p off) as [[f|e|] o] eqn:Ed; [|done..].
    specialize (Hr f o Hoff Hp eq_refl). simpl in Ha.
    destruct (decodeFrames_loop fuel p o) as [[r|e|] o'] eqn:El; [|done..].
    injection H as <- _. constructor; [done|]. apply IH in El; [done|lia].
Qed.

(** ** Batches: what is encoded is decoded, with adjacent PADDING frames joined *)

Definition frames_wire (fs : list t) : list byte := fs ≫= frame_wire.

Lemma encodeFrames_from_emits fs :
  Forall wf fs -> emits (encodeFrames_from fs) (frames_wire fs) tt.
Proof.
  induction 1 as [|f fs Hf _ IH]; [apply emits_ret|]. unfold frames_wire. rewrite bind_cons.
  cbn [encodeFrames_from]. eapply emits_bind; [by apply frame_emits|exact IH].
Qed.

Lemma frame_nonzero f : wf f -> m_type f <> Padding -> nonzero_head (frame_wire f).
Proof.
  intros Hwf Hp. destruct (frame_codec_ex f Hwf (fun E => False_ind _ (Hp E))) as (bs & He & _ & Hn).
  rewrite (frame_wire_emits _ _ He). auto.
Qed.

(** PADDING frames are determined by their length. *)
Lemma wf_padding_eq f :
  wf f -> m_type f = Padding -> f = padding (m_paddingLength f) /\ 1 <= m_paddingLength f.
Proof.
  destruct 1; try done. intros _. unfold padding; simpl.
  destruct (Z.eqb_spec n 0); [lia|]. simpl. destruct (Z.eqb_spec n 0); [lia|]. split; [done|lia].
Qed.

Lemma m_paddingLength_padding n : 1 <= n -> m_paddingLength (padding n) = n.
Proof. intros Hn. unfold padding; simpl. destruct (Z.eqb_spec n 0); [lia|done]. Qed.

Lemma padding_wire n : 1 <= n -> frame_wire (padding n) = replicate (Z.to_nat n) (z2b 0).
Proof. intros Hn. unfold frame_wire. cbn. by destruct (Z.eqb_spec n 0); [lia|]. Qed.

Lemma padding_frame_wire f :
  wf f -> m_type f = Padding -> frame_wire f = replicate (Z.to_nat (m_paddingLength f)) (z2b 0).
Proof. intros Hf Hp. destruct (wf_padding_eq f Hf Hp) as [E Hl]. by rewrite E, padding_wire, m_paddingLength_padding. Qed.

(** No two adjacent PADDING frames. *)
Fixpoint separated (fs : list t) : Prop :=
  match fs with
  | [] => True
  | f :: rest =>
      match rest with
      | g :: _ => m_type f = Padding -> m_type g <> Padding
      | [] => True
      end /\ separated rest
  end.

Lemma coalesce_spec fs :
  Forall wf fs ->
  Forall wf (coalesce fs) /\ frames_wire (coalesce fs) = frames_wire fs /\ separated (coalesce fs).
Proof.
  induction 1 as [|f fs Hf Hfs (IHw & IHe & IHs)]; [done|]. cbn [coalesce].
  unfold frames_wire in *. rewrite bind_cons, <- IHe.
  destruct (coalesce fs) as [|g rest] eqn:Ec; [repeat constructor; done|].
  rewrite bind_cons. apply Forall_cons_1 in IHw as [Hg Hrest].
  destruct (decide _) as [[Hpf Hpg]|Hn].
  - destruct (wf_padding_eq f Hf Hpf) as [Ef Hlf]. destruct (wf_padding_eq g Hg Hpg) as [Eg Hlg].
    split_and!.
    + constructor; [constructor; lia|done].
    + rewrite bind_cons, app_assoc. f_equal.
      rewrite (padding_frame_wire f), (padding_frame_wire g), padding_wire by (done || lia).
      rewrite Z2Nat.inj_add, replicate_add by lia. done.
    + destruct IHs as [Hh Hs]. split; [|done]. destruct rest; [done|]. intros _. by apply Hh.
  - split_and!; [by repeat constructor|by rewrite !bind_cons|]. split; [|done]. tauto.
Qed.

(** The run of zeros of a PADDING frame ends where the frame does. *)
Lemma skipZeros_padding n fs pre k :
  1 <= n -> frames_wire fs = [] \/ nonzero_head (frames_wire fs) ->
  Z.of_nat k >= n ->
  skipZeros (pre ++ frame_wire (padding n) ++ frames_wire fs) (SwByteArray.size pre + 1) k
    = SwByteArray.size (pre ++ frame_wire (padding n)).
Proof.
  intros Hn Hw Hk. rewrite padding_wire by done.
  replace (Z.to_nat n) with (S (Z.to_nat (n - 1))) by lia. cbn [replicate].
  pose proof (skipZeros_run (replicate (Z.to_nat (n - 1)) (z2b 0)) (pre ++ [z2b 0])
    (frames_wire fs) k) as H. rewrite <- !(app_assoc pre), SwByteArray.size_app in H.
  apply H; [by apply Forall_replicate|done|rewrite length_replicate; lia].
Qed.

(** After a PADDING frame of a separated batch, the payload ends or a nonzero byte follows. *)
Lemma separated_next f fs :
  Forall wf fs -> separated (f :: fs) -> m_type f = Padding ->
  frames_wire fs = [] \/ nonzero_head (frames_wire fs).
Proof.
  intros Hfs [Hadj _] Hp. destruct fs as [|g fs]; [by left|right].
  apply Forall_cons_1 in Hfs as [Hg _]. pose proof (frame_nonzero g Hg (Hadj Hp)) as Hn.
  unfold frames_wire. rewrite bind_cons. by destruct (frame_wire g).
Qed.

Lemma decodeFrames_loop_frames fs : Forall wf fs -> separated fs -> forall pre fuel,
  SwByteArray.size (pre ++ frames_wire fs) <= int_max -> (length (frames_wire fs) < fuel)%nat ->
  decodeFrames_loop fuel (pre ++ frames_wire fs) (SwByteArray.size pre) =
    (Ok fs, SwByteArray.size (pre ++ frames_wire fs)).
Proof.
  induction 1 as [|f fs Hf Hfs IH]; intros Hsep pre fuel Hs Hfuel;
    (destruct fuel as [|fuel]; [simpl in Hfuel; lia|]); cbn [decodeFrames_loop];
    unfold mbind, M_bind, get, put, mret, M_ret.
  - change (frames_wire []) with (@nil byte). rewrite app_nil_r, Z.ltb_irrefl. done.
  - pose proof (separated_next f fs Hfs Hsep) as Hnext. destruct Hsep as [_ Hsep].
    assert (frames_wire (f :: fs) = frame_wire f ++ frames_wire fs) as Ew
      by (unfold frames_wire; by rewrite bind_cons).
    rewrite Ew in *.
    assert (exists b w, frame_wire f = b :: w /\ (b2z b = 0 <-> m_type f = Padding)) as (b & w & Eb & Hb).
    { destruct (decide (m_type f = Padding)) as [Hp|Hp].
      - destruct (wf_padding_eq f Hf Hp) as [Ef Hl]. rewrite Ef, padding_wire by done.
        destruct (Z.to_nat (m_paddingLength f)) eqn:En; [lia|]. eexists _, _. done.
      - pose proof (frame_nonzero f Hf Hp). destruct (frame_wire f) as [|b w]; [done|].
        exists b, w. simpl in *. tauto. }
    assert (0 < SwByteArray.size (frame_wire f)) as Hlen
      by (rewrite Eb, SwByteArray.size_cons; pose proof (SwByteArray.size_nonneg w); lia).
    pose proof (SwByteArray.size_nonneg (frames_wire fs)).
    destruct (SwByteArray.size pre <? _) eqn:E; [|rewrite !SwByteArray.size_app in E; lia].
    assert (SwByteArray.byteAt (pre ++ frame_wire f ++ frames_wire fs) (SwByteArray.size pre) = b2z b)
      as -> by (rewrite Eb; apply SwByteArray.byteAt_head).
    rewrite app_assoc in Hs. unfold SwByteArray.size in Hlen. rewrite length_app in Hfuel.
    specialize (IH Hsep (pre ++ frame_wire f) fuel Hs ltac:(lia)).
    rewrite <- (app_assoc pre) in IH.
    destruct (Z.eqb_spec (b2z b) 0) as [Hz|Hz].
    + apply Hb in Hz. destruct (wf_padding_eq f Hf Hz) as [Ef Hl].
      pose proof (padding_frame_wire f Hf Hz) as Hw.
      pose proof (skipZeros_padding (m_paddingLength f) fs pre) as Hk. rewrite <- Ef in Hk.
      rewrite Hk, IH by (auto || (rewrite !length_app, Hw, length_replicate; lia)).
      rewrite Ef at 3. do 4 f_equal. rewrite SwByteArray.size_app, Hw.
      unfold SwByteArray.size. rewrite length_replicate. lia.
    + rewrite (frame_parses f Hf); [|intros Hp; tauto|by rewrite app_assoc]. by rewrite IH.
Qed.

(** Single frames implement the wire-format interface. *)
#[export] Instance frame_codec : Codec t := {|
  codec_encode := encodeFrame;
  codec_decode := decodeFrame;
  codec_valid f := wf f /\ single f;
  codec_wire := frame_wire;
  codec_emits f H := frame_emits f (proj1 H);
  codec_parses f H := frame_parses f (proj1 H) (proj2 H);
|}.

(** ** Properties *)

Import Byte.

(** Every well-formed frame the encoder is given, appended to any buffer,
    is read back as the same frame wherever it stands in a payload, and the
    decoder stops exactly where the encoder stopped. *)
Theorem frame_roundtrip f pre suf :
  wf f -> single f -> SwByteArray.size (pre ++ frame_wire f ++ suf) <= int_max ->
  exists out, encodeFrame f pre = (Ok tt, out) /\
    decodeFrame (out ++ suf) (SwByteArray.size pre) = (Ok f, SwByteArray.size out).
Proof. intros Hf Hs Hsz. exact (codec_roundtrip f pre suf (conj Hf Hs) Hsz). Qed.

Lemma frame_roundtrip_witness :
  exists out, encodeFrame (stream 4 70000 [x41; x42] true) [x01] = (Ok tt, out) /\
    decodeFrame (out ++ [x00]) (SwByteArray.size [x01]) =
      (Ok (stream 4 70000 [x41; x42] true), SwByteArray.size out).
Proof.
  apply (frame_roundtrip (stream 4 70000 [x41; x42] true) [x01] [x00]).
  - apply wf_stream; by_eval.
  - intros H. discriminate H.
  - by_eval.
Defined.

(** C21: a batch of well-formed frames is decoded to the same frames in the same
    order, adjacent PADDING frames joined into one of their total length. *)
Theorem decodeFrames_encodeFrames fs out0 :
  Forall wf fs -> SwByteArray.size (frames_wire fs) <= int_max ->
  exists payload, encodeFrames fs out0 = (Ok tt, payload) /\
    decodeFrames payload = Ok (coalesce fs).
Proof.
  intros Hfs Hs. destruct (coalesce_spec fs Hfs) as (Hw & He & Hsep).
  exists (frames_wire fs). split.
  - unfold encodeFrames. apply (encodeFrames_from_emits fs Hfs []).
  - unfold decodeFrames. rewrite <- He in *.
    rewrite (decodeFrames_loop_frames (coalesce fs) Hw Hsep [] (S _)); [done|done|simpl; lia].
Qed.

Lemma decodeFrames_encodeFrames_witness :
  exists payload, encodeFrames [padding 3; padding 2; ping; crypto 9 [x00]; padding 1] [] = (Ok tt, payload) /\
    decodeFrames payload = Ok [padding 5; ping; crypto 9 [x00]; padding 1].
Proof.
  apply (decodeFrames_encodeFrames [padding 3; padding 2; ping; crypto 9 [x00]; padding 1]).
  - repeat apply Forall_cons_2; [apply (wf_padding 3)|apply (wf_padding 2)|apply wf_ping
      |apply wf_crypto|apply (wf_padding 1)|apply Forall_nil_2]; by_eval.
  - by_eval.
Defined.

(** C20: on any payload whatever, the decoding loop terminates (every turn
    consumes at least a byte), and the frames it returns are well formed: every
    integer within 62 bits, connection ids of 1 to 20 bytes with 16-byte tokens,
    path data of 8 bytes, retirements below the sequence number, reliable sizes
    below final sizes, at most 8192 ACK ranges. *)
Theorem decodeFrames_total_sound payload :
  SwByteArray.size payload < u64_modulus ->
  match decodeFrames payload with
  | Ok frames => Forall wf frames
  | Err _ => True
  | NoFuel => False
  end.
Proof.
  intros Hp. unfold decodeFrames. pose proof (SwByteArray.size_nonneg payload).
  pose proof (decodeFrames_loop_total payload Hp (S (length payload)) 0 ltac:(lia)) as Ht.
  pose proof (decodeFrames_loop_wf payload Hp (S (length payload)) 0) as Hw.
  destruct (decodeFrames_loop _ _ _) as [[fs|e|] o]; simpl.
  - by apply (Hw fs o).
  - done.
  - apply Ht; [unfold SwByteArray.size; lia|done].
Qed.

Lemma decodeFrames_total_sound_witness :
  decodeFrames [x06; x00; x01; x41; x00; x00] = Ok [crypto 0 [x41]; padding 2] /\
  match decodeFrames [x06; x00; x01; x41; x00; x00] with
  | Ok frames => Forall wf frames
  | Err _ => True
  | NoFuel => False
  end.
Proof.
  split; [vm_compute; reflexivity|].
  apply (decodeFrames_total_sound [x06; x00; x01; x41; x00; x00]). reflexivity.
Defined.

End SwQuicFrameCodec.
