(* ===== verification/AckTracker.v ===== *)
(** Received-packet tracking and ACK generation
    (src/src/core/io/quic/SwQuicAckTracker.h), and the peer's reading of the ACK
    ranges (src/src/core/io/quic/SwQuicConnection.h, processAckFrame_). *)
From Stdlib Require Import ZArith Lia.
From stdpp Require Import base list strings numbers.
From S2P Require Import Prelude ByteArray VarInt Frame FrameCodec.

Module SwQuicAckTracker.

Record LocalAckRange_ := { high : Z; low : Z }.

#[export] Instance LocalAckRange_eq_decision : EqDecision LocalAckRange_.
Proof. solve_decision. Defined.

(** [m_ranges] is kept from the highest range to the lowest. *)
Record t := { m_ranges : list LocalAckRange_; m_ackElicitingPending : bool }.

Definition kMaxTrackedPackets : Z := 1024.

Definition init : t := {| m_ranges := []; m_ackElicitingPending := false |}.

(** The loop of [trimWindow_]. *)
Fixpoint trim_loop (floor : Z) (ranges : list LocalAckRange_) : list LocalAckRange_ :=
  match ranges with
  | [] => []
  | r :: rest =>
      if high r <? floor then []
      else if low r <? floor then [{| high := high r; low := floor |}]
      else r :: trim_loop floor rest
  end.

Definition windowFloor (largest : Z) : Z :=
  if kMaxTrackedPackets <=? largest then largest -u (kMaxTrackedPackets - 1) else 0.

Definition trimWindow_ (ranges : list LocalAckRange_) : list LocalAckRange_ :=
  match ranges with
  | [] => []
  | r :: _ => trim_loop (windowFloor (high r)) ranges
  end.

(** The loop of [recordReceivedPacket]: [passed] holds the ranges already passed,
    the last one ([m_ranges[i - 1]]) first. *)
Fixpoint record_loop (passed : list LocalAckRange_) (ranges : list LocalAckRange_)
    (packetNumber : Z) : list LocalAckRange_ :=
  match ranges with
  | [] => trimWindow_ (rev_append passed [{| high := packetNumber; low := packetNumber |}])
  | current :: rest =>
      if (low current <=? packetNumber) && (packetNumber <=? high current) then
        rev_append passed ranges
      else if high current <? packetNumber then
        trimWindow_
          (if packetNumber =? high current +u 1 then
             match passed with
             | previous :: passed' =>
                 if low previous =? packetNumber +u 1
                 then rev_append passed' ({| high := high previous; low := low current |} :: rest)
                 else rev_append passed ({| high := packetNumber; low := low current |} :: rest)
             | [] => {| high := packetNumber; low := low current |} :: rest
             end
           else rev_append passed ({| high := packetNumber; low := packetNumber |} :: ranges))
      else if packetNumber +u 1 =? low current then
        trimWindow_
          (match rest with
           | next :: rest' =>
               if packetNumber =? high next +u 1
               then rev_append passed ({| high := high current; low := low next |} :: rest')
               else rev_append passed ({| high := high current; low := packetNumber |} :: rest)
           | [] => rev_append passed [{| high := high current; low := packetNumber |}]
           end)
      else record_loop (current :: passed) rest packetNumber
  end.

Definition recordReceivedPacket (packetNumber : Z) (ackEliciting : bool) (s : t) : t :=
  {| m_ranges :=
       match m_ranges s with
       | [] => [{| high := packetNumber; low := packetNumber |}]
       | _ => record_loop [] (m_ranges s) packetNumber
       end;
     m_ackElicitingPending := ackEliciting || m_ackElicitingPending s |}.

Fixpoint contains_loop (ranges : list LocalAckRange_) (packetNumber : Z) : bool :=
  match ranges with
  | [] => false
  | current :: rest =>
      if high current <? packetNumber then false
      else if low current <=? packetNumber then true
      else contains_loop rest packetNumber
  end.

Definition containsReceivedPacket (packetNumber : Z) (s : t) : bool :=
  contains_loop (m_ranges s) packetNumber.

Definition ackElicitingPending (s : t) : bool := m_ackElicitingPending s.

Definition onAckSent (s : t) : t :=
  {| m_ranges := m_ranges s; m_ackElicitingPending := false |}.

Fixpoint prune_loop (ranges : list LocalAckRange_) (packetNumber : Z) : list LocalAckRange_ :=
  match ranges with
  | [] => []
  | r :: rest =>
      if high r <=? packetNumber then []
      else if low r <=? packetNumber then [{| high := high r; low := packetNumber +u 1 |}]
      else r :: prune_loop rest packetNumber
  end.

Definition pruneUpTo (packetNumber : Z) (s : t) : t :=
  {| m_ranges := prune_loop (m_ranges s) packetNumber;
     m_ackElicitingPending := m_ackElicitingPending s |}.

Definition clear (s : t) : t := {| m_ranges := []; m_ackElicitingPending := false |}.

Definition isEmpty (s : t) : bool := match m_ranges s with [] => true | _ => false end.

Definition largestReceivedPacket (s : t) : Z :=
  match m_ranges s with [] => 0 | r :: _ => high r end.

Definition ackValueFits_ (value : Z) : bool := value <=? SwQuicVarIntCodec.maxValue.

(** The loop of [buildAckFrame] from [i = 1]; [previousLow] is [m_ranges[i - 1].low]. *)
Fixpoint frameRanges_loop (previousLow : Z) (ranges : list LocalAckRange_) :
    result (list SwQuicFrame.AckRange) :=
  match ranges with
  | [] => Ok []
  | r :: rest =>
      if previousLow <=? high r +u 1 then Err "Invalid QUIC ACK range ordering" else
      let range := {| SwQuicFrame.gap := previousLow -u high r -u 2;
                      SwQuicFrame.rangeLength := high r -u low r |} in
      if negb (ackValueFits_ (SwQuicFrame.gap range))
         || negb (ackValueFits_ (SwQuicFrame.rangeLength range))
      then Err "QUIC ACK value does not fit variable integer encoding" else
      match frameRanges_loop (low r) rest with
      | Ok frameRanges => Ok (range :: frameRanges)
      | e => e
      end
  end.

Definition buildAckFrame (ackDelay : Z) (s : t) : result SwQuicFrame.t :=
  match m_ranges s with
  | [] => Err "Cannot build QUIC ACK frame without received packets"
  | r :: rest =>
      let largestAcknowledged := high r in
      let firstAckRange := high r -u low r in
      if negb (ackValueFits_ largestAcknowledged) || negb (ackValueFits_ ackDelay)
         || negb (ackValueFits_ firstAckRange)
      then Err "QUIC ACK value does not fit variable integer encoding" else
      match frameRanges_loop (low r) rest with
      | Ok frameRanges => Ok (SwQuicFrame.ack largestAcknowledged ackDelay firstAckRange frameRanges)
      | Err e => Err e
      | NoFuel => NoFuel
      end
  end.

(** ** The receiver of the frame: [SwQuicConnection::processAckFrame_] up to the
    call of the loss recovery, pairs being [(low, high)]. *)
Fixpoint rebuild_loop (low : Z) (wireRanges : list SwQuicFrame.AckRange) : result (list (Z * Z)) :=
  match wireRanges with
  | [] => Ok []
  | r :: rest =>
      if low <? SwQuicFrame.gap r +u 2 then Err "QUIC ACK range underflows" else
      let high := low -u SwQuicFrame.gap r -u 2 in
      if high <? SwQuicFrame.rangeLength r then Err "QUIC ACK range length underflows" else
      let low := high -u SwQuicFrame.rangeLength r in
      match rebuild_loop low rest with
      | Ok ranges => Ok ((low, high) :: ranges)
      | e => e
      end
  end.

Definition processAckFrame_ranges (frame : SwQuicFrame.t) : result (list (Z * Z)) :=
  let high := SwQuicFrame.m_largestAcknowledged frame in
  if high <? SwQuicFrame.m_firstAckRange frame then Err "QUIC ACK first range underflows" else
  let low := high -u SwQuicFrame.m_firstAckRange frame in
  match rebuild_loop low (SwQuicFrame.m_ackRanges frame) with
  | Ok ranges => Ok ((low, high) :: ranges)
  | e => e
  end.

(** ** Specification: the set of packet numbers the ranges denote *)

Definition covers (r : LocalAckRange_) (q : Z) : Prop := low r <= q <= high r.

Definition mem (ranges : list LocalAckRange_) (q : Z) : Prop := Exists (fun r => covers r q) ranges.

Definition received (s : t) (q : Z) : Prop := mem (m_ranges s) q.

(** Non-empty ranges below [bound], in descending order, two consecutive ones
    separated by at least one missing packet number. *)
Fixpoint below (bound : Z) (ranges : list LocalAckRange_) : Prop :=
  match ranges with
  | [] => True
  | r :: rest => 0 <= low r <= high r /\ high r < bound /\ below (low r - 1) rest
  end.

(** Every tracked packet is among the last 1024 numbers. *)
Definition windowed (ranges : list LocalAckRange_) : Prop :=
  match ranges with
  | [] => True
  | r :: _ => Forall (fun r' => windowFloor (high r) <= low r') ranges
  end.

Definition pn_max : Z := SwQuicVarIntCodec.maxValue.

Definition invariant (s : t) : Prop := below (pn_max + 1) (m_ranges s) /\ windowed (m_ranges s).

(** ** Set-theoretic behaviour of the list operations *)

Lemma windowFloor_spec l : 0 <= l -> windowFloor l = Z.max 0 (l - 1023) \/ u64_modulus <= l.
Proof.
  intros Hl. unfold windowFloor, kMaxTrackedPackets, u64_modulus.
  destruct (Z.leb_spec 1024 l); [|left; lia].
  destruct (Z.lt_ge_cases l 18446744073709551616); [|right; lia].
  left. rewrite sub64_small by lia. lia.
Qed.

Lemma mem_nil q : mem [] q <-> False.
Proof. apply Exists_nil. Qed.

Lemma mem_cons r l q : mem (r :: l) q <-> low r <= q <= high r \/ mem l q.
Proof. apply Exists_cons. Qed.

Create Rewrite HintDb ranges.
Hint Rewrite mem_nil mem_cons : ranges.

(** Reduces membership questions to comparisons. *)
Ltac solve_ranges := repeat (autorewrite with ranges in *; simpl in *).

Lemma below_mem l : forall b q, below b l -> mem l q -> 0 <= q < b.
Proof.
  induction l as [|r l IH]; intros b q Hb Hq; solve_ranges; [done|].
  destruct Hb as (Hr & Hh & Hb). destruct Hq as [Hq|Hq]; [lia|].
  specialize (IH _ _ Hb Hq). lia.
Qed.

Lemma below_weaken l b b' : below b l -> b <= b' -> below b' l.
Proof. destruct l; simpl; [done|]. intuition lia. Qed.

Lemma contains_loop_spec l b q : below b l -> contains_loop l q = true <-> mem l q.
Proof.
  revert b. induction l as [|r l IH]; intros b Hb; solve_ranges; [easy|].
  destruct Hb as (Hr & Hh & Hb). pose proof (below_mem l _ q Hb).
  destruct (Z.ltb_spec (high r) q); [split; [done|intuition lia]|].
  destruct (Z.leb_spec (low r) q); [split; [lia|done]|].
  rewrite (IH _ Hb). intuition lia.
Qed.

Lemma trim_loop_spec floor l : forall b, below b l -> 0 <= floor ->
  below b (trim_loop floor l) /\ Forall (fun r => floor <= low r) (trim_loop floor l) /\
  forall q, mem (trim_loop floor l) q <-> mem l q /\ floor <= q.
Proof.
  induction l as [|r l IH]; intros b Hb Hf.
  - split_and!; [done|by constructor|]. intros q. solve_ranges. tauto.
  - destruct Hb as (Hr & Hh & Hb). cbn [trim_loop]. pose proof (fun q => below_mem l _ q Hb) as Hm.
    destruct (Z.ltb_spec (high r) floor); [|destruct (Z.ltb_spec (low r) floor)].
    + split_and!; [done|by constructor|]. intros q. solve_ranges. specialize (Hm q). intuition lia.
    + split_and!; [simpl; lia|repeat constructor; simpl; lia|].
      intros q. solve_ranges. specialize (Hm q). intuition lia.
    + destruct (IH _ Hb Hf) as (H1 & H2 & H3). split_and!; [simpl; intuition lia|by constructor|].
      intros q. solve_ranges. rewrite H3. intuition lia.
Qed.

(** Trimming keeps the highest number. *)
Lemma trimWindow_spec r l b :
  below b (r :: l) -> b <= pn_max + 1 ->
  let l' := trimWindow_ (r :: l) in
  below b l' /\ windowed l' /\ (exists r' l'', l' = r' :: l'' /\ high r' = high r) /\
  forall q, mem l' q <-> mem (r :: l) q /\ windowFloor (high r) <= q.
Proof.
  intros Hb Hm l'. assert (0 <= high r <= pn_max) as Hh by (unfold pn_max, SwQuicVarIntCodec.maxValue in *; simpl in Hb; lia).
  unfold pn_max, SwQuicVarIntCodec.maxValue in *.
  destruct (windowFloor_spec (high r)) as [Hw|Hw]; [lia| |unfold u64_modulus in Hw; lia].
  destruct (trim_loop_spec (windowFloor (high r)) (r :: l) b Hb ltac:(lia)) as (H1 & H2 & H3).
  change (trim_loop (windowFloor (high r)) (r :: l)) with l' in *.
  assert (exists r' l'', l' = r' :: l'' /\ high r' = high r) as Hhd.
  { unfold l', trimWindow_. cbn [trim_loop]. destruct (Z.ltb_spec (high r) (windowFloor (high r))); [lia|].
    destruct (low r <? _); by eexists _, _. }
  split_and!; [done| |done|done].
  destruct Hhd as (r' & l'' & E & Eh). rewrite E in *. unfold windowed. by rewrite Eh.
Qed.

Lemma trimWindow_windowed l b : below b l -> windowed l -> trimWindow_ l = l.
Proof.
  destruct l as [|r l]; [done|]. unfold windowed, trimWindow_.
  generalize (windowFloor (high r)). intros f. generalize (r :: l). clear r l.
  intros l. revert b. induction l as [|r l IH]; intros b Hb Hw; [done|].
  apply Forall_cons_1 in Hw as [Hr Hw]. simpl in Hb. cbn [trim_loop].
  destruct (Z.ltb_spec (high r) f); [lia|]. destruct (Z.ltb_spec (low r) f); [lia|].
  f_equal. apply (IH (low r - 1)); tauto.
Qed.

(** Insertion of one number, without the index arithmetic of the loop. *)
Fixpoint insert_range (ranges : list LocalAckRange_) (pn : Z) : list LocalAckRange_ :=
  match ranges with
  | [] => [{| high := pn; low := pn |}]
  | current :: rest =>
      if (low current <=? pn) && (pn <=? high current) then ranges
      else if high current <? pn then
        if pn =? high current +u 1 then {| high := pn; low := low current |} :: rest
        else {| high := pn; low := pn |} :: ranges
      else if pn +u 1 =? low current then
        match rest with
        | next :: rest' =>
            if pn =? high next +u 1 then {| high := high current; low := low next |} :: rest'
            else {| high := high current; low := pn |} :: rest
        | [] => [{| high := high current; low := pn |}]
        end
      else current :: insert_range rest pn
  end.

Lemma insert_range_spec l pn : forall b, below b l -> 0 <= pn < b -> b <= pn_max + 1 ->
  below b (insert_range l pn) /\ (forall q, mem (insert_range l pn) q <-> mem l q \/ q = pn).
Proof.
  unfold pn_max, SwQuicVarIntCodec.maxValue.
  induction l as [|r l IH]; intros b Hb Hpn Hm.
  - split; [simpl; intuition lia|]. intros q. solve_ranges. lia.
  - destruct Hb as (Hr & Hh & Hb). cbn [insert_range].
    pose proof (fun q => below_mem l _ q Hb) as Hq. rewrite !add64_small by lia.
    destruct (andb _ _) eqn:E1; [|destruct (Z.ltb_spec (high r) pn); [|destruct (Z.eqb_spec (pn + 1) (low r))]].
    + split; [done|]. intros q. solve_ranges. intuition lia.
    + destruct (Z.eqb_spec pn (high r + 1)); (split; [simpl; intuition lia|]);
        intros q; solve_ranges; intuition lia.
    + destruct l as [|n l].
      * split; [simpl; intuition lia|]. intros q. solve_ranges. intuition lia.
      * simpl in Hb. rewrite add64_small by lia.
        destruct (Z.eqb_spec pn (high n + 1)); (split; [simpl; intuition lia|]);
        intros q; solve_ranges; intuition lia.
    + destruct (IH _ Hb ltac:(lia) ltac:(lia)) as [H1 H2].
      split; [simpl; intuition lia|]. intros q. solve_ranges. rewrite H2. intuition lia.
Qed.

(** The branch that merges a grown range with the previous one is never taken:
    the previous turn of the loop has already handled that number. *)
Lemma record_loop_insert l pn : forall b passed,
  below b l -> 0 <= pn <= pn_max -> b <= pn_max + 1 ->
  match passed with p :: _ => pn +u 1 < low p | [] => True end ->
  trimWindow_ (rev_append passed l) = rev_append passed l ->
  record_loop passed l pn = trimWindow_ (rev_append passed (insert_range l pn)).
Proof.
  unfold pn_max, SwQuicVarIntCodec.maxValue.
  induction l as [|r l IH]; intros b passed Hb Hpn Hm Hd Ht; [done|].
  destruct Hb as (Hr & Hh & Hb). cbn [record_loop insert_range].
  rewrite !add64_small in * by lia.
  destruct (andb _ _) eqn:E1; [done|].
  destruct (Z.ltb_spec (high r) pn); [|destruct (Z.eqb_spec (pn + 1) (low r))].
  - f_equal. destruct (pn =? high r + 1); [|done]. destruct passed as [|p passed]; [done|].
    destruct (Z.eqb_spec (low p) (pn + 1)); [lia|done].
  - destruct l as [|n l]; [done|]. by destruct (pn =? _).
  - apply (IH (low r - 1)); [done|lia|lia|cbv iota; rewrite ?add64_small by lia; lia|done].
Qed.

Lemma insert_range_head l b pn :
  below b l -> 0 <= pn < b -> b <= pn_max + 1 ->
  exists r rest, insert_range l pn = r :: rest /\
    high r = match l with [] => pn | r0 :: _ => Z.max (high r0) pn end.
Proof.
  intros Hb Hpn Hm. destruct l as [|r l]; [by eexists _, _|]. cbn [insert_range].
  unfold pn_max, SwQuicVarIntCodec.maxValue in *. simpl in Hb.
  rewrite !add64_small by lia.
  repeat case_match; eexists _, _; (split; [done|]); simpl; lia.
Qed.

(** [recordReceivedPacket] on the set of received numbers. *)
Lemma record_mem s pn e :
  invariant s -> 0 <= pn <= pn_max ->
  let s' := recordReceivedPacket pn e s in
  invariant s' /\
  largestReceivedPacket s' = (if isEmpty s then pn else Z.max (largestReceivedPacket s) pn) /\
  forall q, received s' q <->
    (received s q \/ q = pn) /\ windowFloor (largestReceivedPacket s') <= q.
Proof.
  intros [Hb Hw] Hpn s'.
  assert (below (pn_max + 1) (m_ranges s') /\ windowed (m_ranges s') /\
    (exists r' l', m_ranges s' = r' :: l' /\
      high r' = if isEmpty s then pn else Z.max (largestReceivedPacket s) pn) /\
    forall q, mem (m_ranges s') q <-> (mem (m_ranges s) q \/ q = pn) /\
      windowFloor (if isEmpty s then pn else Z.max (largestReceivedPacket s) pn) <= q)
    as (H1 & H2 & (r' & l' & H3 & H4) & H5).
  { destruct (insert_range_spec (m_ranges s) pn _ Hb ltac:(lia) ltac:(lia)) as [Hib Him].
    destruct (insert_range_head (m_ranges s) _ pn Hb ltac:(lia) ltac:(lia)) as (r & rest & Er & Eh).
    assert (m_ranges s' = trimWindow_ (insert_range (m_ranges s) pn)) as ->.
    { unfold s', recordReceivedPacket. simpl. destruct (m_ranges s) as [|r0 l0] eqn:El.
      - simpl. unfold trimWindow_. cbn [trim_loop high low].
        destruct (windowFloor_spec pn) as [Hf|Hf]; [lia| |unfold pn_max, SwQuicVarIntCodec.maxValue, u64_modulus in *; lia].
        destruct (Z.ltb_spec pn (windowFloor pn)); [lia|done].
      - apply (record_loop_insert (r0 :: l0) pn (pn_max + 1) []); [done|done|lia|done|].
        by apply (trimWindow_windowed _ (pn_max + 1)). }
    rewrite Er in *.
    destruct (trimWindow_spec r rest _ Hib ltac:(lia)) as (T1 & T2 & (r' & l' & T3 & T4) & T5).
    assert (high r = if isEmpty s then pn else Z.max (largestReceivedPacket s) pn) as Ehr
      by (rewrite Eh; unfold isEmpty, largestReceivedPacket; by destruct (m_ranges s)).
    split_and!; [done|done|exists r', l'; by rewrite T4|].
    intros q. by rewrite T5, Him, Ehr. }
  assert (largestReceivedPacket s' = if isEmpty s then pn else Z.max (largestReceivedPacket s) pn) as El
    by (unfold largestReceivedPacket at 1; by rewrite H3).
  split_and!; [by split|done|]. unfold received. by rewrite El.
Qed.

Lemma prune_loop_spec pn l : forall b, below b l -> 0 <= pn <= pn_max -> b <= pn_max + 1 ->
  below b (prune_loop l pn) /\ forall q, mem (prune_loop l pn) q <-> mem l q /\ pn < q.
Proof.
  unfold pn_max, SwQuicVarIntCodec.maxValue.
  induction l as [|r l IH]; intros b Hb Hpn Hm.
  - split; [done|]. intros q. solve_ranges. tauto.
  - destruct Hb as (Hr & Hh & Hb). cbn [prune_loop]. pose proof (fun q => below_mem l _ q Hb) as Hq.
    rewrite add64_small by lia.
    destruct (Z.leb_spec (high r) pn); [|destruct (Z.leb_spec (low r) pn)].
    + split; [done|]. intros q. solve_ranges. specialize (Hq q). intuition lia.
    + split; [simpl; intuition lia|]. intros q. solve_ranges. specialize (Hq q). intuition lia.
    + destruct (IH _ Hb Hpn ltac:(lia)) as [H1 H2]. split; [simpl; intuition lia|].
      intros q. solve_ranges. rewrite H2. intuition lia.
Qed.

Lemma contains_received s q : invariant s -> containsReceivedPacket q s = true <-> received s q.
Proof. intros [Hb _]. by apply (contains_loop_spec _ (pn_max + 1)). Qed.

(** ** ACK frames *)

Lemma below_count l : forall b f, below b l -> Forall (fun r => f <= low r) l -> l <> [] ->
  2 * zlen l <= b - f + 1.
Proof.
  induction l as [|r l IH]; intros b f Hb Hf Hn; [done|]. simpl in Hb.
  apply Forall_cons_1 in Hf as [Hr Hf]. destruct l as [|r' l]; [simpl; lia|].
  specialize (IH (low r - 1) f ltac:(tauto) Hf ltac:(done)). simpl length in *. lia.
Qed.

Definition bounds (r : LocalAckRange_) : Z * Z := (low r, high r).

Lemma frameRanges_loop_rebuild l : forall previousLow,
  below (previousLow - 1) l -> previousLow <= pn_max ->
  exists wire, frameRanges_loop previousLow l = Ok wire /\
    rebuild_loop previousLow wire = Ok (map bounds l) /\ length wire = length l /\
    Forall (fun r => SwQuicVarIntCodec.valid (SwQuicFrame.gap r) /\
                     SwQuicVarIntCodec.valid (SwQuicFrame.rangeLength r)) wire.
Proof.
  unfold pn_max, SwQuicVarIntCodec.maxValue, SwQuicVarIntCodec.valid.
  induction l as [|r l IH]; intros p Hb Hp; [by exists []|].
  destruct Hb as (Hr & Hh & Hb). cbn [frameRanges_loop]. rewrite add64_small by lia.
  destruct (Z.leb_spec p (high r + 1)); [lia|].
  destruct (IH (low r) Hb ltac:(lia)) as (w & Hw & Hrb & Hl & Hv).
  unfold ackValueFits_, SwQuicVarIntCodec.maxValue. simpl SwQuicFrame.gap. simpl SwQuicFrame.rangeLength.
  rewrite (sub64_small p), !sub64_small by lia.
  destruct (Z.leb_spec (p - high r - 2) 0x3fffffffffffffff); [|lia].
  destruct (Z.leb_spec (high r - low r) 0x3fffffffffffffff); [|lia]. simpl. rewrite Hw.
  eexists. split_and!; [done| |simpl; by rewrite Hl|constructor; [simpl; lia|done]].
  cbn [rebuild_loop SwQuicFrame.gap SwQuicFrame.rangeLength map].
  rewrite !add64_small by lia. destruct (Z.ltb_spec p (p - high r - 2 + 2)); [lia|].
  rewrite (sub64_small p), !sub64_small by lia.
  replace (p - (p - high r - 2) - 2) with (high r) by lia.
  destruct (Z.ltb_spec (high r) (high r - low r)); [lia|].
  replace (high r - (high r - low r)) with (low r) by lia.
  by rewrite Hrb.
Qed.

(** ** Properties *)

(** C29: recording a packet number adds exactly that number to the tracked set,
    drops exactly the numbers more than 1023 below the largest one, raises the
    pending flag when the packet is ack-eliciting, and keeps the ranges sorted,
    disjoint and separated; the replay test answers membership in that set. *)
Theorem recordReceivedPacket_spec s pn ackEliciting q :
  invariant s -> 0 <= pn <= pn_max ->
  let s' := recordReceivedPacket pn ackEliciting s in
  invariant s' /\
  largestReceivedPacket s' = (if isEmpty s then pn else Z.max (largestReceivedPacket s) pn) /\
  ackElicitingPending s' = ackEliciting || ackElicitingPending s /\
  containsReceivedPacket q s' =
    (containsReceivedPacket q s || (q =? pn)) &&
    (Z.max 0 (largestReceivedPacket s' - 1023) <=? q).
Proof.
  intros Hi Hpn s'. destruct (record_mem s pn ackEliciting Hi Hpn) as (H1 & H2 & H3).
  fold s' in H1, H2, H3. split_and!; [done|done|done|].
  apply eq_true_iff_eq. rewrite andb_true_iff, orb_true_iff, Z.eqb_eq, Z.leb_le.
  rewrite !contains_received by done. rewrite H3.
  assert (0 <= largestReceivedPacket s' <= pn_max) as Hl.
  { destruct H1 as [Hb _]. unfold largestReceivedPacket. destruct (m_ranges s'); simpl in Hb; unfold pn_max, SwQuicVarIntCodec.maxValue in *; lia. }
  destruct (windowFloor_spec (largestReceivedPacket s') ltac:(lia)) as [->|Hw]; [done|].
  unfold pn_max, SwQuicVarIntCodec.maxValue, u64_modulus in *. lia.
Qed.

Lemma recordReceivedPacket_spec_witness :
  let s := {| m_ranges := [{| high := 9; low := 7 |}; {| high := 4; low := 2 |}];
              m_ackElicitingPending := false |} in
  let s' := recordReceivedPacket 5 true s in
  invariant s' /\
  largestReceivedPacket s' = (if isEmpty s then 5 else Z.max (largestReceivedPacket s) 5) /\
  ackElicitingPending s' = true || ackElicitingPending s /\
  containsReceivedPacket 5 s' =
    (containsReceivedPacket 5 s || (5 =? 5)) &&
    (Z.max 0 (largestReceivedPacket s' - 1023) <=? 5).
Proof.
  intros s. apply (recordReceivedPacket_spec s 5 true 5).
  - split; [by_eval|]. repeat constructor; by_eval.
  - by_eval.
Defined.

(** Pruning forgets exactly the numbers up to the given one. *)
Theorem pruneUpTo_spec s pn q :
  invariant s -> 0 <= pn <= pn_max ->
  containsReceivedPacket q (pruneUpTo pn s) = containsReceivedPacket q s && (pn <? q).
Proof.
  intros [Hb Hw] Hpn. apply eq_true_iff_eq. rewrite andb_true_iff, Z.ltb_lt.
  destruct (prune_loop_spec pn (m_ranges s) _ Hb Hpn ltac:(lia)) as [Hp Hm].
  unfold containsReceivedPacket. rewrite !(contains_loop_spec _ (pn_max + 1)) by done. apply Hm.
Qed.

Lemma pruneUpTo_spec_witness :
  let s := {| m_ranges := [{| high := 9; low := 7 |}; {| high := 4; low := 2 |}];
              m_ackElicitingPending := false |} in
  containsReceivedPacket 8 (pruneUpTo 7 s) = containsReceivedPacket 8 s && (7 <? 8).
Proof.
  intros s. apply (pruneUpTo_spec s 7 8).
  - split; [by_eval|]. repeat constructor; by_eval.
  - by_eval.
Defined.

(** C30: a tracker that has received something builds an ACK frame the codec can
    carry (it is well formed, of at most 8192 ranges), and the peer rebuilds from
    its gaps and lengths exactly the tracker's ranges, in the tracker's order. *)
Theorem ack_roundtrip s ackDelay :
  invariant s -> isEmpty s = false -> SwQuicVarIntCodec.valid ackDelay ->
  exists frame, buildAckFrame ackDelay s = Ok frame /\
    SwQuicFrameCodec.wf frame /\
    SwQuicFrame.m_largestAcknowledged frame = largestReceivedPacket s /\
    processAckFrame_ranges frame = Ok (map bounds (m_ranges s)).
Proof.
  intros [Hb Hw] He Hd. unfold buildAckFrame, largestReceivedPacket, isEmpty in *.
  destruct (m_ranges s) as [|r l]; [done|]. clear He.
  pose proof (below_count (r :: l) (high r + 1) (windowFloor (high r))) as Hc.
  destruct Hb as (Hr & Hh & Hb). simpl in Hc. specialize (Hc ltac:(split_and!; [lia|lia|lia|done]) Hw ltac:(done)).
  unfold pn_max, SwQuicVarIntCodec.valid, SwQuicVarIntCodec.maxValue in *.
  destruct (windowFloor_spec (high r)) as [Hf|Hf]; [lia| |unfold u64_modulus in Hf; lia].
  destruct (frameRanges_loop_rebuild l (low r) Hb) as (w & Hwire & Hrb & Hl & Hv);
    [unfold pn_max, SwQuicVarIntCodec.maxValue; lia|].
  rewrite sub64_small by lia. unfold ackValueFits_, SwQuicVarIntCodec.maxValue.
  destruct (Z.leb_spec (high r) 0x3fffffffffffffff); [|lia].
  destruct (Z.leb_spec ackDelay 0x3fffffffffffffff); [|lia].
  destruct (Z.leb_spec (high r - low r) 0x3fffffffffffffff); [|lia]. simpl. rewrite Hwire.
  eexists. split_and!; [done| |done|].
  - apply SwQuicFrameCodec.wf_ack; unfold SwQuicFrameCodec.vi, SwQuicVarIntCodec.valid, SwQuicVarIntCodec.maxValue; try lia.
    done.
  - unfold processAckFrame_ranges. simpl. destruct (Z.ltb_spec (high r) (high r - low r)); [lia|].
    rewrite sub64_small by lia. replace (high r - (high r - low r)) with (low r) by lia.
    by rewrite Hrb.
Qed.

Lemma ack_roundtrip_witness :
  let s := {| m_ranges := [{| high := 9; low := 7 |}; {| high := 4; low := 2 |}];
              m_ackElicitingPending := false |} in
  exists frame, buildAckFrame 3 s = Ok frame /\
    SwQuicFrameCodec.wf frame /\
    SwQuicFrame.m_largestAcknowledged frame = largestReceivedPacket s /\
    processAckFrame_ranges frame = Ok [(7, 9); (2, 4)].
Proof.
  intros s. apply (ack_roundtrip s 3).
  - split; [by_eval|]. repeat constructor; by_eval.
  - reflexivity.
  - by_eval.
Defined.

End SwQuicAckTracker.
