(* ===== verification/SwMap.v ===== *)
(** [SwMap] (src/src/core/types/SwMap.h) over 64-bit keys: the content of the
    underlying [std::map], as the list of its entries in key order. *)
From Stdlib Require Import ZArith Lia.
From stdpp Require Import base list strings numbers.
From S2P Require Import Prelude.

Module SwMap.

Definition t (A : Type) : Type := list (Z * A).

Definition empty {A} : t A := [].

(** [find(key)]: the entry, or [end()]. *)
Fixpoint find {A} (key : Z) (m : t A) : option A :=
  match m with
  | [] => None
  | (k, v) :: rest => if k =? key then Some v else find key rest
  end.

Definition contains {A} (key : Z) (m : t A) : bool :=
  match find key m with Some _ => true | None => false end.

Definition value {A} (key : Z) (defaultValue : A) (m : t A) : A :=
  match find key m with Some v => v | None => defaultValue end.

(** [m[key] = value], [insert(key, value)]: insert or overwrite. *)
Fixpoint insert {A} (key : Z) (v : A) (m : t A) : t A :=
  match m with
  | [] => [(key, v)]
  | (k, w) :: rest =>
      if key <? k then (key, v) :: m
      else if key =? k then (key, v) :: rest
      else (k, w) :: insert key v rest
  end.

(** [insert(pair)], [emplace(key, value)]: no effect when the key is present. *)
Definition emplace {A} (key : Z) (v : A) (m : t A) : t A * bool :=
  if contains key m then (m, false) else (insert key v m, true).

(** [erase(key)], [remove(key)]. *)
Fixpoint remove {A} (key : Z) (m : t A) : t A :=
  match m with
  | [] => []
  | (k, w) :: rest => if k =? key then rest else (k, w) :: remove key rest
  end.

(** The entries before [lowerBound(key)], and those from it on: an iterator is
    the part of the map it has still to visit. *)
Fixpoint beforeBound {A} (key : Z) (m : t A) : t A :=
  match m with
  | [] => []
  | (k, w) :: rest => if k <? key then (k, w) :: beforeBound key rest else []
  end.

Fixpoint lowerBound {A} (key : Z) (m : t A) : t A :=
  match m with
  | [] => []
  | (k, w) :: rest => if k <? key then lowerBound key rest else m
  end.

Definition upperBound {A} (key : Z) (m : t A) : t A := lowerBound (key + 1) m.

Definition isEmpty {A} (m : t A) : bool := match m with [] => true | _ => false end.

Definition size {A} (m : t A) : Z := zlen m.

Definition keys {A} (m : t A) : list Z := map fst m.

Definition values {A} (m : t A) : list A := map snd m.

(** The invariant of [std::map]: keys strictly increasing. *)
Fixpoint sorted_from {A} (lo : Z) (m : t A) : Prop :=
  match m with
  | [] => True
  | (k, _) :: rest => lo < k /\ sorted_from k rest
  end.

(** Unsigned keys start at zero. *)
Definition wf {A} (m : t A) : Prop := sorted_from (-1) m.

Section Lemmas.
Context {A : Type}.
Implicit Types (m : t A) (v : A) (k : Z).

Lemma sorted_from_weaken lo lo' m : lo' <= lo -> sorted_from lo m -> sorted_from lo' m.
Proof. destruct m as [|[k v] m]; simpl; [done|]. intros H [Hk Hm]. split; [lia|done]. Qed.

Lemma sorted_from_In lo m k v : sorted_from lo m -> In (k, v) m -> lo < k.
Proof.
  revert lo. induction m as [|[k' v'] m IH]; intros lo Hs Hin; [done|]. destruct Hs as [Hk Hs].
  destruct Hin as [[= -> ->]|Hin]; [done|]. specialize (IH _ Hs Hin). lia.
Qed.

Lemma find_In lo m k v : sorted_from lo m -> find k m = Some v <-> In (k, v) m.
Proof.
  revert lo. induction m as [|[k' v'] m IH]; intros lo Hs; simpl; [done|]. destruct Hs as [Hk Hs].
  destruct (Z.eqb_spec k' k) as [->|Hne].
  - split; [intros [= ->]; by left|]. intros [[= ->]|Hin]; [done|].
    pose proof (sorted_from_In _ _ _ _ Hs Hin). lia.
  - rewrite (IH _ Hs). split; [by right|]. intros [[= -> ->]|Hin]; [done|done].
Qed.

Lemma find_None lo m k : sorted_from lo m -> k <= lo -> find k m = None.
Proof.
  intros Hs Hk. destruct (find k m) eqn:E; [|done].
  apply (find_In _ _ _ _ Hs) in E. pose proof (sorted_from_In _ _ _ _ Hs E). lia.
Qed.

Lemma insert_sorted lo m k v : lo < k -> sorted_from lo m -> sorted_from lo (insert k v m).
Proof.
  revert lo. induction m as [|[k' v'] m IH]; intros lo Hk Hs; simpl in *; [done|].
  destruct Hs as [Hk' Hs]. destruct (Z.ltb_spec k k'); [simpl; done|].
  destruct (Z.eqb_spec k k') as [->|]; [done|]. split; [done|]. apply IH; [lia|done].
Qed.

Lemma insert_wf m k v : 0 <= k -> wf m -> wf (insert k v m).
Proof. intros Hk. apply insert_sorted. lia. Qed.

Lemma find_insert m k k' v : find k' (insert k v m) = if k =? k' then Some v else find k' m.
Proof.
  induction m as [|[k0 v0] m IH]; simpl.
  - done.
  - destruct (Z.ltb_spec k k0); [simpl; done|]. destruct (Z.eqb_spec k k0) as [->|]; simpl.
    + by destruct (k0 =? k').
    + rewrite IH. destruct (Z.eqb_spec k0 k') as [->|]; [|done].
      by destruct (Z.eqb_spec k k').
Qed.

Lemma remove_sorted lo m k : sorted_from lo m -> sorted_from lo (remove k m).
Proof.
  revert lo. induction m as [|[k' v'] m IH]; intros lo Hs; simpl in *; [done|].
  destruct Hs as [Hk' Hs]. destruct (k' =? k).
  - apply (sorted_from_weaken k'); [lia|done].
  - split; [done|]. by apply IH.
Qed.

Lemma find_remove lo m k k' :
  sorted_from lo m -> find k' (remove k m) = if k =? k' then None else find k' m.
Proof.
  revert lo. induction m as [|[k0 v0] m IH]; intros lo Hs; simpl in *.
  - by destruct (k =? k').
  - destruct Hs as [Hk Hs]. destruct (Z.eqb_spec k0 k) as [->|].
    + destruct (Z.eqb_spec k k') as [->|]; [|done]. by apply (find_None k').
    + simpl. rewrite (IH _ Hs). destruct (Z.eqb_spec k0 k') as [->|]; [|done].
      by destruct (Z.eqb_spec k k').
Qed.

Lemma bound_split m k : beforeBound k m ++ lowerBound k m = m.
Proof. induction m as [|[k' v'] m IH]; simpl; [done|]. destruct (k' <? k); simpl; [by rewrite IH|done]. Qed.

Lemma beforeBound_lt m k : Forall (fun e => e.1 < k) (beforeBound k m).
Proof.
  induction m as [|[k' v'] m IH]; simpl; [constructor|].
  destruct (Z.ltb_spec k' k); constructor; done.
Qed.

Lemma lowerBound_ge lo m k : sorted_from lo m -> Forall (fun e => k <= e.1) (lowerBound k m).
Proof.
  revert lo. induction m as [|[k' v'] m IH]; intros lo Hs; simpl in *; [constructor|].
  destruct Hs as [Hk Hs]. destruct (Z.ltb_spec k' k); [by eapply IH|].
  constructor; [done|]. apply Forall_forall. intros [k0 v0] Hin.
  pose proof (sorted_from_In _ _ _ _ Hs Hin). simpl. lia.
Qed.

(** A sorted map is a sublist-closed, duplicate-free collection of keys. *)
Lemma sorted_from_sublist lo m m' : sublist m' m -> sorted_from lo m -> sorted_from lo m'.
Proof.
  intros Hsub. revert lo. induction Hsub as [|[k v] m1 m2 Hsub IH|[k v] m1 m2 Hsub IH]; intros lo Hs; [done| |].
  - destruct Hs as [Hk Hs]. split; [done|]. by apply IH.
  - destruct Hs as [Hk Hs]. apply IH. apply (sorted_from_weaken k); [lia|done].
Qed.

Lemma wf_NoDup lo m : sorted_from lo m -> NoDup (keys m).
Proof.
  revert lo. induction m as [|[k v] m IH]; intros lo Hs; simpl; [constructor|].
  destruct Hs as [Hk Hs]. constructor; [|by eapply IH].
  intros Hin. unfold keys in Hin. apply list_elem_of_In, in_map_iff in Hin as ([k' v'] & <- & Hin).
  pose proof (sorted_from_In _ _ _ _ Hs Hin). simpl in *. lia.
Qed.

(** Sorted maps with the same content are the same map. *)
Lemma sorted_ext lo m1 m2 :
  sorted_from lo m1 -> sorted_from lo m2 -> (forall k, find k m1 = find k m2) -> m1 = m2.
Proof.
  revert lo m2. induction m1 as [|[k1 v1] m1 IH]; intros lo [|[k2 v2] m2] H1 H2 He; [done| | |].
  - specialize (He k2). simpl in He. rewrite Z.eqb_refl in He. done.
  - specialize (He k1). simpl in He. rewrite Z.eqb_refl in He. done.
  - destruct H1 as [Hk1 H1]. destruct H2 as [Hk2 H2].
    assert (k1 = k2) as <-.
    { destruct (Z.lt_trichotomy k1 k2) as [Hlt|[Heq|Hgt]]; [|done|].
      - specialize (He k1). simpl in He. rewrite Z.eqb_refl in He.
        destruct (Z.eqb_spec k2 k1); [lia|]. rewrite (find_None k2) in He by (done || lia). done.
      - specialize (He k2). simpl in He. rewrite Z.eqb_refl in He.
        destruct (Z.eqb_spec k1 k2); [lia|]. rewrite (find_None k1) in He by (done || lia). done. }
    assert (v1 = v2) as <-. { specialize (He k1). simpl in He. rewrite Z.eqb_refl in He. congruence. }
    f_equal. apply (IH k1); [done|done|]. intros k. specialize (He k). simpl in He.
    destruct (Z.eqb_spec k1 k) as [E|E]; [|done]. by rewrite !(find_None k1) by (done || lia).
Qed.

End Lemmas.
End SwMap.
