(* ===== verification/CongestionControl.v ===== *)
(** NewReno congestion control: src/src/core/io/quic/SwQuicCongestionControl.h. *)
From Stdlib Require Import ZArith Lia.
From stdpp Require Import base list strings numbers.
From S2P Require Import Prelude.

Module SwQuicCongestionControl.

(** [SwQuicLimits::maximumUdpPayloadBytes()]. *)
Definition maximumUdpPayloadBytes : Z := 1450.

Record t := mk {
  m_maxDatagramSize : Z;
  m_congestionWindow : Z;
  m_bytesInFlight : Z;
  m_ssthresh : Z;
  m_recoveryStartTimeMs : Z;
  m_started : bool;
}.

Definition initialWindow_ (maxDatagramSize : Z) : Z :=
  let tenPackets := 10 *u maxDatagramSize in
  let twoPackets := 2 *u maxDatagramSize in
  let lowerBound := if twoPackets <? 14720 then 14720 else twoPackets in
  if tenPackets <? lowerBound then tenPackets else lowerBound.

Definition init : t := {|
  m_maxDatagramSize := maximumUdpPayloadBytes;
  m_congestionWindow := initialWindow_ maximumUdpPayloadBytes;
  m_bytesInFlight := 0;
  m_ssthresh := u64_max;
  m_recoveryStartTimeMs := 0;
  m_started := false;
|}.

Definition set_m_congestionWindow (v : Z) (s : t) : t :=
  mk (m_maxDatagramSize s) v (m_bytesInFlight s) (m_ssthresh s) (m_recoveryStartTimeMs s) (m_started s).

Definition set_m_bytesInFlight (v : Z) (s : t) : t :=
  mk (m_maxDatagramSize s) (m_congestionWindow s) v (m_ssthresh s) (m_recoveryStartTimeMs s) (m_started s).

Definition isTimeAfterRecovery_ (sentTimeMs : Z) (s : t) : bool :=
  m_recoveryStartTimeMs s <? sentTimeMs.

Definition onPacketSent (sentBytes : Z) (s : t) : t :=
  set_m_bytesInFlight (m_bytesInFlight s +u sentBytes) s.

(** The saturating subtraction both acknowledgements and losses apply to the flight. *)
Definition removeFromFlight (bytes : Z) (s : t) : t :=
  set_m_bytesInFlight
    (if bytes <=? m_bytesInFlight s then m_bytesInFlight s -u bytes else 0) s.

Definition onPacketAcked (ackedBytes sentTimeMs : Z) (s : t) : t :=
  let s := removeFromFlight ackedBytes s in
  if m_started s && negb (isTimeAfterRecovery_ sentTimeMs s) then s
  else if m_congestionWindow s <? m_ssthresh s then
    set_m_congestionWindow (m_congestionWindow s +u ackedBytes) s
  else if 0 <? m_congestionWindow s then
    set_m_congestionWindow
      (m_congestionWindow s +u (m_maxDatagramSize s *u ackedBytes) / m_congestionWindow s) s
  else s.

Definition onCongestionEvent (sentTimeMs nowMs : Z) (s : t) : t :=
  if m_started s && negb (isTimeAfterRecovery_ sentTimeMs s) then s
  else
    let halved := m_congestionWindow s / 2 in
    let floor := 2 *u m_maxDatagramSize s in
    let halved := if halved <? floor then floor else halved in
    mk (m_maxDatagramSize s) halved (m_bytesInFlight s) halved nowMs true.

Definition onPacketsLost (lostBytes largestLostSentTimeMs nowMs : Z) (s : t) : t :=
  onCongestionEvent largestLostSentTimeMs nowMs (removeFromFlight lostBytes s).

Definition onPersistentCongestion (s : t) : t :=
  set_m_congestionWindow (2 *u m_maxDatagramSize s) s.

Definition canSend (bytes : Z) (s : t) : bool :=
  m_bytesInFlight s +u bytes <=? m_congestionWindow s.

(** ** The controller under a sequence of events *)

Inductive event :=
| Sent (bytes : Z)
| Acked (bytes sentTimeMs : Z)
| Congestion (sentTimeMs nowMs : Z)
| Lost (bytes largestLostSentTimeMs nowMs : Z)
| Persistent.

Definition step (s : t) (e : event) : t :=
  match e with
  | Sent b => onPacketSent b s
  | Acked b ts => onPacketAcked b ts s
  | Congestion ts now => onCongestionEvent ts now s
  | Lost b ts now => onPacketsLost b ts now s
  | Persistent => onPersistentCongestion s
  end.

Definition run (s : t) (es : list event) : t := fold_left step es s.

Definition event_ok (e : event) : Prop :=
  match e with
  | Sent b | Acked b _ | Lost b _ _ => 0 <= b
  | _ => True
  end.

Definition ackedBytes (e : event) : Z := match e with Acked b _ => b | _ => 0 end.

Definition sentBytes (e : event) : Z := match e with Sent b => b | _ => 0 end.

Definition total (f : event -> Z) (es : list event) : Z := fold_right (fun e acc => f e + acc) 0 es.

(** The events a recovery period started at [start] does not react to. *)
Definition before_recovery (start : Z) (e : event) : Prop :=
  match e with
  | Sent _ => True
  | Acked _ ts | Congestion ts _ | Lost _ ts _ => ts <= start
  | Persistent => False
  end.

(** The largest volume for which no 64-bit sum or product of the controller wraps. *)
Definition volume_max : Z := 4503599627370496.

Definition invariant (s : t) (acked sent : Z) : Prop :=
  m_maxDatagramSize s = maximumUdpPayloadBytes /\
  2 * maximumUdpPayloadBytes <= m_congestionWindow s <= 14500 + acked /\
  0 <= m_bytesInFlight s <= sent /\
  2 * maximumUdpPayloadBytes <= m_ssthresh s.

(** ** Lemmas *)

Lemma total_nonneg f es : Forall (fun e => 0 <= f e) es -> 0 <= total f es.
Proof. induction 1; simpl; lia. Qed.

Lemma event_ok_volumes es :
  Forall event_ok es -> Forall (fun e => 0 <= ackedBytes e /\ 0 <= sentBytes e) es.
Proof. intros H. eapply Forall_impl; [|exact H]. intros []; simpl; lia. Qed.

Lemma removeFromFlight_spec b s a v :
  invariant s a v -> 0 <= b -> v <= volume_max ->
  invariant (removeFromFlight b s) a v /\
  m_bytesInFlight (removeFromFlight b s) = Z.max 0 (m_bytesInFlight s - b).
Proof.
  unfold invariant, removeFromFlight, volume_max. intros (H1 & H2 & H3 & H4) Hb Hv. simpl.
  destruct (Z.leb_spec b (m_bytesInFlight s)); [rewrite sub64_small by lia|]; split_and!; lia.
Qed.

Lemma window_growth c b :
  2900 <= c -> 0 <= b -> 0 <= 1450 * b / c <= b.
Proof.
  intros Hc Hb. split; [apply Z.div_pos; lia|].
  apply Z.div_le_upper_bound; nia.
Qed.

Lemma half_bounds c : 0 <= c -> 0 <= c / 2 <= c.
Proof. intros Hc. split; [apply Z.div_pos; lia|apply Z.div_le_upper_bound; lia]. Qed.

Lemma event_invariant s e a v :
  event_ok e -> invariant s a v -> a + ackedBytes e <= volume_max -> v + sentBytes e <= volume_max ->
  0 <= a -> 0 <= v ->
  invariant (step s e) (a + ackedBytes e) (v + sentBytes e).
Proof.
  intros He Hi Ha Hv Ha0 Hv0. unfold volume_max in *.
  destruct e as [b|b ts|ts now|b ts now|]; simpl in *.
  - unfold invariant, onPacketSent in *. simpl. rewrite add64_small by lia. intuition lia.
  - destruct (removeFromFlight_spec b s a v Hi He) as [(H1 & H2 & H3 & H4) _]; [unfold volume_max; lia|].
    unfold onPacketAcked, maximumUdpPayloadBytes in *.
    set (s' := removeFromFlight b s) in *. clearbody s'. unfold invariant, maximumUdpPayloadBytes.
    destruct (m_started s' && _); [intuition lia|].
    destruct (Z.ltb_spec (m_congestionWindow s') (m_ssthresh s')).
    + simpl. rewrite add64_small by lia. intuition lia.
    + destruct (Z.ltb_spec 0 (m_congestionWindow s')); [|intuition lia]. simpl.
      rewrite H1, mul64_small by lia.
      pose proof (window_growth (m_congestionWindow s') b). rewrite add64_small by lia. intuition lia.
  - unfold invariant, onCongestionEvent, maximumUdpPayloadBytes in *. destruct Hi as (H1 & H2 & H3 & H4).
    destruct (m_started s && _); [intuition lia|]. simpl. rewrite H1, mul64_small by lia.
    pose proof (half_bounds (m_congestionWindow s)).
    destruct (Z.ltb_spec (m_congestionWindow s / 2) (2 * 1450)); intuition lia.
  - destruct (removeFromFlight_spec b s a v Hi He) as [(H1 & H2 & H3 & H4) _]; [unfold volume_max; lia|].
    unfold onPacketsLost, onCongestionEvent, maximumUdpPayloadBytes in *.
    set (s' := removeFromFlight b s) in *. clearbody s'. unfold invariant, maximumUdpPayloadBytes.
    destruct (m_started s' && _); [intuition lia|]. simpl. rewrite H1, mul64_small by lia.
    pose proof (half_bounds (m_congestionWindow s')).
    destruct (Z.ltb_spec (m_congestionWindow s' / 2) (2 * 1450)); intuition lia.
  - unfold invariant, onPersistentCongestion, maximumUdpPayloadBytes in *. destruct Hi as (H1 & H2 & H3 & H4).
    simpl. rewrite H1, mul64_small by lia. intuition lia.
Qed.

Lemma run_invariant es : forall s a v,
  Forall event_ok es -> invariant s a v -> 0 <= a -> 0 <= v ->
  a + total ackedBytes es <= volume_max -> v + total sentBytes es <= volume_max ->
  invariant (run s es) (a + total ackedBytes es) (v + total sentBytes es).
Proof.
  induction es as [|e es IH]; intros s a v He Hi Ha Hv Hta Htv; simpl in *.
  - by rewrite !Z.add_0_r.
  - apply Forall_cons_1 in He as [He Hes].
    pose proof (event_ok_volumes _ Hes) as Hvol.
    assert (0 <= ackedBytes e /\ 0 <= sentBytes e) as [Hae Hse] by (destruct e; simpl in *; lia).
    pose proof (total_nonneg ackedBytes es ltac:(eapply Forall_impl; [|exact Hvol]; simpl; tauto)).
    pose proof (total_nonneg sentBytes es ltac:(eapply Forall_impl; [|exact Hvol]; simpl; tauto)).
    rewrite !Z.add_assoc. apply IH; try lia; [done|].
    apply event_invariant; (done || lia).
Qed.

(** ** Properties *)

(** Whatever sequence of packets sent, acknowledged, lost and declared in
    persistent congestion the controller sees, its window stays at least two
    datagrams and at most the initial window plus the bytes acknowledged, and
    the flight is never negative nor more than the bytes sent; no 64-bit
    operation wraps while those volumes stay below 2^52 bytes. *)
Theorem congestion_window_bounds es :
  Forall event_ok es -> total ackedBytes es <= volume_max -> total sentBytes es <= volume_max ->
  let s := run init es in
  2 * m_maxDatagramSize s <= m_congestionWindow s <= m_congestionWindow init + total ackedBytes es /\
  2 * m_maxDatagramSize s <= m_ssthresh s /\
  0 <= m_bytesInFlight s <= total sentBytes es.
Proof.
  intros He Ha Hv s. pose proof (run_invariant es init 0 0 He) as H.
  destruct H as (H1 & H2 & H3 & H4); try lia.
  { split_and!; by_eval. }
  fold s in H1, H2, H3, H4. rewrite H1. change (m_congestionWindow init) with 14500. lia.
Qed.

Lemma congestion_window_bounds_witness :
  let es := [Sent 1450; Sent 1450; Acked 1450 5; Lost 1450 6 9; Persistent] in
  let s := run init es in
  2 * m_maxDatagramSize s <= m_congestionWindow s <= m_congestionWindow init + total ackedBytes es /\
  2 * m_maxDatagramSize s <= m_ssthresh s /\
  0 <= m_bytesInFlight s <= total sentBytes es.
Proof.
  intros es. apply (congestion_window_bounds es).
  - repeat constructor; by_eval.
  - by_eval.
  - by_eval.
Defined.

(** One reaction per recovery period: once a period has started, no
    acknowledgement, loss or congestion event about packets sent before its
    start changes the window, the threshold or the period, however many come. *)
Theorem recovery_reacts_once s es :
  m_started s = true -> Forall (before_recovery (m_recoveryStartTimeMs s)) es ->
  m_congestionWindow (run s es) = m_congestionWindow s /\
  m_ssthresh (run s es) = m_ssthresh s /\
  m_recoveryStartTimeMs (run s es) = m_recoveryStartTimeMs s /\
  m_started (run s es) = true.
Proof.
  intros Hs He. revert s Hs He. induction es as [|e es IH]; intros s Hs He; [done|].
  apply Forall_cons_1 in He as [He Hes].
  assert (m_congestionWindow (step s e) = m_congestionWindow s /\
    m_ssthresh (step s e) = m_ssthresh s /\
    m_recoveryStartTimeMs (step s e) = m_recoveryStartTimeMs s /\
    m_started (step s e) = true) as (E1 & E2 & E3 & E4).
  { destruct e; simpl in He; try done; simpl;
      unfold onPacketAcked, onPacketsLost, onCongestionEvent, isTimeAfterRecovery_; simpl;
      rewrite Hs; destruct (Z.ltb_spec (m_recoveryStartTimeMs s) sentTimeMs) ||
        destruct (Z.ltb_spec (m_recoveryStartTimeMs s) largestLostSentTimeMs); try lia; done. }
  change (run s (e :: es)) with (run (step s e) es). rewrite <- E1, <- E2, <- E3.
  apply IH; [done|]. by rewrite E3.
Qed.

Lemma recovery_reacts_once_witness :
  let s := mk 1450 7250 2900 7250 100 true in
  let es := [Lost 1450 100 120; Acked 1450 90; Sent 10; Congestion 50 130] in
  m_congestionWindow (run s es) = m_congestionWindow s /\
  m_ssthresh (run s es) = m_ssthresh s /\
  m_recoveryStartTimeMs (run s es) = m_recoveryStartTimeMs s /\
  m_started (run s es) = true.
Proof.
  intros s es. apply (recovery_reacts_once s es); [reflexivity|]. repeat constructor; by_eval.
Defined.

End SwQuicCongestionControl.
