(* ===== verification/FlowControl.v ===== *)
(** Flow control: the stream and connection limits of
    src/src/core/io/quic/SwQuicFlowControl.h, and a sender and a receiver that keep to
    them over a network.  ConnectionStreams.v has the way SwQuicConnection drives them. *)
From Stdlib Require Import ZArith Lia.
From stdpp Require Import base list strings numbers gmap.
From S2P Require Import Prelude VarInt.

Module SwQuicStreamFlowControl.

Record t := mk {
  m_initialWindow : Z;
  m_maxDataLimit : Z;
  m_highestReceivedOffset : Z;
  m_bytesConsumed : Z;
  m_peerMaxData : Z;
}.

(** The constructor. *)
Definition make (initialWindow : Z) : t := mk initialWindow initialWindow 0 0 0.

Definition onDataReceived (offset length : Z) : M t unit :=
  let end_ := offset +u length in
  fail_if (end_ <? offset) "FLOW_CONTROL_ERROR";;
  s ← get;
  fail_if (m_maxDataLimit s <? end_) "FLOW_CONTROL_ERROR";;
  if m_highestReceivedOffset s <? end_ then
    put (mk (m_initialWindow s) (m_maxDataLimit s) end_ (m_bytesConsumed s) (m_peerMaxData s))
  else mret tt.

Definition consume (bytes : Z) (s : t) : t :=
  mk (m_initialWindow s) (m_maxDataLimit s) (m_highestReceivedOffset s)
    (m_bytesConsumed s +u bytes) (m_peerMaxData s).

Definition shouldSendMaxStreamData (s : t) : bool :=
  let threshold := (m_maxDataLimit s -u m_initialWindow s) +u (m_initialWindow s / 2) in
  threshold <? m_bytesConsumed s.

Definition nextMaxStreamData (s : t) : Z := m_bytesConsumed s +u m_initialWindow s.

Definition applyMaxStreamData (s : t) : t :=
  mk (m_initialWindow s) (nextMaxStreamData s) (m_highestReceivedOffset s)
    (m_bytesConsumed s) (m_peerMaxData s).

Definition setPeerMaxData (limit : Z) (s : t) : t :=
  mk (m_initialWindow s) (m_maxDataLimit s) (m_highestReceivedOffset s) (m_bytesConsumed s) limit.

Definition sendableBytes (alreadySent : Z) (s : t) : Z :=
  if m_peerMaxData s <=? alreadySent then 0 else m_peerMaxData s -u alreadySent.

Definition isBlocked (wantToSend alreadySent : Z) (s : t) : bool :=
  m_peerMaxData s <? alreadySent +u wantToSend.

(** The receive side of a stream whose reader never runs ahead of the data. *)
Definition invariant (s : t) : Prop :=
  0 <= m_bytesConsumed s <= m_highestReceivedOffset s /\
  m_highestReceivedOffset s <= m_maxDataLimit s /\
  m_initialWindow s <= m_maxDataLimit s <= m_bytesConsumed s + m_initialWindow s /\
  0 <= m_initialWindow s <= SwQuicVarIntCodec.maxValue.

Lemma onDataReceived_ok s offset length s' :
  0 <= offset -> 0 <= length -> is_u64 (offset + length) ->
  onDataReceived offset length s = (Ok tt, s') <->
  offset + length <= m_maxDataLimit s /\
  s' = mk (m_initialWindow s) (m_maxDataLimit s)
         (Z.max (m_highestReceivedOffset s) (offset + length)) (m_bytesConsumed s) (m_peerMaxData s).
Proof.
  unfold is_u64, onDataReceived, mbind, M_bind, get, put, mret, M_ret. intros Ho Hl Hr.
  rewrite add64_small by lia. destruct (Z.ltb_spec (offset + length) offset); [lia|]. simpl.
  destruct (Z.ltb_spec (m_maxDataLimit s) (offset + length)); simpl.
  - split; [done|lia].
  - destruct (Z.ltb_spec (m_highestReceivedOffset s) (offset + length)); simpl.
    + rewrite Z.max_r by lia. split; [by intros [= <-]|by intros [_ ->]].
    + rewrite Z.max_l by lia. destruct s; simpl. split; [by intros [= <-]|by intros [_ ->]].
Qed.

End SwQuicStreamFlowControl.

Module SwQuicConnectionFlowControl.

Record t := mk {
  m_initialWindow : Z;
  m_maxDataLimit : Z;
  m_bytesReceived : Z;
  m_bytesConsumed : Z;
  m_peerMaxData : Z;
}.

Definition make (initialWindow : Z) : t := mk initialWindow initialWindow 0 0 0.

Definition onDataReceived (length : Z) : M t unit :=
  s ← get;
  let total := m_bytesReceived s +u length in
  fail_if (total <? m_bytesReceived s) "FLOW_CONTROL_ERROR";;
  fail_if (m_maxDataLimit s <? total) "FLOW_CONTROL_ERROR";;
  put (mk (m_initialWindow s) (m_maxDataLimit s) total (m_bytesConsumed s) (m_peerMaxData s)).

Definition consume (bytes : Z) (s : t) : t :=
  mk (m_initialWindow s) (m_maxDataLimit s) (m_bytesReceived s)
    (m_bytesConsumed s +u bytes) (m_peerMaxData s).

Definition shouldSendMaxData (s : t) : bool :=
  let threshold := (m_maxDataLimit s -u m_initialWindow s) +u (m_initialWindow s / 2) in
  threshold <? m_bytesConsumed s.

Definition nextMaxData (s : t) : Z := m_bytesConsumed s +u m_initialWindow s.

Definition applyMaxData (s : t) : t :=
  mk (m_initialWindow s) (nextMaxData s) (m_bytesReceived s) (m_bytesConsumed s) (m_peerMaxData s).

Definition setPeerMaxData (limit : Z) (s : t) : t :=
  mk (m_initialWindow s) (m_maxDataLimit s) (m_bytesReceived s) (m_bytesConsumed s) limit.

Definition sendableBytes (alreadySent : Z) (s : t) : Z :=
  if m_peerMaxData s <=? alreadySent then 0 else m_peerMaxData s -u alreadySent.

Definition isBlocked (wantToSend alreadySent : Z) (s : t) : bool :=
  m_peerMaxData s <? alreadySent +u wantToSend.

Lemma connection_onDataReceived_ok s length s' :
  0 <= m_bytesReceived s -> 0 <= length -> is_u64 (m_bytesReceived s + length) ->
  onDataReceived length s = (Ok tt, s') <->
  m_bytesReceived s + length <= m_maxDataLimit s /\
  s' = mk (m_initialWindow s) (m_maxDataLimit s) (m_bytesReceived s + length)
         (m_bytesConsumed s) (m_peerMaxData s).
Proof.
  unfold is_u64, onDataReceived, mbind, M_bind, get, put, mret, M_ret. intros Ho Hl Hr.
  rewrite add64_small by lia. destruct (Z.ltb_spec (m_bytesReceived s + length) (m_bytesReceived s)); [lia|].
  simpl. destruct (Z.ltb_spec (m_maxDataLimit s) (m_bytesReceived s + length)); simpl.
  - split; [done|lia].
  - split; [by intros [= <-]|by intros [_ ->]].
Qed.

End SwQuicConnectionFlowControl.

(** ** A sender and a receiver joined by an unreliable network *)
Module FlowNetwork.
Module S := SwQuicStreamFlowControl.

(** Every STREAM frame and every limit ever sent stays available, so that a
    delivery may come late, out of order, several times or never. *)
Record t := mk {
  sender : S.t;
  sent : Z;
  receiver : S.t;
  data : list (Z * Z);
  limits : list Z;
}.

Inductive step : t -> t -> Prop :=
| step_send s n :
    0 < n <= S.sendableBytes (sent s) (sender s) ->
    sent s + n <= SwQuicVarIntCodec.maxValue ->
    step s (mk (sender s) (sent s + n) (receiver s) ((sent s, n) :: data s) (limits s))
| step_deliver s offset size :
    (offset, size) ∈ data s ->
    step s (mk (sender s) (sent s) (S.onDataReceived offset size (receiver s)).2 (data s) (limits s))
| step_consume s n :
    0 <= n <= S.m_highestReceivedOffset (receiver s) - S.m_bytesConsumed (receiver s) ->
    step s (mk (sender s) (sent s) (S.consume n (receiver s)) (data s) (limits s))
| step_advertise s :
    step s (mk (sender s) (sent s) (S.applyMaxStreamData (receiver s)) (data s)
              (S.m_maxDataLimit (S.applyMaxStreamData (receiver s)) :: limits s))
| step_limit s limit :
    limit ∈ limits s ->
    step s (mk (S.setPeerMaxData limit (sender s)) (sent s) (receiver s) (data s) (limits s)).

(** The receiver's initial window is the limit of its transport parameters. *)
Definition init (W : Z) : t := mk (S.make W) 0 (S.make W) [] [W].

Inductive reachable (W : Z) : t -> Prop :=
| reach_init : reachable W (init W)
| reach_step s s' : reachable W s -> step s s' -> reachable W s'.

Record invariant (s : t) : Prop := {
  inv_receiver : S.invariant (receiver s);
  inv_sent : 0 <= sent s <= SwQuicVarIntCodec.maxValue;
  inv_highest : S.m_highestReceivedOffset (receiver s) <= sent s;
  inv_data : forall o n, (o, n) ∈ data s ->
    0 <= o /\ 0 < n /\ o + n <= sent s /\ o + n <= S.m_maxDataLimit (receiver s);
  inv_limits : forall l, l ∈ limits s -> 0 <= l <= S.m_maxDataLimit (receiver s);
  inv_sender : 0 <= S.m_peerMaxData (sender s) <= S.m_maxDataLimit (receiver s);
}.

Lemma sendable_bound already s n :
  0 <= already -> is_u64 (S.m_peerMaxData s) -> 0 < n <= S.sendableBytes already s ->
  already + n <= S.m_peerMaxData s.
Proof.
  unfold S.sendableBytes, is_u64. intros Ha Hp Hn.
  destruct (Z.leb_spec (S.m_peerMaxData s) already); [lia|]. rewrite sub64_small in Hn by lia. lia.
Qed.

Lemma step_invariant s s' : invariant s -> step s s' -> invariant s'.
Proof.
  intros [(F1 & F2 & F3 & F4) I2 I3 I4 I5 I6] Hstep. unfold SwQuicVarIntCodec.maxValue in *.
  destruct Hstep as [s n Hn Hm|s o n Hd|s n Hn|s|s l Hl];
    unfold SwQuicVarIntCodec.maxValue in *.
  - pose proof (sendable_bound (sent s) (sender s) n) as Hs. unfold is_u64 in Hs.
    constructor; simpl; unfold S.invariant, SwQuicVarIntCodec.maxValue; try done; try lia.
    intros o k Hk. apply elem_of_cons in Hk as [[= -> ->]|Hk]; [lia|].
    specialize (I4 o k Hk). lia.
  - destruct (I4 o n Hd) as (D1 & D2 & D3 & D4).
    assert (S.onDataReceived o n (receiver s) = (Ok tt, S.mk (S.m_initialWindow (receiver s))
      (S.m_maxDataLimit (receiver s)) (Z.max (S.m_highestReceivedOffset (receiver s)) (o + n))
      (S.m_bytesConsumed (receiver s)) (S.m_peerMaxData (receiver s)))) as ->.
    { apply S.onDataReceived_ok; [lia|lia|unfold is_u64; lia|]. by split. }
    constructor; simpl; unfold S.invariant, SwQuicVarIntCodec.maxValue; simpl; try done; lia.
  - unfold S.consume. rewrite add64_small by lia.
    constructor; simpl; unfold S.invariant, SwQuicVarIntCodec.maxValue; simpl; try done; lia.
  - unfold S.applyMaxStreamData, S.nextMaxStreamData. rewrite add64_small by lia.
    constructor; simpl; unfold S.invariant, SwQuicVarIntCodec.maxValue; simpl; try done; try lia.
    + intros o k Hk. specialize (I4 o k Hk). lia.
    + intros l Hl. apply elem_of_cons in Hl as [->|Hl]; [lia|]. specialize (I5 l Hl). lia.
  - specialize (I5 l Hl) as Hll.
    constructor; simpl; unfold S.invariant, SwQuicVarIntCodec.maxValue; try done; lia.
Qed.

(** C26: a sender that asks [sendableBytes] before it sends is never refused:
    over a network that delays, reorders, duplicates and drops both data and
    limit updates, every frame it has ever sent passes the receiver's
    FLOW_CONTROL_ERROR check whenever it arrives. *)
Theorem compliant_sender_never_refused W s offset size :
  0 <= W <= SwQuicVarIntCodec.maxValue -> reachable W s -> (offset, size) ∈ data s ->
  (S.onDataReceived offset size (receiver s)).1 = Ok tt.
Proof.
  intros HW Hr Hd. assert (invariant s) as [F I2 I3 I4 I5 I6].
  { clear Hd. induction Hr as [|s s' _ IH Hs]; [|by apply (step_invariant s)].
    unfold SwQuicVarIntCodec.maxValue in *. constructor; unfold S.invariant, SwQuicVarIntCodec.maxValue; simpl; try lia.
    - intros o n Hn. by apply not_elem_of_nil in Hn.
    - intros l Hl. apply list_elem_of_singleton in Hl. lia. }
  destruct (I4 _ _ Hd) as (D1 & D2 & D3 & D4). unfold SwQuicVarIntCodec.maxValue in *.
  pose proof (S.onDataReceived_ok (receiver s) offset size) as H.
  rewrite (proj2 (H _ D1 ltac:(lia) ltac:(unfold is_u64; lia)) (conj D4 eq_refl)). done.
Qed.

Lemma compliant_sender_never_refused_witness :
  (S.onDataReceived 0 10 (S.make 10)).1 = Ok tt.
Proof.
  apply (compliant_sender_never_refused 10
    (mk (S.setPeerMaxData 10 (S.make 10)) 10 (S.make 10) [(0, 10)] [10]) 0 10).
  - by_eval.
  - apply (reach_step 10 (mk (S.setPeerMaxData 10 (S.make 10)) 0 (S.make 10) [] [10])).
    + apply (reach_step 10 (init 10)); [apply reach_init|].
      apply (step_limit (init 10) 10). apply list_elem_of_singleton. reflexivity.
    + apply (step_send (mk (S.setPeerMaxData 10 (S.make 10)) 0 (S.make 10) [] [10]) 10); by_eval.
  - apply list_elem_of_singleton. reflexivity.
Defined.

End FlowNetwork.
