(* ===== verification/LossRecovery.v ===== *)
(** Loss detection and round-trip estimation of one packet-number space:
    src/src/core/io/quic/SwQuicLossRecovery.h.  [double] is IEEE 754 binary64,
    computed by the Standard Library's [SpecFloat]. *)
From Stdlib Require Import ZArith Lia Floats.SpecFloat.
From stdpp Require Import base list strings numbers.
From S2P Require Import Prelude SwMap.

(** * IEEE 754 double precision *)
Module Double.

Definition t : Type := spec_float.

(** [static_cast<double>(z)] for an unsigned integer: round to nearest, ties to even. *)
Definition of_u64 (z : Z) : t := binary_normalize 53 1024 z 0 false.

Definition add : t -> t -> t := SFadd 53 1024.
Definition sub : t -> t -> t := SFsub 53 1024.
Definition mul : t -> t -> t := SFmul 53 1024.
Definition div : t -> t -> t := SFdiv 53 1024.
Definition fabs : t -> t := SFabs.
Definition ltb : t -> t -> bool := SFltb.
Definition leb : t -> t -> bool := SFleb.

(** [static_cast<std::uint64_t>(std::floor(d))], where the standard defines it. *)
Definition floor_u64 (d : t) : option Z :=
  match d with
  | S754_zero _ => Some 0
  | S754_finite false m e =>
      let z := if 0 <=? e then Zpos m * 2 ^ e else Zpos m / 2 ^ (- e) in
      if z <? u64_modulus then Some z else None
  | _ => None
  end.

End Double.

Module SwQuicLossRecovery.

Record SentPacket := {
  packetNumber : Z;
  sentTimeMs : Z;
  ackEliciting : bool;
  inFlight : bool;
  sentBytes : Z;
}.

Record AckResult := { newlyAcked : list Z; lost : list Z }.

Definition kPacketThreshold : Z := 3.
Definition kTimeThresholdFactor : Double.t := Double.div (Double.of_u64 9) (Double.of_u64 8).
Definition kGranularityMs : Double.t := Double.of_u64 1.
Definition kInitialRttMs : Double.t := Double.of_u64 333.

Record t := mk {
  m_handshakeConfirmed : bool;
  m_firstSample : bool;
  m_latestRttMs : Double.t;
  m_minRttMs : Double.t;
  m_smoothedRttMs : Double.t;
  m_rttVarMs : Double.t;
  m_largestAckedPacket : Z;
  m_haveLargestAcked : bool;
  m_sent : SwMap.t SentPacket;
}.

Definition init : t := {|
  m_handshakeConfirmed := false;
  m_firstSample := false;
  m_latestRttMs := kInitialRttMs;
  m_minRttMs := Double.of_u64 0;
  m_smoothedRttMs := kInitialRttMs;
  m_rttVarMs := Double.div kInitialRttMs (Double.of_u64 2);
  m_largestAckedPacket := 0;
  m_haveLargestAcked := false;
  m_sent := SwMap.empty;
|}.

Definition setHandshakeConfirmed (confirmed : bool) (s : t) : t :=
  mk confirmed (m_firstSample s) (m_latestRttMs s) (m_minRttMs s) (m_smoothedRttMs s)
    (m_rttVarMs s) (m_largestAckedPacket s) (m_haveLargestAcked s) (m_sent s).

Definition set_m_sent (sent : SwMap.t SentPacket) (s : t) : t :=
  mk (m_handshakeConfirmed s) (m_firstSample s) (m_latestRttMs s) (m_minRttMs s)
    (m_smoothedRttMs s) (m_rttVarMs s) (m_largestAckedPacket s) (m_haveLargestAcked s) sent.

Definition set_largestAcked (largest : Z) (s : t) : t :=
  mk (m_handshakeConfirmed s) (m_firstSample s) (m_latestRttMs s) (m_minRttMs s)
    (m_smoothedRttMs s) (m_rttVarMs s) largest true (m_sent s).

Definition onPacketSent (packet : SentPacket) (s : t) : t :=
  set_m_sent (SwMap.insert (packetNumber packet) packet (m_sent s)) s.

Definition updateRtt_ (latestRtt ackDelay : Double.t) (s : t) : t :=
  if negb (m_firstSample s) then
    mk (m_handshakeConfirmed s) true latestRtt latestRtt latestRtt
      (Double.div latestRtt (Double.of_u64 2))
      (m_largestAckedPacket s) (m_haveLargestAcked s) (m_sent s)
  else
    let minRtt := if Double.ltb latestRtt (m_minRttMs s) then latestRtt else m_minRttMs s in
    let adjustedRtt :=
      if m_handshakeConfirmed s && Double.leb ackDelay (Double.sub latestRtt minRtt)
      then Double.sub latestRtt ackDelay else latestRtt in
    let diff := Double.fabs (Double.sub (m_smoothedRttMs s) adjustedRtt) in
    let rttVar :=
      Double.add (Double.mul (Double.div (Double.of_u64 3) (Double.of_u64 4)) (m_rttVarMs s))
                 (Double.mul (Double.div (Double.of_u64 1) (Double.of_u64 4)) diff) in
    let smoothed :=
      Double.add (Double.mul (Double.div (Double.of_u64 7) (Double.of_u64 8)) (m_smoothedRttMs s))
                 (Double.mul (Double.div (Double.of_u64 1) (Double.of_u64 8)) adjustedRtt) in
    mk (m_handshakeConfirmed s) true latestRtt minRtt smoothed rttVar
      (m_largestAckedPacket s) (m_haveLargestAcked s) (m_sent s).

Definition lossTimeThresholdMs_ (s : t) : Double.t :=
  let base :=
    if Double.ltb (m_smoothedRttMs s) (m_latestRttMs s) then m_latestRttMs s else m_smoothedRttMs s in
  let threshold := Double.mul kTimeThresholdFactor base in
  if Double.ltb threshold kGranularityMs then kGranularityMs else threshold.

Definition computePtoMsExact (maxAckDelayMs : Z) (s : t) : Double.t :=
  let variance := Double.mul (Double.of_u64 4) (m_rttVarMs s) in
  let variance := if Double.ltb variance kGranularityMs then kGranularityMs else variance in
  Double.add (Double.add (m_smoothedRttMs s) variance) (Double.of_u64 maxAckDelayMs).

Definition computePtoMs (maxAckDelayMs : Z) (s : t) : option Z :=
  Double.floor_u64 (Double.add (computePtoMsExact maxAckDelayMs s)
                               (Double.div (Double.of_u64 1) (Double.of_u64 2))).

(** The swap that puts a range's bounds in order. *)
Definition ordered (range : Z * Z) : Z * Z :=
  let (low, high) := range in if high <? low then (high, low) else (low, high).

Fixpoint isAcked_ranges (pn : Z) (ranges : list (Z * Z)) : bool :=
  match ranges with
  | [] => false
  | r :: rest =>
      let (low, high) := ordered r in
      if (low <=? pn) && (pn <=? high) then true else isAcked_ranges pn rest
  end.

Definition isAcked_ (pn largestAcked : Z) (ranges : list (Z * Z)) : bool :=
  if pn =? largestAcked then true else isAcked_ranges pn ranges.

(** Step 1: the scan of one range for an ack-eliciting packet, from [lowerBound(low)]. *)
Fixpoint scanRange (high : Z) (it : SwMap.t SentPacket) : bool :=
  match it with
  | [] => false
  | (pn, p) :: rest =>
      if pn <=? high then if ackEliciting p then true else scanRange high rest else false
  end.

Fixpoint anyAckEliciting (sent : SwMap.t SentPacket) (ranges : list (Z * Z)) : bool :=
  match ranges with
  | [] => false
  | r :: rest =>
      let (low, high) := ordered r in
      if scanRange high (SwMap.lowerBound low sent) then true else anyAckEliciting sent rest
  end.

(** Step 3: one range's loop, erasing from [lowerBound(low)] while the key is within it. *)
Fixpoint eraseWhile (high : Z) (it : SwMap.t SentPacket) : list Z * SwMap.t SentPacket :=
  match it with
  | [] => ([], [])
  | (pn, p) :: rest =>
      if pn <=? high then let (acked, kept) := eraseWhile high rest in (pn :: acked, kept)
      else ([], it)
  end.

Definition commitRange (range : Z * Z) (sent : SwMap.t SentPacket) : list Z * SwMap.t SentPacket :=
  let (low, high) := ordered range in
  let (acked, rest) := eraseWhile high (SwMap.lowerBound low sent) in
  (acked, SwMap.beforeBound low sent ++ rest).

(** All the ranges, from the last to the first. *)
Fixpoint commitRanges (rangesBackwards : list (Z * Z)) (sent : SwMap.t SentPacket) :
    list Z * SwMap.t SentPacket :=
  match rangesBackwards with
  | [] => ([], sent)
  | r :: rest =>
      let (acked, sent) := commitRange r sent in
      let (acked', sent) := commitRanges rest sent in
      (acked ++ acked', sent)
  end.

Definition packetLost (largestAcked nowMs : Z) (timeThreshold : Double.t) (pn : Z) (p : SentPacket) : bool :=
  let packetOrderLost := kPacketThreshold <=? largestAcked -u pn in
  let elapsed := Double.sub (Double.of_u64 nowMs) (Double.of_u64 (sentTimeMs p)) in
  let timeLost := Double.leb timeThreshold elapsed in
  packetOrderLost || timeLost.

(** Step 5: the loop over the packets below [largestAcked]. *)
Fixpoint detectLost (largestAcked nowMs : Z) (timeThreshold : Double.t)
    (it : SwMap.t SentPacket) : list Z * SwMap.t SentPacket :=
  match it with
  | [] => ([], [])
  | (pn, p) :: rest =>
      if pn <? largestAcked then
        let (lost, kept) := detectLost largestAcked nowMs timeThreshold rest in
        if packetLost largestAcked nowMs timeThreshold pn p
        then (pn :: lost, kept) else (lost, (pn, p) :: kept)
      else ([], it)
  end.

(** Steps 1 and 2 of [onAckReceived]: is the largest packet newly acknowledged,
    is any ack-eliciting one, and if both, the RTT sample. *)
Definition onAckReceived_sample (largestAcked ackDelayMs : Z) (ackedRangesInclusive : list (Z * Z))
    (nowMs : Z) : M t unit :=
  s ← get;
  let largestIt := SwMap.find largestAcked (m_sent s) in
  let largestNewlyAcked := match largestIt with Some _ => true | None => false end in
  let largestSentTime := match largestIt with Some p => sentTimeMs p | None => 0 end in
  let anyAckElicitingAcked := match largestIt with Some p => ackEliciting p | None => false end in
  let anyAckElicitingAcked :=
    if largestNewlyAcked && negb anyAckElicitingAcked
    then anyAckEliciting (m_sent s) ackedRangesInclusive else anyAckElicitingAcked in
  if largestNewlyAcked && anyAckElicitingAcked then
    fail_if (nowMs <? largestSentTime) "QUIC ACK time precedes packet send time";;
    modify (updateRtt_ (Double.of_u64 (nowMs -u largestSentTime)) (Double.of_u64 ackDelayMs))
  else mret tt.

(** Steps 3 to 5: commit the ranges, track the largest number, detect losses. *)
Definition onAckReceived_commit (largestAcked : Z) (ackedRangesInclusive : list (Z * Z))
    (nowMs : Z) (s : t) : AckResult * t :=
  let (newlyAcked, sent) := commitRanges (rev ackedRangesInclusive) (m_sent s) in
  let (newlyAcked, sent) :=
    if SwMap.contains largestAcked sent
    then (newlyAcked ++ [largestAcked], SwMap.remove largestAcked sent) else (newlyAcked, sent) in
  let s := set_m_sent sent s in
  let s := if negb (m_haveLargestAcked s) || (m_largestAckedPacket s <? largestAcked)
           then set_largestAcked largestAcked s else s in
  let timeThreshold := lossTimeThresholdMs_ s in
  let (lost, sent) := detectLost largestAcked nowMs timeThreshold (m_sent s) in
  ({| newlyAcked := newlyAcked; lost := lost |}, set_m_sent sent s).

Definition onAckReceived (largestAcked ackDelayMs : Z) (ackedRangesInclusive : list (Z * Z))
    (nowMs : Z) : M t AckResult :=
  onAckReceived_sample largestAcked ackDelayMs ackedRangesInclusive nowMs;;
  s ← get;
  let (out, s) := onAckReceived_commit largestAcked ackedRangesInclusive nowMs s in
  put s;;
  mret out.

(** The header's own example: samples of 100 and 120 ms give a smoothed RTT of
    102.5 ms and a variance of 42.5 ms. *)
Example rfc_second_sample :
  let s := updateRtt_ (Double.of_u64 120) (Double.of_u64 0)
             (updateRtt_ (Double.of_u64 100) (Double.of_u64 0) init) in
  m_smoothedRttMs s = Double.div (Double.of_u64 205) (Double.of_u64 2) /\
  m_rttVarMs s = Double.div (Double.of_u64 85) (Double.of_u64 2).
Proof. vm_compute. done. Qed.

(** ** The loops as filters of the ordered map *)

Definition inRange (range : Z * Z) (pn : Z) : bool :=
  let (low, high) := ordered range in (low <=? pn) && (pn <=? high).

Definition inAny (ranges : list (Z * Z)) (pn : Z) : bool := existsb (fun r => inRange r pn) ranges.

Definition keep (f : Z * SentPacket -> bool) (m : SwMap.t SentPacket) : SwMap.t SentPacket :=
  List.filter f m.

Lemma keep_sublist f m : sublist (keep f m) m.
Proof. induction m as [|e m IH]; simpl; [done|]. destruct (f e); by constructor. Qed.

Lemma keep_all f m : Forall (fun e => f e = true) m -> keep f m = m.
Proof. induction 1 as [|e m He _ IH]; simpl; [done|]. by rewrite He, IH. Qed.

Lemma keep_none f m : Forall (fun e => f e = false) m -> keep f m = [].
Proof. induction 1 as [|e m He _ IH]; simpl; [done|]. by rewrite He. Qed.

Lemma keep_app f m1 m2 : keep f (m1 ++ m2) = keep f m1 ++ keep f m2.
Proof. apply List.filter_app. Qed.

Lemma keep_keep f g m : keep f (keep g m) = keep (fun e => g e && f e) m.
Proof.
  induction m as [|e m IH]; simpl; [done|]. destruct (g e); simpl; [|done].
  by rewrite IH.
Qed.

Lemma keep_ext f g m : (forall e, In e m -> f e = g e) -> keep f m = keep g m.
Proof. apply List.filter_ext_in. Qed.

Lemma keep_sorted f lo m : SwMap.sorted_from lo m -> SwMap.sorted_from lo (keep f m).
Proof. apply SwMap.sorted_from_sublist, keep_sublist. Qed.

(** Splitting a map by any test keeps every packet number once. *)
Lemma keep_partition f m :
  SwMap.keys m ≡ₚ SwMap.keys (keep f m) ++ SwMap.keys (keep (fun e => negb (f e)) m).
Proof.
  induction m as [|e m IH]; simpl; [done|]. destruct (f e); simpl.
  - by constructor.
  - rewrite IH at 1. by rewrite Permutation_middle.
Qed.

Lemma In_keep f m k p lo :
  SwMap.sorted_from lo m -> SwMap.find k m = Some p ->
  (In k (SwMap.keys (keep f m)) <-> f (k, p) = true) /\
  (SwMap.find k (keep f m) = Some p <-> f (k, p) = true).
Proof.
  intros Hs Hp. apply (SwMap.find_In _ _ _ _ Hs) in Hp.
  rewrite (SwMap.find_In _ _ _ _ (keep_sorted f lo m Hs)). unfold keep. rewrite List.filter_In.
  split; [|tauto]. unfold SwMap.keys. rewrite in_map_iff. split.
  - intros ([k' p'] & Ek & Hin). simpl in Ek. subst k'. apply List.filter_In in Hin as [Hin Hf].
    apply (SwMap.find_In _ _ _ _ Hs) in Hp, Hin. congruence.
  - intros Hf. exists (k, p). split; [done|]. by apply List.filter_In.
Qed.

Lemma eraseWhile_filter high it : forall lo, SwMap.sorted_from lo it ->
  eraseWhile high it = (SwMap.keys (keep (fun e => e.1 <=? high) it), keep (fun e => negb (e.1 <=? high)) it).
Proof.
  induction it as [|[k p] it IH]; intros lo Hs; simpl; [done|]. destruct Hs as [Hk Hs].
  destruct (Z.leb_spec k high); simpl; [by rewrite (IH _ Hs)|].
  assert (Forall (fun e => high < e.1) it) as Hall.
  { apply Forall_forall. intros [k' p'] Hin. pose proof (SwMap.sorted_from_In _ _ _ _ Hs Hin). simpl. lia. }
  rewrite keep_none, keep_all; [done|..]; (eapply Forall_impl; [|exact Hall]); intros e He; simpl in *;
    destruct (Z.leb_spec e.1 high); (done || lia).
Qed.

Lemma commitRange_filter range m lo : SwMap.sorted_from lo m ->
  commitRange range m = (SwMap.keys (keep (fun e => inRange range e.1) m),
                         keep (fun e => negb (inRange range e.1)) m).
Proof.
  intros Hs. unfold commitRange, inRange. destruct (ordered range) as [low high].
  assert (SwMap.sorted_from lo (SwMap.lowerBound low m)) as Hl.
  { eapply SwMap.sorted_from_sublist; [|exact Hs]. rewrite <- (SwMap.bound_split m low) at 2.
    by apply sublist_inserts_l. }
  rewrite (eraseWhile_filter _ _ _ Hl).
  rewrite <- (SwMap.bound_split m low) at 4 5. rewrite !keep_app.
  pose proof (SwMap.beforeBound_lt m low) as Hb. pose proof (SwMap.lowerBound_ge _ m low Hs) as Hg.
  rewrite (keep_none _ (SwMap.beforeBound low m)), (keep_all _ (SwMap.beforeBound low m)).
  - f_equal; [f_equal|f_equal]; apply List.filter_ext_in; intros [k p] Hin;
      rewrite Forall_forall in Hg; specialize (Hg _ Hin); simpl in *;
      destruct (Z.leb_spec low k); (done || lia).
  - eapply Forall_impl; [|exact Hb]. intros e He. simpl in *. destruct (Z.leb_spec low e.1); (done || lia).
  - eapply Forall_impl; [|exact Hb]. intros e He. simpl in *. destruct (Z.leb_spec low e.1); (done || lia).
Qed.

(** Every tracked packet of the ranges is acknowledged once, the others are kept. *)
Lemma commitRanges_spec ranges : forall m lo, SwMap.sorted_from lo m ->
  (commitRanges ranges m).2 = keep (fun e => negb (inAny ranges e.1)) m /\
  (commitRanges ranges m).1 ≡ₚ SwMap.keys (keep (fun e => inAny ranges e.1) m).
Proof.
  induction ranges as [|r ranges IH]; intros m lo Hs; simpl.
  - rewrite keep_all, keep_none; [done|..]; by apply Forall_forall.
  - rewrite (commitRange_filter r m lo Hs).
    set (m' := keep (fun e => negb (inRange r e.1)) m).
    destruct (IH m' lo (keep_sorted _ _ _ Hs)) as [H1 H2].
    destruct (commitRanges ranges m') as [acked' sent']. simpl in *. split.
    + rewrite H1. unfold m'. rewrite keep_keep. apply keep_ext. intros e _. by rewrite negb_orb.
    + rewrite H2. unfold m'. rewrite keep_keep.
      rewrite (keep_partition (fun e => inRange r e.1) (keep (fun e => inRange r e.1 || inAny ranges e.1) m)).
      rewrite !keep_keep.
      rewrite (keep_ext (fun e => (inRange r e.1 || inAny ranges e.1) && inRange r e.1)
        (fun e => inRange r e.1)) by (intros e _; cbv beta; by destruct (inRange r e.1), (inAny ranges e.1)).
      rewrite (keep_ext (fun e => (inRange r e.1 || inAny ranges e.1) && negb (inRange r e.1))
        (fun e => negb (inRange r e.1) && inAny ranges e.1))
        by (intros e _; cbv beta; by destruct (inRange r e.1), (inAny ranges e.1)).
      done.
Qed.

Definition lossTest (largestAcked nowMs : Z) (threshold : Double.t) (e : Z * SentPacket) : bool :=
  (e.1 <? largestAcked) && packetLost largestAcked nowMs threshold e.1 e.2.

Lemma detectLost_filter la now th it : forall lo, SwMap.sorted_from lo it ->
  detectLost la now th it = (SwMap.keys (keep (lossTest la now th) it),
                             keep (fun e => negb (lossTest la now th e)) it).
Proof.
  induction it as [|[k p] it IH]; intros lo Hs; [done|]. destruct Hs as [Hk Hs]. simpl.
  change (lossTest la now th (k, p)) with ((k <? la) && packetLost la now th k p).
  destruct (Z.ltb_spec k la); simpl.
  - rewrite (IH _ Hs). by destruct (packetLost la now th k p).
  - rewrite keep_none, keep_all; [done|..]; apply Forall_forall; intros [k' p'] Hin;
      pose proof (SwMap.sorted_from_In _ _ _ _ Hs Hin); unfold lossTest; simpl;
      destruct (Z.ltb_spec k' la); (done || lia).
Qed.

Lemma inAny_rev ranges pn : inAny (rev ranges) pn = isAcked_ranges pn ranges.
Proof.
  unfold inAny. induction ranges as [|r ranges IH]; simpl; [done|].
  rewrite existsb_app, IH. simpl. unfold inRange. destruct (ordered r) as [low high].
  by destruct (andb _ _), (isAcked_ranges pn ranges).
Qed.

(** The part of [onAckReceived] after the RTT sample, as filters. *)
Lemma remove_keep k m lo :
  SwMap.sorted_from lo m -> SwMap.remove k m = keep (fun e => negb (e.1 =? k)) m.
Proof.
  revert lo. induction m as [|[k' p] m IH]; intros lo Hs; simpl; [done|]. destruct Hs as [Hk Hs].
  destruct (Z.eqb_spec k' k) as [->|]; simpl; [|by rewrite (IH _ Hs)].
  symmetry. apply keep_all, Forall_forall. intros [k0 p0] Hin.
  pose proof (SwMap.sorted_from_In _ _ _ _ Hs Hin). simpl. destruct (Z.eqb_spec k0 k); (done || lia).
Qed.

Lemma keep_key k m lo :
  SwMap.sorted_from lo m ->
  SwMap.keys (keep (fun e => e.1 =? k) m) = match SwMap.find k m with Some _ => [k] | None => [] end.
Proof.
  revert lo. induction m as [|[k' p] m IH]; intros lo Hs; simpl; [done|]. destruct Hs as [Hk Hs].
  destruct (Z.eqb_spec k' k) as [->|]; simpl; [|by rewrite (IH _ Hs)].
  rewrite keep_none; [done|]. apply Forall_forall. intros [k0 p0] Hin.
  pose proof (SwMap.sorted_from_In _ _ _ _ Hs Hin). simpl. destruct (Z.eqb_spec k0 k); (done || lia).
Qed.

(** Acknowledging the ranges, then the largest number if they left it out. *)
Lemma commit_all largest ranges m lo :
  SwMap.sorted_from lo m ->
  let '(newly, sent) := commitRanges (rev ranges) m in
  let '(newly, sent) :=
    if SwMap.contains largest sent
    then (newly ++ [largest], SwMap.remove largest sent) else (newly, sent) in
  sent = keep (fun e => negb (isAcked_ e.1 largest ranges)) m /\
  newly ≡ₚ SwMap.keys (keep (fun e => isAcked_ e.1 largest ranges) m).
Proof.
  intros Hs. destruct (commitRanges_spec (rev ranges) m lo Hs) as [H1 H2].
  destruct (commitRanges (rev ranges) m) as [newly sent]. simpl in H1, H2.
  assert (sent = keep (fun e => negb (isAcked_ranges e.1 ranges)) m) as E1
    by (rewrite H1; apply keep_ext; intros e _; by rewrite inAny_rev).
  assert (newly ≡ₚ SwMap.keys (keep (fun e => isAcked_ranges e.1 ranges) m)) as E2
    by (rewrite H2; f_equiv; apply keep_ext; intros e _; by rewrite inAny_rev).
  clear H1 H2. pose proof (keep_sorted (fun e => negb (isAcked_ranges e.1 ranges)) lo m Hs) as Hs'.
  rewrite <- E1 in Hs'. unfold SwMap.contains.
  assert (SwMap.keys (keep (fun e => isAcked_ e.1 largest ranges) m) ≡ₚ
    SwMap.keys (keep (fun e => isAcked_ranges e.1 ranges) m) ++
    match SwMap.find largest sent with Some _ => [largest] | None => [] end) as Hacked.
  { rewrite (keep_partition (fun e => isAcked_ranges e.1 ranges)), !keep_keep, <- (keep_key _ _ _ Hs'), E1, keep_keep.
    rewrite (keep_ext (fun e => isAcked_ e.1 largest ranges && isAcked_ranges e.1 ranges)
      (fun e => isAcked_ranges e.1 ranges)), (keep_ext (fun e => isAcked_ e.1 largest ranges && negb (isAcked_ranges e.1 ranges))
      (fun e => negb (isAcked_ranges e.1 ranges) && (e.1 =? largest))); [done|..];
    intros e _; cbv beta; unfold isAcked_; by destruct (e.1 =? largest), (isAcked_ranges e.1 ranges). }
  destruct (SwMap.find largest sent) as [p|] eqn:Ef.
  - split; [|by rewrite Hacked, E2].
    rewrite (remove_keep largest sent lo Hs'), E1, keep_keep. apply keep_ext. intros e _. cbv beta.
    unfold isAcked_. by destruct (e.1 =? largest), (isAcked_ranges e.1 ranges).
  - split; [|by rewrite Hacked, E2, app_nil_r].
    rewrite E1. apply keep_ext. intros [k p] Hin. unfold isAcked_. simpl.
    destruct (Z.eqb_spec k largest) as [->|]; [|done].
    destruct (isAcked_ranges largest ranges) eqn:Er; [done|].
    assert (SwMap.find largest sent = Some p); [|congruence].
    apply (SwMap.find_In lo); [done|]. rewrite E1. apply List.filter_In. simpl. by rewrite Er.
Qed.

Lemma lossTest_order la now th k p :
  0 <= k -> is_u64 la ->
  lossTest la now th (k, p) = true <->
  k < la /\ (3 <= la - k \/
    Double.leb th (Double.sub (Double.of_u64 now) (Double.of_u64 (sentTimeMs p))) = true).
Proof.
  unfold is_u64, lossTest, packetLost, kPacketThreshold. intros Hk Hla. simpl.
  destruct (Z.ltb_spec k la); simpl; [|split; [done|lia]].
  rewrite sub64_small, orb_true_iff, Z.leb_le by lia. split; [auto|tauto].
Qed.

(** What one accepted ACK does to the tracked packets, whatever the RTT sample did. *)
Lemma ack_outcome la ranges now s1 :
  SwMap.wf (m_sent s1) ->
  let '(newly, sent) := commitRanges (rev ranges) (m_sent s1) in
  let '(newly, sent) :=
    if SwMap.contains la sent then (newly ++ [la], SwMap.remove la sent) else (newly, sent) in
  forall th, let '(lst, rest) := detectLost la now th sent in
  SwMap.keys (m_sent s1) ≡ₚ newly ++ lst ++ SwMap.keys rest /\
  SwMap.wf rest /\
  forall pn p, SwMap.find pn (m_sent s1) = Some p ->
    (In pn newly <-> isAcked_ pn la ranges = true) /\
    (In pn lst <-> isAcked_ pn la ranges = false /\ lossTest la now th (pn, p) = true) /\
    (SwMap.find pn rest = Some p <->
       isAcked_ pn la ranges = false /\ lossTest la now th (pn, p) = false).
Proof.
  intros Hwf. pose proof (commit_all la ranges (m_sent s1) _ Hwf) as Hc.
  destruct (commitRanges (rev ranges) (m_sent s1)) as [n0 s0].
  destruct (if SwMap.contains la s0 then _ else _) as [newly sent].
  destruct Hc as [E1 E2]. intros th.
  pose proof (keep_sorted (fun e => negb (isAcked_ e.1 la ranges)) _ _ Hwf) as Hs. rewrite <- E1 in Hs.
  rewrite (detectLost_filter la now th sent _ Hs). split_and!.
  - rewrite (keep_partition (fun e => isAcked_ e.1 la ranges)), <- E1, E2.
    by rewrite (keep_partition (lossTest la now th) sent) at 1.
  - by apply keep_sorted.
  - intros pn p Hp. rewrite E2, E1, !keep_keep.
    rewrite (proj1 (In_keep _ _ _ _ _ Hwf Hp)), (proj1 (In_keep _ _ _ _ _ Hwf Hp)),
      (proj2 (In_keep _ _ _ _ _ Hwf Hp)). simpl.
    destruct (isAcked_ pn la ranges), (lossTest la now th (pn, p)); simpl; intuition congruence.
Qed.

(** ** Properties *)

(** The time test of the loss detection, in the state the ACK leaves. *)
Definition timeLost (s : t) (nowMs : Z) (p : SentPacket) : Prop :=
  Double.leb (lossTimeThresholdMs_ s)
    (Double.sub (Double.of_u64 nowMs) (Double.of_u64 (sentTimeMs p))) = true.

(** The packets in flight, split into the acknowledged, the lost and the rest. *)
Definition partitioned (s : t) (largestAcked : Z) (ranges : list (Z * Z)) (nowMs : Z)
    (out : AckResult) (s' : t) : Prop :=
  SwMap.keys (m_sent s) ≡ₚ newlyAcked out ++ lost out ++ SwMap.keys (m_sent s') /\
  SwMap.wf (m_sent s') /\
  forall pn p, SwMap.find pn (m_sent s) = Some p ->
    (In pn (newlyAcked out) <-> isAcked_ pn largestAcked ranges = true) /\
    (In pn (lost out) <-> isAcked_ pn largestAcked ranges = false /\ pn < largestAcked /\
       (3 <= largestAcked - pn \/ timeLost s' nowMs p)) /\
    (SwMap.find pn (m_sent s') = Some p <-> ~ In pn (newlyAcked out) /\ ~ In pn (lost out)).

Lemma commit_partitioned s la ranges now :
  SwMap.wf (m_sent s) -> is_u64 la ->
  partitioned s la ranges now (onAckReceived_commit la ranges now s).1
    (onAckReceived_commit la ranges now s).2.
Proof.
  intros Hwf Hla. pose proof (ack_outcome la ranges now s Hwf) as Ho. unfold onAckReceived_commit.
  destruct (commitRanges _ _) as [n0 s0].
  destruct (if SwMap.contains la s0 then _ else _) as [newly sent]. cbv zeta.
  set (s3 := if negb _ || _ then _ else _).
  assert (m_sent s3 = sent) as E3 by (unfold s3; by destruct (negb _ || _)).
  rewrite E3. specialize (Ho (lossTimeThresholdMs_ s3)).
  destruct (detectLost _ _ _ sent) as [lst rest]. destruct Ho as (H1 & H2 & H3).
  split_and!; [exact H1|exact H2|]. intros pn p Hp. destruct (H3 pn p Hp) as (A1 & A2 & A3).
  assert (0 <= pn) as Hpn.
  { apply (SwMap.find_In _ _ _ _ Hwf) in Hp. pose proof (SwMap.sorted_from_In _ _ _ _ Hwf Hp). lia. }
  pose proof (lossTest_order la now (lossTimeThresholdMs_ s3) pn p Hpn Hla) as Hlt.
  fold (timeLost (set_m_sent rest s3) now p) in Hlt. simpl newlyAcked. simpl lost. simpl m_sent.
  change (timeLost (set_m_sent rest s3) now p) with (timeLost s3 now p) in *.
  rewrite A1, A2, A3, <- Hlt.
  destruct (isAcked_ pn la ranges), (lossTest _ _ _ _); simpl; intuition congruence.
Qed.

(** The sample never touches the tracked packets; it fails only when the clock
    runs backwards, and then changes nothing. *)
Lemma sample_cases la delay ranges now s :
  match onAckReceived_sample la delay ranges now s with
  | (Ok _, s1) => m_sent s1 = m_sent s
  | (Err _, s1) => s1 = s /\ exists p, SwMap.find la (m_sent s) = Some p /\ now < sentTimeMs p
  | (NoFuel, _) => False
  end.
Proof.
  unfold onAckReceived_sample. m_run. destruct (SwMap.find la (m_sent s)) as [p|] eqn:Ef; [|done].
  destruct (true && _); [|done]. destruct (Z.ltb_spec now (sentTimeMs p)) as [Hlt|Hge]; cbv beta iota.
  - split; [done|]. by exists p.
  - unfold updateRtt_. by destruct (m_firstSample s).
Qed.

(** C28: an ACK splits the packets in flight into the acknowledged, the lost and
    the rest, each packet number in exactly one part; acknowledged are exactly
    those the ranges or the largest number cover, lost are exactly the
    unacknowledged ones below the largest that are three or more packet numbers
    behind it or older than the time threshold, and the rest is still tracked
    unchanged.  An ACK is refused only when its largest packet was sent after
    [now], and then the state is left as it was. *)
Theorem onAckReceived_partition s largestAcked ackDelayMs ranges nowMs :
  SwMap.wf (m_sent s) -> is_u64 largestAcked ->
  match onAckReceived largestAcked ackDelayMs ranges nowMs s with
  | (Ok out, s') => partitioned s largestAcked ranges nowMs out s'
  | (Err _, s') =>
      s' = s /\ exists p, SwMap.find largestAcked (m_sent s) = Some p /\ nowMs < sentTimeMs p
  | (NoFuel, _) => False
  end.
Proof.
  intros Hwf Hla. unfold onAckReceived. m_run.
  pose proof (sample_cases largestAcked ackDelayMs ranges nowMs s) as Hs.
  destruct (onAckReceived_sample _ _ _ _ s) as [[u|e|] s1]; [|done..].
  rewrite <- Hs in Hwf. pose proof (commit_partitioned s1 largestAcked ranges nowMs Hwf Hla) as Hp.
  destruct (onAckReceived_commit _ _ _ s1) as [out s2]. unfold partitioned in *. by rewrite Hs in Hp.
Qed.

(** Ten packets in flight, one a millisecond. *)
Definition example_state : t :=
  fold_left (fun s pn => onPacketSent {| packetNumber := pn; sentTimeMs := 10 + pn;
     ackEliciting := true; inFlight := true; sentBytes := 1200 |} s) [0; 1; 2; 3; 4; 5; 6; 7; 8; 9] init.

Lemma onAckReceived_partition_witness :
  SwMap.keys (m_sent example_state) = [0; 1; 2; 3; 4; 5; 6; 7; 8; 9] /\
  (exists s', onAckReceived 8 0 [(7, 8); (2, 3)] 30 example_state =
    (Ok {| newlyAcked := [2; 3; 7; 8]; lost := [0; 1; 4; 5; 6] |}, s')) /\
  match onAckReceived 8 0 [(7, 8); (2, 3)] 30 example_state with
  | (Ok out, s') => partitioned example_state 8 [(7, 8); (2, 3)] 30 out s'
  | (Err _, s') =>
      s' = example_state /\ exists p, SwMap.find 8 (m_sent example_state) = Some p /\ 30 < sentTimeMs p
  | (NoFuel, _) => False
  end.
Proof.
  split; [reflexivity|]. split; [eexists; vm_compute; reflexivity|].
  apply (onAckReceived_partition example_state 8 0 [(7, 8); (2, 3)] 30); by_eval.
Defined.

End SwQuicLossRecovery.
