(* ===== verification/Stream.v ===== *)
(** Reassembly of one receive stream: src/src/core/io/quic/SwQuicStream.h. *)
From Stdlib Require Import ZArith Lia.
From stdpp Require Import base list strings numbers.
From S2P Require Import Prelude ByteArray Frame SwMap.

Module SwQuicStream.

Record t := mk {
  m_streamId : Z;
  m_readOffset : Z;
  m_finReceived : bool;
  m_finalOffset : Z;
  m_bufferedBytes : Z;
  m_maxBufferedBytes : Z;
  m_maxFragments : Z;
  m_fragments : SwMap.t (list byte);
}.

(** The constructor. *)
Definition make (streamId maxBufferedBytes maxFragments : Z) : t :=
  mk streamId 0 false 0 0 maxBufferedBytes maxFragments SwMap.empty.

Definition set_final (endOffset : Z) (s : t) : t :=
  mk (m_streamId s) (m_readOffset s) true endOffset (m_bufferedBytes s)
    (m_maxBufferedBytes s) (m_maxFragments s) (m_fragments s).

Definition set_buffer (bufferedBytes : Z) (fragments : SwMap.t (list byte)) (s : t) : t :=
  mk (m_streamId s) (m_readOffset s) (m_finReceived s) (m_finalOffset s) bufferedBytes
    (m_maxBufferedBytes s) (m_maxFragments s) fragments.

Definition set_readOffset (readOffset : Z) (s : t) : t :=
  mk (m_streamId s) readOffset (m_finReceived s) (m_finalOffset s) (m_bufferedBytes s)
    (m_maxBufferedBytes s) (m_maxFragments s) (m_fragments s).

Definition addWouldOverflow_ (lhs rhs : Z) : bool := (u64_max - rhs) <? lhs.

Definition byteArraySliceFits_ (value : Z) : bool := value <=? int_max.

(** The checks a final offset must pass. *)
Definition checkFinal (endOffset : Z) : M t unit :=
  s ← get;
  fail_if (m_finReceived s && negb (m_finalOffset s =? endOffset))
    "QUIC stream received conflicting final offsets";;
  fail_if (endOffset <? m_readOffset s) "QUIC stream final offset precedes consumed data";;
  match list.last (m_fragments s) with
  | Some (lastOffset, lastData) =>
      let retainedEnd := lastOffset +u SwByteArray.size lastData in
      fail_if (negb (m_finReceived s) && (endOffset <? retainedEnd))
        "QUIC stream final offset precedes received data"
  | None => mret tt
  end.

Definition recordFinal (fin : bool) (endOffset : Z) : M t unit :=
  if fin then modify (set_final endOffset) else mret tt.

(** The loop of [receive] over the fragments held, from the iterator [it] and
    with [cursor] at the first byte not yet known to be covered: the uncovered
    pieces before the last overlap, their total size and the final cursor, or
    [None] when an overlap disagrees with the data held. *)
Fixpoint scan (fragmentOffset : Z) (fragment : list byte) (fragmentEnd : Z)
    (it : SwMap.t (list byte)) (cursor : Z) : option (list (Z * list byte) * Z * Z) :=
  match it with
  | [] => Some ([], 0, cursor)
  | (existingStart, existing) :: rest =>
      let existingEnd := existingStart +u SwByteArray.size existing in
      if existingEnd <=? fragmentOffset then scan fragmentOffset fragment fragmentEnd rest cursor
      else if fragmentEnd <=? existingStart then Some ([], 0, cursor)
      else
        let uncoveredEnd := if existingStart <? fragmentEnd then existingStart else fragmentEnd in
        let uncoveredLength := uncoveredEnd -u cursor in
        let pending :=
          if cursor <? existingStart
          then [(cursor, SwByteArray.mid fragment (to_int (cursor -u fragmentOffset)) (to_int uncoveredLength))]
          else [] in
        let added := if cursor <? existingStart then uncoveredLength else 0 in
        let overlapStart := if fragmentOffset <? existingStart then existingStart else fragmentOffset in
        let overlapEnd := if existingEnd <? fragmentEnd then existingEnd else fragmentEnd in
        let overlapLength := overlapEnd -u overlapStart in
        if (overlapStart <? overlapEnd)
           && negb (bool_decide (SwByteArray.slice existing (overlapStart -u existingStart) overlapLength
                                 = SwByteArray.slice fragment (overlapStart -u fragmentOffset) overlapLength))
        then None
        else
          match scan fragmentOffset fragment fragmentEnd rest
                  (if cursor <? existingEnd then existingEnd else cursor) with
          | Some (additions, addedBytes, cursor) =>
              Some (pending ++ additions, added +u addedBytes, cursor)
          | None => None
          end
  end.

(** The piece after the last overlap. *)
Definition tailPiece (fragmentOffset : Z) (fragment : list byte) (fragmentEnd cursor : Z) :
    list (Z * list byte) :=
  if cursor <? fragmentEnd then
    let uncoveredLength := fragmentEnd -u cursor in
    [(cursor,
      if (cursor =? fragmentOffset) && (uncoveredLength =? SwByteArray.size fragment) then fragment
      else SwByteArray.mid fragment (to_int (cursor -u fragmentOffset)) (to_int uncoveredLength))]
  else [].

Definition insertAll (additions : list (Z * list byte)) (m : SwMap.t (list byte)) : SwMap.t (list byte) :=
  fold_left (fun m a => SwMap.insert a.1 a.2 m) additions m.

Definition budgetExceeded (s : t) (addedBytes additions : Z) : bool :=
  (m_maxBufferedBytes s <? m_bufferedBytes s)
  || (m_maxBufferedBytes s -u m_bufferedBytes s <? addedBytes)
  || (m_maxFragments s <? SwMap.size (m_fragments s))
  || (m_maxFragments s -u SwMap.size (m_fragments s) <? additions).

(** Keeps the uncovered parts of a fragment. *)
Definition retain (fragmentOffset : Z) (fragment : list byte) : M t unit :=
  if 0 <? SwByteArray.size fragment then
    fail_if (int_max <? SwByteArray.size fragment) "QUIC stream fragment exceeds SwByteArray slice limits";;
    let fragmentEnd := fragmentOffset +u SwByteArray.size fragment in
    s ← get;
    match scan fragmentOffset fragment fragmentEnd (m_fragments s) fragmentOffset with
    | None => throw "QUIC stream received conflicting overlapping data"
    | Some (additions, addedBytes, cursor) =>
        let tail := tailPiece fragmentOffset fragment fragmentEnd cursor in
        let addedBytes := if cursor <? fragmentEnd then addedBytes +u (fragmentEnd -u cursor) else addedBytes in
        let additions := additions ++ tail in
        fail_if (budgetExceeded s addedBytes (zlen additions)) "QUIC stream reassembly budget exceeded";;
        put (set_buffer (m_bufferedBytes s +u addedBytes) (insertAll additions (m_fragments s)) s)
    end
  else mret tt.

(** The part of the data not yet consumed, and where it starts. *)
Definition trimConsumed (offset : Z) (data : list byte) : M t (Z * list byte) :=
  s ← get;
  if offset <? m_readOffset s then
    let trim := m_readOffset s -u offset in
    let kept := SwByteArray.size data -u trim in
    fail_if (negb (byteArraySliceFits_ trim) || negb (byteArraySliceFits_ kept))
      "QUIC stream fragment is too large for SwByteArray slicing";;
    mret (m_readOffset s, SwByteArray.mid data (to_int trim) (to_int kept))
  else mret (offset, data).

Definition receive (offset : Z) (data : list byte) (fin : bool) : M t unit :=
  let dataSize := SwByteArray.size data in
  fail_if (addWouldOverflow_ offset dataSize) "QUIC stream fragment offset overflows";;
  let endOffset := offset +u dataSize in
  (if fin then checkFinal endOffset else mret tt);;
  s ← get;
  fail_if (m_finReceived s && (m_finalOffset s <? endOffset)) "QUIC stream fragment exceeds final offset";;
  if endOffset <=? m_readOffset s then recordFinal fin endOffset
  else
    piece ← trimConsumed offset data;
    retain piece.1 piece.2;;
    recordFinal fin endOffset.

Definition receiveFrame (frame : SwQuicFrame.t) : M t unit :=
  fail_if (negb (bool_decide (SwQuicFrame.m_type frame = SwQuicFrame.Stream)))
    "QUIC stream can only receive STREAM frames";;
  s ← get;
  fail_if (negb (SwQuicFrame.m_streamId frame =? m_streamId s))
    "QUIC STREAM frame belongs to another stream";;
  receive (SwQuicFrame.m_offset frame) (SwQuicFrame.m_data frame) (SwQuicFrame.m_fin frame).

Fixpoint hasReadable_loop (readOffset : Z) (it : SwMap.t (list byte)) : bool :=
  match it with
  | [] => false
  | (start, data) :: rest =>
      let end_ := start +u SwByteArray.size data in
      if (start <=? readOffset) && (readOffset <? end_) then true
      else if readOffset <? start then false
      else hasReadable_loop readOffset rest
  end.

Definition hasReadableData (s : t) : bool := hasReadable_loop (m_readOffset s) (m_fragments s).

(** The loop of [readContiguous]: each turn erases the first fragment or stops. *)
Fixpoint read_loop (fuel : nat) (out : list byte) : M t (list byte) :=
  match fuel with
  | O => out_of_fuel
  | S fuel' =>
      s ← get;
      match m_fragments s with
      | [] => mret out
      | (start, data) :: rest =>
          let size := SwByteArray.size data in
          let end_ := start +u size in
          if end_ <=? m_readOffset s then
            put (set_buffer (m_bufferedBytes s -u size) rest s);;
            read_loop fuel' out
          else if m_readOffset s <? start then mret out
          else
            let trim := m_readOffset s -u start in
            let readable := size -u trim in
            if int_max <? readable then mret out
            else
              let out := if (SwByteArray.size out =? 0) && (trim =? 0) then data
                         else out ++ SwByteArray.mid data (to_int trim) (to_int readable) in
              put (set_buffer (m_bufferedBytes s -u size) rest
                     (set_readOffset (m_readOffset s +u readable) s));;
              read_loop fuel' out
      end
  end.

Definition readContiguous : M t (list byte) := fun s =>
  read_loop (S (length (m_fragments s))) [] s.

Definition isReceiveComplete (s : t) : bool :=
  m_finReceived s && (m_finalOffset s <=? m_readOffset s).

(** ** Specification: the buffer as a partial map from offsets to bytes *)

(** Byte [i] of data that starts at [offset]. *)
Definition data_at (offset : Z) (data : list byte) (i : Z) : option byte :=
  if (offset <=? i) && (i <? offset + SwByteArray.size data)
  then data !! Z.to_nat (i - offset) else None.

Fixpoint byte_at (m : SwMap.t (list byte)) (i : Z) : option byte :=
  match m with
  | [] => None
  | (start, data) :: rest =>
      match data_at start data i with Some b => Some b | None => byte_at rest i end
  end.

(** Non-empty disjoint fragments in order, from [lo] on and ending by [hi]. *)
Fixpoint frags (lo hi : Z) (m : SwMap.t (list byte)) : Prop :=
  match m with
  | [] => lo <= hi
  | (start, data) :: rest =>
      lo <= start /\ 0 < SwByteArray.size data <= int_max /\ frags (start + SwByteArray.size data) hi rest
  end.

Definition total_size (m : SwMap.t (list byte)) : Z :=
  fold_right (fun e acc => SwByteArray.size e.2 + acc) 0 m.

Definition limit : Z := 18446744073709551615.

Record invariant (s : t) : Prop := {
  inv_read : 0 <= m_readOffset s <= limit;
  inv_frags : frags (m_readOffset s) limit (m_fragments s);
  inv_bytes : m_bufferedBytes s = total_size (m_fragments s);
  inv_budget : total_size (m_fragments s) <= m_maxBufferedBytes s;
  inv_count : SwMap.size (m_fragments s) <= m_maxFragments s;
  inv_limits : is_u64 (m_maxBufferedBytes s) /\ is_u64 (m_maxFragments s);
  inv_final : m_finReceived s = true ->
    frags (m_readOffset s) (m_finalOffset s) (m_fragments s) /\ m_finalOffset s <= limit;
}.

(** ** Pieces and fragments *)

Lemma data_at_Some o d i b : data_at o d i = Some b -> o <= i < o + SwByteArray.size d.
Proof.
  unfold data_at. destruct (Z.leb_spec o i); simpl; [|done].
  destruct (Z.ltb_spec i (o + SwByteArray.size d)); [lia|done].
Qed.

Lemma data_at_in o d i : o <= i < o + SwByteArray.size d -> exists b, data_at o d i = Some b.
Proof.
  intros H. unfold data_at. destruct (Z.leb_spec o i); [|lia].
  destruct (Z.ltb_spec i (o + SwByteArray.size d)); [|lia]. simpl.
  apply lookup_lt_is_Some. unfold SwByteArray.size in *. lia.
Qed.

Lemma data_at_out o d i : ~ (o <= i < o + SwByteArray.size d) -> data_at o d i = None.
Proof. intros H. destruct (data_at o d i) eqn:E; [|done]. apply data_at_Some in E. lia. Qed.

Lemma data_at_app o d1 d2 i :
  data_at o (d1 ++ d2) i =
    match data_at o d1 i with Some b => Some b | None => data_at (o + SwByteArray.size d1) d2 i end.
Proof.
  unfold data_at. rewrite SwByteArray.size_app. unfold SwByteArray.size.
  destruct (Z.leb_spec o i); simpl.
  - destruct (Z.ltb_spec i (o + zlen d1)).
    + destruct (Z.ltb_spec i (o + (zlen d1 + zlen d2))); [|lia]. rewrite lookup_app_l by lia.
      destruct (lookup_lt_is_Some_2 d1 (Z.to_nat (i - o)) ltac:(lia)) as [b ->]. done.
    + destruct (Z.leb_spec (o + zlen d1) i); [|lia]. simpl. rewrite Z.add_assoc.
      destruct (Z.ltb_spec i (o + zlen d1 + zlen d2)); [|done]. rewrite lookup_app_r by lia.
      f_equal. lia.
  - destruct (Z.leb_spec (o + zlen d1) i); [lia|done].
Qed.

Lemma frags_le lo hi m : frags lo hi m -> lo <= hi.
Proof.
  revert lo. induction m as [|[s d] m IH]; intros lo; simpl; [done|].
  intros (H1 & H2 & H3). specialize (IH _ H3). lia.
Qed.

Lemma frags_weaken lo lo' hi hi' m : frags lo hi m -> lo' <= lo -> hi <= hi' -> frags lo' hi' m.
Proof.
  revert lo lo'. induction m as [|[s d] m IH]; intros lo lo'; simpl; [lia|].
  intros (H1 & H2 & H3) Hlo Hhi. split_and!; [lia..|]. by apply (IH (s + SwByteArray.size d)).
Qed.

Lemma frags_app lo mid hi m1 m2 : frags lo mid m1 -> frags mid hi m2 -> frags lo hi (m1 ++ m2).
Proof.
  revert lo. induction m1 as [|[s d] m1 IH]; intros lo; simpl.
  - intros H1 H2. by apply (frags_weaken mid lo hi hi).
  - intros (H1 & H2 & H3) H4. split_and!; [lia..|]. by apply IH.
Qed.

Lemma byte_at_range m lo hi i b : frags lo hi m -> byte_at m i = Some b -> lo <= i < hi.
Proof.
  revert lo. induction m as [|[s d] m IH]; intros lo; simpl; [done|].
  intros (H1 & H2 & H3). destruct (data_at s d i) eqn:E.
  - apply data_at_Some in E. pose proof (frags_le _ _ _ H3). intros _. lia.
  - intros H. specialize (IH _ H3 H). lia.
Qed.

Lemma byte_at_below m lo hi i : frags lo hi m -> i < lo -> byte_at m i = None.
Proof.
  intros Hf Hi. destruct (byte_at m i) eqn:E; [|done].
  pose proof (byte_at_range _ _ _ _ _ Hf E). lia.
Qed.

Lemma byte_at_app m1 m2 i :
  byte_at (m1 ++ m2) i = match byte_at m1 i with Some b => Some b | None => byte_at m2 i end.
Proof. induction m1 as [|[s d] m1 IH]; simpl; [done|]. by destruct (data_at s d i). Qed.

Lemma total_size_app m1 m2 : total_size (m1 ++ m2) = total_size m1 + total_size m2.
Proof. induction m1 as [|[s d] m1 IH]; simpl; lia. Qed.

Lemma total_size_nonneg m : 0 <= total_size m.
Proof. induction m as [|[s d] m IH]; simpl; [done|]. pose proof (SwByteArray.size_nonneg d). lia. Qed.

Lemma frags_total lo hi m : frags lo hi m -> total_size m <= hi - lo.
Proof.
  revert lo. induction m as [|[s d] m IH]; intros lo; simpl; [lia|].
  intros (H1 & H2 & H3). specialize (IH _ H3). lia.
Qed.

(** Storing a piece where nothing is held yet. *)
Lemma insert_piece m : forall lo hi o d,
  frags lo hi m -> lo <= o -> 0 < SwByteArray.size d <= int_max -> o + SwByteArray.size d <= hi ->
  (forall i, o <= i < o + SwByteArray.size d -> byte_at m i = None) ->
  let m' := SwMap.insert o d m in
  frags lo hi m' /\ total_size m' = total_size m + SwByteArray.size d /\
  SwMap.size m' = SwMap.size m + 1 /\
  forall i, byte_at m' i = match data_at o d i with Some b => Some b | None => byte_at m i end.
Proof.
  induction m as [|[s x] m IH]; intros lo hi o d Hf Hlo Hd Hhi Hfree m'; unfold m'; clear m'.
  - simpl in *. split_and!; try lia; try done.
  - simpl in Hf. destruct Hf as (H1 & H2 & H3).
    assert (o + SwByteArray.size d <= s \/ s + SwByteArray.size x <= o) as Hord.
    { destruct (Z.lt_ge_cases o s).
      - left. destruct (Z.lt_ge_cases s (o + SwByteArray.size d)); [|done].
        specialize (Hfree s ltac:(lia)). simpl in Hfree.
        destruct (data_at_in s x s ltac:(lia)) as [b Hb]. by rewrite Hb in Hfree.
      - right. destruct (Z.lt_ge_cases o (s + SwByteArray.size x)); [|done].
        specialize (Hfree o ltac:(lia)). simpl in Hfree.
        destruct (data_at_in s x o ltac:(lia)) as [b Hb]. by rewrite Hb in Hfree. }
    simpl. destruct (Z.ltb_spec o s).
    + pose proof (SwByteArray.size_nonneg x).
      split_and!; [simpl; split_and!; (lia || done)|simpl; lia|unfold SwMap.size; simpl length; lia|done].
    + destruct (Z.eqb_spec o s); [lia|].
      destruct (IH (s + SwByteArray.size x) hi o d) as (I1 & I2 & I3 & I4); [done|lia|done|done| |].
      { intros i Hi. specialize (Hfree i Hi). simpl in Hfree. by destruct (data_at s x i). }
      split_and!; [simpl; split_and!; (lia || done)|simpl; lia|unfold SwMap.size in *; simpl length; lia|].
      intros i. simpl. rewrite I4. destruct (data_at s x i) eqn:E; [|done].
      apply data_at_Some in E. by rewrite data_at_out by lia.
Qed.

(** Storing several disjoint pieces. *)
Lemma insertAll_spec adds : forall m lo hi,
  frags lo hi m -> frags lo hi adds ->
  (forall i, byte_at adds i <> None -> byte_at m i = None) ->
  let m' := insertAll adds m in
  frags lo hi m' /\ total_size m' = total_size m + total_size adds /\
  SwMap.size m' = SwMap.size m + zlen adds /\
  forall i, byte_at m' i = match byte_at m i with Some b => Some b | None => byte_at adds i end.
Proof.
  induction adds as [|[o d] adds IH]; intros m lo hi Hm Ha Hfree m'; unfold m'; clear m'.
  - simpl. split_and!; [done|lia|lia|]. intros i. by destruct (byte_at m i).
  - simpl in Ha. destruct Ha as (H1 & H2 & H3).
    destruct (insert_piece m lo hi o d) as (I1 & I2 & I3 & I4); [done|done|done|by eapply frags_le| |].
    { intros i Hi. apply Hfree. simpl. destruct (data_at_in o d i Hi) as [b ->]. done. }
    destruct (IH (SwMap.insert o d m) lo hi I1) as (J1 & J2 & J3 & J4).
    { apply (frags_weaken (o + SwByteArray.size d) lo hi hi); [done|lia|lia]. }
    { intros i Hi. rewrite I4. destruct (data_at o d i) eqn:E.
      - apply data_at_Some in E. rewrite (byte_at_below adds _ _ _ H3) in Hi by lia. done.
      - apply Hfree. simpl. by rewrite E. }
    change (insertAll ((o, d) :: adds) m) with (insertAll adds (SwMap.insert o d m)).
    split_and!; [done|simpl; lia|rewrite J3, I3; simpl length; lia|].
    intros i. rewrite J4, I4. simpl. destruct (data_at o d i) eqn:E; [|done].
    assert (byte_at m i = None) as ->; [|done]. apply Hfree. simpl. by rewrite E.
Qed.

(** A piece cut out of a fragment carries the same bytes at the same offsets. *)
Lemma piece_spec fo F a e :
  fo <= a -> a < e -> e <= fo + SwByteArray.size F -> a - fo <= int_max -> e - a <= int_max ->
  let d := SwByteArray.mid F (to_int (a - fo)) (to_int (e - a)) in
  SwByteArray.size d = e - a /\
  forall i, data_at a d i = if (a <=? i) && (i <? e) then data_at fo F i else None.
Proof.
  intros H1 H2 H3 H4 H5 d. unfold int_max in H4, H5.
  assert (d = take (Z.to_nat (e - a)) (drop (Z.to_nat (a - fo)) F)) as Ed.
  { unfold d. rewrite !to_int_small by lia. apply SwByteArray.mid_spec; lia. }
  assert (SwByteArray.size d = e - a) as Es.
  { unfold d. rewrite !to_int_small by lia. apply SwByteArray.size_mid; lia. }
  split; [done|]. intros i. unfold data_at. rewrite Es. replace (a + (e - a)) with e by lia.
  destruct (Z.leb_spec a i); [|done]. destruct (Z.ltb_spec i e); [|done]. simpl.
  destruct (Z.leb_spec fo i); [|lia]. destruct (Z.ltb_spec i (fo + SwByteArray.size F)); [|lia]. simpl.
  rewrite Ed, lookup_take, lookup_drop by lia.
  destruct (decide _); [|lia]. f_equal. lia.
Qed.

(** Comparing two overlapping runs byte by byte. *)
Lemma slice_eq_iff s d fo F a n :
  0 <= n -> s <= a -> a + n <= s + SwByteArray.size d -> fo <= a -> a + n <= fo + SwByteArray.size F ->
  SwByteArray.slice d (a - s) n = SwByteArray.slice F (a - fo) n <->
  (forall i, a <= i < a + n -> data_at s d i = data_at fo F i).
Proof.
  intros Hn H1 H2 H3 H4. unfold SwByteArray.slice.
  assert (forall o x, o <= a -> a + n <= o + SwByteArray.size x -> forall k, (k < Z.to_nat n)%nat ->
    take (Z.to_nat n) (drop (Z.to_nat (a - o)) x) !! k = data_at o x (a + Z.of_nat k)) as Hk.
  { intros o x Ho Hx k Hk. rewrite lookup_take, lookup_drop. destruct (decide _); [|lia].
    unfold data_at. destruct (Z.leb_spec o (a + Z.of_nat k)); [|lia].
    destruct (Z.ltb_spec (a + Z.of_nat k) (o + SwByteArray.size x)); [|lia]. simpl. f_equal. lia. }
  split.
  - intros He i Hi. pose proof (Hk s d H1 H2 (Z.to_nat (i - a)) ltac:(lia)) as K1.
    pose proof (Hk fo F H3 H4 (Z.to_nat (i - a)) ltac:(lia)) as K2.
    rewrite He in K1. rewrite K1 in K2. by replace (a + Z.of_nat (Z.to_nat (i - a))) with i in K2 by lia.
  - intros He. apply list_eq. intros k. destruct (decide (k < Z.to_nat n)%nat).
    + rewrite !Hk by done. apply He. lia.
    + rewrite !lookup_ge_None_2; [done|rewrite length_take; lia..].
Qed.

Lemma tailPiece_spec fo F c :
  0 <= fo -> fo <= c -> fo + SwByteArray.size F <= limit -> SwByteArray.size F <= int_max ->
  let fe := fo + SwByteArray.size F in
  let tail := tailPiece fo F fe c in
  frags c (Z.max fe c) tail /\ total_size tail = (if c <? fe then fe - c else 0) /\
  forall i, byte_at tail i = if c <=? i then data_at fo F i else None.
Proof.
  intros H0 H1 H2 H3 fe tail. unfold tail, tailPiece, limit in *.
  pose proof (SwByteArray.size_nonneg F). subst fe. set (fe := fo + SwByteArray.size F) in *.
  destruct (Z.ltb_spec c fe) as [Hc|Hc].
  - rewrite !sub64_small by lia.
    destruct (piece_spec fo F c fe H1 Hc ltac:(lia) ltac:(lia) ltac:(lia)) as [Hs Hd].
    set (d := if _ && _ then F else _).
    assert (SwByteArray.size d = fe - c /\
      forall i, data_at c d i = if (c <=? i) && (i <? fe) then data_at fo F i else None) as [Ds Dd].
    { unfold d. destruct (Z.eqb_spec c fo) as [->|]; simpl; [|done].
      destruct (fe - fo =? SwByteArray.size F); [|done]. split; [lia|]. intros i.
      destruct (Z.leb_spec fo i), (Z.ltb_spec i fe); simpl; try done; apply data_at_out; lia. }
    simpl. rewrite Ds. split_and!; try lia. intros i. rewrite Dd.
    destruct (Z.leb_spec c i); simpl; [|done].
    destruct (Z.ltb_spec i fe); [by destruct (data_at fo F i)|]. rewrite data_at_out by lia. done.
  - simpl. split_and!; try lia. intros i. destruct (Z.leb_spec c i); [|done].
    rewrite data_at_out by lia. done.
Qed.

(** The piece before an overlap that starts at [s]. *)
Lemma gapPiece_spec fo F c s :
  0 <= fo -> fo <= c -> s <= fo + SwByteArray.size F -> fo + SwByteArray.size F <= limit ->
  0 < SwByteArray.size F <= int_max ->
  let pending := if c <? s then [(c, SwByteArray.mid F (to_int (c -u fo)) (to_int (s -u c)))] else [] in
  let added := if c <? s then s -u c else 0 in
  frags c (Z.max c s) pending /\ 0 <= added /\ total_size pending = added /\
  forall i, byte_at pending i = if (c <=? i) && (i <? s) then data_at fo F i else None.
Proof.
  intros H0 H1 H2 H3 [H4 H5] pending added. unfold pending, added, limit in *.
  destruct (Z.ltb_spec c s) as [Hc|Hc].
  - rewrite !sub64_small by lia. destruct (piece_spec fo F c s H1 Hc H2 ltac:(lia) ltac:(lia)) as [Hs Hd].
    simpl. rewrite Hs. split_and!; try lia. intros i. rewrite Hd.
    by destruct (if _ && _ then data_at fo F i else None).
  - simpl. split_and!; try lia. intros i.
    destruct (Z.leb_spec c i), (Z.ltb_spec i s); simpl; (done || lia).
Qed.

(** A range on which a decidable property does not always hold has a counterexample. *)
Lemma dec_exists_range (f g : Z -> option byte) a b :
  ~ (forall i, a <= i < b -> f i = g i) -> exists i, a <= i < b /\ f i <> g i.
Proof.
  intros Hn. destruct (decide (Exists (fun i => f i <> g i) (seqZ a (b - a)))) as [He|He].
  - apply Exists_exists in He as (i & Hi & Hne). apply list_elem_of_In, elem_of_seqZ in Hi. exists i. split; [lia|done].
  - exfalso. apply Hn. intros i Hi. destruct (decide (f i = g i)) as [|Hne]; [done|].
    exfalso. apply He, Exists_exists. exists i. split; [|done]. apply list_elem_of_In, elem_of_seqZ. lia.
Qed.

(** What the loop and the tail together compute: the parts of the fragment not
    held yet, or a disagreement. *)
Lemma scan_spec fo F it : forall lo,
  let fe := fo + SwByteArray.size F in
  0 <= fo -> 0 < SwByteArray.size F <= int_max -> fe <= limit ->
  frags lo limit it -> 0 <= lo ->
  match scan fo F fe it (Z.max fo lo) with
  | None => exists i b b', byte_at it i = Some b /\ data_at fo F i = Some b' /\ b <> b'
  | Some (adds, added, c) =>
      let all := adds ++ tailPiece fo F fe c in
      fo <= c /\ 0 <= added /\
      frags (Z.max fo lo) limit all /\
      added + (if c <? fe then fe - c else 0) = total_size all /\
      (forall i b, byte_at it i = Some b -> fo <= i < fe -> data_at fo F i = Some b) /\
      (forall i, byte_at all i =
         if lo <=? i then match byte_at it i with Some _ => None | None => data_at fo F i end else None)
  end.
Proof.
  induction it as [|[s d] it IH]; intros lo fe Hfo HF Hfe Hfr Hlo; unfold int_max, limit in *.
  - simpl. destruct (tailPiece_spec fo F (Z.max fo lo)) as (T1 & T2 & T3); unfold limit, int_max; try lia.
    fold fe in T1, T2, T3. simpl in Hfr.
    split_and!; [lia|lia|apply (frags_weaken _ _ _ _ _ T1); lia|lia|done|].
    intros i. rewrite T3. destruct (Z.leb_spec (Z.max fo lo) i), (Z.leb_spec lo i); try done; try lia.
    by rewrite data_at_out by lia.
  - destruct Hfr as (F1 & F2 & F3). pose proof (frags_le _ _ _ F3) as Fle.
    cbn [scan]. rewrite add64_small by (unfold int_max in *; lia). set (se := s + SwByteArray.size d) in *.
    destruct (Z.leb_spec se fo) as [Hskip|Hskip].
    { (* wholly before the fragment *)
      specialize (IH se Hfo HF Hfe F3 ltac:(lia)). cbv zeta in IH. fold fe in IH.
      replace (Z.max fo lo) with (Z.max fo se) by lia. unfold limit in IH.
      destruct (scan fo F fe it (Z.max fo se)) as [[[adds added] c]|].
      - destruct IH as (I1 & I2 & I3 & I4 & I5 & I6). split_and!; [lia|lia|done|done| |].
        + intros i b Hb Hi. simpl in Hb. rewrite data_at_out in Hb by lia. by eapply I5.
        + intros i. rewrite I6. simpl. destruct (Z.leb_spec se i), (Z.leb_spec lo i); try done; try lia.
          * by rewrite (data_at_out s d) by lia.
          * rewrite (data_at_out fo F) by lia. by destruct (match data_at s d i with Some b => Some b | None => byte_at it i end).
      - destruct IH as (i & b & b' & Hb & Hb' & Hne). exists i, b, b'. split; [|done]. simpl.
        pose proof (byte_at_range _ _ _ _ _ F3 Hb). by rewrite data_at_out by lia. }
    destruct (Z.leb_spec fe s) as [Hbrk|Hbrk].
    { (* wholly after *)
      destruct (tailPiece_spec fo F (Z.max fo lo)) as (T1 & T2 & T3); unfold limit, int_max; try lia.
      fold fe in T1, T2, T3. simpl app.
      split_and!; [lia|lia|apply (frags_weaken _ _ _ _ _ T1); lia|lia| |].
      - intros i b Hb Hi. pose proof (byte_at_range ((s, d) :: it) s limit i b) as Hr.
        unfold limit in Hr. simpl in Hr. specialize (Hr ltac:(split_and!; (lia || done)) Hb). lia.
      - intros i. rewrite T3. destruct (Z.leb_spec (Z.max fo lo) i), (Z.leb_spec lo i); try done; try lia.
        + destruct (byte_at ((s, d) :: it) i) eqn:E; [|done].
          pose proof (byte_at_range ((s, d) :: it) s limit i b) as Hr.
          unfold limit in Hr. simpl in Hr. specialize (Hr ltac:(split_and!; (lia || done)) E).
          by rewrite data_at_out by lia.
        + rewrite (data_at_out fo F) by lia. by destruct (byte_at _ i). }
    (* an overlap, perhaps after a gap *)
    set (c := Z.max fo lo) in *. rewrite (Zlt_is_lt_bool s fe) in Hbrk. rewrite Hbrk.
    apply Z.ltb_lt in Hbrk.
    pose proof (gapPiece_spec fo F c s ltac:(lia) ltac:(lia) ltac:(lia) ltac:(unfold limit; lia) HF) as Hgap.
    set (pending := if c <? s then [_] else []) in *. set (added0 := if c <? s then s -u c else 0) in *.
    destruct Hgap as (G1 & G2 & G3 & G4).
    assert (Z.max fo se = se) as Ese by lia.
    specialize (IH se Hfo HF Hfe F3 ltac:(lia)). cbv zeta in IH. fold fe in IH. rewrite Ese in IH.
    destruct (Z.ltb_spec c se) as [_|]; [|lia].
    set (os := if fo <? s then s else fo). set (oe := if se <? fe then se else fe).
    assert (os = Z.max s fo /\ oe = Z.min se fe) as [Eos Eoe].
    { unfold os, oe. destruct (Z.ltb_spec fo s), (Z.ltb_spec se fe); lia. }
    destruct (Z.ltb_spec os oe) as [_|]; [|lia]. rewrite !sub64_small by lia. cbn [andb].
    pose proof (slice_eq_iff s d fo F os (oe - os) ltac:(lia) ltac:(lia) ltac:(lia) ltac:(lia) ltac:(lia)) as Hsl.
    replace (os + (oe - os)) with oe in Hsl by lia.
    destruct (bool_decide_reflect (SwByteArray.slice d (os - s) (oe - os) = SwByteArray.slice F (os - fo) (oe - os)))
      as [Heq|Hne]; cbn [negb].
    + pose proof (proj1 Hsl Heq) as Hagree. clear Hsl Heq.
      destruct (scan fo F fe it se) as [[[adds added] c']|].
      * destruct IH as (I1 & I2 & I3 & I4 & I5 & I6).
        pose proof (frags_total _ _ _ I3) as Htot.
        pose proof (frags_total _ _ _ G1). unfold limit in Htot.
        assert (0 <= (if c' <? fe then fe - c' else 0)) by (destruct (Z.ltb_spec c' fe); lia).
        rewrite add64_small by lia.
        rewrite <- app_assoc. split_and!; [lia|lia| |rewrite total_size_app; lia| |].
        -- apply (frags_app _ (Z.max c s)); [done|]. apply (frags_weaken _ _ _ _ _ I3); lia.
        -- intros i b Hb Hi. simpl in Hb. destruct (data_at s d i) eqn:E.
           ++ injection Hb as ->. rewrite <- E. symmetry. apply Hagree. apply data_at_Some in E. lia.
           ++ by apply I5.
        -- intros i. rewrite byte_at_app, G4, I6. simpl.
           pose proof (fun i b => byte_at_range _ _ _ i b F3) as Hr.
           destruct (Z.leb_spec c i), (Z.ltb_spec i s); simpl.
           ++ rewrite (data_at_out s d), (byte_at_below _ _ _ _ F3) by lia.
              destruct (Z.leb_spec lo i); [|lia]. destruct (Z.leb_spec se i); [lia|]. by destruct (data_at fo F i).
           ++ destruct (Z.leb_spec lo i); [|lia]. destruct (Z.leb_spec se i).
              ** by rewrite (data_at_out s d) by lia.
              ** destruct (data_at_in s d i ltac:(lia)) as [b ->]. done.
           ++ destruct (Z.leb_spec se i); [lia|]. destruct (Z.leb_spec lo i); [|done].
              rewrite (data_at_out fo F) by lia. by destruct (match data_at s d i with Some b => Some b | None => byte_at it i end).
           ++ destruct (Z.leb_spec se i); [lia|]. destruct (Z.leb_spec lo i); [|done].
              rewrite (data_at_out fo F) by lia. by destruct (match data_at s d i with Some b => Some b | None => byte_at it i end).
      * destruct IH as (i & b & b' & Hb & Hb' & Hne). exists i, b, b'. split; [|done]. simpl.
        pose proof (byte_at_range _ _ _ _ _ F3 Hb). by rewrite data_at_out by lia.
    + assert (exists i, os <= i < oe /\ data_at s d i <> data_at fo F i) as (i & Hi & Hd).
      { apply dec_exists_range. intros Hall. apply Hne, Hsl. exact Hall. }
      destruct (data_at_in s d i ltac:(lia)) as [b Hb]. destruct (data_at_in fo F i ltac:(lia)) as [b' Hb'].
      exists i, b, b'. simpl. rewrite Hb. split_and!; [done|done|congruence].
Qed.

Lemma frags_tighten m : forall lo hi h,
  frags lo hi m -> lo <= h -> (forall i b, byte_at m i = Some b -> i < h) -> frags lo h m.
Proof.
  induction m as [|[s d] m IH]; intros lo hi h; simpl; [done|].
  intros (H1 & H2 & H3) Hlo Hb. split_and!; [lia..|].
  apply (IH _ hi); [done| |].
  - destruct (data_at_in s d (s + SwByteArray.size d - 1) ltac:(lia)) as [b E].
    specialize (Hb (s + SwByteArray.size d - 1) b). rewrite E in Hb. specialize (Hb eq_refl). lia.
  - intros i b Hi. apply (Hb i b). pose proof (byte_at_range _ _ _ _ _ H3 Hi).
    by rewrite data_at_out by lia.
Qed.

(** The buffer after the uncovered parts of a fragment are stored. *)
Lemma retain_spec s fo F :
  invariant s -> m_readOffset s <= fo -> fo + SwByteArray.size F <= limit ->
  (m_finReceived s = true -> fo + SwByteArray.size F <= m_finalOffset s) ->
  match retain fo F s with
  | (Ok _, s') =>
      (exists b m, s' = set_buffer b m s) /\ invariant s' /\
      (forall i, byte_at (m_fragments s') i =
         match byte_at (m_fragments s) i with Some b => Some b | None => data_at fo F i end) /\
      (forall i b, byte_at (m_fragments s) i = Some b -> fo <= i < fo + SwByteArray.size F ->
         data_at fo F i = Some b)
  | (Err _, s') => s' = s
  | (NoFuel, _) => False
  end.
Proof.
  intros Hi Hro Hend Hfin. unfold retain. destruct (Z.ltb_spec 0 (SwByteArray.size F)) as [HF|HF].
  2:{ simpl. split_and!; [|done| |].
      - exists (m_bufferedBytes s), (m_fragments s). by destruct s.
      - intros i. rewrite data_at_out by lia. by destruct (byte_at _ i).
      - intros i b _ H. lia. }
  m_run. destruct (Z.ltb_spec int_max (SwByteArray.size F)) as [|Hmax]; [done|]. cbv beta iota.
  destruct Hi as [I1 I2 I3 I4 I5 [I6 I7] I8]. unfold limit, is_u64 in *.
  rewrite add64_small by lia.
  pose proof (scan_spec fo F (m_fragments s) (m_readOffset s) ltac:(lia) ltac:(lia) ltac:(unfold limit; lia) I2 ltac:(lia)) as Hscan.
  cbv zeta in Hscan. rewrite Z.max_l in Hscan by lia. unfold limit in Hscan.
  destruct (scan fo F _ _ fo) as [[[adds added] c]|]; [|done].
  destruct Hscan as (S1 & S2 & S3 & S4 & S5 & S6).
  set (fe := fo + SwByteArray.size F) in *. set (tail := tailPiece fo F fe c) in *.
  pose proof (frags_total _ _ _ S3) as St. pose proof (total_size_nonneg (m_fragments s)).
  assert ((if c <? fe then added +u (fe -u c) else added) = total_size (adds ++ tail)) as ->.
  { destruct (Z.ltb_spec c fe); [|lia]. rewrite sub64_small, add64_small by lia. lia. }
  unfold budgetExceeded. unfold SwMap.size in *. rewrite !sub64_small by lia.
  destruct (Z.ltb_spec (m_maxBufferedBytes s) (m_bufferedBytes s)); [done|].
  destruct (Z.ltb_spec (m_maxBufferedBytes s - m_bufferedBytes s) (total_size (adds ++ tail))); [done|].
  destruct (Z.ltb_spec (m_maxFragments s) (zlen (m_fragments s))); [done|].
  destruct (Z.ltb_spec (m_maxFragments s - zlen (m_fragments s)) (zlen (adds ++ tail))); [done|].
  cbn [orb]. rewrite add64_small by (pose proof (total_size_nonneg (adds ++ tail)); lia).
  assert (frags (m_readOffset s) 18446744073709551615 (adds ++ tail)) as S3'
    by (apply (frags_weaken _ _ _ _ _ S3); lia).
  destruct (insertAll_spec (adds ++ tail) (m_fragments s) _ _ I2 S3') as (J1 & J2 & J3 & J4).
  { intros i Hi. rewrite S6 in Hi. destruct (m_readOffset s <=? i); [|done].
    by destruct (byte_at (m_fragments s) i). }
  assert (forall i, byte_at (insertAll (adds ++ tail) (m_fragments s)) i =
    match byte_at (m_fragments s) i with Some b => Some b | None => data_at fo F i end) as Hbytes.
  { intros i. rewrite J4, S6. destruct (byte_at (m_fragments s) i) eqn:E; [done|].
    destruct (Z.leb_spec (m_readOffset s) i); [done|]. by rewrite data_at_out by lia. }
  unfold SwMap.size in J3.
  split_and!; [by eexists _, _| |done|done].
  constructor; simpl; unfold SwMap.size, limit, is_u64; try done; try lia.
  intros Hf. destruct (I8 Hf) as [I9 I10]. split; [|done].
  apply (frags_tighten _ _ _ _ J1); [by eapply frags_le|].
  intros i b. rewrite Hbytes. specialize (Hfin Hf). destruct (byte_at (m_fragments s) i) eqn:E.
  - pose proof (byte_at_range _ _ _ _ _ I9 E). lia.
  - intros Hd. apply data_at_Some in Hd. lia.
Qed.

Lemma trimConsumed_spec s offset data :
  0 <= offset -> 0 <= m_readOffset s -> offset + SwByteArray.size data <= limit ->
  m_readOffset s < offset + SwByteArray.size data ->
  match trimConsumed offset data s with
  | (Ok (o, d), s') => s' = s /\ o = Z.max offset (m_readOffset s) /\
      o + SwByteArray.size d = offset + SwByteArray.size data /\
      forall i, data_at o d i = if m_readOffset s <=? i then data_at offset data i else None
  | (Err _, s') => s' = s
  | (NoFuel, _) => False
  end.
Proof.
  unfold limit, trimConsumed, byteArraySliceFits_. intros Ho Hr He Hlt. m_run.
  destruct (Z.ltb_spec offset (m_readOffset s)).
  - rewrite (sub64_small (m_readOffset s)), sub64_small by lia.
    destruct (Z.leb_spec (m_readOffset s - offset) int_max); simpl; [|done].
    destruct (Z.leb_spec (SwByteArray.size data - (m_readOffset s - offset)) int_max); simpl; [|done].
    destruct (piece_spec offset data (m_readOffset s) (offset + SwByteArray.size data)) as [Hs Hd]; [lia..|].
    replace (SwByteArray.size data - (m_readOffset s - offset))
      with (offset + SwByteArray.size data - m_readOffset s) by lia.
    split_and!; [done|lia|lia|]. intros i. rewrite Hd.
    destruct (Z.leb_spec (m_readOffset s) i); [|done]. simpl.
    destruct (Z.ltb_spec i (offset + SwByteArray.size data)); [done|]. by rewrite data_at_out by lia.
  - split_and!; [done|lia|lia|]. intros i. destruct (Z.leb_spec (m_readOffset s) i); [done|].
    by rewrite data_at_out by lia.
Qed.

(** Only the buffer and the final offset change when data is received. *)
Definition same_reader (s s' : t) : Prop :=
  m_streamId s' = m_streamId s /\ m_readOffset s' = m_readOffset s /\
  m_maxBufferedBytes s' = m_maxBufferedBytes s /\ m_maxFragments s' = m_maxFragments s.

Lemma recordFinal_spec s fin e :
  invariant s -> e <= limit -> m_readOffset s <= e ->
  (fin = true -> forall i b, byte_at (m_fragments s) i = Some b -> i < e) ->
  exists s', recordFinal fin e s = (Ok tt, s') /\ invariant s' /\ same_reader s s' /\
    m_fragments s' = m_fragments s /\
    (if fin then m_finReceived s' = true /\ m_finalOffset s' = e
     else m_finReceived s' = m_finReceived s /\ m_finalOffset s' = m_finalOffset s).
Proof.
  intros [I1 I2 I3 I4 I5 I6 I7] He Hr Hb. unfold recordFinal. destruct fin; m_run.
  - eexists. split; [done|]. split; [|split_and!; done].
    constructor; simpl; try done. intros _. split; [|done].
    by apply (frags_tighten _ _ _ _ I2 Hr), Hb.
  - exists s. by split_and!.
Qed.

(** The checks reject without touching the state; when they pass, nothing held
    lies beyond the final offset. *)
Lemma checkFinal_spec s e :
  invariant s ->
  match checkFinal e s with
  | (Ok _, s') => s' = s /\ (m_finReceived s = true -> m_finalOffset s = e) /\ m_readOffset s <= e /\
      forall i b, byte_at (m_fragments s) i = Some b -> i < e
  | (Err _, s') => s' = s
  | (NoFuel, _) => False
  end.
Proof.
  intros [I1 I2 I3 I4 I5 I6 I7]. unfold checkFinal. m_run.
  destruct (m_finReceived s) eqn:Ef; simpl.
  - destruct (Z.eqb_spec (m_finalOffset s) e) as [He|]; simpl; [|done].
    destruct (Z.ltb_spec e (m_readOffset s)); [done|].
    destruct (I7 eq_refl) as [I8 I9].
    assert (forall i b, byte_at (m_fragments s) i = Some b -> i < e) as Hb.
    { intros i b Hb. pose proof (byte_at_range _ _ _ _ _ I8 Hb). lia. }
    destruct (list.last (m_fragments s)) as [[lo ld]|]; by split_and!.
  - destruct (Z.ltb_spec e (m_readOffset s)); [done|]. clear I7.
    destruct (list.last (m_fragments s)) as [[lo ld]|] eqn:El.
    + apply last_Some in El as [m El]. rewrite El in I2 |- *.
      assert (frags (m_readOffset s) (lo + SwByteArray.size ld) (m ++ [(lo, ld)]) /\
        lo + SwByteArray.size ld <= limit /\ 0 <= lo) as (Hf & Hl & Hlo).
      { clear El. destruct I1 as [I1 _]. revert I1 I2. generalize (m_readOffset s). clear -lo.
        induction m as [|[s0 d0] m IH]; intros r Hr (F1 & F2 & F3); simpl.
        - simpl in F3. split_and!; lia.
        - destruct (IH (s0 + SwByteArray.size d0)) as (H1 & H2 & H3); [lia|done|].
          split_and!; (done || lia). }
      unfold limit in Hl. rewrite add64_small by (pose proof (SwByteArray.size_nonneg ld); lia).
      destruct (Z.ltb_spec e (lo + SwByteArray.size ld)); simpl; [done|].
      split_and!; [done|done|lia|]. intros i b Hb. pose proof (byte_at_range _ _ _ _ _ Hf Hb). lia.
    + apply last_None in El. rewrite El. split_and!; [done|done|lia|]. intros i b Hb. done.
Qed.

(** ** Reception *)

(** What a successful [receive] adds to the buffer. *)
Definition received (s : t) (offset : Z) (data : list byte) (fin : bool) (s' : t) : Prop :=
  same_reader s s' /\
  (forall i, byte_at (m_fragments s') i =
     match byte_at (m_fragments s) i with
     | Some b => Some b
     | None => if m_readOffset s <=? i then data_at offset data i else None
     end) /\
  (forall i b, byte_at (m_fragments s) i = Some b -> offset <= i < offset + SwByteArray.size data ->
     data_at offset data i = Some b) /\
  (if fin then m_finReceived s' = true /\ m_finalOffset s' = offset + SwByteArray.size data
   else m_finReceived s' = m_finReceived s /\ m_finalOffset s' = m_finalOffset s).

(** The part of [receive] after the final-offset checks. *)
Lemma receive_body s offset data fin :
  let e := offset + SwByteArray.size data in
  invariant s -> 0 <= offset -> e <= limit ->
  (m_finReceived s = true -> e <= m_finalOffset s) ->
  (fin = true -> m_readOffset s <= e /\ forall i b, byte_at (m_fragments s) i = Some b -> i < e) ->
  match (if e <=? m_readOffset s then recordFinal fin e
         else piece ← trimConsumed offset data; retain piece.1 piece.2;; recordFinal fin e) s with
  | (Ok _, s') => invariant s' /\ received s offset data fin s'
  | (Err _, s') => s' = s
  | (NoFuel, _) => False
  end.
Proof.
  intros e Hi Ho He Hfin Hchk. pose proof (inv_read _ Hi) as Hr. pose proof (inv_frags _ Hi) as Hf.
  destruct (Z.leb_spec e (m_readOffset s)) as [Hle|Hgt].
  - assert (forall i, (if m_readOffset s <=? i then data_at offset data i else None) = None) as Hnone.
    { intros i. destruct (Z.leb_spec (m_readOffset s) i); [|done]. apply data_at_out. lia. }
    destruct fin.
    + destruct (Hchk eq_refl) as [Hc1 Hc2].
      destruct (recordFinal_spec s true e Hi He Hc1 (fun _ => Hc2)) as (s' & -> & Hi' & Hs & Hm & Hf').
      split; [done|]. unfold received. rewrite Hm. split_and!; try done; try apply Hf'.
      * intros i. rewrite Hnone. by destruct (byte_at _ i).
      * intros i b Hb Hib. pose proof (byte_at_range _ _ _ _ _ Hf Hb). lia.
    + simpl. split; [done|]. split_and!; try done.
      * intros i. rewrite Hnone. by destruct (byte_at _ i).
      * intros i b Hb Hib. pose proof (byte_at_range _ _ _ _ _ Hf Hb). lia.
  - unfold mbind, M_bind. pose proof (trimConsumed_spec s offset data Ho (proj1 Hr) He Hgt) as Ht.
    destruct (trimConsumed offset data s) as [[[o d]|msg|] s1]; [|done..].
    destruct Ht as (-> & Eo & Ee & Hd). simpl.
    pose proof (retain_spec s o d Hi ltac:(lia) ltac:(lia) ltac:(intros; rewrite Ee; auto)) as Hret.
    destruct (retain o d s) as [[u|msg|] s2]; [|done..].
    destruct Hret as ((b0 & m0 & E2) & Hi2 & Hb2 & Ha2).
    destruct (recordFinal_spec s2 fin e Hi2 He) as (s' & -> & Hi' & Hs & Hm & Hf').
    + rewrite E2. simpl. lia.
    + intros -> i b. rewrite Hb2. destruct (Hchk eq_refl) as [_ Hc]. specialize (Hc i).
      destruct (byte_at (m_fragments s) i); [by eauto|]. intros Hdi. apply data_at_Some in Hdi. lia.
    + split; [done|]. rewrite E2 in Hs, Hf'. unfold received. rewrite Hm. split_and!; try apply Hs; [| |done].
      * intros i. by rewrite Hb2, Hd.
      * intros i b Hb Hib. pose proof (byte_at_range _ _ _ _ _ Hf Hb).
        specialize (Ha2 i b Hb ltac:(lia)). rewrite Hd in Ha2.
        by destruct (Z.leb_spec (m_readOffset s) i); [|lia].
Qed.

Lemma receive_cases s offset data fin :
  invariant s -> 0 <= offset <= limit -> SwByteArray.size data <= limit ->
  match receive offset data fin s with
  | (Ok _, s') => offset + SwByteArray.size data <= limit /\ invariant s' /\ received s offset data fin s'
  | (Err _, s') => s' = s
  | (NoFuel, _) => False
  end.
Proof.
  intros Hi Ho Hd. unfold receive, addWouldOverflow_, limit, u64_max in *.
  pose proof (SwByteArray.size_nonneg data).
  destruct (Z.ltb_spec (18446744073709551615 - SwByteArray.size data) offset); [done|].
  rewrite add64_small by lia. unfold mbind at 1, M_bind at 1. cbn [fail_if mret M_ret].
  set (e := offset + SwByteArray.size data) in *.
  assert (match (if fin then checkFinal e else fun s0 => (Ok (), s0)) s with
    | (Ok _, s') => s' = s /\ (fin = true -> m_readOffset s <= e /\ forall i b, byte_at (m_fragments s) i = Some b -> i < e)
    | (Err _, s') => s' = s
    | (NoFuel, _) => False end) as Hc.
  { destruct fin; [|done]. pose proof (checkFinal_spec s e Hi) as Hc.
    destruct (checkFinal e s) as [[u|m|] s1]; [|done..]. destruct Hc as (-> & _ & H1 & H2). by split. }
  unfold mbind at 1, M_bind at 1. unfold mret, M_ret.
  destruct ((if fin then checkFinal e else fun s0 => (Ok (), s0)) s) as [[u|m|] s1]; [|done..].
  destruct Hc as [-> Hchk]. unfold mbind at 1, M_bind at 1. cbn [get].
  unfold mbind at 1, M_bind at 1.
  destruct (m_finReceived s && (m_finalOffset s <? e)) eqn:Ef; [done|]. cbn [fail_if mret M_ret].
  pose proof (receive_body s offset data fin Hi (proj1 Ho) ltac:(unfold limit; lia)) as Hb. fold e in Hb.
  match goal with |- match ?x with _ => _ end => destruct x as [[u'|m|] s'] end.
  - split; [lia|]. apply Hb; [|done]. intros Hf. rewrite Hf in Ef. simpl in Ef. lia.
  - apply Hb; [|done]. intros Hf. rewrite Hf in Ef. simpl in Ef. lia.
  - apply Hb; [|done]. intros Hf. rewrite Hf in Ef. simpl in Ef. lia.
Qed.

(** ** Reading *)

(** The loop consumes fragments as long as they continue the data. *)
Lemma read_loop_spec fuel : forall s out,
  invariant s -> (length (m_fragments s) < fuel)%nat ->
  exists got s', read_loop fuel out s = (Ok (out ++ got), s') /\ invariant s' /\
    m_readOffset s' = m_readOffset s + SwByteArray.size got /\
    m_finReceived s' = m_finReceived s /\ m_finalOffset s' = m_finalOffset s /\
    m_streamId s' = m_streamId s /\
    m_maxBufferedBytes s' = m_maxBufferedBytes s /\ m_maxFragments s' = m_maxFragments s /\
    byte_at (m_fragments s') (m_readOffset s') = None /\
    (forall i, byte_at (m_fragments s) i =
       match data_at (m_readOffset s) got i with
       | Some b => Some b
       | None => byte_at (m_fragments s') i
       end).
Proof.
  induction fuel as [|fuel IH]; intros s out Hi Hfuel; [lia|]. cbn [read_loop]. m_run.
  destruct (m_fragments s) as [|[start d] rest] eqn:Em.
  { exists [], s. rewrite app_nil_r, Em. split_and!; try done.
    - change (SwByteArray.size []) with 0. lia.
    - intros i. by rewrite data_at_out by (change (SwByteArray.size []) with 0; lia). }
  destruct Hi as [I1 I2 I3 I4 I5 I6 I7]. rewrite Em in *. simpl in I2, I3, I4.
  unfold SwMap.size in I5. simpl length in I5, Hfuel. destruct I2 as (F1 & F2 & F3).
  pose proof (frags_le _ _ _ F3) as Fle. unfold limit, int_max in *.
  rewrite add64_small by lia.
  destruct (Z.leb_spec (start + SwByteArray.size d) (m_readOffset s)); [lia|].
  destruct (Z.ltb_spec (m_readOffset s) start) as [Hgap|Hgap].
  { exists [], s. rewrite app_nil_r, Em. split_and!; try done.
    - constructor; rewrite ?Em; simpl; unfold limit, SwMap.size, int_max; simpl length; try done; try lia.
    - change (SwByteArray.size []) with 0. lia.
    - apply (byte_at_below ((start, d) :: rest) start limit); [|lia].
      unfold limit; simpl; unfold int_max. split_and!; (lia || done).
    - intros i. by rewrite data_at_out by (change (SwByteArray.size []) with 0; lia). }
  assert (m_readOffset s = start) as Es by lia. pose proof (total_size_nonneg rest).
  pose proof (frags_total _ _ _ F3).
  rewrite Es, (sub64_small start start), Z.sub_diag, (sub64_small (SwByteArray.size d) 0),
    Z.sub_0_r, (sub64_small (m_bufferedBytes s)) by lia.
  destruct (Z.ltb_spec 2147483647 (SwByteArray.size d)); [lia|].
  rewrite add64_small by lia.
  set (s1 := set_buffer _ _ _).
  assert ((if (SwByteArray.size out =? 0) && (0 =? 0) then d
           else out ++ SwByteArray.mid d (to_int 0) (to_int (SwByteArray.size d))) = out ++ d) as ->.
  { rewrite !to_int_small by lia.
    pose proof (SwByteArray.mid_middle [] d []) as Hmid. rewrite app_nil_r in Hmid. simpl in Hmid.
    change (SwByteArray.size []) with 0 in Hmid. rewrite Hmid.
    destruct out as [|x out]; [done|]. rewrite SwByteArray.size_cons.
    pose proof (SwByteArray.size_nonneg out). by destruct (Z.eqb_spec (1 + SwByteArray.size out) 0); [lia|]. }
  assert (invariant s1) as Hi1.
  { constructor; simpl; unfold SwMap.size, limit; try done; try lia.
    intros Hf. destruct (I7 Hf) as [[J1 [J2 J3]] J4]. done. }
  destruct (IH s1 (out ++ d) Hi1 ltac:(simpl; lia)) as (got & s' & Hrun & Hi' & R1 & R2 & R3 & R4 & R5 & R6 & R7 & R8).
  exists (d ++ got), s'. rewrite app_assoc. simpl in R1, R2, R3, R4, R5, R6, R8.
  split_and!; try done.
  - rewrite R1, SwByteArray.size_app. lia.
  - intros i. simpl. rewrite R8. rewrite data_at_app. by destruct (data_at start d i).
Qed.

Lemma read_spec s :
  invariant s ->
  exists got s', readContiguous s = (Ok got, s') /\ invariant s' /\
    m_readOffset s' = m_readOffset s + SwByteArray.size got /\
    m_finReceived s' = m_finReceived s /\ m_finalOffset s' = m_finalOffset s /\
    m_streamId s' = m_streamId s /\
    m_maxBufferedBytes s' = m_maxBufferedBytes s /\ m_maxFragments s' = m_maxFragments s /\
    byte_at (m_fragments s') (m_readOffset s') = None /\
    (forall i, byte_at (m_fragments s) i =
       match data_at (m_readOffset s) got i with
       | Some b => Some b
       | None => byte_at (m_fragments s') i
       end).
Proof. intros Hi. apply (read_loop_spec _ s [] Hi). lia. Qed.

(** ** A receiver fed from one source *)

Inductive op :=
| Receive (offset : Z) (data : list byte) (fin : bool)
| Read.

(** One operation, and what it hands to the application; a failed [receive] hands nothing. *)
Definition apply_op (st : t * list byte) (o : op) : t * list byte :=
  let (s, out) := st in
  match o with
  | Receive offset data fin => ((receive offset data fin s).2, out)
  | Read => match readContiguous s with
            | (Ok got, s') => (s', out ++ got)
            | (_, s') => (s', out)
            end
  end.

Definition run (st : t * list byte) (ops : list op) : t * list byte := fold_left apply_op ops st.

(** The frames of a sender that transmits [source]: any cut of it, in any order,
    as often as it likes, FIN only where the source ends. *)
Definition honest (source : list byte) (o : op) : Prop :=
  match o with
  | Receive offset data fin =>
      0 <= offset /\ offset + SwByteArray.size data <= SwByteArray.size source /\
      (forall i, offset <= i < offset + SwByteArray.size data -> data_at offset data i = data_at 0 source i) /\
      (fin = true -> offset + SwByteArray.size data = SwByteArray.size source)
  | Read => True
  end.

(** The receiver holds pieces of the source, and has delivered a prefix of it. *)
Definition tracks (source : list byte) (st : t * list byte) : Prop :=
  let (s, out) := st in
  invariant s /\ SwByteArray.size out = m_readOffset s /\
  (exists rest, source = out ++ rest) /\
  (forall i b, byte_at (m_fragments s) i = Some b -> data_at 0 source i = Some b) /\
  (m_finReceived s = true -> m_finalOffset s = SwByteArray.size source).

(** Extending a delivered prefix by bytes of the source gives a prefix. *)
Lemma prefix_extend source out rest got :
  source = out ++ rest ->
  (forall i b, data_at (SwByteArray.size out) got i = Some b -> data_at 0 source i = Some b) ->
  exists rest', source = (out ++ got) ++ rest'.
Proof.
  intros -> Hg. exists (drop (length got) rest). rewrite <- app_assoc. f_equal.
  rewrite <- (take_drop (length got) rest) at 1. f_equal. apply list_eq. intros k.
  destruct (decide (k < length got)%nat) as [Hk|Hk].
  - destruct (lookup_lt_is_Some_2 got k Hk) as [b Hb]. rewrite Hb, lookup_take.
    destruct (decide _); [|lia].
    specialize (Hg (SwByteArray.size out + Z.of_nat k) b). unfold data_at, SwByteArray.size in Hg.
    rewrite length_app in Hg.
    destruct (Z.leb_spec (zlen out) (zlen out + Z.of_nat k)); [|lia].
    destruct (Z.ltb_spec (zlen out + Z.of_nat k) (zlen out + zlen got)); [|lia]. cbn [andb] in Hg.
    replace (Z.to_nat (zlen out + Z.of_nat k - zlen out)) with k in Hg by lia. specialize (Hg Hb).
    destruct (andb _ _) eqn:E; [|done].
    replace (Z.to_nat (zlen out + Z.of_nat k - 0)) with (length out + k)%nat in Hg by lia.
    rewrite lookup_app_r in Hg by lia. by replace (length out + k - length out)%nat with k in Hg by lia.
  - rewrite !lookup_ge_None_2; [done| |]; rewrite ?length_take; lia.
Qed.

Lemma apply_op_tracks source st o :
  SwByteArray.size source <= limit -> tracks source st -> honest source o ->
  tracks source (apply_op st o).
Proof.
  intros Hsrc. destruct st as [s out]. intros (Hi & Ho & (rest & Hp) & Hb & Hf) Hh.
  destruct o as [offset data fin|]; simpl in Hh.
  - destruct Hh as (H1 & H2 & H3 & H4). simpl. pose proof (SwByteArray.size_nonneg data).
    pose proof (receive_cases s offset data fin Hi ltac:(lia) ltac:(lia)) as Hr.
    destruct (receive offset data fin s) as [[u|m|] s']; simpl; [|by subst s'; eauto 10|done].
    destruct Hr as (_ & Hi' & (_ & R1 & _ & _) & R2 & _ & R3). split_and!; [done|lia|by exists rest| |].
    + intros i b. rewrite R2. destruct (byte_at (m_fragments s) i) eqn:E.
      * intros [= ->]. by apply Hb.
      * destruct (m_readOffset s <=? i); [|done]. intros Hd. rewrite <- H3; [done|].
        by apply data_at_Some in Hd.
    + destruct fin; [|destruct R3 as [-> ->]; done]. destruct R3 as [_ ->]. intros _. by apply H4.
  - simpl. destruct (read_spec s Hi) as (got & s' & -> & Hi' & R1 & R2 & R3 & _ & _ & _ & _ & R8).
    split_and!; [done|rewrite SwByteArray.size_app; lia| | |by rewrite R2, R3].
    + apply (prefix_extend _ _ rest); [done|]. intros i b Hd. rewrite Ho in Hd.
      apply Hb. by rewrite R8, Hd.
    + intros i b Hd. apply Hb. rewrite R8.
      destruct (data_at (m_readOffset s) got i) eqn:E; [|done]. apply data_at_Some in E.
      pose proof (byte_at_range _ _ _ _ _ (inv_frags _ Hi') Hd). lia.
Qed.

Lemma make_invariant id maxBytes maxFragments :
  is_u64 maxBytes -> is_u64 maxFragments -> invariant (make id maxBytes maxFragments).
Proof.
  unfold is_u64. intros. constructor; simpl; unfold limit, is_u64, SwMap.size; simpl; try lia; try done.
Qed.

Lemma run_tracks source ops : forall st,
  SwByteArray.size source <= limit -> tracks source st -> Forall (honest source) ops ->
  tracks source (run st ops).
Proof.
  induction ops as [|o ops IH]; intros st Hs Ht Hops; [done|].
  apply Forall_cons_1 in Hops as [Ho Hops]. apply IH; [done| |done]. by apply apply_op_tracks.
Qed.

(** ** Properties *)

(** C19: [receive] either refuses and leaves the stream untouched, or adds to the
    buffer exactly the bytes at and above the read offset that it did not hold;
    it never accepts data that disagrees with what it holds, and it keeps the
    buffer invariant: ordered disjoint fragments, their byte count, both budgets
    and the final offset respected. *)
Theorem receive_spec s offset data fin :
  invariant s -> 0 <= offset <= limit -> SwByteArray.size data <= limit ->
  match receive offset data fin s with
  | (Ok _, s') => offset + SwByteArray.size data <= limit /\ invariant s' /\ received s offset data fin s'
  | (Err _, s') => s' = s
  | (NoFuel, _) => False
  end.
Proof. apply receive_cases. Qed.

Lemma receive_spec_witness :
  let s := (receive 2 [Byte.x41; Byte.x42] false (make 0 100 10)).2 in
  (receive 3 [Byte.x43] false s).1 = Err "QUIC stream received conflicting overlapping data" /\
  match receive 0 [Byte.x30; Byte.x31; Byte.x41] true (make 0 100 10) with
  | (Ok _, s') => 0 + SwByteArray.size [Byte.x30; Byte.x31; Byte.x41] <= limit /\ invariant s' /\
      received (make 0 100 10) 0 [Byte.x30; Byte.x31; Byte.x41] true s'
  | (Err _, s') => s' = make 0 100 10
  | (NoFuel, _) => False
  end.
Proof.
  intros s. split; [vm_compute; reflexivity|].
  apply (receive_spec (make 0 100 10) 0 [Byte.x30; Byte.x31; Byte.x41] true); [|by_eval|by_eval].
  apply make_invariant; by_eval.
Defined.

(** [readContiguous] returns the longest run of bytes that continues what was
    read before: the byte after it is missing, the read offset moves past it, and
    everything else stays in the buffer. *)
Theorem readContiguous_spec s :
  invariant s ->
  exists got s', readContiguous s = (Ok got, s') /\ invariant s' /\
    m_readOffset s' = m_readOffset s + SwByteArray.size got /\
    byte_at (m_fragments s') (m_readOffset s') = None /\
    (forall i, byte_at (m_fragments s) i =
       match data_at (m_readOffset s) got i with
       | Some b => Some b
       | None => byte_at (m_fragments s') i
       end).
Proof. intros Hi. destruct (read_spec s Hi) as (got & s' & H). exists got, s'. tauto. Qed.

Lemma readContiguous_spec_witness :
  let s := make 0 100 10 in
  exists got s', readContiguous s = (Ok got, s') /\ invariant s' /\
    m_readOffset s' = m_readOffset s + SwByteArray.size got /\
    byte_at (m_fragments s') (m_readOffset s') = None /\
    (forall i, byte_at (m_fragments s) i =
       match data_at (m_readOffset s) got i with
       | Some b => Some b
       | None => byte_at (m_fragments s') i
       end).
Proof. intros s. apply (readContiguous_spec s). apply make_invariant; by_eval. Defined.

(** C1: a receiver fed by a sender that cuts one source into frames as it likes,
    reorders, repeats and drops them, and that is read from at any moments,
    delivers a prefix of the source, and the whole source once it reports that
    reception is complete. *)
Theorem reassembly_delivers_source source id maxBytes maxFragments ops :
  SwByteArray.size source <= limit -> is_u64 maxBytes -> is_u64 maxFragments ->
  Forall (honest source) ops ->
  let (s, out) := run (make id maxBytes maxFragments, []) ops in
  (exists rest, source = out ++ rest) /\ (isReceiveComplete s = true -> out = source).
Proof.
  intros Hs H1 H2 Hops.
  assert (tracks source (make id maxBytes maxFragments, [])) as Ht.
  { split_and!; [by apply make_invariant|done|by exists source|done|done]. }
  pose proof (run_tracks source ops _ Hs Ht Hops) as Hr.
  destruct (run _ ops) as [s out]. destruct Hr as (Hi & Ho & (rest & Hp) & _ & Hf).
  split; [by exists rest|]. unfold isReceiveComplete. intros [Hfin Hle]%andb_prop.
  specialize (Hf Hfin). apply Z.leb_le in Hle. rewrite Hf, <- Ho, Hp, SwByteArray.size_app in Hle.
  destruct rest as [|b rest]; [by rewrite app_nil_r in Hp|].
  rewrite SwByteArray.size_cons in Hle. pose proof (SwByteArray.size_nonneg rest). lia.
Qed.

(** Two overlapping frames out of order, the second with FIN, a read, a repeat. *)
Lemma reassembly_delivers_source_witness :
  let source := [Byte.x41; Byte.x42; Byte.x43; Byte.x44] in
  let ops := [Receive 2 [Byte.x43; Byte.x44] true; Receive 0 [Byte.x41; Byte.x42; Byte.x43] false;
              Read; Receive 1 [Byte.x42] false] in
  (run (make 0 100 10, []) ops).2 = source /\
  let (s, out) := run (make 0 100 10, []) ops in
  (exists rest, source = out ++ rest) /\ (isReceiveComplete s = true -> out = source).
Proof.
  intros source ops. split; [vm_compute; reflexivity|].
  apply (reassembly_delivers_source source 0 100 10 ops); [by_eval|by_eval|by_eval|].
  repeat apply Forall_cons_2; try apply Forall_nil_2; simpl; try done;
    (split; [by_eval|split; [by_eval|split; [|done]]]);
    intros i Hi; unfold SwByteArray.size in Hi; simpl in Hi;
    assert (i = 0 \/ i = 1 \/ i = 2 \/ i = 3) as [-> | [-> | [-> | ->]]] by lia;
    first [reflexivity | lia].
Defined.

End SwQuicStream.
