(* ===== verification/StreamMap.v ===== *)
(** Demultiplexing STREAM frames to their streams:
    src/src/core/io/quic/SwQuicStreamMap.h. *)
From Stdlib Require Import ZArith Lia.
From stdpp Require Import base list strings numbers.
From S2P Require Import Prelude ByteArray Frame SwMap Stream.

Module SwQuicStreamMap.

Definition t : Type := SwMap.t SwQuicStream.t.

Definition receiveFrame (frame : SwQuicFrame.t) (maxBufferedBytes maxFragments : Z) : M t unit := fun m =>
  if negb (bool_decide (SwQuicFrame.m_type frame = SwQuicFrame.Stream))
  then (Err "QUIC stream map can only receive STREAM frames", m) else
  let id := SwQuicFrame.m_streamId frame in
  let stream := SwMap.value id (SwQuicStream.make id maxBufferedBytes maxFragments) m in
  let (r, stream) := SwQuicStream.receiveFrame frame stream in
  (r, SwMap.insert id stream m).

Definition hasStream (streamId : Z) (m : t) : bool := SwMap.contains streamId m.

Definition stream (streamId : Z) (m : t) : option SwQuicStream.t := SwMap.find streamId m.

Definition readContiguous (streamId : Z) : M t (list byte) := fun m =>
  match stream streamId m with
  | None => (Ok [], m)
  | Some existing =>
      let (r, existing) := SwQuicStream.readContiguous existing in
      (r, SwMap.insert streamId existing m)
  end.

Definition streamCount (m : t) : Z := SwMap.size m.

Definition removeStream (streamId : Z) (m : t) : bool * t :=
  (SwMap.contains streamId m, SwMap.remove streamId m).

Definition streamIds (m : t) : list Z := SwMap.keys m.

Definition clear (_ : t) : t := SwMap.empty.

(** ** Specification: one independent stream per identifier *)

Section Spec.
Context (maxBufferedBytes maxFragments : Z).

(** The frames a peer may send: STREAM frames with a valid identifier. *)
Definition frame_ok (f : SwQuicFrame.t) : Prop :=
  SwQuicFrame.m_type f = SwQuicFrame.Stream /\ 0 <= SwQuicFrame.m_streamId f.

(** A whole batch received, errors of single frames included in the state they leave. *)
Definition receiveAll (m : t) (frames : list SwQuicFrame.t) : t :=
  fold_left (fun m f => (receiveFrame f maxBufferedBytes maxFragments m).2) frames m.

(** One stream on its own, fed the frames that carry its identifier. *)
Definition receiveOwn (streamId : Z) (s : SwQuicStream.t) (frames : list SwQuicFrame.t) : SwQuicStream.t :=
  fold_left (fun s f => (SwQuicStream.receiveFrame f s).2)
    (List.filter (fun f => SwQuicFrame.m_streamId f =? streamId) frames) s.

Lemma receiveFrame_find f m id :
  frame_ok f ->
  SwMap.find id (receiveFrame f maxBufferedBytes maxFragments m).2 =
    if SwQuicFrame.m_streamId f =? id
    then Some (SwQuicStream.receiveFrame f
                 (SwMap.value id (SwQuicStream.make id maxBufferedBytes maxFragments) m)).2
    else SwMap.find id m.
Proof.
  intros [Ht _]. unfold receiveFrame. rewrite bool_decide_eq_true_2 by done. cbn [negb].
  set (s0 := SwMap.value _ _ m). destruct (SwQuicStream.receiveFrame f s0) as [r s1] eqn:E. simpl.
  rewrite SwMap.find_insert. destruct (Z.eqb_spec (SwQuicFrame.m_streamId f) id) as [<-|]; [|done].
  fold s0. by rewrite E.
Qed.

Lemma receiveFrame_wf f m :
  frame_ok f -> SwMap.wf m -> SwMap.wf (receiveFrame f maxBufferedBytes maxFragments m).2.
Proof.
  intros [Ht Hid] Hm. unfold receiveFrame. rewrite bool_decide_eq_true_2 by done. cbn [negb].
  destruct (SwQuicStream.receiveFrame f _) as [r s1]. by apply SwMap.insert_wf.
Qed.

Lemma receiveAll_find frames : forall m id,
  Forall frame_ok frames ->
  SwMap.find id (receiveAll m frames) =
    match SwMap.find id m with
    | Some s => Some (receiveOwn id s frames)
    | None =>
        if existsb (fun f => SwQuicFrame.m_streamId f =? id) frames
        then Some (receiveOwn id (SwQuicStream.make id maxBufferedBytes maxFragments) frames)
        else None
    end.
Proof.
  induction frames as [|f frames IH]; intros m id Hf; simpl; [by destruct (SwMap.find id m)|].
  apply Forall_cons_1 in Hf as [Hf Hfs]. unfold receiveAll, receiveOwn in *. simpl.
  rewrite (IH _ _ Hfs), (receiveFrame_find f m id Hf). unfold SwMap.value.
  destruct (Z.eqb_spec (SwQuicFrame.m_streamId f) id) as [Heq|]; simpl; [|done].
  by destruct (SwMap.find id m).
Qed.

(** Whatever the interleaving of frames of different streams, each stream of
    the map is in the state it would have reached alone, fed its own frames in
    order from a fresh stream; identifiers no frame named have no stream, and the
    identifiers are listed in increasing order. *)
Theorem streams_are_independent frames id :
  Forall frame_ok frames ->
  stream id (receiveAll SwMap.empty frames) =
    (if existsb (fun f => SwQuicFrame.m_streamId f =? id) frames
     then Some (receiveOwn id (SwQuicStream.make id maxBufferedBytes maxFragments) frames)
     else None) /\
  SwMap.wf (receiveAll SwMap.empty frames).
Proof.
  intros Hf. split; [apply (receiveAll_find frames SwMap.empty id Hf)|].
  unfold receiveAll. generalize (@SwMap.empty SwQuicStream.t) (I : SwMap.wf (@SwMap.empty SwQuicStream.t)).
  induction frames as [|f frames IH]; intros m Hm; [done|].
  apply Forall_cons_1 in Hf as [Hf Hfs]. apply IH; [done|]. by apply receiveFrame_wf.
Qed.

End Spec.

Lemma streams_are_independent_witness :
  let frames := [SwQuicFrame.stream 4 0 [Byte.x41] false; SwQuicFrame.stream 0 2 [Byte.x42] false;
                 SwQuicFrame.stream 4 1 [Byte.x43] true] in
  stream 4 (receiveAll 100 10 SwMap.empty frames) =
    (if existsb (fun f => SwQuicFrame.m_streamId f =? 4) frames
     then Some (receiveOwn 4 (SwQuicStream.make 4 100 10) frames)
     else None) /\
  SwMap.wf (receiveAll 100 10 SwMap.empty frames).
Proof.
  intros frames. apply (streams_are_independent 100 10 frames 4).
  repeat apply Forall_cons_2; try apply Forall_nil_2; split; by_eval.
Defined.

End SwQuicStreamMap.
