(* ===== verification/ConnectionStreams.v ===== *)
(** The receive side of [SwQuicConnection]
    (src/src/core/io/quic/SwQuicConnection.h): STREAM, RESET_STREAM and RESET_STREAM_AT
    frames, reads of the application, the credit they return, and the retirement of
    streams, with the flow control of FlowControl.v at both levels. *)
From Stdlib Require Import ZArith Lia.
From stdpp Require Import base list strings numbers gmap sets.
From S2P Require Import Prelude VarInt ByteArray Frame SwMap FlowControl Stream StreamMap.

Module ConnectionStreams.

Module S := SwQuicStreamFlowControl.
Module C := SwQuicConnectionFlowControl.

Inductive Role := Client | Server.

#[export] Instance Role_eq_decision : EqDecision Role.
Proof. solve_decision. Defined.

Record PendingReliableReset_ := mkPending {
  errorCode : Z;
  finalSize : Z;
  reliableSize : Z;
}.

(** What the sending side keeps of a stream, as far as the receiving side looks at it. *)
Record SendStream_ := mkSend {
  nextOffset : Z;
  finQueued : bool;
  finAcked : bool;
  resetQueued : bool;
  resetAcked : bool;
  peerCreditPending : bool;
  contiguousAckedOffset : Z;
}.

Definition set_peerCreditPending (v : bool) (s : SendStream_) : SendStream_ :=
  mkSend (nextOffset s) (finQueued s) (finAcked s) (resetQueued s) (resetAcked s) v (contiguousAckedOffset s).

(** The members of [SwQuicConnection] that these handlers read and write;
    [m_pendingFrames] is the queue of the Application space.  [retiredFlows] is not in
    the program: the controllers of the streams retired so far. *)
Record t := mk {
  m_role : Role;
  initialMaxStreamDataUni : Z;
  initialMaxStreamDataBidiRemote : Z;
  initialMaxStreamDataBidiLocal : Z;
  m_connectionFlow : C.t;
  m_streamFlow : gmap Z S.t;
  m_peerStreamMaxData : gmap Z Z;
  m_localMaxStreamsBidi : Z;
  m_localMaxStreamsUni : Z;
  m_closeErrorCode : Z;
  m_pendingFrames : list SwQuicFrame.t;
  m_streams : SwQuicStreamMap.t;
  m_sendStreams : SwMap.t SendStream_;
  m_localOpenedStreams : gset Z;
  m_touchedStreams : list Z;
  m_streamSchedulingCursor : Z;
  m_maxStreamReassemblyBytes : Z;
  m_maxStreamReassemblyFragments : Z;
  m_resetStreams : gmap Z Z;
  m_pendingReliableResets : gmap Z PendingReliableReset_;
  m_streamFinalSize : gmap Z Z;
  m_retiredPeerBidiRanges : SwMap.t Z;
  retiredFlows : list S.t;
}.

Definition set_m_connectionFlow (v : C.t) (s : t) : t :=
  mk (m_role s) (initialMaxStreamDataUni s) (initialMaxStreamDataBidiRemote s) (initialMaxStreamDataBidiLocal s) v
    (m_streamFlow s) (m_peerStreamMaxData s) (m_localMaxStreamsBidi s) (m_localMaxStreamsUni s) (m_closeErrorCode s)
    (m_pendingFrames s) (m_streams s) (m_sendStreams s) (m_localOpenedStreams s) (m_touchedStreams s)
    (m_streamSchedulingCursor s) (m_maxStreamReassemblyBytes s) (m_maxStreamReassemblyFragments s) (m_resetStreams s)
    (m_pendingReliableResets s) (m_streamFinalSize s) (m_retiredPeerBidiRanges s) (retiredFlows s).

Definition set_m_streamFlow (v : gmap Z S.t) (s : t) : t :=
  mk (m_role s) (initialMaxStreamDataUni s) (initialMaxStreamDataBidiRemote s) (initialMaxStreamDataBidiLocal s)
    (m_connectionFlow s) v (m_peerStreamMaxData s) (m_localMaxStreamsBidi s) (m_localMaxStreamsUni s)
    (m_closeErrorCode s) (m_pendingFrames s) (m_streams s) (m_sendStreams s) (m_localOpenedStreams s)
    (m_touchedStreams s) (m_streamSchedulingCursor s) (m_maxStreamReassemblyBytes s)
    (m_maxStreamReassemblyFragments s) (m_resetStreams s) (m_pendingReliableResets s) (m_streamFinalSize s)
    (m_retiredPeerBidiRanges s) (retiredFlows s).

Definition set_m_peerStreamMaxData (v : gmap Z Z) (s : t) : t :=
  mk (m_role s) (initialMaxStreamDataUni s) (initialMaxStreamDataBidiRemote s) (initialMaxStreamDataBidiLocal s)
    (m_connectionFlow s) (m_streamFlow s) v (m_localMaxStreamsBidi s) (m_localMaxStreamsUni s) (m_closeErrorCode s)
    (m_pendingFrames s) (m_streams s) (m_sendStreams s) (m_localOpenedStreams s) (m_touchedStreams s)
    (m_streamSchedulingCursor s) (m_maxStreamReassemblyBytes s) (m_maxStreamReassemblyFragments s) (m_resetStreams s)
    (m_pendingReliableResets s) (m_streamFinalSize s) (m_retiredPeerBidiRanges s) (retiredFlows s).

Definition set_m_localMaxStreamsBidi (v : Z) (s : t) : t :=
  mk (m_role s) (initialMaxStreamDataUni s) (initialMaxStreamDataBidiRemote s) (initialMaxStreamDataBidiLocal s)
    (m_connectionFlow s) (m_streamFlow s) (m_peerStreamMaxData s) v (m_localMaxStreamsUni s) (m_closeErrorCode s)
    (m_pendingFrames s) (m_streams s) (m_sendStreams s) (m_localOpenedStreams s) (m_touchedStreams s)
    (m_streamSchedulingCursor s) (m_maxStreamReassemblyBytes s) (m_maxStreamReassemblyFragments s) (m_resetStreams s)
    (m_pendingReliableResets s) (m_streamFinalSize s) (m_retiredPeerBidiRanges s) (retiredFlows s).

Definition set_m_closeErrorCode (v : Z) (s : t) : t :=
  mk (m_role s) (initialMaxStreamDataUni s) (initialMaxStreamDataBidiRemote s) (initialMaxStreamDataBidiLocal s)
    (m_connectionFlow s) (m_streamFlow s) (m_peerStreamMaxData s) (m_localMaxStreamsBidi s) (m_localMaxStreamsUni s) v
    (m_pendingFrames s) (m_streams s) (m_sendStreams s) (m_localOpenedStreams s) (m_touchedStreams s)
    (m_streamSchedulingCursor s) (m_maxStreamReassemblyBytes s) (m_maxStreamReassemblyFragments s) (m_resetStreams s)
    (m_pendingReliableResets s) (m_streamFinalSize s) (m_retiredPeerBidiRanges s) (retiredFlows s).

Definition set_m_pendingFrames (v : list SwQuicFrame.t) (s : t) : t :=
  mk (m_role s) (initialMaxStreamDataUni s) (initialMaxStreamDataBidiRemote s) (initialMaxStreamDataBidiLocal s)
    (m_connectionFlow s) (m_streamFlow s) (m_peerStreamMaxData s) (m_localMaxStreamsBidi s) (m_localMaxStreamsUni s)
    (m_closeErrorCode s) v (m_streams s) (m_sendStreams s) (m_localOpenedStreams s) (m_touchedStreams s)
    (m_streamSchedulingCursor s) (m_maxStreamReassemblyBytes s) (m_maxStreamReassemblyFragments s) (m_resetStreams s)
    (m_pendingReliableResets s) (m_streamFinalSize s) (m_retiredPeerBidiRanges s) (retiredFlows s).

Definition set_m_streams (v : SwQuicStreamMap.t) (s : t) : t :=
  mk (m_role s) (initialMaxStreamDataUni s) (initialMaxStreamDataBidiRemote s) (initialMaxStreamDataBidiLocal s)
    (m_connectionFlow s) (m_streamFlow s) (m_peerStreamMaxData s) (m_localMaxStreamsBidi s) (m_localMaxStreamsUni s)
    (m_closeErrorCode s) (m_pendingFrames s) v (m_sendStreams s) (m_localOpenedStreams s) (m_touchedStreams s)
    (m_streamSchedulingCursor s) (m_maxStreamReassemblyBytes s) (m_maxStreamReassemblyFragments s) (m_resetStreams s)
    (m_pendingReliableResets s) (m_streamFinalSize s) (m_retiredPeerBidiRanges s) (retiredFlows s).

Definition set_m_sendStreams (v : SwMap.t SendStream_) (s : t) : t :=
  mk (m_role s) (initialMaxStreamDataUni s) (initialMaxStreamDataBidiRemote s) (initialMaxStreamDataBidiLocal s)
    (m_connectionFlow s) (m_streamFlow s) (m_peerStreamMaxData s) (m_localMaxStreamsBidi s) (m_localMaxStreamsUni s)
    (m_closeErrorCode s) (m_pendingFrames s) (m_streams s) v (m_localOpenedStreams s) (m_touchedStreams s)
    (m_streamSchedulingCursor s) (m_maxStreamReassemblyBytes s) (m_maxStreamReassemblyFragments s) (m_resetStreams s)
    (m_pendingReliableResets s) (m_streamFinalSize s) (m_retiredPeerBidiRanges s) (retiredFlows s).

Definition set_m_touchedStreams (v : list Z) (s : t) : t :=
  mk (m_role s) (initialMaxStreamDataUni s) (initialMaxStreamDataBidiRemote s) (initialMaxStreamDataBidiLocal s)
    (m_connectionFlow s) (m_streamFlow s) (m_peerStreamMaxData s) (m_localMaxStreamsBidi s) (m_localMaxStreamsUni s)
    (m_closeErrorCode s) (m_pendingFrames s) (m_streams s) (m_sendStreams s) (m_localOpenedStreams s) v
    (m_streamSchedulingCursor s) (m_maxStreamReassemblyBytes s) (m_maxStreamReassemblyFragments s) (m_resetStreams s)
    (m_pendingReliableResets s) (m_streamFinalSize s) (m_retiredPeerBidiRanges s) (retiredFlows s).

Definition set_m_streamSchedulingCursor (v : Z) (s : t) : t :=
  mk (m_role s) (initialMaxStreamDataUni s) (initialMaxStreamDataBidiRemote s) (initialMaxStreamDataBidiLocal s)
    (m_connectionFlow s) (m_streamFlow s) (m_peerStreamMaxData s) (m_localMaxStreamsBidi s) (m_localMaxStreamsUni s)
    (m_closeErrorCode s) (m_pendingFrames s) (m_streams s) (m_sendStreams s) (m_localOpenedStreams s)
    (m_touchedStreams s) v (m_maxStreamReassemblyBytes s) (m_maxStreamReassemblyFragments s) (m_resetStreams s)
    (m_pendingReliableResets s) (m_streamFinalSize s) (m_retiredPeerBidiRanges s) (retiredFlows s).

Definition set_m_resetStreams (v : gmap Z Z) (s : t) : t :=
  mk (m_role s) (initialMaxStreamDataUni s) (initialMaxStreamDataBidiRemote s) (initialMaxStreamDataBidiLocal s)
    (m_connectionFlow s) (m_streamFlow s) (m_peerStreamMaxData s) (m_localMaxStreamsBidi s) (m_localMaxStreamsUni s)
    (m_closeErrorCode s) (m_pendingFrames s) (m_streams s) (m_sendStreams s) (m_localOpenedStreams s)
    (m_touchedStreams s) (m_streamSchedulingCursor s) (m_maxStreamReassemblyBytes s)
    (m_maxStreamReassemblyFragments s) v (m_pendingReliableResets s) (m_streamFinalSize s) (m_retiredPeerBidiRanges s)
    (retiredFlows s).

Definition set_m_pendingReliableResets (v : gmap Z PendingReliableReset_) (s : t) : t :=
  mk (m_role s) (initialMaxStreamDataUni s) (initialMaxStreamDataBidiRemote s) (initialMaxStreamDataBidiLocal s)
    (m_connectionFlow s) (m_streamFlow s) (m_peerStreamMaxData s) (m_localMaxStreamsBidi s) (m_localMaxStreamsUni s)
    (m_closeErrorCode s) (m_pendingFrames s) (m_streams s) (m_sendStreams s) (m_localOpenedStreams s)
    (m_touchedStreams s) (m_streamSchedulingCursor s) (m_maxStreamReassemblyBytes s)
    (m_maxStreamReassemblyFragments s) (m_resetStreams s) v (m_streamFinalSize s) (m_retiredPeerBidiRanges s)
    (retiredFlows s).

Definition set_m_streamFinalSize (v : gmap Z Z) (s : t) : t :=
  mk (m_role s) (initialMaxStreamDataUni s) (initialMaxStreamDataBidiRemote s) (initialMaxStreamDataBidiLocal s)
    (m_connectionFlow s) (m_streamFlow s) (m_peerStreamMaxData s) (m_localMaxStreamsBidi s) (m_localMaxStreamsUni s)
    (m_closeErrorCode s) (m_pendingFrames s) (m_streams s) (m_sendStreams s) (m_localOpenedStreams s)
    (m_touchedStreams s) (m_streamSchedulingCursor s) (m_maxStreamReassemblyBytes s)
    (m_maxStreamReassemblyFragments s) (m_resetStreams s) (m_pendingReliableResets s) v (m_retiredPeerBidiRanges s)
    (retiredFlows s).

Definition set_m_retiredPeerBidiRanges (v : SwMap.t Z) (s : t) : t :=
  mk (m_role s) (initialMaxStreamDataUni s) (initialMaxStreamDataBidiRemote s) (initialMaxStreamDataBidiLocal s)
    (m_connectionFlow s) (m_streamFlow s) (m_peerStreamMaxData s) (m_localMaxStreamsBidi s) (m_localMaxStreamsUni s)
    (m_closeErrorCode s) (m_pendingFrames s) (m_streams s) (m_sendStreams s) (m_localOpenedStreams s)
    (m_touchedStreams s) (m_streamSchedulingCursor s) (m_maxStreamReassemblyBytes s)
    (m_maxStreamReassemblyFragments s) (m_resetStreams s) (m_pendingReliableResets s) (m_streamFinalSize s) v
    (retiredFlows s).

Definition set_retiredFlows (v : list S.t) (s : t) : t :=
  mk (m_role s) (initialMaxStreamDataUni s) (initialMaxStreamDataBidiRemote s) (initialMaxStreamDataBidiLocal s)
    (m_connectionFlow s) (m_streamFlow s) (m_peerStreamMaxData s) (m_localMaxStreamsBidi s) (m_localMaxStreamsUni s)
    (m_closeErrorCode s) (m_pendingFrames s) (m_streams s) (m_sendStreams s) (m_localOpenedStreams s)
    (m_touchedStreams s) (m_streamSchedulingCursor s) (m_maxStreamReassemblyBytes s)
    (m_maxStreamReassemblyFragments s) (m_resetStreams s) (m_pendingReliableResets s) (m_streamFinalSize s)
    (m_retiredPeerBidiRanges s) v.

(** ** Streams and their limits *)

Definition isPeerInitiated (streamId : Z) (s : t) : bool :=
  if decide (m_role s = Server) then Z.land streamId 0x1 =? 0 else Z.land streamId 0x1 =? 1.

Definition isPeerInitiatedBidirectional_ (streamId : Z) (s : t) : bool :=
  isPeerInitiated streamId s && (Z.land streamId 0x2 =? 0).

Definition localStreamWindow_ (s : t) (streamId : Z) : Z :=
  let unidirectional := negb (Z.land streamId 0x2 =? 0) in
  if unidirectional then initialMaxStreamDataUni s
  else if isPeerInitiated streamId s then initialMaxStreamDataBidiRemote s
  else initialMaxStreamDataBidiLocal s.

(** The controller of a stream, created on first use. *)
Definition flowOf (s : t) (streamId : Z) : S.t :=
  default (S.make (localStreamWindow_ s streamId)) (m_streamFlow s !! streamId).

Definition setFlow (streamId : Z) (flow : S.t) (s : t) : t := set_m_streamFlow (<[streamId := flow]> (m_streamFlow s)) s.

Definition streamFlowControl_ (streamId : Z) : M t S.t := fun s =>
  let flow := flowOf s streamId in (Ok flow, setFlow streamId flow s).

(** [!flow.onDataReceived(...)] on a controller in place. *)
Definition onStream (streamId : Z) (m : M S.t unit) : M t unit := fun s =>
  let (r, flow) := m (flowOf s streamId) in (r, setFlow streamId flow s).

Definition onConnection (m : M C.t unit) : M t unit := fun s =>
  let (r, flow) := m (m_connectionFlow s) in (r, set_m_connectionFlow flow s).

Definition push_back (frame : SwQuicFrame.t) (s : t) : t := set_m_pendingFrames (m_pendingFrames s ++ [frame]) s.

Definition creditFlowControl_ (streamId bytes : Z) (s : t) : t :=
  let s := setFlow streamId (S.consume bytes (flowOf s streamId)) s in
  let s := set_m_connectionFlow (C.consume bytes (m_connectionFlow s)) s in
  let s :=
    let flow := flowOf s streamId in
    if S.shouldSendMaxStreamData flow then
      let flow := S.applyMaxStreamData flow in
      push_back (SwQuicFrame.maxStreamData streamId (S.m_maxDataLimit flow)) (setFlow streamId flow s)
    else s in
  let flow := m_connectionFlow s in
  if C.shouldSendMaxData flow then
    let flow := C.applyMaxData flow in
    push_back (SwQuicFrame.maxData (C.m_maxDataLimit flow)) (set_m_connectionFlow flow s)
  else s.

(** ** Retired streams *)

(** The range that begins at or before the number has it. *)
Definition isRetiredPeerBidirectional_ (streamId : Z) (s : t) : bool :=
  isPeerInitiatedBidirectional_ streamId s &&
  match list.last (SwMap.beforeBound (Z.shiftr streamId 2 + 1) (m_retiredPeerBidiRanges s)) with
  | None => false
  | Some (_, last_) => Z.shiftr streamId 2 <=? last_
  end.

(** The ranges behind that touch this one are taken into it. *)
Fixpoint markRetired_loop (next : SwMap.t Z) (last_ : Z) (ranges : SwMap.t Z) : Z * SwMap.t Z :=
  match next with
  | (begin, end_) :: next' =>
      if (last_ =? u64_max) || (begin <=? last_ +u 1)
      then markRetired_loop next' (if last_ <? end_ then end_ else last_) (SwMap.remove begin ranges)
      else (last_, ranges)
  | [] => (last_, ranges)
  end.

Definition markRetiredPeerBidirectional_ (streamId : Z) (s : t) : t :=
  let first := Z.shiftr streamId 2 in
  let ranges := m_retiredPeerBidiRanges s in
  let '(first, last_, ranges) :=
    match list.last (SwMap.beforeBound first ranges) with
    | Some (begin, end_) =>
        if (end_ =? u64_max) || (first <=? end_ +u 1)
        then (begin, if first <? end_ then end_ else first, SwMap.remove begin ranges)
        else (first, first, ranges)
    | None => (first, first, ranges)
    end in
  let (last_, ranges) := markRetired_loop (SwMap.lowerBound first ranges) last_ ranges in
  set_m_retiredPeerBidiRanges (SwMap.insert first last_ ranges) s.

Definition is_type (types : list SwQuicFrame.Type_) (frame : SwQuicFrame.t) : bool :=
  bool_decide (SwQuicFrame.m_type frame ∈ types).

Definition removePendingSendFramesForStream_ (streamId : Z) (removeResetFrames : bool) (s : t) : t :=
  set_m_pendingFrames (List.filter (fun frame =>
    let own := SwQuicFrame.m_streamId frame =? streamId in
    let streamFrame := is_type [SwQuicFrame.Stream] frame && own in
    let resetFrame := removeResetFrames && is_type [SwQuicFrame.ResetStream; SwQuicFrame.ResetStreamAt] frame && own in
    let obsoleteReceiveControl := removeResetFrames && is_type [SwQuicFrame.StopSending; SwQuicFrame.MaxStreamData] frame && own in
    negb streamFrame && negb resetFrame && negb obsoleteReceiveControl) (m_pendingFrames s)) s.

Definition eraseStream (streamId : Z) (s : t) : t := set_m_streams (SwQuicStreamMap.removeStream streamId (m_streams s)).2 s.

Definition eraseFlow (streamId : Z) (s : t) : t :=
  set_m_streamFlow (delete streamId (m_streamFlow s))
    (set_retiredFlows (retiredFlows s ++ match m_streamFlow s !! streamId with Some flow => [flow] | None => [] end) s).

Definition erasePeerMaxData (streamId : Z) (s : t) : t := set_m_peerStreamMaxData (delete streamId (m_peerStreamMaxData s)) s.

Definition eraseReset (streamId : Z) (s : t) : t := set_m_resetStreams (delete streamId (m_resetStreams s)) s.

Definition erasePending (streamId : Z) (s : t) : t := set_m_pendingReliableResets (delete streamId (m_pendingReliableResets s)) s.

Definition eraseFinalSize (streamId : Z) (s : t) : t := set_m_streamFinalSize (delete streamId (m_streamFinalSize s)) s.

Definition retirePeerBidirectionalState_ (streamId : Z) (s : t) : t :=
  let s := markRetiredPeerBidirectional_ streamId s in
  let s := removePendingSendFramesForStream_ streamId true s in
  let s := eraseStream streamId s in
  let s := eraseFlow streamId s in
  let s := erasePeerMaxData streamId s in
  let s := eraseReset streamId s in
  let s := erasePending streamId s in
  eraseFinalSize streamId s.

(** Both directions of a stream are at their end, and the application is done with it. *)
Definition isTerminal (streamId : Z) (send : SendStream_) (s : t) : bool :=
  let receiveTerminal :=
    bool_decide (is_Some (m_resetStreams s !! streamId)) ||
    match SwQuicStreamMap.stream streamId (m_streams s) with Some stream => SwQuicStream.isReceiveComplete stream | None => false end in
  let resetTerminal := resetQueued send && resetAcked send in
  let gracefulTerminal := negb (resetQueued send) && finQueued send && finAcked send && (nextOffset send <=? contiguousAckedOffset send) in
  peerCreditPending send && receiveTerminal && (resetTerminal || gracefulTerminal).

(** The peer may open one more stream. *)
Definition raiseStreamLimit (s : t) : t :=
  if m_localMaxStreamsBidi s <? 2 ^ 60 then
    let s := set_m_localMaxStreamsBidi (m_localMaxStreamsBidi s +u 1) s in
    push_back (SwQuicFrame.maxStreams true (m_localMaxStreamsBidi s)) s
  else s.

Definition eraseSend (streamId : Z) (s : t) : t := set_m_sendStreams (SwMap.remove streamId (m_sendStreams s)) s.

Fixpoint retire_loop (it : SwMap.t SendStream_) (s : t) : t :=
  match it with
  | [] => s
  | (streamId, send) :: it' =>
      if negb (isTerminal streamId send s) then retire_loop it' s
      else retire_loop it' (raiseStreamLimit (eraseSend streamId (retirePeerBidirectionalState_ streamId s)))
  end.

Definition retireAcknowledgedPeerStreams_ (s : t) : t :=
  let s := retire_loop (m_sendStreams s) s in
  if SwMap.isEmpty (m_sendStreams s) then set_m_streamSchedulingCursor 0 s
  else set_m_streamSchedulingCursor (m_streamSchedulingCursor s mod SwMap.size (m_sendStreams s)) s.

(** ** Frames *)

Definition markStreamTouched_ (streamId : Z) (s : t) : t :=
  if bool_decide (streamId ∈ m_touchedStreams s) then s
  else set_m_touchedStreams (m_touchedStreams s ++ [streamId]) s.

Definition enforceStreamLimit_ (streamId : Z) : M t unit :=
  s ← get;
  if SwQuicStreamMap.hasStream streamId (m_streams s) then mret tt
  else if negb (isPeerInitiated streamId s) then
    fail_if (bool_decide (streamId ∉ m_localOpenedStreams s)) "Peer sent data on a locally initiated stream that was never opened"
  else
    let unidirectional := negb (Z.land streamId 0x2 =? 0) in
    let limit := if unidirectional then m_localMaxStreamsUni s else m_localMaxStreamsBidi s in
    if limit <=? Z.shiftr streamId 2 then
      modify (set_m_closeErrorCode 0x04);; throw "Peer exceeded the advertised stream limit (STREAM_LIMIT_ERROR)"
    else mret tt.

Definition receiveFrame (frame : SwQuicFrame.t) (maxBufferedBytes maxFragments : Z) : M t unit := fun s =>
  let (r, streams) := SwQuicStreamMap.receiveFrame frame maxBufferedBytes maxFragments (m_streams s) in (r, set_m_streams streams s).

(** Both windows take the data; the connection's counts what raises the stream's highest
    offset. *)
Definition accountStreamData (streamId offset size : Z) : M t unit :=
  streamFlow ← streamFlowControl_ streamId;
  let previousHighest := S.m_highestReceivedOffset streamFlow in
  onStream streamId (S.onDataReceived offset size);;
  s ← get;
  let newHighest := S.m_highestReceivedOffset (flowOf s streamId) in
  if previousHighest <? newHighest then onConnection (C.onDataReceived (newHighest -u previousHighest)) else mret tt.

Definition processStreamFrame_ (frame : SwQuicFrame.t) : M t unit :=
  let streamId := SwQuicFrame.m_streamId frame in
  let size := zlen (SwQuicFrame.m_data frame) in
  let end_ := SwQuicFrame.m_offset frame +u size in
  s ← get;
  if isRetiredPeerBidirectional_ streamId s then mret tt
  else
    enforceStreamLimit_ streamId;;
    s ← get;
    fail_if (match m_streamFinalSize s !! streamId with
             | Some final => (final <? end_) || SwQuicFrame.m_fin frame && negb (end_ =? final)
             | None => false
             end) "STREAM data conflicts with established final size (FINAL_SIZE_ERROR)";;
    modify (fun s => if SwQuicFrame.m_fin frame then set_m_streamFinalSize (<[streamId := end_]> (m_streamFinalSize s)) s else s);;
    accountStreamData streamId (SwQuicFrame.m_offset frame) size;;
    s ← get;
    let flowWindow := localStreamWindow_ s streamId in
    let reassemblyBudget := if flowWindow <? m_maxStreamReassemblyBytes s then flowWindow else m_maxStreamReassemblyBytes s in
    receiveFrame frame reassemblyBudget (m_maxStreamReassemblyFragments s);;
    modify (markStreamTouched_ streamId).

(** The bytes up to the final size count against both windows. *)
Definition accountFinalSize (streamId previousHighest final : Z) : M t unit :=
  if previousHighest <? final then
    onStream streamId (S.onDataReceived previousHighest (final -u previousHighest));;
    onConnection (C.onDataReceived (final -u previousHighest))
  else mret tt.

(** Credit for what the application had not consumed of a stream. *)
Definition creditUpTo (streamId final : Z) (s : t) : t :=
  let consumed := S.m_bytesConsumed (flowOf s streamId) in
  if consumed <? final then creditFlowControl_ streamId (final -u consumed) s else s.

Definition finalSizeConflict (streamId previousHighest final : Z) (s : t) : bool :=
  (final <? previousHighest) ||
  match m_streamFinalSize s !! streamId with Some established => negb (established =? final) | None => false end.

Definition processResetStreamFrame_ (frame : SwQuicFrame.t) : M t unit :=
  let streamId := SwQuicFrame.m_streamId frame in
  let final := SwQuicFrame.m_finalSize frame in
  s ← get;
  if isRetiredPeerBidirectional_ streamId s then mret tt
  else
    enforceStreamLimit_ streamId;;
    streamFlow ← streamFlowControl_ streamId;
    let previousHighest := S.m_highestReceivedOffset streamFlow in
    s ← get;
    fail_if (finalSizeConflict streamId previousHighest final s) "RESET_STREAM final size conflicts with received data (FINAL_SIZE_ERROR)";;
    modify (fun s => set_m_resetStreams (<[streamId := SwQuicFrame.m_errorCode frame]> (m_resetStreams s)) s);;
    modify (fun s => set_m_streamFinalSize (<[streamId := final]> (m_streamFinalSize s)) s);;
    accountFinalSize streamId previousHighest final;;
    modify (creditUpTo streamId final);;
    modify (markStreamTouched_ streamId);;
    modify retireAcknowledgedPeerStreams_.

Definition processResetStreamAtFrame_ (frame : SwQuicFrame.t) : M t unit :=
  let streamId := SwQuicFrame.m_streamId frame in
  let final := SwQuicFrame.m_finalSize frame in
  fail_if (final <? SwQuicFrame.m_reliableSize frame) "RESET_STREAM_AT reliable size exceeds final size (FRAME_ENCODING_ERROR)";;
  s ← get;
  if isRetiredPeerBidirectional_ streamId s then mret tt
  else
    enforceStreamLimit_ streamId;;
    streamFlow ← streamFlowControl_ streamId;
    let previousHighest := S.m_highestReceivedOffset streamFlow in
    s ← get;
    fail_if (finalSizeConflict streamId previousHighest final s) "RESET_STREAM_AT final size conflicts with received data (FINAL_SIZE_ERROR)";;
    accountFinalSize streamId previousHighest final;;
    modify (fun s => set_m_streamFinalSize (<[streamId := final]> (m_streamFinalSize s)) s);;
    let pending := mkPending (SwQuicFrame.m_errorCode frame) final (SwQuicFrame.m_reliableSize frame) in
    modify (fun s => set_m_pendingReliableResets (<[streamId := pending]> (m_pendingReliableResets s)) s);;
    modify (fun s =>
      if reliableSize pending =? 0 then
        let s := set_m_resetStreams (<[streamId := errorCode pending]> (m_resetStreams s)) s in
        let s := creditUpTo streamId final s in
        erasePending streamId s
      else s);;
    modify (markStreamTouched_ streamId);;
    modify retireAcknowledgedPeerStreams_.

(** A MAX_DATA frame in [processFrame_]: limits never go down. *)
Definition onMaxData (frame : SwQuicFrame.t) (s : t) : t :=
  if C.m_peerMaxData (m_connectionFlow s) <? SwQuicFrame.m_maximum frame
  then set_m_connectionFlow (C.setPeerMaxData (SwQuicFrame.m_maximum frame) (m_connectionFlow s)) s else s.

(** ** The application *)

Definition readContiguous (streamId : Z) : M t (list byte) := fun s =>
  let (r, streams) := SwQuicStreamMap.readContiguous streamId (m_streams s) in (r, set_m_streams streams s).

(** The reset that was withheld until the reliable part was read. *)
Definition completeReliableReset (streamId : Z) (s : t) : t :=
  match m_pendingReliableResets s !! streamId, SwQuicStreamMap.stream streamId (m_streams s) with
  | Some pending, Some stream =>
      if reliableSize pending <=? SwQuicStream.m_readOffset stream then
        let s := set_m_resetStreams (<[streamId := errorCode pending]> (m_resetStreams s)) s in
        let s := setFlow streamId (flowOf s streamId) s in
        let s := creditUpTo streamId (finalSize pending) s in
        let s := erasePending streamId s in
        markStreamTouched_ streamId s
      else s
  | _, _ => s
  end.

Definition readStream (streamId : Z) : M t (list byte) :=
  data ← readContiguous streamId;
  modify (fun s => match data with [] => s | _ => creditFlowControl_ streamId (zlen data) s end);;
  modify (completeReliableReset streamId);;
  modify retireAcknowledgedPeerStreams_;;
  mret data.

Definition releasePeerBidirectionalStream (streamId : Z) : M t unit :=
  s ← get;
  fail_if (negb (isPeerInitiatedBidirectional_ streamId s)) "Only peer-initiated bidirectional streams can be released";;
  match SwMap.find streamId (m_sendStreams s) with
  | Some send =>
      fail_if (negb (finQueued send) && negb (resetQueued send)) "QUIC stream cannot be released before its application send side finishes";;
      if peerCreditPending send then mret tt
      else
        modify (fun s => set_m_sendStreams (SwMap.insert streamId (set_peerCreditPending true send) (m_sendStreams s)) s);;
        modify retireAcknowledgedPeerStreams_
  | None => throw "QUIC stream cannot be released before its application send side finishes"
  end.

(** ** Reachable states *)

(** A connection after the handshake: no stream yet, advertised windows as configured. *)
Definition initial (s : t) : Prop :=
  exists W, 0 <= W <= SwQuicVarIntCodec.maxValue /\ m_connectionFlow s = C.make W /\
  m_streamFlow s = ∅ /\ m_pendingReliableResets s = ∅ /\ retiredFlows s = [] /\
  (forall id, 0 <= localStreamWindow_ s id <= SwQuicVarIntCodec.maxValue).

(** What the rest of the connection does not touch. *)
Definition kept (s : t) :=
  ((m_role s, initialMaxStreamDataUni s, initialMaxStreamDataBidiRemote s, initialMaxStreamDataBidiLocal s),
   (m_connectionFlow s, m_streamFlow s, m_pendingReliableResets s, retiredFlows s)).

(** Frames that are accepted, reads, releases, and whatever else the connection does: it
    sends and takes acknowledgements, which may retire streams. *)
Inductive step : t -> t -> Prop :=
| step_stream s s' frame :
    SwQuicVarIntCodec.valid (SwQuicFrame.m_offset frame) -> zlen (SwQuicFrame.m_data frame) <= int_max ->
    processStreamFrame_ frame s = (Ok tt, s') -> step s s'
| step_reset s s' frame :
    SwQuicVarIntCodec.valid (SwQuicFrame.m_finalSize frame) ->
    processResetStreamFrame_ frame s = (Ok tt, s') -> step s s'
| step_reset_at s s' frame :
    SwQuicVarIntCodec.valid (SwQuicFrame.m_finalSize frame) ->
    processResetStreamAtFrame_ frame s = (Ok tt, s') -> step s s'
| step_max_data s frame : step s (onMaxData frame s)
| step_read s s' streamId data :
    readStream streamId s = (Ok data, s') -> zlen data <= SwQuicVarIntCodec.maxValue -> step s s'
| step_release s s' streamId : releasePeerBidirectionalStream streamId s = (Ok tt, s') -> step s s'
| step_retire s : step s (retireAcknowledgedPeerStreams_ s)
| step_other s s' : kept s' = kept s -> step s s'.

(** Runs along which the connection has credited less than 2^62 bytes. *)
Inductive reachable : t -> Prop :=
| reach_init s : initial s -> reachable s
| reach_step s s' : reachable s ->
    C.m_bytesConsumed (m_connectionFlow s) <= SwQuicVarIntCodec.maxValue -> step s s' -> reachable s'.

(** ** The ledger *)

(** A stream has received no more than its limit, which is at most a window ahead of what
    was credited. *)
Record stream_ok (flow : S.t) : Prop := {
  so_highest : 0 <= S.m_highestReceivedOffset flow <= S.m_maxDataLimit flow;
  so_consumed : 0 <= S.m_bytesConsumed flow;
  so_limit : S.m_initialWindow flow <= S.m_maxDataLimit flow <= S.m_bytesConsumed flow + S.m_initialWindow flow;
  so_window : 0 <= S.m_initialWindow flow <= SwQuicVarIntCodec.maxValue
}.

Definition list_total (f : S.t -> Z) (flows : list S.t) : Z := foldr (fun flow acc => f flow + acc) 0 flows.

(** All streams there are and were. *)
Definition total (f : S.t -> Z) (s : t) : Z := map_sum f (m_streamFlow s) + list_total f (retiredFlows s).

Record ledger (s : t) : Prop := {
  ld_streams : forall id flow, m_streamFlow s !! id = Some flow -> stream_ok flow;
  ld_retired : Forall stream_ok (retiredFlows s);
  ld_windows : forall id, 0 <= localStreamWindow_ s id <= SwQuicVarIntCodec.maxValue;
  ld_received : C.m_bytesReceived (m_connectionFlow s) = total S.m_highestReceivedOffset s;
  ld_consumed : C.m_bytesConsumed (m_connectionFlow s) = total S.m_bytesConsumed s;
  ld_limit : C.m_bytesReceived (m_connectionFlow s) <= C.m_maxDataLimit (m_connectionFlow s);
  ld_window : C.m_initialWindow (m_connectionFlow s) <= C.m_maxDataLimit (m_connectionFlow s)
    <= C.m_bytesConsumed (m_connectionFlow s) + C.m_initialWindow (m_connectionFlow s);
  ld_initial : 0 <= C.m_initialWindow (m_connectionFlow s) <= SwQuicVarIntCodec.maxValue;
  ld_resets : forall id pending, m_pendingReliableResets s !! id = Some pending -> 0 <= finalSize pending <= SwQuicVarIntCodec.maxValue
}.

(** [ledger], with a bound on what was credited. *)
Definition within (consumed : Z) (s : t) : Prop := ledger s /\ C.m_bytesConsumed (m_connectionFlow s) <= consumed.

Lemma kept_windows s s' : kept s' = kept s -> forall id, localStreamWindow_ s' id = localStreamWindow_ s id.
Proof. unfold kept. intros [= H1 H2 H3 H4 H5 H6 H7 H8] id. unfold localStreamWindow_, isPeerInitiated. by rewrite H1, H2, H3, H4. Qed.

Lemma kept_ledger s s' : kept s' = kept s -> ledger s -> ledger s'.
Proof.
  intros Hk [L1 L2 L3 L4 L5 L6 L7 L8 L9]. pose proof (kept_windows s s' Hk) as Hw. unfold kept in Hk. injection Hk as H1 H2 H3 H4 H5 H6 H7 H8.
  constructor; unfold total in *; rewrite ?H5, ?H6, ?H7, ?H8; try done. intros id. by rewrite Hw.
Qed.

Lemma kept_within s s' c : kept s' = kept s -> within c s -> within c s'.
Proof. intros Hk (L & H). split; [by eapply kept_ledger|]. unfold kept in Hk. injection Hk as _ _ _ _ -> _ _ _. done. Qed.

Lemma flow_ok s id : ledger s -> stream_ok (flowOf s id).
Proof.
  intros H. unfold flowOf. destruct (m_streamFlow s !! id) eqn:E; cbn [default Datatypes.id]; [by eapply ld_streams|].
  pose proof (ld_windows _ H id). generalize dependent (localStreamWindow_ s id). intros W HW. constructor; cbn; lia.
Qed.

Lemma list_total_nonneg f flows : (forall flow, stream_ok flow -> 0 <= f flow) -> Forall stream_ok flows -> 0 <= list_total f flows.
Proof. intros Hf. unfold list_total. induction 1 as [|flow flows Hflow _ IH]; cbn; [done|]. specialize (Hf flow Hflow). lia. Qed.

Lemma map_total_nonneg f (m : gmap Z S.t) : (forall flow, stream_ok flow -> 0 <= f flow) ->
  (forall id flow, m !! id = Some flow -> stream_ok flow) -> 0 <= map_sum f m.
Proof.
  intros Hf. induction m as [|i x m Hm IH] using map_ind; intros Hs; [done|]. rewrite map_sum_insert_new by done.
  pose proof (Hf x (Hs i x ltac:(apply lookup_insert_eq))). enough (0 <= map_sum f m) by lia.
  apply IH. intros j y Hj. apply (Hs j y). rewrite lookup_insert_ne; [done|]. congruence.
Qed.

(** Replacing the controller of a stream changes a total by the difference; a stream not
    yet there counts for zero. *)
Lemma total_set f s id flow : f (S.make (localStreamWindow_ s id)) = 0 ->
  total f (setFlow id flow s) = total f s + f flow - f (flowOf s id).
Proof.
  intros H0. unfold total, setFlow, flowOf. cbn [m_streamFlow set_m_streamFlow retiredFlows]. destruct (m_streamFlow s !! id) eqn:E; cbn [default Datatypes.id].
  - rewrite (map_sum_insert _ _ _ _ _ E). lia.
  - rewrite map_sum_insert_new by done. lia.
Qed.

(** What one stream has is part of the total. *)
Lemma stream_le_total f s id : (forall flow, stream_ok flow -> 0 <= f flow) -> f (S.make (localStreamWindow_ s id)) = 0 -> ledger s ->
  f (flowOf s id) <= total f s.
Proof.
  intros Hf H0 H. unfold total. pose proof (list_total_nonneg f _ Hf (ld_retired _ H)) as Hr. unfold flowOf.
  destruct (m_streamFlow s !! id) as [flow|] eqn:E; cbn [default Datatypes.id].
  - rewrite (map_sum_delete _ _ _ _ E). enough (0 <= map_sum f (delete id (m_streamFlow s))) by lia.
    apply map_total_nonneg; [done|]. intros j y [_ Hj]%lookup_delete_Some. by eapply ld_streams.
  - pose proof (map_total_nonneg f _ Hf (ld_streams _ H)). lia.
Qed.

Lemma consumed_le s id : ledger s -> S.m_bytesConsumed (flowOf s id) <= C.m_bytesConsumed (m_connectionFlow s).
Proof. intros H. rewrite (ld_consumed _ H). apply stream_le_total; [by intros flow []|done|done]. Qed.

Lemma setFlow_windows id flow s i : localStreamWindow_ (setFlow id flow s) i = localStreamWindow_ s i.
Proof. done. Qed.

Lemma flowOf_set id flow s : flowOf (setFlow id flow s) id = flow.
Proof. unfold flowOf, setFlow. cbn. by rewrite lookup_insert_eq. Qed.

(** A controller and the connection's change together. *)
Lemma ledger_set s id flow conn : ledger s -> stream_ok flow ->
  C.m_bytesReceived conn = C.m_bytesReceived (m_connectionFlow s) + S.m_highestReceivedOffset flow - S.m_highestReceivedOffset (flowOf s id) ->
  C.m_bytesConsumed conn = C.m_bytesConsumed (m_connectionFlow s) + S.m_bytesConsumed flow - S.m_bytesConsumed (flowOf s id) ->
  C.m_bytesReceived conn <= C.m_maxDataLimit conn ->
  C.m_initialWindow conn <= C.m_maxDataLimit conn <= C.m_bytesConsumed conn + C.m_initialWindow conn ->
  0 <= C.m_initialWindow conn <= SwQuicVarIntCodec.maxValue ->
  ledger (set_m_connectionFlow conn (setFlow id flow s)).
Proof.
  intros [L1 L2 L3 L4 L5 L6 L7 L8 L9] Hf Hr Hc Hl Hw Hi. constructor; try done.
  - intros i f. cbn. rewrite lookup_insert_Some. intros [[_ <-]|[_ H]]; [done|by eapply L1].
  - change (C.m_bytesReceived conn = total S.m_highestReceivedOffset (setFlow id flow s)). rewrite total_set by done. lia.
  - change (C.m_bytesConsumed conn = total S.m_bytesConsumed (setFlow id flow s)). rewrite total_set by done. lia.
Qed.

Lemma ledger_touch s id : ledger s -> ledger (setFlow id (flowOf s id) s).
Proof.
  intros H. pose proof (flow_ok s id H) as Hf. pose proof H as [_ _ _ _ _ L6 L7 L8 _].
  assert (setFlow id (flowOf s id) s = set_m_connectionFlow (m_connectionFlow s) (setFlow id (flowOf s id) s)) as -> by (by destruct s).
  apply ledger_set; try done; lia.
Qed.

(** ** What the operations do to it *)

(** A program that keeps to [Q] when it accepts. *)
Definition accepts {A} (P : t -> Prop) (m : M t A) (Q : A -> t -> Prop) : Prop := forall s a s', P s -> m s = (Ok a, s') -> Q a s'.

Lemma accepts_bind {A B} P (m : M t A) (k : A -> M t B) R Q : accepts P m R -> (forall a, accepts (R a) (k a) Q) -> accepts P (mbind k m) Q.
Proof. intros Hm Hk s b s' HP Hrun. apply bind_ok in Hrun as (a & s1 & H1 & H2). eapply Hk; [|exact H2]. by eapply Hm. Qed.

Lemma accepts_ret {A} P (a : A) (Q : A -> t -> Prop) : (forall s, P s -> Q a s) -> accepts P (mret a) Q.
Proof. intros HQ s b s' HP [= <- <-]. auto. Qed.

Lemma accepts_get {B} (P : t -> Prop) (k : t -> M t B) Q : (forall s0, accepts (fun s => P s /\ s = s0) (k s0) Q) -> accepts P (mbind k get) Q.
Proof. intros H s b s' HP Hr. by apply (H s s). Qed.

Lemma accepts_modify P f (Q : unit -> t -> Prop) : (forall s, P s -> Q tt (f s)) -> accepts P (modify f) Q.
Proof. intros HQ s b s' HP [= <- <-]. auto. Qed.

Lemma accepts_fail_if P cond msg : accepts P (fail_if cond msg) (fun _ s => P s /\ cond = false).
Proof. intros s b s' HP. unfold fail_if. destruct cond; [done|]. by intros [= _ <-]. Qed.

Lemma accepts_weaken {A} (P P' : t -> Prop) (m : M t A) (Q Q' : A -> t -> Prop) :
  (forall s, P s -> P' s) -> (forall a s, Q' a s -> Q a s) -> accepts P' m Q' -> accepts P m Q.
Proof. intros HP HQ H s a s' Hs Hm. eapply HQ, H; eauto. Qed.

(** A program that leaves the flow control alone. *)
Definition aside {A} (m : M t A) : Prop := forall s a s', m s = (Ok a, s') -> kept s' = kept s.

Lemma accepts_aside {A} (m : M t A) c : aside m -> accepts (within c) m (fun _ => within c).
Proof. intros H s a s' Hs Hm. eapply kept_within; [by eapply H|done]. Qed.

Lemma aside_enforce streamId : aside (enforceStreamLimit_ streamId).
Proof.
  intros s a s'. unfold enforceStreamLimit_. m_run. repeat case_match; intros Hrun; simplify_eq; done.
Qed.

Lemma aside_receive frame b n : aside (receiveFrame frame b n).
Proof. intros s a s'. unfold receiveFrame. destruct (SwQuicStreamMap.receiveFrame _ _ _ _) as [r m]. by intros [= -> <-]. Qed.

Lemma aside_read streamId : aside (readContiguous streamId).
Proof. intros s a s'. unfold readContiguous. destruct (SwQuicStreamMap.readContiguous _ _) as [r m]. by intros [= -> <-]. Qed.

Lemma kept_touched streamId s : kept (markStreamTouched_ streamId s) = kept s.
Proof. unfold markStreamTouched_. by case_match. Qed.

(** *** Data arrives *)

Definition grown (flow : S.t) (end_ : Z) : S.t :=
  S.mk (S.m_initialWindow flow) (S.m_maxDataLimit flow) (Z.max (S.m_highestReceivedOffset flow) end_) (S.m_bytesConsumed flow) (S.m_peerMaxData flow).

Definition received (conn : C.t) (bytes : Z) : C.t :=
  C.mk (C.m_initialWindow conn) (C.m_maxDataLimit conn) (C.m_bytesReceived conn + bytes) (C.m_bytesConsumed conn) (C.m_peerMaxData conn).

(** The highest offset of a stream moves, and the connection's counter with it. *)
Lemma arrive_ok s id end_ : ledger s -> end_ <= S.m_maxDataLimit (flowOf s id) ->
  let moved := Z.max (S.m_highestReceivedOffset (flowOf s id)) end_ - S.m_highestReceivedOffset (flowOf s id) in
  C.m_bytesReceived (m_connectionFlow s) + moved <= C.m_maxDataLimit (m_connectionFlow s) ->
  ledger (set_m_connectionFlow (received (m_connectionFlow s) moved) (setFlow id (grown (flowOf s id) end_) s)).
Proof.
  intros H He moved Hm. pose proof (flow_ok s id H) as [F1 F2 F3 F4]. pose proof H as [_ _ _ _ _ L6 L7 L8 _].
  apply ledger_set; cbn; try done; try lia. constructor; cbn; lia.
Qed.

Lemma onStream_run id offset size s a s' : 0 <= offset -> 0 <= size -> is_u64 (offset + size) ->
  onStream id (S.onDataReceived offset size) s = (Ok a, s') ->
  offset + size <= S.m_maxDataLimit (flowOf s id) /\ s' = setFlow id (grown (flowOf s id) (offset + size)) s.
Proof.
  intros Ho Hs Hr. unfold onStream. destruct (S.onDataReceived offset size (flowOf s id)) as [r flow] eqn:E. intros [= -> <-].
  destruct a. apply S.onDataReceived_ok in E as [E ->]; done.
Qed.

Lemma onConnection_run bytes s a s' : 0 <= C.m_bytesReceived (m_connectionFlow s) -> 0 <= bytes ->
  is_u64 (C.m_bytesReceived (m_connectionFlow s) + bytes) -> onConnection (C.onDataReceived bytes) s = (Ok a, s') ->
  C.m_bytesReceived (m_connectionFlow s) + bytes <= C.m_maxDataLimit (m_connectionFlow s) /\
  s' = set_m_connectionFlow (received (m_connectionFlow s) bytes) s.
Proof.
  intros Ho Hs Hr. unfold onConnection. destruct (C.onDataReceived bytes (m_connectionFlow s)) as [r flow] eqn:E. intros [= -> <-].
  destruct a. apply C.connection_onDataReceived_ok in E as [E ->]; done.
Qed.

Lemma limits_bound s c id : within c s -> 0 <= c <= 3 * SwQuicVarIntCodec.maxValue ->
  S.m_maxDataLimit (flowOf s id) <= c + SwQuicVarIntCodec.maxValue /\ C.m_maxDataLimit (m_connectionFlow s) <= c + SwQuicVarIntCodec.maxValue.
Proof.
  intros [H Hc] Hb. pose proof (flow_ok s id H) as [F1 F2 F3 F4]. pose proof (consumed_le s id H). pose proof H as [_ _ _ _ _ L6 L7 L8 _]. lia.
Qed.

Lemma received_nonneg s : ledger s -> 0 <= C.m_bytesReceived (m_connectionFlow s).
Proof.
  intros H. rewrite (ld_received _ H). unfold total. pose proof (map_total_nonneg S.m_highestReceivedOffset _ ltac:(by intros flow [[? _] _ _ _]) (ld_streams _ H)).
  pose proof (list_total_nonneg S.m_highestReceivedOffset _ ltac:(by intros flow [[? _] _ _ _]) (ld_retired _ H)). lia.
Qed.

Lemma consumed_nonneg s : ledger s -> 0 <= C.m_bytesConsumed (m_connectionFlow s).
Proof.
  intros H. rewrite (ld_consumed _ H). unfold total. pose proof (map_total_nonneg S.m_bytesConsumed _ ltac:(by intros flow []) (ld_streams _ H)).
  pose proof (list_total_nonneg S.m_bytesConsumed _ ltac:(by intros flow []) (ld_retired _ H)). lia.
Qed.

Lemma setFlow_set id a b s : setFlow id a (setFlow id b s) = setFlow id a s.
Proof. unfold setFlow. cbn. by rewrite insert_insert_eq. Qed.

Lemma accountStreamData_ok id offset size c : SwQuicVarIntCodec.valid offset -> 0 <= size <= int_max -> 0 <= c <= SwQuicVarIntCodec.maxValue ->
  accepts (within c) (accountStreamData id offset size) (fun _ => within c).
Proof.
  intros Ho Hsize Hc s a s' Hs. destruct (limits_bound s c id Hs ltac:(lia)) as [B1 B2]. destruct Hs as [H Hs].
  pose proof (received_nonneg s H) as R0. pose proof (flow_ok s id H) as [F1 _ _ _]. pose proof (ld_limit _ H) as L6.
  unfold SwQuicVarIntCodec.valid, SwQuicVarIntCodec.maxValue, int_max in *. intros Hrun. unfold accountStreamData in Hrun.
  apply bind_ok in Hrun as (flow & s1 & [= <- <-] & Hrun). apply bind_ok in Hrun as (u & s2 & Hm & Hrun).
  apply onStream_run in Hm as [He ->]; [|lia|lia|unfold is_u64; lia]. rewrite flowOf_set in He, Hrun. rewrite setFlow_set in Hrun.
  apply bind_ok in Hrun as (s3 & s4 & [= <- <-] & Hrun). rewrite flowOf_set in Hrun. cbn [grown S.m_highestReceivedOffset] in Hrun.
  pose proof (arrive_ok s id (offset + size) H He) as Harrive. cbv zeta in Harrive.
  destruct (Z.ltb_spec (S.m_highestReceivedOffset (flowOf s id)) (Z.max (S.m_highestReceivedOffset (flowOf s id)) (offset + size))) as [Hlt|Hge].
  - rewrite sub64_small in Hrun by lia.
    apply onConnection_run in Hrun as [Hl ->]; [|exact R0|lia|]; cbn [setFlow set_m_streamFlow m_connectionFlow] in *; [|unfold is_u64; lia].
    split; [by apply Harrive|exact Hs].
  - injection Hrun as _ <-. split; [|exact Hs]. assert (grown (flowOf s id) (offset + size) = flowOf s id) as ->; [|by apply ledger_touch].
    unfold grown. replace (Z.max _ _) with (S.m_highestReceivedOffset (flowOf s id)) by lia. by destruct (flowOf s id).
Qed.

Lemma accountFinalSize_ok id final c s0 : SwQuicVarIntCodec.valid final -> 0 <= c <= SwQuicVarIntCodec.maxValue ->
  accepts (fun s => within c s /\ flowOf s id = flowOf s0 id) (accountFinalSize id (S.m_highestReceivedOffset (flowOf s0 id)) final) (fun _ => within c).
Proof.
  intros Hf Hc s a s' [Hs E0]. rewrite <- E0. destruct (limits_bound s c id Hs ltac:(lia)) as [B1 B2]. destruct Hs as [H Hs].
  pose proof (received_nonneg s H) as R0. pose proof (flow_ok s id H) as [F1 _ _ _]. pose proof (ld_limit _ H) as L6.
  unfold SwQuicVarIntCodec.valid, SwQuicVarIntCodec.maxValue in *. unfold accountFinalSize.
  destruct (Z.ltb_spec (S.m_highestReceivedOffset (flowOf s id)) final) as [Hlt|Hge]; [|by intros [= _ <-]].
  rewrite sub64_small by lia. intros Hrun. apply bind_ok in Hrun as (u & s2 & Hm & Hrun).
  apply onStream_run in Hm as [He ->]; [|lia|lia|unfold is_u64; lia].
  replace (S.m_highestReceivedOffset (flowOf s id) + (final - S.m_highestReceivedOffset (flowOf s id))) with final in * by lia.
  apply onConnection_run in Hrun as [Hl ->]; [|exact R0|lia|unfold is_u64; cbn [setFlow set_m_streamFlow m_connectionFlow]; lia].
  cbn [setFlow set_m_streamFlow m_connectionFlow] in *. split; [|exact Hs].
  pose proof (arrive_ok s id final H He) as Harrive. cbv zeta in Harrive. rewrite Z.max_r in Harrive by lia. by apply Harrive.
Qed.

(** *** Credit *)

Lemma consume_ok s id bytes c : within c s -> 0 <= bytes -> 0 <= c -> c + bytes <= 3 * SwQuicVarIntCodec.maxValue ->
  within (c + bytes) (set_m_connectionFlow (C.consume bytes (m_connectionFlow s)) (setFlow id (S.consume bytes (flowOf s id)) s)).
Proof.
  intros [H Hc] Hb Hc0 Hsum. pose proof (flow_ok s id H) as [F1 F2 F3 F4]. pose proof (consumed_le s id H). pose proof H as [_ _ _ _ _ L6 L7 L8 _].
  unfold SwQuicVarIntCodec.maxValue in *. unfold C.consume, S.consume. rewrite !add64_small by lia. split; [|cbn; lia].
  apply ledger_set; cbn; try done; try lia. constructor; cbn; unfold SwQuicVarIntCodec.maxValue; lia.
Qed.

Lemma half w : 0 <= w -> 0 <= w / 2 <= w.
Proof. intros Hw. split; [by apply Z.div_pos|]. apply Z.div_le_upper_bound; lia. Qed.

Lemma applyStream_ok s id c : within c s -> 0 <= c <= 3 * SwQuicVarIntCodec.maxValue -> S.shouldSendMaxStreamData (flowOf s id) = true ->
  within c (setFlow id (S.applyMaxStreamData (flowOf s id)) s).
Proof.
  intros [H Hc] Hb. pose proof (flow_ok s id H) as [F1 F2 F3 F4]. pose proof (consumed_le s id H). pose proof H as [_ _ _ _ _ L6 L7 L8 _].
  unfold SwQuicVarIntCodec.maxValue in *. unfold S.shouldSendMaxStreamData.
  pose proof (half (S.m_initialWindow (flowOf s id)) ltac:(lia)). rewrite sub64_small, add64_small by lia. intros Hshould%Z.ltb_lt.
  unfold S.applyMaxStreamData, S.nextMaxStreamData. rewrite add64_small by lia. split; [|done].
  match goal with |- ledger (setFlow id ?f s) => assert (setFlow id f s = set_m_connectionFlow (m_connectionFlow s) (setFlow id f s)) as -> by (by destruct s) end.
  apply ledger_set; cbn; try done; try lia. constructor; cbn; unfold SwQuicVarIntCodec.maxValue; lia.
Qed.

Lemma applyConnection_ok s c : within c s -> 0 <= c <= 3 * SwQuicVarIntCodec.maxValue -> C.shouldSendMaxData (m_connectionFlow s) = true ->
  within c (set_m_connectionFlow (C.applyMaxData (m_connectionFlow s)) s).
Proof.
  intros [H Hc] Hb. pose proof (consumed_nonneg s H). pose proof H as [L1 L2 L3 L4 L5 L6 L7 L8 L9].
  unfold SwQuicVarIntCodec.maxValue in *. unfold C.shouldSendMaxData.
  pose proof (half (C.m_initialWindow (m_connectionFlow s)) ltac:(lia)).
  rewrite sub64_small, add64_small by lia. intros Hshould%Z.ltb_lt.
  unfold C.applyMaxData, C.nextMaxData. rewrite add64_small by lia. split; [|done]. constructor; cbn; try done; lia.
Qed.

Lemma kept_push frame s : kept (push_back frame s) = kept s.
Proof. done. Qed.

Lemma creditFlowControl_ok s id bytes c : within c s -> 0 <= bytes -> 0 <= c -> c + bytes <= 3 * SwQuicVarIntCodec.maxValue ->
  within (c + bytes) (creditFlowControl_ id bytes s).
Proof.
  intros H Hb Hc Hsum. pose proof (consume_ok s id bytes c H Hb Hc Hsum) as H1. unfold creditFlowControl_.
  change (m_connectionFlow (setFlow id (S.consume bytes (flowOf s id)) s)) with (m_connectionFlow s).
  set (s1 := set_m_connectionFlow _ _) in *. clearbody s1. cbv zeta.
  assert (within (c + bytes) (if S.shouldSendMaxStreamData (flowOf s1 id)
    then push_back (SwQuicFrame.maxStreamData id (S.m_maxDataLimit (S.applyMaxStreamData (flowOf s1 id)))) (setFlow id (S.applyMaxStreamData (flowOf s1 id)) s1)
    else s1)) as H2.
  { destruct (S.shouldSendMaxStreamData (flowOf s1 id)) eqn:E; [|done]. eapply kept_within; [apply kept_push|]. apply applyStream_ok; [done|lia|done]. }
  match type of H2 with within _ ?x => set (s2 := x) in * end. clearbody s2. destruct (C.shouldSendMaxData (m_connectionFlow s2)) eqn:E; [|done].
  eapply kept_within; [apply kept_push|]. apply applyConnection_ok; [done|lia|done].
Qed.

Lemma creditUpTo_ok s id final c : within c s -> 0 <= final -> 0 <= c -> c + final <= 3 * SwQuicVarIntCodec.maxValue ->
  within (c + final) (creditUpTo id final s).
Proof.
  intros H Hf Hc Hsum. pose proof H as [Hl Hs]. pose proof (flow_ok s id Hl) as [_ F2 _ _]. pose proof (consumed_le s id Hl) as Hle.
  unfold SwQuicVarIntCodec.maxValue in *. unfold creditUpTo. cbv zeta.
  destruct (Z.ltb_spec (S.m_bytesConsumed (flowOf s id)) final); [|split; [done|lia]].
  rewrite sub64_small by lia.
  destruct (creditFlowControl_ok s id (final - S.m_bytesConsumed (flowOf s id)) c H) as [K1 K2]; [lia|lia|unfold SwQuicVarIntCodec.maxValue; lia|].
  split; [done|lia].
Qed.

(** *** Streams are retired *)

Lemma kept_marked id s : kept (markRetiredPeerBidirectional_ id s) = kept s.
Proof. unfold markRetiredPeerBidirectional_. cbv zeta. repeat case_match; done. Qed.

Lemma list_total_app f a b : list_total f (a ++ b) = list_total f a + list_total f b.
Proof. unfold list_total. induction a as [|x a IH]; cbn; [done|]. rewrite IH. lia. Qed.

(** What a stream had counts on when it is gone. *)
Lemma retire_total f s id : map_sum f (delete id (m_streamFlow s)) +
  list_total f (retiredFlows s ++ match m_streamFlow s !! id with Some flow => [flow] | None => [] end) = total f s.
Proof.
  unfold total. rewrite list_total_app. destruct (m_streamFlow s !! id) as [flow|] eqn:E.
  - rewrite (map_sum_delete _ _ _ _ E). cbn. lia.
  - rewrite delete_id by done. cbn. lia.
Qed.

(** The controller leaves the map and stays in the books. *)
Lemma eraseFlow_ok s id c : within c s -> within c (eraseFlow id s).
Proof.
  intros [[L1 L2 L3 L4 L5 L6 L7 L8 L9] Hc]. split; [|exact Hc]. constructor; unfold eraseFlow, total; cbn; try done.
  - intros i flow [_ Hi]%lookup_delete_Some. by eapply L1.
  - apply Forall_app. split; [done|]. destruct (m_streamFlow s !! id) eqn:E; [|done]. constructor; [by eapply L1|done].
  - rewrite retire_total. exact L4.
  - rewrite retire_total. exact L5.
Qed.

Lemma erasePending_ok id c s : within c s -> within c (erasePending id s).
Proof.
  intros [[L1 L2 L3 L4 L5 L6 L7 L8 L9] Hc]. split; [|exact Hc]. constructor; try done. intros i p. cbn. intros [_ Hi]%lookup_delete_Some. by eapply L9.
Qed.

Lemma eraseStream_ok id c s : within c s -> within c (eraseStream id s).
Proof. by apply kept_within. Qed.

Lemma erasePeerMaxData_ok id c s : within c s -> within c (erasePeerMaxData id s).
Proof. by apply kept_within. Qed.

Lemma eraseReset_ok id c s : within c s -> within c (eraseReset id s).
Proof. by apply kept_within. Qed.

Lemma eraseFinalSize_ok id c s : within c s -> within c (eraseFinalSize id s).
Proof. by apply kept_within. Qed.

Lemma removePending_ok id c s : within c s -> within c (removePendingSendFramesForStream_ id true s).
Proof. by apply kept_within. Qed.

Lemma marked_ok id c s : within c s -> within c (markRetiredPeerBidirectional_ id s).
Proof. apply kept_within, kept_marked. Qed.

Lemma retire_ok s id c : within c s -> within c (retirePeerBidirectionalState_ id s).
Proof.
  exact (fun H => eraseFinalSize_ok id c _ (erasePending_ok id c _ (eraseReset_ok id c _ (erasePeerMaxData_ok id c _
    (eraseFlow_ok _ id c (eraseStream_ok id c _ (removePending_ok id c _ (marked_ok id c s H)))))))).
Qed.

Lemma raise_ok c s : within c s -> within c (raiseStreamLimit s).
Proof. apply kept_within. unfold raiseStreamLimit. by case_match. Qed.

Lemma eraseSend_ok id c s : within c s -> within c (eraseSend id s).
Proof. by apply kept_within. Qed.

Lemma retire_loop_ok it : forall s c, within c s -> within c (retire_loop it s).
Proof.
  induction it as [|[id send] it IH]; intros s c H; [done|]. cbn [retire_loop]. destruct (negb _); apply IH; [done|].
  by apply raise_ok, eraseSend_ok, retire_ok.
Qed.

Lemma cursor_ok v c s : within c s -> within c (set_m_streamSchedulingCursor v s).
Proof. by apply kept_within. Qed.

Lemma retireAcknowledged_ok s c : within c s -> within c (retireAcknowledgedPeerStreams_ s).
Proof.
  intros H. apply (retire_loop_ok (m_sendStreams s)) in H. unfold retireAcknowledgedPeerStreams_. cbv zeta. destruct (SwMap.isEmpty _); by apply cursor_ok.
Qed.

(** *** The handlers *)

Lemma set_final_kept id v s : kept (set_m_streamFinalSize (<[id := v]> (m_streamFinalSize s)) s) = kept s.
Proof. done. Qed.

Lemma processStreamFrame_ok frame c : SwQuicVarIntCodec.valid (SwQuicFrame.m_offset frame) -> zlen (SwQuicFrame.m_data frame) <= int_max ->
  0 <= c <= SwQuicVarIntCodec.maxValue -> accepts (within c) (processStreamFrame_ frame) (fun _ => within c).
Proof.
  intros Ho Hs Hc. unfold processStreamFrame_. apply accepts_get. intros s0. destruct (isRetiredPeerBidirectional_ _ s0); [by apply accepts_ret; intros s [? _]|].
  eapply accepts_weaken; [intros s [H _]; exact H|intros a s H; exact H|].
  eapply accepts_bind; [apply accepts_aside, aside_enforce|]. intros []. apply accepts_get. intros s1.
  eapply accepts_bind; [apply accepts_fail_if|]. intros []. eapply accepts_bind; [apply (accepts_modify _ _ (fun _ => within c))|].
  { intros s [[H _] _]. destruct (SwQuicFrame.m_fin frame); [eapply kept_within; [apply set_final_kept|exact H]|exact H]. }
  intros []. eapply accepts_bind; [apply accountStreamData_ok; [done|split; [lia|done]|done]|]. intros []. apply accepts_get. intros s2.
  eapply accepts_weaken; [intros s [H _]; exact H|intros a s H; exact H|].
  eapply accepts_bind; [apply accepts_aside, aside_receive|]. intros []. apply accepts_modify. intros s H. eapply kept_within; [apply kept_touched|exact H].
Qed.

(** The beginning that both kinds of reset share. *)
Lemma reset_begins id c final msg {A} (k : S.t -> t -> M t A) (Q : A -> t -> Prop) :
  (forall s0, accepts (fun s => within c s /\ flowOf s id = flowOf s0 id) (k (flowOf s0 id) s0) Q) ->
  accepts (within c) (enforceStreamLimit_ id;; streamFlow ← streamFlowControl_ id; s ← get;
    fail_if (finalSizeConflict id (S.m_highestReceivedOffset streamFlow) final s) msg;; k streamFlow s) Q.
Proof.
  intros Hk. eapply accepts_bind; [apply accepts_aside, aside_enforce|]. intros _ s a s' [H Hc] Hrun.
  apply bind_ok in Hrun as (flow & s1 & [= <- <-] & Hrun). apply bind_ok in Hrun as (s2 & s3 & [= <- <-] & Hrun).
  apply bind_ok in Hrun as (u & s4 & Hm & Hrun). unfold fail_if in Hm. destruct (finalSizeConflict _ _ _ _); [done|]. injection Hm as _ <-.
  pose proof (Hk (setFlow id (flowOf s id) s)) as Hk'. rewrite flowOf_set in Hk'. eapply Hk'; [|exact Hrun].
  split; [split; [by apply ledger_touch|exact Hc]|apply flowOf_set].
Qed.

Lemma processResetStreamFrame_ok frame c : SwQuicVarIntCodec.valid (SwQuicFrame.m_finalSize frame) -> 0 <= c <= SwQuicVarIntCodec.maxValue ->
  accepts (within c) (processResetStreamFrame_ frame) (fun _ => within (c + SwQuicFrame.m_finalSize frame)).
Proof.
  intros Hf Hc. unfold processResetStreamFrame_. set (id := SwQuicFrame.m_streamId frame). set (final := SwQuicFrame.m_finalSize frame) in *.
  apply accepts_get. intros s0. unfold SwQuicVarIntCodec.valid in Hf.
  destruct (isRetiredPeerBidirectional_ _ s0); [apply accepts_ret; intros s [[? ?] _]; split; [done|lia]|].
  eapply accepts_weaken; [intros s [H _]; exact H|intros a s H; exact H|]. apply reset_begins. intros s1.
  eapply accepts_bind; [apply (accepts_modify _ _ (fun _ s => within c s /\ flowOf s id = flowOf s1 id))|].
  { intros s [H E]. split; [by eapply kept_within; [|exact H]|exact E]. }
  intros []. eapply accepts_bind; [apply (accepts_modify _ _ (fun _ s => within c s /\ flowOf s id = flowOf s1 id))|].
  { intros s [H E]. split; [by eapply kept_within; [|exact H]|exact E]. }
  intros []. eapply accepts_bind; [by apply accountFinalSize_ok|]. intros [].
  eapply accepts_bind; [apply (accepts_modify _ _ (fun _ => within (c + final)))|].
  { intros s H. apply creditUpTo_ok; [done|lia|lia|lia]. }
  intros []. eapply accepts_bind; [apply (accepts_modify _ _ (fun _ => within (c + final)))|].
  { intros s H. eapply kept_within; [apply kept_touched|exact H]. }
  intros []. apply accepts_modify. intros s. apply retireAcknowledged_ok.
Qed.

(** A reset is taken down, or struck off. *)
Lemma pending_ok id pending c s : 0 <= finalSize pending <= SwQuicVarIntCodec.maxValue -> within c s ->
  within c (set_m_pendingReliableResets (<[id := pending]> (m_pendingReliableResets s)) s).
Proof.
  intros Hp [[L1 L2 L3 L4 L5 L6 L7 L8 L9] Hc]. split; [|exact Hc]. constructor; try done. intros i p. cbn. rewrite lookup_insert_Some.
  intros [[_ <-]|[_ Hi]]; [done|by eapply L9].
Qed.

Lemma processResetStreamAtFrame_ok frame c : SwQuicVarIntCodec.valid (SwQuicFrame.m_finalSize frame) -> 0 <= c <= SwQuicVarIntCodec.maxValue ->
  accepts (within c) (processResetStreamAtFrame_ frame) (fun _ => within (c + SwQuicFrame.m_finalSize frame)).
Proof.
  intros Hf Hc. unfold processResetStreamAtFrame_. set (id := SwQuicFrame.m_streamId frame). set (final := SwQuicFrame.m_finalSize frame) in *.
  eapply accepts_bind; [apply accepts_fail_if|]. intros []. apply accepts_get. intros s0. pose proof Hf as Hf'. unfold SwQuicVarIntCodec.valid in Hf'.
  destruct (isRetiredPeerBidirectional_ _ s0); [apply accepts_ret; intros s [[[? ?] _] _]; split; [done|lia]|].
  eapply accepts_weaken; [intros s [[H _] _]; exact H|intros a s H; exact H|]. apply reset_begins. intros s1.
  eapply accepts_bind; [by apply accountFinalSize_ok|]. intros [].
  eapply accepts_bind; [apply (accepts_modify _ _ (fun _ => within c))|].
  { intros s H. eapply kept_within; [apply set_final_kept|exact H]. }
  intros []. cbv zeta. eapply accepts_bind; [apply (accepts_modify _ _ (fun _ => within c))|].
  { intros s H. apply pending_ok; [cbn; lia|exact H]. }
  intros []. eapply accepts_bind; [apply (accepts_modify _ _ (fun _ => within (c + final)))|].
  { intros s H. destruct (_ =? 0); [|split; [apply H|destruct H; lia]]. apply erasePending_ok, creditUpTo_ok; [by eapply kept_within; [|exact H]|lia..]. }
  intros []. eapply accepts_bind; [apply (accepts_modify _ _ (fun _ => within (c + final)))|].
  { intros s H. eapply kept_within; [apply kept_touched|exact H]. }
  intros []. apply accepts_modify. intros s. apply retireAcknowledged_ok.
Qed.

Lemma completeReliableReset_ok id s c : within c s -> 0 <= c <= 2 * SwQuicVarIntCodec.maxValue ->
  within (c + SwQuicVarIntCodec.maxValue) (completeReliableReset id s).
Proof.
  intros H Hc. assert (within (c + SwQuicVarIntCodec.maxValue) s) as Hmore by (split; [apply H|destruct H; unfold SwQuicVarIntCodec.maxValue; lia]).
  unfold completeReliableReset. destruct (m_pendingReliableResets s !! id) as [pending|] eqn:E; [|done].
  destruct (SwQuicStreamMap.stream id (m_streams s)); [|done]. destruct (_ <=? _); [|done]. cbv zeta.
  pose proof (ld_resets _ (proj1 H) id pending E) as Hp. eapply kept_within; [apply kept_touched|]. apply erasePending_ok.
  set (s1 := set_m_resetStreams _ s). assert (within c s1) as H1 by (by eapply kept_within; [|exact H]). clearbody s1. destruct H1 as [H1 Hc1].
  assert (within c (setFlow id (flowOf s1 id) s1)) as H2 by (split; [by apply ledger_touch|exact Hc1]). clear H1 Hc1.
  set (s2 := setFlow id (flowOf s1 id) s1) in *. clearbody s2.
  destruct (creditUpTo_ok s2 id (finalSize pending) c H2) as [K1 K2]; [lia|lia|lia|]. split; [done|lia].
Qed.

Lemma readStream_ok id s c data s' : within c s -> 0 <= c <= SwQuicVarIntCodec.maxValue -> readStream id s = (Ok data, s') ->
  zlen data <= SwQuicVarIntCodec.maxValue -> within (3 * SwQuicVarIntCodec.maxValue) s'.
Proof.
  intros H Hc Hrun Hd. unfold readStream in Hrun. apply bind_ok in Hrun as (data' & s1 & Hm & Hrun).
  pose proof (accepts_aside _ c (aside_read id) _ _ _ H Hm) as H1. clear Hm H. apply bind_ok in Hrun as (u & s2 & [= _ <-] & Hrun).
  apply bind_ok in Hrun as (u' & s3 & [= _ <-] & Hrun). apply bind_ok in Hrun as (u'' & s4 & [= _ <-] & Hrun). injection Hrun as -> <-.
  apply retireAcknowledged_ok. set (s2 := match data with [] => s1 | _ => _ end).
  assert (within (2 * SwQuicVarIntCodec.maxValue) s2) as H2.
  { unfold SwQuicVarIntCodec.maxValue in *. subst s2. destruct data as [|b data]; [split; [apply H1|destruct H1; lia]|].
    destruct (creditFlowControl_ok s1 id (zlen (b :: data)) c H1) as [K1 K2]; [lia|lia|unfold SwQuicVarIntCodec.maxValue; lia|]. split; [done|lia]. }
  clearbody s2. pose proof (completeReliableReset_ok id s2 _ H2) as H3. unfold SwQuicVarIntCodec.maxValue in *.
  destruct H3 as [K1 K2]; [lia|]. split; [done|lia].
Qed.

Lemma releasePeerBidirectionalStream_ok id c : accepts (within c) (releasePeerBidirectionalStream id) (fun _ => within c).
Proof.
  intros s a s' H. unfold releasePeerBidirectionalStream. m_run. destruct (negb _); [done|]. destruct (SwMap.find _ _) as [send|]; [|done].
  destruct (_ && _); [done|]. destruct (peerCreditPending send); intros [= _ <-]; [done|]. apply retireAcknowledged_ok. by eapply kept_within; [|exact H].
Qed.

Lemma onMaxData_ok frame c s : within c s -> within c (onMaxData frame s).
Proof.
  intros [[L1 L2 L3 L4 L5 L6 L7 L8 L9] Hc]. unfold onMaxData. destruct (_ <? _); (split; [by constructor|done]).
Qed.

Lemma step_ledger s s' : ledger s -> C.m_bytesConsumed (m_connectionFlow s) <= SwQuicVarIntCodec.maxValue -> step s s' -> ledger s'.
Proof.
  intros H Hc Hstep. pose proof (consumed_nonneg s H) as H0. assert (within (C.m_bytesConsumed (m_connectionFlow s)) s) as Hs by by split.
  destruct Hstep as [s s' frame Ho Hd Hrun|s s' frame Hf Hrun|s s' frame Hf Hrun|s frame|s s' id data Hrun Hd|s s' id Hrun|s|s s' Hk].
  - exact (proj1 (processStreamFrame_ok frame _ Ho Hd (conj H0 Hc) s tt s' Hs Hrun)).
  - exact (proj1 (processResetStreamFrame_ok frame _ Hf (conj H0 Hc) s tt s' Hs Hrun)).
  - exact (proj1 (processResetStreamAtFrame_ok frame _ Hf (conj H0 Hc) s tt s' Hs Hrun)).
  - exact (proj1 (onMaxData_ok frame _ s Hs)).
  - exact (proj1 (readStream_ok id s _ data s' Hs (conj H0 Hc) Hrun Hd)).
  - exact (proj1 (releasePeerBidirectionalStream_ok id _ s tt s' Hs Hrun)).
  - exact (proj1 (retireAcknowledged_ok s _ Hs)).
  - by eapply kept_ledger.
Qed.

Lemma reachable_ledger s : reachable s -> ledger s.
Proof.
  induction 1 as [s (W & HW & Hc & Hm & Hp & Hr & Hl)|s s' _ IH Hc Hstep]; [|by eapply step_ledger].
  constructor; unfold total; rewrite ?Hc, ?Hm, ?Hp, ?Hr; try done; cbn; try lia.
Qed.

(** ** Properties *)

(** C27: in every reachable state the receive windows hold at both levels: what has
    arrived on a stream and was not yet credited fits the stream's window, what has
    arrived on the connection fits the connection's, neither counter passes the limit
    that was advertised, and the connection's counters are the sums over all streams, the
    retired ones included: of the highest offsets received, so that data that is sent
    again or overlaps counts once, and of what was credited.  States are reached by
    STREAM, RESET_STREAM and RESET_STREAM_AT frames the connection accepts (offsets and
    final sizes below 2^62), reads, releases, retirements and whatever the rest of the
    connection does, as long as less than 2^62 bytes have been credited. *)
Theorem receive_windows_hold s id : reachable s ->
  let flow := flowOf s id in
  let conn := m_connectionFlow s in
  S.m_highestReceivedOffset flow - S.m_bytesConsumed flow <= S.m_initialWindow flow /\
  S.m_highestReceivedOffset flow <= S.m_maxDataLimit flow /\
  C.m_bytesReceived conn - C.m_bytesConsumed conn <= C.m_initialWindow conn /\
  C.m_bytesReceived conn <= C.m_maxDataLimit conn /\
  C.m_bytesReceived conn = total S.m_highestReceivedOffset s /\
  C.m_bytesConsumed conn = total S.m_bytesConsumed s.
Proof.
  intros H%reachable_ledger. pose proof (flow_ok s id H) as [F1 F2 F3 F4]. pose proof H as [_ _ _ L4 L5 L6 L7 L8 _].
  cbv zeta. split_and!; [lia..|done|done].
Qed.

(** ** Examples *)

(** A server with windows of 100 bytes. *)
Definition example_connection : t :=
  mk Server 100 100 100 (C.make 100) ∅ ∅ 100 100 0 [] SwMap.empty SwMap.empty ∅ [] 0 1048576 1024 ∅ ∅ ∅ SwMap.empty [].

Definition ten_bytes : list byte := replicate 10 Byte.x61.

(** Ten bytes on stream 0, and a reset of stream 4 at five. *)
Definition after_data : t := (processStreamFrame_ (SwQuicFrame.stream 0 0 ten_bytes true) example_connection).2.
Definition after_reset : t := (processResetStreamFrame_ (SwQuicFrame.resetStream 4 7 5) after_data).2.

(** The application reads stream 0, its answer is acknowledged, and it releases it. *)
Definition after_read : t := (readStream 0 after_reset).2.
Definition answered : t := set_m_sendStreams [(0, mkSend 3 true true false false false 3)] after_read.
Definition released : t := (releasePeerBidirectionalStream 0 answered).2.

Lemma run_ok {A} (m : M t A) s (a : A) : (m s).1 = Ok a -> m s = (Ok a, (m s).2).
Proof. destruct (m s). by intros [= ->]. Qed.

Lemma example_initial : initial example_connection.
Proof.
  exists 100. split; [by_eval|]. do 4 (split; [reflexivity|]). intros id. unfold localStreamWindow_, isPeerInitiated, example_connection. simpl.
  repeat case_match; by_eval.
Qed.

Lemma after_data_reachable : reachable after_data.
Proof.
  apply (reach_step example_connection); [apply reach_init, example_initial|vm_compute; discriminate|].
  refine (step_stream _ _ (SwQuicFrame.stream 0 0 ten_bytes true) _ _ (run_ok _ _ _ _)); [split; vm_compute; (discriminate || reflexivity)|vm_compute; discriminate|vm_compute; reflexivity].
Qed.

Lemma after_reset_reachable : reachable after_reset.
Proof.
  apply (reach_step after_data); [apply after_data_reachable|vm_compute; discriminate|].
  refine (step_reset _ _ (SwQuicFrame.resetStream 4 7 5) _ (run_ok _ _ _ _)); [split; vm_compute; (discriminate || reflexivity)|vm_compute; reflexivity].
Qed.

Lemma after_read_reachable : reachable after_read.
Proof.
  apply (reach_step after_reset); [apply after_reset_reachable|vm_compute; discriminate|].
  refine (step_read _ _ 0 ten_bytes (run_ok _ _ _ _) _); [vm_compute; reflexivity|vm_compute; discriminate].
Qed.

Lemma send_kept v s : kept (set_m_sendStreams v s) = kept s.
Proof. done. Qed.

Lemma answered_reachable : reachable answered.
Proof. exact (reach_step _ _ after_read_reachable ltac:(vm_compute; discriminate) (step_other _ _ (send_kept _ after_read))). Qed.

Lemma released_reachable : reachable released.
Proof.
  apply (reach_step answered); [apply answered_reachable|vm_compute; discriminate|].
  refine (step_release _ _ 0 (run_ok _ _ _ _)). vm_compute. reflexivity.
Qed.

(** Stream 0 is gone, and its ten bytes still count. *)
Lemma receive_windows_hold_witness :
  let s := released in
  m_streamFlow s !! 0 = None /\ isRetiredPeerBidirectional_ 0 s = true /\ C.m_bytesReceived (m_connectionFlow s) = 15 /\
  let flow := flowOf s 4 in
  let conn := m_connectionFlow s in
  S.m_highestReceivedOffset flow - S.m_bytesConsumed flow <= S.m_initialWindow flow /\
  S.m_highestReceivedOffset flow <= S.m_maxDataLimit flow /\
  C.m_bytesReceived conn - C.m_bytesConsumed conn <= C.m_initialWindow conn /\
  C.m_bytesReceived conn <= C.m_maxDataLimit conn /\
  C.m_bytesReceived conn = total S.m_highestReceivedOffset s /\
  C.m_bytesConsumed conn = total S.m_bytesConsumed s.
Proof.
  split; [vm_compute; reflexivity|]. split; [vm_compute; reflexivity|]. split; [vm_compute; reflexivity|].
  exact (receive_windows_hold released 4 released_reachable).
Defined.

(** A reset credits what was not read, and what was buffered is credited again when it is
    read: ten bytes arrived, and twenty are consumed. *)
Example credited_twice :
  let s := (processResetStreamFrame_ (SwQuicFrame.resetStream 0 7 10) after_data).2 in
  let s' := (readStream 0 s).2 in
  (readStream 0 s).1 = Ok ten_bytes /\ C.m_bytesReceived (m_connectionFlow s') = 10 /\ C.m_bytesConsumed (m_connectionFlow s') = 20.
Proof. vm_compute. split_and!; reflexivity. Qed.
End ConnectionStreams.
