(* ===== verification/Dplpmtud.v ===== *)
(** Path MTU discovery by dichotomy: src/src/core/io/quic/SwQuicDplpmtud.h. *)
From Stdlib Require Import ZArith Lia.
From stdpp Require Import base list strings numbers.
From S2P Require Import Prelude.

Module SwQuicDplpmtud.

Inductive State := Disabled | Searching | Complete | Error.

#[export] Instance State_eq_decision : EqDecision State.
Proof. solve_decision. Defined.

Definition kBasePmtu : Z := 1200.
Definition kMaxProbes : Z := 3.

Record t := mk {
  m_state : State;
  m_low : Z;
  m_high : Z;
  m_pmtu : Z;
  m_probeSize : Z;
  m_probeCount : Z;
}.

(** The default member initialisers. *)
Definition init : t := mk Disabled kBasePmtu kBasePmtu kBasePmtu 0 0.

Definition start (maxPmtu : Z) (_ : t) : t :=
  let high := if kBasePmtu <? maxPmtu then maxPmtu else kBasePmtu in
  mk (if kBasePmtu <? high then Searching else Complete) kBasePmtu high kBasePmtu 0 0.

Definition candidate_ (s : t) : Z := m_low s + (m_high s - m_low s + 1) / 2.

Definition set_probeSize (size : Z) (s : t) : t :=
  mk (m_state s) (m_low s) (m_high s) (m_pmtu s) size (m_probeCount s).

Definition complete (s : t) : t :=
  mk Complete (m_low s) (m_high s) (m_pmtu s) 0 (m_probeCount s).

Definition advance_ (s : t) : t :=
  if m_high s <=? m_low s then complete s
  else
    let next := candidate_ s in
    if next <=? m_pmtu s then complete s else set_probeSize next s.

Definition nextProbeSize (s : t) : Z * t :=
  if negb (bool_decide (m_state s = Searching)) then (0, s)
  else
    let s := if m_probeSize s =? 0 then set_probeSize (candidate_ s) s else s in
    (m_probeSize s, s).

Definition onProbeAcked (size : Z) (s : t) : t :=
  if negb (size =? m_probeSize s) then s
  else
    advance_ (mk (m_state s) size (m_high s) (if m_pmtu s <? size then size else m_pmtu s) 0 0).

Definition onProbeLost (size : Z) (s : t) : t :=
  if negb (size =? m_probeSize s) then s
  else
    let probeCount := m_probeCount s + 1 in
    if kMaxProbes <=? probeCount
    then advance_ (mk (m_state s) (m_low s) (size - 1) (m_pmtu s) 0 0)
    else mk (m_state s) (m_low s) (m_high s) (m_pmtu s) (m_probeSize s) probeCount.

Definition onBlackholeDetected (s : t) : t :=
  let high := if kBasePmtu <? m_pmtu s then m_pmtu s - 1 else kBasePmtu in
  mk (if kBasePmtu <? high then Searching else Complete) kBasePmtu high kBasePmtu 0 0.

(** ** The search driven by a path that carries datagrams of up to [P] bytes *)

(** One probe, answered by the path. *)
Definition probe (P : Z) (s : t) : t :=
  let (size, s) := nextProbeSize s in
  if size =? 0 then s else if size <=? P then onProbeAcked size s else onProbeLost size s.

Fixpoint search (P : Z) (fuel : nat) (s : t) : t :=
  match fuel with
  | O => s
  | S fuel' => search P fuel' (probe P s)
  end.

(** Between probes: the confirmed size is the lower bound, and the probe under
    way, if any, is the middle of the interval. *)
Record invariant (s : t) : Prop := {
  inv_state : (m_state s = Searching /\ m_low s < m_high s) \/
              (m_state s = Complete /\ m_low s = m_high s /\ m_probeSize s = 0);
  inv_base : kBasePmtu <= m_low s;
  inv_pmtu : m_pmtu s = m_low s;
  inv_probe : m_probeSize s = 0 \/ m_probeSize s = candidate_ s;
  inv_count : 0 <= m_probeCount s < kMaxProbes;
}.

(** What is left of the search: the interval, and the retries of the current probe. *)
Definition measure (s : t) : Z :=
  match m_state s with
  | Searching => 3 * (m_high s - m_low s) + (3 - m_probeCount s)
  | _ => 0
  end.

Lemma candidate_bounds s : m_low s < m_high s -> m_low s < candidate_ s <= m_high s.
Proof.
  unfold candidate_. intros H. pose proof (Z.div_mod (m_high s - m_low s + 1) 2 ltac:(lia)).
  pose proof (Z.mod_pos_bound (m_high s - m_low s + 1) 2 ltac:(lia)). lia.
Qed.

Lemma advance_invariant s :
  m_state s = Searching -> kBasePmtu <= m_low s <= m_high s -> m_pmtu s = m_low s -> m_probeCount s = 0 ->
  m_probeSize s = 0 ->
  invariant (advance_ s) /\ m_low (advance_ s) = m_low s /\ m_high (advance_ s) = m_high s /\
  measure (advance_ s) <= 3 * (m_high s - m_low s) + 3.
Proof.
  intros Hst Hb Hp Hc Hz. unfold advance_. destruct (Z.leb_spec (m_high s) (m_low s)).
  - split; [constructor; simpl; unfold kMaxProbes; (lia || (right; split_and!; (done || lia)) || by left)|].
    simpl. unfold measure; simpl. lia.
  - pose proof (candidate_bounds s ltac:(lia)). destruct (Z.leb_spec (candidate_ s) (m_pmtu s)); [lia|].
    unfold set_probeSize, measure; simpl. rewrite Hst. split_and!; [|done|done|lia].
    constructor; simpl; unfold kMaxProbes, candidate_; simpl; (done || lia || by left; split || by right).
Qed.

(** A probe keeps the invariant and the target inside the interval, and makes progress. *)
Lemma probe_step P s :
  invariant s -> m_low s <= P -> m_state s = Searching ->
  let s' := probe P s in
  invariant s' /\ m_low s' <= P /\
  Z.min P (m_high s') = Z.min P (m_high s) /\ 0 <= measure s' < measure s.
Proof.
  intros [I1 I2 I3 I4 I5] HP Hst s'. unfold kMaxProbes in *.
  destruct I1 as [[_ Hlh]|[Hc _]]; [|congruence]. pose proof (candidate_bounds s Hlh) as Hc.
  assert (exists s1, nextProbeSize s = (candidate_ s, s1) /\ m_state s1 = Searching /\
    m_low s1 = m_low s /\ m_high s1 = m_high s /\ m_pmtu s1 = m_pmtu s /\
    m_probeSize s1 = candidate_ s /\ m_probeCount s1 = m_probeCount s) as (s1 & En & E1 & E2 & E3 & E4 & E5 & E6).
  { unfold nextProbeSize. rewrite bool_decide_eq_true_2 by done. cbn [negb].
    unfold kBasePmtu in *. destruct (Z.eqb_spec (m_probeSize s) 0) as [Hz|Hz].
    - eexists. split; [done|]. done.
    - destruct I4 as [|I4]; [done|]. rewrite I4. by exists s. }
  unfold s', probe. rewrite En. unfold kBasePmtu in *.
  assert (measure s = 3 * (m_high s - m_low s) + (3 - m_probeCount s)) as Em by (unfold measure; by rewrite Hst).
  destruct (Z.eqb_spec (candidate_ s) 0); [lia|]. destruct (Z.leb_spec (candidate_ s) P).
  - unfold onProbeAcked. rewrite E5, Z.eqb_refl. cbn [negb]. rewrite E1, E3, E4.
    set (c := candidate_ s) in *. destruct (Z.ltb_spec (m_pmtu s) c); [|lia].
    destruct (advance_invariant (mk Searching c (m_high s) c 0 0)) as (A1 & A2 & A3 & A4);
      simpl; unfold kBasePmtu; try done; try lia.
    cbn [m_low m_high] in A2, A3, A4. split_and!; [done|lia|by rewrite A3| |lia].
    unfold measure. destruct (inv_state _ A1) as [[-> Hlt]|[-> _]]; [|done]. pose proof (inv_count _ A1). unfold kMaxProbes in *. lia.
  - unfold onProbeLost. rewrite E5, Z.eqb_refl. cbn [negb]. rewrite E1, E2, E3, E4, E6.
    set (c := candidate_ s) in *. unfold kMaxProbes. destruct (Z.leb_spec 3 (m_probeCount s + 1)).
    + destruct (advance_invariant (mk Searching (m_low s) (c - 1) (m_pmtu s) 0 0)) as (A1 & A2 & A3 & A4);
        simpl; unfold kBasePmtu; try done; try lia.
      cbn [m_low m_high] in A2, A3, A4. split_and!; [done|lia|rewrite A3; lia| |lia].
      unfold measure. destruct (inv_state _ A1) as [[-> Hlt]|[-> _]]; [|done]. pose proof (inv_count _ A1). unfold kMaxProbes in *. lia.
    + rewrite Em. unfold measure. simpl. split_and!; try lia.
      constructor; simpl; unfold kMaxProbes, kBasePmtu; try lia; [by left|]. right. done.
Qed.

Lemma search_complete P fuel : forall s,
  invariant s -> m_low s <= P -> measure s <= Z.of_nat fuel ->
  m_state (search P fuel s) = Complete /\ m_pmtu (search P fuel s) = Z.min P (m_high s).
Proof.
  induction fuel as [|fuel IH]; intros s Hi HP Hm; simpl.
  - destruct (inv_state _ Hi) as [[Hst Hlt]|(Hst & Heq & _)].
    + unfold measure in Hm. rewrite Hst in Hm. pose proof (inv_count _ Hi). unfold kMaxProbes in *. lia.
    + rewrite (inv_pmtu _ Hi). split; [done|lia].
  - destruct (inv_state _ Hi) as [[Hst Hlt]|(Hst & Heq & Hz)].
    + destruct (probe_step P s Hi HP Hst) as (P1 & P2 & P3 & P4 & P5).
      destruct (IH (probe P s) P1 P2 ltac:(lia)) as [Q1 Q2]. split; [done|]. by rewrite Q2.
    + assert (probe P s = s) as ->.
      { unfold probe, nextProbeSize. rewrite bool_decide_eq_false_2 by (rewrite Hst; done). done. }
      apply IH; [done|done|]. unfold measure. rewrite Hst. lia.
Qed.

(** ** Properties *)

(** On a path that carries datagrams of up to [P] bytes, at least the QUIC
    minimum of 1200, the dichotomy stops after finitely many probes, retries
    included, and the size it confirms is exactly the largest the path and the
    peer's limit allow. *)
Theorem search_finds_path_mtu P maxPmtu fuel :
  kBasePmtu <= P -> 3 * Z.max 0 (maxPmtu - kBasePmtu) + 3 <= Z.of_nat fuel ->
  let s := search P fuel (start maxPmtu init) in
  m_state s = Complete /\ m_pmtu s = Z.min P (Z.max kBasePmtu maxPmtu).
Proof.
  intros HP Hf s. unfold s. assert (invariant (start maxPmtu init)) as Hi.
  { unfold start, kBasePmtu in *. destruct (Z.ltb_spec 1200 maxPmtu) as [H|H];
      [destruct (Z.ltb_spec 1200 maxPmtu); [|lia]|rewrite Z.ltb_irrefl];
      constructor; simpl; unfold kBasePmtu, kMaxProbes; try lia; (by left) || by right. }
  destruct (search_complete P fuel (start maxPmtu init) Hi) as [H1 H2].
  - done.
  - unfold measure, start, kBasePmtu in *. simpl.
    destruct (Z.ltb_spec 1200 maxPmtu); [destruct (Z.ltb_spec 1200 maxPmtu); [|lia]|rewrite Z.ltb_irrefl]; lia.
  - split; [done|]. rewrite H2. f_equal. unfold start; simpl. unfold kBasePmtu.
    destruct (Z.ltb_spec 1200 maxPmtu); lia.
Qed.

Lemma search_finds_path_mtu_witness :
  let s := search 1437 1000 (start 1500 init) in
  m_state s = Complete /\ m_pmtu s = Z.min 1437 (Z.max kBasePmtu 1500).
Proof. apply (search_finds_path_mtu 1437 1500 1000); by_eval. Defined.

End SwQuicDplpmtud.
