(* ===== verification/TransportParameters.v ===== *)
(** QUIC transport parameters: src/src/core/io/quic/SwQuicTransportParameters.h. *)
From Stdlib Require Import ZArith Lia.
From stdpp Require Import base list strings numbers.
From S2P Require Import Prelude ByteArray Codec VarInt.

Module SwQuicTransportParameters.

Definition idOriginalDestinationConnectionId : Z := 0x00.
Definition idMaxIdleTimeout : Z := 0x01.
Definition idStatelessResetToken : Z := 0x02.
Definition idMaxUdpPayloadSize : Z := 0x03.
Definition idInitialMaxData : Z := 0x04.
Definition idInitialMaxStreamDataBidiLocal : Z := 0x05.
Definition idInitialMaxStreamDataBidiRemote : Z := 0x06.
Definition idInitialMaxStreamDataUni : Z := 0x07.
Definition idInitialMaxStreamsBidi : Z := 0x08.
Definition idInitialMaxStreamsUni : Z := 0x09.
Definition idAckDelayExponent : Z := 0x0a.
Definition idMaxAckDelay : Z := 0x0b.
Definition idDisableActiveMigration : Z := 0x0c.
Definition idActiveConnectionIdLimit : Z := 0x0e.
Definition idInitialSourceConnectionId : Z := 0x0f.
Definition idRetrySourceConnectionId : Z := 0x10.
Definition idResetStreamAt : Z := 0x1d.
Definition idMaxDatagramFrameSize : Z := 0x20.

Record t := mk {
  maxIdleTimeoutMs : Z;
  maxUdpPayloadSize : Z;
  initialMaxData : Z;
  initialMaxStreamDataBidiLocal : Z;
  initialMaxStreamDataBidiRemote : Z;
  initialMaxStreamDataUni : Z;
  initialMaxStreamsBidi : Z;
  initialMaxStreamsUni : Z;
  ackDelayExponent : Z;
  maxAckDelayMs : Z;
  disableActiveMigration : bool;
  activeConnectionIdLimit : Z;
  maxDatagramFrameSize : Z;
  resetStreamAt : bool;
  originalDestinationConnectionId : list byte;
  statelessResetToken : list byte;
  initialSourceConnectionId : list byte;
  retrySourceConnectionId : list byte;
  hasOriginalDestinationConnectionId : bool;
  hasStatelessResetToken : bool;
  hasInitialSourceConnectionId : bool;
  hasRetrySourceConnectionId : bool;
}.

(** The default constructor: the RFC's default values. *)
Definition defaults : t := mk 0 65527 0 0 0 0 0 0 3 25 false 2 0 false [] [] [] [] false false false false.

(** The members a varint parameter can be stored in: what [varIntTarget_] points to. *)
Inductive Target :=
| To_maxIdleTimeoutMs
| To_maxUdpPayloadSize
| To_initialMaxData
| To_initialMaxStreamDataBidiLocal
| To_initialMaxStreamDataBidiRemote
| To_initialMaxStreamDataUni
| To_initialMaxStreamsBidi
| To_initialMaxStreamsUni
| To_ackDelayExponent
| To_maxAckDelayMs
| To_activeConnectionIdLimit
| To_maxDatagramFrameSize.

Definition varIntTarget_ (id : Z) : option Target :=
  if id =? idMaxIdleTimeout then Some To_maxIdleTimeoutMs else
  if id =? idMaxUdpPayloadSize then Some To_maxUdpPayloadSize else
  if id =? idInitialMaxData then Some To_initialMaxData else
  if id =? idInitialMaxStreamDataBidiLocal then Some To_initialMaxStreamDataBidiLocal else
  if id =? idInitialMaxStreamDataBidiRemote then Some To_initialMaxStreamDataBidiRemote else
  if id =? idInitialMaxStreamDataUni then Some To_initialMaxStreamDataUni else
  if id =? idInitialMaxStreamsBidi then Some To_initialMaxStreamsBidi else
  if id =? idInitialMaxStreamsUni then Some To_initialMaxStreamsUni else
  if id =? idAckDelayExponent then Some To_ackDelayExponent else
  if id =? idMaxAckDelay then Some To_maxAckDelayMs else
  if id =? idActiveConnectionIdLimit then Some To_activeConnectionIdLimit else
  if id =? idMaxDatagramFrameSize then Some To_maxDatagramFrameSize else
  None.

(** [*target = value]. *)
Definition store (target : Target) (value : Z) (params : t) : t :=
  let '(mk a b c d e f g h i j k l m n o p q r s u v w) := params in
  match target with
  | To_maxIdleTimeoutMs => mk value b c d e f g h i j k l m n o p q r s u v w
  | To_maxUdpPayloadSize => mk a value c d e f g h i j k l m n o p q r s u v w
  | To_initialMaxData => mk a b value d e f g h i j k l m n o p q r s u v w
  | To_initialMaxStreamDataBidiLocal => mk a b c value e f g h i j k l m n o p q r s u v w
  | To_initialMaxStreamDataBidiRemote => mk a b c d value f g h i j k l m n o p q r s u v w
  | To_initialMaxStreamDataUni => mk a b c d e value g h i j k l m n o p q r s u v w
  | To_initialMaxStreamsBidi => mk a b c d e f value h i j k l m n o p q r s u v w
  | To_initialMaxStreamsUni => mk a b c d e f g value i j k l m n o p q r s u v w
  | To_ackDelayExponent => mk a b c d e f g h value j k l m n o p q r s u v w
  | To_maxAckDelayMs => mk a b c d e f g h i value k l m n o p q r s u v w
  | To_activeConnectionIdLimit => mk a b c d e f g h i j k value m n o p q r s u v w
  | To_maxDatagramFrameSize => mk a b c d e f g h i j k l value n o p q r s u v w
  end.

Definition set_originalDestinationConnectionId (value : list byte) (has : bool) (params : t) : t :=
  let '(mk a b c d e f g h i j k l m n _ p q r _ u v w) := params in
  mk a b c d e f g h i j k l m n value p q r has u v w.

Definition set_statelessResetToken (value : list byte) (has : bool) (params : t) : t :=
  let '(mk a b c d e f g h i j k l m n o _ q r s _ v w) := params in
  mk a b c d e f g h i j k l m n o value q r s has v w.

Definition set_initialSourceConnectionId (value : list byte) (has : bool) (params : t) : t :=
  let '(mk a b c d e f g h i j k l m n o p _ r s u _ w) := params in
  mk a b c d e f g h i j k l m n o p value r s u has w.

Definition set_retrySourceConnectionId (value : list byte) (has : bool) (params : t) : t :=
  let '(mk a b c d e f g h i j k l m n o p q _ s u v _) := params in
  mk a b c d e f g h i j k l m n o p q value s u v has.

Definition set_disableActiveMigration (value : bool) (params : t) : t :=
  let '(mk a b c d e f g h i j _ l m n o p q r s u v w) := params in
  mk a b c d e f g h i j value l m n o p q r s u v w.

Definition set_resetStreamAt (value : bool) (params : t) : t :=
  let '(mk a b c d e f g h i j k l m _ o p q r s u v w) := params in
  mk a b c d e f g h i j k l m value o p q r s u v w.

(** ** Encoding *)

Definition appendBytesParam_ (id : Z) (value : list byte) : Enc unit :=
  SwQuicVarIntCodec.encode id;;
  SwQuicVarIntCodec.encode (SwByteArray.size value);;
  emit_bytes value.

(** The value is encoded in a buffer of its own first. *)
Definition appendVarIntParam_ (id value : Z) : Enc unit := fun out =>
  match SwQuicVarIntCodec.encode value [] with
  | (Ok _, encodedValue) => appendBytesParam_ id encodedValue out
  | (Err e, _) => (Err e, out)
  | (NoFuel, _) => (NoFuel, out)
  end.

Definition appendEmptyParam_ (id : Z) : Enc unit := appendBytesParam_ id [].

Definition when (c : bool) (m : Enc unit) : Enc unit := if c then m else mret tt.

Definition encode (params : t) : Enc unit :=
  put [];;
  when (hasOriginalDestinationConnectionId params) (appendBytesParam_ idOriginalDestinationConnectionId (originalDestinationConnectionId params));;
  when (negb (maxIdleTimeoutMs params =? 0)) (appendVarIntParam_ idMaxIdleTimeout (maxIdleTimeoutMs params));;
  when (hasStatelessResetToken params) (appendBytesParam_ idStatelessResetToken (statelessResetToken params));;
  when (negb (maxUdpPayloadSize params =? 65527)) (appendVarIntParam_ idMaxUdpPayloadSize (maxUdpPayloadSize params));;
  when (negb (initialMaxData params =? 0)) (appendVarIntParam_ idInitialMaxData (initialMaxData params));;
  when (negb (initialMaxStreamDataBidiLocal params =? 0)) (appendVarIntParam_ idInitialMaxStreamDataBidiLocal (initialMaxStreamDataBidiLocal params));;
  when (negb (initialMaxStreamDataBidiRemote params =? 0)) (appendVarIntParam_ idInitialMaxStreamDataBidiRemote (initialMaxStreamDataBidiRemote params));;
  when (negb (initialMaxStreamDataUni params =? 0)) (appendVarIntParam_ idInitialMaxStreamDataUni (initialMaxStreamDataUni params));;
  when (negb (initialMaxStreamsBidi params =? 0)) (appendVarIntParam_ idInitialMaxStreamsBidi (initialMaxStreamsBidi params));;
  when (negb (initialMaxStreamsUni params =? 0)) (appendVarIntParam_ idInitialMaxStreamsUni (initialMaxStreamsUni params));;
  when (negb (ackDelayExponent params =? 3)) (appendVarIntParam_ idAckDelayExponent (ackDelayExponent params));;
  when (negb (maxAckDelayMs params =? 25)) (appendVarIntParam_ idMaxAckDelay (maxAckDelayMs params));;
  when (disableActiveMigration params) (appendEmptyParam_ idDisableActiveMigration);;
  when (negb (activeConnectionIdLimit params =? 2)) (appendVarIntParam_ idActiveConnectionIdLimit (activeConnectionIdLimit params));;
  when (hasInitialSourceConnectionId params) (appendBytesParam_ idInitialSourceConnectionId (initialSourceConnectionId params));;
  when (hasRetrySourceConnectionId params) (appendBytesParam_ idRetrySourceConnectionId (retrySourceConnectionId params));;
  when (resetStreamAt params) (appendEmptyParam_ idResetStreamAt);;
  when (negb (maxDatagramFrameSize params =? 0)) (appendVarIntParam_ idMaxDatagramFrameSize (maxDatagramFrameSize params)).

(** ** Decoding *)

Definition applyDecoded_ (id : Z) (value : list byte) (params : t) : result t :=
  if id =? idOriginalDestinationConnectionId then Ok (set_originalDestinationConnectionId value true params)
  else if id =? idStatelessResetToken then
    if negb (SwByteArray.size value =? 16) then Err "QUIC stateless reset token must be 16 bytes"
    else Ok (set_statelessResetToken value true params)
  else if id =? idInitialSourceConnectionId then Ok (set_initialSourceConnectionId value true params)
  else if id =? idRetrySourceConnectionId then Ok (set_retrySourceConnectionId value true params)
  else if id =? idDisableActiveMigration then
    if negb (SwByteArray.size value =? 0) then Err "QUIC disable_active_migration must be empty"
    else Ok (set_disableActiveMigration true params)
  else if id =? idResetStreamAt then
    if negb (SwByteArray.size value =? 0) then Err "QUIC reset_stream_at must be empty"
    else Ok (set_resetStreamAt true params)
  else
    match varIntTarget_ id with
    | None => Ok params
    | Some target =>
        match SwQuicVarIntCodec.decode value 0 with
        | (Ok decoded, valueOffset) =>
            if negb (valueOffset =? SwByteArray.size value)
            then Err "QUIC transport parameter has trailing bytes"
            else if (id =? idAckDelayExponent) && (20 <? decoded)
            then Err "QUIC ack_delay_exponent must be at most 20"
            else if (id =? idMaxAckDelay) && (16384 <=? decoded)
            then Err "QUIC max_ack_delay must be below 2^14"
            else if (id =? idActiveConnectionIdLimit) && (decoded <? 2)
            then Err "QUIC active_connection_id_limit must be at least 2"
            else if (id =? idMaxUdpPayloadSize) && (decoded <? 1200)
            then Err "QUIC max_udp_payload_size must be at least 1200"
            else Ok (store target decoded params)
        | (Err e, _) => Err e
        | (NoFuel, _) => NoFuel
        end
    end.

(** One entry: identifier, length and value. *)
Definition readEntry (bytes : list byte) : M Z (Z * list byte) :=
  id ← SwQuicVarIntCodec.decode bytes;
  length ← SwQuicVarIntCodec.decode bytes;
  offset ← get;
  fail_if (SwByteArray.size bytes -u offset <? length) "QUIC transport parameter value is truncated";;
  let value := SwByteArray.mid bytes (to_int offset) (to_int length) in
  put (offset +u length);;
  mret (id, value).

(** The loop; every entry takes at least two bytes, so the size bounds it. *)
Fixpoint decode_loop (fuel : nat) (bytes : list byte) (params : t) : M Z t :=
  match fuel with
  | O => out_of_fuel
  | S fuel' =>
      offset ← get;
      if offset <? SwByteArray.size bytes then
        entry ← readEntry bytes;
        match applyDecoded_ entry.1 entry.2 params with
        | Ok params => decode_loop fuel' bytes params
        | Err e => throw e
        | NoFuel => out_of_fuel
        end
      else mret params
  end.

Definition decode (bytes : list byte) : result t :=
  (decode_loop (S (length bytes)) bytes defaults 0).1.

(** ** Well-formed parameters *)

Record wf (params : t) : Prop := {
  wf_maxIdleTimeoutMs : SwQuicVarIntCodec.valid (maxIdleTimeoutMs params);
  wf_maxUdpPayloadSize : SwQuicVarIntCodec.valid (maxUdpPayloadSize params);
  wf_initialMaxData : SwQuicVarIntCodec.valid (initialMaxData params);
  wf_initialMaxStreamDataBidiLocal : SwQuicVarIntCodec.valid (initialMaxStreamDataBidiLocal params);
  wf_initialMaxStreamDataBidiRemote : SwQuicVarIntCodec.valid (initialMaxStreamDataBidiRemote params);
  wf_initialMaxStreamDataUni : SwQuicVarIntCodec.valid (initialMaxStreamDataUni params);
  wf_initialMaxStreamsBidi : SwQuicVarIntCodec.valid (initialMaxStreamsBidi params);
  wf_initialMaxStreamsUni : SwQuicVarIntCodec.valid (initialMaxStreamsUni params);
  wf_ackDelayExponent : SwQuicVarIntCodec.valid (ackDelayExponent params);
  wf_maxAckDelayMs : SwQuicVarIntCodec.valid (maxAckDelayMs params);
  wf_activeConnectionIdLimit : SwQuicVarIntCodec.valid (activeConnectionIdLimit params);
  wf_maxDatagramFrameSize : SwQuicVarIntCodec.valid (maxDatagramFrameSize params);
  wf_exponent : ackDelayExponent params <= 20;
  wf_delay : maxAckDelayMs params < 16384;
  wf_limit : 2 <= activeConnectionIdLimit params;
  wf_udp : 1200 <= maxUdpPayloadSize params;
  wf_token : if hasStatelessResetToken params then SwByteArray.size (statelessResetToken params) = 16
             else statelessResetToken params = [];
  wf_sizes : SwByteArray.size (originalDestinationConnectionId params) <= int_max /\
    SwByteArray.size (initialSourceConnectionId params) <= int_max /\
    SwByteArray.size (retrySourceConnectionId params) <= int_max;
  wf_original : hasOriginalDestinationConnectionId params = false -> originalDestinationConnectionId params = [];
  wf_initialSource : hasInitialSourceConnectionId params = false -> initialSourceConnectionId params = [];
  wf_retrySource : hasRetrySourceConnectionId params = false -> retrySourceConnectionId params = [];
}.

(** The entries [encode] writes, in order. *)
Definition opt {A} (c : bool) (e : A) : list A := if c then [e] else [].

Definition entries (params : t) : list (Z * list byte) :=
  opt (hasOriginalDestinationConnectionId params) (idOriginalDestinationConnectionId, originalDestinationConnectionId params) ++
  opt (negb (maxIdleTimeoutMs params =? 0)) (idMaxIdleTimeout, SwQuicVarIntCodec.wire (maxIdleTimeoutMs params)) ++
  opt (hasStatelessResetToken params) (idStatelessResetToken, statelessResetToken params) ++
  opt (negb (maxUdpPayloadSize params =? 65527)) (idMaxUdpPayloadSize, SwQuicVarIntCodec.wire (maxUdpPayloadSize params)) ++
  opt (negb (initialMaxData params =? 0)) (idInitialMaxData, SwQuicVarIntCodec.wire (initialMaxData params)) ++
  opt (negb (initialMaxStreamDataBidiLocal params =? 0)) (idInitialMaxStreamDataBidiLocal, SwQuicVarIntCodec.wire (initialMaxStreamDataBidiLocal params)) ++
  opt (negb (initialMaxStreamDataBidiRemote params =? 0)) (idInitialMaxStreamDataBidiRemote, SwQuicVarIntCodec.wire (initialMaxStreamDataBidiRemote params)) ++
  opt (negb (initialMaxStreamDataUni params =? 0)) (idInitialMaxStreamDataUni, SwQuicVarIntCodec.wire (initialMaxStreamDataUni params)) ++
  opt (negb (initialMaxStreamsBidi params =? 0)) (idInitialMaxStreamsBidi, SwQuicVarIntCodec.wire (initialMaxStreamsBidi params)) ++
  opt (negb (initialMaxStreamsUni params =? 0)) (idInitialMaxStreamsUni, SwQuicVarIntCodec.wire (initialMaxStreamsUni params)) ++
  opt (negb (ackDelayExponent params =? 3)) (idAckDelayExponent, SwQuicVarIntCodec.wire (ackDelayExponent params)) ++
  opt (negb (maxAckDelayMs params =? 25)) (idMaxAckDelay, SwQuicVarIntCodec.wire (maxAckDelayMs params)) ++
  opt (disableActiveMigration params) (idDisableActiveMigration, []) ++
  opt (negb (activeConnectionIdLimit params =? 2)) (idActiveConnectionIdLimit, SwQuicVarIntCodec.wire (activeConnectionIdLimit params)) ++
  opt (hasInitialSourceConnectionId params) (idInitialSourceConnectionId, initialSourceConnectionId params) ++
  opt (hasRetrySourceConnectionId params) (idRetrySourceConnectionId, retrySourceConnectionId params) ++
  opt (resetStreamAt params) (idResetStreamAt, []) ++
  opt (negb (maxDatagramFrameSize params =? 0)) (idMaxDatagramFrameSize, SwQuicVarIntCodec.wire (maxDatagramFrameSize params)).

Definition entry_wire (e : Z * list byte) : list byte :=
  SwQuicVarIntCodec.wire e.1 ++ SwQuicVarIntCodec.wire (SwByteArray.size e.2) ++ e.2.

Definition wire (es : list (Z * list byte)) : list byte := es ≫= entry_wire.

Definition entry_ok (e : Z * list byte) : Prop :=
  SwQuicVarIntCodec.valid e.1 /\ SwByteArray.size e.2 <= int_max.

(** Applying a list of entries in order. *)
Fixpoint applyAll (es : list (Z * list byte)) (params : t) : result t :=
  match es with
  | [] => Ok params
  | e :: rest =>
      match applyDecoded_ e.1 e.2 params with
      | Ok params => applyAll rest params
      | r => r
      end
  end.

(** ** Entries on the wire *)

Lemma vi_length bs : SwByteArray.size bs <= int_max -> SwQuicVarIntCodec.valid (SwByteArray.size bs).
Proof.
  unfold SwQuicVarIntCodec.valid, SwQuicVarIntCodec.maxValue, int_max.
  pose proof (SwByteArray.size_nonneg bs). lia.
Qed.

Lemma appendBytesParam_emits id value :
  SwQuicVarIntCodec.valid id -> SwByteArray.size value <= int_max ->
  emits (appendBytesParam_ id value) (entry_wire (id, value)) tt.
Proof.
  intros Hid Hv. unfold appendBytesParam_, entry_wire. simpl. apply vi_length in Hv. emit_steps.
Qed.

Lemma size_varint v : SwQuicVarIntCodec.valid v -> 1 <= SwByteArray.size (SwQuicVarIntCodec.wire v) <= 8.
Proof.
  intros Hv. rewrite SwQuicVarIntCodec.size_wire by done.
  unfold SwQuicVarIntCodec.encodedSize, SwQuicVarIntCodec.valid, SwQuicVarIntCodec.maxValue in *. simpl.
  repeat case_match; lia.
Qed.

Lemma appendVarIntParam_emits id v :
  SwQuicVarIntCodec.valid id -> SwQuicVarIntCodec.valid v ->
  emits (appendVarIntParam_ id v) (entry_wire (id, SwQuicVarIntCodec.wire v)) tt.
Proof.
  intros Hid Hv out. unfold appendVarIntParam_. rewrite (SwQuicVarIntCodec.encode_emits v Hv []).
  apply appendBytesParam_emits; [done|]. simpl. pose proof (size_varint v Hv). unfold int_max. lia.
Qed.

Lemma when_emits (c : bool) m e :
  emits m (entry_wire e) tt -> emits (when c m) (wire (opt c e)) tt.
Proof.
  intros H. destruct c; [|apply emits_ret]. assert (wire (opt true e) = entry_wire e) as -> by apply app_nil_r. exact H.
Qed.

Lemma wire_app es1 es2 : wire (es1 ++ es2) = wire es1 ++ wire es2.
Proof. apply bind_app. Qed.

Lemma entry_parses e : entry_ok e -> parses readEntry (entry_wire e) e.
Proof.
  destruct e as [id value]. intros [Hid Hv]. simpl in *. unfold readEntry, entry_wire. simpl.
  eapply parses_bind; [by apply SwQuicVarIntCodec.decode_parses|].
  eapply parses_bind; [by apply SwQuicVarIntCodec.decode_parses, vi_length|].
  intros pre suf Hs. m_run. unfold int_max in *.
  pose proof (SwByteArray.size_nonneg suf). pose proof (SwByteArray.size_nonneg pre).
  pose proof (SwByteArray.size_nonneg value). rewrite !SwByteArray.size_app in *.
  rewrite sub64_small by lia. destruct (Z.ltb_spec (SwByteArray.size pre + (SwByteArray.size value + SwByteArray.size suf) - SwByteArray.size pre) (SwByteArray.size value)); [lia|].
  rewrite add64_small, !to_int_small by lia. by rewrite SwByteArray.mid_middle.
Qed.

Lemma entry_wire_pos e : entry_ok e -> 2 <= SwByteArray.size (entry_wire e).
Proof.
  intros [Hid Hv]. unfold entry_wire. rewrite !SwByteArray.size_app.
  pose proof (size_varint _ Hid). pose proof (size_varint _ (vi_length _ Hv)).
  pose proof (SwByteArray.size_nonneg e.2). lia.
Qed.

(** The decoding loop applies the entries one after the other. *)
Lemma decode_loop_entries es : Forall entry_ok es -> forall pre params params' fuel,
  SwByteArray.size (pre ++ wire es) <= int_max -> (length (wire es) < fuel)%nat ->
  applyAll es params = Ok params' ->
  decode_loop fuel (pre ++ wire es) params (SwByteArray.size pre) =
    (Ok params', SwByteArray.size (pre ++ wire es)).
Proof.
  induction 1 as [|e es He Hes IH]; intros pre params params' fuel Hs Hf Ha;
    (destruct fuel as [|fuel]; [simpl in Hf; lia|]); cbn [decode_loop]; m_run.
  - change (wire []) with (@nil byte). rewrite app_nil_r, Z.ltb_irrefl. by injection Ha as ->.
  - assert (wire (e :: es) = entry_wire e ++ wire es) as Ew by apply bind_cons. rewrite Ew in *.
    pose proof (entry_wire_pos e He). pose proof (SwByteArray.size_nonneg (wire es)).
    destruct (Z.ltb_spec (SwByteArray.size pre) (SwByteArray.size (pre ++ entry_wire e ++ wire es)));
      [|rewrite !SwByteArray.size_app in *; lia].
    rewrite (entry_parses e He pre (wire es) Hs). cbn [applyAll] in Ha.
    destruct (applyDecoded_ e.1 e.2 params) as [q|m|]; [|done..].
    rewrite app_assoc in Hs |- *. apply (IH (pre ++ entry_wire e)); [done| |done].
    rewrite length_app in Hf. unfold SwByteArray.size in *. lia.
Qed.

Lemma applyAll_opt (c : bool) e es p q r :
  (if c then applyDecoded_ e.1 e.2 p else Ok p) = Ok q ->
  applyAll es q = r -> applyAll (opt c e ++ es) p = r.
Proof. destruct c; simpl; [by intros ->|by intros [= ->]]. Qed.

Lemma decode_wire v : SwQuicVarIntCodec.valid v ->
  SwQuicVarIntCodec.decode (SwQuicVarIntCodec.wire v) 0 = (Ok v, SwByteArray.size (SwQuicVarIntCodec.wire v)).
Proof.
  intros Hv. pose proof (SwQuicVarIntCodec.decode_parses v Hv [] []) as H.
  rewrite !app_nil_r in H. apply H. pose proof (size_varint v Hv). simpl. unfold int_max. lia.
Qed.

(** A varint entry stores its value, when it passes its range check. *)
Lemma applyDecoded_varint id target v p :
  varIntTarget_ id = Some target -> SwQuicVarIntCodec.valid v ->
  (id = idAckDelayExponent -> v <= 20) -> (id = idMaxAckDelay -> v < 16384) ->
  (id = idActiveConnectionIdLimit -> 2 <= v) -> (id = idMaxUdpPayloadSize -> 1200 <= v) ->
  applyDecoded_ id (SwQuicVarIntCodec.wire v) p = Ok (store target v p).
Proof.
  intros Ht Hv H1 H2 H3 H4. unfold applyDecoded_. rewrite (decode_wire v Hv), Z.eqb_refl. cbn [negb].
  rewrite Ht.
  repeat match goal with |- context [id =? ?k] => destruct (Z.eqb_spec id k) as [->|] end;
    try discriminate Ht; cbn [andb].
  all: repeat match goal with |- context [Z.ltb ?a ?b] => destruct (Z.ltb_spec a b) | |- context [Z.leb ?a ?b] => destruct (Z.leb_spec a b) end;
    try done; try (specialize (H1 eq_refl)); try (specialize (H2 eq_refl)); try (specialize (H3 eq_refl));
    try (specialize (H4 eq_refl)); lia.
Qed.

Lemma token_size p : wf p -> SwByteArray.size (statelessResetToken p) <= int_max.
Proof.
  intros H. pose proof (wf_token _ H) as Ht. destruct (hasStatelessResetToken p).
  - rewrite Ht. by_eval.
  - rewrite Ht. by_eval.
Qed.

Lemma encode_entries p out0 : wf p -> encode p out0 = (Ok tt, wire (entries p)).
Proof.
  intros H. destruct (wf_sizes _ H) as (H1 & H2 & H3). pose proof (token_size p H).
  unfold encode. refine ((_ : emits _ (wire (entries p)) tt) []). unfold entries. rewrite !wire_app.
  repeat (eapply emits_bind; [apply when_emits|]); [..|apply when_emits].
  all: first [ apply appendBytesParam_emits; [by_eval|done]
             | apply appendVarIntParam_emits; [by_eval|apply H]
             | apply appendBytesParam_emits; by_eval ].
Qed.

Lemma entries_ok p : wf p -> Forall entry_ok (entries p).
Proof.
  intros H. destruct (wf_sizes _ H) as (H1 & H2 & H3). pose proof (token_size p H).
  assert (forall c id v, SwQuicVarIntCodec.valid id -> SwByteArray.size v <= int_max ->
    Forall entry_ok (opt c (id, v))) as Hopt.
  { intros [] id v Hid Hv; [|constructor]. repeat constructor; (apply Hid || exact Hv). }
  assert (forall c id v, SwQuicVarIntCodec.valid id -> SwQuicVarIntCodec.valid v ->
    Forall entry_ok (opt c (id, SwQuicVarIntCodec.wire v))) as Hint.
  { intros c id v Hid Hv. apply Hopt; [done|]. pose proof (size_varint v Hv). unfold int_max. lia. }
  unfold entries. repeat (apply Forall_app; split).
  all: first [ apply Hint; [by_eval|apply H] | apply Hopt; [by_eval|done] | apply Hopt; by_eval ].
Qed.

Lemma step_varint target id v d es p r :
  varIntTarget_ id = Some target -> SwQuicVarIntCodec.valid v ->
  (id = idAckDelayExponent -> v <= 20) -> (id = idMaxAckDelay -> v < 16384) ->
  (id = idActiveConnectionIdLimit -> 2 <= v) -> (id = idMaxUdpPayloadSize -> 1200 <= v) ->
  store target d p = p -> applyAll es (store target v p) = r ->
  applyAll (opt (negb (v =? d)) (id, SwQuicVarIntCodec.wire v) ++ es) p = r.
Proof.
  intros Ht Hv H1 H2 H3 H4 Hd Hr. apply (applyAll_opt _ _ _ _ (store target v p)); [|done].
  destruct (Z.eqb_spec v d) as [->|]; simpl; [by rewrite Hd|]. by apply applyDecoded_varint.
Qed.

Lemma step_bytes set id v (h : bool) es p r :
  (h = false -> v = []) -> (h = true -> applyDecoded_ id v p = Ok (set v true p)) -> set [] false p = p ->
  applyAll es (set v h p) = r -> applyAll (opt h (id, v) ++ es) p = r.
Proof.
  intros Hv Ha Hs Hr. apply (applyAll_opt _ _ _ _ (set v h p)); [|done].
  destruct h; [by apply Ha|]. by rewrite Hv, Hs.
Qed.

Lemma step_flag set id (h : bool) es p r :
  applyDecoded_ id [] p = Ok (set true p) -> set false p = p ->
  applyAll es (set h p) = r -> applyAll (opt h (id, []) ++ es) p = r.
Proof.
  intros Ha Hs Hr. apply (applyAll_opt _ _ _ _ (set h p)); [|done]. destruct h; [done|by rewrite Hs].
Qed.

(** Applied to the defaults, the entries rebuild the parameters. *)
Lemma applyAll_entries p : wf p -> applyAll (entries p) defaults = Ok p.
Proof.
  intros H. rewrite <- (app_nil_r (entries p)). unfold entries. rewrite <- !app_assoc.
  repeat first
    [ eapply step_varint; [reflexivity|apply H|intros _; apply H || (intros E; discriminate E)..|reflexivity|]
    | eapply step_varint; [reflexivity|apply H|(intros E; discriminate E) || (intros _; apply H)..|reflexivity|]
    | eapply step_bytes; [apply H|reflexivity|reflexivity|]
    | eapply (step_bytes set_statelessResetToken);
        [intros E; pose proof (wf_token _ H) as Ht; by rewrite E in Ht
        |intros E; pose proof (wf_token _ H) as Ht; rewrite E in Ht; unfold applyDecoded_; by rewrite Ht
        |reflexivity|]
    | eapply (step_flag set_disableActiveMigration); [reflexivity|reflexivity|]
    | eapply (step_flag set_resetStreamAt); [reflexivity|reflexivity|] ].
  by destruct p.
Qed.

(** ** The decoder on arbitrary input *)

(** Length and value, after the identifier. *)
Lemma entryTail_advances (id : Z) :
  advances (fun bytes =>
    length ← SwQuicVarIntCodec.decode bytes;
    offset ← get;
    fail_if (SwByteArray.size bytes -u offset <? length) "QUIC transport parameter value is truncated";;
    let value := SwByteArray.mid bytes (to_int offset) (to_int length) in
    put (offset +u length);;
    mret (id, value)).
Proof.
  eapply advances_bind_post;
    [apply SwQuicVarIntCodec.decode_advances|apply SwQuicVarIntCodec.decode_returns|intros len Hlen].
  intros p off Hoff Hp. m_run. unfold SwQuicVarIntCodec.valid, u64_modulus in *.
  rewrite sub64_small by lia. destruct (Z.ltb_spec (SwByteArray.size p - off) len); simpl; [split; [lia|done]|].
  rewrite add64_small by lia. split; [lia|done].
Qed.

Lemma readEntry_advances : advances readEntry.
Proof.
  apply advances_bind; [apply SwQuicVarIntCodec.decode_advances|]. apply entryTail_advances.
Qed.

Lemma readEntry_consumes : consumes readEntry.
Proof.
  apply consumes_bind;
    [apply SwQuicVarIntCodec.decode_advances|apply SwQuicVarIntCodec.decode_consumes|].
  apply entryTail_advances.
Qed.

Lemma readEntry_returns bytes off e off' :
  0 <= off <= SwByteArray.size bytes -> SwByteArray.size bytes <= int_max ->
  readEntry bytes off = (Ok e, off') -> SwByteArray.size e.2 <= int_max.
Proof.
  intros Hoff Hb H. unfold readEntry in H. unfold int_max in *.
  bind_inv H. bind_inv Hk. bind_inv Hk0. bind_inv Hk.
  injection Hm1 as <- <-.
  pose proof (SwQuicVarIntCodec.decode_advances bytes off Hoff ltac:(unfold u64_modulus; lia)) as [H1 _].
  rewrite Hm in H1. simpl in H1.
  pose proof (SwQuicVarIntCodec.decode_advances bytes s ltac:(lia) ltac:(unfold u64_modulus; lia)) as [H2 _].
  rewrite Hm0 in H2. simpl in H2.
  pose proof (SwQuicVarIntCodec.decode_returns bytes s a0 s0 ltac:(lia) ltac:(unfold u64_modulus; lia) Hm0) as H3.
  unfold SwQuicVarIntCodec.valid in H3.
  unfold fail_if in Hm2. destruct (Z.ltb_spec (SwByteArray.size bytes -u s0) a0) as [|Hle]; [discriminate Hm2|].
  rewrite sub64_small in Hle by lia. bind_inv Hk0. injection Hk as <- _. simpl.
  pose proof (to_int_le s0 ltac:(lia)). rewrite (to_int_small a0) by lia.
  rewrite SwByteArray.size_mid_le by lia. lia.
Qed.

(** Storing a decoded value that passed its checks keeps the parameters well formed. *)
Lemma applyDecoded_wf id value p q :
  wf p -> SwByteArray.size value <= int_max -> applyDecoded_ id value p = Ok q -> wf q.
Proof.
  intros H Hv Ha. unfold applyDecoded_ in Ha. destruct p. destruct H; simpl in *.
  destruct (Z.eqb_spec id idOriginalDestinationConnectionId); [injection Ha as <-; constructor; simpl; tauto || done|].
  destruct (Z.eqb_spec id idStatelessResetToken).
  { destruct (Z.eqb_spec (SwByteArray.size value) 16); [|discriminate Ha].
    injection Ha as <-. constructor; simpl; tauto || done. }
  destruct (Z.eqb_spec id idInitialSourceConnectionId); [injection Ha as <-; constructor; simpl; tauto || done|].
  destruct (Z.eqb_spec id idRetrySourceConnectionId); [injection Ha as <-; constructor; simpl; tauto || done|].
  destruct (Z.eqb_spec id idDisableActiveMigration).
  { destruct (SwByteArray.size value =? 0); [|discriminate Ha]. injection Ha as <-. constructor; simpl; tauto || done. }
  destruct (Z.eqb_spec id idResetStreamAt).
  { destruct (SwByteArray.size value =? 0); [|discriminate Ha]. injection Ha as <-. constructor; simpl; tauto || done. }
  destruct (varIntTarget_ id) as [target|] eqn:Et; [|injection Ha as <-; constructor; simpl; tauto || done].
  pose proof (SwQuicVarIntCodec.decode_returns value 0) as Hr.
  destruct (SwQuicVarIntCodec.decode value 0) as [[v|e|] o]; [|discriminate Ha..].
  specialize (Hr v o ltac:(pose proof (SwByteArray.size_nonneg value); lia)
    ltac:(unfold int_max, u64_modulus in *; lia) eq_refl).
  destruct (negb _); [discriminate Ha|].
  destruct ((id =? idAckDelayExponent) && _) eqn:E1; [discriminate Ha|].
  destruct ((id =? idMaxAckDelay) && _) eqn:E2; [discriminate Ha|].
  destruct ((id =? idActiveConnectionIdLimit) && _) eqn:E3; [discriminate Ha|].
  destruct ((id =? idMaxUdpPayloadSize) && _) eqn:E4; [discriminate Ha|].
  injection Ha as <-. unfold varIntTarget_ in Et.
  repeat match type of Et with context [id =? ?k] => destruct (Z.eqb_spec id k) as [->|] end;
    [injection Et as <-..|discriminate Et].
  all: simpl in E1, E2, E3, E4; constructor; simpl; (tauto || done || lia).
Qed.

Lemma decode_loop_cases bytes : SwByteArray.size bytes <= int_max -> forall fuel params off,
  0 <= off <= SwByteArray.size bytes -> SwByteArray.size bytes - off < Z.of_nat fuel -> wf params ->
  match (decode_loop fuel bytes params off).1 with
  | Ok q => wf q | Err _ => True | NoFuel => False
  end.
Proof.
  intros Hb. induction fuel as [|fuel IH]; intros params off Hoff Hf Hw; [lia|].
  cbn [decode_loop]. m_run. destruct (off <? SwByteArray.size bytes) eqn:E; [|done].
  assert (SwByteArray.size bytes < u64_modulus) as Hu by (unfold int_max, u64_modulus in *; lia).
  destruct (readEntry_advances bytes off Hoff Hu) as [H1 H2].
  pose proof (readEntry_consumes bytes off) as H3. pose proof (readEntry_returns bytes off) as H4.
  destruct (readEntry bytes off) as [[e|m|] o]; [|done..].
  specialize (H3 e o Hoff Hu eq_refl). specialize (H4 e o Hoff Hb eq_refl). simpl in H1.
  destruct (applyDecoded_ e.1 e.2 params) as [q|m|] eqn:Ea; [|done|].
  - apply IH; [lia|lia|]. by apply (applyDecoded_wf e.1 e.2 params).
  - exfalso. unfold applyDecoded_ in Ea.
    pose proof (SwQuicVarIntCodec.decode_advances e.2 0) as Hd.
    specialize (Hd ltac:(pose proof (SwByteArray.size_nonneg e.2); lia)
      ltac:(unfold int_max, u64_modulus in *; lia)) as [_ Hd].
    destruct (SwQuicVarIntCodec.decode e.2 0) as [[v|m|] vo]; [| |done];
      repeat case_match; discriminate Ea.
Qed.

Lemma defaults_wf : wf defaults.
Proof. constructor; simpl; try done; by_eval. Qed.

(** ** Properties *)

(** Well-formed transport parameters survive the wire: what [encode] writes,
    leaving out every value at its default, [decode] reads back as the same
    parameters. *)
Theorem parameters_roundtrip params out0 :
  wf params -> SwByteArray.size (wire (entries params)) <= int_max ->
  exists bytes, encode params out0 = (Ok tt, bytes) /\ decode bytes = Ok params.
Proof.
  intros H Hs. exists (wire (entries params)). split; [by apply encode_entries|].
  unfold decode. pose proof (decode_loop_entries (entries params) (entries_ok _ H) [] defaults params
    (S (length (wire (entries params)))) Hs ltac:(lia) (applyAll_entries _ H)) as Hd.
  simpl app in Hd. change (SwByteArray.size []) with 0 in Hd. by rewrite Hd.
Qed.

Definition example_parameters : t :=
  mk 30000 1472 1048576 262144 262144 0 100 3 3 25 true 4 1400 true
     [Byte.x01; Byte.x02] [] [Byte.x03] [] true false true false.

Lemma parameters_roundtrip_witness :
  exists bytes, encode example_parameters [] = (Ok tt, bytes) /\ decode bytes = Ok example_parameters.
Proof.
  apply (parameters_roundtrip example_parameters []); [|by_eval].
  constructor; simpl; try reflexivity; try by_eval; intros E; try discriminate E; reflexivity.
Defined.

(** On arbitrary bytes the decoder terminates, and parameters it accepts obey
    the limits of the RFC: ack_delay_exponent at most 20, max_ack_delay below
    2^14, active_connection_id_limit at least 2, max_udp_payload_size at least
    1200, a 16-byte reset token, and 62-bit integers. *)
Theorem decode_accepts_only_valid bytes :
  SwByteArray.size bytes <= int_max ->
  match decode bytes with
  | Ok params => wf params
  | Err _ => True
  | NoFuel => False
  end.
Proof.
  intros Hb. unfold decode. pose proof (SwByteArray.size_nonneg bytes).
  apply decode_loop_cases; [done|lia|unfold SwByteArray.size; lia|apply defaults_wf].
Qed.

Lemma decode_accepts_only_valid_witness :
  decode [Byte.x0a; Byte.x01; Byte.x15] = Err "QUIC ack_delay_exponent must be at most 20" /\
  match decode [Byte.x0a; Byte.x01; Byte.x14] with
  | Ok params => wf params
  | Err _ => True
  | NoFuel => False
  end.
Proof. split; [vm_compute; reflexivity|]. apply (decode_accepts_only_valid [Byte.x0a; Byte.x01; Byte.x14]). by_eval. Defined.

End SwQuicTransportParameters.
