(* ===== verification/PacketHeader.v ===== *)
(** Connection identifiers and long packet headers:
    src/src/core/io/quic/SwQuicConnectionId.h and SwQuicPacketHeader.h. *)
From Stdlib Require Import ZArith Lia.
From stdpp Require Import base list strings numbers.
From S2P Require Import Prelude ByteArray.

Module SwQuicConnectionId.

Definition kMaxLength : Z := 20.

Record t := mk { m_bytes : list byte }.

#[global] Instance t_eq_decision : EqDecision t.
Proof. solve_decision. Defined.

Definition empty : t := mk [].

Definition size (id : t) : Z := SwByteArray.size (m_bytes id).

Definition isEmpty (id : t) : bool := SwByteArray.size (m_bytes id) =? 0.

Definition setBytes (bytes : list byte) : M t unit :=
  fail_if (kMaxLength <? SwByteArray.size bytes) "QUIC connection ID is longer than 20 bytes";;
  put (mk bytes).

(** The constructor from bytes ignores the outcome of [setBytes]. *)
Definition make (bytes : list byte) : t := (setBytes bytes empty).2.

Definition fromBytes (bytes : list byte) : result t :=
  match setBytes bytes empty with
  | (Ok _, id) => Ok id
  | (Err e, _) => Err e
  | (NoFuel, _) => NoFuel
  end.

(** Every identifier the class can hold. *)
Definition wf (id : t) : Prop := size id <= kMaxLength.

Lemma fromBytes_spec bytes :
  fromBytes bytes =
    if SwByteArray.size bytes <=? kMaxLength then Ok (mk bytes)
    else Err "QUIC connection ID is longer than 20 bytes".
Proof. unfold fromBytes, setBytes. m_run. zbool; (done || lia). Qed.

Lemma make_wf bytes : wf (make bytes).
Proof.
  unfold make, setBytes, wf, size. m_run.
  destruct (Z.ltb_spec kMaxLength (SwByteArray.size bytes)); simpl; [done|lia].
Qed.

End SwQuicConnectionId.

Module SwQuicPacketHeader.

Inductive Form := Long | Short.

Inductive LongPacketType := Initial | ZeroRtt | Handshake | Retry | VersionNegotiation | Unknown.

#[global] Instance Form_eq_decision : EqDecision Form.
Proof. solve_decision. Defined.

#[global] Instance LongPacketType_eq_decision : EqDecision LongPacketType.
Proof. solve_decision. Defined.

Record t := mk {
  m_form : Form;
  m_longPacketType : LongPacketType;
  m_version : Z;
  m_destinationConnectionId : SwQuicConnectionId.t;
  m_sourceConnectionId : SwQuicConnectionId.t;
  m_token : list byte;
  m_payloadLength : Z;
  m_packetNumber : Z;
  m_packetNumberLength : Z
}.

Definition make : t :=
  mk Long Initial 1 SwQuicConnectionId.empty SwQuicConnectionId.empty [] 0 0 1.

Definition makeInitial (destinationConnectionId sourceConnectionId : SwQuicConnectionId.t) : t :=
  mk Long Initial (m_version make) destinationConnectionId sourceConnectionId
     (m_token make) (m_payloadLength make) (m_packetNumber make) (m_packetNumberLength make).

Definition setVersion (version : Z) (h : t) : t :=
  mk (m_form h) (m_longPacketType h) version (m_destinationConnectionId h)
     (m_sourceConnectionId h) (m_token h) (m_payloadLength h) (m_packetNumber h)
     (m_packetNumberLength h).

Definition setToken (token : list byte) (h : t) : t :=
  mk (m_form h) (m_longPacketType h) (m_version h) (m_destinationConnectionId h)
     (m_sourceConnectionId h) token (m_payloadLength h) (m_packetNumber h)
     (m_packetNumberLength h).

Definition setPayloadLength (payloadLength : Z) (h : t) : t :=
  mk (m_form h) (m_longPacketType h) (m_version h) (m_destinationConnectionId h)
     (m_sourceConnectionId h) (m_token h) payloadLength (m_packetNumber h)
     (m_packetNumberLength h).

Definition setDecodedPacketNumber (packetNumber : Z) (h : t) : t :=
  mk (m_form h) (m_longPacketType h) (m_version h) (m_destinationConnectionId h)
     (m_sourceConnectionId h) (m_token h) (m_payloadLength h) packetNumber
     (m_packetNumberLength h).

Definition set_packetNumberLength (packetNumberLength : Z) (h : t) : t :=
  mk (m_form h) (m_longPacketType h) (m_version h) (m_destinationConnectionId h)
     (m_sourceConnectionId h) (m_token h) (m_payloadLength h) (m_packetNumber h)
     packetNumberLength.

Definition maxPacketNumberForLength_ (packetNumberLength : Z) : Z :=
  if 8 <=? packetNumberLength then 0xffffffffffffffff
  else shl64 1 (packetNumberLength * 8) -u 1.

Definition setPacketNumber (packetNumber : Z) : M t unit :=
  h ← get;
  fail_if (maxPacketNumberForLength_ (m_packetNumberLength h) <? packetNumber)
    "QUIC packet number does not fit packet number length";;
  put (setDecodedPacketNumber packetNumber h).

Definition setPacketNumberLength (packetNumberLength : Z) : M t unit :=
  fail_if ((packetNumberLength <? 1) || (4 <? packetNumberLength))
    "QUIC packet number length must be between 1 and 4 bytes";;
  h ← get;
  fail_if (maxPacketNumberForLength_ packetNumberLength <? m_packetNumber h)
    "QUIC packet number does not fit requested length";;
  put (set_packetNumberLength packetNumberLength h).

(** The class invariant the two guarded setters maintain: 1 to 4 bytes, and a
    number they can carry. *)
Definition number_ok (h : t) : Prop :=
  1 <= m_packetNumberLength h <= 4 /\
  0 <= m_packetNumber h < 256 ^ m_packetNumberLength h.

Lemma maxPacketNumber_spec n : 1 <= n <= 4 -> maxPacketNumberForLength_ n = 256 ^ n - 1.
Proof. intros H. assert (n = 1 \/ n = 2 \/ n = 3 \/ n = 4) as [-> | [-> | [-> | ->]]] by lia; done. Qed.

Lemma make_number_ok : number_ok make.
Proof. unfold number_ok. simpl. lia. Qed.

Lemma setPacketNumber_number_ok n h :
  number_ok h -> 0 <= n -> number_ok (setPacketNumber n h).2.
Proof.
  intros (Hl & Hn) H0. unfold setPacketNumber. m_run.
  rewrite maxPacketNumber_spec by done. zbool; split; simpl; lia.
Qed.

Lemma setPacketNumberLength_number_ok n h :
  number_ok h -> number_ok (setPacketNumberLength n h).2.
Proof.
  intros Ho. unfold setPacketNumberLength. m_run.
  destruct (Z.ltb_spec n 1), (Z.ltb_spec 4 n); try done; simpl.
  rewrite maxPacketNumber_spec by lia. destruct Ho as (Hl & Hn).
  zbool; simpl; split; simpl; lia.
Qed.

End SwQuicPacketHeader.
