(* ===== verification/PacketCodec.v ===== *)
(** The Initial packet codec and packet-number expansion:
    src/src/core/io/quic/SwQuicPacketCodec.h. *)
From Stdlib Require Import ZArith Lia Strings.Byte.
From stdpp Require Import base list strings numbers.
From S2P Require Import Prelude ByteArray Codec VarInt PacketHeader.

Module SwQuicPacketCodec.

Import SwQuicPacketHeader.

(** ** Encoding *)

Definition appendU32_ (value : Z) : Enc unit :=
  emit_byte (Z.land (Z.shiftr value 24) 0xff);;
  emit_byte (Z.land (Z.shiftr value 16) 0xff);;
  emit_byte (Z.land (Z.shiftr value 8) 0xff);;
  emit_byte (Z.land value 0xff).

(** The loop of [appendPacketNumber_]: bytes [i .. packetNumberLength-1]. *)
Fixpoint appendPacketNumber_loop (header : t) (i : Z) (todo : nat) : Enc unit :=
  match todo with
  | O => mret tt
  | S todo' =>
      let shift := (m_packetNumberLength header - 1 - i) * 8 in
      emit_byte (Z.land (Z.shiftr (m_packetNumber header) shift) 0xff);;
      appendPacketNumber_loop header (i + 1) todo'
  end.

Definition appendPacketNumber_ (header : t) : Enc unit :=
  fail_if ((m_packetNumberLength header <? 1) || (4 <? m_packetNumberLength header))
    "Invalid QUIC packet number length";;
  appendPacketNumber_loop header 0 (Z.to_nat (m_packetNumberLength header)).

(** [encodeInitialPacket] after its guards and [outPacket.clear()]. *)
Definition encodeInitial_fields (header : t) (payload : list byte) (encodedPayloadLength : Z) :
    Enc unit :=
  emit_byte (Z.lor 0xc0 (m_packetNumberLength header - 1));;
  appendU32_ (m_version header);;
  emit_byte (SwQuicConnectionId.size (m_destinationConnectionId header));;
  emit_bytes (SwQuicConnectionId.m_bytes (m_destinationConnectionId header));;
  emit_byte (SwQuicConnectionId.size (m_sourceConnectionId header));;
  emit_bytes (SwQuicConnectionId.m_bytes (m_sourceConnectionId header));;
  SwQuicVarIntCodec.encode (SwByteArray.size (m_token header));;
  emit_bytes (m_token header);;
  SwQuicVarIntCodec.encode encodedPayloadLength;;
  appendPacketNumber_ header;;
  emit_bytes payload.

Definition encodeInitialPacket (header : t) (payload : list byte) : Enc unit :=
  fail_if (negb (bool_decide (m_form header = Long)) ||
           negb (bool_decide (m_longPacketType header = Initial)))
    "Only QUIC Initial long packets can be encoded";;
  fail_if ((255 <? SwQuicConnectionId.size (m_destinationConnectionId header)) ||
           (255 <? SwQuicConnectionId.size (m_sourceConnectionId header)))
    "QUIC connection ID length does not fit long header";;
  fail_if (u64_max - m_packetNumberLength header <? SwByteArray.size payload)
    "QUIC packet payload is too large";;
  let encodedPayloadLength := SwByteArray.size payload +u m_packetNumberLength header in
  put [];;
  encodeInitial_fields header payload encodedPayloadLength.

(** ** Decoding *)

Definition readByte_ (bytes : list byte) : M Z Z :=
  offset ← get;
  fail_if (SwByteArray.size bytes <=? offset) "QUIC packet is truncated";;
  put (offset +u 1);;
  mret (SwByteArray.byteAt bytes offset).

Definition readU32_ (bytes : list byte) : M Z Z :=
  offset ← get;
  fail_if (SwByteArray.size bytes -u offset <? 4) "QUIC packet version is truncated";;
  put (offset +u 4);;
  mret (Z.lor (Z.lor (Z.lor
    (Z.shiftl (SwByteArray.byteAt bytes offset) 24)
    (Z.shiftl (SwByteArray.byteAt bytes (offset + 1)) 16))
    (Z.shiftl (SwByteArray.byteAt bytes (offset + 2)) 8))
    (SwByteArray.byteAt bytes (offset + 3))).

Definition readSlice_ (bytes : list byte) (length : Z) : M Z (list byte) :=
  offset ← get;
  fail_if (SwByteArray.size bytes -u offset <? length) "QUIC packet field is truncated";;
  put (offset +u length);;
  mret (SwByteArray.mid bytes (to_int offset) (to_int length)).

(** The loop of [readPacketNumber_]: [todo] bytes from [offset + i]. *)
Fixpoint readPacketNumber_loop (packet : list byte) (offset i : Z) (todo : nat) (packetNumber : Z) : Z :=
  match todo with
  | O => packetNumber
  | S todo' =>
      readPacketNumber_loop packet offset (i + 1) todo'
        (Z.lor (shl64 packetNumber 8) (SwByteArray.byteAt packet (offset + i)))
  end.

Definition readPacketNumber_ (packet : list byte) (packetNumberLength : Z) : M Z Z :=
  offset ← get;
  fail_if (SwByteArray.size packet -u offset <? packetNumberLength) "QUIC packet number is truncated";;
  put (offset +u packetNumberLength);;
  mret (readPacketNumber_loop packet offset 0 (Z.to_nat packetNumberLength) 0).

(** The fields before the payload length: first byte, version, both connection
    identifiers and the token. *)
Definition decodeInitial_prefix (packet : list byte) :
    M Z (Z * Z * SwQuicConnectionId.t * SwQuicConnectionId.t * list byte) :=
  firstByte ← readByte_ packet;
  fail_if (Z.land firstByte 0x80 =? 0) "QUIC packet is not a long header packet";;
  fail_if (Z.land firstByte 0x40 =? 0) "QUIC fixed bit is not set";;
  fail_if (negb (Z.land firstByte 0x30 =? 0)) "QUIC packet is not an Initial packet";;
  version ← readU32_ packet;
  dcidLength ← readByte_ packet;
  dcidBytes ← readSlice_ packet dcidLength;
  scidLength ← readByte_ packet;
  scidBytes ← readSlice_ packet scidLength;
  destinationConnectionId ← of_result (SwQuicConnectionId.fromBytes dcidBytes);
  sourceConnectionId ← of_result (SwQuicConnectionId.fromBytes scidBytes);
  tokenLength ← SwQuicVarIntCodec.decode packet;
  offset ← get;
  fail_if (SwByteArray.size packet -u offset <? tokenLength) "QUIC Initial token is truncated";;
  token ← readSlice_ packet tokenLength;
  mret (firstByte, version, destinationConnectionId, sourceConnectionId, token).

(** The two guarded setters of the decoded header. *)
Definition decodeInitial_header (version : Z) (dcid scid : SwQuicConnectionId.t) (token : list byte)
    (payloadLength packetNumberLength packetNumber : Z) : result t :=
  let header := setPayloadLength payloadLength
    (setToken token (setVersion version (makeInitial dcid scid))) in
  match (setPacketNumberLength packetNumberLength;; setPacketNumber packetNumber) header with
  | (Ok _, header) => Ok header
  | (Err e, _) => Err e
  | (NoFuel, _) => NoFuel
  end.

(** The packet number, the payload and the header they complete, the payload
    length having been checked. *)
Definition decodeInitial_body (packet : list byte) (version : Z) (dcid scid : SwQuicConnectionId.t)
    (token : list byte) (encodedPayloadLength packetNumberLength : Z) : M Z (t * list byte * Z) :=
  offset ← get;
  let packetEnd := offset +u encodedPayloadLength in
  packetNumber ← readPacketNumber_ packet packetNumberLength;
  let payloadLength := encodedPayloadLength -u packetNumberLength in
  payload ← readSlice_ packet payloadLength;
  header ← of_result (decodeInitial_header version dcid scid token payloadLength
                        packetNumberLength packetNumber);
  mret (header, payload, packetEnd).

Definition decodeInitial_ (hasOutConsumed : bool) (packet : list byte) : M Z (t * list byte * Z) :=
  '(firstByte, version, dcid, scid, token) ← decodeInitial_prefix packet;
  encodedPayloadLength ← SwQuicVarIntCodec.decode packet;
  let packetNumberLength := Z.land firstByte 0x03 + 1 in
  fail_if (encodedPayloadLength <? packetNumberLength)
    "QUIC payload length is shorter than packet number";;
  offset ← get;
  fail_if (SwByteArray.size packet -u offset <? encodedPayloadLength) "QUIC payload is truncated";;
  fail_if (negb hasOutConsumed && negb (encodedPayloadLength =? SwByteArray.size packet -u offset))
    "QUIC coalesced packet decoding is not implemented";;
  decodeInitial_body packet version dcid scid token encodedPayloadLength packetNumberLength.

(** The header, the payload and the number of bytes consumed. *)
Definition decodeInitialPacket (packet : list byte) (hasOutConsumed : bool) :
    result (t * list byte * Z) :=
  (decodeInitial_ hasOutConsumed packet 0).1.

(** ** Packet-number expansion (RFC 9000 appendix A.3) *)

Definition expandPacketNumber (largestReceived : Z) (hasLargestReceived : bool)
    (truncated packetNumberLength : Z) : Z :=
  if negb hasLargestReceived then truncated
  else
    let pnNbits := packetNumberLength *u 8 in
    let expectedPn := largestReceived +u 1 in
    let pnWin := shl64 1 pnNbits in
    let pnHwin := pnWin / 2 in
    let pnMask := pnWin -u 1 in
    let candidate := Z.lor (Z.land expectedPn (wrap64 (Z.lnot pnMask))) truncated in
    if (candidate +u pnHwin <=? expectedPn) && (candidate <? shl64 1 62 -u pnWin)
    then candidate +u pnWin
    else if (expectedPn +u pnHwin <? candidate) && (pnWin <=? candidate)
    then candidate -u pnWin
    else candidate.

(** ** Wire form *)

(** A header [encodeInitialPacket] accepts. *)
Record wf (h : t) : Prop := {
  wf_form : m_form h = Long;
  wf_type : m_longPacketType h = Initial;
  wf_version : 0 <= m_version h < 2 ^ 32;
  wf_dcid : SwQuicConnectionId.wf (m_destinationConnectionId h);
  wf_scid : SwQuicConnectionId.wf (m_sourceConnectionId h);
  wf_number : number_ok h
}.

Definition prefix_wire (h : t) : list byte :=
  [z2b (Z.lor 0xc0 (m_packetNumberLength h - 1))] ++ be_bytes 4 (m_version h) ++
  [z2b (SwQuicConnectionId.size (m_destinationConnectionId h))] ++
  SwQuicConnectionId.m_bytes (m_destinationConnectionId h) ++
  [z2b (SwQuicConnectionId.size (m_sourceConnectionId h))] ++
  SwQuicConnectionId.m_bytes (m_sourceConnectionId h) ++
  SwQuicVarIntCodec.wire (SwByteArray.size (m_token h)) ++ m_token h.

Definition body_wire (h : t) (payload : list byte) : list byte :=
  be_bytes (Z.to_nat (m_packetNumberLength h)) (m_packetNumber h) ++ payload.

Definition initial_wire (h : t) (payload : list byte) : list byte :=
  prefix_wire h ++
  SwQuicVarIntCodec.wire (SwByteArray.size payload + m_packetNumberLength h) ++
  body_wire h payload.

(** ** Steps *)

Lemma packet_readByte_parses b : parses readByte_ [b] (b2z b).
Proof.
  intros pre suf Hs. unfold readByte_. m_run.
  pose proof (SwByteArray.size_nonneg suf). pose proof (SwByteArray.size_nonneg pre).
  rewrite SwByteArray.byteAt_head. rewrite !SwByteArray.size_app in *.
  change (SwByteArray.size [b]) with 1 in *. unfold int_max in Hs.
  destruct (_ <=? _) eqn:E; [lia|]. by rewrite add64_small by lia.
Qed.

Lemma packet_readByte_parses_z v : 0 <= v < 256 -> parses readByte_ [z2b v] v.
Proof. intros H. rewrite <- (b2z_z2b_small v) at 2 by done. apply packet_readByte_parses. Qed.

Lemma packet_readByte_returns : returns readByte_ (fun v => 0 <= v < 256).
Proof.
  intros p off a off' _ _ H. unfold readByte_ in H. bind_inv H. bind_inv Hk. bind_inv Hk0.
  injection Hk as <- _. apply SwByteArray.byteAt_range.
Qed.

Lemma packet_readByte_advances : advances readByte_.
Proof.
  intros p off Hoff Hp. unfold readByte_. m_run. unfold u64_modulus in Hp.
  destruct (_ <=? _) eqn:E; simpl; [split; [lia|done]|].
  rewrite add64_small by lia. split; [lia|done].
Qed.

Lemma packet_readSlice_parses bs n : SwByteArray.size bs = n -> parses (fun p => readSlice_ p n) bs bs.
Proof.
  intros <- pre suf Hs. unfold readSlice_. m_run.
  pose proof (SwByteArray.size_nonneg suf). pose proof (SwByteArray.size_nonneg pre).
  pose proof (SwByteArray.size_nonneg bs).
  rewrite !SwByteArray.size_app in *. unfold int_max in *.
  rewrite sub64_small by lia. destruct (_ <? _) eqn:E; [lia|].
  rewrite add64_small, !to_int_small by lia. by rewrite SwByteArray.mid_middle.
Qed.

Lemma packet_readSlice_advances len : 0 <= len -> advances (fun p => readSlice_ p len).
Proof.
  intros Hl p off Hoff Hp. unfold readSlice_. m_run.
  unfold u64_modulus in Hp. rewrite sub64_small by lia.
  destruct (_ - off <? len) eqn:E; simpl; [split; [lia|done]|].
  rewrite add64_small by lia. split; [lia|done].
Qed.

Lemma appendU32_emits v : 0 <= v < 2 ^ 32 -> emits (appendU32_ v) (be_bytes 4 v) tt.
Proof.
  intros Hv. replace (be_bytes 4 v) with
    ([z2b (Z.shiftr v 24)] ++ [z2b (Z.shiftr v 16)] ++ [z2b (Z.shiftr v 8)] ++ [z2b v]).
  - unfold appendU32_. eapply emits_bind; [apply emits_byte_eq, z2b_land_255|].
    eapply emits_bind; [apply emits_byte_eq, z2b_land_255|].
    eapply emits_bind; [apply emits_byte_eq, z2b_land_255|].
    apply emits_byte_eq, z2b_land_255.
  - rewrite !Z.shiftr_div_pow2 by lia. simpl. rewrite !Z.div_div by lia. done.
Qed.

Lemma readU32_parses bs : length bs = 4%nat -> parses readU32_ bs (be_value bs).
Proof.
  intros Hl pre suf Hs. destruct bs as [|a [|b [|c [|d [|]]]]]; try discriminate Hl.
  unfold readU32_. m_run.
  pose proof (SwByteArray.size_nonneg suf). pose proof (SwByteArray.size_nonneg pre).
  rewrite !SwByteArray.size_app in *. change (SwByteArray.size [a; b; c; d]) with 4 in *.
  unfold int_max in Hs. rewrite sub64_small, add64_small by lia.
  destruct (_ <? _) eqn:E; [lia|]. do 2 f_equal.
  rewrite SwByteArray.byteAt_head.
  replace (pre ++ [a; b; c; d] ++ suf) with ((pre ++ [a]) ++ b :: ([c; d] ++ suf)) at 1
    by by rewrite <- app_assoc.
  replace (pre ++ [a; b; c; d] ++ suf) with ((pre ++ [a; b]) ++ c :: (d :: suf)) at 1
    by by rewrite <- app_assoc.
  replace (pre ++ [a; b; c; d] ++ suf) with ((pre ++ [a; b; c]) ++ d :: suf) at 1
    by by rewrite <- app_assoc.
  replace (SwByteArray.size pre + 1) with (SwByteArray.size (pre ++ [a])) by by rewrite SwByteArray.size_app.
  replace (SwByteArray.size pre + 2) with (SwByteArray.size (pre ++ [a; b])) by by rewrite SwByteArray.size_app.
  replace (SwByteArray.size pre + 3) with (SwByteArray.size (pre ++ [a; b; c])) by by rewrite SwByteArray.size_app.
  rewrite !SwByteArray.byteAt_middle, !be_value_cons.
  change (be_value []) with 0. simpl length.
  change (256 ^ Z.of_nat 3) with (2 ^ 24). change (256 ^ Z.of_nat 2) with (2 ^ 16).
  change (256 ^ Z.of_nat 1) with (2 ^ 8). change (256 ^ Z.of_nat 0) with 1.
  rewrite !Z.shiftl_mul_pow2 by lia.
  pose proof (b2z_range a). pose proof (b2z_range b). pose proof (b2z_range c). pose proof (b2z_range d).
  rewrite (Z.lor_comm (b2z a * _)). rewrite (lor_disjoint (b2z b * 2 ^ 16) (b2z a * 2 ^ 24) (b2z a) 24) by lia.
  rewrite (Z.lor_comm (_ + _)).
  rewrite (lor_disjoint (b2z c * 2 ^ 8) (b2z b * 2 ^ 16 + b2z a * 2 ^ 24) (b2z b + b2z a * 2 ^ 8) 16) by lia.
  rewrite Z.lor_comm.
  rewrite (lor_disjoint (b2z d) _ (b2z c + b2z b * 2 ^ 8 + b2z a * 2 ^ 16) 8) by lia. lia.
Qed.

Lemma readU32_advances : advances readU32_.
Proof.
  intros p off Hoff Hp. unfold readU32_. m_run. unfold u64_modulus in Hp.
  rewrite sub64_small by lia. destruct (_ <? _) eqn:E; simpl; [split; [lia|done]|].
  rewrite add64_small by lia. split; [lia|done].
Qed.

(** The two packet-number loops are those of the variable-length integers. *)
Lemma appendPacketNumber_loop_eq h todo : forall i,
  appendPacketNumber_loop h i todo =
    SwQuicVarIntCodec.appendBigEndian_from (m_packetNumber h) (m_packetNumberLength h) i todo.
Proof. induction todo as [|todo IH]; intros i; [done|]. cbn. by rewrite IH. Qed.

Lemma readPacketNumber_loop_eq p off todo : forall i e,
  readPacketNumber_loop p off i todo e = SwQuicVarIntCodec.accumulate p off i todo e.
Proof. induction todo as [|todo IH]; intros i e; [done|]. cbn. by rewrite IH. Qed.

Lemma appendPacketNumber_emits h :
  number_ok h ->
  emits (appendPacketNumber_ h) (be_bytes (Z.to_nat (m_packetNumberLength h)) (m_packetNumber h)) tt.
Proof.
  intros [Hl _]. unfold appendPacketNumber_. apply emits_check; [zbool; done || lia|].
  rewrite appendPacketNumber_loop_eq. apply SwQuicVarIntCodec.appendBigEndian_from_emits. lia.
Qed.

Lemma readPacketNumber_parses n v :
  1 <= n <= 4 -> 0 <= v < 256 ^ n ->
  parses (fun p => readPacketNumber_ p n) (be_bytes (Z.to_nat n) v) v.
Proof.
  intros Hn Hv pre suf Hs. unfold readPacketNumber_. m_run.
  pose proof (SwByteArray.size_nonneg suf). pose proof (SwByteArray.size_nonneg pre).
  rewrite !SwByteArray.size_app in *.
  assert (SwByteArray.size (be_bytes (Z.to_nat n) v) = n) as Hb
    by (unfold SwByteArray.size; rewrite length_be_bytes; lia).
  rewrite Hb in *. unfold int_max in Hs. rewrite sub64_small, add64_small by lia.
  destruct (_ <? _) eqn:E; [lia|]. do 2 f_equal.
  rewrite readPacketNumber_loop_eq. rewrite <- (length_be_bytes (Z.to_nat n) v) at 2.
  rewrite SwQuicVarIntCodec.accumulate_be_value by (rewrite length_be_bytes; lia).
  apply be_value_be_bytes. by rewrite Z2Nat.id by lia.
Qed.

Lemma readPacketNumber_advances n : 0 <= n -> advances (fun p => readPacketNumber_ p n).
Proof.
  intros Hl p off Hoff Hp. unfold readPacketNumber_. m_run.
  unfold u64_modulus in Hp. rewrite sub64_small by lia.
  destruct (_ - off <? n) eqn:E; simpl; [split; [lia|done]|].
  rewrite add64_small by lia. split; [lia|done].
Qed.
Lemma first_byte n : 1 <= n <= 4 ->
  let b := Z.lor 0xc0 (n - 1) in
  0 <= b < 256 /\ Z.land b 0x80 <> 0 /\ Z.land b 0x40 <> 0 /\ Z.land b 0x30 = 0 /\ Z.land b 0x03 + 1 = n.
Proof. intros H. assert (n = 1 \/ n = 2 \/ n = 3 \/ n = 4) as [-> | [-> | [-> | ->]]] by lia; by_eval. Qed.

Lemma wf_size_range id : SwQuicConnectionId.wf id -> 0 <= SwQuicConnectionId.size id < 256.
Proof.
  unfold SwQuicConnectionId.wf, SwQuicConnectionId.size, SwQuicConnectionId.kMaxLength.
  pose proof (SwByteArray.size_nonneg (SwQuicConnectionId.m_bytes id)). lia.
Qed.

Lemma fromBytes_ok id : SwQuicConnectionId.wf id ->
  SwQuicConnectionId.fromBytes (SwQuicConnectionId.m_bytes id) = Ok id.
Proof.
  intros H. rewrite SwQuicConnectionId.fromBytes_spec. unfold SwQuicConnectionId.wf in H.
  unfold SwQuicConnectionId.size in H. destruct id as [bytes]. simpl in *.
  destruct (Z.leb_spec (SwByteArray.size bytes) SwQuicConnectionId.kMaxLength); [done|lia].
Qed.

Lemma fromBytes_fuel bytes : SwQuicConnectionId.fromBytes bytes <> NoFuel.
Proof. rewrite SwQuicConnectionId.fromBytes_spec. by destruct (_ <=? _). Qed.

Lemma prefix_parses h : wf h -> SwQuicVarIntCodec.valid (SwByteArray.size (m_token h)) ->
  parses decodeInitial_prefix (prefix_wire h)
    (Z.lor 0xc0 (m_packetNumberLength h - 1), m_version h, m_destinationConnectionId h,
     m_sourceConnectionId h, m_token h).
Proof.
  intros [_ _ Hv Hd Hs [Hn _]] Ht. destruct (first_byte _ Hn) as (Hb & H8 & H4 & H3 & _).
  pose proof (readU32_parses (be_bytes 4 (m_version h)) (length_be_bytes 4 _)) as Hu.
  rewrite be_value_be_bytes in Hu by (change (256 ^ Z.of_nat 4) with (2 ^ 32); lia).
  unfold decodeInitial_prefix, prefix_wire.
  eapply parses_bind; [by apply packet_readByte_parses_z|].
  apply parses_check; [by apply Z.eqb_neq|]. apply parses_check; [by apply Z.eqb_neq|].
  apply parses_check; [by rewrite H3|].
  eapply parses_bind; [exact Hu|].
  eapply parses_bind; [by apply packet_readByte_parses_z, wf_size_range|].
  eapply parses_bind; [by apply packet_readSlice_parses|].
  eapply parses_bind; [by apply packet_readByte_parses_z, wf_size_range|].
  eapply parses_bind; [by apply packet_readSlice_parses|].
  eapply parses_of_result; [by apply fromBytes_ok|].
  eapply parses_of_result; [by apply fromBytes_ok|].
  eapply parses_bind; [by apply SwQuicVarIntCodec.decode_parses|].
  apply parses_check_rest; [lia|].
  eapply parses_bind_last; [by apply packet_readSlice_parses|]. apply parses_ret.
Qed.

Lemma decodeInitial_header_ok v d s tok len n pn :
  1 <= n <= 4 -> 0 <= pn < 256 ^ n ->
  decodeInitial_header v d s tok len n pn = Ok (mk Long Initial v d s tok len pn n).
Proof.
  intros Hn Hp. unfold decodeInitial_header, setPacketNumberLength, setPacketNumber.
  m_run. simpl. rewrite maxPacketNumber_spec by done.
  destruct (Z.ltb_spec n 1); [lia|]. destruct (Z.ltb_spec 4 n); [lia|]. simpl.
  destruct (Z.ltb_spec (256 ^ n - 1) 0); [lia|]. simpl.
  rewrite maxPacketNumber_spec by done.
  destruct (Z.ltb_spec (256 ^ n - 1) pn); [lia|done].
Qed.

Lemma body_parses h payload len :
  wf h -> len = SwByteArray.size payload + m_packetNumberLength h ->
  forall pre suf, SwByteArray.size (pre ++ body_wire h payload ++ suf) <= int_max ->
  decodeInitial_body (pre ++ body_wire h payload ++ suf) (m_version h)
    (m_destinationConnectionId h) (m_sourceConnectionId h) (m_token h) len
    (m_packetNumberLength h) (SwByteArray.size pre) =
  (Ok (setPayloadLength (SwByteArray.size payload) h, payload,
       SwByteArray.size (pre ++ body_wire h payload)),
   SwByteArray.size (pre ++ body_wire h payload)).
Proof.
  intros Hw -> pre suf Hs. pose proof (wf_number _ Hw) as [Hn Hp].
  assert (SwByteArray.size (body_wire h payload) = m_packetNumberLength h + SwByteArray.size payload) as Hb.
  { unfold body_wire. rewrite SwByteArray.size_app. unfold SwByteArray.size at 1.
    rewrite length_be_bytes. lia. }
  pose proof (SwByteArray.size_nonneg pre). pose proof (SwByteArray.size_nonneg suf).
  pose proof (SwByteArray.size_nonneg payload).
  rewrite !SwByteArray.size_app, Hb in *. unfold int_max in Hs.
  assert (parses (fun p =>
    pn ← readPacketNumber_ p (m_packetNumberLength h);
    body ← readSlice_ p (SwByteArray.size payload); mret (pn, body))
    (body_wire h payload) (m_packetNumber h, payload)) as Hr.
  { unfold body_wire. eapply parses_bind; [by apply readPacketNumber_parses|].
    eapply parses_bind_last; [by apply packet_readSlice_parses|]. apply parses_ret. }
  specialize (Hr pre suf). rewrite !SwByteArray.size_app, Hb in Hr. unfold int_max in Hr.
  specialize (Hr ltac:(lia)). revert Hr. unfold decodeInitial_body. m_run.
  rewrite add64_small, sub64_small by lia.
  replace (SwByteArray.size payload + m_packetNumberLength h - m_packetNumberLength h)
    with (SwByteArray.size payload) by lia.
  destruct (readPacketNumber_ _ _ _) as [[pn|e|] o1]; [|discriminate..].
  destruct (readSlice_ _ _ _) as [[b|e|] o2]; [|discriminate..].
  intros [= -> -> ->]. rewrite decodeInitial_header_ok by done.
  destruct Hw as [Hf Ht _ _ _ _], h; simpl in *; subst. do 3 f_equal. lia.
Qed.

Lemma initial_sizes h payload suf :
  wf h -> SwByteArray.size (initial_wire h payload ++ suf) <= int_max ->
  SwQuicVarIntCodec.valid (SwByteArray.size (m_token h)) /\
  SwQuicVarIntCodec.valid (SwByteArray.size payload + m_packetNumberLength h).
Proof.
  intros [_ _ _ _ _ [Hn _]] Hs. unfold initial_wire, prefix_wire, body_wire in Hs.
  rewrite !SwByteArray.size_app in Hs.
  unfold SwQuicVarIntCodec.valid, SwQuicVarIntCodec.maxValue, int_max, SwByteArray.size in *. lia.
Qed.

Lemma encodeInitialPacket_emits h payload out :
  wf h -> SwQuicVarIntCodec.valid (SwByteArray.size (m_token h)) ->
  SwQuicVarIntCodec.valid (SwByteArray.size payload + m_packetNumberLength h) ->
  encodeInitialPacket h payload out = (Ok tt, initial_wire h payload).
Proof.
  intros [Hf Ht Hv Hd Hs Hn] H1 H2. pose proof (proj1 Hn) as Hl.
  assert (emits (encodeInitial_fields h payload (SwByteArray.size payload + m_packetNumberLength h))
    (initial_wire h payload) tt) as He.
  { unfold encodeInitial_fields, initial_wire, prefix_wire, body_wire. rewrite <- !app_assoc.
    eapply emits_bind; [apply emits_byte|]. eapply emits_bind; [by apply appendU32_emits|].
    eapply emits_bind; [apply emits_byte|]. eapply emits_bind; [apply emits_bytes|].
    eapply emits_bind; [apply emits_byte|]. eapply emits_bind; [apply emits_bytes|].
    eapply emits_bind; [by apply SwQuicVarIntCodec.encode_emits|].
    eapply emits_bind; [apply emits_bytes|].
    eapply emits_bind; [by apply SwQuicVarIntCodec.encode_emits|].
    eapply emits_bind; [by apply appendPacketNumber_emits|]. apply emits_bytes. }
  unfold encodeInitialPacket. rewrite !bool_decide_true by done.
  pose proof (wf_size_range _ Hd). pose proof (wf_size_range _ Hs).
  pose proof (SwByteArray.size_nonneg payload).
  unfold SwQuicVarIntCodec.valid, SwQuicVarIntCodec.maxValue in *.
  rewrite add64_small by lia. m_run. simpl.
  destruct (Z.ltb_spec 255 (SwQuicConnectionId.size (m_destinationConnectionId h))); [lia|].
  destruct (Z.ltb_spec 255 (SwQuicConnectionId.size (m_sourceConnectionId h))); [lia|]. simpl.
  destruct (Z.ltb_spec (u64_max - m_packetNumberLength h) (SwByteArray.size payload));
    [unfold u64_max in *; lia|]. apply (He []).
Qed.

Lemma decodeInitial_wire b h payload suf :
  wf h -> SwByteArray.size (initial_wire h payload ++ suf) <= int_max ->
  decodeInitialPacket (initial_wire h payload ++ suf) b =
    if negb b && negb (bool_decide (suf = []))
    then Err "QUIC coalesced packet decoding is not implemented"
    else Ok (setPayloadLength (SwByteArray.size payload) h, payload,
             SwByteArray.size (initial_wire h payload)).
Proof.
  intros Hw Hs. destruct (initial_sizes _ _ _ Hw Hs) as [H1 H2].
  pose proof (wf_number _ Hw) as [Hn _]. destruct (first_byte _ Hn) as (_ & _ & _ & _ & Hl).
  set (len := SwByteArray.size payload + m_packetNumberLength h) in *.
  assert (initial_wire h payload ++ suf =
    (prefix_wire h ++ SwQuicVarIntCodec.wire len) ++ body_wire h payload ++ suf) as Hi
    by (unfold initial_wire; by rewrite <- !app_assoc).
  pose proof (prefix_parses h Hw H1 [] (SwQuicVarIntCodec.wire len ++ body_wire h payload ++ suf)) as Hp.
  pose proof (SwQuicVarIntCodec.decode_parses len H2 (prefix_wire h) (body_wire h payload ++ suf)) as Hv.
  pose proof (body_parses h payload len Hw eq_refl (prefix_wire h ++ SwQuicVarIntCodec.wire len) suf) as Hb.
  rewrite !app_nil_l, (app_assoc (prefix_wire h)), <- Hi in Hp. rewrite (app_assoc (prefix_wire h)), <- Hi in Hv. rewrite <- Hi in Hb.
  specialize (Hp Hs). specialize (Hv Hs). specialize (Hb Hs).
  change (SwByteArray.size []) with 0 in Hp.
  unfold decodeInitialPacket, decodeInitial_. m_run. rewrite Hp, Hv, Hl.
  assert (SwByteArray.size (body_wire h payload) = len) as Hbl.
  { unfold body_wire. rewrite SwByteArray.size_app. unfold SwByteArray.size at 1.
    rewrite length_be_bytes. unfold len. lia. }
  pose proof (SwByteArray.size_nonneg payload). pose proof (SwByteArray.size_nonneg suf).
  pose proof (SwByteArray.size_nonneg (prefix_wire h ++ SwQuicVarIntCodec.wire len)).
  rewrite Hi in Hs. rewrite !SwByteArray.size_app in Hs. unfold int_max in Hs.
  destruct (Z.ltb_spec len (m_packetNumberLength h)); [lia|]. cbv beta iota.
  assert (SwByteArray.size (initial_wire h payload ++ suf) -u
    SwByteArray.size (prefix_wire h ++ SwQuicVarIntCodec.wire len) = len + SwByteArray.size suf) as ->.
  { rewrite Hi, !SwByteArray.size_app in *. rewrite sub64_small by lia. lia. }
  destruct (Z.ltb_spec (len + SwByteArray.size suf) len); [lia|].
  assert ((len =? len + SwByteArray.size suf) = bool_decide (suf = [])) as ->.
  { destruct suf as [|x suf]; [rewrite bool_decide_true by done; change (SwByteArray.size []) with 0; rewrite Z.add_0_r; apply Z.eqb_refl|].
    rewrite bool_decide_false by done. rewrite SwByteArray.size_cons.
    pose proof (SwByteArray.size_nonneg suf). apply Z.eqb_neq. lia. }
  destruct (negb b && _); [done|]. rewrite Hb.
  by rewrite <- app_assoc.
Qed.

(** ** Any datagram *)

Lemma decodeInitial_prefix_advances : advances decodeInitial_prefix.
Proof.
  unfold decodeInitial_prefix. apply advances_bind; [apply packet_readByte_advances|intros fb].
  apply advances_bind; [apply advances_fail_if|intros _].
  apply advances_bind; [apply advances_fail_if|intros _].
  apply advances_bind; [apply advances_fail_if|intros _].
  apply advances_bind; [apply readU32_advances|intros v].
  eapply advances_bind_post; [apply packet_readByte_advances|apply packet_readByte_returns|intros l1 H1].
  apply advances_bind; [apply packet_readSlice_advances, H1|intros d].
  eapply advances_bind_post; [apply packet_readByte_advances|apply packet_readByte_returns|intros l2 H2].
  apply advances_bind; [apply packet_readSlice_advances, H2|intros s].
  apply advances_bind; [apply advances_of_result, fromBytes_fuel|intros did].
  apply advances_bind; [apply advances_of_result, fromBytes_fuel|intros sid].
  eapply advances_bind_post; [apply SwQuicVarIntCodec.decode_advances|apply SwQuicVarIntCodec.decode_returns|].
  intros tl Htl. apply advances_get. intros p off Hoff Hp.
  refine (advances_bind _ (fun _ p => token ← readSlice_ p tl; mret (fb, v, did, sid, token))
    _ _ p off Hoff Hp); [apply advances_fail_if|].
  intros _. apply advances_bind; [apply packet_readSlice_advances, Htl|intros tok; apply advances_ret].
Qed.

Lemma readU32_returns : returns readU32_ (fun v => 0 <= v < 2 ^ 32).
Proof.
  intros p off a off' _ _ H. unfold readU32_ in H. bind_inv H. bind_inv Hk. bind_inv Hk0.
  injection Hk as <- _. rewrite !Z.shiftl_mul_pow2 by lia.
  pose proof (SwByteArray.byteAt_range p) as Hb.
  pose proof (Hb a0). pose proof (Hb (a0 + 1)). pose proof (Hb (a0 + 2)). pose proof (Hb (a0 + 3)).
  repeat apply lor_range; lia.
Qed.

Lemma fromBytes_wf bytes id : SwQuicConnectionId.fromBytes bytes = Ok id -> SwQuicConnectionId.wf id.
Proof.
  rewrite SwQuicConnectionId.fromBytes_spec.
  destruct (Z.leb_spec (SwByteArray.size bytes) SwQuicConnectionId.kMaxLength); [|done].
  by intros [= <-].
Qed.

(** What holds of the fields before the payload length, in any datagram. *)
Definition prefix_ok (x : Z * Z * SwQuicConnectionId.t * SwQuicConnectionId.t * list byte) : Prop :=
  let '(firstByte, version, dcid, scid, _) := x in
  0 <= version < 2 ^ 32 /\ SwQuicConnectionId.wf dcid /\ SwQuicConnectionId.wf scid.

Lemma decodeInitial_prefix_returns : returns decodeInitial_prefix prefix_ok.
Proof.
  unfold decodeInitial_prefix.
  eapply returns_bind; [apply packet_readByte_advances|apply packet_readByte_returns|intros fb _].
  do 3 (apply returns_check; intros _).
  eapply returns_bind; [apply readU32_advances|apply readU32_returns|intros v Hv].
  eapply returns_bind; [apply packet_readByte_advances|apply packet_readByte_returns|intros l1 H1].
  eapply returns_bind; [apply packet_readSlice_advances, H1|apply returns_weaken|intros d _].
  eapply returns_bind; [apply packet_readByte_advances|apply packet_readByte_returns|intros l2 H2].
  eapply returns_bind; [apply packet_readSlice_advances, H2|apply returns_weaken|intros s _].
  eapply returns_bind; [apply advances_of_result, fromBytes_fuel|
    apply returns_of_result, fromBytes_wf|intros did Hd].
  eapply returns_bind; [apply advances_of_result, fromBytes_fuel|
    apply returns_of_result, fromBytes_wf|intros sid Hs].
  intros p off a off' _ _ H.
  do 4 (apply bind_ok in H as (? & ? & _ & H)). by injection H as <- _.
Qed.

(** The bytes at [off] of a packet, as a middle part of it. *)
Lemma packet_middle p off n :
  0 <= off -> 0 <= n <= SwByteArray.size p - off ->
  exists pre suf, p = pre ++ SwByteArray.slice p off n ++ suf /\ SwByteArray.size pre = off /\
    SwByteArray.size (SwByteArray.slice p off n) = n.
Proof.
  intros Hoff Hn. unfold SwByteArray.slice, SwByteArray.size in *.
  exists (take (Z.to_nat off) p), (drop (Z.to_nat n) (drop (Z.to_nat off) p)).
  rewrite !take_drop. rewrite !length_take, length_drop. split_and!; [done|lia|lia].
Qed.

Lemma readPacketNumber_run p n off :
  0 <= off -> 1 <= n <= 4 -> n <= SwByteArray.size p - off -> SwByteArray.size p <= int_max ->
  readPacketNumber_ p n off = (Ok (be_value (SwByteArray.slice p off n)), off + n).
Proof.
  intros Hoff Hn Hr Hs. destruct (packet_middle p off n Hoff ltac:(lia)) as (pre & suf & Hp & Hl & Hb).
  unfold int_max in Hs. unfold readPacketNumber_. m_run.
  rewrite sub64_small, add64_small by lia. destruct (Z.ltb_spec (SwByteArray.size p - off) n); [lia|].
  do 2 f_equal. rewrite readPacketNumber_loop_eq. rewrite <- Hl, Hp at 1.
  replace (Z.to_nat n) with (length (SwByteArray.slice p off n)) by (unfold SwByteArray.size in *; lia).
  apply SwQuicVarIntCodec.accumulate_be_value. unfold SwByteArray.size in *; lia.
Qed.

Lemma readSlice_run p n off :
  0 <= off -> 0 <= n <= SwByteArray.size p - off -> SwByteArray.size p <= int_max ->
  readSlice_ p n off = (Ok (SwByteArray.slice p off n), off + n).
Proof.
  intros Hoff Hn Hs. unfold int_max in Hs. unfold readSlice_. m_run.
  rewrite sub64_small, add64_small by lia. destruct (Z.ltb_spec (SwByteArray.size p - off) n); [lia|].
  rewrite !to_int_small by lia. by rewrite SwByteArray.mid_spec by lia.
Qed.

Lemma body_run p v d s tok len n off :
  0 <= off -> 1 <= n <= 4 -> n <= len <= SwByteArray.size p - off -> SwByteArray.size p <= int_max ->
  decodeInitial_body p v d s tok len n off =
    (Ok (mk Long Initial v d s tok (len - n) (be_value (SwByteArray.slice p off n)) n,
         SwByteArray.slice p (off + n) (len - n), off + len), off + len).
Proof.
  intros Hoff Hn Hl Hs. pose proof Hs as Hs'. unfold int_max in Hs'.
  destruct (packet_middle p off n Hoff ltac:(lia)) as (_ & _ & _ & _ & Hb).
  unfold decodeInitial_body. m_run.
  rewrite readPacketNumber_run, add64_small, sub64_small, readSlice_run by lia.
  rewrite decodeInitial_header_ok; [f_equal; lia|done|].
  pose proof (be_value_range (SwByteArray.slice p off n)). unfold SwByteArray.size in Hb. by rewrite Hb in *.
Qed.

Lemma packetNumberLength_range b : 1 <= Z.land b 3 + 1 <= 4.
Proof. change 3 with (Z.ones 2). rewrite land_mask by lia. pose proof (Z.mod_pos_bound b (2 ^ 2)). lia. Qed.

(** On any datagram the Initial decoder answers; when it accepts, the header
    is one the encoder could have been given, the packet number is the value of
    the bytes before the payload, the payload is the bytes up to the end it
    reports, and that end lies inside the datagram, at its last byte when
    coalesced packets are not allowed. *)
Theorem decodeInitialPacket_sound packet b :
  SwByteArray.size packet <= int_max ->
  match decodeInitialPacket packet b with
  | Ok (h, payload, consumed) =>
      wf h /\ m_payloadLength h = SwByteArray.size payload /\
      consumed <= SwByteArray.size packet /\ (b = false -> consumed = SwByteArray.size packet) /\
      let start := consumed - SwByteArray.size payload in
      payload = SwByteArray.slice packet start (SwByteArray.size payload) /\
      m_packetNumberLength h <= start /\
      m_packetNumber h =
        be_value (SwByteArray.slice packet (start - m_packetNumberLength h) (m_packetNumberLength h))
  | Err _ => True
  | NoFuel => False
  end.
Proof.
  intros Hs. pose proof Hs as Hs'. unfold int_max in Hs'. pose proof (SwByteArray.size_nonneg packet) as Hp0.
  assert (SwByteArray.size packet < u64_modulus) as Hp by (unfold u64_modulus; lia).
  unfold decodeInitialPacket, decodeInitial_. m_run.
  destruct (decodeInitial_prefix_advances packet 0 ltac:(lia) Hp) as [Ho Hf].
  destruct (decodeInitial_prefix packet 0) as [[x|e|] o1] eqn:E1; [|done|done].
  pose proof (decodeInitial_prefix_returns packet 0 x o1 ltac:(lia) Hp E1) as Hx.
  destruct x as [[[[fb v] d] s] tok]. destruct Hx as (Hv & Hd & Hsc). simpl in Ho.
  destruct (SwQuicVarIntCodec.decode_advances packet o1 ltac:(lia) Hp) as [Ho2 Hf2].
  destruct (SwQuicVarIntCodec.decode packet o1) as [[len|e|] o2] eqn:E2; [|done|done]. simpl in Ho2.
  pose proof (packetNumberLength_range fb) as Hn. set (n := Z.land fb 3 + 1) in *. clearbody n.
  destruct (Z.ltb_spec len n); [done|]. cbv beta iota.
  rewrite sub64_small by lia. destruct (Z.ltb_spec (SwByteArray.size packet - o2) len); [done|]. cbv beta iota.
  destruct (negb b && negb (len =? SwByteArray.size packet - o2)) eqn:Ec; [done|]. cbv beta iota.
  rewrite body_run by lia. cbv beta iota zeta delta [fst].
  destruct (packet_middle packet o2 n ltac:(lia) ltac:(lia)) as (_ & _ & _ & _ & Hb1).
  destruct (packet_middle packet (o2 + n) (len - n) ltac:(lia) ltac:(lia)) as (_ & _ & _ & _ & Hb2).
  rewrite Hb2. replace (o2 + len - (len - n)) with (o2 + n) by lia. simpl.
  replace (o2 + n - n) with o2 by lia. split_and!; try done; try lia.
  - pose proof (be_value_range (SwByteArray.slice packet o2 n)) as Hr.
    unfold SwByteArray.size in Hb1. rewrite Hb1 in Hr. by split.
  - intros ->. simpl in Ec. destruct (Z.eqb_spec len (SwByteArray.size packet - o2)); [lia|done].
Qed.

Lemma decodeInitialPacket_sound_witness :
  let packet := [xc0; x00; x00; x00; x01; x01; xaa; x00; x00; x02; x07; xff] in
  match decodeInitialPacket packet false with
  | Ok (h, payload, consumed) =>
      wf h /\ m_payloadLength h = SwByteArray.size payload /\
      consumed <= SwByteArray.size packet /\ (false = false -> consumed = SwByteArray.size packet) /\
      let start := consumed - SwByteArray.size payload in
      payload = SwByteArray.slice packet start (SwByteArray.size payload) /\
      m_packetNumberLength h <= start /\
      m_packetNumber h =
        be_value (SwByteArray.slice packet (start - m_packetNumberLength h) (m_packetNumberLength h))
  | Err _ => True
  | NoFuel => False
  end /\ is_ok (decodeInitialPacket packet false) = true.
Proof. split; [apply decodeInitialPacket_sound; by_eval|reflexivity]. Defined.

(** C31: an Initial packet survives the wire: followed by other packets of its
    datagram it is read back with its header, payload and exact length when the
    caller accepts coalesced packets, and refused when it does not. *)
Theorem initial_roundtrip h payload suf out0 :
  wf h -> SwByteArray.size (initial_wire h payload ++ suf) <= int_max ->
  exists out, encodeInitialPacket h payload out0 = (Ok tt, out) /\
    decodeInitialPacket (out ++ suf) true =
      Ok (setPayloadLength (SwByteArray.size payload) h, payload, SwByteArray.size out) /\
    decodeInitialPacket (out ++ suf) false =
      if bool_decide (suf = []) then
        Ok (setPayloadLength (SwByteArray.size payload) h, payload, SwByteArray.size out)
      else Err "QUIC coalesced packet decoding is not implemented".
Proof.
  intros Hw Hs. exists (initial_wire h payload). destruct (initial_sizes _ _ _ Hw Hs).
  rewrite !decodeInitial_wire, encodeInitialPacket_emits by done.
  split_and!; [done..|]. by destruct (bool_decide (suf = [])).
Qed.

Definition example_header : t :=
  mk Long Initial 1 (SwQuicConnectionId.mk [xaa; xbb]) (SwQuicConnectionId.mk [xcc]) [x01; x02] 0 700 2.

Lemma initial_roundtrip_witness :
  exists out, encodeInitialPacket example_header [x06; x00] [] = (Ok tt, out) /\
    decodeInitialPacket (out ++ [xff]) true =
      Ok (setPayloadLength 2 example_header, [x06; x00], SwByteArray.size out) /\
    decodeInitialPacket (out ++ [xff]) false =
      Err "QUIC coalesced packet decoding is not implemented".
Proof.
  apply (initial_roundtrip example_header [x06; x00] [xff] []); [|by_eval].
  split; try done; by_eval.
Defined.

(** ** Packet-number expansion *)

Lemma clear_low e k :
  is_u64 e -> 0 <= k <= 64 -> Z.land e (wrap64 (Z.lnot (Z.ones k))) = e - e mod 2 ^ k.
Proof.
  intros He Hk. unfold wrap64. change 18446744073709551616 with (2 ^ 64).
  rewrite <- (Z.land_ones (Z.lnot _)), (Z.land_comm (Z.lnot _)), Z.land_assoc, Z.land_ones by lia.
  rewrite (Z.mod_small e) by exact He. rewrite <- Z.ldiff_land.
  rewrite Z.ldiff_ones_r, Z.shiftl_mul_pow2, Z.shiftr_div_pow2 by lia.
  pose proof (Z.div_mod e (2 ^ k) ltac:(lia)). lia.
Qed.

(** The function in ordinary arithmetic. *)
Lemma expandPacketNumber_spec largest truncated n :
  1 <= n <= 4 -> 0 <= largest < 2 ^ 62 -> 0 <= truncated < 256 ^ n ->
  let win := 256 ^ n in
  let expected := largest + 1 in
  let candidate := expected - expected mod win + truncated in
  expandPacketNumber largest true truncated n =
    if (candidate + win / 2 <=? expected) && (candidate <? 2 ^ 62 - win) then candidate + win
    else if (expected + win / 2 <? candidate) && (win <=? candidate) then candidate - win
    else candidate.
Proof.
  intros Hn Hl Ht win expected candidate. unfold expandPacketNumber. cbn [negb].
  rewrite mul64_small by lia.
  assert (shl64 1 (n * 8) = win) as ->.
  { unfold shl64, win. rewrite Z.shiftl_mul_pow2 by lia.
    assert (n = 1 \/ n = 2 \/ n = 3 \/ n = 4) as [-> | [-> | [-> | ->]]] by lia; by_eval. }
  assert (win = 2 ^ (n * 8)) as Hw.
  { unfold win. rewrite (Z.mul_comm n 8), Z.pow_mul_r by lia. done. }
  assert (256 <= win <= 4294967296) as Hwr.
  { unfold win. assert (n = 1 \/ n = 2 \/ n = 3 \/ n = 4) as [-> | [-> | [-> | ->]]] by lia; by_eval. }
  change (shl64 1 62) with (2 ^ 62). rewrite (add64_small largest) by lia.
  fold expected. rewrite (sub64_small win 1) by lia.
  assert (win - 1 = Z.ones (n * 8)) as -> by (rewrite Z.ones_equiv, Hw; lia).
  rewrite clear_low by (unfold is_u64, expected; lia). rewrite <- Hw.
  pose proof (Z.mod_pos_bound expected win ltac:(lia)).
  pose proof (Z.mod_le expected win ltac:(unfold expected; lia) ltac:(lia)).
  pose proof (Z.div_mod expected win ltac:(lia)) as Hdm.
  rewrite Z.lor_comm, (lor_disjoint truncated _ (expected / win) (n * 8)) by (rewrite <- ?Hw; fold win in Ht; lia).
  replace (truncated + (expected - expected mod win)) with candidate by (unfold candidate; lia).
  pose proof (Z.div_pos win 2 ltac:(lia) ltac:(lia)). pose proof (Z.mul_div_le win 2 ltac:(lia)).
  assert (0 <= candidate < 2 ^ 62 + win + win) by (fold win in Ht; unfold candidate, expected in *; lia).
  rewrite !add64_small, !sub64_small by (unfold expected; lia).
  destruct (_ && _) eqn:E1; [done|]. destruct (Z.leb_spec win candidate); [|by rewrite !andb_false_r].
  by rewrite sub64_small by lia.
Qed.

(** The receiver recovers the full packet number from its low bytes whenever
    it lies within half a window of the next expected one, which is the
    distance the sender must keep: never another number with the same low
    bytes, up to both ends of the 62-bit number space. *)
Theorem expandPacketNumber_correct largest pn n :
  1 <= n <= 4 -> 0 <= largest < 2 ^ 62 -> 0 <= pn < 2 ^ 62 ->
  largest + 1 - 256 ^ n / 2 < pn <= largest + 1 + 256 ^ n / 2 ->
  expandPacketNumber largest true (pn mod 256 ^ n) n = pn.
Proof.
  intros Hn Hl Hp Hd.
  assert (256 <= 256 ^ n) as Hw by (change 256 with (256 ^ 1) at 1; apply Z.pow_le_mono_r; lia).
  rewrite expandPacketNumber_spec by (try lia; apply Z.mod_pos_bound; lia).
  assert (256 ^ n = 2 * (256 ^ n / 2)) as He.
  { apply Z.div_exact; [lia|]. replace n with (Z.succ (n - 1)) by lia.
    rewrite Z.pow_succ_r by lia. change 256 with (2 * 128) at 1.
    by rewrite <- Z.mul_assoc, Z.mul_comm, Z.mod_mul by lia. }
  set (w := 256 ^ n) in *. set (h := w / 2) in *. clearbody w h. set (e := largest + 1) in *.
  pose proof (Z.div_mod e w ltac:(lia)). pose proof (Z.mod_pos_bound e w ltac:(lia)).
  pose proof (Z.div_mod pn w ltac:(lia)). pose proof (Z.mod_pos_bound pn w ltac:(lia)).
  set (q1 := e / w) in *. set (q2 := pn / w) in *. set (r1 := e mod w) in *. set (r2 := pn mod w) in *.
  clearbody q1 q2 r1 r2 e.
  assert (q2 - q1 = -1 \/ q2 - q1 = 0 \/ q2 - q1 = 1) as Hq by nia.
  assert (q2 = q1 - 1 \/ q2 = q1 \/ q2 = q1 + 1) as [-> | [-> | ->]] by lia;
    zbool; simpl; nia.
Qed.

Lemma expandPacketNumber_correct_witness :
  expandPacketNumber 0xa82f30ea true (0xa82f9b32 mod 256 ^ 2) 2 = 0xa82f9b32.
Proof. apply expandPacketNumber_correct; by_eval. Defined.

End SwQuicPacketCodec.
