(* ===== verification/Huffman.v ===== *)
(** The canonical Huffman code of HPACK and QPACK string literals:
    src/src/core/io/http3/SwHpackHuffman.h. *)
From Stdlib Require Import ZArith Lia Strings.Byte.
From stdpp Require Import base list strings numbers gmap.
From S2P Require Import Prelude ByteArray.

Module SwHpackHuffman.

Record Code := mk { code_bits : Z; code_length : Z }.

Definition table_ : list Code := [
  mk 0x1ff8 13; mk 0x7fffd8 23; mk 0xfffffe2 28; mk 0xfffffe3 28;
  mk 0xfffffe4 28; mk 0xfffffe5 28; mk 0xfffffe6 28; mk 0xfffffe7 28;
  mk 0xfffffe8 28; mk 0xffffea 24; mk 0x3ffffffc 30; mk 0xfffffe9 28;
  mk 0xfffffea 28; mk 0x3ffffffd 30; mk 0xfffffeb 28; mk 0xfffffec 28;
  mk 0xfffffed 28; mk 0xfffffee 28; mk 0xfffffef 28; mk 0xffffff0 28;
  mk 0xffffff1 28; mk 0xffffff2 28; mk 0x3ffffffe 30; mk 0xffffff3 28;
  mk 0xffffff4 28; mk 0xffffff5 28; mk 0xffffff6 28; mk 0xffffff7 28;
  mk 0xffffff8 28; mk 0xffffff9 28; mk 0xffffffa 28; mk 0xffffffb 28;
  mk 0x14 6; mk 0x3f8 10; mk 0x3f9 10; mk 0xffa 12;
  mk 0x1ff9 13; mk 0x15 6; mk 0xf8 8; mk 0x7fa 11;
  mk 0x3fa 10; mk 0x3fb 10; mk 0xf9 8; mk 0x7fb 11;
  mk 0xfa 8; mk 0x16 6; mk 0x17 6; mk 0x18 6;
  mk 0x0 5; mk 0x1 5; mk 0x2 5; mk 0x19 6;
  mk 0x1a 6; mk 0x1b 6; mk 0x1c 6; mk 0x1d 6;
  mk 0x1e 6; mk 0x1f 6; mk 0x5c 7; mk 0xfb 8;
  mk 0x7ffc 15; mk 0x20 6; mk 0xffb 12; mk 0x3fc 10;
  mk 0x1ffa 13; mk 0x21 6; mk 0x5d 7; mk 0x5e 7;
  mk 0x5f 7; mk 0x60 7; mk 0x61 7; mk 0x62 7;
  mk 0x63 7; mk 0x64 7; mk 0x65 7; mk 0x66 7;
  mk 0x67 7; mk 0x68 7; mk 0x69 7; mk 0x6a 7;
  mk 0x6b 7; mk 0x6c 7; mk 0x6d 7; mk 0x6e 7;
  mk 0x6f 7; mk 0x70 7; mk 0x71 7; mk 0x72 7;
  mk 0xfc 8; mk 0x73 7; mk 0xfd 8; mk 0x1ffb 13;
  mk 0x7fff0 19; mk 0x1ffc 13; mk 0x3ffc 14; mk 0x22 6;
  mk 0x7ffd 15; mk 0x3 5; mk 0x23 6; mk 0x4 5;
  mk 0x24 6; mk 0x5 5; mk 0x25 6; mk 0x26 6;
  mk 0x27 6; mk 0x6 5; mk 0x74 7; mk 0x75 7;
  mk 0x28 6; mk 0x29 6; mk 0x2a 6; mk 0x7 5;
  mk 0x2b 6; mk 0x76 7; mk 0x2c 6; mk 0x8 5;
  mk 0x9 5; mk 0x2d 6; mk 0x77 7; mk 0x78 7;
  mk 0x79 7; mk 0x7a 7; mk 0x7b 7; mk 0x7ffe 15;
  mk 0x7fc 11; mk 0x3ffd 14; mk 0x1ffd 13; mk 0xffffffc 28;
  mk 0xfffe6 20; mk 0x3fffd2 22; mk 0xfffe7 20; mk 0xfffe8 20;
  mk 0x3fffd3 22; mk 0x3fffd4 22; mk 0x3fffd5 22; mk 0x7fffd9 23;
  mk 0x3fffd6 22; mk 0x7fffda 23; mk 0x7fffdb 23; mk 0x7fffdc 23;
  mk 0x7fffdd 23; mk 0x7fffde 23; mk 0xffffeb 24; mk 0x7fffdf 23;
  mk 0xffffec 24; mk 0xffffed 24; mk 0x3fffd7 22; mk 0x7fffe0 23;
  mk 0xffffee 24; mk 0x7fffe1 23; mk 0x7fffe2 23; mk 0x7fffe3 23;
  mk 0x7fffe4 23; mk 0x1fffdc 21; mk 0x3fffd8 22; mk 0x7fffe5 23;
  mk 0x3fffd9 22; mk 0x7fffe6 23; mk 0x7fffe7 23; mk 0xffffef 24;
  mk 0x3fffda 22; mk 0x1fffdd 21; mk 0xfffe9 20; mk 0x3fffdb 22;
  mk 0x3fffdc 22; mk 0x7fffe8 23; mk 0x7fffe9 23; mk 0x1fffde 21;
  mk 0x7fffea 23; mk 0x3fffdd 22; mk 0x3fffde 22; mk 0xfffff0 24;
  mk 0x1fffdf 21; mk 0x3fffdf 22; mk 0x7fffeb 23; mk 0x7fffec 23;
  mk 0x1fffe0 21; mk 0x1fffe1 21; mk 0x3fffe0 22; mk 0x1fffe2 21;
  mk 0x7fffed 23; mk 0x3fffe1 22; mk 0x7fffee 23; mk 0x7fffef 23;
  mk 0xfffea 20; mk 0x3fffe2 22; mk 0x3fffe3 22; mk 0x3fffe4 22;
  mk 0x7ffff0 23; mk 0x3fffe5 22; mk 0x3fffe6 22; mk 0x7ffff1 23;
  mk 0x3ffffe0 26; mk 0x3ffffe1 26; mk 0xfffeb 20; mk 0x7fff1 19;
  mk 0x3fffe7 22; mk 0x7ffff2 23; mk 0x3fffe8 22; mk 0x1ffffec 25;
  mk 0x3ffffe2 26; mk 0x3ffffe3 26; mk 0x3ffffe4 26; mk 0x7ffffde 27;
  mk 0x7ffffdf 27; mk 0x3ffffe5 26; mk 0xfffff1 24; mk 0x1ffffed 25;
  mk 0x7fff2 19; mk 0x1fffe3 21; mk 0x3ffffe6 26; mk 0x7ffffe0 27;
  mk 0x7ffffe1 27; mk 0x3ffffe7 26; mk 0x7ffffe2 27; mk 0xfffff2 24;
  mk 0x1fffe4 21; mk 0x1fffe5 21; mk 0x3ffffe8 26; mk 0x3ffffe9 26;
  mk 0xffffffd 28; mk 0x7ffffe3 27; mk 0x7ffffe4 27; mk 0x7ffffe5 27;
  mk 0xfffec 20; mk 0xfffff3 24; mk 0xfffed 20; mk 0x1fffe6 21;
  mk 0x3fffe9 22; mk 0x1fffe7 21; mk 0x1fffe8 21; mk 0x7ffff3 23;
  mk 0x3fffea 22; mk 0x3fffeb 22; mk 0x1ffffee 25; mk 0x1ffffef 25;
  mk 0xfffff4 24; mk 0xfffff5 24; mk 0x3ffffea 26; mk 0x7ffff4 23;
  mk 0x3ffffeb 26; mk 0x7ffffe6 27; mk 0x3ffffec 26; mk 0x3ffffed 26;
  mk 0x7ffffe7 27; mk 0x7ffffe8 27; mk 0x7ffffe9 27; mk 0x7ffffea 27;
  mk 0x7ffffeb 27; mk 0xffffffe 28; mk 0x7ffffec 27; mk 0x7ffffed 27;
  mk 0x7ffffee 27; mk 0x7ffffef 27; mk 0x7fffff0 27; mk 0x3ffffee 26;
  mk 0x3fffffff 30
].

(** [table[symbol]]; every index used is below 257. *)
Definition code_of (symbol : Z) : Code := default (mk 0 0) (table_ !! Z.to_nat symbol).

(** ** Encoding *)

(** [while (bitCount >= 8)]: the complete bytes of the buffer. *)
Fixpoint drain (fuel : nat) (bitBuffer bitCount : Z) (out : list byte) : result (list byte * Z) :=
  match fuel with
  | O => NoFuel
  | S fuel' =>
      if 8 <=? bitCount then
        let bitCount := bitCount - 8 in
        drain fuel' bitBuffer bitCount (out ++ [z2b (Z.land (Z.shiftr bitBuffer bitCount) 0xff)])
      else Ok (out, bitCount)
  end.

Fixpoint encode_loop (input : list byte) (bitBuffer bitCount : Z) (out : list byte) :
    result (Z * Z * list byte) :=
  match input with
  | [] => Ok (bitBuffer, bitCount, out)
  | octet :: rest =>
      let code := code_of (b2z octet) in
      let bitBuffer := Z.lor (shl64 bitBuffer (code_length code)) (code_bits code) in
      let bitCount := bitCount + code_length code in
      match drain (S (Z.to_nat bitCount)) bitBuffer bitCount out with
      | Ok (out, bitCount) => encode_loop rest bitBuffer bitCount out
      | Err e => Err e
      | NoFuel => NoFuel
      end
  end.

Definition encode (input : list byte) : result (list byte) :=
  match encode_loop input 0 0 [] with
  | Ok (bitBuffer, bitCount, out) =>
      if 0 <? bitCount then
        let pad := 8 - bitCount in
        let bitBuffer := Z.lor (shl64 bitBuffer pad) (shl64 1 pad -u 1) in
        Ok (out ++ [z2b (Z.land bitBuffer 0xff)])
      else Ok out
  | Err e => Err e
  | NoFuel => NoFuel
  end.

(** ** Decoding *)

Definition key_ (length code : Z) : Z := Z.lor (shl64 length 32) code.

(** The loop of [buildLookup_], from symbol [symbol] on. *)
Fixpoint buildLookup_loop (symbol : Z) (codes : list Code) (lookup : gmap Z Z) : gmap Z Z :=
  match codes with
  | [] => lookup
  | c :: rest =>
      buildLookup_loop (symbol + 1) rest (<[key_ (code_length c) (code_bits c) := symbol]> lookup)
  end.

Definition buildLookup_ : gmap Z Z := buildLookup_loop 0 table_ ∅.

(** The body of the bit loop, from the bit just extracted. *)
Definition decode_bit (lookup : gmap Z Z) (maxOutputBytes : Z) (bit : Z)
    (st : Z * Z * list byte) : result (Z * Z * list byte) :=
  let '(code, length, out) := st in
  let code := Z.lor (wrap32 (Z.shiftl code 1)) bit in
  let length := length + 1 in
  if 30 <? length then Err "HPACK Huffman code is invalid (no symbol within 30 bits)"
  else
    match lookup !! key_ length code with
    | Some symbol =>
        if symbol =? 256 then Err "HPACK Huffman stream contains an explicit EOS symbol"
        else if maxOutputBytes <=? SwByteArray.size out then
          Err "HPACK Huffman output exceeds the configured limit"
        else Ok (0, 0, out ++ [z2b symbol])
    | None => Ok (code, length, out)
    end.

(** [for (int bit = 7; bit >= 0; --bit)], the [todo] lowest bits left. *)
Fixpoint decode_byte (lookup : gmap Z Z) (maxOutputBytes octet : Z) (todo : nat)
    (st : Z * Z * list byte) : result (Z * Z * list byte) :=
  match todo with
  | O => Ok st
  | S todo' =>
      match decode_bit lookup maxOutputBytes (Z.land (Z.shiftr octet (Z.of_nat todo')) 1) st with
      | Ok st => decode_byte lookup maxOutputBytes octet todo' st
      | e => e
      end
  end.

Fixpoint decode_loop (lookup : gmap Z Z) (maxOutputBytes : Z) (input : list byte)
    (st : Z * Z * list byte) : result (Z * Z * list byte) :=
  match input with
  | [] => Ok st
  | octet :: rest =>
      match decode_byte lookup maxOutputBytes (b2z octet) 8 st with
      | Ok st => decode_loop lookup maxOutputBytes rest st
      | e => e
      end
  end.

Definition decode (input : list byte) (maxOutputBytes : Z) : result (list byte) :=
  match decode_loop buildLookup_ maxOutputBytes input (0, 0, []) with
  | Ok (code, length, out) =>
      if 0 <? length then
        if 7 <? length then Err "HPACK Huffman padding is longer than 7 bits"
        else
          let allOnes := wrap32 (Z.shiftl 1 length) - 1 in
          if negb (code =? allOnes) then Err "HPACK Huffman padding is not a prefix of EOS"
          else Ok out
      else Ok out
  | Err e => Err e
  | NoFuel => NoFuel
  end.

(** ** Bit strings *)

(** The [n] low bits of [v], most significant first. *)
Fixpoint bits (n : nat) (v : Z) : list bool :=
  match n with
  | O => []
  | S n' => Z.testbit v (Z.of_nat n') :: bits n' v
  end.

Definition byte_bits (b : byte) : list bool := bits 8 (b2z b).

Definition symbol_bits (symbol : Z) : list bool :=
  bits (Z.to_nat (code_length (code_of symbol))) (code_bits (code_of symbol)).

(** The code words of a byte string, one after the other. *)
Definition stream (input : list byte) : list bool :=
  flat_map (fun b => symbol_bits (b2z b)) input.

Lemma length_bits n v : length (bits n v) = n.
Proof. induction n as [|n IH]; simpl; [done|by rewrite IH]. Qed.

Lemma bits_split k n v : bits (k + n) v = bits k (Z.shiftr v (Z.of_nat n)) ++ bits n v.
Proof.
  induction k as [|k IH]; [done|]. simpl. rewrite IH, Z.shiftr_spec by lia.
  by rewrite Nat2Z.inj_add.
Qed.

Lemma bits_ext n a b :
  (forall i, 0 <= i < Z.of_nat n -> Z.testbit a i = Z.testbit b i) -> bits n a = bits n b.
Proof.
  induction n as [|n IH]; intros H; [done|]. simpl. f_equal; [apply H; lia|].
  apply IH. intros i Hi. apply H. lia.
Qed.

Lemma testbit_wrap64 v i : 0 <= i < 64 -> Z.testbit (wrap64 v) i = Z.testbit v i.
Proof. intros Hi. unfold wrap64. change 18446744073709551616 with (2 ^ 64). by rewrite Z.mod_pow2_bits_low by lia. Qed.

Lemma testbit_small c n i : 0 <= c < 2 ^ n -> 0 <= n <= i -> Z.testbit c i = false.
Proof.
  intros Hc Hi. rewrite <- (Z.mod_small c (2 ^ n)) by done. apply Z.mod_pow2_bits_high. lia.
Qed.

(** Pushing [n] bits into the 64-bit buffer. *)
Lemma bits_push k n v c :
  0 <= c < 2 ^ Z.of_nat n -> (k + n <= 64)%nat ->
  bits (k + n) (Z.lor (shl64 v (Z.of_nat n)) c) = bits k v ++ bits n c.
Proof.
  intros Hc Hk. rewrite bits_split. f_equal; apply bits_ext; intros i Hi.
  - rewrite Z.shiftr_spec, Z.lor_spec by lia. unfold shl64.
    rewrite testbit_wrap64, Z.shiftl_spec by lia.
    rewrite (testbit_small c (Z.of_nat n)) by (done || lia). rewrite orb_false_r. f_equal. lia.
  - rewrite Z.lor_spec. unfold shl64.
    rewrite testbit_wrap64, Z.shiftl_spec by lia. by rewrite Z.testbit_neg_r by lia.
Qed.

Lemma bits_land_255 v : bits 8 (Z.land v 0xff) = bits 8 v.
Proof.
  apply bits_ext. intros i Hi. change 0xff with (Z.ones 8).
  rewrite Z.land_spec, Z.ones_spec_low by lia. apply andb_true_r.
Qed.

Lemma byte_bits_z2b v : byte_bits (z2b v) = bits 8 v.
Proof.
  unfold byte_bits. rewrite b2z_z2b. apply bits_ext. intros i Hi.
  change 256 with (2 ^ 8). by rewrite Z.mod_pow2_bits_low by lia.
Qed.

Lemma bits_inj n a b : 0 <= a < 2 ^ Z.of_nat n -> 0 <= b < 2 ^ Z.of_nat n -> bits n a = bits n b -> a = b.
Proof.
  intros Ha Hb H. apply Z.bits_inj'. intros i Hi.
  destruct (Z.lt_ge_cases i (Z.of_nat n)) as [Hl|Hl].
  - revert H. clear Ha Hb. induction n as [|n IH]; intros H; [lia|]. simpl in H. injection H as H0 H1.
    destruct (Z.eq_dec i (Z.of_nat n)) as [->|]; [done|]. apply IH; [lia|done].
  - by rewrite !(testbit_small _ (Z.of_nat n)) by (done || lia).
Qed.

Lemma byte_bits_inj a b : byte_bits a = byte_bits b -> a = b.
Proof. intros H. apply b2z_inj. apply (bits_inj 8); [apply b2z_range..|done]. Qed.

Lemma byte_stream_inj a : forall b, flat_map byte_bits a = flat_map byte_bits b -> a = b.
Proof.
  induction a as [|x a IH]; intros [|y b] H; try done; cbn [flat_map] in H.
  apply app_inj_1 in H as [H1 H2]; [by rewrite (byte_bits_inj x y H1), (IH b H2)|done].
Qed.

Lemma length_byte_stream a : length (flat_map byte_bits a) = (8 * length a)%nat.
Proof.
  induction a as [|x a IH]; [done|]. cbn [flat_map]. rewrite length_app, IH.
  unfold byte_bits at 1. rewrite length_bits. simpl length. lia.
Qed.

Lemma bits_ones k : bits k (2 ^ Z.of_nat k - 1) = repeat true k.
Proof.
  assert (forall n : nat, (n <= k)%nat -> bits n (2 ^ Z.of_nat k - 1) = repeat true n) as H; [|by apply H].
  induction n as [|n IH]; intros Hn; [done|]. simpl. rewrite IH by lia. f_equal.
  rewrite Z.sub_1_r, <- Z.ones_equiv. apply Z.ones_spec_low. lia.
Qed.

(** ** The code table *)

Definition code_ok (c : Code) : bool :=
  (5 <=? code_length c) && (code_length c <=? 30) &&
  (0 <=? code_bits c) && (code_bits c <? 2 ^ code_length c).

Lemma table_ok : forallb code_ok table_ = true.
Proof. vm_compute. done. Qed.

Lemma code_of_ok s : 0 <= s < 257 ->
  5 <= code_length (code_of s) <= 30 /\ 0 <= code_bits (code_of s) < 2 ^ code_length (code_of s).
Proof.
  intros Hs. unfold code_of. destruct (table_ !! Z.to_nat s) as [c|] eqn:E.
  - pose proof table_ok as H. rewrite forallb_forall in H.
    specialize (H c (proj1 (list_elem_of_In _ _) (list_elem_of_lookup_2 _ _ _ E))).
    unfold code_ok in H. rewrite !andb_true_iff in H. simpl. lia.
  - apply lookup_ge_None in E. change (length table_) with 257%nat in E. lia.
Qed.

(** Reading the bits [bs] from the state [(code, length)], the decoder meets no
    code word before the last bit, and there it meets the one of [symbol]. *)
Fixpoint leads_to (lookup : gmap Z Z) (code length : Z) (bs : list bool) (symbol : Z) : bool :=
  match bs with
  | [] => false
  | b :: rest =>
      let code := Z.lor (wrap32 (Z.shiftl code 1)) (Z.b2z b) in
      let length := length + 1 in
      (length <=? 30) &&
      match lookup !! key_ length code with
      | Some s => (s =? symbol) && match rest with [] => true | _ => false end
      | None => leads_to lookup code length rest symbol
      end
  end.

Definition below_257 : list Z := map Z.of_nat (seq 0 257).

Lemma in_below_257 s : 0 <= s < 257 -> In s below_257.
Proof.
  intros Hs. unfold below_257. apply in_map_iff. exists (Z.to_nat s). split; [lia|].
  apply in_seq. lia.
Qed.

(** The code is prefix free and complete for its symbols: every code word leads to its symbol. *)
Lemma symbols_lead : forallb (fun s => leads_to buildLookup_ 0 0 (symbol_bits s) s) below_257 = true.
Proof. vm_compute. done. Qed.

Lemma symbol_leads s : 0 <= s < 257 -> leads_to buildLookup_ 0 0 (symbol_bits s) s = true.
Proof.
  intros Hs. pose proof symbols_lead as H. rewrite forallb_forall in H.
  apply H. by apply in_below_257.
Qed.

(** The lookup map holds the codes of the table and nothing else. *)
Definition entry_ok (key symbol : Z) : bool :=
  (0 <=? symbol) && (symbol <? 257) &&
  (key_ (code_length (code_of symbol)) (code_bits (code_of symbol)) =? key).

Lemma lookup_entries : forallb (fun e => entry_ok e.1 e.2) (map_to_list buildLookup_) = true.
Proof. vm_compute. done. Qed.

Lemma lookup_entry key symbol : buildLookup_ !! key = Some symbol -> entry_ok key symbol = true.
Proof. apply (map_forallb entry_ok). exact lookup_entries. Qed.

#[local] Opaque buildLookup_ table_.

Lemma key_inj l1 c1 l2 c2 :
  0 <= l1 <= 30 -> 0 <= l2 <= 30 -> 0 <= c1 < 2 ^ 32 -> 0 <= c2 < 2 ^ 32 ->
  key_ l1 c1 = key_ l2 c2 -> l1 = l2 /\ c1 = c2.
Proof.
  intros Hl1 Hl2 Hc1 Hc2. unfold key_, shl64. rewrite !Z.shiftl_mul_pow2 by lia.
  rewrite !wrap64_small by lia. rewrite (Z.lor_comm (l1 * _)), (Z.lor_comm (l2 * _)).
  rewrite (lor_disjoint c1 _ l1 32), (lor_disjoint c2 _ l2 32) by lia. lia.
Qed.

Lemma lookup_sound len code s :
  0 <= len <= 30 -> 0 <= code < 2 ^ 32 -> buildLookup_ !! key_ len code = Some s ->
  0 <= s < 257 /\ code_length (code_of s) = len /\ code_bits (code_of s) = code.
Proof.
  intros Hl Hc H. apply lookup_entry in H. unfold entry_ok in H.
  rewrite !andb_true_iff in H. destruct H as [[H0 H1] H2].
  assert (0 <= s < 257) as Hs by lia. destruct (code_of_ok s Hs) as [Hcl Hcb].
  assert (2 ^ code_length (code_of s) <= 2 ^ 30) by (apply Z.pow_le_mono_r; lia).
  apply Z.eqb_eq, key_inj in H2; lia.
Qed.

(** The code is complete: after 30 bits at most some code word has been read. *)
Fixpoint covered (lookup : gmap Z Z) (fuel : nat) (code length : Z) : bool :=
  match lookup !! key_ length code with
  | Some _ => true
  | None =>
      match fuel with
      | O => false
      | S fuel' =>
          (length <? 30) && covered lookup fuel' (2 * code) (length + 1)
          && covered lookup fuel' (2 * code + 1) (length + 1)
      end
  end.

Lemma code_complete : covered buildLookup_ 30 0 0 = true.
Proof. vm_compute. done. Qed.
Lemma empty_unmatched : buildLookup_ !! key_ 0 0 = None.
Proof. vm_compute. done. Qed.

(** One more bit of a code word of fewer than 30 bits. *)
Lemma push_bit code len b : 0 <= len <= 30 -> 0 <= code < 2 ^ len ->
  Z.lor (wrap32 (Z.shiftl code 1)) (Z.b2z b) = 2 * code + Z.b2z b /\
  0 <= 2 * code + Z.b2z b < 2 ^ (len + 1).
Proof.
  intros Hl Hc. assert (2 ^ len <= 2 ^ 30) by (apply Z.pow_le_mono_r; lia).
  unfold wrap32. rewrite Z.shiftl_mul_pow2, (Z.mod_small (code * 2 ^ 1)) by lia.
  rewrite Z.lor_comm, (lor_disjoint (Z.b2z b) (code * 2 ^ 1) code 1) by (destruct b; simpl; lia).
  rewrite Z.pow_add_r by lia. destruct b; simpl; lia.
Qed.

(** ** The encoder writes the stream *)

Lemma drain_spec fuel : forall buf bc out,
  0 <= bc -> bc < Z.of_nat fuel -> 
  exists out' bc', drain fuel buf bc out = Ok (out ++ out', bc') /\ 0 <= bc' < 8 /\
    flat_map byte_bits out' ++ bits (Z.to_nat bc') buf = bits (Z.to_nat bc) buf.
Proof.
  induction fuel as [|fuel IH]; intros buf bc out Hb Hf; [lia|]. cbn [drain].
  destruct (Z.leb_spec 8 bc) as [H8|H8].
  - set (x := z2b _). destruct (IH buf (bc - 8) (out ++ [x]) ltac:(lia) ltac:(lia)) as (o & c & -> & Hc & Hs).
    exists (x :: o), c. rewrite <- app_assoc. split_and!; [done|lia|lia|].
    cbn [flat_map]. rewrite <- app_assoc, Hs. unfold x. rewrite byte_bits_z2b, bits_land_255.
    replace (Z.to_nat bc) with (8 + Z.to_nat (bc - 8))%nat by lia.
    by rewrite bits_split, Z2Nat.id by lia.
  - exists [], bc. rewrite app_nil_r. split_and!; [done|lia|lia|done].
Qed.

Lemma encode_loop_spec input : forall buf bc out,
  0 <= bc < 8 ->
  exists buf' bc' out', encode_loop input buf bc out = Ok (buf', bc', out ++ out') /\ 0 <= bc' < 8 /\
    flat_map byte_bits out' ++ bits (Z.to_nat bc') buf' = bits (Z.to_nat bc) buf ++ stream input.
Proof.
  induction input as [|b input IH]; intros buf bc out Hb.
  - exists buf, bc, []. split_and!; [by rewrite app_nil_r|lia|lia|].
    unfold stream. cbn [flat_map]. by rewrite app_nil_r.
  - cbn [encode_loop]. pose proof (b2z_range b) as Hr.
    destruct (code_of_ok (b2z b) ltac:(lia)) as [Hl Hc].
    set (buf1 := Z.lor _ _). set (l := code_length (code_of (b2z b))) in *.
    destruct (drain_spec (S (Z.to_nat (bc + l))) buf1 (bc + l) out ltac:(lia) ltac:(lia))
      as (o1 & c1 & -> & Hc1 & Hs1).
    destruct (IH buf1 c1 (out ++ o1) Hc1) as (buf' & bc' & o2 & -> & Hc2 & Hs2).
    exists buf', bc', (o1 ++ o2). rewrite <- app_assoc. split_and!; [done|lia|lia|].
    rewrite flat_map_app, <- app_assoc, Hs2, app_assoc, Hs1. cbn [stream flat_map].
    fold (stream input). rewrite app_assoc. f_equal.
    replace (Z.to_nat (bc + l)) with (Z.to_nat bc + Z.to_nat l)%nat by lia.
    unfold buf1, symbol_bits. fold l. rewrite <- (Z2Nat.id l) at 2 by lia.
    apply bits_push; rewrite ?Z2Nat.id by lia; [done|lia].
Qed.

(** What [encode] returns: the code words, then at most seven ones. *)
Lemma encode_spec input :
  exists out pad, encode input = Ok out /\ (pad < 8)%nat /\
    flat_map byte_bits out = stream input ++ repeat true pad.
Proof.
  destruct (encode_loop_spec input 0 0 [] ltac:(lia)) as (buf & bc & out & He & Hb & Hs).
  change (bits (Z.to_nat 0) 0) with (@nil bool) in Hs. rewrite !app_nil_l in *.
  unfold encode. rewrite He. destruct (Z.ltb_spec 0 bc) as [H0|H0].
  - set (pad := 8 - bc). eexists _, (Z.to_nat pad). split; [done|]. split; [unfold pad; lia|].
    rewrite flat_map_app. cbn [flat_map]. rewrite app_nil_r, byte_bits_z2b, bits_land_255.
    assert (shl64 1 pad -u 1 = 2 ^ Z.of_nat (Z.to_nat pad) - 1) as ->.
    { rewrite Z2Nat.id by (unfold pad; lia). unfold pad.
      assert (bc = 1 \/ bc = 2 \/ bc = 3 \/ bc = 4 \/ bc = 5 \/ bc = 6 \/ bc = 7) as Hbc by lia.
      by destruct Hbc as [-> | [-> | [-> | [-> | [-> | [-> | ->]]]]]]. }
    rewrite <- (Z2Nat.id pad) at 1 by (unfold pad; lia).
    replace 8%nat with (Z.to_nat bc + Z.to_nat pad)%nat at 1 by (unfold pad; lia).
    rewrite bits_push; [|pose proof (Z.pow_pos_nonneg 2 (Z.of_nat (Z.to_nat pad))); lia|unfold pad; lia].
    by rewrite app_assoc, Hs, bits_ones.
  - exists out, 0%nat. split_and!; [done|lia|]. replace bc with 0 in Hs by lia.
    simpl in Hs. simpl repeat. by rewrite app_nil_r in *.
Qed.

(** ** The decoder as a walk over bits *)

Fixpoint decode_bits (lookup : gmap Z Z) (maxOutputBytes : Z) (bs : list bool) (st : Z * Z * list byte) :
    result (Z * Z * list byte) :=
  match bs with
  | [] => Ok st
  | b :: rest =>
      match decode_bit lookup maxOutputBytes (Z.b2z b) st with
      | Ok st => decode_bits lookup maxOutputBytes rest st
      | e => e
      end
  end.

(** ** Walks

    What the walk relies on, of any lookup map: it holds code words only, every
    code word leads to its symbol, every long enough path meets one, and the
    empty path meets none. *)
Section Walk.

Variable codes : gmap Z Z.

Hypothesis lookup_only : forall len code s,
  0 <= len <= 30 -> 0 <= code < 2 ^ 32 -> codes !! key_ len code = Some s ->
  0 <= s < 257 /\ code_length (code_of s) = len /\ code_bits (code_of s) = code.

Hypothesis lookup_leads : forall s, 0 <= s < 257 -> leads_to codes 0 0 (symbol_bits s) s = true.

Hypothesis lookup_complete : covered codes 30 0 0 = true.

Hypothesis lookup_empty : codes !! key_ 0 0 = None.

Lemma decode_bits_app m a b st :
  decode_bits codes m (a ++ b) st =
    match decode_bits codes m a st with Ok st => decode_bits codes m b st | e => e end.
Proof.
  revert st. induction a as [|x a IH]; intros st; [done|]. simpl.
  destruct (decode_bit _ _ _ _); [apply IH|done|done].
Qed.

Lemma decode_byte_bits m v n st : decode_byte codes m v n st = decode_bits codes m (bits n v) st.
Proof.
  revert st. induction n as [|n IH]; intros st; [done|]. simpl.
  assert (Z.land (Z.shiftr v (Z.of_nat n)) 1 = Z.b2z (Z.testbit v (Z.of_nat n))) as ->.
  { change 1 with (Z.ones 1). rewrite Z.land_ones, Z.testbit_spec' by lia. by rewrite Z.shiftr_div_pow2 by lia. }
  destruct (decode_bit _ _ _ _); [apply IH|done|done].
Qed.

Lemma decode_loop_bits m input st :
  decode_loop codes m input st = decode_bits codes m (flat_map byte_bits input) st.
Proof.
  revert st. induction input as [|b input IH]; intros st; [done|]. cbn [decode_loop flat_map].
  rewrite decode_bits_app, decode_byte_bits. unfold byte_bits.
  destruct (decode_bits codes m (bits 8 (b2z b)) st); [apply IH|done|done].
Qed.

(** Reading one code word emits its symbol. *)
Lemma leads_to_run m bs : forall code length symbol out,
  leads_to codes code length bs symbol = true -> 0 <= symbol < 256 -> SwByteArray.size out < m ->
  decode_bits codes m bs (code, length, out) = Ok (0, 0, out ++ [z2b symbol]).
Proof.
  induction bs as [|b bs IH]; intros code length symbol out H Hs Ho; [done|].
  cbn [leads_to decode_bits decode_bit] in *.
  rewrite andb_true_iff in H. destruct H as [Hl H].
  destruct (Z.ltb_spec 30 (length + 1)); [lia|].
  destruct (codes !! key_ (length + 1) (Z.lor (wrap32 (Z.shiftl code 1)) (Z.b2z b))) as [s|].
  - rewrite andb_true_iff in H. destruct H as [Hs' Hr]. apply Z.eqb_eq in Hs' as ->.
    destruct (Z.eqb_spec symbol 256); [lia|]. destruct (Z.leb_spec m (SwByteArray.size out)); [lia|].
    by destruct bs.
  - by apply IH.
Qed.

Lemma stream_run m input : forall out,
  SwByteArray.size out + SwByteArray.size input <= m ->
  decode_bits codes m (stream input) (0, 0, out) = Ok (0, 0, out ++ input).
Proof.
  induction input as [|b input IH]; intros out Hm; [simpl; by rewrite app_nil_r|].
  cbn [stream flat_map]. fold (stream input). rewrite SwByteArray.size_cons in Hm.
  pose proof (SwByteArray.size_nonneg input). pose proof (b2z_range b).
  rewrite decode_bits_app, (leads_to_run m _ 0 0 (b2z b)) by first [apply lookup_leads; lia | lia].
  rewrite z2b_b2z, IH by (rewrite SwByteArray.size_app; change (SwByteArray.size [b]) with 1; lia).
  by rewrite <- app_assoc.
Qed.

(** Conversely, what a walk that succeeds has read. *)
Lemma walk_inv m bs : forall code len out code' len' out' done_,
  0 <= len <= 30 -> 0 <= code < 2 ^ len ->
  done_ = stream out ++ bits (Z.to_nat len) code ->
  decode_bits codes m bs (code, len, out) = Ok (code', len', out') ->
  0 <= len' <= 30 /\ 0 <= code' < 2 ^ len' /\
  done_ ++ bs = stream out' ++ bits (Z.to_nat len') code'.
Proof.
  induction bs as [|b bs IH]; intros code len out code' len' out' done_ Hl Hc Hd H.
  - injection H as <- <- <-. rewrite app_nil_r. exact (conj Hl (conj Hc Hd)).
  - cbn [decode_bits decode_bit] in H.
    destruct (Z.ltb_spec 30 (len + 1)) as [|H30]; [done|].
    assert (2 ^ len <= 2 ^ 30) by (apply Z.pow_le_mono_r; lia).
    assert (wrap32 (Z.shiftl code 1) = code * 2) as Hw.
    { unfold wrap32. rewrite Z.shiftl_mul_pow2 by lia. apply Z.mod_small. lia. }
    rewrite Hw in H. rewrite Z.lor_comm, (lor_disjoint (Z.b2z b) (code * 2) code 1) in H
      by (destruct b; simpl; lia).
    set (c := Z.b2z b + code * 2) in *.
    assert (0 <= c < 2 ^ (len + 1)) as Hcr
      by (unfold c; rewrite Z.pow_add_r by lia; destruct b; simpl; lia).
    assert (bits (Z.to_nat (len + 1)) c = bits (Z.to_nat len) code ++ [b]) as Hb.
    { replace (Z.to_nat (len + 1)) with (Z.to_nat len + 1)%nat by lia.
      rewrite bits_split. unfold c. f_equal.
      - apply bits_ext. intros i Hi. rewrite Z.shiftr_div_pow2 by lia. change (2 ^ Z.of_nat 1) with 2.
        rewrite Z.div_add by lia. by destruct b.
      - simpl. f_equal. rewrite Z.add_comm, Z.mul_comm. destruct b; [apply Z.testbit_odd_0|].
        rewrite Z.add_0_r. apply Z.testbit_even_0. }
    assert (done_ ++ [b] = stream out ++ bits (Z.to_nat (len + 1)) c) as Hd'
      by (by rewrite Hd, Hb, app_assoc).
    replace (done_ ++ b :: bs) with ((done_ ++ [b]) ++ bs) by by rewrite <- app_assoc.
    assert (2 ^ (len + 1) <= 2 ^ 30) by (apply Z.pow_le_mono_r; lia).
    destruct (codes !! key_ (len + 1) c) as [s|] eqn:Es.
    + destruct (Z.eqb_spec s 256); [done|]. destruct (_ <=? _); [done|].
      apply lookup_only in Es as (Hs & Hsl & Hsb); [|lia|lia].
      refine (IH _ _ _ _ _ _ _ _ _ _ H); [lia|simpl; lia|].
      simpl bits. rewrite app_nil_r, Hd'. unfold stream. rewrite flat_map_app. f_equal.
      cbn [flat_map]. rewrite app_nil_r, b2z_z2b_small by lia. unfold symbol_bits. by rewrite Hsl, Hsb.
    + refine (IH _ _ _ _ _ _ _ _ Hcr Hd' H). lia.
Qed.

(** A state the decoder can be in between two bits. *)
Definition between (code len : Z) : Prop :=
  0 <= len <= 30 /\ 0 <= code < 2 ^ len /\
  codes !! key_ len code = None /\ exists fuel, covered codes fuel code len = true.

Lemma between_start : between 0 0.
Proof. split_and!; [lia..|exact lookup_empty|exists 30%nat; exact lookup_complete]. Qed.

Lemma covered_children fuel code len :
  covered codes fuel code len = true -> codes !! key_ len code = None ->
  len < 30 /\ exists fuel', covered codes fuel' (2 * code) (len + 1) = true /\
    covered codes fuel' (2 * code + 1) (len + 1) = true.
Proof.
  destruct fuel as [|fuel]; cbn [covered]; intros H E; rewrite E in H; [done|].
  rewrite !andb_true_iff in H. destruct H as [[Hl H0] H1]. split; [lia|]. by exists fuel.
Qed.

Definition walk_ok (m : Z) (r : result (Z * Z * list byte)) : Prop :=
  match r with
  | Ok (code, len, out) => between code len /\ SwByteArray.size out <= m
  | Err e => e = "HPACK Huffman stream contains an explicit EOS symbol" \/
             e = "HPACK Huffman output exceeds the configured limit"
  | NoFuel => False
  end.

Lemma decode_bit_ok m b code len out :
  between code len -> SwByteArray.size out <= m ->
  walk_ok m (decode_bit codes m (Z.b2z b) (code, len, out)).
Proof.
  intros (Hl & Hc & Hn & fuel & Hf) Hs. unfold decode_bit.
  destruct (covered_children _ _ _ Hf Hn) as (H30 & fuel' & H0 & H1).
  destruct (push_bit code len b Hl Hc) as [-> Hr].
  destruct (Z.ltb_spec 30 (len + 1)); [lia|].
  destruct (codes !! key_ (len + 1) (2 * code + Z.b2z b)) as [s|] eqn:Es.
  - destruct (s =? 256); [by left|]. destruct (Z.leb_spec m (SwByteArray.size out)); [by right|].
    split; [apply between_start|]. rewrite SwByteArray.size_app.
    change (SwByteArray.size [z2b s]) with 1. lia.
  - split; [|done]. split_and!; [lia..|done|]. exists fuel'. destruct b; [done|].
    simpl Z.b2z. by rewrite Z.add_0_r.
Qed.

Lemma decode_bits_ok m bs : forall code len out,
  between code len -> SwByteArray.size out <= m ->
  walk_ok m (decode_bits codes m bs (code, len, out)).
Proof.
  induction bs as [|b bs IH]; intros code len out Hb Hs; [by split|].
  cbn [decode_bits]. pose proof (decode_bit_ok m b code len out Hb Hs) as H.
  destruct (decode_bit _ _ _ _) as [[[c l] o]|e|]; [|done|done]. destruct H. by apply IH.
Qed.

End Walk.

(** Up to seven ones are never a code word. *)
Lemma ones_run m out pad : (pad < 8)%nat ->
  decode_bits buildLookup_ m (repeat true pad) (0, 0, out) = Ok (2 ^ Z.of_nat pad - 1, Z.of_nat pad, out).
Proof.
  intros Hp. do 8 (destruct pad as [|pad]; [vm_compute; reflexivity|]). lia.
Qed.

Lemma decode_inverts coded input maxOutputBytes :
  0 <= maxOutputBytes ->
  decode coded maxOutputBytes = Ok input <->
  encode input = Ok coded /\ SwByteArray.size input <= maxOutputBytes.
Proof.
  intros Hm. unfold decode. rewrite decode_loop_bits.
  destruct (encode_spec input) as (out & pad & He & Hp & Hs). split.
  - intros H. pose proof (decode_bits_ok _ code_complete empty_unmatched maxOutputBytes (flat_map byte_bits coded) 0 0 []
      (between_start _ code_complete empty_unmatched) Hm) as Hok.
    destruct (decode_bits _ _ _) as [[[code len] o]|e|] eqn:E; [|discriminate..].
    destruct Hok as [_ Hsize].
    pose proof (walk_inv _ lookup_sound maxOutputBytes (flat_map byte_bits coded) 0 0 [] code len o []
      ltac:(lia) ltac:(simpl; lia) eq_refl E) as (Hl & Hc & Hw). rewrite app_nil_l in Hw.
    assert (o = input /\ len <= 7 /\ bits (Z.to_nat len) code = repeat true (Z.to_nat len)) as (-> & H7 & Hr).
    { destruct (Z.ltb_spec 0 len) as [Hl0|Hl0].
      - destruct (Z.ltb_spec 7 len) as [|H7]; [discriminate|].
        destruct (Z.eqb_spec code (wrap32 (Z.shiftl 1 len) - 1)) as [->|]; [|discriminate].
        injection H as ->. split_and!; [done|lia|]. rewrite <- bits_ones, Z2Nat.id by lia. f_equal.
        assert (2 ^ len <= 2 ^ 7) by (apply Z.pow_le_mono_r; lia).
        unfold wrap32. rewrite Z.shiftl_1_l, Z.mod_small; lia.
      - injection H as ->. replace len with 0 by lia. split_and!; [done|lia|done]. }
    split; [|done]. rewrite He. f_equal. apply byte_stream_inj. rewrite Hs, Hw, Hr. f_equal. f_equal.
    pose proof (length_byte_stream out) as L1. pose proof (length_byte_stream coded) as L2.
    rewrite Hs, length_app, repeat_length in L1. rewrite Hw, Hr, length_app, repeat_length in L2. lia.
  - intros [He' Hsize]. rewrite He' in He. injection He as <-. rewrite Hs, decode_bits_app.
    rewrite (stream_run _ symbol_leads) by (change (SwByteArray.size []) with 0; lia).
    rewrite app_nil_l, ones_run by done.
    destruct (Z.ltb_spec 0 (Z.of_nat pad)); [|done]. destruct (Z.ltb_spec 7 (Z.of_nat pad)); [lia|].
    assert (2 ^ Z.of_nat pad <= 2 ^ 7) by (apply Z.pow_le_mono_r; lia).
    assert (wrap32 (Z.shiftl 1 (Z.of_nat pad)) = 2 ^ Z.of_nat pad) as ->.
    { unfold wrap32. rewrite Z.shiftl_1_l. apply Z.mod_small. lia. }
    by rewrite Z.eqb_refl.
Qed.

(** C32: the Huffman decoder inverts the encoder and accepts nothing else: a byte
    string is decoded to [input] exactly when it is the string [encode] writes
    for [input] (the padding of ones, of fewer than eight bits, included) and
    [input] is within the limit of the caller. *)
Theorem decode_iff_encode coded input maxOutputBytes :
  0 <= maxOutputBytes ->
  decode coded maxOutputBytes = Ok input <->
  encode input = Ok coded /\ SwByteArray.size input <= maxOutputBytes.
Proof. apply decode_inverts. Qed.

Lemma decode_iff_encode_witness :
  decode [xf1; xe3; xc2; xe5; xf2; x3a; x6b; xa0; xab; x90; xf4; xff] 15 =
    Ok (String.list_byte_of_string "www.example.com").
Proof. apply decode_iff_encode; [by_eval|by_eval]. Defined.

Lemma decode_outcomes coded maxOutputBytes :
  0 <= maxOutputBytes ->
  match decode coded maxOutputBytes with
  | Ok out => SwByteArray.size out <= maxOutputBytes
  | Err e => e = "HPACK Huffman stream contains an explicit EOS symbol" \/
             e = "HPACK Huffman output exceeds the configured limit" \/
             e = "HPACK Huffman padding is longer than 7 bits" \/
             e = "HPACK Huffman padding is not a prefix of EOS"
  | NoFuel => False
  end.
Proof.
  intros Hm. unfold decode. rewrite decode_loop_bits.
  pose proof (decode_bits_ok _ code_complete empty_unmatched maxOutputBytes (flat_map byte_bits coded) 0 0 []
    (between_start _ code_complete empty_unmatched) Hm) as H.
  destruct (decode_bits _ _ _) as [[[code len] o]|e|]; [|simpl in *; tauto|done].
  destruct H as [_ H]. destruct (0 <? len), (7 <? len), (code =? wrap32 (Z.shiftl 1 len) - 1); simpl; tauto.
Qed.

Lemma decode_never_stuck coded maxOutputBytes : 0 <= maxOutputBytes -> decode coded maxOutputBytes <> NoFuel.
Proof.
  intros Hm H. pose proof (decode_outcomes coded maxOutputBytes Hm) as Ho. by rewrite H in Ho.
Qed.

(** Whatever the input, the decoder stops with a string within the limit or
    with one of four errors: an end-of-string symbol, the output limit, a
    padding of more than seven bits or one that is not all ones. The "no symbol
    within 30 bits" error cannot happen, the code being complete. *)
Theorem decode_total coded maxOutputBytes :
  0 <= maxOutputBytes ->
  match decode coded maxOutputBytes with
  | Ok out => SwByteArray.size out <= maxOutputBytes
  | Err e => e = "HPACK Huffman stream contains an explicit EOS symbol" \/
             e = "HPACK Huffman output exceeds the configured limit" \/
             e = "HPACK Huffman padding is longer than 7 bits" \/
             e = "HPACK Huffman padding is not a prefix of EOS"
  | NoFuel => False
  end.
Proof. apply decode_outcomes. Qed.

Lemma decode_total_witness :
  match decode [xff; xff; xff; xff] 9 with
  | Ok out => SwByteArray.size out <= 9
  | Err e => e = "HPACK Huffman stream contains an explicit EOS symbol" \/
             e = "HPACK Huffman output exceeds the configured limit" \/
             e = "HPACK Huffman padding is longer than 7 bits" \/
             e = "HPACK Huffman padding is not a prefix of EOS"
  | NoFuel => False
  end.
Proof. apply decode_total. by_eval. Defined.

Lemma encode_total input : exists out, encode input = Ok out.
Proof. destruct (encode_spec input) as (out & _ & H & _). by exists out. Qed.

End SwHpackHuffman.
