(* ===== verification/Qpack.v ===== *)
(** QPACK field sections over the static table:
    src/src/core/io/http3/SwQpackStaticTable.h, SwQpackEncoder.h and
    SwQpackDecoder.h. *)
From Stdlib Require Import ZArith Lia Strings.Byte.
From stdpp Require Import base list strings numbers.
From S2P Require Import Prelude ByteArray Codec Huffman.

Module SwQpackStaticTable.

(** A [SwByteArray] with its null flag, which its equality compares: a null array
    differs from the empty literal. *)
Record Bytes := mkBytes { isNull : bool; contents : list byte }.

Record Entry := mkEntry { name : list byte; value : list byte }.

Definition entry (name value : string) : Entry :=
  mkEntry (String.list_byte_of_string name) (String.list_byte_of_string value).

Definition table_ : list Entry := [
  entry ":authority" EmptyString;
  entry ":path" "/";
  entry "age" "0";
  entry "content-disposition" EmptyString;
  entry "content-length" "0";
  entry "cookie" EmptyString;
  entry "date" EmptyString;
  entry "etag" EmptyString;
  entry "if-modified-since" EmptyString;
  entry "if-none-match" EmptyString;
  entry "last-modified" EmptyString;
  entry "link" EmptyString;
  entry "location" EmptyString;
  entry "referer" EmptyString;
  entry "set-cookie" EmptyString;
  entry ":method" "CONNECT";
  entry ":method" "DELETE";
  entry ":method" "GET";
  entry ":method" "HEAD";
  entry ":method" "OPTIONS";
  entry ":method" "POST";
  entry ":method" "PUT";
  entry ":scheme" "http";
  entry ":scheme" "https";
  entry ":status" "103";
  entry ":status" "200";
  entry ":status" "304";
  entry ":status" "404";
  entry ":status" "503";
  entry "accept" "*/*";
  entry "accept" "application/dns-message";
  entry "accept-encoding" "gzip, deflate, br";
  entry "accept-ranges" "bytes";
  entry "access-control-allow-headers" "cache-control";
  entry "access-control-allow-headers" "content-type";
  entry "access-control-allow-origin" "*";
  entry "cache-control" "max-age=0";
  entry "cache-control" "max-age=2592000";
  entry "cache-control" "max-age=604800";
  entry "cache-control" "no-cache";
  entry "cache-control" "no-store";
  entry "cache-control" "public, max-age=31536000";
  entry "content-encoding" "br";
  entry "content-encoding" "gzip";
  entry "content-type" "application/dns-message";
  entry "content-type" "application/javascript";
  entry "content-type" "application/json";
  entry "content-type" "application/x-www-form-urlencoded";
  entry "content-type" "image/gif";
  entry "content-type" "image/jpeg";
  entry "content-type" "image/png";
  entry "content-type" "text/css";
  entry "content-type" "text/html; charset=utf-8";
  entry "content-type" "text/plain";
  entry "content-type" "text/plain;charset=utf-8";
  entry "range" "bytes=0-";
  entry "strict-transport-security" "max-age=31536000";
  entry "strict-transport-security" "max-age=31536000; includesubdomains";
  entry "strict-transport-security" "max-age=31536000; includesubdomains; preload";
  entry "vary" "accept-encoding";
  entry "vary" "origin";
  entry "x-content-type-options" "nosniff";
  entry "x-xss-protection" "1; mode=block";
  entry ":status" "100";
  entry ":status" "204";
  entry ":status" "206";
  entry ":status" "302";
  entry ":status" "400";
  entry ":status" "403";
  entry ":status" "421";
  entry ":status" "425";
  entry ":status" "500";
  entry "accept-language" EmptyString;
  entry "access-control-allow-credentials" "FALSE";
  entry "access-control-allow-credentials" "TRUE";
  entry "access-control-allow-headers" "*";
  entry "access-control-allow-methods" "get";
  entry "access-control-allow-methods" "get, post, options";
  entry "access-control-allow-methods" "options";
  entry "access-control-expose-headers" "content-length";
  entry "access-control-request-headers" "content-type";
  entry "access-control-request-method" "get";
  entry "access-control-request-method" "post";
  entry "alt-svc" "clear";
  entry "authorization" EmptyString;
  entry "content-security-policy" "script-src 'none'; object-src 'none'; base-uri 'none'";
  entry "early-data" "1";
  entry "expect-ct" EmptyString;
  entry "forwarded" EmptyString;
  entry "if-range" EmptyString;
  entry "origin" EmptyString;
  entry "purpose" "prefetch";
  entry "server" EmptyString;
  entry "timing-allow-origin" "*";
  entry "upgrade-insecure-requests" "1";
  entry "user-agent" EmptyString;
  entry "x-forwarded-for" EmptyString;
  entry "x-frame-options" "deny";
  entry "x-frame-options" "sameorigin"
].

Definition entryCount : Z := 99.

Definition nameValueAt (index : Z) : option (list byte * list byte) :=
  if entryCount <=? index then None
  else match table_ !! Z.to_nat index with
       | Some e => Some (name e, value e)
       | None => None
       end.

Definition matches_ (value : Bytes) (literal : list byte) : bool :=
  negb (isNull value) && bool_decide (contents value = literal).

Fixpoint findExact_loop (n v : Bytes) (i : Z) (entries : list Entry) : option Z :=
  match entries with
  | [] => None
  | e :: rest =>
      if matches_ n (name e) && matches_ v (value e) then Some i
      else findExact_loop n v (i + 1) rest
  end.

Definition findExact (n v : Bytes) : option Z := findExact_loop n v 0 table_.

Fixpoint findName_loop (n : Bytes) (i : Z) (entries : list Entry) : option Z :=
  match entries with
  | [] => None
  | e :: rest => if matches_ n (name e) then Some i else findName_loop n (i + 1) rest
  end.

Definition findName (n : Bytes) : option Z := findName_loop n 0 table_.

End SwQpackStaticTable.

Module SwQpackEncoder.

Import SwQpackStaticTable.

(** The continuation bytes; ten carry any 64-bit value. *)
Fixpoint encodeInteger_loop (fuel : nat) (value : Z) : Enc unit :=
  match fuel with
  | O => out_of_fuel
  | S fuel' =>
      if 128 <=? value then
        emit_byte (Z.lor (Z.land value 0x7f) 0x80);;
        encodeInteger_loop fuel' (Z.shiftr value 7)
      else emit_byte (Z.land value 0x7f)
  end.

Definition maxPrefix (prefixBits : Z) : Z := (Z.shiftl 1 prefixBits - 1) mod 256.

Definition encodeInteger_ (value prefixBits pattern : Z) : Enc unit :=
  if value <? maxPrefix prefixBits then emit_byte (Z.lor pattern value)
  else
    emit_byte (Z.lor pattern (maxPrefix prefixBits));;
    encodeInteger_loop 10 (value -u maxPrefix prefixBits).

Definition encodeString_ (str : Bytes) (prefixBits basePattern hBit : Z) : Enc unit :=
  huffman ← of_result (SwHpackHuffman.encode (contents str));
  if SwByteArray.size huffman <? SwByteArray.size (contents str) then
    encodeInteger_ (SwByteArray.size huffman) prefixBits (Z.lor basePattern hBit);;
    emit_bytes huffman
  else
    encodeInteger_ (SwByteArray.size (contents str)) prefixBits basePattern;;
    emit_bytes (contents str).

(** One turn of the loop over the headers. *)
Definition encodeField (header : Bytes * Bytes) : Enc unit :=
  let '(name, value) := header in
  match findExact name value with
  | Some index => encodeInteger_ index 6 0xC0
  | None =>
      match findName name with
      | Some index => encodeInteger_ index 4 0x50;; encodeString_ value 7 0x00 0x80
      | None => encodeString_ name 3 0x20 0x08;; encodeString_ value 7 0x00 0x80
      end
  end.

Fixpoint encodeFields (headers : list (Bytes * Bytes)) : Enc unit :=
  match headers with
  | [] => mret tt
  | header :: rest => encodeField header;; encodeFields rest
  end.

Definition encodeFieldSection (headers : list (Bytes * Bytes)) : Enc unit :=
  put [];;
  emit_byte 0x00;;
  emit_byte 0x00;;
  encodeFields headers.

End SwQpackEncoder.

Module SwQpackDecoder.

Import SwQpackStaticTable.

Definition remainingBytes_ (limit used reserved : Z) : Z :=
  if (limit <? used) || (limit -u used <? reserved) then 0 else limit -u used -u reserved.

(** The fields so far and their size, in the metric of SETTINGS_MAX_FIELD_SECTION_SIZE. *)
Definition Fields : Type := list (list byte * list byte) * Z.

Definition appendField_ (name value : list byte) (decodedLimit : Z) (st : Fields) : result Fields :=
  let '(out, decodedBytes) := st in
  let nameBytes := SwByteArray.size name in
  let valueBytes := SwByteArray.size value in
  let kFieldLineOverhead := 32 in
  if (decodedLimit <? decodedBytes) || (decodedLimit -u decodedBytes <? kFieldLineOverhead)
  then Err "QPACK decoded fields exceed the configured byte limit"
  else
    let afterOverhead := decodedBytes +u kFieldLineOverhead in
    if decodedLimit -u afterOverhead <? nameBytes
    then Err "QPACK decoded fields exceed the configured byte limit"
    else
      let afterName := afterOverhead +u nameBytes in
      if decodedLimit -u afterName <? valueBytes
      then Err "QPACK decoded fields exceed the configured byte limit"
      else Ok (out ++ [(name, value)], afterName +u valueBytes).

(** The next byte, or [msg] at the end of the input. *)
Definition nextByte (msg : string) (input : list byte) : M Z Z :=
  offset ← get;
  fail_if (SwByteArray.size input <=? offset) msg;;
  put (offset +u 1);;
  mret (SwByteArray.byteAt input offset).

(** The continuation bytes; the test on [shift] stops after ten of them. *)
Fixpoint decodeInteger_loop (fuel : nat) (input : list byte) (value shift : Z) : M Z Z :=
  match fuel with
  | O => out_of_fuel
  | S fuel' =>
      byte ← nextByte "QPACK integer continuation is truncated" input;
      let value := value +u shl64 (Z.land byte 0x7f) shift in
      let shift := shift + 7 in
      if Z.land byte 0x80 =? 0 then mret value
      else
        fail_if (63 <? shift) "QPACK integer is too large";;
        decodeInteger_loop fuel' input value shift
  end.

Definition maxPrefix (prefixBits : Z) : Z := (Z.shiftl 1 prefixBits - 1) mod 256.

Definition decodeInteger_ (prefixBits : Z) (input : list byte) : M Z Z :=
  firstByte ← nextByte "QPACK integer is truncated" input;
  let value := Z.land firstByte (maxPrefix prefixBits) in
  if value <? maxPrefix prefixBits then mret value
  else decodeInteger_loop 10 input value 0.

(** [decodeString_] once the Huffman flag is read. *)
Definition decodeString_octets (huffman : bool) (prefixBits maxOutputBytes : Z) (input : list byte) :
    M Z (list byte) :=
  length ← decodeInteger_ prefixBits input;
  offset ← get;
  fail_if (SwByteArray.size input -u offset <? length)
    "QPACK string literal length exceeds available data";;
  fail_if ((negb huffman && (maxOutputBytes <? length)) ||
           (huffman && (maxOutputBytes <=? u64_max / 4) && (maxOutputBytes *u 4 <? length)))
    "QPACK string literal exceeds the configured decoded limit";;
  fail_if (int_max <? length) "QPACK string literal is too large";;
  put (offset +u length);;
  let raw := SwByteArray.mid input (to_int offset) (to_int length) in
  if huffman then of_result (SwHpackHuffman.decode raw maxOutputBytes) else mret raw.

Definition decodeString_ (prefixBits hBit maxOutputBytes : Z) (input : list byte) : M Z (list byte) :=
  offset ← get;
  fail_if (SwByteArray.size input <=? offset) "QPACK string literal is truncated";;
  let huffman := negb (Z.land (SwByteArray.byteAt input offset) hBit =? 0) in
  decodeString_octets huffman prefixBits maxOutputBytes input.

(** One turn of the loop: the field line at [offset], whose first byte is [first]. *)
Definition decodeField (decodedLimit first : Z) (st : Fields) (input : list byte) : M Z Fields :=
  if negb (Z.land first 0x80 =? 0) then
    fail_if (Z.land first 0x40 =? 0) "QPACK Indexed Field Line references the dynamic table";;
    index ← decodeInteger_ 6 input;
    match nameValueAt index with
    | None => throw "QPACK Indexed Field Line has an out-of-range static index"
    | Some (name, value) => of_result (appendField_ name value decodedLimit st)
    end
  else if negb (Z.land first 0x40 =? 0) then
    fail_if (Z.land first 0x10 =? 0) "QPACK Literal Field Line name reference is dynamic";;
    index ← decodeInteger_ 4 input;
    match nameValueAt index with
    | None => throw "QPACK name reference has an out-of-range static index"
    | Some (name, _) =>
        let remaining := remainingBytes_ decodedLimit st.2 (SwByteArray.size name) in
        value ← decodeString_ 7 0x80 remaining input;
        of_result (appendField_ name value decodedLimit st)
    end
  else if negb (Z.land first 0x20 =? 0) then
    let nameLimit := remainingBytes_ decodedLimit st.2 0 in
    name ← decodeString_ 3 0x08 nameLimit input;
    let valueLimit := remainingBytes_ decodedLimit st.2 (SwByteArray.size name) in
    value ← decodeString_ 7 0x80 valueLimit input;
    of_result (appendField_ name value decodedLimit st)
  else throw "QPACK post-base field line representations are not supported".

Fixpoint decodeFields (fuel : nat) (maxFieldCount decodedLimit : Z) (st : Fields) (input : list byte) :
    M Z Fields :=
  match fuel with
  | O => out_of_fuel
  | S fuel' =>
      offset ← get;
      if SwByteArray.size input <=? offset then mret st
      else
        fail_if ((0 <? maxFieldCount) && (maxFieldCount <=? zlen st.1))
          "QPACK field count exceeds the configured limit";;
        let first := SwByteArray.byteAt input offset in
        st ← decodeField decodedLimit first st input;
        decodeFields fuel' maxFieldCount decodedLimit st input
  end.

Definition decodeFieldSection (input : list byte) (maxFieldCount maxDecodedBytes : Z) :
    result (list (list byte * list byte)) :=
  let decodedLimit := if maxDecodedBytes =? 0 then u64_max else maxDecodedBytes in
  let run : M Z Fields :=
    requiredInsertCount ← decodeInteger_ 8 input;
    fail_if (negb (requiredInsertCount =? 0))
      "QPACK dynamic table is not supported (Required Insert Count != 0)";;
    deltaBase ← decodeInteger_ 7 input;
    fail_if (negb (deltaBase =? 0)) "QPACK dynamic table is not supported (Base != 0)";;
    decodeFields (S (length input)) maxFieldCount decodedLimit ([], 0) input in
  match (run 0).1 with
  | Ok (out, _) => Ok out
  | Err e => Err e
  | NoFuel => NoFuel
  end.

End SwQpackDecoder.

(** * The two sides together *)
Module SwQpack.

Import SwQpackStaticTable SwQpackEncoder SwQpackDecoder.
Abbreviation maxPrefix := SwQpackEncoder.maxPrefix.

(** ** The static table *)

Lemma findExact_loop_spec n v es : forall i j,
  findExact_loop n v i es = Some j ->
  i <= j < i + zlen es /\ exists e, es !! Z.to_nat (j - i) = Some e /\
    name e = contents n /\ value e = contents v.
Proof.
  induction es as [|e es IH]; intros i j H; [done|]. cbn [findExact_loop] in H.
  rewrite length_cons. destruct (matches_ n (name e) && matches_ v (value e)) eqn:E.
  - injection H as <-. split; [lia|]. exists e. rewrite Z.sub_diag. split; [done|].
    unfold matches_ in E. rewrite !andb_true_iff, !bool_decide_eq_true in E. destruct E as [[_ E1] [_ E2]]. done.
  - apply IH in H as (Hj & e' & He & Hn). split; [lia|]. exists e'. split; [|done].
    replace (Z.to_nat (j - i)) with (S (Z.to_nat (j - (i + 1)))) by lia. done.
Qed.

Lemma findName_loop_spec n es : forall i j,
  findName_loop n i es = Some j ->
  i <= j < i + zlen es /\ exists e, es !! Z.to_nat (j - i) = Some e /\ name e = contents n.
Proof.
  induction es as [|e es IH]; intros i j H; [done|]. cbn [findName_loop] in H.
  rewrite length_cons. destruct (matches_ n (name e)) eqn:E.
  - injection H as <-. split; [lia|]. exists e. rewrite Z.sub_diag. split; [done|].
    unfold matches_ in E. rewrite !andb_true_iff, !bool_decide_eq_true in E. destruct E as [_ E1]. done.
  - apply IH in H as (Hj & e' & He & Hn). split; [lia|]. exists e'. split; [|done].
    replace (Z.to_nat (j - i)) with (S (Z.to_nat (j - (i + 1)))) by lia. done.
Qed.

Lemma length_table : zlen table_ = entryCount.
Proof. reflexivity. Qed.

Lemma findExact_spec n v j : findExact n v = Some j ->
  0 <= j < 99 /\ nameValueAt j = Some (contents n, contents v).
Proof.
  intros H. apply findExact_loop_spec in H as (Hj & e & He & <- & <-).
  rewrite length_table in Hj. unfold entryCount in Hj. split; [lia|].
  unfold nameValueAt, entryCount. destruct (Z.leb_spec 99 j); [lia|].
  rewrite Z.sub_0_r in He. by rewrite He.
Qed.

Lemma findName_spec n j : findName n = Some j ->
  0 <= j < 99 /\ exists v, nameValueAt j = Some (contents n, v).
Proof.
  intros H. apply findName_loop_spec in H as (Hj & e & He & <-).
  rewrite length_table in Hj. unfold entryCount in Hj. split; [lia|]. exists (value e).
  unfold nameValueAt, entryCount. destruct (Z.leb_spec 99 j); [lia|].
  rewrite Z.sub_0_r in He. by rewrite He.
Qed.

(** ** Prefix integers *)

Fixpoint cont_wire (fuel : nat) (v : Z) : list byte :=
  match fuel with
  | O => []
  | S fuel' =>
      if 128 <=? v then z2b (Z.lor (Z.land v 0x7f) 0x80) :: cont_wire fuel' (Z.shiftr v 7)
      else [z2b (Z.land v 0x7f)]
  end.

Definition int_wire (v n pattern : Z) : list byte :=
  if v <? maxPrefix n then [z2b (Z.lor pattern v)]
  else z2b (Z.lor pattern (maxPrefix n)) :: cont_wire 10 (v - maxPrefix n).

Lemma maxPrefix_spec n : 0 <= n <= 8 -> maxPrefix n = Z.ones n.
Proof.
  intros H. assert (n = 0 \/ n = 1 \/ n = 2 \/ n = 3 \/ n = 4 \/ n = 5 \/ n = 6 \/ n = 7 \/ n = 8) as Hn by lia.
  by destruct Hn as [-> | [-> | [-> | [-> | [-> | [-> | [-> | [-> | ->]]]]]]]].
Qed.

Lemma ones_range n : 0 <= n <= 8 -> 0 <= Z.ones n < 2 ^ n /\ Z.ones n <= 255.
Proof.
  intros H. rewrite Z.ones_equiv. pose proof (Z.pow_pos_nonneg 2 n ltac:(lia) ltac:(lia)).
  assert (2 ^ n <= 2 ^ 8) by (apply Z.pow_le_mono_r; lia). lia.
Qed.

Lemma encodeInteger_loop_emits fuel : forall v, 0 <= v < 128 * 128 ^ Z.of_nat fuel ->
  emits (encodeInteger_loop (S fuel) v) (cont_wire (S fuel) v) tt.
Proof.
  induction fuel as [|fuel IH]; intros v Hv;
    cbn [encodeInteger_loop cont_wire]; destruct (Z.leb_spec 128 v) as [H|H]; try apply emits_byte.
  - change (128 ^ Z.of_nat 0) with 1 in Hv. lia.
  - apply (emits_bind _ _ [_] _ tt); [apply emits_byte|]. apply IH.
    rewrite Z.shiftr_div_pow2 by lia. change (2 ^ 7) with 128.
    rewrite Nat2Z.inj_succ, Z.pow_succ_r in Hv by lia.
    split; [apply Z.div_pos; lia|apply Z.div_lt_upper_bound; lia].
Qed.

Lemma encodeInteger_emits v n pattern :
  0 <= n <= 8 -> is_u64 v -> emits (encodeInteger_ v n pattern) (int_wire v n pattern) tt.
Proof.
  intros Hn Hv. unfold encodeInteger_, int_wire. rewrite maxPrefix_spec by done.
  pose proof (ones_range n Hn). unfold is_u64 in Hv.
  destruct (Z.ltb_spec v (Z.ones n)); [apply emits_byte|].
  apply (emits_bind _ _ [_] _ tt); [apply emits_byte|]. rewrite sub64_small by lia.
  apply (encodeInteger_loop_emits 9). split; [lia|]. apply Z.lt_le_trans with (2 ^ 64); [lia|by vm_compute].
Qed.

Lemma nextByte_parses msg b : parses (nextByte msg) [b] (b2z b).
Proof.
  intros pre suf Hs. unfold nextByte. m_run.
  pose proof (SwByteArray.size_nonneg suf). pose proof (SwByteArray.size_nonneg pre).
  rewrite SwByteArray.byteAt_head. rewrite !SwByteArray.size_app in *.
  change (SwByteArray.size [b]) with 1 in *. unfold int_max in Hs.
  destruct (_ <=? _) eqn:E; [lia|]. by rewrite add64_small by lia.
Qed.

Lemma nextByte_parses_z msg v : 0 <= v < 256 -> parses (nextByte msg) [z2b v] v.
Proof. intros H. rewrite <- (b2z_z2b_small v) at 2 by done. apply nextByte_parses. Qed.

Lemma nextByte_advances msg : advances (nextByte msg).
Proof.
  intros p off Hoff Hp. unfold nextByte. m_run. unfold u64_modulus in Hp.
  destruct (_ <=? _) eqn:E; simpl; [split; [lia|done]|].
  rewrite add64_small by lia. split; [lia|done].
Qed.

Lemma nextByte_consumes msg : consumes (nextByte msg).
Proof.
  intros p off a off' Hoff Hp. unfold nextByte. m_run.
  unfold u64_modulus in Hp. destruct (_ <=? _) eqn:E; simpl; [done|].
  rewrite add64_small by lia. intros [= _ <-]. lia.
Qed.

Lemma group_bits v : 0 <= v ->
  Z.land (Z.lor (Z.land v 0x7f) 0x80) 0x7f = v mod 128 /\
  Z.land (Z.lor (Z.land v 0x7f) 0x80) 0x80 = 0x80 /\
  0 <= Z.lor (Z.land v 0x7f) 0x80 < 256.
Proof.
  intros Hv. pose proof (land_mask v 7 ltac:(lia)) as Hm. change (Z.ones 7) with 0x7f in Hm.
  rewrite Hm. change (2 ^ 7) with 128. pose proof (Z.mod_pos_bound v 128 ltac:(lia)) as Hr.
  set (x := v mod 128) in *. clearbody x. split_and!.
  - rewrite (lor_disjoint x 128 1 7) by lia. pose proof (land_mask (x + 128) 7 ltac:(lia)) as H.
    change (Z.ones 7) with 0x7f in H. rewrite H. change (2 ^ 7) with 128.
    replace (x + 128) with (x + 1 * 128) by lia. rewrite Z.mod_add by lia. by apply Z.mod_small.
  - rewrite Z.land_lor_distr_l. change (Z.land 128 128) with 128.
    change 128 with (2 ^ 7) at 1. by rewrite land_above by lia.
  - rewrite (lor_disjoint x 128 1 7) by lia. lia.
  - rewrite (lor_disjoint x 128 1 7) by lia. lia.
Qed.

(** One turn of the decoder's loop adds its group modulo 2^64. *)
Lemma accumulate_group acc g k shift : 0 <= shift ->
  wrap64 (add64 acc (shl64 g shift) + k * 2 ^ (shift + 7)) = wrap64 (acc + (g + k * 128) * 2 ^ shift).
Proof.
  intros Hs. unfold add64, shl64, wrap64. rewrite Z.shiftl_mul_pow2, Zplus_mod_idemp_l by lia.
  rewrite Z.pow_add_r by lia. change (2 ^ 7) with 128.
  replace (acc + (g * 2 ^ shift) mod 18446744073709551616 + k * (2 ^ shift * 128))
    with ((acc + k * (2 ^ shift * 128)) + (g * 2 ^ shift) mod 18446744073709551616) by lia.
  rewrite Zplus_mod_idemp_r. f_equal. lia.
Qed.

Lemma last_group_parses fuel v acc shift :
  0 <= v -> v < 128 -> 0 <= shift ->
  parses (fun p => decodeInteger_loop (S fuel) p acc shift) [z2b (Z.land v 0x7f)] (wrap64 (acc + v * 2 ^ shift)).
Proof.
  intros H0 H Hs. cbn [decodeInteger_loop].
  assert (Z.land v 0x7f = v) as Hv.
  { change 0x7f with (Z.ones 7). rewrite land_mask by lia. by apply Z.mod_small. }
  rewrite Hv. apply (parses_bind_last (nextByte _) _ [_] v); [apply nextByte_parses_z; lia|].
  rewrite Hv. change 128 with (2 ^ 7). rewrite land_above by lia. cbn [Z.eqb].
  pose proof (accumulate_group acc v 0 shift Hs) as Hg.
  rewrite Z.mul_0_l, !Z.add_0_r in Hg. rewrite <-Hg, wrap64_small by apply wrap64_range.
  apply parses_ret.
Qed.

(** The groups of any [v] that fit the continuation bytes left are read, as
    long as the shift does not pass 63, and summed modulo 2^64. *)
Lemma decodeInteger_loop_parses fuel : forall v acc shift,
  0 <= v < 128 * 128 ^ Z.of_nat fuel -> 0 <= shift -> shift + 7 * Z.of_nat fuel <= 63 ->
  parses (fun p => decodeInteger_loop (S fuel) p acc shift) (cont_wire (S fuel) v) (wrap64 (acc + v * 2 ^ shift)).
Proof.
  induction fuel as [|fuel IH]; intros v acc shift Hv Hs Hb;
    cbn [cont_wire]; destruct (Z.leb_spec 128 v) as [H|H].
  - change (128 ^ Z.of_nat 0) with 1 in Hv. lia.
  - apply (last_group_parses 0); lia.
  - destruct (group_bits v ltac:(lia)) as (H7 & H8 & Hr).
    pose proof (Z.mod_pos_bound v 128 ltac:(lia)). pose proof (Z.div_mod v 128 ltac:(lia)) as Hdm.
    rewrite Nat2Z.inj_succ, Z.pow_succ_r in Hv by lia. cbn [decodeInteger_loop].
    apply (parses_bind (nextByte _) (fun byte p => _) [_] _ (Z.lor (Z.land v 127) 128)); [by apply nextByte_parses_z|].
    rewrite H7, H8. cbn [Z.eqb]. apply parses_check; [apply Z.ltb_ge; lia|].
    rewrite Z.shiftr_div_pow2 by lia. change (2 ^ 7) with 128.
    pose proof (accumulate_group acc (v mod 128) (v / 128) shift Hs) as Hg.
    replace (v mod 128 + v / 128 * 128) with v in Hg by lia. rewrite <-Hg. apply IH; [|lia..].
    split; [apply Z.div_pos; lia|apply Z.div_lt_upper_bound; lia].
  - apply (last_group_parses (S fuel)); lia.
Qed.

Lemma int_wire_head v n pattern : 0 <= n <= 8 -> 0 <= v ->
  exists x rest, int_wire v n pattern = z2b (Z.lor pattern x) :: rest /\ 0 <= x < 2 ^ n.
Proof.
  intros Hn Hv. unfold int_wire. rewrite maxPrefix_spec by done. pose proof (ones_range n Hn).
  destruct (Z.ltb_spec v (Z.ones n)).
  - exists v, []. split; [done|lia].
  - exists (Z.ones n), (cont_wire 10 (v - Z.ones n)). split; [done|lia].
Qed.

Lemma lor_flag pattern x n k : 0 <= n <= k -> 0 <= x < 2 ^ n ->
  Z.land (Z.lor pattern x) (2 ^ k) = Z.land pattern (2 ^ k).
Proof.
  intros Hn Hx. assert (2 ^ n <= 2 ^ k) by (apply Z.pow_le_mono_r; lia).
  rewrite Z.land_lor_distr_l, (land_above x) by lia. apply Z.lor_0_r.
Qed.

Lemma decodeInteger_parses_mod v n pattern :
  0 <= n <= 8 -> 0 <= v < 2 ^ 70 -> 0 <= pattern < 256 -> Z.land pattern (Z.ones n) = 0 ->
  parses (decodeInteger_ n) (int_wire v n pattern) (wrap64 v).
Proof.
  intros Hn Hv Hp H0. pose proof (ones_range n Hn) as Ho.
  assert (2 ^ n <= 2 ^ 8) by (apply Z.pow_le_mono_r; lia).
  assert (forall x, 0 <= x < 2 ^ n -> 0 <= Z.lor pattern x < 256 /\ Z.land (Z.lor pattern x) (Z.ones n) = x) as Hx.
  { intros x Hx. split; [apply (lor_range _ _ 8); simpl; lia|].
    rewrite Z.land_lor_distr_l, H0, Z.lor_0_l, land_mask by lia. by apply Z.mod_small. }
  unfold decodeInteger_, int_wire. change SwQpackDecoder.maxPrefix with SwQpackEncoder.maxPrefix.
  rewrite maxPrefix_spec by done. destruct (Z.ltb_spec v (Z.ones n)) as [H1|H1].
  - destruct (Hx v ltac:(lia)) as [Hr He]. rewrite wrap64_small by lia.
    apply (parses_bind_last (nextByte _) _ [_] (Z.lor pattern v)); [by apply nextByte_parses_z|].
    rewrite He. destruct (Z.ltb_spec v (Z.ones n)); [apply parses_ret|lia].
  - destruct (Hx (Z.ones n) ltac:(lia)) as [Hr He].
    apply (parses_bind (nextByte _) (fun b p => _) [_] _ (Z.lor pattern (Z.ones n))); [by apply nextByte_parses_z|].
    rewrite He, Z.ltb_irrefl.
    pose proof (decodeInteger_loop_parses 9 (v - Z.ones n) (Z.ones n) 0) as Hl.
    rewrite Z.mul_1_r in Hl. replace (Z.ones n + (v - Z.ones n)) with v in Hl by lia.
    apply Hl; [|lia..]. split; [lia|]. apply Z.le_lt_trans with (2 ^ 70 - 1); [lia|by vm_compute].
Qed.

Lemma decodeInteger_parses v n pattern :
  0 <= n <= 8 -> is_u64 v -> 0 <= pattern < 256 -> Z.land pattern (Z.ones n) = 0 ->
  parses (decodeInteger_ n) (int_wire v n pattern) v.
Proof.
  intros Hn Hv Hp H0. rewrite <-(wrap64_small v Hv) at 2. apply decodeInteger_parses_mod; [done| |done..].
  unfold is_u64 in Hv. split; [lia|]. apply Z.lt_trans with (2 ^ 64); [lia|by vm_compute].
Qed.

(** ** String literals *)

Definition str_ok (str : Bytes) : Prop := SwByteArray.size (contents str) <= int_max.

Definition string_wire (str : Bytes) (n base h : Z) : list byte :=
  match SwHpackHuffman.encode (contents str) with
  | Ok huffman =>
      if SwByteArray.size huffman <? SwByteArray.size (contents str)
      then int_wire (SwByteArray.size huffman) n (Z.lor base h) ++ huffman
      else int_wire (SwByteArray.size (contents str)) n base ++ contents str
  | _ => []
  end.

(** The two layouts of a string literal: a name, a value. *)
Definition layout (n base h : Z) : Prop := (n, base, h) = (3, 0x20, 0x08) \/ (n, base, h) = (7, 0x00, 0x80).

Lemma encodeString_emits str n base h : str_ok str -> layout n base h ->
  emits (encodeString_ str n base h) (string_wire str n base h) tt.
Proof.
  intros Hs Hl. unfold str_ok, int_max in Hs. unfold encodeString_, string_wire.
  destruct (SwHpackHuffman.encode_total (contents str)) as [huff ->].
  assert (0 <= n <= 8) as Hn by (destruct Hl as [[= -> -> ->]|[= -> -> ->]]; lia).
  pose proof (SwByteArray.size_nonneg huff). pose proof (SwByteArray.size_nonneg (contents str)).
  apply (emits_pure _ huff).
  destruct (Z.ltb_spec (SwByteArray.size huff) (SwByteArray.size (contents str)));
    (eapply emits_bind; [apply encodeInteger_emits; [done|unfold is_u64; lia]|apply emits_bytes]).
Qed.

(** The slice a length announces, and what is made of it. *)
Lemma parses_counted {B} (k : list byte -> M Z B) bs (c : bool) m1 m2 m3 b :
  c = false -> (forall off, k bs off = (Ok b, off)) ->
  parses (fun p => offset ← get;
    fail_if (SwByteArray.size p -u offset <? SwByteArray.size bs) m1;;
    fail_if c m2;; fail_if (int_max <? SwByteArray.size bs) m3;;
    put (offset +u SwByteArray.size bs);;
    k (SwByteArray.mid p (to_int offset) (to_int (SwByteArray.size bs)))) bs b.
Proof.
  intros -> Hk pre suf Hs. m_run.
  pose proof (SwByteArray.size_nonneg suf). pose proof (SwByteArray.size_nonneg pre).
  pose proof (SwByteArray.size_nonneg bs).
  rewrite !SwByteArray.size_app in *. unfold int_max in *. rewrite sub64_small, add64_small by lia.
  destruct (Z.ltb_spec (SwByteArray.size pre + (SwByteArray.size bs + SwByteArray.size suf)
    - SwByteArray.size pre) (SwByteArray.size bs)); [lia|].
  destruct (Z.ltb_spec 2147483647 (SwByteArray.size bs)); [lia|].
  rewrite !to_int_small, SwByteArray.mid_middle by lia. apply Hk.
Qed.

Lemma decodeString_body_parses len base n h m (huffman : bool) bs out :
  0 <= n <= 7 -> h = 2 ^ n -> 0 <= base < 256 -> Z.land base (Z.ones n) = 0 ->
  huffman = negb (Z.land base h =? 0) -> len = SwByteArray.size bs -> is_u64 len ->
  ((negb huffman && (m <? len)) ||
   (huffman && (m <=? u64_max / 4) && (m *u 4 <? len))) = false ->
  (if huffman then SwHpackHuffman.decode bs m = Ok out else out = bs) ->
  parses (decodeString_ n h m) (int_wire len n base ++ bs) out.
Proof.
  intros Hn -> Hb Hm Hh -> Hu Hc Ho.
  pose proof (decodeInteger_parses (SwByteArray.size bs) n base ltac:(lia) Hu Hb Hm) as Hi.
  destruct (int_wire_head (SwByteArray.size bs) n base ltac:(lia) ltac:(unfold is_u64 in Hu; lia))
    as (x & rest & Hw & Hx). rewrite Hw in *.
  assert (0 <= Z.lor base x < 256) as Hr.
  { assert (2 ^ n <= 2 ^ 7) by (apply Z.pow_le_mono_r; lia). apply (lor_range _ _ 8); simpl; lia. }
  unfold decodeString_. apply (parses_peek (fun b0 p => decodeString_octets (negb (Z.land b0 (2 ^ n) =? 0)) n m p)
    _ (z2b (Z.lor base x)) (rest ++ bs)).
  rewrite b2z_z2b_small, (lor_flag _ _ n), <- Hh by lia. unfold decodeString_octets.
  eapply (parses_bind _ _ (z2b (Z.lor base x) :: rest) bs _ _ Hi). cbv beta.
  apply (parses_counted (fun raw => if huffman then of_result (SwHpackHuffman.decode raw m) else mret raw));
    [exact Hc|]. intros off. destruct huffman; [unfold of_result; by rewrite Ho|by rewrite Ho].
Qed.

Lemma decodeString_parses str n base h m :
  str_ok str -> layout n base h -> SwByteArray.size (contents str) <= m -> m <= u64_max ->
  parses (decodeString_ n h m) (string_wire str n base h) (contents str).
Proof.
  intros Hs Hl Hm Hmax. unfold str_ok, int_max, u64_max in *. unfold string_wire.
  destruct (SwHpackHuffman.encode_total (contents str)) as [huff Hhuff]. rewrite Hhuff.
  pose proof (SwByteArray.size_nonneg huff). pose proof (SwByteArray.size_nonneg (contents str)).
  assert (SwHpackHuffman.decode huff m = Ok (contents str)) as Hd.
  { apply SwHpackHuffman.decode_inverts; [lia|by split]. }
  assert (0 <= n <= 7 /\ h = 2 ^ n /\ 0 <= base < 256 /\ 0 <= Z.lor base h < 256 /\
    Z.land base (Z.ones n) = 0 /\ Z.land (Z.lor base h) (Z.ones n) = 0 /\
    Z.land base h = 0 /\ Z.land (Z.lor base h) h <> 0) as (Hn & Hh & Hb & Hb' & H1 & H2 & H3 & H4).
  { destruct Hl as [[= -> -> ->]|[= -> -> ->]]; by_eval. }
  destruct (Z.ltb_spec (SwByteArray.size huff) (SwByteArray.size (contents str))) as [Hlt|Hlt].
  - apply (decodeString_body_parses _ _ _ _ _ true); try done; [|unfold is_u64; lia|].
    { by apply Z.eqb_neq in H4 as ->. }
    simpl. destruct (Z.leb_spec m (u64_max / 4)) as [Hq|]; [|done]. simpl.
    change (u64_max / 4) with 4611686018427387903 in Hq. rewrite mul64_small by lia.
    apply Z.ltb_ge. lia.
  - apply (decodeString_body_parses _ _ _ _ _ false); try done; [|unfold is_u64; lia|].
    { by rewrite H3. }
    simpl. rewrite orb_false_r. apply Z.ltb_ge. lia.
Qed.

Lemma string_wire_head str n base h : layout n base h ->
  exists x rest, string_wire str n base h = z2b (Z.lor base x) :: rest /\ 0 <= x < 2 ^ (n + 1).
Proof.
  intros Hl. unfold string_wire.
  destruct (SwHpackHuffman.encode_total (contents str)) as [huff ->].
  pose proof (SwByteArray.size_nonneg huff). pose proof (SwByteArray.size_nonneg (contents str)).
  assert (0 <= n <= 7 /\ h = 2 ^ n) as [Hn Hh] by (destruct Hl as [[= -> -> ->]|[= -> -> ->]]; by_eval).
  assert (2 ^ (n + 1) = 2 ^ n + 2 ^ n) as Hp by (rewrite Z.pow_add_r by lia; lia).
  destruct (_ <? _).
  - destruct (int_wire_head (SwByteArray.size huff) n (Z.lor base h) ltac:(lia) ltac:(lia)) as (x & r & -> & Hx).
    exists (Z.lor h x), (r ++ huff). rewrite Z.lor_assoc. split; [done|].
    rewrite Z.lor_comm, (lor_disjoint x h 1 n) by lia. lia.
  - destruct (int_wire_head (SwByteArray.size (contents str)) n base ltac:(lia) ltac:(lia)) as (x & r & -> & Hx).
    exists x, (r ++ contents str). split; [done|lia].
Qed.

(** ** Field lines *)

Definition field_ok (header : Bytes * Bytes) : Prop := str_ok header.1 /\ str_ok header.2.

Definition field_wire (header : Bytes * Bytes) : list byte :=
  let '(name, value) := header in
  match findExact name value with
  | Some index => int_wire index 6 0xC0
  | None =>
      match findName name with
      | Some index => int_wire index 4 0x50 ++ string_wire value 7 0x00 0x80
      | None => string_wire name 3 0x20 0x08 ++ string_wire value 7 0x00 0x80
      end
  end.

(** A field as the decoder returns it, and its size in a field section. *)
Definition plain (header : Bytes * Bytes) : list byte * list byte :=
  (contents header.1, contents header.2).

Definition cost (field : list byte * list byte) : Z :=
  32 + SwByteArray.size field.1 + SwByteArray.size field.2.

Fixpoint total_cost (fields : list (list byte * list byte)) : Z :=
  match fields with [] => 0 | f :: rest => cost f + total_cost rest end.

Lemma layout_name : layout 3 0x20 0x08.
Proof. by left. Qed.

Lemma layout_value : layout 7 0x00 0x80.
Proof. by right. Qed.

Lemma encodeField_emits header : field_ok header -> emits (encodeField header) (field_wire header) tt.
Proof.
  destruct header as [n v]. intros [Hn Hv]. simpl in Hn, Hv. unfold encodeField, field_wire.
  destruct (findExact n v) as [i|] eqn:E1.
  - apply findExact_spec in E1 as [Hi _]. apply encodeInteger_emits; unfold is_u64; lia.
  - destruct (findName n) as [i|] eqn:E2.
    + apply findName_spec in E2 as [Hi _].
      eapply emits_bind; [apply encodeInteger_emits; unfold is_u64; lia|].
      apply encodeString_emits; [done|apply layout_value].
    + eapply emits_bind; apply encodeString_emits; (done || apply layout_name || apply layout_value).
Qed.

Lemma cost_nonneg f : 32 <= cost f.
Proof.
  unfold cost. pose proof (SwByteArray.size_nonneg f.1). pose proof (SwByteArray.size_nonneg f.2). lia.
Qed.

Lemma appendField_ok name value limit st :
  0 <= st.2 -> st.2 + cost (name, value) <= limit -> limit <= u64_max ->
  appendField_ name value limit st = Ok (st.1 ++ [(name, value)], st.2 + cost (name, value)).
Proof.
  destruct st as [out used]. unfold appendField_, cost, u64_max. simpl. intros Hu Hc Hl.
  pose proof (SwByteArray.size_nonneg name). pose proof (SwByteArray.size_nonneg value).
  destruct (Z.ltb_spec limit used); [lia|]. rewrite sub64_small by lia.
  destruct (Z.ltb_spec (limit - used) 32); [lia|]. simpl.
  rewrite (add64_small used 32), sub64_small by lia.
  destruct (Z.ltb_spec (limit - (used + 32)) (SwByteArray.size name)); [lia|].
  rewrite (add64_small (used + 32)), sub64_small by lia.
  destruct (Z.ltb_spec (limit - (used + 32 + SwByteArray.size name)) (SwByteArray.size value)); [lia|].
  rewrite add64_small by lia. do 2 f_equal. lia.
Qed.

Lemma remainingBytes_ok limit used reserved :
  0 <= used -> 0 <= reserved -> used + reserved <= limit -> limit <= u64_max ->
  remainingBytes_ limit used reserved = limit - used - reserved.
Proof.
  intros Hu Hr Hl Hm. unfold remainingBytes_, u64_max in *.
  destruct (Z.ltb_spec limit used); [lia|]. rewrite !sub64_small by lia.
  destruct (Z.ltb_spec (limit - used) reserved); [lia|done].
Qed.

Lemma field_flags (pattern x n : Z) : 0 <= pattern < 256 -> 0 <= n <= 7 -> 0 <= x < 2 ^ n ->
  b2z (z2b (Z.lor pattern x)) = Z.lor pattern x /\
  (forall k, n <= k -> Z.land (Z.lor pattern x) (2 ^ k) = Z.land pattern (2 ^ k)).
Proof.
  intros Hp Hn Hx. assert (2 ^ n <= 2 ^ 7) by (apply Z.pow_le_mono_r; lia).
  split; [|intros k Hk; by apply (lor_flag _ _ n); [lia|]].
  apply b2z_z2b_small, (lor_range _ _ 8); simpl; lia.
Qed.

(** A field line is read back as its field, from the byte it starts with. *)
Lemma decodeField_parses header st limit :
  field_ok header -> 0 <= st.2 -> st.2 + cost (plain header) <= limit -> limit <= u64_max ->
  exists b rest, field_wire header = b :: rest /\
    parses (decodeField limit (b2z b) st) (field_wire header)
      (st.1 ++ [plain header], st.2 + cost (plain header)).
Proof.
  destruct header as [n v]. intros [Hn Hv] Hu Hc Hl. simpl in Hn, Hv. unfold field_wire, plain in *. simpl in *.
  pose proof (SwByteArray.size_nonneg (contents n)). pose proof (SwByteArray.size_nonneg (contents v)).
  pose proof (appendField_ok _ _ _ _ Hu Hc Hl) as Ha.
  unfold cost in Hc. simpl in Hc.
  destruct (findExact n v) as [i|] eqn:E1; [|destruct (findName n) as [i|] eqn:E2].
  - apply findExact_spec in E1 as [Hi Hat].
    pose proof (decodeInteger_parses i 6 0xC0 ltac:(lia) ltac:(unfold is_u64; lia) ltac:(lia) eq_refl) as Hp.
    destruct (int_wire_head i 6 0xC0 ltac:(lia) ltac:(lia)) as (x & r & Hw & Hx).
    destruct (field_flags 0xC0 x 6 ltac:(lia) ltac:(lia) Hx) as [Hb Hf].
    exists (z2b (Z.lor 0xC0 x)), r. split; [done|]. rewrite Hb. unfold decodeField.
    assert (Z.land (Z.lor 0xC0 x) 0x80 = 0x80) as -> by exact (Hf 7 ltac:(lia)).
    assert (Z.land (Z.lor 0xC0 x) 0x40 = 0x40) as -> by exact (Hf 6 ltac:(lia)).
    cbn [negb Z.eqb].
    apply parses_check; [reflexivity|]. eapply parses_bind_last; [exact Hp|]. rewrite Hat.
    rewrite Ha. apply parses_ret.
  - apply findName_spec in E2 as [Hi [v' Hat]].
    pose proof (decodeInteger_parses i 4 0x50 ltac:(lia) ltac:(unfold is_u64; lia) ltac:(lia) eq_refl) as Hp.
    destruct (int_wire_head i 4 0x50 ltac:(lia) ltac:(lia)) as (x & r & Hw & Hx).
    destruct (field_flags 0x50 x 4 ltac:(lia) ltac:(lia) Hx) as [Hb Hf].
    exists (z2b (Z.lor 0x50 x)), (r ++ string_wire v 7 0 128). rewrite Hw in Hp |- *. split; [done|].
    rewrite Hb. unfold decodeField.
    assert (Z.land (Z.lor 0x50 x) 0x80 = 0) as -> by exact (Hf 7 ltac:(lia)).
    assert (Z.land (Z.lor 0x50 x) 0x40 = 0x40) as -> by exact (Hf 6 ltac:(lia)).
    assert (Z.land (Z.lor 0x50 x) 0x10 = 0x10) as -> by exact (Hf 4 ltac:(lia)).
    cbn [negb Z.eqb].
    apply parses_check; [reflexivity|]. eapply parses_bind; [exact Hp|]. rewrite Hat. cbv zeta.
    rewrite remainingBytes_ok by lia.
    eapply parses_bind_last; [apply decodeString_parses; [done|apply layout_value|lia|lia]|].
    rewrite Ha. apply parses_ret.
  - destruct (string_wire_head n 3 0x20 0x08 layout_name) as (x & r & Hw & Hx).
    destruct (field_flags 0x20 x 4 ltac:(lia) ltac:(lia) Hx) as [Hb Hf].
    pose proof (decodeString_parses n 3 0x20 0x08 (limit - st.2 - 0) Hn layout_name ltac:(lia) ltac:(lia)) as Hp.
    exists (z2b (Z.lor 0x20 x)), (r ++ string_wire v 7 0 128). rewrite Hw in Hp |- *. split; [done|].
    rewrite Hb. unfold decodeField.
    assert (Z.land (Z.lor 0x20 x) 0x80 = 0) as -> by exact (Hf 7 ltac:(lia)).
    assert (Z.land (Z.lor 0x20 x) 0x40 = 0) as -> by exact (Hf 6 ltac:(lia)).
    assert (Z.land (Z.lor 0x20 x) 0x20 = 0x20) as -> by exact (Hf 5 ltac:(lia)).
    cbn [negb Z.eqb].
    cbv zeta. rewrite remainingBytes_ok by lia.
    eapply parses_bind; [exact Hp|]. rewrite remainingBytes_ok by lia.
    eapply parses_bind_last; [apply decodeString_parses; [done|apply layout_value|lia|lia]|].
    rewrite Ha. apply parses_ret.
Qed.

(** ** Field sections *)

Lemma encodeFields_emits headers : Forall field_ok headers ->
  emits (encodeFields headers) (flat_map field_wire headers) tt.
Proof.
  induction 1 as [|h hs Hh _ IH]; [apply emits_ret|]. cbn [encodeFields flat_map].
  eapply emits_bind; [by apply encodeField_emits|exact IH].
Qed.

Lemma decodeFields_wire headers : forall pre st fuel maxFieldCount limit,
  Forall field_ok headers ->
  SwByteArray.size (pre ++ flat_map field_wire headers) <= int_max ->
  (maxFieldCount = 0 \/ zlen st.1 + zlen headers <= maxFieldCount) ->
  0 <= st.2 -> st.2 + total_cost (map plain headers) <= limit -> limit <= u64_max ->
  (length headers < fuel)%nat ->
  let input := pre ++ flat_map field_wire headers in
  decodeFields fuel maxFieldCount limit st input (SwByteArray.size pre) =
    (Ok (st.1 ++ map plain headers, st.2 + total_cost (map plain headers)), SwByteArray.size input).
Proof.
  induction headers as [|h hs IH]; intros pre st fuel maxF limit Hok Hs Hf Hu Hc Hl Hfuel; cbv zeta.
  - destruct fuel as [|fuel]; [simpl in Hfuel; lia|]. cbn [decodeFields flat_map map total_cost].
    rewrite !app_nil_r. m_run. rewrite Z.leb_refl. destruct st as [o u]. simpl. by rewrite Z.add_0_r.
  - destruct fuel as [|fuel]; [simpl in Hfuel; lia|].
    apply Forall_cons_1 in Hok as [Hh Hhs]. cbn [map total_cost] in Hc.
    assert (0 <= total_cost (map plain hs)) as Ht.
    { clear. induction hs as [|h hs IH]; [done|]. simpl. pose proof (cost_nonneg (plain h)). simpl in *. lia. }
    destruct (decodeField_parses h st limit Hh Hu ltac:(lia) Hl) as (b & rest & Hw & Hp).
    cbn [flat_map] in Hs |- *. specialize (Hp pre (flat_map field_wire hs) Hs).
    cbn [decodeFields]. m_run.
    assert (SwByteArray.byteAt (pre ++ field_wire h ++ flat_map field_wire hs) (SwByteArray.size pre) = b2z b) as ->
      by (rewrite Hw; apply SwByteArray.byteAt_middle).
    pose proof (SwByteArray.size_nonneg pre). pose proof (SwByteArray.size_nonneg (flat_map field_wire hs)).
    pose proof (SwByteArray.size_nonneg rest).
    assert (SwByteArray.size (field_wire h) = 1 + SwByteArray.size rest) as Hwl by (by rewrite Hw, SwByteArray.size_cons).
    rewrite !SwByteArray.size_app in Hs.
    destruct (Z.leb_spec (SwByteArray.size (pre ++ field_wire h ++ flat_map field_wire hs)) (SwByteArray.size pre)) as [Hle|_];
      [rewrite !SwByteArray.size_app in Hle; lia|].
    assert ((0 <? maxF) && (maxF <=? zlen st.1) = false) as ->.
    { apply andb_false_iff. rewrite length_cons in Hf. destruct Hf as [->|Hf]; [by left|right]. apply Z.leb_gt. lia. }
    rewrite Hp. rewrite app_assoc in Hp |- *.
    rewrite (IH (pre ++ field_wire h) _ fuel maxF limit); [..|simpl in Hfuel; lia]; simpl; try done; try lia.
    + rewrite <- app_assoc. do 3 f_equal. lia.
    + rewrite !SwByteArray.size_app. lia.
    + destruct Hf as [->|Hf]; [by left|right]. rewrite length_app. simpl length in *. lia.
    + pose proof (cost_nonneg (plain h)). lia.
Qed.

Lemma total_cost_nonneg fields : 0 <= total_cost fields.
Proof. induction fields as [|f fs IH]; [done|]. simpl. pose proof (cost_nonneg f). lia. Qed.

Lemma fields_wire_length headers : Forall field_ok headers ->
  (length headers <= length (flat_map field_wire headers))%nat.
Proof.
  induction 1 as [|h hs Hh _ IH]; [done|]. cbn [flat_map]. rewrite length_app, length_cons.
  destruct (decodeField_parses h ([], 0) (cost (plain h)) Hh ltac:(done) ltac:(simpl; lia)) as (b & r & -> & _).
  { destruct h as [n v], Hh as [H1 H2]. unfold str_ok, int_max, cost, u64_max in *. simpl in *. lia. }
  rewrite length_cons. lia.
Qed.

(** C33: a field section survives the wire. Whatever mix of indexed lines, name
    references, literals and Huffman codes the encoder chose, the decoder
    returns the same names and values in order, provided they fit the field
    count and the field-section size it was configured with (0 for none). *)
Theorem field_section_roundtrip headers maxFieldCount maxDecodedBytes out0 :
  Forall field_ok headers -> 0 <= maxDecodedBytes <= u64_max ->
  SwByteArray.size (flat_map field_wire headers) <= int_max - 2 ->
  (maxFieldCount = 0 \/ zlen headers <= maxFieldCount) ->
  total_cost (map plain headers) <= (if maxDecodedBytes =? 0 then u64_max else maxDecodedBytes) ->
  exists section, encodeFieldSection headers out0 = (Ok tt, section) /\
    decodeFieldSection section maxFieldCount maxDecodedBytes = Ok (map plain headers).
Proof.
  intros Hok Hm Hs Hf Hc. exists ([x00; x00] ++ flat_map field_wire headers). split.
  - unfold encodeFieldSection. assert (emits (emit_byte 0;; emit_byte 0;; encodeFields headers)
      ([x00] ++ [x00] ++ flat_map field_wire headers) tt) as He.
    { eapply emits_bind; [apply emits_byte|]. eapply emits_bind; [apply emits_byte|by apply encodeFields_emits]. }
    apply (He []).
  - unfold decodeFieldSection. set (limit := if maxDecodedBytes =? 0 then _ else _) in *.
    assert (limit <= u64_max) as Hl by (unfold limit; destruct (maxDecodedBytes =? 0); [done|lia]).
    set (input := [x00; x00] ++ flat_map field_wire headers).
    assert (SwByteArray.size input <= int_max) as Hi
      by (unfold input; rewrite SwByteArray.size_app; change (SwByteArray.size [x00; x00]) with 2; lia).
    pose proof (decodeInteger_parses 0 8 0 ltac:(lia) ltac:(unfold is_u64; lia) ltac:(lia) eq_refl []
      ([x00] ++ flat_map field_wire headers) Hi) as H8.
    pose proof (decodeInteger_parses 0 7 0 ltac:(lia) ltac:(unfold is_u64; lia) ltac:(lia) eq_refl [x00]
      (flat_map field_wire headers) Hi) as H7.
    change ([] ++ int_wire 0 8 0 ++ [x00] ++ flat_map field_wire headers) with input in H8.
    change ([x00] ++ int_wire 0 7 0 ++ flat_map field_wire headers) with input in H7.
    change (SwByteArray.size []) with 0 in H8.
    change (SwByteArray.size ([] ++ int_wire 0 8 0)) with (SwByteArray.size [x00]) in H8.
    pose proof (decodeFields_wire headers [x00; x00] ([], 0) (S (length input)) maxFieldCount limit Hok Hi
      Hf ltac:(done) Hc Hl) as Hd.
    pose proof (fields_wire_length headers Hok).
    m_run. rewrite H8. cbn [Z.eqb negb]. rewrite H7. cbn [Z.eqb negb].
    change (SwByteArray.size ([x00] ++ int_wire 0 7 0)) with (SwByteArray.size [x00; x00]).
    unfold input at 2. rewrite Hd; [done|].
    unfold input. rewrite length_app. simpl length. lia.
Qed.

Definition text (s : string) : Bytes := mkBytes false (String.list_byte_of_string s).

Definition example_headers : list (Bytes * Bytes) :=
  [(text ":method", text "GET"); (text ":path", text "/index.html");
   (text "x-trace", text "abcdefgh"); (text "cookie", mkBytes true [])].

Lemma field_section_roundtrip_witness :
  exists section, encodeFieldSection example_headers [] = (Ok tt, section) /\
    decodeFieldSection section 4 300 = Ok (map plain example_headers).
Proof.
  apply (field_section_roundtrip example_headers 4 300 []).
  - repeat constructor; by_eval.
  - by_eval.
  - by_eval.
  - right. by_eval.
  - by_eval.
Defined.

(** ** Any field section *)

Lemma decodeInteger_loop_total fuel : forall value shift,
  63 < shift + 7 * Z.of_nat (S fuel) ->
  advances (fun p => decodeInteger_loop (S fuel) p value shift).
Proof.
  induction fuel as [|fuel IH]; intros value shift Hf;
    (apply advances_bind; [apply nextByte_advances|intros b]; cbv zeta;
     destruct (Z.land b 128 =? 0); [apply advances_ret|]).
  - intros p off Hoff Hp. m_run. destruct (Z.ltb_spec 63 (shift + 7)); [simpl; split; [lia|done]|lia].
  - apply advances_bind; [apply advances_fail_if|intros _]. apply IH. lia.
Qed.

Lemma decodeInteger_advances n : advances (decodeInteger_ n).
Proof.
  unfold decodeInteger_. apply advances_bind; [apply nextByte_advances|intros b].
  apply advances_if; [apply advances_ret|by apply (decodeInteger_loop_total 9)].
Qed.

Lemma decodeInteger_consumes n : consumes (decodeInteger_ n).
Proof.
  unfold decodeInteger_. apply consumes_bind; [apply nextByte_advances|apply nextByte_consumes|].
  intros b. apply advances_if; [apply advances_ret|by apply (decodeInteger_loop_total 9)].
Qed.

Lemma decodeInteger_loop_returns fuel : forall value shift,
  0 <= value -> returns (fun p => decodeInteger_loop fuel p value shift) (fun v => 0 <= v).
Proof.
  induction fuel as [|fuel IH]; intros value shift Hv p off a off' Hoff Hp H; [done|].
  cbn [decodeInteger_loop] in H. apply bind_ok in H as (b & s & H1 & H).
  pose proof (wrap64_range (value + shl64 (Z.land b 127) shift)) as Hr. 
  destruct (Z.land b 128 =? 0).
  - injection H as <- _. apply Hr.
  - apply bind_ok in H as (u & s' & H2 & H).
    pose proof (proj1 (nextByte_advances "QPACK integer continuation is truncated" p off Hoff Hp)) as Ho. rewrite H1 in Ho. simpl in Ho.
    refine (IH _ (shift + 7) (proj1 Hr) p s' a off' _ Hp H).
    unfold fail_if in H2. destruct (63 <? shift + 7); [done|]. injection H2 as <-. lia.
Qed.

Lemma decodeInteger_returns n : returns (decodeInteger_ n) (fun v => 0 <= v).
Proof.
  intros p off a off' Hoff Hp H. unfold decodeInteger_ in H. apply bind_ok in H as (b & s & H1 & H).
  pose proof (proj1 (nextByte_advances "QPACK integer is truncated" p off Hoff Hp)) as Ho. rewrite H1 in Ho. simpl in Ho.
  assert (0 <= Z.land b (SwQpackDecoder.maxPrefix n)) as Hb.
  { apply Z.land_nonneg. right. apply Z.mod_pos_bound. lia. }
  destruct (_ <? _); [injection H as <- _; exact Hb|].
  refine (decodeInteger_loop_returns 10 _ 0 Hb p s a off' _ Hp H). lia.
Qed.

Lemma decodeString_octets_advances huffman n m : 0 <= m -> advances (decodeString_octets huffman n m).
Proof.
  intros Hm. unfold decodeString_octets.
  eapply advances_bind_post; [apply decodeInteger_advances|apply decodeInteger_returns|].
  intros len Hlen p off Hoff Hp. cbv beta in Hlen. unfold u64_modulus in Hp. m_run. rewrite sub64_small by lia.
  destruct (Z.ltb_spec (SwByteArray.size p - off) len); [simpl; split; [lia|done]|].

  destruct (_ || _); [simpl; split; [lia|done]|].
  destruct (int_max <? len); [simpl; split; [lia|done]|].
  rewrite add64_small by lia.
  destruct huffman; simpl; (split; [lia|]); [|done].
  pose proof (SwHpackHuffman.decode_never_stuck (SwByteArray.mid p (to_int off) (to_int len)) m Hm).
  done.
Qed.

Lemma decodeString_advances n h m : 0 <= m -> advances (decodeString_ n h m).
Proof.
  intros Hm p off Hoff Hp. unfold decodeString_. m_run.
  destruct (SwByteArray.size p <=? off); [simpl; split; [lia|done]|].
  by apply decodeString_octets_advances.
Qed.

Lemma decodeString_consumes n h m : 0 <= m -> consumes (decodeString_ n h m).
Proof.
  intros Hm p off a off' Hoff Hp H. unfold decodeString_ in H. m_run. revert H. m_run.
  destruct (SwByteArray.size p <=? off); [done|]. cbv beta iota. intros H.
  unfold decodeString_octets in H. apply bind_ok in H as (len & s & H1 & H).
  pose proof (decodeInteger_consumes n p off len s Hoff Hp H1).
  pose proof (proj1 (decodeInteger_advances n p off Hoff Hp)) as Ho. rewrite H1 in Ho. simpl in Ho.
  pose proof (decodeInteger_returns n p off len s Hoff Hp H1) as Hl. simpl in Hl.
  revert H. unfold u64_modulus in Hp. m_run. rewrite sub64_small by lia.
  destruct (Z.ltb_spec (SwByteArray.size p - s) len); [done|]. cbv beta iota.
  destruct (_ || _); [done|]. destruct (int_max <? len); [done|]. cbv beta iota zeta.
  rewrite add64_small by lia.
  destruct (negb (Z.land (SwByteArray.byteAt p off) h =? 0)); intros [= _ <-]; lia.
Qed.

(** What [appendField_] may do: refuse, or add one field within the limit. *)
Lemma appendField_inv name value limit st st' :
  0 <= st.2 -> 0 <= limit <= u64_max -> appendField_ name value limit st = Ok st' ->
  st' = (st.1 ++ [(name, value)], st.2 + cost (name, value)) /\ st'.2 <= limit.
Proof.
  destruct st as [out used]. unfold appendField_, cost, u64_max. simpl. intros Hu Hl.
  pose proof (SwByteArray.size_nonneg name). pose proof (SwByteArray.size_nonneg value).
  destruct (Z.ltb_spec limit used); [done|]. rewrite sub64_small by lia.
  destruct (Z.ltb_spec (limit - used) 32); [done|]. simpl.
  rewrite (add64_small used 32), sub64_small by lia.
  destruct (Z.ltb_spec (limit - (used + 32)) (SwByteArray.size name)); [done|].
  rewrite (add64_small (used + 32)), sub64_small by lia.
  destruct (Z.ltb_spec (limit - (used + 32 + SwByteArray.size name)) (SwByteArray.size value)); [done|].
  rewrite add64_small by lia. intros [= <-]. simpl. split; [f_equal; lia|lia].
Qed.

Lemma appendField_fuel name value limit st : appendField_ name value limit st <> NoFuel.
Proof. destruct st as [out used]. unfold appendField_. by repeat case_match. Qed.

Lemma remainingBytes_nonneg limit used reserved : 0 <= remainingBytes_ limit used reserved.
Proof. unfold remainingBytes_. destruct (_ || _); [lia|apply wrap64_range]. Qed.

(** One more field, paid for and within the limit. *)
Definition grown (limit : Z) (st st' : Fields) : Prop :=
  exists f, st' = (st.1 ++ [f], st.2 + cost f) /\ st'.2 <= limit.

Lemma appendField_grown name value limit st :
  0 <= st.2 -> 0 <= limit <= u64_max ->
  forall st', appendField_ name value limit st = Ok st' -> grown limit st st'.
Proof. intros Hu Hl st' H. exists (name, value). by apply (appendField_inv _ _ _ _ _ Hu Hl). Qed.

#[local] Hint Resolve decodeInteger_advances decodeInteger_consumes decodeString_advances
  decodeString_consumes remainingBytes_nonneg appendField_fuel advances_of_result : codec.

Lemma decodeField_advances limit first st : advances (decodeField limit first st).
Proof.
  unfold decodeField. repeat apply advances_if; try apply advances_throw.
  - apply advances_bind; [apply advances_fail_if|intros _].
    apply advances_bind; [apply decodeInteger_advances|intros i].
    destruct (nameValueAt i) as [[n v]|]; [|apply advances_throw].
    apply advances_of_result, appendField_fuel.
  - apply advances_bind; [apply advances_fail_if|intros _].
    apply advances_bind; [apply decodeInteger_advances|intros i].
    destruct (nameValueAt i) as [[n v]|]; [|apply advances_throw]. cbv zeta.
    apply advances_bind; [apply decodeString_advances, remainingBytes_nonneg|intros w].
    apply advances_of_result, appendField_fuel.
  - cbv zeta. apply advances_bind; [apply decodeString_advances, remainingBytes_nonneg|intros w].
    apply advances_bind; [apply decodeString_advances, remainingBytes_nonneg|intros w'].
    apply advances_of_result, appendField_fuel.
Qed.

Lemma decodeField_returns limit first st :
  0 <= st.2 -> 0 <= limit <= u64_max -> returns (decodeField limit first st) (grown limit st).
Proof.
  intros Hu Hl. pose proof (fun n v => returns_of_result (appendField_ n v limit st) _
    (appendField_grown n v limit st Hu Hl)) as Ha.
  unfold decodeField. repeat apply returns_if; try apply returns_throw.
  - apply returns_check; intros _.
    eapply returns_bind; [apply decodeInteger_advances|apply returns_weaken|intros i _].
    destruct (nameValueAt i) as [[n v]|]; [apply Ha|apply returns_throw].
  - apply returns_check; intros _.
    eapply returns_bind; [apply decodeInteger_advances|apply returns_weaken|intros i _].
    destruct (nameValueAt i) as [[n v]|]; [|apply returns_throw]. cbv zeta.
    eapply returns_bind; [apply decodeString_advances, remainingBytes_nonneg|apply returns_weaken|].
    intros w _. apply Ha.
  - cbv zeta. eapply returns_bind; [apply decodeString_advances, remainingBytes_nonneg|apply returns_weaken|].
    intros w _.
    eapply returns_bind; [apply decodeString_advances, remainingBytes_nonneg|apply returns_weaken|].
    intros w' _. apply Ha.
Qed.

Lemma decodeField_consumes limit first st : consumes (decodeField limit first st).
Proof.
  unfold decodeField. repeat apply consumes_if; try apply consumes_throw.
  - apply consumes_check, consumes_bind; [apply decodeInteger_advances|apply decodeInteger_consumes|].
    intros i. destruct (nameValueAt i) as [[n v]|]; [|apply advances_throw].
    apply advances_of_result, appendField_fuel.
  - apply consumes_check, consumes_bind; [apply decodeInteger_advances|apply decodeInteger_consumes|].
    intros i. destruct (nameValueAt i) as [[n v]|]; [|apply advances_throw]. cbv zeta.
    apply advances_bind; [apply decodeString_advances, remainingBytes_nonneg|intros w].
    apply advances_of_result, appendField_fuel.
  - cbv zeta. apply consumes_bind; [apply decodeString_advances, remainingBytes_nonneg|
      apply decodeString_consumes, remainingBytes_nonneg|intros w].
    apply advances_bind; [apply decodeString_advances, remainingBytes_nonneg|intros w'].
    apply advances_of_result, appendField_fuel.
Qed.

(** What the loop maintains: the byte count is the cost of the fields so far,
    within the limit, and their number is within the configured maximum. *)
Definition accounted (maxFieldCount limit : Z) (st : Fields) : Prop :=
  st.2 = total_cost st.1 /\ st.2 <= limit /\ (0 < maxFieldCount -> zlen st.1 <= maxFieldCount).

Lemma total_cost_app a b : total_cost (a ++ b) = total_cost a + total_cost b.
Proof. induction a as [|f a IH]; [done|]. simpl. rewrite IH. lia. Qed.

Lemma decodeFields_accounted fuel maxFieldCount limit : forall st input off,
  accounted maxFieldCount limit st -> 0 <= limit <= u64_max ->
  0 <= off <= SwByteArray.size input -> SwByteArray.size input < u64_modulus ->
  SwByteArray.size input - off < Z.of_nat fuel ->
  match (decodeFields fuel maxFieldCount limit st input off).1 with
  | Ok st' => accounted maxFieldCount limit st'
  | Err _ => True
  | NoFuel => False
  end.
Proof.
  induction fuel as [|fuel IH]; intros st input off (Hu & Hl & Hc) Hlim Hoff Hp Hf; [lia|].
  cbn [decodeFields]. m_run.
  destruct (Z.leb_spec (SwByteArray.size input) off) as [_|Hlt]; [by split_and!|].
  destruct ((0 <? maxFieldCount) && (maxFieldCount <=? zlen st.1)) eqn:Ec; [done|]. cbv beta iota.
  assert (0 <= st.2) as H0 by (rewrite Hu; apply total_cost_nonneg).
  set (first := SwByteArray.byteAt input off).
  destruct (decodeField_advances limit first st input off Hoff Hp) as [Ha Hn].
  destruct (decodeField limit first st input off) as [[st'|e|] off'] eqn:E; [|done|done]. simpl in Ha.
  destruct (decodeField_returns limit first st H0 Hlim input off st' off' Hoff Hp E) as (f & -> & Hle).
  pose proof (decodeField_consumes limit first st input off _ off' Hoff Hp E).
  apply IH; try done; try lia. simpl in Hle. split_and!; simpl; [|done|].
  - rewrite total_cost_app, Hu. simpl. lia.
  - intros Hm. rewrite length_app. simpl. rewrite andb_false_iff in Ec.
    destruct Ec as [Ec|Ec]; [apply Z.ltb_ge in Ec|apply Z.leb_gt in Ec]; lia.
Qed.

(** On any input whatever the decoder terminates, and a field section it
    accepts respects its limits: no more fields than configured, and a total
    size (name, value and 32 bytes per line) within the configured bound. *)
Theorem decodeFieldSection_limits input maxFieldCount maxDecodedBytes :
  SwByteArray.size input < u64_modulus -> 0 <= maxDecodedBytes <= u64_max ->
  match decodeFieldSection input maxFieldCount maxDecodedBytes with
  | Ok fields =>
      (0 < maxFieldCount -> zlen fields <= maxFieldCount) /\
      (maxDecodedBytes <> 0 -> total_cost fields <= maxDecodedBytes)
  | Err _ => True
  | NoFuel => False
  end.
Proof.
  intros Hp Hm. unfold decodeFieldSection. set (limit := if maxDecodedBytes =? 0 then _ else _).
  assert (0 <= limit <= u64_max) as Hl by (unfold limit; destruct (_ =? _); [done|lia]).
  pose proof (SwByteArray.size_nonneg input). m_run.
  destruct (decodeInteger_advances 8 input 0 ltac:(lia) Hp) as [H1 N1].
  destruct (decodeInteger_ 8 input 0) as [[r|e|] o1]; [|done|done]. simpl in H1.
  destruct (negb (r =? 0)); [done|]. cbv beta iota.
  destruct (decodeInteger_advances 7 input o1 ltac:(lia) Hp) as [H2 N2].
  destruct (decodeInteger_ 7 input o1) as [[d|e|] o2]; [|done|done]. simpl in H2.
  destruct (negb (d =? 0)); [done|]. cbv beta iota.
  pose proof (decodeFields_accounted (S (length input)) maxFieldCount limit ([], 0) input o2) as Hd.
  destruct (decodeFields _ _ _ _ _ _) as [[[out used]|e|] o3]; simpl in *.
  - destruct Hd as (Hu & Hle & Hc); try done; try (unfold SwByteArray.size in *; lia).
    { split_and!; simpl; lia. }
    simpl in *. split; [done|]. intros Hz. unfold limit in Hle.
    destruct (Z.eqb_spec maxDecodedBytes 0); lia.
  - done.
  - apply Hd; try done; try (unfold SwByteArray.size in *; lia). split_and!; simpl; lia.
Qed.

Lemma decodeFieldSection_limits_witness :
  let input := [x00; x00; xd1; xc1] in
  match decodeFieldSection input 2 100 with
  | Ok fields =>
      (0 < 2 -> zlen fields <= 2) /\ (100 <> 0 -> total_cost fields <= 100)
  | Err _ => True
  | NoFuel => False
  end /\ is_ok (decodeFieldSection input 2 100) = true.
Proof. split; [apply decodeFieldSection_limits; by_eval|reflexivity]. Defined.

(** The integer decoder reads every prefix integer of up to ten continuation
    bytes, at any position and before any suffix, as its value modulo 2^64: a
    64-bit value is read back exactly as the encoder wrote it, and a larger one
    is neither refused nor read exactly, but silently reduced. *)
Theorem integer_read_modulo v n pattern pre suf :
  0 <= n <= 8 -> 0 <= v < 2 ^ 70 -> 0 <= pattern < 256 -> Z.land pattern (Z.ones n) = 0 ->
  let wire := int_wire v n pattern in
  SwByteArray.size (pre ++ wire ++ suf) <= int_max ->
  decodeInteger_ n (pre ++ wire ++ suf) (SwByteArray.size pre)
    = (Ok (v mod 2 ^ 64), SwByteArray.size (pre ++ wire)) /\
  (is_u64 v -> encodeInteger_ v n pattern pre = (Ok tt, pre ++ wire) /\ v mod 2 ^ 64 = v).
Proof.
  intros Hn Hv Hp H0 wire Hs. split.
  - by apply decodeInteger_parses_mod.
  - intros Hu. split; [by apply encodeInteger_emits|by apply wrap64_small].
Qed.

(** 15 + 2^64, behind a prefix of four bits, is read as 15. *)
Lemma integer_read_modulo_witness :
  let wire := [x5f; x80; x80; x80; x80; x80; x80; x80; x80; x80; x02] in
  int_wire (15 + 2 ^ 64) 4 0x50 = wire /\ decodeInteger_ 4 wire 0 = (Ok 15, 11).
Proof.
  split; [by vm_compute|].
  apply (integer_read_modulo (15 + 2 ^ 64) 4 0x50 [] []); by_eval.
Defined.

End SwQpack.
