(* ===== verification/Http3Frame.v ===== *)
(** HTTP/3 frames and their codec:
    src/src/core/io/http3/SwHttp3FrameCodec.h. *)
From Stdlib Require Import ZArith Lia Strings.Byte.
From stdpp Require Import base list strings numbers.
From S2P Require Import Prelude ByteArray Codec VarInt.

Module SwHttp3Frame.

Inductive Type_ :=
| Data | Headers | CancelPush | Settings | PushPromise | GoAway | MaxPushId | Unknown.

#[global] Instance Type_eq_decision : EqDecision Type_.
Proof. solve_decision. Defined.

Definition typeData : Z := 0x00.
Definition typeHeaders : Z := 0x01.
Definition typeCancelPush : Z := 0x03.
Definition typeSettings : Z := 0x04.
Definition typePushPromise : Z := 0x05.
Definition typeGoAway : Z := 0x07.
Definition typeMaxPushId : Z := 0x0d.

Definition Setting : Type := Z * Z.

Record t := mk {
  m_type : Type_;
  m_rawType : Z;
  m_id : Z;
  m_payload : list byte;
  m_settings : list Setting
}.

Definition data (payload : list byte) : t := mk Data typeData 0 payload [].

Definition headers (payload : list byte) : t := mk Headers typeHeaders 0 payload [].

Definition settings (pairs : list Setting) : t := mk Settings typeSettings 0 [] pairs.

Definition goAway (id : Z) : t := mk GoAway typeGoAway id [] [].

Definition maxPushId (id : Z) : t := mk MaxPushId typeMaxPushId id [] [].

Definition cancelPush (id : Z) : t := mk CancelPush typeCancelPush id [] [].

Definition pushPromise (pushId : Z) (encodedFieldSection : list byte) : t :=
  mk PushPromise typePushPromise pushId encodedFieldSection [].

Definition unknown (rawType : Z) (payload : list byte) : t := mk Unknown rawType 0 payload [].

End SwHttp3Frame.

Module SwHttp3FrameCodec.

Import SwHttp3Frame.

Definition appendVarInt_ (value : Z) : Enc unit := SwQuicVarIntCodec.encode value.

Definition readVarInt_ (buffer : list byte) : M Z Z := SwQuicVarIntCodec.decode buffer.

Definition readSlice_ (buffer : list byte) (length : Z) : M Z (list byte) :=
  fail_if (int_max <? length) "HTTP/3 frame length is too large for SwByteArray slicing";;
  offset ← get;
  fail_if ((SwByteArray.size buffer <? offset) || (SwByteArray.size buffer -u offset <? length))
    "HTTP/3 frame payload is truncated";;
  put (offset +u length);;
  mret (if length =? 0 then [] else SwByteArray.mid buffer (to_int offset) (to_int length)).

Fixpoint buildSettings_ (pairs : list Setting) : Enc unit :=
  match pairs with
  | [] => mret tt
  | (identifier, value) :: rest =>
      appendVarInt_ identifier;; appendVarInt_ value;; buildSettings_ rest
  end.

(** Appends the payload of [frame] and returns its type code. *)
Definition buildPayload_ (frame : t) : Enc Z :=
  match m_type frame with
  | Data => emit_bytes (m_payload frame);; mret typeData
  | Headers => emit_bytes (m_payload frame);; mret typeHeaders
  | CancelPush => appendVarInt_ (m_id frame);; mret typeCancelPush
  | Settings => buildSettings_ (m_settings frame);; mret typeSettings
  | PushPromise =>
      appendVarInt_ (m_id frame);; emit_bytes (m_payload frame);; mret typePushPromise
  | GoAway => appendVarInt_ (m_id frame);; mret typeGoAway
  | MaxPushId => appendVarInt_ (m_id frame);; mret typeMaxPushId
  | Unknown => emit_bytes (m_payload frame);; mret (m_rawType frame)
  end.

Definition encodeFrame (frame : t) : Enc unit :=
  let (r, payload) := buildPayload_ frame [] in
  typeValue ← of_result r;
  appendVarInt_ typeValue;;
  appendVarInt_ (SwByteArray.size payload);;
  emit_bytes payload.

Definition readSinglePayloadVarInt_ (payload : list byte) : result Z :=
  match readVarInt_ payload 0 with
  | (Ok value, inner) =>
      if negb (inner =? SwByteArray.size payload)
      then Err "HTTP/3 frame has trailing bytes after its value" else Ok value
  | (Err e, _) => Err e
  | (NoFuel, _) => NoFuel
  end.

Fixpoint parseSettings_loop (fuel : nat) (payload : list byte) (outPairs : list Setting) :
    M Z (list Setting) :=
  match fuel with
  | O => out_of_fuel
  | S fuel' =>
      inner ← get;
      if SwByteArray.size payload <=? inner then mret outPairs
      else
        identifier ← readVarInt_ payload;
        value ← readVarInt_ payload;
        parseSettings_loop fuel' payload (outPairs ++ [(identifier, value)])
  end.

Definition parseSettings_ (payload : list byte) : result (list Setting) :=
  (parseSettings_loop (S (length payload)) payload [] 0).1.

Definition result_map {A B} (f : A -> B) (r : result A) : result B :=
  match r with Ok a => Ok (f a) | Err e => Err e | NoFuel => NoFuel end.

(** The dispatch of [decodeFrame] on the type, the payload having been sliced. *)
Definition interpret (typeValue : Z) (payload : list byte) : result t :=
  if typeValue =? typeData then Ok (data payload)
  else if typeValue =? typeHeaders then Ok (headers payload)
  else if typeValue =? typeCancelPush then result_map cancelPush (readSinglePayloadVarInt_ payload)
  else if typeValue =? typeSettings then result_map settings (parseSettings_ payload)
  else if typeValue =? typePushPromise then
    match readVarInt_ payload 0 with
    | (Ok pushId, inner) =>
        Ok (pushPromise pushId
              (SwByteArray.mid payload (to_int inner) (to_int (SwByteArray.size payload -u inner))))
    | (Err e, _) => Err e
    | (NoFuel, _) => NoFuel
    end
  else if typeValue =? typeGoAway then result_map goAway (readSinglePayloadVarInt_ payload)
  else if typeValue =? typeMaxPushId then result_map maxPushId (readSinglePayloadVarInt_ payload)
  else Ok (unknown typeValue payload).

Definition decodeFrame (buffer : list byte) : M Z t :=
  typeValue ← readVarInt_ buffer;
  length ← readVarInt_ buffer;
  payload ← readSlice_ buffer length;
  of_result (interpret typeValue payload).

(** ** Well-formed frames and their wire form *)

Abbreviation vi := SwQuicVarIntCodec.valid.

Definition known_types : list Z :=
  [typeData; typeHeaders; typeCancelPush; typeSettings; typePushPromise; typeGoAway; typeMaxPushId].

Definition pair_ok (p : Setting) : Prop := vi p.1 /\ vi p.2.

(** The frames the factories build, from values the wire can carry. *)
Inductive wf : t -> Prop :=
| wf_data p : wf (data p)
| wf_headers p : wf (headers p)
| wf_cancelPush id : vi id -> wf (cancelPush id)
| wf_settings pairs : Forall pair_ok pairs -> wf (settings pairs)
| wf_pushPromise id p : vi id -> wf (pushPromise id p)
| wf_goAway id : vi id -> wf (goAway id)
| wf_maxPushId id : vi id -> wf (maxPushId id)
| wf_unknown raw p : vi raw -> ~ In raw known_types -> wf (unknown raw p).

Abbreviation wire := SwQuicVarIntCodec.wire.

Definition pair_wire (p : Setting) : list byte := wire p.1 ++ wire p.2.

Definition payload_wire (f : t) : list byte :=
  match m_type f with
  | Data | Headers | Unknown => m_payload f
  | CancelPush | GoAway | MaxPushId => wire (m_id f)
  | Settings => flat_map pair_wire (m_settings f)
  | PushPromise => wire (m_id f) ++ m_payload f
  end.

Definition frame_wire (f : t) : list byte :=
  wire (m_rawType f) ++ wire (SwByteArray.size (payload_wire f)) ++ payload_wire f.

Lemma rawType_valid f : wf f -> vi (m_rawType f).
Proof. by destruct 1. Qed.

Lemma buildSettings_emits pairs : Forall pair_ok pairs ->
  emits (buildSettings_ pairs) (flat_map pair_wire pairs) tt.
Proof.
  induction 1 as [|[i v] l [H1 H2] _ IH]; [apply emits_ret|]. cbn [buildSettings_ flat_map].
  unfold pair_wire at 1. rewrite <- app_assoc.
  eapply emits_bind; [by apply SwQuicVarIntCodec.encode_emits|].
  eapply emits_bind; [by apply SwQuicVarIntCodec.encode_emits|]. exact IH.
Qed.

Lemma emits_value {A} (m : Enc unit) bs (a : A) : emits m bs tt -> emits (m;; mret a) bs a.
Proof. intros H. rewrite <- (app_nil_r bs). eapply emits_bind; [exact H|apply emits_ret]. Qed.

Lemma buildPayload_emits f : wf f -> emits (buildPayload_ f) (payload_wire f) (m_rawType f).
Proof.
  destruct 1; unfold buildPayload_, payload_wire; cbn [m_type m_id m_payload m_rawType m_settings
    data headers settings goAway maxPushId cancelPush pushPromise unknown];
  try (apply emits_value; first [apply emits_bytes|by apply SwQuicVarIntCodec.encode_emits|by apply buildSettings_emits]).
  eapply emits_bind; [by apply SwQuicVarIntCodec.encode_emits|]. apply emits_value, emits_bytes.
Qed.

Lemma encodeFrame_emits f : wf f -> SwByteArray.size (payload_wire f) <= int_max ->
  emits (encodeFrame f) (frame_wire f) tt.
Proof.
  intros Hf Hs. unfold encodeFrame. rewrite (buildPayload_emits f Hf []), app_nil_l.
  apply (emits_pure _ (m_rawType f)). unfold frame_wire.
  eapply emits_bind; [by apply SwQuicVarIntCodec.encode_emits, rawType_valid|].
  eapply emits_bind; [|apply emits_bytes]. apply SwQuicVarIntCodec.encode_emits.
  unfold vi, SwQuicVarIntCodec.maxValue, int_max in *.
  pose proof (SwByteArray.size_nonneg (payload_wire f)). lia.
Qed.

(** ** Decoding what was encoded *)

Lemma h3_readSlice_parses bs n : SwByteArray.size bs = n -> parses (fun p => readSlice_ p n) bs bs.
Proof.
  intros <- pre suf Hs. unfold readSlice_. m_run.
  pose proof (SwByteArray.size_nonneg suf). pose proof (SwByteArray.size_nonneg pre).
  pose proof (SwByteArray.size_nonneg bs).
  rewrite !SwByteArray.size_app in *. unfold int_max in *.
  destruct (Z.ltb_spec 2147483647 (SwByteArray.size bs)); [lia|].
  rewrite sub64_small by lia.
  destruct (Z.ltb_spec (SwByteArray.size pre + (SwByteArray.size bs + SwByteArray.size suf)) (SwByteArray.size pre)); [lia|].
  destruct (Z.ltb_spec (SwByteArray.size pre + (SwByteArray.size bs + SwByteArray.size suf) - SwByteArray.size pre)
    (SwByteArray.size bs)); [lia|]. simpl.
  rewrite add64_small, !to_int_small, SwByteArray.mid_middle by lia. do 2 f_equal.
  destruct (Z.eqb_spec (SwByteArray.size bs) 0) as [Hz|]; [|done].
  destruct bs; [done|]. rewrite SwByteArray.size_cons in Hz. pose proof (SwByteArray.size_nonneg bs). lia.
Qed.

Lemma h3_readSlice_advances n : 0 <= n -> advances (fun p => readSlice_ p n).
Proof.
  intros Hn p off Hoff Hp. unfold readSlice_. m_run. unfold u64_modulus in Hp.
  destruct (int_max <? n); [simpl; split; [lia|done]|]. rewrite sub64_small by lia.
  destruct (Z.ltb_spec (SwByteArray.size p) off); [simpl; split; [lia|done]|].
  destruct (Z.ltb_spec (SwByteArray.size p - off) n); [simpl; split; [lia|done]|].
  simpl. rewrite add64_small by lia. split; [lia|done].
Qed.

(** A payload that is one integer, or starts with one. *)
Lemma varint_at_start v suf : vi v -> SwByteArray.size (wire v ++ suf) <= int_max ->
  readVarInt_ (wire v ++ suf) 0 = (Ok v, SwByteArray.size (wire v)).
Proof. intros Hv Hs. exact (SwQuicVarIntCodec.decode_parses v Hv [] suf Hs). Qed.

Lemma single_ok v : vi v -> SwByteArray.size (wire v) <= int_max ->
  readSinglePayloadVarInt_ (wire v) = Ok v.
Proof.
  intros Hv Hs. unfold readSinglePayloadVarInt_. pose proof (varint_at_start v [] Hv) as H.
  rewrite app_nil_r in H. rewrite H by done. by rewrite Z.eqb_refl.
Qed.

Lemma pair_parses p : pair_ok p ->
  parses (fun b => i ← readVarInt_ b; v ← readVarInt_ b; mret (i, v)) (pair_wire p) p.
Proof.
  destruct p as [i v]. intros [Hi Hv]. unfold pair_wire.
  eapply parses_bind; [by apply SwQuicVarIntCodec.decode_parses|].
  eapply parses_bind_last; [by apply SwQuicVarIntCodec.decode_parses|]. apply parses_ret.
Qed.

Lemma size_wire_pos v : vi v -> 1 <= SwByteArray.size (wire v).
Proof.
  intros Hv. rewrite SwQuicVarIntCodec.size_wire by done. unfold SwQuicVarIntCodec.encodedSize.
  unfold vi, SwQuicVarIntCodec.maxValue in *. simpl. repeat case_match; lia.
Qed.

Lemma parseSettings_loop_wire pairs : forall pre out fuel,
  Forall pair_ok pairs -> SwByteArray.size (pre ++ flat_map pair_wire pairs) <= int_max ->
  (length pairs < fuel)%nat ->
  parseSettings_loop fuel (pre ++ flat_map pair_wire pairs) out (SwByteArray.size pre) =
    (Ok (out ++ pairs), SwByteArray.size (pre ++ flat_map pair_wire pairs)).
Proof.
  induction pairs as [|p l IH]; intros pre out fuel Hok Hs Hf.
  - destruct fuel as [|fuel]; [simpl in Hf; lia|]. cbn [parseSettings_loop flat_map]. m_run.
    by rewrite !app_nil_r, Z.leb_refl.
  - destruct fuel as [|fuel]; [simpl in Hf; lia|]. apply Forall_cons_1 in Hok as [Hp Hl].
    cbn [flat_map] in *. pose proof (pair_parses p Hp pre (flat_map pair_wire l) Hs) as Hr.
    cbn [parseSettings_loop]. revert Hr. m_run.
    destruct p as [i v], Hp as [Hi Hv]. simpl in Hi, Hv.
    assert (SwByteArray.size pre < SwByteArray.size (pre ++ pair_wire (i, v) ++ flat_map pair_wire l)) as Hlt.
    { rewrite !SwByteArray.size_app. unfold pair_wire at 1. rewrite SwByteArray.size_app. simpl fst. simpl snd.
      pose proof (size_wire_pos i Hi). pose proof (size_wire_pos v Hv).
      pose proof (SwByteArray.size_nonneg (flat_map pair_wire l)). lia. }
    destruct (Z.leb_spec (SwByteArray.size (pre ++ pair_wire (i, v) ++ flat_map pair_wire l)) (SwByteArray.size pre)); [lia|].
    destruct (readVarInt_ _ (SwByteArray.size pre)) as [[i'|e|] o1]; [|discriminate..].
    destruct (readVarInt_ _ o1) as [[v'|e|] o2]; [|discriminate..]. intros [= -> -> ->].
    rewrite app_assoc in Hs |- *. rewrite IH; [by rewrite <- app_assoc|done|done|simpl in Hf; lia].
Qed.

Lemma settings_length pairs : Forall pair_ok pairs -> (length pairs <= length (flat_map pair_wire pairs))%nat.
Proof.
  induction 1 as [|[i v] l [Hi Hv] _ IH]; [done|]. cbn [flat_map]. rewrite length_app, length_cons.
  simpl in Hi. pose proof (size_wire_pos i Hi). unfold pair_wire at 1. rewrite length_app.
  unfold SwByteArray.size in *. simpl fst. lia.
Qed.

Lemma parseSettings_ok pairs : Forall pair_ok pairs ->
  SwByteArray.size (flat_map pair_wire pairs) <= int_max ->
  parseSettings_ (flat_map pair_wire pairs) = Ok pairs.
Proof.
  intros Hok Hs. unfold parseSettings_. pose proof (settings_length pairs Hok).
  pose proof (parseSettings_loop_wire pairs [] [] (S (length (flat_map pair_wire pairs))) Hok Hs ltac:(lia)) as H1.
  rewrite !app_nil_l in H1. change (SwByteArray.size []) with 0 in H1. by rewrite H1.
Qed.

Lemma interpret_ok f : wf f -> SwByteArray.size (payload_wire f) <= int_max ->
  interpret (m_rawType f) (payload_wire f) = Ok f.
Proof.
  destruct 1 as [p|p|id Hid|pairs Hps|id p Hid|id Hid|id Hid|raw p Hraw Hun]; intros Hs;
    unfold payload_wire, interpret in *; cbn [m_type m_id m_payload m_rawType m_settings
    data headers settings goAway maxPushId cancelPush pushPromise unknown] in *; try done.
  - simpl. by rewrite single_ok.
  - simpl. by rewrite parseSettings_ok.
  - simpl. rewrite varint_at_start by done. unfold int_max in Hs.
    pose proof (SwByteArray.size_nonneg (wire id)). pose proof (SwByteArray.size_nonneg p).
    rewrite SwByteArray.size_app in *. rewrite sub64_small, !to_int_small by lia.
    replace (SwByteArray.size (wire id) + SwByteArray.size p - SwByteArray.size (wire id))
      with (SwByteArray.size p) by lia.
    pose proof (SwByteArray.mid_middle (wire id) p []) as Hm. rewrite app_nil_r in Hm. by rewrite Hm.
  - simpl. by rewrite single_ok.
  - simpl. by rewrite single_ok.
  - unfold known_types in Hun. simpl in Hun.
    repeat (match goal with |- context [raw =? ?c] => destruct (Z.eqb_spec raw c) as [->|] end; [tauto|]). done.
Qed.

(** A frame survives the wire. Every frame the factories build from values
    that fit, of a known type or of a reserved one, is read back as the same
    frame wherever it stands in a stream, and the decoder stops at its end. *)
Theorem http3_frame_roundtrip f pre suf :
  wf f -> SwByteArray.size (pre ++ frame_wire f ++ suf) <= int_max ->
  exists out, encodeFrame f pre = (Ok tt, out) /\
    decodeFrame (out ++ suf) (SwByteArray.size pre) = (Ok f, SwByteArray.size out).
Proof.
  intros Hf Hs. assert (SwByteArray.size (payload_wire f) <= int_max) as Hp.
  { unfold frame_wire in Hs. rewrite !SwByteArray.size_app in Hs. unfold SwByteArray.size in *. lia. }
  exists (pre ++ frame_wire f). split; [by apply encodeFrame_emits|].
  rewrite <- app_assoc. revert pre suf Hs. change (parses decodeFrame (frame_wire f) f).
  unfold decodeFrame, frame_wire.
  eapply parses_bind; [by apply SwQuicVarIntCodec.decode_parses, rawType_valid|].
  eapply parses_bind.
  { apply SwQuicVarIntCodec.decode_parses. unfold vi, SwQuicVarIntCodec.maxValue, int_max in *.
    pose proof (SwByteArray.size_nonneg (payload_wire f)). lia. }
  eapply parses_bind_last; [by apply h3_readSlice_parses|].
  rewrite interpret_ok by done. apply parses_ret.
Qed.

Lemma http3_frame_roundtrip_witness :
  let f := settings [(0x06, 4096); (0x33, 1)] in
  exists out, encodeFrame f [x00] = (Ok tt, out) /\
    decodeFrame (out ++ [x07]) (SwByteArray.size [x00]) = (Ok f, SwByteArray.size out).
Proof.
  apply (http3_frame_roundtrip (settings [(0x06, 4096); (0x33, 1)]) [x00] [x07]); [|by_eval].
  apply wf_settings. repeat constructor; by_eval.
Defined.

(** ** Any stream *)

Lemma parseSettings_loop_total fuel payload : forall out off,
  Forall pair_ok out -> 0 <= off <= SwByteArray.size payload -> SwByteArray.size payload < u64_modulus ->
  SwByteArray.size payload - off < Z.of_nat fuel ->
  match (parseSettings_loop fuel payload out off).1 with
  | Ok pairs => Forall pair_ok pairs
  | Err _ => True
  | NoFuel => False
  end.
Proof.
  induction fuel as [|fuel IH]; intros out off Ho Hoff Hp Hf; [lia|]. cbn [parseSettings_loop]. m_run.
  destruct (Z.leb_spec (SwByteArray.size payload) off); [done|].
  unfold readVarInt_. destruct (SwQuicVarIntCodec.decode_cases payload off Hoff Hp) as [(e & ->)|(i & n & -> & Hn & Hi)]; [done|].
  destruct (SwQuicVarIntCodec.decode_cases payload (off + n) ltac:(lia) Hp) as [(e & ->)|(v & k & -> & Hk & Hv)]; [done|].
  apply IH; [|lia|done|lia]. apply Forall_app. split; [done|]. by apply Forall_singleton.
Qed.

Lemma readSingle_cases payload : SwByteArray.size payload < u64_modulus ->
  match readSinglePayloadVarInt_ payload with Ok v => vi v | Err _ => True | NoFuel => False end.
Proof.
  intros Hp. pose proof (SwByteArray.size_nonneg payload). unfold readSinglePayloadVarInt_, readVarInt_.
  destruct (SwQuicVarIntCodec.decode_cases payload 0 ltac:(lia) Hp) as [(e & ->)|(i & n & -> & Hn & Hi)]; [done|].
  by destruct (negb _).
Qed.

Lemma interpret_cases ty payload : vi ty -> SwByteArray.size payload < u64_modulus ->
  match interpret ty payload with
  | Ok f => wf f /\ m_rawType f = ty
  | Err _ => True
  | NoFuel => False
  end.
Proof.
  intros Hty Hp. pose proof (readSingle_cases payload Hp) as Hs. pose proof (SwByteArray.size_nonneg payload).
  pose proof (parseSettings_loop_total (S (length payload)) payload [] 0 (Forall_nil_2 _) ltac:(lia) Hp
    ltac:(unfold SwByteArray.size; lia)) as Hset.
  unfold interpret, result_map, parseSettings_.
  destruct (Z.eqb_spec ty typeData) as [->|]; [by split; [constructor|]|].
  destruct (Z.eqb_spec ty typeHeaders) as [->|]; [by split; [constructor|]|].
  destruct (Z.eqb_spec ty typeCancelPush) as [->|].
  { destruct (readSinglePayloadVarInt_ payload); [by split; [constructor|]|done|done]. }
  destruct (Z.eqb_spec ty typeSettings) as [->|].
  { destruct (parseSettings_loop _ _ _ _).1; [by split; [constructor|]|done|done]. }
  destruct (Z.eqb_spec ty typePushPromise) as [->|].
  { unfold readVarInt_.
    destruct (SwQuicVarIntCodec.decode_cases payload 0 ltac:(lia) Hp) as [(e & ->)|(i & k & -> & Hk & Hi)]; [done|].
    by split; [constructor|]. }
  destruct (Z.eqb_spec ty typeGoAway) as [->|].
  { destruct (readSinglePayloadVarInt_ payload); [by split; [constructor|]|done|done]. }
  destruct (Z.eqb_spec ty typeMaxPushId) as [->|].
  { destruct (readSinglePayloadVarInt_ payload); [by split; [constructor|]|done|done]. }
  split; [|done]. constructor; [done|]. unfold known_types. simpl. intuition congruence.
Qed.

(** On any buffer the decoder ends, inside the buffer and past where it
    started when it succeeds, and the frame it returns is one the factories
    build: identifiers and settings of 62 bits, a reserved type surfaced as
    Unknown, never confused with a known one. *)
Theorem decodeFrame_sound buffer offset :
  0 <= offset <= SwByteArray.size buffer -> SwByteArray.size buffer <= int_max ->
  match decodeFrame buffer offset with
  | (Ok f, offset') => wf f /\ offset < offset' <= SwByteArray.size buffer
  | (Err _, offset') => offset <= offset' <= SwByteArray.size buffer
  | (NoFuel, _) => False
  end.
Proof.
  intros Hoff Hb. assert (SwByteArray.size buffer < u64_modulus) as Hp by (unfold int_max, u64_modulus in *; lia).
  unfold decodeFrame. m_run. unfold readVarInt_ at 1.
  destruct (SwQuicVarIntCodec.decode_cases buffer offset Hoff Hp) as [(e & ->)|(ty & n & -> & Hn & Hty)]; [lia|].
  unfold readVarInt_ at 1.
  destruct (SwQuicVarIntCodec.decode_cases buffer (offset + n) ltac:(lia) Hp) as [(e & ->)|(len & k & -> & Hk & Hlen)]; [lia|].
  destruct (h3_readSlice_advances len (proj1 Hlen) buffer (offset + n + k) ltac:(lia) Hp) as [Hr Hr'].
  destruct (readSlice_ buffer len (offset + n + k)) as [[payload|e|] o] eqn:E; simpl in Hr; [|lia|done].
  assert (SwByteArray.size payload < u64_modulus) as Hpl.
  { unfold readSlice_ in E. revert E. m_run. destruct (int_max <? len); [done|].
    destruct (_ || _); [done|]. intros [= <- _]. destruct (len =? 0); [by vm_compute|].
    apply Z.le_lt_trans with (SwByteArray.size buffer); [|done]. apply SwByteArray.size_mid_bound. }
  pose proof (interpret_cases ty payload Hty Hpl) as Hi.
  destruct (interpret ty payload) as [f|e|]; [|lia|done]. destruct Hi as [Hf _]. split; [done|lia].
Qed.

Lemma decodeFrame_sound_witness :
  match decodeFrame [x07; x01; x04] 0 with
  | (Ok f, offset') => wf f /\ 0 < offset' <= SwByteArray.size [x07; x01; x04]
  | (Err _, offset') => 0 <= offset' <= SwByteArray.size [x07; x01; x04]
  | (NoFuel, _) => False
  end /\ is_ok (decodeFrame [x07; x01; x04] 0).1 = true.
Proof. split; [apply decodeFrame_sound; by_eval|reflexivity]. Defined.

End SwHttp3FrameCodec.
