(* ===== verification/RingQueue.v ===== *)
(** A fixed-capacity FIFO over raw storage: src/src/core/types/SwRingQueue.h.

    The storage is modelled slot by slot: a slot holds a constructed object or is
    raw memory, and touching a slot in the wrong state is the error [ub], so that
    the refinement below is also the memory safety of the container. *)
From Stdlib Require Import ZArith Lia.
From stdpp Require Import base list strings numbers.
From S2P Require Import Prelude.

Module SwRingQueue.

Definition ub : string := "undefined behaviour".

Record t (A : Type) := mk {
  m_data : list (option A);
  m_capacity : Z;
  m_head : Z;
  m_size : Z
}.
Arguments mk {A} _ _ _ _.
Arguments m_data {A} _.
Arguments m_capacity {A} _.
Arguments m_head {A} _.
Arguments m_size {A} _.

Section Operations.

Context {A : Type}.

Definition empty : t A := mk [] 0 0 0.

Definition set_data (data : list (option A)) (q : t A) : t A :=
  mk data (m_capacity q) (m_head q) (m_size q).

Definition set_head (head : Z) (q : t A) : t A := mk (m_data q) (m_capacity q) head (m_size q).

Definition set_size (size : Z) (q : t A) : t A := mk (m_data q) (m_capacity q) (m_head q) size.

(** [traits_type::construct]: the slot must be raw. *)
Definition construct (index : Z) (value : A) : M (t A) unit :=
  q ← get;
  match m_data q !! Z.to_nat index with
  | Some None => put (set_data (<[Z.to_nat index := Some value]> (m_data q)) q)
  | _ => throw ub
  end.

(** [traits_type::destroy]: the slot must hold an object. *)
Definition destroy (index : Z) : M (t A) unit :=
  q ← get;
  match m_data q !! Z.to_nat index with
  | Some (Some _) => put (set_data (<[Z.to_nat index := None]> (m_data q)) q)
  | _ => throw ub
  end.

(** [*ptrAt_(index)]: the slot must hold an object. *)
Definition read (index : Z) : M (t A) A :=
  q ← get;
  match m_data q !! Z.to_nat index with
  | Some (Some value) => mret value
  | _ => throw ub
  end.

Definition physicalIndex_ (logicalIndex : Z) (q : t A) : Z :=
  let index := m_head q +u logicalIndex in
  if m_capacity q <=? index then index -u m_capacity q else index.

Definition tailIndex_ (q : t A) : Z :=
  let index := m_head q +u m_size q in
  if m_capacity q <=? index then index -u m_capacity q else index.

Definition destroyFront_ : M (t A) unit :=
  q ← get;
  destroy (m_head q);;
  modify (fun q =>
    let head := m_head q +u 1 in
    let head := if head =? m_capacity q then 0 else head in
    let size := m_size q -u 1 in
    let head := if size =? 0 then 0 else head in
    set_size size (set_head head q)).

Fixpoint destroyAll_loop (fuel : nat) : M (t A) unit :=
  match fuel with
  | O => out_of_fuel
  | S fuel' =>
      q ← get;
      if m_size q =? 0 then mret tt else destroyFront_;; destroyAll_loop fuel'
  end.

Definition destroyAll_ : M (t A) unit :=
  q ← get;
  destroyAll_loop (S (Z.to_nat (m_size q))).

Definition allocate_ (capacity : Z) (q : t A) : t A :=
  if capacity =? 0 then q
  else mk (replicate (Z.to_nat capacity) None) capacity (m_head q) (m_size q).

(** The constructor from a capacity. *)
Definition make (capacity : Z) : t A := allocate_ capacity empty.

Definition releaseStorage_ : M (t A) unit :=
  destroyAll_;;
  modify (fun q => mk [] 0 0 (m_size q)).

Definition isEmpty (q : t A) : bool := m_size q =? 0.

Definition isFull (q : t A) : bool := negb (m_capacity q =? 0) && (m_size q =? m_capacity q).

(** [operator[]], unchecked. *)
Definition index (i : Z) : M (t A) A :=
  q ← get;
  read (physicalIndex_ i q).

Definition at_ (i : Z) : M (t A) A :=
  q ← get;
  fail_if (m_size q <=? i) "SwRingQueue::at index out of range";;
  index i.

Definition front : M (t A) A :=
  q ← get;
  fail_if (m_size q =? 0) "SwRingQueue::front called on an empty queue";;
  read (m_head q).

Definition back : M (t A) A :=
  q ← get;
  fail_if (m_size q =? 0) "SwRingQueue::back called on an empty queue";;
  read (physicalIndex_ (m_size q -u 1) q).

Definition tryConstructBack_ (value : A) : M (t A) bool :=
  q ← get;
  if m_capacity q <=? m_size q then mret false
  else
    construct (tailIndex_ q) value;;
    modify (fun q => set_size (m_size q +u 1) q);;
    mret true.

Definition enqueue (value : A) : M (t A) bool := tryConstructBack_ value.

(** [overwriteBack_] with a non-null [dropped]: the answer, and what was stored there. *)
Definition overwriteBack_ (value : A) : M (t A) (bool * option A) :=
  q ← get;
  if m_capacity q =? 0 then mret (false, None)
  else
    dropped ← (if m_size q =? m_capacity q
               then value ← front; destroyFront_;; mret (Some value)
               else mret None);
    ok ← tryConstructBack_ value;
    mret (ok, dropped).

Definition enqueueOverwrite (value : A) : M (t A) (bool * option A) := overwriteBack_ value.

Definition tryDequeue : M (t A) (option A) :=
  q ← get;
  if m_size q =? 0 then mret None
  else value ← front; destroyFront_;; mret (Some value).

Definition takeFirst : M (t A) A :=
  q ← get;
  fail_if (m_size q =? 0) "SwRingQueue::takeFirst called on an empty queue";;
  value ← front;
  destroyFront_;;
  mret value.

Definition takeLast : M (t A) A :=
  q ← get;
  fail_if (m_size q =? 0) "SwRingQueue::takeLast called on an empty queue";;
  let index := physicalIndex_ (m_size q -u 1) q in
  value ← read index;
  destroy index;;
  modify (fun q => set_size (m_size q -u 1) q);;
  mret value.

Definition pop_front : M (t A) unit :=
  q ← get;
  if negb (m_size q =? 0) then destroyFront_ else mret tt.

Definition pop_back : M (t A) unit :=
  q ← get;
  if m_size q =? 0 then mret tt
  else
    destroy (physicalIndex_ (m_size q -u 1) q);;
    modify (fun q => set_size (m_size q -u 1) q).

Definition clear : M (t A) unit :=
  destroyAll_;;
  modify (fun q => set_size 0 (set_head 0 q)).

(** The elements [first ..] moved out by [setCapacity], [todo] of them. *)
Fixpoint moveRange (first : Z) (todo : nat) : M (t A) (list A) :=
  match todo with
  | O => mret []
  | S todo' =>
      value ← index first;
      rest ← moveRange (first + 1) todo';
      mret (value :: rest)
  end.

Definition setCapacity (capacity : Z) : M (t A) Z :=
  q ← get;
  if capacity =? m_capacity q then mret 0
  else
    let keepCount := Z.min (m_size q) capacity in
    let droppedCount := m_size q -u keepCount in
    let firstKept := m_size q -u keepCount in
    kept ← moveRange firstKept (Z.to_nat keepCount);
    let nextData := map Some kept ++ replicate (Z.to_nat (capacity - keepCount)) None in
    releaseStorage_;;
    put (mk nextData capacity 0 keepCount);;
    mret droppedCount.

Definition reserveCapacity (capacity : Z) : M (t A) unit :=
  q ← get;
  if m_capacity q <? capacity then setCapacity capacity;; mret tt else mret tt.

(** The loop of the copy constructor: elements [i ..] of [other]. *)
Fixpoint copy_loop (other : t A) (i : Z) (todo : nat) : M (t A) unit :=
  match todo with
  | O => mret tt
  | S todo' =>
      value ← of_result (index i other).1;
      enqueue value;;
      copy_loop other (i + 1) todo'
  end.

(** The copy constructor. *)
Definition copy (other : t A) : result (t A) :=
  match copy_loop other 0 (Z.to_nat (m_size other)) (make (m_capacity other)) with
  | (Ok _, q) => Ok q
  | (Err e, _) => Err e
  | (NoFuel, _) => NoFuel
  end.

(** [moveFrom_]: the target and what is left of the source. *)
Definition moveFrom_ (other : t A) : t A * t A := (other, mk [] 0 0 0).

End Operations.

(** ** The abstract queue: a capacity and the items, oldest first *)

Section Refinement.

Context {A : Type}.

Inductive op :=
| Enqueue (v : A) | EnqueueOverwrite (v : A) | TryDequeue | TakeFirst | TakeLast
| PopFront | PopBack | Front | Back | At (i : Z) | Clear
| SetCapacity (c : Z) | ReserveCapacity (c : Z).

Inductive answer :=
| Done | Flag (b : bool) | Item (v : A) | Maybe (v : option A)
| Overwritten (b : bool) (dropped : option A) | Count (n : Z).

Definition apply (o : op) : M (t A) answer :=
  match o with
  | Enqueue v => b ← enqueue v; mret (Flag b)
  | EnqueueOverwrite v => '(b, d) ← enqueueOverwrite v; mret (Overwritten b d)
  | TryDequeue => d ← tryDequeue; mret (Maybe d)
  | TakeFirst => v ← takeFirst; mret (Item v)
  | TakeLast => v ← takeLast; mret (Item v)
  | PopFront => pop_front;; mret Done
  | PopBack => pop_back;; mret Done
  | Front => v ← front; mret (Item v)
  | Back => v ← back; mret (Item v)
  | At i => v ← at_ i; mret (Item v)
  | Clear => clear;; mret Done
  | SetCapacity c => n ← setCapacity c; mret (Count n)
  | ReserveCapacity c => reserveCapacity c;; mret Done
  end.

Record fifo := { capacity : Z; items : list A }.

Definition resized (c : Z) (s : fifo) : fifo :=
  {| capacity := c; items := drop (length (items s) - Z.to_nat c) (items s) |}.

Definition with_items (l : list A) (s : fifo) : fifo := {| capacity := capacity s; items := l |}.

(** What each operation promises. *)
Definition promise (o : op) (s : fifo) : result answer * fifo :=
  match o with
  | Enqueue v =>
      if zlen (items s) <? capacity s then (Ok (Flag true), with_items (items s ++ [v]) s)
      else (Ok (Flag false), s)
  | EnqueueOverwrite v =>
      if capacity s =? 0 then (Ok (Overwritten false None), s)
      else if zlen (items s) <? capacity s
      then (Ok (Overwritten true None), with_items (items s ++ [v]) s)
      else (Ok (Overwritten true (head (items s))), with_items (tail (items s) ++ [v]) s)
  | TryDequeue => (Ok (Maybe (head (items s))), with_items (tail (items s)) s)
  | TakeFirst =>
      match items s with
      | [] => (Err "SwRingQueue::takeFirst called on an empty queue", s)
      | v :: l => (Ok (Item v), with_items l s)
      end
  | TakeLast =>
      match list.last (items s) with
      | None => (Err "SwRingQueue::takeLast called on an empty queue", s)
      | Some v => (Ok (Item v), with_items (removelast (items s)) s)
      end
  | PopFront => (Ok Done, with_items (tail (items s)) s)
  | PopBack => (Ok Done, with_items (removelast (items s)) s)
  | Front =>
      match items s with
      | [] => (Err "SwRingQueue::front called on an empty queue", s)
      | v :: _ => (Ok (Item v), s)
      end
  | Back =>
      match list.last (items s) with
      | None => (Err "SwRingQueue::back called on an empty queue", s)
      | Some v => (Ok (Item v), s)
      end
  | At i =>
      match items s !! Z.to_nat i with
      | Some v => (Ok (Item v), s)
      | None => (Err "SwRingQueue::at index out of range", s)
      end
  | Clear => (Ok Done, with_items [] s)
  | SetCapacity c =>
      (Ok (Count (Z.max 0 (zlen (items s) - c))), resized c s)
  | ReserveCapacity c =>
      (Ok Done, if capacity s <? c then resized c s else s)
  end.

(** Allocations the address space can hold; indices are of type [std::size_t]. *)
Definition op_ok (o : op) : Prop :=
  match o with
  | At i => is_u64 i
  | SetCapacity c | ReserveCapacity c => 0 <= c <= 2 ^ 62
  | _ => True
  end.

(** The physical slot of the [k]-th oldest place. *)
Definition slot (q : t A) (k : Z) : Z := (m_head q + k) mod m_capacity q.

(** The queue [q] holds the items of [s], oldest at its head, and every other
    slot of its storage is raw. *)
Record repr (q : t A) (s : fifo) : Prop := {
  r_cap : m_capacity q = capacity s;
  r_len : zlen (m_data q) = capacity s;
  r_max : capacity s <= 2 ^ 62;
  r_size : m_size q = zlen (items s);
  r_fits : zlen (items s) <= capacity s;
  r_head : 0 <= m_head q /\ (m_head q < capacity s \/ capacity s = 0 /\ m_head q = 0);
  r_slots : forall k, 0 <= k < capacity s ->
    m_data q !! Z.to_nat (slot q k) = Some (items s !! Z.to_nat k)
}.

Lemma slot_range q k : 0 < m_capacity q -> 0 <= slot q k < m_capacity q.
Proof. intros H. by apply Z.mod_pos_bound. Qed.

Lemma slot_eq q k : 0 <= m_head q < m_capacity q -> 0 <= k <= m_capacity q ->
  slot q k = if m_capacity q <=? m_head q + k then m_head q + k - m_capacity q else m_head q + k.
Proof.
  intros Hh Hk. unfold slot. destruct (Z.leb_spec (m_capacity q) (m_head q + k)).
  - replace (m_head q + k) with (m_head q + k - m_capacity q + 1 * m_capacity q) at 1 by lia.
    rewrite Z.mod_add by lia. destruct (Z.eq_dec (m_head q + k) (2 * m_capacity q)); [lia|].
    apply Z.mod_small. lia.
  - apply Z.mod_small. lia.
Qed.

Lemma slot_inj q j k : 0 <= m_head q < m_capacity q -> 0 <= j < m_capacity q -> 0 <= k < m_capacity q ->
  slot q j = slot q k -> j = k.
Proof. intros Hh Hj Hk. rewrite !slot_eq by lia. zbool; lia. Qed.

Lemma repr_head q s : repr q s -> 0 < capacity s -> 0 <= m_head q < m_capacity q.
Proof. intros [Hc _ _ _ _ [H0 H1] _] H. rewrite Hc. lia. Qed.

Lemma physicalIndex_slot q s k : repr q s -> 0 <= k < capacity s -> physicalIndex_ k q = slot q k.
Proof.
  intros Hr Hk. pose proof (repr_head q s Hr ltac:(lia)) as Hh. pose proof (r_cap _ _ Hr) as Hc.
  pose proof (r_max _ _ Hr). unfold physicalIndex_. rewrite slot_eq by lia.
  rewrite add64_small by lia. destruct (Z.leb_spec (m_capacity q) (m_head q + k)); [|done].
  by apply sub64_small; lia.
Qed.

Lemma tailIndex_slot q s : repr q s -> zlen (items s) < capacity s ->
  tailIndex_ q = slot q (zlen (items s)).
Proof.
  intros Hr Hk. change (tailIndex_ q) with (physicalIndex_ (m_size q) q).
  rewrite (r_size _ _ Hr). apply (physicalIndex_slot q s); [done|lia].
Qed.

(** The slot of a place and the item there. *)
Lemma item_at q s k v : repr q s -> items s !! k = Some v ->
  m_data q !! Z.to_nat (slot q (Z.of_nat k)) = Some (Some v).
Proof.
  intros Hr Hv. pose proof (lookup_lt_Some _ _ _ Hv). pose proof (r_fits _ _ Hr).
  rewrite (r_slots _ _ Hr) by lia. by rewrite Nat2Z.id, Hv.
Qed.

Lemma head_slot q s : repr q s -> 0 < capacity s -> slot q 0 = m_head q.
Proof. intros Hr H. unfold slot. rewrite Z.add_0_r. by apply Z.mod_small, (repr_head q s). Qed.

Lemma set_items_eq (s : fifo) : with_items (items s) s = s.
Proof. by destruct s. Qed.

(** *** Storage steps *)

Lemma read_item q s k v : repr q s -> items s !! k = Some v ->
  read (slot q (Z.of_nat k)) q = (Ok v, q).
Proof. intros Hr Hv. unfold read. m_run. by rewrite (item_at q s k v). Qed.

(** Constructing at the tail adds the newest item. *)
Lemma push_repr q s v : repr q s -> zlen (items s) < capacity s ->
  repr (set_size (m_size q +u 1)
          (set_data (<[Z.to_nat (slot q (zlen (items s))) := Some v]> (m_data q)) q))
       (with_items (items s ++ [v]) s).
Proof.
  intros Hr Hlt. pose proof (repr_head q s Hr ltac:(lia)) as Hh.
  destruct Hr as [Hc Hl Hm Hs Hf Hd Hk]. split; simpl; try done.
  - by rewrite length_insert.
  - rewrite add64_small, length_app by lia. simpl. lia.
  - rewrite length_app. simpl. lia.
  - intros k Hkr. change (slot _ k) with (slot q k).
    destruct (Z.eq_dec k (zlen (items s))) as [->|Hne].
    + rewrite Nat2Z.id, list_lookup_insert_eq; [by rewrite lookup_app_at|].
      pose proof (slot_range q (zlen (items s)) ltac:(lia)). lia.
    + rewrite list_lookup_insert_ne.
      * rewrite Hk by done. f_equal. destruct (Z.lt_ge_cases k (zlen (items s))).
        -- by rewrite lookup_app_l by lia.
        -- rewrite !lookup_ge_None_2; [done|rewrite length_app; simpl; lia|lia].
      * intros E. apply Hne. apply (slot_inj q); try lia.
        pose proof (slot_range q k ltac:(lia)). pose proof (slot_range q (zlen (items s)) ltac:(lia)). lia.
Qed.

Lemma tryConstructBack_spec q s v : repr q s ->
  exists q', tryConstructBack_ v q = (Ok (zlen (items s) <? capacity s), q') /\
    repr q' (if zlen (items s) <? capacity s then with_items (items s ++ [v]) s else s).
Proof.
  intros Hr. unfold tryConstructBack_, construct. m_run.
  rewrite (r_cap _ _ Hr), (r_size _ _ Hr).
  destruct (Z.leb_spec (capacity s) (zlen (items s))) as [H|H].
  - destruct (Z.ltb_spec (zlen (items s)) (capacity s)); [lia|]. by exists q.
  - destruct (Z.ltb_spec (zlen (items s)) (capacity s)); [|lia].
    rewrite (tailIndex_slot q s), (r_slots _ _ Hr) by (done || lia).
    rewrite lookup_ge_None_2 by lia. eexists. split; [done|]. exact (push_repr q s v Hr H).
Qed.

(** Every slot is some place's. *)
Lemma slot_surj q i : 0 <= m_head q < m_capacity q -> 0 <= i < m_capacity q ->
  exists k, 0 <= k < m_capacity q /\ slot q k = i.
Proof.
  intros Hh Hi. exists ((i - m_head q) mod m_capacity q).
  split; [apply Z.mod_pos_bound; lia|]. unfold slot.
  rewrite Z.add_mod_idemp_r by lia. replace (m_head q + (i - m_head q)) with i by lia.
  by apply Z.mod_small.
Qed.

(** An empty queue may start anywhere. *)
Lemma reset_head q s : repr q s -> items s = [] -> repr (set_head 0 q) s.
Proof.
  intros Hr Hi. destruct (Z.eq_dec (capacity s) 0) as [H0|H0].
  - destruct Hr as [Hc Hl Hm Hs Hf Hd Hk]. split; simpl; try done; lia.
  - assert (0 <= capacity s) by (pose proof (r_fits _ _ Hr); lia).
    pose proof (repr_head q s Hr ltac:(lia)) as Hh.
    destruct Hr as [Hc Hl Hm Hs Hf Hd Hk]. split; simpl; try done; try lia.
    intros k Hkr. unfold slot at 1. cbn [m_head m_capacity set_head].
    rewrite Z.add_0_l, Z.mod_small by lia.
    destruct (slot_surj q k Hh ltac:(lia)) as (j & Hj & Hjk). rewrite <- Hjk at 1.
    rewrite Hk by lia. by rewrite Hi.
Qed.

(** The head moves to the next place and the size drops. *)
Lemma pop_repr q s v l : repr q s -> items s = v :: l ->
  let head := m_head q +u 1 in
  repr (mk (<[Z.to_nat (m_head q) := None]> (m_data q)) (m_capacity q)
           (if head =? m_capacity q then 0 else head) (m_size q -u 1))
       (with_items l s).
Proof.
  intros Hr Hi. pose proof (r_fits _ _ Hr) as Hfit. rewrite Hi, length_cons in Hfit.
  pose proof (repr_head q s Hr ltac:(lia)) as Hh. pose proof (head_slot q s Hr ltac:(lia)) as H0.
  destruct Hr as [Hc Hl Hm Hs Hf Hd Hk]. rewrite Hi, length_cons in Hs. cbv zeta.
  rewrite add64_small, Hs, sub64_small by lia. split; simpl; try done; try lia.
  - by rewrite length_insert.
  - zbool; lia.
  - intros k Hkr. set (head' := if _ =? _ then _ else _).
    assert (slot (mk (<[Z.to_nat (m_head q) := None]> (m_data q)) (m_capacity q) head'
              (Z.of_nat (S (length l)) - 1)) k = slot q (k + 1)) as ->.
    { unfold slot, head'. cbn [m_head m_capacity].
      destruct (Z.eqb_spec (m_head q + 1) (m_capacity q)) as [E|E]; [|f_equal; lia].
      replace (m_head q + (k + 1)) with (0 + k + 1 * m_capacity q) by lia. by rewrite Z.mod_add by lia. }
    destruct (Z.eq_dec (k + 1) (capacity s)) as [E|E].
    + assert (slot q (k + 1) = m_head q) as ->.
      { rewrite slot_eq by lia. destruct (Z.leb_spec (m_capacity q) (m_head q + (k + 1))); lia. }
      rewrite list_lookup_insert_eq by lia. rewrite lookup_ge_None_2; [done|lia].
    + pose proof (slot_range q (k + 1) ltac:(lia)).
      rewrite list_lookup_insert_ne.
      * rewrite Hk, Hi by lia. by replace (Z.to_nat (k + 1)) with (S (Z.to_nat k)) by lia.
      * rewrite <- H0. intros E1. pose proof (slot_range q 0 ltac:(lia)).
        assert (slot q (k + 1) = slot q 0) as E2 by lia. apply slot_inj in E2; lia.
Qed.

(** Destroying at the head removes the oldest item. *)
Lemma destroyFront_spec q s v l : repr q s -> items s = v :: l ->
  exists q', destroyFront_ q = (Ok tt, q') /\ repr q' (with_items l s).
Proof.
  intros Hr Hi. pose proof (r_fits _ _ Hr) as Hfit. rewrite Hi, length_cons in Hfit.
  pose proof (head_slot q s Hr ltac:(lia)) as H0.
  unfold destroyFront_, destroy. m_run. 
  assert (m_data q !! Z.to_nat (m_head q) = Some (Some v)) as ->.
  { rewrite <- H0. apply (item_at q s 0); [done|by rewrite Hi]. }
  eexists. split; [done|]. pose proof (pop_repr q s v l Hr Hi) as Hp. cbv zeta in Hp.
  cbn [m_size m_head m_capacity set_data set_size set_head m_data].
  destruct (Z.eqb_spec (m_size q -u 1) 0) as [E|E]; [|exact Hp].
  apply (reset_head _ _ Hp). pose proof (r_size _ _ Hp) as Hz. simpl in Hz. rewrite E in Hz.
  simpl. by destruct l.
Qed.

Lemma destroyAll_loop_spec fuel : forall q s, repr q s -> (length (items s) < fuel)%nat ->
  exists q', destroyAll_loop fuel q = (Ok tt, q') /\ repr q' (with_items [] s).
Proof.
  induction fuel as [|fuel IH]; intros q s Hr Hf; [lia|]. cbn [destroyAll_loop]. m_run.
  rewrite (r_size _ _ Hr). destruct (items s) as [|v l] eqn:Hi.
  - exists q. split; [done|]. by rewrite <- Hi, set_items_eq.
  - destruct (Z.eqb_spec (zlen (v :: l)) 0); [done|].
    destruct (destroyFront_spec q s v l Hr Hi) as (q1 & H1 & Hr1). rewrite H1.
    destruct (IH q1 _ Hr1 ltac:(simpl in *; lia)) as (q2 & H2 & Hr2). exists q2. by rewrite H2.
Qed.

Lemma destroyAll_spec q s : repr q s ->
  exists q', destroyAll_ q = (Ok tt, q') /\ repr q' (with_items [] s).
Proof.
  intros Hr. unfold destroyAll_. m_run. apply destroyAll_loop_spec; [done|].
  rewrite (r_size _ _ Hr). lia.
Qed.

Lemma front_spec q s v l : repr q s -> items s = v :: l -> front q = (Ok v, q).
Proof.
  intros Hr Hi. pose proof (r_fits _ _ Hr) as Hfit. rewrite Hi, length_cons in Hfit.
  unfold front. m_run. rewrite (r_size _ _ Hr), Hi. destruct (Z.eqb_spec (zlen (v :: l)) 0); [done|].
  pose proof (head_slot q s Hr ltac:(lia)) as H0. change (read (m_head q) q = (Ok v, q)).
  rewrite <- H0. apply (read_item q s 0); [done|by rewrite Hi].
Qed.

Lemma front_empty q s : repr q s -> items s = [] ->
  front q = (Err "SwRingQueue::front called on an empty queue", q).
Proof. intros Hr Hi. unfold front. m_run. by rewrite (r_size _ _ Hr), Hi. Qed.

Lemma last_slot q s v : repr q s -> list.last (items s) = Some v ->
  physicalIndex_ (m_size q -u 1) q = slot q (zlen (items s) - 1) /\
  items s !! Z.to_nat (zlen (items s) - 1) = Some v /\ 0 < zlen (items s).
Proof.
  intros Hr Hv. pose proof (r_fits _ _ Hr). pose proof (r_max _ _ Hr).
  rewrite list.last_lookup in Hv. pose proof (lookup_lt_Some _ _ _ Hv).
  rewrite (r_size _ _ Hr), sub64_small by lia. rewrite (physicalIndex_slot q s) by (done || lia).
  replace (Z.to_nat (zlen (items s) - 1)) with (Nat.pred (length (items s))) by lia.
  split_and!; [done|done|lia].
Qed.

(** Destroying the newest item. *)
Lemma drop_last_repr q s v : repr q s -> list.last (items s) = Some v ->
  repr (set_size (m_size q -u 1)
          (set_data (<[Z.to_nat (slot q (zlen (items s) - 1)) := None]> (m_data q)) q))
       (with_items (removelast (items s)) s).
Proof.
  intros Hr Hv. destruct (last_slot q s v Hr Hv) as (_ & Hlast & Hpos).
  pose proof (repr_head q s Hr ltac:(pose proof (r_fits _ _ Hr); lia)) as Hh.
  apply list.last_Some in Hv as [l Hl]. destruct Hr as [Hc Hlen Hm Hs Hf Hd Hk].
  rewrite Hl in *. rewrite removelast_last, length_app in *. simpl length in *.
  split; simpl; try done; try lia.
  - by rewrite length_insert.
  - rewrite Hs, sub64_small by lia. lia.
  - intros k Hkr. change (slot (set_size _ _) k) with (slot q k).
    replace (Z.of_nat (length l + 1) - 1) with (zlen l) by lia.
    pose proof (slot_range q k ltac:(lia)). pose proof (slot_range q (zlen l) ltac:(lia)).
    destruct (Z.eq_dec k (zlen l)) as [->|Hne].
    + rewrite list_lookup_insert_eq by lia. by rewrite Nat2Z.id, lookup_ge_None_2 by lia.
    + rewrite list_lookup_insert_ne.
      * rewrite Hk by done. f_equal. destruct (Z.lt_ge_cases k (zlen l)).
        -- by rewrite lookup_app_l by lia.
        -- rewrite !lookup_ge_None_2; [done|lia|rewrite length_app; simpl; lia].
      * intros E. assert (slot q (zlen l) = slot q k) as E2 by lia. apply slot_inj in E2; lia.
Qed.

Lemma index_spec q s i v : repr q s -> items s !! i = Some v -> index (Z.of_nat i) q = (Ok v, q).
Proof.
  intros Hr Hv. pose proof (r_fits _ _ Hr). pose proof (lookup_lt_Some _ _ _ Hv).
  unfold index. m_run. change (read (physicalIndex_ (Z.of_nat i) q) q = (Ok v, q)).
  rewrite (physicalIndex_slot q s) by (done || lia). by apply (read_item q s).
Qed.

Lemma moveRange_spec q s n : forall i, repr q s -> (i + n <= length (items s))%nat ->
  moveRange (Z.of_nat i) n q = (Ok (take n (drop i (items s))), q).
Proof.
  induction n as [|n IH]; intros i Hr Hn; [done|]. cbn [moveRange]. m_run.
  destruct (lookup_lt_is_Some_2 (items s) i ltac:(lia)) as [v Hv].
  rewrite (index_spec q s i v Hr Hv). replace (Z.of_nat i + 1) with (Z.of_nat (S i)) by lia.
  rewrite IH by (done || lia). by rewrite (drop_S _ v i Hv).
Qed.

Lemma fresh_repr c (l : list A) : zlen l <= c -> c <= 2 ^ 62 ->
  repr (mk (map Some l ++ replicate (Z.to_nat (c - zlen l)) None) c 0 (zlen l))
       {| capacity := c; items := l |}.
Proof.
  intros Hl Hc. split; simpl; try done; try lia.
  - rewrite length_app, length_map, length_replicate. lia.
  - intros k Hk. unfold slot. cbn [m_head m_capacity]. rewrite Z.add_0_l, Z.mod_small by lia.
    destruct (Z.lt_ge_cases k (zlen l)).
    + rewrite lookup_app_l by (rewrite length_map; lia).
      change (map Some l) with (Some <$> l). rewrite list_lookup_fmap.
      destruct (lookup_lt_is_Some_2 l (Z.to_nat k) ltac:(lia)) as [v ->]. done.
    + rewrite lookup_app_r, length_map by (rewrite length_map; lia).
      rewrite lookup_replicate_2 by lia. by rewrite (lookup_ge_None_2 l) by lia.
Qed.

Lemma setCapacity_spec q s c : repr q s -> 0 <= c <= 2 ^ 62 ->
  exists q', setCapacity c q = (Ok (Z.max 0 (zlen (items s) - c)), q') /\ repr q' (resized c s).
Proof.
  intros Hr Hc. pose proof (r_fits _ _ Hr) as Hf. pose proof (r_max _ _ Hr).
  unfold setCapacity. m_run. rewrite (r_cap _ _ Hr), (r_size _ _ Hr).
  destruct (Z.eqb_spec c (capacity s)) as [->|Hne].
  - exists q. split; [do 2 f_equal; lia|]. unfold resized.
    replace (length (items s) - Z.to_nat (capacity s))%nat with 0%nat by lia.
    rewrite drop_0. by destruct s.
  - set (keep := Z.min (zlen (items s)) c). rewrite sub64_small by lia.
    replace (zlen (items s) - keep) with (Z.of_nat (length (items s) - Z.to_nat c)) by lia.
    rewrite (moveRange_spec q s) by (done || lia).
    unfold releaseStorage_. m_run.
    destruct (destroyAll_spec q s Hr) as (q1 & -> & _).
    eexists. split; [do 2 f_equal; lia|]. unfold resized.
    set (n := (length (items s) - Z.to_nat c)%nat).
    rewrite take_ge by (rewrite length_drop; lia).
    pose proof (fresh_repr c (drop n (items s))) as Hfr. rewrite length_drop in Hfr.
    replace (Z.of_nat (length (items s) - n)) with keep in Hfr by lia.
    apply Hfr; lia.
Qed.

(** An operation does what it promises, from any state. *)
Definition keeps (o : op) : Prop := forall q s,
  repr q s -> op_ok o ->
  exists q', apply o q = ((promise o s).1, q') /\ repr q' (promise o s).2.

Ltac keeps_start q s Hr Hs Hc Hf Hok :=
  intros q s Hr Hok; pose proof (r_size _ _ Hr) as Hs; pose proof (r_cap _ _ Hr) as Hc;
  pose proof (r_fits _ _ Hr) as Hf; cbn [apply promise].

Lemma keeps_Enqueue v : keeps (Enqueue v).
Proof.
  keeps_start q s Hr Hs Hc Hf Hok.
  unfold enqueue. m_run. destruct (tryConstructBack_spec q s v Hr) as (q' & -> & Hr').
  exists q'. by destruct (_ <? _).
Qed.

Lemma keeps_EnqueueOverwrite v : keeps (EnqueueOverwrite v).
Proof.
  keeps_start q s Hr Hs Hc Hf Hok.
  unfold enqueueOverwrite, overwriteBack_. m_run. rewrite Hc, Hs.
  destruct (Z.eqb_spec (capacity s) 0); [by exists q|].
  destruct (Z.eqb_spec (zlen (items s)) (capacity s)) as [E|E].
  - destruct (items s) as [|w l] eqn:Hi; [simpl in E; lia|]. m_run.
    rewrite (front_spec q s w l Hr Hi).
    destruct (destroyFront_spec q s w l Hr Hi) as (q1 & H1 & Hr1). rewrite H1. m_run.
    destruct (tryConstructBack_spec q1 _ v Hr1) as (q' & H2 & Hr2). rewrite H2.
    cbn [items capacity with_items length] in *.
    destruct (Z.ltb_spec (zlen l) (capacity s)); [|lia].
    destruct (Z.ltb_spec (Z.of_nat (S (length l))) (capacity s)); [lia|].
    exists q'. by split.
  - destruct (tryConstructBack_spec q s v Hr) as (q' & H2 & Hr2).
    destruct (Z.ltb_spec (zlen (items s)) (capacity s)); [|lia].
    exists q'. m_run. rewrite H2. by split.
Qed.

Lemma keeps_TryDequeue : keeps (TryDequeue).
Proof.
  keeps_start q s Hr Hs Hc Hf Hok.
  unfold tryDequeue. m_run. rewrite Hs. destruct (items s) as [|v l] eqn:Hi.
  - exists q. split; [done|]. simpl. by rewrite <- Hi, set_items_eq.
  - destruct (Z.eqb_spec (zlen (v :: l)) 0); [done|]. m_run. rewrite (front_spec q s v l Hr Hi).
    destruct (destroyFront_spec q s v l Hr Hi) as (q1 & -> & Hr1). by exists q1.
Qed.

Lemma keeps_TakeFirst : keeps (TakeFirst).
Proof.
  keeps_start q s Hr Hs Hc Hf Hok.
  unfold takeFirst. m_run. rewrite Hs. destruct (items s) as [|v l] eqn:Hi; [by exists q|].
  destruct (Z.eqb_spec (zlen (v :: l)) 0); [done|]. m_run. rewrite (front_spec q s v l Hr Hi).
  destruct (destroyFront_spec q s v l Hr Hi) as (q1 & -> & Hr1). by exists q1.
Qed.

Lemma keeps_TakeLast : keeps (TakeLast).
Proof.
  keeps_start q s Hr Hs Hc Hf Hok.
  unfold takeLast. m_run. rewrite Hs. destruct (list.last (items s)) as [v|] eqn:Hl.
  - destruct (last_slot q s v Hr Hl) as (Hp & Hv & Hpos). rewrite Hs in Hp.
    destruct (Z.eqb_spec (zlen (items s)) 0); [lia|]. m_run. rewrite Hp.
    pose proof (read_item q s _ v Hr Hv) as Hrd. rewrite Z2Nat.id in Hrd by lia. rewrite Hrd.
    unfold destroy. m_run. pose proof (item_at q s _ v Hr Hv) as Hat. rewrite Z2Nat.id in Hat by lia.
    rewrite Hat. eexists. split; [done|]. exact (drop_last_repr q s v Hr Hl).
  - apply list.last_None in Hl. rewrite Hl. by exists q.
Qed.

Lemma keeps_PopFront : keeps (PopFront).
Proof.
  keeps_start q s Hr Hs Hc Hf Hok.
  unfold pop_front. m_run. rewrite Hs. destruct (items s) as [|v l] eqn:Hi.
  - exists q. split; [done|]. simpl. by rewrite <- Hi, set_items_eq.
  - destruct (Z.eqb_spec (zlen (v :: l)) 0); [done|]. cbn [negb].
    destruct (destroyFront_spec q s v l Hr Hi) as (q1 & -> & Hr1). by exists q1.
Qed.

Lemma keeps_PopBack : keeps (PopBack).
Proof.
  keeps_start q s Hr Hs Hc Hf Hok.
  unfold pop_back. m_run. rewrite Hs. destruct (list.last (items s)) as [v|] eqn:Hl.
  - destruct (last_slot q s v Hr Hl) as (Hp & Hv & Hpos). rewrite Hs in Hp.
    destruct (Z.eqb_spec (zlen (items s)) 0); [lia|]. m_run. rewrite Hp.
    unfold destroy. m_run. pose proof (item_at q s _ v Hr Hv) as Hat. rewrite Z2Nat.id in Hat by lia.
    rewrite Hat. eexists. split; [done|]. exact (drop_last_repr q s v Hr Hl).
  - apply list.last_None in Hl. rewrite Hl. simpl. exists q. split; [done|]. by rewrite <- Hl, set_items_eq.
Qed.

Lemma keeps_Front : keeps (Front).
Proof.
  keeps_start q s Hr Hs Hc Hf Hok.
  m_run. destruct (items s) as [|v l] eqn:Hi.
  - rewrite (front_empty q s Hr Hi). by exists q.
  - rewrite (front_spec q s v l Hr Hi). by exists q.
Qed.

Lemma keeps_Back : keeps (Back).
Proof.
  keeps_start q s Hr Hs Hc Hf Hok.
  unfold back. m_run. rewrite Hs. destruct (list.last (items s)) as [v|] eqn:Hl.
  - destruct (last_slot q s v Hr Hl) as (Hp & Hv & Hpos). rewrite Hs in Hp.
    destruct (Z.eqb_spec (zlen (items s)) 0); [lia|]. m_run. rewrite Hp.
    pose proof (read_item q s _ v Hr Hv) as Hrd. rewrite Z2Nat.id in Hrd by lia. rewrite Hrd. by exists q.
  - apply list.last_None in Hl. rewrite Hl. by exists q.
Qed.

Lemma keeps_At i : keeps (At i).
Proof.
  keeps_start q s Hr Hs Hc Hf Hok.
  unfold at_. m_run. rewrite Hs. simpl in Hok. unfold is_u64 in Hok.
  destruct (Z.leb_spec (zlen (items s)) i).
  - rewrite lookup_ge_None_2 by lia. by exists q.
  - destruct (lookup_lt_is_Some_2 (items s) (Z.to_nat i) ltac:(lia)) as [v Hv].
    pose proof (index_spec q s _ v Hr Hv) as Hx. rewrite Z2Nat.id in Hx by lia.
    m_run. rewrite Hx, Hv. by exists q.
Qed.

Lemma keeps_Clear : keeps (Clear).
Proof.
  keeps_start q s Hr Hs Hc Hf Hok.
  unfold clear. m_run. destruct (destroyAll_spec q s Hr) as (q1 & -> & Hr1).
  eexists. split; [done|]. pose proof (reset_head _ _ Hr1 eq_refl) as Hr2.
  assert (set_size 0 (set_head 0 q1) = set_head 0 q1) as ->; [|exact Hr2].
  pose proof (r_size _ _ Hr1) as Hz. simpl in Hz. destruct q1. simpl in *. by subst.
Qed.

Lemma keeps_SetCapacity c : keeps (SetCapacity c).
Proof.
  keeps_start q s Hr Hs Hc Hf Hok.
  m_run. destruct (setCapacity_spec q s c Hr Hok) as (q' & -> & Hr'). by exists q'.
Qed.

Lemma keeps_ReserveCapacity c : keeps (ReserveCapacity c).
Proof.
  keeps_start q s Hr Hs Hc Hf Hok.
  unfold reserveCapacity. m_run. rewrite Hc. destruct (Z.ltb_spec (capacity s) c); [|by exists q].
  m_run. destruct (setCapacity_spec q s c Hr Hok) as (q' & -> & Hr'). by exists q'.
Qed.

Lemma apply_promise o : keeps o.
Proof.
  destruct o; [apply keeps_Enqueue|apply keeps_EnqueueOverwrite|apply keeps_TryDequeue|
    apply keeps_TakeFirst|apply keeps_TakeLast|apply keeps_PopFront|apply keeps_PopBack|
    apply keeps_Front|apply keeps_Back|apply keeps_At|apply keeps_Clear|
    apply keeps_SetCapacity|apply keeps_ReserveCapacity].
Qed.

(** Whole histories: the answers given, and the final state. *)
Fixpoint run (ops : list op) (q : t A) : list (result answer) * t A :=
  match ops with
  | [] => ([], q)
  | o :: rest => let (r, q) := apply o q in let (rs, q) := run rest q in (r :: rs, q)
  end.

Fixpoint promised (ops : list op) (s : fifo) : list (result answer) * fifo :=
  match ops with
  | [] => ([], s)
  | o :: rest => let (r, s) := promise o s in let (rs, s) := promised rest s in (r :: rs, s)
  end.

Lemma run_promised ops : forall q s, repr q s -> Forall op_ok ops ->
  (run ops q).1 = (promised ops s).1 /\ repr (run ops q).2 (promised ops s).2.
Proof.
  induction ops as [|o ops IH]; intros q s Hr Hok; [done|].
  apply Forall_cons_1 in Hok as [Ho Hops]. cbn [run promised].
  destruct (apply_promise o q s Hr Ho) as (q1 & H1 & Hr1). rewrite H1.
  destruct (promise o s) as [r s1]. simpl in *. destruct (IH q1 s1 Hr1 Hops) as [H2 H3].
  destruct (run ops q1), (promised ops s1). simpl in *. by subst.
Qed.

Lemma make_repr c : 0 <= c <= 2 ^ 62 -> repr (make c) {| capacity := c; items := [] |}.
Proof.
  intros Hc. unfold make, allocate_. destruct (Z.eqb_spec c 0) as [->|H].
  - split; simpl; (done || lia).
  - pose proof (fresh_repr c [] ltac:(simpl; lia) ltac:(lia)) as Hf. simpl in Hf.
    by rewrite Z.sub_0_r in Hf.
Qed.

Lemma copy_loop_spec other s0 n : forall i q s, repr other s0 -> repr q s ->
  (i + n <= length (items s0))%nat -> zlen (items s) + Z.of_nat n <= capacity s ->
  exists q', copy_loop other (Z.of_nat i) n q = (Ok tt, q') /\
    repr q' (with_items (items s ++ take n (drop i (items s0))) s).
Proof.
  induction n as [|n IH]; intros i q s Ho Hr Hi Hn.
  - exists q. split; [done|]. by rewrite app_nil_r, set_items_eq.
  - cbn [copy_loop]. destruct (lookup_lt_is_Some_2 (items s0) i ltac:(lia)) as [v Hv]. m_run.
    rewrite (index_spec other s0 i v Ho Hv). simpl fst. unfold enqueue.
    destruct (tryConstructBack_spec q s v Hr) as (q1 & -> & Hr1).
    destruct (Z.ltb_spec (zlen (items s)) (capacity s)); [|lia].
    replace (Z.of_nat i + 1) with (Z.of_nat (S i)) by lia.
    destruct (IH (S i) q1 _ Ho Hr1 ltac:(lia)) as (q2 & -> & Hr2).
    { simpl. rewrite length_app. simpl. lia. }
    exists q2. split; [done|]. rewrite (drop_S _ v i Hv). simpl in Hr2.
    by rewrite <- app_assoc in Hr2.
Qed.

End Refinement.

(** C37: whatever history of operations, the ring buffer answers exactly what a
    bounded first-in first-out list answers, errors and evicted items included:
    order, wrap-around, overwriting, shrinking (which keeps the newest items)
    and growing. No operation ever reads or destroys raw memory or constructs
    over a live object, since that would be another answer. *)
Theorem ring_queue_is_fifo {A} (c : Z) (ops : list (@op A)) :
  0 <= c <= 2 ^ 62 -> Forall op_ok ops ->
  (run ops (make c)).1 = (promised ops {| capacity := c; items := [] |}).1.
Proof. intros Hc Hops. by apply run_promised; [apply make_repr|]. Qed.

Lemma ring_queue_is_fifo_witness :
  let ops := [Enqueue 1; Enqueue 2; EnqueueOverwrite 3; TakeFirst; Enqueue 4; SetCapacity 1; Back] in
  (run ops (make 2)).1 = (promised ops {| capacity := 2; items := [] |}).1 /\
  (run ops (make 2)).1 = map Ok [Flag true; Flag true; Overwritten true (Some 1); Item 2; Flag true; Count 1; Item 4].
Proof.
  split; [|reflexivity]. apply ring_queue_is_fifo; [lia|]. repeat constructor; by_eval.
Defined.

(** The copy constructor succeeds on every reachable queue and yields a queue
    of the same capacity and items: from then on the copy and the original give
    the same answers to the same operations. *)
Theorem copy_is_equivalent {A} (c : Z) (history ops : list (@op A)) :
  0 <= c <= 2 ^ 62 -> Forall op_ok history -> Forall op_ok ops ->
  let q := (run history (make c)).2 in
  exists q', copy q = Ok q' /\ (run ops q').1 = (run ops q).1.
Proof.
  intros Hc Hh Ho q. destruct (run_promised history (make c) _ (make_repr c Hc) Hh) as [_ Hr].
  fold q in Hr. set (s := (promised history _).2) in Hr.
  pose proof (r_fits _ _ Hr). pose proof (r_max _ _ Hr).
  pose proof (make_repr (A := A) (capacity s) ltac:(lia)) as Hm.
  destruct (copy_loop_spec q s (length (items s)) 0 _ _ Hr Hm ltac:(lia) ltac:(simpl; lia)) as (q' & Hq & Hr').
  exists q'. unfold copy. rewrite (r_cap _ _ Hr), (r_size _ _ Hr), Nat2Z.id. change 0 with (Z.of_nat 0).
  rewrite Hq. split; [done|]. simpl in Hr'. rewrite drop_0, firstn_all in Hr'.
  assert (repr q' s) as Hr'' by (by destruct s).
  by rewrite (proj1 (run_promised ops q' s Hr'' Ho)), (proj1 (run_promised ops q s Hr Ho)).
Qed.

Lemma copy_is_equivalent_witness :
  let history := [Enqueue 1; Enqueue 2; TakeFirst; Enqueue 3] in
  let q := (run history (make 2)).2 in
  exists q', copy q = Ok q' /\ (run [TakeFirst; TakeFirst] q').1 = (run [TakeFirst; TakeFirst] q).1.
Proof.
  apply (copy_is_equivalent 2 [Enqueue 1; Enqueue 2; TakeFirst; Enqueue 3] [TakeFirst; TakeFirst]);
    [lia|repeat constructor..].
Defined.

End SwRingQueue.
