(* ===== verification/ByteRingBuffer.v ===== *)
(** The growing byte ring buffer of the stream I/O paths:
    src/src/core/types/SwByteRingBuffer.h.

    Copies are checked: a [memcpy] outside its source or target is the error
    [ub], so the refinement below is also the memory safety of the buffer. *)
From Stdlib Require Import ZArith Lia Strings.Byte.
From stdpp Require Import base list strings numbers.
From S2P Require Import Prelude ByteArray.

Module SwByteRingBuffer.

Definition ub : string := "undefined behaviour".

Record t := mk { m_buffer : list byte; m_head : Z; m_size : Z }.

Definition empty : t := mk [] 0 0.

Definition capacity (b : t) : Z := SwByteArray.size (m_buffer b).

Definition isEmpty (b : t) : bool := m_size b =? 0.

(** [memcpy(target + pos, source, |source|)] *)
Definition copyIn (target : list byte) (pos : Z) (source : list byte) : result (list byte) :=
  if pos +u SwByteArray.size source <=? SwByteArray.size target then
    Ok (take (Z.to_nat pos) target ++ source ++ drop (Z.to_nat pos + length source) target)
  else Err ub.

(** [memcpy(destination, source + pos, n)]: the bytes copied. *)
Definition copyOut (source : list byte) (pos n : Z) : result (list byte) :=
  if pos +u n <=? SwByteArray.size source then Ok (SwByteArray.slice source pos n) else Err ub.

Definition physicalIndex_ (logicalOffset : Z) (b : t) : Z :=
  if capacity b =? 0 then 0
  else
    let index := m_head b +u logicalOffset in
    if capacity b <=? index then index -u capacity b else index.

(** The bytes [copyRangeTo_] writes to a non-null destination. *)
Definition copyRangeTo_ (offset length : Z) (b : t) : result (list byte) :=
  if (length =? 0) || (m_size b =? 0) then Ok []
  else if m_size b <=? offset then Ok []
  else
    let n := Z.min length (m_size b -u offset) in
    let start := physicalIndex_ offset b in
    let first := Z.min n (capacity b -u start) in
    match copyOut (m_buffer b) start first with
    | Ok head =>
        if first <? n then
          match copyOut (m_buffer b) 0 (n -u first) with
          | Ok rest => Ok (head ++ rest)
          | e => e
          end
        else Ok head
    | e => e
    end.

Definition copyTo_ (length : Z) (b : t) : result (list byte) := copyRangeTo_ 0 length b.

(** The new vector is zeroed, then filled with the bytes held. *)
Definition reallocate_ (capacity : Z) : M t unit :=
  b ← get;
  next ← (if negb (m_size b =? 0) then
            held ← of_result (copyTo_ (m_size b) b);
            of_result (copyIn (replicate (Z.to_nat capacity) Byte.x00) 0 held)
          else mret (replicate (Z.to_nat capacity) Byte.x00));
  put (mk next 0 (m_size b)).

(** [while (nextCapacity < required) nextCapacity *= 2;] *)
Fixpoint grow (fuel : nat) (nextCapacity required : Z) : result Z :=
  match fuel with
  | O => NoFuel
  | S fuel' =>
      if nextCapacity <? required then grow fuel' (nextCapacity *u 2) required else Ok nextCapacity
  end.

(** Sixty-four doublings reach any size of at most 2^62 bytes. *)
Definition ensureCapacity_ (required : Z) : M t unit :=
  b ← get;
  if required <=? capacity b then mret tt
  else
    nextCapacity ← of_result (grow 64 (if capacity b =? 0 then 4096 else capacity b) required);
    reallocate_ nextCapacity.

Definition reserve (n : Z) : M t unit :=
  b ← get;
  if capacity b <? n then reallocate_ n else mret tt.

Definition clear : M t unit := modify (fun b => mk (m_buffer b) 0 0).

Definition release : M t unit := put empty.

Definition append (data : list byte) : M t unit :=
  let length := SwByteArray.size data in
  if length =? 0 then mret tt
  else
    b ← get;
    ensureCapacity_ (m_size b +u length);;
    b ← get;
    let tail := physicalIndex_ (m_size b) b in
    let first := Z.min length (capacity b -u tail) in
    buffer ← of_result (copyIn (m_buffer b) tail (SwByteArray.slice data 0 first));
    buffer ← (if first <? length
              then of_result (copyIn buffer 0 (SwByteArray.slice data first (length -u first)))
              else mret buffer);
    put (mk buffer (m_head b) (m_size b +u length)).

Definition contiguousSize (b : t) : Z :=
  if m_size b =? 0 then 0 else Z.min (m_size b) (capacity b -u m_head b).

(** What [contiguousData()] points to, for [contiguousSize()] bytes. *)
Definition contiguousData (b : t) : list byte := SwByteArray.slice (m_buffer b) (m_head b) (contiguousSize b).

(** [operator[]] *)
Definition index (i : Z) (b : t) : Z :=
  if i <? m_size b then SwByteArray.byteAt (m_buffer b) (physicalIndex_ i b) else 0.

Definition mid (offset maxLength : Z) (b : t) : result (list byte) :=
  if m_size b <=? offset then Ok []
  else
    let n := Z.min maxLength (m_size b -u offset) in
    if n =? 0 then Ok [] else copyRangeTo_ offset n b.

Definition left (maxLength : Z) (b : t) : result (list byte) := mid 0 maxLength b.

Definition toByteArray (b : t) : result (list byte) :=
  if m_size b =? 0 then Ok [] else copyTo_ (m_size b) b.

Definition consume (length : Z) : M t unit :=
  b ← get;
  let consumed := Z.min length (m_size b) in
  if consumed =? 0 then mret tt
  else
    let head := physicalIndex_ consumed b in
    let size := m_size b -u consumed in
    put (mk (m_buffer b) (if size =? 0 then 0 else head) size).

Definition read (maxLength : Z) : M t (list byte) :=
  b ← get;
  let n := Z.min maxLength (m_size b) in
  if n =? 0 then mret []
  else
    out ← of_result (copyTo_ n b);
    consume n;;
    mret out.

(** [readInto] a non-null destination, and [readTo]: the bytes delivered and their number. *)
Definition readInto (maxLength : Z) : M t (list byte * Z) :=
  b ← get;
  let n := Z.min maxLength (m_size b) in
  if n =? 0 then mret ([], 0)
  else
    out ← of_result (copyTo_ n b);
    consume n;;
    mret (out, n).

Definition readTo (destination : list byte) (maxLength : Z) : M t (list byte * Z) :=
  b ← get;
  let n := Z.min maxLength (m_size b) in
  if n =? 0 then mret (destination, 0)
  else
    out ← of_result (copyTo_ n b);
    consume n;;
    mret (destination ++ out, n).

(** The inner loop of [indexOfData_] and the loops of [startsWith]: bytes [j ..] of
    the needle against the buffer from [i + j]. *)
Fixpoint matches (i : Z) (needle : list byte) (b : t) : bool :=
  match needle with
  | [] => true
  | x :: rest => if index i b =? b2z x then matches (i + 1) rest b else false
  end.

Fixpoint search (i : Z) (todo : nat) (needle : list byte) (b : t) : Z :=
  match todo with
  | O => -1
  | S todo' => if matches i needle b then to_int i else search (i + 1) todo' needle b
  end.

(** [npos] is -1. *)
Definition indexOfData_ (needle : list byte) (b : t) : Z :=
  if m_size b <? SwByteArray.size needle then -1
  else if SwByteArray.size needle =? 0 then 0
  else
    let limit := m_size b -u SwByteArray.size needle in
    search 0 (S (Z.to_nat limit)) needle b.

(** A null needle is not found. *)
Definition indexOf (needle : option (list byte)) (b : t) : Z :=
  match needle with None => -1 | Some needle => indexOfData_ needle b end.

Definition startsWith (prefix : list byte) (b : t) : bool :=
  if m_size b <? SwByteArray.size prefix then false else matches 0 prefix b.

(** ** The abstract buffer: the bytes held, oldest first *)

(** The physical place of the [k]-th byte. *)
Definition place (b : t) (k : Z) : Z :=
  if capacity b <=? m_head b + k then m_head b + k - capacity b else m_head b + k.

Record repr (b : t) (l : list byte) : Prop := {
  r_size : m_size b = SwByteArray.size l;
  r_fits : SwByteArray.size l <= capacity b;
  r_max : capacity b <= 2 ^ 63;
  r_head : 0 <= m_head b /\ (m_head b < capacity b \/ capacity b = 0 /\ m_head b = 0);
  r_bytes : forall k, 0 <= k < SwByteArray.size l ->
    m_buffer b !! Z.to_nat (place b k) = l !! Z.to_nat k
}.

Lemma place_range b l k : repr b l -> 0 < capacity b -> 0 <= k < capacity b ->
  0 <= place b k < capacity b.
Proof. intros [_ _ _ Hh _] Hc Hk. unfold place. zbool; lia. Qed.

Lemma physicalIndex_place b l k : repr b l -> 0 < capacity b -> 0 <= k <= capacity b ->
  physicalIndex_ k b = place b k.
Proof.
  intros [_ _ Hm Hh _] Hc Hk. unfold physicalIndex_, place.
  destruct (Z.eqb_spec (capacity b) 0); [lia|]. rewrite add64_small by lia.
  zbool; [|done]. by apply sub64_small; lia.
Qed.

Lemma size_slice bs pos n : 0 <= pos -> 0 <= n -> pos + n <= SwByteArray.size bs ->
  SwByteArray.size (SwByteArray.slice bs pos n) = n.
Proof.
  intros Hp Hn Hb. unfold SwByteArray.slice, SwByteArray.size in *.
  rewrite length_take, length_drop. lia.
Qed.

Lemma lookup_slice bs pos n k : 0 <= pos -> 0 <= k < n ->
  SwByteArray.slice bs pos n !! Z.to_nat k = bs !! Z.to_nat (pos + k).
Proof.
  intros Hp Hk. unfold SwByteArray.slice. rewrite lookup_take_lt by lia.
  rewrite lookup_drop. f_equal. lia.
Qed.

(** *** Copies out *)

Lemma copyOut_ok bs pos n : 0 <= pos -> 0 <= n -> pos + n <= SwByteArray.size bs ->
  SwByteArray.size bs <= 2 ^ 63 -> copyOut bs pos n = Ok (SwByteArray.slice bs pos n).
Proof.
  intros Hp Hn Hb Hm. unfold copyOut. rewrite add64_small by lia.
  destruct (Z.leb_spec (pos + n) (SwByteArray.size bs)); [done|lia].
Qed.

Lemma copyRangeTo_spec b l offset n : repr b l -> 0 <= offset -> 0 <= n ->
  copyRangeTo_ offset n b = Ok (SwByteArray.slice l offset n).
Proof.
  intros Hr Ho Hn. pose proof (r_size _ _ Hr) as Hs. pose proof (r_fits _ _ Hr) as Hf.
  pose proof (r_max _ _ Hr) as Hm. pose proof (SwByteArray.size_nonneg l). pose proof (r_head _ _ Hr) as Hh.
  unfold copyRangeTo_. rewrite Hs.
  destruct (Z.eqb_spec n 0) as [->|Hn0]; [done|].
  destruct (Z.eqb_spec (SwByteArray.size l) 0) as [Hz|Hz].
  { simpl. destruct l; [|rewrite SwByteArray.size_cons in Hz; pose proof (SwByteArray.size_nonneg l); lia].
    unfold SwByteArray.slice. by rewrite drop_nil, take_nil. }
  simpl. destruct (Z.leb_spec (SwByteArray.size l) offset).
  { unfold SwByteArray.slice. rewrite drop_ge by (unfold SwByteArray.size in *; lia). by rewrite take_nil. }
  rewrite sub64_small by lia. set (k := Z.min n (SwByteArray.size l - offset)).
  pose proof (place_range b l offset Hr ltac:(lia) ltac:(lia)) as Hp.
  rewrite (physicalIndex_place b l) by (done || lia). rewrite (sub64_small (capacity b)) by lia.
  set (first := Z.min k (capacity b - place b offset)).
  assert (SwByteArray.slice l offset n = SwByteArray.slice l offset k) as ->.
  { unfold SwByteArray.slice. destruct (Z.le_ge_cases n (SwByteArray.size l - offset)).
    - unfold k. by rewrite Z.min_l by lia.
    - unfold k. rewrite Z.min_r by lia. rewrite !take_ge; [done|..]; rewrite length_drop;
        unfold SwByteArray.size in *; lia. }
  rewrite copyOut_ok by (unfold capacity in *; lia).
  assert (SwByteArray.slice l offset k =
    SwByteArray.slice (m_buffer b) (place b offset) first ++ SwByteArray.slice (m_buffer b) 0 (k - first)) as ->.
  { apply list_eq. intros i. destruct (Z.lt_ge_cases (Z.of_nat i) k) as [Hi|Hi].
    - rewrite <- (Nat2Z.id i). rewrite lookup_slice by lia.
      rewrite <- (r_bytes _ _ Hr) by lia.
      assert (length (SwByteArray.slice (m_buffer b) (place b offset) first) = Z.to_nat first) as Hl1.
      { pose proof (size_slice (m_buffer b) (place b offset) first ltac:(lia) ltac:(lia)
          ltac:(unfold capacity in *; lia)). unfold SwByteArray.size in *. lia. }
      destruct (Z.lt_ge_cases (Z.of_nat i) first) as [Hlt|Hge].
      + rewrite lookup_app_l by lia. rewrite lookup_slice by lia. f_equal. f_equal.
        unfold first, place in *. zbool; lia.
      + rewrite lookup_app_r by lia. rewrite Hl1.
        replace (Z.to_nat (Z.of_nat i) - Z.to_nat first)%nat with (Z.to_nat (Z.of_nat i - first)) by lia.
        rewrite lookup_slice by lia. f_equal. f_equal. unfold first, place in *. zbool; lia.
    - rewrite !lookup_ge_None_2; [done|..].
      + rewrite length_app. unfold SwByteArray.slice. rewrite !length_take. lia.
      + unfold SwByteArray.slice. rewrite length_take. lia. }
  destruct (Z.ltb_spec first k).
  - rewrite sub64_small by lia. rewrite copyOut_ok by (fold (capacity b); lia). done.
  - replace (k - first) with 0 by lia. unfold SwByteArray.slice at 3. simpl. by rewrite app_nil_r.
Qed.

Lemma slice_whole l n : SwByteArray.size l <= n -> SwByteArray.slice l 0 n = l.
Proof. intros H. unfold SwByteArray.slice. rewrite drop_0. apply take_ge. unfold SwByteArray.size in *. lia. Qed.

Lemma slice_take l n : SwByteArray.slice l 0 n = take (Z.to_nat n) l.
Proof. unfold SwByteArray.slice. by rewrite drop_0. Qed.

(** *** Copies in *)

Lemma copyIn_ok target pos source : 0 <= pos -> pos + SwByteArray.size source <= SwByteArray.size target ->
  SwByteArray.size target <= 2 ^ 63 ->
  exists out, copyIn target pos source = Ok out /\ SwByteArray.size out = SwByteArray.size target /\
    forall i, 0 <= i < SwByteArray.size target -> out !! Z.to_nat i =
      if (pos <=? i) && (i <? pos + SwByteArray.size source) then source !! Z.to_nat (i - pos)
      else target !! Z.to_nat i.
Proof.
  intros Hp Hf Hm. unfold copyIn. pose proof (SwByteArray.size_nonneg source).
  rewrite add64_small by lia. destruct (Z.leb_spec (pos + SwByteArray.size source) (SwByteArray.size target)); [|lia].
  eexists. split; [done|]. unfold SwByteArray.size in *.
  split; [rewrite !length_app, length_take, length_drop; lia|]. intros i Hi.
  destruct (Z.leb_spec pos i); simpl.
  - destruct (Z.ltb_spec i (pos + zlen source)).
    + rewrite lookup_app_r by (rewrite length_take; lia). rewrite length_take.
      rewrite lookup_app_l by lia. f_equal. lia.
    + rewrite lookup_app_r by (rewrite length_take; lia). rewrite length_take.
      rewrite lookup_app_r by lia. rewrite lookup_drop. f_equal. lia.
  - rewrite lookup_app_l by (rewrite length_take; lia). by rewrite lookup_take_lt by lia.
Qed.

(** *** Growing *)

Lemma reallocate_spec b l n : repr b l -> SwByteArray.size l <= n <= 2 ^ 63 ->
  exists b', reallocate_ n b = (Ok tt, b') /\ repr b' l /\ capacity b' = n.
Proof.
  intros Hr Hn. pose proof (r_size _ _ Hr) as Hs. pose proof (SwByteArray.size_nonneg l).
  unfold reallocate_. m_run. rewrite Hs.
  assert (SwByteArray.size (replicate (Z.to_nat n) x00) = n) as Hrep
    by (unfold SwByteArray.size; rewrite length_replicate; lia).
  destruct (Z.eqb_spec (SwByteArray.size l) 0) as [Hz|Hz]; simpl.
  - eexists. split; [done|]. split; [|exact Hrep].
    split; unfold capacity; simpl; rewrite ?Hrep; try lia.
  - m_run. unfold copyTo_. rewrite (copyRangeTo_spec b l) by (done || lia). rewrite slice_whole by lia.
    destruct (copyIn_ok (replicate (Z.to_nat n) x00) 0 l) as (out & -> & Hl & Hat); [lia|lia|lia|].
    rewrite Hrep in *. eexists. split; [done|]. split; [|exact Hl].
    split; unfold capacity; simpl; rewrite ?Hl; try lia.
    intros k Hk. unfold place, capacity. simpl. rewrite Hl. destruct (Z.leb_spec n (0 + k)); [lia|].
    rewrite Hat by lia. destruct (Z.leb_spec 0 (0 + k)); [|lia].
    destruct (Z.ltb_spec (0 + k) (0 + SwByteArray.size l)); [|lia]. simpl. f_equal. lia.
Qed.

Lemma grow_spec fuel : forall c required, 1 <= c -> required <= c * 2 ^ (Z.of_nat fuel - 1) -> required <= 2 ^ 62 ->
  (c <= required \/ c <= 2 ^ 63) -> (0 < fuel)%nat ->
  exists n, grow fuel c required = Ok n /\ required <= n <= 2 ^ 63.
Proof.
  induction fuel as [|fuel IH]; intros c required Hc Hf Hr Hm H0; [lia|]. cbn [grow].
  destruct (Z.ltb_spec c required); [|exists c; split; [done|lia]].
  rewrite mul64_small by lia. destruct fuel as [|fuel].
  { change (2 ^ (Z.of_nat 1 - 1)) with 1 in Hf. lia. }
  apply IH; [lia| |lia|right; lia|lia].
  replace (Z.of_nat (S (S fuel)) - 1) with (Z.succ (Z.of_nat (S fuel) - 1)) in Hf by lia.
  rewrite Z.pow_succ_r in Hf by lia. lia.
Qed.

Lemma ensureCapacity_spec b l n : repr b l -> SwByteArray.size l <= n -> n <= 2 ^ 62 ->
  exists b', ensureCapacity_ n b = (Ok tt, b') /\ repr b' l /\ n <= capacity b'.
Proof.
  intros Hr Hl Hn. pose proof (r_max _ _ Hr). pose proof (r_fits _ _ Hr). pose proof (SwByteArray.size_nonneg l).
  unfold ensureCapacity_. m_run. destruct (Z.leb_spec n (capacity b)); [by exists b|].
  destruct (grow_spec 64 (if capacity b =? 0 then 4096 else capacity b) n) as (c & Hg & Hc);
    [zbool; lia|zbool; change (2 ^ (Z.of_nat 64 - 1)) with (2 ^ 63); lia|lia|right; zbool; lia|lia|].
  m_run. rewrite Hg. destruct (reallocate_spec b l c Hr ltac:(lia)) as (b' & Hb & Hr' & Hc').
  exists b'. split; [exact Hb|]. split; [done|lia].
Qed.

(** *** Operations *)

(** Both copies of [append]: the bytes land in the places after the last one. *)
Lemma append_bytes b l data : repr b l -> 0 < SwByteArray.size data ->
  SwByteArray.size l + SwByteArray.size data <= capacity b ->
  let tail := place b (SwByteArray.size l) in
  let first := Z.min (SwByteArray.size data) (capacity b - tail) in
  exists buffer,
    (match copyIn (m_buffer b) tail (SwByteArray.slice data 0 first) with
     | Ok buffer =>
         if first <? SwByteArray.size data
         then copyIn buffer 0 (SwByteArray.slice data first (SwByteArray.size data - first))
         else Ok buffer
     | e => e
     end) = Ok buffer /\
    SwByteArray.size buffer = capacity b /\
    forall k, 0 <= k < SwByteArray.size l + SwByteArray.size data ->
      buffer !! Z.to_nat (place b k) = (l ++ data) !! Z.to_nat k.
Proof.
  intros Hr Hd Hcap tail first. pose proof (r_head _ _ Hr) as Hh. pose proof (r_max _ _ Hr).
  pose proof (SwByteArray.size_nonneg l).
  pose proof (place_range b l (SwByteArray.size l) Hr ltac:(lia) ltac:(lia)) as Ht. fold tail in Ht.
  assert (0 <= first <= SwByteArray.size data) as Hf by lia.
  assert (SwByteArray.size (SwByteArray.slice data 0 first) = first) as Hs1 by (apply size_slice; lia).
  destruct (copyIn_ok (m_buffer b) tail (SwByteArray.slice data 0 first)) as (buf & -> & Hl & Hat);
    [lia|fold (capacity b); lia|fold (capacity b); lia|].
  fold (capacity b) in Hl, Hat. rewrite Hs1 in Hat.
  assert (forall k, 0 <= k < SwByteArray.size l -> m_buffer b !! Z.to_nat (place b k) = (l ++ data) !! Z.to_nat k) as Hold.
  { intros k Hk. rewrite (r_bytes _ _ Hr) by done. rewrite lookup_app_l; [done|unfold SwByteArray.size in *; lia]. }
  assert (forall k, SwByteArray.size l <= k < SwByteArray.size l + SwByteArray.size data ->
    data !! Z.to_nat (k - SwByteArray.size l) = (l ++ data) !! Z.to_nat k) as Hnew.
  { intros k Hk. rewrite lookup_app_r by (unfold SwByteArray.size in *; lia).
    f_equal. unfold SwByteArray.size in *. lia. }
  destruct (Z.ltb_spec first (SwByteArray.size data)) as [Hlt|Hge].
  - assert (SwByteArray.size (SwByteArray.slice data first (SwByteArray.size data - first)) =
      SwByteArray.size data - first) as Hs2 by (apply size_slice; lia).
    destruct (copyIn_ok buf 0 (SwByteArray.slice data first (SwByteArray.size data - first))) as (buf2 & -> & Hl2 & Hat2);
      [lia|lia|lia|]. rewrite Hl, Hs2 in *. exists buf2. split_and!; [done|done|]. intros k Hk.
    pose proof (place_range b l k Hr ltac:(lia) ltac:(lia)). rewrite Hat2 by done.
    destruct (Z.leb_spec 0 (place b k)); [|lia]. simpl.
    destruct (Z.ltb_spec (place b k) (0 + (SwByteArray.size data - first))) as [Hin|Hout].
    + rewrite lookup_slice by lia.
      assert (SwByteArray.size l <= k /\ first + (place b k - 0) = k - SwByteArray.size l) as [Hk1 ->]
        by (unfold first, tail, place in *; zbool; lia). apply Hnew. lia.
    + rewrite Hat by done. destruct (Z.leb_spec tail (place b k)) as [Hk1|Hk1]; simpl.
      * destruct (Z.ltb_spec (place b k) (tail + first)); [|unfold first in *; lia].
        rewrite lookup_slice by lia.
        assert (SwByteArray.size l <= k /\ 0 + (place b k - tail) = k - SwByteArray.size l) as [Hk2 ->]
          by (unfold first, tail, place in *; zbool; lia). apply Hnew. lia.
      * apply Hold. unfold first, tail, place in *. zbool; lia.
  - exists buf. split_and!; [done|done|]. intros k Hk.
    pose proof (place_range b l k Hr ltac:(lia) ltac:(lia)). rewrite Hat by done.
    destruct (Z.leb_spec tail (place b k)) as [Hk1|Hk1]; simpl.
    + destruct (Z.ltb_spec (place b k) (tail + first)) as [Hk3|Hk3].
      * rewrite lookup_slice by lia.
        assert (SwByteArray.size l <= k /\ 0 + (place b k - tail) = k - SwByteArray.size l) as [Hk2 ->]
          by (unfold first, tail, place in *; zbool; lia). apply Hnew. lia.
      * apply Hold. unfold first, tail, place in *. zbool; lia.
    + apply Hold. unfold first, tail, place in *. zbool; lia.
Qed.

Lemma append_spec b l data : repr b l -> SwByteArray.size l + SwByteArray.size data <= 2 ^ 62 ->
  exists b', append data b = (Ok tt, b') /\ repr b' (l ++ data).
Proof.
  intros Hr Hcap. pose proof (SwByteArray.size_nonneg l). pose proof (SwByteArray.size_nonneg data).
  unfold append. destruct (Z.eqb_spec (SwByteArray.size data) 0) as [Hz|Hz].
  { exists b. split; [done|]. destruct data; [by rewrite app_nil_r|].
    rewrite SwByteArray.size_cons in Hz. pose proof (SwByteArray.size_nonneg data). lia. }
  m_run. rewrite (r_size _ _ Hr), add64_small by lia.
  destruct (ensureCapacity_spec b l (SwByteArray.size l + SwByteArray.size data) Hr ltac:(lia) Hcap)
    as (b1 & -> & Hr1 & Hc1).
  pose proof (r_max _ _ Hr1). rewrite (r_size _ _ Hr1).
  rewrite (physicalIndex_place b1 l) by (done || lia).
  pose proof (place_range b1 l (SwByteArray.size l) Hr1 ltac:(lia) ltac:(lia)).
  rewrite (sub64_small (capacity b1)) by lia.
  destruct (append_bytes b1 l data Hr1 ltac:(lia) Hc1) as (buffer & Hcopy & Hlen & Hat).
  set (first := Z.min (SwByteArray.size data) (capacity b1 - place b1 (SwByteArray.size l))) in *.
  rewrite (sub64_small (SwByteArray.size data)), add64_small by lia.
  destruct (copyIn (m_buffer b1) _ _) as [buf|e|]; [|discriminate..].
  eexists. split.
  { destruct (first <? SwByteArray.size data); m_run; [rewrite Hcopy|injection Hcopy as ->]; reflexivity. }
  destruct Hr1 as [Hs Hf Hm Hh Hb]. split; unfold capacity; simpl; rewrite ?Hlen, ?SwByteArray.size_app; try lia.
  intros k Hk. rewrite <- Hat by lia. unfold place, capacity. simpl. rewrite Hlen. done.
Qed.

Lemma consume_spec b l n : repr b l -> 0 <= n ->
  exists b', consume n b = (Ok tt, b') /\ repr b' (drop (Z.to_nat n) l).
Proof.
  intros Hr Hn. pose proof (r_size _ _ Hr) as Hs. pose proof (r_fits _ _ Hr) as Hf.
  pose proof (r_max _ _ Hr) as Hm. pose proof (r_head _ _ Hr) as Hh. pose proof (SwByteArray.size_nonneg l).
  unfold consume. m_run. rewrite Hs. set (k := Z.min n (SwByteArray.size l)).
  assert (drop (Z.to_nat n) l = drop (Z.to_nat k) l) as ->.
  { destruct (Z.le_ge_cases n (SwByteArray.size l)); [by unfold k; rewrite Z.min_l|].
    unfold k. rewrite Z.min_r by lia. rewrite !drop_ge; [done|unfold SwByteArray.size in *; lia..]. }
  destruct (Z.eqb_spec k 0) as [->|Hk]; [by exists b|].
  rewrite (physicalIndex_place b l), sub64_small by (done || lia).
  eexists. split; [done|].
  assert (SwByteArray.size (drop (Z.to_nat k) l) = SwByteArray.size l - k) as Hd
    by (unfold SwByteArray.size in *; rewrite length_drop; lia).
  assert (0 <= place b k < capacity b \/ SwByteArray.size l - k = 0) as Hp
    by (destruct (Z.eq_dec k (SwByteArray.size l)); [lia|left; apply (place_range b l); (done || lia)]).
  split; unfold capacity; cbn [m_buffer m_head m_size]; fold (capacity b); rewrite ?Hd; try lia.
  - destruct (Z.eqb_spec (SwByteArray.size l - k) 0); lia.
  - intros j Hj. destruct (Z.eqb_spec (SwByteArray.size l - k) 0); [lia|].
    rewrite lookup_drop. replace (Z.to_nat k + Z.to_nat j)%nat with (Z.to_nat (k + j)) by lia.
    rewrite <- (r_bytes _ _ Hr) by lia. f_equal. f_equal.
    unfold place, capacity. cbn [m_buffer m_head]. fold (capacity b). zbool; lia.
Qed.

Lemma byte_ring_mid_spec b l offset n : repr b l -> 0 <= offset -> 0 <= n ->
  mid offset n b = Ok (SwByteArray.slice l offset n).
Proof.
  intros Hr Ho Hn. pose proof (r_size _ _ Hr) as Hs. pose proof (SwByteArray.size_nonneg l).
  pose proof (r_fits _ _ Hr). pose proof (r_max _ _ Hr).
  unfold mid. rewrite Hs. destruct (Z.leb_spec (SwByteArray.size l) offset).
  { unfold SwByteArray.slice. rewrite drop_ge by (unfold SwByteArray.size in *; lia). by rewrite take_nil. }
  rewrite sub64_small by lia.
  assert (SwByteArray.slice l offset n = SwByteArray.slice l offset (Z.min n (SwByteArray.size l - offset))) as ->.
  { unfold SwByteArray.slice. destruct (Z.le_ge_cases n (SwByteArray.size l - offset)); [by rewrite Z.min_l|].
    rewrite Z.min_r by lia. rewrite !take_ge; [done|..]; rewrite length_drop; unfold SwByteArray.size in *; lia. }
  destruct (Z.eqb_spec (Z.min n (SwByteArray.size l - offset)) 0) as [->|]; [done|].
  apply copyRangeTo_spec; [done|lia|lia].
Qed.

Lemma byte_ring_index_spec b l i : repr b l -> 0 <= i ->
  index i b = match l !! Z.to_nat i with Some x => b2z x | None => 0 end.
Proof.
  intros Hr Hi. pose proof (r_size _ _ Hr) as Hs. pose proof (r_fits _ _ Hr).
  unfold index. rewrite Hs. destruct (Z.ltb_spec i (SwByteArray.size l)).
  - rewrite (physicalIndex_place b l) by (done || lia). unfold SwByteArray.byteAt.
    rewrite (r_bytes _ _ Hr) by lia.
    destruct (lookup_lt_is_Some_2 l (Z.to_nat i)) as [x ->]; [unfold SwByteArray.size in *; lia|done].
  - by rewrite lookup_ge_None_2 by (unfold SwByteArray.size in *; lia).
Qed.

Lemma matches_spec b l needle : forall i, repr b l -> 0 <= i ->
  i + SwByteArray.size needle <= SwByteArray.size l ->
  matches i needle b = bool_decide (SwByteArray.slice l i (SwByteArray.size needle) = needle).
Proof.
  induction needle as [|x needle IH]; intros i Hr Hi Hfit.
  - by rewrite bool_decide_true.
  - rewrite SwByteArray.size_cons in *. pose proof (SwByteArray.size_nonneg needle).
    cbn [matches]. rewrite (byte_ring_index_spec b l) by done.
    destruct (lookup_lt_is_Some_2 l (Z.to_nat i)) as [y Hy]; [unfold SwByteArray.size in *; lia|]. rewrite Hy.
    assert (SwByteArray.slice l i (1 + SwByteArray.size needle) =
      y :: SwByteArray.slice l (i + 1) (SwByteArray.size needle)) as ->.
    { unfold SwByteArray.slice. rewrite (drop_S _ _ _ Hy).
      replace (Z.to_nat (1 + SwByteArray.size needle)) with (S (Z.to_nat (SwByteArray.size needle))) by lia.
      simpl. by replace (Z.to_nat (i + 1)) with (S (Z.to_nat i)) by lia. }
    destruct (Z.eqb_spec (b2z y) (b2z x)) as [E|E].
    + apply b2z_inj in E as ->. rewrite IH by (done || lia). apply bool_decide_ext. split; congruence.
    + rewrite bool_decide_false; [done|]. congruence.
Qed.

(** The first place, from [i] on, where [needle] stands in [l]. *)
Definition first_at (l needle : list byte) (i r : Z) : Prop :=
  i <= r /\ SwByteArray.slice l r (SwByteArray.size needle) = needle /\
  forall j, i <= j < r -> SwByteArray.slice l j (SwByteArray.size needle) <> needle.

Lemma search_spec b l needle todo : forall i, repr b l -> 0 <= i ->
  i + Z.of_nat todo + SwByteArray.size needle <= SwByteArray.size l + 1 -> SwByteArray.size l <= int_max ->
  (search i todo needle b = -1 /\
     forall j, i <= j < i + Z.of_nat todo -> SwByteArray.slice l j (SwByteArray.size needle) <> needle) \/
  (first_at l needle i (search i todo needle b)).
Proof.
  induction todo as [|todo IH]; intros i Hr Hi Hf Hm; cbn [search]; [left; split; [done|lia]|].
  pose proof (SwByteArray.size_nonneg needle). unfold int_max in Hm.
  rewrite (matches_spec b l) by (done || lia). case_bool_decide as E.
  - right. rewrite to_int_small by lia. split_and!; [lia|done|lia].
  - destruct (IH (i + 1) Hr ltac:(lia) ltac:(lia) Hm) as [[H1 H2]|(H1 & H2 & H3)].
    + left. split; [done|]. intros j Hj. destruct (Z.eq_dec j i) as [->|]; [done|]. apply H2. lia.
    + right. split_and!; [lia|done|]. intros j Hj. destruct (Z.eq_dec j i) as [->|]; [done|]. apply H3. lia.
Qed.

Lemma slice_stands (l needle before after : list byte) : l = before ++ needle ++ after ->
  SwByteArray.slice l (SwByteArray.size before) (SwByteArray.size needle) = needle /\
  SwByteArray.size before + SwByteArray.size needle <= SwByteArray.size l.
Proof.
  intros ->. unfold SwByteArray.slice, SwByteArray.size. rewrite !Nat2Z.id, !length_app.
  rewrite drop_app_length, take_app_length. split; [done|lia].
Qed.

(** [indexOf]: the first occurrence, or none. *)
Lemma indexOf_first b l needle : repr b l -> SwByteArray.size l <= int_max ->
  first_at l needle 0 (indexOf (Some needle) b) \/
  indexOf (Some needle) b = -1 /\ forall before after, l <> before ++ needle ++ after.
Proof.
  intros Hr Hm. pose proof (r_size _ _ Hr) as Hs. pose proof (SwByteArray.size_nonneg needle).
  pose proof (r_fits _ _ Hr). pose proof (r_max _ _ Hr).
  unfold indexOf, indexOfData_. rewrite Hs.
  destruct (Z.ltb_spec (SwByteArray.size l) (SwByteArray.size needle)).
  { right. split; [done|]. intros before after E. apply slice_stands in E as [_ E].
    pose proof (SwByteArray.size_nonneg before). lia. }
  destruct (Z.eqb_spec (SwByteArray.size needle) 0) as [Hz|Hz].
  { left. split_and!; [lia|rewrite Hz; by destruct needle|lia]. }
  rewrite sub64_small by (unfold int_max in Hm; lia).
  destruct (search_spec b l needle (S (Z.to_nat (SwByteArray.size l - SwByteArray.size needle))) 0 Hr
    ltac:(lia) ltac:(lia) Hm) as [[Hn Hall]|Hf]; [right|by left].
  split; [done|]. intros before after E. apply slice_stands in E as [E1 E2].
  pose proof (SwByteArray.size_nonneg before). apply (Hall (SwByteArray.size before)); [lia|done].
Qed.

(** The contiguous view is a prefix, and not an empty one. *)
Lemma contiguous_prefix b l : repr b l ->
  contiguousData b = take (Z.to_nat (contiguousSize b)) l /\
  (l <> [] -> 0 < contiguousSize b <= SwByteArray.size l).
Proof.
  intros Hr. pose proof (r_size _ _ Hr) as Hs. pose proof (SwByteArray.size_nonneg l).
  pose proof (r_fits _ _ Hr). pose proof (r_max _ _ Hr). pose proof (r_head _ _ Hr) as Hh.
  unfold contiguousData, contiguousSize. rewrite Hs.
  destruct (Z.eqb_spec (SwByteArray.size l) 0) as [Hz|Hz].
  { split; [done|]. intros Hl. destruct l; [done|]. rewrite SwByteArray.size_cons in Hz.
    pose proof (SwByteArray.size_nonneg l). lia. }
  rewrite sub64_small by lia. split; [|lia].
  set (n := Z.min (SwByteArray.size l) (capacity b - m_head b)).
  apply list_eq. intros i. destruct (Z.lt_ge_cases (Z.of_nat i) n).
  - rewrite <- (Nat2Z.id i), lookup_slice, lookup_take_lt by lia.
    rewrite <- (r_bytes _ _ Hr) by lia. f_equal. f_equal. unfold place. zbool; lia.
  - rewrite !lookup_ge_None_2; [done|rewrite length_take; lia|].
    unfold SwByteArray.slice. rewrite length_take. lia.
Qed.

(** *** Histories *)

Inductive op :=
| Append (data : list byte) | Consume (n : Z) | Read (n : Z) | ReadInto (n : Z)
| ReadTo (destination : list byte) (n : Z) | Left (n : Z) | Mid (offset n : Z) | Index (i : Z)
| StartsWith (prefix : list byte) | ToByteArray | Size | Clear | Release | Reserve (n : Z).

Inductive answer := Done | Bytes (bs : list byte) | Counted (bs : list byte) (n : Z) | Number (z : Z) | Flag (f : bool).

Definition pure_answer {B} (f : B -> answer) (r : t -> result B) : M t answer :=
  b ← get; x ← of_result (r b); mret (f x).

Definition apply (o : op) : M t answer :=
  match o with
  | Append data => append data;; mret Done
  | Consume n => consume n;; mret Done
  | Read n => bs ← read n; mret (Bytes bs)
  | ReadInto n => '(bs, k) ← readInto n; mret (Counted bs k)
  | ReadTo d n => '(bs, k) ← readTo d n; mret (Counted bs k)
  | Left n => pure_answer Bytes (left n)
  | Mid o n => pure_answer Bytes (mid o n)
  | Index i => pure_answer Number (fun b => Ok (index i b))
  | StartsWith p => pure_answer Flag (fun b => Ok (startsWith p b))
  | ToByteArray => pure_answer Bytes toByteArray
  | Size => pure_answer Number (fun b => Ok (m_size b))
  | Clear => clear;; mret Done
  | Release => release;; mret Done
  | Reserve n => reserve n;; mret Done
  end.

(** What each operation promises, of the bytes held. *)
Definition promise (o : op) (l : list byte) : answer * list byte :=
  match o with
  | Append data => (Done, l ++ data)
  | Consume n => (Done, drop (Z.to_nat n) l)
  | Read n => (Bytes (take (Z.to_nat n) l), drop (Z.to_nat n) l)
  | ReadInto n => (Counted (take (Z.to_nat n) l) (Z.min n (SwByteArray.size l)), drop (Z.to_nat n) l)
  | ReadTo d n => (Counted (d ++ take (Z.to_nat n) l) (Z.min n (SwByteArray.size l)), drop (Z.to_nat n) l)
  | Left n => (Bytes (take (Z.to_nat n) l), l)
  | Mid o n => (Bytes (take (Z.to_nat n) (drop (Z.to_nat o) l)), l)
  | Index i => (Number (match l !! Z.to_nat i with Some x => b2z x | None => 0 end), l)
  | StartsWith p => (Flag (bool_decide (take (length p) l = p)), l)
  | ToByteArray => (Bytes l, l)
  | Size => (Number (SwByteArray.size l), l)
  | Clear | Release => (Done, [])
  | Reserve _ => (Done, l)
  end.

(** Sizes and offsets of type [std::size_t], storage within the address space. *)
Definition op_ok (o : op) : Prop :=
  match o with
  | Consume n | Read n | ReadInto n | ReadTo _ n | Left n | Index n => 0 <= n
  | Mid o n => 0 <= o /\ 0 <= n
  | Reserve n => 0 <= n <= 2 ^ 62
  | _ => True
  end.

Definition appended (o : op) : Z := match o with Append data => SwByteArray.size data | _ => 0 end.

(** An operation does what it promises, from any state. *)
Definition keeps (o : op) : Prop := forall b l,
  repr b l -> op_ok o -> SwByteArray.size l + appended o <= 2 ^ 62 ->
  exists b', apply o b = (Ok (promise o l).1, b') /\ repr b' (promise o l).2.

Lemma empty_repr head buffer : SwByteArray.size buffer <= 2 ^ 63 ->
  head = 0 -> repr (mk buffer head 0) [].
Proof.
  intros Hm ->. pose proof (SwByteArray.size_nonneg buffer).
  split; unfold capacity; simpl; try (unfold SwByteArray.size in *; simpl in *; lia).
Qed.

Lemma keeps_pure {B} (f : B -> answer) (r : t -> result B) (x : B) b :
  r b = Ok x -> pure_answer f r b = (Ok (f x), b).
Proof. intros H. unfold pure_answer. m_run. by rewrite H. Qed.

Lemma taken_count b l n : repr b l -> 0 <= n -> Z.min n (SwByteArray.size l) <> 0 ->
  copyTo_ (Z.min n (SwByteArray.size l)) b = Ok (take (Z.to_nat n) l).
Proof.
  intros Hr Hn H0. pose proof (SwByteArray.size_nonneg l).
  unfold copyTo_. rewrite (copyRangeTo_spec b l) by (done || lia). rewrite slice_take. f_equal.
  destruct (Z.le_ge_cases n (SwByteArray.size l)); [by rewrite Z.min_l|].
  rewrite Z.min_r by lia. unfold SwByteArray.size in *. rewrite !take_ge; [done|lia..].
Qed.

Lemma taken_none l n : 0 <= n -> Z.min n (SwByteArray.size l) = 0 ->
  take (Z.to_nat n) l = [] /\ drop (Z.to_nat n) l = l.
Proof.
  intros Hn H0. destruct (Z.eq_dec n 0) as [->|]; [done|].
  destruct l; [by rewrite take_nil, drop_nil|].
  rewrite SwByteArray.size_cons in H0. pose proof (SwByteArray.size_nonneg l). lia.
Qed.

Lemma min_consumed b l n : repr b l -> 0 <= n ->
  exists b', consume (Z.min n (SwByteArray.size l)) b = (Ok tt, b') /\ repr b' (drop (Z.to_nat n) l).
Proof.
  intros Hr Hn. pose proof (SwByteArray.size_nonneg l).
  destruct (consume_spec b l (Z.min n (SwByteArray.size l)) Hr ltac:(lia)) as (b' & Hb & Hr').
  exists b'. split; [done|].
  destruct (Z.le_ge_cases n (SwByteArray.size l)); [by rewrite Z.min_l in Hr'|].
  rewrite Z.min_r in Hr' by lia. revert Hr'. unfold SwByteArray.size in *. by rewrite !drop_ge by lia.
Qed.

Ltac keeps_reading n :=
  intros b l Hr Hn _; cbn [apply promise]; m_run; rewrite (r_size _ _ Hr);
  destruct (Z.eqb_spec (Z.min n (SwByteArray.size l)) 0) as [H0|H0];
    [destruct (taken_none l n Hn H0) as [-> ->]; exists b; rewrite ?app_nil_r, ?H0; by split|];
  m_run; rewrite (taken_count b l n Hr Hn H0);
  destruct (min_consumed b l n Hr Hn) as (b' & Hb & Hr'); rewrite Hb; exists b'; by split.

Lemma keeps_Read n : keeps (Read n).
Proof. unfold keeps, apply, read. keeps_reading n. Qed.

Lemma keeps_ReadInto n : keeps (ReadInto n).
Proof. unfold keeps, apply, readInto. keeps_reading n. Qed.

Lemma keeps_ReadTo d n : keeps (ReadTo d n).
Proof. unfold keeps, apply, readTo. keeps_reading n. Qed.

Lemma startsWith_spec b l p : repr b l -> startsWith p b = bool_decide (take (length p) l = p).
Proof.
  intros Hr. unfold startsWith. rewrite (r_size _ _ Hr).
  destruct (Z.ltb_spec (SwByteArray.size l) (SwByteArray.size p)) as [H|H].
  - rewrite bool_decide_false; [done|]. intros E. apply (f_equal length) in E.
    rewrite length_take in E. unfold SwByteArray.size in H. lia.
  - rewrite (matches_spec b l) by (done || lia). rewrite slice_take.
    unfold SwByteArray.size. by rewrite Nat2Z.id.
Qed.

Lemma toByteArray_spec b l : repr b l -> toByteArray b = Ok l.
Proof.
  intros Hr. pose proof (r_size _ _ Hr) as Hs. pose proof (SwByteArray.size_nonneg l).
  unfold toByteArray. rewrite Hs. destruct (Z.eqb_spec (SwByteArray.size l) 0).
  - destruct l; [done|]. rewrite SwByteArray.size_cons in *. pose proof (SwByteArray.size_nonneg l). lia.
  - unfold copyTo_. rewrite (copyRangeTo_spec b l) by (done || lia). by rewrite slice_whole.
Qed.

Lemma keeps_views b l o : repr b l -> op_ok o ->
  match o with
  | Left _ | Mid _ _ | Index _ | StartsWith _ | ToByteArray | Size =>
      apply o b = (Ok (promise o l).1, b) /\ (promise o l).2 = l
  | _ => True
  end.
Proof.
  intros Hr Hok. destruct o; try exact I; split; try reflexivity; cbn [apply promise fst];
    simpl in Hok; apply keeps_pure.
  - unfold left. rewrite (byte_ring_mid_spec b l) by (done || lia). by rewrite slice_take.
  - rewrite (byte_ring_mid_spec b l) by (done || lia). done.
  - f_equal. by apply byte_ring_index_spec.
  - f_equal. by apply startsWith_spec.
  - by apply toByteArray_spec.
  - f_equal. apply (r_size _ _ Hr).
Qed.

Lemma byte_ring_apply_promise o : keeps o.
Proof.
  intros b l Hr Hok Hcap. pose proof (keeps_views b l o Hr Hok) as Hv.
  destruct o as [data|n|n|n|d n|n|off n|i|p| | | | |n];
    try (exists b; rewrite (proj2 Hv); exact (conj (proj1 Hv) Hr)); clear Hv.
  - cbn [apply promise]. m_run. destruct (append_spec b l data Hr Hcap) as (b' & -> & Hr'). by exists b'.
  - cbn [apply promise]. m_run. destruct (consume_spec b l n Hr Hok) as (b' & -> & Hr'). by exists b'.
  - by apply keeps_Read.
  - by apply keeps_ReadInto.
  - by apply keeps_ReadTo.
  - eexists. split; [done|]. by apply empty_repr; [apply (r_max _ _ Hr)|].
  - eexists. split; [done|]. by apply empty_repr.
  - cbn [apply promise]. unfold reserve. m_run. destruct (Z.ltb_spec (capacity b) n); [|by exists b].
    pose proof (r_fits _ _ Hr). simpl in Hok.
    destruct (reallocate_spec b l n Hr ltac:(lia)) as (b' & -> & Hr' & _). by exists b'.
Qed.

Fixpoint run (ops : list op) (b : t) : list (result answer) * t :=
  match ops with
  | [] => ([], b)
  | o :: rest => let (r, b) := apply o b in let (rs, b) := run rest b in (r :: rs, b)
  end.

Fixpoint promised (ops : list op) (l : list byte) : list answer * list byte :=
  match ops with
  | [] => ([], l)
  | o :: rest => let (r, l) := promise o l in let (rs, l) := promised rest l in (r :: rs, l)
  end.

Fixpoint volume (ops : list op) : Z :=
  match ops with [] => 0 | o :: rest => appended o + volume rest end.

Lemma volume_nonneg ops : 0 <= volume ops.
Proof. induction ops as [|[]]; simpl; try lia. pose proof (SwByteArray.size_nonneg data). lia. Qed.

Lemma promise_size o l : SwByteArray.size (promise o l).2 <= SwByteArray.size l + appended o.
Proof.
  destruct o; cbn [promise appended snd]; rewrite ?SwByteArray.size_app;
    unfold SwByteArray.size; rewrite ?length_drop; simpl; lia.
Qed.

Lemma byte_ring_run_promised ops : forall b l, repr b l -> Forall op_ok ops ->
  SwByteArray.size l + volume ops <= 2 ^ 62 ->
  (run ops b).1 = map Ok (promised ops l).1 /\ repr (run ops b).2 (promised ops l).2.
Proof.
  induction ops as [|o ops IH]; intros b l Hr Hok Hv; [done|].
  apply Forall_cons_1 in Hok as [Ho Hops]. cbn [run promised volume] in *.
  pose proof (volume_nonneg ops). pose proof (promise_size o l).
  destruct (byte_ring_apply_promise o b l Hr Ho ltac:(lia)) as (b1 & H1 & Hr1). rewrite H1.
  destruct (promise o l) as [r l1]. simpl in *. destruct (IH b1 l1 Hr1 Hops ltac:(lia)) as [H2 H3].
  destruct (run ops b1), (promised ops l1). simpl in *. by subst.
Qed.

(** C38: whatever is appended, read, consumed and looked at, in whatever order and
    however often the storage wraps around or is reallocated, the ring buffer
    answers what the plain list of the bytes held answers: bytes come out in the
    order they went in, none lost or repeated, and no copy leaves its storage. *)
Theorem byte_ring_is_queue ops :
  Forall op_ok ops -> volume ops <= 2 ^ 62 ->
  (run ops empty).1 = map Ok (promised ops []).1.
Proof. intros Hok Hv. by apply byte_ring_run_promised; [apply empty_repr| |]. Qed.

Definition example_history : list op :=
  [Reserve 4; Append [x01; x02; x03]; Read 2; Append [x04; x05; x06]; Mid 1 2;
   Append [x07]; Size; StartsWith [x03; x04]; ToByteArray].

Lemma byte_ring_is_queue_witness :
  (run example_history empty).1 = map Ok (promised example_history []).1 /\
  (promised example_history []).1 =
    [Done; Done; Bytes [x01; x02]; Done; Bytes [x04; x05]; Done; Number 5; Flag true;
     Bytes [x03; x04; x05; x06; x07]].
Proof. split; [apply byte_ring_is_queue; [repeat constructor; by_eval|by_eval]|reflexivity]. Defined.

(** In every reachable buffer of at most 2^31 - 1 bytes, [indexOf] returns the
    first place where the needle stands, and -1 exactly when it stands nowhere;
    the contiguous view is a prefix of the bytes held, and never empty when there
    are any, so a reader that loops on it makes progress. *)
Theorem byte_ring_views ops needle :
  Forall op_ok ops -> volume ops <= 2 ^ 62 ->
  let b := (run ops empty).2 in
  let l := (promised ops []).2 in
  SwByteArray.size l <= int_max ->
  (first_at l needle 0 (indexOf (Some needle) b) \/
   indexOf (Some needle) b = -1 /\ forall before after, l <> before ++ needle ++ after) /\
  contiguousData b = take (Z.to_nat (contiguousSize b)) l /\
  (l <> [] -> 0 < contiguousSize b <= SwByteArray.size l).
Proof.
  intros Hok Hv b l Hm.
  assert (repr b l) as Hr by (by apply byte_ring_run_promised; [apply empty_repr| |]). clearbody b l.
  pose proof (r_size _ _ Hr) as Hs. pose proof (SwByteArray.size_nonneg l). pose proof (r_fits _ _ Hr).
  pose proof (r_max _ _ Hr). pose proof (r_head _ _ Hr) as Hh. split.
  - apply indexOf_first; done.
  - apply contiguous_prefix; done.
Qed.

Lemma byte_ring_views_witness :
  let b := (run example_history empty).2 in
  let l := (promised example_history []).2 in
  (first_at l [x05; x06] 0 (indexOf (Some [x05; x06]) b) \/
   indexOf (Some [x05; x06]) b = -1 /\ forall before after, l <> before ++ [x05; x06] ++ after) /\
  contiguousData b = take (Z.to_nat (contiguousSize b)) l /\
  (l <> [] -> 0 < contiguousSize b <= SwByteArray.size l).
Proof. apply (byte_ring_views example_history [x05; x06]); [repeat constructor; by_eval|by_eval|by_eval]. Defined.

End SwByteRingBuffer.
