(* ===== verification/PieceTable.v ===== *)
(** The text buffer of the editors: src/src/core/types/SwPieceTable.h.

    A document is a sequence of pieces over two buffers, the original text and
    the append-only text of the edits; a line index is kept up to date beside it.
    The two buffers are memory: a read that leaves its buffer, or that follows the
    pointer to an original text since cleared, is the error [ub], so that the
    refinement below is also memory safety. *)
From Stdlib Require Import ZArith Lia Strings.Byte.
From stdpp Require Import base list strings numbers.
From S2P Require Import Prelude.

Module SwPieceTable.

Definition ub : string := "undefined behaviour".

(** What [std::string::reserve] throws past the greatest length of a string. *)
Definition length_error : string := "std::length_error".

Definition max_size : Z := 2 ^ 63 - 1.

(** ** Data *)

Inductive BufferType := Original | Add.

Record Piece := mkPiece {
  p_buffer : BufferType;
  p_start : Z;
  p_length : Z;
  p_newlineCount : Z
}.

(** The offset of a line in the document. *)
Record LineEntry := mkLine { offset : Z }.

(** [m_originalData]: null, the bytes of [m_originalOwned], or a mapped file. *)
Inductive OriginalData := NoData | Owned | Mapped (bytes : list byte).

Record t := mk {
  m_originalOwned : list byte;
  m_originalData : OriginalData;
  m_originalSize : Z;
  m_isMapped : bool;
  m_add : list byte;
  m_pieces : list Piece;
  m_totalLength : Z;
  m_totalNewlines : Z;
  m_lineIndex : list LineEntry;
  m_lineIndexReady : bool
}.

Definition empty : t := mk [] NoData 0 false [] [] 0 0 [] false.

Definition set_pieces (pieces : list Piece) (s : t) : t :=
  mk (m_originalOwned s) (m_originalData s) (m_originalSize s) (m_isMapped s) (m_add s) pieces
     (m_totalLength s) (m_totalNewlines s) (m_lineIndex s) (m_lineIndexReady s).

Definition set_add (add : list byte) (s : t) : t :=
  mk (m_originalOwned s) (m_originalData s) (m_originalSize s) (m_isMapped s) add (m_pieces s)
     (m_totalLength s) (m_totalNewlines s) (m_lineIndex s) (m_lineIndexReady s).

Definition set_totals (totalLength totalNewlines : Z) (s : t) : t :=
  mk (m_originalOwned s) (m_originalData s) (m_originalSize s) (m_isMapped s) (m_add s) (m_pieces s)
     totalLength totalNewlines (m_lineIndex s) (m_lineIndexReady s).

Definition set_index (index : list LineEntry) (ready : bool) (s : t) : t :=
  mk (m_originalOwned s) (m_originalData s) (m_originalSize s) (m_isMapped s) (m_add s) (m_pieces s)
     (m_totalLength s) (m_totalNewlines s) index ready.

(** ** Reading the buffers *)

(** [bufferPtr_(type)]: the memory the pointer gives access to. *)
Definition bufferPtr_ (type : BufferType) (s : t) : list byte :=
  match type with
  | Original =>
      match m_originalData s with
      | NoData => []
      | Owned => m_originalOwned s
      | Mapped bytes => bytes
      end
  | Add => m_add s
  end.

(** The bytes [start, start + len) of a buffer. *)
Definition bytesAt (buffer : list byte) (start len : Z) : result (list byte) :=
  if start + len <=? zlen buffer then Ok (zslice buffer start len)
  else Err ub.

Definition pieceBytes (p : Piece) (from len : Z) (s : t) : result (list byte) :=
  bytesAt (bufferPtr_ (p_buffer p) s) (p_start p +u from) len.

Definition bufferChar_ (type : BufferType) (at_ : Z) (s : t) : result byte :=
  let size := match type with Original => m_originalSize s | Add => zlen (m_add s) end in
  if at_ <? size then
    match bufferPtr_ type s !! Z.to_nat at_ with Some c => Ok c | None => Err ub end
  else Ok x00.

Definition newline : byte := x0a.

(** [std::memchr(ptr, '\n', n)]: what follows the newline found. *)
Fixpoint memchr (bytes : list byte) : option (list byte) :=
  match bytes with
  | [] => None
  | c :: rest => if decide (c = newline) then Some rest else memchr rest
  end.

Fixpoint countNewlines_loop (fuel : nat) (ptr : list byte) (count : Z) : result Z :=
  match fuel with
  | O => NoFuel
  | S fuel' =>
      match ptr with
      | [] => Ok count
      | _ => match memchr ptr with
             | None => Ok count
             | Some rest => countNewlines_loop fuel' rest (count + 1)
             end
      end
  end.

Definition countNewlines_ (type : BufferType) (start len : Z) (s : t) : result Z :=
  match type, m_originalData s with
  | Original, NoData => Ok 0
  | _, _ =>
      match bytesAt (bufferPtr_ type s) start len with
      | Ok bytes => countNewlines_loop (S (length bytes)) bytes 0
      | Err e => Err e
      | NoFuel => NoFuel
      end
  end.

(** [data[j] == '\n'] for [j = from, from + 1, ...]: the entries pushed. *)
Fixpoint scanLines (base from : Z) (bytes : list byte) : list LineEntry :=
  match bytes with
  | [] => []
  | c :: rest =>
      if decide (c = newline) then mkLine (base +u from +u 1) :: scanLines base (from + 1) rest
      else scanLines base (from + 1) rest
  end.

(** ** Queries *)

Definition totalLength (s : t) : Z := m_totalLength s.

Definition isEmpty (s : t) : bool := m_totalLength s =? 0.

Definition lineCount (s : t) : Z :=
  if m_lineIndexReady s then to_int (zlen (m_lineIndex s)) else m_totalNewlines s + 1.

Definition isLineIndexReady (s : t) : bool := m_lineIndexReady s.

Fixpoint charAt_loop (pos cumulative : Z) (pieces : list Piece) (s : t) : result byte :=
  match pieces with
  | [] => Ok x00
  | p :: rest =>
      if pos <? cumulative +u p_length p
      then bufferChar_ (p_buffer p) (p_start p +u (pos -u cumulative)) s
      else charAt_loop pos (cumulative +u p_length p) rest s
  end.

Definition charAt (pos : Z) (s : t) : result byte :=
  if m_totalLength s <=? pos then Ok x00 else charAt_loop pos 0 (m_pieces s) s.

(** The pieces from the one that holds [pos] on, with where they begin. *)
Fixpoint seek (pos cumulative : Z) (pieces : list Piece) : Z * list Piece :=
  match pieces with
  | p :: rest =>
      if cumulative +u p_length p <=? pos then seek pos (cumulative +u p_length p) rest
      else (cumulative, pieces)
  | [] => (cumulative, [])
  end.

Fixpoint substr_loop (remaining localOffset : Z) (pieces : list Piece) (out : list byte) (s : t) :
    result (list byte) :=
  match pieces with
  | [] => Ok out
  | p :: rest =>
      if remaining <=? 0 then Ok out
      else
        let available := p_length p -u localOffset in
        let take := Z.min available remaining in
        match pieceBytes p localOffset take s with
        | Ok bytes => substr_loop (remaining -u take) 0 rest (out ++ bytes) s
        | Err e => Err e
        | NoFuel => NoFuel
        end
  end.

Definition substr (pos len : Z) (s : t) : result (list byte) :=
  if (len =? 0) || (m_totalLength s <=? pos) then Ok []
  else
    let actualEnd := Z.min (pos +u len) (m_totalLength s) in
    let actualLen := actualEnd -u pos in
    if max_size <? actualLen then Err length_error else
    let (cumulative, pieces) := seek pos 0 (m_pieces s) in
    substr_loop actualLen (pos -u cumulative) pieces [] s.

Fixpoint appendPieces (pieces : list Piece) (out : list byte) (s : t) : result (list byte) :=
  match pieces with
  | [] => Ok out
  | p :: rest =>
      match pieceBytes p 0 (p_length p) s with
      | Ok bytes => appendPieces rest (out ++ bytes) s
      | Err e => Err e
      | NoFuel => NoFuel
      end
  end.

(** The fast path: one original piece and no edit. *)
Definition unedited (s : t) : bool :=
  match m_pieces s with
  | [p] =>
      match p_buffer p with
      | Original => (p_start p =? 0) && (p_length p =? m_originalSize s) && negb (m_isMapped s)
      | Add => false
      end
  | _ => false
  end.

Definition toPlainText (s : t) : result (list byte) :=
  if m_totalLength s =? 0 then Ok []
  else if unedited s then Ok (m_originalOwned s)
  else appendPieces (m_pieces s) [] s.

Fixpoint equals_loop (text : list byte) (textPos : Z) (pieces : list Piece) (s : t) : result bool :=
  match pieces with
  | [] => Ok true
  | p :: rest =>
      match pieceBytes p 0 (p_length p) s, bytesAt text textPos (p_length p) with
      | Ok src, Ok other =>
          if decide (src = other) then equals_loop text (textPos +u p_length p) rest s else Ok false
      | _, _ => Err ub
      end
  end.

Definition equals (text : list byte) (s : t) : result bool :=
  if negb (zlen text =? m_totalLength s) then Ok false
  else equals_loop text 0 (m_pieces s) s.

Definition endsWith (suffix : list byte) (s : t) : result bool :=
  if m_totalLength s <? zlen suffix then Ok false
  else
    match substr (m_totalLength s -u zlen suffix) (zlen suffix) s with
    | Ok tail => Ok (bool_decide (tail = suffix))
    | Err e => Err e
    | NoFuel => NoFuel
    end.

(** ** Lines *)

(** The binary search for the last line whose offset is at most [clamped]. *)
Fixpoint search_loop (fuel : nat) (index : list LineEntry) (clamped lo hi found : Z) : result Z :=
  match fuel with
  | O => NoFuel
  | S fuel' =>
      if lo <=? hi then
        let mid := lo + (hi - lo) / 2 in
        match index !! Z.to_nat mid with
        | Some line =>
            if offset line <=? clamped then search_loop fuel' index clamped (mid + 1) hi mid
            else search_loop fuel' index clamped lo (mid - 1) found
        | None => Err ub
        end
      else Ok found
  end.

Definition lineForOffsetFromIndex_ (pos : Z) (s : t) : result Z :=
  let clamped := Z.min pos (m_totalLength s) in
  search_loop (S (length (m_lineIndex s))) (m_lineIndex s) clamped 0
    (to_int (zlen (m_lineIndex s)) - 1) 0.

Fixpoint countUpTo_loop (clamped cumulative newlineCount : Z) (pieces : list Piece) (s : t) : result Z :=
  match pieces with
  | [] => Ok newlineCount
  | p :: rest =>
      if cumulative +u p_length p <=? clamped then
        countUpTo_loop clamped (cumulative +u p_length p) (newlineCount + p_newlineCount p) rest s
      else
        match pieceBytes p 0 (clamped -u cumulative) s with
        | Ok bytes => Ok (newlineCount + zlen (scanLines 0 0 bytes))
        | Err e => Err e
        | NoFuel => NoFuel
        end
  end.

Definition lineForOffsetFromPieces_ (pos : Z) (s : t) : result Z :=
  countUpTo_loop (Z.min pos (m_totalLength s)) 0 0 (m_pieces s) s.

Definition lineForOffset (pos : Z) (s : t) : result Z :=
  if m_lineIndexReady s && negb (bool_decide (m_lineIndex s = []))
  then lineForOffsetFromIndex_ pos s else lineForOffsetFromPieces_ pos s.

(** The newline that ends line [lineIdx - 1], within one piece: where the next
    line starts, or the newlines seen when it is further on. *)
Fixpoint scanFor (lineIdx newlinesSeen at_ : Z) (bytes : list byte) : Z + Z :=
  match bytes with
  | [] => inr newlinesSeen
  | c :: rest =>
      if decide (c = newline) then
        if newlinesSeen + 1 =? lineIdx then inl (at_ +u 1)
        else scanFor lineIdx (newlinesSeen + 1) (at_ +u 1) rest
      else scanFor lineIdx newlinesSeen (at_ +u 1) rest
  end.

Fixpoint lineStart_loop (lineIdx newlinesSeen cumulative : Z) (pieces : list Piece) (s : t) : result Z :=
  match pieces with
  | [] => Ok (m_totalLength s)
  | p :: rest =>
      if newlinesSeen + p_newlineCount p <? lineIdx then
        lineStart_loop lineIdx (newlinesSeen + p_newlineCount p) (cumulative +u p_length p) rest s
      else
        match pieceBytes p 0 (p_length p) s with
        | Ok bytes =>
            match scanFor lineIdx newlinesSeen cumulative bytes with
            | inl start => Ok start
            | inr seen => lineStart_loop lineIdx seen (cumulative +u p_length p) rest s
            end
        | Err e => Err e
        | NoFuel => NoFuel
        end
  end.

Definition lineStartFromPieces_ (lineIdx : Z) (s : t) : result Z :=
  if lineIdx <=? 0 then Ok 0 else lineStart_loop lineIdx 0 0 (m_pieces s) s.

Definition lineStart (lineIdx : Z) (s : t) : result Z :=
  if lineIdx <=? 0 then Ok 0
  else if m_lineIndexReady s then
    if lineIdx <? to_int (zlen (m_lineIndex s)) then
      match m_lineIndex s !! Z.to_nat lineIdx with Some line => Ok (offset line) | None => Err ub end
    else Ok (m_totalLength s)
  else lineStartFromPieces_ lineIdx s.

Definition lineLength (lineIdx : Z) (s : t) : result Z :=
  match lineStart lineIdx s, lineStart (lineIdx + 1) s with
  | Ok start, Ok nextStart =>
      if nextStart <=? start then Ok (m_totalLength s -u start)
      else
        let len := nextStart -u start in
        if (0 <? len) && (nextStart <=? m_totalLength s) then
          match charAt (nextStart -u 1) s with
          | Ok c => Ok (if decide (c = newline) then len -u 1 else len)
          | Err e => Err e
          | NoFuel => NoFuel
          end
        else Ok len
  | Err e, _ | _, Err e => Err e
  | NoFuel, _ | _, NoFuel => NoFuel
  end.

Definition lineContent (lineIdx : Z) (s : t) : result (list byte) :=
  match lineStart lineIdx s, lineLength lineIdx s with
  | Ok start, Ok len =>
      if (len =? 0) && (m_totalLength s <=? start) then Ok [] else substr start len s
  | Err e, _ | _, Err e => Err e
  | NoFuel, _ | _, NoFuel => NoFuel
  end.

(** ** The line index *)

Fixpoint buildLineIndex_loop (cumulative : Z) (pieces : list Piece) (s : t) : result (list LineEntry) :=
  match pieces with
  | [] => Ok []
  | p :: rest =>
      match pieceBytes p 0 (p_length p) s, buildLineIndex_loop (cumulative +u p_length p) rest s with
      | Ok bytes, Ok entries => Ok (scanLines cumulative 0 bytes ++ entries)
      | _, _ => Err ub
      end
  end.

Definition buildLineIndex_ : M t unit :=
  s ← get;
  entries ← of_result (buildLineIndex_loop 0 (m_pieces s) s);
  put (set_index (mkLine 0 :: entries) true (set_totals (m_totalLength s) (zlen entries) s)).

(** The loops [for (i = from; i < size; ++i) m_lineIndex[i].offset += / -= len]. *)
Definition shiftFrom (from : Z) (shift : Z -> Z) (index : list LineEntry) : list LineEntry :=
  take (Z.to_nat from) index ++
  map (fun line => mkLine (shift (offset line))) (drop (Z.to_nat from) index).

Definition updateLineIndexAfterInsert_ (pos insertedLen insertedNewlines : Z) : M t unit :=
  s ← get;
  if negb (m_lineIndexReady s) then mret tt
  else
    lineIdx ← of_result (lineForOffsetFromIndex_ pos s);
    if insertedNewlines =? 0 then
      put (set_index (shiftFrom (lineIdx + 1) (fun o => o +u insertedLen) (m_lineIndex s)) true s)
    else
      insertedData ← of_result (bytesAt (m_add s) (zlen (m_add s) -u insertedLen) insertedLen);
      let newEntries := scanLines pos 0 insertedData in
      let insertAt := lineIdx + 1 in
      put (set_index
        (take (Z.to_nat insertAt) (m_lineIndex s) ++ newEntries ++
         map (fun line => mkLine (offset line +u insertedLen)) (drop (Z.to_nat insertAt) (m_lineIndex s)))
        true s).

(** The first and last index of a line that starts in ([pos], [removeEnd]]. *)
Fixpoint removedLines (pos removeEnd i firstRemoved lastRemoved : Z) (index : list LineEntry) : Z * Z :=
  match index with
  | [] => (firstRemoved, lastRemoved)
  | line :: rest =>
      if (pos <? offset line) && (offset line <=? removeEnd)
      then removedLines pos removeEnd (i + 1) (if firstRemoved <? 0 then i else firstRemoved) i rest
      else removedLines pos removeEnd (i + 1) firstRemoved lastRemoved rest
  end.

Definition shiftLinesAfter (pos removedLen : Z) : M t unit :=
  s ← get;
  lineIdx ← of_result (lineForOffsetFromIndex_ pos s);
  put (set_index (shiftFrom (lineIdx + 1) (fun o => o -u removedLen) (m_lineIndex s)) true s).

Definition updateLineIndexAfterRemove_ (pos removedLen removedNewlines : Z) : M t unit :=
  s ← get;
  if negb (m_lineIndexReady s) then mret tt
  else if removedNewlines =? 0 then shiftLinesAfter pos removedLen
  else
    let removeEnd := pos +u removedLen in
    let (firstRemoved, lastRemoved) := removedLines pos removeEnd 0 (-1) (-1) (m_lineIndex s) in
    (if (0 <=? firstRemoved) && (firstRemoved <=? lastRemoved) then
       put (set_index (take (Z.to_nat firstRemoved) (m_lineIndex s) ++
                       drop (Z.to_nat (lastRemoved + 1)) (m_lineIndex s)) true s)
     else mret tt);;
    shiftLinesAfter pos removedLen.

(** ** Edits *)

(** [splitPieceAt_]: the pieces with the one that holds [pos] cut there, and the
    index of the piece that then starts at [pos]. *)
Fixpoint split_loop (pos cumulative : Z) (pieces : list Piece) (s : t) : result (list Piece * Z) :=
  match pieces with
  | [] => Ok ([], 0)
  | p :: rest =>
      if cumulative =? pos then Ok (pieces, 0)
      else if pos <? cumulative +u p_length p then
        let localOffset := pos -u cumulative in
        let start := p_start p +u localOffset in
        let len := p_length p -u localOffset in
        match countNewlines_ (p_buffer p) start len s,
              countNewlines_ (p_buffer p) (p_start p) localOffset s with
        | Ok after, Ok before =>
            Ok (mkPiece (p_buffer p) (p_start p) localOffset before ::
                mkPiece (p_buffer p) start len after :: rest, 1)
        | _, _ => Err ub
        end
      else
        match split_loop pos (cumulative +u p_length p) rest s with
        | Ok (rest', i) => Ok (p :: rest', i + 1)
        | Err e => Err e
        | NoFuel => NoFuel
        end
  end.

Definition splitPieceAt_ (pos : Z) : M t Z :=
  s ← get;
  '(pieces, i) ← of_result (split_loop pos 0 (m_pieces s) s);
  put (set_pieces pieces s);;
  mret i.

Definition insertPiece (pos : Z) (newPiece : Piece) : M t unit :=
  s ← get;
  if decide (m_pieces s = []) then put (set_pieces [newPiece] s)
  else
    splitIdx ← splitPieceAt_ pos;
    modify (fun s => set_pieces
      (take (Z.to_nat splitIdx) (m_pieces s) ++ newPiece :: drop (Z.to_nat splitIdx) (m_pieces s)) s).

Definition insert (pos : Z) (text : list byte) : M t unit :=
  if decide (text = []) then mret tt
  else
    s ← get;
    let clamped := Z.min pos (m_totalLength s) in
    let addStart := zlen (m_add s) in
    put (set_add (m_add s ++ text) s);;
    s ← get;
    newNewlines ← of_result (countNewlines_ Add addStart (zlen text) s);
    let newPiece := mkPiece Add addStart (zlen text) newNewlines in
    insertPiece clamped newPiece;;
    modify (fun s => set_totals (m_totalLength s +u zlen text) (m_totalNewlines s + newNewlines) s);;
    updateLineIndexAfterInsert_ clamped (zlen text) newNewlines.

Definition sumNewlines (pieces : list Piece) : Z := fold_right (fun p n => p_newlineCount p + n) 0 pieces.

(** The pieces from [removeStart] to [removeEnd] erased; the newlines they counted. *)
Definition erasePieces (removeStart removeEnd : Z) : M t Z :=
  startIdx ← splitPieceAt_ removeStart;
  endIdx ← splitPieceAt_ removeEnd;
  s ← get;
  let removed := take (Z.to_nat (endIdx - startIdx)) (drop (Z.to_nat startIdx) (m_pieces s)) in
  let removedNewlines := sumNewlines removed in
  (if startIdx <? endIdx then
     put (set_pieces (take (Z.to_nat startIdx) (m_pieces s) ++ drop (Z.to_nat endIdx) (m_pieces s)) s)
   else mret tt);;
  mret removedNewlines.

Definition remove (pos len : Z) : M t unit :=
  s ← get;
  if (len =? 0) || isEmpty s then mret tt
  else
    let removeStart := Z.min pos (m_totalLength s) in
    let removeEnd := Z.min (pos +u len) (m_totalLength s) in
    if removeEnd <=? removeStart then mret tt
    else
      let removeLen := removeEnd -u removeStart in
      removedNewlines ← erasePieces removeStart removeEnd;
      modify (fun s => set_totals (m_totalLength s -u removeLen) (m_totalNewlines s - removedNewlines) s);;
      updateLineIndexAfterRemove_ removeStart removeLen removedNewlines.

(** ** Content *)

Definition unmapOriginal_ (s : t) : t :=
  if m_isMapped s then
    mk (m_originalOwned s) NoData 0 false (m_add s) (m_pieces s)
       (m_totalLength s) (m_totalNewlines s) (m_lineIndex s) (m_lineIndexReady s)
  else s.

Definition setText (text : list byte) : M t unit :=
  s ← get;
  let data := match text with [] => NoData | _ => Owned end in
  let s := mk text data (zlen text) false [] [] 0 0 [] false in
  (if 0 <? zlen text then
     count ← of_result (countNewlines_ Original 0 (zlen text) s);
     put (set_totals (zlen text) count (set_pieces [mkPiece Original 0 (zlen text) count] s))
   else put s);;
  buildLineIndex_.

(** [setMappedFile]: [file] is what opening and mapping the path gives. *)
Definition setMappedFile (file : option (list byte)) : M t bool :=
  s ← get;
  let s := unmapOriginal_ s in
  let s := mk [] (m_originalData s) (m_originalSize s) (m_isMapped s) [] [] 0 0 [] false in
  match file with
  | None | Some [] => put s;; mret false
  | Some bytes =>
      put (mk [] (Mapped bytes) (zlen bytes) true [] [mkPiece Original 0 (zlen bytes) 0]
              (zlen bytes) 0 [] false);;
      mret true
  end.

Definition setLineIndex (index : list LineEntry) (totalNewlines : Z) : M t unit :=
  s ← get;
  let pieces :=
    match m_pieces s with
    | [mkPiece Original start len _] => [mkPiece Original start len totalNewlines]
    | pieces => pieces
    end in
  put (set_index index true (set_totals (m_totalLength s) totalNewlines (set_pieces pieces s))).

End SwPieceTable.

(** [SwPieceTableLineIndexBuilder], the background scan of the original text. *)
Module SwPieceTableLineIndexBuilder.

Import SwPieceTable.

(** The lines after each newline from [at_] on; [at_] is [ptr - data]. *)
Fixpoint scan (fuel : nat) (at_ : Z) (ptr : list byte) (index : list LineEntry) (totalNewlines : Z) :
    result (list LineEntry * Z) :=
  match fuel with
  | O => NoFuel
  | S fuel' =>
      match memchr ptr with
      | None => Ok (index, totalNewlines)
      | Some rest =>
          let next := at_ + zlen ptr - zlen rest in
          scan fuel' next rest (index ++ [mkLine next]) (totalNewlines + 1)
      end
  end.

Definition run_ : M t unit :=
  s ← get;
  match m_originalData s, m_originalSize s with
  | NoData, _ | _, 0 => setLineIndex [mkLine 0] 0
  | _, size =>
      data ← of_result (bytesAt (bufferPtr_ Original s) 0 size);
      '(index, totalNewlines) ← of_result (scan (S (length data)) 0 data [mkLine 0] 0);
      setLineIndex index totalNewlines
  end.

End SwPieceTableLineIndexBuilder.
