(* ===== verification/PieceTableSpec.v ===== *)
(** The piece table of PieceTable.v is a text: the representation of a document
    by pieces, every operation's effect on it, the line index against the lines of
    the flat text, and the refinement of whole histories of edits. *)
From Stdlib Require Import ZArith Lia Strings.Byte.
From stdpp Require Import base list strings numbers.
From S2P Require Import Prelude PieceTable.

Module PieceTableSpec.

Import SwPieceTable.

Definition is_newline (c : byte) : Prop := c = newline.

#[local] Instance is_newline_dec c : Decision (is_newline c) := decide (c = newline).

Definition newlines (l : list byte) : Z := zlen (filter is_newline l).

(** Where the lines after the first one start, in a text that begins at [off]. *)
Fixpoint starts_after (off : Z) (l : list byte) : list Z :=
  match l with
  | [] => []
  | c :: rest => if decide (is_newline c) then off + 1 :: starts_after (off + 1) rest else starts_after (off + 1) rest
  end.

Definition starts (l : list byte) : list Z := 0 :: starts_after 0 l.

Lemma starts_after_app off l k :
  starts_after off (l ++ k) = starts_after off l ++ starts_after (off + zlen l) k.
Proof.
  revert off. induction l as [|c l IH]; intros off; simpl.
  - by rewrite Z.add_0_r.
  - rewrite !IH. replace (off + 1 + zlen l) with (off + Z.of_nat (S (length l))) by lia.
    by destruct (decide (is_newline c)).
Qed.

Lemma starts_after_shift d off l : starts_after (off + d) l = map (fun o => o + d) (starts_after off l).
Proof.
  revert off. induction l as [|c l IH]; intros off; simpl; [done|].
  replace (off + d + 1) with (off + 1 + d) by lia. rewrite IH. by destruct (decide (is_newline c)).
Qed.

Lemma starts_after_length off l : zlen (starts_after off l) = newlines l.
Proof.
  unfold newlines. revert off. induction l as [|c l IH]; intros off; simpl; [done|].
  rewrite list.filter_cons. destruct (decide (is_newline c)); simpl; specialize (IH (off + 1)); lia.
Qed.

Lemma starts_after_range off l : Forall (fun o => off < o <= off + zlen l) (starts_after off l).
Proof.
  revert off. induction l as [|c l IH]; intros off; simpl; [constructor|].
  assert (Forall (fun o => off < o <= off + Z.of_nat (S (length l))) (starts_after (off + 1) l)) as H.
  { eapply Forall_impl; [|exact (IH (off + 1))]. intros x Hx. simpl in Hx. lia. }
  destruct (decide (is_newline c)); [constructor; [lia|done]|done].
Qed.

Lemma newlines_app l k : newlines (l ++ k) = newlines l + newlines k.
Proof. unfold newlines. by rewrite list.filter_app, zlen_app. Qed.

Lemma newlines_range l : 0 <= newlines l <= zlen l.
Proof. unfold newlines. pose proof (length_filter is_newline l). lia. Qed.

Lemma scanLines_spec base bytes : forall from, 0 <= base -> 0 <= from ->
  base + from + zlen bytes < u64_modulus ->
  scanLines base from bytes = map mkLine (starts_after (base + from) bytes).
Proof.
  unfold u64_modulus. induction bytes as [|c bytes IH]; intros from Hb Hf Hs; [done|].
  simpl length in Hs. cbn [scanLines starts_after map].
  rewrite (IH (from + 1)) by lia. replace (base + (from + 1)) with (base + from + 1) by lia.
  unfold is_newline. destruct (decide (c = newline)); [|done].
  cbn [map]. by rewrite !add64_small by (rewrite ?add64_small by lia; lia).
Qed.

(** *** Newline counting *)

Lemma memchr_spec bytes :
  match memchr bytes with
  | None => newlines bytes = 0
  | Some rest => newlines bytes = 1 + newlines rest /\ (length rest < length bytes)%nat /\
      forall off, starts_after off bytes =
        off + (zlen bytes - zlen rest) :: starts_after (off + (zlen bytes - zlen rest)) rest
  end.
Proof.
  unfold newlines. induction bytes as [|c bytes IH]; simpl; [done|]. unfold is_newline.
  rewrite list.filter_cons. unfold is_newline in *. destruct (decide (c = newline)) as [E|E]; simpl.
  - split_and!; [lia|lia|]. intros off.
    by replace (off + (Z.of_nat (S (length bytes)) - zlen bytes)) with (off + 1) by lia.
  - destruct (memchr bytes) as [rest|]; [|done]. destruct IH as (H1 & H2 & H3). split_and!; [lia|lia|].
    intros off. rewrite H3.
    by replace (off + (Z.of_nat (S (length bytes)) - zlen rest)) with (off + 1 + (zlen bytes - zlen rest)) by lia.
Qed.

Lemma countNewlines_loop_spec fuel : forall ptr count, (length ptr < fuel)%nat ->
  countNewlines_loop fuel ptr count = Ok (count + newlines ptr).
Proof.
  induction fuel as [|fuel IH]; intros ptr count Hf; [lia|]. cbn [countNewlines_loop].
  destruct ptr as [|c ptr]; [by rewrite Z.add_0_r|].
  pose proof (memchr_spec (c :: ptr)) as Hm. destruct (memchr (c :: ptr)) as [rest|].
  - destruct Hm as (Hn & Hl & _). rewrite IH by (simpl in *; lia). f_equal. lia.
  - rewrite Hm. f_equal. lia.
Qed.

Lemma scan_lines_spec fuel : forall at_ ptr index total, (length ptr < fuel)%nat ->
  SwPieceTableLineIndexBuilder.scan fuel at_ ptr index total =
    Ok (index ++ map mkLine (starts_after at_ ptr), total + newlines ptr).
Proof.
  induction fuel as [|fuel IH]; intros at_ ptr index total Hf; [lia|].
  cbn [SwPieceTableLineIndexBuilder.scan].
  pose proof (memchr_spec ptr) as Hm. destruct (memchr ptr) as [rest|].
  - destruct Hm as (Hn & Hl & Hs). rewrite IH by lia.
    rewrite (Hs at_), <-(app_assoc index). cbn [map app].
    replace (at_ + (zlen ptr - zlen rest)) with (at_ + zlen ptr - zlen rest) by lia.
    f_equal. f_equal. lia.
  - rewrite Hm, Z.add_0_r. pose proof (starts_after_length at_ ptr) as H0. rewrite Hm in H0.
    destruct (starts_after at_ ptr); [by rewrite app_nil_r|simpl in H0; lia].
Qed.

(** *** Pieces *)

Abbreviation buffer_of s p := (bufferPtr_ (p_buffer p) s).

Definition textOf (s : t) (p : Piece) : list byte := zslice (buffer_of s p) (p_start p) (p_length p).

Definition text (s : t) (pieces : list Piece) : list byte := concat (map (textOf s) pieces).

(** A piece lies within its buffer, is not empty, and the original buffer it
    refers to is the one in place. *)
Record valid (s : t) (p : Piece) : Prop := {
  v_start : 0 <= p_start p;
  v_length : 0 < p_length p;
  v_within : p_start p + p_length p <= zlen (buffer_of s p);
  v_buffer : zlen (buffer_of s p) <= 2 ^ 62;
  v_size : p_buffer p = Original -> m_originalSize s = zlen (bufferPtr_ Original s);
  v_owned : p_buffer p = Original -> m_isMapped s = false -> m_originalData s = Owned
}.

Definition counted (s : t) (p : Piece) : Prop := p_newlineCount p = newlines (textOf s p).

Lemma zlen_textOf s p : valid s p -> zlen (textOf s p) = p_length p.
Proof. intros [? ? ? ? _]. unfold textOf. apply zlen_zslice; lia. Qed.

Lemma bytesAt_ok buffer start len : start + len <= zlen buffer ->
  bytesAt buffer start len = Ok (zslice buffer start len).
Proof. intros H. unfold bytesAt. by destruct (Z.leb_spec (start + len) (zlen buffer)); [|lia]. Qed.

Lemma pieceBytes_ok s p from len : valid s p -> 0 <= from -> 0 <= len -> from + len <= p_length p ->
  pieceBytes p from len s = Ok (zslice (textOf s p) from len).
Proof.
  intros Hv Hf Hl Hb. destruct Hv. unfold pieceBytes, textOf.
  rewrite add64_small by lia. rewrite bytesAt_ok by lia. by rewrite zslice_zslice by lia.
Qed.

Lemma pieceBytes_all s p : valid s p -> pieceBytes p 0 (p_length p) s = Ok (textOf s p).
Proof.
  intros Hv. pose proof (v_length _ _ Hv). rewrite pieceBytes_ok by (done || lia).
  f_equal. apply zslice_all. rewrite zlen_textOf by done. lia.
Qed.

Lemma countNewlines_ok s type start len : 0 <= start -> 0 < len -> start + len <= zlen (bufferPtr_ type s) ->
  countNewlines_ type start len s = Ok (newlines (zslice (bufferPtr_ type s) start len)).
Proof.
  intros Hs Hl Hb. unfold countNewlines_. rewrite bytesAt_ok by lia.
  rewrite countNewlines_loop_spec by lia. rewrite Z.add_0_l.
  destruct type; [|done]. cbn [bufferPtr_] in *. destruct (m_originalData s); [simpl in *; lia|done|done].
Qed.

Lemma text_app s ps qs : text s (ps ++ qs) = text s ps ++ text s qs.
Proof. unfold text. by rewrite map_app, concat_app. Qed.

Lemma text_cons s p ps : text s (p :: ps) = textOf s p ++ text s ps.
Proof. done. Qed.

Lemma zlen_text_cons s p ps : valid s p -> zlen (text s (p :: ps)) = p_length p + zlen (text s ps).
Proof. intros Hv. by rewrite text_cons, zlen_app, zlen_textOf. Qed.
(** *** States over the same buffers *)

Record extends (s s' : t) : Prop := {
  e_owned : m_originalOwned s' = m_originalOwned s;
  e_data : m_originalData s' = m_originalData s;
  e_size : m_originalSize s' = m_originalSize s;
  e_mapped : m_isMapped s' = m_isMapped s;
  e_add : exists x, m_add s' = m_add s ++ x /\ (x = [] \/ zlen (m_add s') <= 2 ^ 62)
}.

Lemma extends_same s s' :
  m_originalOwned s' = m_originalOwned s -> m_originalData s' = m_originalData s ->
  m_originalSize s' = m_originalSize s -> m_isMapped s' = m_isMapped s -> m_add s' = m_add s ->
  extends s s'.
Proof. intros. split; try done. exists []. rewrite app_nil_r. auto. Qed.

Lemma extends_original s s' : extends s s' -> bufferPtr_ Original s' = bufferPtr_ Original s.
Proof. intros []. unfold bufferPtr_. by rewrite e_data0, e_owned0. Qed.

Lemma textOf_extends s s' p : extends s s' -> valid s p -> textOf s' p = textOf s p.
Proof.
  intros He [? ? ? _ _ _]. unfold textOf. destruct (p_buffer p).
  - by rewrite (extends_original _ _ He).
  - destruct (e_add _ _ He) as (x & Hx & _). cbn [bufferPtr_] in *. rewrite Hx. apply zslice_app_l; lia.
Qed.

Lemma valid_extends s s' p : extends s s' -> valid s p -> valid s' p.
Proof.
  intros He [H1 H2 H3 H4 H5 H6]. pose proof (extends_original _ _ He) as Ho.
  destruct (e_add _ _ He) as (x & Hx & Hs).
  assert (zlen (buffer_of s p) <= zlen (buffer_of s' p)) as Hle.
  { destruct (p_buffer p); [by rewrite Ho|]. cbn [bufferPtr_]. rewrite Hx, zlen_app. lia. }
  split; try done; try lia.
  - destruct (p_buffer p); [by rewrite Ho|]. cbn [bufferPtr_] in *. destruct Hs as [->|]; [|done].
    by rewrite Hx, app_nil_r.
  - intros E. by rewrite Ho, (e_size _ _ He), H5.
  - intros E. rewrite (e_mapped _ _ He), (e_data _ _ He). by apply H6.
Qed.

Lemma valids_extends s s' ps : extends s s' -> Forall (valid s) ps -> Forall (valid s') ps.
Proof. intros He. apply Forall_impl. intros p. by apply valid_extends. Qed.

Lemma text_extends s s' ps : extends s s' -> Forall (valid s) ps -> text s' ps = text s ps.
Proof.
  intros He Hv. induction Hv as [|p ps Hp _ IH]; [done|].
  rewrite !text_cons, IH. by rewrite (textOf_extends _ _ _ He).
Qed.

Lemma counted_extends s s' ps : extends s s' -> Forall (valid s) ps ->
  Forall (counted s) ps -> Forall (counted s') ps.
Proof.
  intros He Hv Hc. induction Hv as [|p ps Hp _ IH]; [constructor|].
  apply Forall_cons_1 in Hc as [H1 H2]. constructor; [|by apply IH].
  unfold counted. by rewrite (textOf_extends _ _ _ He).
Qed.

Lemma sumNewlines_spec s ps : Forall (counted s) ps -> sumNewlines ps = newlines (text s ps).
Proof.
  induction 1 as [|p ps Hp _ IH]; [done|]. rewrite text_cons, newlines_app. simpl. by rewrite IH, Hp.
Qed.

(** *** Splitting *)

Lemma textOf_part s b start len n from k :
  valid s (mkPiece b start len n) -> 0 <= from -> 0 <= k -> from + k <= len ->
  textOf s (mkPiece b (start + from) k n) = zslice (textOf s (mkPiece b start len n)) from k.
Proof. intros [? ? ? ? _ _] Hf Hk Hl. unfold textOf. simpl in *. by rewrite zslice_zslice by lia. Qed.

Lemma valid_part s b start len n n' from k :
  valid s (mkPiece b start len n) -> 0 <= from -> 0 < k -> from + k <= len ->
  valid s (mkPiece b (start + from) k n').
Proof. intros [? ? ? ? ? ?] Hf Hk Hl. simpl in *. split; simpl; try done; lia. Qed.

(** Cutting the pieces at [pos]: the text is the same, and the index returned
    separates what comes before [pos] from the rest. *)
Lemma split_loop_spec s pos pieces : forall c,
  Forall (valid s) pieces -> 0 <= c <= pos -> pos <= c + zlen (text s pieces) ->
  c + zlen (text s pieces) < u64_modulus ->
  exists P1 P2, split_loop pos c pieces s = Ok (P1 ++ P2, zlen P1) /\
    Forall (valid s) (P1 ++ P2) /\ text s (P1 ++ P2) = text s pieces /\
    zlen (text s P1) = pos - c /\ (Forall (counted s) pieces -> Forall (counted s) (P1 ++ P2)).
Proof.
  unfold u64_modulus. induction pieces as [|p pieces IH]; intros c Hv Hc Hp Hb; cbn [split_loop].
  { exists [], []. simpl in Hp. split_and!; try done. simpl. lia. }
  apply Forall_cons_1 in Hv as [Hv Hvs]. rewrite zlen_text_cons in Hp, Hb by done.
  pose proof (v_length _ _ Hv) as Hl.
  destruct (Z.eqb_spec c pos) as [->|Hne].
  { exists [], (p :: pieces). split_and!; try done; [by constructor|simpl; lia]. }
  rewrite add64_small by lia. destruct (Z.ltb_spec pos (c + p_length p)) as [Hlt|Hge].
  - destruct p as [b start len n]. simpl in *. rewrite (sub64_small pos c) by lia.
    pose proof Hv as [? ? ? ? _ _]. simpl in *. rewrite add64_small, sub64_small by lia.
    rewrite !countNewlines_ok by lia.
    set (k := pos - c) in *.
    pose proof (valid_part s b start len n (newlines (zslice (bufferPtr_ b s) (start + k) (len - k))) k (len - k)
      Hv ltac:(lia) ltac:(lia) ltac:(lia)) as Hv2.
    pose proof (valid_part s b start len n (newlines (zslice (bufferPtr_ b s) start k)) 0 k
      Hv ltac:(lia) ltac:(lia) ltac:(lia)) as Hv1. rewrite Z.add_0_r in Hv1.
    eexists [_], (_ :: pieces). split_and!; [reflexivity| | | |].
    + constructor; [exact Hv1|by constructor].
    + cbn [app]. rewrite !text_cons, app_assoc. f_equal. unfold textOf. simpl.
      rewrite <-zslice_split by lia. f_equal. lia.
    + rewrite text_cons, app_nil_r, zlen_textOf by done. simpl. lia.
    + intros Hcs. apply Forall_cons_1 in Hcs as [_ Hcs]. cbn [app]. constructor; [done|by constructor].
  - destruct (IH (c + p_length p) Hvs ltac:(lia) ltac:(lia) ltac:(lia)) as (P1 & P2 & -> & H1 & H2 & H3 & H4).
    exists (p :: P1), P2. split_and!.
    + cbn [app length]. f_equal. f_equal. lia.
    + by constructor.
    + cbn [app]. by rewrite !text_cons, H2.
    + rewrite zlen_text_cons by done. lia.
    + intros Hcs. apply Forall_cons_1 in Hcs as [Hp1 Hcs]. constructor; [done|by apply H4].
Qed.

(** *** The representation of a document *)

(** [volume] bounds the text the table was ever given. *)
Record repr (volume : Z) (s : t) (l : list byte) : Prop := {
  r_valid : Forall (valid s) (m_pieces s);
  r_text : text s (m_pieces s) = l;
  r_total : m_totalLength s = zlen l;
  r_doc : zlen l <= volume;
  r_add : zlen (m_add s) <= volume;
  r_index : zlen (m_lineIndex s) <= volume + 1;
  r_volume : volume <= 2 ^ 60
}.

Lemma repr_over v s s' l : extends s s' -> Forall (valid s) (m_pieces s') -> text s (m_pieces s') = l ->
  m_totalLength s' = zlen l -> zlen l <= v -> zlen (m_add s') <= v -> zlen (m_lineIndex s') <= v + 1 ->
  v <= 2 ^ 60 -> repr v s' l.
Proof.
  intros He Hv Ht. intros. split; try done; [by apply (valids_extends s)|by rewrite (text_extends s)].
Qed.

(** Every count kept is exact, and the index, when there is one, is the text's. *)
Record exact (s : t) (l : list byte) : Prop := {
  x_counted : Forall (counted s) (m_pieces s);
  x_newlines : m_totalNewlines s = newlines l;
  x_index : m_lineIndexReady s = true -> m_lineIndex s = map mkLine (starts l)
}.

Lemma splitPieceAt_spec v s l pos : repr v s l -> 0 <= pos <= zlen l ->
  exists P1 P2, splitPieceAt_ pos s = (Ok (zlen P1), set_pieces (P1 ++ P2) s) /\
    repr v (set_pieces (P1 ++ P2) s) l /\ Forall (valid s) (P1 ++ P2) /\ text s P1 = take (Z.to_nat pos) l /\
    text s P2 = drop (Z.to_nat pos) l /\
    (Forall (counted s) (m_pieces s) -> Forall (counted s) (P1 ++ P2)).
Proof.
  intros [Hv Ht Hl Hd Ha Hi Hb] Hp.
  destruct (split_loop_spec s pos (m_pieces s) 0 Hv) as (P1 & P2 & H1 & H2 & H3 & H4 & H5);
    [lia|rewrite Ht; lia|rewrite Ht; unfold u64_modulus; lia|].
  unfold splitPieceAt_. m_run. rewrite H1. rewrite text_app, Ht in H3. rewrite Z.sub_0_r in H4.
  assert (text s P1 = take (Z.to_nat pos) l /\ text s P2 = drop (Z.to_nat pos) l) as [E1 E2].
  { rewrite <-H3, take_app_length', drop_app_length' by lia. done. }
  exists P1, P2. split_and!; try done.
  assert (extends s (set_pieces (P1 ++ P2) s)) as He by by apply extends_same.
  split; try done.
  - by apply (valids_extends s).
  - rewrite (text_extends s) by done. cbn [m_pieces set_pieces]. by rewrite text_app.
Qed.
(** *** The line index *)

Lemma search_loop_spec index c k fuel : forall lo hi found,
  (forall i e, index !! i = Some e -> offset e <= c <-> Z.of_nat i < k) ->
  0 <= lo <= k -> k <= hi + 1 -> hi < zlen index -> Z.max 0 (hi - lo + 1) < Z.of_nat fuel ->
  found = Z.max 0 (lo - 1) ->
  search_loop fuel index c lo hi found = Ok (Z.max 0 (k - 1)).
Proof.
  intros lo hi found Hk. revert lo hi found.
  induction fuel as [|fuel IH]; intros lo hi found Hlo Hhi Hlen Hf Hfound; [lia|].
  cbn [search_loop]. destruct (Z.leb_spec lo hi) as [Hle|Hgt]; [|f_equal; lia].
  assert (lo <= lo + (hi - lo) / 2 <= hi) as Hm.
  { pose proof (Z.div_pos (hi - lo) 2 ltac:(lia) ltac:(lia)).
    pose proof (Z.div_le_upper_bound (hi - lo) 2 (hi - lo) ltac:(lia) ltac:(lia)). lia. }
  set (mid := lo + (hi - lo) / 2) in *. clearbody mid.
  destruct (index !! Z.to_nat mid) as [e|] eqn:E; [|apply lookup_ge_None_1 in E; lia].
  apply Hk in E. rewrite Z2Nat.id in E by lia.
  destruct (Z.leb_spec (offset e) c); apply IH; lia.
Qed.

Lemma search_loop_total index c fuel : forall lo hi found,
  0 <= lo -> hi < zlen index -> Z.max 0 (hi - lo + 1) < Z.of_nat fuel -> 0 <= found ->
  exists r, search_loop fuel index c lo hi found = Ok r /\ 0 <= r.
Proof.
  induction fuel as [|fuel IH]; intros lo hi found Hlo Hlen Hf Hfound; [lia|].
  cbn [search_loop]. destruct (Z.leb_spec lo hi) as [Hle|Hgt]; [|by exists found].
  assert (lo <= lo + (hi - lo) / 2 <= hi) as Hm.
  { pose proof (Z.div_pos (hi - lo) 2 ltac:(lia) ltac:(lia)).
    pose proof (Z.div_le_upper_bound (hi - lo) 2 (hi - lo) ltac:(lia) ltac:(lia)). lia. }
  set (mid := lo + (hi - lo) / 2) in *. clearbody mid.
  destruct (index !! Z.to_nat mid) as [e|] eqn:E; [|apply lookup_ge_None_1 in E; lia].
  destruct (offset e <=? c); apply IH; lia.
Qed.

Lemma index_total pos s : zlen (m_lineIndex s) < u64_modulus ->
  exists r, lineForOffsetFromIndex_ pos s = Ok r /\ 0 <= r.
Proof.
  intros Hs. pose proof (to_int_le (zlen (m_lineIndex s)) ltac:(lia)).
  apply search_loop_total; lia.
Qed.

(** A search in an index split at [pos] finds where it is split. *)
Lemma index_split s pos l1 l2 : m_lineIndex s = map mkLine (l1 ++ l2) -> l1 <> [] ->
  zlen (m_lineIndex s) <= int_max -> 0 <= pos <= m_totalLength s ->
  Forall (fun o => o <= pos) l1 -> Forall (fun o => pos < o) l2 ->
  lineForOffsetFromIndex_ pos s = Ok (zlen l1 - 1).
Proof.
  intros Hi Hn Hs Hp H1 H2. unfold lineForOffsetFromIndex_. rewrite Z.min_l by lia.
  unfold int_max in Hs. rewrite to_int_small by lia.
  assert (zlen (m_lineIndex s) = zlen l1 + zlen l2) as Hlen by (rewrite Hi, length_map; apply zlen_app).
  assert (0 < zlen l1) by (destruct l1; [done|simpl; lia]).
  rewrite (search_loop_spec _ _ (zlen l1)); try lia; [f_equal; lia|].
  intros i e He. rewrite Hi in He. apply (list_lookup_fmap_Some mkLine (l1 ++ l2)) in He as (o & -> & Ho). simpl.
  apply lookup_app_Some in Ho as [Ho|[Hge Ho]].
  - pose proof (lookup_lt_Some _ _ _ Ho). rewrite Forall_lookup in H1. specialize (H1 _ _ Ho). lia.
  - rewrite Forall_lookup in H2. specialize (H2 _ _ Ho). lia.
Qed.

Lemma starts_app a b : starts (a ++ b) = starts a ++ starts_after (zlen a) b.
Proof. unfold starts. by rewrite starts_after_app. Qed.

Lemma starts_le a : Forall (fun o => o <= zlen a) (starts a).
Proof.
  constructor; [lia|]. eapply Forall_impl; [|apply (starts_after_range 0 a)]. intros o Ho. simpl in Ho. lia.
Qed.

Lemma starts_after_gt off b : Forall (fun o => off < o) (starts_after off b).
Proof. eapply Forall_impl; [|apply starts_after_range]. intros o Ho. simpl in Ho. lia. Qed.

Lemma zlen_starts l : zlen (starts l) = newlines l + 1.
Proof. unfold starts. pose proof (starts_after_length 0 l). simpl. lia. Qed.

(** An exact index splits at any position of the text. *)
Lemma index_at s a b : m_lineIndex s = map mkLine (starts (a ++ b)) -> zlen (a ++ b) < int_max ->
  zlen a <= m_totalLength s -> lineForOffsetFromIndex_ (zlen a) s = Ok (newlines a).
Proof.
  intros Hi Hs Hp. pose proof (newlines_range (a ++ b)).
  rewrite (index_split s (zlen a) (starts a) (starts_after (zlen a) b)).
  - rewrite zlen_starts. f_equal. lia.
  - by rewrite Hi, starts_app.
  - done.
  - rewrite Hi, length_map, zlen_starts. lia.
  - lia.
  - apply starts_le.
  - apply starts_after_gt.
Qed.

Lemma shiftFrom_spec f l1 l2 n : n = zlen l1 ->
  shiftFrom n f (map mkLine (l1 ++ l2)) = map mkLine (l1 ++ map f l2).
Proof.
  intros ->. unfold shiftFrom. rewrite Nat2Z.id, !map_app, take_app_length', drop_app_length'
    by (by rewrite length_map). by rewrite !map_map.
Qed.

Lemma map_shift (f g : Z -> Z) l : Forall (fun o => f o = g o) l -> map f l = map g l.
Proof. induction 1; simpl; congruence. Qed.

Lemma shift_up off n b : 0 <= off -> 0 <= n -> off + n + zlen b < u64_modulus ->
  map (fun o => o +u n) (starts_after off b) = starts_after (off + n) b.
Proof.
  unfold u64_modulus. intros Ho Hn Hb. rewrite starts_after_shift. apply map_shift.
  eapply Forall_impl; [|apply starts_after_range]. intros o Hr. simpl in Hr. apply add64_small. lia.
Qed.

Lemma shift_down off n b : 0 <= off -> 0 <= n -> off + n + zlen b < u64_modulus ->
  map (fun o => o -u n) (starts_after (off + n) b) = starts_after off b.
Proof.
  unfold u64_modulus. intros Ho Hn Hb. rewrite starts_after_shift, map_map.
  rewrite <-(map_id (starts_after off b)) at 2. apply map_shift.
  eapply Forall_impl; [|apply starts_after_range]. intros o Hr. simpl in Hr. rewrite sub64_small; lia.
Qed.

Lemma set_index_id s : set_index (m_lineIndex s) (m_lineIndexReady s) s = s.
Proof. by destruct s. Qed.

(** Inserting [x] between [a] and [b]: the new index, exact if the old one was. *)
Lemma update_insert s a x b before nl :
  m_add s = before ++ x -> zlen (m_add s) <= 2 ^ 62 -> m_totalLength s = zlen (a ++ x ++ b) ->
  zlen (m_lineIndex s) < u64_modulus -> zlen (a ++ x ++ b) <= 2 ^ 62 ->
  exists index, updateLineIndexAfterInsert_ (zlen a) (zlen x) nl s = (Ok tt, set_index index (m_lineIndexReady s) s) /\
    zlen index <= zlen (m_lineIndex s) + zlen x /\
    (m_lineIndexReady s = true -> m_lineIndex s = map mkLine (starts (a ++ b)) -> nl = newlines x ->
     zlen (a ++ b) < int_max -> index = map mkLine (starts (a ++ x ++ b))).
Proof.
  intros Ha Hadd Ht Hi Hb. rewrite !zlen_app in Hb. unfold updateLineIndexAfterInsert_. m_run.
  destruct (m_lineIndexReady s) eqn:Er; cbn [negb].
  2: { exists (m_lineIndex s). rewrite <-Er, set_index_id. split_and!; [done|lia|congruence]. }
  destruct (index_total (zlen a) s Hi) as (r & Hr & Hr0). rewrite Hr.
  assert (m_lineIndex s = map mkLine (starts (a ++ b)) -> zlen (a ++ b) < int_max -> r = newlines a) as Hexact.
  { intros H1 H2. rewrite (index_at s a b) in Hr; try done; [congruence|]. rewrite Ht, zlen_app. lia. }
  destruct (Z.eqb_spec nl 0) as [Hn|Hn].
  - eexists. split_and!; [reflexivity| |].
    + unfold shiftFrom. rewrite length_app, length_map, length_take, length_drop. lia.
    + intros _ H1 -> H2. rewrite (Hexact H1 H2), H1, starts_app, shiftFrom_spec by (rewrite zlen_starts; lia).
      rewrite shift_up by (unfold u64_modulus; lia). rewrite !starts_app, starts_after_app.
      assert (starts_after (zlen a) x = []) as ->; [|done].
      pose proof (starts_after_length (zlen a) x) as Hl. rewrite Hn in Hl.
      destruct (starts_after (zlen a) x); [done|simpl in Hl; lia].
  - rewrite Ha, zlen_app in Hadd. rewrite Ha, zlen_app, sub64_small by lia.
    replace (zlen before + zlen x - zlen x) with (zlen before) by lia.
    rewrite bytesAt_ok by (rewrite zlen_app; lia).
    rewrite zslice_app_r, Z.sub_diag, zslice_all by lia.
    rewrite scanLines_spec by (unfold u64_modulus; lia). rewrite Z.add_0_r.
    eexists. split_and!; [reflexivity| |].
    + rewrite !length_app, !length_map, length_take, length_drop.
      pose proof (starts_after_length (zlen a) x). pose proof (newlines_range x). lia.
    + intros _ H1 -> H2. rewrite (Hexact H1 H2), H1, starts_app.
      replace (Z.to_nat (newlines a + 1)) with (length (map mkLine (starts a)))
        by (rewrite length_map; pose proof (zlen_starts a); lia).
      rewrite map_app, take_app_length, drop_app_length.
      rewrite starts_app, starts_after_app, !map_app. do 2 f_equal.
      rewrite map_map. simpl. rewrite <-(map_map (fun o => o +u zlen x) mkLine). f_equal.
      apply shift_up; unfold u64_modulus; lia.
Qed.
Lemma set_index_set_index i1 r1 i2 r2 s : set_index i2 r2 (set_index i1 r1 s) = set_index i2 r2 s.
Proof. done. Qed.

Lemma length_shiftFrom n f index : length (shiftFrom n f index) = length index.
Proof. unfold shiftFrom. rewrite length_app, length_map, length_take, length_drop. lia. Qed.

(** The lines after the cut move down by what was removed. *)
Lemma shiftLinesAfter_spec s a b n : 0 <= n -> zlen a + n + zlen b <= 2 ^ 62 ->
  m_totalLength s = zlen (a ++ b) -> zlen (m_lineIndex s) < u64_modulus ->
  exists index, shiftLinesAfter (zlen a) n s = (Ok tt, set_index index true s) /\
    zlen index = zlen (m_lineIndex s) /\
    (m_lineIndex s = map mkLine (starts a ++ starts_after (zlen a + n) b) -> zlen (a ++ b) < int_max ->
     index = map mkLine (starts (a ++ b))).
Proof.
  intros Hn Hb Ht Hi. unfold shiftLinesAfter. m_run.
  destruct (index_total (zlen a) s Hi) as (r & Hr & _). rewrite Hr.
  eexists. split_and!; [reflexivity|by rewrite length_shiftFrom|]. intros H1 H2.
  rewrite zlen_app in *. pose proof (newlines_range a). pose proof (newlines_range b).
  assert (r = newlines a) as ->.
  { rewrite (index_split s _ (starts a) (starts_after (zlen a + n) b)) in Hr; try done.
    - rewrite zlen_starts in Hr. injection Hr as <-. lia.
    - rewrite H1, length_map, zlen_app, zlen_starts, starts_after_length. unfold int_max in *. lia.
    - lia.
    - apply starts_le.
    - eapply Forall_impl; [|apply starts_after_gt]. intros o Ho. simpl in Ho. lia. }
  rewrite H1, shiftFrom_spec by (rewrite zlen_starts; lia).
  rewrite shift_down by (unfold u64_modulus; lia). by rewrite starts_app.
Qed.

Lemma removedLines_skip pos end_ l : forall i f la rest,
  Forall (fun o => o <= pos \/ end_ < o) l ->
  removedLines pos end_ i f la (map mkLine l ++ rest) = removedLines pos end_ (i + zlen l) f la rest.
Proof.
  induction l as [|o l IH]; intros i f la rest Hl; [by rewrite Z.add_0_r|].
  apply Forall_cons_1 in Hl as [Ho Hl]. cbn [map app removedLines offset].
  destruct (Z.ltb_spec pos o), (Z.leb_spec o end_); try lia; cbn [andb];
    rewrite IH by done; f_equal; simpl; lia.
Qed.

Lemma removedLines_take pos end_ l : forall i f la rest,
  Forall (fun o => pos < o <= end_) l -> 0 <= i ->
  removedLines pos end_ i f la (map mkLine l ++ rest) =
    removedLines pos end_ (i + zlen l) (if bool_decide (l = []) then f else if f <? 0 then i else f)
      (if bool_decide (l = []) then la else i + zlen l - 1) rest.
Proof.
  induction l as [|o l IH]; intros i f la rest Hl Hi; [by rewrite Z.add_0_r|].
  apply Forall_cons_1 in Hl as [Ho Hl]. cbn [map app removedLines offset].
  destruct (Z.ltb_spec pos o), (Z.leb_spec o end_); try lia; cbn [andb].
  rewrite IH by (done || lia). rewrite (bool_decide_false (o :: l = [])) by done.
  replace (i + zlen (o :: l)) with (i + 1 + zlen l) by (simpl; lia).
  destruct (Z.ltb_spec f 0) as [Hf|Hf]; (destruct l; [simpl; f_equal; lia|]);
    rewrite bool_decide_false by done; zbool; f_equal; lia.
Qed.

Lemma removedLines_spec pos end_ l1 lr l2 :
  Forall (fun o => o <= pos) l1 -> Forall (fun o => pos < o <= end_) lr -> Forall (fun o => end_ < o) l2 ->
  removedLines pos end_ 0 (-1) (-1) (map mkLine (l1 ++ lr ++ l2)) =
    if bool_decide (lr = []) then (-1, -1) else (zlen l1, zlen l1 + zlen lr - 1).
Proof.
  intros H1 Hr H2. rewrite !map_app, removedLines_skip, removedLines_take, <-(app_nil_r (map mkLine l2)).
  - rewrite removedLines_skip by (eapply Forall_impl; [|exact H2]; intros; simpl in *; lia).
    cbn [removedLines]. by destruct (bool_decide (lr = [])).
  - done.
  - lia.
  - eapply Forall_impl; [|exact H1]. intros. simpl in *. lia.
Qed.

(** Removing [r] between [a] and [b]: the new index, exact if the old one was. *)
Lemma update_remove s a r b nl : r <> [] ->
  m_totalLength s = zlen (a ++ b) -> zlen (m_lineIndex s) < u64_modulus -> zlen (a ++ r ++ b) <= 2 ^ 62 ->
  exists index, updateLineIndexAfterRemove_ (zlen a) (zlen r) nl s = (Ok tt, set_index index (m_lineIndexReady s) s) /\
    zlen index <= zlen (m_lineIndex s) /\
    (m_lineIndexReady s = true -> m_lineIndex s = map mkLine (starts (a ++ r ++ b)) -> nl = newlines r ->
     zlen (a ++ r ++ b) < int_max -> index = map mkLine (starts (a ++ b))).
Proof.
  intros Hr Ht Hi Hb. rewrite !zlen_app in Hb. unfold updateLineIndexAfterRemove_. m_run.
  destruct (m_lineIndexReady s) eqn:Er; cbn [negb].
  2: { exists (m_lineIndex s). rewrite <-Er, set_index_id. split_and!; [done|lia|congruence]. }
  destruct (Z.eqb_spec nl 0) as [Hn|Hn].
  - destruct (shiftLinesAfter_spec s a b (zlen r) ltac:(lia) ltac:(lia) Ht Hi) as (index & -> & Hl & He).
    exists index. split_and!; [done|lia|]. intros _ H1 H2 H3. apply He; [|rewrite !zlen_app in *; lia].
    rewrite H1, starts_app, starts_after_app.
    assert (starts_after (zlen a) r = []) as ->; [|done].
    pose proof (starts_after_length (zlen a) r). destruct (starts_after (zlen a) r); [done|simpl in *; lia].
  - rewrite add64_small by lia.
    destruct (removedLines (zlen a) (zlen a + zlen r) 0 (-1) (-1) (m_lineIndex s)) as [f la] eqn:E.
    assert (m_lineIndex s = map mkLine (starts (a ++ r ++ b)) -> nl = newlines r ->
      f = zlen (starts a) /\ la = f + newlines r - 1 /\ 0 < newlines r) as Hcut.
    { intros H1 H2. rewrite H1, starts_app, starts_after_app, removedLines_spec in E;
        [|apply starts_le|apply starts_after_range|apply starts_after_gt].
      pose proof (starts_after_length (zlen a) r) as Hl. pose proof (newlines_range r).
      destruct (starts_after (zlen a) r); [simpl in Hl; lia|].
      rewrite bool_decide_false in E by done. rewrite <-Hl. split_and!; [congruence|congruence|lia]. }
    destruct ((0 <=? f) && (f <=? la)) eqn:Efl.
    + apply andb_true_iff in Efl as [E1 E2]. apply Z.leb_le in E1, E2.
      set (s' := set_index (take (Z.to_nat f) (m_lineIndex s) ++ drop (Z.to_nat (la + 1)) (m_lineIndex s)) true s).
      assert (zlen (m_lineIndex s') <= zlen (m_lineIndex s)) as Hlen.
      { unfold s'. simpl. rewrite length_app, length_take, length_drop. lia. }
      destruct (shiftLinesAfter_spec s' a b (zlen r) ltac:(lia) ltac:(lia) Ht ltac:(lia)) as (index & -> & Hl & He).
      exists index. unfold s'. rewrite set_index_set_index. split_and!; [done|lia|].
      intros _ H1 H2 H3. destruct (Hcut H1 H2) as (-> & -> & _). apply He; [|rewrite !zlen_app in *; lia].
      pose proof (starts_after_length (zlen a) r). pose proof (newlines_range r).
      unfold s'. cbn [m_lineIndex set_index]. rewrite H1, starts_app, starts_after_app, !map_app.
      rewrite take_app_length' by (rewrite length_map; lia).
      by rewrite app_assoc, drop_app_length' by (rewrite length_app, !length_map; lia).
    + destruct (shiftLinesAfter_spec s a b (zlen r) ltac:(lia) ltac:(lia) Ht Hi) as (index & Hs & Hl & He).
      m_run. rewrite Hs. exists index. split_and!; [done|lia|]. intros _ H1 H2 H3. exfalso.
      destruct (Hcut H1 H2) as (Hf & Hla & Hp).
      apply andb_false_iff in Efl as [Efl|Efl]; apply Z.leb_gt in Efl; lia.
Qed.
(** *** Edits *)

Definition inserted (pos : Z) (x l : list byte) : list byte :=
  take (Z.to_nat (Z.min pos (zlen l))) l ++ x ++ drop (Z.to_nat (Z.min pos (zlen l))) l.

Definition removed (pos len : Z) (l : list byte) : list byte :=
  take (Z.to_nat (Z.min pos (zlen l))) l ++ drop (Z.to_nat (Z.min (pos + len) (zlen l))) l.

(** The fields an edit leaves alone. *)
Definition same_original (s s' : t) : Prop :=
  bufferPtr_ Original s' = bufferPtr_ Original s /\ m_originalData s' = m_originalData s /\
  m_originalSize s' = m_originalSize s /\ m_isMapped s' = m_isMapped s.

Lemma exact_of s l idx ready n len ps : Forall (counted s) ps -> n = newlines l ->
  (ready = true -> idx = map mkLine (starts l)) ->
  exact (set_index idx ready (set_totals len n (set_pieces ps s))) l.
Proof. intros Hc -> Hi. by split. Qed.

(** A piece for [x] between two runs of pieces, with the totals and the index. *)
Lemma insert_finish v s a b x p P1 P2 tn before :
  zlen (a ++ x ++ b) <= v -> zlen (m_add s) <= v -> zlen (m_lineIndex s) + zlen x <= v + 1 -> v <= 2 ^ 60 ->
  m_add s = before ++ x ->
  Forall (valid s) (P1 ++ P2) -> text s P1 = a -> text s P2 = b -> valid s p -> textOf s p = x ->
  p_newlineCount p = newlines x ->
  exists s', updateLineIndexAfterInsert_ (zlen a) (zlen x) (newlines x)
      (set_totals (zlen (a ++ x ++ b)) tn (set_pieces (P1 ++ p :: P2) s)) = (Ok tt, s') /\
    repr v s' (a ++ x ++ b) /\ same_original s s' /\
    (Forall (counted s) (P1 ++ P2) -> tn = newlines (a ++ x ++ b) ->
     (m_lineIndexReady s = true -> m_lineIndex s = map mkLine (starts (a ++ b))) ->
     zlen (a ++ b) < int_max -> exact s' (a ++ x ++ b)).
Proof.
  intros Hd Ha Hi Hb Hadd Hvs H1 H2 Hp Hx Hn.
  set (s0 := set_totals (zlen (a ++ x ++ b)) tn (set_pieces (P1 ++ p :: P2) s)).
  assert (extends s s0) as He by by apply extends_same.
  destruct (update_insert s0 a x b before (newlines x)) as (idx & Hu & Hl & Hxx); try done;
    [simpl; lia|simpl; unfold u64_modulus; lia|lia|].
  rewrite Hu. eexists. split; [reflexivity|]. apply Forall_app in Hvs as [Hv1 Hv2].
  assert (Forall (valid s) (P1 ++ p :: P2)) as Hall by (apply Forall_app; split; [done|by constructor]).
  split_and!; [|done|].
  - split; simpl.
    + by apply (valids_extends s); [apply extends_same|].
    + rewrite (text_extends s) by (done || by apply extends_same).
      by rewrite text_app, text_cons, Hx, H1, H2.
    + done.
    + done.
    + done.
    + simpl in Hl. lia.
    + done.
  - intros Hc Htn Hready Hsmall. split; simpl.
    + apply (counted_extends s); [by apply extends_same|done|]. apply Forall_app in Hc as [Hc1 Hc2].
      apply Forall_app. split; [done|]. constructor; [|done]. unfold counted. by rewrite Hx.
    + done.
    + intros Hr. apply Hxx; try done. by apply Hready.
Qed.

Lemma insertPiece_spec v s l pos p : repr v s l -> 0 <= pos <= zlen l ->
  exists P1 P2, insertPiece pos p s = (Ok tt, set_pieces (P1 ++ p :: P2) s) /\
    Forall (valid s) (P1 ++ P2) /\ text s P1 = take (Z.to_nat pos) l /\ text s P2 = drop (Z.to_nat pos) l /\
    (Forall (counted s) (m_pieces s) -> Forall (counted s) (P1 ++ P2)).
Proof.
  intros Hr Hk. unfold insertPiece. m_run. destruct (decide (m_pieces s = [])) as [E|E].
  - exists [], []. pose proof (r_text _ _ _ Hr) as Ht. rewrite E in Ht. rewrite <-Ht in *.
    assert (pos = 0) as -> by (simpl in *; lia). by split_and!.
  - destruct (splitPieceAt_spec _ s l pos Hr Hk) as (P1 & P2 & -> & Hr2 & Hv2 & H1 & H2 & H3).
    exists P1, P2. cbn [m_pieces set_pieces]. rewrite Nat2Z.id, take_app_length, drop_app_length.
    by split_and!.
Qed.

Lemma insert_spec v s l pos x : repr v s l -> 0 <= pos -> v + zlen x <= 2 ^ 60 ->
  exists s', insert pos x s = (Ok tt, s') /\ repr (v + zlen x) s' (inserted pos x l) /\
    same_original s s' /\ (exact s l -> zlen l < int_max -> exact s' (inserted pos x l)).
Proof.
  intros Hr Hp Hv. unfold insert, inserted. destruct (decide (x = [])) as [->|Hne].
  { exists s. rewrite app_nil_l, take_drop, Z.add_0_r. by split_and!. }
  pose proof Hr as [Hvs Ht Hl Hd Ha Hi Hb].
  set (k := Z.min pos (zlen l)). assert (0 <= k <= zlen l) as Hk by lia.
  set (a := take (Z.to_nat k) l). set (b := drop (Z.to_nat k) l).
  assert (l = a ++ b) as Hlab by (unfold a, b; by rewrite take_drop).
  assert (zlen a = k) as Hka by (unfold a; rewrite length_take; lia).
  assert (0 < zlen x) as Hx0 by (destruct x; [done|simpl; lia]).
  set (s1 := set_add (m_add s ++ x) s).
  assert (zlen (m_add s1) = zlen (m_add s) + zlen x) as Hs1 by (simpl; by rewrite zlen_app).
  assert (extends s s1) as He.
  { split; try done. exists x. split; [done|]. right. lia. }
  assert (repr (v + zlen x) s1 l) as Hr1.
  { split; try done; cbn [m_totalLength m_lineIndex m_add s1 set_add]; rewrite ?zlen_app; try lia.
    - exact (valids_extends s s1 _ He Hvs).
    - rewrite (text_extends s s1) by done. exact Ht. }
  assert (zslice (m_add s1) (zlen (m_add s)) (zlen x) = x) as Hzx.
  { simpl. rewrite zslice_app_r, Z.sub_diag, zslice_all by lia. done. }
  set (p := mkPiece Add (zlen (m_add s)) (zlen x) (newlines x)).
  assert (valid s1 p) as Hvp by (split; simpl in *; try done; lia).
  m_run. rewrite Hl. fold k s1. rewrite countNewlines_ok by (simpl in *; lia). cbn [bufferPtr_]. rewrite Hzx. fold p.
  destruct (insertPiece_spec _ s1 l k p Hr1 Hk) as (P1 & P2 & -> & HvP & H1 & H2 & Hc).
  assert (m_totalLength s1 +u zlen x = zlen (a ++ x ++ b)) as Htot.
  { simpl. rewrite Hl, Hlab, !zlen_app in *. rewrite add64_small; lia. }
  cbn [m_totalLength m_totalNewlines set_pieces]. rewrite Htot. rewrite <-Hka.
  change (set_totals ?x ?y (set_pieces ?z (set_pieces _ ?w))) with (set_totals x y (set_pieces z w)).
  destruct (insert_finish (v + zlen x) s1 a b x p P1 P2 (m_totalNewlines s1 + newlines x) (m_add s)) as (s' & Hu & Hr' & Ho & Hx);
    try done; [|lia|simpl; lia|].
  { rewrite Hlab, !zlen_app in *. lia. }
  exists s'. split_and!; try done. intros [Hxc Hxn Hxi] Hsmall. apply Hx.
  - apply Hc. by apply (counted_extends s).
  - simpl. rewrite Hxn, Hlab, !newlines_app. lia.
  - rewrite <-Hlab. exact Hxi.
  - by rewrite <-Hlab.
Qed.

(** *** Removal *)

(** A cut further on leaves the pieces before it as they are. *)
Lemma split_loop_skip s pos Q1 Q2 : forall c, Forall (valid s) Q1 -> 0 <= c ->
  c + zlen (text s Q1) <= pos -> pos < u64_modulus ->
  split_loop pos c (Q1 ++ Q2) s =
    match split_loop pos (c + zlen (text s Q1)) Q2 s with
    | Ok (R, i) => Ok (Q1 ++ R, zlen Q1 + i)
    | Err e => Err e
    | NoFuel => NoFuel
    end.
Proof.
  unfold u64_modulus. induction Q1 as [|q Q1 IH]; intros c Hv Hc Hp Hb.
  { simpl. rewrite Z.add_0_r. by destruct (split_loop pos c Q2 s) as [[R i]| |]. }
  apply Forall_cons_1 in Hv as [Hq Hv]. rewrite zlen_text_cons in * by done.
  pose proof (v_length _ _ Hq). cbn [app split_loop]. rewrite add64_small by lia.
  destruct (Z.eqb_spec c pos); [lia|]. destruct (Z.ltb_spec pos (c + p_length q)); [lia|].
  rewrite IH by (done || lia). rewrite Z.add_assoc.
  destruct (split_loop pos (c + p_length q + zlen (text s Q1)) Q2 s) as [[R i]| |]; [|done|done].
  do 2 f_equal. simpl. lia.
Qed.

Lemma erasePieces_spec v s l i j : repr v s l -> 0 <= i < j -> j <= zlen l ->
  exists P1 P3 n, erasePieces i j s = (Ok n, set_pieces (P1 ++ P3) s) /\ Forall (valid s) (P1 ++ P3) /\
    text s P1 = take (Z.to_nat i) l /\ text s P3 = drop (Z.to_nat j) l /\
    (Forall (counted s) (m_pieces s) -> Forall (counted s) (P1 ++ P3) /\ n = newlines (zslice l i (j - i))).
Proof.
  intros Hr Hi Hj. pose proof (r_doc _ _ _ Hr). pose proof (r_volume _ _ _ Hr).
  destruct (splitPieceAt_spec v s l i Hr ltac:(lia)) as (P1 & Q & E1 & Hr1 & Hv1 & H1 & HQ & Hc1).
  assert (zlen (text s P1) = i) as Hz1 by (rewrite H1, length_take; lia).
  assert (zlen (text s Q) = zlen l - i) as HzQ by (rewrite HQ, length_drop; lia).
  apply Forall_app in Hv1 as [HvP1 HvQ].
  destruct (split_loop_spec s j Q i HvQ) as (P2 & P3 & E2 & Hv2 & Ht2 & Hz2 & Hc2); try lia.
  { unfold u64_modulus. lia. }
  assert (split_loop j 0 (P1 ++ Q) s = Ok (P1 ++ P2 ++ P3, zlen P1 + zlen P2)) as E3.
  { rewrite split_loop_skip by (done || unfold u64_modulus; lia). by rewrite Z.add_0_l, Hz1, E2. }
  assert (text s P2 = zslice l i (j - i) /\ text s P3 = drop (Z.to_nat j) l) as [H2 H3].
  { rewrite text_app, HQ in Ht2. split.
    - unfold zslice. by rewrite <-Ht2, take_app_length' by lia.
    - replace (drop (Z.to_nat j) l) with (drop (Z.to_nat (j - i)) (drop (Z.to_nat i) l))
        by (rewrite drop_drop; f_equal; lia).
      by rewrite <-Ht2, drop_app_length' by lia. }
  assert (P2 <> []) as Hne by (intros ->; simpl in Hz2; lia).
  assert (split_loop j 0 (m_pieces (set_pieces (P1 ++ Q) s)) (set_pieces (P1 ++ Q) s) = split_loop j 0 (P1 ++ Q) s) as E4.
  { cbn [m_pieces set_pieces]. generalize (P1 ++ Q) at 1 3. clear. intros ps. generalize 0. 
    induction ps as [|p ps IH]; intros c; [done|]. cbn [split_loop]. by rewrite IH. }
  assert (splitPieceAt_ j (set_pieces (P1 ++ Q) s) = (Ok (zlen P1 + zlen P2), set_pieces (P1 ++ P2 ++ P3) s)) as E5.
  { unfold splitPieceAt_. m_run. by rewrite E4, E3. }
  exists P1, P3. unfold erasePieces. m_run. rewrite E1, E5. cbn [m_pieces set_pieces].
  replace (zlen P1 + zlen P2 - zlen P1) with (zlen P2) by lia. rewrite !Nat2Z.id.
  destruct (Z.ltb_spec (zlen P1) (zlen P1 + zlen P2)) as [Hlt|Hge]; [|destruct P2; [done|simpl in Hge; lia]].
  rewrite drop_app_length, take_app_length.
  rewrite <-Nat2Z.inj_add, Nat2Z.id, take_app_length, (app_assoc P1), drop_app_length' by (by rewrite length_app).
  eexists. split_and!; [reflexivity| |done|done|].
  - apply Forall_app in Hv2 as [_ Hv3]. by apply Forall_app.
  - intros Hc. apply Hc1, Forall_app in Hc as [HcP HcQ]. apply Hc2, Forall_app in HcQ as [Hc2' Hc3].
    split; [by apply Forall_app|]. rewrite <-H2. by apply sumNewlines_spec.
Qed.

Lemma remove_spec v s l pos len : repr v s l -> 0 <= pos -> 0 <= len -> pos + len < u64_modulus ->
  exists s', remove pos len s = (Ok tt, s') /\ repr v s' (removed pos len l) /\
    same_original s s' /\ (exact s l -> zlen l < int_max -> exact s' (removed pos len l)).
Proof.
  intros Hr Hp Hl Hb. pose proof Hr as [Hvs Ht Htot Hd Ha Hi Hv]. unfold remove, removed, isEmpty, u64_modulus in *.
  m_run. rewrite Htot, add64_small by lia.
  set (i := Z.min pos (zlen l)). set (j := Z.min (pos + len) (zlen l)).
  assert ((len =? 0) || (zlen l =? 0) = true -> j <= i) as H0.
  { intros E. apply orb_true_iff in E as [E|E]; apply Z.eqb_eq in E; lia. }
  destruct (Z.leb_spec j i) as [Hle|Hgt].
  { replace ((if (len =? 0) || (zlen l =? 0) then _ else _) s) with (Ok tt, s)
      by (by destruct ((len =? 0) || (zlen l =? 0))).
    exists s. replace (Z.to_nat j) with (Z.to_nat i) by lia. rewrite take_drop. by split_and!. }
  destruct ((len =? 0) || (zlen l =? 0)); [specialize (H0 eq_refl); lia|].
  rewrite sub64_small by lia.
  destruct (erasePieces_spec v s l i j Hr) as (P1 & P3 & n & -> & HvP & H1 & H3 & Hc); [lia|lia|].
  set (a := take (Z.to_nat i) l) in *. set (b := drop (Z.to_nat j) l) in *. set (r := zslice l i (j - i)) in *.
  assert (l = a ++ r ++ b) as Hlab.
  { unfold a, b, r, zslice. rewrite <-(take_drop (Z.to_nat i) l) at 1. f_equal.
    rewrite <-(take_drop (Z.to_nat (j - i)) (drop (Z.to_nat i) l)) at 1. f_equal.
    rewrite drop_drop. f_equal. lia. }
  assert (zlen a = i) as Hza by (unfold a; rewrite length_take; lia).
  assert (zlen r = j - i) as Hzr by (apply zlen_zslice; lia).
  assert (zlen l = zlen a + (zlen r + zlen b)) as Hzl by (by rewrite Hlab at 1; rewrite !zlen_app).
  cbn [m_totalLength m_totalNewlines set_pieces]. rewrite Htot, sub64_small by lia.
  change (set_totals ?x ?y (set_pieces ?z s)) with (set_totals x y (set_pieces z s)).
  set (s0 := set_totals (zlen l - (j - i)) (m_totalNewlines s - n) (set_pieces (P1 ++ P3) s)).
  destruct (update_remove s0 a r b n) as (idx & Hu & Hll & Hxx).
  { intros E. rewrite E in Hzr. simpl in Hzr. lia. }
  { simpl. rewrite zlen_app. lia. }
  { simpl. unfold u64_modulus. lia. }
  { rewrite <-Hlab. lia. }
  rewrite Hza, Hzr in Hu. rewrite Hu. eexists. split; [reflexivity|]. split_and!; [|done|].
  - split; simpl; rewrite ?zlen_app; try lia.
    + apply (valids_extends s); [by apply extends_same|done].
    + rewrite (text_extends s) by (done || by apply extends_same). by rewrite text_app, H1, H3.
    + simpl in Hll. lia.
  - intros [Hxc Hxn Hxi] Hsmall. destruct (Hc Hxc) as [Hcc ->].
    split; simpl.
    + apply (counted_extends s); [by apply extends_same|done|done].
    + rewrite Hxn. rewrite Hlab at 1. rewrite !newlines_app. lia.
    + intros Hready. apply Hxx; try done.
      * simpl. rewrite <-Hlab. by apply Hxi.
      * by rewrite <-Hlab.
Qed.

Lemma add64_wraps a b : u64_modulus <= a + b < 2 * u64_modulus -> a +u b = a + b - u64_modulus.
Proof. unfold add64, wrap64, u64_modulus. intros H. symmetry; apply Z.mod_unique with 1; lia. Qed.

Lemma sub64_wraps a b : - u64_modulus <= a - b < 0 -> a -u b = a - b + u64_modulus.
Proof. unfold sub64, wrap64, u64_modulus. intros H. symmetry; apply Z.mod_unique with (-1); lia. Qed.

(** Where [pos + length] wraps around, the end lies before the start. *)
Lemma remove_wraps s pos len : 0 <= pos < u64_modulus -> 0 <= len < u64_modulus -> u64_modulus <= pos + len ->
  remove pos len s = (Ok tt, s).
Proof.
  unfold remove, u64_modulus. intros Hp Hl Hw. m_run. destruct ((len =? 0) || isEmpty s); [done|].
  rewrite add64_wraps by (unfold u64_modulus; lia).
  destruct (Z.leb_spec (Z.min (pos + len - u64_modulus) (m_totalLength s)) (Z.min pos (m_totalLength s))) as [|H]; [done|].
  unfold u64_modulus in H. lia.
Qed.
(** *** The original text *)

(** Where the original text comes from. A mapping that fails clears the text the
    table owns and leaves its pointer and its size behind. *)
Inductive Source := Text (x : list byte) | File (x : list byte) | Cleared.

Definition source_bytes (src : Source) : option (list byte) :=
  match src with Text x | File x => Some x | Cleared => None end.

Definition unmapped (src : Source) : Source :=
  match src with Text (_ :: _) | Cleared => Cleared | _ => Text [] end.

Record original (volume : Z) (s : t) (src : Source) : Prop := {
  o_mapped : m_isMapped s = match src with File _ => true | _ => false end;
  o_bytes b : source_bytes src = Some b ->
    bufferPtr_ Original s = b /\ m_originalSize s = zlen b /\ (m_originalData s = NoData -> b = []) /\
    zlen b <= volume
}.

Lemma original_keeps v v' s s' src : original v s src -> v <= v' -> same_original s s' -> original v' s' src.
Proof.
  intros [Hm Hb] Hv (H0 & H1 & H2 & H3). split; [congruence|]. intros b Hs. destruct (Hb b Hs) as (? & ? & ? & ?).
  split_and!; [congruence|congruence|by rewrite H1|lia].
Qed.

(** A mapped file that has not been scanned, nor edited. *)
Record unscanned (s : t) (l : list byte) : Prop := {
  u_pieces : m_pieces s = [mkPiece Original 0 (zlen l) 0];
  u_ready : m_lineIndexReady s = false
}.

(** *** New content *)

Lemma buildLineIndex_loop_spec s ps : forall c, Forall (valid s) ps -> 0 <= c ->
  c + zlen (text s ps) < u64_modulus ->
  buildLineIndex_loop c ps s = Ok (map mkLine (starts_after c (text s ps))).
Proof.
  unfold u64_modulus. induction ps as [|p ps IH]; intros c Hv Hc Hb; [done|].
  apply Forall_cons_1 in Hv as [Hp Hv]. rewrite zlen_text_cons in Hb by done.
  pose proof (v_length _ _ Hp). cbn [buildLineIndex_loop].
  rewrite pieceBytes_all, add64_small, IH by (done || lia).
  rewrite scanLines_spec by (rewrite ?zlen_textOf by done; unfold u64_modulus; lia).
  by rewrite Z.add_0_r, text_cons, starts_after_app, map_app, zlen_textOf.
Qed.

Lemma buildLineIndex_spec v s l : repr v s l -> Forall (counted s) (m_pieces s) ->
  exists s', buildLineIndex_ s = (Ok tt, s') /\ repr v s' l /\ exact s' l /\ same_original s s'.
Proof.
  intros [Hv Ht Htot Hd Ha Hi Hb] Hc. unfold buildLineIndex_. m_run.
  rewrite buildLineIndex_loop_spec by (rewrite ?Ht; unfold u64_modulus; done || lia).
  rewrite Ht, length_map, starts_after_length. pose proof (newlines_range l).
  eexists. split_and!; [reflexivity| | |].
  - apply (repr_over v s); try done; [by apply extends_same|].
    simpl. rewrite length_map. pose proof (starts_after_length 0 l). lia.
  - by split.
  - by split_and!.
Qed.

Lemma setText_spec v s x : zlen x <= v -> v <= 2 ^ 60 ->
  exists s', setText x s = (Ok tt, s') /\ repr v s' x /\ exact s' x /\ original v s' (Text x).
Proof.
  intros Hx Hv.
  assert (forall s0 s', m_isMapped s0 = false -> bufferPtr_ Original s0 = x -> m_originalSize s0 = zlen x ->
    (m_originalData s0 = NoData -> x = []) -> same_original s0 s' -> original v s' (Text x)) as Hor.
  { intros s0 s' H1 H2 H3 H4 Hso. apply (original_keeps v v s0); [|done|done]. split; [done|].
    intros b [= <-]. by split_and!. }
  unfold setText. m_run. destruct x as [|c x0] eqn:Ex.
  { set (s0 := mk _ _ _ _ _ _ _ _ _ _). destruct (buildLineIndex_spec v s0 []) as (s' & ? & ? & ? & ?).
    - split; try done; simpl; lia.
    - constructor.
    - exists s'. split_and!; [done..|]. by apply (Hor s0). }
  rewrite <-Ex in *. assert (0 < zlen x) by (rewrite Ex; simpl; lia).
  destruct (Z.ltb_spec 0 (zlen x)); [|lia].
  rewrite countNewlines_ok by (simpl; lia). cbn [bufferPtr_ m_originalData m_originalOwned].
  rewrite zslice_all by lia.
  set (p := mkPiece Original 0 (zlen x) (newlines x)).
  set (s1 := set_totals _ _ (set_pieces [p] _)).
  assert (textOf s1 p = x) as Ht by (by apply zslice_all).
  assert (valid s1 p) as Hp by (split; simpl; try done; lia).
  destruct (buildLineIndex_spec v s1 x) as (s' & ? & ? & ? & ?).
  - split; try done; simpl; try lia.
    + by constructor.
    + rewrite text_cons, Ht. simpl. by rewrite app_nil_r.
  - constructor; [|done]. unfold counted. by rewrite Ht.
  - exists s'. split_and!; [done..|]. by apply (Hor s1).
Qed.

Lemma setMappedFile_fails v s file src : 0 <= v <= 2 ^ 60 -> file = None \/ file = Some [] -> original v s src ->
  exists s', setMappedFile file s = (Ok false, s') /\ repr v s' [] /\ exact s' [] /\ original v s' (unmapped src).
Proof.
  intros Hv Hf [Hm Hb]. unfold setMappedFile. m_run.
  assert (forall s', m_pieces s' = [] -> m_totalLength s' = 0 -> m_add s' = [] -> m_lineIndex s' = [] ->
    m_totalNewlines s' = 0 -> m_lineIndexReady s' = false -> repr v s' [] /\ exact s' []) as Hempty.
  { intros s' E1 E2 E3 E4 E5 E6. split; split; rewrite ?E1, ?E2, ?E3, ?E4, ?E6; simpl; done || lia. }
  destruct Hf as [-> | ->]; (eexists; split; [reflexivity|]);
    (split_and!; [by apply Hempty..|]); unfold unmapOriginal_;
    (destruct src as [[|c x]|x|]; rewrite Hm; (split; [done|]); cbn [source_bytes unmapped];
      intros b [= <-]; [|simpl; split_and!; done || lia]);
    destruct (Hb [] eq_refl) as (H1 & H2 & H3 & H4); simpl; rewrite H2; destruct (m_originalData s) eqn:E;
    simpl; split_and!; try done; try lia; unfold bufferPtr_ in H1; by rewrite E in H1.
Qed.

Lemma setMappedFile_maps v s b : zlen b <= v -> v <= 2 ^ 60 -> b <> [] ->
  exists s', setMappedFile (Some b) s = (Ok true, s') /\ repr v s' b /\ original v s' (File b) /\ unscanned s' b.
Proof.
  intros Hb Hv Hne. assert (0 < zlen b) by (destruct b; [done|simpl; lia]).
  unfold setMappedFile. m_run. destruct b as [|c b0] eqn:Eb; [done|]. eexists. split; [reflexivity|]. rewrite <-Eb in *.
  set (s' := mk _ _ _ _ _ _ _ _ _ _). set (p := mkPiece Original 0 (zlen b) 0).
  assert (textOf s' p = b) as Ht by (by apply zslice_all).
  split_and!.
  - split; try done; simpl; try lia.
    + constructor; [|constructor]. split; simpl; try done; lia.
    + change (textOf s' p ++ [] = b). by rewrite Ht, app_nil_r.
  - split; [done|]. intros ? [= <-]. by split_and!.
  - by split.
Qed.

(** The lines of the original text, installed. *)
Lemma setLineIndex_spec v s l b : repr v s l -> zlen b <= v ->
  exists s', setLineIndex (map mkLine (starts b)) (newlines b) s = (Ok tt, s') /\ repr v s' l /\ same_original s s' /\
    (b = l -> unscanned s l /\ bufferPtr_ Original s = b \/ exact s l -> exact s' l).
Proof.
  intros [Hv Ht Htot Hd Ha Hi Hb] Hvol. unfold setLineIndex. m_run.
  set (ps := match m_pieces s with [mkPiece Original start len _] => _ | _ => _ end).
  assert (Forall2 (fun p q => p_buffer q = p_buffer p /\ p_start q = p_start p /\ p_length q = p_length p)
    (m_pieces s) ps) as Hps.
  { assert (forall qs : list Piece, Forall2 (fun p q => p_buffer q = p_buffer p /\ p_start q = p_start p /\
      p_length q = p_length p) qs qs) as Hrefl by (induction qs; by constructor).
    unfold ps. destruct (m_pieces s) as [|[[] st len n0] [|q qs]]; auto. }
  set (s' := set_index _ _ _). assert (extends s s') as He by by apply extends_same.
  assert (Forall (valid s) ps /\ text s ps = text s (m_pieces s)) as [Hv' Ht'].
  { clear -Hv Hps. induction Hps as [|p q qs ps (H1 & H2 & H3) _ IH]; [done|].
    apply Forall_cons_1 in Hv as [Hp Hv]. destruct (IH Hv) as [IH1 IH2]. rewrite !text_cons, IH2. split.
    - constructor; [|done]. destruct Hp. by split; rewrite ?H1, ?H2, ?H3.
    - f_equal. unfold textOf. by rewrite H1, H2, H3. }
  exists s'. split_and!; [done| |done|].
  - apply (repr_over v s); try done; [by rewrite <-Ht, <-Ht'|].
    simpl. rewrite length_map. pose proof (starts_after_length 0 b). pose proof (newlines_range b). lia.
  - intros -> Hcase. split; [|done..]. apply (counted_extends s); [done|done|].
    subst ps. destruct (m_pieces s) as [|[[] st len n0] [|q qs]] eqn:Ep;
      try (destruct Hcase as [[[Hu _] _]|[Hc _ _]]; [congruence|by rewrite Ep in Hc]).
    constructor; [|done]. unfold counted. cbn [p_newlineCount].
    assert (textOf s (mkPiece Original st len (newlines l)) = l) as ->; [|done].
    rewrite <-Ht, text_cons. unfold text. simpl. by rewrite app_nil_r.
Qed.

(** The background scan of the original text. *)
Lemma run_spec v s l src b : repr v s l -> original v s src -> source_bytes src = Some b ->
  exists s', SwPieceTableLineIndexBuilder.run_ s = (Ok tt, s') /\ repr v s' l /\ original v s' src /\
    (b = l -> unscanned s l \/ exact s l -> exact s' l).
Proof.
  intros Hr Ho Hs. destruct (o_bytes _ _ _ Ho b Hs) as (Hbuf & Hsize & Hno & Hvol).
  destruct (setLineIndex_spec v s l b Hr Hvol) as (s' & Hset & Hr' & Hso & Hx).
  pose proof (r_volume _ _ _ Hr).
  exists s'. split_and!; [|done|by eapply original_keeps|naive_solver].
  unfold SwPieceTableLineIndexBuilder.run_. m_run.
  assert (b = [] \/ 0 < zlen b) as [->|Hpos] by (destruct b; [by left|right; simpl; lia]).
  { simpl in Hsize. rewrite Hsize. by destruct (m_originalData s). }
  destruct (m_originalData s) eqn:Ed; [rewrite (Hno eq_refl) in Hpos; simpl in Hpos; lia|..];
    (rewrite Hsize; destruct (zlen b) as [|n|n] eqn:En; [lia| |lia]; rewrite <-En in *; clear En;
     rewrite Hbuf, bytesAt_ok, zslice_all, scan_lines_spec by lia; m_run; by rewrite Z.add_0_l).
Qed.
(** *** Queries about the text *)

Lemma charAt_loop_spec s pos ps : forall c, Forall (valid s) ps -> 0 <= c <= pos ->
  c + zlen (text s ps) < u64_modulus ->
  charAt_loop pos c ps s = Ok (default x00 (text s ps !! Z.to_nat (pos - c))).
Proof.
  unfold u64_modulus. induction ps as [|p ps IH]; intros c Hv Hc Hb; [done|].
  apply Forall_cons_1 in Hv as [Hp Hv]. rewrite zlen_text_cons in Hb by done.
  pose proof Hp as [? ? ? ? Hs _]. cbn [charAt_loop]. rewrite add64_small by lia. rewrite text_cons.
  pose proof (zlen_textOf s p Hp) as Hz. destruct (Z.ltb_spec pos (c + p_length p)) as [Hlt|Hge].
  - rewrite sub64_small, add64_small by lia. rewrite lookup_app_l by lia.
    unfold bufferChar_, textOf. rewrite lookup_zslice by lia.
    replace (match p_buffer p with Original => _ | Add => _ end) with (zlen (buffer_of s p)).
    2: { destruct (p_buffer p); [by rewrite Hs|done]. }
    destruct (Z.ltb_spec (p_start p + (pos - c)) (zlen (buffer_of s p))); [|lia].
    destruct (buffer_of s p !! Z.to_nat (p_start p + (pos - c))) eqn:E; [done|].
    apply lookup_ge_None_1 in E. lia.
  - rewrite IH by (done || lia). rewrite lookup_app_r by lia. do 3 f_equal. lia.
Qed.

Lemma charAt_spec v s l pos : repr v s l -> 0 <= pos ->
  charAt pos s = Ok (default x00 (l !! Z.to_nat pos)).
Proof.
  intros [Hv Ht Hl Hd _ _ Hb] Hp. unfold charAt. rewrite Hl. destruct (Z.leb_spec (zlen l) pos).
  - by rewrite lookup_ge_None_2 by lia.
  - rewrite charAt_loop_spec by (rewrite ?Ht; unfold u64_modulus; done || lia). by rewrite Ht, Z.sub_0_r.
Qed.

Lemma seek_spec s pos ps : forall c, Forall (valid s) ps -> 0 <= c <= pos ->
  pos < c + zlen (text s ps) -> c + zlen (text s ps) < u64_modulus ->
  exists c' p qs, seek pos c ps = (c', p :: qs) /\ c <= c' <= pos /\ pos < c' + p_length p /\
    Forall (valid s) (p :: qs) /\ text s (p :: qs) = drop (Z.to_nat (c' - c)) (text s ps).
Proof.
  unfold u64_modulus. induction ps as [|p ps IH]; intros c Hv Hc Hp Hb; [simpl in Hp; lia|].
  pose proof Hv as Hall. apply Forall_cons_1 in Hv as [Hp1 Hv]. rewrite zlen_text_cons in * by done.
  pose proof (v_length _ _ Hp1). cbn [seek]. rewrite add64_small by lia.
  destruct (Z.leb_spec (c + p_length p) pos).
  - destruct (IH (c + p_length p) Hv) as (c' & q & qs & -> & H1 & H2 & H3 & H4); try lia.
    exists c', q, qs. split_and!; try done; try lia. rewrite H4, text_cons.
    pose proof (zlen_textOf s p Hp1). rewrite drop_app_ge by lia. f_equal. lia.
  - exists c, p, ps. split_and!; try done; try lia. by rewrite Z.sub_diag.
Qed.

Lemma substr_loop_spec s ps : forall n off out, Forall (valid s) ps -> 0 <= n -> 0 <= off ->
  match ps with [] => True | p :: _ => off <= p_length p end -> off + n <= zlen (text s ps) ->
  zlen (text s ps) < u64_modulus ->
  substr_loop n off ps out s = Ok (out ++ zslice (text s ps) off n).
Proof.
  unfold u64_modulus. induction ps as [|p ps IH]; intros n off out Hv Hn Hoff Hp Hb Hs.
  { change (text s []) with (@nil byte). unfold zslice. simpl. by rewrite drop_nil, take_nil, app_nil_r. }
  apply Forall_cons_1 in Hv as [Hp1 Hv]. rewrite zlen_text_cons in * by done.
  pose proof (v_length _ _ Hp1). pose proof (zlen_textOf s p Hp1) as Hz. cbn [substr_loop].
  destruct (Z.leb_spec n 0) as [H0|H0].
  { replace n with 0 by lia. by rewrite zslice_0, app_nil_r. }
  rewrite sub64_small by lia. rewrite pieceBytes_ok by (done || lia).
  rewrite sub64_small by lia. rewrite text_cons.
  assert (match ps with [] => True | q :: _ => 0 <= p_length q end) as Hhead.
  { destruct ps as [|q qs]; [done|]. apply Forall_cons_1 in Hv as [Hq _]. pose proof (v_length _ _ Hq). lia. }
  destruct (Z.le_gt_cases n (p_length p - off)).
  - rewrite Z.min_r by lia. rewrite IH by (done || lia).
    rewrite Z.sub_diag, zslice_0, app_nil_r, zslice_app_l by lia. done.
  - rewrite Z.min_l by lia. rewrite IH by (done || lia).
    rewrite <-app_assoc. do 2 f_equal.
    replace n with (p_length p - off + (n - (p_length p - off))) at 2 by lia.
    rewrite zslice_split, zslice_app_l by lia. f_equal.
    rewrite zslice_app_r by lia. by replace (off + (p_length p - off) - zlen (textOf s p)) with 0 by lia.
Qed.

(** An end that wraps around asks for more than a string can hold. *)
Lemma substr_wraps v s l pos len : repr v s l -> 0 <= pos < zlen l -> 0 <= len < u64_modulus ->
  u64_modulus <= pos + len -> substr pos len s = Err length_error.
Proof.
  intros [Hv Ht Hl Hd _ _ Hb] Hp Hn Hw. unfold substr. unfold u64_modulus in *. rewrite Hl.
  destruct (Z.eqb_spec len 0) as [->|Hlen]; [lia|]. destruct (Z.leb_spec (zlen l) pos); [lia|]. simpl orb. cbv iota.
  rewrite add64_wraps by (unfold u64_modulus; lia). unfold u64_modulus.
  rewrite Z.min_l by lia. rewrite sub64_wraps by (unfold u64_modulus; lia). unfold u64_modulus, max_size.
  by match goal with |- context [?a <? ?b] => destruct (Z.ltb_spec a b) as [|]; [|lia] end.
Qed.

Lemma substr_spec v s l pos len : repr v s l -> 0 <= pos -> 0 <= len -> pos + len < u64_modulus ->
  substr pos len s = Ok (zslice l pos len).
Proof.
  intros [Hv Ht Hl Hd _ _ Hb] Hp Hn Hpl. unfold substr. unfold u64_modulus in *. rewrite Hl.
  destruct (Z.eqb_spec len 0) as [->|Hlen]; [done|]. destruct (Z.leb_spec (zlen l) pos); simpl orb; cbv iota.
  { unfold zslice. rewrite drop_ge by lia. by rewrite take_nil. }
  rewrite add64_small by lia. rewrite sub64_small by lia.
  destruct (Z.ltb_spec max_size (Z.min (pos + len) (zlen l) - pos)) as [Hmax|_]; [unfold max_size in Hmax; lia|].
  destruct (seek_spec s pos (m_pieces s) 0 Hv) as (c & p & qs & -> & H1 & H2 & H3 & H4);
    [lia|rewrite Ht; lia|rewrite Ht; unfold u64_modulus; lia|].
  rewrite Ht, Z.sub_0_r in H4. rewrite sub64_small by lia.
  assert (zlen (text s (p :: qs)) = zlen l - c) as Hz by (rewrite H4, length_drop; lia).
  rewrite substr_loop_spec; try done; try lia; [|unfold u64_modulus; lia].
  rewrite H4, app_nil_l. f_equal. unfold zslice. rewrite drop_drop.
  replace (Z.to_nat c + Z.to_nat (pos - c))%nat with (Z.to_nat pos) by lia.
  destruct (Z.le_gt_cases (pos + len) (zlen l)).
  - f_equal. lia.
  - rewrite !take_ge; [done|rewrite length_drop; lia..].
Qed.

Lemma appendPieces_spec s ps : forall out, Forall (valid s) ps ->
  appendPieces ps out s = Ok (out ++ text s ps).
Proof.
  induction ps as [|p ps IH]; intros out Hv; [by rewrite app_nil_r|].
  apply Forall_cons_1 in Hv as [Hp Hv]. cbn [appendPieces]. rewrite pieceBytes_all, IH by done.
  by rewrite text_cons, app_assoc.
Qed.

Lemma substr_answer v s l pos len : repr v s l -> 0 <= pos < u64_modulus -> 0 <= len < u64_modulus ->
  substr pos len s =
    if (pos + len <? u64_modulus) || (zlen l <=? pos) then Ok (zslice l pos len) else Err length_error.
Proof.
  intros Hr Hp Hn. destruct (Z.ltb_spec (pos + len) u64_modulus); [eapply substr_spec; eauto; lia|].
  destruct (Z.leb_spec (zlen l) pos); [|eapply substr_wraps; [exact Hr|lia..]].
  unfold substr. rewrite (r_total _ _ _ Hr). destruct (Z.leb_spec (zlen l) pos); [|lia]. rewrite orb_true_r.
  unfold zslice. simpl. rewrite drop_ge by lia. by rewrite take_nil.
Qed.

Lemma toPlainText_spec v s l : repr v s l -> toPlainText s = Ok l.
Proof.
  intros [Hv Ht Hl _ _ _ _]. unfold toPlainText. rewrite Hl. destruct (Z.eqb_spec (zlen l) 0).
  { destruct l; [done|simpl in *; lia]. }
  destruct (unedited s) eqn:E; [|by rewrite appendPieces_spec, Ht].
  unfold unedited in E. destruct (m_pieces s) as [|[[] st len nl] [|q qs]]; try done.
  apply andb_true_iff in E as [E Em]. apply andb_true_iff in E as [E1 E2]. simpl in *.
  apply Z.eqb_eq in E1, E2. apply negb_true_iff in Em. subst st len.
  apply Forall_cons_1 in Hv as [[? ? ? ? Hs Ho] _]. simpl in *.
  specialize (Hs eq_refl). specialize (Ho eq_refl Em). rewrite Ho in *. rewrite <-Ht. unfold text. simpl.
  rewrite app_nil_r. unfold textOf. simpl. rewrite Ho. by rewrite zslice_all by lia.
Qed.

Lemma equals_loop_spec s x ps : forall pos, Forall (valid s) ps -> 0 <= pos ->
  zlen x = pos + zlen (text s ps) -> zlen x < u64_modulus ->
  equals_loop x pos ps s = Ok (bool_decide (text s ps = drop (Z.to_nat pos) x)).
Proof.
  unfold u64_modulus. induction ps as [|p ps IH]; intros pos Hv Hp Hx Hb.
  { simpl in Hx. cbn [equals_loop]. rewrite drop_ge by lia. by rewrite bool_decide_true. }
  apply Forall_cons_1 in Hv as [Hp1 Hv]. rewrite zlen_text_cons in * by done.
  pose proof (v_length _ _ Hp1). pose proof (zlen_textOf s p Hp1) as Hz. cbn [equals_loop].
  rewrite pieceBytes_all, bytesAt_ok, add64_small by (done || lia).
  assert (drop (Z.to_nat pos) x = zslice x pos (p_length p) ++ drop (Z.to_nat (pos + p_length p)) x) as Hdx.
  { unfold zslice. rewrite <-(take_drop (Z.to_nat (p_length p)) (drop (Z.to_nat pos) x)) at 1.
    f_equal. rewrite drop_drop. f_equal. lia. }
  pose proof (zlen_zslice x pos (p_length p) ltac:(lia) ltac:(lia) ltac:(lia)).
  rewrite text_cons, Hdx. destruct (decide (textOf s p = zslice x pos (p_length p))) as [E|E].
  - rewrite IH by (done || lia). f_equal. rewrite E. apply bool_decide_ext. split; [by intros ->|].
    intros Happ. by apply app_inv_head in Happ.
  - rewrite bool_decide_false; [done|]. intros Happ. apply app_inj_1 in Happ as [? _]; [done|lia].
Qed.

Lemma equals_spec v s l x : repr v s l -> equals x s = Ok (bool_decide (l = x)).
Proof.
  intros [Hv Ht Hl Hd _ _ Hb]. unfold equals. rewrite Hl. destruct (Z.eqb_spec (zlen x) (zlen l)) as [E|E].
  - cbn [negb]. rewrite equals_loop_spec by (rewrite ?Ht; unfold u64_modulus; done || lia). by rewrite Ht, drop_0.
  - cbn [negb]. rewrite bool_decide_false; [done|]. by intros ->.
Qed.

Lemma endsWith_spec v s l x : repr v s l ->
  endsWith x s = Ok (bool_decide (x `suffix_of` l)).
Proof.
  intros Hr. pose proof Hr as [_ _ Hl Hd _ _ Hb]. unfold endsWith. rewrite Hl.
  destruct (Z.ltb_spec (zlen l) (zlen x)) as [H|H].
  { rewrite bool_decide_false; [done|]. intros [before ->]. rewrite zlen_app in H. lia. }
  rewrite sub64_small by lia. rewrite (substr_spec v s l) by (done || unfold u64_modulus; lia).
  f_equal. apply bool_decide_ext. split.
  - intros E. exists (take (Z.to_nat (zlen l - zlen x)) l). rewrite <-E at 2. unfold zslice.
    rewrite (take_ge (drop _ _)) by (rewrite length_drop; lia). by rewrite take_drop.
  - intros [before ->]. rewrite zlen_app. rewrite zslice_app_r by lia.
    replace (zlen before + zlen x - zlen x - zlen before) with 0 by lia. by apply zslice_all.
Qed.
(** *** Queries about lines *)

(** The lines of a text, without the newlines that end them. *)
Fixpoint lines (l : list byte) : list (list byte) :=
  match l with
  | [] => [[]]
  | c :: rest =>
      if decide (is_newline c) then [] :: lines rest
      else match lines rest with first :: others => (c :: first) :: others | [] => [[c]] end
  end.

Lemma starts_cons c l :
  starts (c :: l) = 0 :: map (fun o => o + 1) (if decide (is_newline c) then starts l else starts_after 0 l).
Proof.
  unfold starts. cbn [starts_after]. rewrite (starts_after_shift 1 0).
  by destruct (decide (is_newline c)).
Qed.

Lemma lines_nonempty l : lines l <> [].
Proof.
  destruct l as [|c l]; simpl; [done|]. destruct (decide (is_newline c)); [done|]. by destruct (lines l).
Qed.

(** Line [i] stands at its start, and ends at a newline or at the end. *)
Definition line_at (l : list byte) (i : nat) : Prop :=
  match lines l !! i, starts l !! i with
  | Some line, Some o =>
      0 <= o /\ o + zlen line <= zlen l /\ zslice l o (zlen line) = line /\
      match starts l !! S i with
      | Some o' => o' = o + zlen line + 1 /\ l !! Z.to_nat (o + zlen line) = Some newline
      | None => o + zlen line = zlen l
      end
  | None, None => True
  | _, _ => False
  end.

Lemma zslice_cons {A} (c : A) l o n : 0 <= o -> zslice (c :: l) (o + 1) n = zslice l o n.
Proof. intros. unfold zslice. by replace (Z.to_nat (o + 1)) with (S (Z.to_nat o)) by lia. Qed.

(** The same line one byte further. *)
Lemma line_shift c (l : list byte) (line : list byte) o (next : option Z) :
  0 <= o /\ o + zlen line <= zlen l /\ zslice l o (zlen line) = line /\
    match next with
    | Some o' => o' = o + zlen line + 1 /\ l !! Z.to_nat (o + zlen line) = Some newline
    | None => o + zlen line = zlen l
    end ->
  0 <= o + 1 /\ o + 1 + zlen line <= zlen (c :: l) /\ zslice (c :: l) (o + 1) (zlen line) = line /\
    match (fun o => o + 1) <$> next with
    | Some o' => o' = o + 1 + zlen line + 1 /\ (c :: l) !! Z.to_nat (o + 1 + zlen line) = Some newline
    | None => o + 1 + zlen line = zlen (c :: l)
    end.
Proof.
  intros (H1 & H2 & H3 & H4). rewrite zslice_cons by done. simpl length.
  split_and!; [lia|lia|done|]. destruct next as [o'|]; simpl in *; [|lia]. destruct H4 as [-> H4].
  split; [lia|]. replace (Z.to_nat (o + 1 + zlen line)) with (S (Z.to_nat (o + zlen line))) by lia. done.
Qed.

Lemma lines_spec l : forall i, line_at l i.
Proof.
  unfold line_at. induction l as [|c l IH]; intros i.
  { destruct i; simpl; [by split_and!|done]. }
  rewrite starts_cons. cbn [lines]. destruct (decide (is_newline c)) as [Hc|Hc].
  - destruct i as [|i].
    + simpl. split_and!; try lia; [done|by rewrite Hc].
    + cbn [lookup list_lookup]. change (list_lookup ?x ?y) with (y !! x).
      rewrite !(list_lookup_fmap (fun o => o + 1)). specialize (IH i).
      destruct (lines l !! i) as [line|], (starts l !! i) as [o|]; try done.
      by apply line_shift.
  - pose proof (lines_nonempty l). destruct (lines l) as [|first others]; [done|].
    destruct i as [|i].
    + specialize (IH 0%nat). simpl in IH. destruct IH as (_ & H2 & H3 & H4).
      cbn [lookup list_lookup]. change (list_lookup ?x ?y) with (y !! x).
      rewrite (list_lookup_fmap (fun o => o + 1)). rewrite zslice_from_0 in *. simpl length.
      split_and!; [lia|lia| |].
      * replace (Z.to_nat (Z.of_nat (S (length first)))) with (S (length first)) by lia. simpl. f_equal.
        by rewrite Nat2Z.id in H3.
      * destruct (starts_after 0 l !! 0%nat) as [o'|]; simpl in *; [|lia].
        destruct H4 as [-> H4]. split; [lia|].
        by replace (Z.to_nat (0 + Z.of_nat (S (length first)))) with (S (Z.to_nat (zlen first))) by lia.
    + specialize (IH (S i)). cbn [lookup list_lookup starts] in *.
      change (list_lookup ?x ?y) with (y !! x) in *. rewrite !(list_lookup_fmap (fun o => o + 1)).
      destruct (others !! i) as [line|], (starts_after 0 l !! i) as [o|]; try done.
      by apply line_shift.
Qed.

Lemma length_lines l : zlen (lines l) = newlines l + 1.
Proof.
  rewrite <-zlen_starts. f_equal. apply Nat.le_antisymm; apply Nat.le_ngt; intros Hlt.
  - pose proof (lines_spec l (length (starts l))) as H. unfold line_at in H.
    rewrite (lookup_ge_None_2 (starts l)) in H by lia.
    destruct (lines l !! length (starts l)) eqn:E; [done|]. apply lookup_ge_None_1 in E. lia.
  - pose proof (lines_spec l (length (lines l))) as H. unfold line_at in H.
    rewrite (lookup_ge_None_2 (lines l)) in H by lia.
    destruct (starts l !! length (lines l)) eqn:E; [done|]. apply lookup_ge_None_1 in E. lia.
Qed.

Lemma countUpTo_loop_spec s clamped ps : forall c n, Forall (valid s) ps -> Forall (counted s) ps ->
  0 <= c <= clamped -> c + zlen (text s ps) < u64_modulus ->
  countUpTo_loop clamped c n ps s = Ok (n + newlines (take (Z.to_nat (clamped - c)) (text s ps))).
Proof.
  unfold u64_modulus. induction ps as [|p ps IH]; intros c n Hv Hc Hcl Hb.
  { change (text s []) with (@nil byte). rewrite take_nil. simpl. f_equal. unfold newlines. simpl. lia. }
  apply Forall_cons_1 in Hv as [Hp Hv]. apply Forall_cons_1 in Hc as [Hpc Hc].
  rewrite zlen_text_cons in Hb by done. pose proof (v_length _ _ Hp). pose proof (zlen_textOf s p Hp).
  cbn [countUpTo_loop]. rewrite add64_small by lia. rewrite text_cons.
  destruct (Z.leb_spec (c + p_length p) clamped) as [Hle|Hgt].
  - rewrite IH by (done || lia). f_equal. rewrite Hpc. rewrite take_app_ge, newlines_app by lia.
    rewrite <-Z.add_assoc. do 3 f_equal. f_equal. lia.
  - rewrite sub64_small by lia. rewrite pieceBytes_ok by (done || lia). rewrite zslice_from_0.
    rewrite scanLines_spec by (rewrite ?length_take; unfold u64_modulus; lia).
    rewrite length_map, starts_after_length, take_app_le by lia. done.
Qed.

Lemma scanFor_spec k bytes : forall seen at_, seen < k -> 0 <= at_ -> at_ + zlen bytes < u64_modulus ->
  scanFor k seen at_ bytes =
    match starts_after at_ bytes !! Z.to_nat (k - seen - 1) with
    | Some o => inl o
    | None => inr (seen + newlines bytes)
    end.
Proof.
  unfold u64_modulus. induction bytes as [|c bytes IH]; intros seen at_ Hk Ha Hb.
  { simpl. f_equal. unfold newlines. simpl. lia. }
  simpl length in Hb. cbn [scanFor starts_after]. rewrite add64_small by lia.
  unfold newlines in *. rewrite list.filter_cons.
  destruct (decide (is_newline c)) as [Hc|Hc]; unfold is_newline in Hc;
    [rewrite decide_True by done|rewrite decide_False by done].
  - destruct (Z.eqb_spec (seen + 1) k) as [<-|Hne].
    + by replace (Z.to_nat (seen + 1 - seen - 1)) with 0%nat by lia.
    + rewrite IH by lia. replace (Z.to_nat (k - seen - 1)) with (S (Z.to_nat (k - (seen + 1) - 1))) by lia.
      cbn [lookup list_lookup]. change (list_lookup ?x ?y) with (y !! x).
      destruct (starts_after (at_ + 1) bytes !! _); [done|]. f_equal. simpl. lia.
  - rewrite IH by lia. by destruct (starts_after (at_ + 1) bytes !! _).
Qed.

Lemma lineStart_loop_spec s k ps : forall seen c, Forall (valid s) ps -> Forall (counted s) ps ->
  0 <= c -> seen < k -> c + zlen (text s ps) < u64_modulus ->
  lineStart_loop k seen c ps s =
    Ok (default (m_totalLength s) (starts_after c (text s ps) !! Z.to_nat (k - seen - 1))).
Proof.
  unfold u64_modulus. induction ps as [|p ps IH]; intros seen c Hv Hc H0 Hk Hb; [done|].
  apply Forall_cons_1 in Hv as [Hp Hv]. apply Forall_cons_1 in Hc as [Hpc Hc].
  rewrite zlen_text_cons in Hb by done. pose proof (v_length _ _ Hp). pose proof (zlen_textOf s p Hp).
  pose proof (starts_after_length c (textOf s p)) as Hl. pose proof (newlines_range (textOf s p)).
  cbn [lineStart_loop]. rewrite pieceBytes_all, add64_small by (done || lia).
  unfold counted in Hpc. rewrite text_cons, starts_after_app, !Hpc. rewrite zlen_textOf by done.
  assert (newlines (textOf s p) + seen < k ->
    Ok (default (m_totalLength s) (starts_after (c + p_length p) (text s ps) !! Z.to_nat (k - (seen + newlines (textOf s p)) - 1)))
    = Ok (default (m_totalLength s) ((starts_after c (textOf s p) ++ starts_after (c + p_length p) (text s ps)) !! Z.to_nat (k - seen - 1)))) as Hskip.
  { intros Hlt. rewrite lookup_app_r by lia. do 3 f_equal. lia. }
  destruct (Z.ltb_spec (seen + newlines (textOf s p)) k) as [Hlt|Hge].
  - rewrite IH by (done || lia). apply Hskip. lia.
  - rewrite scanFor_spec by (unfold u64_modulus; lia).
    destruct (starts_after c (textOf s p) !! Z.to_nat (k - seen - 1)) as [o|] eqn:E.
    + by rewrite (lookup_app_l_Some _ _ _ _ E).
    + apply lookup_ge_None_1 in E. lia.
Qed.
Lemma lineForOffset_spec v s l pos : repr v s l -> exact s l -> zlen l < int_max -> 0 <= pos ->
  lineForOffset pos s = Ok (newlines (take (Z.to_nat pos) l)).
Proof.
  intros [Hv Ht Hl Hd _ _ Hb] [Hc Hn Hi] Hs Hp. unfold lineForOffset.
  assert (take (Z.to_nat (Z.min pos (zlen l))) l = take (Z.to_nat pos) l) as Htake.
  { destruct (Z.le_gt_cases pos (zlen l)); [by rewrite Z.min_l|].
    rewrite Z.min_r by lia. rewrite !take_ge by lia. done. }
  destruct (m_lineIndexReady s && negb (bool_decide (m_lineIndex s = []))) eqn:E.
  - apply andb_true_iff in E as [Er _]. specialize (Hi Er).
    assert (lineForOffsetFromIndex_ pos s = lineForOffsetFromIndex_ (Z.min pos (zlen l)) s) as ->.
    { unfold lineForOffsetFromIndex_. by rewrite Hl, <-Z.min_assoc, Z.min_id. }
    set (k := Z.min pos (zlen l)) in *.
    assert (zlen (take (Z.to_nat k) l) = k) as Hk by (rewrite length_take; lia).
    rewrite <-Hk at 1. rewrite (index_at s _ (drop (Z.to_nat k) l)); rewrite ?take_drop; try done; [by rewrite Htake|lia].
  - unfold lineForOffsetFromPieces_. rewrite Hl.
    rewrite countUpTo_loop_spec by (rewrite ?Ht; unfold u64_modulus; done || lia).
    by rewrite Ht, Z.sub_0_r, Htake.
Qed.

Lemma lineStart_spec v s l i : repr v s l -> exact s l -> zlen l < int_max -> 0 <= i ->
  lineStart i s = Ok (default (zlen l) (starts l !! Z.to_nat i)).
Proof.
  intros [Hv Ht Hl Hd _ _ Hb] [Hc Hn Hi] Hs Hp. unfold lineStart.
  destruct (Z.leb_spec i 0); [by replace (Z.to_nat i) with 0%nat by lia|].
  destruct (m_lineIndexReady s) eqn:Er.
  - rewrite Hi by done. rewrite length_map. pose proof (zlen_starts l) as Hz. pose proof (newlines_range l).
    unfold int_max in *. rewrite to_int_small by lia. rewrite (list_lookup_fmap mkLine).
    destruct (Z.ltb_spec i (zlen (starts l))) as [Hlt|Hge].
    + by destruct (lookup_lt_is_Some_2 (starts l) (Z.to_nat i)) as [o ->]; [lia|].
    + by rewrite lookup_ge_None_2, Hl by lia.
  - unfold lineStartFromPieces_. destruct (Z.leb_spec i 0); [lia|].
    rewrite lineStart_loop_spec by (rewrite ?Ht; unfold u64_modulus; done || lia). rewrite Ht, Hl.
    replace (Z.to_nat i) with (S (Z.to_nat (i - 0 - 1))) by lia. done.
Qed.

Lemma lines_plain l : Forall (fun line => newline ∉ line) (lines l).
Proof.
  induction l as [|c l IH]; cbn [lines]; [constructor; [apply not_elem_of_nil|constructor]|].
  destruct (decide (is_newline c)) as [Hc|Hc]; [constructor; [apply not_elem_of_nil|done]|].
  assert (forall line, newline ∉ line -> newline ∉ c :: line) as Hcons.
  { intros line Hl. rewrite not_elem_of_cons. split; [intros E; by apply Hc|done]. }
  pose proof (lines_nonempty l). destruct (lines l) as [|first others]; [done|].
  apply Forall_cons_1 in IH as [H1 H2]. constructor; [by apply Hcons|done].
Qed.

Lemma lineLength_last l line o c : newline ∉ line -> zslice l o (zlen line) = line -> 0 <= o ->
  o + zlen line = zlen l -> o < zlen l -> l !! Z.to_nat (zlen l - 1) = Some c -> c <> newline.
Proof.
  intros Hn Hz Ho He Hlt Hc ->. apply Hn. rewrite <-Hz. apply (list_elem_of_lookup_2 _ (Z.to_nat (zlen line - 1))).
  rewrite lookup_zslice by lia. rewrite <-Hc. f_equal. lia.
Qed.

Lemma lineLength_spec v s l i : repr v s l -> exact s l -> zlen l < int_max -> 0 <= i ->
  lineLength i s = Ok (zlen (default [] (lines l !! Z.to_nat i))).
Proof.
  intros Hr Hx Hs Hp. pose proof Hr as [Hv Ht Hl Hd _ _ Hb]. unfold lineLength.
  rewrite !(lineStart_spec v s l) by (done || lia). pose proof (lines_spec l (Z.to_nat i)) as H.
  unfold line_at in H. replace (Z.to_nat (i + 1)) with (S (Z.to_nat i)) by lia. rewrite Hl.
  destruct (lines l !! Z.to_nat i) as [line|] eqn:El, (starts l !! Z.to_nat i) as [o|] eqn:E; try done.
  2: { rewrite (lookup_ge_None_2 (starts l)) by (apply lookup_ge_None_1 in E; lia). simpl.
       rewrite Z.leb_refl, sub64_small by lia. f_equal. lia. }
  destruct H as (H1 & H2 & H3 & H4). cbn [default from_option id].
  destruct (starts l !! S (Z.to_nat i)) as [o'|]; cbn [default from_option id].
  - destruct H4 as [-> H4]. destruct (Z.leb_spec (o + zlen line + 1) o); [lia|].
    pose proof (lookup_lt_Some _ _ _ H4). 
    rewrite (sub64_small _ o), (sub64_small _ 1), (sub64_small _ 1) by lia.
    destruct (Z.ltb_spec 0 (o + zlen line + 1 - o)), (Z.leb_spec (o + zlen line + 1) (zlen l)); try lia.
    cbn [andb]. rewrite (charAt_spec v s l) by (done || lia).
    replace (o + zlen line + 1 - 1) with (o + zlen line) by lia. rewrite H4. cbn [default from_option id].
    rewrite decide_True by done. f_equal. lia.
  - destruct (Z.leb_spec (zlen l) o); [rewrite sub64_small by lia; f_equal; lia|].
    rewrite (sub64_small _ o), Z.leb_refl, andb_true_r by lia.
    destruct (Z.ltb_spec 0 (zlen l - o)); [|lia]. rewrite (sub64_small (zlen l)) by lia. rewrite (charAt_spec v s l) by (done || lia).
    destruct (lookup_lt_is_Some_2 l (Z.to_nat (zlen l - 1))) as [c Hc]; [lia|]. rewrite Hc.
    rewrite decide_False; [f_equal; lia|]. simpl.
    pose proof (lines_plain l) as Hpl. rewrite Forall_lookup in Hpl. by eapply lineLength_last; eauto.
Qed.

Lemma lineContent_spec v s l i : repr v s l -> exact s l -> zlen l < int_max -> 0 <= i ->
  lineContent i s = Ok (default [] (lines l !! Z.to_nat i)).
Proof.
  intros Hr Hx Hs Hp. pose proof Hr as [Hv Ht Hl Hd _ _ Hb]. unfold lineContent.
  rewrite (lineStart_spec v s l), (lineLength_spec v s l), Hl by done.
  pose proof (lines_spec l (Z.to_nat i)) as H. unfold line_at in H.
  destruct (lines l !! Z.to_nat i) as [line|] eqn:El, (starts l !! Z.to_nat i) as [o|] eqn:E; try done;
    cbn [default from_option id].
  2: { by rewrite Z.leb_refl. }
  destruct H as (H1 & H2 & H3 & H4). destruct ((zlen line =? 0) && (zlen l <=? o)) eqn:Ez.
  - apply andb_true_iff in Ez as [Ez _]. apply Z.eqb_eq in Ez. destruct line; [done|simpl in Ez; lia].
  - rewrite (substr_spec v s l) by (done || unfold u64_modulus; lia). by rewrite H3.
Qed.

Lemma lineCount_spec v s l : repr v s l -> exact s l -> zlen l < int_max -> lineCount s = zlen (lines l).
Proof.
  intros Hr [_ Hn Hi] Hs. unfold lineCount. rewrite length_lines. pose proof (newlines_range l).
  destruct (m_lineIndexReady s) eqn:Er; [|by rewrite Hn].
  rewrite Hi, length_map by done. pose proof (zlen_starts l). unfold int_max in *.
  rewrite to_int_small by lia. done.
Qed.

(** *** Histories *)

Inductive op :=
| SetText (x : list byte) | SetMappedFile (file : option (list byte)) | ScanLines
| Insert (pos : Z) (x : list byte) | Remove (pos len : Z).

Definition apply (o : op) : M t unit :=
  match o with
  | SetText x => setText x
  | SetMappedFile file => setMappedFile file;; mret tt
  | ScanLines => SwPieceTableLineIndexBuilder.run_
  | Insert pos x => insert pos x
  | Remove pos len => remove pos len
  end.

Fixpoint run (ops : list op) : M t unit :=
  match ops with
  | [] => mret tt
  | o :: rest => apply o;; run rest
  end.

(** What the document is, and whether its line counts can be trusted: those of
    a mapped file are there once it is scanned, if no edit came before, and a scan
    keeps the counts it finds when the text is still the original. *)
Inductive Lines := Exact | Unscanned | Untrusted.

Record Document := mkDocument { d_text : list byte; d_source : Source; d_lines : Lines }.

Definition new_document : Document := mkDocument [] (Text []) Exact.

Definition edited (ln : Lines) : Lines := match ln with Exact => Exact | _ => Untrusted end.

Definition scanned (d : Document) : Lines :=
  match d_lines d with
  | Unscanned => Exact
  | Exact => if decide (source_bytes (d_source d) = Some (d_text d)) then Exact else Untrusted
  | Untrusted => Untrusted
  end.

(** A [remove] whose end wraps around in [std::size_t] removes nothing. *)
Definition meaning (o : op) (d : Document) : Document :=
  match o with
  | SetText x => mkDocument x (Text x) Exact
  | SetMappedFile (Some (c :: x)) => mkDocument (c :: x) (File (c :: x)) Unscanned
  | SetMappedFile _ => mkDocument [] (unmapped (d_source d)) Exact
  | ScanLines => mkDocument (d_text d) (d_source d) (scanned d)
  | Insert pos x => mkDocument (inserted pos x (d_text d)) (d_source d) (edited (d_lines d))
  | Remove pos len =>
      if pos + len <? u64_modulus
      then mkDocument (removed pos len (d_text d)) (d_source d) (edited (d_lines d)) else d
  end.

Definition document (ops : list op) : Document := fold_left (fun d o => meaning o d) ops new_document.

(** Positions and lengths are of type [std::size_t]; no scan follows the pointer a
    failed mapping leaves to the text it cleared. *)
Definition op_ok (d : Document) (o : op) : Prop :=
  match o with
  | Insert pos _ => 0 <= pos < u64_modulus
  | Remove pos len => 0 <= pos < u64_modulus /\ 0 <= len < u64_modulus
  | ScanLines => d_source d <> Cleared
  | _ => True
  end.

Fixpoint history_ok (d : Document) (ops : list op) : Prop :=
  match ops with
  | [] => True
  | o :: rest => op_ok d o /\ history_ok (meaning o d) rest
  end.

(** The text handed to the table. *)
Definition volume_of (o : op) : Z :=
  match o with
  | SetText x | SetMappedFile (Some x) | Insert _ x => zlen x
  | _ => 0
  end.

Definition volume (ops : list op) : Z := fold_right (fun o n => volume_of o + n) 0 ops.

Definition invariant (v : Z) (s : t) (d : Document) : Prop :=
  repr v s (d_text d) /\ original v s (d_source d) /\
  match d_lines d with
  | Exact => exact s (d_text d)
  | Unscanned => unscanned s (d_text d) /\ source_bytes (d_source d) = Some (d_text d)
  | Untrusted => True
  end.

Lemma invariant_edit v v' s s' d l' : invariant v s d -> v <= v' -> repr v' s' l' -> same_original s s' ->
  (exact s (d_text d) -> exact s' l') -> invariant v' s' (mkDocument l' (d_source d) (edited (d_lines d))).
Proof.
  intros (_ & Ho & Hi) Hv Hr' Hso Hx. split_and!; [done|by eapply original_keeps|]. cbn [d_lines d_text].
  destruct (d_lines d); simpl; [by apply Hx|done..].
Qed.

Lemma volume_of_nonneg o : 0 <= volume_of o.
Proof. destruct o as [|[]| | |]; simpl; lia. Qed.

Lemma mapping_meaning v s d file : invariant v s d -> v + zlen (default [] file) < int_max ->
  exists s', apply (SetMappedFile file) s = (Ok tt, s') /\
    invariant (v + zlen (default [] file)) s' (meaning (SetMappedFile file) d).
Proof.
  intros (Hr & Ho & _) Hv. pose proof (r_doc _ _ _ Hr). unfold int_max in *.
  assert (original (v + 0) s (d_source d)) as Ho' by (by rewrite Z.add_0_r).
  destruct file as [[|c x]|]; simpl in Hv; cbn [apply default from_option id].
  - destruct (setMappedFile_fails (v + 0) s (Some []) (d_source d)) as (s' & Hs & ? & ? & ?); [lia|auto|done|].
    exists s'. m_run. rewrite Hs. by split_and!.
  - destruct (setMappedFile_maps (v + zlen (c :: x)) s (c :: x)) as (s' & Hs & ? & ? & ?); [lia|simpl in *; lia|done|].
    exists s'. m_run. rewrite Hs. by split_and!.
  - destruct (setMappedFile_fails (v + 0) s None (d_source d)) as (s' & Hs & ? & ? & ?); [lia|auto|done|].
    exists s'. m_run. rewrite Hs. by split_and!.
Qed.

Lemma scan_meaning v s d : invariant v s d -> d_source d <> Cleared ->
  exists s', apply ScanLines s = (Ok tt, s') /\ invariant v s' (meaning ScanLines d).
Proof.
  intros (Hr & Ho & Hl) Hsrc.
  assert (exists b, source_bytes (d_source d) = Some b) as [b Hb] by (destruct (d_source d); by eauto).
  destruct (run_spec v s (d_text d) (d_source d) b Hr Ho Hb) as (s' & Hs & Hr' & Ho' & Hx).
  exists s'. split; [done|]. split_and!; [done|done|]. cbn [meaning d_lines d_text]. unfold scanned.
  destruct (d_lines d); [|destruct Hl as [Hu Hsb]; apply Hx; [congruence|by left]|done].
  case_decide as E; [|done]. apply Hx; [congruence|by right].
Qed.

Lemma apply_meaning v s d o : invariant v s d -> op_ok d o -> v + volume_of o < int_max ->
  exists s', apply o s = (Ok tt, s') /\ invariant (v + volume_of o) s' (meaning o d).
Proof.
  intros Hi Hok Hv. pose proof Hi as (Hr & _ & _). pose proof (r_doc _ _ _ Hr). pose proof (volume_of_nonneg o).
  unfold int_max in *. destruct o as [x|file| |pos x|pos len]; cbn [op_ok volume_of] in *.
  - destruct (setText_spec (v + zlen x) s x) as (s' & Hs & Hr' & Hx' & Ho'); [lia|lia|]. exists s'. by split_and!.
  - replace (match file with Some x => zlen x | None => 0 end) with (zlen (default [] file)) in * by (by destruct file).
    by apply mapping_meaning.
  - rewrite Z.add_0_r. by apply scan_meaning.
  - destruct (insert_spec v s (d_text d) pos x Hr) as (s' & Hs & Hr' & Hso & Hx); [lia|lia|].
    exists s'. split; [done|]. eapply invariant_edit; try done; [lia|]. intros He. apply Hx; [done|unfold int_max; lia].
  - destruct Hok as [Hp Hn]. rewrite Z.add_0_r. cbn [apply meaning]. destruct (Z.ltb_spec (pos + len) u64_modulus).
    + destruct (remove_spec v s (d_text d) pos len Hr) as (s' & Hs & Hr' & Hso & Hx); [lia..|].
      exists s'. split; [done|]. eapply invariant_edit; try done. intros He. apply Hx; [done|unfold int_max; lia].
    + exists s. by rewrite remove_wraps.
Qed.

Lemma table_volume_nonneg ops : 0 <= volume ops.
Proof. induction ops as [|o ops IH]; simpl; [lia|]. pose proof (volume_of_nonneg o). lia. Qed.

Lemma run_document ops : forall v s d, invariant v s d -> history_ok d ops -> v + volume ops < int_max ->
  exists s', run ops s = (Ok tt, s') /\ invariant (v + volume ops) s' (fold_left (fun d o => meaning o d) ops d).
Proof.
  induction ops as [|o ops IH]; intros v s d Hi Hok Hv.
  { exists s. simpl. by rewrite Z.add_0_r. }
  destruct Hok as [Ho Hok]. simpl in Hv. pose proof (table_volume_nonneg ops).
  destruct (apply_meaning v s d o Hi Ho) as (s1 & H1 & Hi1); [lia|].
  destruct (IH _ s1 _ Hi1 Hok) as (s' & H2 & Hi'); [lia|].
  exists s'. cbn [run]. m_run. rewrite H1. split; [done|]. simpl. by rewrite Z.add_assoc.
Qed.

Lemma empty_invariant : invariant 0 empty new_document.
Proof.
  split_and!; [split; try done; simpl; lia| |by split]. split; [done|]. by intros b [= <-].
Qed.

Lemma run_empty ops : history_ok new_document ops -> volume ops < int_max ->
  exists s, run ops empty = (Ok tt, s) /\ invariant (volume ops) s (document ops).
Proof. intros Hok Hv. destruct (run_document ops 0 empty _ empty_invariant Hok) as (s & H1 & H2); [done|by exists s]. Qed.

(** C39: whatever the history of edits, the piece table holds the text a flat
    buffer would: each edit succeeds, without a read outside the buffers, and every
    query about the text answers as the flat text does. A history sets a text, maps
    a file or fails to, scans lines, inserts and removes, at any positions and
    lengths of std::size_t, with less than 2^31 - 1 bytes handed to the table in
    all and a scan taken as one step; no scan is run after a mapping failed over a text the table owned, until
    another content is set (such a scan reads through a stale pointer). In the flat buffer, as in
    the code, a remove whose pos + length wraps around 2^64 removes nothing, a
    failed mapping leaves the empty text, and a substr that starts inside the text
    and whose end wraps around throws std::length_error; any other substr is the
    slice. *)
Theorem piece_table_is_text ops :
  history_ok new_document ops -> volume ops < int_max ->
  exists s, run ops empty = (Ok tt, s) /\
    let l := d_text (document ops) in
    totalLength s = zlen l /\ isEmpty s = (zlen l =? 0) /\ toPlainText s = Ok l /\
    (forall pos, 0 <= pos -> charAt pos s = Ok (default x00 (l !! Z.to_nat pos))) /\
    (forall pos len, 0 <= pos < u64_modulus -> 0 <= len < u64_modulus ->
       substr pos len s = if (pos + len <? u64_modulus) || (zlen l <=? pos) then Ok (zslice l pos len)
                          else Err length_error) /\
    (forall x, equals x s = Ok (bool_decide (l = x)) /\ endsWith x s = Ok (bool_decide (x `suffix_of` l))).
Proof.
  intros Hok Hv. destruct (run_empty ops Hok Hv) as (s & Hs & Hr & _). exists s. split; [done|].
  pose proof (r_total _ _ _ Hr) as Ht. unfold totalLength, isEmpty. rewrite Ht.
  split_and!; [done|done|by eapply toPlainText_spec|intros; by eapply charAt_spec|intros; by eapply substr_answer|].
  intros x. split; [by eapply equals_spec|by eapply endsWith_spec].
Qed.

Definition example_history : list op :=
  [SetMappedFile (Some [x61; x0a; x62; x63; x0a]); ScanLines; Insert 3 [x64; x0a; x65]; Remove 1 2; Insert 99 [x66; x0a];
   Remove 0 1; Remove 2 (2 ^ 64 - 1)].

Lemma piece_table_is_text_witness :
  exists s, run example_history empty = (Ok tt, s) /\
    let l := d_text (document example_history) in
    totalLength s = zlen l /\ isEmpty s = (zlen l =? 0) /\ toPlainText s = Ok l /\
    (forall pos, 0 <= pos -> charAt pos s = Ok (default x00 (l !! Z.to_nat pos))) /\
    (forall pos len, 0 <= pos < u64_modulus -> 0 <= len < u64_modulus ->
       substr pos len s = if (pos + len <? u64_modulus) || (zlen l <=? pos) then Ok (zslice l pos len)
                          else Err length_error) /\
    (forall x, equals x s = Ok (bool_decide (l = x)) /\ endsWith x s = Ok (bool_decide (x `suffix_of` l))).
Proof. apply piece_table_is_text; [by_eval|by_eval]. Defined.

(** C40: every question about lines, answered from the incrementally updated index
    or from the newline counts of the pieces, is answered as by splitting the flat
    text at its newlines: the number of lines, the line of a position, and the
    start, length and content of each line below INT_MAX. It holds for the
    histories of the piece table's refinement (any positions and lengths of
    std::size_t, a wrapping remove removing nothing; less than 2^31 - 1 bytes in
    all; no scan of a text a failed mapping cleared) whose line counts can be
    trusted at the end: that is unless, since the content was last set, a mapped
    file has not been scanned, or was edited before its scan, or a scan was run
    when the text was no longer the original one. *)
Theorem line_queries_exact ops :
  history_ok new_document ops -> volume ops < int_max -> d_lines (document ops) = Exact ->
  exists s, run ops empty = (Ok tt, s) /\
    let l := d_text (document ops) in
    lineCount s = zlen (lines l) /\
    (forall pos, 0 <= pos -> lineForOffset pos s = Ok (newlines (take (Z.to_nat pos) l))) /\
    (forall i, 0 <= i < int_max ->
       lineStart i s = Ok (default (zlen l) (starts l !! Z.to_nat i)) /\
       lineLength i s = Ok (zlen (default [] (lines l !! Z.to_nat i))) /\
       lineContent i s = Ok (default [] (lines l !! Z.to_nat i))).
Proof.
  intros Hok Hv Hex. destruct (run_empty ops Hok Hv) as (s & Hs & Hr & Hx). exists s. split; [done|].
  destruct Hx as [_ Hx]. rewrite Hex in Hx. pose proof (r_doc _ _ _ Hr). set (l := d_text (document ops)) in *.
  assert (zlen l < int_max) by lia.
  split_and!; [by eapply lineCount_spec|intros; by eapply lineForOffset_spec|].
  intros i [Hi _]. split_and!; [by eapply lineStart_spec|by eapply lineLength_spec|by eapply lineContent_spec].
Qed.

Lemma line_queries_exact_witness :
  exists s, run example_history empty = (Ok tt, s) /\
    let l := d_text (document example_history) in
    lineCount s = zlen (lines l) /\
    (forall pos, 0 <= pos -> lineForOffset pos s = Ok (newlines (take (Z.to_nat pos) l))) /\
    (forall i, 0 <= i < int_max ->
       lineStart i s = Ok (default (zlen l) (starts l !! Z.to_nat i)) /\
       lineLength i s = Ok (zlen (default [] (lines l !! Z.to_nat i))) /\
       lineContent i s = Ok (default [] (lines l !! Z.to_nat i))).
Proof. apply line_queries_exact; [by_eval|by_eval|reflexivity]. Defined.

(** Edited before its scan, a mapped file keeps the lines of the original: here
    the scan finds two, where the text has three. *)
Example edited_before_scan :
  let ops := [SetMappedFile (Some [x61; x0a; x62]); Insert 0 [x78; x0a]; ScanLines] in
  lineCount (run ops empty).2 = 2 /\ zlen (lines (d_text (document ops))) = 3.
Proof. by_eval. Qed.

(** Removed up to the end, as it is usually said, the text stays whole. *)
Example remove_to_the_end :
  let s := (run [SetText [x61; x62; x63]; Remove 1 (2 ^ 64 - 1)] empty).2 in
  toPlainText s = Ok [x61; x62; x63] /\ substr 1 (2 ^ 64 - 1) s = Err length_error.
Proof. by_eval. Qed.

(** The scan that follows a failed mapping reads the text the table cleared. *)
Example scan_of_cleared_text :
  (run [SetText [x61; x62; x63]; SetMappedFile None; ScanLines] empty).1 = Err ub.
Proof. by_eval. Qed.

End PieceTableSpec.
