(* ===== verification/SwString.v ===== *)
(** [SwString] (src/src/core/types/SwString.h): the byte-string operations the HTTP
    code uses.  A string is the list of its bytes; [int] results are the code's. *)
From Stdlib Require Import ZArith Lia Strings.Byte.
From stdpp Require Import base list strings numbers.
From S2P Require Import Prelude.

(** The bytes of a literal. *)
Definition str (s : string) : list byte := String.list_byte_of_string s.

Module SwString.

Abbreviation t := (list byte).

Definition size (s : t) : Z := zlen s.

Definition isEmpty (s : t) : bool := match s with [] => true | _ => false end.

Definition eqb (a b : t) : bool := bool_decide (a = b).

Fixpoint hasPrefix (prefix s : t) : bool :=
  match prefix, s with
  | [], _ => true
  | p :: prefix', c :: s' => if decide (p = c) then hasPrefix prefix' s' else false
  | _, [] => false
  end.

Definition startsWith (prefix s : t) : bool := hasPrefix prefix s.

(** [std::string::find(sub)]: where [sub] first stands. *)
Fixpoint find (sub s : t) : option Z :=
  if hasPrefix sub s then Some 0
  else match s with [] => None | _ :: s' => Z.succ <$> find sub s' end.

(** [std::string::find(sub, pos)], for [pos] within the string. *)
Definition findFrom (sub : t) (pos : Z) (s : t) : option Z :=
  (fun i => pos + i) <$> find sub (drop (Z.to_nat pos) s).

Definition indexOf (sub : t) (startIndex : Z) (s : t) : Z :=
  if size s <=? startIndex then -1
  else match findFrom sub startIndex s with Some i => to_int i | None => -1 end.

Definition containsChar (c : byte) (s : t) : bool := bool_decide (c ∈ s).

Definition contains (sub s : t) : bool := match find sub s with Some _ => true | None => false end.

Definition mid (pos len : Z) (s : t) : t :=
  if (pos <? 0) || (to_int (size s) <=? pos) then []
  else
    let len := if (len <? 0) || (to_int (size s) <? pos + len) then to_int (size s) - pos else len in
    zslice s pos len.

(** [mid(pos)]. *)
Definition midFrom (pos : Z) (s : t) : t := mid pos (-1) s.

Definition left (n : Z) (s : t) : t := zslice s 0 (if n <? 0 then 0 else n).

Definition isBlank (c : byte) : bool := bool_decide (c ∈ [x20; x09; x0a; x0d]).

Fixpoint dropBlanks (s : t) : t :=
  match s with
  | c :: s' => if isBlank c then dropBlanks s' else s
  | [] => []
  end.

Definition trimmed (s : t) : t := reverse (dropBlanks (reverse (dropBlanks s))).

(** [std::tolower] and [std::toupper] in the "C" locale. *)
Definition lower (c : byte) : byte :=
  let v := b2z c in if (65 <=? v) && (v <=? 90) then z2b (v + 32) else c.

Definition upper (c : byte) : byte :=
  let v := b2z c in if (97 <=? v) && (v <=? 122) then z2b (v - 32) else c.

Definition toLower (s : t) : t := map lower s.

Definition toUpper (s : t) : t := map upper s.

(** [split(char)]: [part] is what stands between the last delimiter and here;
    a last part is kept only when it is not empty. *)
Fixpoint split_loop (delimiter : byte) (part s : t) : list t :=
  match s with
  | [] => if isEmpty part then [] else [part]
  | c :: s' =>
      if decide (c = delimiter) then part :: split_loop delimiter [] s'
      else split_loop delimiter (part ++ [c]) s'
  end.

Definition split (delimiter : byte) (s : t) : list t := split_loop delimiter [] s.

(** [replace(oldSub, newSub)], [oldSub] not empty. *)
Fixpoint replace_loop (fuel : nat) (oldSub newSub s : t) : t :=
  match fuel with
  | O => s
  | S fuel' =>
      match find oldSub s with
      | None => s
      | Some i =>
          take (Z.to_nat i) s ++ newSub ++
          replace_loop fuel' oldSub newSub (drop (Z.to_nat i + length oldSub) s)
      end
  end.

Definition replace (oldSub newSub s : t) : t := replace_loop (length s) oldSub newSub s.

(** The C string [c_str()] stands for: what is before the first NUL. *)
Fixpoint beforeNul (s : t) : t :=
  match s with
  | c :: s' => if decide (c = x00) then [] else c :: beforeNul s'
  | [] => []
  end.

(** [operator<]: [std::string] compares bytes, as unsigned numbers. *)
Fixpoint before (a b : list byte) : bool :=
  match a, b with
  | x :: a', y :: b' => if b2z x <? b2z y then true else if b2z y <? b2z x then false else before a' b'
  | [], _ :: _ => true
  | _, [] => false
  end.

(** ** Facts *)

(** *** The order *)

Lemma before_irrefl a : before a a = false.
Proof. induction a as [|x a IH]; [done|]. simpl. by rewrite Z.ltb_irrefl. Qed.

Lemma before_trans a b c : before a b = true -> before b c = true -> before a c = true.
Proof.
  revert b c. induction a as [|x a IH]; intros [|y b] [|z c]; simpl; try done.
  destruct (Z.ltb_spec (b2z x) (b2z y)), (Z.ltb_spec (b2z y) (b2z z)), (Z.ltb_spec (b2z x) (b2z z)); try done; try lia;
    repeat (case_match; zbool; try done; try lia); eauto.
Qed.

Lemma before_total a b : before a b = false -> before b a = false -> a = b.
Proof.
  revert b. induction a as [|x a IH]; intros [|y b]; simpl; try done.
  destruct (Z.ltb_spec (b2z x) (b2z y)), (Z.ltb_spec (b2z y) (b2z x)); try done; try lia.
  intros H1 H2. f_equal; [apply b2z_inj; lia|by apply IH].
Qed.

(** *** Searches *)

Lemma hasPrefix_spec p s : hasPrefix p s = true <-> exists rest, s = p ++ rest.
Proof.
  revert s. induction p as [|c p IH]; intros s; simpl.
  - split; [by exists s|done].
  - destruct s as [|d s]; [split; [done|by intros [rest ?]]|]. destruct (decide (c = d)) as [->|Hne].
    + rewrite IH. split; intros [rest H]; exists rest; congruence.
    + split; [done|]. intros [rest H]. congruence.
Qed.

Lemma find_Some sub s i : find sub s = Some i ->
  0 <= i /\ i + zlen sub <= zlen s /\ s = take (Z.to_nat i) s ++ sub ++ drop (Z.to_nat i + length sub) s.
Proof.
  revert i. induction s as [|c s IH]; intros i; cbn [find].
  - destruct (hasPrefix sub []) eqn:E; [|done]. intros [= <-]. apply hasPrefix_spec in E as [rest E].
    symmetry in E. apply app_nil in E as [-> ->]. split_and!; done.
  - destruct (hasPrefix sub (c :: s)) eqn:E.
    + intros [= <-]. apply hasPrefix_spec in E as [rest E]. rewrite E. simpl.
      rewrite drop_app_length, length_app. split_and!; [lia|lia|done].
    + intros H. apply fmap_Some in H as (j & Hj & ->). apply IH in Hj as (H1 & H2 & H3).
      replace (Z.to_nat (Z.succ j)) with (S (Z.to_nat j)) by lia. simpl. split_and!; [lia|lia|congruence].
Qed.

Lemma find_first sub before s : (forall k, 0 <= k < zlen before -> hasPrefix sub (drop (Z.to_nat k) (before ++ s)) = false) ->
  hasPrefix sub s = true -> find sub (before ++ s) = Some (zlen before).
Proof.
  induction before as [|c before IH]; intros Hn Hp.
  - simpl. destruct s; cbn [find]; by rewrite Hp.
  - cbn [app find]. specialize (Hn 0 ltac:(simpl; lia)) as H0. simpl in H0. rewrite H0.
    rewrite IH; [simpl; f_equal; lia| |done]. intros k Hk. specialize (Hn (k + 1) ltac:(simpl; lia)).
    by replace (Z.to_nat (k + 1)) with (S (Z.to_nat k)) in Hn by lia.
Qed.

Lemma find_occurs sub before s : is_Some (find sub (before ++ sub ++ s)).
Proof.
  induction before as [|c before IH]; cbn [app].
  - assert (hasPrefix sub (sub ++ s) = true) as H by (apply hasPrefix_spec; by exists s).
    destruct (sub ++ s); cbn [find]; by rewrite H.
  - cbn [find]. destruct (hasPrefix _ _); [done|]. destruct IH as [i ->]. by eexists.
Qed.

(** More text after what was found does not change where it was found. *)
Lemma find_app sub s more i : find sub s = Some i -> find sub (s ++ more) = Some i.
Proof.
  revert i. induction s as [|c s IH]; intros i; cbn [find].
  - destruct (hasPrefix sub []) eqn:E; [|done]. intros [= <-]. apply hasPrefix_spec in E as [rest E].
    symmetry in E. apply app_nil in E as [-> ->]. by destruct more.
  - destruct (hasPrefix sub (c :: s)) eqn:E.
    + intros [= <-]. cbn [app find]. apply hasPrefix_spec in E as [rest E].
      assert (hasPrefix sub (c :: s ++ more) = true) as ->; [|done].
      apply hasPrefix_spec. exists (rest ++ more). by rewrite app_comm_cons, E, app_assoc.
    + intros H. apply fmap_Some in H as (j & Hj & ->). cbn [app find]. rewrite (IH j Hj).
      apply find_Some in Hj as (Hj0 & Hj & _). destruct (hasPrefix sub (c :: s ++ more)) eqn:E2; [|done].
      apply hasPrefix_spec in E2 as [rest E2]. exfalso. apply not_true_iff_false in E. apply E.
      apply hasPrefix_spec. exists (drop (length sub) (c :: s)).
      assert (take (length sub) (c :: s) = sub) as Ht.
      { rewrite <-(take_app_le (c :: s) more) by (simpl; lia). cbn [app]. rewrite E2. apply take_app_length. }
      rewrite <-Ht at 1. by rewrite take_drop.
Qed.

(** *** Slices *)

Lemma midFrom_drop pos s : 0 <= pos -> zlen s < 2147483648 -> midFrom pos s = drop (Z.to_nat pos) s.
Proof.
  intros Hp Hs. unfold midFrom, mid, size. rewrite to_int_small by lia. destruct (Z.ltb_spec pos 0); [lia|]. cbn [orb].
  destruct (Z.leb_spec (zlen s) pos); [by rewrite drop_ge by lia|]. cbn. unfold zslice. apply take_ge. rewrite length_drop. lia.
Qed.

Lemma left_app a b : left (zlen a) (a ++ b) = a.
Proof. unfold left. destruct (Z.ltb_spec (zlen a) 0); [lia|]. by rewrite zslice_from_0, Nat2Z.id, take_app_length. Qed.

(** Where a character first stands. *)
Lemma find_char c a b : c ∉ a -> find [c] (a ++ c :: b) = Some (zlen a).
Proof.
  intros Hc. apply find_first; [|simpl; by destruct (decide (c = c))]. intros k Hk.
  destruct (hasPrefix _ _) eqn:E; [|done]. apply hasPrefix_spec in E as [rest E]. exfalso. apply Hc.
  rewrite drop_app_le in E by lia. destruct (drop (Z.to_nat k) a) as [|d e] eqn:Ed.
  - apply (f_equal length) in Ed. rewrite length_drop in Ed. simpl in Ed. lia.
  - injection E as -> _. rewrite <-(take_drop (Z.to_nat k) a), Ed, elem_of_app. right. by left.
Qed.

Lemma indexOf_char_from c a b d : c ∉ b -> zlen a + zlen b < 2147483648 -> indexOf [c] (zlen a) (a ++ b ++ c :: d) = zlen a + zlen b.
Proof.
  intros Hc Hs. unfold indexOf, size, findFrom. rewrite !zlen_app. destruct (Z.leb_spec (zlen a + (zlen b + zlen (c :: d))) (zlen a)); [simpl in *; lia|].
  rewrite Nat2Z.id, drop_app_length, find_char by done. cbn [fmap option_fmap option_map]. by rewrite to_int_small by lia.
Qed.

Lemma indexOf_char c a b : c ∉ a -> zlen a < 2147483648 -> indexOf [c] 0 (a ++ c :: b) = zlen a.
Proof. apply (indexOf_char_from c []). Qed.

Lemma indexOf_absent c from s : c ∉ s -> indexOf [c] from s = -1.
Proof.
  intros Hc. unfold indexOf, findFrom. destruct (_ <=? _); [done|]. destruct (find [c] _) as [i|] eqn:E; [|done].
  apply find_Some in E as (_ & _ & E). exfalso. apply Hc. rewrite <-(take_drop (Z.to_nat from) s), E, !elem_of_app. right. right. by do 2 left.
Qed.

Lemma mid_app a b c : b <> [] -> zlen (a ++ b ++ c) < 2147483648 -> mid (zlen a) (zlen b) (a ++ b ++ c) = b.
Proof.
  intros Hb Hs. unfold mid, size. rewrite to_int_small by lia. rewrite !zlen_app in *. assert (0 < zlen b) by (destruct b; [done|simpl; lia]).
  destruct (Z.ltb_spec (zlen a) 0); [lia|]. destruct (Z.leb_spec (zlen a + (zlen b + zlen c)) (zlen a)); [lia|]. cbn [orb].
  destruct (Z.ltb_spec (zlen b) 0); [lia|]. destruct (Z.ltb_spec (zlen a + (zlen b + zlen c)) (zlen a + zlen b)); [lia|]. cbn [orb].
  unfold zslice. by rewrite !Nat2Z.id, drop_app_length, take_app_length.
Qed.

(** Without blanks there is nothing to trim. *)
Lemma trimmed_id s : Forall (fun c => isBlank c = false) s -> trimmed s = s.
Proof.
  assert (forall s, Forall (fun c => isBlank c = false) s -> dropBlanks s = s) as H by (intros l []; [done|]; cbn [dropBlanks]; by rewrite H).
  intros Hs. unfold trimmed. rewrite (H s) by done. rewrite H by (by apply Forall_reverse). apply reverse_involutive.
Qed.

End SwString.
