(* ===== verification/ByteMap.v ===== *)
(** [std::map] keyed by bytes: SwMap<SwString, T>, std::map<SwByteArray, T> and
    std::map<SwString, T>, an association list in the order of its keys. *)
From Stdlib Require Import ZArith Lia Strings.Byte Sorting.
From stdpp Require Import base list strings numbers.
From S2P Require Import Prelude SwString.

Import SwString.

Module ByteMap.

Definition t (A : Type) : Type := list (list byte * A).

(** [find], which is also what reads [m\[key\]] of a key that is there. *)
Fixpoint find {A} (key : list byte) (m : t A) : option A :=
  match m with
  | (k, v) :: m' => if decide (k = key) then Some v else find key m'
  | [] => None
  end.

(** [m\[key\] = v], and [insert] and [emplace] of a key that is not there. *)
Fixpoint insert {A} (key : list byte) (v : A) (m : t A) : t A :=
  match m with
  | (k, w) :: m' =>
      if before key k then (key, v) :: m
      else if before k key then (k, w) :: insert key v m'
      else (k, v) :: m'
  | [] => [(key, v)]
  end.

Fixpoint remove {A} (key : list byte) (m : t A) : t A :=
  match m with
  | (k, w) :: m' => if decide (k = key) then m' else (k, w) :: remove key m'
  | [] => []
  end.

(** What is from [lower_bound(key)] to the end. *)
Fixpoint lowerBound {A} (key : list byte) (m : t A) : t A :=
  match m with
  | (k, w) :: m' => if before k key then lowerBound key m' else m
  | [] => []
  end.

Definition isEmpty {A} (m : t A) : bool := match m with [] => true | _ => false end.

Definition keys {A} (m : t A) : list (list byte) := map fst m.

(** ** Facts *)

Definition key_order {A} (e f : list byte * A) : Prop := before e.1 f.1 = true.

Definition wf {A} (m : t A) : Prop := StronglySorted key_order m.

Section Lemmas.

Context {A : Type}.
Implicit Types (m : t A) (k : list byte) (v : A).

Lemma before_eq a b : before a b = true -> a <> b.
Proof. intros H ->. by rewrite before_irrefl in H. Qed.

Lemma before_asym a b : before a b = true -> before b a = false.
Proof. intros H. destruct (before b a) eqn:E; [|done]. pose proof (before_trans _ _ _ H E) as F. by rewrite before_irrefl in F. Qed.

Lemma wf_nil : wf ([] : t A).
Proof. constructor. Qed.

Lemma wf_tail e m : wf (e :: m) -> wf m.
Proof. by inversion 1. Qed.

Lemma wf_head e m f : wf (e :: m) -> f ∈ m -> before e.1 f.1 = true.
Proof. intros W Hf. inversion W as [|? ? _ Hall]; subst. rewrite list.Forall_forall in Hall. by apply Hall. Qed.

Lemma find_elem m k v : find k m = Some v -> (k, v) ∈ m.
Proof.
  induction m as [|[k0 v0] m IH]; simpl; [done|]. case_decide as E; [intros [= ->]; subst; left|].
  intros H. right. auto.
Qed.

Lemma elem_find m k v : wf m -> (k, v) ∈ m -> find k m = Some v.
Proof.
  induction m as [|[k0 v0] m IH]; intros W; [by intros ?%elem_of_nil|].
  intros [[= -> ->]|Hin]%elem_of_cons; simpl; [by rewrite decide_True|].
  pose proof (wf_head _ _ _ W Hin) as Hb. apply before_eq in Hb. simpl in Hb. rewrite decide_False by done.
  apply IH; [by eapply wf_tail|done].
Qed.

Lemma find_keys m k : is_Some (find k m) <-> k ∈ keys m.
Proof.
  induction m as [|[k0 v0] m IH]; simpl; [split; [by intros [? ?]|by intros ?%elem_of_nil]|].
  rewrite elem_of_cons. case_decide; [subst; split; [by left|by eexists]|]. rewrite IH. split; [by right|intros [->|?]; done].
Qed.

Lemma find_after_insert m k k' v : find k' (insert k v m) = if decide (k = k') then Some v else find k' m.
Proof.
  induction m as [|[k0 w] m IH]; simpl; [done|].
  destruct (before k k0) eqn:E1; [done|]. destruct (before k0 k) eqn:E2; simpl.
  - rewrite IH. pose proof (before_eq _ _ E2). repeat case_decide; congruence.
  - pose proof (before_total _ _ E1 E2) as ->. by repeat case_decide.
Qed.

Lemma insert_elem m k v e : e ∈ insert k v m -> e = (k, v) \/ e ∈ m.
Proof.
  induction m as [|[k0 w] m IH]; simpl; [intros ?%list_elem_of_singleton; auto|].
  destruct (before k k0) eqn:E1; [by intros [->|H]%elem_of_cons; auto|].
  destruct (before k0 k) eqn:E2; intros [->|H]%elem_of_cons; rewrite ?elem_of_cons; auto.
  - destruct (IH H); auto.
  - pose proof (before_total _ _ E1 E2) as ->. auto.
Qed.

Lemma wf_insert m k v : wf m -> wf (insert k v m).
Proof.
  induction m as [|[k0 w] m IH]; intros W; simpl; [repeat constructor|].
  inversion W as [|? ? W' Hall]; subst. destruct (before k k0) eqn:E1; [|destruct (before k0 k) eqn:E2].
  - constructor; [done|]. constructor; [done|]. rewrite list.Forall_forall in *. intros e He.
    unfold key_order in *. eapply before_trans; [exact E1|by apply Hall].
  - constructor; [by apply IH|]. rewrite list.Forall_forall in *. intros e [->|He]%insert_elem; [done|auto].
  - pose proof (before_total _ _ E1 E2) as ->. by constructor.
Qed.

Lemma remove_sublist m k : remove k m `sublist_of` m.
Proof. induction m as [|[k0 w] m IH]; simpl; [done|]. case_decide; [by constructor|by constructor]. Qed.

Lemma wf_sublist m m' : m' `sublist_of` m -> wf m -> wf m'.
Proof.
  induction 1 as [|e m' m Hs IH|e m' m Hs IH]; intros W; [done| |apply IH; by eapply wf_tail].
  inversion W as [|? ? W' Hall]; subst. constructor; [by apply IH|]. rewrite list.Forall_forall in *.
  intros f Hf. apply Hall. by eapply elem_of_sublist.
Qed.

Lemma wf_remove m k : wf m -> wf (remove k m).
Proof. apply wf_sublist, remove_sublist. Qed.

Lemma find_after_remove m k k' : wf m -> find k' (remove k m) = if decide (k = k') then None else find k' m.
Proof.
  induction m as [|[k0 w] m IH]; intros W; simpl; [by case_decide|]. pose proof (wf_tail _ _ W) as W'.
  destruct (decide (k0 = k)) as [->|N]; simpl.
  - destruct (decide (k = k')) as [<-|]; [|done]. destruct (find k m) as [v|] eqn:E; [|done].
    apply find_elem in E. pose proof (wf_head _ _ _ W E) as Hb. simpl in Hb. by rewrite before_irrefl in Hb.
  - rewrite IH by done. repeat case_decide; congruence.
Qed.

Lemma wf_ext m m' : wf m -> wf m' -> (forall k, find k m = find k m') -> m = m'.
Proof.
  revert m'. induction m as [|[k v] m IH]; intros [|[k' v'] m'] W W' He; [done| | |].
  - specialize (He k'). simpl in He. by rewrite decide_True in He.
  - specialize (He k). simpl in He. by rewrite decide_True in He.
  - assert (k = k') as ->.
    { destruct (decide (k = k')) as [|N]; [done|]. pose proof (He k) as H1. pose proof (He k') as H2. simpl in H1, H2.
      rewrite decide_True, decide_False in H1 by congruence. rewrite decide_False, decide_True in H2 by congruence.
      symmetry in H1. apply find_elem in H1, H2. pose proof (wf_head _ _ _ W' H1) as B1. pose proof (wf_head _ _ _ W H2) as B2.
      simpl in B1, B2. rewrite (before_asym _ _ B1) in B2. done. }
    pose proof (He k') as H1. simpl in H1. rewrite !decide_True in H1 by done. injection H1 as ->. f_equal.
    apply IH; [by eapply wf_tail..|]. intros k. specialize (He k). simpl in He. case_decide; [subst|done].
    destruct (find k m) eqn:E1; [apply find_elem in E1; pose proof (wf_head _ _ _ W E1) as B; simpl in B; by rewrite before_irrefl in B|].
    destruct (find k m') eqn:E2; [apply find_elem in E2; pose proof (wf_head _ _ _ W' E2) as B; simpl in B; by rewrite before_irrefl in B|done].
Qed.

Lemma insert_at_end m k v : Forall (fun e => before e.1 k = true) m -> insert k v m = m ++ [(k, v)].
Proof.
  induction 1 as [|[k0 w] m Hb _ IH]; [done|]. simpl in *. by rewrite (before_asym _ _ Hb), Hb, IH.
Qed.

Lemma wf_before acc k v m : wf (acc ++ (k, v) :: m) -> Forall (fun e => before e.1 k = true) acc.
Proof.
  intros W. apply list.Forall_forall. intros e He. induction acc as [|e' acc IH]; [by apply elem_of_nil in He|].
  apply elem_of_cons in He as [->|He]; [|apply IH; [by eapply wf_tail|done]].
  eapply (wf_head _ _ (k, v) W). apply elem_of_app. right. left.
Qed.

(** Building a map from its entries, in order. *)
Lemma insert_all m acc : wf (acc ++ m) -> fold_left (fun acc e => insert e.1 e.2 acc) m acc = acc ++ m.
Proof.
  revert acc. induction m as [|[k v] m IH]; intros acc W; simpl; [by rewrite app_nil_r|].
  rewrite insert_at_end by (by eapply wf_before). rewrite IH; by rewrite <- app_assoc.
Qed.

Lemma lowerBound_spec m k : wf m -> lowerBound k m = List.filter (fun e => negb (before e.1 k)) m.
Proof.
  induction m as [|[k0 w] m IH]; intros W; [done|]. pose proof (wf_tail _ _ W) as W'. simpl.
  destruct (before k0 k) eqn:E; [by apply IH|]. simpl. f_equal. rewrite <- IH by done.
  destruct m as [|[k1 w1] m]; [done|]. simpl. destruct (before k1 k) eqn:E1; [|done].
  pose proof (wf_head _ _ (k1, w1) W ltac:(left)) as Hb. simpl in Hb. by rewrite (before_trans _ _ _ Hb E1) in E.
Qed.

Lemma wf_filter (p : list byte * A -> bool) m : wf m -> wf (List.filter p m).
Proof.
  apply wf_sublist. induction m as [|e m IH]; simpl; [done|]. by destruct (p e); constructor.
Qed.

End Lemmas.

(** *** Values put through a function *)

Section Values.

Context {A B : Type} (f : A -> B).

Definition mapValues (m : t A) : t B := map (fun e => (e.1, f e.2)) m.

Lemma find_mapValues k m : find k (mapValues m) = f <$> find k m.
Proof. induction m as [|[k0 v] m IH]; simpl; [done|]. by case_decide. Qed.

Lemma insert_mapValues k v m : mapValues (insert k v m) = insert k (f v) (mapValues m).
Proof. induction m as [|[k0 w] m IH]; simpl; [done|]. destruct (before k k0), (before k0 k); simpl; by rewrite ?IH. Qed.

Lemma remove_mapValues k m : mapValues (remove k m) = remove k (mapValues m).
Proof. induction m as [|[k0 w] m IH]; simpl; [done|]. case_decide; simpl; by rewrite ?IH. Qed.

Lemma wf_mapValues m : wf m -> wf (mapValues m).
Proof.
  induction 1 as [|e m Hm IH Hall]; [constructor|]. constructor; [done|].
  apply list.Forall_forall. rewrite list.Forall_forall in Hall. intros g Hg. apply list_elem_of_In, in_map_iff in Hg as (h & <- & Hh). apply list_elem_of_In in Hh. by apply Hall.
Qed.

Lemma filter_mapValues (p : list byte -> bool) m :
  List.filter (fun e => p e.1) (mapValues m) = mapValues (List.filter (fun e => p e.1) m).
Proof. induction m as [|e m IH]; simpl; [done|]. destruct (p e.1); simpl; by rewrite IH. Qed.

End Values.

End ByteMap.
