(* ===== verification/Crypto.v ===== *)
(** SwCrypto (src/src/core/types/SwCrypto.h): Base64, and AES in ECB mode with PKCS#7
    padding over OpenSSL, which is the class [EVP].  An exception is an error. *)
From Stdlib Require Import ZArith Lia Strings.Byte.
From stdpp Require Import base list strings numbers.
From S2P Require Import Prelude SwString.

(** OpenSSL: [EVP_sha256], and the AES of the size of the key in ECB mode without
    padding; [None] when a call does not answer 1. *)
Class EVP := {
  EVP_sha256 : list byte -> option (list byte);
  EVP_aes_ecb_encrypt : list byte -> list byte -> option (list byte);
  EVP_aes_ecb_decrypt : list byte -> list byte -> option (list byte)
}.

(** SHA-256 answers 32 bytes.  AES-256 turns whole blocks into as many bytes, of which
    the same key makes the blocks again; a length is an [int]. *)
Class EVPLaws (E : EVP) : Prop := {
  sha256_answers input : exists hash, EVP_sha256 input = Some hash /\ zlen hash = 32;
  aes_ecb_inverse key input : zlen key = 32 -> zlen input mod 16 = 0 -> zlen input < 2147483648 ->
    exists output, EVP_aes_ecb_encrypt key input = Some output /\ zlen output = zlen input /\
      EVP_aes_ecb_decrypt key output = Some input
}.

Module SwCrypto.

(** ** Base64 *)

Definition base64Chars : list byte := str "ABCDEFGHIJKLMNOPQRSTUVWXYZabcdefghijklmnopqrstuvwxyz0123456789+/".

Definition base64Char (i : Z) : byte := nth (Z.to_nat i) base64Chars x00.

(** [while (valb >= 0)]: what is pushed, and [valb]; at most two turns for a byte. *)
Fixpoint emit (fuel : nat) (val valb : Z) : list byte * Z :=
  match fuel with
  | O => ([], valb)
  | S fuel' =>
      if 0 <=? valb then
        let (pushed, valb') := emit fuel' val (valb - 6) in
        (base64Char (Z.land (Z.shiftr val valb) 0x3F) :: pushed, valb')
      else ([], valb)
  end.

(** The loop over the bytes, and the last character. *)
Fixpoint base64Encode_loop (val valb : Z) (data : list byte) : list byte :=
  match data with
  | [] =>
      if -6 <? valb then [base64Char (Z.land (Z.shiftr (to_int (Z.shiftl val 8)) (valb + 8)) 0x3F)] else []
  | c :: data' =>
      let val := to_int (to_int (Z.shiftl val 8) + b2z c) in
      let (pushed, valb) := emit 2 val (valb + 8) in
      pushed ++ base64Encode_loop val valb data'
  end.

(** [while (encoded.size() % 4)] *)
Definition base64Padding (n : Z) : list byte := replicate (Z.to_nat ((- n) mod 4)) x3d.

Definition base64Encode (data : list byte) : list byte :=
  let encoded := base64Encode_loop 0 (-6) data in
  encoded ++ base64Padding (zlen encoded).

(** [T[c]] *)
Fixpoint indexFrom (i : Z) (chars : list byte) (c : byte) : Z :=
  match chars with
  | [] => -1
  | d :: chars' => if decide (c = d) then i else indexFrom (i + 1) chars' c
  end.

Definition base64Index (c : byte) : Z := indexFrom 0 base64Chars c.

Fixpoint base64Decode_loop (val valb : Z) (encoded : list byte) : list byte :=
  match encoded with
  | [] => []
  | c :: encoded' =>
      if base64Index c =? -1 then []
      else
        let val := to_int (to_int (Z.shiftl val 6) + base64Index c) in
        let valb := valb + 6 in
        if 0 <=? valb then z2b (Z.land (Z.shiftr val valb) 0xFF) :: base64Decode_loop val (valb - 8) encoded'
        else base64Decode_loop val valb encoded'
  end.

Definition base64Decode (encoded : list byte) : list byte := base64Decode_loop 0 (-8) encoded.

(** ** AES *)

Section AES.

Context `{E : EVP}.

Definition orThrow {A} (o : option A) (message : string) : result A :=
  match o with Some a => Ok a | None => Err message end.

Definition blockSize : Z := 16.

(** [computeHash(keyStr, SHA256)] for a key that has not 32 bytes. *)
Definition normalizeKey (key : list byte) : result (list byte) :=
  if zlen key =? 32 then Ok key else orThrow (EVP_sha256 key) "EVP digest operation failed.".

Definition padded (data : list byte) : list byte :=
  let paddingSize := blockSize - zlen data mod blockSize in
  data ++ replicate (Z.to_nat paddingSize) (z2b paddingSize).

Definition cryptAES_ECB (data key : list byte) (encrypt : bool) : result (list byte) :=
  if negb (zlen key =? 16) && negb (zlen key =? 24) && negb (zlen key =? 32) then
    Err "Invalid AES key size. Key must be 16, 24, or 32 bytes."
  else if encrypt then orThrow (EVP_aes_ecb_encrypt key (padded data)) "EVP AES encrypt failed."
  else if negb (zlen data mod blockSize =? 0) then Err "Invalid data size for AES-ECB (must be multiple of 16)."
  else orThrow (EVP_aes_ecb_decrypt key data) "EVP AES decrypt failed.".

(** Data whose end is not a padding is returned as it is. *)
Definition removePKCS7Padding (data : list byte) : result (list byte) :=
  match reverse data with
  | [] => Err "Invalid data: empty."
  | c :: _ =>
      let paddingSize := b2z c in
      if (paddingSize =? 0) || (blockSize <? paddingSize) || (zlen data <? paddingSize) then Ok data
      else
        let start := Z.to_nat (zlen data - paddingSize) in
        if forallb (fun d => b2z d =? paddingSize) (drop start data) then Ok (take start data) else Ok data
  end.

Definition encryptAES (data key : list byte) : result (list byte) :=
  validKey ← normalizeKey key;
  encrypted ← cryptAES_ECB data validKey true;
  Ok (base64Encode encrypted).

Definition decryptAES (data key : list byte) : result (list byte) :=
  validKey ← normalizeKey key;
  decrypted ← cryptAES_ECB (base64Decode data) validKey false;
  removePKCS7Padding decrypted.

End AES.

(** ** What is encoded is decoded *)

Lemma to_int_mod x n : 0 <= n <= 32 -> to_int x mod 2 ^ n = x mod 2 ^ n.
Proof.
  intros Hn. unfold to_int, wrap32. assert (2 ^ 32 = 2 ^ (32 - n) * 2 ^ n) as Hp by (rewrite <-Z.pow_add_r by lia; f_equal; lia).
  change (2 ^ 32) with 4294967296 in Hp. set (d := 2 ^ n) in *. assert (0 < d) by (apply Z.pow_pos_nonneg; lia).
  assert ((x mod 4294967296) mod d = x mod d) as E.
  { rewrite Hp, (Z.mul_comm _ d). assert (0 < 2 ^ (32 - n)) by (apply Z.pow_pos_nonneg; lia). rewrite Z.rem_mul_r by lia. by rewrite (Z.mul_comm d), Z.mod_add, Z.mod_mod by lia. }
  destruct (_ <? _); [done|]. rewrite <-E. rewrite Hp at 2. rewrite <-Z.add_opp_r, <-Z.mul_opp_l, Z.mod_add by lia. done.
Qed.

Lemma bits_of val k w : 0 <= k -> 0 <= w -> Z.land (Z.shiftr val k) (Z.ones w) = (val mod 2 ^ (k + w)) / 2 ^ k.
Proof.
  intros Hk Hw. rewrite Z.land_ones, Z.shiftr_div_pow2, Z.pow_add_r by lia.
  assert (0 < 2 ^ k) by (apply Z.pow_pos_nonneg; lia). assert (0 < 2 ^ w) by (apply Z.pow_pos_nonneg; lia). rewrite Z.rem_mul_r by lia.
  rewrite (Z.mul_comm (2 ^ k)), Z.div_add, (Z.div_small (val mod 2 ^ k)) by (try apply Z.mod_pos_bound; lia). done.
Qed.

(** [val = (val << w) + c]: the low bits, whatever the overflow of those above. *)
Lemma pushed_bits val c w k : 0 <= w -> 0 <= k -> w + k <= 32 -> 0 <= c < 2 ^ w ->
  to_int (to_int (Z.shiftl val w) + c) mod 2 ^ (w + k) = (val mod 2 ^ k) * 2 ^ w + c.
Proof.
  intros Hw Hk Hn Hc. assert (0 < 2 ^ k) by (apply Z.pow_pos_nonneg; lia). rewrite to_int_mod by lia.
  assert (0 < 2 ^ (w + k)) by (apply Z.pow_pos_nonneg; lia).
  rewrite <-Z.add_mod_idemp_l, to_int_mod, Z.add_mod_idemp_l, Z.shiftl_mul_pow2 by lia. rewrite Z.pow_add_r by lia.
  rewrite Z.rem_mul_r, (Z.add_comm _ c), Z.mod_add, (Z.mod_small c), Z.div_add, (Z.div_small c), Z.add_0_l by lia. lia.
Qed.

Ltac zdiv := Z.div_mod_to_equations; lia.

(** *** The encoding of RFC 4648 *)

Fixpoint rfc4648 (data : list byte) : list byte :=
  match data with
  | [] => []
  | [a] => [base64Char (b2z a / 4); base64Char (b2z a mod 4 * 16); x3d; x3d]
  | [a; b] => [base64Char (b2z a / 4); base64Char (b2z a mod 4 * 16 + b2z b / 16); base64Char (b2z b mod 16 * 4); x3d]
  | a :: b :: c :: rest =>
      base64Char (b2z a / 4) :: base64Char (b2z a mod 4 * 16 + b2z b / 16) ::
      base64Char (b2z b mod 16 * 4 + b2z c / 64) :: base64Char (b2z c mod 64) :: rfc4648 rest
  end.

(** In groups of three bytes. *)
Lemma threes_induction (P : list byte -> Prop) : P [] -> (forall a, P [a]) -> (forall a b, P [a; b]) ->
  (forall a b c rest, P rest -> P (a :: b :: c :: rest)) -> forall data, P data.
Proof.
  intros H0 H1 H2 H3. fix IH 1. intros [|a [|b [|c rest]]]; [done|done|done|]. apply H3, IH.
Qed.

(** A byte behind [k] pending bits. *)
Lemma next_byte val c k : 0 <= k <= 24 ->
  let v := to_int (to_int (Z.shiftl val 8) + b2z c) in
  v mod 2 ^ (8 + k) = (val mod 2 ^ k) * 256 + b2z c /\ v mod 256 = b2z c.
Proof.
  intros Hk v. pose proof (b2z_range c). split; [apply (pushed_bits val (b2z c) 8 k); lia|].
  pose proof (pushed_bits val (b2z c) 8 0 ltac:(lia) ltac:(lia) ltac:(lia) ltac:(lia)) as E0. by rewrite Z.mod_1_r in E0.
Qed.

Lemma encode_first val c data : exists v,
  base64Encode_loop val (-6) (c :: data) = base64Char (b2z c / 4) :: base64Encode_loop v (-4) data /\ v mod 4 = b2z c mod 4.
Proof.
  set (v := to_int (to_int (Z.shiftl val 8) + b2z c)). exists v. destruct (next_byte val c 0 ltac:(lia)) as [_ Hv]. fold v in Hv.
  cbn [base64Encode_loop]. fold v. change (emit 2 v (-6 + 8)) with ([base64Char (Z.land (Z.shiftr v 2) (Z.ones 6))], -4). cbn [app].
  rewrite bits_of by lia. change (2 ^ (2 + 6)) with 256. change (2 ^ 2) with 4. rewrite Hv. split; [done|]. clearbody v. zdiv.
Qed.

Lemma encode_second val c data : exists v,
  base64Encode_loop val (-4) (c :: data) = base64Char (val mod 4 * 16 + b2z c / 16) :: base64Encode_loop v (-2) data /\ v mod 16 = b2z c mod 16.
Proof.
  set (v := to_int (to_int (Z.shiftl val 8) + b2z c)). exists v. destruct (next_byte val c 2 ltac:(lia)) as [Hp Hv]. fold v in Hp, Hv.
  cbn [base64Encode_loop]. fold v. change (emit 2 v (-4 + 8)) with ([base64Char (Z.land (Z.shiftr v 4) (Z.ones 6))], -2). cbn [app].
  rewrite bits_of by lia. change (2 ^ (4 + 6)) with (2 ^ (8 + 2)). rewrite Hp. change (2 ^ 4) with 16. change (2 ^ 2) with 4.
  split; [do 2 f_equal; zdiv|]. clearbody v. zdiv.
Qed.

Lemma encode_third val c data : exists v,
  base64Encode_loop val (-2) (c :: data) = base64Char (val mod 16 * 4 + b2z c / 64) :: base64Char (b2z c mod 64) :: base64Encode_loop v (-6) data.
Proof.
  set (v := to_int (to_int (Z.shiftl val 8) + b2z c)). exists v. destruct (next_byte val c 4 ltac:(lia)) as [Hp Hv]. fold v in Hp, Hv.
  cbn [base64Encode_loop]. fold v.
  change (emit 2 v (-2 + 8)) with ([base64Char (Z.land (Z.shiftr v 6) (Z.ones 6)); base64Char (Z.land (Z.shiftr v 0) (Z.ones 6))], -6). cbn [app].
  rewrite !bits_of by lia. change (2 ^ (6 + 6)) with (2 ^ (8 + 4)). rewrite Hp. change (2 ^ 6) with 64. change (2 ^ 4) with 16. change (2 ^ (0 + 6)) with 64. change (2 ^ 0) with 1.
  clearbody v. f_equal; [f_equal; zdiv|]. do 2 f_equal. zdiv.
Qed.

Lemma encode_end val valb : valb = -4 \/ valb = -2 ->
  base64Encode_loop val valb [] = [base64Char (val mod 2 ^ (valb + 6) * 2 ^ (- valb))].
Proof.
  intros Hb. cbn [base64Encode_loop]. change 0x3F with (Z.ones 6). rewrite bits_of, to_int_mod, Z.shiftl_mul_pow2 by lia.
  destruct Hb as [-> | ->].
  - change (-4 + 8 + 6) with 10. change (-4 + 8) with 4. change (-4 + 6) with 2. change (- (-4)) with 4. simpl Z.pow. cbn [Z.ltb Z.compare]. do 2 f_equal. zdiv.
  - change (-2 + 8 + 6) with 12. change (-2 + 8) with 6. change (-2 + 6) with 4. change (- (-2)) with 2. simpl Z.pow. cbn [Z.ltb Z.compare]. do 2 f_equal. zdiv.
Qed.

Lemma rfc4648_encoded data : forall val, let e := base64Encode_loop val (-6) data in e ++ base64Padding (zlen e) = rfc4648 data.
Proof.
  induction data as [|a|a b|a b c rest IH] using threes_induction; intros val.
  - done.
  - destruct (encode_first val a []) as (v & -> & Hv). rewrite encode_end by lia. cbv zeta.
    change (2 ^ (-4 + 6)) with 4. by rewrite Hv.
  - destruct (encode_first val a [b]) as (v & -> & Hv). destruct (encode_second v b []) as (w & -> & Hw). rewrite encode_end by lia. cbv zeta.
    change (2 ^ (-2 + 6)) with 16. by rewrite Hv, Hw.
  - destruct (encode_first val a (b :: c :: rest)) as (v & -> & Hv). destruct (encode_second v b (c :: rest)) as (w & -> & Hw).
    destruct (encode_third w c rest) as (x & ->). specialize (IH x). cbv zeta in *. rewrite Hv, Hw. cbn [app rfc4648]. rewrite <-IH. do 4 f_equal.
    unfold base64Padding. do 3 f_equal. cbn [length]. zdiv.
Qed.

(** *** Decoding *)

Lemma base64Index_char i : 0 <= i < 64 -> base64Index (base64Char i) = i.
Proof.
  intros Hi. assert (forallb (fun n => base64Index (base64Char (Z.of_nat n)) =? Z.of_nat n) (seq 0 64) = true) as H by (vm_compute; reflexivity).
  rewrite forallb_forall in H. specialize (H (Z.to_nat i)). rewrite Z2Nat.id, Z.eqb_eq in H by lia. apply H, in_seq. lia.
Qed.

(** A character of six bits behind [k] pending ones. *)
Lemma decode_character val valb i encoded k : 0 <= i < 64 -> k = valb + 8 -> 0 <= k <= 6 ->
  exists v, v mod 2 ^ (6 + k) = (val mod 2 ^ k) * 64 + i /\
    base64Decode_loop val valb (base64Char i :: encoded) =
    (if 0 <=? valb + 6 then z2b ((v mod 2 ^ (6 + k)) / 2 ^ (valb + 6)) :: base64Decode_loop v (valb - 2) encoded
     else base64Decode_loop v (valb + 6) encoded).
Proof.
  intros Hi -> Hk. set (v := to_int (to_int (Z.shiftl val 6) + i)). exists v.
  split; [apply (pushed_bits val i 6 (valb + 8)); lia|]. cbn [base64Decode_loop]. rewrite base64Index_char by done.
  destruct (Z.eqb_spec i (-1)); [lia|]. fold v. change 0xFF with (Z.ones 8). destruct (Z.leb_spec 0 (valb + 6)); [|done].
  rewrite bits_of by lia. replace (valb + 6 + 8) with (6 + (valb + 8)) by lia. by replace (valb + 6 - 8) with (valb - 2) by lia.
Qed.

Lemma z2b_value z c : z = b2z c -> z2b z = c.
Proof. intros ->. apply z2b_b2z. Qed.

(** The first two characters make a byte, the next two another one each. *)
Lemma decode_first val i j encoded : 0 <= i < 64 -> 0 <= j < 64 -> exists v,
  base64Decode_loop val (-8) (base64Char i :: base64Char j :: encoded) = z2b (i * 4 + j / 16) :: base64Decode_loop v (-4) encoded /\ v mod 16 = j mod 16.
Proof.
  intros Hi Hj. destruct (decode_character val (-8) i (base64Char j :: encoded) 0 Hi) as (v & Hv & ->); [lia..|].
  change (0 <=? -8 + 6) with false. change (-8 + 6) with (-2). cbv iota. change (2 ^ (6 + 0)) with 64 in Hv. rewrite Z.mod_1_r in Hv.
  destruct (decode_character v (-2) j encoded 6 Hj) as (w & Hw & ->); [lia..|].
  change (0 <=? -2 + 6) with true. change (-2 + 6) with 4. change (-2 - 2) with (-4). change (2 ^ (6 + 6)) with 4096 in *. change (2 ^ 6) with 64 in Hw. change (2 ^ 4) with 16.
  exists w. split; [|zdiv]. do 2 f_equal. zdiv.
Qed.

Lemma decode_second val i encoded : 0 <= i < 64 -> exists v,
  base64Decode_loop val (-4) (base64Char i :: encoded) = z2b (val mod 16 * 16 + i / 4) :: base64Decode_loop v (-6) encoded /\ v mod 4 = i mod 4.
Proof.
  intros Hi. destruct (decode_character val (-4) i encoded 4 Hi) as (v & Hv & ->); [lia..|].
  change (0 <=? -4 + 6) with true. change (-4 + 6) with 2. change (-4 - 2) with (-6). change (2 ^ (6 + 4)) with 1024 in *. change (2 ^ 4) with 16 in *. change (2 ^ 2) with 4.
  exists v. split; [|zdiv]. do 2 f_equal. zdiv.
Qed.

Lemma decode_third val i encoded : 0 <= i < 64 -> exists v,
  base64Decode_loop val (-6) (base64Char i :: encoded) = z2b (val mod 4 * 64 + i) :: base64Decode_loop v (-8) encoded.
Proof.
  intros Hi. destruct (decode_character val (-6) i encoded 2 Hi) as (v & Hv & ->); [lia..|].
  change (0 <=? -6 + 6) with true. change (-6 + 6) with 0. change (-6 - 2) with (-8). change (2 ^ (6 + 2)) with 256 in *. change (2 ^ 2) with 4 in *. change (2 ^ 0) with 1.
  exists v. do 2 f_equal. zdiv.
Qed.

Lemma rfc4648_decoded data : forall val, base64Decode_loop val (-8) (rfc4648 data) = data.
Proof.
  induction data as [|a|a b|a b c rest IH] using threes_induction; intros val; [done|..]; cbn [rfc4648]; pose proof (b2z_range a) as Ha.
  - destruct (decode_first val (b2z a / 4) (b2z a mod 4 * 16) [x3d; x3d]) as (v & -> & _); [zdiv..|].
    rewrite (z2b_value _ a) by zdiv. done.
  - pose proof (b2z_range b) as Hb.
    destruct (decode_first val (b2z a / 4) (b2z a mod 4 * 16 + b2z b / 16) [base64Char (b2z b mod 16 * 4); x3d]) as (v & -> & Hv); [zdiv..|].
    destruct (decode_second v (b2z b mod 16 * 4) [x3d]) as (w & -> & _); [zdiv..|].
    rewrite (z2b_value _ a), (z2b_value _ b) by zdiv. done.
  - pose proof (b2z_range b) as Hb. pose proof (b2z_range c) as Hc.
    edestruct (decode_first val (b2z a / 4) (b2z a mod 4 * 16 + b2z b / 16)) as (v & -> & Hv); [zdiv..|].
    edestruct (decode_second v (b2z b mod 16 * 4 + b2z c / 64)) as (w & -> & Hw); [zdiv..|].
    edestruct (decode_third w (b2z c mod 64)) as (x & ->); [zdiv..|].
    rewrite (z2b_value _ a), (z2b_value _ b), (z2b_value _ c), IH by zdiv. done.
Qed.

Lemma rfc4648_length data : zlen (rfc4648 data) = 4 * ((zlen data + 2) / 3).
Proof. induction data as [|a|a b|a b c rest IH] using threes_induction; [done..|]. cbn [rfc4648 length] in *. zdiv. Qed.

Lemma base64_decoded data : base64Decode (base64Encode data) = data.
Proof. unfold base64Decode, base64Encode. rewrite rfc4648_encoded. apply rfc4648_decoded. Qed.

Lemma base64_length data : zlen (base64Encode data) = 4 * ((zlen data + 2) / 3).
Proof. unfold base64Encode. rewrite rfc4648_encoded. apply rfc4648_length. Qed.

(** Base64 is the encoding of RFC 4648 and is decoded.  Although [base64Encode] and
    [base64Decode] shift every byte into one 32-bit [int], whose upper bits overflow,
    the text is that of the RFC, four characters for every three bytes begun, and
    decoding it gives the data back, whatever its length. *)
Theorem base64_roundtrip data :
  base64Encode data = rfc4648 data /\ zlen (base64Encode data) = 4 * ((zlen data + 2) / 3) /\
  base64Decode (base64Encode data) = data.
Proof.
  split; [apply rfc4648_encoded|]. split; [apply base64_length|apply base64_decoded].
Qed.

(** ** What is encrypted is decrypted *)

Section Laws.

Context `{EL : EVPLaws}.

Lemma padded_blocks data : zlen (padded data) mod 16 = 0 /\ zlen data < zlen (padded data) <= zlen data + 16.
Proof. unfold padded, blockSize. rewrite zlen_app, length_replicate. zdiv. Qed.

Lemma removePKCS7Padding_padded data : removePKCS7Padding (padded data) = Ok data.
Proof.
  unfold padded. set (n := blockSize - zlen data mod blockSize). assert (1 <= n <= 16) as Hn by (unfold n, blockSize; zdiv).
  unfold removePKCS7Padding. destruct (Z.to_nat n) as [|k] eqn:Ek; [lia|]. rewrite replicate_S_end, app_assoc, reverse_snoc.
  rewrite <-app_assoc, <-replicate_S_end, <-Ek, b2z_z2b_small by lia. destruct (Z.eqb_spec n 0); [lia|].
  unfold blockSize. destruct (Z.ltb_spec 16 n); [lia|]. rewrite zlen_app, length_replicate. destruct (Z.ltb_spec (zlen data + Z.of_nat (Z.to_nat n)) n); [lia|].
  cbn [orb]. replace (Z.to_nat (zlen data + Z.of_nat (Z.to_nat n) - n)) with (length data) by lia. rewrite drop_app_length, take_app_length.
  assert (forallb (fun d => b2z d =? n) (replicate (Z.to_nat n) (z2b n)) = true) as ->; [|done].
  clear -Hn. induction (Z.to_nat n) as [|m IH]; [done|]. simpl. rewrite b2z_z2b_small, Z.eqb_refl by lia. exact IH.
Qed.

Lemma normalizeKey_32 key : exists k, normalizeKey key = Ok k /\ zlen k = 32.
Proof.
  unfold normalizeKey. destruct (Z.eqb_spec (zlen key) 32); [by exists key|]. destruct (sha256_answers key) as (h & -> & Hh). by exists h.
Qed.

(** The code, its size, and the text again. *)
Lemma encryptAES_inverse text key : zlen text < 2147483632 ->
  exists code, encryptAES text key = Ok code /\ zlen code = 4 * ((16 * (zlen text / 16 + 1) + 2) / 3) /\ decryptAES code key = Ok text.
Proof.
  intros Hs. unfold encryptAES, decryptAES. destruct (normalizeKey_32 key) as (k & -> & Hk). cbn [mbind result_bind].
  destruct (padded_blocks text) as [Hb Hl]. destruct (aes_ecb_inverse k (padded text) Hk Hb ltac:(lia)) as (out & He & Ho & Hd).
  unfold cryptAES_ECB. rewrite Hk. change (32 =? 32) with true. cbn [negb]. rewrite andb_false_r, He. cbn [orThrow mbind result_bind].
  exists (base64Encode out). split; [done|]. split.
  - rewrite base64_length, Ho. unfold padded, blockSize. rewrite zlen_app, length_replicate. do 3 f_equal. zdiv.
  - rewrite base64_decoded, Ho. change (zlen (padded text) mod blockSize) with (zlen (padded text) mod 16). rewrite Hb. change (negb (0 =? 0)) with false. cbv iota. rewrite Hd. cbn [orThrow mbind result_bind]. apply removePKCS7Padding_padded.
Qed.

(** C36: what [SwCrypto::encryptAES] makes of a text of less than 2^31 - 16 bytes under
    any key, [decryptAES] turns into the text again with the same key: the padding is
    always removed, whatever the text ends with, and keys of any size are accepted.
    The code is the Base64 of whole blocks, one more than the text fills. *)
Theorem aes_roundtrip text key : zlen text < 2147483632 -> exists code,
  encryptAES text key = Ok code /\ zlen code = 4 * ((16 * (zlen text / 16 + 1) + 2) / 3) /\ decryptAES code key = Ok text.
Proof. apply encryptAES_inverse. Qed.

End Laws.

(** ** A library for examples *)

(** The first byte of the key is added to every byte. *)
Definition addingEVP : EVP := {|
  EVP_sha256 input := Some (replicate 32 x2a);
  EVP_aes_ecb_encrypt key input := Some (map (fun c => z2b (b2z c + b2z (hd x00 key))) input);
  EVP_aes_ecb_decrypt key input := Some (map (fun c => z2b (b2z c - b2z (hd x00 key))) input)
|}.

#[export] Instance addingEVP_laws : EVPLaws addingEVP.
Proof.
  split.
  - intros input. by exists (replicate 32 x2a).
  - intros key input _ _ _. eexists. split; [done|]. split; [by rewrite length_map|]. cbn. f_equal. rewrite map_map.
    rewrite <-(map_id input) at 2. apply map_ext. intros c. apply b2z_inj. rewrite !b2z_z2b. pose proof (b2z_range c). zdiv.
Qed.

Lemma aes_roundtrip_witness : zlen (str "text") < 2147483632 /\ exists code,
  encryptAES (E := addingEVP) (str "text") (str "key") = Ok code /\ zlen code = 4 * ((16 * (zlen (str "text") / 16 + 1) + 2) / 3) /\
  decryptAES (E := addingEVP) code (str "key") = Ok (str "text").
Proof. split; [reflexivity|]. apply (aes_roundtrip (EL := addingEVP_laws) (str "text") (str "key")). reflexivity. Defined.

(** A key of another size than 32 bytes is hashed, one of 32 bytes is not; a code of no
    whole block is refused. *)
Example decrypt_refuses : decryptAES (E := addingEVP) (str "QUJD") (str "key") = Err "Invalid data size for AES-ECB (must be multiple of 16).".
Proof. reflexivity. Qed.

End SwCrypto.
