(* ===== verification/NumberText.v ===== *)
(** Numbers as text: SwString::number for integers, and the standard library's
    [strtoll], [strtod] and [std::ostream] with seventeen significant digits
    (src/src/core/types/SwString.h and the number literals of
    src/src/core/types/SwJsonValue.h). *)
From Stdlib Require Import ZArith Lia Strings.Byte Floats.SpecFloat.
From Stdlib Require Import QArith Qpower Lqa.
From stdpp Require Import base list strings numbers.
From S2P Require Import Prelude SwString.

Import SwString.
#[local] Open Scope Z_scope.

Module NumberText.

(** ** Integers *)

(** "0123456789abcdefghijklmnopqrstuvwxyz"[digit] *)
Definition digitCharacter (digit : Z) : byte := z2b (if digit <? 10 then 48 + digit else 87 + digit).

(** The loop pushes the digits from the right and the string is reversed after it. *)
Fixpoint numberUnsigned_loop (fuel : nat) (value base : Z) (digits : list byte) : list byte :=
  match fuel with
  | O => digits
  | S fuel' =>
      let digits := digitCharacter (value mod base) :: digits in
      let value := value / base in
      if value =? 0 then digits else numberUnsigned_loop fuel' value base digits
  end.

(** A 64-bit number has at most 64 digits. *)
Definition numberUnsignedImpl_ (value base : Z) : list byte :=
  numberUnsigned_loop 64 value (if (base <? 2) || (36 <? base) then 10 else base) [].

Definition numberSignedImpl_ (value base : Z) : list byte :=
  let negative := value <? 0 in
  let magnitude := if negative then - (value + 1) +u 1 else value in
  let out := numberUnsignedImpl_ magnitude base in
  if negative then str "-" ++ out else out.

Definition number (value : Z) : list byte := numberSignedImpl_ value 10.

(** ** Rational numbers, as fractions [p / q] of positive integers *)

(** [p / q] times [b] to the [k]. *)
Definition scale (b k : Z) (r : Z * Z) : Z * Z :=
  if 0 <=? k then (r.1 * b ^ k, r.2) else (r.1, r.2 * b ^ (- k)).

(** The nearest integer, the even one of two. *)
Definition nearest (r : Z * Z) : Z :=
  let d := r.1 / r.2 in
  let m := r.1 mod r.2 in
  match 2 * m ?= r.2 with
  | Lt => d
  | Gt => d + 1
  | Eq => if Z.even d then d else d + 1
  end.

(** The exponent of 2: the greatest [k] with 2^k <= p / q. *)
Definition log2 (r : Z * Z) : Z :=
  let l := Z.log2 r.1 - Z.log2 r.2 in
  let s := scale 2 (- l) r in
  if s.2 <=? s.1 then l else l - 1.

(** The digits before the last one. *)
Fixpoint ilog10_loop (fuel : nat) (n : Z) : Z :=
  match fuel with
  | O => 0
  | S fuel' => if n <? 10 then 0 else 1 + ilog10_loop fuel' (n / 10)
  end.

Definition ilog10 (n : Z) : Z := ilog10_loop (Z.to_nat (Z.log2 n)) n.

(** The exponent of 10: the greatest [k] with 10^k <= p / q. *)
Definition log10 (r : Z * Z) : Z :=
  if r.2 <=? r.1 then ilog10 (r.1 / r.2)
  else - (ilog10 ((r.2 + r.1 - 1) / r.1 - 1) + 1).

(** ** Text to number *)

Definition isDigit (c : byte) : bool := (48 <=? b2z c) && (b2z c <=? 57).

(** The longest prefix of characters in [p], and what follows. *)
Fixpoint span (p : byte -> bool) (s : list byte) : list byte * list byte :=
  match s with
  | c :: s' => if p c then let (a, b) := span p s' in (c :: a, b) else ([], s)
  | [] => ([], [])
  end.

Definition digitsValue (s : list byte) : Z := fold_left (fun v c => v * 10 + (b2z c - 48)) s 0.

Definition readSign (s : list byte) : bool * list byte :=
  match s with
  | c :: s' => if decide (c = x2d) then (true, s') else if decide (c = x2b) then (false, s') else (false, s)
  | [] => (false, [])
  end.

(** The double nearest to [p / q] (IEEE 754 binary64, ties to even). *)
Definition nearestDouble (s : bool) (r : Z * Z) : spec_float :=
  if r.1 =? 0 then S754_zero s
  else
    let e := Z.max (log2 r - 52) (-1074) in
    let m := nearest (scale 2 (- e) r) in
    let (m, e) := if m =? 2 ^ 53 then (2 ^ 52, e + 1) else (m, e) in
    match m with
    | Zpos m => if e <=? 971 then S754_finite s m e else S754_infinity s
    | _ => S754_zero s
    end.

(** [errno] is [ERANGE]: the value overflows, or is inexact and below the normal numbers. *)
Definition rangeError (d : spec_float) (r : Z * Z) : bool :=
  match d with
  | S754_infinity _ => true
  | S754_zero _ => negb (r.1 =? 0)
  | S754_finite _ m e => (Zpos m <? 2 ^ 52) && negb ((scale 2 (- e) r).1 =? Zpos m * (scale 2 (- e) r).2)
  | S754_nan => false
  end.

(** The exponent that follows the digits, after one of the letters [marks]: when no
    digit stands there, nothing is read. *)
Definition readExponent (marks : list byte) (s : list byte) : Z * list byte :=
  match s with
  | c :: s' =>
      if bool_decide (c ∈ marks) then
        let (negative, s'') := readSign s' in
        let (digits, rest) := span isDigit s'' in
        if isEmpty digits then (0, s)
        else ((if negative then - digitsValue digits else digitsValue digits), rest)
      else (0, s)
  | [] => (0, [])
  end.

(** Digits, and the digits behind a point, if there is one. *)
Definition readMantissa (p : byte -> bool) (s : list byte) : list byte * list byte * list byte :=
  let (whole, s) := span p s in
  let (fraction, s) :=
    match s with
    | c :: s' => if decide (c = x2e) then span p s' else ([], s)
    | [] => ([], [])
    end in
  (whole, fraction, s).

Definition strtodDecimal (negative : bool) (s : list byte) : option (spec_float * list byte * bool) :=
  let '(whole, fraction, s) := readMantissa isDigit s in
  if isEmpty (whole ++ fraction) then None
  else
    let (exponent, s) := readExponent [x65; x45] s in
    let r := scale 10 (exponent - zlen fraction) (digitsValue (whole ++ fraction), 1) in
    let value := nearestDouble negative r in
    Some (value, s, rangeError value r).

Definition hexDigit (c : byte) : Z :=
  let v := b2z c in
  if (48 <=? v) && (v <=? 57) then v - 48
  else if (65 <=? v) && (v <=? 70) then v - 55
  else if (97 <=? v) && (v <=? 102) then v - 87
  else -1.

(** After "0x". *)
Definition strtodHex (negative : bool) (s : list byte) : option (spec_float * list byte * bool) :=
  let '(whole, fraction, s) := readMantissa (fun c => 0 <=? hexDigit c) s in
  if isEmpty (whole ++ fraction) then None
  else
    let (exponent, s) := readExponent [x70; x50] s in
    let mantissa := fold_left (fun v c => v * 16 + hexDigit c) (whole ++ fraction) 0 in
    let r := scale 2 (exponent - 4 * zlen fraction) (mantissa, 1) in
    let value := nearestDouble negative r in
    Some (value, s, rangeError value r).

(** The word [w], in any case, at the front. *)
Definition readWord (w : list byte) (s : list byte) : option (list byte) :=
  if eqb (toLower (take (length w) s)) w then Some (drop (length w) s) else None.

(** After "nan": (letters, digits and underscores) in parentheses belong to it. *)
Definition readNanSequence (s : list byte) : list byte :=
  match s with
  | c :: s' =>
      if decide (c = x28) then
        match (span (fun c => isDigit c || bool_decide (lower c <> c) || bool_decide (upper c <> c) || bool_decide (c = x5f)) s').2 with
        | c :: rest => if decide (c = x29) then rest else s
        | [] => s
        end
      else s
  | [] => []
  end.

(** [std::isspace] in the "C" locale. *)
Definition isSpace (c : byte) : bool := bool_decide (c ∈ [x20; x09; x0a; x0b; x0c; x0d]).

(** [strtod]: the value, what follows what was read, and whether [errno] is [ERANGE].
    When no number stands there, nothing is read. *)
Definition strtod (s : list byte) : spec_float * list byte * bool :=
  let (negative, s1) := readSign (span isSpace s).2 in
  let decimal := default (S754_zero false, s, false) (strtodDecimal negative s1) in
  match readWord (str "infinity") s1, readWord (str "inf") s1, readWord (str "nan") s1, readWord (str "0x") s1 with
  | Some rest, _, _, _ | None, Some rest, _, _ => (S754_infinity negative, rest, false)
  | None, None, Some rest, _ => (S754_nan, readNanSequence rest, false)
  | None, None, None, Some rest => default decimal (strtodHex negative rest)
  | None, None, None, None => decimal
  end.

(** [strtoll] in base 10: the value, what follows, and whether [errno] is [ERANGE]. *)
Definition strtoll (s : list byte) : Z * list byte * bool :=
  let (negative, s1) := readSign (span isSpace s).2 in
  let (digits, rest) := span isDigit s1 in
  if isEmpty digits then (0, s, false)
  else
    let v := if (negative : bool) then - digitsValue digits else digitsValue digits in
    if v <? - 2 ^ 63 then (- 2 ^ 63, rest, true)
    else if 2 ^ 63 - 1 <? v then (2 ^ 63 - 1, rest, true)
    else (v, rest, false).

(** ** Number to text *)

(** The seventeen digits of a fraction and the exponent of the first one. *)
Definition digits17 (r : Z * Z) : Z * Z :=
  let x := log10 r in
  let d := nearest (scale 10 (16 - x) r) in
  if d =? 10 ^ 17 then (10 ^ 16, x + 1) else (d, x).

(** Without the zeros at the end. *)
Fixpoint dropZeros (s : list byte) : list byte :=
  match s with
  | [] => []
  | c :: s' => match dropZeros s' with [] => if decide (c = x30) then [] else [c] | t => c :: t end
  end.

Definition zeros (n : Z) : list byte := replicate (Z.to_nat n) x30.

(** The format [%g] with seventeen digits, of a positive fraction. *)
Definition general17 (r : Z * Z) : list byte :=
  let (d, x) := digits17 r in
  let digits := dropZeros (numberUnsignedImpl_ d 10) in
  if (-4 <=? x) && (x <? 17) then
    if 0 <=? x then
      if zlen digits <=? x + 1 then digits ++ zeros (x + 1 - zlen digits)
      else take (Z.to_nat (x + 1)) digits ++ str "." ++ drop (Z.to_nat (x + 1)) digits
    else str "0." ++ zeros (- x - 1) ++ digits
  else
    let exponent := numberUnsignedImpl_ (Z.abs x) 10 in
    take 1 digits ++ (if zlen digits <=? 1 then [] else str "." ++ drop 1 digits) ++ str "e" ++
    (if x <? 0 then str "-" else str "+") ++ zeros (2 - zlen exponent) ++ exponent.

Definition fraction (m : positive) (e : Z) : Z * Z := scale 2 e (Zpos m, 1).

(** [stream << std::setprecision(17) << number] in the classic locale. *)
Definition printDouble (d : spec_float) : list byte :=
  match d with
  | S754_zero s => (if s then str "-" else []) ++ str "0"
  | S754_infinity s => (if s then str "-" else []) ++ str "inf"
  | S754_nan => str "nan"
  | S754_finite s m e => (if s then str "-" else []) ++ general17 (fraction m e)
  end.

Definition isFinite (d : spec_float) : bool :=
  match d with S754_zero _ | S754_finite _ _ _ => true | _ => false end.

Definition isPoint (c : byte) : bool := bool_decide (c ∈ str ".eE").

(** The literal of a double: with a point or an exponent, so that it is read back as one. *)
Definition doubleLiteral (d : spec_float) : list byte :=
  let text := printDouble d in
  if isFinite d && negb (existsb isPoint text) then text ++ str ".0" else text.


(** ** Fractions as rational numbers *)

Definition value (r : Z * Z) : Q := (inject_Z r.1 / inject_Z r.2)%Q.

(** A positive fraction. *)
Definition positive_fraction (r : Z * Z) : Prop := 0 < r.1 /\ 0 < r.2.

Lemma inject_pos z : 0 < z -> (0 < inject_Z z)%Q.
Proof. intros H. change 0%Q with (inject_Z 0). by rewrite <-Zlt_Qlt. Qed.

Lemma power_pos (b : Z) k : 0 < b -> (0 < inject_Z b ^ k)%Q.
Proof. intros H. apply Qpower_0_lt. by apply inject_pos. Qed.

Lemma inject_power b k : 0 < b -> 0 <= k -> (inject_Z (b ^ k) == inject_Z b ^ k)%Q.
Proof. intros Hb Hk. by rewrite Qpower.Zpower_Qpower. Qed.

Lemma scale_pos b k r : 0 < b -> positive_fraction r -> positive_fraction (scale b k r).
Proof.
  intros Hb [H1 H2]. unfold scale, positive_fraction. destruct (Z.leb_spec 0 k); simpl; split; try done;
    apply Z.mul_pos_pos; try done; apply Z.pow_pos_nonneg; lia.
Qed.

Lemma scale_value b k r : 0 < b -> 0 < r.2 -> (value (scale b k r) == value r * inject_Z b ^ k)%Q.
Proof.
  intros Hb Hq. assert (~ inject_Z r.2 == 0)%Q as Hn by (pose proof (inject_pos _ Hq); lra).
  assert (~ inject_Z b == 0)%Q as Hnb by (pose proof (inject_pos _ Hb); lra).
  unfold value, scale. destruct (Z.leb_spec 0 k); cbn [fst snd]; rewrite inject_Z_mult, inject_power by lia.
  - field. done.
  - replace k with (- - k) at 2 by lia. rewrite (Qpower_opp _ (- k)). field. split; [apply Qpower_not_0|]; done.
Qed.

Lemma value_pos r : positive_fraction r -> (0 < value r)%Q.
Proof.
  intros [H1 H2]. unfold value. apply Qlt_shift_div_l; [by apply inject_pos|]. pose proof (inject_pos _ H1). lra.
Qed.

Lemma value_le r z : 0 < r.2 -> (inject_Z z <= value r)%Q <-> z * r.2 <= r.1.
Proof.
  intros H. rewrite Zle_Qle, inject_Z_mult. unfold value. pose proof (inject_pos _ H) as Hp. split; intros Hz.
  - assert (inject_Z z * inject_Z r.2 <= (inject_Z r.1 / inject_Z r.2) * inject_Z r.2)%Q as Hm by (apply Qmult_le_compat_r; lra).
    rewrite Qmult_comm with (x := (_ / _)%Q), Qmult_div_r in Hm by lra. done.
  - by apply Qle_shift_div_l.
Qed.

Lemma value_lt r z : 0 < r.2 -> (value r < inject_Z z)%Q <-> r.1 < z * r.2.
Proof.
  intros H. pose proof (value_le r z H) as Hle. split; intros Hlt.
  - apply Z.nle_gt. intros Hz. apply Hle in Hz. lra.
  - apply Qnot_le_lt. intros Hz. apply Hle in Hz. lia.
Qed.

(** Rounding: at most one half away, and any integer less than one half away. *)
Lemma nearest_close r : 0 < r.2 -> (inject_Z (nearest r) - (1 # 2) <= value r <= inject_Z (nearest r) + (1 # 2))%Q.
Proof.
  intros H. pose proof (Z.div_mod r.1 r.2 ltac:(lia)) as Hd. pose proof (Z.mod_pos_bound r.1 r.2 H) as Hm.
  assert (forall z, inject_Z z - (1 # 2) == inject_Z (2 * z - 1) * (1 # 2))%Q as Hl.
  { intros z. unfold Z.sub. rewrite inject_Z_plus, inject_Z_mult. change (inject_Z 2) with 2%Q. change (inject_Z (-(1))) with (-1)%Q. field. }
  assert (forall z, inject_Z z + (1 # 2) == inject_Z (2 * z + 1) * (1 # 2))%Q as Hu.
  { intros z. rewrite inject_Z_plus, inject_Z_mult. change (inject_Z 2) with 2%Q. change (inject_Z 1) with 1%Q. field. }
  assert (forall z, (2 * z - 1) * r.2 <= 2 * r.1 <= (2 * z + 1) * r.2 -> (inject_Z z - (1 # 2) <= value r <= inject_Z z + (1 # 2))%Q) as Hz.
  { intros z [H1 H2]. rewrite Hl, Hu. unfold value. pose proof (inject_pos _ H) as Hp. change (inject_Z 2) with 2%Q.
    rewrite Zle_Qle, !inject_Z_mult in H1, H2. change (inject_Z 2) with 2%Q in H1, H2. split.
    - apply Qle_shift_div_l; [done|]. lra.
    - apply Qle_shift_div_r; [done|]. lra. }
  apply Hz. unfold nearest. destruct (Z.compare_spec (2 * (r.1 mod r.2)) r.2); [destruct (Z.even _)|..]; nia.
Qed.

Lemma nearest_unique r n : 0 < r.2 -> (inject_Z n - (1 # 2) < value r < inject_Z n + (1 # 2))%Q -> nearest r = n.
Proof.
  intros H Hn. pose proof (nearest_close r H) as Hc. assert (inject_Z (nearest r) < inject_Z (n + 1))%Q as H1 by (rewrite inject_Z_plus; change (inject_Z 1) with 1%Q; lra).
  assert (inject_Z n < inject_Z (nearest r + 1))%Q as H2 by (rewrite inject_Z_plus; change (inject_Z 1) with 1%Q; lra).
  rewrite <-Zlt_Qlt in H1, H2. lia.
Qed.

Lemma log2_spec r : positive_fraction r -> (inject_Z 2 ^ log2 r <= value r < inject_Z 2 ^ (log2 r + 1))%Q.
Proof.
  intros [H1 H2]. pose proof (Z.log2_spec _ H1) as [Ha1 Ha2]. pose proof (Z.log2_spec _ H2) as [Hb1 Hb2].
  pose proof (Z.log2_nonneg r.1) as Ha0. pose proof (Z.log2_nonneg r.2) as Hb0. pose proof (inject_pos _ H2) as Hq.
  set (a := Z.log2 r.1) in *. set (b := Z.log2 r.2) in *.
  assert (~ inject_Z 2 == 0)%Q as Hn by (intros E; discriminate E).
  rewrite Zle_Qle, inject_power in Ha1, Hb1 by lia. rewrite Zlt_Qlt, inject_power in Ha2, Hb2 by lia.
  assert (forall k l, inject_Z 2 ^ (k - l) * inject_Z 2 ^ l == inject_Z 2 ^ k)%Q as Hpow.
  { intros k l. rewrite <-Qpower_plus by done. f_equiv. lia. }
  assert (value r * inject_Z r.2 == inject_Z r.1)%Q as Hv by (unfold value; field; lra). pose proof (value_pos r (conj H1 H2)) as Hv0.
  assert (value r < inject_Z 2 ^ (a - b + 1))%Q as Hup.
  { apply Qnot_le_lt. intros Hc. assert (inject_Z 2 ^ (a - b + 1) * inject_Z 2 ^ b <= value r * inject_Z r.2)%Q as Hm.
    { apply Qmult_le_compat_nonneg; split; try done; apply Qlt_le_weak, power_pos; lia. }
    rewrite Hv in Hm. replace (a - b + 1) with (a + 1 - b) in Hm by lia. rewrite Hpow in Hm. change (Z.succ a) with (a + 1) in Ha2. lra. }
  assert (inject_Z 2 ^ (a - b - 1) < value r)%Q as Hlo.
  { apply Qnot_le_lt. intros Hc. assert (value r * inject_Z r.2 < inject_Z 2 ^ (a - b - 1) * inject_Z 2 ^ (b + 1))%Q as Hm.
    { eapply Qle_lt_trans; [apply Qmult_le_compat_r; [exact Hc|lra]|]. apply Qmult_lt_l; [apply power_pos; lia|]. exact Hb2. }
    rewrite Hv in Hm. replace (a - b - 1) with (a - (b + 1)) in Hm by lia. rewrite Hpow in Hm. lra. }
  unfold log2. fold a b. cbv zeta. set (s := scale 2 (- (a - b)) r). pose proof (scale_value 2 (- (a - b)) r ltac:(lia) H2) as Hs. fold s in Hs.
  pose proof (scale_pos 2 (- (a - b)) r ltac:(lia) (conj H1 H2)) as [Hs1 Hs2]. fold s in Hs1, Hs2.
  assert (value s * inject_Z 2 ^ (a - b) == value r)%Q as Hsv.
  { rewrite Hs, Qpower_opp. field. by apply Qpower_not_0. }
  pose proof (power_pos 2 (a - b) ltac:(lia)) as Hp.
  destruct (Z.leb_spec s.2 s.1) as [Hle|Hlt].
  - split; [|done]. assert (inject_Z 1 <= value s)%Q as H1s by (apply value_le; [done|lia]). change (inject_Z 1) with 1%Q in H1s.
    rewrite <-Hsv. assert (1 * inject_Z 2 ^ (a - b) <= value s * inject_Z 2 ^ (a - b))%Q as Hm by (apply Qmult_le_compat_r; lra). lra.
  - replace (a - b - 1 + 1) with (a - b) by lia. split; [lra|]. assert (value s < inject_Z 1)%Q as H1s by (apply value_lt; [done|lia]). change (inject_Z 1) with 1%Q in H1s.
    rewrite <-Hsv. assert (value s * inject_Z 2 ^ (a - b) < 1 * inject_Z 2 ^ (a - b))%Q as Hm by (apply Qmult_lt_r; lra). lra.
Qed.


Lemma ilog10_spec n : 0 < n -> 0 <= ilog10 n /\ 10 ^ ilog10 n <= n < 10 ^ (ilog10 n + 1).
Proof.
  intros Hn. unfold ilog10. assert (n < 2 ^ (Z.of_nat (Z.to_nat (Z.log2 n)) + 1)) as Hf.
  { pose proof (Z.log2_spec n Hn). pose proof (Z.log2_nonneg n). rewrite Z2Nat.id by lia. rewrite Z.add_1_r. lia. }
  revert Hf. generalize (Z.to_nat (Z.log2 n)) as fuel. intros fuel. revert n Hn.
  induction fuel as [|fuel IH]; intros n Hn Hf; cbn [ilog10_loop].
  - assert (n = 1) as -> by (simpl in Hf; lia). done.
  - destruct (Z.ltb_spec n 10); [split; [done|]; simpl; lia|].
    destruct (IH (n / 10)) as (H0 & H1 & H2).
    + apply Z.div_str_pos. lia.
    + replace (Z.of_nat (S fuel) + 1) with (Z.succ (Z.of_nat fuel + 1)) in Hf by lia. rewrite Z.pow_succ_r in Hf by lia.
      apply Z.div_lt_upper_bound; lia.
    + set (k := ilog10_loop fuel (n / 10)) in *. split; [lia|].
      replace (1 + k + 1) with (Z.succ (k + 1)) by lia. replace (1 + k) with (Z.succ k) by lia. rewrite !Z.pow_succ_r by lia.
      pose proof (Z.div_mod n 10 ltac:(lia)). pose proof (Z.mod_pos_bound n 10 ltac:(lia)). lia.
Qed.

Lemma log10_spec r : positive_fraction r -> (inject_Z 10 ^ log10 r <= value r < inject_Z 10 ^ (log10 r + 1))%Q.
Proof.
  intros [H1 H2]. unfold log10. destruct (Z.leb_spec r.2 r.1) as [Hle|Hlt].
  - destruct (ilog10_spec (r.1 / r.2)) as (H0 & Hlo & Hhi); [by apply Z.div_str_pos|]. set (k := ilog10 _) in *.
    rewrite <-!inject_power by lia. split.
    + apply value_le; [done|]. pose proof (Z.mul_div_le r.1 r.2 H2). nia.
    + apply value_lt; [done|]. pose proof (Z.mul_succ_div_gt r.1 r.2 H2). nia.
  - set (c := (r.2 + r.1 - 1) / r.1) in *. pose proof (Z.mul_div_le (r.2 + r.1 - 1) r.1 H1) as Hc1. pose proof (Z.mul_succ_div_gt (r.2 + r.1 - 1) r.1 H1) as Hc2.
    fold c in Hc1, Hc2. destruct (ilog10_spec (c - 1)) as (H0 & Hlo & Hhi); [nia|]. set (k := ilog10 _) in *.
    replace (- (k + 1) + 1) with (- k) by lia. rewrite !Qpower_opp, <-!inject_power by lia.
    assert (0 < 10 ^ k /\ 0 < 10 ^ (k + 1)) as [Hp1 Hp2] by (split; apply Z.pow_pos_nonneg; lia).
    pose proof (inject_pos _ H2) as Hq. pose proof (inject_pos _ Hp1) as Hq1. pose proof (inject_pos _ Hp2) as Hq2. unfold value. split.
    + assert (r.2 <= r.1 * 10 ^ (k + 1)) as Hm by nia. rewrite Zle_Qle, inject_Z_mult in Hm.
      apply Qle_shift_div_l; [done|]. rewrite Qmult_comm. apply (Qle_shift_div_r _ _ _ Hq2). done.
    + assert (r.1 * 10 ^ k < r.2) as Hm by nia. rewrite Zlt_Qlt, inject_Z_mult in Hm.
      apply Qlt_shift_div_r; [done|]. rewrite Qmult_comm. apply (Qlt_shift_div_l _ _ _ Hq1). done.
Qed.

(** The seventeen digits stand for the fraction up to half a unit of the last one. *)
Lemma digits17_spec r : positive_fraction r ->
  let (d, x) := digits17 r in
  10 ^ 16 <= d < 10 ^ 17 /\
  (value r * (1 - (1 # 20000000000000000)) <= inject_Z d * inject_Z 10 ^ (x - 16) <= value r * (1 + (1 # 20000000000000000)))%Q.
Proof.
  intros Hr. pose proof Hr as [H1 H2]. unfold digits17. set (x := log10 r). set (s := scale 10 (16 - x) r). set (d := nearest s).
  pose proof (log10_spec r Hr) as [Hlo Hhi]. fold x in Hlo, Hhi. pose proof (scale_pos 10 (16 - x) r ltac:(lia) Hr) as [Hs1 Hs2]. fold s in Hs1, Hs2.
  pose proof (scale_value 10 (16 - x) r ltac:(lia) H2) as Hs. fold s in Hs. pose proof (nearest_close s Hs2) as [Hc1 Hc2]. fold d in Hc1, Hc2.
  assert (~ inject_Z 10 == 0)%Q as Hn by (intros E; discriminate E).
  assert (value r == value s * inject_Z 10 ^ (x - 16))%Q as Hv.
  { rewrite Hs. replace (x - 16) with (- (16 - x)) by lia. rewrite Qpower_opp. field. by apply Qpower_not_0. }
  assert (inject_Z 10 ^ x == inject_Z (10 ^ 16) * inject_Z 10 ^ (x - 16))%Q as Hx.
  { rewrite inject_power by lia. rewrite <-Qpower_plus by done. f_equiv. lia. }
  assert (inject_Z 10 ^ (x + 1) == inject_Z (10 ^ 17) * inject_Z 10 ^ (x - 16))%Q as Hx1.
  { rewrite inject_power by lia. rewrite <-Qpower_plus by done. f_equiv. lia. }
  pose proof (power_pos 10 (x - 16) ltac:(lia)) as Hp. set (u := (inject_Z 10 ^ (x - 16))%Q) in *. rewrite Hx, Hv in Hlo. rewrite Hx1, Hv in Hhi.
  apply Qmult_le_r in Hlo; [|done]. apply Qmult_lt_r in Hhi; [|done].
  assert (10 ^ 16 <= d <= 10 ^ 17) as Hd.
  { split; apply Z.lt_succ_r; rewrite Zlt_Qlt; unfold Z.succ; rewrite inject_Z_plus; change (inject_Z 1) with 1%Q; lra. }
  change (inject_Z (10 ^ 16)) with (10000000000000000 # 1)%Q in Hlo.
  assert (value r * (1 - (1 # 20000000000000000)) <= inject_Z d * u <= value r * (1 + (1 # 20000000000000000)))%Q as Hclose.
  { rewrite Hv. assert (value s * (1 - (1 # 20000000000000000)) <= inject_Z d)%Q as Ha by lra. assert (inject_Z d <= value s * (1 + (1 # 20000000000000000)))%Q as Hb by lra.
    apply (Qmult_le_compat_r _ _ u) in Ha; [|lra]. apply (Qmult_le_compat_r _ _ u) in Hb; [|lra]. split; lra. }
  destruct (Z.eqb_spec d (10 ^ 17)) as [E|E]; [|split; [lia|exact Hclose]]. split; [lia|].
  rewrite E in Hclose. assert (inject_Z (10 ^ 16) * inject_Z 10 ^ (x + 1 - 16) == inject_Z (10 ^ 17) * u)%Q as ->; [|exact Hclose].
  unfold u. rewrite !inject_power by lia. rewrite <-!Qpower_plus by done. f_equiv. lia.
Qed.

Lemma digits2_pos_spec m : 2 ^ (Zpos (digits2_pos m) - 1) <= Zpos m < 2 ^ Zpos (digits2_pos m).
Proof.
  induction m as [m IH|m IH|]; cbn [digits2_pos]; [| |done];
    rewrite Pos2Z.inj_succ; replace (Z.succ (Zpos (digits2_pos m)) - 1) with (Z.succ (Zpos (digits2_pos m) - 1)) by lia;
    rewrite !Z.pow_succ_r by lia; lia.
Qed.

(** The doubles: 53 bits with the first one set, or the smallest exponent. *)
Lemma valid_range s m e : valid_binary 53 1024 (S754_finite s m e) = true ->
  -1074 <= e <= 971 /\ Zpos m < 2 ^ 53 /\ (2 ^ 52 <= Zpos m \/ e = -1074).
Proof.
  cbn [valid_binary]. unfold bounded, canonical_mantissa, fexp, emin. rewrite andb_true_iff, Z.eqb_eq, Z.leb_le.
  pose proof (digits2_pos_spec m) as [H1 H2]. set (d := Zpos (digits2_pos m)) in *. intros [He Hm]. assert (d <= 53) by lia.
  split; [lia|]. split.
  - eapply Z.lt_le_trans; [exact H2|]. apply Z.pow_le_mono_r; lia.
  - destruct (Z.eq_dec e (-1074)) as [->|Hne]; [by right|left]. replace d with 53 in H1 by lia. exact H1.
Qed.

(** Between which powers a fraction is says what [log2] gives. *)
Lemma log2_upper r k : positive_fraction r -> (value r < inject_Z 2 ^ k)%Q -> log2 r < k.
Proof.
  intros Hr H. pose proof (log2_spec r Hr) as [Hlo _]. apply (Qpower_lt_compat_l_inv (inject_Z 2)); [|done]. lra.
Qed.

Lemma log2_lower r k : positive_fraction r -> (inject_Z 2 ^ k <= value r)%Q -> k <= log2 r.
Proof.
  intros Hr H. pose proof (log2_spec r Hr) as [_ Hhi]. apply Z.lt_succ_r, (Qpower_lt_compat_l_inv (inject_Z 2)); [|done]. unfold Z.succ. lra.
Qed.

Lemma scaled_value e r : 0 < r.2 -> (value r == value (scale 2 (- e) r) * inject_Z 2 ^ e)%Q.
Proof.
  intros H. rewrite scale_value, Qpower_opp by lia. field. apply Qpower_not_0. intros E. discriminate E.
Qed.

Lemma fraction_value m e : (value (fraction m e) == inject_Z (Zpos m) * inject_Z 2 ^ e)%Q.
Proof. unfold fraction. rewrite scale_value by (simpl; lia). unfold value. simpl. field. Qed.

Lemma power2_mul k e : 0 <= k -> (inject_Z 2 ^ (e + k) == inject_Z (2 ^ k) * inject_Z 2 ^ e)%Q.
Proof.
  intros Hk. rewrite inject_power by lia. rewrite <-Qpower_plus by (intros E; discriminate E). f_equiv. lia.
Qed.

(** A fraction that close to a double is rounded to it: seventeen digits are enough. *)
Lemma nearestDouble_close s r m e : positive_fraction r -> valid_binary 53 1024 (S754_finite s m e) = true ->
  (value (fraction m e) * (1 - (1 # 20000000000000000)) <= value r <= value (fraction m e) * (1 + (1 # 20000000000000000)))%Q ->
  nearestDouble s r = S754_finite s m e.
Proof.
  intros Hr Hv Hclose. pose proof Hr as [Hr1 Hr2]. apply valid_range in Hv as (He & Hm & Hnorm).
  set (z := scale 2 (- e) r). pose proof (scale_pos 2 (- e) r ltac:(lia) Hr) as [Hz1 Hz2]. fold z in Hz1, Hz2.
  pose proof (scaled_value e r Hr2) as Hz. fold z in Hz. pose proof (power_pos 2 e ltac:(lia)) as Hu.
  rewrite fraction_value, Hz in Hclose. destruct Hclose as [Hlo Hhi].
  assert (inject_Z (Zpos m) * (1 - (1 # 20000000000000000)) <= value z)%Q as Hlo' by (apply (Qmult_le_r _ _ _ Hu); lra).
  assert (value z <= inject_Z (Zpos m) * (1 + (1 # 20000000000000000)))%Q as Hhi' by (apply (Qmult_le_r _ _ _ Hu); lra).
  clear Hlo Hhi. assert (inject_Z (Zpos m) + 1 <= inject_Z (2 ^ 53))%Q as Hm'.
  { change 1%Q with (inject_Z 1). rewrite <-inject_Z_plus, <-Zle_Qle. lia. }
  assert (0 < inject_Z (Zpos m))%Q as Hm0 by (by apply inject_pos). change (inject_Z (2 ^ 53)) with (9007199254740992 # 1)%Q in Hm'.
  assert (log2 r < e + 53) as Hlog.
  { apply log2_upper; [done|]. rewrite power2_mul, Hz by lia. apply Qmult_lt_r; [done|]. change (inject_Z (2 ^ 53)) with (9007199254740992 # 1)%Q. lra. }
  unfold nearestDouble. destruct (Z.eqb_spec r.1 0); [lia|].
  destruct (Qlt_le_dec (value z) (inject_Z (2 ^ 52))) as [Hsmall|Hbig].
  - destruct (Z.eq_dec e (-1074)) as [E|E].
    + replace (Z.max (log2 r - 52) (-1074)) with e.
      2: { assert (log2 r < e + 52); [|lia]. apply log2_upper; [done|]. rewrite power2_mul, Hz by lia. by apply Qmult_lt_r. }
      fold z. rewrite (nearest_unique z (Zpos m) Hz2) by (split; lra).
      destruct (Z.eqb_spec (Zpos m) (2 ^ 53)); [lia|]. destruct (Z.leb_spec e 971); [done|lia].
    + destruct Hnorm as [Hnorm|]; [|done]. change (inject_Z (2 ^ 52)) with (4503599627370496 # 1)%Q in Hsmall.
      assert (Zpos m = 2 ^ 52) as Em.
      { apply Z.le_antisymm; [|done]. apply Z.lt_succ_r. unfold Z.succ. rewrite Zlt_Qlt, inject_Z_plus. change (inject_Z (2 ^ 52)) with (4503599627370496 # 1)%Q. change (inject_Z 1) with 1%Q. lra. }
      rewrite Em in *. change (inject_Z (2 ^ 52)) with (4503599627370496 # 1)%Q in *.
      assert (log2 r = e + 51) as ->.
      { apply Z.le_antisymm.
        - assert (log2 r < e + 52); [|lia]. apply log2_upper; [done|]. rewrite power2_mul, Hz by lia. apply Qmult_lt_r; [done|]. exact Hsmall.
        - apply log2_lower; [done|]. rewrite power2_mul, Hz by lia. apply Qmult_le_r; [done|]. change (inject_Z (2 ^ 51)) with (2251799813685248 # 1)%Q. lra. }
      replace (Z.max (e + 51 - 52) (-1074)) with (e - 1) by lia. cbv zeta.
      pose proof (scale_pos 2 (- (e - 1)) r ltac:(lia) Hr) as [Hy1 Hy2]. pose proof (scaled_value (e - 1) r Hr2) as Hy. set (y := scale 2 (- (e - 1)) r) in *.
      assert (value y == 2 * value z)%Q as Hyz.
      { unfold y, z. rewrite !scale_value by lia. replace (- (e - 1)) with (- e + 1) by lia. rewrite Qpower_plus by (intros F; discriminate F).
        change (inject_Z 2 ^ 1)%Q with 2%Q. ring. }
      rewrite (nearest_unique y (2 ^ 53) Hy2) by (change (inject_Z (2 ^ 53)) with (9007199254740992 # 1)%Q; split; lra).
      rewrite Z.eqb_refl. replace (e - 1 + 1) with e by lia. injection Em as ->. destruct (Z.leb_spec e 971); [done|lia].
  - assert (e + 52 <= log2 r) as Hge.
    { apply log2_lower; [done|]. rewrite power2_mul, Hz by lia. by apply Qmult_le_r. }
    replace (Z.max (log2 r - 52) (-1074)) with e by lia. fold z. rewrite (nearest_unique z (Zpos m) Hz2) by (split; lra).
    destruct (Z.eqb_spec (Zpos m) (2 ^ 53)); [lia|]. destruct (Z.leb_spec e 971); [done|lia].
Qed.


(** ** Digits *)

Abbreviation digits_only := (Forall (fun c => isDigit c = true)).

Lemma digitsValue_app a b : digitsValue (a ++ b) = digitsValue a * 10 ^ zlen b + digitsValue b.
Proof.
  unfold digitsValue. rewrite fold_left_app. generalize (fold_left (fun v c => v * 10 + (b2z c - 48)) a 0) as v. 
  induction b as [|c b IH] using rev_ind; intros v; [simpl; lia|]. rewrite !fold_left_app, zlen_app. cbn [fold_left]. rewrite IH.
  simpl length. rewrite Z.pow_add_r by lia. simpl (10 ^ Z.of_nat 1). lia.
Qed.

Lemma digit_range c : isDigit c = true -> 0 <= b2z c - 48 <= 9.
Proof. unfold isDigit. rewrite andb_true_iff, !Z.leb_le. lia. Qed.

Lemma digitsValue_range ds : digits_only ds -> 0 <= digitsValue ds < 10 ^ zlen ds.
Proof.
  induction ds as [|c ds IH] using rev_ind; intros H; [done|]. apply Forall_app in H as [H Hc]. apply Forall_cons_1 in Hc as [Hc _].
  apply digit_range in Hc. specialize (IH H). rewrite digitsValue_app, zlen_app. simpl length. rewrite Z.pow_add_r by lia.
  change (10 ^ Z.of_nat 1) with 10. change (digitsValue [c]) with (0 * 10 + (b2z c - 48)). lia.
Qed.

Lemma zeros_length n : 0 <= n -> zlen (zeros n) = n.
Proof. intros H. unfold zeros. rewrite length_replicate. lia. Qed.

Lemma zeros_digits n : digits_only (zeros n).
Proof. unfold zeros. apply Forall_replicate. done. Qed.

Lemma digitsValue_zeros n : digitsValue (zeros n) = 0.
Proof.
  unfold zeros. induction (Z.to_nat n) as [|k IH]; [done|]. rewrite replicate_S_end, digitsValue_app, IH. done.
Qed.

Lemma digitCharacter_digit d : 0 <= d < 10 -> isDigit (digitCharacter d) = true /\ b2z (digitCharacter d) - 48 = d.
Proof.
  intros H. unfold digitCharacter, isDigit. destruct (Z.ltb_spec d 10); [|lia]. rewrite b2z_z2b, Z.mod_small by lia.
  rewrite andb_true_iff, !Z.leb_le. lia.
Qed.

(** What is written of a number: its digits, the first of which is not zero. *)
Definition digits_of (v : Z) (ds : list byte) : Prop :=
  digits_only ds /\ digitsValue ds = v /\ ds <> [] /\ (v = 0 -> ds = [x30]) /\ (0 < v -> 10 ^ (zlen ds - 1) <= v).

Lemma numberUnsigned_loop_digits fuel v acc : 0 <= v < 10 ^ Z.of_nat fuel ->
  (0 < fuel)%nat -> exists ds, numberUnsigned_loop fuel v 10 acc = ds ++ acc /\ digits_of v ds.
Proof.
  revert v acc. induction fuel as [|fuel IH]; intros v acc Hv Hf; [lia|]. cbn [numberUnsigned_loop].
  pose proof (Z.mod_pos_bound v 10 ltac:(lia)) as Hm. pose proof (Z.div_mod v 10 ltac:(lia)) as Hd.
  destruct (digitCharacter_digit (v mod 10)) as [Hc1 Hc2]; [lia|]. set (c := digitCharacter (v mod 10)) in *.
  destruct (Z.eqb_spec (v / 10) 0) as [E|E].
  - exists [c]. split; [done|]. change (digitsValue [c]) with (0 * 10 + (b2z c - 48)). unfold digits_of.
    split; [by constructor|]. split; [change (digitsValue [c]) with (0 * 10 + (b2z c - 48)); lia|]. split; [done|]. split.
    + intros ->. done.
    + intros Hp. simpl. lia.
  - assert (0 < v / 10) as Hp by (pose proof (Z.div_pos v 10 ltac:(lia) ltac:(lia)); lia).
    destruct fuel as [|fuel]; [simpl in Hv; lia|].
    destruct (IH (v / 10) (c :: acc)) as (ds & -> & H1 & H2 & H3 & H4 & H5); [|lia|].
    { split; [lia|]. apply Z.div_lt_upper_bound; [lia|]. rewrite Nat2Z.inj_succ, Z.pow_succ_r in Hv by lia. lia. }
    exists (ds ++ [c]). split; [by rewrite <-app_assoc|]. split; [apply Forall_app; split; [done|by constructor]|].
    split; [rewrite digitsValue_app, H2; change (digitsValue [c]) with (0 * 10 + (b2z c - 48)); simpl; lia|].
    split; [by destruct ds|]. split; [lia|]. intros _. specialize (H5 Hp). rewrite zlen_app. simpl length.
    assert (0 < zlen ds) as Hl by (destruct ds; [done|simpl; lia]). replace (zlen ds + Z.of_nat 1 - 1) with (Z.succ (zlen ds - 1)) by lia.
    rewrite Z.pow_succ_r by lia. lia.
Qed.

Lemma numberUnsignedImpl_digits v : 0 <= v < 2 ^ 64 -> digits_of v (numberUnsignedImpl_ v 10).
Proof.
  intros Hv. change (numberUnsignedImpl_ v 10) with (numberUnsigned_loop 64 v 10 []).
  destruct (numberUnsigned_loop_digits 64 v []) as (ds & -> & H); [split; [lia|]; eapply Z.lt_trans; [apply Hv|done]|lia|].
  by rewrite app_nil_r.
Qed.

(** A number is a short text. *)
Lemma numberUnsignedImpl_length v : zlen (numberUnsignedImpl_ v 10) <= 64.
Proof.
  unfold numberUnsignedImpl_. cbn [Z.ltb Z.compare orb].
  assert (forall fuel v acc, zlen (numberUnsigned_loop fuel v 10 acc) <= Z.of_nat fuel + zlen acc) as H.
  { induction fuel as [|fuel IH]; intros w acc; cbn [numberUnsigned_loop]; [lia|]. cbv zeta. destruct (_ =? 0); [simpl; lia|].
    specialize (IH (w / 10) (digitCharacter (w mod 10) :: acc)). simpl length in *. lia. }
  specialize (H 64%nat v []). change (zlen (@nil byte)) with 0 in H. change (Z.of_nat 64) with 64 in H. set (r := numberUnsigned_loop _ _ _ _) in *. clearbody r. lia.
Qed.

Lemma digits_first v ds : digits_of v ds -> 0 < v -> exists c ds', ds = c :: ds' /\ c <> x30.
Proof.
  intros (H1 & H2 & H3 & _ & H5) Hv. destruct ds as [|c ds']; [done|]. exists c, ds'. split; [done|]. intros ->.
  specialize (H5 Hv). apply Forall_cons_1 in H1 as [_ H1]. pose proof (digitsValue_range ds' H1) as Hr.
  change (x30 :: ds') with ([x30] ++ ds') in H2, H5. rewrite digitsValue_app in H2. change (digitsValue [x30]) with 0 in H2.
  rewrite zlen_app in H5. replace (zlen [x30] + zlen ds' - 1) with (zlen ds') in H5 by (simpl; lia). lia.
Qed.

Lemma dropZeros_spec s : exists n, 0 <= n /\ s = dropZeros s ++ zeros n.
Proof.
  induction s as [|c s (n & Hn & IH)]; [by exists 0|]. cbn [dropZeros]. destruct (dropZeros s) as [|d t] eqn:E.
  - simpl in IH. destruct (decide (c = x30)) as [->|Hc].
    + exists (n + 1). split; [lia|]. rewrite IH. unfold zeros. replace (Z.to_nat (n + 1)) with (S (Z.to_nat n)) by lia. done.
    + exists n. split; [done|]. by rewrite IH.
  - exists n. split; [done|]. by rewrite IH at 1.
Qed.

Lemma span_app p a b : Forall (fun c => p c = true) a -> (forall c b', b = c :: b' -> p c = false) -> span p (a ++ b) = (a, b).
Proof.
  intros Ha Hb. induction a as [|c a IH]; simpl.
  - destruct b as [|c b]; [done|]. simpl. by rewrite (Hb c b eq_refl).
  - apply Forall_cons_1 in Ha as [-> Ha]. by rewrite IH.
Qed.

(** ** Decimal literals *)

Record Literal := mkLiteral {
  negative : bool;
  whole : list byte;
  fractional : list byte;
  exponent : option (bool * list byte)
}.

Definition text (l : Literal) : list byte :=
  (if negative l then str "-" else []) ++ whole l ++
  (if isEmpty (fractional l) then [] else str "." ++ fractional l) ++
  match exponent l with
  | Some (negative, digits) => str "e" ++ (if negative then str "-" else str "+") ++ digits
  | None => []
  end.

Definition well_formed (l : Literal) : Prop :=
  digits_only (whole l) /\ (exists c ds, whole l = c :: ds /\ (c = x30 -> ds = [])) /\ digits_only (fractional l) /\
  match exponent l with Some (_, digits) => digits_only digits /\ digits <> [] | None => True end.

Definition exponentValue (l : Literal) : Z :=
  match exponent l with
  | Some (negative, digits) => if (negative : bool) then - digitsValue digits else digitsValue digits
  | None => 0
  end.

Definition literalFraction (l : Literal) : Z * Z :=
  scale 10 (exponentValue l - zlen (fractional l)) (digitsValue (whole l ++ fractional l), 1).

Lemma readSign_digit c s : isDigit c = true -> readSign (c :: s) = (false, c :: s).
Proof.
  intros H. simpl. destruct (decide (c = x2d)) as [->|]; [done|]. destruct (decide (c = x2b)) as [->|]; done.
Qed.

(** No number begins with a space, and no word with a digit. *)
Lemma readSign_literal (n : bool) c s : isDigit c = true ->
  readSign (span isSpace ((if n then str "-" else []) ++ c :: s)).2 = (n, c :: s).
Proof.
  intros Hc. destruct n; [done|]. cbn [app].
  assert (isSpace c = false) as Hs.
  { apply bool_decide_eq_false. intros Hin. apply list_elem_of_In in Hin. unfold isDigit in Hc. rewrite andb_true_iff, !Z.leb_le in Hc.
    simpl in Hin. repeat destruct Hin as [<-|Hin]; [vm_compute in Hc; destruct Hc; congruence..|done]. }
  cbn [span]. rewrite Hs. cbn [snd]. by apply readSign_digit.
Qed.

Lemma readWord_first w c s : isDigit c = true -> lower c <> w -> forall w', readWord (w :: w') (c :: s) = None.
Proof.
  intros Hc Hw w'. unfold readWord. cbn [length take toLower map]. destruct (eqb _ _) eqn:E; [|done].
  apply bool_decide_eq_true in E. by injection E.
Qed.

Lemma lower_digit c : isDigit c = true -> lower c = c.
Proof.
  unfold isDigit, lower. rewrite andb_true_iff, !Z.leb_le. intros Hc. cbv zeta. destruct (Z.leb_spec 65 (b2z c)); [lia|done].
Qed.

Definition textTail (l : Literal) : list byte :=
  match exponent l with Some (n, digits) => str "e" ++ (if n then str "-" else str "+") ++ digits | None => [] end.

Lemma textTail_first l c s : textTail l = c :: s -> c = x65.
Proof. unfold textTail. destruct (exponent l) as [[n digits]|]; [|done]. by intros [= <- _]. Qed.

Lemma readMantissa_text l : well_formed l ->
  readMantissa isDigit (whole l ++ (if isEmpty (fractional l) then [] else str "." ++ fractional l) ++ textTail l) =
  (whole l, fractional l, textTail l).
Proof.
  intros (Hw & _ & Hf & _). unfold readMantissa. rewrite span_app; [|done|].
  2: { intros c b'. destruct (isEmpty (fractional l)); [cbn [app]; intros E; by rewrite (textTail_first _ _ _ E)|]. by intros [= <- _]. }
  destruct (fractional l) as [|d fs] eqn:Ef.
  - simpl. destruct (textTail l) as [|t0 tail'] eqn:Et; [done|]. by rewrite (textTail_first _ _ _ Et).
  - cbn [isEmpty]. change ((str "." ++ d :: fs) ++ textTail l) with (x2e :: (d :: fs) ++ textTail l). cbv beta iota.
    rewrite (decide_True_pi (eq_refl x2e)).
    rewrite span_app; [done|done|]. intros c0 b' E. by rewrite (textTail_first _ _ _ E).
Qed.

Lemma readExponent_text l : well_formed l -> readExponent [x65; x45] (textTail l) = (exponentValue l, []).
Proof.
  intros (_ & _ & _ & He). unfold textTail, exponentValue. destruct (exponent l) as [[n digits]|]; [|done]. destruct He as [Hd Hne].
  set (signed := (if n then str "-" else str "+") ++ digits). change (str "e" ++ signed) with (x65 :: signed). unfold readExponent.
  rewrite (bool_decide_true (x65 ∈ [x65; x45])) by (apply list_elem_of_In; by left).
  assert (readSign signed = (n, digits)) as -> by by destruct n.
  rewrite <-(app_nil_r digits) at 1. rewrite span_app by done. by destruct digits.
Qed.

Lemma strtod_text l : well_formed l ->
  strtod (text l) = (nearestDouble (negative l) (literalFraction l), [], rangeError (nearestDouble (negative l) (literalFraction l)) (literalFraction l)).
Proof.
  intros Hl. pose proof Hl as (Hw & (c & ds & Ew & _) & _). assert (isDigit c = true) as Hc by (rewrite Ew in Hw; by apply Forall_cons_1 in Hw as [? _]).
  pose proof (readMantissa_text l Hl) as Hm. unfold strtod, text. fold (textTail l). set (body := whole l ++ (if isEmpty (fractional l) then [] else str "." ++ fractional l) ++ textTail l) in *.
  assert (exists s, body = c :: s) as [s Es] by (unfold body; rewrite Ew; by eexists).
  assert (strtodDecimal (negative l) body = Some (nearestDouble (negative l) (literalFraction l), [], rangeError (nearestDouble (negative l) (literalFraction l)) (literalFraction l))) as Hdec.
  { unfold strtodDecimal. rewrite Hm, readExponent_text by done. assert (isEmpty (whole l ++ fractional l) = false) as -> by by rewrite Ew. done. }
  rewrite Es in Hdec |- *. rewrite readSign_literal, Hdec by done.
  assert (forall w w', isDigit w = false -> readWord (w :: w') (c :: s) = None) as Hword.
  { intros w w' Hw0. apply readWord_first; [done|]. rewrite lower_digit by done. intros ->. congruence. }
  change (str "infinity") with (x69 :: str "nfinity"). change (str "inf") with (x69 :: str "nf"). change (str "nan") with (x6e :: str "an").
  rewrite !Hword by done.
  assert (readWord (str "0x") (c :: s) = None) as ->; [|done].
  unfold readWord. change (length (str "0x")) with 2%nat. destruct (eqb _ _) eqn:E; [|done]. apply bool_decide_eq_true in E.
  exfalso. destruct s as [|c2 s]; [done|]. injection E as _ E.
  assert (c2 = x2e \/ c2 = x65 \/ isDigit c2 = true) as H2.
  { unfold body in Es. rewrite Ew in Es. injection Es as Es. destruct ds as [|d ds].
    - cbn [app] in Es. destruct (isEmpty (fractional l)); [right; left; by eapply textTail_first|left; by injection Es].
    - injection Es as -> _. right; right. rewrite Ew in Hw. apply Forall_cons_1 in Hw as [_ Hw]. by apply Forall_cons_1 in Hw as [? _]. }
  destruct H2 as [->|[->|H2]]; [done|done|]. rewrite lower_digit in E by done. by subst.
Qed.

Lemma digits_no_point ds : digits_only ds -> existsb isPoint ds = false.
Proof.
  induction 1 as [|c ds Hc _ IH]; [done|]. simpl. rewrite IH, orb_false_r. apply bool_decide_eq_false. intros Hin.
  unfold isDigit in Hc. rewrite andb_true_iff, !Z.leb_le in Hc. apply list_elem_of_In in Hin. simpl in Hin.
  destruct Hin as [<-|[<-|[<-|[]]]]; vm_compute in Hc; destruct Hc; congruence.
Qed.

Lemma literal_value l k v : digitsValue (whole l ++ fractional l) = v * 10 ^ k -> 0 <= k ->
  (value (literalFraction l) == inject_Z v * inject_Z 10 ^ (k + exponentValue l - zlen (fractional l)))%Q.
Proof.
  intros E Hk. unfold literalFraction. rewrite scale_value by (simpl; lia). rewrite E. unfold value. cbn [fst snd].
  rewrite inject_Z_mult, inject_power by lia. change (inject_Z 1) with 1%Q.
  replace (k + exponentValue l - zlen (fractional l)) with (k + (exponentValue l - zlen (fractional l))) by lia.
  rewrite Qpower_plus by (intros F; discriminate F). field.
Qed.

(** The digits that are written, and how many zeros follow the last of them. *)
Lemma digits17_written d : 10 ^ 16 <= d < 10 ^ 17 ->
  exists c ds, dropZeros (numberUnsignedImpl_ d 10) = c :: ds /\ digits_only (c :: ds) /\ c <> x30 /\
    zlen (c :: ds) <= 17 /\ d = digitsValue (c :: ds) * 10 ^ (17 - zlen (c :: ds)).
Proof.
  intros Hd. assert (2 ^ 64 = 18446744073709551616) as E64 by done. pose proof (numberUnsignedImpl_digits d ltac:(lia)) as Hn.
  destruct (digits_first _ _ Hn ltac:(lia)) as (c & rest & E & Hc). destruct Hn as (H1 & H2 & _ & _ & H5). rewrite E in *.
  assert (zlen (c :: rest) = 17) as Hlen.
  { pose proof (digitsValue_range _ H1) as Hr. rewrite H2 in Hr. specialize (H5 ltac:(lia)).
    assert (zlen (c :: rest) - 1 < 17) by (apply (Z.pow_lt_mono_r_iff 10); lia).
    assert (16 < zlen (c :: rest)) by (apply (Z.pow_lt_mono_r_iff 10); lia). lia. }
  destruct (dropZeros_spec (c :: rest)) as (n & Hn & Ez).
  assert (exists ds, dropZeros (c :: rest) = c :: ds) as [ds Eds].
  { simpl. destruct (dropZeros rest) as [|e t]; [|by eexists]. destruct (decide (c = x30)); [done|by eexists]. }
  rewrite Eds in Ez |- *. exists c, ds. rewrite Ez in H1, H2, Hlen. apply Forall_app in H1 as [H1 _].
  rewrite zlen_app, zeros_length in Hlen by done. rewrite digitsValue_app, digitsValue_zeros, zeros_length in H2 by done.
  split; [done|]. split; [done|]. split; [done|]. split; [lia|]. replace (17 - zlen (c :: ds)) with n by lia. lia.
Qed.

Lemma general17_literal r : positive_fraction r -> Z.abs (digits17 r).2 < 2 ^ 64 ->
  exists l, well_formed l /\ negative l = false /\ (fractional l <> [] \/ exponent l <> None) /\
    general17 r ++ (if existsb isPoint (general17 r) then [] else str ".0") = text l /\
    (value (literalFraction l) == inject_Z (digits17 r).1 * inject_Z 10 ^ ((digits17 r).2 - 16))%Q.
Proof.
  intros Hr Hx. pose proof (digits17_spec r Hr) as Hspec. unfold general17. destruct (digits17 r) as [d x]. destruct Hspec as [Hd _].
  cbn [fst snd] in *. destruct (digits17_written d Hd) as (c & ds & -> & Hds & Hc & Hlen & Ed). set (dd := c :: ds) in *.
  pose proof Hds as Hds'. apply Forall_cons_1 in Hds' as [Hc' Hds'].
  assert (forall k, (inject_Z (digitsValue dd) * inject_Z 10 ^ k == inject_Z d * inject_Z 10 ^ (k + zlen dd - 17))%Q) as Hscale.
  { intros k. rewrite Ed, inject_Z_mult, inject_power by lia. rewrite <-Qmult_assoc, <-Qpower_plus by (intros F; discriminate F). do 2 f_equiv. lia. }
  assert (0 < zlen dd) as Hpos by (simpl; lia).
  destruct (Z.leb_spec (-4) x), (Z.ltb_spec x 17); cbn [andb].
  2-4: set (ex := numberUnsignedImpl_ (Z.abs x) 10);
    exists (mkLiteral false [c] ds (Some (x <? 0, zeros (2 - zlen ex) ++ ex)));
    pose proof (numberUnsignedImpl_digits (Z.abs x) ltac:(lia)) as (He1 & He2 & He3 & _); fold ex in He1, He2, He3;
    (split; [split; [by constructor|]; split; [by exists c, []|]; split; [done|]; split; [apply Forall_app; split; [apply zeros_digits|done]|by destruct (zeros _)]|]);
    (split; [done|]); (split; [by right|]); split.
  2,4,6: rewrite !existsb_app; change (existsb isPoint (str "e")) with true; rewrite !orb_true_r; cbn [orb]; rewrite app_nil_r; unfold text; cbn [negative whole fractional exponent take];
    change (take 1 dd) with [c]; change (drop 1 dd) with ds; destruct ds as [|c' ds']; [done|]; destruct (Z.leb_spec (zlen dd) 1) as [Hl|Hl]; [unfold dd in Hl; simpl in Hl; lia|done].
  2-4: rewrite (literal_value _ 0 (digitsValue dd)) by (cbn [whole fractional]; change ([c] ++ ds) with dd; lia);
    rewrite Hscale; f_equiv; f_equiv; unfold exponentValue; cbn [exponent fractional];
    rewrite digitsValue_app, digitsValue_zeros, He2; unfold dd; cbn [length]; destruct (Z.ltb_spec x 0); lia.
  destruct (Z.leb_spec 0 x) as [Hx0|Hx0].
  - destruct (Z.leb_spec (zlen dd) (x + 1)) as [Hl|Hl].
    + exists (mkLiteral false (dd ++ zeros (x + 1 - zlen dd)) [x30] None). split.
      { split; [apply Forall_app; split; [done|apply zeros_digits]|]. split; [|split; [by constructor|done]].
        eexists c, _. split; [done|]. done. }
      split; [done|]. split; [by left|]. split.
      * rewrite digits_no_point by (apply Forall_app; split; [done|apply zeros_digits]). unfold text. cbn. by rewrite <-!app_assoc.
      * rewrite (literal_value _ (x + 1 - zlen dd + 1) (digitsValue dd)); [|cbn [whole fractional]|lia].
        -- rewrite Hscale. f_equiv. f_equiv. cbn. lia.
        -- rewrite !digitsValue_app, digitsValue_zeros, zeros_length, Z.pow_add_r by lia. change (digitsValue [x30]) with 0. simpl (10 ^ zlen [x30]). lia.
    + exists (mkLiteral false (take (Z.to_nat (x + 1)) dd) (drop (Z.to_nat (x + 1)) dd) None). cbn [negative whole fractional exponent].
      assert (zlen (drop (Z.to_nat (x + 1)) dd) = zlen dd - (x + 1)) as Hdrop by (rewrite length_drop; lia).
      assert (drop (Z.to_nat (x + 1)) dd <> []) as Hne by (intros F; rewrite F in Hdrop; change (0 = zlen dd - (x + 1)) in Hdrop; lia).
      split.
      { split; [by apply Forall_take|]. split; [|split; [by apply Forall_drop|done]]. 
        replace (Z.to_nat (x + 1)) with (S (Z.to_nat x)) by lia. eexists c, _. split; [done|]. done. }
      split; [done|]. split; [by left|]. split.
      * rewrite !existsb_app. change (existsb isPoint (str ".")) with true. rewrite orb_true_r, app_nil_r. unfold text. cbn [negative whole fractional exponent].
        destruct (drop (Z.to_nat (x + 1)) dd); [done|]. cbn. by rewrite app_nil_r.
      * rewrite (literal_value _ 0 (digitsValue dd)); [|cbn [whole fractional]; rewrite take_drop; lia|lia].
        rewrite Hscale. f_equiv. f_equiv. cbn [fractional exponentValue exponent]. unfold exponentValue. cbn [exponent]. lia.
  - exists (mkLiteral false [x30] (zeros (- x - 1) ++ dd) None). cbn [negative whole fractional exponent].
    split.
    { split; [by constructor|]. split; [by exists x30, []|]. split; [|done]. apply Forall_app. split; [apply zeros_digits|done]. }
    split; [done|]. split; [left; by destruct (zeros (- x - 1))|]. split.
    * rewrite !existsb_app. change (existsb isPoint (str "0.")) with true. cbn [orb]. rewrite app_nil_r. unfold text. cbn [negative whole fractional exponent].
      destruct (zeros (- x - 1) ++ dd) eqn:F; [by destruct (zeros (- x - 1))|]. cbn. by rewrite app_nil_r.
    * rewrite (literal_value _ 0 (digitsValue dd)); [|cbn [whole fractional]|lia].
      -- rewrite Hscale. f_equiv. f_equiv. unfold exponentValue. cbn [fractional exponent]. rewrite zlen_app, zeros_length by lia. lia.
      -- rewrite !digitsValue_app, digitsValue_zeros. change (digitsValue [x30]) with 0. lia.
Qed.


Lemma digits17_exponent s m e : valid_binary 53 1024 (S754_finite s m e) = true -> Z.abs (digits17 (fraction m e)).2 < 2 ^ 64.
Proof.
  intros Hv. apply valid_range in Hv as (He & Hm & _).
  assert (positive_fraction (fraction m e)) as Hr by (apply scale_pos; [lia|by split]).
  pose proof (log10_spec _ Hr) as [Hlo Hhi]. rewrite fraction_value in Hlo, Hhi. pose proof (power_pos 2 e ltac:(lia)) as Hu.
  assert (1 <= inject_Z (Zpos m) /\ inject_Z (Zpos m) <= inject_Z (2 ^ 53))%Q as [H1 H2].
  { change 1%Q with (inject_Z 1). rewrite <-!Zle_Qle. lia. }
  assert (log10 (fraction m e) < 1025) as Hx1.
  { apply (Qpower_lt_compat_l_inv (inject_Z 10)); [|done]. eapply Qle_lt_trans; [exact Hlo|].
    apply Qle_lt_trans with (inject_Z 2 ^ 1024)%Q; [|by vm_compute].
    apply Qle_trans with (inject_Z 2 ^ (e + 53))%Q; [|by apply Qpower_le_compat_l; [lia|]].
    rewrite power2_mul by lia. apply Qmult_le_compat_r; lra. }
  assert (-1075 < log10 (fraction m e) + 1) as Hx2.
  { apply (Qpower_lt_compat_l_inv (inject_Z 10)); [|done]. eapply Qle_lt_trans; [|exact Hhi].
    apply Qle_trans with (inject_Z 2 ^ (-1074))%Q; [by vm_compute|].
    apply Qle_trans with (inject_Z 2 ^ e)%Q; [by apply Qpower_le_compat_l; [lia|]|].
    apply Qlt_le_weak in Hu. pose proof (Qmult_le_compat_r _ _ _ H1 Hu). lra. }
  unfold digits17. destruct (_ =? _); cbn [snd]; assert (2 ^ 64 = 18446744073709551616) by done; lia.
Qed.

(** The doubles that decimal text can stand for. *)
Definition valid_double (d : spec_float) : Prop := valid_binary 53 1024 d = true /\ isFinite d = true.

(** Zero, or large enough for 53 bits. *)
Definition normal (d : spec_float) : Prop := match d with S754_finite _ m _ => 2 ^ 52 <= Zpos m | _ => True end.

(** A double is written as a decimal literal, and the literal is nearest to it. *)
Lemma doubleLiteral_literal d : valid_double d ->
  exists l, well_formed l /\ (fractional l <> [] \/ exponent l <> None) /\ doubleLiteral d = text l /\
    nearestDouble (negative l) (literalFraction l) = d /\ (normal d -> rangeError d (literalFraction l) = false).
Proof.
  intros [Hv Hf]. destruct d as [s| | |s m e]; [|done..|].
  - exists (mkLiteral s [x30] [x30] None). split.
    { split; [by constructor|]. split; [by exists x30, []|]. split; [by constructor|done]. }
    split; [by left|]. by destruct s.
  - assert (positive_fraction (fraction m e)) as Hr by (apply scale_pos; [lia|by split]).
    destruct (general17_literal _ Hr (digits17_exponent _ _ _ Hv)) as (l & (Hw1 & Hw2 & Hw3 & Hw4) & Hn & Hp & Ht & Hval).
    exists (mkLiteral s (whole l) (fractional l) (exponent l)). split; [by split|]. split; [done|].
    assert (text (mkLiteral s (whole l) (fractional l) (exponent l)) = (if s then str "-" else []) ++ text l) as ->.
    { unfold text. rewrite Hn. by destruct s. }
    split; [|split].
    + unfold doubleLiteral. cbn [printDouble isFinite]. rewrite <-Ht.
      assert (existsb isPoint ((if s then str "-" else []) ++ general17 (fraction m e)) = existsb isPoint (general17 (fraction m e))) as -> by by destruct s.
      destruct (existsb isPoint _); cbn [negb andb]; [by rewrite app_nil_r|by rewrite <-app_assoc].
    + change (literalFraction (mkLiteral s (whole l) (fractional l) (exponent l))) with (literalFraction l). cbn [negative].
      pose proof (digits17_spec _ Hr) as Hspec. destruct (digits17 (fraction m e)) as [dd x]. destruct Hspec as [Hdd Hclose]. cbn [fst snd] in Hval.
      apply nearestDouble_close; [|done|by rewrite Hval].
      unfold literalFraction. apply scale_pos; [lia|]. split; [|simpl; lia]. cbn [fst].
      assert (0 < inject_Z (digitsValue (whole l ++ fractional l)))%Q as Hpos.
      { unfold literalFraction in Hval. rewrite scale_value in Hval by (simpl; lia). unfold value in Hval at 1. cbn [fst snd] in Hval.
        apply (Qmult_lt_r _ _ (inject_Z 10 ^ (exponentValue l - zlen (fractional l)))); [by apply power_pos|]. rewrite Qmult_0_l.
        change (inject_Z 1) with 1%Q in Hval. unfold Qdiv in Hval. rewrite Qmult_1_r in Hval. rewrite Hval.
        apply Qmult_lt_0_compat; [apply inject_pos; lia|by apply power_pos]. }
      change 0%Q with (inject_Z 0) in Hpos. by rewrite <-Zlt_Qlt in Hpos.
    + unfold normal. intros Hnorm. cbn [rangeError]. destruct (Z.ltb_spec (Zpos m) (2 ^ 52)); [lia|done].
Qed.


(** An integer is written as a literal without a point. *)
Lemma number_literal z : - 2 ^ 63 <= z < 2 ^ 63 ->
  exists l, well_formed l /\ fractional l = [] /\ exponent l = None /\ number z = text l /\
    (if negative l then - digitsValue (whole l) else digitsValue (whole l)) = z.
Proof.
  intros Hz. change (2 ^ 63) with 9223372036854775808 in Hz. unfold number, numberSignedImpl_. 
  assert (forall v, 0 <= v < 2 ^ 64 -> exists c ds, numberUnsignedImpl_ v 10 = c :: ds /\ (c = x30 -> ds = []) /\
    digits_only (c :: ds) /\ digitsValue (c :: ds) = v) as Hd.
  { intros v Hv. pose proof (numberUnsignedImpl_digits v Hv) as Hn. destruct (Z.eq_dec v 0) as [E|E].
    - destruct Hn as (H1 & H2 & _ & H4 & _). rewrite (H4 E) in *. exists x30, []. done.
    - destruct (digits_first _ _ Hn ltac:(lia)) as (c & ds & Ec & Hc). exists c, ds. destruct Hn as (H1 & H2 & _). by rewrite Ec in *. }
  change (2 ^ 64) with 18446744073709551616 in Hd.
  destruct (Z.ltb_spec z 0).
  - rewrite add64_small by lia. destruct (Hd (- (z + 1) + 1) ltac:(lia)) as (c & ds & -> & Hc & H1 & H2).
    exists (mkLiteral true (c :: ds) [] None). split; [split; [done|]; split; [by exists c, ds|done]|]. split; [done|]. split; [done|].
    unfold text. cbn [negative whole fractional exponent isEmpty]. split; [by rewrite !app_nil_r|]. lia.
  - destruct (Hd z ltac:(lia)) as (c & ds & -> & Hc & H1 & H2).
    exists (mkLiteral false (c :: ds) [] None). split; [split; [done|]; split; [by exists c, ds|done]|]. split; [done|]. split; [done|].
    unfold text. cbn [negative whole fractional exponent isEmpty app]. split; [by rewrite !app_nil_r|]. done.
Qed.

Lemma strtoll_text l : well_formed l -> fractional l = [] -> exponent l = None ->
  let z := if negative l then - digitsValue (whole l) else digitsValue (whole l) in
  - 2 ^ 63 <= z < 2 ^ 63 -> strtoll (text l) = (z, [], false).
Proof.
  intros (Hw & (c & ds & Ew & _) & _) Ef Ee z Hz. unfold strtoll, text. rewrite Ef, Ee. cbn [isEmpty]. rewrite !app_nil_r.
  assert (readSign (span isSpace ((if negative l then str "-" else []) ++ whole l)).2 = (negative l, whole l)) as ->.
  { rewrite Ew in Hw |- *. apply readSign_literal. by apply Forall_cons_1 in Hw as [? _]. }
  rewrite <-(app_nil_r (whole l)) at 1. rewrite span_app by done. assert (isEmpty (whole l) = false) as -> by by rewrite Ew. fold z. cbv zeta.
  destruct (Z.ltb_spec z (- 2 ^ 63)); [lia|]. destruct (Z.ltb_spec (2 ^ 63 - 1) z); [lia|done].
Qed.

(** C35: numbers survive being written and read.  Every 64-bit integer is read back by
    [strtoll] from its text, with nothing left over and no range error; and every
    finite double is read back exactly by [strtod] from its literal, because seventeen
    significant digits are enough to tell the doubles apart, with no range error when
    it is zero or has its 53 bits. *)
Theorem numbers_survive_text :
  (forall z, - 2 ^ 63 <= z < 2 ^ 63 -> strtoll (number z) = (z, [], false)) /\
  (forall d, valid_double d -> exists erange, strtod (doubleLiteral d) = (d, [], erange) /\ (normal d -> erange = false)).
Proof.
  split.
  - intros z Hz. destruct (number_literal z Hz) as (l & Hw & Hf & He & -> & Hl). rewrite <-Hl in Hz |- *. by apply strtoll_text.
  - intros d Hd. destruct (doubleLiteral_literal d Hd) as (l & Hw & _ & -> & Hl & Hr). exists (rangeError d (literalFraction l)).
    rewrite strtod_text by done. by rewrite Hl.
Qed.

Lemma numbers_survive_text_witness :
  strtoll (number (-9223372036854775808)) = (-9223372036854775808, [], false) /\
  exists erange, strtod (doubleLiteral (S754_finite true 7205759403792794 (-56))) = (S754_finite true 7205759403792794 (-56), [], erange) /\
    (2 ^ 52 <= 7205759403792794 -> erange = false).
Proof.
  split; [apply (proj1 numbers_survive_text); split; [vm_compute; discriminate|vm_compute; reflexivity]|].
  apply (proj2 numbers_survive_text (S754_finite true 7205759403792794 (-56))). split; reflexivity.
Defined.

End NumberText.
