(* ===== verification/JsonValue.v ===== *)
(** JSON values: SwJsonValue, the fields of SwJsonObject and the items of SwJsonArray,
    their text (SwJsonInline.h) and its size (SwJsonSize.h); all under
    src/src/core/types.

    A value is a tree: copying an object or an array copies what is in it, and the
    pointers to them are taken as non-null.  The scan of a string for the next
    character to escape is vectorised in the code; here it is its scalar version. *)
From Stdlib Require Import ZArith Lia Strings.Byte Floats.SpecFloat.
From stdpp Require Import base list strings numbers.
From S2P Require Import Prelude SwString NumberText.

Import SwString.
Import NumberText.

Module SwJson.

(** ** Values *)

#[warnings="-register-all"]
Inductive SwJsonValue :=
| Null
| Boolean (boolValue : bool)
| Integer (intValue : Z)
| Double (doubleValue : spec_float)
| String (stringValue : list byte)
| Object (data : list (list byte * SwJsonValue))
| Array (data : list SwJsonValue).

(** The fields of an object are those of a [std::map], by key. *)
Abbreviation SwJsonObject := (list (list byte * SwJsonValue)).
Abbreviation SwJsonArray := (list SwJsonValue).

Definition isDouble (v : SwJsonValue) : bool := match v with Integer _ | Double _ => true | _ => false end.

Definition isNull (v : SwJsonValue) : bool := match v with Null => true | _ => false end.

(** [modf] leaves no fraction. *)
Definition isInt (v : SwJsonValue) : bool :=
  match v with
  | Integer _ => true
  | Double (S754_finite _ m e) => (0 <=? e) || (Zpos m mod 2 ^ (- e) =? 0)
  | Double (S754_nan) => false
  | Double _ => true
  | _ => false
  end.

Definition toBool (defaultValue : bool) (v : SwJsonValue) : bool :=
  match v with
  | Boolean b => b
  | Integer z => negb (z =? 0)
  | Double (S754_zero _) => false
  | Double _ => true
  | _ => defaultValue
  end.

Definition stringRef (v : SwJsonValue) : list byte := match v with String s => s | _ => [] end.

(** ** Objects *)

(** [data_[key] = value] *)
Fixpoint insert (key : list byte) (value : SwJsonValue) (object : SwJsonObject) : SwJsonObject :=
  match object with
  | [] => [(key, value)]
  | (k, v) :: object' =>
      if before key k then (key, value) :: object
      else if before k key then (k, v) :: insert key value object'
      else (k, value) :: object'
  end.

Fixpoint lookup (key : list byte) (object : SwJsonObject) : option SwJsonValue :=
  match object with
  | [] => None
  | (k, v) :: object' => if eqb k key then Some v else lookup key object'
  end.

Definition contains (key : list byte) (object : SwJsonObject) : bool :=
  match lookup key object with Some _ => true | None => false end.

Definition value (key : list byte) (defaultValue : SwJsonValue) (object : SwJsonObject) : SwJsonValue :=
  default defaultValue (lookup key object).

Fixpoint remove (key : list byte) (object : SwJsonObject) : SwJsonObject :=
  match object with
  | [] => []
  | (k, v) :: object' => if eqb k key then object' else (k, v) :: remove key object'
  end.

Definition take (key : list byte) (object : SwJsonObject) : SwJsonValue * SwJsonObject :=
  match lookup key object with
  | Some v => (v, remove key object)
  | None => (Null, object)
  end.

Definition keys (object : SwJsonObject) : list (list byte) := map fst object.

(** ** Text *)

Definition quote : byte := x22.
Definition backslash : byte := x5c.

Definition needsEscape (c : byte) : bool := (b2z c <? 0x20) || bool_decide (c = quote) || bool_decide (c = backslash).

(** Up to the next character to escape. *)
Definition ordinarySpan (s : list byte) : list byte * list byte := span (fun c => negb (needsEscape c)) s.

Definition hexCharacter (v : Z) : byte := z2b (if v <? 10 then 48 + v else 55 + v).

Definition escapeCharacter (c : byte) : list byte :=
  if decide (c = quote) then [backslash; quote]
  else if decide (c = backslash) then [backslash; backslash]
  else if decide (c = x08) then [backslash; x62]
  else if decide (c = x0c) then [backslash; x66]
  else if decide (c = x0a) then [backslash; x6e]
  else if decide (c = x0d) then [backslash; x72]
  else if decide (c = x09) then [backslash; x74]
  else [backslash; x75; x30; x30; hexCharacter (Z.shiftr (b2z c) 4); hexCharacter (Z.land (b2z c) 15)].

(** What [appendEscapedString] appends. *)
Fixpoint appendEscaped_loop (fuel : nat) (raw : list byte) : list byte :=
  match fuel with
  | O => []
  | S fuel' =>
      let (ordinary, raw) := ordinarySpan raw in
      ordinary ++
      match raw with
      | [] => []
      | c :: raw => escapeCharacter c ++ appendEscaped_loop fuel' raw
      end
  end.

Definition appendEscapedString (value : list byte) : list byte := appendEscaped_loop (S (length value)) value.

Definition quoted (s : list byte) : list byte := [quote] ++ appendEscapedString s ++ [quote].

Definition numberLiteral (v : SwJsonValue) : list byte :=
  match v with
  | Integer z => number z
  | Double d => doubleLiteral d
  | _ => doubleLiteral (S754_zero false)
  end.

Definition indentation (indentLevel : Z) : list byte :=
  if 0 <? indentLevel then replicate (Z.to_nat (indentLevel * 2)) x20 else [].

Definition newline : list byte := [x0a].

(** What stands before a field, or an item, that is not the [first]. *)
Definition separator (compact first : bool) : list byte :=
  if first then [] else if compact then str "," else str "," ++ newline.

(** The fields of an object whose indentation is [indent], [text] for each. *)
Fixpoint fieldsText (text : SwJsonValue -> list byte) (compact : bool) (indent : list byte) (first : bool)
    (object : SwJsonObject) : list byte :=
  match object with
  | [] => []
  | (key, field) :: object' =>
      separator compact first ++ (if compact then [] else newline ++ indent) ++
      quoted key ++ str ":" ++ (if compact then [] else str " ") ++ text field ++
      fieldsText text compact indent false object'
  end.

Fixpoint itemsText (text : SwJsonValue -> list byte) (compact : bool) (indent : list byte) (first : bool)
    (array : SwJsonArray) : list byte :=
  match array with
  | [] => []
  | item :: array' =>
      separator compact first ++ (if compact then [] else indent) ++ text item ++
      itemsText text compact indent false array'
  end.

Definition closing {A} (compact : bool) (indentLevel : Z) (data : list A) : list byte :=
  match data with _ :: _ => if compact then [] else newline ++ indentation indentLevel | [] => [] end.

(** What [appendJsonValue] appends. *)
Fixpoint toJsonString (compact : bool) (indentLevel : Z) (v : SwJsonValue) : list byte :=
  match v with
  | String s => quoted s
  | Boolean b => if b then str "true" else str "false"
  | Integer _ | Double _ => numberLiteral v
  | Object object =>
      str "{" ++ fieldsText (toJsonString compact (indentLevel + 1)) compact (indentation (indentLevel + 1)) true object ++
      closing compact indentLevel object ++ str "}"
  | Array array =>
      (if compact then str "[" else str "[" ++ newline) ++
      itemsText (toJsonString compact (indentLevel + 1)) compact (indentation (indentLevel + 1)) true array ++
      closing compact indentLevel array ++ str "]"
  | Null => str "null"
  end.

(** ** The size of the compact text *)

Module SwJsonSize.

Section Size.

Variables limit_ maxDepth_ : Z.

(** The state is [size_]; an exception is an error. *)
Definition add (bytes : Z) : M Z unit :=
  size_ ← get;
  fail_if (limit_ -u size_ <? bytes) "JSON exceeds size limit";;
  put (size_ +u bytes).

Definition characterSize (c : byte) : Z :=
  if bool_decide (c ∈ [quote; backslash; x08; x0c; x0a; x0d; x09]) then 2
  else if b2z c <? 32 then 6 else 1.

Fixpoint characters (text : list byte) : M Z unit :=
  match text with
  | [] => mret tt
  | c :: text' => add (characterSize c);; characters text'
  end.

Definition string_ (text : list byte) : M Z unit := add 2;; characters text.

(** [std::to_chars] with seventeen digits writes what the stream does. *)
Definition number_ (v : SwJsonValue) : M Z unit :=
  match v with
  | Integer z => add (zlen (number z))
  | Double d =>
      let buffer := printDouble d in
      let bytes := zlen buffer in
      add (if negb (bool_decide (x2e ∈ buffer)) && negb (bool_decide (x65 ∈ buffer)) then bytes + 2 else bytes)
  | _ => mret tt
  end.

Definition tooDeep (depth : Z) : M Z unit := fail_if (maxDepth_ <? depth) "JSON nesting exceeds depth limit".

Fixpoint fields_ (field_ : SwJsonValue -> M Z unit) (first : bool) (object : SwJsonObject) : M Z unit :=
  match object with
  | [] => mret tt
  | (key, field) :: object' =>
      (if first then mret tt else add 1);;
      string_ key;; add 1;; field_ field;;
      fields_ field_ false object'
  end.

Fixpoint items_ (item_ : SwJsonValue -> M Z unit) (first : bool) (array : SwJsonArray) : M Z unit :=
  match array with
  | [] => mret tt
  | item :: array' =>
      (if first then mret tt else add 1);;
      item_ item;;
      items_ item_ false array'
  end.

(** [value]; the call of [object] tests the depth again. *)
Fixpoint value_ (depth : Z) (v : SwJsonValue) : M Z unit :=
  tooDeep depth;;
  match v with
  | Object object => tooDeep depth;; add 2;; fields_ (value_ (depth + 1)) true object
  | Array array => add 2;; items_ (value_ (depth + 1)) true array
  | String s => string_ s
  | Integer _ => number_ v
  | Double d => fail_if (negb (isFinite d)) "non-finite JSON number";; number_ v
  | Boolean b => add (if b then 4 else 5)
  | Null => add 4
  end.

(** [object(input)], on a new [SwJsonSize]. *)
Definition object (input : SwJsonObject) : result Z :=
  match value_ 0 (Object input) 0 with
  | (Ok _, size_) => Ok size_
  | (Err e, _) => Err e
  | (NoFuel, _) => NoFuel
  end.

(** [member(name, input)]: a member without its braces. *)
Definition member (name : list byte) (input : SwJsonValue) : result Z :=
  match (string_ name;; add 1;; value_ 1 input) 0 with
  | (Ok _, size_) => Ok size_
  | (Err e, _) => Err e
  | (NoFuel, _) => NoFuel
  end.

End Size.

End SwJsonSize.

End SwJson.
