(* ===== verification/JsonDocument.v ===== *)
(** SwJsonDocument (src/src/core/types/SwJsonDocument.h): JSON text from a value and
    back, with the scalars encrypted under a key or not.

    A position in the text is what is left of it from there ([rest]); [index] is the
    number the code keeps. *)
From Stdlib Require Import ZArith Lia Strings.Byte Floats.SpecFloat.
From stdpp Require Import base list strings numbers.
From S2P Require Import Prelude SwString Crypto NumberText JsonValue.

Import SwString.
Import NumberText.
Import SwJson.

Module SwJsonDocument.

Inductive JsonFormat := Compact | Pretty.

Section Document.

Context `{E : EVP}.

(** [SwString::encryptAES] and [decryptAES]: empty when [SwCrypto] throws. *)
Definition encryptAES (key text : list byte) : list byte :=
  match SwCrypto.encryptAES text key with Ok code => code | _ => [] end.

Definition decryptAES (key code : list byte) : list byte :=
  match SwCrypto.decryptAES code key with Ok text => text | _ => [] end.

(** ** Encrypted scalars *)

Definition payloadPrefix : list byte := str "__swjson:v1:".

Definition encryptedScalarPayload (type value : list byte) : list byte := payloadPrefix ++ type ++ str ":" ++ value.

(** Whether [endPtr] is at the end of the string; the library reads a C string. *)
Definition readsAll {A} (read : list byte -> A * list byte * bool) (s : list byte) : A * bool * bool :=
  let '(value, left, erange) := read (beforeNul s) in
  (value, zlen (beforeNul s) - zlen left =? zlen s, erange).

Definition decodeEncryptedScalarPayload (payload : list byte) : option SwJsonValue :=
  if negb (startsWith payloadPrefix payload) then None
  else
    let body := midFrom (to_int (size payloadPrefix)) payload in
    let separator := indexOf (str ":") 0 body in
    if separator <? 0 then None
    else
      let type := left separator body in
      let value := midFrom (separator + 1) body in
      if eqb type (str "string") then Some (String value)
      else if eqb type (str "bool") then
        if eqb value (str "true") then Some (Boolean true)
        else if eqb value (str "false") then Some (Boolean false)
        else None
      else if eqb type (str "int") then
        let '(parsed, all, erange) := readsAll strtoll value in
        if negb all || erange then None else Some (Integer parsed)
      else if eqb type (str "double") then
        let '(parsed, all, erange) := readsAll strtod value in
        if negb all || erange then None else Some (Double parsed)
      else if eqb type (str "null") then
        if negb (isEmpty value) then None else Some Null
      else None.

(** ** Text from a value *)

Definition spaces (n : Z) : list byte := replicate (Z.to_nat n) x20.

(** The fields of an object, and the items of an array, as [generateJson] writes them. *)
Fixpoint generateFields (generate : SwJsonValue -> list byte) (pretty : bool) (childIndent : list byte) (first : bool)
    (object : SwJsonObject) : list byte :=
  match object with
  | [] => []
  | (key, field) :: object' =>
      (if first then [] else if pretty then str "," ++ newline else str ",") ++
      (if pretty then childIndent else []) ++ quoted key ++ str ": " ++ generate field ++
      generateFields generate pretty childIndent false object'
  end.

Fixpoint generateItems (generate : SwJsonValue -> list byte) (pretty : bool) (childIndent : list byte) (first : bool)
    (array : SwJsonArray) : list byte :=
  match array with
  | [] => []
  | item :: array' =>
      (if first then [] else if pretty then str "," ++ newline else str ",") ++
      (if pretty then childIndent else []) ++ generate item ++
      generateItems generate pretty childIndent false array'
  end.

(** What [generateJson] appends. *)
Fixpoint generateJson (pretty : bool) (encryptionKey : list byte) (indentLevel : Z) (v : SwJsonValue) : list byte :=
  let scalar (type : string) (raw plain : list byte) :=
    if isEmpty encryptionKey then plain
    else quoted (encryptAES encryptionKey (encryptedScalarPayload (str type) raw)) in
  let generate := generateJson pretty encryptionKey (indentLevel + 1) in
  let childIndent := spaces ((indentLevel + 1) * 2) in
  let opening bracket := if pretty then bracket ++ newline else bracket in
  let closing := if pretty then newline ++ spaces (indentLevel * 2) else [] in
  match v with
  | String s => scalar "string"%string s (quoted s)
  | Boolean b => let text := if b then str "true" else str "false" in scalar "bool"%string text text
  | Integer _ => scalar "int"%string (numberLiteral v) (numberLiteral v)
  | Double _ => scalar "double"%string (numberLiteral v) (numberLiteral v)
  | Null => scalar "null"%string [] (str "null")
  | Object [] => str "{}"
  | Object object => opening (str "{") ++ generateFields generate pretty childIndent true object ++ closing ++ str "}"
  | Array [] => str "[]"
  | Array array => opening (str "[") ++ generateItems generate pretty childIndent true array ++ closing ++ str "]"
  end.

Definition toJson (format : JsonFormat) (encryptionKey : list byte) (rootValue : SwJsonValue) : list byte :=
  generateJson (match format with Pretty => true | Compact => false end) encryptionKey 0 rootValue.

(** ** A value from text *)

(** A value, the message of [reportError], or a turn of the parser not allowed for. *)
Inductive outcome (A : Type) :=
| Success (a : A)
| Failure (errorMessage : list byte)
| OutOfFuel.

#[global] Arguments Success {A} a.
#[global] Arguments Failure {A} errorMessage.
#[global] Arguments OutOfFuel {A}.

#[global] Instance outcome_ret : MRet outcome := fun A a => Success a.

#[global] Instance outcome_bind : MBind outcome := fun A B k m =>
  match m with
  | Success a => k a
  | Failure e => Failure e
  | OutOfFuel => OutOfFuel
  end.

Section Parse.

Variables jsonString decryptionKey : list byte.

Definition index (rest : list byte) : Z := zlen jsonString - zlen rest.

(** Sizes as [int]s, the largest one for those that are too large. *)
Definition clampInt (n : Z) : Z := if n <=? int_max then n else int_max.

Definition errorText (errorIndex : Z) (message : string) : list byte :=
  let startContext := if 20 <? errorIndex then errorIndex - 20 else 0 in
  let endContext := Z.min (zlen jsonString) (errorIndex + 20) in
  let contextLen := endContext -u startContext in
  str message ++ str " (index " ++ numberUnsignedImpl_ errorIndex 10 ++ str ") near " ++ [quote] ++
  mid (clampInt startContext) (clampInt contextLen) jsonString ++ [quote].

Definition reportError {A} (errorIndex : Z) (message : string) : outcome A := Failure (errorText errorIndex message).

(** The characters from [rest], which are [n], as the code takes them out of the text. *)
Definition lexeme (rest : list byte) (n : Z) : list byte := mid (clampInt (index rest)) (clampInt n) jsonString.

Definition skipSpace (rest : list byte) : list byte := (span isSpace rest).2.

(** *** Strings *)

Definition parseUnicodeEscapeSequence (rest : list byte) : outcome (Z * list byte) :=
  let digit i k : outcome (Z * list byte) :=
    let value := hexDigit (nth i rest x00) in
    if value <? 0 then reportError (index rest + Z.of_nat i) "Invalid hex digit in Unicode escape" else k value in
  if zlen rest <? 4 then reportError (index rest) "Incomplete Unicode escape sequence"
  else
    digit 0%nat (fun v0 => digit 1%nat (fun v1 => digit 2%nat (fun v2 => digit 3%nat (fun v3 =>
      Success (Z.lor (Z.shiftl (Z.lor (Z.shiftl (Z.lor (Z.shiftl v0 4) v1) 4) v2) 4) v3, drop 4 rest))))).

(** What [appendUtf8FromCodePoint] appends. *)
Definition appendUtf8FromCodePoint (codePoint errorIndex : Z) : outcome (list byte) :=
  let six shift := z2b (Z.lor 0x80 (Z.land (Z.shiftr codePoint shift) 0x3F)) in
  if 0x10FFFF <? codePoint then reportError errorIndex "Unicode code point out of range"
  else if codePoint <=? 0x7F then Success [z2b codePoint]
  else if codePoint <=? 0x7FF then Success [z2b (Z.lor 0xC0 (Z.land (Z.shiftr codePoint 6) 0x1F)); six 0]
  else if codePoint <=? 0xFFFF then Success [z2b (Z.lor 0xE0 (Z.land (Z.shiftr codePoint 12) 0x0F)); six 6; six 0]
  else Success [z2b (Z.lor 0xF0 (Z.land (Z.shiftr codePoint 18) 0x07)); six 12; six 6; six 0].

(** The code point of an escape: one unit, or a pair of surrogates. *)
Definition readCodePoint (rest : list byte) : outcome (Z * list byte) :=
  '(codePoint, rest) ← parseUnicodeEscapeSequence rest;
  if (0xD800 <=? codePoint) && (codePoint <=? 0xDBFF) then
    match rest with
    | c1 :: c2 :: rest' =>
        if decide (c1 = backslash /\ c2 = x75) then
          '(low, rest) ← parseUnicodeEscapeSequence rest';
          if (low <? 0xDC00) || (0xDFFF <? low) then reportError (index rest) "Invalid low surrogate in Unicode escape"
          else Success (0x10000 + Z.shiftl (codePoint - 0xD800) 10 + (low - 0xDC00), rest)
        else reportError (index rest) "Missing low surrogate after high surrogate"
    | _ => reportError (index rest) "Missing low surrogate after high surrogate"
    end
  else if (0xDC00 <=? codePoint) && (codePoint <=? 0xDFFF) then
    reportError (index rest) "Unexpected low surrogate without leading high surrogate"
  else Success (codePoint, rest).

Definition simpleEscape (c : byte) : option byte :=
  if decide (c = quote) then Some quote
  else if decide (c = backslash) then Some backslash
  else if decide (c = x2f) then Some x2f
  else if decide (c = x62) then Some x08
  else if decide (c = x66) then Some x0c
  else if decide (c = x6e) then Some x0a
  else if decide (c = x72) then Some x0d
  else if decide (c = x74) then Some x09
  else None.

Fixpoint parseString_loop (fuel : nat) (result rest : list byte) : outcome (list byte * list byte) :=
  match fuel with
  | O => OutOfFuel
  | S fuel' =>
      let (ordinary, rest) := ordinarySpan rest in
      let result := result ++ ordinary in
      match rest with
      | [] => reportError (index rest) "Unterminated string literal"
      | c :: rest1 =>
          if decide (c = quote) then Success (result, rest1)
          else if decide (c = backslash) then
            match rest1 with
            | [] => reportError (index rest1) "Invalid escape sequence in string"
            | escapeChar :: rest2 =>
                match simpleEscape escapeChar with
                | Some c => parseString_loop fuel' (result ++ [c]) rest2
                | None =>
                    if decide (escapeChar = x75) then
                      '(codePoint, rest) ← readCodePoint rest2;
                      bytes ← appendUtf8FromCodePoint codePoint (index rest);
                      parseString_loop fuel' (result ++ bytes) rest
                    else reportError (index rest1) "Invalid escape character in string"
                end
            end
          else if b2z c <? 0x20 then reportError (index rest) "Unescaped control character in string"
          else parseString_loop fuel' (result ++ [c]) rest1
      end
  end.

(** From behind the opening quote. *)
Definition parseString (rest : list byte) : outcome (list byte * list byte) := parseString_loop (S (length rest)) [] rest.

(** *** Numbers and words *)

(** [at(index)], and the next position. *)
Definition current (rest : list byte) : byte := default x00 (head rest).

Definition skipDigits (rest : list byte) : list byte := (span isDigit rest).2.

(** Digits that must stand at [rest]. *)
Definition requireDigits (rest : list byte) (message : string) : outcome (list byte) :=
  if negb (isDigit (current rest)) then reportError (index rest) message else Success (skipDigits rest).

Definition integerPart (start : list byte) : outcome (list byte) :=
  let rest := if decide (current start = x2d) then tail start else start in
  if negb (isDigit (current rest)) then reportError (index rest) "Expected digit in number literal"
  else
    let leadingZero := bool_decide (current rest = x30) in
    let rest := tail rest in
    if leadingZero && isDigit (current rest) then reportError (index rest) "Leading zeros are not allowed in JSON numbers"
    else Success (skipDigits rest).

(** Whether there is one, and where it ends. *)
Definition fractionPart (rest : list byte) : outcome (bool * list byte) :=
  if decide (current rest = x2e) then
    rest ← requireDigits (tail rest) "Expected digit after decimal point";
    Success (true, rest)
  else Success (false, rest).

Definition exponentPart (rest : list byte) : outcome (bool * list byte) :=
  if bool_decide (current rest = x65) || bool_decide (current rest = x45) then
    let rest := tail rest in
    let rest := if bool_decide (current rest = x2b) || bool_decide (current rest = x2d) then tail rest else rest in
    rest ← requireDigits rest "Expected digit in exponent";
    Success (true, rest)
  else Success (false, rest).

Definition parseNumber (start : list byte) : outcome (SwJsonValue * list byte) :=
  rest ← integerPart start;
  '(hasFraction, rest) ← fractionPart rest;
  '(hasExponent, rest) ← exponentPart rest;
  let numberStd := lexeme start (index rest - index start) in
  if (hasFraction : bool) || (hasExponent : bool) then
    let '(value, all, _) := readsAll strtod numberStd in
    if negb all || negb (isFinite value) then reportError (index start) "Invalid floating-point number"
    else Success (Double value, rest)
  else
    let '(value, all, erange) := readsAll strtoll numberStd in
    if negb all || erange then reportError (index start) "Invalid integer number"
    else Success (Integer value, rest).

(** [std::isalpha] in the "C" locale. *)
Definition isAlpha (c : byte) : bool :=
  let v := b2z c in ((65 <=? v) && (v <=? 90)) || ((97 <=? v) && (v <=? 122)).

Definition parseLiteral (start : list byte) : list byte * list byte :=
  let (word, rest) := span isAlpha start in (lexeme start (zlen word), rest).

(** *** Encrypted tokens *)

Definition interpretDecrypted (decrypted : list byte) : SwJsonValue :=
  match decodeEncryptedScalarPayload decrypted with
  | Some typedValue => typedValue
  | None =>
      if eqb decrypted (str "true") then Boolean true
      else if eqb decrypted (str "false") then Boolean false
      else if eqb decrypted (str "null") then Null
      else if isEmpty decrypted then String decrypted
      else if existsb isPoint decrypted then
        let '(dblValue, all, erange) := readsAll strtod decrypted in
        if all && negb erange then Double dblValue else String decrypted
      else
        let '(intValue, all, erange) := readsAll strtoll decrypted in
        if all && negb erange then Integer intValue else String decrypted
  end.

Definition tryDecryptPrimitive (start : list byte) : option (SwJsonValue * list byte) :=
  if isEmpty decryptionKey then None
  else
    let (token, rest) := span (fun ch => negb (bool_decide (ch ∈ [x2c; x7d; x5d]) || isSpace ch)) start in
    if isEmpty token then None
    else
      let encryptedValue := mid (to_int (index start)) (to_int (zlen token)) jsonString in
      Some (interpretDecrypted (decryptAES decryptionKey encryptedValue), rest).

(** *** Values *)

(** The value of a string: under a key it is the decrypted text, or the scalar in it. *)
Definition stringValue_ (value : list byte) : SwJsonValue :=
  if isEmpty decryptionKey then String value
  else
    let value := decryptAES decryptionKey value in
    default (String value) (decodeEncryptedScalarPayload value).

(** A token that is neither an object, an array nor a string. *)
Definition parsePrimitive (c : byte) (start : list byte) : outcome (SwJsonValue * list byte) :=
  if isDigit c || bool_decide (c ∈ str "-tfn") || negb (isEmpty decryptionKey) then
    match tryDecryptPrimitive start with
    | Some decrypted => Success decrypted
    | None =>
        if bool_decide (c = x74) || bool_decide (c = x66) then
          let (literal, rest) := parseLiteral start in
          if eqb literal (str "true") then Success (Boolean true, rest)
          else if eqb literal (str "false") then Success (Boolean false, rest)
          else reportError (index rest) "Invalid boolean literal"
        else if bool_decide (c = x6e) then
          let (literal, rest) := parseLiteral start in
          if eqb literal (str "null") then Success (Null, rest)
          else reportError (index rest) "Invalid literal, expected 'null'"
        else parseNumber start
    end
  else reportError (index start) "Invalid JSON token".

Fixpoint parseJson (fuel : nat) (rest : list byte) : outcome (SwJsonValue * list byte) :=
  match fuel with
  | O => OutOfFuel
  | S fuel' =>
      let rest := skipSpace rest in
      match rest with
      | [] => reportError (index rest) "Unexpected end of JSON input"
      | c :: rest' =>
          if decide (c = x7b) then parseObject_loop fuel' [] rest'
          else if decide (c = x5b) then parseArray_loop fuel' [] rest'
          else if decide (c = quote) then
            '(value, rest) ← parseString rest';
            Success (stringValue_ value, rest)
          else parsePrimitive c rest
      end
  end

(** A turn of the loop of [parseObject]. *)
with parseObject_loop (fuel : nat) (object : SwJsonObject) (rest : list byte) : outcome (SwJsonValue * list byte) :=
  match fuel with
  | O => OutOfFuel
  | S fuel' =>
      let rest := skipSpace rest in
      match rest with
      | [] => reportError (index rest) "Unterminated JSON object"
      | c :: rest' =>
          if decide (c = x7d) then Success (Object object, rest')
          else if negb (bool_decide (c = quote)) then reportError (index rest) "Expected string key in object"
          else
            '(key, rest) ← parseString rest';
            let rest := skipSpace rest in
            if negb (bool_decide (head rest = Some x3a)) then reportError (index rest) "Expected ':' after object key"
            else
              '(value, rest) ← parseJson fuel' (tail rest);
              let object := insert key value object in
              let rest := skipSpace rest in
              match rest with
              | [] => reportError (index rest) "Unterminated JSON object"
              | c :: rest' =>
                  if decide (c = x2c) then parseObject_loop fuel' object rest'
                  else if decide (c = x7d) then Success (Object object, rest')
                  else reportError (index rest) "Expected ',' or '}' in object"
              end
      end
  end

with parseArray_loop (fuel : nat) (array : SwJsonArray) (rest : list byte) : outcome (SwJsonValue * list byte) :=
  match fuel with
  | O => OutOfFuel
  | S fuel' =>
      let rest := skipSpace rest in
      match rest with
      | [] => reportError (index rest) "Unterminated JSON array"
      | c :: rest' =>
          if decide (c = x5d) then Success (Array array, rest')
          else
            '(value, rest) ← parseJson fuel' rest;
            let array := array ++ [value] in
            let rest := skipSpace rest in
            match rest with
            | [] => reportError (index rest) "Unterminated JSON array"
            | c :: rest' =>
                if decide (c = x2c) then parseArray_loop fuel' array rest'
                else if decide (c = x5d) then Success (Array array, rest')
                else reportError (index rest) "Expected ',' or ']' in array"
            end
      end
  end.

(** A turn takes a character, or goes on to a value that takes one. *)
Definition parseFuel : nat := (2 * length jsonString + 2)%nat.

End Parse.

(** The root value and [errorMessage]; the answer is whether that is empty. *)
Definition loadFromJson (jsonString decryptionKey : list byte) : outcome (SwJsonValue * list byte) :=
  let start := if hasPrefix [xef; xbb; xbf] jsonString then drop 3 jsonString else jsonString in
  match parseJson jsonString decryptionKey (parseFuel jsonString) start with
  | Success (rootValue, rest) =>
      Success (rootValue, if isEmpty (skipSpace rest) then [] else str "Unexpected characters at the end of JSON.")
  | Failure errorMessage => Success (Null, errorMessage)
  | OutOfFuel => OutOfFuel
  end.

Definition fromJson (jsonString decryptionKey : list byte) : outcome SwJsonValue :=
  '(rootValue, _) ← loadFromJson jsonString decryptionKey; Success rootValue.

(** ** Paths *)

(** The value at the path, if there is one, and the root, which may have grown. *)
Fixpoint find_ (createIfNotExist : bool) (tokens : list (list byte)) (v : SwJsonValue) : option SwJsonValue * SwJsonValue :=
  match tokens with
  | [] => (Some v, v)
  | token :: tokens =>
      match (match v with Object object => Some object | _ => if createIfNotExist then Some [] else None end) with
      | None => (None, v)
      | Some object =>
          match (match lookup token object with Some child => Some child | None => if createIfNotExist then Some (Object []) else None end) with
          | None => (None, Object object)
          | Some child =>
              let (found, child) := find_ createIfNotExist tokens child in
              (found, Object (insert token child object))
          end
      end
  end.

Definition find (rawPath : list byte) (createIfNotExist : bool) (rootValue : SwJsonValue) : option SwJsonValue * SwJsonValue :=
  find_ createIfNotExist (split x2f (replace [backslash] (str "/") rawPath)) rootValue.

End Document.

End SwJsonDocument.
