(* ===== verification/JsonLaws.v ===== *)
(** Facts on the JSON values of JsonValue.v: induction, keys in order, escaped text,
    and the size of the compact text. *)
From Stdlib Require Import ZArith Lia Strings.Byte Floats.SpecFloat Sorting.Sorted.
From stdpp Require Import base list strings numbers.
From S2P Require Import Prelude SwString NumberText JsonValue.

Import SwString.
Import NumberText.
Import SwJson.

Module JsonLaws.

(** ** Induction *)

Section Induction.

Variable P : SwJsonValue -> Prop.
Hypothesis P_null : P Null.
Hypothesis P_boolean : forall b, P (Boolean b).
Hypothesis P_integer : forall z, P (Integer z).
Hypothesis P_double : forall d, P (Double d).
Hypothesis P_string : forall s, P (String s).
Hypothesis P_object : forall object, Forall (fun field => P field.2) object -> P (Object object).
Hypothesis P_array : forall array, Forall P array -> P (Array array).

Fixpoint value_induction (v : SwJsonValue) : P v :=
  match v with
  | Null => P_null
  | Boolean b => P_boolean b
  | Integer z => P_integer z
  | Double d => P_double d
  | String s => P_string s
  | Object object => P_object object
      ((fix fields (object : SwJsonObject) : Forall (fun field => P field.2) object :=
          match object with
          | [] => Forall_nil_2 _
          | (k, v) :: object' => Forall_cons_2 _ (k, v) object' (value_induction v) (fields object')
          end) object)
  | Array array => P_array array
      ((fix items (array : SwJsonArray) : Forall P array :=
          match array with
          | [] => Forall_nil_2 _
          | v :: array' => Forall_cons_2 _ v array' (value_induction v) (items array')
          end) array)
  end.

End Induction.

(** ** Keys *)

(** The order of the fields of a [std::map]. *)
Definition ordered (object : SwJsonObject) : Prop :=
  StronglySorted (fun f g => before f.1 g.1 = true) object.

Lemma ordered_insert k v object : ordered object ->
  ordered (insert k v object) /\ forall f, In f (insert k v object) -> f = (k, v) \/ In f object.
Proof.
  unfold ordered. induction 1 as [|[k0 v0] object Hs [IH Hin] Hall]; simpl.
  - split; [repeat constructor|]. intros f [<-|[]]. by left.
  - rewrite Forall_forall in Hall. destruct (before k k0) eqn:E1; [|destruct (before k0 k) eqn:E2].
    + split; [|intros f [<-|Hf]; auto]. repeat constructor; [done|by apply Forall_forall|done|].
      apply Forall_forall. intros g Hg. eapply before_trans; [exact E1|by apply Hall].
    + split; [|intros f [<-|Hf]; [auto|destruct (Hin f Hf); auto]]. constructor; [done|]. apply Forall_forall.
      intros g Hg. destruct (Hin g Hg) as [->|Hg']; [done|by apply Hall].
    + pose proof (before_total _ _ E1 E2) as ->. split; [|intros f [<-|Hf]; auto]. constructor; [done|by apply Forall_forall].
Qed.

(** A field that comes after all the others. *)
Lemma insert_last k v object : Forall (fun f => before f.1 k = true) object -> insert k v object = object ++ [(k, v)].
Proof.
  induction 1 as [|[k0 v0] object Hk _ IH]; [done|]. simpl in *. rewrite Hk, IH. destruct (before k k0) eqn:E; [|done].
  by rewrite (before_trans _ _ _ Hk E) in *|| (pose proof (before_trans _ _ _ Hk E) as Hf; by rewrite before_irrefl in Hf).
Qed.

(** ** Escaped text *)

(** Character by character. *)
Definition escaped (c : byte) : list byte := if needsEscape c then escapeCharacter c else [c].

Lemma span_spec p s : exists a b, span p s = (a, b) /\ s = a ++ b /\ Forall (fun c => p c = true) a /\
  (b = [] \/ exists c b', b = c :: b' /\ p c = false).
Proof.
  induction s as [|c s (a & b & E & Es & Ha & Hb)]; simpl.
  - exists [], []. split_and!; try done. by left.
  - destruct (p c) eqn:Hc.
    + exists (c :: a), b. rewrite E. split_and!; [done|by rewrite Es|by constructor|done].
    + exists [], (c :: s). split_and!; try done. right. by exists c, s.
Qed.

Lemma flat_map_ordinary a : Forall (fun c => negb (needsEscape c) = true) a -> flat_map escaped a = a.
Proof.
  induction 1 as [|c a Hc _ IH]; [done|]. simpl. rewrite IH. unfold escaped. by destruct (needsEscape c).
Qed.

(** The spans of ordinary characters make no difference. *)
Lemma appendEscaped_flat s : appendEscapedString s = flat_map escaped s.
Proof.
  unfold appendEscapedString. assert (length s < S (length s))%nat as Hf by lia. revert Hf. generalize (S (length s)) as fuel.
  intros fuel. revert s. induction fuel as [|fuel IH]; intros s Hf; [lia|]. cbn [appendEscaped_loop]. unfold ordinarySpan.
  destruct (span_spec (fun c => negb (needsEscape c)) s) as (a & b & -> & -> & Ha & Hb). rewrite flat_map_app, (flat_map_ordinary a Ha). f_equal.
  destruct Hb as [->|(c & b' & -> & Hc)]; [done|]. rewrite length_app in Hf. simpl in Hf |- *. rewrite IH by lia. unfold escaped at 2. by destruct (needsEscape c).
Qed.

(** ** Types *)

(** What the fields of a value may hold: 64-bit integers, doubles of 53 bits, and
    objects whose keys are in order. *)
Fixpoint typed (v : SwJsonValue) : Prop :=
  match v with
  | Integer z => - 2 ^ 63 <= z < 2 ^ 63
  | Double d => valid_binary 53 1024 d = true
  | Object object => ordered object /\ fold_right and True (map (fun field => typed field.2) object)
  | Array array => fold_right and True (map typed array)
  | _ => True
  end.

(** No double in it is infinite or not a number. *)
Fixpoint finite (v : SwJsonValue) : bool :=
  match v with
  | Double d => isFinite d
  | Object object => forallb (fun field => finite field.2) object
  | Array array => forallb finite array
  | _ => true
  end.

(** How deep containers stand in one another. *)
Fixpoint nesting (v : SwJsonValue) : Z :=
  match v with
  | Object object => fold_right Z.max 0 (map (fun field => 1 + nesting field.2) object)
  | Array array => fold_right Z.max 0 (map (fun item => 1 + nesting item) array)
  | _ => 0
  end.

Lemma all_true {A} (f : A -> Prop) l : fold_right and True (map f l) <-> Forall f l.
Proof.
  induction l as [|x l IH]; simpl; [split; [by constructor|done]|]. rewrite IH. split; [by intros [??]; constructor|by intros H; inversion H].
Qed.

(** ** The size *)

Section Size.

Variables limit_ maxDepth_ : Z.
Hypothesis limit_range : 0 <= limit_ <= u64_max.

(** [m] adds [n] to the size, or fails: when it is not [good], or when there is no room. *)
Definition grows (m : M Z unit) (good : bool) (n : Z) : Prop :=
  0 <= n /\ forall size_, 0 <= size_ <= limit_ ->
    if good && (size_ + n <=? limit_) then m size_ = (Ok tt, size_ + n) else exists e s, m size_ = (Err e, s).

Lemma grows_ret : grows (mret tt) true 0.
Proof. split; [lia|]. intros size_ Hs. destruct (Z.leb_spec (size_ + 0) limit_); [|lia]. cbn. by rewrite Z.add_0_r. Qed.

Lemma grows_add n : 0 <= n -> grows (SwJsonSize.add limit_ n) true n.
Proof.
  intros Hn. split; [done|]. intros size_ Hs. unfold SwJsonSize.add. m_run. rewrite sub64_small by (unfold u64_max in *; lia).
  destruct (Z.ltb_spec (limit_ - size_) n), (Z.leb_spec (size_ + n) limit_); try lia; cbn [andb]; [by eexists _, _|].
  by rewrite add64_small by (unfold u64_max in *; lia).
Qed.

Lemma grows_bind m k g1 g2 n1 n2 : grows m g1 n1 -> grows k g2 n2 -> grows (m;; k) (g1 && g2) (n1 + n2).
Proof.
  intros [H1 Hm] [H2 Hk]. split; [lia|]. intros size_ Hs. specialize (Hm size_ Hs). unfold mbind, M_bind.
  destruct g1; cbn [andb] in *; [|destruct Hm as (e & s & ->); by eexists _, _].
  destruct (Z.leb_spec (size_ + n1) limit_).
  - rewrite Hm. specialize (Hk (size_ + n1) ltac:(lia)). by rewrite <-Z.add_assoc in Hk.
  - destruct Hm as (e & s & ->). destruct g2; cbn [andb]; [|by eexists _, _]. destruct (Z.leb_spec (size_ + (n1 + n2)) limit_); [lia|by eexists _, _].
Qed.

Lemma grows_fail_if c msg : grows (fail_if c msg) (negb c) 0.
Proof.
  split; [lia|]. intros size_ Hs. destruct c; cbn; [by eexists _, _|]. destruct (Z.leb_spec (size_ + 0) limit_); [by rewrite Z.add_0_r|lia].
Qed.

Lemma grows_eq m g n g' n' : grows m g n -> g = g' -> n = n' -> grows m g' n'.
Proof. by intros ? -> ->. Qed.

Lemma characterSize_escaped c : SwJsonSize.characterSize c = zlen (escaped c).
Proof. by destruct c; vm_compute. Qed.

Lemma grows_characters s : grows (SwJsonSize.characters limit_ s) true (zlen (appendEscapedString s)).
Proof.
  rewrite appendEscaped_flat. induction s as [|c s IH]; [apply grows_ret|]. cbn [SwJsonSize.characters flat_map].
  rewrite characterSize_escaped. eapply grows_eq; [eapply grows_bind; [apply grows_add; lia|exact IH]|done|by rewrite zlen_app].
Qed.

Lemma grows_string s : grows (SwJsonSize.string_ limit_ s) true (zlen (quoted s)).
Proof.
  unfold SwJsonSize.string_, quoted. eapply grows_eq; [eapply grows_bind; [apply grows_add; lia|apply grows_characters]|done|].
  rewrite !zlen_app. simpl. lia.
Qed.

Lemma text_no_capital l : well_formed l -> x45 ∉ text l.
Proof.
  intros (Hw & _ & Hf & He). assert (forall ds, digits_only ds -> x45 ∉ ds) as Hd.
  { intros ds Hds Hin. apply list_elem_of_In in Hin. rewrite Forall_forall in Hds. by specialize (Hds _ Hin). }
  unfold text. rewrite !not_elem_of_app. split_and!.
  - destruct (negative l); [|apply not_elem_of_nil]. intros H. apply list_elem_of_In in H. by destruct H.
  - by apply Hd.
  - destruct (isEmpty (fractional l)); [apply not_elem_of_nil|]. rewrite not_elem_of_app. split; [|by apply Hd].
    intros H. apply list_elem_of_In in H. by destruct H.
  - destruct (exponent l) as [[n ds]|]; [|apply not_elem_of_nil]. rewrite !not_elem_of_app. destruct He as [He _]. split_and!; [| |by apply Hd];
      intros H; apply list_elem_of_In in H; destruct n; by destruct H.
Qed.

Lemma grows_double d : valid_double d -> grows (SwJsonSize.number_ limit_ (Double d)) true (zlen (doubleLiteral d)).
Proof.
  intros Hd. destruct (doubleLiteral_literal d Hd) as (l & Hl & _ & Et & _). pose proof (text_no_capital l Hl) as Hc. rewrite <-Et in Hc.
  unfold SwJsonSize.number_. cbv zeta. set (buffer := printDouble d) in *.
  assert (existsb isPoint buffer = bool_decide (x2e ∈ buffer) || bool_decide (x65 ∈ buffer)) as Hp.
  { assert (x45 ∉ buffer) as Hb.
    { intros Hin. apply Hc. unfold doubleLiteral. fold buffer. cbv zeta. destruct (_ && _); [apply elem_of_app; by left|done]. }
    clear -Hb. apply eq_true_iff_eq. rewrite existsb_exists, orb_true_iff, !bool_decide_eq_true, !list_elem_of_In. split.
    - intros (c & Hin & Hc). unfold isPoint in Hc. apply bool_decide_eq_true, list_elem_of_In in Hc. simpl in Hc.
      destruct Hc as [<-|[<-|[<-|[]]]]; [by left|by right|]. exfalso. apply Hb. by apply list_elem_of_In.
    - intros [H|H]; eexists; (split; [exact H|done]). }
  unfold doubleLiteral. fold buffer. cbv zeta. rewrite Hp, (proj2 Hd). cbn [andb]. rewrite negb_orb.
  destruct (_ && _); (apply grows_add; lia) || (rewrite zlen_app; simpl; apply grows_add; lia).
Qed.

Lemma grows_bad m n : 0 <= n -> (forall size_, exists e s, m size_ = (Err e, s)) -> grows m false n.
Proof. intros Hn Hm. split; [done|]. intros size_ _. apply Hm. Qed.

Lemma grows_deep depth m g n : grows m g n ->
  grows (SwJsonSize.tooDeep maxDepth_ depth;; m) ((depth <=? maxDepth_) && g) n.
Proof.
  intros Hm. eapply grows_eq; [eapply grows_bind; [apply grows_fail_if|exact Hm]| |lia]. by rewrite Z.ltb_antisym, negb_involutive.
Qed.

Lemma zlen_separator first : zlen (separator true first) = if first then 0 else 1.
Proof. by destruct first. Qed.

Lemma grows_first (first : bool) : grows (if first then mret tt else SwJsonSize.add limit_ 1) true (zlen (separator true first)).
Proof. rewrite zlen_separator. destruct first; [apply grows_ret|by apply grows_add]. Qed.

Lemma grows_fields (field_ : SwJsonValue -> M Z unit) text good indent first object :
  Forall (fun field => grows (field_ field.2) (good field.2) (zlen (text field.2))) object ->
  grows (SwJsonSize.fields_ limit_ field_ first object) (forallb (fun field => good field.2) object)
    (zlen (fieldsText text true indent first object)).
Proof.
  intros H. revert first. induction H as [|[k v] object Hv _ IH]; intros first; [apply grows_ret|]. cbn [SwJsonSize.fields_ fieldsText forallb snd].
  eapply grows_eq.
  - eapply grows_bind; [apply grows_first|]. eapply grows_bind; [apply grows_string|]. eapply grows_bind; [apply (grows_add 1); lia|].
    eapply grows_bind; [exact Hv|apply IH].
  - done.
  - cbn [app]. rewrite !zlen_app. change (zlen (str ":")) with 1. cbn [snd]. lia.
Qed.

Lemma grows_items (item_ : SwJsonValue -> M Z unit) text good indent first array :
  Forall (fun item => grows (item_ item) (good item) (zlen (text item))) array ->
  grows (SwJsonSize.items_ limit_ item_ first array) (forallb good array) (zlen (itemsText text true indent first array)).
Proof.
  intros H. revert first. induction H as [|v array Hv _ IH]; intros first; [apply grows_ret|]. cbn [SwJsonSize.items_ itemsText forallb].
  eapply grows_eq; [eapply grows_bind; [apply grows_first|]; eapply grows_bind; [exact Hv|apply IH]|done|].
  cbn [app]. rewrite !zlen_app. lia.
Qed.

(** The depth of a container is that of the deepest of what is in it. *)
Lemma deep_enough {A} (height : A -> Z) (fin : A -> bool) depth l : Forall (fun x => 0 <= height x) l ->
  (depth <=? maxDepth_) && forallb (fun x => fin x && (depth + 1 + height x <=? maxDepth_)) l =
  forallb fin l && (depth + fold_right Z.max 0 (map (fun x => 1 + height x) l) <=? maxDepth_).
Proof.
  induction 1 as [|x l Hx Hl IH]; [simpl; by rewrite Z.add_0_r, andb_true_r|]. cbn [forallb map fold_right].
  assert (0 <= fold_right Z.max 0 (map (fun x => 1 + height x) l)) as H0 by (clear -Hl; induction Hl; simpl; lia).
  set (m := fold_right Z.max 0 _) in *. set (all := forallb (fun x => _) l) in *. destruct (fin x); cbn [andb]; [|by rewrite andb_false_r].
  rewrite (andb_comm (depth + 1 + height x <=? maxDepth_)), andb_assoc, IH. destruct (forallb fin l); cbn [andb]; [|done].
  destruct (Z.leb_spec (depth + m) maxDepth_), (Z.leb_spec (depth + 1 + height x) maxDepth_), (Z.leb_spec (depth + Z.max (1 + height x) m) maxDepth_); try done; lia.
Qed.

Lemma nesting_nonneg v : 0 <= nesting v.
Proof.
  induction v as [|b|z|d|s|object IH|array IH] using value_induction; cbn [nesting]; try done; induction IH; simpl; lia.
Qed.

Lemma closing_compact {A} level (data : list A) : closing true level data = [].
Proof. by destruct data. Qed.

Lemma grows_value v : typed v -> forall depth level,
  grows (SwJsonSize.value_ limit_ maxDepth_ depth v) (finite v && (depth + nesting v <=? maxDepth_)) (zlen (toJsonString true level v)).
Proof.
  induction v as [|b|z|d|s|object IH|array IH] using value_induction; intros Ht depth level; cbn [SwJsonSize.value_ nesting].
  - rewrite Z.add_0_r. eapply grows_eq; [apply grows_deep, grows_add; lia|by rewrite andb_true_r|done].
  - rewrite Z.add_0_r. eapply grows_eq; [apply grows_deep, (grows_add (if b then 4 else 5)); destruct b; lia|by rewrite andb_true_r|by destruct b].
  - rewrite Z.add_0_r. eapply grows_eq; [apply grows_deep, grows_add; lia|by rewrite andb_true_r|done].
  - rewrite Z.add_0_r. cbn [finite]. destruct (isFinite d) eqn:Ef; cbn [negb andb].
    + eapply grows_eq; [apply grows_deep; eapply grows_bind; [apply grows_fail_if|apply grows_double; by split]|by rewrite andb_true_r|done].
    + eapply grows_eq; [apply grows_deep, (grows_bad _ (zlen (doubleLiteral d))); [lia|]|by rewrite andb_false_r|done].
      intros size_. by eexists _, _.
  - rewrite Z.add_0_r. eapply grows_eq; [apply grows_deep, grows_string|by rewrite andb_true_r|done].
  - destruct Ht as [_ Ht]. rewrite all_true in Ht. cbn [finite toJsonString]. rewrite <-deep_enough by (rewrite Forall_forall; intros; apply nesting_nonneg).
    eapply grows_eq.
    + apply grows_deep, grows_deep. eapply grows_bind; [apply grows_add; lia|].
      apply (grows_fields _ (toJsonString true (level + 1)) (fun v => finite v && (depth + 1 + nesting v <=? maxDepth_)) (indentation (level + 1))).
      rewrite Forall_forall in IH, Ht |- *. intros f Hf. apply IH; auto.
    + cbn [andb]. by rewrite andb_assoc, andb_diag.
    + rewrite closing_compact, !zlen_app. change (zlen (str "{")) with 1. change (zlen (str "}")) with 1. simpl length. lia.
  - cbn [typed] in Ht. rewrite all_true in Ht. cbn [finite toJsonString]. rewrite <-deep_enough by (rewrite Forall_forall; intros; apply nesting_nonneg).
    eapply grows_eq.
    + apply grows_deep. eapply grows_bind; [apply grows_add; lia|].
      apply (grows_items _ (toJsonString true (level + 1)) (fun v => finite v && (depth + 1 + nesting v <=? maxDepth_)) (indentation (level + 1))).
      rewrite Forall_forall in IH, Ht |- *. intros f Hf. apply IH; auto.
    + done.
    + rewrite closing_compact, !zlen_app. change (zlen (str "[")) with 1. change (zlen (str "]")) with 1. simpl length. lia.
Qed.

End Size.

(** C34: [SwJsonSize] is exact.  For an object of 64-bit integers, binary64 doubles and
    ordered keys, [SwJsonSize(limit, maxDepth).object] answers exactly the length of
    the compact text that [toJsonString] would write, provided that every double is
    finite, that nothing stands deeper than [maxDepth] and that the text is no longer
    than [limit]; otherwise, and only then, it throws. *)
Theorem size_is_exact limit maxDepth input : 0 <= limit <= u64_max -> typed (Object input) ->
  let n := zlen (toJsonString true 0 (Object input)) in
  let fits := finite (Object input) && (nesting (Object input) <=? maxDepth) && (n <=? limit) in
  match SwJsonSize.object limit maxDepth input with
  | Ok size_ => fits = true /\ size_ = n
  | Err _ => fits = false
  | NoFuel => False
  end.
Proof.
  intros Hl Ht n fits. destruct (grows_value limit maxDepth Hl (Object input) Ht 0 0) as [_ H]. specialize (H 0 ltac:(lia)).
  rewrite !Z.add_0_l in H. fold n fits in H. unfold SwJsonSize.object. destruct fits; [by rewrite H|by destruct H as (e & s & ->)].
Qed.

Definition example_object : SwJsonObject :=
  [(str "a", Array [Integer (-12); Null; Double (S754_finite false 7205759403792794 (-56))]); (str "b", String [x22; x01])].

Lemma size_is_exact_witness :
  0 <= 100 <= u64_max /\ typed (Object example_object) /\
  match SwJsonSize.object 100 64 example_object with
  | Ok size_ => finite (Object example_object) && (nesting (Object example_object) <=? 64) && (zlen (toJsonString true 0 (Object example_object)) <=? 100) = true
      /\ size_ = zlen (toJsonString true 0 (Object example_object))
  | Err _ => finite (Object example_object) && (nesting (Object example_object) <=? 64) && (zlen (toJsonString true 0 (Object example_object)) <=? 100) = false
  | NoFuel => False
  end.
Proof.
  assert (0 <= 100 <= u64_max) as H1 by (vm_compute; split; discriminate).
  assert (typed (Object example_object)) as H2 by (split; [repeat constructor|vm_compute; intuition discriminate]).
  split; [exact H1|]. split; [exact H2|]. exact (size_is_exact 100 64 example_object H1 H2).
Defined.

End JsonLaws.
