(* ===== verification/JsonSpec.v ===== *)
(** SwJsonDocument of JsonDocument.v: what is written is read back, and whatever the
    text the parser returns, with a value of the right types. *)
From Stdlib Require Import ZArith Lia Strings.Byte Floats.SpecFloat Sorting.Sorted.
From stdpp Require Import base list strings numbers.
From S2P Require Import Prelude SwString Crypto NumberText JsonValue JsonDocument JsonLaws.

Import SwString.
Import NumberText.
Import SwJson.
Import JsonLaws.

Module JsonSpec.

Import SwJsonDocument.

Section Spec.

Context {V : EVP} {EL : EVPLaws V}.

(** ** Numbers in C strings *)

Lemma readsAll_plain {A} (read : list byte -> A * list byte * bool) s v er : x00 ∉ s -> read s = (v, [], er) -> readsAll read s = (v, true, er).
Proof.
  intros Hs Hr. unfold readsAll. assert (beforeNul s = s) as ->.
  { clear Hr. induction s as [|c s IH]; [done|]. rewrite not_elem_of_cons in Hs. simpl. destruct (decide (c = x00)) as [->|]; [by destruct (proj1 Hs)|]. f_equal. apply IH, Hs. }
  rewrite Hr. f_equal. f_equal. simpl. apply Z.eqb_eq. lia.
Qed.

Lemma text_character l c : well_formed l -> c ∈ text l -> isDigit c = true \/ c ∈ str "-+.e".
Proof.
  intros (Hw & _ & Hf & He) Hin. assert (forall ds, digits_only ds -> c ∈ ds -> isDigit c = true) as Hd.
  { intros ds Hds Hc. apply list_elem_of_In in Hc. rewrite Forall_forall in Hds. auto. }
  unfold text in Hin. rewrite !elem_of_app in Hin. destruct Hin as [Hin|[Hin|[Hin|Hin]]].
  - right. destruct (negative l); [|by apply elem_of_nil in Hin]. apply list_elem_of_In in Hin. apply list_elem_of_In. destruct Hin as [<-|[]]. by left.
  - left. by apply (Hd _ Hw).
  - destruct (isEmpty (fractional l)); [by apply elem_of_nil in Hin|]. apply elem_of_app in Hin as [Hin|Hin]; [right|left; by apply (Hd _ Hf)].
    apply list_elem_of_In in Hin. apply list_elem_of_In. destruct Hin as [<-|[]]. simpl. auto.
  - destruct (exponent l) as [[n ds]|]; [|by apply elem_of_nil in Hin]. destruct He as [He _]. rewrite !elem_of_app in Hin.
    destruct Hin as [Hin|[Hin|Hin]]; [right|right|left; by apply (Hd _ He)]; apply list_elem_of_In in Hin; apply list_elem_of_In;
      [|destruct n]; destruct Hin as [<-|[]]; simpl; auto.
Qed.

Lemma text_no_nul l : well_formed l -> x00 ∉ text l.
Proof.
  intros Hl Hin. destruct (text_character l _ Hl Hin) as [H|H]; [done|]. apply list_elem_of_In in H. by repeat destruct H as [H|H].
Qed.

Lemma text_first l : well_formed l -> exists c s, text l = c :: s /\ (isDigit c = true \/ c = x2d).
Proof.
  intros (Hw & (c & ds & Ew & _) & _). rewrite Ew in Hw. apply Forall_cons_1 in Hw as [Hc _]. unfold text. rewrite Ew.
  destruct (negative l); [by eexists _, _; split; [done|right]|]. eexists _, _. split; [done|by left].
Qed.

Lemma readsAll_number z : - 2 ^ 63 <= z < 2 ^ 63 -> readsAll strtoll (number z) = (z, true, false).
Proof.
  intros Hz. destruct (number_literal z Hz) as (l & Hl & Hf & He & -> & Ez). rewrite <-Ez in Hz |- *.
  apply readsAll_plain; [by apply text_no_nul|by apply strtoll_text].
Qed.

Lemma readsAll_double d : valid_double d -> normal d -> readsAll strtod (doubleLiteral d) = (d, true, false).
Proof.
  intros Hd Hn. destruct (doubleLiteral_literal d Hd) as (l & Hl & _ & -> & El & Hr). apply readsAll_plain; [by apply text_no_nul|].
  rewrite strtod_text by done. by rewrite El, Hr.
Qed.

(** ** Encrypted scalars *)

(** The parts of a payload. *)
Lemma payload_parts type raw : x3a ∉ type -> zlen (encryptedScalarPayload type raw) < 2147483648 ->
  startsWith payloadPrefix (encryptedScalarPayload type raw) = true /\
  midFrom (to_int (size payloadPrefix)) (encryptedScalarPayload type raw) = type ++ str ":" ++ raw /\
  indexOf (str ":") 0 (type ++ str ":" ++ raw) = zlen type /\
  left (zlen type) (type ++ str ":" ++ raw) = type /\
  midFrom (zlen type + 1) (type ++ str ":" ++ raw) = raw.
Proof.
  intros Ht Hs. unfold encryptedScalarPayload in *. split; [apply hasPrefix_spec; by eexists|].
  change (to_int (size payloadPrefix)) with 12. rewrite midFrom_drop by lia. split; [done|].
  rewrite zlen_app in Hs. change (zlen payloadPrefix) with 12 in Hs. split; [|split].
  - rewrite zlen_app in Hs. by apply indexOf_char; [|lia].
  - apply left_app.
  - rewrite midFrom_drop by (rewrite ?zlen_app in *; lia). replace (Z.to_nat (zlen type + 1)) with (length (type ++ str ":")) by (rewrite length_app; simpl; lia).
    by rewrite app_assoc, drop_app_length.
Qed.

Definition scalar (v : SwJsonValue) : bool := match v with Object _ | Array _ => false | _ => true end.

(** What is encrypted for a scalar. *)
Definition scalarPayload (v : SwJsonValue) : list byte :=
  match v with
  | String s => encryptedScalarPayload (str "string") s
  | Boolean b => encryptedScalarPayload (str "bool") (if b then str "true" else str "false")
  | Integer _ => encryptedScalarPayload (str "int") (numberLiteral v)
  | Double _ => encryptedScalarPayload (str "double") (numberLiteral v)
  | _ => encryptedScalarPayload (str "null") []
  end.

(** What text keeps exactly: finite doubles; under a key, doubles of 53 bits, and texts
    that can be encrypted. *)
Fixpoint kept (key : list byte) (v : SwJsonValue) : Prop :=
  match v with
  | Object object => fold_right and True (map (fun field => kept key field.2) object)
  | Array array => fold_right and True (map (kept key) array)
  | Double d => isFinite d = true /\ (key <> [] -> normal d)
  | String s => key <> [] -> zlen s < 2147483600
  | _ => True
  end.

Lemma generateJson_scalar pretty key level v : scalar v = true -> key <> [] ->
  generateJson pretty key level v = quoted (encryptAES key (scalarPayload v)).
Proof. intros Hv Hk. by destruct key, v. Qed.

Lemma decode_scalar v key : scalar v = true -> typed v -> kept key v -> key <> [] -> zlen (scalarPayload v) < 2147483648 ->
  decodeEncryptedScalarPayload (scalarPayload v) = Some v.
Proof.
  intros Hv Ht Hk Hne Hs. unfold decodeEncryptedScalarPayload.
  destruct v as [|b|z|d|s| |]; try discriminate Hv; cbn [scalarPayload] in *;
    match goal with |- context [encryptedScalarPayload (str ?t) ?raw] =>
      destruct (payload_parts (str t) raw) as (-> & -> & E1 & E2 & E3); [refine (bool_decide_eq_false_1 _ _); reflexivity|done|] end;
    cbv zeta; cbn [negb]; rewrite E1; match goal with |- context [zlen (str ?t) <? 0] => change (zlen (str t) <? 0) with false end; cbv iota; rewrite E2, E3.
  - done.
  - by destruct b.
  - change (readsAll strtoll (numberLiteral (Integer z))) with (readsAll strtoll (number z)). rewrite readsAll_number by exact Ht. done.
  - change (readsAll strtod (numberLiteral (Double d))) with (readsAll strtod (doubleLiteral d)).
    rewrite readsAll_double by (try split; try apply Hk; done). done.
  - done.
Qed.

Lemma general17_length r : zlen (general17 r) <= 300.
Proof.
  unfold general17. destruct (digits17 r) as [d x]. destruct (dropZeros_spec (numberUnsignedImpl_ d 10)) as (n & Hn & Ed).
  apply (f_equal length) in Ed. rewrite length_app in Ed. pose proof (numberUnsignedImpl_length d). pose proof (numberUnsignedImpl_length (Z.abs x)).
  set (ds := dropZeros _) in *. unfold zeros. cbv zeta.
  destruct ((-4 <=? x) && (x <? 17)) eqn:E.
  - rewrite andb_true_iff, Z.leb_le, Z.ltb_lt in E. destruct (Z.leb_spec 0 x); [destruct (_ <=? _)|];
      rewrite !length_app, ?length_take, ?length_drop, ?length_replicate; change (length (str ".")) with 1%nat; change (length (str "0.")) with 2%nat; lia.
  - rewrite !length_app, !length_take, length_replicate. change (length (str "e")) with 1%nat.
    assert (zlen (if zlen ds <=? 1 then [] else str "." ++ drop 1 ds) <= 1 + zlen ds) by (destruct (zlen ds <=? 1); [change (zlen (@nil byte)) with 0; lia|rewrite length_app, length_drop; change (length (str ".")) with 1%nat; lia]).
    assert (zlen (if x <? 0 then str "-" else str "+") <= 1) by (by destruct (x <? 0)). lia.
Qed.

Lemma numberLiteral_length v : zlen (numberLiteral v) <= 400.
Proof.
  assert (forall s : bool, zlen (if s then str "-" else []) <= 1) as Hs by (by intros []).
  assert (forall d, zlen (printDouble d) <= 301) as Hp.
  { intros [s|s| |s m e]; cbn [printDouble]; rewrite ?zlen_app; try specialize (Hs s); try (simpl length in *; lia).
    pose proof (general17_length (fraction m e)). lia. }
  assert (forall d, zlen (doubleLiteral d) <= 303) as Hd.
  { intros d. unfold doubleLiteral. cbv zeta. specialize (Hp d). destruct (_ && _); [rewrite zlen_app; change (zlen (str ".0")) with 2|]; lia. }
  destruct v as [| |z| | | |]; cbn [numberLiteral]; try (etrans; [apply Hd|lia]). unfold number, numberSignedImpl_. cbv zeta.
  pose proof (numberUnsignedImpl_length (if z <? 0 then - (z + 1) +u 1 else z)). destruct (_ <? 0); [rewrite zlen_app; change (zlen (str "-")) with 1|]; lia.
Qed.

Lemma scalarPayload_length v key : scalar v = true -> kept key v -> key <> [] -> zlen (scalarPayload v) < 2147483632.
Proof.
  intros Hv Hk Hne. pose proof (numberLiteral_length v) as Hn.
  destruct v as [|b|z|d|s| |]; try discriminate Hv; cbn [scalarPayload]; unfold encryptedScalarPayload; rewrite !zlen_app; change (zlen payloadPrefix) with 12; change (zlen (str ":")) with 1;
    match goal with |- context [zlen (str ?t)] => let n := eval compute in (zlen (str t)) in change (zlen (str t)) with n end; try lia.
  - simpl length. lia.
  - destruct b; [change (zlen (str "true")) with 4|change (zlen (str "false")) with 5]; lia.
  - specialize (Hk Hne). lia.
Qed.

Lemma decryptAES_payload v key : scalar v = true -> kept key v -> key <> [] -> decryptAES key (encryptAES key (scalarPayload v)) = scalarPayload v.
Proof.
  intros Hv Hk Hne. destruct (SwCrypto.encryptAES_inverse (scalarPayload v) key) as (code & He & _ & Hd); [by eapply scalarPayload_length|].
  unfold encryptAES, decryptAES. by rewrite He, Hd.
Qed.

(** ** Texts of a value *)

Abbreviation blank := (Forall (fun c => isSpace c = true)).

Section Written.

Variable key : list byte.

(** The texts of a value: its scalars as [generateJson] writes them, with spaces
    between the tokens of objects and arrays. *)
Inductive written : SwJsonValue -> list byte -> Prop :=
| written_scalar v : scalar v = true -> written v (generateJson false key 0 v)
| written_object object t : writtenFields object t -> written (Object object) (x7b :: t)
| written_array array t : writtenItems array t -> written (Array array) (x5b :: t)
with writtenFields : SwJsonObject -> list byte -> Prop :=
| fields_none s : blank s -> writtenFields [] (s ++ str "}")
| fields_last k v t s1 s2 s3 : blank s1 -> blank s2 -> blank s3 -> written v t ->
    writtenFields [(k, v)] (s1 ++ quoted k ++ str ":" ++ s2 ++ t ++ s3 ++ str "}")
| fields_more k v t s1 s2 object t' : blank s1 -> blank s2 -> written v t -> writtenFields object t' ->
    writtenFields ((k, v) :: object) (s1 ++ quoted k ++ str ":" ++ s2 ++ t ++ str "," ++ t')
with writtenItems : SwJsonArray -> list byte -> Prop :=
| items_none s : blank s -> writtenItems [] (s ++ str "]")
| items_last v t s1 s2 : blank s1 -> blank s2 -> written v t -> writtenItems [v] (s1 ++ t ++ s2 ++ str "]")
| items_more v t s array t' : blank s -> written v t -> writtenItems array t' -> writtenItems (v :: array) (s ++ t ++ str "," ++ t').

Scheme written_ind' := Induction for written Sort Prop
  with writtenFields_ind' := Induction for writtenFields Sort Prop
  with writtenItems_ind' := Induction for writtenItems Sort Prop.
Combined Scheme written_mutual from written_ind', writtenFields_ind', writtenItems_ind'.

Lemma scalar_first v : scalar v = true -> typed v -> kept key v ->
  exists c t, generateJson false key 0 v = c :: t /\ isSpace c = false /\ c <> x5d /\ c <> xef.
Proof.
  intros Hv Ht Hk. assert (forall s, exists t, quoted s = quote :: t) as Hq by (intros s; by eexists).
  destruct (decide (key = [])) as [E|Hne]; [|rewrite generateJson_scalar by done; destruct (Hq (encryptAES key (scalarPayload v))) as [t ->]; by exists quote, t].
  assert (forall l, well_formed l -> exists c t, text l = c :: t /\ isSpace c = false /\ c <> x5d /\ c <> xef) as Hn.
  { intros l Hl. destruct (text_first l Hl) as (c & t & -> & Hc). exists c, t. split; [done|].
    destruct Hc as [Hc| ->]; [|done]. clear -Hc. by destruct c. }
  rewrite E in *. destruct v as [|b|z|d|s| |]; try discriminate Hv; cbn [generateJson isEmpty].
  - by eexists _, _.
  - destruct b; by eexists _, _.
  - destruct (number_literal z Ht) as (l & Hl & _ & _ & Et & _). change (numberLiteral (Integer z)) with (number z). rewrite Et. by apply Hn.
  - destruct (doubleLiteral_literal d (conj Ht (proj1 Hk))) as (l & Hl & _ & Et & _). change (numberLiteral (Double d)) with (doubleLiteral d). rewrite Et. by apply Hn.
  - destruct (Hq s) as [t ->]. by eexists _, _.
Qed.

Lemma written_first v t : written v t -> typed v -> kept key v -> exists c t', t = c :: t' /\ isSpace c = false /\ c <> x5d /\ c <> xef.
Proof. intros [] ? ?; [by apply scalar_first|by eexists _, _..]. Qed.

(** *** The writers *)

(** The fields behind the first one, each with its comma. *)
Lemma fields_written generate tail s1 s2 close : blank s1 -> blank s2 -> blank close -> tail [] = [] ->
  (forall k v object, tail ((k, v) :: object) = str "," ++ s1 ++ quoted k ++ str ":" ++ s2 ++ generate v ++ tail object) ->
  forall object k v s0, blank s0 -> Forall (fun field => written field.2 (generate field.2)) ((k, v) :: object) ->
  writtenFields ((k, v) :: object) (s0 ++ quoted k ++ str ":" ++ s2 ++ generate v ++ tail object ++ close ++ str "}").
Proof.
  intros H1 H2 Hc Hnil Hcons object. induction object as [|[k' v'] object IH]; intros k v s0 H0 Hw; apply Forall_cons_1 in Hw as [Hv Hw].
  - rewrite Hnil. by apply fields_last.
  - rewrite Hcons. rewrite <-!app_assoc. apply fields_more; try done. by apply IH.
Qed.

Lemma items_written generate tail s1 close : blank s1 -> blank close -> tail [] = [] ->
  (forall v array, tail (v :: array) = str "," ++ s1 ++ generate v ++ tail array) ->
  forall array v s0, blank s0 -> Forall (fun item => written item (generate item)) (v :: array) ->
  writtenItems (v :: array) (s0 ++ generate v ++ tail array ++ close ++ str "]").
Proof.
  intros H1 Hc Hnil Hcons array. induction array as [|v' array IH]; intros v s0 H0 Hw; apply Forall_cons_1 in Hw as [Hv Hw].
  - rewrite Hnil. by apply items_last.
  - rewrite Hcons. rewrite <-!app_assoc. apply items_more; try done. by apply IH.
Qed.

Lemma spaces_blank n : blank (spaces n).
Proof. unfold spaces. induction (Z.to_nat n); by constructor. Qed.

Lemma newline_blank : blank newline.
Proof. by repeat constructor. Qed.

Hint Resolve spaces_blank newline_blank Forall_nil_2 Forall_app_2 : core.

Lemma blank_if (b : bool) s t : blank s -> blank t -> blank (if b then s else t).
Proof. by destruct b. Qed.

Lemma generateJson_written pretty v : forall level, written v (generateJson pretty key level v).
Proof.
  induction v as [|b|z|d|s|object IH|array IH] using value_induction; intros level;
    try (match goal with |- written ?v _ => change (generateJson pretty key level v) with (generateJson false key 0 v) end; by apply written_scalar).
  - destruct object as [|[k v] object]; [by apply (written_object [] (str "}")), (fields_none [])|]. cbn [generateJson generateFields app].
    pose proof (spaces_blank ((level + 1) * 2)) as Hi. set (indent := spaces ((level + 1) * 2)) in *. set (generate := generateJson pretty key (level + 1)) in *.
    replace ((if pretty then str "{" ++ newline else str "{") ++ ((if pretty then indent else []) ++ quoted k ++ str ": " ++ generate v ++ generateFields generate pretty indent false object) ++ _)
      with (x7b :: (if pretty then newline ++ indent else []) ++ quoted k ++ str ":" ++ str " " ++ generate v ++ generateFields generate pretty indent false object ++ (if pretty then newline ++ spaces (level * 2) else []) ++ str "}")
      by (rewrite <-!app_assoc; by destruct pretty).
    apply written_object, (fields_written generate (generateFields generate pretty indent false) (if pretty then newline ++ indent else []) (str " ")).
    all: try (by apply blank_if; auto); try (by repeat constructor); try done.
    + intros k' v' o'. cbn [generateFields]. destruct pretty; by rewrite <-?app_assoc.
    + eapply Forall_impl; [|exact IH]. intros [k' v'] H. apply H.
  - destruct array as [|v array]; [by apply (written_array [] (str "]")), (items_none [])|]. cbn [generateJson generateItems app].
    pose proof (spaces_blank ((level + 1) * 2)) as Hi. set (indent := spaces ((level + 1) * 2)) in *. set (generate := generateJson pretty key (level + 1)) in *.
    replace ((if pretty then str "[" ++ newline else str "[") ++ ((if pretty then indent else []) ++ generate v ++ generateItems generate pretty indent false array) ++ _)
      with (x5b :: (if pretty then newline ++ indent else []) ++ generate v ++ generateItems generate pretty indent false array ++ (if pretty then newline ++ spaces (level * 2) else []) ++ str "]")
      by (rewrite <-!app_assoc; by destruct pretty).
    apply written_array, (items_written generate (generateItems generate pretty indent false) (if pretty then newline ++ indent else [])).
    all: try (by apply blank_if; auto); try (by repeat constructor); try done.
    + intros v' o'. cbn [generateItems]. destruct pretty; by rewrite <-?app_assoc.
    + eapply Forall_impl; [|exact IH]. intros v' H. apply H.
Qed.

Lemma indentation_blank level : blank (indentation level).
Proof. unfold indentation. destruct (0 <? level); [|done]. induction (Z.to_nat (level * 2)); by constructor. Qed.

Lemma toJsonString_written compact v : key = [] -> forall level, written v (toJsonString compact level v).
Proof.
  intros Hk. induction v as [|b|z|d|s|object IH|array IH] using value_induction; intros level;
    try (match goal with |- written ?v _ => replace (toJsonString compact level v) with (generateJson false key 0 v) by by rewrite Hk end; by apply written_scalar).
  - destruct object as [|[k v] object]; [by apply (written_object [] (str "}")), (fields_none [])|]. cbn [toJsonString fieldsText separator app closing].
    pose proof (indentation_blank (level + 1)) as Hi. set (indent := indentation (level + 1)) in *. set (text := toJsonString compact (level + 1)) in *.
    set (colon := if compact then [] else str " "). set (front := if compact then [] else newline ++ indent).
    set (close := if compact then [] else newline ++ indentation level).
    replace (str "{" ++ _) with (x7b :: front ++ quoted k ++ str ":" ++ colon ++ text v ++ fieldsText text compact indent false object ++ close ++ str "}")
      by (by rewrite <-!app_assoc).
    apply written_object, (fields_written text (fieldsText text compact indent false) (if compact then [] else newline ++ newline ++ indent) colon).
    all: try (by apply blank_if; auto using indentation_blank); try done.
    + by destruct compact; repeat constructor.
    + intros k' v' o'. cbn [fieldsText separator]. unfold colon. destruct compact; by rewrite <-?app_assoc.
    + eapply Forall_impl; [|exact IH]. intros [k' v'] H. apply H.
  - destruct array as [|v array].
    { cbn [toJsonString itemsText closing app]. destruct compact; [by apply (written_array [] (str "]")), (items_none [])|by apply (written_array [] (newline ++ str "]")), (items_none newline)]. }
    cbn [toJsonString itemsText separator app closing].
    pose proof (indentation_blank (level + 1)) as Hi. set (indent := indentation (level + 1)) in *. set (text := toJsonString compact (level + 1)) in *.
    set (front := if compact then [] else indent). set (close := if compact then [] else newline ++ indentation level).
    replace ((if compact then str "[" else str "[" ++ newline) ++ _) with
      (x5b :: (if compact then [] else newline ++ indent) ++ text v ++ itemsText text compact indent false array ++ close ++ str "]")
      by (unfold front; rewrite <-!app_assoc; by destruct compact).
    apply written_array, (items_written text (itemsText text compact indent false) (if compact then [] else newline ++ indent)).
    all: try (by apply blank_if; auto using indentation_blank); try done.
    + intros v' o'. cbn [itemsText separator]. unfold front. destruct compact; by rewrite <-?app_assoc.
    + eapply Forall_impl; [|exact IH]. intros v' H. apply H.
Qed.

End Written.

(** ** Reading what was written *)

Section Read.

Variables jsonString decryptionKey : list byte.
Hypothesis jsonString_size : zlen jsonString < 2147483648.

(** The text ends with [rest]. *)
Definition at_ (rest : list byte) : Prop := exists front, jsonString = front ++ rest.

Lemma at_app a rest : at_ (a ++ rest) -> at_ rest.
Proof. intros [front E]. exists (front ++ a). by rewrite <-app_assoc. Qed.

Lemma at_cons c rest : at_ (c :: rest) -> at_ rest.
Proof. apply (at_app [c]). Qed.

Lemma lexeme_at a rest : at_ (a ++ rest) -> lexeme jsonString (a ++ rest) (zlen a) = a.
Proof.
  intros [front E]. unfold lexeme, index. assert (zlen jsonString - zlen (a ++ rest) = zlen front) as -> by (rewrite E, !zlen_app; lia).
  assert (zlen jsonString = zlen front + zlen a + zlen rest) as Hs by (rewrite E, !zlen_app; lia).
  unfold clampInt, int_max. destruct (Z.leb_spec (zlen front) 2147483647); [|lia]. destruct (Z.leb_spec (zlen a) 2147483647); [|lia].
  unfold mid, size. rewrite to_int_small by lia. destruct (Z.ltb_spec (zlen front) 0); [lia|]. cbn [orb].
  destruct (Z.leb_spec (zlen jsonString) (zlen front)); [by destruct a; [|simpl in Hs; lia]|].
  destruct (Z.ltb_spec (zlen a) 0); [lia|]. cbn [orb]. destruct (Z.ltb_spec (zlen jsonString) (zlen front + zlen a)); [lia|].
  rewrite E. unfold zslice. rewrite !Nat2Z.id, drop_app_length, take_app_length. done.
Qed.

(** *** Numbers *)

Definition fractionText (l : Literal) : list byte := if isEmpty (fractional l) then [] else str "." ++ fractional l.

Lemma text_parts l : text l = (if negative l then str "-" else []) ++ whole l ++ fractionText l ++ textTail l.
Proof. done. Qed.

(** Where no number goes on. *)
Definition stops (rest : list byte) : Prop :=
  isDigit (current rest) = false /\ current rest <> x2e /\ current rest <> x65 /\ current rest <> x45.

Lemma skipDigits_app ds rest : digits_only ds -> isDigit (current rest) = false -> skipDigits (ds ++ rest) = rest.
Proof.
  intros Hd Hr. unfold skipDigits. rewrite span_app; [done|done|]. intros c b' ->. exact Hr.
Qed.

Lemma integerPart_text l rest : well_formed l -> isDigit (current rest) = false ->
  integerPart jsonString (((if negative l then str "-" else []) ++ whole l) ++ rest) = Success rest.
Proof.
  intros (Hw & (c & ds & Ew & Hz) & _) Hr. rewrite Ew in Hw |- *. apply Forall_cons_1 in Hw as [Hc Hds]. unfold integerPart.
  assert ((if decide (current (((if negative l then str "-" else []) ++ c :: ds) ++ rest) = x2d)
    then tail (((if negative l then str "-" else []) ++ c :: ds) ++ rest) else ((if negative l then str "-" else []) ++ c :: ds) ++ rest) = c :: ds ++ rest) as ->.
  { destruct (negative l); cbn; [done|]. destruct (decide (c = x2d)) as [->|]; done. }
  change (current (c :: ds ++ rest)) with c. change (tail (c :: ds ++ rest)) with (ds ++ rest). rewrite Hc. cbn [negb]. destruct (decide (c = x30)) as [->|Hne].
  - rewrite (Hz eq_refl). cbn [app]. rewrite Hr, andb_false_r. f_equal. by apply (skipDigits_app []).
  - rewrite (bool_decide_false (c = x30)) by done. cbn [andb]. f_equal. by apply skipDigits_app.
Qed.

Lemma requireDigits_text ds rest message : digits_only ds -> ds <> [] -> isDigit (current rest) = false ->
  requireDigits jsonString (ds ++ rest) message = Success rest.
Proof.
  intros Hd Hne Hr. unfold requireDigits. rewrite skipDigits_app by done. destruct ds as [|c ds]; [done|].
  change (current ((c :: ds) ++ rest)) with c. apply Forall_cons_1 in Hd as [-> _]. done.
Qed.

Lemma fractionPart_text l rest : well_formed l -> isDigit (current rest) = false -> current rest <> x2e ->
  fractionPart jsonString (fractionText l ++ rest) = Success (negb (isEmpty (fractional l)), rest).
Proof.
  intros (_ & _ & Hf & _) Hr Hp. unfold fractionPart, fractionText. destruct (fractional l) as [|d ds] eqn:E.
  - cbn [isEmpty app]. by destruct (decide (current rest = x2e)).
  - cbn [isEmpty]. change (current ((str "." ++ d :: ds) ++ rest)) with x2e. destruct (decide (x2e = x2e)); [|done].
    change (tail ((str "." ++ d :: ds) ++ rest)) with ((d :: ds) ++ rest). by rewrite requireDigits_text.
Qed.

Lemma exponentPart_text l rest : well_formed l -> stops rest ->
  exponentPart jsonString (textTail l ++ rest) = Success (match exponent l with Some _ => true | None => false end, rest).
Proof.
  intros (_ & _ & _ & He) (Hr & _ & H1 & H2). unfold exponentPart, textTail. destruct (exponent l) as [[n ds]|].
  - destruct He as [Hd Hne]. set (signed := (if n then str "-" else str "+") ++ ds).
    change (current ((str "e" ++ signed) ++ rest)) with x65. rewrite (bool_decide_true (x65 = x65)) by done. cbn [orb].
    change (tail ((str "e" ++ signed) ++ rest)) with (signed ++ rest). unfold signed.
    assert ((if bool_decide (current (((if n then str "-" else str "+") ++ ds) ++ rest) = x2b) || bool_decide (current (((if n then str "-" else str "+") ++ ds) ++ rest) = x2d)
      then tail (((if n then str "-" else str "+") ++ ds) ++ rest) else ((if n then str "-" else str "+") ++ ds) ++ rest) = ds ++ rest) as -> by by destruct n.
    by rewrite requireDigits_text.
  - cbn [app]. by rewrite (bool_decide_false (current rest = x65)), (bool_decide_false (current rest = x45)).
Qed.

Lemma parseNumber_text l rest : well_formed l -> stops rest -> at_ (text l ++ rest) ->
  parseNumber jsonString (text l ++ rest) =
  if negb (isEmpty (fractional l)) || (match exponent l with Some _ => true | None => false end) then
    let d := nearestDouble (negative l) (literalFraction l) in
    if isFinite d then Success (Double d, rest) else reportError jsonString (index jsonString (text l ++ rest)) "Invalid floating-point number"
  else
    let '(z, all, erange) := readsAll strtoll (text l) in
    if negb all || erange then reportError jsonString (index jsonString (text l ++ rest)) "Invalid integer number"
    else Success (Integer z, rest).
Proof.
  intros Hl Hr Hat. pose proof Hr as (Hr1 & Hr2 & _). unfold parseNumber.
  assert (isDigit (current (textTail l ++ rest)) = false /\ current (textTail l ++ rest) <> x2e) as [H1 H2].
  { destruct (textTail l) as [|c t] eqn:E; [done|]. cbn. by rewrite (textTail_first _ _ _ E). }
  assert (isDigit (current (fractionText l ++ textTail l ++ rest)) = false) as H0.
  { unfold fractionText. destruct (isEmpty (fractional l)); [done|]. done. }
  assert (text l ++ rest = ((if negative l then str "-" else []) ++ whole l) ++ fractionText l ++ textTail l ++ rest) as Et.
  { by rewrite text_parts, <-!app_assoc. }
  rewrite Et at 1. rewrite integerPart_text by done. cbn [mbind outcome_bind].
  rewrite fractionPart_text by done. cbn [mbind outcome_bind]. rewrite exponentPart_text by done. cbn [mbind outcome_bind].
  replace (index jsonString rest - index jsonString (text l ++ rest)) with (zlen (text l)) by (unfold index; rewrite zlen_app; lia).
  rewrite lexeme_at by done. destruct (_ || _); [|done]. 
  rewrite (readsAll_plain _ _ _ _ (text_no_nul l Hl) (strtod_text l Hl)). by destruct (isFinite _).
Qed.

(** *** Strings *)

Lemma readCodePoint_control c rest : b2z c < 0x20 ->
  readCodePoint jsonString (x30 :: x30 :: hexCharacter (Z.shiftr (b2z c) 4) :: hexCharacter (Z.land (b2z c) 15) :: rest) = Success (b2z c, rest).
Proof.
  intros Hc. unfold readCodePoint, parseUnicodeEscapeSequence. cbn [nth]. destruct (Z.ltb_spec (zlen (x30 :: x30 :: hexCharacter (Z.shiftr (b2z c) 4) :: hexCharacter (Z.land (b2z c) 15) :: rest)) 4); [simpl length in *; lia|].
  change (hexDigit x30) with 0. cbn [Z.ltb Z.compare drop].
  assert (hexDigit (hexCharacter (Z.shiftr (b2z c) 4)) = Z.shiftr (b2z c) 4 /\ hexDigit (hexCharacter (Z.land (b2z c) 15)) = Z.land (b2z c) 15 /\
    (Z.shiftr (b2z c) 4 <? 0) = false /\ (Z.land (b2z c) 15 <? 0) = false /\
    Z.lor (Z.shiftl (Z.lor (Z.shiftl (Z.lor (Z.shiftl 0 4) 0) 4) (Z.shiftr (b2z c) 4)) 4) (Z.land (b2z c) 15) = b2z c) as (-> & -> & -> & -> & ->).
  { clear -Hc. destruct c; try (exfalso; vm_compute in Hc; discriminate Hc); vm_compute; auto. }
  cbn [mbind outcome_bind]. destruct (Z.leb_spec 0xD800 (b2z c)); [lia|]. destruct (Z.leb_spec 0xDC00 (b2z c)); [lia|]. done.
Qed.

(** How an escape of the writer is read. *)
Lemma escape_read c : needsEscape c = true ->
  (exists e, escapeCharacter c = [backslash; e] /\ simpleEscape e = Some c) \/
  (escapeCharacter c = [backslash; x75; x30; x30; hexCharacter (Z.shiftr (b2z c) 4); hexCharacter (Z.land (b2z c) 15)] /\
   b2z c < 0x20).
Proof. destruct c; intros Hc; try discriminate Hc; first [by left; eexists|by right]. Qed.

Lemma escaped_first c : exists d t, escaped c = d :: t /\ (needsEscape c = true -> needsEscape d = true).
Proof.
  unfold escaped. destruct (needsEscape c) eqn:E; [|by exists c, []].
  destruct (escape_read c E) as [(e & -> & _)|[-> _]]; by eexists _, _.
Qed.

Lemma parseString_loop_text fuel s result rest : (length s < fuel)%nat ->
  parseString_loop jsonString fuel result (flat_map escaped s ++ quote :: rest) = Success (result ++ s, rest).
Proof.
  revert s result. induction fuel as [|fuel IH]; intros s result Hf; [lia|]. cbn [parseString_loop]. unfold ordinarySpan.
  destruct (span_spec (fun c => negb (needsEscape c)) s) as (a & b & _ & -> & Ha & Hb). rewrite flat_map_app, (flat_map_ordinary a Ha), <-app_assoc.
  rewrite length_app in Hf. rewrite span_app; [|done|].
  2: { intros c b' E. destruct Hb as [->|(d & b2 & -> & Hd)]; [by injection E as <- _|]. cbn [flat_map] in E.
    destruct (escaped_first d) as (d' & t & Et & Hd'). rewrite Et in E. injection E as <- _. by rewrite Hd' by (by destruct (needsEscape d)). }
  destruct Hb as [->|(c & b' & -> & Hc)].
  { cbn [flat_map app]. by rewrite app_nil_r. }
  cbn [flat_map length] in *. rewrite <-app_assoc. unfold escaped at 1. destruct (needsEscape c) eqn:Hn; [|done].
  replace (result ++ a ++ c :: b') with (((result ++ a) ++ [c]) ++ b') by by rewrite <-!app_assoc.
  destruct (escape_read c Hn) as [(e & -> & He)|[-> Hs]]; cbn [app].
  - change (backslash :: e :: flat_map escaped b' ++ quote :: rest) with ([backslash; e] ++ flat_map escaped b' ++ quote :: rest). cbn [app].
    rewrite (decide_False (P := backslash = quote)), (decide_True (P := backslash = backslash)), He by done. apply IH. lia.
  - rewrite (decide_False (P := backslash = quote)), (decide_True (P := backslash = backslash)) by done.
    change (simpleEscape x75) with (@None byte). cbv beta iota. rewrite (decide_True (P := x75 = x75)) by done.
    rewrite readCodePoint_control by done. cbn [mbind outcome_bind]. unfold appendUtf8FromCodePoint.
    pose proof (b2z_range c). destruct (Z.ltb_spec 0x10FFFF (b2z c)); [lia|]. destruct (Z.leb_spec (b2z c) 0x7F); [|lia].
    cbn [mbind outcome_bind]. rewrite z2b_b2z. apply IH. lia.
Qed.

Lemma flat_map_escaped_length s : (length s <= length (flat_map escaped s))%nat.
Proof.
  induction s as [|c s IH]; [done|]. cbn [flat_map]. rewrite length_app. destruct (escaped_first c) as (d & t & -> & _). simpl. lia.
Qed.

Lemma parseString_text s rest : parseString jsonString (appendEscapedString s ++ quote :: rest) = Success (s, rest).
Proof.
  unfold parseString. rewrite appendEscaped_flat. apply (parseString_loop_text _ s []). rewrite length_app. pose proof (flat_map_escaped_length s). lia.
Qed.

(** *** Scalars *)

(** Where a value ends. *)
Definition ends (rest : list byte) : Prop := match rest with [] => True | c :: _ => isSpace c = true \/ c ∈ str ",}]" end.

Lemma ends_character c rest : ends (c :: rest) -> c ∈ str " ,}]" ++ [x09; x0a; x0b; x0c; x0d].
Proof.
  intros [H|H]; [apply bool_decide_eq_true in H|]; apply list_elem_of_In in H; apply list_elem_of_In; simpl in *; tauto.
Qed.

Lemma ends_stops rest : ends rest -> stops rest /\ forall c r, rest = c :: r -> isAlpha c = false.
Proof.
  destruct rest as [|c rest]; [done|]. intros H. apply ends_character, list_elem_of_In in H. unfold stops. change (current (c :: rest)) with c. simpl in H.
  split; [|intros ? ? [= <- _]]; repeat destruct H as [<-|H]; done.
Qed.

Lemma skipSpace_solid c s : isSpace c = false -> skipSpace (c :: s) = c :: s.
Proof. intros H. unfold skipSpace. cbn [span]. by rewrite H. Qed.

Lemma skipSpace_app s c r : Forall (fun c => isSpace c = true) s -> isSpace c = false -> skipSpace (s ++ c :: r) = c :: r.
Proof. intros Hs Hc. unfold skipSpace. rewrite span_app; [done|done|]. by intros ? ? [= <- _]. Qed.

Lemma parseJson_quoted fuel s rest :
  parseJson jsonString decryptionKey (S fuel) (quoted s ++ rest) = Success (stringValue_ decryptionKey s, rest).
Proof.
  unfold quoted. rewrite <-!app_assoc. change ([quote] ++ appendEscapedString s ++ [quote] ++ rest) with (quote :: appendEscapedString s ++ quote :: rest).
  cbn [parseJson]. rewrite skipSpace_solid by done. rewrite (decide_False (P := quote = x7b)), (decide_False (P := quote = x5b)), (decide_True (P := quote = quote)) by done.
  by rewrite parseString_text.
Qed.

(** Without a key, a word or a number. *)
Lemma parseJson_primitive fuel c s : decryptionKey = [] -> isDigit c = true \/ c ∈ str "-tfn" ->
  parseJson jsonString decryptionKey (S fuel) (c :: s) =
  if bool_decide (c = x74) || bool_decide (c = x66) then
    let (literal, rest) := parseLiteral jsonString (c :: s) in
    if eqb literal (str "true") then Success (Boolean true, rest)
    else if eqb literal (str "false") then Success (Boolean false, rest)
    else reportError jsonString (index jsonString rest) "Invalid boolean literal"
  else if bool_decide (c = x6e) then
    let (literal, rest) := parseLiteral jsonString (c :: s) in
    if eqb literal (str "null") then Success (Null, rest)
    else reportError jsonString (index jsonString rest) "Invalid literal, expected 'null'"
  else parseNumber jsonString (c :: s).
Proof.
  intros Hk Hc. assert ((c ∉ [x7b; x5b; quote]) /\ isSpace c = false) as [Hn Hs].
  { destruct Hc as [Hc|Hc]; [|apply list_elem_of_In in Hc; simpl in Hc; repeat destruct Hc as [<-|Hc]; try done; (split; [refine (bool_decide_eq_false_1 _ _)|]; reflexivity)].
    clear -Hc. destruct c; try discriminate Hc; (split; [refine (bool_decide_eq_false_1 _ _)|]; reflexivity). }
  cbn [parseJson]. rewrite skipSpace_solid by done. rewrite !not_elem_of_cons in Hn. destruct Hn as (H1 & H2 & H3 & _).
  rewrite (decide_False (P := c = x7b)), (decide_False (P := c = x5b)), (decide_False (P := c = quote)) by done.
  unfold parsePrimitive, tryDecryptPrimitive. rewrite Hk. cbn [isEmpty negb].
  assert (isDigit c || bool_decide (c ∈ str "-tfn") = true) as ->; [|done].
  destruct Hc as [->|Hc]; [done|]. by rewrite (bool_decide_true _ Hc), orb_true_r.
Qed.

Lemma parseLiteral_text w rest : Forall (fun c => isAlpha c = true) w -> ends rest -> at_ (w ++ rest) ->
  parseLiteral jsonString (w ++ rest) = (w, rest).
Proof.
  intros Hw Hr Hat. unfold parseLiteral. rewrite span_app by (try done; by apply ends_stops). by rewrite lexeme_at.
Qed.

Lemma parseJson_number fuel l rest : decryptionKey = [] -> well_formed l ->
  parseJson jsonString decryptionKey (S fuel) (text l ++ rest) = parseNumber jsonString (text l ++ rest).
Proof.
  intros Hk Hl. destruct (text_first l Hl) as (c & s & -> & Hc). cbn [app]. rewrite parseJson_primitive; [|done|].
  - assert (c <> x74 /\ c <> x66 /\ c <> x6e) as (H1 & H2 & H3) by (split_and!; intros ->; by destruct Hc).
    by rewrite (bool_decide_false (c = x74)), (bool_decide_false (c = x66)), (bool_decide_false (c = x6e)).
  - destruct Hc as [Hc| ->]; [by left|right]. by apply list_elem_of_In; left.
Qed.

Lemma parseJson_plain fuel v rest : decryptionKey = [] -> scalar v = true -> typed v -> finite v = true -> ends rest ->
  at_ (generateJson false [] 0 v ++ rest) ->
  parseJson jsonString decryptionKey (S fuel) (generateJson false [] 0 v ++ rest) = Success (v, rest).
Proof.
  intros Hk Hv Ht Hf Hr Hat. pose proof (ends_stops _ Hr) as [Hst _].
  destruct v as [|b|z|d|s| |]; try discriminate Hv; cbn [generateJson isEmpty] in *.
  - change (str "null" ++ rest) with (x6e :: str "ull" ++ rest). rewrite parseJson_primitive; [|done|right; by apply list_elem_of_In; simpl; auto].
    change (x6e :: str "ull" ++ rest) with (str "null" ++ rest). rewrite parseLiteral_text by (try done; repeat constructor). done.
  - destruct b; [change (str "true" ++ rest) with (x74 :: str "rue" ++ rest)|change (str "false" ++ rest) with (x66 :: str "alse" ++ rest)];
      (rewrite parseJson_primitive; [|done|right; by apply list_elem_of_In; simpl; auto]);
      [change (x74 :: str "rue" ++ rest) with (str "true" ++ rest)|change (x66 :: str "alse" ++ rest) with (str "false" ++ rest)];
      (rewrite parseLiteral_text by (try done; repeat constructor)); done.
  - destruct (number_literal z Ht) as (l & Hl & Hfr & He & Et & Ez). change (numberLiteral (Integer z)) with (number z) in *. rewrite Et in *.
    rewrite parseJson_number, parseNumber_text by done. rewrite Hfr, He. cbn [isEmpty negb orb].
    rewrite (readsAll_plain _ _ z false (text_no_nul l Hl)); [done|]. rewrite <-Ez in Ht |- *. by apply strtoll_text.
  - destruct (doubleLiteral_literal d (conj Ht Hf)) as (l & Hl & Hpt & Et & Ed & _). change (numberLiteral (Double d)) with (doubleLiteral d) in *. rewrite Et in *.
    rewrite parseJson_number, parseNumber_text by done. rewrite Ed. cbn [finite] in Hf. cbv zeta. rewrite Hf.
    assert (negb (isEmpty (fractional l)) || (match exponent l with Some _ => true | None => false end) = true) as ->; [|done].
    destruct (fractional l); [|done]. destruct (exponent l); [done|]. by destruct Hpt.
  - rewrite parseJson_quoted. unfold stringValue_. by rewrite Hk.
Qed.

(** A scalar is read back, encrypted or not. *)
Lemma parseJson_scalar fuel v rest : scalar v = true -> typed v -> kept decryptionKey v -> ends rest ->
  at_ (generateJson false decryptionKey 0 v ++ rest) ->
  parseJson jsonString decryptionKey (S fuel) (generateJson false decryptionKey 0 v ++ rest) = Success (v, rest).
Proof.
  intros Hv Ht Hk Hr Hat. destruct (decide (decryptionKey = [])) as [E|Hne].
  - rewrite E in Hat, Hk |- * at 2. apply parseJson_plain; try done. destruct v as [| | |d| | |]; try done. apply Hk.
  - rewrite generateJson_scalar, parseJson_quoted by done. unfold stringValue_. assert (isEmpty decryptionKey = false) as -> by by destruct decryptionKey.
    rewrite decryptAES_payload by done. pose proof (scalarPayload_length v decryptionKey Hv Hk Hne). rewrite (decode_scalar v decryptionKey) by (try done; lia). done.
Qed.

(** *** Objects and arrays *)

Lemma parseJson_space fuel s t : blank s -> (exists c t', t = c :: t' /\ isSpace c = false) ->
  parseJson jsonString decryptionKey fuel (s ++ t) = parseJson jsonString decryptionKey fuel t.
Proof.
  intros Hs (c & t' & -> & Hc). destruct fuel as [|fuel]; [done|]. cbn [parseJson]. by rewrite (skipSpace_app s), skipSpace_solid.
Qed.

Lemma sorted_before acc k v object : ordered (acc ++ (k, v) :: object) -> Forall (fun f => before f.1 k = true) acc.
Proof.
  unfold ordered. induction acc as [|f acc IH]; intros H; [constructor|]. apply StronglySorted_inv in H as [H Hall]. constructor; [|by apply IH].
  rewrite Forall_forall in Hall. apply (Hall (k, v)). apply in_or_app. right. by left.
Qed.

Lemma ends_blank s c rest : blank s -> c ∈ str ",}]" -> ends (s ++ c :: rest).
Proof. intros Hs Hc. destruct Hs as [|d s Hd Hs]; [by right|by left]. Qed.

(** A comma or the bracket that ends a value. *)
Lemma ends_mark c rest : c ∈ str ",}]" -> ends (c :: rest).
Proof. by right. Qed.

(** The key of a field, and the value up to the space behind it. *)
Lemma parseObject_field fuel acc k s1 s2 t after value rest :
  blank s1 -> blank s2 -> (exists c t', t = c :: t' /\ isSpace c = false) ->
  parseJson jsonString decryptionKey fuel (t ++ after) = Success (value, rest) ->
  parseObject_loop jsonString decryptionKey (S fuel) acc (s1 ++ quoted k ++ str ":" ++ s2 ++ t ++ after) =
  match skipSpace rest with
  | [] => reportError jsonString (index jsonString (skipSpace rest)) "Unterminated JSON object"
  | c :: rest' =>
      if decide (c = x2c) then parseObject_loop jsonString decryptionKey fuel (insert k value acc) rest'
      else if decide (c = x7d) then Success (Object (insert k value acc), rest')
      else reportError jsonString (index jsonString (skipSpace rest)) "Expected ',' or '}' in object"
  end.
Proof.
  intros H1 H2 Ht Hv. cbn [parseObject_loop]. unfold quoted. rewrite <-!app_assoc. cbn [app].
  rewrite (skipSpace_app s1) by done. rewrite (decide_False (P := quote = x7d)), (bool_decide_true (quote = quote)) by done. cbn [negb].
  rewrite parseString_text. cbn [mbind outcome_bind]. change (str ":" ++ s2 ++ t ++ after) with (x3a :: s2 ++ t ++ after).
  rewrite skipSpace_solid by done. rewrite (bool_decide_true (head (x3a :: s2 ++ t ++ after) = Some x3a)) by done. cbn [negb tail].
  rewrite parseJson_space; [by rewrite Hv|done|]. destruct Ht as (c & t' & -> & Hc). by eexists _, _.
Qed.

Lemma parseArray_loop_S fuel array rest : parseArray_loop jsonString decryptionKey (S fuel) array rest =
  match skipSpace rest with
  | [] => reportError jsonString (index jsonString (skipSpace rest)) "Unterminated JSON array"
  | c :: rest' =>
      if decide (c = x5d) then Success (Array array, rest')
      else
        '(value, rest) ← parseJson jsonString decryptionKey fuel (c :: rest');
        match skipSpace rest with
        | [] => reportError jsonString (index jsonString (skipSpace rest)) "Unterminated JSON array"
        | c :: rest' =>
            if decide (c = x2c) then parseArray_loop jsonString decryptionKey fuel (array ++ [value]) rest'
            else if decide (c = x5d) then Success (Array (array ++ [value]), rest')
            else reportError jsonString (index jsonString (skipSpace rest)) "Expected ',' or ']' in array"
        end
  end.
Proof. cbn [parseArray_loop]. by destruct (skipSpace rest). Qed.

Lemma parseArray_item fuel acc s t after value rest :
  blank s -> (exists c t', t = c :: t' /\ isSpace c = false /\ c <> x5d) ->
  parseJson jsonString decryptionKey fuel (t ++ after) = Success (value, rest) ->
  parseArray_loop jsonString decryptionKey (S fuel) acc (s ++ t ++ after) =
  match skipSpace rest with
  | [] => reportError jsonString (index jsonString (skipSpace rest)) "Unterminated JSON array"
  | c :: rest' =>
      if decide (c = x2c) then parseArray_loop jsonString decryptionKey fuel (acc ++ [value]) rest'
      else if decide (c = x5d) then Success (Array (acc ++ [value]), rest')
      else reportError jsonString (index jsonString (skipSpace rest)) "Expected ',' or ']' in array"
  end.
Proof.
  intros Hs (c & t' & -> & Hc & Hb) Hv. rewrite parseArray_loop_S. cbn [app] in *. rewrite (skipSpace_app s) by done.
  rewrite (decide_False (P := c = x5d)) by done. by rewrite Hv.
Qed.

Lemma parse_written :
  (forall v t, written decryptionKey v t -> typed v -> kept decryptionKey v -> forall fuel rest, (2 * length t <= fuel)%nat -> ends rest -> at_ (t ++ rest) ->
    parseJson jsonString decryptionKey fuel (t ++ rest) = Success (v, rest)) /\
  (forall object t, writtenFields decryptionKey object t -> forall acc, ordered (acc ++ object) ->
    Forall (fun field => typed field.2 /\ kept decryptionKey field.2) object -> forall fuel rest, (2 * length t < fuel)%nat -> at_ (t ++ rest) ->
    parseObject_loop jsonString decryptionKey fuel acc (t ++ rest) = Success (Object (acc ++ object), rest)) /\
  (forall array t, writtenItems decryptionKey array t -> forall acc,
    Forall (fun item => typed item /\ kept decryptionKey item) array -> forall fuel rest, (2 * length t < fuel)%nat -> at_ (t ++ rest) ->
    parseArray_loop jsonString decryptionKey fuel acc (t ++ rest) = Success (Array (acc ++ array), rest)).
Proof.
  apply written_mutual.
  - intros v Hv Ht Hk fuel rest Hf Hr Hat. destruct (scalar_first decryptionKey v Hv Ht Hk) as (c & t & Et & _).
    destruct fuel as [|fuel]; [rewrite Et in Hf; simpl in Hf; lia|]. by apply parseJson_scalar.
  - intros object t _ IH [Ho Ht] Hk fuel rest Hf Hr Hat. cbn [kept] in Hk. rewrite all_true in Ht, Hk. destruct fuel as [|fuel]; [simpl in Hf; lia|].
    cbn [parseJson app]. rewrite skipSpace_solid by done. rewrite (decide_True (P := x7b = x7b)) by done.
    apply (IH []); [done|by apply Forall_and|simpl in Hf; lia|by eapply at_cons].
  - intros array t _ IH Ht Hk fuel rest Hf Hr Hat. cbn [typed kept] in Ht, Hk. rewrite all_true in Ht, Hk. destruct fuel as [|fuel]; [simpl in Hf; lia|].
    cbn [parseJson app]. rewrite skipSpace_solid by done. rewrite (decide_False (P := x5b = x7b)), (decide_True (P := x5b = x5b)) by done.
    apply (IH []); [by apply Forall_and|simpl in Hf; lia|by eapply at_cons].
  - intros s Hs acc Ho _ fuel rest Hf _. destruct fuel as [|fuel]; [lia|]. rewrite <-app_assoc, app_nil_r. cbn [parseObject_loop].
    change (str "}" ++ rest) with (x7d :: rest). by rewrite (skipSpace_app s).
  - intros k v t s1 s2 s3 H1 H2 H3 Hw IH acc Ho Ha fuel rest Hf Hat. apply Forall_cons_1 in Ha as [[Ht Hk] _]. cbn [snd] in *.
    destruct fuel as [|fuel]; [lia|]. destruct (written_first _ _ _ Hw Ht Hk) as (c & t' & Et & Hc & _).
    rewrite <-!app_assoc in *. assert (parseJson jsonString decryptionKey fuel (t ++ s3 ++ str "}" ++ rest) = Success (v, s3 ++ str "}" ++ rest)) as Hp by (apply IH; [done|done|rewrite !length_app in Hf; lia|by apply ends_blank; [|apply list_elem_of_In; simpl; auto]|by do 4 apply at_app in Hat]).
    rewrite (parseObject_field _ _ _ _ _ _ _ _ _ H1 H2 ltac:(eauto) Hp).
    change (str "}" ++ rest) with (x7d :: rest). rewrite (skipSpace_app s3) by done.
    rewrite (decide_False (P := x7d = x2c)), (decide_True (P := x7d = x7d)) by done. by rewrite insert_last by (by eapply sorted_before).
  - intros k v t s1 s2 object t2 H1 H2 Hw IH _ IH2 acc Ho Ha fuel rest Hf Hat. apply Forall_cons_1 in Ha as [[Ht Hk] Ha]. cbn [snd] in *.
    destruct fuel as [|fuel]; [lia|]. destruct (written_first _ _ _ Hw Ht Hk) as (c & t' & Et & Hc & _). rewrite !length_app in Hf. change (length (str ",")) with 1%nat in Hf.
    rewrite <-!app_assoc in *. assert (parseJson jsonString decryptionKey fuel (t ++ str "," ++ t2 ++ rest) = Success (v, str "," ++ t2 ++ rest)) as Hp by (apply IH; [done|done|lia|apply ends_mark; apply list_elem_of_In; simpl; auto|by do 4 apply at_app in Hat]).
    rewrite (parseObject_field _ _ _ _ _ _ _ _ _ H1 H2 ltac:(eauto) Hp).
    change (str "," ++ t2 ++ rest) with (x2c :: t2 ++ rest). rewrite skipSpace_solid by done. rewrite (decide_True (P := x2c = x2c)) by done.
    rewrite insert_last by (by eapply sorted_before). replace (acc ++ (k, v) :: object) with ((acc ++ [(k, v)]) ++ object) in * by by rewrite <-app_assoc.
    apply IH2; [done|done|lia|by do 6 apply at_app in Hat].
  - intros s Hs acc _ fuel rest Hf _. destruct fuel as [|fuel]; [lia|]. rewrite <-app_assoc, app_nil_r, parseArray_loop_S.
    change (str "]" ++ rest) with (x5d :: rest). by rewrite (skipSpace_app s).
  - intros v t s1 s2 H1 H2 Hw IH acc Ha fuel rest Hf Hat. apply Forall_cons_1 in Ha as [[Ht Hk] _].
    destruct fuel as [|fuel]; [lia|]. destruct (written_first _ _ _ Hw Ht Hk) as (c & t' & Et & Hc & Hb & _). rewrite !length_app in Hf.
    rewrite <-!app_assoc in *. assert (parseJson jsonString decryptionKey fuel (t ++ s2 ++ str "]" ++ rest) = Success (v, s2 ++ str "]" ++ rest)) as Hp by (apply IH; [done|done|lia|by apply ends_blank; [|apply list_elem_of_In; simpl; auto]|by do 1 apply at_app in Hat]).
    rewrite (parseArray_item _ _ _ _ _ _ _ H1 ltac:(eauto 6) Hp).
    change (str "]" ++ rest) with (x5d :: rest). rewrite (skipSpace_app s2) by done.
    by rewrite (decide_False (P := x5d = x2c)), (decide_True (P := x5d = x5d)).
  - intros v t s array t2 Hs Hw IH _ IH2 acc Ha fuel rest Hf Hat. apply Forall_cons_1 in Ha as [[Ht Hk] Ha].
    destruct fuel as [|fuel]; [lia|]. destruct (written_first _ _ _ Hw Ht Hk) as (c & t' & Et & Hc & Hb & _). rewrite !length_app in Hf. change (length (str ",")) with 1%nat in Hf.
    rewrite <-!app_assoc in *. assert (parseJson jsonString decryptionKey fuel (t ++ str "," ++ t2 ++ rest) = Success (v, str "," ++ t2 ++ rest)) as Hp by (apply IH; [done|done|lia|apply ends_mark; apply list_elem_of_In; simpl; auto|by do 1 apply at_app in Hat]).
    rewrite (parseArray_item _ _ _ _ _ _ _ Hs ltac:(eauto 6) Hp).
    change (str "," ++ t2 ++ rest) with (x2c :: t2 ++ rest). rewrite skipSpace_solid by done. rewrite (decide_True (P := x2c = x2c)) by done.
    replace (acc ++ v :: array) with ((acc ++ [v]) ++ array) by by rewrite <-app_assoc.
    apply IH2; [done|lia|by do 3 apply at_app in Hat].
Qed.

End Read.

Lemma loadFromJson_written key v t : written key v t -> typed v -> kept key v -> zlen t < 2147483648 -> loadFromJson t key = Success (v, []).
Proof.
  intros Hw Ht Hk Hs. unfold loadFromJson. destruct (written_first key v t Hw Ht Hk) as (c & t' & Et & _ & _ & Hc).
  assert (hasPrefix [xef; xbb; xbf] t = false) as -> by (rewrite Et; simpl; by destruct (decide (xef = c)) as [E|]).
  destruct (parse_written t key Hs) as (Hp & _). specialize (Hp v t Hw Ht Hk (parseFuel t) []). rewrite app_nil_r in Hp.
  rewrite Hp; [done|unfold parseFuel; lia|done|by exists []].
Qed.

(** C17: a document is read back.  Whatever value with 64-bit integers, binary64
    doubles and ordered keys a document holds, loading the text of [toJson], compact or
    pretty, with a key or without, gives exactly this value and no error; without a
    key, so does loading the text of [SwJsonValue::toJsonString].  The doubles must be
    finite; under a key they must have their 53 bits, and texts must be small enough
    for the cipher.  Scalars under a key keep their type and their bytes, since the
    type is encrypted with them; keys are not encrypted. *)
Theorem json_roundtrip key v : typed v -> kept key v ->
  (forall format, zlen (toJson format key v) < 2147483648 -> loadFromJson (toJson format key v) key = Success (v, [])) /\
  (key = [] -> forall compact, zlen (toJsonString compact 0 v) < 2147483648 -> loadFromJson (toJsonString compact 0 v) key = Success (v, [])).
Proof.
  intros Ht Hk. split; [intros format|intros Hkey compact]; apply loadFromJson_written; try done;
    [apply generateJson_written|by apply toJsonString_written].
Qed.

End Spec.

(** Every kind of value, and every kind of character. *)
Definition example_value : SwJsonValue := Object [
  (str "a" ++ [quote], Array [Integer (-12); Null; Double (S754_finite false 7205759403792794 (-56)); Boolean true; Array []; Object []]);
  (str "b", String [x22; x01; x0a; x5c; xc3; xa9; x00])].

Lemma json_roundtrip_witness : typed example_value /\ kept (str "key") example_value /\
  zlen (toJson (E := SwCrypto.addingEVP) Pretty (str "key") example_value) < 2147483648 /\
  loadFromJson (E := SwCrypto.addingEVP) (toJson (E := SwCrypto.addingEVP) Pretty (str "key") example_value) (str "key") = Success (example_value, []).
Proof.
  assert (typed example_value) as H1 by (split; [by repeat constructor|]; cbn [typed map fold_right fst snd]; repeat split; first [by vm_compute|by constructor]).
  assert (kept (str "key") example_value) as H2 by (vm_compute; intuition discriminate).
  assert (zlen (toJson (E := SwCrypto.addingEVP) Pretty (str "key") example_value) < 2147483648) as H3 by (vm_compute; reflexivity).
  split; [exact H1|]. split; [exact H2|]. split; [exact H3|].
  exact (proj1 (json_roundtrip (EL := SwCrypto.addingEVP_laws) (str "key") example_value H1 H2) Pretty H3).
Defined.

(** ** Corner cases *)

Section Corners.

#[local] Existing Instance SwCrypto.addingEVP.

(** A comma may stand before a closing bracket. *)
Example trailing_comma : loadFromJson (str "[1,]") [] = Success (Array [Integer 1], []).
Proof. reflexivity. Qed.

(** The value is kept when other text follows it. *)
Example trailing_text : loadFromJson (str "1 x") [] = Success (Integer 1, str "Unexpected characters at the end of JSON.").
Proof. reflexivity. Qed.

(** Under a key, a token that is not encrypted becomes the empty text, without an error. *)
Example plain_under_key : loadFromJson (str "[true]") (str "key") = Success (Array [String []], []).
Proof. vm_compute. reflexivity. Qed.

(** Under a key, a double below the normal ones comes back as the text of its payload. *)
Example subnormal_under_key :
  loadFromJson (toJson Compact (str "key") (Double (S754_finite false 1 (-1074)))) (str "key") =
  Success (String (scalarPayload (Double (S754_finite false 1 (-1074)))), []).
Proof. vm_compute. reflexivity. Qed.

End Corners.

End JsonSpec.
