(* ===== verification/JsonTypes.v ===== *)
(** Whatever the text, SwJsonDocument's parser (JsonDocument.v) ends, and the value it
    gives has the right types. *)
From Stdlib Require Import ZArith Lia Strings.Byte Floats.SpecFloat Sorting.Sorted QArith Qpower Lqa.
From stdpp Require Import base list strings numbers.
From S2P Require Import Prelude SwString Crypto NumberText JsonValue JsonDocument JsonLaws.
#[local] Open Scope Z_scope.

Import SwString.
Import NumberText.
Import SwJson.
Import JsonLaws.

Module JsonTypes.

Import SwJsonDocument.

(** ** Numbers *)

Lemma range_valid s m e : -1074 <= e <= 971 -> Zpos m < 2 ^ 53 -> 2 ^ 52 <= Zpos m \/ e = -1074 ->
  valid_binary 53 1024 (S754_finite s m e) = true.
Proof.
  intros He Hm Hn. cbn [valid_binary]. unfold bounded, canonical_mantissa, fexp, emin. rewrite andb_true_iff, Z.eqb_eq, Z.leb_le.
  pose proof (digits2_pos_spec m) as [H1 H2]. set (d := Zpos (digits2_pos m)) in *. assert (1 <= d) by (unfold d; lia).
  assert (d <= 53) by (apply Z.lt_succ_r, Z.lt_pred_lt_succ; assert (d - 1 < 53); [|lia]; apply (Z.pow_lt_mono_r_iff 2); lia).
  split; [|lia]. destruct Hn as [Hn| ->]; [|lia]. assert (52 < d); [|lia]. apply (Z.pow_lt_mono_r_iff 2); lia.
Qed.

Lemma nearest_le r n : 0 < r.2 -> (NumberText.value r < inject_Z n)%Q -> nearest r <= n.
Proof.
  intros Hr H. pose proof (nearest_close r Hr) as [H1 _]. assert (inject_Z (nearest r) < inject_Z (n + 1))%Q as Hlt.
  { rewrite inject_Z_plus. change (inject_Z 1) with 1%Q. lra. }
  rewrite <-Zlt_Qlt in Hlt. lia.
Qed.

Lemma nearest_ge r n : 0 < r.2 -> (inject_Z n <= NumberText.value r)%Q -> n <= nearest r.
Proof.
  intros Hr H. pose proof (nearest_close r Hr) as [_ H2]. assert (inject_Z n < inject_Z (nearest r + 1))%Q as Hlt.
  { rewrite inject_Z_plus. change (inject_Z 1) with 1%Q. lra. }
  rewrite <-Zlt_Qlt in Hlt. lia.
Qed.

(** Rounding gives a double. *)
Lemma nearestDouble_valid s r : 0 <= r.1 -> 0 < r.2 -> valid_binary 53 1024 (nearestDouble s r) = true.
Proof.
  intros H1 H2. unfold nearestDouble. destruct (Z.eqb_spec r.1 0); [done|]. assert (positive_fraction r) as Hr by (split; lia).
  pose proof (log2_spec r Hr) as [Hlo Hhi]. set (l := log2 r) in *. set (e := Z.max (l - 52) (-1074)).
  pose proof (scale_pos 2 (- e) r ltac:(lia) Hr) as [_ Hz2]. pose proof (scaled_value e r H2) as Hz. set (z := scale 2 (- e) r) in *.
  pose proof (power_pos 2 e ltac:(lia)) as Hu. cbv zeta.
  assert (nearest z <= 2 ^ 53) as Hup.
  { apply nearest_le; [done|]. apply (Qmult_lt_r _ _ _ Hu). rewrite <-Hz, <-power2_mul by lia. eapply Qlt_le_trans; [exact Hhi|].
    apply Qpower_le_compat_l; [lia|done]. }
  assert (-1074 < e -> 2 ^ 52 <= nearest z) as Hdown.
  { intros He. apply nearest_ge; [done|]. apply (Qmult_le_r _ _ _ Hu). rewrite <-Hz, <-power2_mul by lia. by replace (e + 52) with l by lia. }
  assert (-1074 <= e) as He by lia. clearbody z e. clear -Hup Hdown He. destruct (Z.eqb_spec (nearest z) (2 ^ 53)) as [E|E].
  - change (2 ^ 52) with (Zpos 4503599627370496). destruct (Z.leb_spec (e + 1) 971); [|done]. apply range_valid; [lia|done|by left].
  - destruct (nearest z) as [|m|m]; [done| |done]. destruct (Z.leb_spec e 971); [|done]. apply range_valid; [lia|lia|].
    destruct (Z.eq_dec e (-1074)); [by right|left; apply Hdown; lia].
Qed.

Lemma fold_nonneg (f : byte -> Z) (p : byte -> bool) b s : 0 < b -> (forall c, p c = true -> 0 <= f c) ->
  Forall (fun c => p c = true) s -> 0 <= fold_left (fun v c => v * b + f c) s 0.
Proof.
  intros Hb Hf Hs. assert (forall a, 0 <= a -> 0 <= fold_left (fun v c => v * b + f c) s a) as H; [|by apply H].
  induction Hs as [|c s Hc _ IH]; intros a Ha; simpl; [done|]. apply IH. specialize (Hf c Hc). nia.
Qed.

Lemma span_all p s a b : span p s = (a, b) -> s = a ++ b /\ Forall (fun c => p c = true) a.
Proof. intros E. destruct (span_spec p s) as (a' & b' & E' & Es & Ha & _). rewrite E in E'. by injection E' as <- <-. Qed.

Lemma readMantissa_all p s w f r : readMantissa p s = (w, f, r) -> Forall (fun c => p c = true) (w ++ f).
Proof.
  unfold readMantissa. destruct (span p s) as [a b] eqn:Es. apply span_all in Es as [_ Ha].
  destruct b as [|c b]; [intros [= <- <- _]; by rewrite app_nil_r|]. destruct (decide (c = x2e)).
  - destruct (span p b) as [a2 b2] eqn:Es2. apply span_all in Es2 as [_ Ha2]. intros [= <- <- _]. by apply Forall_app_2.
  - intros [= <- <- _]. by rewrite app_nil_r.
Qed.

Lemma scale_valid s b k n : 0 < b -> 0 <= n -> valid_binary 53 1024 (nearestDouble s (scale b k (n, 1))) = true.
Proof.
  intros Hb Hn. apply nearestDouble_valid; unfold scale; destruct (Z.leb_spec 0 k); cbn [fst snd]; try lia;
    pose proof (Z.pow_pos_nonneg b k Hb); pose proof (Z.pow_pos_nonneg b (- k) Hb); nia.
Qed.

Lemma strtodDecimal_valid n s d rest er : strtodDecimal n s = Some (d, rest, er) -> valid_binary 53 1024 d = true.
Proof.
  unfold strtodDecimal. destruct (readMantissa isDigit s) as [[w f] r] eqn:Em. apply readMantissa_all in Em. destruct (isEmpty _); [done|].
  destruct (readExponent _ r) as [e r']. intros [= <- _ _]. apply scale_valid; [lia|]. unfold digitsValue.
  apply (fold_nonneg (fun c => b2z c - 48) isDigit); [lia| |done]. intros c Hc. apply digit_range in Hc. lia.
Qed.

Lemma strtodHex_valid n s d rest er : strtodHex n s = Some (d, rest, er) -> valid_binary 53 1024 d = true.
Proof.
  unfold strtodHex. destruct (readMantissa _ s) as [[w f] r] eqn:Em. apply readMantissa_all in Em. destruct (isEmpty _); [done|].
  destruct (readExponent _ r) as [e r']. intros [= <- _ _]. apply scale_valid; [lia|].
  apply (fold_nonneg hexDigit (fun c => 0 <=? hexDigit c)); [lia| |done]. intros c Hc. by apply Z.leb_le.
Qed.

Lemma strtod_valid s : valid_binary 53 1024 (strtod s).1.1 = true.
Proof.
  unfold strtod. destruct (readSign _) as [n s1].
  assert (forall o d, (forall x rest er, o = Some (x, rest, er) -> valid_binary 53 1024 x = true) -> valid_binary 53 1024 d.1.1 = true ->
    valid_binary 53 1024 (default d o : spec_float * list byte * bool).1.1 = true) as Hd.
  { intros [[[x rest] er]|] d Ho Hd; [by eapply Ho|done]. }
  assert (valid_binary 53 1024 (default (S754_zero false, s, false) (strtodDecimal n s1)).1.1 = true) as Hdec.
  { apply Hd; [|done]. intros x rest er. apply strtodDecimal_valid. }
  destruct (readWord (str "infinity") s1); [done|]. destruct (readWord (str "inf") s1); [done|]. destruct (readWord (str "nan") s1); [done|].
  destruct (readWord (str "0x") s1); [|done]. apply Hd; [|done]. intros x rest er. apply strtodHex_valid.
Qed.

Lemma strtoll_range s : - 2 ^ 63 <= (strtoll s).1.1 < 2 ^ 63.
Proof.
  unfold strtoll. destruct (readSign _) as [n s1]. destruct (span isDigit s1) as [ds rest]. destruct (isEmpty ds); [done|].
  cbv zeta. change (2 ^ 63) with 9223372036854775808. set (v := if n then _ else _).
  destruct (Z.ltb_spec v (Z.opp 9223372036854775808)); [cbn [fst]; lia|]. destruct (Z.ltb_spec (9223372036854775808 - 1) v); cbn [fst]; lia.
Qed.

Lemma readsAll_value {A} (read : list byte -> A * list byte * bool) (P : A -> Prop) s v all er :
  (forall t, P (read t).1.1) -> readsAll read s = (v, all, er) -> P v.
Proof.
  intros HP. unfold readsAll. specialize (HP (beforeNul s)). destruct (read _) as [[x rest] e]. by intros [= <- _ _].
Qed.

(** ** Outcomes *)

(** A parser that ends, with a result in [P] if it succeeds. *)
Definition sound {A} (P : A -> Prop) (o : outcome A) : Prop :=
  match o with Success a => P a | Failure _ => True | OutOfFuel => False end.

Lemma sound_bind {A B} (P : A -> Prop) (Q : B -> Prop) m k : sound P m -> (forall a, P a -> sound Q (k a)) -> sound Q (m ≫= k).
Proof. destruct m; simpl; auto. Qed.

Lemma sound_weaken {A} (P Q : A -> Prop) m : sound P m -> (forall a, P a -> Q a) -> sound Q m.
Proof. destruct m; simpl; auto. Qed.

Section Types.

Context {V : EVP}.

Lemma decode_typed payload v : decodeEncryptedScalarPayload payload = Some v -> typed v.
Proof.
  unfold decodeEncryptedScalarPayload. cbv zeta. repeat (match goal with |- context [if ?b then _ else _] => destruct b end; try done);
    try (by intros [= <-]); destruct (readsAll _ _) as [[x all] er] eqn:E; destruct (_ || _); try done; intros [= <-].
  - by apply (readsAll_value strtoll (fun z => - 2 ^ 63 <= z < 2 ^ 63)) in E; [|apply strtoll_range].
  - by apply (readsAll_value strtod (fun d => valid_binary 53 1024 d = true)) in E; [|apply strtod_valid].
Qed.

Lemma interpretDecrypted_typed decrypted : typed (interpretDecrypted decrypted).
Proof.
  unfold interpretDecrypted. destruct (decodeEncryptedScalarPayload decrypted) eqn:E; [by eapply decode_typed|].
  repeat (match goal with |- context [if ?b then _ else _] => destruct b end; try done); destruct (readsAll _ _) as [[x all] er] eqn:Er; destruct (_ && _); try done.
  - by apply (readsAll_value strtod (fun d => valid_binary 53 1024 d = true)) in Er; [|apply strtod_valid].
  - by apply (readsAll_value strtoll (fun z => - 2 ^ 63 <= z < 2 ^ 63)) in Er; [|apply strtoll_range].
Qed.

Lemma stringValue_typed key s : typed (stringValue_ key s) /\ (key = [] -> finite (stringValue_ key s) = true).
Proof.
  unfold stringValue_. split; [|by intros ->]. destruct (isEmpty key); [done|]. cbv zeta.
  destruct (decodeEncryptedScalarPayload _) eqn:E; [by eapply decode_typed|done].
Qed.

(** ** The parser *)

Section Parser.

Variables jsonString decryptionKey : list byte.

(** What is left is shorter, or not longer, than [n]. *)
Abbreviation shorter n := (fun '(_, rest) => (length rest < n)%nat).

Lemma report_sound {A} (P : A -> Prop) i m : sound P (reportError jsonString i m).
Proof. done. Qed.

Hint Resolve report_sound : core.

Lemma span_length p s a b : span p s = (a, b) -> length s = (length a + length b)%nat.
Proof. intros E. apply span_all in E as [-> _]. apply length_app. Qed.

Lemma skipSpace_length s : (length (skipSpace s) <= length s)%nat.
Proof. unfold skipSpace. destruct (span isSpace s) as [a b] eqn:E. apply span_length in E. simpl. lia. Qed.

Lemma skipDigits_length s : (length (skipDigits s) <= length s)%nat.
Proof. unfold skipDigits. destruct (span isDigit s) as [a b] eqn:E. apply span_length in E. simpl. lia. Qed.

Lemma tail_length (s : list byte) : (length (tail s) <= length s)%nat.
Proof. destruct s; simpl; lia. Qed.

Lemma unicode_sound rest : sound (shorter (length rest)) (parseUnicodeEscapeSequence jsonString rest).
Proof.
  unfold parseUnicodeEscapeSequence. destruct (Z.ltb_spec (zlen rest) 4); [done|]. cbv zeta.
  do 4 (match goal with |- context [if ?b then _ else _] => destruct b; [done|] end). cbn [sound]. rewrite length_drop. lia.
Qed.

Lemma codePoint_sound rest : sound (shorter (length rest)) (readCodePoint jsonString rest).
Proof.
  unfold readCodePoint. eapply sound_bind; [apply unicode_sound|]. intros [cp r] Hr.
  destruct (_ && _).
  - destruct r as [|c1 [|c2 r]]; try done. destruct (decide _); [|done]. eapply sound_bind; [apply unicode_sound|]. intros [low r'] Hr'.
    destruct (_ || _); [done|]. simpl in *. lia.
  - by destruct (_ && _).
Qed.

Lemma utf8_sound cp i : sound (fun _ => True) (appendUtf8FromCodePoint jsonString cp i).
Proof. unfold appendUtf8FromCodePoint. by repeat (match goal with |- context [if ?b then _ else _] => destruct b end). Qed.

Lemma parseString_loop_sound fuel result rest : (length rest < fuel)%nat ->
  sound (shorter (length rest)) (parseString_loop jsonString fuel result rest).
Proof.
  revert result rest. induction fuel as [|fuel IH]; intros result rest Hf; [lia|]. cbn [parseString_loop]. unfold ordinarySpan.
  destruct (span _ rest) as [a b] eqn:E. apply span_length in E. destruct b as [|c r1]; [done|]. simpl in E.
  assert (forall result' r, (length r <= length r1)%nat -> sound (shorter (length rest)) (parseString_loop jsonString fuel result' r)) as Hgo.
  { intros result' r Hr. eapply sound_weaken; [apply IH; lia|]. intros [s r']. lia. }
  destruct (decide (c = quote)) as [|Hq]; [simpl; lia|]. destruct (decide (c = backslash)) as [Hb|Hb].
  - destruct r1 as [|e r2]; [done|]. destruct (simpleEscape e); [apply Hgo; simpl; lia|]. destruct (decide (e = x75)) as [Hu|Hu]; [|done].
    eapply sound_bind; [apply codePoint_sound|]. intros [cp r] Hr. eapply sound_bind; [apply utf8_sound|]. intros bytes _. apply Hgo. simpl. lia.
  - destruct (_ <? _); [done|]. by apply Hgo.
Qed.

Lemma parseString_sound rest : sound (shorter (length rest)) (parseString jsonString rest).
Proof. apply parseString_loop_sound. lia. Qed.

Lemma requireDigits_sound rest m : sound (fun r => (length r <= length rest)%nat) (requireDigits jsonString rest m).
Proof. unfold requireDigits. destruct (negb _); [done|]. apply skipDigits_length. Qed.

Lemma integerPart_sound start : sound (fun r => (length r < length start)%nat) (integerPart jsonString start).
Proof.
  unfold integerPart. set (rest := if decide (current start = x2d) then tail start else start).
  assert (length rest <= length start)%nat by (unfold rest; destruct (decide _); [apply tail_length|done]).
  destruct (negb (isDigit (current rest))) eqn:Ed; [done|]. destruct rest as [|c r]; [done|]. cbv zeta. destruct (_ && _); [done|].
  pose proof (skipDigits_length r). simpl in *. lia.
Qed.

Lemma fractionPart_sound rest : sound (fun '(_, r) => (length r <= length rest)%nat) (fractionPart jsonString rest).
Proof.
  unfold fractionPart. destruct (decide _); [|simpl; lia]. eapply sound_bind; [apply requireDigits_sound|]. intros r Hr. pose proof (tail_length rest). cbn [mret outcome_ret sound]. cbv beta in *. lia.
Qed.

Lemma exponentPart_sound rest : sound (fun '(_, r) => (length r <= length rest)%nat) (exponentPart jsonString rest).
Proof.
  unfold exponentPart. destruct (_ || _); [|simpl; lia]. eapply sound_bind; [apply requireDigits_sound|]. intros r Hr.
  pose proof (tail_length rest). pose proof (tail_length (tail rest)). cbn [mret outcome_ret sound]. cbv beta in *. destruct (_ || _); lia.
Qed.

(** A value of the right types, finite when nothing is encrypted, and less text. *)
Definition good (v : SwJsonValue) : Prop := typed v /\ (decryptionKey = [] -> finite v = true).

Definition parsed (n : nat) (r : SwJsonValue * list byte) : Prop := good r.1 /\ (length r.2 < n)%nat.

Lemma parseNumber_sound start : sound (parsed (length start)) (parseNumber jsonString start).
Proof.
  unfold parseNumber. eapply sound_bind; [apply integerPart_sound|]. intros r1 H1. eapply sound_bind; [apply fractionPart_sound|]. intros [hf r2] H2.
  eapply sound_bind; [apply exponentPart_sound|]. intros [he r3] H3. cbn in H1, H2, H3. cbv zeta. destruct (_ || _); destruct (readsAll _ _) as [[x all] er] eqn:E.
  - destruct (negb all || negb (isFinite x)) eqn:Ef; [done|]. rewrite orb_false_iff, !negb_false_iff in Ef. split; [|simpl; lia].
    apply (readsAll_value strtod (fun d => valid_binary 53 1024 d = true)) in E; [|apply strtod_valid]. split; [done|]. intros _. apply Ef.
  - destruct (_ || _); [done|]. split; [|simpl; lia].
    by apply (readsAll_value strtoll (fun z => - 2 ^ 63 <= z < 2 ^ 63)) in E; [|apply strtoll_range].
Qed.

Lemma parseLiteral_length start w rest : isAlpha (current start) = true -> parseLiteral jsonString start = (w, rest) -> (length rest < length start)%nat.
Proof.
  unfold parseLiteral. destruct start as [|c s]; [done|]. change (current (c :: s)) with c. intros Hc. destruct (span isAlpha (c :: s)) as [a b] eqn:E.
  pose proof (span_length _ _ _ _ E) as Hl. intros [= _ <-]. cbn [span] in E. rewrite Hc in E. destruct (span isAlpha s). injection E as <- _. simpl in *. lia.
Qed.

Lemma parsePrimitive_sound c s : sound (parsed (length (c :: s))) (parsePrimitive jsonString decryptionKey c (c :: s)).
Proof.
  unfold parsePrimitive. destruct (_ || _); [|done]. destruct (tryDecryptPrimitive _ _ _) as [[v r]|] eqn:Ed.
  - revert Ed. unfold tryDecryptPrimitive. destruct (isEmpty decryptionKey) eqn:Ek; [done|]. destruct (span _ (c :: s)) as [a b] eqn:E. apply span_length in E.
    destruct a as [|a0 a]; [done|]. cbn [isEmpty]. intros [= <- <-]. split; [split; [apply interpretDecrypted_typed|intros H; by rewrite H in Ek]|]. simpl in *. lia.
  - destruct (bool_decide (c = x74) || bool_decide (c = x66)) eqn:Ec; [|destruct (bool_decide (c = x6e)) eqn:Ec2; [|apply parseNumber_sound]].
    all: destruct (parseLiteral _ _) as [w r] eqn:El; apply parseLiteral_length in El;
      [|first [by apply bool_decide_eq_true in Ec2 as ->|by apply orb_true_iff in Ec as [->%bool_decide_eq_true| ->%bool_decide_eq_true]]];
      repeat (destruct (eqb _ _); [by repeat split|]); done.
Qed.

Lemma good_object object : good (Object object) <-> ordered object /\ Forall (fun field => good field.2) object.
Proof.
  unfold good. cbn [typed finite]. rewrite all_true, forallb_forall, !Forall_forall. split.
  - intros [[Ho Ht] Hf]. split; [done|]. intros f Hin. split; [by apply Ht|]. intros Hk. by apply Hf.
  - intros [Ho H]. split; [split; [done|]; intros f Hin; by apply H|]. intros Hk f Hin. by apply H.
Qed.

Lemma good_array array : good (Array array) <-> Forall good array.
Proof.
  unfold good. cbn [typed finite]. rewrite all_true, forallb_forall, !Forall_forall. split.
  - intros [Ht Hf] v Hin. split; [by apply Ht|]. intros Hk. by apply Hf.
  - intros H. split; [intros v Hin; by apply H|]. intros Hk v Hin. by apply H.
Qed.

Lemma good_insert k v object : good (Object object) -> good v -> good (Object (insert k v object)).
Proof.
  rewrite !good_object. intros [Ho Hall] Hv. destruct (ordered_insert k v object Ho) as [Ho' Hin]. split; [done|].
  rewrite Forall_forall in Hall |- *. intros f Hf. destruct (Hin f Hf) as [-> |Hf']; [done|by apply Hall].
Qed.

Lemma parse_sound fuel :
  (forall rest, (2 * length rest + 2 <= fuel)%nat -> sound (parsed (length rest)) (parseJson jsonString decryptionKey fuel rest)) /\
  (forall object rest, (2 * length rest + 3 <= fuel)%nat -> good (Object object) ->
    sound (parsed (length rest)) (parseObject_loop jsonString decryptionKey fuel object rest)) /\
  (forall array rest, (2 * length rest + 3 <= fuel)%nat -> good (Array array) ->
    sound (parsed (length rest)) (parseArray_loop jsonString decryptionKey fuel array rest)).
Proof.
  induction fuel as [|fuel (IHv & IHo & IHa)]; [split_and!; intros; lia|].
  assert (forall n m o, (n <= m)%nat -> sound (parsed n) o -> sound (parsed m) o) as Hw.
  { intros n m o Hn Ho. eapply sound_weaken; [exact Ho|]. intros [v r] [Hv Hr]. split; [done|]. simpl in *. lia. }
  split_and!.
  - intros rest Hf. pose proof (skipSpace_length rest) as Hl. cbn [parseJson]. destruct (skipSpace rest) as [|c r]; [done|]. simpl in Hl.
    destruct (decide (c = x7b)); [apply (Hw (length r)); [lia|apply IHo; [lia|apply good_object; split; constructor]]|].
    destruct (decide (c = x5b)); [apply (Hw (length r)); [lia|apply IHa; [lia|by apply good_array]]|].
    destruct (decide (c = quote)).
    + eapply sound_bind; [apply parseString_sound|]. intros [s r'] Hr. split; [apply stringValue_typed|]. simpl in *. lia.
    + apply (Hw (length (c :: r))); [simpl; lia|apply parsePrimitive_sound].
  - intros object rest Hf Ho. pose proof (skipSpace_length rest) as Hl. cbn [parseObject_loop]. destruct (skipSpace rest) as [|c r]; [done|]. simpl in Hl.
    destruct (decide (c = x7d)); [by split; [|simpl; lia]|]. destruct (negb _); [done|]. eapply sound_bind; [apply parseString_sound|]. intros [key r1] H1.
    pose proof (skipSpace_length r1) as Hl1. destruct (negb _); [done|]. pose proof (tail_length (skipSpace r1)) as Hl2.
    eapply sound_bind; [apply IHv; cbn in H1; lia|]. intros [v r2] [Hv H2]. pose proof (skipSpace_length r2) as Hl3. destruct (skipSpace r2) as [|c' r3]; [done|].
    cbn in H1, H2, Hl3, Hv. pose proof (good_insert key v object Ho Hv) as Hi.
    destruct (decide (c' = x2c)); [apply (Hw (length r3)); [lia|apply IHo; [lia|done]]|]. destruct (decide (c' = x7d)); [|done]. split; [done|simpl; lia].
  - intros array rest Hf Ha. pose proof (skipSpace_length rest) as Hl. cbn [parseArray_loop]. destruct (skipSpace rest) as [|c r]; [done|].
    destruct (decide (c = x5d)); [by split; [|simpl in *; lia]|].
    eapply sound_bind; [apply IHv; lia|]. intros [v r2] [Hv H2]. pose proof (skipSpace_length r2) as Hl3. destruct (skipSpace r2) as [|c' r3]; [done|].
    cbn in H2, Hl3, Hl, Hv. assert (good (Array (array ++ [v]))) as Hi by (apply good_array, Forall_app_2; [by apply good_array|by constructor]).
    destruct (decide (c' = x2c)); [apply (Hw (length r3)); [lia|apply IHa; [lia|done]]|]. destruct (decide (c' = x5d)); [|done]. split; [done|simpl; lia].
Qed.

End Parser.

(** C18: loading ends with a well-typed document.  Whatever the text and the key, and
    whatever the cipher does, [loadFromJson] ends, and the root value it leaves has
    64-bit integers, binary64 doubles and objects with strictly ordered keys; without a
    key, no double of it is infinite or not a number.  When the parser fails, the root
    is null. *)
Theorem load_is_typed jsonString decryptionKey : exists rootValue errorMessage,
  loadFromJson jsonString decryptionKey = Success (rootValue, errorMessage) /\
  good decryptionKey rootValue /\
  (errorMessage = [] \/ errorMessage = str "Unexpected characters at the end of JSON." \/ rootValue = Null).
Proof.
  unfold loadFromJson. set (start := if hasPrefix _ _ then _ else _).
  assert (length start <= length jsonString)%nat as Hs by (unfold start; destruct (hasPrefix _ _); [rewrite length_drop; lia|done]).
  destruct (parse_sound jsonString decryptionKey (parseFuel jsonString)) as (Hp & _). specialize (Hp start ltac:(unfold parseFuel; lia)).
  destruct (parseJson _ _ _ _) as [[v r]|e|]; [|by eexists _, _; split_and!; auto|done]. destruct Hp as [Hg _].
  eexists _, _. split; [done|]. split; [done|]. destruct (isEmpty _); auto.
Qed.

End Types.

End JsonTypes.
