(* ===== verification/DbCodec.v ===== *)
(** The on-disk encodings of the embedded database
    (src/src/core/storage/embeddeddb/SwEmbeddedDbCodec.h, with its records from
    src/src/core/storage/SwEmbeddedDb.h).

    A read cursor [cur, end) is the bytes it has left.  A reader that fails returns
    [None]; its callers all fail with it, so where the cursor stood is not kept. *)
From Stdlib Require Import ZArith Lia Strings.Byte.
From stdpp Require Import base list strings numbers option.
From S2P Require Import Prelude SwString ByteMap NumberText JsonValue.

Import SwString.

(** miniz: [mz_crc32] from 0 over a run of bytes. *)
Class Miniz := { mz_crc32 : list byte -> Z }.

Module DbCodec.

Definition kTableMagic_ : list byte := str "SWDBSST1".
Definition kFooterMagic_ : list byte := str "SWDBFTR1".
Definition kWalMagic_ : list byte := str "SWDBWAL1".

Definition TableKindPrimary : Z := 1.
Definition TableKindIndex : Z := 2.

Definition RecordDeleted : Z := 0x1.
Definition RecordBlobRef : Z := 0x2.

(** [SwMap<SwString, SwList<SwByteArray>>] *)
Abbreviation SecondaryKeys := (ByteMap.t (list (list byte))).

Record BlobRef_ := mkBlobRef {
  br_valid : bool;
  br_fileId : Z;
  br_offset : Z;
  br_length : Z;
  br_crc32 : Z;
  br_flags : Z
}.

Record PrimaryRecord_ := mkPrimaryRecord {
  pr_deleted : bool;
  pr_sequence : Z;
  pr_inlineValue : bool;
  pr_value : list byte;
  pr_jsonPayload : option SwJson.SwJsonObject;
  pr_blobRef : BlobRef_;
  pr_secondaryKeys : SecondaryKeys
}.

Definition noBlobRef : BlobRef_ := mkBlobRef false 0 0 0 0 0.

(** [PrimaryRecord_()] with its first two fields set. *)
Definition emptyRecord (deleted : bool) (sequence : Z) : PrimaryRecord_ :=
  mkPrimaryRecord deleted sequence true [] None noBlobRef [].

Record TableMeta_ := mkTableMeta {
  tm_kind : Z;
  tm_level : Z;
  tm_fileId : Z;
  tm_minSequence : Z;
  tm_maxSequence : Z;
  tm_recordCount : Z;
  tm_blobFileId : Z;
  tm_fileName : list byte;
  tm_indexName : list byte
}.

(** [TableRecord_], and [TableRecordView_] with what its pointers show. *)
Record TableRecord_ := mkTableRecord {
  tr_userKey : list byte;
  tr_sequence : Z;
  tr_flags : Z;
  tr_payload : list byte
}.

(** ** Fixed-width integers *)

Definition crc32Bytes_ `{Miniz} (data : list byte) : Z := wrap32 (mz_crc32 data).

(** [crc32Bytes_] of a [SwByteArray]. *)
Definition crc32OfByteArray_ `{Miniz} (data : list byte) : Z := if isEmpty data then 0 else crc32Bytes_ data.

Definition stableHash64_ (text : list byte) : Z :=
  fold_left (fun hash b => mul64 (Z.lxor hash (b2z b)) 1099511628211) text 1469598103934665603.

Definition appendU8_ (value : Z) (out : list byte) : list byte := out ++ [z2b (Z.land value 0xff)].

Definition appendU32LE_ (value : Z) (out : list byte) : list byte :=
  out ++ [z2b (Z.land value 0xff); z2b (Z.land (Z.shiftr value 8) 0xff);
          z2b (Z.land (Z.shiftr value 16) 0xff); z2b (Z.land (Z.shiftr value 24) 0xff)].

Definition appendU64LE_ (value : Z) (out : list byte) : list byte :=
  out ++ [z2b (Z.land value 0xff); z2b (Z.land (Z.shiftr value 8) 0xff);
          z2b (Z.land (Z.shiftr value 16) 0xff); z2b (Z.land (Z.shiftr value 24) 0xff);
          z2b (Z.land (Z.shiftr value 32) 0xff); z2b (Z.land (Z.shiftr value 40) 0xff);
          z2b (Z.land (Z.shiftr value 48) 0xff); z2b (Z.land (Z.shiftr value 56) 0xff)].

Definition readU8_ (cur : list byte) : option (Z * list byte) :=
  match cur with b :: cur => Some (b2z b, cur) | [] => None end.

Definition readU32LE_ (cur : list byte) : option (Z * list byte) :=
  match cur with
  | b0 :: b1 :: b2 :: b3 :: cur =>
      Some (Z.lor (Z.lor (Z.lor (b2z b0) (Z.shiftl (b2z b1) 8)) (Z.shiftl (b2z b2) 16)) (Z.shiftl (b2z b3) 24), cur)
  | _ => None
  end.

(** The loop of [readU64LE_] over the eight bytes, from the [i]th on. *)
Fixpoint readU64LE_loop (bytes : list byte) (i value : Z) : Z :=
  match bytes with
  | b :: bytes => readU64LE_loop bytes (i + 1) (Z.lor value (shl64 (b2z b) (i * 8)))
  | [] => value
  end.

Definition readU64LE_ (cur : list byte) : option (Z * list byte) :=
  if zlen cur <? 8 then None else Some (readU64LE_loop (take 8 cur) 0 0, drop 8 cur).

(** ** Byte strings *)

Definition appendBytes_ (bytes out : list byte) : list byte :=
  appendU32LE_ (wrap32 (zlen bytes)) out ++ bytes.

(** Also [readBytesView_]: what [\[dataOut, dataOut + bytesOut)] shows. *)
Definition readBytes_ (cur : list byte) : option (list byte * list byte) :=
  '(len, cur) ← readU32LE_ cur;
  if zlen cur <? len then None else Some (take (Z.to_nat len) cur, drop (Z.to_nat len) cur).

Definition appendString_ (value out : list byte) : list byte :=
  appendU32LE_ (wrap32 (size value)) out ++ value.

Definition readString_ (cur : list byte) : option (list byte * list byte) :=
  '(len, cur) ← readU32LE_ cur;
  if zlen cur <? len then None else Some (take (Z.to_nat len) cur, drop (Z.to_nat len) cur).

(** ** Secondary keys *)

Definition encodeSecondaryKeys_ (secondaryKeys : SecondaryKeys) (out : list byte) : list byte :=
  fold_left (fun out it =>
      fold_left (fun out key => appendBytes_ key out) it.2
        (appendU32LE_ (wrap32 (zlen it.2)) (appendString_ it.1 out)))
    secondaryKeys (appendU32LE_ (wrap32 (zlen secondaryKeys)) out).

Fixpoint decodeKeys_loop (keyCount : nat) (keys : list (list byte)) (cur : list byte) : option (list (list byte) * list byte) :=
  match keyCount with
  | O => Some (keys, cur)
  | S keyCount => '(key, cur) ← readBytes_ cur; decodeKeys_loop keyCount (keys ++ [key]) cur
  end.

Fixpoint decodeSecondaryKeys_loop (indexCount : nat) (out : SecondaryKeys) (cur : list byte) : option (SecondaryKeys * list byte) :=
  match indexCount with
  | O => Some (out, cur)
  | S indexCount =>
      '(indexName, cur) ← readString_ cur;
      '(keyCount, cur) ← readU32LE_ cur;
      '(keys, cur) ← decodeKeys_loop (Z.to_nat keyCount) [] cur;
      decodeSecondaryKeys_loop indexCount (ByteMap.insert indexName keys out) cur
  end.

Definition decodeSecondaryKeys_ (cur : list byte) : option (SecondaryKeys * list byte) :=
  '(indexCount, cur) ← readU32LE_ cur;
  decodeSecondaryKeys_loop (Z.to_nat indexCount) [] cur.

(** ** Index keys *)

Definition appendEncodedFieldKey_ (key out : list byte) : list byte :=
  if negb (containsChar x00 key) then (out ++ key) ++ [x00; x00]
  else
    fold_left (fun out ch => if decide (ch = x00) then (out ++ [x00]) ++ [xff] else out ++ [ch]) key out
      ++ [x00; x00].

Definition encodeFieldKey_ (key : list byte) : list byte := appendEncodedFieldKey_ key [].

Fixpoint decodeFieldKey_loop (out cur : list byte) : option (list byte * list byte) :=
  match cur with
  | [] => None
  | ch :: cur =>
      if decide (ch <> x00) then decodeFieldKey_loop (out ++ [ch]) cur
      else
        match cur with
        | [] => None
        | tag :: cur =>
            if decide (tag = x00) then Some (out, cur)
            else if decide (tag <> xff) then None
            else decodeFieldKey_loop (out ++ [x00]) cur
        end
  end.

Definition decodeFieldKey_ (cur : list byte) : option (list byte * list byte) := decodeFieldKey_loop [] cur.

Definition encodeIndexCompositeKey_ (secondaryKey primaryKey : list byte) : list byte :=
  appendEncodedFieldKey_ primaryKey (appendEncodedFieldKey_ secondaryKey []).

Definition decodeIndexCompositeKey_ (compositeKey : list byte) : option (list byte * list byte) :=
  '(secondaryKey, cur) ← decodeFieldKey_ compositeKey;
  '(primaryKey, cur) ← decodeFieldKey_ cur;
  if isEmpty cur then Some (secondaryKey, primaryKey) else None.

(** ** Records *)

Definition encodePrimaryPayload_ (record : PrimaryRecord_) : list byte :=
  let out := appendU8_ (if pr_inlineValue record then 0 else 1) [] in
  let secondaryBytes := encodeSecondaryKeys_ (pr_secondaryKeys record) [] in
  let out := appendBytes_ secondaryBytes out in
  if pr_inlineValue record then appendBytes_ (pr_value record) out
  else
    let out := appendU64LE_ (br_fileId (pr_blobRef record)) out in
    let out := appendU64LE_ (br_offset (pr_blobRef record)) out in
    let out := appendU32LE_ (br_length (pr_blobRef record)) out in
    let out := appendU32LE_ (br_crc32 (pr_blobRef record)) out in
    appendU32LE_ (br_flags (pr_blobRef record)) out.

(** [out] is the record the caller passes: its [deleted], [sequence] and
    [jsonPayload] are left as they are. *)
Definition decodePrimaryPayload_ (payload : list byte) (out : PrimaryRecord_) : option PrimaryRecord_ :=
  '(mode, cur) ← readU8_ payload;
  '(secondaryData, cur) ← readBytes_ cur;
  '(secondaryKeys, _) ← decodeSecondaryKeys_ secondaryData;
  if mode =? 0 then
    '(value, cur) ← readBytes_ cur;
    if isEmpty cur then
      Some (mkPrimaryRecord (pr_deleted out) (pr_sequence out) true value (pr_jsonPayload out) noBlobRef secondaryKeys)
    else None
  else
    '(fileId, cur) ← readU64LE_ cur;
    '(offset, cur) ← readU64LE_ cur;
    '(length, cur) ← readU32LE_ cur;
    '(crc32, cur) ← readU32LE_ cur;
    '(flags, cur) ← readU32LE_ cur;
    if isEmpty cur then
      Some (mkPrimaryRecord (pr_deleted out) (pr_sequence out) false [] (pr_jsonPayload out)
              (mkBlobRef true fileId offset length crc32 flags) secondaryKeys)
    else None.

Definition encodeTableRecord_ (record : TableRecord_) : list byte :=
  let out := appendBytes_ (tr_userKey record) [] in
  let out := appendU64LE_ (tr_sequence record) out in
  let out := appendU32LE_ (tr_flags record) out in
  appendBytes_ (tr_payload record) out.

(** Also [decodeTableRecordView_]. *)
Definition decodeTableRecord_ (cur : list byte) : option (TableRecord_ * list byte) :=
  '(userKey, cur) ← readBytes_ cur;
  '(sequence, cur) ← readU64LE_ cur;
  '(flags, cur) ← readU32LE_ cur;
  '(payload, cur) ← readBytes_ cur;
  Some (mkTableRecord userKey sequence flags payload, cur).

(** ** File names *)

(** [std::strtoull] in base 10: the value and what follows. *)
Definition strtoull (s : list byte) : Z * list byte :=
  let (negative, s1) := NumberText.readSign (NumberText.span NumberText.isSpace s).2 in
  let (digits, rest) := NumberText.span NumberText.isDigit s1 in
  if isEmpty digits then (0, s)
  else
    let v := NumberText.digitsValue digits in
    if u64_max <? v then (u64_max, rest)
    else (if (negative : bool) then wrap64 (- v) else v, rest).

Definition endsWith (suffix s : list byte) : bool := hasPrefix (reverse suffix) (reverse s).

Definition parseNumericSuffix_ (fileName prefix suffix : list byte) : Z :=
  if negb (startsWith prefix fileName) || negb (endsWith suffix fileName) then 0
  else
    let digits := mid (to_int (size prefix)) (to_int (size fileName - size prefix - size suffix)) fileName in
    if isEmpty digits then 0
    else
      let (value, rest) := strtoull (beforeNul digits) in
      if isEmpty rest then value else 0.

Definition blobFileName_ (fileId : Z) : list byte :=
  str "BLOB-" ++ NumberText.numberUnsignedImpl_ fileId 10 ++ str ".dat".

(** [while (number.size() < 10) number.prepend("0")] *)
Definition walFileName_ (fileId : Z) : list byte :=
  let number := NumberText.numberUnsignedImpl_ fileId 10 in
  str "WAL-" ++ (replicate (10 - length number) x30 ++ number) ++ str ".log".

Definition manifestFileName_ (fileId : Z) : list byte :=
  str "MANIFEST-" ++ NumberText.numberUnsignedImpl_ fileId 10 ++ str ".dbm".

Definition compareTableMetaNewestFirst_ (lhs rhs : TableMeta_) : bool :=
  if negb (tm_level lhs =? tm_level rhs) then tm_level lhs <? tm_level rhs
  else tm_fileId rhs <? tm_fileId lhs.

Definition compareTableMetaOldestFirst_ (lhs rhs : TableMeta_) : bool :=
  if negb (tm_level lhs =? tm_level rhs) then tm_level rhs <? tm_level lhs
  else tm_fileId lhs <? tm_fileId rhs.

(** ** Facts *)

(** *** Integers *)

Fixpoint le_bytes (n : nat) (v : Z) : list byte :=
  match n with O => [] | S n => z2b v :: le_bytes n (v / 256) end.

Fixpoint le_value (bytes : list byte) : Z :=
  match bytes with b :: bytes => b2z b + 256 * le_value bytes | [] => 0 end.

Lemma length_le_bytes n v : length (le_bytes n v) = n.
Proof. revert v. induction n as [|n IH]; intros v; simpl; [done|]. by rewrite IH. Qed.

Lemma le_value_bytes n v : 0 <= v < 256 ^ Z.of_nat n -> le_value (le_bytes n v) = v.
Proof.
  revert v. induction n as [|n IH]; intros v Hv; simpl; [change (256 ^ Z.of_nat 0) with 1 in Hv; lia|].
  rewrite Nat2Z.inj_succ, Z.pow_succ_r in Hv by lia. rewrite IH, b2z_z2b.
  - pose proof (Z.div_mod v 256). lia.
  - split; [apply Z.div_pos; lia|]. apply Z.div_lt_upper_bound; lia.
Qed.

Lemma le_value_range bytes : 0 <= le_value bytes < 256 ^ zlen bytes.
Proof.
  induction bytes as [|b bytes IH]; [done|]. cbn [le_value length]. rewrite Nat2Z.inj_succ, Z.pow_succ_r by lia.
  pose proof (b2z_range b). lia.
Qed.

Lemma z2b_shift v k : 0 <= k -> z2b (Z.land (Z.shiftr v k) 0xff) = z2b (v / 2 ^ k).
Proof. intros Hk. by rewrite z2b_land_255, Z.shiftr_div_pow2. Qed.

Lemma appendU8_eq v out : appendU8_ v out = out ++ le_bytes 1 v.
Proof. unfold appendU8_. by rewrite z2b_land_255. Qed.

Lemma appendU32LE_eq v out : appendU32LE_ v out = out ++ le_bytes 4 v.
Proof.
  unfold appendU32LE_. cbn [le_bytes]. rewrite z2b_land_255, !z2b_shift, !Z.div_div by lia. done.
Qed.

Lemma appendU64LE_eq v out : appendU64LE_ v out = out ++ le_bytes 8 v.
Proof.
  unfold appendU64LE_. cbn [le_bytes]. rewrite z2b_land_255, !z2b_shift, !Z.div_div by lia. done.
Qed.

Lemma readU8_eq v rest : 0 <= v < 256 -> readU8_ (le_bytes 1 v ++ rest) = Some (v, rest).
Proof. intros H. simpl. by rewrite b2z_z2b_small. Qed.

Lemma lor_shift a b k : 0 <= k -> 0 <= a < 2 ^ k -> Z.lor a (Z.shiftl b k) = a + 2 ^ k * b.
Proof. intros Hk Ha. rewrite Z.shiftl_mul_pow2 by done. rewrite (lor_disjoint a _ b k) by done. lia. Qed.

Lemma readU32LE_value b0 b1 b2 b3 rest :
  readU32LE_ (b0 :: b1 :: b2 :: b3 :: rest) = Some (le_value [b0; b1; b2; b3], rest).
Proof.
  cbn [readU32LE_ le_value]. pose proof (b2z_range b0). pose proof (b2z_range b1). pose proof (b2z_range b2).
  rewrite (lor_shift (b2z b0)), (lor_shift (_ + _)), (lor_shift (_ + _)); change (2 ^ 8) with 256; change (2 ^ 16) with 65536;
    change (2 ^ 24) with 16777216; try lia. f_equal. f_equal. lia.
Qed.

Lemma readU32LE_eq v rest : 0 <= v < 2 ^ 32 -> readU32LE_ (le_bytes 4 v ++ rest) = Some (v, rest).
Proof.
  intros H. pose proof (le_value_bytes 4 v H) as E. cbn [le_bytes app] in *. by rewrite readU32LE_value, E.
Qed.

Lemma readU64LE_loop_eq bytes i value : 0 <= i -> i + zlen bytes <= 8 -> 0 <= value < 256 ^ i ->
  readU64LE_loop bytes i value = value + 256 ^ i * le_value bytes.
Proof.
  revert i value. induction bytes as [|b bytes IH]; intros i value Hi Hl Hv; cbn [readU64LE_loop le_value]; [lia|].
  simpl length in Hl. pose proof (b2z_range b) as Hb.
  assert (256 ^ i = 2 ^ (i * 8)) as Ep by (rewrite Z.mul_comm, Z.pow_mul_r by lia; done).
  assert (256 ^ (i + 1) = 256 * 256 ^ i) as Es by (rewrite Z.pow_add_r by lia; lia).
  assert (256 ^ (i + 1) <= 256 ^ 8) as Hm by (apply Z.pow_le_mono_r; lia). change (256 ^ 8) with 18446744073709551616 in Hm.
  assert (shl64 (b2z b) (i * 8) = Z.shiftl (b2z b) (i * 8)) as ->.
  { unfold shl64. rewrite Z.shiftl_mul_pow2, <- Ep by lia. apply wrap64_small. nia. }
  rewrite lor_shift by (rewrite <- ?Ep; lia). rewrite <- Ep, IH by (try lia; rewrite Es; nia). rewrite Es. lia.
Qed.

Lemma readU64LE_eq v rest : is_u64 v -> readU64LE_ (le_bytes 8 v ++ rest) = Some (v, rest).
Proof.
  intros H. unfold readU64LE_. rewrite zlen_app, length_le_bytes. destruct (Z.ltb_spec (Z.of_nat 8 + zlen rest) 8); [lia|].
  replace (take 8 (le_bytes 8 v ++ rest)) with (le_bytes 8 v) by done. replace (drop 8 (le_bytes 8 v ++ rest)) with rest by done.
  rewrite readU64LE_loop_eq by (rewrite ?length_le_bytes; done). rewrite le_value_bytes by done. do 2 f_equal. lia.
Qed.

(** *** Byte strings and secondary keys *)

Definition short (bytes : list byte) : Prop := zlen bytes < 2 ^ 32.

(** A byte string with its length in front. *)
Definition counted (bytes : list byte) : list byte := le_bytes 4 (zlen bytes) ++ bytes.

Lemma appendBytes_eq bytes out : short bytes -> appendBytes_ bytes out = out ++ counted bytes.
Proof.
  unfold short, appendBytes_, counted, wrap32. intros H. rewrite appendU32LE_eq, Z.mod_small by lia. by rewrite <- app_assoc.
Qed.

Lemma appendString_eq value out : short value -> appendString_ value out = out ++ counted value.
Proof. apply appendBytes_eq. Qed.

Lemma readBytes_eq bytes rest : short bytes -> readBytes_ (counted bytes ++ rest) = Some (bytes, rest).
Proof.
  unfold short, readBytes_, counted. intros H. rewrite <- app_assoc, readU32LE_eq by lia. simpl.
  rewrite zlen_app. destruct (Z.ltb_spec (zlen bytes + zlen rest) (zlen bytes)); [lia|]. by rewrite Nat2Z.id, firstn_app_exact, skipn_app_exact.
Qed.

Lemma readString_eq value rest : short value -> readString_ (counted value ++ rest) = Some (value, rest).
Proof. apply readBytes_eq. Qed.

Lemma length_counted bytes : zlen (counted bytes) = 4 + zlen bytes.
Proof. unfold counted. rewrite zlen_app, length_le_bytes. lia. Qed.

#[global] Opaque le_bytes counted.

(** An index with its keys. *)
Definition indexBytes (it : list byte * list (list byte)) : list byte :=
  counted it.1 ++ le_bytes 4 (zlen it.2) ++ concat (map counted it.2).

Definition secondaryBytes (m : SecondaryKeys) : list byte :=
  le_bytes 4 (zlen m) ++ concat (map indexBytes m).

Definition index_ok (it : list byte * list (list byte)) : Prop := short it.1 /\ zlen it.2 < 2 ^ 32 /\ Forall short it.2.

(** Keys the encoding can hold: counts and lengths of 32 bits. *)
Definition keys_ok (m : SecondaryKeys) : Prop := ByteMap.wf m /\ zlen m < 2 ^ 32 /\ Forall index_ok m.

Lemma fold_append {A} (append : A -> list byte -> list byte) (bytes : A -> list byte) (P : A -> Prop) l out :
  (forall x out, P x -> append x out = out ++ bytes x) -> Forall P l ->
  fold_left (fun out x => append x out) l out = out ++ concat (map bytes l).
Proof.
  intros Ha Hl. revert out. induction Hl as [|x l Hx _ IH]; intros out; simpl; [by rewrite app_nil_r|].
  by rewrite IH, Ha, <- app_assoc.
Qed.

Lemma encodeSecondaryKeys_eq m out : keys_ok m -> encodeSecondaryKeys_ m out = out ++ secondaryBytes m.
Proof.
  intros (_ & Hl & Hm). unfold encodeSecondaryKeys_, secondaryBytes. rewrite appendU32LE_eq.
  unfold wrap32. rewrite Z.mod_small by lia.
  rewrite (fold_append (fun it out => fold_left (fun out key => appendBytes_ key out) it.2
    (appendU32LE_ (zlen it.2 mod 4294967296) (appendString_ it.1 out))) indexBytes index_ok); [by rewrite <- app_assoc| |done].
  intros it out' (H1 & H2 & H3). rewrite (fold_append _ counted short); [|intros; by apply appendBytes_eq|done].
  rewrite appendU32LE_eq, appendString_eq, Z.mod_small by (done || lia). unfold indexBytes. by rewrite <- !app_assoc.
Qed.

Lemma decodeKeys_eq l : forall keys rest, Forall short l ->
  decodeKeys_loop (length l) keys (concat (map counted l) ++ rest) = Some (keys ++ l, rest).
Proof.
  induction l as [|k l IH]; intros keys rest Hl; simpl; [by rewrite app_nil_r|].
  apply Forall_cons_1 in Hl as [Hk Hl]. rewrite <- app_assoc, readBytes_eq by done. simpl. rewrite IH by done. by rewrite <- app_assoc.
Qed.

Lemma decodeIndexes_eq m : forall out rest, ByteMap.wf (out ++ m) -> Forall index_ok m ->
  decodeSecondaryKeys_loop (length m) out (concat (map indexBytes m) ++ rest) = Some (out ++ m, rest).
Proof.
  induction m as [|[name keys] m IH]; intros out rest W Hm; simpl; [by rewrite app_nil_r|].
  apply Forall_cons_1 in Hm as [(H1 & H2 & H3) Hm]. simpl in *. unfold indexBytes at 1. cbn [fst snd].
  rewrite <- !app_assoc, readString_eq by done. simpl. rewrite readU32LE_eq by lia. simpl.
  rewrite Nat2Z.id, decodeKeys_eq by done. simpl. rewrite ByteMap.insert_at_end by (by eapply ByteMap.wf_before).
  rewrite IH; rewrite <- ?app_assoc; done.
Qed.

Lemma decodeSecondaryKeys_eq m rest : keys_ok m -> decodeSecondaryKeys_ (secondaryBytes m ++ rest) = Some (m, rest).
Proof.
  intros (W & Hl & Hm). unfold decodeSecondaryKeys_, secondaryBytes. rewrite <- app_assoc, readU32LE_eq by lia. simpl.
  rewrite Nat2Z.id. by apply (decodeIndexes_eq m []).
Qed.

Create Rewrite HintDb db_write.
#[export] Hint Rewrite appendU8_eq appendU32LE_eq appendU64LE_eq : db_write.
#[export] Hint Rewrite appendBytes_eq encodeSecondaryKeys_eq using assumption : db_write.

(** *** Records *)

Definition u32_ok (v : Z) : Prop := 0 <= v < 2 ^ 32.

Definition blobRef_ok (ref : BlobRef_) : Prop :=
  br_valid ref = true /\ is_u64 (br_fileId ref) /\ is_u64 (br_offset ref) /\
  u32_ok (br_length ref) /\ u32_ok (br_crc32 ref) /\ u32_ok (br_flags ref).

(** What a table can hold of a live record: the value or the reference to it, and
    the keys. *)
Definition record_ok (r : PrimaryRecord_) : Prop :=
  keys_ok (pr_secondaryKeys r) /\ short (secondaryBytes (pr_secondaryKeys r)) /\ pr_jsonPayload r = None /\
  if pr_inlineValue r then short (pr_value r) /\ pr_blobRef r = noBlobRef
  else pr_value r = [] /\ blobRef_ok (pr_blobRef r).

Lemma payload_roundtrip r : record_ok r ->
  decodePrimaryPayload_ (encodePrimaryPayload_ r) (emptyRecord (pr_deleted r) (pr_sequence r)) = Some r.
Proof.
  intros (Hk & Hs & Hj & Hv). destruct r as [deleted sequence inline value json ref keys]. simpl in *. subst json.
  unfold encodePrimaryPayload_, decodePrimaryPayload_. cbn [pr_inlineValue pr_value pr_blobRef pr_secondaryKeys].
  rewrite encodeSecondaryKeys_eq by done. rewrite app_nil_l, appendU8_eq, (appendBytes_eq (secondaryBytes keys)), app_nil_l by done.
  pose proof (decodeSecondaryKeys_eq keys [] Hk) as Hd. rewrite app_nil_r in Hd. destruct inline.
  - destruct Hv as [Hv ->]. rewrite appendBytes_eq, <- !app_assoc, readU8_eq by done || lia. simpl.
    rewrite readBytes_eq by done. simpl. rewrite Hd. simpl. pose proof (readBytes_eq value [] Hv) as Hb.
    rewrite app_nil_r in Hb. by rewrite Hb.
  - destruct Hv as [-> (Hrv & H1 & H2 & H3 & H4 & H5)]. destruct ref as [valid fileId offset len crc flags]. simpl in *. subst valid.
    rewrite !appendU32LE_eq, !appendU64LE_eq, <- !app_assoc, readU8_eq by lia. simpl.
    rewrite readBytes_eq by done. simpl. rewrite Hd. simpl.
    rewrite readU64LE_eq by done. simpl. rewrite readU64LE_eq by done. simpl.
    rewrite readU32LE_eq by done. simpl. rewrite readU32LE_eq by done. simpl.
    pose proof (readU32LE_eq flags [] H5) as Hf. rewrite app_nil_r in Hf. by rewrite Hf.
Qed.

Definition tableRecord_ok (r : TableRecord_) : Prop :=
  short (tr_userKey r) /\ is_u64 (tr_sequence r) /\ u32_ok (tr_flags r) /\ short (tr_payload r).

(** A record as the blocks of a table hold it. *)
Definition tableBytes (r : TableRecord_) : list byte :=
  counted (tr_userKey r) ++ le_bytes 8 (tr_sequence r) ++ le_bytes 4 (tr_flags r) ++ counted (tr_payload r).

Lemma encodeTableRecord_eq r : tableRecord_ok r -> encodeTableRecord_ r = tableBytes r.
Proof.
  intros (H1 & H2 & H3 & H4). unfold encodeTableRecord_, tableBytes.
  by rewrite (appendBytes_eq (tr_payload r)), appendU32LE_eq, appendU64LE_eq, appendBytes_eq, <- !app_assoc by done.
Qed.

Lemma decodeTableRecord_eq r rest : tableRecord_ok r -> decodeTableRecord_ (tableBytes r ++ rest) = Some (r, rest).
Proof.
  intros (H1 & H2 & H3 & H4). unfold decodeTableRecord_, tableBytes.
  rewrite <- !app_assoc, readBytes_eq by done. simpl. rewrite readU64LE_eq by done. simpl. rewrite readU32LE_eq by done. simpl.
  rewrite readBytes_eq by done. simpl. by destruct r.
Qed.

(** *** Index keys *)

Definition escapedByte (ch : byte) : list byte := if decide (ch = x00) then [x00; xff] else [ch].

(** The bytes of a key with its zeros escaped, and two zeros after them. *)
Definition fieldBytes (key : list byte) : list byte := flat_map escapedByte key ++ [x00; x00].

Lemma appendEncodedFieldKey_eq key out : appendEncodedFieldKey_ key out = out ++ fieldBytes key.
Proof.
  unfold appendEncodedFieldKey_, fieldBytes. destruct (containsChar x00 key) eqn:E; simpl.
  - rewrite app_assoc. f_equal. clear E. revert out. induction key as [|ch key IH]; intros out; simpl; [by rewrite app_nil_r|].
    rewrite IH. unfold escapedByte at 2. destruct (decide (ch = x00)); by rewrite <- !app_assoc.
  - rewrite <- app_assoc. f_equal. f_equal. apply bool_decide_eq_false in E.
    induction key as [|ch key IH]; [done|]. apply not_elem_of_cons in E as [E1 E2]. simpl. unfold escapedByte at 1.
    rewrite decide_False by done. simpl. by rewrite <- IH.
Qed.

Lemma fieldBytes_cons ch key rest : fieldBytes (ch :: key) ++ rest = escapedByte ch ++ fieldBytes key ++ rest.
Proof. unfold fieldBytes. simpl. by rewrite <- !app_assoc. Qed.

Lemma decodeFieldKey_eq key : forall out rest, decodeFieldKey_loop out (fieldBytes key ++ rest) = Some (out ++ key, rest).
Proof.
  induction key as [|ch key IH]; intros out rest; [simpl; by rewrite app_nil_r|].
  rewrite fieldBytes_cons. unfold escapedByte. destruct (decide (ch = x00)) as [->|N]; cbn [app decodeFieldKey_loop].
  - rewrite decide_False by (intros N; by apply N). rewrite decide_False, decide_False by (done || (intros N; by apply N)).
    rewrite IH. by rewrite <- app_assoc.
  - rewrite decide_True by done. rewrite IH. by rewrite <- app_assoc.
Qed.

Lemma encodeIndexCompositeKey_eq secondaryKey primaryKey :
  encodeIndexCompositeKey_ secondaryKey primaryKey = fieldBytes secondaryKey ++ fieldBytes primaryKey.
Proof. unfold encodeIndexCompositeKey_. by rewrite !appendEncodedFieldKey_eq. Qed.

Lemma composite_key_decodes secondaryKey primaryKey :
  decodeIndexCompositeKey_ (encodeIndexCompositeKey_ secondaryKey primaryKey) = Some (secondaryKey, primaryKey).
Proof.
  rewrite encodeIndexCompositeKey_eq. unfold decodeIndexCompositeKey_, decodeFieldKey_. rewrite decodeFieldKey_eq. simpl.
  pose proof (decodeFieldKey_eq primaryKey [] []) as H. rewrite app_nil_r in H. by rewrite H.
Qed.

Lemma composite_key_inj s p s' p' : encodeIndexCompositeKey_ s p = encodeIndexCompositeKey_ s' p' -> s = s' /\ p = p'.
Proof.
  intros E. pose proof (composite_key_decodes s p) as H. rewrite E, composite_key_decodes in H. by injection H as -> ->.
Qed.

Lemma before_app a b c : before (a ++ b) (a ++ c) = before b c.
Proof. induction a as [|x a IH]; simpl; [done|]. by rewrite Z.ltb_irrefl. Qed.

Lemma before_fields a c b d : before (fieldBytes a ++ b) (fieldBytes c ++ d) = if decide (a = c) then before b d else before a c.
Proof.
  assert (forall ch : byte, ch <> x00 -> 0 < b2z ch) as Hpos.
  { intros ch N. pose proof (b2z_range ch). assert (b2z ch <> 0); [|lia]. intros E. by apply N, b2z_inj. }
  revert c. induction a as [|x a IH]; intros [|y c].
  - rewrite decide_True by done. apply (before_app [x00; x00]).
  - rewrite decide_False by done. unfold fieldBytes. simpl. unfold escapedByte. destruct (decide (y = x00)) as [->|N]; [done|]. simpl.
    pose proof (Hpos y N). change (b2z x00) with 0. by destruct (Z.ltb_spec 0 (b2z y)); [|lia].
  - rewrite decide_False by done. unfold fieldBytes. simpl. unfold escapedByte. destruct (decide (x = x00)) as [->|N]; [done|]. simpl.
    pose proof (Hpos x N). change (b2z x00) with 0. destruct (Z.ltb_spec (b2z x) 0); [lia|]. by destruct (Z.ltb_spec 0 (b2z x)); [|lia].
  - rewrite !fieldBytes_cons. destruct (decide (x = y)) as [->|N].
    + rewrite before_app, IH. simpl. rewrite Z.ltb_irrefl. destruct (decide (a = c)) as [->|]; [by rewrite decide_True|].
      rewrite decide_False by congruence. done.
    + rewrite decide_False by congruence. assert (b2z x <> b2z y) by (intros E; by apply N, b2z_inj). cbn [before].
      unfold escapedByte. destruct (decide (x = x00)) as [->|Nx], (decide (y = x00)) as [->|Ny]; [done| | |]; simpl;
        change (b2z x00) with 0 in *; zbool; try done; try pose proof (Hpos x Nx); try pose proof (Hpos y Ny); lia.
Qed.

Lemma composite_before secondary1 primary1 secondary2 primary2 :
  before (encodeIndexCompositeKey_ secondary1 primary1) (encodeIndexCompositeKey_ secondary2 primary2) =
    (if decide (secondary1 = secondary2) then before primary1 primary2 else before secondary1 secondary2).
Proof.
  rewrite !encodeIndexCompositeKey_eq, before_fields.
  destruct (decide (secondary1 = secondary2)); [|done].
  pose proof (before_fields primary1 primary2 [] []) as H. rewrite !app_nil_r in H. rewrite H.
  destruct (decide (primary1 = primary2)) as [->|]; [by rewrite !before_irrefl|done].
Qed.

(** C16: The keys of an index sort as the pairs they are made of: by the secondary
    key, then by the primary key, each in its own order, whatever bytes they hold -
    zeros included, and whether or not one is the beginning of the other.  So a scan
    of an index in key order is a scan by secondary key, and the entries of one
    secondary key are together; and the pair is read back from the key. *)
Theorem index_keys_sort_as_pairs secondary1 primary1 secondary2 primary2 :
  before (encodeIndexCompositeKey_ secondary1 primary1) (encodeIndexCompositeKey_ secondary2 primary2) =
    (if decide (secondary1 = secondary2) then before primary1 primary2 else before secondary1 secondary2) /\
  decodeIndexCompositeKey_ (encodeIndexCompositeKey_ secondary1 primary1) = Some (secondary1, primary1).
Proof. split; [apply composite_before|apply composite_key_decodes]. Qed.

(** *** File names *)

Lemma hasPrefix_app p s : hasPrefix p (p ++ s) = true.
Proof. apply hasPrefix_spec. by eexists. Qed.

Lemma endsWith_app suffix s : endsWith suffix (s ++ suffix) = true.
Proof. unfold endsWith. rewrite reverse_app. apply hasPrefix_app. Qed.

Lemma strtoull_digits ds : NumberText.digits_only ds -> ds <> [] -> NumberText.digitsValue ds <= u64_max ->
  strtoull ds = (NumberText.digitsValue ds, []).
Proof.
  intros Hd Hn Hv. unfold strtoull. destruct ds as [|c ds]; [done|]. apply Forall_cons_1 in Hd as Hd'. destruct Hd' as [Hc _].
  pose proof (NumberText.readSign_literal false c ds Hc) as Hs. cbn [app] in Hs. rewrite Hs.
  pose proof (NumberText.span_app NumberText.isDigit (c :: ds) [] Hd ltac:(done)) as Hsp. rewrite app_nil_r in Hsp. rewrite Hsp. cbn [isEmpty].
  destruct (Z.ltb_spec u64_max (NumberText.digitsValue (c :: ds))); [lia|done].
Qed.

Lemma parse_number_between prefix ds suffix : NumberText.digits_only ds -> ds <> [] -> NumberText.digitsValue ds <= u64_max ->
  zlen (prefix ++ ds ++ suffix) < 2147483648 -> parseNumericSuffix_ (prefix ++ ds ++ suffix) prefix suffix = NumberText.digitsValue ds.
Proof.
  intros Hd Hn Hv Hl. unfold parseNumericSuffix_, startsWith. rewrite hasPrefix_app.
  rewrite (app_assoc prefix ds suffix), endsWith_app. simpl. rewrite <- app_assoc. rewrite !zlen_app in Hl. unfold size.
  rewrite !to_int_small by (rewrite ?zlen_app; lia). rewrite !zlen_app.
  replace (zlen prefix + (zlen ds + zlen suffix) - zlen prefix - zlen suffix) with (zlen ds) by lia.
  assert (mid (zlen prefix) (zlen ds) (prefix ++ ds ++ suffix) = ds) as ->.
  { assert (0 < zlen ds) by (destruct ds; simpl; [done|lia]).
    unfold mid, size. rewrite !to_int_small by (rewrite !zlen_app; lia). rewrite !zlen_app. zbool; try lia. cbn [orb].
    unfold zslice. rewrite !Nat2Z.id, skipn_app_exact. apply firstn_app_exact. }
  destruct ds as [|c ds]; [done|]. cbn [isEmpty].
  assert (beforeNul (c :: ds) = c :: ds) as ->; [|by rewrite strtoull_digits].
  clear -Hd. induction (c :: ds) as [|d l IH]; [done|]. apply Forall_cons_1 in Hd as [H1 H2]. simpl.
  rewrite decide_False; [by rewrite IH|]. intros ->. done.
Qed.

Lemma zeros_value n ds : NumberText.digits_only ds ->
  NumberText.digits_only (replicate n x30 ++ ds) /\ NumberText.digitsValue (replicate n x30 ++ ds) = NumberText.digitsValue ds.
Proof.
  intros H. split.
  - apply Forall_app. split; [|done]. by apply Forall_replicate.
  - induction n as [|n IH]; [done|]. simpl. change (x30 :: replicate n x30 ++ ds) with ([x30] ++ replicate n x30 ++ ds).
    rewrite NumberText.digitsValue_app. change (NumberText.digitsValue [x30]) with 0. lia.
Qed.

(** The number of a journal is read back from its name, padded or not. *)
Lemma walFileName_reads fileId : is_u64 fileId ->
  parseNumericSuffix_ (walFileName_ fileId) (str "WAL-") (str ".log") = fileId /\
  parseNumericSuffix_ (str "WAL-" ++ NumberText.numberUnsignedImpl_ fileId 10 ++ str ".log") (str "WAL-") (str ".log") = fileId.
Proof.
  intros H. pose proof (NumberText.numberUnsignedImpl_digits fileId H) as (Hd & Hv & Hn & H0 & Hp).
  pose proof (NumberText.numberUnsignedImpl_length fileId) as Hl. unfold walFileName_.
  destruct (zeros_value (10 - length (NumberText.numberUnsignedImpl_ fileId 10)) _ Hd) as [Hz1 Hz2].
  unfold is_u64, u64_max in *.
  split; rewrite parse_number_between; rewrite ?Hz2, ?Hv; try done; try (unfold u64_max; lia).
  - intros E. apply app_eq_nil in E as [_ E]. done.
  - rewrite !zlen_app, length_replicate. change (zlen (str "WAL-")) with 4. change (zlen (str ".log")) with 4. lia.
  - rewrite !zlen_app. change (zlen (str "WAL-")) with 4. change (zlen (str ".log")) with 4. lia.
Qed.

End DbCodec.
