(* ===== verification/DbWal.v ===== *)
(** Write batches and the journal of the embedded database: SwDbWriteBatch of
    src/src/core/storage/SwEmbeddedDb.h and the frames of
    src/src/core/storage/embeddeddb/SwEmbeddedDbWal.h. *)
From Stdlib Require Import ZArith Lia Strings.Byte.
From stdpp Require Import base list strings numbers option.
From S2P Require Import Prelude SwString ByteMap Crypto JsonValue JsonDocument DbCodec.

Import SwString.
Import DbCodec.

Module SwDbWriteBatch.

Inductive OperationType := Put | Erase.

Record Operation := mkOperation {
  op_type : OperationType;
  op_primaryKey : list byte;
  op_valueInline : bool;
  op_value : list byte;
  op_jsonPayload : option SwJson.SwJsonObject;
  op_blobFileId : Z;
  op_blobOffset : Z;
  op_blobLength : Z;
  op_blobCrc32 : Z;
  op_blobFlags : Z;
  op_secondaryKeys : SecondaryKeys
}.

Record t := mkBatch {
  operations_ : list Operation;
  walEstimateBytes_ : Z
}.

Section Batch.

Context `{E : EVP}.

(** [JsonPayload_::bytes] *)
Definition payloadBytes (object : SwJson.SwJsonObject) : list byte :=
  SwJsonDocument.toJson SwJsonDocument.Compact [] (SwJson.Object object).

Definition estimateSecondaryKeysWalBytes_ (secondaryKeys : SecondaryKeys) : Z :=
  fold_left (fun bytes it =>
      fold_left (fun bytes key => bytes +u (4 +u zlen key)) it.2 ((bytes +u (4 +u size it.1)) +u 4))
    secondaryKeys 4.

Definition estimateOperationWalBytes_ (op : Operation) : Z :=
  let bytes := 5 +u zlen (op_primaryKey op) in
  match op_type op with
  | Put =>
      (bytes +u (if op_valueInline op
                 then 4 +u (match op_jsonPayload op with
                            | Some object => zlen (payloadBytes object)
                            | None => zlen (op_value op)
                            end)
                 else 8 + 8 + 4 + 4 + 4))
        +u estimateSecondaryKeysWalBytes_ (op_secondaryKeys op)
  | Erase => bytes
  end.

Definition empty : t := mkBatch [] 12.

Definition add (op : Operation) (batch : t) : t :=
  mkBatch (operations_ batch ++ [op]) (walEstimateBytes_ batch +u estimateOperationWalBytes_ op).

Definition putOperation (primaryKey value : list byte) (secondaryKeys : SecondaryKeys) : Operation :=
  mkOperation Put primaryKey true value None 0 0 0 0 0 secondaryKeys.

Definition put (primaryKey value : list byte) (secondaryKeys : SecondaryKeys) (batch : t) : t :=
  add (putOperation primaryKey value secondaryKeys) batch.

(** [putJson] and [putJsonOwned_] *)
Definition putJson (primaryKey : list byte) (value : SwJson.SwJsonObject) (secondaryKeys : SecondaryKeys) (batch : t) : t :=
  mkBatch (operations_ batch ++ [mkOperation Put primaryKey true [] (Some value) 0 0 0 0 0 secondaryKeys])
    (walEstimateBytes_ batch).

Definition blobOperation (primaryKey : list byte) (blobFileId blobOffset blobLength blobCrc32 blobFlags : Z)
    (secondaryKeys : SecondaryKeys) : Operation :=
  mkOperation Put primaryKey false [] None blobFileId blobOffset blobLength blobCrc32 blobFlags secondaryKeys.

Definition putBlobRef (primaryKey : list byte) (blobFileId blobOffset blobLength blobCrc32 blobFlags : Z)
    (secondaryKeys : SecondaryKeys) (batch : t) : t :=
  add (blobOperation primaryKey blobFileId blobOffset blobLength blobCrc32 blobFlags secondaryKeys) batch.

Definition eraseOperation (primaryKey : list byte) : Operation :=
  mkOperation Erase primaryKey true [] None 0 0 0 0 0 [].

Definition erase (primaryKey : list byte) (batch : t) : t := add (eraseOperation primaryKey) batch.

Definition sumEstimates (operations : list Operation) : Z :=
  fold_left (fun bytes op => bytes +u estimateOperationWalBytes_ op) operations 12.

Definition materializeOperation (op : Operation) : Operation :=
  match op_jsonPayload op with
  | Some object =>
      mkOperation (op_type op) (op_primaryKey op) (op_valueInline op) (payloadBytes object) None
        (op_blobFileId op) (op_blobOffset op) (op_blobLength op) (op_blobCrc32 op) (op_blobFlags op) (op_secondaryKeys op)
  | None => op
  end.

Definition materializeJson (batch : t) : t :=
  let operations := map materializeOperation (operations_ batch) in
  mkBatch operations (sumEstimates operations).

Definition hasJson (batch : t) : bool :=
  existsb (fun op => match op_jsonPayload op with Some _ => true | None => false end) (operations_ batch).

Definition estimatedWalBytes (batch : t) : Z :=
  if negb (hasJson batch) then walEstimateBytes_ batch else sumEstimates (operations_ batch).

Definition isEmpty (batch : t) : bool := match operations_ batch with [] => true | _ => false end.

End Batch.

End SwDbWriteBatch.

(** ** Writing through a pointer *)

(** The buffer a frame is written in, and the pointer that runs through it. *)
Record Writer := mkWriter { memory : list byte; cursor : Z }.

Module WalManager_.

Import SwDbWriteBatch.

Section Journal.

Context `{E : EVP} `{C : Miniz}.

Definition overrun : string := "a write past the end of the buffer".

(** Bytes stored from the pointer on; the pointer moves behind them. *)
Definition store (bytes : list byte) : M Writer unit := fun w =>
  if (0 <=? cursor w) && (cursor w + zlen bytes <=? zlen (memory w)) then
    (Ok tt, mkWriter (take (Z.to_nat (cursor w)) (memory w) ++ bytes ++ drop (Z.to_nat (cursor w + zlen bytes)) (memory w))
              (cursor w + zlen bytes))
  else (Err overrun, w).

Fixpoint for_each {A} (l : list A) (f : A -> M Writer unit) : M Writer unit :=
  match l with [] => mret tt | x :: l => f x;; for_each l f end.

Definition writeU8To_ (value : Z) : M Writer unit := store [z2b (Z.land value 0xff)].

Definition writeU32LETo_ (value : Z) : M Writer unit :=
  store [z2b (Z.land value 0xff); z2b (Z.land (Z.shiftr value 8) 0xff);
         z2b (Z.land (Z.shiftr value 16) 0xff); z2b (Z.land (Z.shiftr value 24) 0xff)].

Definition writeU64LETo_ (value : Z) : M Writer unit :=
  store [z2b (Z.land value 0xff); z2b (Z.land (Z.shiftr value 8) 0xff);
         z2b (Z.land (Z.shiftr value 16) 0xff); z2b (Z.land (Z.shiftr value 24) 0xff);
         z2b (Z.land (Z.shiftr value 32) 0xff); z2b (Z.land (Z.shiftr value 40) 0xff);
         z2b (Z.land (Z.shiftr value 48) 0xff); z2b (Z.land (Z.shiftr value 56) 0xff)].

(** [patchU32LE_(out, value)]: four bytes at [out], the pointer stays. *)
Definition patchU32LE_ (out value : Z) : M Writer unit := fun w =>
  match writeU32LETo_ value (mkWriter (memory w) out) with
  | (r, w') => (r, mkWriter (memory w') (cursor w))
  end.

Definition writeBytesTo_ (bytes : list byte) : M Writer unit :=
  writeU32LETo_ (wrap32 (zlen bytes));;
  if SwString.isEmpty bytes then mret tt else store bytes.

Definition writeStringTo_ (value : list byte) : M Writer unit :=
  writeU32LETo_ (wrap32 (size value));;
  if SwString.isEmpty value then mret tt else store value.

Definition writeSecondaryKeysTo_ (secondaryKeys : SecondaryKeys) : M Writer unit :=
  writeU32LETo_ (wrap32 (zlen secondaryKeys));;
  for_each secondaryKeys (fun it =>
    writeStringTo_ it.1;;
    writeU32LETo_ (wrap32 (zlen it.2));;
    for_each it.2 writeBytesTo_).

Definition operationTag (op : Operation) : Z :=
  match op_type op with Erase => 1 | Put => if op_valueInline op then 0 else 2 end.

Definition writeWalPayload_ (sequence : Z) (batch : SwDbWriteBatch.t) : M Writer unit :=
  writeU64LETo_ sequence;;
  writeU32LETo_ (wrap32 (zlen (operations_ batch)));;
  for_each (operations_ batch) (fun op =>
    writeU8To_ (operationTag op);;
    writeBytesTo_ (op_primaryKey op);;
    match op_type op with
    | Erase => mret tt
    | Put =>
        (if op_valueInline op then writeBytesTo_ (op_value op)
         else
           writeU64LETo_ (op_blobFileId op);;
           writeU64LETo_ (op_blobOffset op);;
           writeU32LETo_ (op_blobLength op);;
           writeU32LETo_ (op_blobCrc32 op);;
           writeU32LETo_ (op_blobFlags op));;
        writeSecondaryKeysTo_ (op_secondaryKeys op)
    end).

(** [std::memcpy(frame, kWalMagic_, 8)] and the rest, in the bytes [out] is grown by. *)
Definition appendWalFrame (out : list byte) (sequence : Z) (batch : SwDbWriteBatch.t) : result (list byte) :=
  let frameOffset := zlen out in
  let payloadBytes := wrap32 (estimatedWalBytes batch) in
  let frameBytes := 16 + payloadBytes in
  let w := mkWriter (out ++ replicate (Z.to_nat frameBytes) x00) frameOffset in
  match
    (store kWalMagic_;;
     patchU32LE_ (frameOffset + 8) payloadBytes;;
     modify (fun w => mkWriter (memory w) (frameOffset + 16));;
     writeWalPayload_ sequence batch;;
     w ← get;
     patchU32LE_ (frameOffset + 12) (crc32Bytes_ (zslice (memory w) (frameOffset + 16) payloadBytes))) w
  with
  | (Ok _, w) => Ok (memory w)
  | (Err e, _) => Err e
  | (NoFuel, _) => NoFuel
  end.

(** ** Payloads *)

Definition encodeOperation (op : Operation) (payload : list byte) : list byte :=
  let payload := appendU8_ (operationTag op) payload in
  let payload := appendBytes_ (op_primaryKey op) payload in
  match op_type op with
  | Erase => payload
  | Put =>
      let payload :=
        if op_valueInline op then appendBytes_ (op_value op) payload
        else
          let payload := appendU64LE_ (op_blobFileId op) payload in
          let payload := appendU64LE_ (op_blobOffset op) payload in
          let payload := appendU32LE_ (op_blobLength op) payload in
          let payload := appendU32LE_ (op_blobCrc32 op) payload in
          appendU32LE_ (op_blobFlags op) payload in
      encodeSecondaryKeys_ (op_secondaryKeys op) payload
  end.

Definition encodeWalPayload (sequence : Z) (batch : SwDbWriteBatch.t) : list byte :=
  let payload := appendU64LE_ sequence [] in
  let payload := appendU32LE_ (wrap32 (zlen (operations_ batch))) payload in
  fold_left (fun payload op => encodeOperation op payload) (operations_ batch) payload.

(** One turn of the loop of [decodeWalPayload]. *)
Definition decodeOperation (outBatch : SwDbWriteBatch.t) (cur : list byte) : option (SwDbWriteBatch.t * list byte) :=
  '(type, cur) ← readU8_ cur;
  '(primaryKey, cur) ← readBytes_ cur;
  if type =? 0 then
    '(value, cur) ← readBytes_ cur;
    '(secondaryKeys, cur) ← decodeSecondaryKeys_ cur;
    Some (put primaryKey value secondaryKeys outBatch, cur)
  else if type =? 2 then
    '(blobFileId, cur) ← readU64LE_ cur;
    '(blobOffset, cur) ← readU64LE_ cur;
    '(blobLength, cur) ← readU32LE_ cur;
    '(blobCrc32, cur) ← readU32LE_ cur;
    '(blobFlags, cur) ← readU32LE_ cur;
    '(secondaryKeys, cur) ← decodeSecondaryKeys_ cur;
    Some (putBlobRef primaryKey blobFileId blobOffset blobLength blobCrc32 blobFlags secondaryKeys outBatch, cur)
  else if type =? 1 then Some (erase primaryKey outBatch, cur)
  else None.

Fixpoint decodeOperations_loop (opCount : nat) (outBatch : SwDbWriteBatch.t) (cur : list byte) :
    option (SwDbWriteBatch.t * list byte) :=
  match opCount with
  | O => Some (outBatch, cur)
  | S opCount => '(outBatch, cur) ← decodeOperation outBatch cur; decodeOperations_loop opCount outBatch cur
  end.

Definition decodeWalPayload (payload : list byte) : option (Z * SwDbWriteBatch.t) :=
  '(sequence, cur) ← readU64LE_ payload;
  '(opCount, cur) ← readU32LE_ cur;
  '(outBatch, cur) ← decodeOperations_loop (Z.to_nat opCount) empty cur;
  if SwString.isEmpty cur then Some (sequence, outBatch) else None.

(** ** Replay *)

(** [std::search] for the magic in what is left; [None] is the end. *)
Definition findNextWalMagic_ (begin : list byte) : option (list byte) :=
  i ← find kWalMagic_ begin; Some (drop (Z.to_nat i) begin).

(** What the loop of [replayWalFileLocked] reads at [cur]: a frame that is whole,
    with the right checksum and a payload that decodes, and what is after it. *)
Definition readFrame (cur : list byte) : option (Z * SwDbWriteBatch.t * list byte) :=
  if (zlen cur <? 16) || negb (startsWith kWalMagic_ cur) then None
  else
    '(payloadBytes, cur) ← readU32LE_ (drop 8 cur);
    '(crc, cur) ← readU32LE_ cur;
    if zlen cur <? payloadBytes then None
    else
      let payload := take (Z.to_nat payloadBytes) cur in
      if negb (crc32OfByteArray_ payload =? crc) then None
      else
        '(sequence, batch) ← decodeWalPayload payload;
        Some (sequence, batch, drop (Z.to_nat payloadBytes) cur).

Section Replay.

(** [db_.manifest_.maxSequence], and what is done with a batch that is newer. *)
Context {State : Type} (maxSequence : Z) (deliver : Z -> SwDbWriteBatch.t -> State -> State).

Fixpoint replay_loop (fuel : nat) (cur : list byte) : M State unit :=
  match fuel with
  | O => out_of_fuel
  | S fuel =>
      if SwString.isEmpty cur then mret tt
      else
        match readFrame cur with
        | None =>
            match findNextWalMagic_ (tail cur) with
            | None => mret tt
            | Some next => replay_loop fuel next
            end
        | Some (sequence, batch, next) =>
            if sequence <=? maxSequence then replay_loop fuel next
            else modify (deliver sequence batch);; replay_loop fuel next
        end
  end.

(** Each turn moves on by a byte at least. *)
Definition replayWalFileLocked (walBytes : list byte) : M State unit := replay_loop (S (length walBytes)) walBytes.

End Replay.

End Journal.

(** ** Facts *)

Section Facts.

Context `{E : EVP} `{C : Miniz}.

(** *** What a batch is written as *)

(** The operations [put], [putBlobRef] and [erase] make, with counts and lengths the
    journal can hold. *)
Inductive op_ok : Operation -> Prop :=
| put_ok k v s : short k -> short v -> keys_ok s -> op_ok (putOperation k v s)
| blob_ok k fileId offset len crc flags s : short k -> is_u64 fileId -> is_u64 offset -> u32_ok len -> u32_ok crc ->
    u32_ok flags -> keys_ok s -> op_ok (blobOperation k fileId offset len crc flags s)
| erase_ok k : short k -> op_ok (eraseOperation k).

Definition batch_ok (b : SwDbWriteBatch.t) : Prop :=
  Forall op_ok (operations_ b) /\ zlen (operations_ b) < 2 ^ 32 /\ walEstimateBytes_ b = sumEstimates (operations_ b).

Definition opBytes (op : Operation) : list byte :=
  le_bytes 1 (operationTag op) ++ counted (op_primaryKey op) ++
  match op_type op with
  | Erase => []
  | Put =>
      (if op_valueInline op then counted (op_value op)
       else le_bytes 8 (op_blobFileId op) ++ le_bytes 8 (op_blobOffset op) ++ le_bytes 4 (op_blobLength op) ++
            le_bytes 4 (op_blobCrc32 op) ++ le_bytes 4 (op_blobFlags op)) ++
      secondaryBytes (op_secondaryKeys op)
  end.

Definition batchBytes (sequence : Z) (b : SwDbWriteBatch.t) : list byte :=
  le_bytes 8 sequence ++ le_bytes 4 (zlen (operations_ b)) ++ concat (map opBytes (operations_ b)).

Definition frameBytes (sequence : Z) (b : SwDbWriteBatch.t) : list byte :=
  kWalMagic_ ++ le_bytes 4 (zlen (batchBytes sequence b)) ++ le_bytes 4 (crc32Bytes_ (batchBytes sequence b)) ++
  batchBytes sequence b.

Lemma empty_ok : batch_ok empty.
Proof. done. Qed.

Lemma add_ok op b : op_ok op -> batch_ok b -> zlen (operations_ b) + 1 < 2 ^ 32 -> batch_ok (add op b).
Proof.
  intros Ho (H1 & H2 & H3) Hl. repeat split.
  - apply Forall_app. auto.
  - simpl. rewrite zlen_app. simpl. lia.
  - simpl. unfold sumEstimates. rewrite fold_left_app. simpl. by rewrite H3.
Qed.

Lemma encodeOperation_eq op payload : op_ok op -> encodeOperation op payload = payload ++ opBytes op.
Proof.
  destruct 1 as [k v s ? ? ?|k f o l c g s ? ? ? ? ? ? ?|k ?]; unfold encodeOperation, opBytes; simpl.
  - rewrite encodeSecondaryKeys_eq, appendBytes_eq, appendBytes_eq, appendU8_eq by done. by rewrite <- !app_assoc.
  - rewrite encodeSecondaryKeys_eq, !appendU32LE_eq, !appendU64LE_eq, appendBytes_eq, appendU8_eq by done. by rewrite <- !app_assoc.
  - rewrite appendBytes_eq, appendU8_eq by done. by rewrite app_nil_r, <- app_assoc.
Qed.

Lemma encodeWalPayload_eq sequence b : batch_ok b -> encodeWalPayload sequence b = batchBytes sequence b.
Proof.
  intros (Ho & Hl & _). unfold encodeWalPayload, batchBytes, wrap32. rewrite appendU64LE_eq, appendU32LE_eq, Z.mod_small by lia.
  rewrite (fold_append encodeOperation opBytes op_ok) by (done || apply encodeOperation_eq). by rewrite <- !app_assoc.
Qed.

Lemma decodeOperation_eq op b rest : op_ok op -> decodeOperation b (opBytes op ++ rest) = Some (add op b, rest).
Proof.
  destruct 1 as [k v s ? ? ?|k f o l c g s ? ? ? ? ? ? ?|k ?]; unfold decodeOperation, opBytes, operationTag; simpl;
    rewrite <- !app_assoc, readU8_eq by lia; simpl; rewrite <- ?app_assoc, readBytes_eq by done; simpl.
  - rewrite readBytes_eq by done. simpl. rewrite decodeSecondaryKeys_eq by done. done.
  - rewrite readU64LE_eq by done. simpl. rewrite readU64LE_eq by done. simpl. rewrite readU32LE_eq by done. simpl.
    rewrite readU32LE_eq by done. simpl. rewrite readU32LE_eq by done. simpl. by rewrite decodeSecondaryKeys_eq by done.
  - done.
Qed.

Lemma decodeOperations_eq ops : forall b rest, Forall op_ok ops ->
  decodeOperations_loop (length ops) b (concat (map opBytes ops) ++ rest) = Some (fold_left (fun b op => add op b) ops b, rest).
Proof.
  induction ops as [|op ops IH]; intros b rest Ho; simpl; [done|]. apply Forall_cons_1 in Ho as [H1 H2].
  rewrite <- app_assoc, decodeOperation_eq by done. simpl. by apply IH.
Qed.

Lemma add_all b : walEstimateBytes_ b = sumEstimates (operations_ b) -> fold_left (fun b op => add op b) (operations_ b) empty = b.
Proof.
  destruct b as [ops est]. simpl. intros ->. unfold sumEstimates. change 12 with (walEstimateBytes_ empty).
  change ops with (operations_ empty ++ ops) at 2. generalize empty. induction ops as [|op ops IH]; intros b; simpl.
  - rewrite app_nil_r. by destruct b.
  - rewrite IH. simpl. by rewrite <- app_assoc.
Qed.

Lemma decodeWalPayload_eq sequence b : is_u64 sequence -> batch_ok b -> decodeWalPayload (batchBytes sequence b) = Some (sequence, b).
Proof.
  intros Hs (Ho & Hl & He). unfold decodeWalPayload, batchBytes. rewrite readU64LE_eq by done. simpl.
  rewrite readU32LE_eq by lia. simpl. rewrite Nat2Z.id. pose proof (decodeOperations_eq (operations_ b) empty [] Ho) as H.
  rewrite app_nil_r in H. rewrite H. simpl. by rewrite add_all.
Qed.

(** *** The estimate *)

(** Sums modulo 2^64. *)
Ltac wrap_eq := unfold add64, wrap64; Z.div_mod_to_equations; lia.

Lemma fold_estimate {A} (step : Z -> A -> Z) (bytes : A -> list byte) (P : A -> Prop) l v :
  (forall v x, P x -> step (wrap64 v) x = wrap64 (v + zlen (bytes x))) -> Forall P l ->
  fold_left step l (wrap64 v) = wrap64 (v + zlen (concat (map bytes l))).
Proof.
  intros Hs Hl. revert v. induction Hl as [|x l Hx _ IH]; intros v; simpl; [f_equal; lia|].
  rewrite Hs, IH, zlen_app by done. f_equal. lia.
Qed.

Lemma length_secondaryBytes s : estimateSecondaryKeysWalBytes_ s = wrap64 (zlen (secondaryBytes s)).
Proof.
  unfold estimateSecondaryKeysWalBytes_, secondaryBytes. rewrite zlen_app, length_le_bytes.
  refine (fold_estimate _ indexBytes (fun _ => True) s 4 _ _); [|by apply Forall_true]. intros v [name keys] _. simpl fst. simpl snd.
  unfold indexBytes. rewrite !zlen_app, length_le_bytes, length_counted. simpl fst. simpl snd.
  replace ((wrap64 v +u (4 +u size name)) +u 4) with (wrap64 (v + (8 + zlen name))).
  - rewrite (fold_estimate _ counted (fun _ => True)); [f_equal; lia| |by apply Forall_true].
    intros u key _. rewrite length_counted. wrap_eq.
  - unfold size. wrap_eq.
Qed.

Lemma estimate_eq op : op_ok op -> estimateOperationWalBytes_ op = wrap64 (zlen (opBytes op)).
Proof.
  destruct 1 as [k v s ? ? ?|k f o l c g s ? ? ? ? ? ? ?|k ?]; unfold estimateOperationWalBytes_, opBytes; simpl op_type; cbv iota;
    rewrite ?length_secondaryBytes, !zlen_app, length_le_bytes, length_counted; simpl op_primaryKey; simpl op_valueInline; cbv iota.
  - rewrite length_counted. simpl. wrap_eq.
  - rewrite !zlen_app, !length_le_bytes. simpl. wrap_eq.
  - simpl. wrap_eq.
Qed.

Lemma sumEstimates_eq sequence b : Forall op_ok (operations_ b) -> sumEstimates (operations_ b) = wrap64 (zlen (batchBytes sequence b)).
Proof.
  intros Ho. unfold sumEstimates, batchBytes. rewrite !zlen_app, !length_le_bytes, Z.add_assoc.
  refine (fold_estimate _ opBytes op_ok _ 12 _ _); [|done]. intros v op Hop. rewrite estimate_eq by done.
  wrap_eq.
Qed.

Lemma no_json b : Forall op_ok (operations_ b) -> hasJson b = false.
Proof. unfold hasJson. induction 1 as [|op ops Ho _ IH]; [done|]. simpl. rewrite IH. by destruct Ho. Qed.

Lemma estimatedWalBytes_eq sequence b : batch_ok b -> estimatedWalBytes b = wrap64 (zlen (batchBytes sequence b)).
Proof. intros (Ho & _ & He). unfold estimatedWalBytes. by rewrite no_json, He, <- sumEstimates_eq. Qed.

End Facts.

(** *** Writing in place *)

Section InPlace.

Context `{E : EVP} `{C : Miniz}.

Definition splice (memory : list byte) (at_ : Z) (bytes : list byte) : list byte :=
  take (Z.to_nat at_) memory ++ bytes ++ drop (Z.to_nat (at_ + zlen bytes)) memory.

Lemma splice_at a b c bytes : length b = length bytes -> splice (a ++ b ++ c) (zlen a) bytes = a ++ bytes ++ c.
Proof.
  intros Hl. unfold splice. rewrite Nat2Z.id, firstn_app_exact. f_equal. f_equal.
  replace (Z.to_nat (zlen a + zlen bytes)) with (length (a ++ b)) by (rewrite length_app; lia). rewrite app_assoc. apply skipn_app_exact.
Qed.

Lemma splice_splice memory at_ b1 b2 : 0 <= at_ -> at_ + zlen (b1 ++ b2) <= zlen memory ->
  splice (splice memory at_ b1) (at_ + zlen b1) b2 = splice memory at_ (b1 ++ b2).
Proof.
  intros H0 Hl. rewrite zlen_app in Hl.
  assert (exists a m1 m2 c, memory = a ++ m1 ++ m2 ++ c /\ zlen a = at_ /\ length m1 = length b1 /\ length m2 = length b2) as
    (a & m1 & m2 & c & -> & <- & E1 & E2).
  { exists (take (Z.to_nat at_) memory), (take (length b1) (drop (Z.to_nat at_) memory)),
      (take (length b2) (drop (length b1) (drop (Z.to_nat at_) memory))), (drop (length b2) (drop (length b1) (drop (Z.to_nat at_) memory))).
    rewrite !take_drop. split; [done|]. rewrite !length_take, !length_drop. lia. }
  rewrite splice_at by done. rewrite (app_assoc m1), splice_at by (rewrite !length_app; lia).
  rewrite <- zlen_app, app_assoc, splice_at by done. by rewrite <- !app_assoc.
Qed.

Lemma length_splice memory at_ bytes : 0 <= at_ -> at_ + zlen bytes <= zlen memory -> zlen (splice memory at_ bytes) = zlen memory.
Proof. intros. unfold splice. rewrite !length_app, length_take, length_drop. lia. Qed.

(** [m] stores these bytes and moves the pointer behind them, or runs over the end. *)
Definition writes (m : M Writer unit) (bytes : list byte) : Prop := forall w, 0 <= cursor w <= zlen (memory w) ->
  if cursor w + zlen bytes <=? zlen (memory w)
  then m w = (Ok tt, mkWriter (splice (memory w) (cursor w) bytes) (cursor w + zlen bytes))
  else exists w', m w = (Err overrun, w').

Lemma writes_store bytes : writes (store bytes) bytes.
Proof.
  intros w Hw. unfold store, splice. destruct (Z.leb_spec 0 (cursor w)); [|lia]. simpl.
  destruct (Z.leb_spec (cursor w + zlen bytes) (zlen (memory w))); [done|by eexists].
Qed.

Lemma writes_nil : writes (mret tt) [].
Proof.
  intros [memory at_] Hw. unfold mret, M_ret, splice. simpl in *. rewrite Z.add_0_r, take_drop.
  by destruct (Z.leb_spec at_ (zlen memory)); [|lia].
Qed.

Lemma writes_bind m k b1 b2 : writes m b1 -> writes k b2 -> writes (m;; k) (b1 ++ b2).
Proof.
  intros Hm Hk w Hw. specialize (Hm w Hw). rewrite zlen_app. pose proof (Nat2Z.is_nonneg (length b2)) as H2.
  pose proof (Nat2Z.is_nonneg (length b1)) as H1.
  destruct (Z.leb_spec (cursor w + zlen b1) (zlen (memory w))) as [Hf|Hf].
  - specialize (Hk (mkWriter (splice (memory w) (cursor w) b1) (cursor w + zlen b1))). simpl in Hk.
    rewrite length_splice in Hk by lia. specialize (Hk ltac:(lia)). rewrite <- Z.add_assoc in Hk.
    m_run. rewrite Hm. destruct (Z.leb_spec (cursor w + (zlen b1 + zlen b2)) (zlen (memory w))).
    + rewrite Hk, splice_splice by (rewrite ?zlen_app; lia). done.
    + destruct Hk as [w' Hk]. rewrite Hk. by eexists.
  - destruct (Z.leb_spec (cursor w + (zlen b1 + zlen b2)) (zlen (memory w))); [lia|].
    destruct Hm as [w' Hm]. m_run. rewrite Hm. by eexists.
Qed.

Lemma writes_u8 v : writes (writeU8To_ v) (le_bytes 1 v).
Proof. rewrite <- (app_nil_l (le_bytes 1 v)), <- appendU8_eq. apply writes_store. Qed.

Lemma writes_u32 v : writes (writeU32LETo_ v) (le_bytes 4 v).
Proof. rewrite <- (app_nil_l (le_bytes 4 v)), <- appendU32LE_eq. apply writes_store. Qed.

Lemma writes_u64 v : writes (writeU64LETo_ v) (le_bytes 8 v).
Proof. rewrite <- (app_nil_l (le_bytes 8 v)), <- appendU64LE_eq. apply writes_store. Qed.

Lemma writes_bytes b : short b -> writes (writeBytesTo_ b) (counted b).
Proof.
  intros Hb. rewrite <- (app_nil_l (counted b)), <- appendBytes_eq by done. unfold appendBytes_. rewrite appendU32LE_eq. apply writes_bind; [apply writes_u32|]. destruct b; [apply writes_nil|apply writes_store].
Qed.

Lemma writes_each {A} (f : A -> M Writer unit) (bytes : A -> list byte) (P : A -> Prop) l :
  (forall x, P x -> writes (f x) (bytes x)) -> Forall P l -> writes (for_each l f) (concat (map bytes l)).
Proof. intros Hf. induction 1 as [|x l Hx _ IH]; [apply writes_nil|]. apply writes_bind; auto. Qed.

Lemma writes_secondary s : keys_ok s -> writes (writeSecondaryKeysTo_ s) (secondaryBytes s).
Proof.
  intros (_ & Hl & Hs). unfold writeSecondaryKeysTo_, wrap32. rewrite Z.mod_small by lia. apply writes_bind; [apply writes_u32|].
  apply (writes_each _ _ index_ok); [|done]. intros it (H1 & H2 & H3). unfold indexBytes. rewrite Z.mod_small by lia.
  apply writes_bind; [by apply writes_bytes|]. apply writes_bind; [apply writes_u32|].
  apply (writes_each _ _ short); [apply writes_bytes|done].
Qed.

Lemma writes_operation op : op_ok op ->
  writes (writeU8To_ (operationTag op);; writeBytesTo_ (op_primaryKey op);;
    match op_type op with
    | Erase => mret tt
    | Put =>
        (if op_valueInline op then writeBytesTo_ (op_value op)
         else
           writeU64LETo_ (op_blobFileId op);; writeU64LETo_ (op_blobOffset op);; writeU32LETo_ (op_blobLength op);;
           writeU32LETo_ (op_blobCrc32 op);; writeU32LETo_ (op_blobFlags op));;
        writeSecondaryKeysTo_ (op_secondaryKeys op)
    end) (opBytes op).
Proof.
  intros Hop. unfold opBytes. apply writes_bind; [apply writes_u8|].
  destruct Hop as [k v s ? ? ?|k f o l c g s ? ? ? ? ? ? ?|k ?]; simpl; (apply writes_bind; [by apply writes_bytes|]).
  - apply writes_bind; [by apply writes_bytes|by apply writes_secondary].
  - apply writes_bind; [|by apply writes_secondary]. repeat (apply writes_bind; [apply writes_u64 || apply writes_u32|]). apply writes_u32.
  - apply writes_nil.
Qed.

Lemma writes_payload sequence b : batch_ok b -> writes (writeWalPayload_ sequence b) (batchBytes sequence b).
Proof.
  intros (Ho & Hl & _). unfold writeWalPayload_, batchBytes, wrap32. rewrite Z.mod_small by lia.
  apply writes_bind; [apply writes_u64|]. apply writes_bind; [apply writes_u32|].
  apply (writes_each _ _ op_ok); [apply writes_operation|done].
Qed.

Lemma writes_at {m b} w : writes m b -> 0 <= cursor w -> cursor w + zlen b <= zlen (memory w) ->
  m w = (Ok tt, mkWriter (splice (memory w) (cursor w) b) (cursor w + zlen b)).
Proof. intros Hm H0 Hl. specialize (Hm w ltac:(lia)). destruct (Z.leb_spec (cursor w + zlen b) (zlen (memory w))); [done|lia]. Qed.

Lemma patch_at out v w : 0 <= out -> out + 4 <= zlen (memory w) ->
  patchU32LE_ out v w = (Ok tt, mkWriter (splice (memory w) out (le_bytes 4 v)) (cursor w)).
Proof.
  intros H0 Hl. unfold patchU32LE_. rewrite (writes_at _ (writes_u32 v)); rewrite ?length_le_bytes; simpl; done || lia.
Qed.

Lemma zeros_split (n k : nat) : (k <= n)%nat -> replicate n x00 = replicate k x00 ++ replicate (n - k) x00.
Proof. intros H. rewrite <- replicate_add. f_equal. lia. Qed.

(** What follows the header: from the pointer on, with the checksum still to come. *)
Definition opened (out : list byte) (n : Z) : Writer :=
  mkWriter (out ++ kWalMagic_ ++ le_bytes 4 n ++ replicate (Z.to_nat (4 + n)) x00) (zlen out + 16).

Lemma header_written {A} (k : M Writer A) out n : 0 <= n ->
  (store kWalMagic_;; patchU32LE_ (zlen out + 8) n;; modify (fun w => mkWriter (memory w) (zlen out + 16));; k)
    (mkWriter (out ++ replicate (Z.to_nat (16 + n)) x00) (zlen out)) = k (opened out n).
Proof.
  intros Hn. set (zs := replicate (Z.to_nat (16 + n)) x00). assert (zlen zs = 16 + n) as Hz by (unfold zs; rewrite length_replicate; lia).
  m_run. rewrite (writes_at _ (writes_store kWalMagic_)); cbn [cursor memory]; [|lia|rewrite zlen_app; change (zlen kWalMagic_) with 8; lia].
  rewrite patch_at; cbn [cursor memory]; [|lia|rewrite length_splice; rewrite ?zlen_app; change (zlen kWalMagic_) with 8; lia].
  unfold opened. f_equal. f_equal. unfold zs. rewrite (zeros_split _ 8) by lia. rewrite splice_at by done. rewrite app_assoc.
  replace (zlen out + 8) with (zlen (out ++ kWalMagic_)) by (rewrite zlen_app; done).
  replace (Z.to_nat (16 + n) - 8)%nat with (Z.to_nat (8 + n)) by lia.
  rewrite (zeros_split (Z.to_nat (8 + n)) 4), splice_at by (rewrite ?length_le_bytes, ?length_replicate; lia).
  replace (Z.to_nat (8 + n) - 4)%nat with (Z.to_nat (4 + n)) by lia. by rewrite <- app_assoc.
Qed.

Lemma payload_written m p out (crc : list byte -> Z) : writes m p ->
  exists at_, (m;; w ← get; patchU32LE_ (zlen out + 12) (crc (zslice (memory w) (zlen out + 16) (zlen p)))) (opened out (zlen p)) =
    (Ok tt, mkWriter (out ++ kWalMagic_ ++ le_bytes 4 (zlen p) ++ le_bytes 4 (crc p) ++ p) at_).
Proof.
  intros Hm. set (n := zlen p). set (front := out ++ kWalMagic_ ++ le_bytes 4 n).
  assert (zlen front = zlen out + 12) as Hf by (unfold front; rewrite !zlen_app, length_le_bytes; change (zlen kWalMagic_) with 8; lia).
  assert (opened out n = mkWriter ((front ++ replicate 4 x00) ++ replicate (length p) x00) (zlen out + 16)) as ->.
  { unfold opened, front. f_equal. rewrite (zeros_split _ 4), <- !app_assoc by lia. do 5 f_equal. lia. }
  assert (zlen (front ++ replicate 4 x00) = zlen out + 16) as Hg by (rewrite zlen_app; simpl; lia).
  m_run. rewrite (writes_at _ Hm); cbn [cursor memory]; [|lia|rewrite zlen_app, length_replicate; lia].
  rewrite <- Hg, <- (app_nil_r (replicate (length p) x00)), splice_at, app_nil_r by (by rewrite length_replicate).
  assert (zslice ((front ++ replicate 4 x00) ++ p) (zlen (front ++ replicate 4 x00)) n = p) as ->.
  { unfold zslice. rewrite Nat2Z.id, skipn_app_exact. apply take_ge. lia. }
  rewrite <- app_assoc, patch_at; cbn [cursor memory]; [|lia|rewrite zlen_app, Hf; simpl; lia].
  rewrite <- Hf, splice_at by (by rewrite length_le_bytes). eexists. unfold front. by rewrite <- !app_assoc.
Qed.

(** C15: The frame [appendWalFrame] builds in place - room made from the running
    estimate of the batch, then written through a raw pointer - is, for a batch of
    less than 4 GiB, exactly the magic, the length, the checksum and the payload of
    [encodeWalPayload], appended to what was there: the estimate is the exact size, so
    nothing is written past the end and no byte is left over.  And the payload decodes
    to the sequence and the batch it was made of.  A batch of 4 GiB or more, whose
    length the 32-bit field cannot hold, is written past the end of the buffer. *)
Theorem frame_holds_its_batch out sequence b : is_u64 sequence -> batch_ok b -> zlen (encodeWalPayload sequence b) < 2 ^ 64 ->
  decodeWalPayload (encodeWalPayload sequence b) = Some (sequence, b) /\
  let payload := encodeWalPayload sequence b in
  appendWalFrame out sequence b =
    if zlen payload <? 2 ^ 32
    then Ok (out ++ kWalMagic_ ++ appendU32LE_ (zlen payload) [] ++ appendU32LE_ (crc32Bytes_ payload) [] ++ payload)
    else Err overrun.
Proof.
  intros Hs Hb. rewrite encodeWalPayload_eq by done. intros Hl. split; [by apply decodeWalPayload_eq|].
  pose proof (writes_payload sequence b Hb) as Hw. unfold appendWalFrame. rewrite (estimatedWalBytes_eq sequence) by done.
  set (p := batchBytes sequence b) in *. cbv zeta. rewrite !appendU32LE_eq, !app_nil_l, wrap64_small by lia.
  set (n := wrap32 (zlen p)). assert (0 <= n < 2 ^ 32) as Hn by (apply Z.mod_pos_bound; lia).
  rewrite header_written by lia. destruct (Z.ltb_spec (zlen p) (2 ^ 32)) as [Hp|Hp].
  - assert (n = zlen p) as -> by (apply Z.mod_small; lia). by destruct (payload_written _ p out crc32Bytes_ Hw) as [at_ ->].
  - specialize (Hw (opened out n)). unfold opened in Hw at 1 2 3 4 5. cbn [cursor memory] in Hw.
    rewrite !zlen_app, length_le_bytes, length_replicate in Hw. change (zlen kWalMagic_) with 8 in Hw. specialize (Hw ltac:(lia)).
    match type of Hw with context [?x <=? ?y] => destruct (Z.leb_spec x y); [lia|] end.
    destruct Hw as [w' Hw]. m_run. by rewrite Hw.
Qed.

End InPlace.

(** *** Replay *)

Section Replayed.

Context `{E : EVP} `{C : Miniz}.

Definition frame_ok (f : Z * SwDbWriteBatch.t) : Prop :=
  is_u64 f.1 /\ batch_ok f.2 /\ zlen (batchBytes f.1 f.2) < 2 ^ 32.

(** The bytes [appendWalFrame] adds for a batch. *)
Definition written (f : Z * SwDbWriteBatch.t) : list byte := frameBytes f.1 f.2.

Lemma batchBytes_length sequence b : 12 <= zlen (batchBytes sequence b).
Proof. unfold batchBytes. rewrite !zlen_app, !length_le_bytes. lia. Qed.

Lemma crc_range data : 0 <= crc32Bytes_ data < 2 ^ 32.
Proof. apply Z.mod_pos_bound. lia. Qed.

Lemma crc_nonempty data : data <> [] -> crc32OfByteArray_ data = crc32Bytes_ data.
Proof. by destruct data. Qed.

Lemma readFrame_whole f rest : frame_ok f -> readFrame (written f ++ rest) = Some (f.1, f.2, rest).
Proof.
  destruct f as [sequence b]. intros (Hs & Hb & Hl). cbn [fst snd] in *. unfold readFrame, written, frameBytes. cbn [fst snd].
  set (p := batchBytes sequence b) in *. pose proof (batchBytes_length sequence b) as Hp. fold p in Hp.
  rewrite <- !app_assoc. rewrite !zlen_app, !length_le_bytes. change (zlen kWalMagic_) with 8.
  match goal with |- context [?x <? 16] => destruct (Z.ltb_spec x 16); [lia|] end.
  unfold startsWith. rewrite hasPrefix_app. simpl negb. cbn [orb].
  change (drop 8 (kWalMagic_ ++ ?l)) with l. rewrite readU32LE_eq by lia. simpl. rewrite readU32LE_eq by apply crc_range. simpl.
  rewrite zlen_app. destruct (Z.ltb_spec (zlen p + zlen rest) (zlen p)); [lia|].
  rewrite Nat2Z.id, firstn_app_exact, skipn_app_exact. rewrite crc_nonempty by (intros Ep; rewrite Ep in Hp; simpl in Hp; lia).
  rewrite Z.eqb_refl. simpl. unfold p. by rewrite decodeWalPayload_eq.
Qed.

Lemma readFrame_shrinks cur sequence b next : readFrame cur = Some (sequence, b, next) -> (length next < length cur)%nat.
Proof.
  unfold readFrame. destruct (Z.ltb_spec (zlen cur) 16) as [|H]; [done|]. simpl. destruct (negb _); [done|].
  destruct (drop 8 cur) as [|b0 [|b1 [|b2 [|b3 l1]]]] eqn:E1; try done. rewrite readU32LE_value. simpl.
  destruct l1 as [|c0 [|c1 [|c2 [|c3 l2]]]]; try done. rewrite readU32LE_value. simpl.
  apply (f_equal length) in E1. rewrite length_drop in E1. simpl in E1.
  destruct (_ <? _); [done|]. destruct (negb _); [done|]. destruct (decodeWalPayload _) as [[? ?]|]; [|done]. simpl.
  intros [= _ _ <-]. rewrite length_drop. lia.
Qed.

Lemma findNext_shrinks cur next : findNextWalMagic_ cur = Some next -> (length next <= length cur)%nat.
Proof. unfold findNextWalMagic_. destruct (find kWalMagic_ cur); [|done]. simpl. intros [= <-]. rewrite length_drop. lia. Qed.

Section Loop.

Context {State : Type} (maxSequence : Z) (deliver : Z -> SwDbWriteBatch.t -> State -> State).

Abbreviation loop := (replay_loop maxSequence deliver).

(** The batches of a journal, in the order of the journal, without those the tables
    already hold. *)
Definition deliverAll (frames : list (Z * SwDbWriteBatch.t)) (s : State) : State :=
  fold_left (fun s f => if f.1 <=? maxSequence then s else deliver f.1 f.2 s) frames s.

Lemma replay_total fuel : forall cur s, (length cur < fuel)%nat -> exists s', loop fuel cur s = (Ok tt, s').
Proof.
  induction fuel as [|fuel IH]; intros cur s Hf; [lia|]. cbn [replay_loop]. destruct cur as [|c cur]; [by eexists|].
  destruct (readFrame (c :: cur)) as [[[sequence b] next]|] eqn:Er.
  - apply readFrame_shrinks in Er. simpl in *. destruct (sequence <=? maxSequence); [apply IH; lia|]. m_run. apply IH. lia.
  - cbn [tail]. destruct (findNextWalMagic_ cur) as [next|] eqn:En; [|by eexists]. apply findNext_shrinks in En. simpl in Hf.
    cbn [SwString.isEmpty]. apply IH. lia.
Qed.

(** More turns than needed change nothing. *)
Lemma replay_fuel fuel : forall fuel' cur s, (length cur < fuel)%nat -> (length cur < fuel')%nat -> loop fuel cur s = loop fuel' cur s.
Proof.
  induction fuel as [|fuel IH]; intros [|fuel'] cur s Hf Hf'; try lia. cbn [replay_loop]. destruct cur as [|c cur]; [done|].
  destruct (readFrame (c :: cur)) as [[[sequence b] next]|] eqn:Er.
  - apply readFrame_shrinks in Er. simpl in *. destruct (sequence <=? maxSequence); [apply IH; lia|]. m_run. apply IH; lia.
  - cbn [tail]. destruct (findNextWalMagic_ cur) as [next|] eqn:En; [|done]. apply findNext_shrinks in En. simpl in Hf, Hf'. apply IH; lia.
Qed.

Definition replay (cur : list byte) (s : State) : result unit * State := replayWalFileLocked maxSequence deliver cur s.

Lemma replay_turn fuel cur s : loop (S fuel) cur s =
  if SwString.isEmpty cur then (Ok tt, s)
  else
    match readFrame cur with
    | None => match findNextWalMagic_ (tail cur) with None => (Ok tt, s) | Some next => loop fuel next s end
    | Some (sequence, b, next) => loop fuel next (if sequence <=? maxSequence then s else deliver sequence b s)
    end.
Proof.
  cbn [replay_loop]. destruct (SwString.isEmpty cur); [done|]. destruct (readFrame cur) as [[[sequence b] next]|].
  - by destruct (sequence <=? maxSequence).
  - by destruct (findNextWalMagic_ (tail cur)).
Qed.

Lemma replay_frame f rest s : frame_ok f ->
  replay (written f ++ rest) s = replay rest (if f.1 <=? maxSequence then s else deliver f.1 f.2 s).
Proof.
  intros Hf. unfold replay, replayWalFileLocked. rewrite replay_turn, readFrame_whole by done.
  pose proof (readFrame_shrinks _ _ _ _ (readFrame_whole f rest Hf)) as Hl.
  destruct (written f ++ rest) as [|c l] eqn:E1; [simpl in Hl; lia|]. cbn [SwString.isEmpty]. apply replay_fuel; lia.
Qed.

Lemma replay_frames frames rest s : Forall frame_ok frames ->
  replay (concat (map written frames) ++ rest) s = replay rest (deliverAll frames s).
Proof.
  intros Hf. revert s. induction Hf as [|f frames Hf _ IH]; intros s; [done|]. cbn [map concat].
  rewrite <- app_assoc, replay_frame by done. apply IH.
Qed.

(** Where no frame is read, the next one looked at is the first to begin with the
    magic further on; without one, the replay ends. *)
Lemma replay_skips junk s : readFrame junk = None ->
  replay junk s = match findNextWalMagic_ (tail junk) with Some next => replay next s | None => (Ok tt, s) end.
Proof.
  intros Hr. unfold replay, replayWalFileLocked. rewrite replay_turn. destruct junk as [|c junk]; [done|]. rewrite Hr. cbn [SwString.isEmpty tail].
  destruct (findNextWalMagic_ junk) as [next|] eqn:En; [|done]. apply findNext_shrinks in En. apply replay_fuel; simpl; lia.
Qed.

Lemma torn_is_no_frame f torn : frame_ok f -> torn `prefix_of` written f -> torn <> written f -> readFrame torn = None.
Proof.
  destruct f as [sequence b]. intros (Hs & Hb & Hl) [rest Hrest] Hne. cbn [fst snd] in *. unfold written in *. cbn [fst snd] in *.
  unfold readFrame. destruct (Z.ltb_spec (zlen torn) 16) as [|H16]; [done|]. simpl. destruct (negb _); [done|].
  assert (drop 8 torn ++ rest = le_bytes 4 (zlen (batchBytes sequence b)) ++ le_bytes 4 (crc32Bytes_ (batchBytes sequence b)) ++ batchBytes sequence b) as Hd.
  { assert (drop 8 (torn ++ rest) = drop 8 (frameBytes sequence b)) as Hd by (by rewrite Hrest).
    rewrite drop_app_le in Hd by lia. rewrite Hd. done. }
  assert (exists p', drop 8 torn = le_bytes 4 (zlen (batchBytes sequence b)) ++ le_bytes 4 (crc32Bytes_ (batchBytes sequence b)) ++ p' /\
    p' ++ rest = batchBytes sequence b) as (p' & Ed & Ep).
  { exists (drop 16 torn). assert (length (drop 8 torn) = (length torn - 8)%nat) as Hlen by apply length_drop.
    rewrite app_assoc in *. set (h := le_bytes 4 _ ++ le_bytes 4 _) in *.
    assert (8%nat = length h) as H8 by (unfold h; by rewrite length_app, !length_le_bytes).
    pose proof (f_equal (take 8) Hd) as Ht. pose proof (f_equal (drop 8) Hd) as Hq.
    rewrite take_app_le, take_app_length' in Ht by (done || lia). rewrite drop_app_le, drop_app_length', drop_drop in Hq by (done || lia).
    split; [|done]. rewrite <- Ht. change (drop 16 torn) with (drop (8 + 8) torn). rewrite <- drop_drop. symmetry. apply take_drop. }
  rewrite Ed, readU32LE_eq by lia. simpl. rewrite readU32LE_eq by apply crc_range. simpl.
  destruct (Z.ltb_spec (zlen p') (zlen (batchBytes sequence b))) as [|Hge]; [done|]. exfalso. apply Hne.
  rewrite <- Ep, zlen_app in Hge. assert (rest = []) as -> by (destruct rest; [done|simpl in Hge; lia]). by rewrite app_nil_r in Hrest.
Qed.

End Loop.

(** C13: A journal that a crash cut off anywhere is replayed up to the cut: the frames
    that are whole are delivered, each once, in order, except those the tables already
    hold ([sequence <= maxSequence]); the torn frame at the end changes nothing.  This
    is provided no magic stands in the torn part after its beginning: the replay looks
    for one there, and takes a frame written inside a value for a frame of its own. *)
Theorem torn_journal_replays_whole_frames {State} maxSequence (deliver : Z -> SwDbWriteBatch.t -> State -> State) frames f torn s :
  Forall frame_ok frames -> frame_ok f ->
  torn `prefix_of` written f -> torn <> written f -> find kWalMagic_ (tail torn) = None ->
  replayWalFileLocked maxSequence deliver (concat (map written frames) ++ torn) s = (Ok tt, deliverAll maxSequence deliver frames s).
Proof.
  intros Hfs Hf Hp Hn Hm. fold (replay maxSequence deliver (concat (map written frames) ++ torn) s).
  rewrite replay_frames, replay_skips by (done || by eapply torn_is_no_frame). unfold findNextWalMagic_. by rewrite Hm.
Qed.

(** C14: Damage to a journal costs the damaged frames only: when what stands between
    whole frames is not itself a frame, and the first magic in it or across its end is
    the one the next frame begins with, every frame before it and after it is
    delivered; and whatever the bytes are, the replay ends. *)
Theorem damaged_journal_replays_the_rest {State} maxSequence (deliver : Z -> SwDbWriteBatch.t -> State -> State) before damage f after s :
  Forall frame_ok before -> Forall frame_ok (f :: after) ->
  readFrame (damage ++ concat (map written (f :: after))) = None ->
  find kWalMagic_ (tail (damage ++ concat (map written (f :: after)))) = Some (zlen damage - 1) ->
  replayWalFileLocked maxSequence deliver (concat (map written before) ++ damage ++ concat (map written (f :: after))) s =
    (Ok tt, deliverAll maxSequence deliver (before ++ f :: after) s) /\
  forall bytes s, exists s', replayWalFileLocked maxSequence deliver bytes s = (Ok tt, s').
Proof.
  intros Hb Ha Hr Hm. split; [|intros; apply replay_total; lia].
  fold (replay maxSequence deliver (concat (map written before) ++ damage ++ concat (map written (f :: after))) s).
  rewrite replay_frames, replay_skips by done. unfold findNextWalMagic_. rewrite Hm. cbn [mbind option_bind].
  destruct damage as [|c damage]; [apply find_Some in Hm as [? _]; simpl in *; lia|]. cbn [app tail].
  replace (Z.to_nat (zlen (c :: damage) - 1)) with (length damage) by (simpl; lia). rewrite skipn_app_exact.
  pose proof (replay_frames maxSequence deliver (f :: after) [] (deliverAll maxSequence deliver before s) Ha) as H. rewrite app_nil_r in H.
  rewrite H. unfold deliverAll. by rewrite fold_left_app.
Qed.

End Replayed.

(** *** Examples *)

Section Examples.

(** Any checksum does, and no JSON is encrypted. *)
#[local] Instance exampleEVP : EVP :=
  {| EVP_sha256 := fun _ => None; EVP_aes_ecb_encrypt := fun _ _ => None; EVP_aes_ecb_decrypt := fun _ _ => None |}.

#[local] Instance exampleMiniz : Miniz := {| mz_crc32 := fun data => fold_left (fun crc b => wrap32 (crc * 31 + b2z b)) data 7 |}.

Definition exampleKeys : SecondaryKeys := [(str "by-name", [str "ann"; []])].

Definition exampleBatch : SwDbWriteBatch.t :=
  erase (str "k2") (putBlobRef (str "k1") 3 4096 70000 99 0 [] (put (str "k0") [x00; xff] exampleKeys empty)).

Lemma exampleBatch_ok : batch_ok exampleBatch.
Proof.
  repeat apply add_ok; try apply empty_ok; try done.
  - by constructor.
  - constructor; try done. by repeat split; try constructor.
  - constructor; [done|done|]. split; [repeat constructor|]. split; [done|]. repeat constructor; done.
Qed.

Lemma frame_holds_its_batch_witness :
  decodeWalPayload (encodeWalPayload 41 exampleBatch) = Some (41, exampleBatch) /\
  let payload := encodeWalPayload 41 exampleBatch in
  appendWalFrame (str "before") 41 exampleBatch =
    if zlen payload <? 2 ^ 32
    then Ok (str "before" ++ kWalMagic_ ++ appendU32LE_ (zlen payload) [] ++ appendU32LE_ (crc32Bytes_ payload) [] ++ payload)
    else Err overrun.
Proof. apply (frame_holds_its_batch (str "before") 41 exampleBatch); [done|exact exampleBatch_ok|done]. Defined.

Definition collect (sequence : Z) (b : SwDbWriteBatch.t) (seen : list (Z * SwDbWriteBatch.t)) := seen ++ [(sequence, b)].

Lemma example_frame_ok sequence : is_u64 sequence -> frame_ok (sequence, exampleBatch).
Proof.
  intros Hs. split; [done|]. split; [exact exampleBatch_ok|]. unfold batchBytes. rewrite zlen_app, length_le_bytes. done.
Qed.

Lemma torn_journal_replays_whole_frames_witness :
  let torn := take 20 (written (8, exampleBatch)) in
  Forall frame_ok [(5, exampleBatch); (7, exampleBatch)] /\ frame_ok (8, exampleBatch) /\
  torn `prefix_of` written (8, exampleBatch) /\ torn <> written (8, exampleBatch) /\ find kWalMagic_ (tail torn) = None /\
  replayWalFileLocked 5 collect (concat (map written [(5, exampleBatch); (7, exampleBatch)]) ++ torn) [] =
    (Ok tt, deliverAll 5 collect [(5, exampleBatch); (7, exampleBatch)] []) /\
  deliverAll 5 collect [(5, exampleBatch); (7, exampleBatch)] [] = [(7, exampleBatch)].
Proof.
  intros torn.
  assert (Forall frame_ok [(5, exampleBatch); (7, exampleBatch)]) as H1 by (repeat constructor; apply example_frame_ok; done).
  assert (frame_ok (8, exampleBatch)) as H2 by (by apply example_frame_ok).
  assert (torn `prefix_of` written (8, exampleBatch)) as H3 by (exists (drop 20 (written (8, exampleBatch))); symmetry; apply take_drop).
  assert (torn <> written (8, exampleBatch)) as H4 by (intros E1; apply (f_equal length) in E1; vm_compute in E1; discriminate).
  assert (find kWalMagic_ (tail torn) = None) as H5 by (vm_compute; reflexivity).
  split; [exact H1|]. split; [exact H2|]. split; [exact H3|]. split; [exact H4|]. split; [exact H5|]. split; [|reflexivity].
  exact (torn_journal_replays_whole_frames 5 collect [(5, exampleBatch); (7, exampleBatch)] (8, exampleBatch) torn [] H1 H2 H3 H4 H5).
Defined.

(** The first of two frames with a byte of its payload changed. *)
Definition damagedFrame : list byte := <[30%nat := x2a]> (written (6, exampleBatch)).

Lemma damaged_journal_replays_the_rest_witness :
  let log := concat (map written [(5, exampleBatch)]) ++ damagedFrame ++ concat (map written [(7, exampleBatch)]) in
  (replayWalFileLocked 0 collect log [] = (Ok tt, deliverAll 0 collect ([(5, exampleBatch)] ++ [(7, exampleBatch)]) []) /\
   forall bytes s, exists s', replayWalFileLocked 0 collect bytes s = (Ok tt, s')) /\
  deliverAll 0 collect ([(5, exampleBatch)] ++ [(7, exampleBatch)]) [] = [(5, exampleBatch); (7, exampleBatch)].
Proof.
  intros log. split; [|reflexivity].
  apply (damaged_journal_replays_the_rest 0 collect [(5, exampleBatch)] damagedFrame (7, exampleBatch) [] []).
  - repeat constructor; by apply example_frame_ok.
  - repeat constructor; by apply example_frame_ok.
  - vm_compute. reflexivity.
  - vm_compute. reflexivity.
Defined.

(** A value that holds the bytes of a frame, in a batch whose own frame lacks its last
    byte: the replay finds the magic inside the value, and delivers as a batch what
    was only data - here, the removal of a key nobody removed. *)
Definition copiedFrame : list byte := written (9, erase (str "ledger") empty).

Example data_replayed_as_a_batch :
  let f := written (2, put (str "backup") copiedFrame [] empty) in
  replayWalFileLocked 0 collect (take (length f - 1) f) [] = (Ok tt, [(9, erase (str "ledger") empty)]).
Proof. vm_compute. reflexivity. Qed.

End Examples.

End WalManager_.
