(* ===== verification/DbContents.v ===== *)
(** What the embedded database promises to its readers: a table of records by primary
    key, its indexes, and scans of both (the types of
    src/src/core/storage/SwEmbeddedDb.h the backends share).

    [primaryScan] and [indexScan] are the reference definitions the scans of the
    memory backend (DbMemory.v) and of the persistent one (DbReadModel.v) are compared
    with. *)
From Stdlib Require Import ZArith Lia Strings.Byte Sorting.
From stdpp Require Import base list strings numbers option.
From S2P Require Import Prelude SwString ByteMap Crypto DbCodec DbWal.

Import SwString.
Import DbCodec.

Module SwDbStatus.

Inductive Code := Ok_ | NotFound | Busy | ReadOnly | InvalidArgument | NotOpen | IoError | Corruption.

(** The message is text for people. *)
Record t := mk { code : Code; message : string }.

Definition success : t := mk Ok_ "".

Definition ok (s : t) : bool := match code s with Ok_ => true | _ => false end.

End SwDbStatus.

Record SwDbEntry := mkEntry {
  de_primaryKey : list byte;
  de_secondaryKey : list byte;
  de_value : list byte;
  de_secondaryKeys : SecondaryKeys;
  de_sequence : Z
}.

Module DbContents.

(** ** A pass over the rows *)

(** What a caller collects that asks an iterator for its next row until there is
    none.  The fuel bounds the rows. *)
Fixpoint drain {S A} (next : S -> option (A * S)) (fuel : nat) (s : S) : result (list A) :=
  match next s with
  | None => Ok []
  | Some (row, s) =>
      match fuel with
      | O => NoFuel
      | S fuel => rows ← drain next fuel s; Ok (row :: rows)
      end
  end.

(** ** The table *)

(** What is kept of a key: the value, the keys it is indexed by, and the sequence
    number of the batch that wrote it. *)
Record Content := mkContent { c_value : list byte; c_secondaryKeys : SecondaryKeys; c_sequence : Z }.

Abbreviation Table := (ByteMap.t Content).

(** The bounds of a scan: from [start] on, and before [end_] unless it is empty. *)
Definition inRange (start end_ key : list byte) : bool :=
  negb (before key start) && (isEmpty end_ || before key end_).

Definition entryOf (primaryKey secondaryKey : list byte) (c : Content) : SwDbEntry :=
  mkEntry primaryKey secondaryKey (c_value c) (c_secondaryKeys c) (c_sequence c).

Definition primaryScan (table : Table) (start end_ : list byte) : list SwDbEntry :=
  map (fun e => entryOf e.1 [] e.2) (List.filter (fun e => inRange start end_ e.1) table).

(** The keys a record has in an index. *)
Definition keysIn (indexName : list byte) (secondaryKeys : SecondaryKeys) : list (list byte) :=
  default [] (ByteMap.find indexName secondaryKeys).

(** An index: the pairs of a secondary key and a primary key, in the order of the
    first and then of the second, with what the primary key has. *)
Definition indexOf (indexName : list byte) (table : Table) : ByteMap.t SwDbEntry :=
  fold_left (fun index e =>
      fold_left (fun index key => ByteMap.insert (encodeIndexCompositeKey_ key e.1) (entryOf e.1 key e.2) index)
        (keysIn indexName (c_secondaryKeys e.2)) index)
    table [].

Definition indexScan (table : Table) (indexName start end_ : list byte) : list SwDbEntry :=
  List.filter (fun entry => inRange start end_ (de_secondaryKey entry)) (map snd (indexOf indexName table)).

(** ** Writing to the table *)

Section Plain.

Context `{E : EVP}.

(** The bytes an operation puts. *)
Definition opValue (op : SwDbWriteBatch.Operation) : list byte :=
  match SwDbWriteBatch.op_jsonPayload op with
  | Some object => SwDbWriteBatch.payloadBytes object
  | None => SwDbWriteBatch.op_value op
  end.

Definition plainApply (sequence : Z) (table : Table) (op : SwDbWriteBatch.Operation) : Table :=
  match SwDbWriteBatch.op_type op with
  | SwDbWriteBatch.Erase => ByteMap.remove (SwDbWriteBatch.op_primaryKey op) table
  | SwDbWriteBatch.Put =>
      ByteMap.insert (SwDbWriteBatch.op_primaryKey op)
        (mkContent (opValue op) (SwDbWriteBatch.op_secondaryKeys op) sequence) table
  end.

Definition plainBatch (sequence : Z) (batch : SwDbWriteBatch.t) (table : Table) : Table :=
  fold_left (plainApply sequence) (SwDbWriteBatch.operations_ batch) table.

Lemma wf_plainApply sequence table op : ByteMap.wf table -> ByteMap.wf (plainApply sequence table op).
Proof. intros W. unfold plainApply. destruct (SwDbWriteBatch.op_type op); [by apply ByteMap.wf_insert|by apply ByteMap.wf_remove]. Qed.

Lemma wf_plainBatch sequence batch table : ByteMap.wf table -> ByteMap.wf (plainBatch sequence batch table).
Proof.
  unfold plainBatch. revert table. induction (SwDbWriteBatch.operations_ batch) as [|op l IH]; intros table W; [done|].
  by apply IH, wf_plainApply.
Qed.

End Plain.

(** ** Facts *)

Section Facts.

Lemma drain_list {S A} (next : S -> option (A * S)) (rows : S -> list A) (P : S -> Prop) :
  (forall s, P s -> match next s with Some (row, s') => rows s = row :: rows s' /\ P s' | None => rows s = [] end) ->
  forall fuel s, P s -> (length (rows s) <= fuel)%nat -> drain next fuel s = Ok (rows s).
Proof.
  intros H. induction fuel as [|fuel IH]; intros s Hs Hf; specialize (H s Hs); simpl; destruct (next s) as [[row s']|].
  - destruct H as [H _]. rewrite H in Hf. simpl in Hf. lia.
  - by rewrite H.
  - destruct H as [H Hs']. rewrite H in Hf |- *. simpl in Hf. rewrite IH by (done || lia). done.
  - by rewrite H.
Qed.

(** The elements up to the first that does not satisfy [p]. *)
Fixpoint upTo {A} (p : A -> bool) (l : list A) : list A :=
  match l with [] => [] | x :: l => if p x then x :: upTo p l else [] end.

Lemma upTo_filter {A} (R : A -> A -> Prop) (p : A -> bool) l :
  (forall x y, R x y -> p y = true -> p x = true) -> StronglySorted R l -> upTo p l = List.filter p l.
Proof.
  intros HR. induction 1 as [|x l Hl IH Hx]; simpl; [done|]. destruct (p x) eqn:E; [by rewrite IH|].
  clear IH Hl. induction Hx as [|y l Hy _ IH]; simpl; [done|]. destruct (p y) eqn:Ey; [|exact IH].
  by rewrite (HR _ _ Hy Ey) in E.
Qed.

Lemma filter_both {A} (p q : A -> bool) l : List.filter p (List.filter q l) = List.filter (fun x => q x && p x) l.
Proof. induction l as [|x l IH]; simpl; [done|]. destruct (q x); simpl; [destruct (p x); by rewrite IH|done]. Qed.

(** The end of a range only cuts off greater keys. *)
Lemma range_end end_ a b : before a b = true -> isEmpty end_ || before b end_ = true -> isEmpty end_ || before a end_ = true.
Proof. intros H. destruct (isEmpty end_); [done|]. simpl. intros H'. by eapply before_trans. Qed.

(** *** Indexes *)

(** The pairs of one record. *)
Definition pairs (e : list byte * Content) (l : list (list byte)) (index : ByteMap.t SwDbEntry) : ByteMap.t SwDbEntry :=
  fold_left (fun index key => ByteMap.insert (encodeIndexCompositeKey_ key e.1) (entryOf e.1 key e.2) index) l index.

Lemma find_pairs e l : forall index s p, ByteMap.find (encodeIndexCompositeKey_ s p) (pairs e l index) =
  if decide (p = e.1 /\ s ∈ l) then Some (entryOf e.1 s e.2) else ByteMap.find (encodeIndexCompositeKey_ s p) index.
Proof.
  induction l as [|key l IH]; intros index s p; simpl; [by rewrite decide_False by (by intros [_ ?%elem_of_nil])|].
  unfold pairs in *. rewrite IH. destruct (decide (p = e.1 /\ s ∈ l)) as [[-> H]|N].
  - rewrite decide_True; [done|]. split; [done|by right].
  - rewrite ByteMap.find_after_insert. destruct (decide (encodeIndexCompositeKey_ key e.1 = encodeIndexCompositeKey_ s p)) as [E|N'].
    + apply composite_key_inj in E as [-> <-]. by rewrite decide_True by (split; [done|left]).
    + rewrite decide_False; [done|]. intros [-> [->|H]%elem_of_cons]; auto.
Qed.

Lemma pairs_elem e l : forall index f, f ∈ pairs e l index ->
  f ∈ index \/ exists s, f.1 = encodeIndexCompositeKey_ s e.1 /\ f.2 = entryOf e.1 s e.2.
Proof.
  induction l as [|key l IH]; intros index f Hf; [by left|]. apply IH in Hf as [Hf|Hf]; [|by right].
  apply ByteMap.insert_elem in Hf as [->|Hf]; [right; by exists key|by left].
Qed.

Lemma wf_pairs e l : forall index, ByteMap.wf index -> ByteMap.wf (pairs e l index).
Proof. induction l as [|key l IH]; intros index W; [done|]. by apply IH, ByteMap.wf_insert. Qed.

Lemma indexOf_fold name table : indexOf name table =
  fold_left (fun index e => pairs e (keysIn name (c_secondaryKeys e.2)) index) table [].
Proof. done. Qed.

Lemma wf_fold name (table : Table) : forall index, ByteMap.wf index ->
  ByteMap.wf (fold_left (fun index e => pairs e (keysIn name (c_secondaryKeys e.2)) index) table index).
Proof. induction table as [|e table IH]; intros index W; [done|]. by apply IH, wf_pairs. Qed.

Lemma wf_indexOf name table : ByteMap.wf (indexOf name table).
Proof. rewrite indexOf_fold. apply wf_fold, ByteMap.wf_nil. Qed.

Lemma find_fold name (table : Table) : ByteMap.wf table -> forall index s p,
  ByteMap.find (encodeIndexCompositeKey_ s p) (fold_left (fun index e => pairs e (keysIn name (c_secondaryKeys e.2)) index) table index) =
  match ByteMap.find p table with
  | Some c => if decide (s ∈ keysIn name (c_secondaryKeys c)) then Some (entryOf p s c)
              else ByteMap.find (encodeIndexCompositeKey_ s p) index
  | None => ByteMap.find (encodeIndexCompositeKey_ s p) index
  end.
Proof.
  induction table as [|[k c] table IH]; intros W index s p; [done|]. cbn [fold_left].
  rewrite IH by (by eapply ByteMap.wf_tail). rewrite find_pairs. cbn [fst snd ByteMap.find].
  destruct (decide (k = p)) as [->|N].
  - assert (ByteMap.find p table = None) as ->.
    { destruct (ByteMap.find p table) eqn:E; [|done]. apply ByteMap.find_elem in E. pose proof (ByteMap.wf_head _ _ _ W E) as B.
      simpl in B. by rewrite before_irrefl in B. }
    destruct (decide (s ∈ keysIn name (c_secondaryKeys c))); [by rewrite decide_True|by rewrite decide_False by naive_solver].
  - rewrite decide_False by naive_solver. done.
Qed.

(** An index has a pair exactly when the record of the primary key lists the
    secondary key. *)
Lemma find_indexOf name (table : Table) s p : ByteMap.wf table ->
  ByteMap.find (encodeIndexCompositeKey_ s p) (indexOf name table) =
  match ByteMap.find p table with
  | Some c => if decide (s ∈ keysIn name (c_secondaryKeys c)) then Some (entryOf p s c) else None
  | None => None
  end.
Proof. intros W. rewrite indexOf_fold, find_fold by done. done. Qed.

Lemma elem_fold name (table : Table) : forall index f,
  f ∈ fold_left (fun index e => pairs e (keysIn name (c_secondaryKeys e.2)) index) table index ->
  f ∈ index \/ exists s p c, f.1 = encodeIndexCompositeKey_ s p /\ f.2 = entryOf p s c.
Proof.
  induction table as [|e table IH]; intros index f Hf; [by left|]. apply IH in Hf as [Hf|Hf]; [|by right].
  apply pairs_elem in Hf as [Hf|(s & H1 & H2)]; [by left|right; eauto].
Qed.

Lemma elem_indexOf name table f : f ∈ indexOf name table -> exists s p c, f.1 = encodeIndexCompositeKey_ s p /\ f.2 = entryOf p s c.
Proof. rewrite indexOf_fold. intros H. apply elem_fold in H as [?%elem_of_nil|H]; done. Qed.

(** What is in an index is a pair of the table. *)
Lemma indexOf_sound name table f : ByteMap.wf table -> f ∈ indexOf name table -> exists s p c,
  f.1 = encodeIndexCompositeKey_ s p /\ f.2 = entryOf p s c /\ ByteMap.find p table = Some c /\ s ∈ keysIn name (c_secondaryKeys c).
Proof.
  intros W Hf. pose proof Hf as (s & p & _ & E1 & _)%elem_indexOf. destruct f as [k e]. simpl in *. subst k.
  apply (ByteMap.elem_find _ _ _ (wf_indexOf name table)) in Hf. rewrite find_indexOf in Hf by done.
  destruct (ByteMap.find p table) as [c|] eqn:F; [|done]. case_decide as Hs; [|done]. injection Hf as <-. by exists s, p, c.
Qed.

End Facts.

End DbContents.
