(* ===== verification/DbMemory.v ===== *)
(** The in-memory backend of the embedded database
    (src/src/core/storage/embeddeddb/SwEmbeddedDbMemory.h, with the calls of
    SwEmbeddedDbLifecycle.h that lead to it).

    Records and indexes are in one [MemoryState_], which snapshots share with the
    database: the states are in a store, and the database and its snapshots hold
    addresses.  A write copies the state first when a snapshot holds it too.  The lock
    of the database makes each operation one step. *)
From Stdlib Require Import ZArith Lia Strings.Byte Sorting.
From stdpp Require Import base list strings numbers option gmap.
From S2P Require Import Prelude SwString ByteMap Crypto JsonValue DbCodec DbWal DbContents.

Import SwString.
Import DbCodec.
Import DbContents.

Record MemoryIndexEntry_ := mkMemoryIndexEntry { mi_secondaryKey : list byte; mi_primaryKey : list byte }.

Record MemoryState_ := mkMemoryState {
  primary : ByteMap.t PrimaryRecord_;
  indexes : ByteMap.t (ByteMap.t MemoryIndexEntry_);
  indexEntryCount : Z
}.

Module MemoryManager_.

Section Manager.

Context `{E : EVP}.

(** ** A state *)

Definition emptyState : MemoryState_ := mkMemoryState [] [] 0.

Definition set_primary (v : ByteMap.t PrimaryRecord_) (s : MemoryState_) := mkMemoryState v (indexes s) (indexEntryCount s).

Definition set_indexes (v : ByteMap.t (ByteMap.t MemoryIndexEntry_)) (count : Z) (s : MemoryState_) :=
  mkMemoryState (primary s) v count.

Definition recordBytes_ (record : PrimaryRecord_) : list byte :=
  match pr_jsonPayload record with Some object => SwDbWriteBatch.payloadBytes object | None => pr_value record end.

(** [bucket.erase(key)], and how many it erased. *)
Definition eraseKey {A} (key : list byte) (bucket : ByteMap.t A) : ByteMap.t A * Z :=
  (ByteMap.remove key bucket, if ByteMap.find key bucket is Some _ then 1 else 0).

Definition eraseIndex (primaryKey : list byte) (state : MemoryState_) (it : list byte * list (list byte)) : MemoryState_ :=
  match ByteMap.find it.1 (indexes state) with
  | None => state
  | Some bucket =>
      let '(bucket, count) :=
        fold_left (fun '(bucket, count) secondaryKey =>
            let '(bucket, erased) := eraseKey (encodeIndexCompositeKey_ secondaryKey primaryKey) bucket in
            (bucket, count -u erased))
          it.2 (bucket, indexEntryCount state) in
      set_indexes (if ByteMap.isEmpty bucket then ByteMap.remove it.1 (indexes state)
                   else ByteMap.insert it.1 bucket (indexes state)) count state
  end.

Definition eraseIndexes_ (state : MemoryState_) (primaryKey : list byte) (keys : SecondaryKeys) : MemoryState_ :=
  fold_left (eraseIndex primaryKey) keys state.

(** [bucket.emplace(key, entry)], which keeps an entry that is there. *)
Definition emplaceEntry (primaryKey : list byte) (b : ByteMap.t MemoryIndexEntry_ * Z) (secondaryKey : list byte) :
    ByteMap.t MemoryIndexEntry_ * Z :=
  let compositeKey := encodeIndexCompositeKey_ secondaryKey primaryKey in
  match ByteMap.find compositeKey b.1 with
  | Some _ => b
  | None => (ByteMap.insert compositeKey (mkMemoryIndexEntry secondaryKey primaryKey) b.1, b.2 +u 1)
  end.

Definition insertIndex (primaryKey : list byte) (state : MemoryState_) (it : list byte * list (list byte)) : MemoryState_ :=
  match it.2 with
  | [] => state
  | _ =>
      let bucket := default [] (ByteMap.find it.1 (indexes state)) in
      let '(bucket, count) := fold_left (emplaceEntry primaryKey) it.2 (bucket, indexEntryCount state) in
      set_indexes (ByteMap.insert it.1 bucket (indexes state)) count state
  end.

Definition insertIndexes_ (state : MemoryState_) (primaryKey : list byte) (keys : SecondaryKeys) : MemoryState_ :=
  fold_left (insertIndex primaryKey) keys state.

(** The record a key has, and its indexes, are taken out. *)
Definition eraseOld (primaryKey : list byte) (state : MemoryState_) : MemoryState_ :=
  match ByteMap.find primaryKey (primary state) with
  | Some old =>
      let state := eraseIndexes_ state primaryKey (pr_secondaryKeys old) in
      set_primary (ByteMap.remove primaryKey (primary state)) state
  | None => state
  end.

Definition applyOperation (sequence : Z) (state : MemoryState_) (op : SwDbWriteBatch.Operation) : MemoryState_ :=
  let state := eraseOld (SwDbWriteBatch.op_primaryKey op) state in
  match SwDbWriteBatch.op_type op with
  | SwDbWriteBatch.Erase => state
  | SwDbWriteBatch.Put =>
      let record := mkPrimaryRecord false sequence true (if SwDbWriteBatch.op_jsonPayload op is Some _ then [] else SwDbWriteBatch.op_value op) (SwDbWriteBatch.op_jsonPayload op)
                      noBlobRef (SwDbWriteBatch.op_secondaryKeys op) in
      insertIndexes_ (set_primary (ByteMap.insert (SwDbWriteBatch.op_primaryKey op) record (primary state)) state)
        (SwDbWriteBatch.op_primaryKey op) (SwDbWriteBatch.op_secondaryKeys op)
  end.

(** ** The database *)

(** [states] holds the states there are, [snapshots] the addresses the snapshots and
    iterators hold. *)
Record Db := mkDb {
  opened_ : bool;
  closing_ : bool;
  states : gmap nat MemoryState_;
  memoryState_ : option nat;
  snapshots : list nat;
  nextSequence_ : Z;
  lastVisibleSequence_ : Z
}.

Definition notOpen : SwDbStatus.t := SwDbStatus.mk SwDbStatus.NotOpen "database is not open".

Definition stateOf (db : Db) : option MemoryState_ := a ← memoryState_ db; states db !! a.

Definition get (db : Db) (key : list byte) : SwDbStatus.t * option (list byte * SecondaryKeys) :=
  match (if opened_ db then stateOf db else None) with
  | None => (notOpen, None)
  | Some state =>
      match ByteMap.find key (primary state) with
      | None => (SwDbStatus.mk SwDbStatus.NotFound "primary key not found", None)
      | Some record => (SwDbStatus.success, Some (recordBytes_ record, pr_secondaryKeys record))
      end
  end.

Definition isBlobPut (op : SwDbWriteBatch.Operation) : bool := match SwDbWriteBatch.op_type op with SwDbWriteBatch.Put => negb (SwDbWriteBatch.op_valueInline op) | SwDbWriteBatch.Erase => false end.

(** [memoryState_.unique()] *)
Definition unique (a : nat) (db : Db) : bool := negb (bool_decide (a ∈ snapshots db)).

Definition write (batch : SwDbWriteBatch.t) (db : Db) : SwDbStatus.t * Db :=
  match (if negb (opened_ db) || closing_ db then None else memoryState_ db) with
  | None => (notOpen, db)
  | Some a =>
      if existsb isBlobPut (SwDbWriteBatch.operations_ batch) then
        (SwDbStatus.mk SwDbStatus.InvalidArgument "disk blob references are unavailable in memory mode", db)
      else if SwDbWriteBatch.isEmpty batch then (SwDbStatus.success, db)
      else
        let state := default emptyState (states db !! a) in
        let a := if unique a db then a else fresh (dom (states db)) in
        let sequence := nextSequence_ db in
        let state := fold_left (applyOperation sequence) (SwDbWriteBatch.operations_ batch) state in
        (SwDbStatus.success,
         mkDb (opened_ db) (closing_ db) (<[a := state]> (states db)) (Some a) (snapshots db) (sequence +u 1) sequence)
  end.

(** [createSnapshot]: the snapshot holds the state. *)
Definition createSnapshot (db : Db) : option nat * Db :=
  match (if opened_ db then memoryState_ db else None) with
  | None => (None, db)
  | Some a =>
      (Some a, mkDb (opened_ db) (closing_ db) (states db) (memoryState_ db) (a :: snapshots db) (nextSequence_ db)
                 (lastVisibleSequence_ db))
  end.

(** [open] of a database that is not persistent, [close] with its [resetState]. *)
Definition open_ (db : Db) : Db :=
  let a := fresh (dom (states db)) in
  mkDb true false (<[a := emptyState]> (states db)) (Some a) (snapshots db) 1 0.

Definition close (db : Db) : Db := mkDb false false (states db) None (snapshots db) 1 0.

(** ** Scans *)

Definition memoryReadEntry_ (primaryKey secondaryKey : list byte) (record : PrimaryRecord_) : SwDbEntry :=
  mkEntry primaryKey secondaryKey (recordBytes_ record) (pr_secondaryKeys record) (pr_sequence record).

(** [MemoryPrimaryIteratorState_]: what is left of the map. *)
Definition primaryNext (end_ : list byte) (next_ : ByteMap.t PrimaryRecord_) : option (SwDbEntry * ByteMap.t PrimaryRecord_) :=
  match next_ with
  | [] => None
  | (key, record) :: rest =>
      if negb (isEmpty end_) && negb (before key end_) then None
      else Some (memoryReadEntry_ key [] record, rest)
  end.

Definition scanPrimary (state : MemoryState_) (start end_ : list byte) : result (list SwDbEntry) :=
  drain (primaryNext end_) (length (primary state)) (ByteMap.lowerBound start (primary state)).

(** [MemoryIndexIteratorState_] *)
Definition indexNext (state : MemoryState_) (end_ : list byte) (next_ : ByteMap.t MemoryIndexEntry_) :
    option (SwDbEntry * ByteMap.t MemoryIndexEntry_) :=
  match next_ with
  | [] => None
  | (_, entry) :: rest =>
      if negb (isEmpty end_) && negb (before (mi_secondaryKey entry) end_) then None
      else
        record ← ByteMap.find (mi_primaryKey entry) (primary state);
        Some (memoryReadEntry_ (mi_primaryKey entry) (mi_secondaryKey entry) record, rest)
  end.

Definition scanIndex (state : MemoryState_) (indexName start end_ : list byte) : result (list SwDbEntry) :=
  match ByteMap.find indexName (indexes state) with
  | None => Ok []
  | Some index =>
      let first := if isEmpty start then index else ByteMap.lowerBound (encodeIndexCompositeKey_ start []) index in
      drain (indexNext state end_) (length index) first
  end.

(** ** Facts *)

(** *** The entries of an index *)

Definition bucketOf (name : list byte) (m : ByteMap.t (ByteMap.t MemoryIndexEntry_)) : ByteMap.t MemoryIndexEntry_ :=
  default [] (ByteMap.find name m).

Definition total (m : ByteMap.t (ByteMap.t MemoryIndexEntry_)) : Z := foldr (fun e n => zlen e.2 + n) 0 m.

Lemma total_insert name b m : ByteMap.wf m -> total (ByteMap.insert name b m) = total m - zlen (bucketOf name m) + zlen b.
Proof.
  unfold bucketOf. induction m as [|[k w] m IH]; intros W; simpl; [lia|].
  pose proof (ByteMap.wf_tail _ _ W) as W'. destruct (before name k) eqn:B1; [|destruct (before k name) eqn:B2]; simpl.
  - assert (ByteMap.find name m = None) as ->.
    { destruct (ByteMap.find name m) eqn:F; [|done]. apply ByteMap.find_elem in F. pose proof (ByteMap.wf_head _ _ _ W F) as B.
      simpl in B. pose proof (before_trans _ _ _ B1 B) as B'. by rewrite before_irrefl in B'. }
    rewrite decide_False by (apply not_eq_sym; by apply ByteMap.before_eq). simpl. lia.
  - rewrite IH by done. rewrite decide_False by (by apply ByteMap.before_eq). lia.
  - pose proof (before_total _ _ B1 B2) as ->. rewrite decide_True by done. simpl. lia.
Qed.

Lemma total_remove name m : total (ByteMap.remove name m) = total m - zlen (bucketOf name m).
Proof. unfold bucketOf. induction m as [|[k w] m IH]; simpl; [lia|]. destruct (decide (k = name)); simpl; [lia|]. rewrite IH. lia. Qed.

Lemma wrap64_add_sub a b c : wrap64 (wrap64 a + b - c) = wrap64 (a + b - c).
Proof. unfold wrap64. rewrite Zminus_mod, Zplus_mod_idemp_l, <- Zminus_mod. done. Qed.

(** The entry of a secondary key [s] and a primary key [p] in a bucket. *)
Abbreviation at_ b s p := (ByteMap.find (encodeIndexCompositeKey_ s p) b).

Definition shaped (b : ByteMap.t MemoryIndexEntry_) : Prop :=
  Forall (fun e => e.1 = encodeIndexCompositeKey_ (mi_secondaryKey e.2) (mi_primaryKey e.2)) b.

Lemma shaped_at b s p e : shaped b -> at_ b s p = Some e -> e = mkMemoryIndexEntry s p.
Proof.
  intros Hb H%ByteMap.find_elem. unfold shaped in Hb. rewrite list.Forall_forall in Hb. specialize (Hb _ H). simpl in Hb.
  apply composite_key_inj in Hb as [-> ->]. by destruct e.
Qed.

Lemma shaped_remove key b : shaped b -> shaped (ByteMap.remove key b).
Proof.
  unfold shaped. rewrite !list.Forall_forall. intros H e He. apply H. eapply elem_of_sublist; [exact He|apply ByteMap.remove_sublist].
Qed.

Lemma length_remove {A} key (b : ByteMap.t A) : zlen (ByteMap.remove key b) = zlen b - (if ByteMap.find key b is Some _ then 1 else 0).
Proof. induction b as [|[k v] b IH]; simpl; [done|]. destruct (decide (k = key)); simpl; lia. Qed.

Lemma length_insert {A} key v (b : ByteMap.t A) : ByteMap.find key b = None -> zlen (ByteMap.insert key v b) = zlen b + 1.
Proof.
  induction b as [|[k w] b IH]; [done|]. cbn [ByteMap.find ByteMap.insert]. destruct (decide (k = key)) as [|N]; [done|]. intros F.
  specialize (IH F). destruct (before key k) eqn:B1; [cbn [length]; lia|]. destruct (before k key) eqn:B2; [cbn [length]; lia|].
  by pose proof (before_total _ _ B1 B2).
Qed.

Lemma erase_fold p l : forall b count, ByteMap.wf b -> shaped b -> is_u64 count ->
  let '(b', count') :=
    fold_left (fun '(bucket, count) secondaryKey =>
        let '(bucket, erased) := eraseKey (encodeIndexCompositeKey_ secondaryKey p) bucket in (bucket, count -u erased)) l (b, count) in
  ByteMap.wf b' /\ shaped b' /\ count' = wrap64 (count + zlen b' - zlen b) /\
  forall s q, at_ b' s q = if bool_decide (q = p /\ s ∈ l) then None else at_ b s q.
Proof.
  induction l as [|key l IH]; intros b count W S C; simpl.
  - split; [done|]. split; [done|]. split; [rewrite wrap64_small; unfold is_u64 in C; lia|]. intros s q.
    rewrite bool_decide_eq_false_2; [done|]. by intros [_ ?%elem_of_nil].
  - specialize (IH (ByteMap.remove (encodeIndexCompositeKey_ key p) b)
                  (count -u (if at_ b key p is Some _ then 1 else 0)) (ByteMap.wf_remove _ _ W)).
    destruct (fold_left _ _ _) as [b' count'].
    destruct IH as (W' & S' & -> & H); [|apply wrap64_range|].
    + by apply shaped_remove.
    + split; [done|]. split; [done|]. split.
      * unfold sub64. rewrite wrap64_add_sub, length_remove. f_equal. lia.
      * intros s q. rewrite H. destruct (decide (q = p /\ s ∈ l)) as [[-> Hs]|N].
        { rewrite !bool_decide_eq_true_2; [done|split; [done|by right]|done]. }
        rewrite bool_decide_eq_false_2, ByteMap.find_after_remove by done.
        destruct (decide (encodeIndexCompositeKey_ key p = encodeIndexCompositeKey_ s q)) as [[-> ->]%composite_key_inj|N'].
        { rewrite bool_decide_eq_true_2; [done|]. split; [done|left]. }
        rewrite bool_decide_eq_false_2; [done|]. intros [-> [->|Hs]%elem_of_cons]; auto.
Qed.

Lemma emplace_fold p l : forall b count, ByteMap.wf b -> shaped b -> is_u64 count ->
  let '(b', count') := fold_left (emplaceEntry p) l (b, count) in
  ByteMap.wf b' /\ shaped b' /\ count' = wrap64 (count + zlen b' - zlen b) /\ zlen b <= zlen b' /\
  forall s q, at_ b' s q = if bool_decide (q = p /\ s ∈ l) then Some (mkMemoryIndexEntry s q) else at_ b s q.
Proof.
  induction l as [|key l IH]; intros b count W S C; cbn [fold_left].
  - split; [done|]. split; [done|]. split; [rewrite wrap64_small; unfold is_u64 in C; lia|]. split; [lia|]. intros s q.
    rewrite bool_decide_eq_false_2; [done|]. by intros [_ ?%elem_of_nil].
  - unfold emplaceEntry at 2. cbn [fst snd]. destruct (at_ b key p) as [e|] eqn:F.
    + specialize (IH b count W S C). destruct (fold_left _ _ _) as [b' count']. destruct IH as (W' & S' & -> & L & H).
      split; [done|]. split; [done|]. split; [done|]. split; [done|]. intros s q. rewrite H.
      destruct (decide (q = p /\ s ∈ l)) as [[-> Hs]|N]; [rewrite !bool_decide_eq_true_2; [done|split; [done|by right]|done]|].
      rewrite bool_decide_eq_false_2 by done. destruct (decide (s = key /\ q = p)) as [[-> ->]|N'].
      * rewrite bool_decide_eq_true_2 by (split; [done|left]). rewrite F. f_equal. by eapply shaped_at.
      * rewrite bool_decide_eq_false_2; [done|]. intros [-> [->|Hs]%elem_of_cons]; auto.
    + specialize (IH (ByteMap.insert (encodeIndexCompositeKey_ key p) (mkMemoryIndexEntry key p) b) (count +u 1) (ByteMap.wf_insert _ _ _ W)).
      destruct (fold_left _ _ _) as [b' count']. destruct IH as (W' & S' & -> & L & H); [|apply wrap64_range|].
      * apply list.Forall_forall. intros e [->|He]%ByteMap.insert_elem; [done|]. unfold shaped in S. rewrite list.Forall_forall in S. by apply S.
      * rewrite length_insert in L |- * by done. split; [done|]. split; [done|]. split.
        { unfold add64. rewrite wrap64_add_sub. f_equal. lia. }
        split; [lia|]. intros s q. rewrite H. destruct (decide (q = p /\ s ∈ l)) as [[-> Hs]|N].
        { rewrite !bool_decide_eq_true_2; [done|split; [done|by right]|done]. }
        rewrite bool_decide_eq_false_2, ByteMap.find_after_insert by done.
        destruct (decide (encodeIndexCompositeKey_ key p = encodeIndexCompositeKey_ s q)) as [[-> ->]%composite_key_inj|N'].
        { rewrite bool_decide_eq_true_2; [done|]. split; [done|left]. }
        rewrite bool_decide_eq_false_2; [done|]. intros [-> [->|Hs]%elem_of_cons]; auto.
Qed.

(** *** Indexes that hold given pairs *)

(** Under a name, a secondary key and a primary key. *)
Abbreviation Listed := (list byte -> list byte -> list byte -> bool).

Record indexed (m : ByteMap.t (ByteMap.t MemoryIndexEntry_)) (count : Z) (listed : Listed) : Prop := {
  ix_wf : ByteMap.wf m;
  ix_buckets : forall name b, ByteMap.find name m = Some b -> ByteMap.wf b /\ shaped b /\ b <> [];
  ix_pairs : forall name s p, at_ (bucketOf name m) s p = if listed name s p then Some (mkMemoryIndexEntry s p) else None;
  ix_count : count = wrap64 (total m)
}.

Lemma indexed_ext m count listed listed' : (forall name s p, listed name s p = listed' name s p) ->
  indexed m count listed -> indexed m count listed'.
Proof. intros H [H1 H2 H3 H4]. constructor; try done. intros. by rewrite <- H. Qed.

Lemma bucket_ok m count listed name : indexed m count listed -> ByteMap.wf (bucketOf name m) /\ shaped (bucketOf name m).
Proof.
  intros H. unfold bucketOf. destruct (ByteMap.find name m) as [b|] eqn:F; simpl.
  - by apply (ix_buckets _ _ _ H) in F as (? & ? & _).
  - split; [apply ByteMap.wf_nil|constructor].
Qed.

Definition replaceBucket (name : list byte) (b : ByteMap.t MemoryIndexEntry_) (m : ByteMap.t (ByteMap.t MemoryIndexEntry_)) :=
  if ByteMap.isEmpty b then ByteMap.remove name m else ByteMap.insert name b m.

Lemma find_replaced name b m name' : ByteMap.wf m ->
  ByteMap.find name' (replaceBucket name b m) =
    if decide (name = name') then (if ByteMap.isEmpty b then None else Some b) else ByteMap.find name' m.
Proof.
  intros W. unfold replaceBucket. destruct (ByteMap.isEmpty b).
  - rewrite ByteMap.find_after_remove by done. by case_decide.
  - rewrite ByteMap.find_after_insert. by case_decide.
Qed.

Lemma indexed_replace m count listed name b (listed' : Listed) :
  indexed m count listed -> ByteMap.wf b -> shaped b ->
  (forall s p, at_ b s p = if listed' name s p then Some (mkMemoryIndexEntry s p) else None) ->
  (forall name' s p, name <> name' -> listed' name' s p = listed name' s p) ->
  indexed (replaceBucket name b m) (wrap64 (count + zlen b - zlen (bucketOf name m))) listed'.
Proof.
  intros [H1 H2 H3 ->] W S Hb Hl. constructor.
  - unfold replaceBucket. destruct (ByteMap.isEmpty b); [by apply ByteMap.wf_remove|by apply ByteMap.wf_insert].
  - intros name' b'. rewrite find_replaced by done. destruct (decide (name = name')); [|apply H2].
    destruct b; [done|]. intros [= <-]. done.
  - intros name' s p. unfold bucketOf. rewrite find_replaced by done. destruct (decide (name = name')) as [<-|N].
    + rewrite <- Hb. by destruct b.
    + rewrite Hl by done. apply H3.
  - unfold replaceBucket. rewrite wrap64_add_sub. f_equal. destruct b as [|e b]; simpl ByteMap.isEmpty; cbv iota.
    + rewrite total_remove. simpl. lia.
    + rewrite total_insert by done. lia.
Qed.

Lemma eraseIndex_ok p it state listed : indexed (indexes state) (indexEntryCount state) listed ->
  let state' := eraseIndex p state it in
  primary state' = primary state /\
  indexed (indexes state') (indexEntryCount state')
    (fun name s q => listed name s q && negb (bool_decide (name = it.1 /\ q = p /\ s ∈ it.2))).
Proof.
  intros H. unfold eraseIndex. destruct (ByteMap.find it.1 (indexes state)) as [b|] eqn:F.
  - destruct (ix_buckets _ _ _ H _ _ F) as (W & S & _).
    assert (is_u64 (indexEntryCount state)) as C by (rewrite (ix_count _ _ _ H); apply wrap64_range).
    pose proof (erase_fold p it.2 b (indexEntryCount state) W S C) as Hf.
    destruct (fold_left _ _ _) as [b' count']. destruct Hf as (W' & S' & -> & Hf). split; [done|].
    assert (bucketOf it.1 (indexes state) = b) as Eb by (unfold bucketOf; by rewrite F).
    rewrite <- Eb. apply (indexed_replace _ _ listed); try done.
    + intros s q. rewrite Hf. pose proof (ix_pairs _ _ _ H it.1 s q) as Hp. rewrite Eb in Hp. rewrite Hp.
      destruct (decide (q = p /\ s ∈ it.2)); [rewrite !bool_decide_eq_true_2 by tauto; by rewrite andb_false_r|].
      rewrite !bool_decide_eq_false_2 by tauto. by rewrite andb_true_r.
    + intros name' s q N. rewrite bool_decide_eq_false_2 by naive_solver. apply andb_true_r.
  - split; [done|]. eapply indexed_ext; [|exact H]. intros name s q. destruct (decide (name = it.1)) as [->|N].
    + pose proof (ix_pairs _ _ _ H it.1 s q) as Hp. unfold bucketOf in Hp. rewrite F in Hp. by destruct (listed it.1 s q).
    + rewrite bool_decide_eq_false_2 by naive_solver. by rewrite andb_true_r.
Qed.

Lemma insertIndex_ok p it state listed : indexed (indexes state) (indexEntryCount state) listed ->
  let state' := insertIndex p state it in
  primary state' = primary state /\
  indexed (indexes state') (indexEntryCount state')
    (fun name s q => listed name s q || bool_decide (name = it.1 /\ q = p /\ s ∈ it.2)).
Proof.
  intros H. unfold insertIndex. destruct it as [name0 l]. cbn [fst snd]. destruct l as [|key l].
  - split; [done|]. eapply indexed_ext; [|exact H]. intros name s q. rewrite bool_decide_eq_false_2, orb_false_r; [done|].
    by intros (_ & _ & ?%elem_of_nil).
  - destruct (bucket_ok _ _ _ name0 H) as [W S].
    assert (is_u64 (indexEntryCount state)) as C by (rewrite (ix_count _ _ _ H); apply wrap64_range).
    pose proof (emplace_fold p (key :: l) _ (indexEntryCount state) W S C) as Hf. fold (bucketOf name0 (indexes state)).
    destruct (fold_left _ _ _) as [b' count']. destruct Hf as (W' & S' & -> & _ & Hf). split; [done|]. cbn [indexes set_indexes indexEntryCount].
    assert (ByteMap.insert name0 b' (indexes state) = replaceBucket name0 b' (indexes state)) as ->.
    { unfold replaceBucket. destruct b'; [|done]. specialize (Hf key p). rewrite bool_decide_eq_true_2 in Hf by (split; [done|left]). done. }
    apply (indexed_replace _ _ listed); try done.
    + intros s q. rewrite Hf, (ix_pairs _ _ _ H).
      destruct (decide (q = p /\ s ∈ key :: l)); [rewrite !bool_decide_eq_true_2 by tauto; by rewrite orb_true_r|].
      rewrite !bool_decide_eq_false_2 by tauto. by rewrite orb_false_r.
    + intros name' s q N. rewrite bool_decide_eq_false_2 by naive_solver. apply orb_false_r.
Qed.

(** The pairs a record adds. *)
Definition listedIn (keys : SecondaryKeys) (name s : list byte) : bool :=
  existsb (fun it => bool_decide (name = it.1 /\ s ∈ it.2)) keys.

Lemma and_split (P Q R : Prop) `{Decision P, Decision Q, Decision R} : bool_decide (P /\ Q /\ R) = bool_decide Q && bool_decide (P /\ R).
Proof. repeat case_bool_decide; tauto. Qed.

Lemma eraseIndexes_ok p keys : forall state listed, indexed (indexes state) (indexEntryCount state) listed ->
  let state' := eraseIndexes_ state p keys in
  primary state' = primary state /\
  indexed (indexes state') (indexEntryCount state')
    (fun name s q => listed name s q && negb (bool_decide (q = p) && listedIn keys name s)).
Proof.
  unfold eraseIndexes_. induction keys as [|it keys IH]; intros state listed H; cbn [fold_left].
  - split; [done|]. eapply indexed_ext; [|exact H]. intros. simpl. by rewrite andb_false_r, andb_true_r.
  - destruct (eraseIndex_ok p it _ _ H) as [E1 H1]. destruct (IH _ _ H1) as [E2 H2]. split; [by rewrite E2|].
    eapply indexed_ext; [|exact H2]. intros name s q. cbn [listedIn existsb]. fold (listedIn keys name s).
    rewrite and_split. by destruct (listed name s q), (listedIn keys name s), (bool_decide (q = p)), (bool_decide (name = it.1 /\ s ∈ it.2)).
Qed.

Lemma insertIndexes_ok p keys : forall state listed, indexed (indexes state) (indexEntryCount state) listed ->
  let state' := insertIndexes_ state p keys in
  primary state' = primary state /\
  indexed (indexes state') (indexEntryCount state')
    (fun name s q => listed name s q || (bool_decide (q = p) && listedIn keys name s)).
Proof.
  unfold insertIndexes_. induction keys as [|it keys IH]; intros state listed H; cbn [fold_left].
  - split; [done|]. eapply indexed_ext; [|exact H]. intros. simpl. by rewrite andb_false_r, orb_false_r.
  - destruct (insertIndex_ok p it _ _ H) as [E1 H1]. destruct (IH _ _ H1) as [E2 H2]. split; [by rewrite E2|].
    eapply indexed_ext; [|exact H2]. intros name s q. cbn [listedIn existsb]. fold (listedIn keys name s).
    rewrite and_split. by destruct (listed name s q), (listedIn keys name s), (bool_decide (q = p)), (bool_decide (name = it.1 /\ s ∈ it.2)).
Qed.

(** *** A state *)

Definition listedBy (m : ByteMap.t PrimaryRecord_) : Listed := fun name s p =>
  match ByteMap.find p m with Some r => listedIn (pr_secondaryKeys r) name s | None => false end.

(** The records in order, with keys as [SwMap] keeps them, and indexes of exactly what
    they list. *)
Record state_ok (state : MemoryState_) : Prop := {
  so_primary : ByteMap.wf (primary state);
  so_keys : Forall (fun e => ByteMap.wf (pr_secondaryKeys e.2)) (primary state);
  so_indexes : indexed (indexes state) (indexEntryCount state) (listedBy (primary state))
}.

Definition op_wf (op : SwDbWriteBatch.Operation) : Prop := ByteMap.wf (SwDbWriteBatch.op_secondaryKeys op).

Definition contentOf (r : PrimaryRecord_) : Content := mkContent (recordBytes_ r) (pr_secondaryKeys r) (pr_sequence r).

Definition tableOf (m : ByteMap.t PrimaryRecord_) : Table := ByteMap.mapValues contentOf m.

Lemma listedBy_insert m p r name s q : listedBy (ByteMap.insert p r m) name s q =
  if decide (p = q) then listedIn (pr_secondaryKeys r) name s else listedBy m name s q.
Proof. unfold listedBy. rewrite ByteMap.find_after_insert. by case_decide. Qed.

Lemma listedBy_remove m p name s q : ByteMap.wf m -> listedBy (ByteMap.remove p m) name s q =
  if decide (p = q) then false else listedBy m name s q.
Proof. intros W. unfold listedBy. rewrite ByteMap.find_after_remove by done. by case_decide. Qed.

Lemma eraseOld_ok state p : state_ok state ->
  state_ok (eraseOld p state) /\ primary (eraseOld p state) = ByteMap.remove p (primary state).
Proof.
  intros [W K H]. unfold eraseOld. destruct (ByteMap.find p (primary state)) as [old|] eqn:F.
  - destruct (eraseIndexes_ok p (pr_secondaryKeys old) _ _ H) as [E1 H1]. cbv zeta. rewrite E1. split; [|done].
    constructor; cbn [primary set_primary indexes indexEntryCount].
    + by apply ByteMap.wf_remove.
    + rewrite list.Forall_forall in K |- *. intros e He. apply K. eapply elem_of_sublist; [exact He|apply ByteMap.remove_sublist].
    + eapply indexed_ext; [|exact H1]. intros name s q. cbv beta. rewrite listedBy_remove by done.
      destruct (decide (p = q)) as [<-|N]; [|rewrite bool_decide_eq_false_2 by done; apply andb_true_r].
      rewrite bool_decide_eq_true_2 by done. unfold listedBy. rewrite F. by destruct (listedIn _ _ _).
  - split; [done|]. symmetry. apply ByteMap.wf_ext; [by apply ByteMap.wf_remove|done|]. intros k.
    rewrite ByteMap.find_after_remove by done. case_decide; [by subst|done].
Qed.

Lemma applyOperation_ok sequence state op : state_ok state -> op_wf op ->
  let state' := applyOperation sequence state op in
  state_ok state' /\ tableOf (primary state') = plainApply sequence (tableOf (primary state)) op.
Proof.
  intros H Hop. unfold applyOperation, plainApply. destruct (eraseOld_ok state (SwDbWriteBatch.op_primaryKey op) H) as [Hok Ep].
  destruct (eraseOld _ state) as [pr ix count]. cbn [primary] in Ep. subst pr.
  destruct (SwDbWriteBatch.op_type op); [|split; [done|]; apply ByteMap.remove_mapValues].
  set (r := mkPrimaryRecord _ _ _ _ _ _ _). destruct Hok as [W K Hi]. cbn [primary indexes indexEntryCount set_primary] in *.
  set (state1 := mkMemoryState (ByteMap.insert (SwDbWriteBatch.op_primaryKey op) r (ByteMap.remove (SwDbWriteBatch.op_primaryKey op) (primary state))) ix count).
  change (set_primary _ _) with state1.
  assert (indexed (indexes state1) (indexEntryCount state1) (listedBy (ByteMap.remove (SwDbWriteBatch.op_primaryKey op) (primary state)))) as Hi' by done.
  destruct (insertIndexes_ok (SwDbWriteBatch.op_primaryKey op) (SwDbWriteBatch.op_secondaryKeys op) _ _ Hi') as [E1 H1]. split.
  - constructor; rewrite ?E1; cbn [primary state1].
    + by apply ByteMap.wf_insert.
    + apply list.Forall_forall. rewrite list.Forall_forall in K. intros e [->|He]%ByteMap.insert_elem; [done|by apply K].
    + eapply indexed_ext; [|exact H1]. intros name s q. cbv beta. rewrite listedBy_insert, listedBy_remove by apply H.
      destruct (decide (SwDbWriteBatch.op_primaryKey op = q)) as [<-|N]; [by rewrite bool_decide_eq_true_2|].
      rewrite bool_decide_eq_false_2 by done. apply orb_false_r.
  - rewrite E1. cbn [primary state1]. unfold tableOf. rewrite ByteMap.insert_mapValues, ByteMap.remove_mapValues.
    apply ByteMap.wf_ext.
    + apply ByteMap.wf_insert, ByteMap.wf_remove, ByteMap.wf_mapValues, H.
    + apply ByteMap.wf_insert, ByteMap.wf_mapValues, H.
    + intros k. rewrite !ByteMap.find_after_insert, ByteMap.find_after_remove by (apply ByteMap.wf_mapValues, H).
      case_decide; [|done]. f_equal. unfold contentOf, recordBytes_, opValue. subst r. simpl. by destruct (SwDbWriteBatch.op_jsonPayload op).
Qed.

Lemma applyOperations_ok sequence l : forall state, state_ok state -> Forall op_wf l ->
  let state' := fold_left (applyOperation sequence) l state in
  state_ok state' /\ tableOf (primary state') = fold_left (plainApply sequence) l (tableOf (primary state)).
Proof.
  induction l as [|op l IH]; intros state H Hl; [done|]. apply Forall_cons in Hl as [Hop Hl]. cbn [fold_left].
  destruct (applyOperation_ok sequence state op H Hop) as [H1 <-]. by apply IH.
Qed.

Lemma emptyState_ok : state_ok emptyState.
Proof. repeat constructor; done. Qed.

(** *** Scans *)

Lemma scanPrimary_eq state start end_ : state_ok state ->
  scanPrimary state start end_ = Ok (DbContents.primaryScan (tableOf (primary state)) start end_).
Proof.
  intros [W _ _]. unfold scanPrimary. rewrite ByteMap.lowerBound_spec by done.
  set (m := List.filter _ (primary state)). assert (ByteMap.wf m) as Wm by by apply ByteMap.wf_filter.
  set (p := fun e : list byte * PrimaryRecord_ => isEmpty end_ || before e.1 end_).
  set (row := fun e : list byte * PrimaryRecord_ => memoryReadEntry_ e.1 [] e.2).
  rewrite (drain_list _ (fun l => map row (upTo p l)) (fun _ => True)); [|clear|done|].
  - f_equal. rewrite (upTo_filter ByteMap.key_order); [|intros x y; apply range_end|done].
    subst m. rewrite filter_both. unfold DbContents.primaryScan, tableOf.
    rewrite (ByteMap.filter_mapValues contentOf (inRange start end_)). unfold ByteMap.mapValues. rewrite map_map. done.
  - intros [|[k r] l] _; cbn [primaryNext]; [done|]. subst p. simpl. rewrite <- negb_orb.
    destruct (isEmpty end_ || before k end_); done.
  - rewrite length_map. etransitivity; [|apply (filter_length_le (fun e => negb (before e.1 start)))]. fold m.
    clear. induction m as [|e m IH]; simpl; [lia|]. destruct (p e); simpl; lia.
Qed.

Lemma listedIn_keysIn keys name s : ByteMap.wf keys -> listedIn keys name s = bool_decide (s ∈ keysIn name keys).
Proof.
  unfold keysIn. induction keys as [|[k l] keys IH]; intros W; [done|]. cbn [listedIn existsb ByteMap.find fst snd].
  fold (listedIn keys name s). rewrite IH by (by eapply ByteMap.wf_tail). destruct (decide (k = name)) as [->|N].
  - assert (ByteMap.find name keys = None) as ->.
    { destruct (ByteMap.find name keys) eqn:F; [|done]. apply ByteMap.find_elem in F. pose proof (ByteMap.wf_head _ _ _ W F) as B.
      simpl in B. by rewrite before_irrefl in B. }
    simpl. rewrite orb_false_r.
    apply bool_decide_ext. naive_solver.
  - rewrite bool_decide_eq_false_2 by naive_solver. done.
Qed.

Definition indexEntryOf (e : SwDbEntry) : MemoryIndexEntry_ := mkMemoryIndexEntry (de_secondaryKey e) (de_primaryKey e).

Lemma bucket_is_index state name : state_ok state ->
  bucketOf name (indexes state) = ByteMap.mapValues indexEntryOf (indexOf name (tableOf (primary state))).
Proof.
  intros [W K H]. destruct (bucket_ok _ _ _ name H) as [Wb Sb]. assert (ByteMap.wf (tableOf (primary state))) as Wt by by apply ByteMap.wf_mapValues.
  assert (forall s p, at_ (bucketOf name (indexes state)) s p =
    ByteMap.find (encodeIndexCompositeKey_ s p) (ByteMap.mapValues indexEntryOf (indexOf name (tableOf (primary state))))) as Hat.
  { intros s p. rewrite (ix_pairs _ _ _ H), ByteMap.find_mapValues, find_indexOf by done. unfold tableOf. rewrite ByteMap.find_mapValues.
    unfold listedBy. destruct (ByteMap.find p (primary state)) as [r|] eqn:F; simpl; [|done].
    rewrite listedIn_keysIn.
    - case_bool_decide; [by rewrite decide_True|by rewrite decide_False].
    - apply ByteMap.find_elem in F. rewrite list.Forall_forall in K. exact (K _ F). }
  apply ByteMap.wf_ext; [done|apply ByteMap.wf_mapValues, wf_indexOf|]. intros k.
  destruct (ByteMap.find k (bucketOf name (indexes state))) as [e|] eqn:F1.
  - pose proof (ByteMap.find_elem _ _ _ F1) as F. unfold shaped in Sb. rewrite list.Forall_forall in Sb. specialize (Sb _ F). simpl in Sb. subst k.
    by rewrite <- Hat.
  - rewrite ByteMap.find_mapValues. destruct (ByteMap.find k (indexOf _ _)) as [e|] eqn:F2; [|done].
    pose proof (ByteMap.find_elem _ _ _ F2) as F. apply elem_indexOf in F as (s & p & c & Ek & _). simpl in Ek. subst k.
    rewrite Hat, ByteMap.find_mapValues, F2 in F1. done.
Qed.

Lemma secondary_sorted b : ByteMap.wf b -> shaped b ->
  StronglySorted (fun x y => before (mi_secondaryKey y.2) (mi_secondaryKey x.2) = false) b.
Proof.
  intros W S. unfold shaped in S. induction W as [|e b W IH Hall]; [constructor|]. apply Forall_cons in S as [He S].
  constructor; [by apply IH|]. rewrite list.Forall_forall in *. intros f Hf. specialize (Hall f Hf). unfold ByteMap.key_order in Hall.
  rewrite He, (S f Hf), composite_before in Hall. destruct (decide _) as [<-|_]; [apply before_irrefl|by apply ByteMap.before_asym].
Qed.

(** A part of an index, with the entries its pairs lead to. *)
Definition part_of (m : ByteMap.t PrimaryRecord_) (part : ByteMap.t SwDbEntry) : Prop :=
  ByteMap.wf part /\ Forall (fun e => exists s p r, e.1 = encodeIndexCompositeKey_ s p /\
    e.2 = memoryReadEntry_ p s r /\ ByteMap.find p m = Some r) part.

Lemma part_filter m part (q : list byte * SwDbEntry -> bool) : part_of m part -> part_of m (List.filter q part).
Proof.
  intros [W H]. split; [by apply ByteMap.wf_filter|]. rewrite list.Forall_forall in H |- *. intros e He. apply H.
  by apply list_elem_of_In, filter_In in He as [He%list_elem_of_In _].
Qed.

Lemma indexOf_part state name : state_ok state -> part_of (primary state) (indexOf name (tableOf (primary state))).
Proof.
  intros H. split; [apply wf_indexOf|]. apply list.Forall_forall. intros e He.
  apply indexOf_sound in He as (s & p & c & H1 & H2 & H3 & _); [|by apply ByteMap.wf_mapValues, H].
  unfold tableOf in H3. rewrite ByteMap.find_mapValues in H3. destruct (ByteMap.find p (primary state)) as [r|] eqn:F; [|done].
  injection H3 as <-. exists s, p, r. by rewrite H2.
Qed.

Lemma drain_part state end_ part : part_of (primary state) part -> forall fuel, (length part <= fuel)%nat ->
  drain (indexNext state end_) fuel (ByteMap.mapValues indexEntryOf part) =
  Ok (map snd (List.filter (fun e => isEmpty end_ || before (de_secondaryKey e.2) end_) part)).
Proof.
  intros [W H] fuel Hf. set (stop := fun e : list byte * MemoryIndexEntry_ => isEmpty end_ || before (mi_secondaryKey e.2) end_).
  set (row := fun e : list byte * MemoryIndexEntry_ =>
    record ← ByteMap.find (mi_primaryKey e.2) (primary state); Some (memoryReadEntry_ (mi_primaryKey e.2) (mi_secondaryKey e.2) record)).
  assert (Forall (fun e => row (e.1, indexEntryOf e.2) = Some e.2) part) as Hrow.
  { rewrite list.Forall_forall in H |- *. intros e He. destruct (H e He) as (s & p & r & _ & H2 & H3).
    unfold row, indexEntryOf. rewrite H2. simpl. by rewrite H3. }
  assert (omap row (upTo stop (ByteMap.mapValues indexEntryOf part)) =
          map snd (List.filter (fun e => isEmpty end_ || before (de_secondaryKey e.2) end_) part)) as Erows.
  { rewrite (upTo_filter (fun x y => before (mi_secondaryKey y.2) (mi_secondaryKey x.2) = false)).
    - clear - Hrow. induction Hrow as [|e l Er _ IH]; [done|]. simpl. unfold stop at 1. simpl.
      destruct (isEmpty end_ || before (de_secondaryKey e.2) end_); [|exact IH]. simpl. rewrite Er. f_equal. exact IH.
    - intros x y Hxy. unfold stop. destruct (isEmpty end_); [done|]. simpl. intros Hy.
      destruct (before (mi_secondaryKey x.2) end_) eqn:E1; [done|]. destruct (before (mi_secondaryKey x.2) (mi_secondaryKey y.2)) eqn:E2.
      + by rewrite (before_trans _ _ _ E2 Hy) in E1.
      + pose proof (before_total _ _ E2 Hxy) as E3. rewrite E3 in E1. congruence.
    - apply secondary_sorted; [by apply ByteMap.wf_mapValues|]. apply list.Forall_forall. intros e He. rewrite list.Forall_forall in H.
      apply list_elem_of_In, in_map_iff in He as (f & <- & Hf'%list_elem_of_In). destruct (H f Hf') as (s & p & r & H1 & H2 & _).
      unfold indexEntryOf. simpl. by rewrite H2. }
  rewrite <- Erows. apply (drain_list _ (fun l => omap row (upTo stop l)) (Forall (fun e => is_Some (row e)))).
  - intros [|[k e] l] Hl; cbn [indexNext]; [done|]. apply Forall_cons in Hl as [[de Hd] Hl]. cbn [upTo].
    change (stop (k, e)) with (isEmpty end_ || before (mi_secondaryKey e) end_). rewrite <- negb_orb.
    destruct (isEmpty end_ || before (mi_secondaryKey e) end_); [|done]. simpl.
    unfold row in Hd. simpl in Hd. destruct (ByteMap.find (mi_primaryKey e) (primary state)) as [r|] eqn:F; [|done].
    assert (row (k, e) = Some (memoryReadEntry_ (mi_primaryKey e) (mi_secondaryKey e) r)) as -> by (unfold row; simpl; by rewrite F). done.
  - apply list.Forall_forall. intros e He. apply list_elem_of_In, in_map_iff in He as (f & <- & Hf'%list_elem_of_In).
    rewrite list.Forall_forall in Hrow. exists f.2. exact (Hrow f Hf').
  - rewrite Erows, length_map. etransitivity; [apply filter_length_le|done].
Qed.

Lemma scanIndex_eq state name start end_ : state_ok state ->
  scanIndex state name start end_ = Ok (DbContents.indexScan (tableOf (primary state)) name start end_).
Proof.
  intros H. pose proof (bucket_is_index state name H) as Hb. unfold bucketOf in Hb. unfold scanIndex, DbContents.indexScan.
  pose proof (indexOf_part state name H) as Hi. set (index := indexOf name (tableOf (primary state))) in *. clearbody index.
  destruct (ByteMap.find name (indexes state)) as [b|]; simpl in Hb; [|by destruct index]. subst b.
  set (from := fun e : list byte * SwDbEntry => negb (before (de_secondaryKey e.2) start)).
  assert ((if isEmpty start then ByteMap.mapValues indexEntryOf index
           else ByteMap.lowerBound (encodeIndexCompositeKey_ start []) (ByteMap.mapValues indexEntryOf index)) =
          ByteMap.mapValues indexEntryOf (List.filter from index)) as ->.
  { destruct (isEmpty start) eqn:Es.
    - destruct start; [|done]. f_equal. symmetry. clear. induction index as [|e l IH]; [done|]. unfold from in *. simpl.
      rewrite IH. by destruct (de_secondaryKey e.2).
    - rewrite ByteMap.lowerBound_spec by (by apply ByteMap.wf_mapValues, Hi).
      rewrite (ByteMap.filter_mapValues indexEntryOf (fun k => negb (before k (encodeIndexCompositeKey_ start [])))).
      f_equal. apply filter_ext_in. intros e He%list_elem_of_In. destruct Hi as [_ Hi]. rewrite list.Forall_forall in Hi.
      destruct (Hi e He) as (s & p & r & H1 & H2 & _). unfold from.
      rewrite H1, H2, composite_before. simpl. case_decide; [subst; by rewrite before_irrefl; destruct p|done]. }
  rewrite drain_part; [|by apply part_filter|].
  - unfold inRange. rewrite filter_map_swap. by rewrite <- (filter_both (fun e => isEmpty end_ || before (de_secondaryKey e.2) end_) from).
  - unfold ByteMap.mapValues. rewrite length_map. apply filter_length_le.
Qed.

(** ** The database *)

(** What can happen to a database that is open: with the table its writes make and the
    tables its snapshots were taken of. *)
Inductive history : Db -> Table -> list Table -> Prop :=
| begun : history (open_ (mkDb false false ∅ None [] 1 0)) [] []
| wrote db table taken batch : history db table taken -> Forall op_wf (SwDbWriteBatch.operations_ batch) ->
    history (write batch db).2
      (if SwDbStatus.ok (write batch db).1 then plainBatch (nextSequence_ db) batch table else table) taken
| took db table taken : history db table taken -> history (createSnapshot db).2 table (table :: taken)
| dropped db table taken i : history db table taken ->
    history (mkDb (opened_ db) (closing_ db) (states db) (memoryState_ db) (delete i (snapshots db)) (nextSequence_ db) (lastVisibleSequence_ db))
      table (delete i taken).

Definition shows (db : Db) (a : nat) (table : Table) : Prop :=
  exists state, states db !! a = Some state /\ state_ok state /\ tableOf (primary state) = table.

Record db_ok (db : Db) (table : Table) (taken : list Table) : Prop := {
  do_open : opened_ db = true /\ closing_ db = false;
  do_state : exists a, memoryState_ db = Some a /\ shows db a table;
  do_snapshots : Forall2 (shows db) (snapshots db) taken
}.

Lemma write_ok db table taken batch : db_ok db table taken -> Forall op_wf (SwDbWriteBatch.operations_ batch) ->
  db_ok (write batch db).2
    (if SwDbStatus.ok (write batch db).1 then plainBatch (nextSequence_ db) batch table else table) taken.
Proof.
  intros [[Ho Hc] (a & Ha & state & Hs & Hok & Ht) Hsn] Hops. unfold write. rewrite Ho, Hc, Ha. simpl.
  destruct (existsb isBlobPut _); [simpl; constructor; [done| |done]; exists a; split; [done|]; by exists state|].
  destruct batch as [[|op ops] estimate]; [simpl; constructor; [done| |done]; exists a; split; [done|]; by exists state|].
  cbn [SwDbWriteBatch.isEmpty SwDbWriteBatch.operations_ fst snd]. rewrite Hs. cbn [default from_option].
  destruct (applyOperations_ok (nextSequence_ db) (op :: ops) state Hok Hops) as [H1 H2]. rewrite Ht in H2.
  assert (forall b t, b ∈ snapshots db -> shows db b t ->
    shows (mkDb (opened_ db) (closing_ db) (<[(if unique a db then a else fresh (dom (states db))) :=
      fold_left (applyOperation (nextSequence_ db)) (op :: ops) state]> (states db)) (memoryState_ db) [] 0 0) b t) as Hkeep.
  { intros b t Hb (s & Hsb & Hr). exists s. split; [|done]. cbn [states]. rewrite lookup_insert_ne; [done|]. intros <-.
    unfold unique in *. case_bool_decide as E1; simpl in *; [|done].
    apply (is_fresh (dom (states db))). apply elem_of_dom. by eexists. }
  constructor; cbn [opened_ closing_ memoryState_ snapshots]; [done| |].
  - eexists. split; [done|]. exists (fold_left (applyOperation (nextSequence_ db)) (op :: ops) state). cbn [states].
    rewrite lookup_insert_eq. done.
  - clear - Hsn Hkeep. revert Hkeep. induction Hsn as [|b t l lt Hb _ IH]; intros Hkeep; [constructor|]. constructor.
    + destruct (Hkeep b t ltac:(left) Hb) as (s & Hr). by exists s.
    + apply IH. intros b' t' Hb' Hs'. apply Hkeep; [by right|done].
Qed.

Lemma history_ok db table taken : history db table taken -> db_ok db table taken.
Proof.
  induction 1 as [|db table taken batch H IH Hops|db table taken H IH|db table taken i H IH].
  - constructor; [done| |constructor]. eexists. split; [done|]. exists emptyState. cbn [states open_]. rewrite lookup_insert_eq.
    split; [done|]. split; [apply emptyState_ok|done].
  - by apply write_ok.
  - destruct IH as [[Ho Hc] (a & Ha & Hs) Hsn]. unfold createSnapshot. rewrite Ho, Ha. simpl. constructor; [done| |].
    + exists a. done.
    + constructor; [|]; done.
  - destruct IH as [Ho Hs Hsn]. constructor; [done|done|]. cbn [snapshots]. clear - Hsn. revert i.
    induction Hsn as [|a t l lt Ha H IH]; intros [|i]; simpl; try constructor; try done. apply IH.
Qed.

(** A state that answers as a table does. *)
Record serves (state : MemoryState_) (table : Table) : Prop := {
  sv_get : forall key, (r ← ByteMap.find key (primary state); Some (recordBytes_ r, pr_secondaryKeys r)) =
    (c ← ByteMap.find key table; Some (c_value c, c_secondaryKeys c));
  sv_primary : forall start end_, scanPrimary state start end_ = Ok (primaryScan table start end_);
  sv_index : forall name start end_, scanIndex state name start end_ = Ok (DbContents.indexScan table name start end_)
}.

Lemma state_ok_serves state : state_ok state -> serves state (tableOf (primary state)).
Proof.
  intros H. constructor.
  - intros key. unfold tableOf. rewrite ByteMap.find_mapValues. by destruct (ByteMap.find key (primary state)).
  - intros start end_. by apply scanPrimary_eq.
  - intros name start end_. by apply scanIndex_eq.
Qed.

Lemma shows_serves db a table : shows db a table -> exists state, states db !! a = Some state /\ serves state table.
Proof. intros (state & H1 & H2 & <-). exists state. split; [done|by apply state_ok_serves]. Qed.

(** C7: The memory backend is a table with indexes, and its snapshots do not move.
    Whatever batches were written and snapshots taken and dropped since it was opened:
    a batch is refused, and nothing changes, exactly if it puts a blob reference, and
    else succeeds; the value and the secondary keys of every key are those the batches
    give, put by put and erase by erase; a scan of the primary keys or of any index
    within any bounds ends and gives the rows of the reference scans of that table; and
    every snapshot, although it shares its state with the database until the next
    write, still gives the rows of the table it was taken of. *)
Theorem memory_backend_is_a_map db table taken : history db table taken ->
  (forall batch, let '(status, db') := write batch db in
     if existsb isBlobPut (SwDbWriteBatch.operations_ batch)
     then SwDbStatus.code status = SwDbStatus.InvalidArgument /\ db' = db else status = SwDbStatus.success) /\
  (forall key, get db key =
     match ByteMap.find key table with
     | None => (SwDbStatus.mk SwDbStatus.NotFound "primary key not found", None)
     | Some c => (SwDbStatus.success, Some (c_value c, c_secondaryKeys c))
     end) /\
  (exists state, stateOf db = Some state /\ serves state table) /\
  Forall2 (fun a t => exists state, states db !! a = Some state /\ serves state t) (snapshots db) taken.
Proof.
  intros [[Ho Hc] (a & Ha & (state & Hs & Hserves)%shows_serves) Hsn]%history_ok. split; [|split; [|split]].
  - intros batch. unfold write. rewrite Ho, Hc, Ha. simpl. destruct (existsb isBlobPut _); [done|].
    by destruct (SwDbWriteBatch.isEmpty batch).
  - intros key. unfold get, stateOf. rewrite Ho, Ha. cbn [mbind option_bind]. rewrite Hs.
    pose proof (sv_get _ _ Hserves key) as Hg. destruct (ByteMap.find key (primary state)), (ByteMap.find key table); simpl in Hg; congruence.
  - exists state. split; [|done]. unfold stateOf. by rewrite Ha.
  - eapply Forall2_impl; [exact Hsn|]. apply shows_serves.
Qed.

End Manager.

(** *** Examples *)

Section Examples.

#[local] Existing Instance SwCrypto.addingEVP.

Definition exampleBatch1 : SwDbWriteBatch.t :=
  SwDbWriteBatch.put (str "bob") (str "two") [(str "city", [str "oslo"; str "rome"])]
    (SwDbWriteBatch.put (str "ann") (str "one") [(str "city", [str "rome"])] SwDbWriteBatch.empty).

Definition exampleBatch2 : SwDbWriteBatch.t :=
  SwDbWriteBatch.erase (str "ann") (SwDbWriteBatch.put (str "bob") (str "2") [(str "city", [str "rome"])] SwDbWriteBatch.empty).

Definition db0 : Db := open_ (mkDb false false ∅ None [] 1 0).
Definition db1 : Db := (createSnapshot (write exampleBatch1 db0).2).2.
Definition db2 : Db := (write exampleBatch2 db1).2.

Definition table1 : Table := plainBatch 1 exampleBatch1 [].
Definition table2 : Table := plainBatch 2 exampleBatch2 table1.

Lemma memory_backend_is_a_map_witness : history db2 table2 [table1] /\
  (forall batch, let '(status, db') := write batch db2 in
     if existsb isBlobPut (SwDbWriteBatch.operations_ batch)
     then SwDbStatus.code status = SwDbStatus.InvalidArgument /\ db' = db2 else status = SwDbStatus.success) /\
  (forall key, get db2 key =
     match ByteMap.find key table2 with
     | None => (SwDbStatus.mk SwDbStatus.NotFound "primary key not found", None)
     | Some c => (SwDbStatus.success, Some (c_value c, c_secondaryKeys c))
     end) /\
  (exists state, stateOf db2 = Some state /\ serves state table2) /\
  Forall2 (fun a t => exists state, states db2 !! a = Some state /\ serves state t) (snapshots db2) [table1].
Proof.
  assert (history db2 table2 [table1]) as H.
  { refine (wrote db1 table1 [table1] exampleBatch2 (took _ table1 [] (wrote db0 [] [] exampleBatch1 begun _)) _);
      repeat constructor. }
  split; [exact H|exact (memory_backend_is_a_map db2 table2 [table1] H)].
Defined.

(** The rows of an index before and after the second batch. *)
Example city_rows : exists state1 state2,
  (a ← head (snapshots db2); states db2 !! a) = Some state1 /\ stateOf db2 = Some state2 /\
  (rows ← scanIndex state1 (str "city") (str "p") []; Ok (map de_primaryKey rows)) = Ok [str "ann"; str "bob"] /\
  (rows ← scanIndex state2 (str "city") [] []; Ok (map de_value rows)) = Ok [str "2"].
Proof. eexists _, _. split; [vm_compute; reflexivity|]. split; [vm_compute; reflexivity|]. split; vm_compute; reflexivity. Qed.

End Examples.

End MemoryManager_.
