(* ===== verification/DbTable.v ===== *)
(** Sorted tables on disk, of the embedded database: BloomFilter_, TableWriter_ and
    TableHandle_ (src/src/core/storage/embeddeddb/SwEmbeddedDbBloomFilter.h,
    SwEmbeddedDbTableWriter.h and SwEmbeddedDbTable.h).

    A file is its bytes; opening, writing and mapping it succeed. *)
From Stdlib Require Import ZArith Lia Strings.Byte Sorting.
From stdpp Require Import base list strings numbers option.
From S2P Require Import Prelude SwString ByteMap DbCodec.

Import SwString.
Import DbCodec.

(** [SwList::isEmpty] *)
Definition listIsEmpty {A} (l : list A) : bool := match l with [] => true | _ => false end.

Module BloomFilter_.

Record t := mk { bytes_ : list byte; hashCount_ : Z }.

(** [BloomFilter_()] *)
Definition default_ : t := mk [] 6.

Definition initialize (keyCount : Z) : t :=
  let bitCount := Z.max 256 (mul64 keyCount 10) in
  mk (replicate (Z.to_nat (add64 bitCount 7 / 8)) x00) 6.

Definition assign (bytes : list byte) (hashCount : Z) : t := mk bytes hashCount.

Definition hash64_ (data : list byte) (seed : Z) : Z :=
  fold_left (fun h b => mul64 (Z.lxor h (b2z b)) 1099511628211) data seed.

(** The bit of the [i]th hash. *)
Definition bitOf (key : list byte) (bitCount i : Z) : Z :=
  let h1 := hash64_ key 1469598103934665603 in
  let h2 := hash64_ key 1099511628211 in
  add64 h1 (mul64 i h2) mod bitCount.

Definition byteAt (bytes : list byte) (i : Z) : Z := b2z (default x00 (bytes !! Z.to_nat i)).

Definition setBit (bytes : list byte) (bit : Z) : list byte :=
  <[Z.to_nat (bit / 8) := z2b (Z.lor (byteAt bytes (bit / 8)) (Z.shiftl 1 (bit mod 8)))]> bytes.

Definition testBit (bytes : list byte) (bit : Z) : bool :=
  negb (Z.land (byteAt bytes (bit / 8)) (Z.shiftl 1 (bit mod 8)) =? 0).

(** [0, 1, ... hashCount - 1] *)
Definition hashes (hashCount : Z) : list Z := seqZ 0 hashCount.

Definition add (key : list byte) (filter : t) : t :=
  let filter := if isEmpty (bytes_ filter) then initialize 1 else filter in
  let bitCount := mul64 (zlen (bytes_ filter)) 8 in
  mk (fold_left (fun bytes i => setBit bytes (bitOf key bitCount i)) (hashes (hashCount_ filter)) (bytes_ filter))
    (hashCount_ filter).

Definition mayContain (key : list byte) (filter : t) : bool :=
  if isEmpty (bytes_ filter) then true
  else
    let bitCount := mul64 (zlen (bytes_ filter)) 8 in
    forallb (fun i => testBit (bytes_ filter) (bitOf key bitCount i)) (hashes (hashCount_ filter)).

(** ** Facts *)

Lemma land_bit v k : 0 <= k -> (Z.land v (Z.shiftl 1 k) =? 0) = negb (Z.testbit v k).
Proof.
  intros Hk. destruct (Z.testbit v k) eqn:E; simpl.
  - apply Z.eqb_neq. intros H. apply (f_equal (fun z => Z.testbit z k)) in H.
    rewrite Z.land_spec, Z.shiftl_1_l, Z.pow2_bits_true, Z.bits_0, E in H by done. done.
  - apply Z.eqb_eq. apply Z.bits_inj'. intros i Hi. rewrite Z.land_spec, Z.shiftl_1_l, Z.bits_0, Z.pow2_bits_eqb by done.
    destruct (Z.eqb_spec k i) as [<-|]; [by rewrite E|by rewrite andb_false_r].
Qed.

Lemma testBit_spec bytes bit : 0 <= bit -> testBit bytes bit = Z.testbit (byteAt bytes (bit / 8)) (bit mod 8).
Proof.
  intros Hb. unfold testBit. rewrite land_bit by (apply Z.mod_pos_bound; lia). by rewrite negb_involutive.
Qed.

Lemma length_setBit bytes bit : length (setBit bytes bit) = length bytes.
Proof. apply length_insert. Qed.

Lemma byteAt_setBit bytes bit i : 0 <= bit < 8 * zlen bytes -> 0 <= i ->
  byteAt (setBit bytes bit) i =
    if bit / 8 =? i then Z.lor (byteAt bytes i) (Z.shiftl 1 (bit mod 8)) else byteAt bytes i.
Proof.
  intros Hb Hi. unfold byteAt at 1, setBit. assert (0 <= bit / 8 < zlen bytes) as Hq.
  { split; [apply Z.div_pos; lia|apply Z.div_lt_upper_bound; lia]. }
  destruct (Z.eqb_spec (bit / 8) i) as [<-|N].
  - rewrite list_lookup_insert_eq by lia. simpl. apply b2z_z2b_small.
    apply (lor_range _ _ 8); [done|unfold byteAt; apply b2z_range|].
    rewrite Z.shiftl_1_l. pose proof (Z.mod_pos_bound bit 8 ltac:(lia)). split; [lia|]. apply Z.pow_lt_mono_r; lia.
  - by rewrite list_lookup_insert_ne by lia.
Qed.

Lemma testBit_setBit bytes bit other : 0 <= bit < 8 * zlen bytes -> 0 <= other ->
  testBit bytes other = true \/ bit = other -> testBit (setBit bytes bit) other = true.
Proof.
  intros Hb Ho H. rewrite testBit_spec, byteAt_setBit by (done || apply Z.div_pos; lia). rewrite testBit_spec in H by done.
  pose proof (Z.mod_pos_bound bit 8 ltac:(lia)). pose proof (Z.mod_pos_bound other 8 ltac:(lia)).
  destruct (Z.eqb_spec (bit / 8) (other / 8)) as [E|N]; [|destruct H as [H|<-]; [done|lia]].
  rewrite Z.lor_spec, Z.shiftl_1_l. destruct H as [->|<-]; [done|]. by rewrite Z.pow2_bits_true, orb_true_r by lia.
Qed.

(** A filter with some bytes, that a count of 64 bits counts the bits of. *)
Definition ready (filter : t) : Prop := 0 < zlen (bytes_ filter) < 2 ^ 60.

Definition contains (key : list byte) (filter : t) : Prop :=
  forall i, i ∈ hashes (hashCount_ filter) -> testBit (bytes_ filter) (bitOf key (mul64 (zlen (bytes_ filter)) 8) i) = true.

Lemma mayContain_iff key filter : ready filter -> mayContain key filter = true <-> contains key filter.
Proof.
  intros [Hr _]. unfold mayContain, contains.
  assert (isEmpty (bytes_ filter) = false) as -> by (by destruct (bytes_ filter)). cbv zeta. rewrite forallb_forall. setoid_rewrite <- list_elem_of_In. done.
Qed.

Lemma bitOf_range key filter i : ready filter -> 0 <= bitOf key (mul64 (zlen (bytes_ filter)) 8) i < 8 * zlen (bytes_ filter).
Proof.
  intros [H1 H2]. unfold bitOf. rewrite (mul64_small (zlen (bytes_ filter))) by lia. rewrite (Z.mul_comm 8). apply Z.mod_pos_bound. lia.
Qed.

Lemma set_all key filter l : ready filter -> let bitCount := mul64 (zlen (bytes_ filter)) 8 in
  let bytes := fold_left (fun bytes i => setBit bytes (bitOf key bitCount i)) l (bytes_ filter) in
  length bytes = length (bytes_ filter) /\
  forall bit, 0 <= bit -> testBit (bytes_ filter) bit = true \/ (exists i, i ∈ l /\ bit = bitOf key bitCount i) -> testBit bytes bit = true.
Proof.
  intros Hr bitCount. cbv zeta.
  assert (forall i, 0 <= bitOf key bitCount i < 8 * zlen (bytes_ filter)) as Hb by (intros i; by apply bitOf_range).
  revert Hb. generalize (bytes_ filter). induction l as [|i l IH]; intros bytes Hb; simpl.
  - split; [done|]. intros bit Hbit [H|(i & Hi & _)]; [done|by apply elem_of_nil in Hi].
  - destruct (IH (setBit bytes (bitOf key bitCount i))) as [IH1 IH2]; [by rewrite length_setBit|].
    rewrite length_setBit in IH1. split; [done|]. intros bit Hbit H. apply IH2; [done|].
    destruct H as [H|(j & Hj & ->)]; [left; apply testBit_setBit; auto|].
    apply elem_of_cons in Hj as [->|Hj]; [left; apply testBit_setBit; auto|right; eauto].
Qed.

Lemma add_ready key filter : ready filter ->
  ready (add key filter) /\ contains key (add key filter) /\ (forall other, contains other filter -> contains other (add key filter)).
Proof.
  intros Hr. destruct (set_all key filter (hashes (hashCount_ filter)) Hr) as [H1 H2]. unfold add, contains, ready.
  assert (isEmpty (bytes_ filter) = false) as -> by (destruct Hr as [Hr _]; by destruct (bytes_ filter)). cbv zeta. cbn [bytes_ hashCount_].
  rewrite H1. split; [done|]. split.
  - intros i Hi. apply H2; [apply bitOf_range; done|]. right. eauto.
  - intros other Ho i Hi. apply H2; [apply bitOf_range; done|]. left. by apply Ho.
Qed.

Lemma initialize_ready keyCount : 0 <= keyCount < 2 ^ 32 -> ready (initialize keyCount).
Proof.
  intros H. unfold ready, initialize. cbn [bytes_]. rewrite length_replicate, mul64_small, add64_small by lia.
  pose proof (Z.div_le_mono (256 + 7) (Z.max 256 (keyCount * 10) + 7) 8 ltac:(lia) ltac:(lia)). change ((256 + 7) / 8) with 32 in *.
  pose proof (Z.div_lt_upper_bound (Z.max 256 (keyCount * 10) + 7) 8 (2 ^ 60) ltac:(lia) ltac:(lia)). lia.
Qed.

(** Every key put in is found again. *)
Lemma no_false_negative filter keys : ready filter ->
  let filter' := fold_left (fun filter key => add key filter) keys filter in
  ready filter' /\ (forall key, contains key filter \/ key ∈ keys -> mayContain key filter' = true).
Proof.
  revert filter. induction keys as [|k keys IH]; intros filter Hr; simpl.
  - split; [done|]. intros key [H|H]; [by apply mayContain_iff|by apply elem_of_nil in H].
  - destruct (add_ready k filter Hr) as (H1 & H2 & H3). destruct (IH (add k filter) H1) as [H4 H5]. split; [done|].
    intros key [H|[->|H]%elem_of_cons]; auto.
Qed.

End BloomFilter_.

Record BlockIndexEntry_ := mkBlockIndexEntry {
  bi_firstKey : list byte;
  bi_offset : Z;
  bi_bytes : Z
}.

Module TableWriter_.

Section Writer.

Context `{C : Miniz}.

(** [RandomAccessFile::writeAt]; a gap reads as zeros. *)
Definition writeAt (offset : Z) (data file : list byte) : list byte :=
  take (Z.to_nat offset) (file ++ replicate (Z.to_nat offset - length file) x00) ++ data ++
  drop (Z.to_nat (offset + zlen data)) file.

Definition truncate (bytes : Z) (file : list byte) : list byte :=
  take (Z.to_nat bytes) (file ++ replicate (Z.to_nat bytes - length file) x00).

(** The file with [offset] and [blocks]. *)
Record Output := mkOutput {
  file : list byte;
  offset : Z;
  blocks : list BlockIndexEntry_
}.

Definition flushBlock (firstKey blockPayload : list byte) (o : Output) : Output :=
  if isEmpty blockPayload then o
  else
    let frame := appendU32LE_ (wrap32 (zlen blockPayload)) [] in
    let frame := appendU32LE_ (crc32OfByteArray_ blockPayload) frame in
    let frame := frame ++ blockPayload in
    mkOutput (writeAt (offset o) frame (file o)) (add64 (offset o) (zlen frame))
      (blocks o ++ [mkBlockIndexEntry firstKey (offset o) (wrap32 (zlen frame))]).

Definition kBlockSize : Z := 64 * 1024.

(** What the loop over the records keeps. *)
Record Progress := mkProgress {
  output : Output;
  bloom : BloomFilter_.t;
  blockPayload : list byte;
  firstKey : list byte
}.

Definition writeRecord (p : Progress) (record : TableRecord_) : Progress :=
  let bloom := BloomFilter_.add (tr_userKey record) (bloom p) in
  let encoded := encodeTableRecord_ record in
  let '(output, blockPayload, firstKey) :=
    if negb (isEmpty (blockPayload p)) && (kBlockSize <? wrap32 (zlen (blockPayload p) + zlen encoded))
    then (flushBlock (firstKey p) (blockPayload p) (output p), [], [])
    else (output p, blockPayload p, firstKey p) in
  let firstKey := if isEmpty blockPayload then tr_userKey record else firstKey in
  mkProgress output bloom (blockPayload ++ encoded) firstKey.

Definition tableHeader (meta : TableMeta_) : list byte :=
  let header := kTableMagic_ in
  let header := appendU32LE_ 1 header in
  let header := appendU32LE_ (wrap32 (tm_kind meta)) header in
  let header := appendU64LE_ (tm_minSequence meta) header in
  let header := appendU64LE_ (tm_maxSequence meta) header in
  let header := appendU64LE_ (tm_recordCount meta) header in
  let header := appendU32LE_ (wrap32 (size (tm_indexName meta))) header in
  let header := appendU32LE_ kBlockSize header in
  header ++ tm_indexName meta.

Definition sparseIndex (blocks : list BlockIndexEntry_) : list byte :=
  fold_left (fun sparse entry =>
      appendU32LE_ (bi_bytes entry) (appendU64LE_ (bi_offset entry) (appendBytes_ (bi_firstKey entry) sparse)))
    blocks (appendU32LE_ (wrap32 (zlen blocks)) []).

Definition bloomSection (bloom : BloomFilter_.t) : list byte :=
  let bloomPayload := appendU32LE_ (BloomFilter_.hashCount_ bloom) [] in
  let bloomPayload := appendU32LE_ (wrap32 (zlen (BloomFilter_.bytes_ bloom))) bloomPayload in
  bloomPayload ++ BloomFilter_.bytes_ bloom.

Definition tableFooter (meta : TableMeta_) (sparseOffset bloomOffset : Z) : list byte :=
  let footer := kFooterMagic_ in
  let footer := appendU64LE_ sparseOffset footer in
  let footer := appendU64LE_ bloomOffset footer in
  let footer := appendU64LE_ (tm_maxSequence meta) footer in
  let footer := appendU64LE_ (tm_recordCount meta) footer in
  appendU32LE_ (wrap32 (tm_kind meta)) footer.

(** The file that replaces [finalPath]. *)
Definition writeTableFile (meta : TableMeta_) (records : list TableRecord_) : result (list byte) :=
  if listIsEmpty records then Err "cannot write empty table"
  else
    let header := tableHeader meta in
    let p := mkProgress (mkOutput (writeAt 0 header []) (zlen header) []) (BloomFilter_.initialize (zlen records)) [] [] in
    let p := fold_left writeRecord records p in
    let o := if isEmpty (blockPayload p) then output p else flushBlock (firstKey p) (blockPayload p) (output p) in
    let sparseOffset := offset o in
    let sparse := sparseIndex (blocks o) in
    let file := writeAt sparseOffset sparse (file o) in
    let bloomOffset := add64 sparseOffset (zlen sparse) in
    let bloomPayload := bloomSection (bloom p) in
    let file := writeAt bloomOffset bloomPayload file in
    let offset := add64 bloomOffset (zlen bloomPayload) in
    let footer := tableFooter meta sparseOffset bloomOffset in
    let file := writeAt offset footer file in
    let offset := add64 offset (zlen footer) in
    Ok (truncate offset file).

(** ** Facts *)

(** *** What a table file holds *)

Definition blockBytes (c : list TableRecord_) : list byte := concat (map tableBytes c).

Definition blockFrame (c : list TableRecord_) : list byte :=
  le_bytes 4 (zlen (blockBytes c)) ++ le_bytes 4 (crc32Bytes_ (blockBytes c)) ++ blockBytes c.

Definition firstKeyOf (c : list TableRecord_) : list byte := match c with r :: _ => tr_userKey r | [] => [] end.

Fixpoint entriesOf (off : Z) (cs : list (list TableRecord_)) : list BlockIndexEntry_ :=
  match cs with
  | c :: cs => mkBlockIndexEntry (firstKeyOf c) off (zlen (blockFrame c)) :: entriesOf (off + zlen (blockFrame c)) cs
  | [] => []
  end.

Definition frames (cs : list (list TableRecord_)) : list byte := concat (map blockFrame cs).

Definition entryBytes (e : BlockIndexEntry_) : list byte :=
  counted (bi_firstKey e) ++ le_bytes 8 (bi_offset e) ++ le_bytes 4 (bi_bytes e).

Definition sparseBytes (entries : list BlockIndexEntry_) : list byte :=
  le_bytes 4 (zlen entries) ++ concat (map entryBytes entries).

Definition bloomBytes (bloom : BloomFilter_.t) : list byte :=
  le_bytes 4 (BloomFilter_.hashCount_ bloom) ++ le_bytes 4 (zlen (BloomFilter_.bytes_ bloom)) ++ BloomFilter_.bytes_ bloom.

Definition headerBytes (meta : TableMeta_) : list byte :=
  kTableMagic_ ++ le_bytes 4 1 ++ le_bytes 4 (tm_kind meta) ++ le_bytes 8 (tm_minSequence meta) ++
  le_bytes 8 (tm_maxSequence meta) ++ le_bytes 8 (tm_recordCount meta) ++ le_bytes 4 (zlen (tm_indexName meta)) ++
  le_bytes 4 kBlockSize ++ tm_indexName meta.

Definition footerBytes (meta : TableMeta_) (sparseOffset bloomOffset : Z) : list byte :=
  kFooterMagic_ ++ le_bytes 8 sparseOffset ++ le_bytes 8 bloomOffset ++ le_bytes 8 (tm_maxSequence meta) ++
  le_bytes 8 (tm_recordCount meta) ++ le_bytes 4 (tm_kind meta).

Definition tableFile (meta : TableMeta_) (cs : list (list TableRecord_)) (bloom : BloomFilter_.t) : list byte :=
  let blocks := headerBytes meta ++ frames cs in
  let entries := entriesOf (zlen (headerBytes meta)) cs in
  let sparseOffset := zlen blocks in
  let bloomOffset := sparseOffset + zlen (sparseBytes entries) in
  blocks ++ sparseBytes entries ++ bloomBytes bloom ++ footerBytes meta sparseOffset bloomOffset.

Definition meta_ok (meta : TableMeta_) : Prop :=
  0 <= tm_kind meta < 2 ^ 31 /\ is_u64 (tm_minSequence meta) /\ is_u64 (tm_maxSequence meta) /\
  is_u64 (tm_recordCount meta) /\ short (tm_indexName meta).

(** Records a table is written of: their encodings under 2 GiB each. *)
Definition recordSize_ok (r : TableRecord_) : Prop := tableRecord_ok r /\ zlen (tableBytes r) < 2 ^ 31.

Definition records_ok (records : list TableRecord_) : Prop :=
  Forall recordSize_ok records /\ zlen records < 2 ^ 31 /\ zlen (blockBytes records) < 2 ^ 60.

Lemma blockBytes_app a b : blockBytes (a ++ b) = blockBytes a ++ blockBytes b.
Proof. unfold blockBytes. by rewrite map_app, concat_app. Qed.

Lemma blockBytes_single r : blockBytes [r] = tableBytes r.
Proof. unfold blockBytes. simpl. apply app_nil_r. Qed.

Lemma frames_app a b : frames (a ++ b) = frames a ++ frames b.
Proof. unfold frames. by rewrite map_app, concat_app. Qed.

Lemma entriesOf_app off a b : entriesOf off (a ++ b) = entriesOf off a ++ entriesOf (off + zlen (frames a)) b.
Proof.
  revert off. induction a as [|c a IH]; intros off; simpl; [by rewrite Z.add_0_r|].
  rewrite IH. unfold frames. simpl. rewrite zlen_app. by rewrite Z.add_assoc.
Qed.

Lemma frames_snoc cs c : frames (cs ++ [c]) = frames cs ++ blockFrame c.
Proof. rewrite frames_app. unfold frames at 2. simpl. by rewrite app_nil_r. Qed.

Lemma entriesOf_snoc off cs c :
  entriesOf off (cs ++ [c]) = entriesOf off cs ++ [mkBlockIndexEntry (firstKeyOf c) (off + zlen (frames cs)) (zlen (blockFrame c))].
Proof. by rewrite entriesOf_app. Qed.

Lemma length_entriesOf off cs : length (entriesOf off cs) = length cs.
Proof. revert off. induction cs as [|c cs IH]; intros off; simpl; [done|]. by rewrite IH. Qed.

Lemma length_tableBytes r : zlen (tableBytes r) = 20 + zlen (tr_userKey r) + zlen (tr_payload r).
Proof. unfold tableBytes. rewrite !zlen_app, !length_counted, !length_le_bytes. lia. Qed.

Lemma length_blockFrame c : zlen (blockFrame c) = 8 + zlen (blockBytes c).
Proof. unfold blockFrame. rewrite !zlen_app, !length_le_bytes. lia. Qed.

Lemma blockBytes_least c : 20 * zlen c <= zlen (blockBytes c).
Proof.
  induction c as [|r c IH]; [done|]. unfold blockBytes in *. simpl. rewrite zlen_app, length_tableBytes. simpl length. lia.
Qed.

Lemma length_frames cs : zlen (frames cs) = 8 * zlen cs + zlen (blockBytes (concat cs)).
Proof.
  induction cs as [|c cs IH]; [done|]. unfold frames in *. simpl concat at 1. simpl map. rewrite zlen_app, IH, length_blockFrame.
  simpl concat. rewrite blockBytes_app, zlen_app. simpl length. lia.
Qed.

(** *** Writing *)

Lemma writeAt_end data file : writeAt (zlen file) data file = file ++ data.
Proof.
  unfold writeAt. rewrite Nat2Z.id, Nat.sub_diag, app_nil_r, take_ge, drop_ge by lia. by rewrite app_nil_r.
Qed.

Lemma truncate_all file : truncate (zlen file) file = file.
Proof. unfold truncate. rewrite Nat2Z.id, Nat.sub_diag, app_nil_r. by apply take_ge. Qed.

Lemma tableHeader_eq meta : meta_ok meta -> tableHeader meta = headerBytes meta.
Proof.
  intros (H1 & H2 & H3 & H4 & H5). unfold tableHeader, headerBytes, wrap32. rewrite !appendU32LE_eq, !appendU64LE_eq.
  unfold short, size in *. rewrite !Z.mod_small by lia. by rewrite <- !app_assoc.
Qed.

Lemma tableFooter_eq meta a b : meta_ok meta -> tableFooter meta a b = footerBytes meta a b.
Proof.
  intros (H1 & H2 & H3 & H4 & H5). unfold tableFooter, footerBytes, wrap32. rewrite !appendU32LE_eq, !appendU64LE_eq.
  rewrite !Z.mod_small by lia. by rewrite <- !app_assoc.
Qed.

Definition entry_ok (e : BlockIndexEntry_) : Prop := short (bi_firstKey e) /\ is_u64 (bi_offset e) /\ u32_ok (bi_bytes e).

Lemma sparseIndex_eq entries : Forall entry_ok entries -> zlen entries < 2 ^ 32 -> sparseIndex entries = sparseBytes entries.
Proof.
  intros He Hl. unfold sparseIndex, sparseBytes, wrap32. rewrite Z.mod_small, appendU32LE_eq by lia.
  rewrite (fold_append (fun e s => appendU32LE_ (bi_bytes e) (appendU64LE_ (bi_offset e) (appendBytes_ (bi_firstKey e) s))) entryBytes entry_ok);
    [done| |done].
  intros e out (H1 & _). rewrite appendU32LE_eq, appendU64LE_eq, appendBytes_eq by done. unfold entryBytes. by rewrite <- !app_assoc.
Qed.

Lemma bloomSection_eq bloom : zlen (BloomFilter_.bytes_ bloom) < 2 ^ 32 -> bloomSection bloom = bloomBytes bloom.
Proof.
  intros H. unfold bloomSection, bloomBytes, wrap32. rewrite Z.mod_small, !appendU32LE_eq by lia. by rewrite <- !app_assoc.
Qed.

Definition chunk_ok (c : list TableRecord_) : Prop := c <> [] /\ zlen (blockBytes c) < 2 ^ 32 - 8.

Lemma entries_all_ok off cs records : concat cs = records -> records_ok records -> Forall chunk_ok cs -> 0 <= off -> off + zlen (frames cs) < 2 ^ 63 ->
  Forall entry_ok (entriesOf off cs).
Proof.
  intros <- [Hr _] Hc H0. revert off H0. induction Hc as [|c cs [Hn Hl] Hc IH]; intros off H0 Ho; simpl; [done|].
  simpl in Hr. apply Forall_app in Hr as [Hr1 Hr2]. unfold frames in Ho. simpl in Ho. rewrite zlen_app in Ho. fold (frames cs) in Ho.
  pose proof (length_blockFrame c). pose proof (Nat2Z.is_nonneg (length (frames cs))). constructor; [|apply IH; try done; lia].
  destruct c as [|r c]; [done|]. apply Forall_cons_1 in Hr1 as [[(Hk & _) _] _]. repeat split; simpl; try lia. done.
Qed.

(** *** The loop over the records *)

Record loop_inv (meta : TableMeta_) (start : BloomFilter_.t) (done_ : list TableRecord_) (p : Progress) cs cur : Prop := {
  li_done : done_ = concat cs ++ cur;
  li_cur : cur = [] -> done_ = [];
  li_chunks : Forall chunk_ok cs;
  li_file : file (output p) = headerBytes meta ++ frames cs;
  li_offset : offset (output p) = zlen (headerBytes meta ++ frames cs);
  li_blocks : blocks (output p) = entriesOf (zlen (headerBytes meta)) cs;
  li_payload : blockPayload p = blockBytes cur;
  li_size : zlen (blockBytes cur) < 2 ^ 31;
  li_first : cur <> [] -> firstKey p = firstKeyOf cur;
  li_bloom : bloom p = fold_left (fun filter key => BloomFilter_.add key filter) (map tr_userKey done_) start
}.

Lemma flush_chunk meta cs cur o key : file o = headerBytes meta ++ frames cs -> offset o = zlen (headerBytes meta ++ frames cs) ->
  blocks o = entriesOf (zlen (headerBytes meta)) cs -> chunk_ok cur -> key = firstKeyOf cur ->
  zlen (headerBytes meta ++ frames (cs ++ [cur])) < 2 ^ 64 ->
  flushBlock key (blockBytes cur) o =
    mkOutput (headerBytes meta ++ frames (cs ++ [cur])) (zlen (headerBytes meta ++ frames (cs ++ [cur])))
      (entriesOf (zlen (headerBytes meta)) (cs ++ [cur])).
Proof.
  intros Hf Ho Hb [Hn Hl] -> Ht. unfold flushBlock. pose proof (blockBytes_least cur) as Hc.
  assert (blockBytes cur <> []) as Hne by (intros E; rewrite E in Hc; destruct cur; [done|simpl in Hc; lia]).
  destruct (isEmpty (blockBytes cur)) eqn:E; [by destruct (blockBytes cur)|]. clear E.
  rewrite !appendU32LE_eq, app_nil_l. pose proof (length_blockFrame cur) as Hbf.
  assert (crc32OfByteArray_ (blockBytes cur) = crc32Bytes_ (blockBytes cur)) as -> by (by destruct (blockBytes cur)).
  assert ((le_bytes 4 (wrap32 (zlen (blockBytes cur))) ++ le_bytes 4 (crc32Bytes_ (blockBytes cur))) ++ blockBytes cur = blockFrame cur) as ->
    by (unfold blockFrame, wrap32; by rewrite Z.mod_small, <- app_assoc by lia).
  rewrite Hf, Ho, Hb, writeAt_end. rewrite frames_snoc, entriesOf_snoc, app_assoc in *. rewrite (zlen_app (_ ++ _) (blockFrame cur)) in *.
  rewrite add64_small by lia. unfold wrap32. rewrite Z.mod_small by lia. by rewrite (zlen_app (headerBytes meta)).
Qed.

Lemma write_record meta start done_ p cs cur r : recordSize_ok r -> loop_inv meta start done_ p cs cur ->
  zlen (headerBytes meta ++ frames (cs ++ [cur])) < 2 ^ 64 ->
  exists cs' cur', loop_inv meta start (done_ ++ [r]) (writeRecord p r) cs' cur'.
Proof.
  intros [Hr Hrl] [] Ht. unfold writeRecord. rewrite encodeTableRecord_eq, li_payload0 by done.
  assert (isEmpty (blockBytes cur) = match cur with [] => true | _ => false end) as Hem.
  { pose proof (blockBytes_least cur). destruct cur as [|r' cur]; [done|]. destruct (blockBytes (r' :: cur)); [simpl in *; lia|done]. }
  rewrite Hem. unfold wrap32. rewrite Z.mod_small by lia. destruct cur as [|r' cur].
  - (* the first record *) assert (cs = []) as -> by (specialize (li_cur0 eq_refl); subst done_; destruct cs as [|c cs]; [done|];
      apply Forall_cons_1 in li_chunks0 as [[Hn _] _]; rewrite app_nil_r in li_cur0; by destruct c).
    exists [], [r]. rewrite li_cur0 by done. split; simpl; try done.
    + by rewrite blockBytes_single.
    + by rewrite blockBytes_single.
    + by rewrite li_bloom0, li_cur0 by done.
  - set (c := r' :: cur) in *. simpl negb. cbn [andb]. destruct (Z.ltb_spec kBlockSize (zlen (blockBytes c) + zlen (tableBytes r))) as [Hgt|Hle].
    + exists (cs ++ [c]), [r].
      assert (chunk_ok c) as Hck by (split; [done|lia]).
      rewrite (flush_chunk meta cs c) by (done || by apply li_first0). split; simpl; try done.
      * rewrite concat_app. simpl. by rewrite app_nil_r, li_done0.
      * apply Forall_app. split; [done|]. by apply Forall_singleton.
      * by rewrite blockBytes_single.
      * by rewrite blockBytes_single.
      * by rewrite map_app, fold_left_app, <- li_bloom0.
    + exists cs, (c ++ [r]). rewrite Hem. split; simpl; try done.
      * by rewrite li_done0, <- app_assoc.
      * by rewrite app_comm_cons, blockBytes_app, blockBytes_single.
      * rewrite app_comm_cons, blockBytes_app, blockBytes_single, zlen_app. fold c. unfold kBlockSize in *. lia.
      * intros _. by rewrite li_first0.
      * by rewrite map_app, fold_left_app, <- li_bloom0.
Qed.

Lemma chunks_count cs : Forall chunk_ok cs -> zlen cs <= zlen (concat cs).
Proof.
  induction 1 as [|c cs [Hn _] _ IH]; [done|]. simpl concat. rewrite zlen_app. destruct c; [done|]. simpl length in *. lia.
Qed.

Lemma length_header meta : meta_ok meta -> zlen (headerBytes meta) = 48 + zlen (tm_indexName meta).
Proof. intros _. unfold headerBytes. rewrite !zlen_app, !length_le_bytes. change (zlen kTableMagic_) with 8. lia. Qed.

Lemma file_so_far meta cs : meta_ok meta -> Forall chunk_ok cs -> records_ok (concat cs) ->
  zlen (headerBytes meta ++ frames cs) < 2 ^ 62.
Proof.
  intros Hm Hc (_ & Hn & Hl). rewrite zlen_app, length_header, length_frames by done. pose proof (chunks_count cs Hc).
  destruct Hm as (_ & _ & _ & _ & Hs). unfold short in Hs. lia.
Qed.

Lemma records_ok_front a b : records_ok (a ++ b) -> records_ok a.
Proof.
  intros (H1 & H2 & H3). rewrite zlen_app in H2. rewrite blockBytes_app, zlen_app in H3. apply Forall_app in H1 as [H1 _].
  split; [done|]. lia.
Qed.

Lemma write_records meta start records done_ p cs cur : meta_ok meta -> records_ok (done_ ++ records) -> loop_inv meta start done_ p cs cur ->
  exists cs' cur', loop_inv meta start (done_ ++ records) (fold_left writeRecord records p) cs' cur'.
Proof.
  intros Hm. revert done_ p cs cur. induction records as [|r records IH]; intros done_ p cs cur Ho Hi; simpl.
  - rewrite app_nil_r. eauto.
  - assert (recordSize_ok r) as Hr by (destruct Ho as [Ho _]; apply Forall_app in Ho as [_ Ho]; by apply Forall_cons_1 in Ho as [? _]).
    destruct (write_record meta start done_ p cs cur r Hr Hi) as (cs' & cur' & Hi').
    + destruct Hi as [Hd Hcur Hc _ _ _ _ Hsz _ _]. rewrite frames_snoc, app_assoc, zlen_app, length_blockFrame.
      apply records_ok_front in Ho. pose proof Ho as Ho'. rewrite Hd in Ho'. apply records_ok_front in Ho'.
      pose proof (file_so_far meta cs Hm Hc Ho'). lia.
    + rewrite (app_assoc done_ [r] records) in * || (rewrite (cons_middle r done_ records), app_assoc in *). by apply (IH (done_ ++ [r]) _ cs' cur').
Qed.

Definition bloomOf (records : list TableRecord_) : BloomFilter_.t :=
  fold_left (fun filter key => BloomFilter_.add key filter) (map tr_userKey records) (BloomFilter_.initialize (zlen records)).

Lemma bloom_size l filter : BloomFilter_.ready filter ->
  let filter' := fold_left (fun filter key => BloomFilter_.add key filter) l filter in
  zlen (BloomFilter_.bytes_ filter') = zlen (BloomFilter_.bytes_ filter) /\ BloomFilter_.hashCount_ filter' = BloomFilter_.hashCount_ filter.
Proof.
  revert filter. induction l as [|k l IH]; intros filter Hr; simpl; [done|].
  destruct (BloomFilter_.add_ready k filter Hr) as [Hr' _]. destruct (IH _ Hr') as [-> ->].
  destruct (BloomFilter_.set_all k filter (BloomFilter_.hashes (BloomFilter_.hashCount_ filter)) Hr) as [H1 _].
  unfold BloomFilter_.add. assert (isEmpty (BloomFilter_.bytes_ filter) = false) as ->
    by (destruct Hr as [Hr _]; by destruct (BloomFilter_.bytes_ filter)).
  cbn [BloomFilter_.bytes_ BloomFilter_.hashCount_]. split; [by rewrite H1|done].
Qed.

Lemma bloomOf_ok records : zlen records < 2 ^ 31 ->
  BloomFilter_.ready (bloomOf records) /\ zlen (BloomFilter_.bytes_ (bloomOf records)) < 2 ^ 32 /\
  BloomFilter_.hashCount_ (bloomOf records) = 6 /\
  forall r, r ∈ records -> BloomFilter_.mayContain (tr_userKey r) (bloomOf records) = true.
Proof.
  intros Hn. pose proof (BloomFilter_.initialize_ready (zlen records) ltac:(lia)) as Hi.
  destruct (BloomFilter_.no_false_negative _ (map tr_userKey records) Hi) as [Hr Hc].
  destruct (bloom_size (map tr_userKey records) _ Hi) as [Hs Hh]. fold (bloomOf records) in *. split; [done|]. split; [|split; [done|]].
  - rewrite Hs. unfold BloomFilter_.initialize. cbn [BloomFilter_.bytes_]. rewrite length_replicate, mul64_small, add64_small by lia.
    pose proof (Z.div_lt_upper_bound (Z.max 256 (zlen records * 10) + 7) 8 (2 ^ 32) ltac:(lia) ltac:(lia)).
    pose proof (Z.div_pos (Z.max 256 (zlen records * 10) + 7) 8 ltac:(lia) ltac:(lia)). lia.
  - intros r Hin. apply Hc. right. by apply list_elem_of_fmap_2.
Qed.

Lemma length_sparse cs off : Forall chunk_ok cs -> zlen (sparseBytes (entriesOf off cs)) <= 4 + zlen (blockBytes (concat cs)).
Proof.
  intros Hc. unfold sparseBytes. rewrite zlen_app, length_le_bytes. revert off.
  induction Hc as [|c cs [Hn _] _ IH]; intros off; [simpl; lia|]. simpl entriesOf. simpl map. simpl concat. rewrite zlen_app, blockBytes_app, zlen_app.
  specialize (IH (off + zlen (blockFrame c))). destruct c as [|r c]; [done|]. unfold entryBytes at 1. simpl.
  rewrite !zlen_app, length_counted, !length_le_bytes. unfold blockBytes at 1. simpl. rewrite zlen_app, length_tableBytes. lia.
Qed.

(** What [writeTableFile] writes: the records in order, cut into blocks. *)
Lemma write_table meta records : meta_ok meta -> records_ok records -> records <> [] ->
  exists cs, concat cs = records /\ Forall chunk_ok cs /\ writeTableFile meta records = Ok (tableFile meta cs (bloomOf records)) /\
    zlen (tableFile meta cs (bloomOf records)) < 2 ^ 63.
Proof.
  intros Hm Hr Hne.
  set (p0 := mkProgress (mkOutput (headerBytes meta) (zlen (headerBytes meta)) []) (BloomFilter_.initialize (zlen records)) [] []).
  assert (loop_inv meta (BloomFilter_.initialize (zlen records)) [] p0 [] []) as Hi0.
  { split; try done; simpl; by rewrite app_nil_r. }
  destruct (write_records meta _ records [] p0 [] [] Hm Hr Hi0) as (cs & cur & [Hd Hcur Hck Hf Ho Hb Hp Hsz Hfk Hbl]). cbn [app] in *.
  set (p := fold_left writeRecord records p0) in *. assert (cur <> []) as Hcn by (intros E; by apply Hne, Hcur).
  assert (chunk_ok cur) as Hcc by (split; [done|lia]).
  assert (Forall chunk_ok (cs ++ [cur])) as Hall by (apply Forall_app; split; [done|by apply Forall_singleton]).
  assert (concat (cs ++ [cur]) = records) as Hcat by (rewrite concat_app, Hd; simpl; by rewrite app_nil_r).
  assert (records_ok (concat (cs ++ [cur]))) as Hrc by (by rewrite Hcat).
  pose proof (file_so_far meta _ Hm Hall Hrc) as Hsize. exists (cs ++ [cur]). split; [done|]. split; [done|].
  destruct (bloomOf_ok records) as (_ & Hbs & Hh & _); [by destruct Hr as (_ & ? & _)|].
  pose proof (length_sparse (cs ++ [cur]) (zlen (headerBytes meta)) Hall) as Hsp. rewrite Hcat in Hsp.
  assert (zlen (bloomBytes (bloomOf records)) < 2 ^ 33) as Hbb by (unfold bloomBytes; rewrite !zlen_app, !length_le_bytes; lia).
  assert (zlen (blockBytes records) < 2 ^ 60) as Hrb by (by destruct Hr as (_ & _ & ?)).
  assert (forall a b, zlen (footerBytes meta a b) = 44) as Hfb.
  { intros a b. unfold footerBytes. rewrite !zlen_app, !length_le_bytes. done. }
  assert (Forall entry_ok (entriesOf (zlen (headerBytes meta)) (cs ++ [cur]))) as He.
  { apply (entries_all_ok _ _ records Hcat Hr Hall); [lia|]. rewrite <- zlen_app. lia. }
  split.
  - unfold writeTableFile. assert (listIsEmpty records = false) as -> by (by destruct records).
    rewrite tableHeader_eq by done. replace (writeAt 0 (headerBytes meta) []) with (headerBytes meta) by (symmetry; apply (writeAt_end _ [])).
    fold p0. fold p. rewrite Hp. assert (isEmpty (blockBytes cur) = false) as ->.
    { pose proof (blockBytes_least cur). destruct cur; [done|]. by destruct (blockBytes _); [simpl in *; lia|]. }
    rewrite (flush_chunk meta cs cur) by (done || (by apply Hfk) || lia). cbn [file offset blocks].
    rewrite sparseIndex_eq by (rewrite ?length_entriesOf; try done; pose proof (chunks_count _ Hall) as Hcnt; rewrite Hcat in Hcnt;
      destruct Hr as (_ & Hn & _); lia).
    rewrite Hbl. fold (bloomOf records). rewrite bloomSection_eq, tableFooter_eq by done.
    unfold tableFile. set (A := headerBytes meta ++ frames (cs ++ [cur])) in *. set (S_ := sparseBytes _) in *. set (L := bloomBytes _) in *.
    rewrite writeAt_end, (add64_small (zlen A) (zlen S_)) by lia. set (F := footerBytes _ _ _). specialize (Hfb (zlen A) (zlen A + zlen S_)). fold F in Hfb.
    rewrite (add64_small (zlen A + _) (zlen L)), (add64_small (zlen A + _ + _) (zlen F)), <- (zlen_app A), writeAt_end by lia.
    rewrite <- (zlen_app _ L), writeAt_end, <- (zlen_app _ F), truncate_all. by rewrite <- !app_assoc.
  - unfold tableFile. rewrite (zlen_app (_ ++ _) (_ ++ _)), (zlen_app (sparseBytes _)), (zlen_app (bloomBytes _)), Hfb. lia.
Qed.

End Writer.

End TableWriter_.

Module TableHandle_.

Record t := mk {
  mapped_ : list byte;
  blocks_ : list BlockIndexEntry_;
  bloom_ : BloomFilter_.t;
  kind_ : Z;
  minSequence_ : Z;
  maxSequence_ : Z;
  recordCount_ : Z;
  indexName_ : list byte;
  minUserKey_ : list byte;
  maxUserKey_ : list byte
}.

Section Handle.

Context `{C : Miniz}.

Definition outside : string := "a read outside the mapped file".

(** What a cursor from [from] to [to] reads of the file.  The code does not compare
    these with its size: where they pass it, the reads are outside the mapping. *)
Definition window (file : list byte) (from to : Z) : result (list byte) :=
  if to <=? from then Ok []
  else if to <=? zlen file then Ok (zslice file from (to - from))
  else Err outside.

Definition orCorrupt {A} (message : string) (o : option A) : result A :=
  match o with Some a => Ok a | None => Err message end.

Fixpoint sparse_loop (blockCount : nat) (blocks : list BlockIndexEntry_) (cur : list byte) : option (list BlockIndexEntry_) :=
  match blockCount with
  | O => Some blocks
  | S blockCount =>
      '(firstKey, cur) ← readBytes_ cur;
      '(offset, cur) ← readU64LE_ cur;
      '(bytes, cur) ← readU32LE_ cur;
      sparse_loop blockCount (blocks ++ [mkBlockIndexEntry firstKey offset bytes]) cur
  end.

Definition parseSparseIndex_ (file : list byte) (sparseOffset sparseEnd : Z) : result (list BlockIndexEntry_) :=
  cur ← window file sparseOffset sparseEnd;
  '(blockCount, cur) ← orCorrupt "invalid sparse index" (readU32LE_ cur);
  orCorrupt "invalid sparse entry" (sparse_loop (Z.to_nat blockCount) [] cur).

Definition parseBloom_ (file : list byte) (bloomOffset bloomEnd : Z) : result BloomFilter_.t :=
  cur ← window file bloomOffset bloomEnd;
  orCorrupt "invalid bloom section" (
    '(hashCount, cur) ← readU32LE_ cur;
    '(byteCount, cur) ← readU32LE_ cur;
    if zlen cur <? byteCount then None
    else Some (BloomFilter_.assign (take (Z.to_nat byteCount) cur) hashCount)).

(** The checksum and the payload of a block; [None] where the code returns [false]. *)
Definition locateBlockPayload_ (file : list byte) (block : BlockIndexEntry_) : result (option (Z * list byte)) :=
  if zlen file <? add64 (bi_offset block) (bi_bytes block) then Ok None
  else
    cur ← window file (bi_offset block) (bi_offset block + bi_bytes block);
    Ok ('(payloadBytes, cur) ← readU32LE_ cur;
        '(crc, cur) ← readU32LE_ cur;
        if zlen cur <? payloadBytes then None else Some (crc, take (Z.to_nat payloadBytes) cur)).

Fixpoint validateBlocks_ (file : list byte) (blocks : list BlockIndexEntry_) : result unit :=
  match blocks with
  | [] => Ok tt
  | block :: blocks =>
      located ← locateBlockPayload_ file block;
      '(crc, payload) ← orCorrupt "invalid table block header" located;
      if negb (crc32Bytes_ payload =? crc) then Err "table block checksum mismatch"
      else validateBlocks_ file blocks
  end.

(** Each turn reads a length of four bytes at least. *)
Fixpoint decodeBlock_loop (fuel : nat) (outRecords : list TableRecord_) (payloadCur : list byte) : result (option (list TableRecord_)) :=
  match fuel with
  | O => NoFuel
  | S fuel =>
      if isEmpty payloadCur then Ok (Some outRecords)
      else
        match decodeTableRecord_ payloadCur with
        | None => Ok None
        | Some (record, payloadCur) => decodeBlock_loop fuel (outRecords ++ [record]) payloadCur
        end
  end.

Definition decodeBlock_ (file : list byte) (block : BlockIndexEntry_) : result (option (list TableRecord_)) :=
  located ← locateBlockPayload_ file block;
  match located with
  | None => Ok None
  | Some (_, payload) => decodeBlock_loop (S (length payload)) [] payload
  end.

(** [minUserKey_] and [maxUserKey_]. *)
Definition resolveKeyRange_ (file : list byte) (blocks : list BlockIndexEntry_) : result (list byte * list byte) :=
  match head blocks, list.last blocks with
  | Some first, Some lastBlock =>
      decoded ← decodeBlock_ file lastBlock;
      records ← orCorrupt "failed to decode last table block" decoded;
      Ok (bi_firstKey first, match list.last records with Some record => tr_userKey record | None => [] end)
  | _, _ => Ok ([], [])
  end.

Definition kFooterBytes : Z := 44.

(** The fields after the magic: kind, least and greatest sequence, count, index. *)
Definition readHeader (cur : list byte) : option (Z * Z * Z * Z * list byte) :=
  '(version, cur) ← readU32LE_ cur;
  '(kind, cur) ← readU32LE_ cur;
  '(minSequence, cur) ← readU64LE_ cur;
  '(maxSequence, cur) ← readU64LE_ cur;
  '(recordCount, cur) ← readU64LE_ cur;
  '(indexNameLen, cur) ← readU32LE_ cur;
  '(blockSize, cur) ← readU32LE_ cur;
  if negb (version =? 1) || (zlen cur <? indexNameLen) then None
  else Some (kind, minSequence, maxSequence, recordCount, take (Z.to_nat indexNameLen) cur).

(** [sparseOffset] and [bloomOffset] *)
Definition readFooter (kind_ maxSequence_ recordCount_ : Z) (footer : list byte) : option (Z * Z) :=
  '(sparseOffset, footer) ← readU64LE_ footer;
  '(bloomOffset, footer) ← readU64LE_ footer;
  '(footerMaxSeq, footer) ← readU64LE_ footer;
  '(footerRecordCount, footer) ← readU64LE_ footer;
  '(footerKind, footer) ← readU32LE_ footer;
  if negb (footerMaxSeq =? maxSequence_) || negb (footerRecordCount =? recordCount_) ||
     negb (footerKind =? wrap32 kind_) then None
  else Some (sparseOffset, bloomOffset).

Definition parse_ (file : list byte) : result t :=
  if zlen file <? kFooterBytes then Err "table too small"
  else if negb (startsWith kTableMagic_ file) then Err "invalid table magic"
  else
    '(kind, minSequence, maxSequence, recordCount, indexName) ← orCorrupt "invalid table header" (readHeader (drop 8 file));
    let footer := drop (Z.to_nat (zlen file - kFooterBytes)) file in
    if negb (startsWith kFooterMagic_ footer) then Err "invalid table footer"
    else
      '(sparseOffset, bloomOffset) ←
        orCorrupt "table footer mismatch" (readFooter (to_int kind) maxSequence recordCount (drop 8 footer));
      blocks ← parseSparseIndex_ file sparseOffset bloomOffset;
      bloom ← parseBloom_ file bloomOffset (zlen file - kFooterBytes);
      validateBlocks_ file blocks;;
      '(minUserKey, maxUserKey) ← resolveKeyRange_ file blocks;
      Ok (mk file blocks bloom (to_int kind) minSequence maxSequence recordCount indexName minUserKey maxUserKey).

(** [std::memcmp] of as many bytes of each. *)
Definition memcmp (a b : list byte) : Z := if before a b then -1 else if before b a then 1 else 0.

Definition keyCompare (recordKey key : list byte) : Z :=
  let sharedBytes := Nat.min (length recordKey) (length key) in
  let keyCompare := memcmp (take sharedBytes recordKey) (take sharedBytes key) in
  if keyCompare =? 0 then
    if zlen recordKey <? zlen key then -1 else if zlen key <? zlen recordKey then 1 else keyCompare
  else keyCompare.

Fixpoint scanBlock_loop (fuel : nat) (key payloadCur : list byte) : result (option TableRecord_) :=
  match fuel with
  | O => NoFuel
  | S fuel =>
      if isEmpty payloadCur then Ok None
      else
        match readBytes_ payloadCur with
        | None => Ok None
        | Some (recordKey, payloadCur) =>
            let keyCompare := keyCompare recordKey key in
            match
              '(sequence, cur) ← readU64LE_ payloadCur;
              '(flags, cur) ← readU32LE_ cur;
              '(payload, cur) ← readBytes_ cur;
              Some (sequence, flags, payload, cur)
            with
            | None => Ok None
            | Some (sequence, flags, payload, cur) =>
                if keyCompare =? 0 then Ok (Some (mkTableRecord key sequence flags payload))
                else if keyCompare <? 0 then scanBlock_loop fuel key cur
                else Ok None
            end
        end
  end.

Definition scanBlockForKey_ (file : list byte) (block : BlockIndexEntry_) (key : list byte) : result (option TableRecord_) :=
  located ← locateBlockPayload_ file block;
  match located with
  | None => Ok None
  | Some (_, payload) => scanBlock_loop (S (length payload)) key payload
  end.

(** The range [low, high) is halved at each turn. *)
Fixpoint candidate_loop (fuel : nat) (blocks : list BlockIndexEntry_) (key : list byte) (low high : Z) : result Z :=
  match fuel with
  | O => NoFuel
  | S fuel =>
      if low <? high then
        let mid := low + (high - low) / 2 in
        match blocks !! Z.to_nat mid with
        | None => Err outside
        | Some block =>
            if negb (before key (bi_firstKey block)) then candidate_loop fuel blocks key (mid + 1) high
            else candidate_loop fuel blocks key low mid
        end
      else Ok low
  end.

Definition findCandidateBlockIndex_ (blocks : list BlockIndexEntry_) (key : list byte) : result Z :=
  if listIsEmpty blocks then Ok (-1)
  else
    low ← candidate_loop (S (length blocks)) blocks key 0 (zlen blocks);
    Ok (if low =? 0 then -1 else to_int (low - 1)).

Definition findRecord (key : list byte) (h : t) : result (option TableRecord_) :=
  if listIsEmpty (blocks_ h) || negb (BloomFilter_.mayContain key (bloom_ h)) ||
     (negb (isEmpty (minUserKey_ h)) && before key (minUserKey_ h)) ||
     (negb (isEmpty (maxUserKey_ h)) && before (maxUserKey_ h) key)
  then Ok None
  else
    candidate ← findCandidateBlockIndex_ (blocks_ h) key;
    if candidate <? 0 then Ok None
    else
      match blocks_ h !! Z.to_nat candidate with
      | None => Err outside
      | Some block => scanBlockForKey_ (mapped_ h) block key
      end.

Fixpoint iterate_loop (file : list byte) (blocks : list BlockIndexEntry_) (outRecords : list TableRecord_) :
    result (option (list TableRecord_)) :=
  match blocks with
  | [] => Ok (Some outRecords)
  | block :: blocks =>
      decoded ← decodeBlock_ file block;
      match decoded with
      | None => Ok None
      | Some blockRecords => iterate_loop file blocks (outRecords ++ blockRecords)
      end
  end.

Definition iterateAll (h : t) : result (option (list TableRecord_)) := iterate_loop (mapped_ h) (blocks_ h) [].

(** ** Facts *)

Import TableWriter_.

(** *** Opening what was written *)

Lemma window_at a b c from to : from = zlen a -> to = zlen a + zlen b -> window (a ++ b ++ c) from to = Ok b.
Proof.
  intros -> ->. unfold window. destruct (Z.leb_spec (zlen a + zlen b) (zlen a)); [by assert (b = []) as -> by (destruct b; [done|simpl in *; lia])|].
  rewrite !zlen_app. destruct (Z.leb_spec (zlen a + zlen b) (zlen a + (zlen b + zlen c))); [|lia].
  unfold zslice. rewrite Nat2Z.id, skipn_app_exact. replace (Z.to_nat (zlen a + zlen b - zlen a)) with (length b) by lia.
  by rewrite firstn_app_exact.
Qed.

Lemma sparse_loop_eq entries : forall blocks, Forall entry_ok entries ->
  sparse_loop (length entries) blocks (concat (map entryBytes entries)) = Some (blocks ++ entries).
Proof.
  induction entries as [|e entries IH]; intros blocks He; simpl; [by rewrite app_nil_r|].
  apply Forall_cons_1 in He as [(H1 & H2 & H3) He]. unfold entryBytes at 1. rewrite <- !app_assoc, readBytes_eq by done. simpl.
  rewrite readU64LE_eq by done. simpl. rewrite readU32LE_eq by done. simpl. rewrite IH by done. rewrite <- app_assoc. by destruct e.
Qed.

Lemma parseSparse_eq a entries c from to : Forall entry_ok entries -> zlen entries < 2 ^ 32 ->
  from = zlen a -> to = zlen a + zlen (sparseBytes entries) ->
  parseSparseIndex_ (a ++ sparseBytes entries ++ c) from to = Ok entries.
Proof.
  intros He Hl Hf Ht. unfold parseSparseIndex_. rewrite (window_at a (sparseBytes entries) c) by done.
  cbn [mbind result_bind]. unfold sparseBytes. rewrite readU32LE_eq by lia. simpl. rewrite Nat2Z.id. by rewrite sparse_loop_eq.
Qed.

Lemma parseBloom_eq a bloom c from to : zlen (BloomFilter_.bytes_ bloom) < 2 ^ 32 -> u32_ok (BloomFilter_.hashCount_ bloom) ->
  from = zlen a -> to = zlen a + zlen (bloomBytes bloom) -> parseBloom_ (a ++ bloomBytes bloom ++ c) from to = Ok bloom.
Proof.
  intros Hb Hh Hf Ht. unfold parseBloom_. rewrite (window_at a (bloomBytes bloom) c) by done. cbn [mbind result_bind].
  unfold bloomBytes. rewrite readU32LE_eq by done. simpl. rewrite readU32LE_eq by lia. simpl.
  destruct (Z.ltb_spec (zlen (BloomFilter_.bytes_ bloom)) (zlen (BloomFilter_.bytes_ bloom))); [lia|]. simpl.
  rewrite Nat2Z.id, take_ge by lia. by destruct bloom.
Qed.

(** The block of a run of records, where the index says it is. *)
Lemma locate_eq a c rest e : chunk_ok c -> bi_offset e = zlen a -> bi_bytes e = zlen (blockFrame c) ->
  zlen (a ++ blockFrame c ++ rest) < 2 ^ 64 ->
  locateBlockPayload_ (a ++ blockFrame c ++ rest) e = Ok (Some (crc32Bytes_ (blockBytes c), blockBytes c)).
Proof.
  intros [_ Hc] Ho Hb Hl. unfold locateBlockPayload_. rewrite Ho, Hb. rewrite !zlen_app in *. pose proof (length_blockFrame c).
  rewrite add64_small by lia. match goal with |- context [?x <? ?y] => destruct (Z.ltb_spec x y); [lia|] end.
  rewrite (window_at a (blockFrame c) rest) by done. cbn [mbind result_bind]. unfold blockFrame. rewrite readU32LE_eq by lia. simpl.
  rewrite readU32LE_eq by (apply Z.mod_pos_bound; lia). simpl. destruct (Z.ltb_spec (zlen (blockBytes c)) (zlen (blockBytes c))); [lia|].
  by rewrite Nat2Z.id, take_ge by lia.
Qed.

Lemma decode_loop_eq c : forall fuel out, Forall tableRecord_ok c -> (length (blockBytes c) < fuel)%nat ->
  decodeBlock_loop fuel out (blockBytes c) = Ok (Some (out ++ c)).
Proof.
  induction c as [|r c IH]; intros [|fuel] out Hc Hf; try lia; [cbn; by rewrite app_nil_r|].
  apply Forall_cons_1 in Hc as [Hr Hc]. change (r :: c) with ([r] ++ c) in *. rewrite blockBytes_app, blockBytes_single in *.
  cbn [decodeBlock_loop]. pose proof (length_tableBytes r) as Hl.
  destruct (isEmpty (tableBytes r ++ blockBytes c)) eqn:E; [by destruct (tableBytes r); simpl in *; [lia|]|].
  rewrite decodeTableRecord_eq by done. rewrite length_app in Hf. rewrite IH by (done || lia). by rewrite <- app_assoc.
Qed.

(** A file with these blocks from the end of [a] on. *)
Definition holds (a : list byte) (cs : list (list TableRecord_)) (file : list byte) : Prop :=
  exists rest, file = a ++ frames cs ++ rest /\ zlen file < 2 ^ 64 /\ Forall chunk_ok cs.

Lemma holds_next a c cs file : holds a (c :: cs) file -> exists rest, file = a ++ blockFrame c ++ rest /\ chunk_ok c /\ holds (a ++ blockFrame c) cs file.
Proof.
  intros (rest & -> & Hl & Hc). apply Forall_cons_1 in Hc as [Hc1 Hc2]. unfold frames in *. simpl in *. rewrite <- app_assoc in *.
  exists (concat (map blockFrame cs) ++ rest). split; [done|]. split; [done|]. exists rest. rewrite <- app_assoc. done.
Qed.

Lemma locate_holds a c cs file : holds a (c :: cs) file ->
  forall key, locateBlockPayload_ file (mkBlockIndexEntry key (zlen a) (zlen (blockFrame c))) =
    Ok (Some (crc32Bytes_ (blockBytes c), blockBytes c)).
Proof.
  intros Hh key. pose proof Hh as (_ & _ & Hl & _). apply holds_next in Hh as (rest & -> & Hc & _). by apply locate_eq.
Qed.

Lemma validate_holds cs : forall a file, holds a cs file -> validateBlocks_ file (entriesOf (zlen a) cs) = Ok tt.
Proof.
  induction cs as [|c cs IH]; intros a file Hh; [done|]. cbn [entriesOf validateBlocks_].
  rewrite (locate_holds a c cs) by done. cbn. rewrite Z.eqb_refl. cbn. apply holds_next in Hh as (_ & _ & _ & Hh).
  rewrite <- zlen_app. by apply IH.
Qed.

Lemma decode_holds a c cs file key : holds a (c :: cs) file -> Forall tableRecord_ok c ->
  decodeBlock_ file (mkBlockIndexEntry key (zlen a) (zlen (blockFrame c))) = Ok (Some c).
Proof.
  intros Hh Hr. unfold decodeBlock_. rewrite (locate_holds a c cs) by done. cbn [mbind result_bind].
  by rewrite decode_loop_eq by (done || lia).
Qed.

Lemma iterate_holds cs : forall a file out, holds a cs file -> Forall tableRecord_ok (concat cs) ->
  iterate_loop file (entriesOf (zlen a) cs) out = Ok (Some (out ++ concat cs)).
Proof.
  induction cs as [|c cs IH]; intros a file out Hh Hr; [cbn; by rewrite app_nil_r|]. cbn [entriesOf iterate_loop concat].
  simpl in Hr. apply Forall_app in Hr as [Hr1 Hr2]. rewrite (decode_holds a c cs) by done. cbn [mbind result_bind].
  apply holds_next in Hh as (_ & _ & _ & Hh). rewrite <- zlen_app, IH by done. by rewrite <- app_assoc.
Qed.

(** The key of the last record of a run. *)
Definition lastKeyOf (records : list TableRecord_) : list byte := match list.last records with Some r => tr_userKey r | None => [] end.

Lemma last_app_ne {A} (a b : list A) : b <> [] -> list.last (a ++ b) = list.last b.
Proof. intros H. rewrite last_app. destruct (list.last b) eqn:E; [done|]. apply last_None in E. done. Qed.

Lemma last_holds cs c : forall a file, holds a (cs ++ [c]) file -> Forall tableRecord_ok c ->
  exists e, list.last (entriesOf (zlen a) (cs ++ [c])) = Some e /\ decodeBlock_ file e = Ok (Some c).
Proof.
  intros a file (rest & Hf & Hl & Hc) Hr. rewrite entriesOf_snoc, last_snoc. eexists. split; [done|].
  rewrite <- zlen_app. apply (decode_holds _ c []); [|done]. exists rest. rewrite frames_snoc in Hf.
  split; [rewrite Hf; unfold frames at 3; simpl; by rewrite app_nil_r, <- !app_assoc|]. split; [done|]. by apply Forall_app in Hc as [_ ?].
Qed.

Lemma keyRange_holds cs a file : holds a cs file -> Forall tableRecord_ok (concat cs) -> cs <> [] ->
  resolveKeyRange_ file (entriesOf (zlen a) cs) = Ok (firstKeyOf (concat cs), lastKeyOf (concat cs)).
Proof.
  intros Hh Hr Hn. unfold resolveKeyRange_. destruct (exists_last Hn) as (cs' & c & ->).
  rewrite concat_app in Hr |- *. simpl concat in *. rewrite app_nil_r in *. apply Forall_app in Hr as [_ Hr].
  destruct (last_holds cs' c a file Hh Hr) as (e & He & Hd). rewrite He, Hd.
  assert (c <> []) as Hcn by (destruct Hh as (_ & _ & _ & Hc); apply Forall_app in Hc as [_ Hc]; apply Forall_cons_1 in Hc as [[? _] _]; done).
  unfold lastKeyOf. rewrite last_app_ne by done. destruct cs' as [|c' cs']; [by destruct c|].
  destruct Hh as (_ & _ & _ & Hc). apply Forall_cons_1 in Hc as [[Hn' _] _]. by destruct c'.
Qed.

(** What [open] makes of a table. *)
Definition opened (meta : TableMeta_) (cs : list (list TableRecord_)) (records : list TableRecord_) : t :=
  mk (tableFile meta cs (bloomOf records)) (entriesOf (zlen (headerBytes meta)) cs) (bloomOf records)
    (tm_kind meta) (tm_minSequence meta) (tm_maxSequence meta) (tm_recordCount meta) (tm_indexName meta)
    (firstKeyOf records) (lastKeyOf records).

Lemma tableFile_holds meta cs bloom : Forall chunk_ok cs -> zlen (tableFile meta cs bloom) < 2 ^ 63 ->
  holds (headerBytes meta) cs (tableFile meta cs bloom).
Proof. intros Hc Hl. eexists. split; [unfold tableFile; by rewrite <- app_assoc|]. split; [lia|done]. Qed.

Lemma readHeader_eq meta rest : meta_ok meta ->
  readHeader (drop 8 (headerBytes meta) ++ rest) =
    Some (tm_kind meta, tm_minSequence meta, tm_maxSequence meta, tm_recordCount meta, tm_indexName meta).
Proof.
  intros (M1 & M2 & M3 & M4 & M5). unfold headerBytes. change (drop 8 (kTableMagic_ ++ ?l)) with l. unfold readHeader.
  rewrite <- !app_assoc, readU32LE_eq by done. simpl. rewrite readU32LE_eq by lia. simpl. do 3 (rewrite readU64LE_eq by done; simpl).
  rewrite readU32LE_eq by (unfold short in M5; lia). simpl. rewrite readU32LE_eq by done. simpl.
  rewrite zlen_app. destruct (Z.ltb_spec (zlen (tm_indexName meta) + zlen rest) (zlen (tm_indexName meta))); [lia|].
  by rewrite Nat2Z.id, firstn_app_exact.
Qed.

Lemma readFooter_eq meta a b : meta_ok meta -> is_u64 a -> is_u64 b ->
  readFooter (to_int (tm_kind meta)) (tm_maxSequence meta) (tm_recordCount meta) (drop 8 (footerBytes meta a b)) = Some (a, b).
Proof.
  intros (M1 & M2 & M3 & M4 & M5) Ha Hb. unfold footerBytes. change (drop 8 (kFooterMagic_ ++ ?l)) with l. unfold readFooter.
  do 4 (rewrite readU64LE_eq by done; simpl). rewrite <- (app_nil_r (le_bytes 4 _)), readU32LE_eq by lia. simpl.
  rewrite to_int_small by lia. unfold wrap32. by rewrite !Z.eqb_refl, Z.mod_small, Z.eqb_refl by lia.
Qed.

Lemma table_parses meta records cs : meta_ok meta -> records_ok records -> records <> [] ->
  concat cs = records -> Forall chunk_ok cs -> zlen (tableFile meta cs (bloomOf records)) < 2 ^ 63 ->
  parse_ (tableFile meta cs (bloomOf records)) = Ok (opened meta cs records).
Proof.
  intros Hm Hr Hne Hcat Hc Hl. pose proof (tableFile_holds meta cs (bloomOf records) Hc Hl) as Hh.
  destruct (bloomOf_ok records) as (_ & Hbs & Hhc & _); [by destruct Hr as (_ & ? & _)|].
  assert (Forall tableRecord_ok (concat cs)) as Hok by (rewrite Hcat; destruct Hr as [Hr _]; eapply Forall_impl; [|exact Hr]; by intros r [? _]).
  assert (cs <> []) as Hcn by (intros ->; by apply Hne).
  unfold opened. set (file := tableFile meta cs (bloomOf records)) in *. set (H := headerBytes meta) in *.
  set (entries := entriesOf (zlen H) cs) in *. set (S_ := sparseBytes entries). set (L := bloomBytes (bloomOf records)).
  set (o1 := zlen (H ++ frames cs)). set (o2 := o1 + zlen S_). set (F := footerBytes meta o1 o2).
  assert (file = (H ++ frames cs) ++ S_ ++ L ++ F) as Ef by done.
  assert (zlen F = 44) as HF by (unfold F, footerBytes; rewrite !zlen_app, !length_le_bytes; done).
  assert (zlen file = o2 + zlen L + 44) as El by (rewrite Ef, (zlen_app (H ++ _)), (zlen_app S_), (zlen_app L), HF; unfold o2, o1; lia).
  assert (Forall entry_ok entries) as He.
  { apply (entries_all_ok _ _ records Hcat Hr Hc); [lia|]. rewrite <- zlen_app. fold o1. lia. }
  assert (zlen entries < 2 ^ 32) as Hn.
  { unfold entries. rewrite length_entriesOf. pose proof (chunks_count cs Hc) as Hcc. rewrite Hcat in Hcc. destruct Hr as (_ & ? & _). lia. }
  unfold parse_. destruct (Z.ltb_spec (zlen file) kFooterBytes) as [Hlt|_]; [unfold kFooterBytes in Hlt; lia|].
  assert (startsWith kTableMagic_ file = true) as ->.
  { unfold startsWith. rewrite Ef. unfold H, headerBytes. rewrite <- !app_assoc. apply hasPrefix_app. }
  replace (drop 8 file) with (drop 8 H ++ frames cs ++ S_ ++ L ++ F)
    by (rewrite Ef, <- app_assoc, drop_app_le; [done|unfold H; pose proof (length_header meta Hm); lia]).
  unfold H at 1. rewrite readHeader_eq by done. cbn [negb orCorrupt mbind result_bind].
  assert (drop (Z.to_nat (zlen file - kFooterBytes)) file = F) as ->.
  { rewrite El, Ef, (app_assoc (H ++ _)), (app_assoc _ L F). apply drop_app_length'. unfold kFooterBytes, o2, o1.
    rewrite (length_app (_ ++ _) L), (length_app (_ ++ _) S_). lia. }
  assert (startsWith kFooterMagic_ F = true) as -> by apply hasPrefix_app.
  unfold F. rewrite readFooter_eq by (done || (unfold is_u64; lia)). cbn [negb orCorrupt mbind result_bind].
  rewrite Ef at 1. rewrite (parseSparse_eq (H ++ frames cs) entries (L ++ F)) by done. cbn [mbind result_bind].
  rewrite Ef at 1. rewrite (app_assoc (H ++ frames cs) S_).
  rewrite (parseBloom_eq ((H ++ frames cs) ++ S_) (bloomOf records) F); [|done|by rewrite Hhc|by rewrite zlen_app|].
  2: { rewrite (zlen_app (H ++ frames cs)). fold L o1 o2. unfold kFooterBytes. lia. }
  cbn [mbind result_bind]. unfold entries. rewrite (validate_holds cs H) by done. cbn [mbind result_bind].
  rewrite (keyRange_holds cs H), Hcat by done. cbn [mbind result_bind]. rewrite to_int_small; [done|]. by destruct Hm as [? _].
Qed.

(** *** Finding a record *)

Lemma exists_last_or {A} (l : list A) : l = [] \/ exists l' x, l = l' ++ [x].
Proof. destruct l as [|x l' _] using rev_ind; eauto. Qed.

(** Each key once, in increasing order. *)
Definition sorted (records : list TableRecord_) : Prop :=
  StronglySorted (fun r s => before (tr_userKey r) (tr_userKey s) = true) records.

Definition lookupRecord (key : list byte) (records : list TableRecord_) : option TableRecord_ :=
  List.find (fun r => bool_decide (tr_userKey r = key)) records.

Lemma keyCompare_eq a b : keyCompare a b = if before a b then -1 else if before b a then 1 else 0.
Proof.
  assert (forall x y l k, memcmp (x :: l) (y :: k) = if b2z x <? b2z y then -1 else if b2z y <? b2z x then 1 else memcmp l k) as Hm.
  { intros x y l k. unfold memcmp. simpl. destruct (Z.ltb_spec (b2z x) (b2z y)), (Z.ltb_spec (b2z y) (b2z x)); done || lia. }
  revert b. induction a as [|x a IH]; intros [|y b]; [done..|]. specialize (IH b). unfold keyCompare in *. cbn [length Nat.min take before].
  rewrite Hm. destruct (Z.ltb_spec (b2z x) (b2z y)); [done|]. destruct (Z.ltb_spec (b2z y) (b2z x)); [done|].
  rewrite !Nat2Z.inj_succ. rewrite <- IH. cbv zeta. destruct (memcmp _ _ =? 0); [|done].
  destruct (Z.ltb_spec (Z.succ (zlen a)) (Z.succ (zlen b))), (Z.ltb_spec (zlen a) (zlen b)); try lia; try done.
  destruct (Z.ltb_spec (Z.succ (zlen b)) (Z.succ (zlen a))), (Z.ltb_spec (zlen b) (zlen a)); try lia; done.
Qed.

Lemma lookup_none key records : (forall r, r ∈ records -> tr_userKey r <> key) -> lookupRecord key records = None.
Proof.
  induction records as [|r records IH]; intros H; [done|]. unfold lookupRecord in *. simpl.
  rewrite bool_decide_eq_false_2 by (apply H; left). apply IH. intros s Hs. apply H. by right.
Qed.

Lemma lookup_elem key records r : lookupRecord key records = Some r -> r ∈ records /\ tr_userKey r = key.
Proof. intros H. apply List.find_some in H as [H1 H2]. apply bool_decide_eq_true in H2. by apply list_elem_of_In in H1. Qed.

Lemma lookup_app key a b : lookupRecord key (a ++ b) = match lookupRecord key a with Some r => Some r | None => lookupRecord key b end.
Proof. unfold lookupRecord. induction a as [|r a IH]; [done|]. simpl. by case_bool_decide. Qed.

Lemma sorted_head r records s : sorted (r :: records) -> s ∈ records -> before (tr_userKey r) (tr_userKey s) = true.
Proof. intros Hs Hin. inversion Hs as [|? ? _ Hall]; subst. rewrite list.Forall_forall in Hall. by apply Hall. Qed.

Lemma sorted_app a b : sorted (a ++ b) -> sorted a /\ sorted b /\ forall r s, r ∈ a -> s ∈ b -> before (tr_userKey r) (tr_userKey s) = true.
Proof.
  induction a as [|r a IH]; simpl; intros Hs.
  - split; [constructor|]. split; [done|]. by intros r s ?%elem_of_nil.
  - inversion Hs as [|? ? Hs' Hall]; subst. destruct (IH Hs') as (H1 & H2 & H3). apply Forall_app in Hall as [Ha Hb].
    rewrite list.Forall_forall in Hb. split; [by constructor|]. split; [done|]. intros x s [->|Hx]%elem_of_cons Hy; [by apply Hb|by apply H3].
Qed.

Lemma not_before_trans a b c : before a b = true -> before c b = false -> before a c = true.
Proof.
  intros H1 H2. destruct (before b c) eqn:E; [by eapply before_trans|]. by rewrite <- (before_total _ _ E H2).
Qed.

Lemma scan_eq key c : forall fuel, Forall tableRecord_ok c -> sorted c -> (length (blockBytes c) < fuel)%nat ->
  scanBlock_loop fuel key (blockBytes c) = Ok (lookupRecord key c).
Proof.
  induction c as [|r c IH]; intros [|fuel] Hc Hs Hf; try lia; [done|].
  apply Forall_cons_1 in Hc as [(H1 & H2 & H3 & H4) Hc]. pose proof (length_tableBytes r) as Hl.
  change (r :: c) with ([r] ++ c) in Hf |- *. rewrite blockBytes_app, blockBytes_single in *. rewrite length_app in Hf.
  cbn [scanBlock_loop]. destruct (isEmpty (tableBytes r ++ blockBytes c)) eqn:E; [by destruct (tableBytes r); simpl in *; [lia|]|].
  unfold tableBytes. rewrite <- !app_assoc, readBytes_eq by done. rewrite readU64LE_eq by done. simpl.
  rewrite readU32LE_eq by done. simpl. rewrite readBytes_eq by done. simpl. rewrite keyCompare_eq.
  unfold lookupRecord. cbn [app List.find].
  destruct (before (tr_userKey r) key) eqn:B1; [|destruct (before key (tr_userKey r)) eqn:B2]; simpl.
  - rewrite bool_decide_eq_false_2 by (by apply ByteMap.before_eq). apply IH; [done|by inversion Hs|lia].
  - rewrite bool_decide_eq_false_2 by (apply not_eq_sym; by apply ByteMap.before_eq). f_equal. symmetry. apply lookup_none.
    intros s Hin. pose proof (sorted_head _ _ _ Hs Hin) as Hb. apply not_eq_sym, ByteMap.before_eq. by eapply before_trans.
  - pose proof (before_total _ _ B1 B2) as <-. rewrite bool_decide_eq_true_2 by done. by destruct r.
Qed.

(** The search ends at the first block whose first key is after the key. *)
Lemma candidate_eq entries key n : (n <= length entries)%nat ->
  (forall i e, entries !! i = Some e -> before key (bi_firstKey e) = negb (bool_decide (i < n)%nat)) ->
  forall fuel low high, (low <= n <= high)%nat -> (high <= length entries)%nat -> (high - low < fuel)%nat ->
  candidate_loop fuel entries key (Z.of_nat low) (Z.of_nat high) = Ok (Z.of_nat n).
Proof.
  intros Hn Hs. induction fuel as [|fuel IH]; intros low high Hlh Hh Hf; [lia|]. cbn [candidate_loop].
  destruct (Z.ltb_spec (Z.of_nat low) (Z.of_nat high)); [|by assert (low = n) as -> by lia].
  pose proof (Z.div_lt_upper_bound (Z.of_nat high - Z.of_nat low) 2 (Z.of_nat high - Z.of_nat low) ltac:(lia) ltac:(lia)) as Hd.
  pose proof (Z.div_pos (Z.of_nat high - Z.of_nat low) 2 ltac:(lia) ltac:(lia)) as Hp.
  set (mid := Z.of_nat low + (Z.of_nat high - Z.of_nat low) / 2) in *.
  assert (mid = Z.of_nat (Z.to_nat mid)) as Em by lia. set (m := Z.to_nat mid) in *.
  destruct (lookup_lt_is_Some_2 entries m ltac:(lia)) as [e He]. rewrite He, (Hs m e He), negb_involutive, Em.
  case_bool_decide as Hm.
  - replace (Z.of_nat m + 1) with (Z.of_nat (S m)) by lia. apply IH; lia.
  - apply IH; lia.
Qed.

(** The blocks up to the key and the blocks after it. *)
Lemma split_chunks key cs : Forall chunk_ok cs -> sorted (concat cs) -> exists l1 l2, cs = l1 ++ l2 /\
  Forall (fun c => before key (firstKeyOf c) = false) l1 /\ Forall (fun c => before key (firstKeyOf c) = true) l2.
Proof.
  induction 1 as [|c cs [Hn _] Hc IH]; intros Hs; [by exists [], []|]. simpl in Hs. apply sorted_app in Hs as (H1 & H2 & H3).
  destruct (before key (firstKeyOf c)) eqn:E.
  - exists [], (c :: cs). split; [done|]. split; [done|]. constructor; [done|]. apply list.Forall_forall. intros c' Hin.
    destruct c as [|r c]; [done|]. rewrite list.Forall_forall in Hc. destruct (Hc c' Hin) as [Hn' _]. destruct c' as [|r' c']; [done|].
    simpl in *. eapply before_trans; [exact E|]. apply H3; [left|]. apply list_elem_of_In, in_concat. exists (r' :: c').
    split; [by apply list_elem_of_In|by left].
  - destruct (IH H2) as (l1 & l2 & -> & Hl1 & Hl2). exists (c :: l1), l2. split; [done|]. split; [by constructor|done].
Qed.

Lemma elem_of_concat (r : TableRecord_) cs : r ∈ concat cs -> exists c, c ∈ cs /\ r ∈ c.
Proof. intros H. apply list_elem_of_In, in_concat in H as (c & H1 & H2). exists c. by rewrite !list_elem_of_In. Qed.

Lemma chunk_after key l c r : Forall (fun c => before key (firstKeyOf c) = true) l -> sorted (concat l) -> c ∈ l -> r ∈ c -> before key (tr_userKey r) = true.
Proof.
  intros Hl Hs Hc Hr. rewrite list.Forall_forall in Hl. specialize (Hl c Hc). apply list_elem_of_split in Hc as (l1 & l2 & ->).
  rewrite concat_app in Hs. simpl in Hs. apply sorted_app in Hs as (_ & Hs & _). apply sorted_app in Hs as (Hs & _ & _).
  destruct c as [|r0 c]; [by apply elem_of_nil in Hr|]. apply elem_of_cons in Hr as [->|Hr]; [done|].
  eapply before_trans; [exact Hl|]. by eapply sorted_head.
Qed.

(** Only one block can hold a key. *)
Lemma lookup_chunk key cs l1 l2 : cs = l1 ++ l2 -> Forall chunk_ok cs -> sorted (concat cs) ->
  Forall (fun c => before key (firstKeyOf c) = false) l1 -> Forall (fun c => before key (firstKeyOf c) = true) l2 ->
  lookupRecord key (concat cs) = match list.last l1 with Some c => lookupRecord key c | None => None end.
Proof.
  intros -> Hc Hs H1 H2. rewrite concat_app in Hs |- *. apply sorted_app in Hs as (Hs1 & Hs2 & _).
  assert (lookupRecord key (concat l2) = None) as E2.
  { apply lookup_none. intros r Hin. apply elem_of_concat in Hin as (c & Hin & Hr).
    apply not_eq_sym, ByteMap.before_eq. by eapply chunk_after. }
  rewrite lookup_app, E2. destruct l1 as [|c l1 _] using rev_ind; [done|]. rewrite last_snoc, concat_app, lookup_app.
  rewrite concat_app in Hs1. simpl in *. rewrite app_nil_r in *. apply sorted_app in Hs1 as (Hs1 & Hs3 & Hb).
  rewrite (lookup_none key (concat l1)); [by destruct (lookupRecord key c)|]. intros r Hr.
  apply Forall_app in H1 as [_ H1]. apply Forall_cons_1 in H1 as [H1 _].
  apply Forall_app in Hc as [Hc _]. apply Forall_app in Hc as [_ Hc]. apply Forall_cons_1 in Hc as [[Hn _] _].
  destruct c as [|r0 c]; [done|]. simpl in H1. apply ByteMap.before_eq. eapply not_before_trans; [|exact H1]. apply Hb; [done|left].
Qed.

Lemma holds_skip l1 : forall a l2 file, holds a (l1 ++ l2) file -> holds (a ++ frames l1) l2 file.
Proof.
  intros a l2 file (rest & -> & Hl & Hc). exists rest. rewrite frames_app, <- !app_assoc in *. split; [done|]. split; [done|].
  by apply Forall_app in Hc as [_ ?].
Qed.

Lemma entries_before key off cs l1 l2 : cs = l1 ++ l2 ->
  Forall (fun c => before key (firstKeyOf c) = false) l1 -> Forall (fun c => before key (firstKeyOf c) = true) l2 ->
  forall i e, entriesOf off cs !! i = Some e -> before key (bi_firstKey e) = negb (bool_decide (i < length l1)%nat).
Proof.
  intros -> H1 H2. revert off. induction H1 as [|c l1 Hc _ IH]; intros off i e He; cbn [app entriesOf length] in *.
  - rewrite bool_decide_eq_false_2 by lia. revert off i He. induction H2 as [|c l2 Hc _ IH]; intros off i He; [done|].
    destruct i as [|i]; [by injection He as <-|exact (IH _ _ He)].
  - destruct i as [|i]; [injection He as <-; by rewrite bool_decide_eq_true_2 by lia|].
    rewrite (IH _ _ _ He). f_equal. apply bool_decide_ext. lia.
Qed.

Lemma lookup_outside key records : sorted records ->
  (before key (firstKeyOf records) = true \/ before (lastKeyOf records) key = true) -> lookupRecord key records = None.
Proof.
  intros Hs Hk. apply lookup_none. intros r Hin. destruct records as [|r0 records] using rev_ind; [by apply elem_of_nil in Hin|]. clear IHrecords.
  unfold lastKeyOf in Hk. rewrite last_snoc in Hk. destruct Hk as [Hk|Hk].
  - apply not_eq_sym, ByteMap.before_eq. destruct (records ++ [r0]) as [|r1 l] eqn:E; [by destruct records|]. simpl in Hk.
    apply elem_of_cons in Hin as [->|Hin]; [done|]. eapply before_trans; [exact Hk|]. by eapply sorted_head.
  - apply ByteMap.before_eq. apply sorted_app in Hs as (_ & _ & Hb). apply elem_of_app in Hin as [Hin|Hin]; [|by apply list_elem_of_singleton in Hin as ->].
    eapply before_trans; [|exact Hk]. apply Hb; [done|]. by left.
Qed.

Lemma search_written meta records cs key : records_ok records -> sorted records ->
  concat cs = records -> Forall chunk_ok cs -> zlen (tableFile meta cs (bloomOf records)) < 2 ^ 63 -> cs <> [] ->
  (candidate ← findCandidateBlockIndex_ (entriesOf (zlen (headerBytes meta)) cs) key;
   if candidate <? 0 then Ok None
   else
     match entriesOf (zlen (headerBytes meta)) cs !! Z.to_nat candidate with
     | None => Err outside
     | Some block => scanBlockForKey_ (tableFile meta cs (bloomOf records)) block key
     end) = Ok (lookupRecord key records).
Proof.
  intros Hr Hs Hcat Hc Hl Hne. pose proof (tableFile_holds meta cs (bloomOf records) Hc Hl) as Hh.
  assert (Forall tableRecord_ok (concat cs)) as Hok by (rewrite Hcat; destruct Hr as [Hr _]; eapply Forall_impl; [|exact Hr]; by intros r [? _]).
  assert (zlen cs < 2 ^ 31) as Hn by (pose proof (chunks_count cs Hc) as Hcc; rewrite Hcat in Hcc; destruct Hr as (_ & ? & _); lia).
  set (file := tableFile meta cs (bloomOf records)) in *. clearbody file.
  rewrite <- Hcat in Hs |- *. destruct (split_chunks key cs Hc Hs) as (l1 & l2 & Ecs & H1 & H2).
  rewrite (lookup_chunk key cs l1 l2) by done. set (off := zlen (headerBytes meta)) in *. set (entries := entriesOf off cs).
  assert (length entries = length cs) as Hle by apply length_entriesOf.
  assert (length l1 <= length cs)%nat as Hl1 by (rewrite Ecs, length_app; lia).
  unfold findCandidateBlockIndex_. assert (listIsEmpty entries = false) as -> by (unfold entries; by destruct cs).
  pose proof (candidate_eq entries key (length l1) ltac:(lia) (entries_before key off cs l1 l2 Ecs H1 H2)
    (S (length entries)) 0 (length entries) ltac:(lia) ltac:(lia) ltac:(lia)) as Hcl.
  change (candidate_loop (S (length entries)) entries key 0 (zlen entries) = Ok (Z.of_nat (length l1))) in Hcl. rewrite Hcl.
  cbn [mbind result_bind]. destruct (exists_last_or l1) as [->|(l & c & ->)]; [done|].
  rewrite length_app in *. change (length [c]) with 1%nat in *. destruct (Z.eqb_spec (Z.of_nat (length l + 1)) 0); [lia|].
  rewrite to_int_small by lia. replace (Z.of_nat (length l + 1) - 1) with (zlen l) by lia.
  destruct (Z.ltb_spec (zlen l) 0); [lia|]. rewrite Nat2Z.id, last_snoc. unfold entries. rewrite Ecs, <- app_assoc, entriesOf_app.
  rewrite lookup_app_r by (by rewrite length_entriesOf). rewrite length_entriesOf, Nat.sub_diag. cbn [app entriesOf lookup list_lookup].
  unfold off. rewrite <- zlen_app. unfold scanBlockForKey_.
  rewrite Ecs, <- app_assoc in Hh. apply holds_skip in Hh.
  rewrite (locate_holds _ c l2) by done. cbn [mbind result_bind].
  rewrite Ecs, <- app_assoc, concat_app in Hs, Hok. simpl concat in *. apply sorted_app in Hs as (_ & Hs & _). apply sorted_app in Hs as (Hs & _ & _).
  apply Forall_app in Hok as [_ Hok]. apply Forall_app in Hok as [Hok _]. apply scan_eq; [done|done|lia].
Qed.

Lemma find_written meta records cs key : records_ok records -> sorted records -> records <> [] ->
  concat cs = records -> Forall chunk_ok cs -> zlen (tableFile meta cs (bloomOf records)) < 2 ^ 63 ->
  findRecord key (opened meta cs records) = Ok (lookupRecord key records).
Proof.
  intros Hr Hs Hne Hcat Hc Hl. assert (cs <> []) as Hcn by (intros ->; by apply Hne). unfold findRecord.
  cbn [opened blocks_ bloom_ minUserKey_ maxUserKey_ mapped_].
  match goal with |- (if ?c then _ else _) = _ => destruct c eqn:E end; [|by apply search_written].
  f_equal. symmetry. rewrite !orb_true_iff, !andb_true_iff in E. destruct E as [[[E|E]|[_ E]]|[_ E]].
  - by destruct cs.
  - apply negb_true_iff in E. apply lookup_none. intros r Hin Hk.
    destruct (bloomOf_ok records) as (_ & _ & _ & Hmay); [by destruct Hr as (_ & ? & _)|]. specialize (Hmay r Hin). by rewrite Hk, E in Hmay.
  - by apply lookup_outside; auto.
  - by apply lookup_outside; auto.
Qed.

(** C12: A table is read as it was written.  For records sorted by key, the file
    [writeTableFile] makes of them - cut into blocks of about 64 KiB, with a
    sparse index, a Bloom filter and checksums - opens, and the handle finds for every
    key the record of that key and for every other key none - the filter, the bounds,
    the halving search and the early end of the scan lose nothing - and walks all the
    records in order; its last key is the last one.  Without records nothing is
    written. *)
Theorem table_reads_what_was_written meta records : meta_ok meta -> records_ok records -> sorted records ->
  match writeTableFile meta records with
  | Ok file =>
      records <> [] /\
      exists h, parse_ file = Ok h /\ iterateAll h = Ok (Some records) /\
        (forall key, findRecord key h = Ok (lookupRecord key records)) /\ maxUserKey_ h = lastKeyOf records
  | Err e => records = [] /\ e = "cannot write empty table"%string
  | NoFuel => False
  end.
Proof.
  intros Hm Hr Hs. destruct (decide (records = [])) as [->|Hne]; [done|].
  destruct (write_table meta records Hm Hr Hne) as (cs & Hcat & Hc & Hw & Hl). rewrite Hw. split; [done|].
  exists (opened meta cs records). split; [by apply table_parses|]. split.
  - unfold iterateAll. cbn [opened mapped_ blocks_]. rewrite (iterate_holds cs); [by rewrite app_nil_l, Hcat|by apply tableFile_holds|].
    rewrite Hcat. destruct Hr as [Hr _]. eapply Forall_impl; [|exact Hr]. by intros r [? _].
  - split; [|done]. intros key. by apply find_written.
Qed.

End Handle.

(** *** Examples *)

Section Examples.

Import TableWriter_.

(** Any checksum does. *)
#[local] Instance exampleMiniz : Miniz := {| mz_crc32 := fun data => fold_left (fun crc b => wrap32 (crc * 31 + b2z b)) data 7 |}.

Definition exampleMeta : TableMeta_ := mkTableMeta TableKindPrimary 0 7 11 13 3 0 (str "t7") [].

Definition exampleRecords : list TableRecord_ :=
  [mkTableRecord (str "ann") 11 0 (str "one"); mkTableRecord (str "bob") 13 RecordDeleted []; mkTableRecord (str "eve") 12 0 (str "two")].

Lemma table_reads_what_was_written_witness :
  meta_ok exampleMeta /\ records_ok exampleRecords /\ sorted exampleRecords /\
  match writeTableFile exampleMeta exampleRecords with
  | Ok file =>
      exampleRecords <> [] /\
      exists h, parse_ file = Ok h /\ iterateAll h = Ok (Some exampleRecords) /\
        (forall key, findRecord key h = Ok (lookupRecord key exampleRecords)) /\ maxUserKey_ h = lastKeyOf exampleRecords
  | Err e => exampleRecords = [] /\ e = "cannot write empty table"%string
  | NoFuel => False
  end.
Proof.
  assert (meta_ok exampleMeta) as H1 by (repeat split; done).
  assert (records_ok exampleRecords) as H2 by (split; [repeat constructor|split; vm_compute; done]; done).
  assert (sorted exampleRecords) as H3 by (repeat constructor; vm_compute; done).
  split; [exact H1|]. split; [exact H2|]. split; [exact H3|]. exact (table_reads_what_was_written exampleMeta exampleRecords H1 H2 H3).
Defined.

(** The offsets of the footer are taken as they are: with one byte of [bloomOffset]
    changed, opening the table reads outside the mapped file. *)
Example footer_offset_is_not_checked :
  match writeTableFile exampleMeta exampleRecords with
  | Ok file => parse_ (<[(length file - 22)%nat := x01]> file) = Err outside
  | _ => False
  end.
Proof. vm_compute. reflexivity. Qed.

End Examples.

End TableHandle_.
