(* ===== verification/DbMemTable.v ===== *)
(** The memtables of the embedded database: SecondaryEntry_ and MemTable_ of
    src/src/core/storage/SwEmbeddedDb.h, their ordered keys
    (src/src/core/storage/embeddeddb/SwEmbeddedDbMemTable.h) and how memtables are
    merged (src/src/core/storage/embeddeddb/SwEmbeddedDbFlushScheduler.h).

    A [SwHash] is a map in the order of its keys: the code sorts the keys wherever the
    order of a pass can be seen. *)
From Stdlib Require Import ZArith Lia Strings.Byte Sorting.
From stdpp Require Import base list strings numbers option sorting.
From S2P Require Import Prelude SwString ByteMap DbCodec.

Import SwString.
Import DbCodec.

Record SecondaryEntry_ := mkSecondaryEntry { se_deleted : bool; se_sequence : Z }.

Record MemTable_ := mkMemTable {
  walId : Z;
  blobFileId : Z;
  minSeq : Z;
  maxSeq : Z;
  approximateBytes : Z;
  mt_primary : ByteMap.t PrimaryRecord_;
  secondary : ByteMap.t (ByteMap.t SecondaryEntry_);
  primaryOrderDirty_ : bool;
  orderedPrimaryKeys_ : list (list byte);
  orderedSecondaryKeys_ : ByteMap.t (list (list byte));
  secondaryOrderDirty_ : ByteMap.t bool
}.

(** [std::sort] of keys by [operator<]. *)
Definition key_le (a b : list byte) : Prop := before b a = false.

#[export] Instance key_le_dec a b : Decision (key_le a b).
Proof. unfold key_le. apply _. Defined.

Definition sortKeys (keys : list (list byte)) : list (list byte) := merge_sort key_le keys.

Module MemTable.

Definition empty : MemTable_ := mkMemTable 0 0 0 0 0 [] [] true [] [] [].

Definition set_primary (v : ByteMap.t PrimaryRecord_) (m : MemTable_) : MemTable_ :=
  mkMemTable (walId m) (blobFileId m) (minSeq m) (maxSeq m) (approximateBytes m) v (secondary m)
    (primaryOrderDirty_ m) (orderedPrimaryKeys_ m) (orderedSecondaryKeys_ m) (secondaryOrderDirty_ m).

Definition set_secondary (v : ByteMap.t (ByteMap.t SecondaryEntry_)) (m : MemTable_) : MemTable_ :=
  mkMemTable (walId m) (blobFileId m) (minSeq m) (maxSeq m) (approximateBytes m) (mt_primary m) v
    (primaryOrderDirty_ m) (orderedPrimaryKeys_ m) (orderedSecondaryKeys_ m) (secondaryOrderDirty_ m).

Definition set_walId (v : Z) (m : MemTable_) : MemTable_ :=
  mkMemTable v (blobFileId m) (minSeq m) (maxSeq m) (approximateBytes m) (mt_primary m) (secondary m)
    (primaryOrderDirty_ m) (orderedPrimaryKeys_ m) (orderedSecondaryKeys_ m) (secondaryOrderDirty_ m).

Definition set_blobFileId (v : Z) (m : MemTable_) : MemTable_ :=
  mkMemTable (walId m) v (minSeq m) (maxSeq m) (approximateBytes m) (mt_primary m) (secondary m)
    (primaryOrderDirty_ m) (orderedPrimaryKeys_ m) (orderedSecondaryKeys_ m) (secondaryOrderDirty_ m).

Definition set_seqs (least greatest : Z) (m : MemTable_) : MemTable_ :=
  mkMemTable (walId m) (blobFileId m) least greatest (approximateBytes m) (mt_primary m) (secondary m)
    (primaryOrderDirty_ m) (orderedPrimaryKeys_ m) (orderedSecondaryKeys_ m) (secondaryOrderDirty_ m).

(** [approximateBytes += bytes] *)
Definition addBytes (bytes : Z) (m : MemTable_) : MemTable_ :=
  mkMemTable (walId m) (blobFileId m) (minSeq m) (maxSeq m) (approximateBytes m +u bytes) (mt_primary m) (secondary m)
    (primaryOrderDirty_ m) (orderedPrimaryKeys_ m) (orderedSecondaryKeys_ m) (secondaryOrderDirty_ m).

(** ** The keys in order *)

(** The keys, and the table that remembers them. *)
Definition orderedPrimaryKeys (m : MemTable_) : list (list byte) * MemTable_ :=
  if negb (primaryOrderDirty_ m) then (orderedPrimaryKeys_ m, m)
  else
    let keys := sortKeys (ByteMap.keys (mt_primary m)) in
    (keys, mkMemTable (walId m) (blobFileId m) (minSeq m) (maxSeq m) (approximateBytes m) (mt_primary m) (secondary m)
             false keys (orderedSecondaryKeys_ m) (secondaryOrderDirty_ m)).

Definition orderedSecondaryKeys (indexName : list byte) (m : MemTable_) : list (list byte) * MemTable_ :=
  match ByteMap.find indexName (secondary m) with
  | None => ([], m)
  | Some bucket =>
      let dirty := default true (ByteMap.find indexName (secondaryOrderDirty_ m)) in
      match (if dirty then None else ByteMap.find indexName (orderedSecondaryKeys_ m)) with
      | Some keys => (keys, m)
      | None =>
          let keys := sortKeys (ByteMap.keys bucket) in
          (keys, mkMemTable (walId m) (blobFileId m) (minSeq m) (maxSeq m) (approximateBytes m) (mt_primary m) (secondary m)
                   (primaryOrderDirty_ m) (orderedPrimaryKeys_ m)
                   (ByteMap.insert indexName keys (orderedSecondaryKeys_ m))
                   (ByteMap.insert indexName false (secondaryOrderDirty_ m)))
      end
  end.

Definition invalidatePrimaryOrder (m : MemTable_) : MemTable_ :=
  mkMemTable (walId m) (blobFileId m) (minSeq m) (maxSeq m) (approximateBytes m) (mt_primary m) (secondary m)
    true (orderedPrimaryKeys_ m) (orderedSecondaryKeys_ m) (secondaryOrderDirty_ m).

Definition invalidateSecondaryOrder (indexName : list byte) (m : MemTable_) : MemTable_ :=
  mkMemTable (walId m) (blobFileId m) (minSeq m) (maxSeq m) (approximateBytes m) (mt_primary m) (secondary m)
    (primaryOrderDirty_ m) (orderedPrimaryKeys_ m) (orderedSecondaryKeys_ m)
    (ByteMap.insert indexName true (secondaryOrderDirty_ m)).

Definition invalidateAllSecondaryOrders (m : MemTable_) : MemTable_ :=
  mkMemTable (walId m) (blobFileId m) (minSeq m) (maxSeq m) (approximateBytes m) (mt_primary m) (secondary m)
    (primaryOrderDirty_ m) (orderedPrimaryKeys_ m) [] [].

(** ** Merging *)

(** An entry replaces one that is not newer. *)
Definition storeUnlessNewer {A} (sequence : A -> Z) (key : list byte) (v : A) (m : ByteMap.t A) : ByteMap.t A :=
  match ByteMap.find key m with
  | Some existing => if sequence existing <=? sequence v then ByteMap.insert key v m else m
  | None => ByteMap.insert key v m
  end.

(** An entry replaces one that is older. *)
Definition storeIfNewer {A} (sequence : A -> Z) (key : list byte) (v : A) (m : ByteMap.t A) : ByteMap.t A :=
  match ByteMap.find key m with
  | Some existing => if sequence existing <? sequence v then ByteMap.insert key v m else m
  | None => ByteMap.insert key v m
  end.

Definition mergeBucketInto (target : ByteMap.t (ByteMap.t SecondaryEntry_))
    (bucketIt : list byte * ByteMap.t SecondaryEntry_) : ByteMap.t (ByteMap.t SecondaryEntry_) :=
  ByteMap.insert bucketIt.1
    (fold_left (fun bucket entryIt => storeUnlessNewer se_sequence entryIt.1 entryIt.2 bucket)
       bucketIt.2 (default [] (ByteMap.find bucketIt.1 target)))
    target.

Definition mergeMemTableInto_ (target source : MemTable_) : MemTable_ :=
  mkMemTable
    (if negb (walId source =? 0) && ((walId target =? 0) || (walId source <? walId target)) then walId source else walId target)
    (if negb (blobFileId source =? 0) then Z.max (blobFileId target) (blobFileId source) else blobFileId target)
    (if negb (minSeq source =? 0) && ((minSeq target =? 0) || (minSeq source <? minSeq target)) then minSeq source else minSeq target)
    (Z.max (maxSeq target) (maxSeq source))
    (approximateBytes target +u approximateBytes source)
    (fold_left (fun m it => storeUnlessNewer pr_sequence it.1 it.2 m) (mt_primary source) (mt_primary target))
    (fold_left mergeBucketInto (secondary source) (secondary target))
    (primaryOrderDirty_ target) (orderedPrimaryKeys_ target) (orderedSecondaryKeys_ target) (secondaryOrderDirty_ target).

Definition mergeMemTablesForFlush_ (mems : list MemTable_) : MemTable_ :=
  invalidateAllSecondaryOrders (invalidatePrimaryOrder (fold_left mergeMemTableInto_ mems empty)).

(** ** Facts *)

(** *** Order *)

#[export] Instance key_le_trans : Transitive key_le.
Proof.
  intros a b c H1 H2. unfold key_le in *. destruct (before c a) eqn:E; [|done]. destruct (before b c) eqn:F.
  - by rewrite (before_trans _ _ _ F E) in H1.
  - pose proof (before_total _ _ F H2) as ->. congruence.
Qed.

#[export] Instance key_le_total : Total key_le.
Proof. intros a b. unfold key_le. destruct (before b a) eqn:E; [right; by apply ByteMap.before_asym|by left]. Qed.

#[export] Instance key_le_antisymm : AntiSymm (=) key_le.
Proof. intros a b H1 H2. symmetry. by apply before_total. Qed.

Lemma keys_sorted {A} (m : ByteMap.t A) : ByteMap.wf m -> StronglySorted key_le (ByteMap.keys m).
Proof.
  induction 1 as [|e m _ IH Hall]; [constructor|]. simpl. constructor; [done|]. apply list.Forall_forall. intros k Hk.
  apply list_elem_of_In, in_map_iff in Hk as (f & <- & Hf%list_elem_of_In). rewrite list.Forall_forall in Hall.
  by apply ByteMap.before_asym, Hall.
Qed.

Lemma sortKeys_sorted keys : StronglySorted key_le keys -> sortKeys keys = keys.
Proof.
  intros H. apply (StronglySorted_unique key_le); [apply (StronglySorted_merge_sort _ _)|done|apply merge_sort_Permutation].
Qed.

Lemma sortKeys_keys {A} (m : ByteMap.t A) : ByteMap.wf m -> sortKeys (ByteMap.keys m) = ByteMap.keys m.
Proof. intros W. by apply sortKeys_sorted, keys_sorted. Qed.

(** A memtable whose maps are maps and whose remembered keys, unless they are marked
    dirty, are the keys. *)
Record ok (m : MemTable_) : Prop := {
  ok_primary : ByteMap.wf (mt_primary m);
  ok_buckets : forall name bucket, ByteMap.find name (secondary m) = Some bucket -> ByteMap.wf bucket;
  ok_primary_order : primaryOrderDirty_ m = false -> orderedPrimaryKeys_ m = ByteMap.keys (mt_primary m);
  ok_secondary_order : forall name bucket keys, ByteMap.find name (secondary m) = Some bucket ->
    ByteMap.find name (secondaryOrderDirty_ m) = Some false -> ByteMap.find name (orderedSecondaryKeys_ m) = Some keys ->
    keys = ByteMap.keys bucket
}.

Lemma memTable_empty_ok : ok empty.
Proof. constructor; try done. constructor. Qed.

Lemma orderedPrimaryKeys_eq m : ok m -> (orderedPrimaryKeys m).1 = ByteMap.keys (mt_primary m).
Proof.
  intros [W _ H _]. unfold orderedPrimaryKeys. destruct (primaryOrderDirty_ m); simpl; [by apply sortKeys_keys|by apply H].
Qed.

Lemma orderedPrimaryKeys_kept m : ok m -> ok (orderedPrimaryKeys m).2 /\ mt_primary (orderedPrimaryKeys m).2 = mt_primary m /\
  secondary (orderedPrimaryKeys m).2 = secondary m /\ walId (orderedPrimaryKeys m).2 = walId m /\
  maxSeq (orderedPrimaryKeys m).2 = maxSeq m.
Proof.
  intros Hok. pose proof Hok as [H1 H2 H3 H4]. unfold orderedPrimaryKeys. destruct (primaryOrderDirty_ m); simpl; [|done]. split; [|done].
  constructor; try done. simpl. intros _. by apply sortKeys_keys.
Qed.

Lemma orderedSecondaryKeys_eq name m : ok m ->
  (orderedSecondaryKeys name m).1 = match ByteMap.find name (secondary m) with Some bucket => ByteMap.keys bucket | None => [] end.
Proof.
  intros [_ W _ H]. unfold orderedSecondaryKeys. destruct (ByteMap.find name (secondary m)) as [bucket|] eqn:F; [|done].
  destruct (ByteMap.find name (secondaryOrderDirty_ m)) as [[]|] eqn:D; simpl; try (by apply sortKeys_keys, (W name)).
  destruct (ByteMap.find name (orderedSecondaryKeys_ m)) as [keys|] eqn:K; simpl; [exact (H name bucket keys F D K)|by apply sortKeys_keys, (W name)].
Qed.

Lemma orderedSecondaryKeys_kept name m : ok m -> ok (orderedSecondaryKeys name m).2 /\
  mt_primary (orderedSecondaryKeys name m).2 = mt_primary m /\ secondary (orderedSecondaryKeys name m).2 = secondary m.
Proof.
  intros Hok. pose proof Hok as [H1 H2 H3 H4]. unfold orderedSecondaryKeys.
  destruct (ByteMap.find name (secondary m)) as [bucket|] eqn:F; [|done].
  destruct (if default true _ then None else _); [done|]. split; [|done]. constructor; try done. simpl.
  intros name' bucket' keys F'. rewrite !ByteMap.find_after_insert. case_decide as E; [|by apply H4].
  subst name'. intros _ [= <-]. assert (bucket' = bucket) as -> by congruence. by apply sortKeys_keys, (H2 name).
Qed.

End MemTable.
