(* ===== verification/DbSortedTables.v ===== *)
(** What the store asks of sorted tables, as an interface that the tables of DbTable.v
    implement, and the records the store keeps in them (the uses of TableHandle_ and
    writeTableFile_ in src/src/core/storage/embeddeddb/SwEmbeddedDbLookup.h,
    SwEmbeddedDbMaterializer.h, SwEmbeddedDbMemtableFlusher.h and
    SwEmbeddedDbCompactionWorker.h). *)
From Stdlib Require Import ZArith Lia Strings.Byte Sorting.
From stdpp Require Import base list strings numbers option.
From S2P Require Import Prelude SwString ByteMap DbCodec DbTable.

Import SwString.
Import DbCodec.

(** [writeTable] makes the bytes of a table file and [openTable] a handle of them.  A
    lookup or a walk that fails finds nothing. *)
Class SortedTables := {
  table_handle : Type;
  writeTable : TableMeta_ -> list TableRecord_ -> result (list byte);
  openTable : list byte -> result table_handle;
  tableFind : list byte -> table_handle -> option TableRecord_;
  tableAll : table_handle -> option (list TableRecord_);
  tableMaxKey : table_handle -> list byte
}.

(** A handle shows records. *)
Definition holds_records `{SortedTables} (h : table_handle) (records : list TableRecord_) : Prop :=
  records <> [] /\ TableHandle_.sorted records /\ tableAll h = Some records /\
  (forall key, tableFind key h = TableHandle_.lookupRecord key records) /\
  tableMaxKey h = TableHandle_.lastKeyOf records.

(** A table shows the records it was written of. *)
Class SortedTablesLaws (T : SortedTables) : Prop := {
  tables_hold meta records : TableWriter_.meta_ok meta -> TableWriter_.records_ok records -> TableHandle_.sorted records ->
    records <> [] ->
    exists file h, writeTable meta records = Ok file /\ openTable file = Ok h /\ holds_records h records;
  tables_not_empty meta : writeTable meta [] = Err "cannot write empty table"
}.

(** ** The tables of DbTable.v *)

Section Instance_.

Context `{C : Miniz}.

#[export] Instance sstables : SortedTables := {|
  table_handle := TableHandle_.t;
  writeTable := TableWriter_.writeTableFile;
  openTable := TableHandle_.parse_;
  tableFind key h := match TableHandle_.findRecord key h with Ok found => found | _ => None end;
  tableAll h := match TableHandle_.iterateAll h with Ok records => records | _ => None end;
  tableMaxKey := TableHandle_.maxUserKey_
|}.

#[export] Instance sstables_laws : SortedTablesLaws sstables.
Proof.
  split; [|done]. intros meta records Hm Hr Hs Hne.
  destruct (TableWriter_.write_table meta records Hm Hr Hne) as (cs & Hcat & Hc & Hw & Hl).
  exists (TableWriter_.tableFile meta cs (TableWriter_.bloomOf records)), (TableHandle_.opened meta cs records).
  split; [exact Hw|]. split; [by apply TableHandle_.table_parses|]. split; [done|]. split; [done|]. split; [|split; [|done]].
  - assert (TableHandle_.iterateAll (TableHandle_.opened meta cs records) = Ok (Some records)) as E; [|cbn -[TableHandle_.iterateAll]; by rewrite E].
    unfold TableHandle_.iterateAll. cbn [TableHandle_.opened TableHandle_.mapped_ TableHandle_.blocks_].
    rewrite (TableHandle_.iterate_holds cs); [by rewrite app_nil_l, Hcat|by apply TableHandle_.tableFile_holds|].
    rewrite Hcat. destruct Hr as [Hr _]. eapply Forall_impl; [|exact Hr]. by intros r [? _].
  - intros key. cbn -[TableHandle_.findRecord]. by rewrite TableHandle_.find_written.
Qed.

End Instance_.

(** ** Records in tables *)

Definition isDeleted (raw : TableRecord_) : bool := negb (Z.land (tr_flags raw) RecordDeleted =? 0).

(** The record of a table record: its payload is read unless it is a tombstone. *)
Definition storedRecord (raw : TableRecord_) : option PrimaryRecord_ :=
  let record := emptyRecord (isDeleted raw) (tr_sequence raw) in
  if isDeleted raw then Some record else decodePrimaryPayload_ (tr_payload raw) record.

Definition rawRecord (userKey : list byte) (record : PrimaryRecord_) : TableRecord_ :=
  if pr_deleted record then mkTableRecord userKey (pr_sequence record) RecordDeleted []
  else mkTableRecord userKey (pr_sequence record) (if pr_inlineValue record then 0 else RecordBlobRef) (encodePrimaryPayload_ record).

(** A record as the store keeps it. *)
Definition stored_ok (r : PrimaryRecord_) : Prop :=
  is_u64 (pr_sequence r) /\ if pr_deleted r then r = emptyRecord true (pr_sequence r) else record_ok r.

Lemma read_written key r : stored_ok r -> storedRecord (rawRecord key r) = Some r.
Proof.
  intros [_ H]. unfold rawRecord, storedRecord, isDeleted. destruct (pr_deleted r) eqn:E; simpl; [by rewrite <- H|].
  replace (Z.land (if pr_inlineValue r then 0 else RecordBlobRef) RecordDeleted) with 0 by (by destruct (pr_inlineValue r)). simpl.
  rewrite <- E at 1. by rewrite payload_roundtrip.
Qed.
