(* ===== verification/DbReadModel.v ===== *)
(** What snapshots of the persistent database read: the read model with its segments
    and the passes over it (SwEmbeddedDbReadModel.h, SwEmbeddedDbReadModelIterators.h),
    how it is built of tables and memtables (SwEmbeddedDbMaterializer.h), the overlay of
    later writes, and the lookups of a snapshot (SwEmbeddedDbSnapshotState.h), all under
    src/src/core/storage/embeddeddb/.

    What an iterator has left is a state of its own, and its [next] gives a row and the
    state behind it.  Blob files are read when a row is given out, so the readers take
    the blob files there are. *)
From Stdlib Require Import ZArith Lia Strings.Byte Sorting.
From stdpp Require Import base list strings numbers option sorting.
From S2P Require Import Prelude SwString ByteMap Crypto DbCodec DbContents DbMemory DbTable DbMemTable DbSortedTables.

Import SwString.
Import DbCodec.
Import DbContents.

(** ** Blob files *)

(** The blob directory: a file of bytes by name. *)
Abbreviation BlobFiles := (ByteMap.t (list byte)).

Section Blobs.

Context `{C : Miniz}.

(** [readAt]: as many bytes from the offset on, or none. *)
Definition readAt (offset length : Z) (file : list byte) : option (list byte) :=
  if offset + length <=? zlen file then Some (take (Z.to_nat length) (drop (Z.to_nat offset) file)) else None.

(** [resolveValueLocked_], and [resolveValue] of a snapshot. *)
Definition resolveValueLocked_ (blobs : BlobFiles) (record : PrimaryRecord_) : option PrimaryRecord_ :=
  let ref := pr_blobRef record in
  if pr_inlineValue record || negb (br_valid ref) then Some record
  else
    file ← ByteMap.find (blobFileName_ (br_fileId ref)) blobs;
    value ← readAt (br_offset ref) (br_length ref) file;
    if crc32OfByteArray_ value =? br_crc32 ref then
      Some (mkPrimaryRecord (pr_deleted record) (pr_sequence record) true value (pr_jsonPayload record) ref (pr_secondaryKeys record))
    else None.

End Blobs.

(** ** The read model *)

Record ReadPrimaryRow_ := mkPrimaryRow { rp_primaryKey : list byte; rp_record : PrimaryRecord_ }.

Record ReadPrimarySegment_ := mkPrimarySegment {
  ps_firstKey : list byte;
  ps_lastKey : list byte;
  ps_rows : list ReadPrimaryRow_;
  ps_approximateBytes : Z
}.

Record ReadIndexRow_ := mkIndexRow {
  ri_compositeKey : list byte;
  ri_secondaryKey : list byte;
  ri_primarySegmentIndex : Z;
  ri_primaryRowIndex : Z
}.

Record ReadIndexSegment_ := mkIndexSegment {
  is_firstCompositeKey : list byte;
  is_lastCompositeKey : list byte;
  is_rows : list ReadIndexRow_;
  is_approximateBytes : Z
}.

Record ReadModel_ := mkReadModel {
  rm_visibleSequence : Z;
  rm_approximateBytes : Z;
  primarySegments : list ReadPrimarySegment_;
  indexSegments : ByteMap.t (list ReadIndexSegment_)
}.

Definition rowsPerSegment : nat := Z.to_nat 1024.

Definition estimateSecondaryKeysBytes_ (secondaryKeys : SecondaryKeys) : Z :=
  fold_left (fun bytes it => fold_left (fun bytes key => bytes +u zlen key) it.2 (bytes +u zlen it.1)) secondaryKeys 0.

Definition estimatePrimaryRowBytes_ (row : ReadPrimaryRow_) : Z :=
  (zlen (rp_primaryKey row) +u zlen (pr_value (rp_record row))) +u estimateSecondaryKeysBytes_ (pr_secondaryKeys (rp_record row)) +u 96.

Definition estimateIndexRowBytes_ (row : ReadIndexRow_) : Z :=
  (zlen (ri_compositeKey row) +u zlen (ri_secondaryKey row)) +u 40.

Definition noPrimarySegment : ReadPrimarySegment_ := mkPrimarySegment [] [] [] 0.
Definition noIndexSegment : ReadIndexSegment_ := mkIndexSegment [] [] [] 0.

Definition finalizePrimarySegment_ (segment : ReadPrimarySegment_) (readModel : ReadModel_) : ReadPrimarySegment_ * ReadModel_ :=
  match ps_rows segment with
  | [] => (segment, readModel)
  | first :: _ =>
      let last := default first (list.last (ps_rows segment)) in
      let segment := mkPrimarySegment (rp_primaryKey first) (rp_primaryKey last) (ps_rows segment) (ps_approximateBytes segment) in
      (noPrimarySegment,
       mkReadModel (rm_visibleSequence readModel) (rm_approximateBytes readModel +u ps_approximateBytes segment)
         (primarySegments readModel ++ [segment]) (indexSegments readModel))
  end.

Definition finalizeIndexSegment_ (indexName : list byte) (segment : ReadIndexSegment_) (readModel : ReadModel_) :
    ReadIndexSegment_ * ReadModel_ :=
  match is_rows segment with
  | [] => (segment, readModel)
  | first :: _ =>
      let last := default first (list.last (is_rows segment)) in
      let segment := mkIndexSegment (ri_compositeKey first) (ri_compositeKey last) (is_rows segment) (is_approximateBytes segment) in
      let segments := default [] (ByteMap.find indexName (indexSegments readModel)) in
      (noIndexSegment,
       mkReadModel (rm_visibleSequence readModel) (rm_approximateBytes readModel +u is_approximateBytes segment)
         (primarySegments readModel) (ByteMap.insert indexName (segments ++ [segment]) (indexSegments readModel)))
  end.

(** ** Building it *)

Section Build.

Context `{T : SortedTables}.

(** The records of a table, stored one by one where they are newer. *)
Definition mergeTable (merged : ByteMap.t PrimaryRecord_) (handle : table_handle) : option (ByteMap.t PrimaryRecord_) :=
  records ← tableAll handle;
  fold_left (fun merged raw =>
      merged ← merged;
      record ← storedRecord raw;
      Some (MemTable.storeIfNewer pr_sequence (tr_userKey raw) record merged))
    records (Some merged).

Definition mergeTables (handles : list table_handle) : option (ByteMap.t PrimaryRecord_) :=
  fold_left (fun merged handle => merged ← merged; mergeTable merged handle) handles (Some []).

(** The records of a memtable, in the order of its keys. *)
Definition mergeMemTable (merged : ByteMap.t PrimaryRecord_) (mem : MemTable_) : ByteMap.t PrimaryRecord_ * MemTable_ :=
  let '(keys, mem) := MemTable.orderedPrimaryKeys mem in
  (fold_left (fun merged key =>
      match ByteMap.find key (mt_primary mem) with
      | Some record => MemTable.storeIfNewer pr_sequence key record merged
      | None => merged
      end) keys merged,
   mem).

(** The memtables one after the other, each with its keys remembered. *)
Fixpoint mergeMemTables (merged : ByteMap.t PrimaryRecord_) (mems : list MemTable_) : ByteMap.t PrimaryRecord_ * list MemTable_ :=
  match mems with
  | [] => (merged, [])
  | mem :: mems =>
      let '(merged, mem) := mergeMemTable merged mem in
      let '(merged, mems) := mergeMemTables merged mems in
      (merged, mem :: mems)
  end.

(** What [buildReadModelLocked] has made so far. *)
Record Building := mkBuilding {
  bd_readModel : ReadModel_;
  bd_primarySegment : ReadPrimarySegment_;
  bd_pendingIndexRows : ByteMap.t (list ReadIndexRow_)
}.

Definition pushPrimaryRow (row : ReadPrimaryRow_) (segment : ReadPrimarySegment_) : ReadPrimarySegment_ :=
  mkPrimarySegment (ps_firstKey segment) (ps_lastKey segment) (ps_rows segment ++ [row])
    (ps_approximateBytes segment +u estimatePrimaryRowBytes_ row).

Definition pushIndexRow (row : ReadIndexRow_) (segment : ReadIndexSegment_) : ReadIndexSegment_ :=
  mkIndexSegment (is_firstCompositeKey segment) (is_lastCompositeKey segment) (is_rows segment ++ [row])
    (is_approximateBytes segment +u estimateIndexRowBytes_ row).

Definition pushPendingRows (primaryKey : list byte) (segmentIndex rowIndex : Z)
    (pending : ByteMap.t (list ReadIndexRow_)) (it : list byte * list (list byte)) : ByteMap.t (list ReadIndexRow_) :=
  ByteMap.insert it.1
    (default [] (ByteMap.find it.1 pending) ++
     map (fun secondaryKey => mkIndexRow (encodeIndexCompositeKey_ secondaryKey primaryKey) secondaryKey segmentIndex rowIndex) it.2)
    pending.

Definition buildRow (merged : ByteMap.t PrimaryRecord_) (b : Building) (primaryKey : list byte) : Building :=
  match ByteMap.find primaryKey merged with
  | None => b
  | Some record =>
      if pr_deleted record then b
      else
        let segmentIndex := wrap32 (zlen (primarySegments (bd_readModel b))) in
        let rowIndex := wrap32 (zlen (ps_rows (bd_primarySegment b))) in
        let segment := pushPrimaryRow (mkPrimaryRow primaryKey record) (bd_primarySegment b) in
        let '(segment, readModel) :=
          if (rowsPerSegment <=? length (ps_rows segment))%nat then finalizePrimarySegment_ segment (bd_readModel b)
          else (segment, bd_readModel b) in
        mkBuilding readModel segment
          (fold_left (pushPendingRows primaryKey segmentIndex rowIndex) (pr_secondaryKeys record) (bd_pendingIndexRows b))
  end.

Definition buildIndexRow (indexName : list byte) (b : ReadIndexSegment_ * ReadModel_) (row : ReadIndexRow_) :
    ReadIndexSegment_ * ReadModel_ :=
  let segment := pushIndexRow row b.1 in
  if (rowsPerSegment <=? length (is_rows segment))%nat then finalizeIndexSegment_ indexName segment b.2 else (segment, b.2).

Definition row_le (lhs rhs : ReadIndexRow_) : Prop := key_le (ri_compositeKey lhs) (ri_compositeKey rhs).

#[export] Instance row_le_dec lhs rhs : Decision (row_le lhs rhs).
Proof. unfold row_le. apply _. Defined.

Definition buildIndex (pending : ByteMap.t (list ReadIndexRow_)) (readModel : ReadModel_) (indexName : list byte) : ReadModel_ :=
  let rows := merge_sort row_le (default [] (ByteMap.find indexName pending)) in
  let '(segment, readModel) := fold_left (buildIndexRow indexName) rows (noIndexSegment, readModel) in
  (finalizeIndexSegment_ indexName segment readModel).2.

Definition buildRows (visibleSequence : Z) (merged : ByteMap.t PrimaryRecord_) : ReadModel_ :=
  let b := fold_left (buildRow merged) (sortKeys (ByteMap.keys merged))
             (mkBuilding (mkReadModel visibleSequence 0 [] []) noPrimarySegment []) in
  let readModel := (finalizePrimarySegment_ (bd_primarySegment b) (bd_readModel b)).2 in
  fold_left (buildIndex (bd_pendingIndexRows b)) (sortKeys (ByteMap.keys (bd_pendingIndexRows b))) readModel.

(** [buildReadModelLocked]: from the tables, oldest first, the immutable memtables and
    the mutable one; the memtables remember their keys. *)
Definition buildReadModelLocked (visibleSequence : Z) (tablesOldestFirst : list table_handle) (immutables : list MemTable_)
    (mutable : MemTable_) : option (ReadModel_ * list MemTable_ * MemTable_) :=
  merged ← mergeTables tablesOldestFirst;
  let '(merged, immutables) := mergeMemTables merged immutables in
  let '(merged, mutable) := mergeMemTable merged mutable in
  Some (buildRows visibleSequence merged, immutables, mutable).

End Build.

(** ** Snapshots *)

Record OverlayIndexEntry_ := mkOverlayIndexEntry {
  oi_deleted : bool;
  oi_sequence : Z;
  oi_secondaryKey : list byte;
  oi_primaryKey : list byte
}.

Record WriterOverlay_ := mkWriterOverlay {
  wo_baseSequence : Z;
  wo_entryCount : Z;
  wo_approximateBytes : Z;
  wo_primary : ByteMap.t PrimaryRecord_;
  wo_indexes : ByteMap.t (ByteMap.t OverlayIndexEntry_)
}.

Definition noOverlay : WriterOverlay_ := mkWriterOverlay 0 0 0 [] [].

Section Snapshots.

Context `{E : EVP} `{C : Miniz} `{T : SortedTables}.

(** The state of a snapshot of the persistent database; [memory] is for DbMemory.v. *)
Record SnapshotState_ := mkSnapshot {
  ss_visibleSequence : Z;
  ss_readModel : option ReadModel_;
  ss_overlay : option WriterOverlay_;
  ss_mutableMem : option MemTable_;
  ss_immutableMems : list MemTable_;
  ss_primaryTablesNewestFirst : list table_handle
}.

(** *** Lookups *)

(** What a lookup answers for a record it found. *)
Definition answer (blobs : BlobFiles) (resolveBlob : bool) (record : PrimaryRecord_) : option PrimaryRecord_ :=
  if pr_deleted record then None else if resolveBlob then resolveValueLocked_ blobs record else Some record.

Definition loadPrimaryFromTable_ (blobs : BlobFiles) (tables : list table_handle) (tableIndex : nat) (primaryKey : list byte)
    (resolveBlob : bool) : option PrimaryRecord_ :=
  handle ← tables !! tableIndex;
  raw ← tableFind primaryKey handle;
  record ← storedRecord raw;
  answer blobs resolveBlob record.

(** The tables from the [i]th on, but the one with the hint: the answer and which
    table gave it. *)
Fixpoint loadPrimary_loop (blobs : BlobFiles) (tables : list table_handle) (hintedIndex : Z) (primaryKey : list byte)
    (resolveBlob : bool) (n i : nat) : option (PrimaryRecord_ * Z) :=
  match n with
  | O => None
  | S n =>
      match (if Z.of_nat i =? hintedIndex then None else loadPrimaryFromTable_ blobs tables i primaryKey resolveBlob) with
      | Some record => Some (record, Z.of_nat i)
      | None => loadPrimary_loop blobs tables hintedIndex primaryKey resolveBlob n (S i)
      end
  end.

(** The memtables of a snapshot, newest first, and what they have under a key. *)
Definition snapshotMemory (s : SnapshotState_) (primaryKey : list byte) : option PrimaryRecord_ :=
  let mems := match ss_mutableMem s with Some mem => [mem] | None => [] end ++ reverse (ss_immutableMems s) in
  fold_right (fun mem rest => match ByteMap.find primaryKey (mt_primary mem) with Some record => Some record | None => rest end) None mems.

(** The record, and the hint for the next lookup. *)
Definition lookupPrimaryWithHint (blobs : BlobFiles) (s : SnapshotState_) (primaryKey : list byte) (resolveBlob : bool)
    (tableHint : Z) : option PrimaryRecord_ * Z :=
  match (o ← ss_overlay s; ByteMap.find primaryKey (wo_primary o)) with
  | Some record => (answer blobs resolveBlob record, tableHint)
  | None =>
      match snapshotMemory s primaryKey with
      | Some record => (answer blobs resolveBlob record, tableHint)
      | None =>
          let tables := ss_primaryTablesNewestFirst s in
          let hintedIndex := if (0 <=? tableHint) && (tableHint <? zlen tables) then tableHint else -1 in
          match (if 0 <=? hintedIndex then loadPrimaryFromTable_ blobs tables (Z.to_nat hintedIndex) primaryKey resolveBlob else None) with
          | Some record => (Some record, tableHint)
          | None =>
              match loadPrimary_loop blobs tables hintedIndex primaryKey resolveBlob (length tables) 0 with
              | Some (record, i) => (Some record, i)
              | None => (None, tableHint)
              end
          end
      end
  end.

Definition lookupPrimary (blobs : BlobFiles) (s : SnapshotState_) (primaryKey : list byte) (resolveBlob : bool) :
    option PrimaryRecord_ :=
  (lookupPrimaryWithHint blobs s primaryKey resolveBlob (-1)).1.

(** *** Passes over the read model *)

Definition recordEntry (primaryKey secondaryKey : list byte) (record : PrimaryRecord_) : SwDbEntry :=
  mkEntry primaryKey secondaryKey (pr_value record) (pr_secondaryKeys record) (pr_sequence record).

Definition materializeReadEntry_ (blobs : BlobFiles) (row : ReadPrimaryRow_) (secondaryKey : list byte) : option SwDbEntry :=
  record ← resolveValueLocked_ blobs (rp_record row);
  Some (recordEntry (rp_primaryKey row) secondaryKey record).

(** [std::lower_bound] over a range whose elements with [p] come first. *)
Fixpoint lower_bound {A} (p : A -> bool) (l : list A) : nat :=
  match l with x :: l => if p x then S (lower_bound p l) else 0%nat | [] => 0%nat end.

(** Where an iterator stands: the segment and the row. *)
Abbreviation Position := (nat * nat)%type.

(** The row at a position, or behind it where its segment ends, and the position
    behind that row.  The fuel bounds the segments. *)
Fixpoint nextRow {S R} (rows : S -> list R) (segments : list S) (fuel : nat) (p : Position) : option (R * Position) :=
  match fuel with
  | O => None
  | Datatypes.S fuel =>
      segment ← segments !! p.1;
      match rows segment !! p.2 with
      | Some row => Some (row, (p.1, Datatypes.S p.2))
      | None => nextRow rows segments fuel (Datatypes.S p.1, 0%nat)
      end
  end.

(** [ReadModelPrimaryIteratorState_] *)
Definition primaryStart (readModel : ReadModel_) (startKey : list byte) : Position :=
  let segments := primarySegments readModel in
  if isEmpty startKey then (0%nat, 0%nat)
  else
    let segmentIndex := lower_bound (fun segment => before (ps_lastKey segment) startKey) segments in
    match segments !! segmentIndex with
    | Some segment => (segmentIndex, lower_bound (fun row => before (rp_primaryKey row) startKey) (ps_rows segment))
    | None => (segmentIndex, 0%nat)
    end.

Definition primaryNext (blobs : BlobFiles) (readModel : ReadModel_) (endKey : list byte) (p : Position) :
    option (SwDbEntry * Position) :=
  '(row, p) ← nextRow ps_rows (primarySegments readModel) (S (length (primarySegments readModel))) p;
  if negb (isEmpty endKey) && negb (before (rp_primaryKey row) endKey) then None
  else entry ← materializeReadEntry_ blobs row []; Some (entry, p).

(** [ReadModelIndexIteratorState_]: without the index there are no segments. *)
Definition segmentsOf (readModel : ReadModel_) (indexName : list byte) : list ReadIndexSegment_ :=
  default [] (ByteMap.find indexName (indexSegments readModel)).

Definition indexStart (segments : list ReadIndexSegment_) (startSecondaryKey : list byte) : Position :=
  if isEmpty startSecondaryKey then (0%nat, 0%nat)
  else
    let startCompositeKey := encodeIndexCompositeKey_ startSecondaryKey [] in
    let segmentIndex := lower_bound (fun segment => before (is_lastCompositeKey segment) startCompositeKey) segments in
    match segments !! segmentIndex with
    | Some segment => (segmentIndex, lower_bound (fun row => before (ri_compositeKey row) startCompositeKey) (is_rows segment))
    | None => (segmentIndex, 0%nat)
    end.

Definition indexNext (blobs : BlobFiles) (readModel : ReadModel_) (segments : list ReadIndexSegment_) (endSecondaryKey : list byte)
    (p : Position) : option (SwDbEntry * Position) :=
  '(row, p) ← nextRow is_rows segments (S (length segments)) p;
  if negb (isEmpty endSecondaryKey) && negb (before (ri_secondaryKey row) endSecondaryKey) then None
  else
    segment ← primarySegments readModel !! Z.to_nat (ri_primarySegmentIndex row);
    primary ← ps_rows segment !! Z.to_nat (ri_primaryRowIndex row);
    entry ← materializeReadEntry_ blobs primary (ri_secondaryKey row);
    Some (entry, p).

(** *** Passes over the read model and an overlay *)

(** [OverlayMergingPrimaryIteratorState_]: what is left of the overlay, the base row
    that was read and not given out ([None] where none was read, [Some None] where there
    is none), and where the base stands. *)
Record Merging A := mkMerging { mg_overlay : ByteMap.t A; mg_base : option (option SwDbEntry); mg_position : Position }.
Arguments mkMerging {A}.
Arguments mg_overlay {A}.
Arguments mg_base {A}.
Arguments mg_position {A}.

(** The base row is read if it has not been. *)
Definition loadBase {A} (next : Position -> option (SwDbEntry * Position)) (m : Merging A) : option SwDbEntry * Merging A :=
  match mg_base m with
  | Some base => (base, m)
  | None =>
      match next (mg_position m) with
      | Some (entry, p) => (Some entry, mkMerging (mg_overlay m) (Some (Some entry)) p)
      | None => (None, mkMerging (mg_overlay m) (Some None) (mg_position m))
      end
  end.

(** The loops of both merging iterators: [key] is the key of a base row, [ends] where
    the range ends in the overlay, and [give] what an overlay entry gives: its row, no
    row, or the end. *)
Inductive Given := Row (entry : SwDbEntry) | Skip | Stop.

Fixpoint mergeNext {A} (next : Position -> option (SwDbEntry * Position)) (key : SwDbEntry -> list byte)
    (ends : list byte * A -> bool) (give : list byte * A -> Given) (fuel : nat) (m : Merging A) : option (SwDbEntry * Merging A) :=
  match fuel with
  | O => None
  | S fuel =>
      let '(base, m) := loadBase next m in
      let overlay := match mg_overlay m with [] => None | e :: rest => if ends e then None else Some (e, rest) end in
      let takeOverlay e rest consume :=
        let m := mkMerging rest (if consume : bool then None else mg_base m) (mg_position m) in
        match give e with
        | Row entry => Some (entry, m)
        | Skip => mergeNext next key ends give fuel m
        | Stop => None
        end in
      let takeBase entry := Some (entry, mkMerging (mg_overlay m) None (mg_position m)) in
      match overlay, base with
      | None, None => None
      | None, Some entry => takeBase entry
      | Some (e, rest), None => takeOverlay e rest false
      | Some (e, rest), Some entry =>
          if before e.1 (key entry) then takeOverlay e rest false
          else if before (key entry) e.1 then takeBase entry
          else takeOverlay e rest true
      end
  end.

Definition givePrimary (blobs : BlobFiles) (e : list byte * PrimaryRecord_) : Given :=
  if pr_deleted e.2 then Skip
  else match resolveValueLocked_ blobs e.2 with
       | Some record => Row (recordEntry e.1 [] record)
       | None => Stop
       end.

Definition giveIndex (blobs : BlobFiles) (s : SnapshotState_) (e : list byte * OverlayIndexEntry_) : Given :=
  if oi_deleted e.2 then Skip
  else match lookupPrimary blobs s (oi_primaryKey e.2) true with
       | Some record => Row (recordEntry (oi_primaryKey e.2) (oi_secondaryKey e.2) record)
       | None => Skip
       end.

(** Every round but the last takes an entry out of the overlay. *)
Definition mergedPrimaryNext (blobs : BlobFiles) (readModel : ReadModel_) (endKey : list byte) (m : Merging PrimaryRecord_) :=
  mergeNext (primaryNext blobs readModel endKey) de_primaryKey (fun e => negb (isEmpty endKey) && negb (before e.1 endKey))
    (givePrimary blobs) (S (length (mg_overlay m))) m.

Definition mergedIndexNext (blobs : BlobFiles) (s : SnapshotState_) (readModel : ReadModel_) (segments : list ReadIndexSegment_)
    (endSecondaryKey : list byte) (m : Merging OverlayIndexEntry_) :=
  mergeNext (indexNext blobs readModel segments endSecondaryKey)
    (fun entry => encodeIndexCompositeKey_ (de_secondaryKey entry) (de_primaryKey entry))
    (fun e => negb (isEmpty endSecondaryKey) && negb (before (oi_secondaryKey e.2) endSecondaryKey))
    (giveIndex blobs s) (S (length (mg_overlay m))) m.

(** *** Scans *)

Definition rowCount (readModel : ReadModel_) : nat := length (concat (map ps_rows (primarySegments readModel))).
Definition indexRowCount (segments : list ReadIndexSegment_) : nat := length (concat (map is_rows segments)).

(** [createPrimaryIteratorState_], asked for all its rows. *)
Definition scanPrimary (blobs : BlobFiles) (s : SnapshotState_) (startKey endKey : list byte) : result (list SwDbEntry) :=
  match ss_readModel s with
  | None => Ok []
  | Some readModel =>
      let start := primaryStart readModel startKey in
      match ss_overlay s with
      | Some o =>
          if ByteMap.isEmpty (wo_primary o) then drain (primaryNext blobs readModel endKey) (rowCount readModel) start
          else
            let first := if isEmpty startKey then wo_primary o else ByteMap.lowerBound startKey (wo_primary o) in
            drain (mergedPrimaryNext blobs readModel endKey) (rowCount readModel + length (wo_primary o)) (mkMerging first None start)
      | None => drain (primaryNext blobs readModel endKey) (rowCount readModel) start
      end
  end.

(** [createIndexIteratorState_], asked for all its rows. *)
Definition scanIndex (blobs : BlobFiles) (s : SnapshotState_) (indexName startSecondaryKey endSecondaryKey : list byte) :
    result (list SwDbEntry) :=
  match ss_readModel s with
  | None => Ok []
  | Some readModel =>
      let segments := segmentsOf readModel indexName in
      let start := indexStart segments startSecondaryKey in
      match (o ← ss_overlay s; ByteMap.find indexName (wo_indexes o)) with
      | Some (_ :: _ as bucket) =>
          let first := if isEmpty startSecondaryKey then bucket
                       else ByteMap.lowerBound (encodeIndexCompositeKey_ startSecondaryKey []) bucket in
          drain (mergedIndexNext blobs s readModel segments endSecondaryKey) (indexRowCount segments + length bucket)
            (mkMerging first None start)
      | _ => drain (indexNext blobs readModel segments endSecondaryKey) (indexRowCount segments) start
      end
  end.

(** [SwDbSnapshot::get] *)
Definition snapshotGet (blobs : BlobFiles) (s : SnapshotState_) (primaryKey : list byte) :
    SwDbStatus.t * option (list byte * SecondaryKeys) :=
  match lookupPrimary blobs s primaryKey true with
  | Some record => (SwDbStatus.success, Some (MemoryManager_.recordBytes_ record, pr_secondaryKeys record))
  | None => (SwDbStatus.mk SwDbStatus.NotFound "primary key not found", None)
  end.

End Snapshots.

#[global] Arguments mkMerging {A}.
#[global] Arguments mg_overlay {A}.
#[global] Arguments mg_base {A}.
#[global] Arguments mg_position {A}.
