(* ===== verification/DbStore.v ===== *)
(** The persistent database: its state and the operations under its lock
    (SwEmbeddedDb of src/src/core/storage/SwEmbeddedDb.h, with
    SwEmbeddedDbLookup.h, SwEmbeddedDbWriteCoordinator.h, SwEmbeddedDbFlushScheduler.h,
    SwEmbeddedDbMemtableFlusher.h, SwEmbeddedDbBlobStore.h,
    SwEmbeddedDbCompactionWorker.h, SwEmbeddedDbMaintenanceHelpers.h and
    SwEmbeddedDbLifecycle.h under src/src/core/storage/embeddeddb/).

    A function here is what runs between taking and leaving the lock, or what a
    background task does on its own between two such times; DbSystem.v lets them
    interleave.  Files are bytes by name, and operations on them succeed, but writing
    the manifest may fail, which is an argument.  Metrics, notifications and the
    garbage collector of blob files are left out. *)
From Stdlib Require Import ZArith Lia Strings.Byte Sorting.
From stdpp Require Import base list strings numbers option sorting.
From S2P Require Import Prelude SwString ByteMap NumberText Crypto DbCodec DbWal DbContents DbTable DbMemTable DbSortedTables DbReadModel.

Import SwString.
Import DbCodec.
Import DbContents.

Record Manifest_ := mkManifest {
  manifestId : Z;
  mf_maxSequence : Z;
  replayFromWalId : Z;
  activeWalId : Z;
  nextWalId : Z;
  nextTableId : Z;
  tables : list TableMeta_
}.

Definition emptyManifest : Manifest_ := mkManifest 0 0 1 1 2 1 [].

(** The directories of the database, and the manifest that [CURRENT] leads to. *)
Record Files := mkFiles {
  tableFiles : ByteMap.t (list byte);
  blobFiles : BlobFiles;
  walFiles : ByteMap.t (list byte);
  current : option Manifest_
}.

(** What is given to the pool of background threads. *)
Inductive Task :=
| FlushTask
| CompactionTask (primaryTables : list TableMeta_) (indexTables : ByteMap.t (list TableMeta_)).

(** The options the operations look at. *)
Record SwEmbeddedDbOptions := mkOptions { memTableBytes : Z; inlineBlobThresholdBytes : Z }.

Section Store.

Context `{E : EVP} `{C : Miniz} `{T : SortedTables}.

Record SwEmbeddedDb := mkDb {
  options_ : SwEmbeddedDbOptions;
  closing_ : bool;
  manifest_ : Manifest_;
  mutable_ : MemTable_;
  immutables_ : list MemTable_;
  tableHandles_ : ByteMap.t table_handle;
  primaryTableHandlesNewestFirst_ : list table_handle;
  indexTableHandlesNewestFirst_ : ByteMap.t (list table_handle);
  maxKnownPrimaryKey_ : list byte;
  writerSnapshotState_ : option SnapshotState_;
  writerOverlay_ : WriterOverlay_;
  writerOverlaySnapshot_ : option WriterOverlay_;
  applyGeneration_ : Z;
  writerSnapshotGeneration_ : Z;
  writerOverlaySnapshotGeneration_ : Z;
  activeWalFileId_ : Z;
  pendingWrites_ : list (Z * list byte);
  flushScheduled_ : bool;
  compactionScheduled_ : bool;
  lastVisibleSequence_ : Z;
  lastDurableSequence_ : Z;
  nextSequence_ : Z;
  backgroundPool_ : list Task;
  files : Files
}.

Definition set_manifest_ (v : Manifest_) (db : SwEmbeddedDb) : SwEmbeddedDb :=
  mkDb (options_ db) (closing_ db) v (mutable_ db) (immutables_ db) (tableHandles_ db) (primaryTableHandlesNewestFirst_ db)
    (indexTableHandlesNewestFirst_ db) (maxKnownPrimaryKey_ db) (writerSnapshotState_ db) (writerOverlay_ db)
    (writerOverlaySnapshot_ db) (applyGeneration_ db) (writerSnapshotGeneration_ db) (writerOverlaySnapshotGeneration_ db)
    (activeWalFileId_ db) (pendingWrites_ db) (flushScheduled_ db) (compactionScheduled_ db) (lastVisibleSequence_ db)
    (lastDurableSequence_ db) (nextSequence_ db) (backgroundPool_ db) (files db).

Definition set_mutable_ (v : MemTable_) (db : SwEmbeddedDb) : SwEmbeddedDb :=
  mkDb (options_ db) (closing_ db) (manifest_ db) v (immutables_ db) (tableHandles_ db) (primaryTableHandlesNewestFirst_ db)
    (indexTableHandlesNewestFirst_ db) (maxKnownPrimaryKey_ db) (writerSnapshotState_ db) (writerOverlay_ db)
    (writerOverlaySnapshot_ db) (applyGeneration_ db) (writerSnapshotGeneration_ db) (writerOverlaySnapshotGeneration_ db)
    (activeWalFileId_ db) (pendingWrites_ db) (flushScheduled_ db) (compactionScheduled_ db) (lastVisibleSequence_ db)
    (lastDurableSequence_ db) (nextSequence_ db) (backgroundPool_ db) (files db).

Definition set_immutables_ (v : list MemTable_) (db : SwEmbeddedDb) : SwEmbeddedDb :=
  mkDb (options_ db) (closing_ db) (manifest_ db) (mutable_ db) v (tableHandles_ db) (primaryTableHandlesNewestFirst_ db)
    (indexTableHandlesNewestFirst_ db) (maxKnownPrimaryKey_ db) (writerSnapshotState_ db) (writerOverlay_ db)
    (writerOverlaySnapshot_ db) (applyGeneration_ db) (writerSnapshotGeneration_ db) (writerOverlaySnapshotGeneration_ db)
    (activeWalFileId_ db) (pendingWrites_ db) (flushScheduled_ db) (compactionScheduled_ db) (lastVisibleSequence_ db)
    (lastDurableSequence_ db) (nextSequence_ db) (backgroundPool_ db) (files db).

Definition set_tableHandles_ (v : ByteMap.t table_handle) (db : SwEmbeddedDb) : SwEmbeddedDb :=
  mkDb (options_ db) (closing_ db) (manifest_ db) (mutable_ db) (immutables_ db) v (primaryTableHandlesNewestFirst_ db)
    (indexTableHandlesNewestFirst_ db) (maxKnownPrimaryKey_ db) (writerSnapshotState_ db) (writerOverlay_ db)
    (writerOverlaySnapshot_ db) (applyGeneration_ db) (writerSnapshotGeneration_ db) (writerOverlaySnapshotGeneration_ db)
    (activeWalFileId_ db) (pendingWrites_ db) (flushScheduled_ db) (compactionScheduled_ db) (lastVisibleSequence_ db)
    (lastDurableSequence_ db) (nextSequence_ db) (backgroundPool_ db) (files db).

Definition set_maxKnownPrimaryKey_ (v : list byte) (db : SwEmbeddedDb) : SwEmbeddedDb :=
  mkDb (options_ db) (closing_ db) (manifest_ db) (mutable_ db) (immutables_ db) (tableHandles_ db)
    (primaryTableHandlesNewestFirst_ db) (indexTableHandlesNewestFirst_ db) v (writerSnapshotState_ db) (writerOverlay_ db)
    (writerOverlaySnapshot_ db) (applyGeneration_ db) (writerSnapshotGeneration_ db) (writerOverlaySnapshotGeneration_ db)
    (activeWalFileId_ db) (pendingWrites_ db) (flushScheduled_ db) (compactionScheduled_ db) (lastVisibleSequence_ db)
    (lastDurableSequence_ db) (nextSequence_ db) (backgroundPool_ db) (files db).

Definition set_writerSnapshotState_ (v : option SnapshotState_) (db : SwEmbeddedDb) : SwEmbeddedDb :=
  mkDb (options_ db) (closing_ db) (manifest_ db) (mutable_ db) (immutables_ db) (tableHandles_ db)
    (primaryTableHandlesNewestFirst_ db) (indexTableHandlesNewestFirst_ db) (maxKnownPrimaryKey_ db) v (writerOverlay_ db)
    (writerOverlaySnapshot_ db) (applyGeneration_ db) (writerSnapshotGeneration_ db) (writerOverlaySnapshotGeneration_ db)
    (activeWalFileId_ db) (pendingWrites_ db) (flushScheduled_ db) (compactionScheduled_ db) (lastVisibleSequence_ db)
    (lastDurableSequence_ db) (nextSequence_ db) (backgroundPool_ db) (files db).

Definition set_writerOverlay_ (v : WriterOverlay_) (db : SwEmbeddedDb) : SwEmbeddedDb :=
  mkDb (options_ db) (closing_ db) (manifest_ db) (mutable_ db) (immutables_ db) (tableHandles_ db)
    (primaryTableHandlesNewestFirst_ db) (indexTableHandlesNewestFirst_ db) (maxKnownPrimaryKey_ db) (writerSnapshotState_ db)
    v (writerOverlaySnapshot_ db) (applyGeneration_ db) (writerSnapshotGeneration_ db) (writerOverlaySnapshotGeneration_ db)
    (activeWalFileId_ db) (pendingWrites_ db) (flushScheduled_ db) (compactionScheduled_ db) (lastVisibleSequence_ db)
    (lastDurableSequence_ db) (nextSequence_ db) (backgroundPool_ db) (files db).

Definition set_activeWalFileId_ (v : Z) (db : SwEmbeddedDb) : SwEmbeddedDb :=
  mkDb (options_ db) (closing_ db) (manifest_ db) (mutable_ db) (immutables_ db) (tableHandles_ db)
    (primaryTableHandlesNewestFirst_ db) (indexTableHandlesNewestFirst_ db) (maxKnownPrimaryKey_ db) (writerSnapshotState_ db)
    (writerOverlay_ db) (writerOverlaySnapshot_ db) (applyGeneration_ db) (writerSnapshotGeneration_ db)
    (writerOverlaySnapshotGeneration_ db) v (pendingWrites_ db) (flushScheduled_ db) (compactionScheduled_ db)
    (lastVisibleSequence_ db) (lastDurableSequence_ db) (nextSequence_ db) (backgroundPool_ db) (files db).

Definition set_pendingWrites_ (v : list (Z * list byte)) (db : SwEmbeddedDb) : SwEmbeddedDb :=
  mkDb (options_ db) (closing_ db) (manifest_ db) (mutable_ db) (immutables_ db) (tableHandles_ db)
    (primaryTableHandlesNewestFirst_ db) (indexTableHandlesNewestFirst_ db) (maxKnownPrimaryKey_ db) (writerSnapshotState_ db)
    (writerOverlay_ db) (writerOverlaySnapshot_ db) (applyGeneration_ db) (writerSnapshotGeneration_ db)
    (writerOverlaySnapshotGeneration_ db) (activeWalFileId_ db) v (flushScheduled_ db) (compactionScheduled_ db)
    (lastVisibleSequence_ db) (lastDurableSequence_ db) (nextSequence_ db) (backgroundPool_ db) (files db).

Definition set_flushScheduled_ (v : bool) (db : SwEmbeddedDb) : SwEmbeddedDb :=
  mkDb (options_ db) (closing_ db) (manifest_ db) (mutable_ db) (immutables_ db) (tableHandles_ db)
    (primaryTableHandlesNewestFirst_ db) (indexTableHandlesNewestFirst_ db) (maxKnownPrimaryKey_ db) (writerSnapshotState_ db)
    (writerOverlay_ db) (writerOverlaySnapshot_ db) (applyGeneration_ db) (writerSnapshotGeneration_ db)
    (writerOverlaySnapshotGeneration_ db) (activeWalFileId_ db) (pendingWrites_ db) v (compactionScheduled_ db)
    (lastVisibleSequence_ db) (lastDurableSequence_ db) (nextSequence_ db) (backgroundPool_ db) (files db).

Definition set_compactionScheduled_ (v : bool) (db : SwEmbeddedDb) : SwEmbeddedDb :=
  mkDb (options_ db) (closing_ db) (manifest_ db) (mutable_ db) (immutables_ db) (tableHandles_ db)
    (primaryTableHandlesNewestFirst_ db) (indexTableHandlesNewestFirst_ db) (maxKnownPrimaryKey_ db) (writerSnapshotState_ db)
    (writerOverlay_ db) (writerOverlaySnapshot_ db) (applyGeneration_ db) (writerSnapshotGeneration_ db)
    (writerOverlaySnapshotGeneration_ db) (activeWalFileId_ db) (pendingWrites_ db) (flushScheduled_ db) v
    (lastVisibleSequence_ db) (lastDurableSequence_ db) (nextSequence_ db) (backgroundPool_ db) (files db).

Definition set_lastVisibleSequence_ (v : Z) (db : SwEmbeddedDb) : SwEmbeddedDb :=
  mkDb (options_ db) (closing_ db) (manifest_ db) (mutable_ db) (immutables_ db) (tableHandles_ db)
    (primaryTableHandlesNewestFirst_ db) (indexTableHandlesNewestFirst_ db) (maxKnownPrimaryKey_ db) (writerSnapshotState_ db)
    (writerOverlay_ db) (writerOverlaySnapshot_ db) (applyGeneration_ db) (writerSnapshotGeneration_ db)
    (writerOverlaySnapshotGeneration_ db) (activeWalFileId_ db) (pendingWrites_ db) (flushScheduled_ db) (compactionScheduled_
    db) v (lastDurableSequence_ db) (nextSequence_ db) (backgroundPool_ db) (files db).

Definition set_lastDurableSequence_ (v : Z) (db : SwEmbeddedDb) : SwEmbeddedDb :=
  mkDb (options_ db) (closing_ db) (manifest_ db) (mutable_ db) (immutables_ db) (tableHandles_ db)
    (primaryTableHandlesNewestFirst_ db) (indexTableHandlesNewestFirst_ db) (maxKnownPrimaryKey_ db) (writerSnapshotState_ db)
    (writerOverlay_ db) (writerOverlaySnapshot_ db) (applyGeneration_ db) (writerSnapshotGeneration_ db)
    (writerOverlaySnapshotGeneration_ db) (activeWalFileId_ db) (pendingWrites_ db) (flushScheduled_ db) (compactionScheduled_
    db) (lastVisibleSequence_ db) v (nextSequence_ db) (backgroundPool_ db) (files db).

Definition set_nextSequence_ (v : Z) (db : SwEmbeddedDb) : SwEmbeddedDb :=
  mkDb (options_ db) (closing_ db) (manifest_ db) (mutable_ db) (immutables_ db) (tableHandles_ db)
    (primaryTableHandlesNewestFirst_ db) (indexTableHandlesNewestFirst_ db) (maxKnownPrimaryKey_ db) (writerSnapshotState_ db)
    (writerOverlay_ db) (writerOverlaySnapshot_ db) (applyGeneration_ db) (writerSnapshotGeneration_ db)
    (writerOverlaySnapshotGeneration_ db) (activeWalFileId_ db) (pendingWrites_ db) (flushScheduled_ db) (compactionScheduled_
    db) (lastVisibleSequence_ db) (lastDurableSequence_ db) v (backgroundPool_ db) (files db).

Definition set_backgroundPool_ (v : list Task) (db : SwEmbeddedDb) : SwEmbeddedDb :=
  mkDb (options_ db) (closing_ db) (manifest_ db) (mutable_ db) (immutables_ db) (tableHandles_ db)
    (primaryTableHandlesNewestFirst_ db) (indexTableHandlesNewestFirst_ db) (maxKnownPrimaryKey_ db) (writerSnapshotState_ db)
    (writerOverlay_ db) (writerOverlaySnapshot_ db) (applyGeneration_ db) (writerSnapshotGeneration_ db)
    (writerOverlaySnapshotGeneration_ db) (activeWalFileId_ db) (pendingWrites_ db) (flushScheduled_ db) (compactionScheduled_
    db) (lastVisibleSequence_ db) (lastDurableSequence_ db) (nextSequence_ db) v (files db).

Definition set_files (v : Files) (db : SwEmbeddedDb) : SwEmbeddedDb :=
  mkDb (options_ db) (closing_ db) (manifest_ db) (mutable_ db) (immutables_ db) (tableHandles_ db)
    (primaryTableHandlesNewestFirst_ db) (indexTableHandlesNewestFirst_ db) (maxKnownPrimaryKey_ db) (writerSnapshotState_ db)
    (writerOverlay_ db) (writerOverlaySnapshot_ db) (applyGeneration_ db) (writerSnapshotGeneration_ db)
    (writerOverlaySnapshotGeneration_ db) (activeWalFileId_ db) (pendingWrites_ db) (flushScheduled_ db) (compactionScheduled_
    db) (lastVisibleSequence_ db) (lastDurableSequence_ db) (nextSequence_ db) (backgroundPool_ db) v.

Definition set_applyGeneration_ (v : Z) (db : SwEmbeddedDb) : SwEmbeddedDb :=
  mkDb (options_ db) (closing_ db) (manifest_ db) (mutable_ db) (immutables_ db) (tableHandles_ db)
    (primaryTableHandlesNewestFirst_ db) (indexTableHandlesNewestFirst_ db) (maxKnownPrimaryKey_ db) (writerSnapshotState_ db)
    (writerOverlay_ db) (writerOverlaySnapshot_ db) v (writerSnapshotGeneration_ db) (writerOverlaySnapshotGeneration_ db)
    (activeWalFileId_ db) (pendingWrites_ db) (flushScheduled_ db) (compactionScheduled_ db) (lastVisibleSequence_ db)
    (lastDurableSequence_ db) (nextSequence_ db) (backgroundPool_ db) (files db).

Definition set_tableCaches (v_primaryTableHandlesNewestFirst_ : list table_handle) (v_indexTableHandlesNewestFirst_ :
    ByteMap.t (list table_handle)) (v_maxKnownPrimaryKey_ : list byte) (db : SwEmbeddedDb) : SwEmbeddedDb :=
  mkDb (options_ db) (closing_ db) (manifest_ db) (mutable_ db) (immutables_ db) (tableHandles_ db)
    v_primaryTableHandlesNewestFirst_ v_indexTableHandlesNewestFirst_ v_maxKnownPrimaryKey_ (writerSnapshotState_ db)
    (writerOverlay_ db) (writerOverlaySnapshot_ db) (applyGeneration_ db) (writerSnapshotGeneration_ db)
    (writerOverlaySnapshotGeneration_ db) (activeWalFileId_ db) (pendingWrites_ db) (flushScheduled_ db) (compactionScheduled_
    db) (lastVisibleSequence_ db) (lastDurableSequence_ db) (nextSequence_ db) (backgroundPool_ db) (files db).

Definition set_readCache (v_writerSnapshotState_ : option SnapshotState_) (v_writerOverlay_ : WriterOverlay_)
    (v_writerOverlaySnapshot_ : option WriterOverlay_) (v_writerSnapshotGeneration_ : Z) (v_writerOverlaySnapshotGeneration_ :
    Z) (db : SwEmbeddedDb) : SwEmbeddedDb :=
  mkDb (options_ db) (closing_ db) (manifest_ db) (mutable_ db) (immutables_ db) (tableHandles_ db)
    (primaryTableHandlesNewestFirst_ db) (indexTableHandlesNewestFirst_ db) (maxKnownPrimaryKey_ db) v_writerSnapshotState_
    v_writerOverlay_ v_writerOverlaySnapshot_ (applyGeneration_ db) v_writerSnapshotGeneration_
    v_writerOverlaySnapshotGeneration_ (activeWalFileId_ db) (pendingWrites_ db) (flushScheduled_ db) (compactionScheduled_
    db) (lastVisibleSequence_ db) (lastDurableSequence_ db) (nextSequence_ db) (backgroundPool_ db) (files db).

Definition set_overlaySnapshot (v_writerOverlaySnapshot_ : option WriterOverlay_) (v_writerOverlaySnapshotGeneration_ : Z) (db
    : SwEmbeddedDb) : SwEmbeddedDb :=
  mkDb (options_ db) (closing_ db) (manifest_ db) (mutable_ db) (immutables_ db) (tableHandles_ db)
    (primaryTableHandlesNewestFirst_ db) (indexTableHandlesNewestFirst_ db) (maxKnownPrimaryKey_ db) (writerSnapshotState_ db)
    (writerOverlay_ db) v_writerOverlaySnapshot_ (applyGeneration_ db) (writerSnapshotGeneration_ db)
    v_writerOverlaySnapshotGeneration_ (activeWalFileId_ db) (pendingWrites_ db) (flushScheduled_ db) (compactionScheduled_
    db) (lastVisibleSequence_ db) (lastDurableSequence_ db) (nextSequence_ db) (backgroundPool_ db) (files db).

(** [resetState]: what a database is before it is opened; the files stay. *)
Definition resetState (options : SwEmbeddedDbOptions) (f : Files) : SwEmbeddedDb :=
  mkDb options false emptyManifest MemTable.empty [] [] [] [] [] None noOverlay None 0 0 0 0 [] false false 0 0 1 [] f.

Definition set_files_ (tableFiles : ByteMap.t (list byte)) (blobFiles : BlobFiles) (db : SwEmbeddedDb) : SwEmbeddedDb :=
  set_files (mkFiles tableFiles blobFiles (walFiles (files db)) (current (files db))) db.

Definition addTables (added : list TableMeta_) (m : Manifest_) : Manifest_ :=
  mkManifest (manifestId m) (mf_maxSequence m) (replayFromWalId m) (activeWalId m) (nextWalId m) (nextTableId m) (tables m ++ added).

Definition set_tables (v : list TableMeta_) (m : Manifest_) : Manifest_ :=
  mkManifest (manifestId m) (mf_maxSequence m) (replayFromWalId m) (activeWalId m) (nextWalId m) (nextTableId m) v.

Definition set_replayFromWalId (v : Z) (m : Manifest_) : Manifest_ :=
  mkManifest (manifestId m) (mf_maxSequence m) v (activeWalId m) (nextWalId m) (nextTableId m) (tables m).

(** ** Lookup *)

Definition get_blobs (db : SwEmbeddedDb) : BlobFiles := blobFiles (files db).

(** What a lookup answers for a record it found: whether it may be used, and the
    record, whose value is resolved if that is asked for. *)
Definition foundRecord (db : SwEmbeddedDb) (resolveValue : bool) (record : PrimaryRecord_) : bool * PrimaryRecord_ :=
  if pr_deleted record then (false, record)
  else if negb resolveValue then (true, record)
  else match resolveValueLocked_ (get_blobs db) record with
       | Some record => (true, record)
       | None => (false, record)
       end.

(** The tables one after the other; a payload that cannot be read leaves a record with
    its sequence number. *)
Fixpoint lookupTables (db : SwEmbeddedDb) (handles : list table_handle) (primaryKey : list byte) (resolveValue : bool) :
    bool * PrimaryRecord_ :=
  match handles with
  | [] => (false, emptyRecord false 0)
  | handle :: handles =>
      match tableFind primaryKey handle with
      | None => lookupTables db handles primaryKey resolveValue
      | Some raw =>
          match storedRecord raw with
          | Some record => foundRecord db resolveValue record
          | None => (false, emptyRecord false (tr_sequence raw))
          end
      end
  end.

(** The immutable memtables, newest first. *)
Fixpoint lookupMems (mems : list MemTable_) (primaryKey : list byte) : option PrimaryRecord_ :=
  match mems with
  | [] => None
  | mem :: mems =>
      match ByteMap.find primaryKey (mt_primary mem) with
      | Some record => Some record
      | None => lookupMems mems primaryKey
      end
  end.

(** A key behind the greatest one ever seen is nowhere. *)
Definition knownAbsent (db : SwEmbeddedDb) (primaryKey : list byte) : bool :=
  negb (isEmpty (maxKnownPrimaryKey_ db)) && before (maxKnownPrimaryKey_ db) primaryKey.

Definition lookupPrimaryLocked_ (db : SwEmbeddedDb) (primaryKey : list byte) (resolveValue : bool) : bool * PrimaryRecord_ :=
  match lookupMems (mutable_ db :: reverse (immutables_ db)) primaryKey with
  | Some record => foundRecord db resolveValue record
  | None =>
      if knownAbsent db primaryKey then (false, emptyRecord false 0)
      else lookupTables db (primaryTableHandlesNewestFirst_ db) primaryKey resolveValue
  end.

(** [get] of a database that is open for writing. *)
Definition get (db : SwEmbeddedDb) (primaryKey : list byte) : SwDbStatus.t * option (list byte * SecondaryKeys) :=
  match lookupPrimaryLocked_ db primaryKey true with
  | (true, record) => (SwDbStatus.success, Some (pr_value record, pr_secondaryKeys record))
  | (false, _) => (SwDbStatus.mk SwDbStatus.NotFound "primary key not found", None)
  end.

(** ** The overlay of the writer's snapshot *)

Definition overlayActive_ (db : SwEmbeddedDb) : bool := if writerSnapshotState_ db is Some _ then true else false.

Definition invalidateWriterReadCacheLocked_ (db : SwEmbeddedDb) : SwEmbeddedDb := set_readCache None noOverlay None 0 0 db.

Definition recordSize (primaryKey : list byte) (record : PrimaryRecord_) : Z := (zlen primaryKey +u zlen (pr_value record)) +u 64.

Definition overlayStorePrimary (primaryKey : list byte) (record : PrimaryRecord_) (db : SwEmbeddedDb) : SwEmbeddedDb :=
  if negb (overlayActive_ db) then db
  else
    let o := writerOverlay_ db in
    let newBytes := recordSize primaryKey record in
    match ByteMap.find primaryKey (wo_primary o) with
    | Some it =>
        if pr_sequence it <=? pr_sequence record then
          let bytes := (wo_approximateBytes o -u Z.min (wo_approximateBytes o) (recordSize primaryKey it)) +u newBytes in
          set_writerOverlay_ (mkWriterOverlay (wo_baseSequence o) (wo_entryCount o) bytes
                                (ByteMap.insert primaryKey record (wo_primary o)) (wo_indexes o)) db
        else db
    | None =>
        set_writerOverlay_ (mkWriterOverlay (wo_baseSequence o) (wo_entryCount o +u 1) (wo_approximateBytes o +u newBytes)
                              (ByteMap.insert primaryKey record (wo_primary o)) (wo_indexes o)) db
    end.

(** One secondary key of the loop of [overlayStoreIndexEntries]. *)
Definition overlayStoreIndexEntry (primaryKey indexName : list byte) (sequence : Z) (deleted : bool) (o : WriterOverlay_)
    (secondaryKey : list byte) : WriterOverlay_ :=
  let bucket := default [] (ByteMap.find indexName (wo_indexes o)) in
  let entry := mkOverlayIndexEntry deleted sequence secondaryKey primaryKey in
  let compositeKey := encodeIndexCompositeKey_ secondaryKey primaryKey in
  match ByteMap.find compositeKey bucket with
  | Some entryIt =>
      if oi_sequence entryIt <=? sequence then
        mkWriterOverlay (wo_baseSequence o) (wo_entryCount o) (wo_approximateBytes o) (wo_primary o)
          (ByteMap.insert indexName (ByteMap.insert compositeKey entry bucket) (wo_indexes o))
      else o
  | None =>
      mkWriterOverlay (wo_baseSequence o) (wo_entryCount o +u 1) (wo_approximateBytes o +u (zlen compositeKey +u 48)) (wo_primary o)
        (ByteMap.insert indexName (ByteMap.insert compositeKey entry bucket) (wo_indexes o))
  end.

Definition overlayStoreIndexEntries (primaryKey : list byte) (secondaryKeys : SecondaryKeys) (sequence : Z) (deleted : bool)
    (db : SwEmbeddedDb) : SwEmbeddedDb :=
  if negb (overlayActive_ db) then db
  else
    set_writerOverlay_
      (fold_left (fun o it =>
           let bucket := default [] (ByteMap.find it.1 (wo_indexes o)) in
           let o := mkWriterOverlay (wo_baseSequence o) (wo_entryCount o) (wo_approximateBytes o) (wo_primary o)
                      (ByteMap.insert it.1 bucket (wo_indexes o)) in
           fold_left (overlayStoreIndexEntry primaryKey it.1 sequence deleted) it.2 o)
         secondaryKeys (writerOverlay_ db)) db.

Definition overlayMaybeCollapse (db : SwEmbeddedDb) : SwEmbeddedDb :=
  match writerSnapshotState_ db with
  | None => db
  | Some base =>
      let byteLimit := 2 * 1024 * 1024 in
      let byteLimit := match ss_readModel base with
                       | Some readModel => Z.max byteLimit (rm_approximateBytes readModel / 8)
                       | None => byteLimit
                       end in
      if (65536 <? wo_entryCount (writerOverlay_ db)) || (byteLimit <? wo_approximateBytes (writerOverlay_ db))
      then invalidateWriterReadCacheLocked_ db
      else db
  end.

(** ** Applying a batch *)

Definition update_mutable (f : MemTable_ -> MemTable_) (db : SwEmbeddedDb) : SwEmbeddedDb := set_mutable_ (f (mutable_ db)) db.

(** The bucket of an index, made if it is not there. *)
Definition touchBucket (indexName : list byte) (m : MemTable_) : MemTable_ :=
  match ByteMap.find indexName (secondary m) with
  | Some _ => m
  | None => MemTable.set_secondary (ByteMap.insert indexName [] (secondary m)) m
  end.

Definition emitEntry (primaryKey indexName : list byte) (sequence : Z) (deleted : bool) (m : MemTable_) (secondaryKey : list byte) :
    MemTable_ :=
  let bucket := default [] (ByteMap.find indexName (secondary m)) in
  let compositeKey := encodeIndexCompositeKey_ secondaryKey primaryKey in
  let bucket := MemTable.storeUnlessNewer se_sequence compositeKey (mkSecondaryEntry deleted sequence) bucket in
  MemTable.addBytes ((zlen primaryKey +u zlen secondaryKey) +u 32)
    (MemTable.set_secondary (ByteMap.insert indexName bucket (secondary m)) m).

(** [emitSecondaryTombstonesLocked] and [emitSecondaryUpsertsLocked], which differ in
    [deleted]. *)
Definition emitSecondary (deleted : bool) (primaryKey : list byte) (secondaryKeys : SecondaryKeys) (sequence : Z)
    (db : SwEmbeddedDb) : SwEmbeddedDb :=
  let db := overlayStoreIndexEntries primaryKey secondaryKeys sequence deleted db in
  update_mutable (fun m =>
      fold_left (fun m it => fold_left (emitEntry primaryKey it.1 sequence deleted) it.2 (touchBucket it.1 m)) secondaryKeys m) db.

Definition emitSecondaryTombstonesLocked := emitSecondary true.
Definition emitSecondaryUpsertsLocked := emitSecondary false.

(** The names of the indexes whose order a batch changes. *)
Abbreviation Dirty := (ByteMap.t bool).

Definition markDirty (secondaryKeys : SecondaryKeys) (dirty : Dirty) : Dirty :=
  fold_left (fun dirty it => ByteMap.insert it.1 true dirty) secondaryKeys dirty.

Definition isPut (op : SwDbWriteBatch.Operation) : bool :=
  match SwDbWriteBatch.op_type op with SwDbWriteBatch.Put => true | SwDbWriteBatch.Erase => false end.

(** The journal and the sequence numbers a memtable covers, the buckets and the dirty
    names the puts of the batch need. *)
Definition coverBatch (sequence : Z) (db : SwEmbeddedDb) : SwEmbeddedDb :=
  update_mutable (fun m =>
      let active := activeWalId (manifest_ db) in
      let m := if (walId m =? 0) || (active <? walId m) then MemTable.set_walId active m else m in
      MemTable.set_seqs (if (minSeq m =? 0) || (sequence <? minSeq m) then sequence else minSeq m) (Z.max (maxSeq m) sequence) m) db.

Definition prepareOperation (s : SwEmbeddedDb * Dirty) (op : SwDbWriteBatch.Operation) : SwEmbeddedDb * Dirty :=
  if isPut op then
    (update_mutable (fun m => fold_left (fun m it => touchBucket it.1 m) (SwDbWriteBatch.op_secondaryKeys op) m) s.1,
     markDirty (SwDbWriteBatch.op_secondaryKeys op) s.2)
  else s.

Definition prepareBuckets (batch : SwDbWriteBatch.t) (db : SwEmbeddedDb) : SwEmbeddedDb * Dirty :=
  fold_left prepareOperation (SwDbWriteBatch.operations_ batch) (db, []).

(** What is known of a key before an operation: the record of the mutable memtable,
    whether there is a live record, and the record found ([sequence] 0 if none). *)
Definition previousOf (db : SwEmbeddedDb) (primaryKey : list byte) : option PrimaryRecord_ * bool * PrimaryRecord_ :=
  if knownAbsent db primaryKey then (None, false, emptyRecord false 0)
  else
    match ByteMap.find primaryKey (mt_primary (mutable_ db)) with
    | Some record => (Some record, negb (pr_deleted record), record)
    | None => let '(had, record) := lookupPrimaryLocked_ db primaryKey false in (None, had, record)
    end.

Definition raiseMaxKnown (primaryKey : list byte) (db : SwEmbeddedDb) : SwEmbeddedDb :=
  if isEmpty (maxKnownPrimaryKey_ db) || before (maxKnownPrimaryKey_ db) primaryKey then set_maxKnownPrimaryKey_ primaryKey db else db.

(** The record a put leaves. *)
Definition putRecord (sequence : Z) (op : SwDbWriteBatch.Operation) : PrimaryRecord_ :=
  if SwDbWriteBatch.op_valueInline op then
    mkPrimaryRecord false sequence true (SwDbWriteBatch.op_value op) None noBlobRef (SwDbWriteBatch.op_secondaryKeys op)
  else
    mkPrimaryRecord false sequence false [] None
      (mkBlobRef true (SwDbWriteBatch.op_blobFileId op) (SwDbWriteBatch.op_blobOffset op) (SwDbWriteBatch.op_blobLength op)
         (SwDbWriteBatch.op_blobCrc32 op) (SwDbWriteBatch.op_blobFlags op))
      (SwDbWriteBatch.op_secondaryKeys op).

(** [insert] of a key and a record that are moved: [emplace], which keeps what is
    there. *)
Definition emplace {A} (key : list byte) (v : A) (m : ByteMap.t A) : ByteMap.t A :=
  match ByteMap.find key m with Some _ => m | None => ByteMap.insert key v m end.

(** The record is stored over the one of the mutable memtable unless that is newer. *)
Definition storeMutable (moved : bool) (primaryKey : list byte) (mutableIt : option PrimaryRecord_) (record : PrimaryRecord_)
    (db : SwEmbeddedDb) : SwEmbeddedDb :=
  update_mutable (fun m =>
      MemTable.set_primary
        (match mutableIt with
         | Some it => if pr_sequence it <=? pr_sequence record then ByteMap.insert primaryKey record (mt_primary m) else mt_primary m
         | None => if moved then emplace primaryKey record (mt_primary m) else ByteMap.insert primaryKey record (mt_primary m)
         end) m) db.

Definition rememberBlobFile (op : SwDbWriteBatch.Operation) (db : SwEmbeddedDb) : SwEmbeddedDb :=
  if negb (SwDbWriteBatch.op_valueInline op) && (blobFileId (mutable_ db) =? 0)
  then update_mutable (MemTable.set_blobFileId (SwDbWriteBatch.op_blobFileId op)) db
  else db.

(** Where a batch stands: whether a record changed, and the dirty names. *)
Record Applying := mkApplying { ap_db : SwEmbeddedDb; ap_primaryOrderDirty : bool; ap_dirty : Dirty }.

(** The tombstones of the index entries of the record that is replaced. *)
Definition replacePrevious (primaryKey : list byte) (hadPrevious : bool) (previous : PrimaryRecord_) (sequence : Z) (a : Applying) :
    Applying :=
  if hadPrevious && negb (pr_deleted previous) then
    mkApplying (emitSecondaryTombstonesLocked primaryKey (pr_secondaryKeys previous) sequence (ap_db a)) (ap_primaryOrderDirty a)
      (markDirty (pr_secondaryKeys previous) (ap_dirty a))
  else a.

(** The loop of [applyBatchLocked]. *)
Definition applyOperation (sequence : Z) (a : Applying) (op : SwDbWriteBatch.Operation) : Applying :=
  let key := SwDbWriteBatch.op_primaryKey op in
  let '(mutableIt, hadPrevious, previous) := previousOf (ap_db a) key in
  if sequence <? pr_sequence previous then a
  else
    let a := replacePrevious key hadPrevious previous sequence a in
    match SwDbWriteBatch.op_type op with
    | SwDbWriteBatch.Erase =>
        let db := raiseMaxKnown key (ap_db a) in
        let db := storeMutable false key mutableIt (emptyRecord true sequence) db in
        mkApplying (update_mutable (MemTable.addBytes (zlen key +u 24)) db) true (ap_dirty a)
    | SwDbWriteBatch.Put =>
        let db := rememberBlobFile op (ap_db a) in
        let db := storeMutable false key mutableIt (putRecord sequence op) db in
        let bytes := (zlen key +u (if SwDbWriteBatch.op_valueInline op then zlen (SwDbWriteBatch.op_value op) else 24)) +u 64 in
        let db := update_mutable (MemTable.addBytes bytes) db in
        let db := emitSecondaryUpsertsLocked key (SwDbWriteBatch.op_secondaryKeys op) sequence db in
        mkApplying (raiseMaxKnown key db) true (ap_dirty a)
    end.

(** The loop of [applyBatchLockedMutable]. *)
Definition applyOperationMutable (sequence : Z) (a : Applying) (op : SwDbWriteBatch.Operation) : Applying :=
  let key := SwDbWriteBatch.op_primaryKey op in
  let '(mutableIt, hadPrevious, previous) := previousOf (ap_db a) key in
  if sequence <? pr_sequence previous then a
  else
    let a := replacePrevious key hadPrevious previous sequence a in
    match SwDbWriteBatch.op_type op with
    | SwDbWriteBatch.Erase =>
        let record := emptyRecord true sequence in
        let db := storeMutable false key mutableIt record (ap_db a) in
        let db := overlayStorePrimary key record db in
        let db := update_mutable (MemTable.addBytes (zlen key +u 24)) db in
        mkApplying (raiseMaxKnown key db) true (ap_dirty a)
    | SwDbWriteBatch.Put =>
        let db := emitSecondaryUpsertsLocked key (SwDbWriteBatch.op_secondaryKeys op) sequence (ap_db a) in
        let db := raiseMaxKnown key db in
        let record := putRecord sequence op in
        let db := rememberBlobFile op db in
        let db := overlayStorePrimary key record db in
        let db := storeMutable true key mutableIt record db in
        let bytes := (zlen key +u (if SwDbWriteBatch.op_valueInline op then zlen (SwDbWriteBatch.op_value op) else 24)) +u 64 in
        mkApplying (update_mutable (MemTable.addBytes bytes) db) true (ap_dirty a)
    end.

(** The orders that changed are marked, and the sequence number is visible. *)
Definition finishBatch (sequence : Z) (a : Applying) : SwEmbeddedDb :=
  let db := if ap_primaryOrderDirty a then update_mutable MemTable.invalidatePrimaryOrder (ap_db a) else ap_db a in
  let db := update_mutable (fun m =>
      fold_left (fun m it => if (it.2 : bool) then MemTable.invalidateSecondaryOrder it.1 m else m) (ap_dirty a) m) db in
  set_lastVisibleSequence_ (Z.max (lastVisibleSequence_ db) sequence) db.

Definition applyBatchLocked (sequence : Z) (batch : SwDbWriteBatch.t) (db : SwEmbeddedDb) : SwEmbeddedDb :=
  let db := if overlayActive_ db then invalidateWriterReadCacheLocked_ db else db in
  let db := set_applyGeneration_ (applyGeneration_ db +u 1) db in
  let '(db, dirty) := prepareBuckets batch (coverBatch sequence db) in
  finishBatch sequence (fold_left (applyOperation sequence) (SwDbWriteBatch.operations_ batch) (mkApplying db false dirty)).

Definition applyBatchLockedMutable (sequence : Z) (batch : SwDbWriteBatch.t) (db : SwEmbeddedDb) : SwEmbeddedDb :=
  let db := set_applyGeneration_ (applyGeneration_ db +u 1) db in
  let '(db, dirty) := prepareBuckets batch (coverBatch sequence db) in
  finishBatch sequence (fold_left (applyOperationMutable sequence) (SwDbWriteBatch.operations_ batch) (mkApplying db false dirty)).

(** ** Rotation and the requests of writers *)

Definition hasRecords (m : MemTable_) : bool := negb (ByteMap.isEmpty (mt_primary m) && ByteMap.isEmpty (secondary m)).

Definition rotateMutableToImmutableLocked_ (db : SwEmbeddedDb) : SwEmbeddedDb :=
  if negb (hasRecords (mutable_ db)) then db
  else
    let m := manifest_ db in
    let db := set_immutables_ (immutables_ db ++ [mutable_ db]) db in
    let db := set_manifest_ (mkManifest (manifestId m) (mf_maxSequence m) (replayFromWalId m) (nextWalId m) (nextWalId m +u 1)
                               (nextTableId m) (tables m)) db in
    set_mutable_ (MemTable.set_walId (activeWalId (manifest_ db)) MemTable.empty) db.

Definition scheduleFlushLocked_ (db : SwEmbeddedDb) : SwEmbeddedDb :=
  if flushScheduled_ db || closing_ db || match immutables_ db with [] => true | _ => false end then db
  else set_backgroundPool_ (backgroundPool_ db ++ [FlushTask]) (set_flushScheduled_ true db).

(** The first locked part of [submitRequest]: the sequence number of the request. *)
Definition takeSequence (db : SwEmbeddedDb) : Z * SwEmbeddedDb := (nextSequence_ db, set_nextSequence_ (nextSequence_ db +u 1) db).

(** The second locked part: the batch is applied and the request, with the frame
    [walFrame] made of it between the two, is queued for the journal. *)
Definition submitApply (sequence : Z) (batch : SwDbWriteBatch.t) (walFrame : list byte) (db : SwEmbeddedDb) : SwEmbeddedDb :=
  let db := overlayMaybeCollapse (applyBatchLockedMutable sequence batch db) in
  let db := set_pendingWrites_ (pendingWrites_ db ++ [(sequence, walFrame)]) db in
  if memTableBytes (options_ db) <=? approximateBytes (mutable_ db)
  then scheduleFlushLocked_ (rotateMutableToImmutableLocked_ db)
  else db.

(** ** The write service *)

(** All that waits, and the greatest sequence number of it. *)
Definition drainWriteRequests_ (db : SwEmbeddedDb) : list (Z * list byte) * Z * SwEmbeddedDb :=
  let group := pendingWrites_ db in
  (group, fold_left (fun target request => Z.max target request.1) group 0, set_pendingWrites_ [] db).

(** The frames behind what the active journal has, and the file is synced. *)
Definition commitWriteRequests_ (group : list (Z * list byte)) (targetSequence : Z) (db : SwEmbeddedDb) : SwEmbeddedDb :=
  match group with
  | [] => db
  | _ =>
      let db := set_activeWalFileId_ (activeWalId (manifest_ db)) db in
      let name := walFileName_ (activeWalFileId_ db) in
      let f := files db in
      let walScratch := concat (map snd group) in
      let db := set_files (mkFiles (tableFiles f) (blobFiles f)
                   (ByteMap.insert name (default [] (ByteMap.find name (walFiles f)) ++ walScratch) (walFiles f)) (current f)) db in
      set_lastDurableSequence_ (Z.max (lastDurableSequence_ db) targetSequence) db
  end.

(** ** The manifest and the tables *)

Definition nextTableIdThreadSafe_ (db : SwEmbeddedDb) : Z * SwEmbeddedDb :=
  let m := manifest_ db in
  (nextTableId m, set_manifest_ (mkManifest (manifestId m) (mf_maxSequence m) (replayFromWalId m) (activeWalId m) (nextWalId m)
                                   (nextTableId m +u 1) (tables m)) db).

(** [persistManifestLocked], which [succeeds] or leaves [CURRENT] as it is. *)
Definition persistManifestLocked (succeeds : bool) (db : SwEmbeddedDb) : bool * SwEmbeddedDb :=
  if succeeds then
    let m := manifest_ db in
    let f := files db in
    (true, set_manifest_ (mkManifest (manifestId m +u 1) (mf_maxSequence m) (replayFromWalId m) (activeWalId m) (nextWalId m)
                            (nextTableId m) (tables m))
             (set_files (mkFiles (tableFiles f) (blobFiles f) (walFiles f) (Some m)) db))
  else (false, db).

Definition newestFirst_le (a b : TableMeta_) : Prop := compareTableMetaNewestFirst_ b a = false.
Definition oldestFirst_le (a b : TableMeta_) : Prop := compareTableMetaOldestFirst_ b a = false.

#[export] Instance newestFirst_le_dec a b : Decision (newestFirst_le a b).
Proof. unfold newestFirst_le. apply _. Defined.

#[export] Instance oldestFirst_le_dec a b : Decision (oldestFirst_le a b).
Proof. unfold oldestFirst_le. apply _. Defined.

Definition cacheTable (handles : ByteMap.t table_handle) (c : list table_handle * ByteMap.t (list table_handle) * list byte)
    (meta : TableMeta_) : list table_handle * ByteMap.t (list table_handle) * list byte :=
  let '(primary, index, maxKnown) := c in
  match ByteMap.find (tm_fileName meta) handles with
  | None => c
  | Some handle =>
      if tm_kind meta =? TableKindPrimary then
        (primary ++ [handle], index,
         if negb (isEmpty (tableMaxKey handle)) && (isEmpty maxKnown || before maxKnown (tableMaxKey handle))
         then tableMaxKey handle else maxKnown)
      else if tm_kind meta =? TableKindIndex then
        (primary, ByteMap.insert (tm_indexName meta) (default [] (ByteMap.find (tm_indexName meta) index) ++ [handle]) index, maxKnown)
      else c
  end.

Definition rebuildTableCachesLocked_ (db : SwEmbeddedDb) : SwEmbeddedDb :=
  let sortedTables := merge_sort newestFirst_le (tables (manifest_ db)) in
  let '(primary, index, maxKnown) := fold_left (cacheTable (tableHandles_ db)) sortedTables ([], [], maxKnownPrimaryKey_ db) in
  set_tableCaches primary index maxKnown db.

(** [removeAt] of the first table with the file name. *)
Fixpoint removeTable (fileName : list byte) (metas : list TableMeta_) : list TableMeta_ :=
  match metas with
  | [] => []
  | meta :: metas => if bool_decide (tm_fileName meta = fileName) then metas else meta :: removeTable fileName metas
  end.

Definition removeTablesLocked_ (toRemove : list TableMeta_) (db : SwEmbeddedDb) : SwEmbeddedDb :=
  let db := fold_left (fun db meta =>
      let db := set_manifest_ (set_tables (removeTable (tm_fileName meta) (tables (manifest_ db))) (manifest_ db)) db in
      set_tableHandles_ (ByteMap.remove (tm_fileName meta) (tableHandles_ db)) db) toRemove db in
  rebuildTableCachesLocked_ (invalidateWriterReadCacheLocked_ db).

Definition installTables (added : list (TableMeta_ * table_handle)) (db : SwEmbeddedDb) : SwEmbeddedDb :=
  let db := fold_left (fun db it =>
      let db := set_manifest_ (addTables [it.1] (manifest_ db)) db in
      set_tableHandles_ (ByteMap.insert (tm_fileName it.1) it.2 (tableHandles_ db)) db) added db in
  rebuildTableCachesLocked_ db.

(** The oldest journal that a memtable or the active journal needs. *)
Definition oldestWalId (db : SwEmbeddedDb) : Z :=
  let replayFrom := if activeWalId (manifest_ db) =? 0 then 1 else activeWalId (manifest_ db) in
  fold_left (fun replayFrom mem => if walId mem =? 0 then replayFrom else Z.min replayFrom (walId mem))
    (mutable_ db :: immutables_ db) replayFrom.

Definition cleanupCoveredWalFilesLocked (db : SwEmbeddedDb) : SwEmbeddedDb :=
  let db := set_manifest_ (set_replayFromWalId (oldestWalId db) (manifest_ db)) db in
  let f := files db in
  let covered name :=
    let id := parseNumericSuffix_ name (str "WAL-") (str ".log") in
    negb (id =? 0) && (id <? replayFromWalId (manifest_ db)) && negb (id =? activeWalFileId_ db) in
  set_files (mkFiles (tableFiles f) (blobFiles f) (List.filter (fun e => negb (covered e.1)) (walFiles f)) (current f)) db.

(** ** Flushing a memtable *)

(** [SwString("L") + SwString::number(level) + "-" + SwString::number(fileId) + ".sst"] *)
Definition tableFileName (level fileId : Z) : list byte :=
  str "L" ++ NumberText.number level ++ str "-" ++ NumberText.numberUnsignedImpl_ fileId 10 ++ str ".sst".

(** [externalizeBlobValueToFile_]: the value goes behind what the file has, and the
    record refers to it. *)
Definition externalizeBlobValueToFile_ (threshold blobFileId : Z) (record : PrimaryRecord_) (file : list byte) :
    PrimaryRecord_ * list byte :=
  if (blobFileId =? 0) || pr_deleted record || negb (pr_inlineValue record) then (record, file)
  else if zlen (pr_value record) <=? threshold then (record, file)
  else
    let offset := if isEmpty (pr_value record) then 0 else zlen file in
    (mkPrimaryRecord (pr_deleted record) (pr_sequence record) false [] (pr_jsonPayload record)
       (mkBlobRef true blobFileId offset (wrap32 (zlen (pr_value record))) (crc32OfByteArray_ (pr_value record)) 0)
       (pr_secondaryKeys record),
     file ++ pr_value record).

Definition blobFileHasData_ (blobFileId : Z) (blobs : BlobFiles) : bool :=
  negb (blobFileId =? 0) &&
  match ByteMap.find (blobFileName_ blobFileId) blobs with Some file => negb (isEmpty file) | None => false end.

(** [minSequence] and [maxSequence] after one more record. *)
Definition widen (range : Z * Z) (sequence : Z) : Z * Z :=
  (if range.1 =? 0 then sequence else Z.min range.1 sequence, Z.max range.2 sequence).

(** The loop of [flushMemTable_] over the primary keys. *)
Record Flushing := mkFlushing { fl_records : list TableRecord_; fl_range : Z * Z; fl_blobFileId : Z; fl_db : SwEmbeddedDb }.

Definition flushRecord (mem : MemTable_) (f : Flushing) (key : list byte) : Flushing :=
  match ByteMap.find key (mt_primary mem) with
  | None => f
  | Some record =>
      let range := widen (fl_range f) (pr_sequence record) in
      let threshold := inlineBlobThresholdBytes (options_ (fl_db f)) in
      if negb (pr_deleted record) && pr_inlineValue record && (threshold <? zlen (pr_value record)) then
        let '(blobFileId, db) := if fl_blobFileId f =? 0 then nextTableIdThreadSafe_ (fl_db f) else (fl_blobFileId f, fl_db f) in
        let name := blobFileName_ blobFileId in
        let '(record, file) :=
          externalizeBlobValueToFile_ threshold blobFileId record (default [] (ByteMap.find name (get_blobs db))) in
        mkFlushing (fl_records f ++ [rawRecord key record]) range blobFileId
          (set_files_ (tableFiles (files db)) (ByteMap.insert name file (get_blobs db)) db)
      else mkFlushing (fl_records f ++ [rawRecord key record]) range (fl_blobFileId f) (fl_db f)
  end.

(** [writeTableFile_] and [open] of the new table. *)
Definition writeAndOpen (meta : TableMeta_) (records : list TableRecord_) (db : SwEmbeddedDb) : result table_handle * SwEmbeddedDb :=
  match writeTable meta records with
  | Ok file =>
      (openTable file, set_files_ (ByteMap.insert (tm_fileName meta) file (tableFiles (files db))) (get_blobs db) db)
  | Err e => (Err e, db)
  | NoFuel => (NoFuel, db)
  end.

Definition flushPrimary (mem : MemTable_) (level : Z) (db : SwEmbeddedDb) : result (TableMeta_ * table_handle) * SwEmbeddedDb :=
  let '(fileId, db) := nextTableIdThreadSafe_ db in
  let f := fold_left (flushRecord mem) (MemTable.orderedPrimaryKeys mem).1 (mkFlushing [] (0, 0) (blobFileId mem) db) in
  let meta := mkTableMeta TableKindPrimary level fileId (fl_range f).1 (fl_range f).2 (zlen (fl_records f))
                (if blobFileHasData_ (fl_blobFileId f) (get_blobs (fl_db f)) then fl_blobFileId f else 0)
                (tableFileName level fileId) [] in
  let '(handle, db) := writeAndOpen meta (fl_records f) (fl_db f) in
  (handle ← handle; Ok (meta, handle), db).

Definition indexRecord (bucket : ByteMap.t SecondaryEntry_) (r : list TableRecord_ * (Z * Z)) (key : list byte) :
    list TableRecord_ * (Z * Z) :=
  match ByteMap.find key bucket with
  | None => r
  | Some entry =>
      (r.1 ++ [mkTableRecord key (se_sequence entry) (if se_deleted entry then RecordDeleted else 0) []], widen r.2 (se_sequence entry))
  end.

Definition flushIndex (mem : MemTable_) (level : Z) (indexName : list byte) (bucket : ByteMap.t SecondaryEntry_) (db : SwEmbeddedDb) :
    result (TableMeta_ * table_handle) * SwEmbeddedDb :=
  let '(fileId, db) := nextTableIdThreadSafe_ db in
  let '(records, range) := fold_left (indexRecord bucket) (MemTable.orderedSecondaryKeys indexName mem).1 ([], (0, 0)) in
  let meta := mkTableMeta TableKindIndex level fileId range.1 range.2 (zlen records) 0 (tableFileName level fileId) indexName in
  let '(handle, db) := writeAndOpen meta records db in
  (handle ← handle; Ok (meta, handle), db).

(** The indexes one after the other, up to one that fails. *)
Fixpoint flushIndexes (mem : MemTable_) (level : Z) (indexNames : list (list byte)) (newTables : list (TableMeta_ * table_handle))
    (db : SwEmbeddedDb) : result (list (TableMeta_ * table_handle)) * SwEmbeddedDb :=
  match indexNames with
  | [] => (Ok newTables, db)
  | indexName :: indexNames =>
      match ByteMap.find indexName (secondary mem) with
      | Some (_ :: _ as bucket) =>
          match flushIndex mem level indexName bucket db with
          | (Ok it, db) => flushIndexes mem level indexNames (newTables ++ [it]) db
          | (Err e, db) => (Err e, db)
          | (NoFuel, db) => (NoFuel, db)
          end
      | _ => flushIndexes mem level indexNames newTables db
      end
  end.

(** The part of [flushMemTable_] without the lock: the new tables, written and opened. *)
Definition prepareFlush (mem : MemTable_) (level : Z) (db : SwEmbeddedDb) : result (list (TableMeta_ * table_handle)) * SwEmbeddedDb :=
  let indexNames := sortKeys (ByteMap.keys (secondary mem)) in
  if ByteMap.isEmpty (mt_primary mem) then flushIndexes mem level indexNames [] db
  else match flushPrimary mem level db with
       | (Ok it, db) => flushIndexes mem level indexNames [it] db
       | (Err e, db) => (Err e, db)
       | (NoFuel, db) => (NoFuel, db)
       end.

(** ** Compaction *)

Definition kL0CompactionTrigger : Z := 4.
Definition kL1CompactionTrigger : Z := 4.

(** What is merged of a group, given its tables of levels 0 and 1. *)
Definition mergeGroup (l0 l1 : list TableMeta_) : list TableMeta_ :=
  let merge :=
    if (kL0CompactionTrigger <=? zlen l0) || (kL1CompactionTrigger <=? zlen l1) then
      l0 ++ (if (kL1CompactionTrigger <=? zlen l1) || match l1 with [] => true | _ => false end then l1 else [])
    else [] in
  if zlen merge <? 2 then [] else merge.

Definition primaryAt (level : Z) (metas : list TableMeta_) : list TableMeta_ :=
  List.filter (fun meta => (tm_kind meta =? TableKindPrimary) && (tm_level meta =? level)) metas.

Definition indexAt (level : Z) (indexName : list byte) (metas : list TableMeta_) : list TableMeta_ :=
  List.filter (fun meta => (tm_kind meta =? TableKindIndex) && (tm_level meta =? level) &&
                           bool_decide (tm_indexName meta = indexName)) metas.

(** The names of the indexes that have tables of level 0 or 1. *)
Definition indexNamesOf (metas : list TableMeta_) : list (list byte) :=
  ByteMap.keys (fold_left (fun names meta =>
      if (tm_kind meta =? TableKindIndex) && (tm_level meta <=? 1) then ByteMap.insert (tm_indexName meta) tt names else names) metas []).

(** [compactL0Locked]; the levels of a manifest are not negative. *)
Definition compactL0Locked (db : SwEmbeddedDb) : SwEmbeddedDb :=
  if compactionScheduled_ db || closing_ db then db
  else
    let metas := tables (manifest_ db) in
    let primaryMerge := mergeGroup (primaryAt 0 metas) (primaryAt 1 metas) in
    let indexMerge :=
      fold_left (fun m name =>
          match mergeGroup (indexAt 0 name metas) (indexAt 1 name metas) with
          | [] => m
          | merge => ByteMap.insert name merge m
          end) (indexNamesOf metas) [] in
    match primaryMerge, indexMerge with
    | [], [] => db
    | _, _ => set_backgroundPool_ (backgroundPool_ db ++ [CompactionTask primaryMerge indexMerge]) (set_compactionScheduled_ true db)
    end.

(** The handles of the tables that are merged, with whether one was missing. *)
Definition handlesOf (db : SwEmbeddedDb) (metas : list TableMeta_) : list (TableMeta_ * table_handle) :=
  omap (fun meta => handle ← ByteMap.find (tm_fileName meta) (tableHandles_ db); Some (meta, handle)) metas.

(** No table of level 1 of the group is left out. *)
Definition coversAllL1 (l1 merged : list TableMeta_) : bool :=
  forallb (fun meta => bool_decide (tm_fileName meta ∈ map tm_fileName merged)) l1.

(** The records of a group merged, and the range of all sequence numbers; [read] is how
    a record of the group is read. *)
Definition mergeGroupTable {A} (read : TableRecord_ -> option A) (sequence : A -> Z) (state : option (ByteMap.t A * (Z * Z)))
    (it : TableMeta_ * table_handle) : option (ByteMap.t A * (Z * Z)) :=
  state ← state;
  records ← tableAll it.2;
  fold_left (fun state raw =>
      '(latest, range) ← state;
      entry ← read raw;
      Some (MemTable.storeIfNewer sequence (tr_userKey raw) entry latest, widen range (sequence entry)))
    records (Some state).

Definition readEntry (raw : TableRecord_) : option SecondaryEntry_ := Some (mkSecondaryEntry (isDeleted raw) (tr_sequence raw)).

Definition entryRecord (key : list byte) (entry : SecondaryEntry_) : TableRecord_ :=
  mkTableRecord key (se_sequence entry) (if se_deleted entry then RecordDeleted else 0) [].

(** One group: the table it becomes, if it has records left, and the tables that go.
    [None] is what ends the compaction. *)
Definition compactGroup {A} (read : TableRecord_ -> option A) (sequence : A -> Z) (deleted : A -> bool)
    (raw : list byte -> A -> TableRecord_) (kind : Z) (indexName : list byte) (group : list TableMeta_) (coversAll : bool)
    (db : SwEmbeddedDb) : option (list (TableMeta_ * table_handle) * list TableMeta_) * SwEmbeddedDb :=
  let handles := handlesOf db group in
  match fold_left (mergeGroupTable read sequence) handles (Some ([], (0, 0))) with
  | None => (None, db)
  | Some (latest, range) =>
      let dropDeleted := (length handles =? length group)%nat && coversAll in
      let kept := List.filter (fun it => negb (dropDeleted && deleted it.2)) latest in
      match map (fun it => raw it.1 it.2) kept with
      | [] => (Some ([], map fst handles), db)
      | records =>
          let '(fileId, db) := nextTableIdThreadSafe_ db in
          let meta := mkTableMeta kind 1 fileId range.1 range.2 (zlen records) 0 (tableFileName 1 fileId) indexName in
          match writeAndOpen meta records db with
          | (Ok handle, db) => (Some ([(meta, handle)], map fst handles), db)
          | (_, db) => (None, db)
          end
      end
  end.

Definition compactPrimary (group : list TableMeta_) (db : SwEmbeddedDb) :=
  compactGroup storedRecord pr_sequence pr_deleted rawRecord TableKindPrimary [] group
    (coversAllL1 (primaryAt 1 (tables (manifest_ db))) group) db.

Definition compactIndex (indexName : list byte) (group : list TableMeta_) (db : SwEmbeddedDb) :=
  compactGroup readEntry se_sequence se_deleted entryRecord TableKindIndex indexName group
    (coversAllL1 (indexAt 1 indexName (tables (manifest_ db))) group) db.

Fixpoint compactIndexes (groups : list (list byte * list TableMeta_)) (newTables : list (TableMeta_ * table_handle))
    (toRemove : list TableMeta_) (db : SwEmbeddedDb) : option (list (TableMeta_ * table_handle) * list TableMeta_) * SwEmbeddedDb :=
  match groups with
  | [] => (Some (newTables, toRemove), db)
  | (indexName, group) :: groups =>
      match compactIndex indexName group db with
      | (Some (added, removed), db) => compactIndexes groups (newTables ++ added) (toRemove ++ removed) db
      | (None, db) => (None, db)
      end
  end.

(** [runL0Compaction] up to the lock it installs the tables under: the new tables,
    written and opened, and the tables that go. *)
Definition runCompaction (primaryTables : list TableMeta_) (indexTables : ByteMap.t (list TableMeta_)) (db : SwEmbeddedDb) :
    option (list (TableMeta_ * table_handle) * list TableMeta_) * SwEmbeddedDb :=
  match (match primaryTables with [] => (Some ([], []), db) | _ => compactPrimary primaryTables db end) with
  | (Some (newTables, toRemove), db) => compactIndexes indexTables newTables toRemove db
  | (None, db) => (None, db)
  end.

(** The locked end of [runL0Compaction]; the files of the merged tables are removed. *)
Definition finishCompaction (persisted : bool) (newTables : list (TableMeta_ * table_handle)) (toRemove : list TableMeta_)
    (db : SwEmbeddedDb) : SwEmbeddedDb :=
  if closing_ db then set_compactionScheduled_ false db
  else
    let backupManifest := manifest_ db in
    let backupHandles := tableHandles_ db in
    let db := installTables newTables (removeTablesLocked_ toRemove db) in
    match persistManifestLocked persisted db with
    | (false, db) =>
        set_compactionScheduled_ false
          (rebuildTableCachesLocked_ (set_tableHandles_ backupHandles (set_manifest_ backupManifest db)))
    | (true, db) =>
        let db := compactL0Locked (set_compactionScheduled_ false db) in
        set_files_ (fold_left (fun m meta => ByteMap.remove (tm_fileName meta) m) toRemove (tableFiles (files db))) (get_blobs db) db
    end.

(** The locked end of [flushMemTable_]. *)
Definition installFlush (persisted : bool) (mem : MemTable_) (newTables : list (TableMeta_ * table_handle)) (db : SwEmbeddedDb) :
    bool * SwEmbeddedDb :=
  let backupManifest := manifest_ db in
  let backupHandles := tableHandles_ db in
  let m := manifest_ db in
  let db := set_manifest_ (mkManifest (manifestId m) (Z.max (mf_maxSequence m) (maxSeq mem)) (replayFromWalId m) (activeWalId m)
                             (nextWalId m) (nextTableId m) (tables m)) db in
  let db := installTables newTables db in
  let db := set_manifest_ (set_replayFromWalId (oldestWalId db) (manifest_ db)) db in
  match persistManifestLocked persisted db with
  | (false, db) => (false, rebuildTableCachesLocked_ (set_tableHandles_ backupHandles (set_manifest_ backupManifest db)))
  | (true, db) => (true, if negb (closing_ db) then compactL0Locked (cleanupCoveredWalFilesLocked db) else db)
  end.

(** The locked parts of a round of [flushBackground_]: the memtable to flush, and what
    follows the flush of it. *)
Definition takeImmutable (db : SwEmbeddedDb) : option MemTable_ * SwEmbeddedDb :=
  match (if closing_ db then [] else immutables_ db) with
  | [] => (None, set_flushScheduled_ false db)
  | mem :: _ => (Some mem, db)
  end.

Definition dropImmutable (flushed : bool) (mem : MemTable_) (db : SwEmbeddedDb) : SwEmbeddedDb :=
  if negb flushed then set_flushScheduled_ false db
  else
    match immutables_ db with
    | first :: rest => if (walId first =? walId mem) && (maxSeq first =? maxSeq mem) then set_immutables_ rest db else db
    | [] => db
    end.

(** ** Snapshots *)

(** The tables that have handles, oldest first. *)
Definition primaryHandlesOldestFirst (db : SwEmbeddedDb) : list table_handle :=
  omap (fun meta => if tm_kind meta =? TableKindPrimary then ByteMap.find (tm_fileName meta) (tableHandles_ db) else None)
    (merge_sort oldestFirst_le (tables (manifest_ db))).

(** [createSnapshot]; [None] is a snapshot that is not valid. *)
Definition createSnapshot (db : SwEmbeddedDb) : option SnapshotState_ * SwEmbeddedDb :=
  let rebuild :=
    let mutableMem := mutable_ db in
    let immutableMems := immutables_ db in
    match buildReadModelLocked (lastVisibleSequence_ db) (primaryHandlesOldestFirst db) (immutables_ db) (mutable_ db) with
    | None => (None, db)
    | Some (readModel, immutables, mutable) =>
        let snapshot := mkSnapshot (lastVisibleSequence_ db) (Some readModel) None (Some mutableMem) immutableMems
                          (primaryTableHandlesNewestFirst_ db) in
        let db := set_immutables_ immutables (set_mutable_ mutable db) in
        (Some snapshot,
         set_readCache (Some snapshot) (mkWriterOverlay (lastVisibleSequence_ db) 0 0 [] []) None (applyGeneration_ db) 0 db)
    end in
  match writerSnapshotState_ db with
  | None => rebuild
  | Some base =>
      if writerSnapshotGeneration_ db =? applyGeneration_ db then (Some base, db)
      else if wo_baseSequence (writerOverlay_ db) =? ss_visibleSequence base then
        let reuse := if writerOverlaySnapshot_ db is Some _ then writerOverlaySnapshotGeneration_ db =? applyGeneration_ db else false in
        let db := if reuse then db else set_overlaySnapshot (Some (writerOverlay_ db)) (applyGeneration_ db) db in
        (Some (mkSnapshot (lastVisibleSequence_ db) (ss_readModel base) (writerOverlaySnapshot_ db) (ss_mutableMem base)
                 (ss_immutableMems base) (ss_primaryTablesNewestFirst base)), db)
      else rebuild
  end.

End Store.
