(* ===== verification/DbVersions.v ===== *)
(** What the store should hold, as versions of keys: of the operations on a key the one
    with the greatest sequence number counts, in whatever order batches arrive.  The
    live versions are the table that the batches make in the order of their numbers
    ([plainBatch] of DbContents.v).

    Where several tiers keep versions, the tiers are layers, newest first, and a key has
    the version of the first layer that has one. *)
From Stdlib Require Import ZArith Lia Strings.Byte Sorting.
From stdpp Require Import base list strings numbers option sorting.
From S2P Require Import Prelude SwString ByteMap Crypto DbCodec DbWal DbContents.

Import SwString.
Import DbCodec.
Import DbContents.

Module DbVersions.

(** The number of the batch, and what it put, or nothing where it erased. *)
Abbreviation Version := (Z * option Content)%type.
Abbreviation Versions := (ByteMap.t Version).

Section Versions_.

Context `{E : EVP}.

(** A batch with its sequence number. *)
Abbreviation Numbered := (Z * SwDbWriteBatch.t)%type.

Definition versionOf (sequence : Z) (op : SwDbWriteBatch.Operation) : Version :=
  (sequence, match SwDbWriteBatch.op_type op with
             | SwDbWriteBatch.Erase => None
             | SwDbWriteBatch.Put => Some (mkContent (opValue op) (SwDbWriteBatch.op_secondaryKeys op) sequence)
             end).

(** A version takes the place of one that is not newer. *)
Definition newerOf (old : option Version) (v : Version) : Version :=
  match old with Some old => if v.1 <? old.1 then old else v | None => v end.

Definition applyVersion (sequence : Z) (versions : Versions) (op : SwDbWriteBatch.Operation) : Versions :=
  let key := SwDbWriteBatch.op_primaryKey op in
  ByteMap.insert key (newerOf (ByteMap.find key versions) (versionOf sequence op)) versions.

Definition applyVersions (versions : Versions) (b : Numbered) : Versions :=
  fold_left (applyVersion b.1) (SwDbWriteBatch.operations_ b.2) versions.

Definition versionsOf (applied : list Numbered) : Versions := fold_left applyVersions applied [].

Definition live (versions : Versions) : Table := omap (fun e => c ← e.2.2; Some (e.1, c)) versions.

(** The table of batches applied in the order of their numbers. *)
Definition numbered_le (a b : Numbered) : Prop := a.1 <= b.1.

#[export] Instance numbered_le_dec a b : Decision (numbered_le a b).
Proof. unfold numbered_le. apply _. Defined.

Definition tableAt (applied : list Numbered) : Table :=
  fold_left (fun table b => plainBatch b.1 b.2 table) (merge_sort numbered_le applied) [].

(** *** One key *)

(** The last operation on a key. *)
Definition lastOp (key : list byte) (ops : list SwDbWriteBatch.Operation) : option SwDbWriteBatch.Operation :=
  fold_left (fun last op => if decide (SwDbWriteBatch.op_primaryKey op = key) then Some op else last) ops None.

Lemma lastOp_snoc key ops op :
  lastOp key (ops ++ [op]) = if decide (SwDbWriteBatch.op_primaryKey op = key) then Some op else lastOp key ops.
Proof. unfold lastOp. by rewrite fold_left_app. Qed.

Lemma find_applyVersions key b versions : ByteMap.find key (applyVersions versions b) =
  match lastOp key (SwDbWriteBatch.operations_ b.2) with
  | Some op => Some (newerOf (ByteMap.find key versions) (versionOf b.1 op))
  | None => ByteMap.find key versions
  end.
Proof.
  unfold applyVersions. induction (SwDbWriteBatch.operations_ b.2) as [|op ops IH] using rev_ind; [done|].
  rewrite fold_left_app, lastOp_snoc. cbn [fold_left]. unfold applyVersion at 1. rewrite ByteMap.find_after_insert.
  destruct (decide (SwDbWriteBatch.op_primaryKey op = key)) as [->|]; [|exact IH]. rewrite IH. f_equal.
  destruct (lastOp key ops) as [op'|]; [|done]. unfold newerOf at 1 3. cbn [versionOf fst].
  destruct (ByteMap.find key versions) as [[s v]|]; unfold newerOf; cbn [versionOf fst].
  - destruct (Z.ltb_spec b.1 s); cbn [fst versionOf]; [destruct (Z.ltb_spec b.1 s); [done|lia]|]. by rewrite Z.ltb_irrefl.
  - by rewrite Z.ltb_irrefl.
Qed.

Lemma find_plainBatch key sequence batch table : ByteMap.wf table -> ByteMap.find key (plainBatch sequence batch table) =
  match lastOp key (SwDbWriteBatch.operations_ batch) with
  | Some op => (versionOf sequence op).2
  | None => ByteMap.find key table
  end.
Proof.
  intros W. unfold plainBatch. induction (SwDbWriteBatch.operations_ batch) as [|op ops IH] using rev_ind; [done|].
  rewrite fold_left_app, lastOp_snoc. cbn [fold_left]. set (t := fold_left _ ops table) in *.
  assert (ByteMap.wf t) as Wt.
  { subst t. clear IH. revert table W. induction ops as [|o ops IH]; intros table W; [done|]. by apply IH, wf_plainApply. }
  assert (ByteMap.find key (plainApply sequence t op) =
    if decide (SwDbWriteBatch.op_primaryKey op = key) then (versionOf sequence op).2 else ByteMap.find key t) as ->.
  { unfold plainApply, versionOf. cbn [snd].
    destruct (SwDbWriteBatch.op_type op); rewrite ?ByteMap.find_after_insert, ?ByteMap.find_after_remove by done; by case_decide. }
  by case_decide.
Qed.

Lemma wf_applyVersions b versions : ByteMap.wf versions -> ByteMap.wf (applyVersions versions b).
Proof.
  unfold applyVersions. revert versions. induction (SwDbWriteBatch.operations_ b.2) as [|op ops IH]; intros versions W; [done|].
  by apply IH, ByteMap.wf_insert.
Qed.

Lemma wf_versionsFrom applied : forall versions, ByteMap.wf versions -> ByteMap.wf (fold_left applyVersions applied versions).
Proof. induction applied as [|b applied IH]; intros versions W; [done|]. by apply IH, wf_applyVersions. Qed.

Lemma wf_versionsOf applied : ByteMap.wf (versionsOf applied).
Proof. apply wf_versionsFrom, ByteMap.wf_nil. Qed.

(** *** Live versions *)

Lemma wf_live versions : ByteMap.wf versions -> ByteMap.wf (live versions).
Proof.
  induction 1 as [|[k [s c]] versions W IH Hall]; [constructor|]. unfold live in *. simpl. destruct c as [c|]; simpl; [|done].
  constructor; [done|]. apply list.Forall_forall. intros f Hf. apply list_elem_of_omap in Hf as ([k' [s' c']] & Hin & He).
  rewrite list.Forall_forall in Hall. apply Hall in Hin. destruct c'; [|done]. by injection He as <-.
Qed.

Lemma find_live key versions : ByteMap.wf versions -> ByteMap.find key (live versions) = (v ← ByteMap.find key versions; v.2).
Proof.
  induction versions as [|[k [s c]] versions IH]; intros W; [done|]. pose proof (ByteMap.wf_tail _ _ W) as W'. unfold live in *. simpl.
  specialize (IH W'). destruct (decide (k = key)) as [->|N]; destruct c as [c|]; simpl.
  - by rewrite decide_True.
  - etransitivity; [exact IH|]. destruct (ByteMap.find key versions) as [v|] eqn:F; [|done]. apply ByteMap.find_elem in F.
    pose proof (ByteMap.wf_head _ _ _ W F) as B. simpl in B. by rewrite before_irrefl in B.
  - by rewrite decide_False.
  - done.
Qed.

(** *** The order of batches *)

Lemma newer_swap old v w : v.1 <> w.1 -> newerOf (Some (newerOf old v)) w = newerOf (Some (newerOf old w)) v.
Proof.
  destruct v as [a v], w as [b w]. simpl. intros N. unfold newerOf. destruct old as [[s u]|]; cbn [fst].
  - destruct (Z.ltb_spec a s), (Z.ltb_spec b s); cbn [fst];
      destruct (Z.ltb_spec a b), (Z.ltb_spec b a), (Z.ltb_spec a s), (Z.ltb_spec b s); done || lia.
  - destruct (Z.ltb_spec a b), (Z.ltb_spec b a); done || lia.
Qed.

Lemma apply_swap a b versions : a.1 <> b.1 -> ByteMap.wf versions ->
  applyVersions (applyVersions versions a) b = applyVersions (applyVersions versions b) a.
Proof.
  intros N W. apply ByteMap.wf_ext; try (by repeat apply wf_applyVersions). intros key. rewrite !find_applyVersions.
  destruct (lastOp key (SwDbWriteBatch.operations_ a.2)) as [opa|], (lastOp key (SwDbWriteBatch.operations_ b.2)) as [opb|]; try done.
  f_equal. by apply newer_swap.
Qed.

Lemma versions_permutation l l' : l ≡ₚ l' -> NoDup (map fst l) -> forall versions, ByteMap.wf versions ->
  fold_left applyVersions l versions = fold_left applyVersions l' versions.
Proof.
  induction 1 as [|b l l' _ IH|a b l|l l' l'' H1 IH1 H2 IH2]; intros Hn versions W; simpl in *; [done| | |].
  - apply NoDup_cons in Hn as [_ Hn]. by apply IH; [|apply wf_applyVersions].
  - rewrite apply_swap; [done| |done]. apply NoDup_cons in Hn as [Hn _]. rewrite elem_of_cons in Hn. tauto.
  - rewrite IH1 by done. apply IH2; [|done]. by rewrite <- (fmap_Permutation fst _ _ H1).
Qed.

Lemma versions_from applied key v : ByteMap.find key (versionsOf applied) = Some v -> v.1 ∈ map fst applied.
Proof.
  unfold versionsOf. revert v. induction applied as [|b applied IH] using rev_ind; intros v; [done|].
  rewrite fold_left_app, map_app, elem_of_app. cbn [fold_left]. rewrite find_applyVersions.
  destruct (lastOp key _) as [op|]; [|intros H; left; by apply IH]. intros [= <-]. unfold newerOf.
  destruct (ByteMap.find key _) as [old|]; [|right; left].
  destruct (Z.ltb_spec (versionOf b.1 op).1 old.1); [left; by apply IH|right; left].
Qed.

Lemma live_sorted applied : StronglySorted (fun a b : Numbered => a.1 < b.1) applied ->
  live (versionsOf applied) = fold_left (fun table b => plainBatch b.1 b.2 table) applied [] /\
  ByteMap.wf (fold_left (fun table b => plainBatch b.1 b.2 table) applied []).
Proof.
  induction applied as [|b applied IH] using rev_ind; intros Hs; [split; [done|constructor]|].
  assert (StronglySorted (fun a b : Numbered => a.1 < b.1) applied /\ Forall (fun a => a.1 < b.1) applied) as [Hs' Hb].
  { clear IH. induction applied as [|a applied IH]; [by split; constructor|]. inversion Hs as [|? ? H1 H2]; subst.
    destruct (IH H1) as [? ?]. apply Forall_app in H2 as [H2 H3]. split; constructor; try done. by inversion H3. }
  destruct (IH Hs') as [E1 W]. unfold versionsOf in *. rewrite !fold_left_app. cbn [fold_left].
  set (t := fold_left (fun table b => plainBatch b.1 b.2 table) applied []) in *.
  assert (ByteMap.wf (plainBatch b.1 b.2 t)) as W' by by apply wf_plainBatch.
  split; [|done]. pose proof (wf_versionsOf applied) as Wv. unfold versionsOf in Wv.
  apply ByteMap.wf_ext; [by apply wf_live, wf_applyVersions|done|]. intros key.
  rewrite find_live, find_applyVersions, find_plainBatch by (try apply wf_applyVersions; done).
  destruct (lastOp key _) as [op|]; [|by rewrite <- E1, find_live]. simpl. unfold newerOf.
  destruct (ByteMap.find key (fold_left applyVersions applied [])) as [old|] eqn:F; [|done].
  pose proof (versions_from applied key old F) as Hin. apply list_elem_of_fmap in Hin as (a & Ha & Hin).
  rewrite list.Forall_forall in Hb. specialize (Hb a Hin). cbn [versionOf fst].
  destruct (Z.ltb_spec b.1 old.1); [lia|done].
Qed.

#[export] Instance numbered_trans : Transitive numbered_le.
Proof. intros a b c. unfold numbered_le. lia. Qed.

#[export] Instance numbered_total : Total numbered_le.
Proof. intros a b. unfold numbered_le. lia. Qed.

(** Whatever the order of arrival, the live versions are the table of the batches in
    the order of their numbers. *)
Lemma live_versions applied : NoDup (map fst applied) -> live (versionsOf applied) = tableAt applied.
Proof.
  intros Hn. pose proof (merge_sort_Permutation numbered_le applied) as Hp. unfold versionsOf.
  rewrite (versions_permutation _ _ (Permutation_sym Hp) Hn []) by apply ByteMap.wf_nil. apply live_sorted.
  assert (NoDup (map fst (merge_sort numbered_le applied))) as Hn' by by rewrite (fmap_Permutation fst _ _ Hp).
  pose proof (StronglySorted_merge_sort numbered_le applied) as Hs.
  revert Hn' Hs. generalize (merge_sort numbered_le applied). clear. intros sorted Hn' Hs. revert Hn'.
  induction Hs as [|b l _ IH Hall]; [constructor|].
  intros [Hb Hn']%NoDup_cons. constructor; [by apply IH|]. rewrite list.Forall_forall in *. intros c Hc. specialize (Hall c Hc).
  unfold numbered_le in Hall. assert (b.1 <> c.1); [|lia]. intros Ebc. apply Hb. apply list_elem_of_fmap. by exists c.
Qed.

End Versions_.

(** ** Layers *)

Abbreviation Layer := (list byte -> option Version).

(** What the layers have under a key, newest layer first. *)
Definition column (layers : list Layer) (key : list byte) : list Version := omap (fun layer => layer key) layers.

Definition top (layers : list Layer) (key : list byte) : option Version := head (column layers key).

(** A newer layer has the greater number, or the same version. *)
Definition above (a b : Version) : Prop := b.1 < a.1 \/ a = b.

Definition ordered (layers : list Layer) : Prop := forall key, StronglySorted above (column layers key).

Lemma column_cons layer layers key :
  column (layer :: layers) key = match layer key with Some v => v :: column layers key | None => column layers key end.
Proof. done. Qed.

Lemma column_app a b key : column (a ++ b) key = column a key ++ column b key.
Proof. apply omap_app. Qed.

Lemma top_app a b key : top (a ++ b) key = match top a key with Some v => Some v | None => top b key end.
Proof. unfold top. rewrite column_app. by destruct (column a key). Qed.

Lemma top_cons layer layers key : top (layer :: layers) key = match layer key with Some v => Some v | None => top layers key end.
Proof. unfold top, column. simpl. by destruct (layer key). Qed.

Lemma above_trans a b c : above a b -> above b c -> above a c.
Proof. unfold above. intros [?| ->] [?| ->]; auto. left. lia. Qed.

Lemma column_sorted_app {A} (R : A -> A -> Prop) a b :
  StronglySorted R (a ++ b) <-> StronglySorted R a /\ StronglySorted R b /\ forall x y, x ∈ a -> y ∈ b -> R x y.
Proof.
  induction a as [|x a IH]; simpl.
  - split; [intros H; split; [constructor|]; split; [done|]; by intros ? ? ?%elem_of_nil|by intros (_ & ? & _)].
  - split.
    + intros H. inversion H as [|? ? H1 H2]; subst. apply IH in H1 as (H3 & H4 & H5). apply Forall_app in H2 as [H6 H7].
      split; [by constructor|]. split; [done|]. intros y z [->|Hy]%elem_of_cons Hz; [|auto]. rewrite list.Forall_forall in H7. auto.
    + intros (H1 & H2 & H3). inversion H1 as [|? ? H4 H5]; subst. constructor.
      * apply IH. split; [done|]. split; [done|]. intros y z Hy Hz. apply H3; [by right|done].
      * apply Forall_app. split; [done|]. apply list.Forall_forall. intros z Hz. apply H3; [left|done].
Qed.

Lemma top_greatest layers key v w : ordered layers -> top layers key = Some v -> w ∈ column layers key -> above v w.
Proof.
  intros Ho Ht Hw. specialize (Ho key). unfold top in Ht. destruct (column layers key) as [|x l]; [done|]. simpl in Ht.
  injection Ht as ->. inversion Ho as [|? ? _ Hall]; subst. apply elem_of_cons in Hw as [->|Hw]; [by right|].
  rewrite list.Forall_forall in Hall. auto.
Qed.

Lemma top_elem layers key v : top layers key = Some v -> v ∈ column layers key.
Proof. unfold top. destruct (column layers key); [done|]. intros [= ->]. left. Qed.

Lemma top_none layers key : top layers key = None -> column layers key = [].
Proof. unfold top. by destruct (column layers key). Qed.

(** Layers left out keep the rest in order. *)
Lemma ordered_omit a b c : ordered (a ++ b ++ c) -> ordered (a ++ c).
Proof.
  intros H key. specialize (H key). rewrite !column_app in *. apply column_sorted_app in H as (H1 & H2 & H3).
  apply column_sorted_app in H2 as (_ & H4 & _). apply column_sorted_app. split; [done|]. split; [done|]. intros x y Hx Hy. apply H3; [done|].
  apply elem_of_app. by right.
Qed.

(** A layer may be doubled. *)
Lemma ordered_double a layer layer' b : (forall key, layer' key = layer key) -> ordered (a ++ layer :: b) -> ordered (a ++ layer :: layer' :: b).
Proof.
  intros El H key. specialize (H key). rewrite column_app in *. unfold column in *. simpl in *. rewrite El.
  destruct (layer key) as [v|]; [|done]. apply column_sorted_app in H as (H1 & H2 & H3). apply column_sorted_app. split; [done|]. split.
  - inversion H2 as [|? ? H4 H5]; subst. constructor; [done|]. constructor; [by right|done].
  - intros x y Hx [->|Hy]%elem_of_cons; apply H3; try done. left.
Qed.

(** Layers may be merged into one that has, of every key, their top version or
    nothing, or that is not there. *)
Lemma ordered_merge a b c (merged : list Layer) :
  (forall key v, v ∈ column merged key -> column merged key = [v] /\ top b key = Some v) -> ordered (a ++ b ++ c) -> ordered (a ++ merged ++ c).
Proof.
  intros Hm H key. specialize (H key). rewrite !column_app in *. apply column_sorted_app in H as (H1 & H2 & H3).
  apply column_sorted_app in H2 as (H4 & H5 & H6). apply column_sorted_app. split; [done|].
  destruct (column merged key) as [|v l] eqn:Em.
  - simpl. split; [done|]. intros x y Hx Hy. apply H3; [done|]. apply elem_of_app. by right.
  - destruct (Hm key v) as [E1 E2]; [rewrite Em; left|]. rewrite Em in E1. injection E1 as ->. apply top_elem in E2. split.
    + simpl. constructor; [done|]. apply list.Forall_forall. intros y Hy. by apply H6.
    + intros x y Hx Hy. apply H3; [done|]. simpl in Hy. apply elem_of_cons in Hy as [->|Hy]; apply elem_of_app; auto.
Qed.

(** Changing the newest layer at a key to a greater number. *)
Lemma ordered_write (layer layer' : Layer) layers key v :
  ordered (layer :: layers) -> layer' key = Some v -> (forall k, k <> key -> layer' k = layer k) ->
  (forall w, w ∈ column layers key -> w.1 < v.1) -> ordered (layer' :: layers).
Proof.
  intros H Hk Hother Hv k. unfold column. simpl. destruct (decide (k = key)) as [->|N].
  - rewrite Hk. specialize (H key). unfold column in H. simpl in H. constructor.
    + destruct (layer key); [by inversion H|done].
    + apply list.Forall_forall. intros w Hw. left. by apply Hv.
  - rewrite Hother by done. apply (H k).
Qed.

End DbVersions.
