(* ===== verification/DbTiers.v ===== *)
(** The tiers of the persistent database as layers of versions (DbVersions.v), and
    that a lookup finds the version of the first layer that has one. *)
From Stdlib Require Import ZArith Lia Strings.Byte Sorting.
From stdpp Require Import base list strings numbers option sorting.
From S2P Require Import Prelude SwString ByteMap NumberText Crypto DbCodec DbWal DbContents DbTable DbMemTable DbSortedTables DbReadModel DbStore DbVersions.

Import SwString.
Import DbCodec.
Import DbContents.
Import DbVersions.

Module DbTiers.

Section Tiers.

Context `{E : EVP} `{C : Miniz} `{T : SortedTables}.

(** ** The version a record stands for *)

(** Of a record whose value is in it. *)
Definition memVersion (r : PrimaryRecord_) : Version :=
  (pr_sequence r, if pr_deleted r then None else Some (mkContent (pr_value r) (pr_secondaryKeys r) (pr_sequence r))).

Definition meaning (blobs : BlobFiles) (r : PrimaryRecord_) : option Version :=
  if pr_deleted r then Some (memVersion r) else memVersion <$> resolveValueLocked_ blobs r.

(** Records of under 256 MiB with their key, for which all lengths fit. *)
Definition small (key : list byte) (r : PrimaryRecord_) : Prop :=
  zlen key + zlen (pr_value r) + zlen (secondaryBytes (pr_secondaryKeys r)) < 2 ^ 28.

Lemma meaning_inline blobs r : pr_inlineValue r = true -> meaning blobs r = Some (memVersion r).
Proof. unfold meaning, resolveValueLocked_. intros ->. by destruct (pr_deleted r). Qed.

Lemma meaning_deleted blobs r v : meaning blobs r = Some v -> pr_deleted r = bool_decide (v.2 = None).
Proof.
  unfold meaning, memVersion. destruct (pr_deleted r) eqn:D; [intros [= <-]; done|].
  unfold resolveValueLocked_. destruct (_ || _); simpl; [intros [= <-]; simpl; by rewrite D|].
  destruct (ByteMap.find _ _) as [file|]; [simpl|done]. destruct (readAt _ _ _) as [value|]; [simpl|done].
  destruct (_ =? _); simpl; [|done]. intros [= <-]. simpl. by rewrite D.
Qed.

Lemma meaning_sequence blobs r v : meaning blobs r = Some v -> v.1 = pr_sequence r.
Proof.
  unfold meaning, memVersion. destruct (pr_deleted r) eqn:D; [intros [= <-]; done|].
  unfold resolveValueLocked_. destruct (_ || _); simpl; [intros [= <-]; done|].
  destruct (ByteMap.find _ _) as [file|]; [simpl|done]. destruct (readAt _ _ _) as [value|]; [simpl|done].
  destruct (_ =? _); simpl; [|done]. by intros [= <-].
Qed.

(** *** Blob files only grow *)

Definition blobs_grow (blobs blobs' : BlobFiles) : Prop :=
  forall name file, ByteMap.find name blobs = Some file -> exists more, ByteMap.find name blobs' = Some (file ++ more).

#[export] Instance blobs_grow_preorder : PreOrder blobs_grow.
Proof.
  split.
  - intros blobs name file H. exists []. by rewrite app_nil_r.
  - intros a b c H1 H2 name file H. destruct (H1 _ _ H) as (m1 & H3). destruct (H2 _ _ H3) as (m2 & H4).
    exists (m1 ++ m2). by rewrite app_assoc.
Qed.

Lemma meaning_grows blobs blobs' r v : blobs_grow blobs blobs' -> 0 <= br_offset (pr_blobRef r) -> 0 <= br_length (pr_blobRef r) ->
  meaning blobs r = Some v -> meaning blobs' r = Some v.
Proof.
  intros Hg Ho Hl. unfold meaning. destruct (pr_deleted r); [done|]. unfold resolveValueLocked_.
  destruct (_ || _); [done|]. destruct (ByteMap.find _ blobs) as [file|] eqn:F; [|done]. destruct (Hg _ _ F) as (more & ->). simpl.
  unfold readAt. destruct (Z.leb_spec (br_offset (pr_blobRef r) + br_length (pr_blobRef r)) (zlen file)); [|done].
  rewrite zlen_app. destruct (Z.leb_spec (br_offset (pr_blobRef r) + br_length (pr_blobRef r)) (zlen file + zlen more)); [|lia].
  rewrite drop_app_le by lia. by rewrite take_app_le by (rewrite length_drop; lia).
Qed.

(** ** Layers *)

Definition memLayer (m : MemTable_) : Layer := fun key => memVersion <$> ByteMap.find key (mt_primary m).

Definition tableLayer (blobs : BlobFiles) (h : table_handle) : Layer := fun key =>
  raw ← tableFind key h; r ← storedRecord raw; meaning blobs r.

(** A memtable as the database has them: values are in the records. *)
Definition entry_ok (e : list byte * PrimaryRecord_) : Prop := stored_ok e.2 /\ small e.1 e.2 /\ pr_inlineValue e.2 = true.

Definition mem_ok (m : MemTable_) : Prop := Forall entry_ok (mt_primary m).

(** A table whose records can all be read. *)
Definition raw_ok (blobs : BlobFiles) (raw : TableRecord_) : Prop := exists r,
  raw = rawRecord (tr_userKey raw) r /\ stored_ok r /\ small (tr_userKey raw) r /\ is_Some (meaning blobs r).

Definition table_ok (blobs : BlobFiles) (h : table_handle) : Prop := exists records,
  holds_records h records /\ Forall (raw_ok blobs) records.

Lemma stored_refs r : stored_ok r -> 0 <= br_offset (pr_blobRef r) /\ 0 <= br_length (pr_blobRef r).
Proof.
  intros [_ H]. destruct (pr_deleted r) eqn:D.
  - rewrite H. simpl. lia.
  - destruct H as (_ & _ & _ & H). destruct (pr_inlineValue r).
    + destruct H as [_ ->]. simpl. lia.
    + destruct H as (_ & _ & _ & H1 & H2 & _). unfold is_u64, u32_ok in *. lia.
Qed.

Lemma raw_ok_grows blobs blobs' raw : blobs_grow blobs blobs' -> raw_ok blobs raw -> raw_ok blobs' raw.
Proof.
  intros Hg (r & H1 & H2 & H3 & v & H4). exists r. split; [done|]. split; [done|]. split; [done|]. exists v.
  pose proof (stored_refs r H2) as []. by eapply meaning_grows.
Qed.

Lemma table_ok_grows blobs blobs' h : blobs_grow blobs blobs' -> table_ok blobs h -> table_ok blobs' h.
Proof.
  intros Hg (records & H1 & H2). exists records. split; [done|]. eapply Forall_impl; [exact H2|]. intros raw. by apply raw_ok_grows.
Qed.

(** What a table has under a key. *)
Lemma table_found blobs h key raw : table_ok blobs h -> tableFind key h = Some raw ->
  exists r v, storedRecord raw = Some r /\ meaning blobs r = Some v /\ stored_ok r /\ small key r /\ tableLayer blobs h key = Some v.
Proof.
  intros (records & (_ & _ & _ & Hf & _) & Hr) F. unfold tableLayer. rewrite F. rewrite Hf in F.
  apply TableHandle_.lookup_elem in F as [Hin Hk]. rewrite list.Forall_forall in Hr. destruct (Hr raw Hin) as (r & E1 & E2 & E3 & v & E4).
  exists r, v. assert (storedRecord raw = Some r) as Es by (rewrite E1; by apply read_written).
  rewrite Hk in E3. simpl. rewrite Es. done.
Qed.

Lemma table_missing blobs h key : tableFind key h = None -> tableLayer blobs h key = None.
Proof. unfold tableLayer. by intros ->. Qed.

Lemma tableLayer_grows blobs blobs' h key : blobs_grow blobs blobs' -> table_ok blobs h ->
  tableLayer blobs' h key = tableLayer blobs h key.
Proof.
  intros Hg Hh. destruct (tableFind key h) as [raw|] eqn:F; [|by rewrite !table_missing].
  destruct (table_found _ _ _ _ Hh F) as (r & v & H1 & H2 & H3 & _ & H4). rewrite H4. unfold tableLayer. rewrite F. simpl. rewrite H1. simpl.
  pose proof (stored_refs r H3) as []. by eapply meaning_grows.
Qed.

Lemma memLayer_elem m key r : mem_ok m -> ByteMap.find key (mt_primary m) = Some r -> entry_ok (key, r).
Proof. intros H F. apply ByteMap.find_elem in F. unfold mem_ok in H. rewrite list.Forall_forall in H. by apply H. Qed.

(** ** The tiers *)

Definition memLayers (db : SwEmbeddedDb) : list Layer := map memLayer (mutable_ db :: reverse (immutables_ db)).

Definition tableLayers (db : SwEmbeddedDb) : list Layer := map (tableLayer (get_blobs db)) (primaryTableHandlesNewestFirst_ db).

Definition tiers (db : SwEmbeddedDb) : list Layer := memLayers db ++ tableLayers db.

(** What is in the tiers can be read, and no key there counts as absent. *)
Record readable (db : SwEmbeddedDb) : Prop := {
  rd_mutable : mem_ok (mutable_ db);
  rd_immutables : Forall mem_ok (immutables_ db);
  rd_tables : Forall (table_ok (get_blobs db)) (primaryTableHandlesNewestFirst_ db);
  rd_known : forall key, column (tiers db) key <> [] -> before (maxKnownPrimaryKey_ db) key = false
}.

Lemma knownAbsent_empty db key : (column (tiers db) key <> [] -> before (maxKnownPrimaryKey_ db) key = false) ->
  knownAbsent db key = true -> column (tiers db) key = [].
Proof.
  intros H K. destruct (column (tiers db) key); [done|]. unfold knownAbsent in K. rewrite H in K by done. by rewrite andb_false_r in K.
Qed.

Lemma lookupMems_top mems key : top (map memLayer mems) key = memVersion <$> lookupMems mems key.
Proof.
  induction mems as [|m mems IH]; [done|]. rewrite map_cons, top_cons. unfold memLayer at 1. simpl.
  destruct (ByteMap.find key (mt_primary m)); [done|]. exact IH.
Qed.

Lemma lookupMems_ok mems key r : Forall mem_ok mems -> lookupMems mems key = Some r -> entry_ok (key, r).
Proof.
  induction 1 as [|m mems Hm _ IH]; [done|]. simpl. destruct (ByteMap.find key (mt_primary m)) as [r'|] eqn:F; [|exact IH].
  intros [= ->]. by apply (memLayer_elem m).
Qed.

(** The record that a lookup in the tables comes to. *)
Definition firstStored (handles : list table_handle) (key : list byte) : option PrimaryRecord_ :=
  head (omap (fun h => raw ← tableFind key h; storedRecord raw) handles).

Lemma lookupTables_first db handles key resolve : Forall (table_ok (get_blobs db)) handles ->
  lookupTables db handles key resolve =
    match firstStored handles key with Some r => foundRecord db resolve r | None => (false, emptyRecord false 0) end.
Proof.
  induction 1 as [|h handles Hh _ IH]; [done|]. unfold firstStored in *. simpl.
  destruct (tableFind key h) as [raw|] eqn:F; simpl; [|exact IH].
  destruct (table_found _ _ _ _ Hh F) as (r & v & H1 & _). by rewrite H1.
Qed.

Lemma firstStored_top blobs handles key : Forall (table_ok blobs) handles ->
  top (map (tableLayer blobs) handles) key = (r ← firstStored handles key; meaning blobs r) /\
  forall r, firstStored handles key = Some r -> is_Some (meaning blobs r).
Proof.
  induction 1 as [|h handles Hh _ IH]; [done|]. rewrite map_cons, top_cons. unfold firstStored in *. simpl.
  destruct (tableFind key h) as [raw|] eqn:F; simpl; [|by rewrite table_missing].
  destruct (table_found _ _ _ _ Hh F) as (r & v & H1 & H2 & _ & _ & H3). rewrite H1, H3. simpl. rewrite H2. split; [done|].
  intros r' [= <-]. by rewrite H2.
Qed.

(** A lookup comes to the record of the top version, or to none. *)
Lemma lookup_record db key resolve : readable db ->
  (top (tiers db) key = None /\ lookupPrimaryLocked_ db key resolve = (false, emptyRecord false 0)) \/
  exists r v, top (tiers db) key = Some v /\ meaning (get_blobs db) r = Some v /\
    lookupPrimaryLocked_ db key resolve = foundRecord db resolve r.
Proof.
  intros [H1 H2 H3 H4]. unfold lookupPrimaryLocked_, tiers, memLayers. rewrite top_app, lookupMems_top.
  destruct (lookupMems _ key) as [r|] eqn:F; simpl.
  - right. exists r, (memVersion r). split; [done|]. split; [|done]. apply meaning_inline.
    apply (lookupMems_ok (mutable_ db :: reverse (immutables_ db)) key); [|done]. constructor; [done|]. by apply Forall_reverse.
  - destruct (knownAbsent db key) eqn:K.
    + left. split; [|done]. apply knownAbsent_empty in K; [|by apply H4]. unfold tiers in K. rewrite column_app in K.
      apply app_eq_nil in K as [_ K]. unfold top. by rewrite K.
    + rewrite lookupTables_first by done. unfold tableLayers. destruct (firstStored_top (get_blobs db) _ key H3) as [-> Hs].
      destruct (firstStored _ key) as [r|]; [right|by left]. destruct (Hs r eq_refl) as (v & Hv). exists r, v. simpl. by rewrite Hv.
Qed.

Lemma get_top db key : readable db -> get db key =
  match top (tiers db) key with
  | Some (_, Some c) => (SwDbStatus.success, Some (c_value c, c_secondaryKeys c))
  | _ => (SwDbStatus.mk SwDbStatus.NotFound "primary key not found", None)
  end.
Proof.
  intros H. unfold get. destruct (lookup_record db key true H) as [[-> ->]|(r & v & -> & Hm & ->)]; [done|].
  unfold foundRecord. pose proof (meaning_deleted _ _ _ Hm) as Hd. unfold meaning in Hm. destruct (pr_deleted r).
  - destruct v as [s [c|]]; [by rewrite bool_decide_eq_false_2 in Hd|done].
  - destruct (resolveValueLocked_ (get_blobs db) r) as [r'|] eqn:R; [|done]. injection Hm as <-. simpl in Hd |- *.
    destruct (pr_deleted r') eqn:D; [|done]. by rewrite bool_decide_eq_true_2 in Hd.
Qed.

(** What is known of a key before an operation. *)
Lemma previous_top db key : readable db ->
  let '(mutableIt, hadPrevious, previous) := previousOf db key in
  mutableIt = ByteMap.find key (mt_primary (mutable_ db)) /\
  pr_sequence previous = match top (tiers db) key with Some v => v.1 | None => 0 end.
Proof.
  intros H. unfold previousOf. destruct (knownAbsent db key) eqn:K.
  - apply knownAbsent_empty in K; [|by apply H]. unfold top. rewrite K. split; [|done].
    unfold tiers, memLayers in K. simpl in K. unfold memLayer at 1 in K. by destruct (ByteMap.find key _).
  - destruct (ByteMap.find key (mt_primary (mutable_ db))) as [r|] eqn:F.
    + split; [done|]. unfold tiers, memLayers. simpl. rewrite top_cons. unfold memLayer at 1. by rewrite F.
    + pose proof (lookup_record db key false H) as Hl. destruct (lookupPrimaryLocked_ db key false) as [had record].
      split; [done|]. destruct Hl as [[-> [= _ ->]]|(r & v & -> & Hm & Hf)]; [done|].
      rewrite (meaning_sequence _ _ _ Hm). unfold foundRecord in Hf. by destruct (pr_deleted r); simpl in Hf; injection Hf as _ ->.
Qed.

End Tiers.

End DbTiers.
