(* ===== verification/DbApply.v ===== *)
(** Applying a batch to the persistent database: what it does to the versions, that the
    order of the keys that memtables remember stays right, and that replaying a batch is
    applying it. *)
From Stdlib Require Import ZArith Lia Strings.Byte Sorting.
From stdpp Require Import base list strings numbers option sorting.
From S2P Require Import Prelude SwString ByteMap NumberText Crypto DbCodec DbWal DbContents DbTable DbMemTable DbSortedTables DbReadModel DbStore DbVersions DbTiers.

Import SwString.
Import DbCodec.
Import DbContents.
Import DbVersions.
Import DbTiers.

Module DbApply.

Abbreviation Dirty := (ByteMap.t bool).

Lemma fold_left_inv {A B} (P : A -> Prop) (f : A -> B -> A) l : (forall a x, x ∈ l -> P a -> P (f a x)) -> forall a, P a -> P (fold_left f l a).
Proof.
  induction l as [|x l IH]; intros H a Ha; [done|]. apply IH; [|apply H; [left|done]]. intros b y Hy. apply H. by right.
Qed.

Section Apply.

Context `{E : EVP} `{C : Miniz} `{T : SortedTables}.

(** An operation as [put] and [erase] make it, whose bytes are under 256 MiB. *)
Inductive op_good : SwDbWriteBatch.Operation -> Prop :=
| good_put key value keys : keys_ok keys -> zlen key + zlen value + zlen (secondaryBytes keys) < 2 ^ 28 ->
    op_good (SwDbWriteBatch.putOperation key value keys)
| good_erase key : zlen key + 4 < 2 ^ 28 -> op_good (SwDbWriteBatch.eraseOperation key).

Definition batch_good (batch : SwDbWriteBatch.t) : Prop := Forall op_good (SwDbWriteBatch.operations_ batch).

(** The record an operation leaves. *)
Definition recordOf (sequence : Z) (op : SwDbWriteBatch.Operation) : PrimaryRecord_ :=
  match SwDbWriteBatch.op_type op with
  | SwDbWriteBatch.Put => putRecord sequence op
  | SwDbWriteBatch.Erase => emptyRecord true sequence
  end.

Lemma recordOf_version sequence op : op_good op -> memVersion (recordOf sequence op) = versionOf sequence op.
Proof. by destruct 1. Qed.

Lemma recordOf_sequence sequence op : pr_sequence (recordOf sequence op) = sequence.
Proof. unfold recordOf, putRecord. destruct (SwDbWriteBatch.op_type op); [|done]. by destruct (SwDbWriteBatch.op_valueInline op). Qed.

Lemma recordOf_ok sequence op : is_u64 sequence -> op_good op -> entry_ok (SwDbWriteBatch.op_primaryKey op, recordOf sequence op).
Proof.
  intros Hs [key value keys Hk Hl|key Hl]; (split; [split; [done|]|split; [|done]]).
  - assert (short (secondaryBytes keys) /\ short value) as [? ?] by (unfold short; split; lia). done.
  - exact Hl.
  - done.
  - unfold small. simpl. change (zlen (secondaryBytes [])) with 4. lia.
Qed.

(** ** What an operation leaves alone *)

Definition rest (db : SwEmbeddedDb) :=
  (options_ db, closing_ db, manifest_ db, immutables_ db, tableHandles_ db, primaryTableHandlesNewestFirst_ db,
   (indexTableHandlesNewestFirst_ db, activeWalFileId_ db, pendingWrites_ db, flushScheduled_ db, compactionScheduled_ db),
   (lastDurableSequence_ db, nextSequence_ db, backgroundPool_ db, files db)).

Lemma overlayIndex_rest key keys sequence deleted db : let db' := overlayStoreIndexEntries key keys sequence deleted db in
  rest db' = rest db /\ mutable_ db' = mutable_ db /\ maxKnownPrimaryKey_ db' = maxKnownPrimaryKey_ db /\
  lastVisibleSequence_ db' = lastVisibleSequence_ db.
Proof. unfold overlayStoreIndexEntries. by destruct (negb (overlayActive_ db)). Qed.

Lemma overlayPrimary_rest key record db : let db' := overlayStorePrimary key record db in
  rest db' = rest db /\ mutable_ db' = mutable_ db /\ maxKnownPrimaryKey_ db' = maxKnownPrimaryKey_ db /\
  lastVisibleSequence_ db' = lastVisibleSequence_ db.
Proof.
  unfold overlayStorePrimary. destruct (negb (overlayActive_ db)); [done|].
  destruct (ByteMap.find key (wo_primary (writerOverlay_ db))); [|done]. by destruct (_ <=? _).
Qed.

(** ** Orders that may be wrong *)

(** As [MemTable.ok], but for the order of the primary keys if [primary] and the order
    of the indexes marked. *)
Record ok_but (primary : bool) (marked : Dirty) (m : MemTable_) : Prop := {
  ob_primary : ByteMap.wf (mt_primary m);
  ob_buckets : forall name bucket, ByteMap.find name (secondary m) = Some bucket -> ByteMap.wf bucket;
  ob_primary_order : primary = false -> primaryOrderDirty_ m = false -> orderedPrimaryKeys_ m = ByteMap.keys (mt_primary m);
  ob_secondary_order : forall name bucket keys, ByteMap.find name marked <> Some true -> ByteMap.find name (secondary m) = Some bucket ->
    ByteMap.find name (secondaryOrderDirty_ m) = Some false -> ByteMap.find name (orderedSecondaryKeys_ m) = Some keys ->
    keys = ByteMap.keys bucket
}.

(** Names marked in one are marked in the other. *)
Definition marks (a b : Dirty) : Prop := forall name, ByteMap.find name a = Some true -> ByteMap.find name b = Some true.

#[export] Instance marks_preorder : PreOrder marks.
Proof. split; [by intros a name|]. intros a b c H1 H2 name H. auto. Qed.

Lemma ok_but_more primary marked primary' marked' m : (primary = true -> primary' = true) -> marks marked marked' ->
  ok_but primary marked m -> ok_but primary' marked' m.
Proof.
  intros Hp Hm [H1 H2 H3 H4]. constructor; try done.
  - intros ->. apply H3. destruct primary; [by discriminate Hp|done].
  - intros name bucket keys Hn. apply H4. intros Hn'. by apply Hn, Hm.
Qed.

Lemma ok_ok_but m : MemTable.ok m -> ok_but false [] m.
Proof. intros [H1 H2 H3 H4]. constructor; try done. intros name bucket keys _. apply H4. Qed.

Lemma marked_many keys marked : marks marked (markDirty keys marked) /\
  Forall (fun it => ByteMap.find it.1 (markDirty keys marked) = Some true) keys.
Proof.
  unfold markDirty. revert marked. induction keys as [|it keys IH]; intros marked; [split; [reflexivity|constructor]|].
  destruct (IH (ByteMap.insert it.1 true marked)) as [H1 H2]. cbn [fold_left]. split.
  - intros name H. apply H1. rewrite ByteMap.find_after_insert. by case_decide.
  - constructor; [|done]. apply H1. rewrite ByteMap.find_after_insert. by rewrite decide_True.
Qed.

Lemma touch_ok_but primary marked name m : ByteMap.find name marked = Some true -> ok_but primary marked m ->
  ok_but primary marked (touchBucket name m).
Proof.
  intros Hn Hm. unfold touchBucket. destruct (ByteMap.find name (secondary m)) eqn:F; [done|]. destruct Hm as [H1 H2 H3 H4].
  constructor; try done; simpl.
  - intros name' bucket. rewrite ByteMap.find_after_insert. case_decide; [intros [= <-]; constructor|apply H2].
  - intros name' bucket keys Hn'. rewrite ByteMap.find_after_insert. case_decide; [by subst|by apply H4].
Qed.

Lemma wf_storeUnlessNewer {A} (sequence : A -> Z) key v m : ByteMap.wf m -> ByteMap.wf (MemTable.storeUnlessNewer sequence key v m).
Proof.
  intros W. unfold MemTable.storeUnlessNewer. destruct (ByteMap.find key m); [|by apply ByteMap.wf_insert].
  destruct (_ <=? _); [by apply ByteMap.wf_insert|done].
Qed.

Lemma emitEntry_ok_but primary marked key name sequence deleted m secondaryKey : ByteMap.find name marked = Some true ->
  ok_but primary marked m -> ok_but primary marked (emitEntry key name sequence deleted m secondaryKey).
Proof.
  intros Hn [H1 H2 H3 H4]. constructor; try done; simpl.
  - intros name' bucket. rewrite ByteMap.find_after_insert. case_decide; [intros [= <-]|apply H2]. apply wf_storeUnlessNewer.
    destruct (ByteMap.find name (secondary m)) as [b|] eqn:F; [by eapply H2|constructor].
  - intros name' bucket keys Hn'. rewrite ByteMap.find_after_insert. case_decide; [by subst|by apply H4].
Qed.

(** What emitting index entries leaves alone. *)
Definition same_primary (m m' : MemTable_) : Prop :=
  mt_primary m' = mt_primary m /\ walId m' = walId m /\ blobFileId m' = blobFileId m /\ minSeq m' = minSeq m /\ maxSeq m' = maxSeq m.

Lemma emit_fold primary marked key keys sequence deleted m :
  Forall (fun it : list byte * list (list byte) => ByteMap.find it.1 marked = Some true) keys -> ok_but primary marked m ->
  let m' := fold_left (fun m it => fold_left (emitEntry key it.1 sequence deleted) it.2 (touchBucket it.1 m)) keys m in
  ok_but primary marked m' /\ same_primary m m'.
Proof.
  intros Hk Hm. apply (fold_left_inv (fun m' => ok_but primary marked m' /\ same_primary m m')); [|done].
  intros m' it Hin [Ho Hs]. rewrite list.Forall_forall in Hk. specialize (Hk it Hin).
  apply (fold_left_inv (fun m' => ok_but primary marked m' /\ same_primary m m')).
  - intros a x _ [Ha1 Ha2]. split; [by apply emitEntry_ok_but|exact Ha2].
  - split; [by apply touch_ok_but|]. unfold touchBucket. by destruct (ByteMap.find it.1 (secondary m')).
Qed.

Lemma emit_ok primary marked deleted key keys sequence db :
  Forall (fun it : list byte * list (list byte) => ByteMap.find it.1 marked = Some true) keys -> ok_but primary marked (mutable_ db) ->
  let db' := emitSecondary deleted key keys sequence db in
  rest db' = rest db /\ maxKnownPrimaryKey_ db' = maxKnownPrimaryKey_ db /\ lastVisibleSequence_ db' = lastVisibleSequence_ db /\
  ok_but primary marked (mutable_ db') /\ same_primary (mutable_ db) (mutable_ db').
Proof.
  intros Hk Hm. unfold emitSecondary. destruct (overlayIndex_rest key keys sequence deleted db) as (H1 & H2 & H3 & H4).
  set (db1 := overlayStoreIndexEntries key keys sequence deleted db) in *. cbn [update_mutable].
  split; [exact H1|]. split; [exact H3|]. split; [exact H4|]. cbn [set_mutable_ update_mutable mutable_]. rewrite H2. by apply emit_fold.
Qed.

(** The files a memtable is kept in and the numbers it covers. *)
Definition covers (m : MemTable_) : Z * Z * Z * Z := (walId m, blobFileId m, minSeq m, maxSeq m).

Lemma same_covers m m' : same_primary m m' -> covers m' = covers m.
Proof. intros (_ & H1 & H0 & H2 & H3). unfold covers. congruence. Qed.

(** ** One operation *)

(** A record stored under a key, with everything else as it was. *)
Record stores (key : list byte) (r : PrimaryRecord_) (db db' : SwEmbeddedDb) : Prop := {
  st_rest : rest db' = rest db;
  st_visible : lastVisibleSequence_ db' = lastVisibleSequence_ db;
  st_covers : covers (mutable_ db') = covers (mutable_ db);
  st_primary : mt_primary (mutable_ db') = ByteMap.insert key r (mt_primary (mutable_ db));
  st_known : before (maxKnownPrimaryKey_ db') key = false;
  st_known_more : forall k, before (maxKnownPrimaryKey_ db) k = false -> before (maxKnownPrimaryKey_ db') k = false
}.

Lemma raise_known key db : let db' := raiseMaxKnown key db in
  rest db' = rest db /\ mutable_ db' = mutable_ db /\ lastVisibleSequence_ db' = lastVisibleSequence_ db /\
  before (maxKnownPrimaryKey_ db') key = false /\
  forall k, before (maxKnownPrimaryKey_ db) k = false -> before (maxKnownPrimaryKey_ db') k = false.
Proof.
  unfold raiseMaxKnown. destruct (isEmpty (maxKnownPrimaryKey_ db) || before (maxKnownPrimaryKey_ db) key) eqn:E0; simpl.
  - split; [done|]. split; [done|]. split; [done|]. split; [apply before_irrefl|]. intros k Hk.
    destruct (before key k) eqn:B; [|done]. apply orb_true_iff in E0 as [E0|E0].
    + clear - E0 Hk B. revert E0 Hk. destruct (maxKnownPrimaryKey_ db); [|done]. intros _. destruct k; [by destruct key|done].
    + by rewrite (before_trans _ _ _ E0 B) in Hk.
  - apply orb_false_iff in E0 as [_ E0]. done.
Qed.

Lemma raise_knows key db : before (maxKnownPrimaryKey_ (raiseMaxKnown key db)) key = false.
Proof. by destruct (raise_known key db) as (_ & _ & _ & ? & _). Qed.

(** What is stored over the record of the mutable memtable, when that is not newer. *)
Lemma stored_over moved key mutableIt r db :
  mutableIt = ByteMap.find key (mt_primary (mutable_ db)) ->
  match mutableIt with Some it => pr_sequence it <= pr_sequence r | None => True end ->
  let db' := storeMutable moved key mutableIt r db in
  rest db' = rest db /\ maxKnownPrimaryKey_ db' = maxKnownPrimaryKey_ db /\ lastVisibleSequence_ db' = lastVisibleSequence_ db /\
  mt_primary (mutable_ db') = ByteMap.insert key r (mt_primary (mutable_ db)) /\ covers (mutable_ db') = covers (mutable_ db) /\
  (forall primary marked, ok_but primary marked (mutable_ db) -> ok_but true marked (mutable_ db')).
Proof.
  intros Hi Hs db'. assert (mt_primary (mutable_ db') = ByteMap.insert key r (mt_primary (mutable_ db))) as Hp.
  { subst db'. unfold storeMutable. cbn. destruct mutableIt as [it|].
    - destruct (Z.leb_spec (pr_sequence it) (pr_sequence r)); [done|lia].
    - destruct moved; [|done]. unfold emplace. by rewrite <- Hi. }
  split; [done|]. split; [done|]. split; [done|]. split; [exact Hp|]. split; [done|]. intros primary marked [H1 H2 H3 H4].
  constructor; [rewrite Hp; by apply ByteMap.wf_insert|done|done|done].
Qed.

Lemma ok_but_fields primary marked m m' : mt_primary m' = mt_primary m -> secondary m' = secondary m ->
  primaryOrderDirty_ m' = primaryOrderDirty_ m -> orderedPrimaryKeys_ m' = orderedPrimaryKeys_ m ->
  secondaryOrderDirty_ m' = secondaryOrderDirty_ m -> orderedSecondaryKeys_ m' = orderedSecondaryKeys_ m ->
  ok_but primary marked m -> ok_but primary marked m'.
Proof. intros E1 E2 E3 E4 E5 E6 [H1 H2 H3 H4]. constructor; rewrite ?E1, ?E2, ?E3, ?E4, ?E5, ?E6; done. Qed.

Lemma replace_ok key had previous sequence a : ok_but (ap_primaryOrderDirty a) (ap_dirty a) (mutable_ (ap_db a)) ->
  let a' := replacePrevious key had previous sequence a in
  rest (ap_db a') = rest (ap_db a) /\ maxKnownPrimaryKey_ (ap_db a') = maxKnownPrimaryKey_ (ap_db a) /\
  lastVisibleSequence_ (ap_db a') = lastVisibleSequence_ (ap_db a) /\ same_primary (mutable_ (ap_db a)) (mutable_ (ap_db a')) /\
  ok_but (ap_primaryOrderDirty a') (ap_dirty a') (mutable_ (ap_db a')) /\ marks (ap_dirty a) (ap_dirty a').
Proof.
  intros Hm. unfold replacePrevious. destruct (had && negb (pr_deleted previous)); [|do 4 (split; [done|]); split; [done|reflexivity]].
  destruct (marked_many (pr_secondaryKeys previous) (ap_dirty a)) as [H1 H2]. cbn [ap_db ap_dirty ap_primaryOrderDirty].
  destruct (emit_ok (ap_primaryOrderDirty a) (markDirty (pr_secondaryKeys previous) (ap_dirty a)) true key (pr_secondaryKeys previous)
    sequence (ap_db a) H2) as (H3 & H4 & H5 & H6 & H7); [by eapply ok_but_more|]. done.
Qed.

(** The operation is skipped when what is there is newer, and else stores its record. *)
Definition applied_op (sequence : Z) (op : SwDbWriteBatch.Operation) (a a' : Applying) : Prop :=
  ok_but (ap_primaryOrderDirty a') (ap_dirty a') (mutable_ (ap_db a')) /\ marks (ap_dirty a) (ap_dirty a') /\
  if sequence <? (previousOf (ap_db a) (SwDbWriteBatch.op_primaryKey op)).2.(pr_sequence) then a' = a
  else stores (SwDbWriteBatch.op_primaryKey op) (recordOf sequence op) (ap_db a) (ap_db a').

Lemma previous_mutable db key it had previous : previousOf db key = (Some it, had, previous) -> previous = it.
Proof.
  unfold previousOf. destruct (knownAbsent db key); [done|]. destruct (ByteMap.find key _); [by intros [= -> _ ->]|].
  by destruct (lookupPrimaryLocked_ db key false).
Qed.

(** The keys of a put are marked. *)
Definition marked_op (marked : Dirty) (op : SwDbWriteBatch.Operation) : Prop :=
  if isPut op then Forall (fun it => ByteMap.find it.1 marked = Some true) (SwDbWriteBatch.op_secondaryKeys op) else True.

Lemma marked_op_more marked marked' op : marks marked marked' -> marked_op marked op -> marked_op marked' op.
Proof. intros Hm. unfold marked_op. destruct (isPut op); [|done]. intros H. eapply Forall_impl; [exact H|]. intros it. apply Hm. Qed.

Lemma good_blob op db : op_good op -> rememberBlobFile op db = db.
Proof. by destruct 1. Qed.

Section Operation.

Context (sequence : Z) (op : SwDbWriteBatch.Operation) (a : Applying).
Hypothesis (Hop : op_good op) (Hmarked : marked_op (ap_dirty a) op)
  (Hm : ok_but (ap_primaryOrderDirty a) (ap_dirty a) (mutable_ (ap_db a)))
  (Hfind : (previousOf (ap_db a) (SwDbWriteBatch.op_primaryKey op)).1.1 =
           ByteMap.find (SwDbWriteBatch.op_primaryKey op) (mt_primary (mutable_ (ap_db a)))).

Lemma applyOperationMutable_ok : applied_op sequence op a (applyOperationMutable sequence a op).
Proof using All.
  unfold applied_op, applyOperationMutable. destruct (previousOf (ap_db a) _) as [[mutableIt had] previous] eqn:Ep. cbn [fst snd] in *.
  destruct (Z.ltb_spec sequence (pr_sequence previous)) as [|Hs]; [by split; [|split; [reflexivity|]]|].
  set (key := SwDbWriteBatch.op_primaryKey op) in *.
  assert (match mutableIt with Some it => pr_sequence it <= sequence | None => True end) as Hit.
  { destruct mutableIt as [it|]; [|done]. apply previous_mutable in Ep as ->. lia. }
  destruct (replace_ok key had previous sequence a Hm) as (R1 & R2 & R3 & R4 & R5 & R6).
  set (a1 := replacePrevious key had previous sequence a) in *. pose proof (same_covers _ _ R4) as R7. destruct R4 as (R4 & _).
  destruct (SwDbWriteBatch.op_type op) eqn:Eo; cbn [ap_db ap_dirty ap_primaryOrderDirty].
  - assert (Forall (fun it => ByteMap.find it.1 (ap_dirty a1) = Some true) (SwDbWriteBatch.op_secondaryKeys op)) as Hk.
    { pose proof (marked_op_more _ _ _ R6 Hmarked) as Hk. unfold marked_op, isPut in Hk. by rewrite Eo in Hk. }
    unfold emitSecondaryUpsertsLocked.
    destruct (emit_ok (ap_primaryOrderDirty a1) (ap_dirty a1) false key (SwDbWriteBatch.op_secondaryKeys op) sequence (ap_db a1) Hk R5)
      as (U1 & U2 & U3 & U4 & U5). set (db1 := emitSecondary _ _ _ _ _) in *. pose proof (same_covers _ _ U5) as U6. destruct U5 as (U5 & _).
    destruct (raise_known key db1) as (K1 & K2 & K3 & K4 & K5). set (db2 := raiseMaxKnown key db1) in *.
    rewrite good_blob by done.
    destruct (overlayPrimary_rest key (putRecord sequence op) db2) as (O1 & O2 & O3 & O4). set (db3 := overlayStorePrimary _ _ db2) in *.
    destruct (stored_over true key mutableIt (putRecord sequence op) db3) as (S1 & S2 & S3 & S4 & S6 & S5).
    { by rewrite O2, K2, U5, R4. }
    { destruct mutableIt as [it|]; [|done]. pose proof (recordOf_sequence sequence op) as Er. unfold recordOf in Er. rewrite Eo in Er. lia. }
    set (db4 := storeMutable _ _ _ _ db3) in *. split; [|split; [exact R6|]].
    + eapply ok_but_fields; [..|apply (S5 (ap_primaryOrderDirty a1))]; try done. by rewrite O2, K2.
    + constructor; cbn [update_mutable set_mutable_ mutable_ maxKnownPrimaryKey_ lastVisibleSequence_].
      * change (rest db4 = rest (ap_db a)). congruence.
      * congruence.
      * change (covers (mutable_ db4) = covers (mutable_ (ap_db a))). rewrite O2, K2 in S6. congruence.
      * change (mt_primary (mutable_ db4) = ByteMap.insert key (recordOf sequence op) (mt_primary (mutable_ (ap_db a)))).
        unfold recordOf. rewrite Eo, S4, O2, K2, U5, R4. done.
      * by rewrite S2, O3.
      * intros k Hk'. rewrite S2, O3. apply K5. by rewrite U2, R2.
  - destruct (stored_over false key mutableIt (emptyRecord true sequence) (ap_db a1)) as (S1 & S2 & S3 & S4 & S6 & S5); [by rewrite R4|done|].
    set (db1 := storeMutable _ _ _ _ _) in *.
    destruct (overlayPrimary_rest key (emptyRecord true sequence) db1) as (O1 & O2 & O3 & O4). set (db2 := overlayStorePrimary _ _ db1) in *.
    set (db3 := update_mutable (MemTable.addBytes (zlen key +u 24)) db2).
    destruct (raise_known key db3) as (K1 & K2 & K3 & K4 & K5). set (db4 := raiseMaxKnown key db3) in *. split; [|split; [exact R6|]].
    + rewrite K2. eapply ok_but_fields; [..|apply (S5 (ap_primaryOrderDirty a1)); exact R5]; cbn; by rewrite O2.
    + constructor.
      * change (rest db3) with (rest db2) in K1. congruence.
      * change (lastVisibleSequence_ db3) with (lastVisibleSequence_ db2) in K3. congruence.
      * rewrite K2. change (covers (mutable_ db2) = covers (mutable_ (ap_db a))). rewrite O2. congruence.
      * rewrite K2. change (mt_primary (mutable_ db2) = ByteMap.insert key (recordOf sequence op) (mt_primary (mutable_ (ap_db a)))).
        unfold recordOf. rewrite Eo, O2, S4, R4. done.
      * exact K4.
      * intros k Hk'. apply K5. change (before (maxKnownPrimaryKey_ db2) k = false). by rewrite O3, S2, R2.
Qed.

Lemma applyBatchOperation_ok : applied_op sequence op a (applyOperation sequence a op).
Proof using All.
  unfold applied_op, applyOperation. destruct (previousOf (ap_db a) _) as [[mutableIt had] previous] eqn:Ep. cbn [fst snd] in *.
  destruct (Z.ltb_spec sequence (pr_sequence previous)) as [|Hs]; [by split; [|split; [reflexivity|]]|].
  set (key := SwDbWriteBatch.op_primaryKey op) in *.
  assert (match mutableIt with Some it => pr_sequence it <= sequence | None => True end) as Hit.
  { destruct mutableIt as [it|]; [|done]. apply previous_mutable in Ep as ->. lia. }
  destruct (replace_ok key had previous sequence a Hm) as (R1 & R2 & R3 & R4 & R5 & R6).
  set (a1 := replacePrevious key had previous sequence a) in *. pose proof (same_covers _ _ R4) as R7. destruct R4 as (R4 & _).
  destruct (SwDbWriteBatch.op_type op) eqn:Eo; cbn [ap_db ap_dirty ap_primaryOrderDirty].
  - rewrite good_blob by done.
    destruct (stored_over false key mutableIt (putRecord sequence op) (ap_db a1)) as (S1 & S2 & S3 & S4 & S6 & S5).
    { by rewrite R4. }
    { destruct mutableIt as [it|]; [|done]. pose proof (recordOf_sequence sequence op) as Er. unfold recordOf in Er. rewrite Eo in Er. lia. }
    set (db1 := storeMutable _ _ _ _ _) in *. set (bytes := _ +u 64). set (db2 := update_mutable (MemTable.addBytes bytes) db1).
    assert (Forall (fun it => ByteMap.find it.1 (ap_dirty a1) = Some true) (SwDbWriteBatch.op_secondaryKeys op)) as Hk.
    { pose proof (marked_op_more _ _ _ R6 Hmarked) as Hk. unfold marked_op, isPut in Hk. by rewrite Eo in Hk. }
    unfold emitSecondaryUpsertsLocked.
    destruct (emit_ok true (ap_dirty a1) false key (SwDbWriteBatch.op_secondaryKeys op) sequence db2 Hk) as (U1 & U2 & U3 & U4 & U5).
    { eapply ok_but_fields; [..|apply (S5 (ap_primaryOrderDirty a1) (ap_dirty a1)); exact R5]; done. }
    set (db3 := emitSecondary _ _ _ _ _) in *. pose proof (same_covers _ _ U5) as U6. destruct U5 as (U5 & _).
    destruct (raise_known key db3) as (K1 & K2 & K3 & K4 & K5). set (db4 := raiseMaxKnown key db3) in *.
    change (rest db2) with (rest db1) in U1. change (maxKnownPrimaryKey_ db2) with (maxKnownPrimaryKey_ db1) in U2.
    change (lastVisibleSequence_ db2) with (lastVisibleSequence_ db1) in U3.
    change (mt_primary (mutable_ db2)) with (mt_primary (mutable_ db1)) in U5.
    split; [by rewrite K2|split; [exact R6|]]. constructor; try congruence.
    + change (covers (mutable_ db2)) with (covers (mutable_ db1)) in U6. rewrite K2. congruence.
    + unfold recordOf. rewrite Eo, K2, U5, S4, R4. done.
    + intros k Hk'. apply K5. by rewrite U2, S2, R2.
  - destruct (raise_known key (ap_db a1)) as (K1 & K2 & K3 & K4 & K5). set (db0 := raiseMaxKnown key (ap_db a1)) in *.
    destruct (stored_over false key mutableIt (emptyRecord true sequence) db0) as (S1 & S2 & S3 & S4 & S6 & S5); [by rewrite K2, R4|done|].
    set (db1 := storeMutable _ _ _ _ _) in *. split; [|split; [exact R6|]].
    + eapply ok_but_fields; [..|apply (S5 (ap_primaryOrderDirty a1)); rewrite K2; exact R5]; done.
    + constructor; cbn [update_mutable set_mutable_ mutable_ maxKnownPrimaryKey_ lastVisibleSequence_].
      * change (rest db1 = rest (ap_db a)). congruence.
      * congruence.
      * change (covers (mutable_ db1) = covers (mutable_ (ap_db a))). rewrite K2 in S6. congruence.
      * change (mt_primary (mutable_ db1) = ByteMap.insert key (recordOf sequence op) (mt_primary (mutable_ (ap_db a)))).
        unfold recordOf. rewrite Eo, S4, K2, R4. done.
      * by rewrite S2.
      * intros k Hk'. rewrite S2. apply K5. by rewrite R2.
Qed.

End Operation.

(** ** A batch *)

(** The tiers below the mutable memtable. *)
Definition lower (db : SwEmbeddedDb) : list Layer := map memLayer (reverse (immutables_ db)) ++ tableLayers db.

Lemma tiers_lower db : tiers db = memLayer (mutable_ db) :: lower db.
Proof. done. Qed.

Lemma rest_lower db db' : rest db' = rest db ->
  immutables_ db' = immutables_ db /\ primaryTableHandlesNewestFirst_ db' = primaryTableHandlesNewestFirst_ db /\
  get_blobs db' = get_blobs db /\ lower db' = lower db.
Proof.
  unfold rest. intros [= H1 H2 H3 H4 H5 H6 H7 H8 H9 H10 H11 H12 H13 H14 H15]. unfold lower, tableLayers, get_blobs.
  by rewrite H4, H6, H15.
Qed.

(** The version of a key is the one it should be, or its tombstone was dropped. *)
Definition agree (should have : option Version) : Prop := have = should \/ have = None /\ exists s, should = Some (s, None).

Section Batch.

(** The numbers in the lower tiers and in the mutable memtable, the keys that need not
    be right, and the number of the batch. *)
Context (known stored : Z -> Prop) (excused : list byte -> Prop) (sequence : Z).
Hypothesis (Hsequence : is_u64 sequence) (Hnew : ~ known sequence) (Hstored : stored sequence).

Record versions_ok (versions : Versions) (db : SwEmbeddedDb) : Prop := {
  vo_readable : readable db;
  vo_ordered : ordered (tiers db);
  vo_lower : forall key v, v ∈ column (lower db) key -> known v.1;
  vo_mutable : forall key v, memLayer (mutable_ db) key = Some v -> stored v.1;
  vo_agree : forall key, ~ excused key -> agree (ByteMap.find key versions) (top (tiers db) key)
}.

(** The batch is not behind a tombstone of the key that was dropped. *)
Definition timely (versions : Versions) (db : SwEmbeddedDb) (key : list byte) : Prop :=
  ~ excused key -> top (tiers db) key = None -> forall v, ByteMap.find key versions = Some v -> v.1 <= sequence.

Lemma store_ok versions op db db' : op_good op -> versions_ok versions db -> timely versions db (SwDbWriteBatch.op_primaryKey op) ->
  pr_sequence (previousOf db (SwDbWriteBatch.op_primaryKey op)).2 <= sequence ->
  stores (SwDbWriteBatch.op_primaryKey op) (recordOf sequence op) db db' ->
  versions_ok (applyVersion sequence versions op) db' /\
  forall k, timely versions db k -> timely (applyVersion sequence versions op) db' k.
Proof using Hsequence Hnew Hstored.
  intros Hop [Hr Ho Hl Hm Ha] Htimely Hs [S1 _ _ S2 S3 S4]. destruct (rest_lower _ _ S1) as (R1 & R2 & R3 & R4).
  set (key := SwDbWriteBatch.op_primaryKey op) in *.
  assert (forall k, memLayer (mutable_ db') k = if decide (key = k) then Some (versionOf sequence op) else memLayer (mutable_ db) k) as Hlayer.
  { intros k. unfold memLayer. rewrite S2, ByteMap.find_after_insert. case_decide; [|done]. simpl. by rewrite recordOf_version. }
  assert (column (tiers db') key = versionOf sequence op :: column (lower db) key) as Hcol.
  { by rewrite tiers_lower, R4, column_cons, Hlayer, decide_True by done. }
  assert (forall k, key <> k -> column (tiers db') k = column (tiers db) k) as Hother.
  { intros k N. by rewrite !tiers_lower, R4, !column_cons, Hlayer, decide_False by done. }
  pose proof (previous_top db key Hr) as Hp. destruct (previousOf db key) as [[mutableIt had] previous]. destruct Hp as [_ Hp].
  cbn [snd] in Hs. rewrite Hp in Hs.
  assert (top (tiers db') key = Some (versionOf sequence op)) as Htop by (unfold top; by rewrite Hcol).
  split; [constructor|].
  - destruct Hr as [H1 H2 H3 H4]. constructor; rewrite ?R1, ?R2, ?R3; try done.
    + unfold mem_ok. rewrite S2. apply list.Forall_forall. intros e [->|He]%ByteMap.insert_elem; [by apply recordOf_ok|].
      unfold mem_ok in H1. rewrite list.Forall_forall in H1. by apply H1.
    + intros k Hk. destruct (decide (key = k)) as [<-|N]; [done|]. apply S4, H4. by rewrite <- Hother.
  - rewrite tiers_lower, R4. eapply (ordered_write (memLayer (mutable_ db)) _ _ key (versionOf sequence op)); [by rewrite <- tiers_lower| | |].
    + by rewrite Hlayer, decide_True.
    + intros k N. by rewrite Hlayer, decide_False.
    + intros w Hw. cbn [versionOf fst]. pose proof (Hl key w Hw) as Hk. assert (w.1 <> sequence) by (by intros <-).
      destruct (top (tiers db) key) as [v|] eqn:Ht.
      * destruct (top_greatest _ _ _ w Ho Ht) as [?| ->]; [|lia..]. rewrite tiers_lower, column_cons.
        destruct (memLayer (mutable_ db) key); [by right|exact Hw].
      * apply top_none in Ht. rewrite tiers_lower, column_cons in Ht.
        destruct (memLayer (mutable_ db) key); [done|]. rewrite Ht in Hw. by apply elem_of_nil in Hw.
  - intros k v. rewrite R4. apply Hl.
  - intros k v. rewrite Hlayer. case_decide; [by intros [= <-]|apply Hm].
  - intros k Hk. unfold applyVersion. rewrite ByteMap.find_after_insert. fold key. destruct (decide (key = k)) as [<-|N].
    + left. rewrite Htop. f_equal. unfold newerOf. destruct (Ha key Hk) as [E1|(E1 & s & E2)].
      * rewrite <- E1. destruct (top (tiers db) key) as [v|]; [|done]. cbn [versionOf fst]. destruct (Z.ltb_spec sequence v.1); [lia|done].
      * rewrite E2. cbn [versionOf fst]. specialize (Htimely Hk E1 _ E2). cbn [fst] in Htimely. destruct (Z.ltb_spec sequence s); [lia|done].
    + unfold top. rewrite Hother by done. by apply Ha.
  - intros k Hk Hx. unfold applyVersion. rewrite ByteMap.find_after_insert. fold key. destruct (decide (key = k)) as [<-|N]; [by rewrite Htop|].
    unfold top in *. rewrite Hother by done. by apply Hk.
Qed.

Lemma skip_ok versions op db : versions_ok versions db ->
  sequence < pr_sequence (previousOf db (SwDbWriteBatch.op_primaryKey op)).2 ->
  versions_ok (applyVersion sequence versions op) db /\
  forall k, timely versions db k -> timely (applyVersion sequence versions op) db k.
Proof using Hsequence.
  intros [Hr Ho Hl Hm Ha] Hs. set (key := SwDbWriteBatch.op_primaryKey op) in *.
  pose proof (previous_top db key Hr) as Hp. destruct (previousOf db key) as [[mutableIt had] previous]. destruct Hp as [_ Hp].
  cbn [snd] in Hs. rewrite Hp in Hs. destruct (top (tiers db) key) as [v|] eqn:Ht; [|unfold is_u64 in Hsequence; lia]. split.
  2: { intros k Hk Hx Hn. unfold applyVersion. rewrite ByteMap.find_after_insert. fold key. case_decide; [by subst k; rewrite Ht in Hn|by apply Hk]. }
  constructor; try done. intros k Hk. unfold applyVersion. rewrite ByteMap.find_after_insert.
  fold key. case_decide as E0; [subst k|by apply Ha]. rewrite Ht. specialize (Ha key Hk). rewrite Ht in Ha.
  destruct Ha as [Ha|[? _]]; [|done]. rewrite <- Ha. left. unfold newerOf. cbn [versionOf fst]. destruct (Z.ltb_spec sequence v.1); [done|lia].
Qed.

(** The operations of a batch, by either of the loops. *)
Lemma operations_ok (step : Applying -> SwDbWriteBatch.Operation -> Applying) ops :
  (forall a op, op_good op -> marked_op (ap_dirty a) op -> ok_but (ap_primaryOrderDirty a) (ap_dirty a) (mutable_ (ap_db a)) ->
    (previousOf (ap_db a) (SwDbWriteBatch.op_primaryKey op)).1.1 =
      ByteMap.find (SwDbWriteBatch.op_primaryKey op) (mt_primary (mutable_ (ap_db a))) ->
    applied_op sequence op a (step a op)) ->
  Forall op_good ops -> forall a versions, Forall (marked_op (ap_dirty a)) ops ->
  ok_but (ap_primaryOrderDirty a) (ap_dirty a) (mutable_ (ap_db a)) -> versions_ok versions (ap_db a) ->
  Forall (fun op => timely versions (ap_db a) (SwDbWriteBatch.op_primaryKey op)) ops ->
  let a' := fold_left step ops a in
  versions_ok (fold_left (applyVersion sequence) ops versions) (ap_db a') /\
  ok_but (ap_primaryOrderDirty a') (ap_dirty a') (mutable_ (ap_db a')) /\ rest (ap_db a') = rest (ap_db a) /\
  lastVisibleSequence_ (ap_db a') = lastVisibleSequence_ (ap_db a) /\ covers (mutable_ (ap_db a')) = covers (mutable_ (ap_db a)).
Proof using Hsequence Hnew Hstored.
  intros Hstep. induction 1 as [|op ops Hop _ IH]; intros a versions Hd Hm Hv Ht; [done|]. apply Forall_cons in Hd as [Hd1 Hd2].
  apply Forall_cons in Ht as [Ht1 Ht2].
  assert (applied_op sequence op a (step a op)) as (H1 & H2 & H3).
  { apply Hstep; try done. pose proof (previous_top (ap_db a) (SwDbWriteBatch.op_primaryKey op) (vo_readable _ _ Hv)) as Hp.
    destruct (previousOf _ _) as [[mutableIt had] previous]. by destruct Hp as [-> _]. }
  assert (Forall (marked_op (ap_dirty (step a op))) ops) as Hd3.
  { eapply Forall_impl; [exact Hd2|]. intros op'. by apply marked_op_more. }
  cbn [fold_left]. destruct (Z.ltb_spec sequence (pr_sequence (previousOf (ap_db a) (SwDbWriteBatch.op_primaryKey op)).2)) as [Hs|Hs].
  - rewrite H3 in *. destruct (skip_ok versions op _ Hv Hs) as [Hv' Ht']. apply IH; try done. eapply Forall_impl; [exact Ht2|]. intros op'. apply Ht'.
  - destruct (store_ok versions op _ _ Hop Hv Ht1 Hs H3) as [Hv' Ht'].
    destruct (IH (step a op) _ Hd3 H1 Hv') as (I1 & I2 & I3 & I4 & I5); [eapply Forall_impl; [exact Ht2|]; intros op'; apply Ht'|].
    destruct H3 as [S1 S2 S3 _ _ _]. split; [done|]. split; [done|]. split; [congruence|]. split; congruence.
Qed.

End Batch.

(** *** Before and after the operations *)

Lemma touch_same name m : same_primary m (touchBucket name m).
Proof. unfold touchBucket. by destruct (ByteMap.find name (secondary m)). Qed.

Lemma same_primary_trans a b c : same_primary a b -> same_primary b c -> same_primary a c.
Proof. intros (?&?&?&?&?) (?&?&?&?&?). repeat split; congruence. Qed.

Lemma touch_all primary marked keys m :
  Forall (fun it : list byte * list (list byte) => ByteMap.find it.1 marked = Some true) keys -> ok_but primary marked m ->
  let m' := fold_left (fun m it => touchBucket it.1 m) keys m in ok_but primary marked m' /\ same_primary m m'.
Proof.
  intros Hk Hm. apply (fold_left_inv (fun m' => ok_but primary marked m' /\ same_primary m m')); [|done].
  intros m' it Hin [Ho Hs]. rewrite list.Forall_forall in Hk. split; [by apply touch_ok_but; [apply Hk|]|].
  by eapply same_primary_trans; [|apply touch_same].
Qed.

(** What a batch leaves alone before its operations. *)
Definition same_records (db db' : SwEmbeddedDb) : Prop :=
  rest db' = rest db /\ maxKnownPrimaryKey_ db' = maxKnownPrimaryKey_ db /\ lastVisibleSequence_ db' = lastVisibleSequence_ db /\
  mt_primary (mutable_ db') = mt_primary (mutable_ db).

Lemma same_records_trans a b c : same_records a b -> same_records b c -> same_records a c.
Proof. intros (?&?&?&?) (?&?&?&?). repeat split; congruence. Qed.

Lemma marks_fold ops : forall db marked, marks marked (fold_left prepareOperation ops (db, marked)).2.
Proof.
  induction ops as [|op ops IH]; intros db marked; cbn [fold_left]; [reflexivity|]. unfold prepareOperation at 2. destruct (isPut op); [|apply IH].
  etransitivity; [|apply IH]. by apply marked_many.
Qed.

Lemma prepare_ok batch db : MemTable.ok (mutable_ db) ->
  let '(db', marked) := prepareBuckets batch db in
  same_records db db' /\ covers (mutable_ db') = covers (mutable_ db) /\ ok_but false marked (mutable_ db') /\
  Forall (marked_op marked) (SwDbWriteBatch.operations_ batch).
Proof.
  intros Hm%ok_ok_but. unfold prepareBuckets. revert Hm. generalize ([] : Dirty). revert db.
  induction (SwDbWriteBatch.operations_ batch) as [|op ops IH]; intros db marked Hm; cbn [fold_left].
  - split; [done|]. split; [done|]. split; [done|constructor].
  - unfold prepareOperation at 2. destruct (isPut op) eqn:Eo; cbn [fst snd].
    + destruct (marked_many (SwDbWriteBatch.op_secondaryKeys op) marked) as [M1 M2].
      destruct (touch_all false (markDirty (SwDbWriteBatch.op_secondaryKeys op) marked) _ (mutable_ db) M2) as [T1 T2];
        [by eapply ok_but_more|].
      set (db1 := update_mutable _ db) in *. specialize (IH db1 _ T1). pose proof (marks_fold ops db1 (markDirty (SwDbWriteBatch.op_secondaryKeys op) marked)) as Hmarks.
      destruct (fold_left _ ops _) as [db' marked']. destruct IH as (I1 & I2 & I3 & I4). split; [|split; [|split; [done|]]].
      * eapply same_records_trans; [|exact I1]. by destruct T2 as (T2 & _).
      * rewrite I2. by apply same_covers.
      * constructor; [|done]. apply (marked_op_more _ _ _ Hmarks). unfold marked_op. by rewrite Eo.
    + specialize (IH db marked Hm). destruct (fold_left _ ops _) as [db' marked']. destruct IH as (I1 & I2 & I3 & I4).
      split; [done|]. split; [done|]. split; [done|]. constructor; [|done]. unfold marked_op. by rewrite Eo.
Qed.

Lemma invalidated (marked : Dirty) : forall m, let m' :=
    fold_left (fun m (it : list byte * bool) => if it.2 then MemTable.invalidateSecondaryOrder it.1 m else m) marked m in
  mt_primary m' = mt_primary m /\ secondary m' = secondary m /\ primaryOrderDirty_ m' = primaryOrderDirty_ m /\
  orderedPrimaryKeys_ m' = orderedPrimaryKeys_ m /\ orderedSecondaryKeys_ m' = orderedSecondaryKeys_ m /\ covers m' = covers m /\
  (forall name, ByteMap.find name (secondaryOrderDirty_ m') = Some true \/
     (name, true) ∉ marked /\ ByteMap.find name (secondaryOrderDirty_ m') = ByteMap.find name (secondaryOrderDirty_ m)).
Proof.
  induction marked as [|[name b] marked IH]; intros m; cbn [fold_left].
  - do 6 (split; [done|]). intros name. right. split; [by intros ?%elem_of_nil|done].
  - cbn [fst snd]. destruct b.
    + destruct (IH (MemTable.invalidateSecondaryOrder name m)) as (H1 & H2 & H3 & H4 & H5 & H6 & H7).
      do 6 (split; [done|]). intros name'. destruct (H7 name') as [H|[H H']]; [by left|].
      cbn [MemTable.invalidateSecondaryOrder secondaryOrderDirty_] in H'. rewrite ByteMap.find_after_insert in H'.
      case_decide as Hn; [by left|right]. split; [|done]. intros [[= ->]|?]%elem_of_cons; done.
    + destruct (IH m) as (H1 & H2 & H3 & H4 & H5 & H6 & H7). do 6 (split; [done|]). intros name'.
      destruct (H7 name') as [H|[H H']]; [by left|right]. split; [|done]. intros [[=]|?]%elem_of_cons; done.
Qed.

Lemma finish_ok sequence a : ok_but (ap_primaryOrderDirty a) (ap_dirty a) (mutable_ (ap_db a)) ->
  let db' := finishBatch sequence a in
  MemTable.ok (mutable_ db') /\ rest db' = rest (ap_db a) /\ maxKnownPrimaryKey_ db' = maxKnownPrimaryKey_ (ap_db a) /\
  mt_primary (mutable_ db') = mt_primary (mutable_ (ap_db a)) /\ covers (mutable_ db') = covers (mutable_ (ap_db a)) /\
  lastVisibleSequence_ db' = Z.max (lastVisibleSequence_ (ap_db a)) sequence.
Proof.
  intros [H1 H2 H3 H4]. unfold finishBatch.
  set (db1 := if ap_primaryOrderDirty a then update_mutable MemTable.invalidatePrimaryOrder (ap_db a) else ap_db a).
  assert (mt_primary (mutable_ db1) = mt_primary (mutable_ (ap_db a)) /\ secondary (mutable_ db1) = secondary (mutable_ (ap_db a)) /\
    orderedPrimaryKeys_ (mutable_ db1) = orderedPrimaryKeys_ (mutable_ (ap_db a)) /\
    secondaryOrderDirty_ (mutable_ db1) = secondaryOrderDirty_ (mutable_ (ap_db a)) /\
    orderedSecondaryKeys_ (mutable_ db1) = orderedSecondaryKeys_ (mutable_ (ap_db a)) /\
    (primaryOrderDirty_ (mutable_ db1) = false -> ap_primaryOrderDirty a = false /\ primaryOrderDirty_ (mutable_ (ap_db a)) = false) /\
    covers (mutable_ db1) = covers (mutable_ (ap_db a)) /\ rest db1 = rest (ap_db a) /\
    maxKnownPrimaryKey_ db1 = maxKnownPrimaryKey_ (ap_db a) /\ lastVisibleSequence_ db1 = lastVisibleSequence_ (ap_db a))
    as (D1 & D2 & D3 & D4 & D5 & D6 & D7 & D8 & D9 & D10) by (subst db1; by destruct (ap_primaryOrderDirty a)).
  clearbody db1. cbn [update_mutable set_mutable_ set_lastVisibleSequence_ mutable_ maxKnownPrimaryKey_ lastVisibleSequence_].
  destruct (invalidated (ap_dirty a) (mutable_ db1)) as (I1 & I2 & I3 & I4 & I5 & I6 & I7).
  set (m' := fold_left _ (ap_dirty a) (mutable_ db1)) in *. split; [|split; [exact D8|split; [done|split; [congruence|split; [congruence|by rewrite D10]]]]].
  constructor.
  - by rewrite I1, D1.
  - rewrite I2, D2. exact H2.
  - rewrite I3, I4, I1, D1, D3. intros Hd. apply D6 in Hd as [? ?]. by apply H3.
  - intros name bucket keys. rewrite I2, I5, D2, D5. intros F1 F2 F3. destruct (I7 name) as [I7'|[I7' I8]]; [congruence|].
    rewrite I8, D4 in F2. eapply H4; [|exact F1|exact F2|exact F3]. intros F%ByteMap.find_elem. done.
Qed.

Lemma cover_same sequence db : let db' := coverBatch sequence db in
  same_records db db' /\ (MemTable.ok (mutable_ db) -> MemTable.ok (mutable_ db')) /\
  covers (mutable_ db') =
    (if (walId (mutable_ db) =? 0) || (activeWalId (manifest_ db) <? walId (mutable_ db)) then activeWalId (manifest_ db) else walId (mutable_ db),
     blobFileId (mutable_ db),
     if (minSeq (mutable_ db) =? 0) || (sequence <? minSeq (mutable_ db)) then sequence else minSeq (mutable_ db),
     Z.max (maxSeq (mutable_ db)) sequence).
Proof.
  unfold coverBatch, update_mutable, same_records. cbv beta zeta.
  destruct ((walId (mutable_ db) =? 0) || (activeWalId (manifest_ db) <? walId (mutable_ db)));
    (split; [done|split; [intros [H1 H2 H3 H4]; constructor; [exact H1|exact H2|exact H3|exact H4]|done]]).
Qed.

Lemma readable_same db db' : same_records db db' -> tiers db' = tiers db /\ (readable db -> readable db').
Proof.
  intros (H1 & H2 & _ & H3). destruct (rest_lower _ _ H1) as (R1 & R2 & R3 & R4).
  assert (tiers db' = tiers db) as Et by (rewrite !tiers_lower, R4; unfold memLayer; by rewrite H3).
  split; [done|]. intros [K1 K2 K3 K4]. constructor; rewrite ?R1, ?R2, ?R3, ?Et, ?H2; try done. unfold mem_ok. by rewrite H3.
Qed.

Lemma versions_same known stored excused versions db db' : same_records db db' -> versions_ok known stored excused versions db ->
  versions_ok known stored excused versions db'.
Proof.
  intros Hs [H1 H2 H3 H4 H5]. destruct (readable_same _ _ Hs) as [Et Hr]. destruct Hs as (Hs & _ & _ & Hp).
  destruct (rest_lower _ _ Hs) as (_ & _ & _ & El). constructor; rewrite ?Et, ?El; auto. unfold memLayer. by rewrite Hp.
Qed.

Lemma timely_same excused sequence versions db db' key : same_records db db' -> timely excused sequence versions db key ->
  timely excused sequence versions db' key.
Proof. intros Hs. unfold timely. by destruct (readable_same _ _ Hs) as [-> _]. Qed.

(** *** The batch *)

Section Whole.

Context (known stored : Z -> Prop) (excused : list byte -> Prop) (sequence : Z) (batch : SwDbWriteBatch.t).
Hypothesis (Hsequence : is_u64 sequence) (Hnew : ~ known sequence) (Hstored : stored sequence) (Hbatch : batch_good batch).

Definition timelyBatch (versions : Versions) (db : SwEmbeddedDb) : Prop :=
  Forall (fun op => timely excused sequence versions db (SwDbWriteBatch.op_primaryKey op)) (SwDbWriteBatch.operations_ batch).

(** What applying a batch does. *)
Record batch_applied (versions : Versions) (db db' : SwEmbeddedDb) : Prop := {
  ba_versions : versions_ok known stored excused (applyVersions versions (sequence, batch)) db';
  ba_order : MemTable.ok (mutable_ db');
  ba_rest : rest db' = rest db;
  ba_visible : lastVisibleSequence_ db' = Z.max (lastVisibleSequence_ db) sequence;
  ba_covers : covers (mutable_ db') = covers (mutable_ (coverBatch sequence db))
}.

Lemma batch_applied_by (step : Applying -> SwDbWriteBatch.Operation -> Applying) versions db :
  (forall a op, op_good op -> marked_op (ap_dirty a) op -> ok_but (ap_primaryOrderDirty a) (ap_dirty a) (mutable_ (ap_db a)) ->
    (previousOf (ap_db a) (SwDbWriteBatch.op_primaryKey op)).1.1 =
      ByteMap.find (SwDbWriteBatch.op_primaryKey op) (mt_primary (mutable_ (ap_db a))) ->
    applied_op sequence op a (step a op)) ->
  MemTable.ok (mutable_ db) -> versions_ok known stored excused versions db -> timelyBatch versions db ->
  batch_applied versions db
    (let '(db, marked) := prepareBuckets batch (coverBatch sequence db) in
     finishBatch sequence (fold_left step (SwDbWriteBatch.operations_ batch) (mkApplying db false marked))).
Proof using Hsequence Hnew Hstored Hbatch.
  intros Hstep Hm Hv Ht. destruct (cover_same sequence db) as (C1 & C2 & C3). set (db1 := coverBatch sequence db) in *.
  pose proof (prepare_ok batch db1 (C2 Hm)) as Hp. destruct (prepareBuckets batch db1) as [db2 marked]. destruct Hp as (P1 & P2 & P3 & P4).
  pose proof (same_records_trans _ _ _ C1 P1) as Hsame. pose proof (versions_same _ _ _ _ _ _ Hsame Hv) as Hv2.
  destruct (operations_ok known stored excused sequence Hsequence Hnew Hstored step _ Hstep Hbatch (mkApplying db2 false marked) versions P4 P3 Hv2
    ltac:(eapply Forall_impl; [exact Ht|]; intros op; by apply timely_same)) as (O1 & O2 & O3 & O4 & O5).
  set (a := fold_left step _ _) in *. destruct (finish_ok sequence a O2) as (F1 & F2 & F3 & F4 & F5 & F6). cbn [ap_db] in *.
  assert (same_records (ap_db a) (set_lastVisibleSequence_ (lastVisibleSequence_ (ap_db a)) (finishBatch sequence a))) as Hf by done.
  destruct Hsame as (S1 & _ & S2 & _).
  constructor; [|done|by rewrite F2, O3, S1|by rewrite F6, O4, S2|by rewrite F5, O5, P2].
  apply (versions_same _ _ _ _ _ _ Hf) in O1. destruct O1 as [V1 V2 V3 V4 V5]. constructor; try done. destruct V1; by constructor.
Qed.

Lemma applyBatchLockedMutable_ok versions db : MemTable.ok (mutable_ db) -> versions_ok known stored excused versions db -> timelyBatch versions db ->
  batch_applied versions db (applyBatchLockedMutable sequence batch db).
Proof using Hsequence Hnew Hstored Hbatch.
  intros Hm Hv Ht. unfold applyBatchLockedMutable. set (db0 := set_applyGeneration_ _ db).
  assert (versions_ok known stored excused versions db0) as Hv0 by (by apply (versions_same _ _ _ _ db)).
  destruct (batch_applied_by (applyOperationMutable sequence) versions db0) as [H1 H2 H3 H4 H5]; try done.
  intros a op. apply applyOperationMutable_ok.
Qed.

Lemma applyBatchLocked_ok versions db : MemTable.ok (mutable_ db) -> versions_ok known stored excused versions db -> timelyBatch versions db ->
  batch_applied versions db (applyBatchLocked sequence batch db).
Proof using Hsequence Hnew Hstored Hbatch.
  intros Hm Hv Ht. unfold applyBatchLocked. set (db0 := if overlayActive_ db then _ else db).
  assert (same_records db db0) as Hs by (subst db0; by destruct (overlayActive_ db)).
  assert (mutable_ db0 = mutable_ db) as Em by (subst db0; by destruct (overlayActive_ db)).
  set (db1 := set_applyGeneration_ _ db0).
  assert (versions_ok known stored excused versions db1) as Hv0 by (by apply (versions_same _ _ _ _ db)).
  assert (timelyBatch versions db1) as Ht0 by (eapply Forall_impl; [exact Ht|]; intros op; by apply (timely_same _ _ _ db)).
  destruct (batch_applied_by (applyOperation sequence) versions db1) as [H1 H2 H3 H4 H5]; try done.
  - intros a op. apply applyBatchOperation_ok.
  - change (mutable_ db1) with (mutable_ db0). by rewrite Em.
  - destruct Hs as (S1 & _ & S2 & _). constructor; [done|done| | |].
    + change (rest db1) with (rest db0) in H3. congruence.
    + change (lastVisibleSequence_ db1) with (lastVisibleSequence_ db0) in H4. congruence.
    + rewrite H5. destruct (cover_same sequence db1) as (_ & _ & ->). destruct (cover_same sequence db) as (_ & _ & ->).
      change (mutable_ db1) with (mutable_ db0). change (manifest_ db1) with (manifest_ db0).
      replace (manifest_ db0) with (manifest_ db) by (subst db0; by destruct (overlayActive_ db)). by rewrite Em.
Qed.

End Whole.

(** ** Replaying a batch is applying it *)

Definition emitAll (deleted : bool) (key : list byte) (keys : SecondaryKeys) (sequence : Z) (m : MemTable_) : MemTable_ :=
  fold_left (fun m it => fold_left (emitEntry key it.1 sequence deleted) it.2 (touchBucket it.1 m)) keys m.

(** Without an overlay, index entries only go to the memtable. *)
Lemma emit_inactive deleted key keys sequence db : overlayActive_ db = false ->
  emitSecondary deleted key keys sequence db = update_mutable (emitAll deleted key keys sequence) db.
Proof. intros H. unfold emitSecondary, overlayStoreIndexEntries. by rewrite H. Qed.

Lemma add64_swap a b c : (a +u b) +u c = (a +u c) +u b.
Proof. unfold add64, wrap64. rewrite !Zplus_mod_idemp_l. f_equal. lia. Qed.

Lemma emit_bytes deleted key keys sequence bytes m :
  emitAll deleted key keys sequence (MemTable.addBytes bytes m) = MemTable.addBytes bytes (emitAll deleted key keys sequence m).
Proof.
  unfold emitAll. revert m. induction keys as [|it keys IH]; intros m; [done|]. cbn [fold_left]. rewrite <- IH. f_equal.
  assert (touchBucket it.1 (MemTable.addBytes bytes m) = MemTable.addBytes bytes (touchBucket it.1 m)) as ->.
  { unfold touchBucket. cbn. by destruct (ByteMap.find it.1 (secondary m)). }
  generalize (touchBucket it.1 m). clear. induction it.2 as [|k ks IH]; intros m; [done|]. cbn [fold_left]. rewrite <- IH. f_equal.
  unfold emitEntry, MemTable.addBytes, MemTable.set_secondary. cbn. by rewrite add64_swap.
Qed.

Lemma emit_primary deleted key keys sequence p m :
  emitAll deleted key keys sequence (MemTable.set_primary p m) = MemTable.set_primary p (emitAll deleted key keys sequence m) /\
  mt_primary (emitAll deleted key keys sequence m) = mt_primary m.
Proof.
  unfold emitAll. revert m. induction keys as [|it keys IH]; intros m; [done|]. cbn [fold_left].
  set (m1 := fold_left _ it.2 (touchBucket it.1 m)).
  assert (fold_left (emitEntry key it.1 sequence deleted) it.2 (touchBucket it.1 (MemTable.set_primary p m)) = MemTable.set_primary p m1 /\
    mt_primary m1 = mt_primary m) as [-> H].
  { subst m1. assert (touchBucket it.1 (MemTable.set_primary p m) = MemTable.set_primary p (touchBucket it.1 m) /\
      mt_primary (touchBucket it.1 m) = mt_primary m) as [-> H].
    { unfold touchBucket. cbn. by destruct (ByteMap.find it.1 (secondary m)). }
    rewrite <- H. generalize (touchBucket it.1 m). clear. induction it.2 as [|k ks IH]; intros m; [done|]. cbn [fold_left].
    destruct (IH (emitEntry key it.1 sequence deleted m k)) as [IH1 IH2]. split; [exact IH1|]. by rewrite IH2. }
  destruct (IH m1) as [IH1 IH2]. split; [exact IH1|congruence].
Qed.

Lemma emit_blob deleted key keys sequence f m :
  emitAll deleted key keys sequence (MemTable.set_blobFileId f m) = MemTable.set_blobFileId f (emitAll deleted key keys sequence m) /\
  blobFileId (emitAll deleted key keys sequence m) = blobFileId m.
Proof.
  unfold emitAll. revert m. induction keys as [|it keys IH]; intros m; [done|]. cbn [fold_left].
  set (m1 := fold_left _ it.2 (touchBucket it.1 m)).
  assert (fold_left (emitEntry key it.1 sequence deleted) it.2 (touchBucket it.1 (MemTable.set_blobFileId f m)) = MemTable.set_blobFileId f m1 /\
    blobFileId m1 = blobFileId m) as [-> H].
  { subst m1. assert (touchBucket it.1 (MemTable.set_blobFileId f m) = MemTable.set_blobFileId f (touchBucket it.1 m) /\
      blobFileId (touchBucket it.1 m) = blobFileId m) as [-> H].
    { unfold touchBucket. cbn. by destruct (ByteMap.find it.1 (secondary m)). }
    rewrite <- H. generalize (touchBucket it.1 m). clear. induction it.2 as [|k ks IH]; intros m; [done|]. cbn [fold_left].
    destruct (IH (emitEntry key it.1 sequence deleted m k)) as [IH1 IH2]. split; [exact IH1|]. by rewrite IH2. }
  destruct (IH m1) as [IH1 IH2]. split; [exact IH1|congruence].
Qed.

(** A writer that reads no snapshot, with no key of its memtable behind the greatest
    key known. *)
Definition quiet (db : SwEmbeddedDb) : Prop :=
  overlayActive_ db = false /\
  forall key, is_Some (ByteMap.find key (mt_primary (mutable_ db))) -> before (maxKnownPrimaryKey_ db) key = false.

Lemma quiet_previous db key : quiet db -> (previousOf db key).1.1 = ByteMap.find key (mt_primary (mutable_ db)).
Proof.
  intros [_ H]. unfold previousOf. destruct (knownAbsent db key) eqn:K; simpl.
  - destruct (ByteMap.find key (mt_primary (mutable_ db))) eqn:F; [|done]. unfold knownAbsent in K. rewrite H in K by (by rewrite F).
    by rewrite andb_false_r in K.
  - destruct (ByteMap.find key _); [done|]. by destruct (lookupPrimaryLocked_ db key false).
Qed.

Lemma quiet_replace key had previous sequence a : quiet (ap_db a) ->
  quiet (ap_db (replacePrevious key had previous sequence a)) /\
  mt_primary (mutable_ (ap_db (replacePrevious key had previous sequence a))) = mt_primary (mutable_ (ap_db a)).
Proof.
  intros [H1 H2]. unfold replacePrevious. destruct (_ && _); [|done]. unfold emitSecondaryTombstonesLocked. cbn [ap_db].
  rewrite emit_inactive by done. pose proof (proj2 (emit_primary true key (pr_secondaryKeys previous) sequence [] (mutable_ (ap_db a)))) as E1.
  split; [split; [done|]|exact E1]. intros k. cbn [update_mutable set_mutable_ mutable_ maxKnownPrimaryKey_]. rewrite E1. apply H2.
Qed.

Lemma store_quiet key moved mutableIt r db : before (maxKnownPrimaryKey_ db) key = false -> quiet db -> quiet (storeMutable moved key mutableIt r db).
Proof.
  intros Hk [H1 H2]. split; [done|]. intros k.
  assert (ByteMap.find k (mt_primary (mutable_ (storeMutable moved key mutableIt r db))) = ByteMap.find k (mt_primary (mutable_ db)) \/ k = key) as [Hf|<-].
  { unfold storeMutable. cbn [update_mutable set_mutable_ mutable_ MemTable.set_primary mt_primary].
    destruct mutableIt; [destruct (_ <=? _)|destruct moved; unfold emplace; [destruct (ByteMap.find key _)|]];
      rewrite ?ByteMap.find_after_insert; try case_decide; auto. }
  - rewrite Hf. apply H2.
  - intros _. exact Hk.
Qed.

Lemma raise_quiet key db : quiet db -> quiet (raiseMaxKnown key db).
Proof.
  intros [H1 H2]. destruct (raise_known key db) as (_ & Em & _ & _ & Hm). split.
  - unfold raiseMaxKnown. by destruct (_ || _).
  - intros k. rewrite Em. intros Hk. by apply Hm, H2.
Qed.

Lemma remember_active op db : writerSnapshotState_ (rememberBlobFile op db) = writerSnapshotState_ db.
Proof. unfold rememberBlobFile. by destruct (_ && _). Qed.

Lemma operation_same sequence op a : quiet (ap_db a) ->
  applyOperation sequence a op = applyOperationMutable sequence a op /\ quiet (ap_db (applyOperationMutable sequence a op)).
Proof.
  intros Hq. unfold applyOperation, applyOperationMutable. set (key := SwDbWriteBatch.op_primaryKey op).
  pose proof (quiet_previous (ap_db a) key Hq) as Hp. destruct (previousOf (ap_db a) key) as [[mutableIt had] previous]. cbn [fst] in Hp.
  destruct (sequence <? pr_sequence previous); [done|]. destruct (quiet_replace key had previous sequence a Hq) as [Hq1 E1].
  set (a1 := replacePrevious key had previous sequence a) in *. rewrite <- E1 in Hp. clearbody a1. clear Hq E1 a.
  destruct (SwDbWriteBatch.op_type op); cbn [ap_db].
  - destruct Hq1 as [Hi Hk]. unfold emitSecondaryUpsertsLocked.
    rewrite !emit_inactive by (unfold overlayActive_; cbn [update_mutable storeMutable set_mutable_ writerSnapshotState_]; rewrite ?remember_active; exact Hi).
    set (G := emitAll false key (SwDbWriteBatch.op_secondaryKeys op) sequence).
    set (bytes := _ +u 64). set (r := putRecord sequence op).
    assert (forall db, overlayActive_ db = false -> overlayStorePrimary key r db = db) as Ho by (intros db Hd; unfold overlayStorePrimary; by rewrite Hd).
    set (dbr := raiseMaxKnown key (update_mutable G (ap_db a1))).
    assert (quiet dbr /\ before (maxKnownPrimaryKey_ dbr) key = false) as [Hqr Hbr].
    { split; [|by apply raise_knows]. apply raise_quiet. split; [done|]. intros k.
      cbn [update_mutable set_mutable_ mutable_ maxKnownPrimaryKey_]. unfold G.
      rewrite (proj2 (emit_primary _ _ _ _ [] _)). apply Hk. }
    assert (quiet (rememberBlobFile op dbr)) as Hqb by (unfold rememberBlobFile; by destruct (_ && _)).
    rewrite (Ho (rememberBlobFile op dbr)) by apply Hqb. split.
    + f_equal. subst dbr. unfold raiseMaxKnown, rememberBlobFile, storeMutable, update_mutable.
      pose proof (fun p m => proj1 (emit_primary false key (SwDbWriteBatch.op_secondaryKeys op) sequence p m)) as Gp.
      pose proof (fun m => proj2 (emit_primary false key (SwDbWriteBatch.op_secondaryKeys op) sequence [] m)) as Gq.
      pose proof (fun m => emit_bytes false key (SwDbWriteBatch.op_secondaryKeys op) sequence bytes m) as Gb.
      pose proof (fun f m => proj1 (emit_blob false key (SwDbWriteBatch.op_secondaryKeys op) sequence f m)) as Gf.
      pose proof (fun m => proj2 (emit_blob false key (SwDbWriteBatch.op_secondaryKeys op) sequence 0 m)) as Gg.
      fold G in Gp, Gq, Gb, Gf, Gg. clearbody G.
      assert (forall m, mt_primary m = mt_primary (mutable_ (ap_db a1)) ->
        match mutableIt with
        | Some it => if pr_sequence it <=? pr_sequence r then ByteMap.insert key r (mt_primary m) else mt_primary m
        | None => emplace key r (mt_primary m)
        end = match mutableIt with
        | Some it => if pr_sequence it <=? pr_sequence r then ByteMap.insert key r (mt_primary m) else mt_primary m
        | None => ByteMap.insert key r (mt_primary m)
        end) as Hemplace.
      { intros m ->. destruct mutableIt; [done|]. unfold emplace. by rewrite <- Hp. }
      clear - Gp Gq Gb Gf Gg Hemplace. revert Hemplace. generalize (ap_db a1). intros db Hemplace.
      assert (blobFileId (mutable_ (if isEmpty (maxKnownPrimaryKey_ db) || before (maxKnownPrimaryKey_ db) key
        then set_maxKnownPrimaryKey_ key (set_mutable_ (G (mutable_ db)) db) else set_mutable_ (G (mutable_ db)) db)) =
        blobFileId (mutable_ db)) as Eb by (destruct (_ || _); apply Gg).
      cbn [set_mutable_ maxKnownPrimaryKey_]. rewrite Eb. clear Eb. destruct (negb _ && _).
      * cbn [set_mutable_ mutable_ maxKnownPrimaryKey_].
        destruct (isEmpty (maxKnownPrimaryKey_ db) || before (maxKnownPrimaryKey_ db) key); cbn [set_mutable_ set_maxKnownPrimaryKey_ mutable_];
          rewrite Hemplace by (cbn [MemTable.set_blobFileId mt_primary]; by rewrite Gq); rewrite Gb, Gp, Gf;
          cbn [MemTable.set_blobFileId mt_primary]; rewrite Gq; reflexivity.
      * cbn [set_mutable_ mutable_ maxKnownPrimaryKey_].
        destruct (isEmpty (maxKnownPrimaryKey_ db) || before (maxKnownPrimaryKey_ db) key); cbn [set_mutable_ set_maxKnownPrimaryKey_ mutable_];
          rewrite Hemplace by (by rewrite Gq); rewrite Gb, Gp, Gq; reflexivity.
    + cbn [ap_db]. assert (before (maxKnownPrimaryKey_ (rememberBlobFile op dbr)) key = false) as Hbb.
      { unfold rememberBlobFile. by destruct (_ && _). }
      destruct (store_quiet key true mutableIt r (rememberBlobFile op dbr) Hbb Hqb) as [Hs1 Hs2]. by split.
  - assert (overlayStorePrimary key (emptyRecord true sequence) (storeMutable false key mutableIt (emptyRecord true sequence) (ap_db a1)) =
      storeMutable false key mutableIt (emptyRecord true sequence) (ap_db a1)) as ->.
    { unfold overlayStorePrimary. destruct Hq1 as [H1 _]. change (overlayActive_ (storeMutable _ _ _ _ _)) with (overlayActive_ (ap_db a1)).
      by rewrite H1. }
    assert (raiseMaxKnown key (update_mutable (MemTable.addBytes (zlen key +u 24)) (storeMutable false key mutableIt (emptyRecord true sequence) (ap_db a1))) =
      update_mutable (MemTable.addBytes (zlen key +u 24)) (storeMutable false key mutableIt (emptyRecord true sequence) (raiseMaxKnown key (ap_db a1)))) as ->.
    { unfold raiseMaxKnown. cbn [update_mutable storeMutable set_mutable_ maxKnownPrimaryKey_]. by destruct (_ || _). }
    split; [done|]. cbn [ap_db].
    destruct (store_quiet key false mutableIt (emptyRecord true sequence) (raiseMaxKnown key (ap_db a1)) (raise_knows key _)
      (raise_quiet key _ Hq1)) as [Hs1 Hs2]. by split.
Qed.

Lemma operations_same sequence ops : forall a, quiet (ap_db a) ->
  fold_left (applyOperation sequence) ops a = fold_left (applyOperationMutable sequence) ops a.
Proof.
  induction ops as [|op ops IH]; intros a Hq; [done|]. destruct (operation_same sequence op a Hq) as [E1 Hq']. cbn [fold_left].
  rewrite E1. by apply IH.
Qed.

Lemma prepare_quiet batch db : quiet db -> quiet (prepareBuckets batch db).1.
Proof.
  unfold prepareBuckets. generalize ([] : Dirty). revert db. induction (SwDbWriteBatch.operations_ batch) as [|op ops IH]; intros db marked Hq; [done|].
  cbn [fold_left]. unfold prepareOperation at 2. destruct (isPut op); cbn [fst snd]; [|by apply IH]. apply IH. destruct Hq as [H1 H2].
  split; [done|]. cbn [update_mutable set_mutable_ mutable_ maxKnownPrimaryKey_]. intros key.
  assert (mt_primary (fold_left (fun m (it : list byte * list (list byte)) => touchBucket it.1 m) (SwDbWriteBatch.op_secondaryKeys op) (mutable_ db)) =
    mt_primary (mutable_ db)) as ->; [|apply H2].
  apply (fold_left_inv (fun m => mt_primary m = mt_primary (mutable_ db))); [|done]. intros m it _ <-.
  unfold touchBucket. by destruct (ByteMap.find it.1 (secondary m)).
Qed.

(** C8: Replaying a batch from the journal leaves the database exactly as the live write
    of it did: the two implementations - one for a batch that is kept, one that moves
    keys and values out of it, updates the overlay and does the same steps in another
    order - end in the same state, down to the byte counts, the remembered orders and
    the tombstones of index entries, for any batch on any database that no snapshot has
    been taken of and whose memtable has no key behind the greatest key known. *)
Theorem replaying_is_applying sequence batch db : quiet db ->
  applyBatchLocked sequence batch db = applyBatchLockedMutable sequence batch db.
Proof.
  intros Hq. unfold applyBatchLocked, applyBatchLockedMutable. rewrite (proj1 Hq).
  set (db1 := coverBatch sequence _). assert (quiet db1) as Hq1.
  { split; [exact (proj1 Hq)|]. intros key Hk. apply (proj2 Hq). subst db1. revert Hk. unfold coverBatch. cbn. by destruct (_ || _). } pose proof (prepare_quiet batch db1 Hq1) as Hq2.
  destruct (prepareBuckets batch db1) as [db2 marked]. cbn [fst] in Hq2. by rewrite operations_same.
Qed.

End Apply.

(** *** Examples *)

Section Examples.

#[local] Existing Instance SwCrypto.addingEVP.
#[local] Instance exampleMiniz : Miniz := {| mz_crc32 := fun data => fold_left (fun crc b => wrap32 (crc * 31 + b2z b)) data 7 |}.

Definition exampleBatch1 : SwDbWriteBatch.t :=
  SwDbWriteBatch.put (str "bob") (str "two") [(str "city", [str "oslo"; str "rome"])]
    (SwDbWriteBatch.put (str "ann") (str "one") [(str "city", [str "rome"])] SwDbWriteBatch.empty).

Definition exampleBatch2 : SwDbWriteBatch.t :=
  SwDbWriteBatch.erase (str "ann") (SwDbWriteBatch.put (str "bob") (str "2") [(str "town", [str "rome"])] SwDbWriteBatch.empty).

Definition exampleDb : SwEmbeddedDb := applyBatchLockedMutable 1 exampleBatch1 (resetState (mkOptions 1000 4) (mkFiles [] [] [] None)).

Lemma replaying_is_applying_witness : quiet exampleDb /\
  applyBatchLocked 2 exampleBatch2 exampleDb = applyBatchLockedMutable 2 exampleBatch2 exampleDb.
Proof.
  assert (quiet exampleDb) as Hq.
  { split; [vm_compute; reflexivity|]. intros key [r Hr]. apply ByteMap.find_elem, list_elem_of_In in Hr. vm_compute in Hr.
    destruct Hr as [Hr|[Hr|[]]]; injection Hr as <- <-; vm_compute; reflexivity. }
  split; [exact Hq|exact (replaying_is_applying 2 exampleBatch2 exampleDb Hq)].
Defined.

End Examples.

End DbApply.
