(* ===== verification/DbFlush.v ===== *)
(** Flushing a memtable of the persistent database: the tables that are written of it
    show its versions, and nothing else of the database changes. *)
From Stdlib Require Import ZArith Lia Strings.Byte Sorting.
From stdpp Require Import base list strings numbers option sorting.
From S2P Require Import Prelude SwString ByteMap NumberText Crypto DbCodec DbWal DbContents DbTable DbMemTable DbSortedTables DbReadModel DbStore DbVersions DbTiers.

Import SwString.
Import DbCodec.
Import DbContents.
Import DbVersions.
Import DbTiers.

Module DbFlush.

(** ** File names *)

Lemma number_inj a b : is_u64 a -> is_u64 b ->
  NumberText.numberUnsignedImpl_ a 10 = NumberText.numberUnsignedImpl_ b 10 -> a = b.
Proof.
  intros Ha Hb He. destruct (NumberText.numberUnsignedImpl_digits a Ha) as (_ & Va & _). destruct (NumberText.numberUnsignedImpl_digits b Hb) as (_ & Vb & _).
  congruence.
Qed.

Lemma blobFileName_inj a b : is_u64 a -> is_u64 b -> blobFileName_ a = blobFileName_ b -> a = b.
Proof. unfold blobFileName_. intros Ha Hb He. apply app_inv_head, app_inv_tail in He. by apply number_inj. Qed.

Lemma tableFileName_inj level a b : is_u64 a -> is_u64 b -> tableFileName level a = tableFileName level b -> a = b.
Proof.
  unfold tableFileName. intros Ha Hb He. do 3 apply app_inv_head in He. apply app_inv_tail in He. by apply number_inj.
Qed.

(** The levels the store writes tables at. *)
Lemma tableFileName_level a b : tableFileName 0 a <> tableFileName 1 b.
Proof. unfold tableFileName. change (NumberText.number 0) with (str "0"). change (NumberText.number 1) with (str "1"). by intros [=]. Qed.

(** ** Records that fit *)

Section Fits.

Context `{C : Miniz}.

(** What is written of a record. *)
Definition written (raw : TableRecord_) : Prop := exists r, raw = rawRecord (tr_userKey raw) r /\ stored_ok r /\ small (tr_userKey raw) r.

Lemma zlen_payload r : record_ok r ->
  zlen (encodePrimaryPayload_ r) <= 37 + zlen (pr_value r) + zlen (secondaryBytes (pr_secondaryKeys r)).
Proof.
  intros (Hk & Hs & _ & Hv). unfold encodePrimaryPayload_. rewrite encodeSecondaryKeys_eq by done.
  rewrite app_nil_l, appendU8_eq, (appendBytes_eq (secondaryBytes _)) by done. destruct (pr_inlineValue r).
  - destruct Hv as [Hv _]. rewrite appendBytes_eq by done. rewrite !zlen_app, !length_counted, ?length_le_bytes. cbn [length]. lia.
  - rewrite !appendU32LE_eq, !appendU64LE_eq, !zlen_app, !length_counted, !length_le_bytes. destruct Hv as [-> _]. cbn [length]. lia.
Qed.

Lemma written_fits raw : written raw -> TableWriter_.recordSize_ok raw /\ zlen (tableBytes raw) < 2 ^ 29.
Proof.
  intros (r & Er & [Hq Hr] & Hs). rewrite Er in *. cbn [tr_userKey] in Hs.
  assert (tr_userKey (rawRecord (tr_userKey raw) r) = tr_userKey raw) as Ek by (unfold rawRecord; by destruct (pr_deleted r)).
  rewrite Ek in *. unfold small in Hs. unfold TableWriter_.recordSize_ok. rewrite TableWriter_.length_tableBytes, Ek.
  assert (tableRecord_ok (rawRecord (tr_userKey raw) r) /\ zlen (tr_payload (rawRecord (tr_userKey raw) r)) <= 37 + zlen (pr_value r) + zlen (secondaryBytes (pr_secondaryKeys r))) as [H1 H2].
  - unfold tableRecord_ok, rawRecord, short, u32_ok. destruct (pr_deleted r); cbn [tr_userKey tr_sequence tr_flags tr_payload].
    + split; [split; [lia|split; [done|split; [done|done]]]|]. change (zlen (@nil byte)) with 0. lia.
    + pose proof (zlen_payload r Hr) as Hp. split; [|done]. split; [lia|]. split; [done|]. split; [by destruct (pr_inlineValue r)|lia].
  - split; [split; [done|lia]|lia].
Qed.

Lemma written_records records : Forall written records -> zlen records < 2 ^ 31 -> TableWriter_.records_ok records.
Proof.
  intros Hr Hl. split; [|split; [done|]].
  - eapply Forall_impl; [exact Hr|]. intros raw Hw. by apply written_fits.
  - assert (zlen (TableWriter_.blockBytes records) <= zlen records * (2 ^ 29 - 1)) as H; [|lia]. clear Hl.
    induction Hr as [|raw records Hw _ IH]; [done|]. change (raw :: records) with ([raw] ++ records).
    rewrite TableWriter_.blockBytes_app, TableWriter_.blockBytes_single, !zlen_app. apply written_fits in Hw as [_ Hw].
    change (zlen [raw]) with 1. lia.
Qed.

End Fits.

(** ** What a task does without the lock *)

Section Flush.

Context `{E : EVP} `{C : Miniz} `{T : SortedTables} `{!SortedTablesLaws T}.

(** What a task leaves as it is before it takes the lock again. *)
Definition fixed (db : SwEmbeddedDb) :=
  (options_ db, closing_ db, mutable_ db, immutables_ db, tableHandles_ db, primaryTableHandlesNewestFirst_ db,
   (maxKnownPrimaryKey_ db, flushScheduled_ db, compactionScheduled_ db, nextSequence_ db, backgroundPool_ db),
   (mf_maxSequence (manifest_ db), activeWalId (manifest_ db), nextWalId (manifest_ db), tables (manifest_ db))).

(** No blob file has a number that is still to be given. *)
Definition fresh_blobs (db : SwEmbeddedDb) : Prop :=
  forall id, nextTableId (manifest_ db) <= id -> is_u64 id -> ByteMap.find (blobFileName_ id) (get_blobs db) = None.

(** Numbers were taken and files written. *)
Record prepared (db db' : SwEmbeddedDb) : Prop := {
  pp_fixed : fixed db' = fixed db;
  pp_blobs : blobs_grow (get_blobs db) (get_blobs db');
  pp_ids : nextTableId (manifest_ db) <= nextTableId (manifest_ db');
  pp_fresh : fresh_blobs db -> fresh_blobs db'
}.

#[export] Instance prepared_preorder : PreOrder prepared.
Proof.
  split; [by intros db; split; [|reflexivity| |]|]. intros a b c [A1 A2 A3 A4] [B1 B2 B3 B4].
  split; [congruence|by etransitivity|lia|auto].
Qed.

(** A table description with a number taken since [low]. *)
Record minted (low high level : Z) (meta : TableMeta_) : Prop := {
  mi_id : low <= tm_fileId meta < high;
  mi_level : tm_level meta = level;
  mi_name : tm_fileName meta = tableFileName level (tm_fileId meta)
}.

Lemma minted_more low high low' high' level meta : low' <= low -> high <= high' -> minted low high level meta -> minted low' high' level meta.
Proof. intros H1 H2 [? ? ?]. split; [lia|done|done]. Qed.

Lemma takes_id db : 0 <= nextTableId (manifest_ db) < 2 ^ 64 - 1 ->
  let '(id, db') := nextTableIdThreadSafe_ db in
  id = nextTableId (manifest_ db) /\ nextTableId (manifest_ db') = id + 1 /\ get_blobs db' = get_blobs db /\ prepared db db'.
Proof.
  intros H. unfold nextTableIdThreadSafe_. assert (nextTableId (manifest_ db) +u 1 = nextTableId (manifest_ db) + 1) as E1 by (apply add64_small; lia).
  split; [done|]. split; [exact E1|]. split; [done|]. split; [done|done|simpl; lia|]. unfold fresh_blobs. cbn [set_manifest_ manifest_ nextTableId].
  intros Hf id Hid. apply Hf. lia.
Qed.

Lemma opens_table meta records db : let '(handle, db') := writeAndOpen meta records db in
  prepared db db' /\ manifest_ db' = manifest_ db /\ get_blobs db' = get_blobs db /\
  (TableWriter_.meta_ok meta -> TableWriter_.records_ok records -> TableHandle_.sorted records -> records <> [] ->
   exists h, handle = Ok h /\ holds_records h records).
Proof using All.
  assert (forall t, prepared db (set_files_ t (get_blobs db) db)) as Hp by (intros t; split; [done|reflexivity|done|done]).
  unfold writeAndOpen. destruct (writeTable meta records) as [file|e|] eqn:W.
  - split; [apply Hp|]. split; [done|]. split; [done|]. intros H1 H2 H3 H4. destruct (tables_hold meta records H1 H2 H3 H4) as (file' & h & E1 & E2 & E3).
    exists h. by assert (file = file') as -> by congruence.
  - split; [reflexivity|]. split; [done|]. split; [done|]. intros H1 H2 H3 H4. destruct (tables_hold meta records H1 H2 H3 H4) as (? & ? & ? & _). congruence.
  - split; [reflexivity|]. split; [done|]. split; [done|]. intros H1 H2 H3 H4. destruct (tables_hold meta records H1 H2 H3 H4) as (? & ? & ? & _). congruence.
Qed.

(** ** The primary records *)

Section Records.

Context (mem : MemTable_) (db0 : SwEmbeddedDb).

Hypothesis (Hmem : mem_ok mem) (Hblob : blobFileId mem = 0) (Hfresh : fresh_blobs db0)
  (Hids : 0 < nextTableId (manifest_ db0) < 2 ^ 64 - 2).

(** What is written of the record of a key. *)
Definition flushes (blobs : BlobFiles) (key : list byte) (raw : TableRecord_) : Prop := exists r r',
  ByteMap.find key (mt_primary mem) = Some r /\ raw = rawRecord key r' /\ stored_ok r' /\ small key r' /\
  meaning blobs r' = Some (memVersion r).

Lemma flushes_grows blobs blobs' key raw : blobs_grow blobs blobs' -> flushes blobs key raw -> flushes blobs' key raw.
Proof.
  intros Hg (r & r' & H1 & H2 & H3 & H4 & H5). exists r, r'. split; [done|]. split; [done|]. split; [done|]. split; [done|].
  pose proof (stored_refs r' H3) as []. by eapply meaning_grows.
Qed.

Record flushed (ks : list (list byte)) (f : Flushing) : Prop := {
  fd_db : prepared db0 (fl_db f);
  fd_blob : fl_blobFileId f = 0 /\ nextTableId (manifest_ (fl_db f)) = nextTableId (manifest_ db0) \/
            fl_blobFileId f = nextTableId (manifest_ db0) /\ nextTableId (manifest_ (fl_db f)) = nextTableId (manifest_ db0) + 1 /\
            zlen (default [] (ByteMap.find (blobFileName_ (fl_blobFileId f)) (get_blobs (fl_db f)))) <= 2 ^ 28 * zlen ks;
  fd_range : is_u64 (fl_range f).1 /\ is_u64 (fl_range f).2;
  fd_records : Forall2 (flushes (get_blobs (fl_db f))) ks (fl_records f)
}.

Lemma widen_range range sequence : is_u64 range.1 -> is_u64 range.2 -> is_u64 sequence ->
  is_u64 (widen range sequence).1 /\ is_u64 (widen range sequence).2.
Proof. unfold widen, is_u64. cbn [fst snd]. intros. destruct (Z.eqb_spec range.1 0); lia. Qed.

Lemma append_grows name (blobs : BlobFiles) more :
  blobs_grow blobs (ByteMap.insert name (default [] (ByteMap.find name blobs) ++ more) blobs).
Proof.
  intros name' file F. rewrite ByteMap.find_after_insert. case_decide as D.
  - subst name'. rewrite F. by exists more.
  - exists []. by rewrite app_nil_r.
Qed.

(** A value that is written behind a blob file is read from there. *)
Lemma externalized_means threshold id key r blobs : entry_ok (key, r) -> 0 < id < 2 ^ 64 -> pr_deleted r = false ->
  threshold < zlen (pr_value r) -> zlen (default [] (ByteMap.find (blobFileName_ id) blobs)) < 2 ^ 64 ->
  let file := default [] (ByteMap.find (blobFileName_ id) blobs) in
  let '(r', file') := externalizeBlobValueToFile_ threshold id r file in
  file' = file ++ pr_value r /\ stored_ok r' /\ small key r' /\
  meaning (ByteMap.insert (blobFileName_ id) file' blobs) r' = Some (memVersion r).
Proof.
  intros ((Hq & Hr) & Hs & Hi) Hid Hd Ht Hlen file. cbn [fst snd] in *. rewrite Hd in Hr. destruct Hr as (Hk & Hsb & Hj & Hv). rewrite Hi in Hv.
  unfold externalizeBlobValueToFile_. rewrite Hd, Hi. destruct (Z.eqb_spec id 0); [lia|]. cbn [negb orb].
  destruct (Z.leb_spec (zlen (pr_value r)) threshold); [lia|]. cbv zeta. unfold small in Hs.
  assert (zlen (pr_value r) < 2 ^ 28) as Hvl by lia. fold file in Hlen. set (offset := if isEmpty (pr_value r) then 0 else zlen file).
  assert (wrap32 (zlen (pr_value r)) = zlen (pr_value r)) as -> by (unfold wrap32; rewrite Z.mod_small; lia).
  split; [done|]. split; [|split].
  - split; [done|]. cbn [pr_deleted]. unfold record_ok. cbn [pr_secondaryKeys pr_jsonPayload pr_inlineValue pr_value pr_blobRef].
    split; [done|]. split; [done|]. split; [done|]. split; [done|]. unfold blobRef_ok. cbn [br_valid br_fileId br_offset br_length br_crc32 br_flags].
    split; [done|]. split; [unfold is_u64; lia|]. split; [subst offset; unfold is_u64; destruct (isEmpty (pr_value r)); lia|].
    split; [unfold u32_ok; lia|]. split; [|done]. unfold crc32OfByteArray_, crc32Bytes_, wrap32, u32_ok. destruct (isEmpty (pr_value r)); [lia|].
    apply Z.mod_pos_bound. lia.
  - unfold small. cbn [pr_value pr_secondaryKeys]. change (zlen (@nil byte)) with 0. lia.
  - unfold meaning. cbn [pr_deleted]. unfold resolveValueLocked_. cbn [pr_inlineValue pr_blobRef br_valid br_fileId br_offset br_length br_crc32 negb orb].
    rewrite ByteMap.find_after_insert, decide_True by done. cbn [mbind option_bind]. unfold readAt. rewrite zlen_app.
    assert (offset <= zlen file) as Ho by (subst offset; destruct (isEmpty (pr_value r)); lia).
    destruct (Z.leb_spec (offset + zlen (pr_value r)) (zlen file + zlen (pr_value r))); [|lia].
    assert (take (Z.to_nat (zlen (pr_value r))) (drop (Z.to_nat offset) (file ++ pr_value r)) = pr_value r) as ->.
    { subst offset. destruct (pr_value r) as [|b v] eqn:Ev; [by rewrite firstn_O|]. cbn [isEmpty]. rewrite !Nat2Z.id, skipn_app_exact. apply firstn_all. }
    cbn [mbind option_bind]. rewrite Z.eqb_refl. unfold memVersion. cbn. by rewrite Hd.
Qed.

Lemma flushRecord_ok ks key f : flushed ks f -> key ∈ ByteMap.keys (mt_primary mem) -> zlen ks < 2 ^ 31 ->
  flushed (ks ++ [key]) (flushRecord mem f key).
Proof using All.
  intros [Hd Hb [Hr1 Hr2] Hr] Hk Hks. unfold flushRecord. apply ByteMap.find_keys in Hk as [r F]. rewrite F.
  pose proof (memLayer_elem _ _ _ Hmem F) as He. pose proof He as ((Hq & Hso) & Hsm & Hin). cbn [fst snd] in *.
  pose proof (widen_range _ _ Hr1 Hr2 Hq) as Hw. set (range := widen (fl_range f) (pr_sequence r)) in *.
  destruct (negb (pr_deleted r) && pr_inlineValue r && (inlineBlobThresholdBytes (options_ (fl_db f)) <? zlen (pr_value r))) eqn:Eb.
  - apply andb_true_iff in Eb as [[Edel _]%andb_true_iff Et]. apply negb_true_iff in Edel. apply Z.ltb_lt in Et.
    assert (exists id db, (if fl_blobFileId f =? 0 then nextTableIdThreadSafe_ (fl_db f) else (fl_blobFileId f, fl_db f)) = (id, db) /\
      id = nextTableId (manifest_ db0) /\ nextTableId (manifest_ db) = nextTableId (manifest_ db0) + 1 /\ prepared (fl_db f) db /\
      get_blobs db = get_blobs (fl_db f) /\ zlen (default [] (ByteMap.find (blobFileName_ id) (get_blobs (fl_db f)))) <= 2 ^ 28 * zlen ks)
      as (id & db & -> & E1 & E2 & E3 & E4 & E5).
    { destruct Hb as [[Hb1 Hb2]|(Hb1 & Hb2 & Hb3)].
      - rewrite Hb1. pose proof (takes_id (fl_db f) ltac:(lia)) as Hti. destruct (nextTableIdThreadSafe_ (fl_db f)) as [id db].
        destruct Hti as (I1 & I2 & I3 & I4). exists id, db. split; [done|]. split; [lia|]. split; [lia|]. split; [done|]. split; [done|].
        assert (ByteMap.find (blobFileName_ id) (get_blobs (fl_db f)) = None) as ->; [|change (zlen (default [] None)) with 0; lia].
        apply (pp_fresh _ _ Hd Hfresh); [lia|unfold is_u64; lia].
      - exists (fl_blobFileId f), (fl_db f). destruct (Z.eqb_spec (fl_blobFileId f) 0); [lia|].
        split; [done|]. split; [done|]. split; [done|]. split; [reflexivity|]. done. }
    rewrite E4. set (blobs := get_blobs (fl_db f)) in *.
    pose proof (externalized_means (inlineBlobThresholdBytes (options_ (fl_db f))) id key r blobs He ltac:(lia) Edel Et ltac:(lia)) as Hx.
    cbv zeta in Hx. destruct (externalizeBlobValueToFile_ _ id r _) as [r' file'].
    destruct Hx as (X1 & X2 & X3 & X4). set (blobs' := ByteMap.insert (blobFileName_ id) file' blobs) in *.
    assert (blobs_grow blobs blobs') as Hg by (subst blobs' file'; apply append_grows).
    set (db' := set_files_ (tableFiles (files db)) blobs' db).
    assert (prepared (fl_db f) db') as Hp.
    { etransitivity; [exact E3|]. split; [done|by rewrite E4|done|]. intros Hf id' Hid Hu.
      change (ByteMap.find (blobFileName_ id') blobs' = None). change (nextTableId (manifest_ db) <= id') in Hid. subst blobs'.
      rewrite ByteMap.find_after_insert. case_decide as D.
      - apply blobFileName_inj in D; [lia|unfold is_u64; lia|done].
      - subst blobs. rewrite <- E4. by apply Hf. }
    split; cbn [fl_db fl_blobFileId fl_range fl_records].
    + by etransitivity.
    + right. split; [done|]. split; [done|]. change (get_blobs db') with blobs'. subst blobs'. rewrite ByteMap.find_after_insert, decide_True by done.
      change (default [] (Some file')) with file'. rewrite X1, !zlen_app. change (zlen [key]) with 1. unfold small in Hsm. lia.
    + done.
    + apply Forall2_app; [|constructor; [|constructor]].
      * eapply Forall2_impl; [exact Hr|]. intros k raw. by apply flushes_grows.
      * exists r, r'. done.
  - split; cbn [fl_db fl_blobFileId fl_range fl_records]; [done| |done|].
    + destruct Hb as [Hb|(Hb1 & Hb2 & Hb3)]; [by left|right]. split; [done|]. split; [done|]. rewrite zlen_app. change (zlen [key]) with 1. lia.
    + apply Forall2_app; [done|]. constructor; [|constructor]. exists r, r. split; [done|]. split; [done|]. split; [done|]. split; [done|].
      by apply meaning_inline.
Qed.

Lemma flushRecords_ok ks : forall done_ f, flushed done_ f -> Forall (fun key => key ∈ ByteMap.keys (mt_primary mem)) ks ->
  zlen done_ + zlen ks < 2 ^ 31 -> flushed (done_ ++ ks) (fold_left (flushRecord mem) ks f).
Proof using All.
  induction ks as [|key ks IH]; intros done_ f Hf Hk Hl; [by rewrite app_nil_r|]. apply Forall_cons in Hk as [Hk1 Hk2].
  assert (zlen (key :: ks) = 1 + zlen ks) as El by (change (key :: ks) with ([key] ++ ks); by rewrite zlen_app).
  cbn [fold_left]. replace (done_ ++ key :: ks) with ((done_ ++ [key]) ++ ks) by (by rewrite <- app_assoc).
  apply IH; [|done|rewrite zlen_app; change (zlen [key]) with 1; lia]. apply flushRecord_ok; [done|done|lia].
Qed.

End Records.

(** ** The new tables *)

(** The table of the primary records: its versions are those of the memtable. *)
Record table_of (mem : MemTable_) (db' : SwEmbeddedDb) (h : table_handle) : Prop := {
  to_ok : table_ok (get_blobs db') h;
  to_layer : forall key, tableLayer (get_blobs db') h key = memLayer mem key
}.

Lemma flushed_keys mem blobs ks records : Forall2 (flushes mem blobs) ks records -> map tr_userKey records = ks.
Proof.
  induction 1 as [|key raw ks records (r & r' & _ & -> & _) _ IH]; [done|]. rewrite map_cons, IH. f_equal.
  unfold rawRecord. by destruct (pr_deleted r').
Qed.

Lemma keys_sorted_records (records : list TableRecord_) {A} (m : ByteMap.t A) : ByteMap.wf m -> map tr_userKey records = ByteMap.keys m ->
  TableHandle_.sorted records.
Proof.
  revert m. induction records as [|raw records IH]; intros [|e m] W Ek; try done; [constructor|]. injection Ek as Ek1 Ek2.
  pose proof (ByteMap.wf_tail _ _ W) as W'. constructor; [by apply (IH m)|]. apply list.Forall_forall. intros raw' Hin.
  assert (tr_userKey raw' ∈ ByteMap.keys m) as Hk by (rewrite <- Ek2; apply list_elem_of_fmap; by exists raw').
  apply list_elem_of_fmap in Hk as (f & -> & Hf). rewrite Ek1. by apply (ByteMap.wf_head e m).
Qed.

Lemma lookup_missing key records : TableHandle_.lookupRecord key records = None -> key ∉ map tr_userKey records.
Proof.
  unfold TableHandle_.lookupRecord. intros F Hin. apply list_elem_of_fmap in Hin as (raw & -> & Hin%list_elem_of_In).
  pose proof (List.find_none _ _ F raw Hin) as H. cbv beta in H. by rewrite bool_decide_eq_true_2 in H.
Qed.

Lemma Forall2_elem_r {A B} (P : A -> B -> Prop) l k y : Forall2 P l k -> y ∈ k -> exists x, x ∈ l /\ P x y.
Proof.
  induction 1 as [|x z l k Hp _ IH]; intros Hy; [by apply elem_of_nil in Hy|]. apply elem_of_cons in Hy as [->|Hy].
  - exists x. split; [left|done].
  - destruct (IH Hy) as (x' & ? & ?). exists x'. split; [by right|done].
Qed.

Lemma flushed_table mem db' h records : ByteMap.wf (mt_primary mem) ->
  Forall2 (flushes mem (get_blobs db')) (ByteMap.keys (mt_primary mem)) records -> holds_records h records -> table_of mem db' h.
Proof.
  intros W Hf Hh. assert (table_ok (get_blobs db') h) as Hok.
  { exists records. split; [done|]. apply list.Forall_forall. intros raw Hin. destruct (Forall2_elem_r _ _ _ _ Hf Hin) as (key & _ & r & r' & _ & -> & H2 & H3 & H4).
    exists r'. assert (tr_userKey (rawRecord key r') = key) as Ek by (unfold rawRecord; by destruct (pr_deleted r')). rewrite Ek. by rewrite H4. }
  split; [done|]. intros key. destruct Hh as (_ & _ & _ & Hfind & _). unfold tableLayer. rewrite Hfind.
  destruct (TableHandle_.lookupRecord key records) as [raw|] eqn:F.
  - apply TableHandle_.lookup_elem in F as [Hin Hk]. destruct (Forall2_elem_r _ _ _ _ Hf Hin) as (key' & _ & r & r' & H1 & -> & H2 & H3 & H4).
    assert (tr_userKey (rawRecord key' r') = key') as Ek by (unfold rawRecord; by destruct (pr_deleted r')). rewrite Ek in Hk. subst key'.
    cbn [mbind option_bind]. rewrite read_written by done. cbn [mbind option_bind]. rewrite H4. unfold memLayer. by rewrite H1.
  - apply lookup_missing in F. rewrite (flushed_keys _ _ _ _ Hf) in F. unfold memLayer. destruct (ByteMap.find key (mt_primary mem)) eqn:F'; [|done].
    exfalso. apply F, ByteMap.find_keys. by rewrite F'.
Qed.

(** What is given of a memtable: it may be flushed. *)
Record flushable (mem : MemTable_) : Prop := {
  fl_mem : mem_ok mem;
  fl_order : MemTable.ok mem;
  fl_blob : blobFileId mem = 0;
  fl_fits : zlen (mt_primary mem) < 2 ^ 31 /\ zlen (secondary mem) < 2 ^ 31
}.

Lemma flushes_written mem blobs ks records : Forall2 (flushes mem blobs) ks records -> Forall written records.
Proof.
  induction 1 as [|key raw ks records (r & r' & _ & -> & H1 & H2 & _) _ IH]; constructor; [|done]. exists r'.
  by assert (tr_userKey (rawRecord key r') = key) as -> by (unfold rawRecord; by destruct (pr_deleted r')).
Qed.

Lemma zlen_keys {A} (m : ByteMap.t A) : zlen (ByteMap.keys m) = zlen m.
Proof. unfold ByteMap.keys. by rewrite length_map. Qed.

Lemma flushPrimary_ok mem level db : flushable mem -> mt_primary mem <> [] -> fresh_blobs db -> 0 < nextTableId (manifest_ db) < 2 ^ 63 ->
  let '(result, db') := flushPrimary mem level db in
  prepared db db' /\ nextTableId (manifest_ db') <= nextTableId (manifest_ db) + 2 /\
  exists meta h, result = Ok (meta, h) /\ tm_kind meta = TableKindPrimary /\
    minted (nextTableId (manifest_ db)) (nextTableId (manifest_ db')) level meta /\ table_of mem db' h.
Proof using All.
  intros [Hm Ho Hb [Hl _]] Hne Hfresh Hids. unfold flushPrimary. pose proof (takes_id db ltac:(lia)) as Ht.
  destruct (nextTableIdThreadSafe_ db) as [id db1]. destruct Ht as (T1 & T2 & T3 & T4). rewrite Hb, (MemTable.orderedPrimaryKeys_eq mem Ho).
  assert (0 < nextTableId (manifest_ db1) < 2 ^ 64 - 2 /\ fresh_blobs db1) as [Hids1 Hfresh1] by (split; [lia|by apply (pp_fresh _ _ T4)]).
  assert (flushed mem db1 [] (mkFlushing [] (0, 0) 0 db1)) as H0.
  { split; [reflexivity|by left|done|constructor]. }
  pose proof (flushRecords_ok mem db1 Hm Hb Hfresh1 ltac:(lia) (ByteMap.keys (mt_primary mem)) [] _ H0
    ltac:(by apply list.Forall_forall) ltac:(rewrite zlen_keys; change (zlen (@nil (list byte))) with 0; lia)) as Hf.
  rewrite app_nil_l in Hf. set (f := fold_left (flushRecord mem) _ _) in *. destruct Hf as [F1 F2 [F3 F4] F5].
  match goal with |- context [writeAndOpen ?m _ _] => set (meta := m) end.
  pose proof (opens_table meta (fl_records f) (fl_db f)) as Hw. destruct (writeAndOpen meta (fl_records f) (fl_db f)) as [handle db'].
  destruct Hw as (W1 & W2 & W3 & W4). pose proof (flushed_keys _ _ _ _ F5) as Hk. pose proof Ho as [Hwf _ _ _].
  assert (zlen (fl_records f) = zlen (mt_primary mem)) as Hlen.
  { rewrite <- zlen_keys, <- Hk. by rewrite length_map. }
  split; [etransitivity; [exact T4|]; etransitivity; [exact F1|exact W1]|].
  assert (nextTableId (manifest_ db') <= nextTableId (manifest_ db) + 2 /\ nextTableId (manifest_ db) + 1 <= nextTableId (manifest_ db')) as [N1 N2].
  { rewrite W2. destruct F2 as [[_ F2]|(_ & F2 & _)]; rewrite F2, T2; lia. }
  split; [exact N1|]. destruct W4 as (h & -> & Hh).
  - unfold TableWriter_.meta_ok. subst meta. cbn [tm_kind tm_minSequence tm_maxSequence tm_recordCount tm_indexName]. split; [done|]. split; [done|]. split; [done|].
    split; [unfold is_u64; lia|done].
  - apply written_records; [by eapply flushes_written|lia].
  - by apply (keys_sorted_records _ (mt_primary mem)).
  - intros En. rewrite En in Hk. by destruct (mt_primary mem).
  - exists meta, h. split; [done|]. split; [done|]. split.
    + subst meta id. split; cbn [tm_fileId tm_level tm_fileName]; [lia|done|done].
    + apply (flushed_table mem db' h (fl_records f)); [done| |done]. by rewrite W3.
Qed.

(** The descriptions of new tables have numbers of their own. *)
Definition new_tables (low high level : Z) (newTables : list (TableMeta_ * table_handle)) : Prop :=
  Forall (fun it => minted low high level it.1) newTables /\ NoDup (map (fun it => tm_fileId it.1) newTables).

Lemma new_tables_app low mid high level a b : low <= mid <= high -> new_tables low mid level a -> new_tables mid high level b ->
  new_tables low high level (a ++ b).
Proof.
  intros Hm [A1 A2] [B1 B2]. split.
  - apply Forall_app. split; (eapply Forall_impl; [eassumption|]); intros it; apply minted_more; lia.
  - rewrite map_app. apply NoDup_app. split; [done|]. split; [|done]. intros id Ha Hb.
    apply list_elem_of_fmap in Ha as (x & -> & Hx), Hb as (y & Ey & Hy). rewrite list.Forall_forall in A1, B1.
    apply A1 in Hx as [Hx _ _]. apply B1 in Hy as [Hy _ _]. lia.
Qed.

Lemma flushIndex_ok mem level name bucket db : 0 < nextTableId (manifest_ db) < 2 ^ 64 - 1 ->
  let '(result, db') := flushIndex mem level name bucket db in
  prepared db db' /\ get_blobs db' = get_blobs db /\ nextTableId (manifest_ db') = nextTableId (manifest_ db) + 1 /\
  forall it, result = Ok it -> tm_kind it.1 = TableKindIndex /\ new_tables (nextTableId (manifest_ db)) (nextTableId (manifest_ db')) level [it].
Proof using All.
  intros Hids. unfold flushIndex. pose proof (takes_id db ltac:(lia)) as Ht.
  destruct (nextTableIdThreadSafe_ db) as [id db1]. destruct Ht as (T1 & T2 & T3 & T4).
  destruct (fold_left (indexRecord bucket) _ _) as [records range].
  match goal with |- context [writeAndOpen ?m _ _] => set (meta := m) end.
  pose proof (opens_table meta records db1) as Hw. destruct (writeAndOpen meta records db1) as [handle db'].
  destruct Hw as (W1 & W2 & W3 & _). split; [by etransitivity|]. split; [congruence|]. split; [congruence|].
  intros it Hit. destruct handle as [h|e|]; try done. injection Hit as <-. split; [done|]. split.
  - constructor; [|constructor]. subst meta. split; cbn [fst tm_fileId tm_level tm_fileName]; [rewrite W2; lia|done|done].
  - apply NoDup_singleton.
Qed.

Lemma flushIndexes_ok mem level names : forall newTables db, 0 < nextTableId (manifest_ db) ->
  nextTableId (manifest_ db) + zlen names < 2 ^ 64 - 1 ->
  let '(result, db') := flushIndexes mem level names newTables db in
  prepared db db' /\ get_blobs db' = get_blobs db /\ nextTableId (manifest_ db') <= nextTableId (manifest_ db) + zlen names /\
  forall all, result = Ok all -> exists added, all = newTables ++ added /\ Forall (fun it => tm_kind it.1 = TableKindIndex) added /\
    new_tables (nextTableId (manifest_ db)) (nextTableId (manifest_ db')) level added.
Proof using All.
  induction names as [|name names IH]; intros newTables db Hids Hl; cbn [flushIndexes].
  - split; [reflexivity|]. split; [done|]. split; [change (zlen (@nil (list byte))) with 0; lia|]. intros all [= ->]. exists [].
    rewrite app_nil_r. split; [done|]. split; [constructor|]. split; [constructor|apply NoDup_nil_2].
  - assert (zlen (name :: names) = 1 + zlen names) as El by (change (name :: names) with ([name] ++ names); by rewrite zlen_app). rewrite El in *.
    assert (forall bucket, let '(result, db') := (match flushIndex mem level name bucket db with
       | (Ok it, db) => flushIndexes mem level names (newTables ++ [it]) db
       | (Err e, db) => (Err e, db)
       | (NoFuel, db) => (NoFuel, db) end) in
      prepared db db' /\ get_blobs db' = get_blobs db /\ nextTableId (manifest_ db') <= nextTableId (manifest_ db) + (1 + zlen names) /\
      forall all, result = Ok all -> exists added, all = newTables ++ added /\ Forall (fun it => tm_kind it.1 = TableKindIndex) added /\
        new_tables (nextTableId (manifest_ db)) (nextTableId (manifest_ db')) level added) as Hone.
    { intros bucket. pose proof (flushIndex_ok mem level name bucket db ltac:(lia)) as Hi.
      destruct (flushIndex mem level name bucket db) as [[it|e|] db1]; destruct Hi as (I1 & I2 & I3 & I4).
      - specialize (IH (newTables ++ [it]) db1 ltac:(lia) ltac:(lia)). destruct (flushIndexes mem level names _ db1) as [result db'].
        destruct IH as (J1 & J2 & J3 & J4). split; [by etransitivity|]. split; [congruence|]. split; [lia|]. intros all Ha.
        destruct (J4 all Ha) as (added & -> & K1 & K2). exists (it :: added). split; [by rewrite <- app_assoc|].
        destruct (I4 it eq_refl) as [K3 K4]. split; [by constructor|]. apply (new_tables_app _ (nextTableId (manifest_ db1)) _ _ [it]); [|done|done].
        pose proof (pp_ids _ _ I1). pose proof (pp_ids _ _ J1). lia.
      - split; [done|]. split; [done|]. split; [lia|done].
      - split; [done|]. split; [done|]. split; [lia|done]. }
    assert (let '(result, db') := flushIndexes mem level names newTables db in
      prepared db db' /\ get_blobs db' = get_blobs db /\ nextTableId (manifest_ db') <= nextTableId (manifest_ db) + (1 + zlen names) /\
      forall all, result = Ok all -> exists added, all = newTables ++ added /\ Forall (fun it => tm_kind it.1 = TableKindIndex) added /\
        new_tables (nextTableId (manifest_ db)) (nextTableId (manifest_ db')) level added) as Hskip.
    { specialize (IH newTables db ltac:(lia) ltac:(lia)). destruct (flushIndexes mem level names newTables db) as [result db'].
      destruct IH as (J1 & J2 & J3 & J4). split; [done|]. split; [done|]. split; [lia|done]. }
    destruct (ByteMap.find name (secondary mem)) as [[|e bucket]|]; [exact Hskip|apply Hone|exact Hskip].
Qed.

(** What the unlocked part of a flush leaves. *)
Lemma prepareFlush_ok mem db : flushable mem -> fresh_blobs db -> 0 < nextTableId (manifest_ db) < 2 ^ 62 ->
  let '(result, db') := prepareFlush mem 0 db in
  prepared db db' /\ nextTableId (manifest_ db') < 2 ^ 63 /\
  forall all, result = Ok all -> new_tables (nextTableId (manifest_ db)) (nextTableId (manifest_ db')) 0 all /\
    exists indexes, Forall (fun it => tm_kind it.1 = TableKindIndex) indexes /\
      (mt_primary mem = [] /\ all = indexes \/
       exists meta h, all = (meta, h) :: indexes /\ tm_kind meta = TableKindPrimary /\ table_of mem db' h).
Proof using All.
  intros Hf Hfresh Hids. unfold prepareFlush.
  assert (zlen (sortKeys (ByteMap.keys (secondary mem))) < 2 ^ 31) as Hn.
  { unfold sortKeys. rewrite (Permutation_length (merge_sort_Permutation key_le (ByteMap.keys (secondary mem)))), zlen_keys. apply Hf. }
  set (names := sortKeys (ByteMap.keys (secondary mem))) in *. destruct (mt_primary mem) as [|e primary] eqn:Ep; cbn [ByteMap.isEmpty].
  - pose proof (flushIndexes_ok mem 0 names [] db ltac:(lia) ltac:(lia)) as Hi. destruct (flushIndexes mem 0 names [] db) as [result db'].
    destruct Hi as (I1 & I2 & I3 & I4). split; [done|]. split; [lia|]. intros all Ha. destruct (I4 all Ha) as (added & -> & K1 & K2).
    split; [done|]. exists added. split; [done|by left].
  - pose proof (flushPrimary_ok mem 0 db Hf ltac:(by rewrite Ep) Hfresh ltac:(lia)) as Hp. destruct (flushPrimary mem 0 db) as [result1 db1].
    destruct Hp as (P1 & P2 & meta & h & -> & P3 & P4 & P5). pose proof (pp_ids _ _ P1) as Hid1.
    pose proof (flushIndexes_ok mem 0 names [(meta, h)] db1 ltac:(lia) ltac:(lia)) as Hi. destruct (flushIndexes mem 0 names _ db1) as [result db'].
    destruct Hi as (I1 & I2 & I3 & I4). pose proof (pp_ids _ _ I1). split; [by etransitivity|]. split; [lia|]. intros all Ha.
    destruct (I4 all Ha) as (added & -> & K1 & K2). split.
    + apply (new_tables_app _ (nextTableId (manifest_ db1))); [lia| |done]. split; [by constructor|apply NoDup_singleton].
    + exists added. split; [done|]. right. exists meta, h. split; [done|]. split; [done|]. destruct P5 as [P5 P6].
      split; rewrite I2; done.
Qed.

End Flush.

End DbFlush.
