(* ===== verification/DbCompact.v ===== *)
(** Compaction of the persistent database: the table that a group of tables is merged
    into has the newest version of every key, but for the tombstones it may drop. *)
From Stdlib Require Import ZArith Lia Strings.Byte Sorting.
From stdpp Require Import base list strings numbers option sorting.
From S2P Require Import Prelude SwString ByteMap NumberText Crypto DbCodec DbWal DbContents DbTable DbMemTable DbSortedTables DbReadModel DbStore DbVersions DbTiers DbFlush.

Import SwString.
Import DbCodec.
Import DbContents.
Import DbVersions.
Import DbTiers.
Import DbFlush.

Module DbCompact.

Section Compact.

Context `{E : EVP} `{C : Miniz} `{T : SortedTables} `{!SortedTablesLaws T}.

(** ** Any group *)

Lemma compactGroup_tables {A} (read : TableRecord_ -> option A) sequence deleted raw kind name group covers db :
  0 < nextTableId (manifest_ db) < 2 ^ 64 - 1 ->
  let '(result, db') := compactGroup read sequence deleted raw kind name group covers db in
  prepared db db' /\ get_blobs db' = get_blobs db /\ nextTableId (manifest_ db') <= nextTableId (manifest_ db) + 1 /\
  forall added removed, result = Some (added, removed) -> removed = map fst (handlesOf db group) /\
    Forall (fun it => tm_kind it.1 = kind) added /\ new_tables (nextTableId (manifest_ db)) (nextTableId (manifest_ db')) 1 added.
Proof using All.
  intros Hids. unfold compactGroup. set (handles := handlesOf db group). destruct (fold_left _ handles _) as [[latest range]|];
    [|split; [reflexivity|split; [done|split; [lia|done]]]].
  destruct (map _ _) as [|record records] eqn:Er.
  - split; [reflexivity|]. split; [done|]. split; [lia|]. intros added removed [= <- <-]. split; [done|]. split; [constructor|].
    split; [constructor|apply NoDup_nil_2].
  - pose proof (takes_id db ltac:(lia)) as Ht. destruct (nextTableIdThreadSafe_ db) as [id db1]. destruct Ht as (T1 & T2 & T3 & T4).
    match goal with |- context [writeAndOpen ?m ?rs _] => set (meta := m); set (rows := rs) end.
    pose proof (opens_table meta rows db1) as Hw. destruct (writeAndOpen meta rows db1) as [handle db'].
    destruct Hw as (W1 & W2 & W3 & _). assert (prepared db db') as Hp by by etransitivity.
    destruct handle as [h|e|]; (split; [done|]; split; [congruence|]; split; [rewrite W2; lia|]; intros added removed [=]).
    subst added removed. split; [done|]. split; [by constructor|]. split; [|apply NoDup_singleton].
    constructor; [|constructor]. split; cbn [fst tm_fileId tm_level tm_fileName]; [subst meta; cbn; rewrite W2; lia|done|done].
Qed.

Lemma handlesOf_fixed db db' group : fixed db' = fixed db -> handlesOf db' group = handlesOf db group.
Proof. unfold fixed, handlesOf. intros [= _ _ _ _ -> _ _ _ _ _ _ _ _ _ _]. done. Qed.

Lemma handlesOf_fst db group : map fst (handlesOf db group) `sublist_of` group.
Proof.
  unfold handlesOf. induction group as [|meta group IH]; [constructor|]. simpl. destruct (ByteMap.find _ _); simpl; by constructor.
Qed.

Lemma compactIndexes_tables groups : forall newTables toRemove db, 0 < nextTableId (manifest_ db) ->
  nextTableId (manifest_ db) + zlen groups < 2 ^ 64 - 1 ->
  let '(result, db') := compactIndexes groups newTables toRemove db in
  prepared db db' /\ get_blobs db' = get_blobs db /\ nextTableId (manifest_ db') <= nextTableId (manifest_ db) + zlen groups /\
  forall all removed, result = Some (all, removed) -> exists added more, all = newTables ++ added /\ removed = toRemove ++ more /\
    Forall (fun it => tm_kind it.1 = TableKindIndex) added /\
    new_tables (nextTableId (manifest_ db)) (nextTableId (manifest_ db')) 1 added /\ more `sublist_of` concat (map snd groups).
Proof using All.
  induction groups as [|[name group] groups IH]; intros newTables toRemove db Hids Hl; cbn [compactIndexes].
  - split; [reflexivity|]. split; [done|]. split; [change (zlen (@nil (list byte * list TableMeta_))) with 0; lia|].
    intros all removed [= -> ->]. exists [], []. rewrite !app_nil_r. split; [done|]. split; [done|]. split; [constructor|].
    split; [split; [constructor|apply NoDup_nil_2]|done].
  - assert (zlen ((name, group) :: groups) = 1 + zlen groups) as El by (change ((name, group) :: groups) with ([(name, group)] ++ groups); by rewrite zlen_app).
    rewrite El in *. unfold compactIndex.
    match goal with |- context [compactGroup ?r ?s ?d ?w ?k ?n ?g ?c db] => pose proof (compactGroup_tables r s d w k n g c db ltac:(lia)) as Hg;
      destruct (compactGroup r s d w k n g c db) as [[[added removed]|] db1] end.
    + destruct Hg as (G1 & G2 & G3 & G4). destruct (G4 _ _ eq_refl) as (G5 & G6 & G7).
      specialize (IH (newTables ++ added) (toRemove ++ removed) db1). pose proof (pp_ids _ _ G1).
      specialize (IH ltac:(lia) ltac:(lia)). destruct (compactIndexes groups _ _ db1) as [result db']. destruct IH as (J1 & J2 & J3 & J4).
      split; [by etransitivity|]. split; [congruence|]. split; [lia|]. intros all removed' Hr. destruct (J4 _ _ Hr) as (added' & more & -> & -> & K1 & K2 & K3).
      exists (added ++ added'), (removed ++ more). split; [by rewrite app_assoc|]. split; [by rewrite app_assoc|]. split; [by apply Forall_app|].
      pose proof (pp_ids _ _ J1). split; [by apply (new_tables_app _ (nextTableId (manifest_ db1)))|]. cbn [map snd concat]. apply sublist_app; [|done].
      subst removed. apply handlesOf_fst.
    + destruct Hg as (G1 & G2 & G3 & _). split; [done|]. split; [done|]. split; [lia|done].
Qed.

(** ** The merged records *)

Definition store (latest : ByteMap.t PrimaryRecord_) (raw : TableRecord_) : ByteMap.t PrimaryRecord_ :=
  match storedRecord raw with Some r => MemTable.storeIfNewer pr_sequence (tr_userKey raw) r latest | None => latest end.

Lemma mergeTable_records records : forall latest range, Forall (fun raw => exists r, storedRecord raw = Some r /\ is_u64 (pr_sequence r)) records ->
  is_u64 range.1 -> is_u64 range.2 ->
  exists range', fold_left (fun state raw =>
      '(latest, range) ← state;
      entry ← storedRecord raw;
      Some (MemTable.storeIfNewer pr_sequence (tr_userKey raw) entry latest, widen range (pr_sequence entry)))
    records (Some (latest, range)) = Some (fold_left store records latest, range') /\ is_u64 range'.1 /\ is_u64 range'.2.
Proof using C.
  induction records as [|raw records IH]; intros latest range Hr H1 H2; [by exists range|]. apply Forall_cons in Hr as [(r & E1 & Hq) Hr].
  destruct (widen_range _ _ H1 H2 Hq) as [H3 H4]. cbn [fold_left]. unfold store at 2. rewrite E1. cbn [mbind option_bind]. by apply IH.
Qed.

Lemma merged_records handles blobs : Forall (fun it : TableMeta_ * table_handle => table_ok blobs it.2) handles ->
  forall latest range, is_u64 range.1 -> is_u64 range.2 ->
  exists range' all, fold_left (mergeGroupTable storedRecord pr_sequence) handles (Some (latest, range)) =
      Some (fold_left store all latest, range') /\ is_u64 range'.1 /\ is_u64 range'.2 /\ Forall (raw_ok blobs) all /\
    all = concat (omap (fun it => tableAll it.2) handles) /\
    forall key v, v ∈ column (map (tableLayer blobs) (map snd handles)) key <->
      exists raw r, raw ∈ all /\ tr_userKey raw = key /\ storedRecord raw = Some r /\ meaning blobs r = Some v.
Proof using T.
  induction 1 as [|it handles Hit Hall IH]; intros latest range H1 H2.
  - exists range, []. split; [done|]. split; [done|]. split; [done|]. split; [constructor|]. split; [done|]. intros key v. split; [by intros ?%elem_of_nil|].
    by intros (raw & r & ?%elem_of_nil & _).
  - destruct Hit as (records & Hh & Hr). pose proof Hh as (_ & Hs & Hta & Hf & _).
    assert (Forall (fun raw => exists r, storedRecord raw = Some r /\ is_u64 (pr_sequence r)) records) as Hr'.
    { eapply Forall_impl; [exact Hr|]. intros raw (r & -> & [Hq Hso] & _). exists r. by rewrite read_written by (by split). }
    cbn [fold_left]. unfold mergeGroupTable at 2. cbn [mbind option_bind]. rewrite Hta.
    destruct (mergeTable_records records latest range Hr' H1 H2) as (range1 & E1 & R1 & R2). cbn [mbind option_bind] in E1 |- *. rewrite E1.
    destruct (IH (fold_left store records latest) range1 R1 R2) as (range' & all & E2 & R3 & R4 & Ha & El & Hc).
    exists range', (records ++ all). rewrite fold_left_app. split; [exact E2|]. split; [done|]. split; [done|]. split; [by apply Forall_app|].
    split; [cbn; by rewrite Hta, El|]. intros key v. cbn [map]. rewrite column_cons.
    assert (forall v, tableLayer blobs it.2 key = Some v <-> exists raw r, raw ∈ records /\ tr_userKey raw = key /\ storedRecord raw = Some r /\ meaning blobs r = Some v) as Hl.
    { intros v'. unfold tableLayer. rewrite Hf. split.
      - destruct (TableHandle_.lookupRecord key records) as [raw|] eqn:F; [|done]. cbn [mbind option_bind].
        apply TableHandle_.lookup_elem in F as [Hin Hk]. destruct (storedRecord raw) as [r|] eqn:Es; [|done]. cbn [mbind option_bind]. by exists raw, r.
      - intros (raw & r & Hin & Hk & Es & Hm). assert (TableHandle_.lookupRecord key records = Some raw) as ->; [|cbn; by rewrite Es].
        clear - Hs Hin Hk. induction records as [|s records IH]; [by apply elem_of_nil in Hin|]. unfold TableHandle_.lookupRecord in *. simpl.
        apply elem_of_cons in Hin as [->|Hin]; [by rewrite bool_decide_eq_true_2|]. rewrite bool_decide_eq_false_2.
        + apply IH; [by inversion Hs|done].
        + intros Ek. pose proof (TableHandle_.sorted_head _ _ _ Hs Hin) as B. rewrite Ek, Hk, before_irrefl in B. done. }
    split.
    + destruct (tableLayer blobs it.2 key) as [v'|] eqn:Et.
      * intros [->|Hv]%elem_of_cons.
        -- destruct (proj1 (Hl v') eq_refl) as (raw & r & ? & ? & ? & ?). exists raw, r. split; [apply elem_of_app; by left|done].
        -- apply Hc in Hv as (raw & r & ? & ? & ? & ?). exists raw, r. split; [apply elem_of_app; by right|done].
      * intros Hv. apply Hc in Hv as (raw & r & ? & ? & ? & ?). exists raw, r. split; [apply elem_of_app; by right|done].
    + intros (raw & r & [Hin|Hin]%elem_of_app & Hk & Es & Hm).
      * rewrite (proj2 (Hl v)) by (by exists raw, r). left.
      * assert (v ∈ column (map (tableLayer blobs) (map snd handles)) key) as Hv by (apply Hc; by exists raw, r).
        destruct (tableLayer blobs it.2 key); [by right|done].
Qed.

(** The newest of the records of a key are kept. *)
Lemma stored_newest all : forall latest, let m := fold_left store all latest in
  (forall key r, ByteMap.find key m = Some r -> ByteMap.find key latest = Some r \/ exists raw, raw ∈ all /\ tr_userKey raw = key /\ storedRecord raw = Some r) /\
  (forall key r, ByteMap.find key latest = Some r -> exists r', ByteMap.find key m = Some r' /\ pr_sequence r <= pr_sequence r') /\
  (forall raw r, raw ∈ all -> storedRecord raw = Some r -> exists r', ByteMap.find (tr_userKey raw) m = Some r' /\ pr_sequence r <= pr_sequence r').
Proof using Type.
  induction all as [|raw all IH]; intros latest m.
  - split; [by left|]. split; [intros key r F; exists r; split; [exact F|lia]|]. by intros raw r ?%elem_of_nil.
  - specialize (IH (store latest raw)). destruct IH as (I1 & I2 & I3). fold m in I1, I2, I3.
    assert (forall key r, ByteMap.find key latest = Some r -> exists r', ByteMap.find key (store latest raw) = Some r' /\ pr_sequence r <= pr_sequence r') as Hup.
    { intros key r F. unfold store. destruct (storedRecord raw) as [r0|]; [|by exists r; split; [|lia]]. unfold MemTable.storeIfNewer.
      destruct (ByteMap.find (tr_userKey raw) latest) as [old|] eqn:F0.
      - destruct (Z.ltb_spec (pr_sequence old) (pr_sequence r0)); [|by exists r; split; [|lia]]. rewrite ByteMap.find_after_insert.
        case_decide as D; [subst key; exists r0; split; [done|]; assert (old = r) as -> by congruence; lia|by exists r; split; [|lia]].
      - rewrite ByteMap.find_after_insert. case_decide; [subst key; congruence|by exists r; split; [|lia]]. }
    split; [|split].
    + intros key r F. destruct (I1 key r F) as [F'|(raw' & ? & ? & ?)]; [|right; exists raw'; split; [by right|done]].
      unfold store in F'. destruct (storedRecord raw) as [r0|] eqn:Es; [|by left]. unfold MemTable.storeIfNewer in F'.
      assert (ByteMap.find key (ByteMap.insert (tr_userKey raw) r0 latest) = Some r -> ByteMap.find key latest = Some r \/
        exists raw', raw' ∈ raw :: all /\ tr_userKey raw' = key /\ storedRecord raw' = Some r) as Hins.
      { rewrite ByteMap.find_after_insert. case_decide; [intros [= <-]; right; exists raw; split; [left|done]|by left]. }
      destruct (ByteMap.find (tr_userKey raw) latest); [|by apply Hins]. destruct (_ <? _); [by apply Hins|by left].
    + intros key r F. destruct (Hup key r F) as (r1 & F1 & L1). destruct (I2 key r1 F1) as (r2 & F2 & L2). exists r2. split; [done|lia].
    + intros raw' r [->|Hin]%elem_of_cons Es; [|by apply (I3 raw')].
      assert (exists r1, ByteMap.find (tr_userKey raw) (store latest raw) = Some r1 /\ pr_sequence r <= pr_sequence r1) as (r1 & F1 & L1).
      { unfold store. rewrite Es. unfold MemTable.storeIfNewer. destruct (ByteMap.find (tr_userKey raw) latest) as [old|] eqn:F0.
        - destruct (Z.ltb_spec (pr_sequence old) (pr_sequence r)).
          + exists r. rewrite ByteMap.find_after_insert, decide_True by done. split; [done|lia].
          + exists old. split; [done|lia].
        - exists r. rewrite ByteMap.find_after_insert, decide_True by done. split; [done|lia]. }
      destruct (I2 _ _ F1) as (r2 & F2 & L2). exists r2. split; [done|lia].
Qed.

Lemma stored_wf all : forall latest, ByteMap.wf latest -> ByteMap.wf (fold_left store all latest).
Proof using Type.
  induction all as [|raw all IH]; intros latest W; [done|]. cbn [fold_left]. apply IH. unfold store. destruct (storedRecord raw); [|done].
  unfold MemTable.storeIfNewer. destruct (ByteMap.find _ _); [|by apply ByteMap.wf_insert]. destruct (_ <? _); [by apply ByteMap.wf_insert|done].
Qed.

Lemma insert_length {A} key (v : A) m : zlen (ByteMap.insert key v m) <= zlen m + 1.
Proof.
  assert (length (ByteMap.insert key v m) <= length m + 1)%nat; [|lia]. induction m as [|[k w] m IH]; [simpl; lia|]. simpl.
  destruct (before key k); [simpl; lia|]. destruct (before k key); simpl; lia.
Qed.

Lemma stored_length all : forall latest, zlen (fold_left store all latest) <= zlen latest + zlen all.
Proof using Type.
  induction all as [|raw all IH]; intros latest; [change (zlen (@nil TableRecord_)) with 0; simpl; lia|]. cbn [fold_left].
  assert (zlen (raw :: all) = 1 + zlen all) as -> by (change (raw :: all) with ([raw] ++ all); by rewrite zlen_app).
  specialize (IH (store latest raw)). assert (zlen (store latest raw) <= zlen latest + 1); [|lia]. unfold store. destruct (storedRecord raw); [|lia].
  unfold MemTable.storeIfNewer. destruct (ByteMap.find _ _); [destruct (_ <? _)|]; try apply insert_length. lia.
Qed.

(** ** The primary group *)

(** The greatest version that layers have under a key. *)
Definition newest (layers : list Layer) (key : list byte) (o : option Version) : Prop :=
  match o with
  | None => column layers key = []
  | Some v => v ∈ column layers key /\ forall w, w ∈ column layers key -> w.1 <= v.1
  end.

Lemma newest_top layers layers' key o : ordered layers -> layers ≡ₚ layers' -> newest layers' key o -> top layers key = o.
Proof using Type.
  intros Ho Hp Hn. assert (column layers key ≡ₚ column layers' key) as Hc by by apply omap_Permutation. destruct o as [v|]; simpl in Hn.
  - destruct Hn as [Hin Hmax]. rewrite <- Hc in Hin. destruct (top layers key) as [t|] eqn:Ht.
    + pose proof (top_elem _ _ _ Ht) as Ht'. rewrite Hc in Ht'. apply Hmax in Ht'. destruct (top_greatest _ _ _ v Ho Ht Hin) as [?| ->]; [lia|done].
    + apply top_none in Ht. rewrite Ht in Hin. by apply elem_of_nil in Hin.
  - rewrite Hn in Hc. symmetry in Hc. apply Permutation_nil_l in Hc. unfold top. by rewrite <- Hc.
Qed.

(** The handles of a group are there, and show records that can be read. *)
Definition group_ok (db : SwEmbeddedDb) (group : list TableMeta_) : Prop :=
  Forall (fun meta => exists h, ByteMap.find (tm_fileName meta) (tableHandles_ db) = Some h /\ table_ok (get_blobs db) h) group /\
  zlen (concat (omap (fun it => tableAll it.2) (handlesOf db group))) < 2 ^ 31.

Lemma handlesOf_group db group : group_ok db group -> map fst (handlesOf db group) = group /\
  Forall (fun it => table_ok (get_blobs db) it.2) (handlesOf db group).
Proof using Type.
  intros [H _]. unfold handlesOf. induction H as [|meta group (h & Hh & Hok) _ [IH1 IH2]]; [by split|]. simpl. rewrite Hh. simpl.
  split; [by f_equal|by constructor].
Qed.

(** The table of the merged records. *)
Lemma merged_table blobs (latest : ByteMap.t PrimaryRecord_) (p : list byte * PrimaryRecord_ -> bool) h : ByteMap.wf latest ->
  (forall key r, ByteMap.find key latest = Some r -> raw_ok blobs (rawRecord key r) /\ stored_ok r) ->
  holds_records h (map (fun it => rawRecord it.1 it.2) (List.filter p latest)) ->
  table_ok blobs h /\ forall key, tableLayer blobs h key = (r ← ByteMap.find key latest; if p (key, r) then meaning blobs r else None).
Proof using T.
  intros W Hr Hh. set (kept := List.filter p latest) in *. assert (ByteMap.wf kept) as Wk by by apply ByteMap.wf_filter.
  assert (forall key r, tr_userKey (rawRecord key r) = key) as Ek by (intros key r; unfold rawRecord; by destruct (pr_deleted r)).
  assert (forall key r, ByteMap.find key kept = Some r <-> ByteMap.find key latest = Some r /\ p (key, r) = true) as Hk.
  { intros key r. split.
    - intros F%ByteMap.find_elem%list_elem_of_In. apply List.filter_In in F as [F Hp]. split; [|done]. by apply ByteMap.elem_find, list_elem_of_In.
    - intros [F%ByteMap.find_elem Hp]. apply ByteMap.elem_find; [done|]. apply list_elem_of_In, List.filter_In. by apply list_elem_of_In in F. }
  split.
  - exists (map (fun it => rawRecord it.1 it.2) kept). split; [done|]. apply list.Forall_forall. intros raw Hin.
    apply list_elem_of_fmap in Hin as ([key r] & -> & Hin). apply ByteMap.elem_find, Hk in Hin as [Hin _]; [|done]. by apply Hr.
  - intros key. unfold tableLayer. destruct Hh as (_ & _ & _ & Hf & _). rewrite Hf.
    assert (forall m : ByteMap.t PrimaryRecord_, TableHandle_.lookupRecord key (map (fun it => rawRecord it.1 it.2) m) = r ← ByteMap.find key m; Some (rawRecord key r)) as ->.
    { induction m as [|[k r] m IH]; [done|]. unfold TableHandle_.lookupRecord in *. cbn [map List.find fst snd ByteMap.find]. rewrite Ek.
      case_bool_decide as D; case_decide; try congruence. by subst k. }
    destruct (ByteMap.find key latest) as [r|] eqn:F; cbn [mbind option_bind].
    + destruct (p (key, r)) eqn:Ep.
      * rewrite (proj2 (Hk key r)) by done. cbn [mbind option_bind]. destruct (Hr _ _ F) as [_ Hso]. by rewrite read_written.
      * destruct (ByteMap.find key kept) as [r'|] eqn:F'; [|done]. apply Hk in F' as [F' Ep']. congruence.
    + destruct (ByteMap.find key kept) as [r'|] eqn:F'; [|done]. apply Hk in F' as [F' Ep']. congruence.
Qed.

Lemma compactPrimary_ok group db : group_ok db group -> 0 < nextTableId (manifest_ db) < 2 ^ 64 - 1 ->
  let '(result, db') := compactPrimary group db in
  forall added removed, result = Some (added, removed) -> removed = group /\
    (added = [] \/ exists meta h, added = [(meta, h)] /\ table_ok (get_blobs db) h) /\
    forall key, exists o, newest (map (tableLayer (get_blobs db)) (map snd (handlesOf db group))) key o /\
      let new := top (map (tableLayer (get_blobs db)) (map snd added)) key in
      new = o \/ new = None /\ coversAllL1 (primaryAt 1 (tables (manifest_ db))) group = true /\ exists s, o = Some (s, None).
Proof using All.
  intros Hg Hids. destruct (handlesOf_group db group Hg) as [Hfst Hall]. destruct Hg as [_ Hsize]. unfold compactPrimary, compactGroup. cbv zeta.
  set (covers := coversAllL1 _ group). set (handles := handlesOf db group) in *. set (blobs := get_blobs db) in *.
  destruct (merged_records handles blobs Hall [] (0, 0)) as (range & all & Hfold & R1 & R2 & Ha & El & Hc); [done..|].
  match goal with |- context [fold_left ?f handles ?i] => replace (fold_left f handles i) with (Some (fold_left store all ([] : ByteMap.t PrimaryRecord_), range)) by (symmetry; exact Hfold) end.
  set (latest := fold_left store all []). assert (ByteMap.wf latest) as W by apply stored_wf, ByteMap.wf_nil.
  destruct (stored_newest all []) as (S1 & _ & S3). fold latest in S1, S3. rewrite <- El in Hsize.
  assert (zlen latest < 2 ^ 31) as Hlen.
  { pose proof (stored_length all []) as Hl. fold latest in Hl. change (zlen (@nil (list byte * PrimaryRecord_))) with 0 in Hl. lia. }
  assert (forall key r, ByteMap.find key latest = Some r -> exists v, meaning blobs r = Some v /\
    newest (map (tableLayer blobs) (map snd handles)) key (Some v) /\ raw_ok blobs (rawRecord key r) /\ stored_ok r /\ written (rawRecord key r)) as Hfound.
  { intros key r F. destruct (S1 key r F) as [?|(raw & Hin & Hk & Es)]; [done|]. rewrite list.Forall_forall in Ha.
    destruct (Ha raw Hin) as (r' & E1 & E2 & E3 & v & E4). assert (r' = r) as -> by (rewrite E1, read_written in Es by done; congruence).
    assert (tr_userKey (rawRecord key r) = key) as Ek by (unfold rawRecord; by destruct (pr_deleted r)). rewrite Hk in *.
    exists v. split; [done|]. split; [|split; [exists r; rewrite Ek; by eauto|split; [done|exists r; by rewrite Ek]]].
    split; [apply Hc; exists raw, r; by rewrite Hk|]. intros w Hw. apply Hc in Hw as (raw2 & r2 & Hin2 & Hk2 & Es2 & Hm2).
    destruct (S3 raw2 r2 Hin2 Es2) as (r3 & F3 & L3). rewrite Hk2 in F3. assert (r3 = r) as -> by congruence.
    by rewrite (meaning_sequence _ _ _ Hm2), (meaning_sequence _ _ _ E4). }
  assert (forall key, ByteMap.find key latest = None -> newest (map (tableLayer blobs) (map snd handles)) key None) as Hmissing.
  { intros key F. simpl. destruct (column _ key) as [|w l] eqn:Ec; [done|]. assert (w ∈ column (map (tableLayer blobs) (map snd handles)) key) as Hw by (rewrite Ec; left).
    apply Hc in Hw as (raw & r & Hin & Hk & Es & _). destruct (S3 raw r Hin Es) as (r' & F' & _). congruence. }
  set (p := fun it : list byte * PrimaryRecord_ => negb ((length handles =? length group)%nat && covers && pr_deleted it.2)).
  set (rows := map _ (List.filter p latest)).
  assert (Forall written rows) as Hw.
  { apply list.Forall_forall. intros raw Hin. apply list_elem_of_fmap in Hin as ([key r] & -> & Hin%list_elem_of_In).
    apply List.filter_In in Hin as [Hin%list_elem_of_In%(ByteMap.elem_find _ _ _ W) _]. by destruct (Hfound _ _ Hin) as (_ & _ & _ & _ & _ & ?). }
  assert (zlen rows < 2 ^ 31) as Hrows.
  { subst rows. rewrite length_map. pose proof (List.filter_length_le p latest). lia. }
  assert (forall key new, new = (r ← ByteMap.find key latest; if p (key, r) then meaning blobs r else None) -> exists o,
    newest (map (tableLayer blobs) (map snd handles)) key o /\ (new = o \/ new = None /\ covers = true /\ exists s, o = Some (s, None))) as Hnew.
  { intros key new ->. destruct (ByteMap.find key latest) as [r|] eqn:F; cbn [mbind option_bind].
    - destruct (Hfound key r F) as (v & Hm & Hn & _). exists (Some v). split; [done|]. unfold p. cbn [snd].
      destruct ((length handles =? length group)%nat && covers && pr_deleted r) eqn:Ep; cbn [negb]; [|by left].
      apply andb_true_iff in Ep as [[_ Ecov]%andb_true_iff Ed]. right. split; [done|]. split; [done|].
      pose proof (meaning_deleted _ _ _ Hm) as Hd. rewrite Ed in Hd. symmetry in Hd. apply bool_decide_eq_true in Hd. destruct v as [s c].
      simpl in Hd. subst c. by exists s.
    - exists None. split; [by apply Hmissing|by left]. }
  destruct rows as [|row rows'] eqn:Erows.
  - intros added removed [= <- <-]. split; [done|]. split; [by left|]. intros key. apply Hnew. cbn.
    destruct (ByteMap.find key latest) as [r|] eqn:F; [|done]. cbn. destruct (p (key, r)) eqn:Ep; [|done]. exfalso.
    assert (rawRecord key r ∈ rows) as Hin; [|subst rows; rewrite Erows in Hin; by apply elem_of_nil in Hin].
    subst rows. apply list_elem_of_fmap. exists (key, r). split; [done|]. apply list_elem_of_In, List.filter_In. split; [by apply list_elem_of_In, ByteMap.find_elem|done].
  - pose proof (takes_id db ltac:(lia)) as Ht. destruct (nextTableIdThreadSafe_ db) as [id db1]. destruct Ht as (T1 & T2 & T3 & T4).
    match goal with |- context [writeAndOpen ?m _ _] => set (meta := m) end. pose proof (opens_table meta (row :: rows') db1) as Ho.
    destruct (writeAndOpen meta (row :: rows') db1) as [handle db']. destruct Ho as (_ & _ & _ & Ho). destruct Ho as (h & -> & Hh).
    + unfold TableWriter_.meta_ok. subst meta. cbn [tm_kind tm_minSequence tm_maxSequence tm_recordCount tm_indexName]. split; [done|].
      split; [done|]. split; [done|]. split; [unfold is_u64; lia|done].
    + by apply written_records.
    + rewrite <- Erows. apply (keys_sorted_records _ (List.filter p latest)); [by apply ByteMap.wf_filter|]. unfold ByteMap.keys, rows. rewrite map_map.
      apply map_ext. intros it. unfold rawRecord. by destruct (pr_deleted it.2).
    + done.
    + intros added removed [= <- <-]. split; [done|]. rewrite <- Erows in Hh.
      destruct (merged_table blobs latest p h W) as [Hok Hlayer]; [|exact Hh|].
      { intros key r F. destruct (Hfound key r F) as (_ & _ & _ & ? & ? & _). done. }
      split; [right; by exists meta, h|]. intros key. apply Hnew. cbn [map snd]. unfold top. rewrite column_cons. rewrite Hlayer.
      destruct (ByteMap.find key latest) as [r|]; cbn; [|done]. destruct (p (key, r)); [|done]. by destruct (meaning blobs r).
Qed.

(** ** A compaction *)

(** The new primary table has the newest versions of the group, or drops a tombstone. *)
Definition merges (covers : bool) (blobs : BlobFiles) (handles : list table_handle) (added : list (TableMeta_ * table_handle)) : Prop :=
  (added = [] \/ exists meta h, added = [(meta, h)] /\ table_ok blobs h) /\
  forall key, exists o, newest (map (tableLayer blobs) handles) key o /\
    let new := top (map (tableLayer blobs) (map snd added)) key in
    new = o \/ new = None /\ covers = true /\ exists s, o = Some (s, None).

Lemma runCompaction_ok primary indexTables db : group_ok db primary -> 0 < nextTableId (manifest_ db) ->
  nextTableId (manifest_ db) + zlen indexTables < 2 ^ 64 - 2 ->
  let '(result, db') := runCompaction primary indexTables db in
  prepared db db' /\ get_blobs db' = get_blobs db /\ nextTableId (manifest_ db') <= nextTableId (manifest_ db) + 1 + zlen indexTables /\
  forall all removed, result = Some (all, removed) -> exists added indexes more,
    all = added ++ indexes /\ removed = primary ++ more /\ more `sublist_of` concat (map snd indexTables) /\
    new_tables (nextTableId (manifest_ db)) (nextTableId (manifest_ db')) 1 all /\
    Forall (fun it => tm_kind it.1 = TableKindPrimary) added /\ Forall (fun it => tm_kind it.1 = TableKindIndex) indexes /\
    merges (coversAllL1 (primaryAt 1 (tables (manifest_ db))) primary) (get_blobs db) (map snd (handlesOf db primary)) added.
Proof using All.
  intros Hg H1 H2. unfold runCompaction.
  assert (let '(result, db') := (match primary with [] => (Some ([], []), db) | _ => compactPrimary primary db end) in
    prepared db db' /\ get_blobs db' = get_blobs db /\ nextTableId (manifest_ db') <= nextTableId (manifest_ db) + 1 /\
    forall added removed, result = Some (added, removed) -> removed = primary /\
      new_tables (nextTableId (manifest_ db)) (nextTableId (manifest_ db')) 1 added /\
      Forall (fun it => tm_kind it.1 = TableKindPrimary) added /\
      merges (coversAllL1 (primaryAt 1 (tables (manifest_ db))) primary) (get_blobs db) (map snd (handlesOf db primary)) added) as Hp.
  { destruct primary as [|meta primary].
    - split; [reflexivity|]. split; [done|]. split; [lia|]. intros added removed [= <- <-]. split; [done|].
      split; [split; [constructor|apply NoDup_nil_2]|]. split; [constructor|]. split; [by left|]. intros key. exists None. split; [done|by left].
    - set (group := meta :: primary) in *. pose proof (compactPrimary_ok group db Hg ltac:(lia)) as Hc.
      assert (let '(result, db') := compactPrimary group db in
        prepared db db' /\ get_blobs db' = get_blobs db /\ nextTableId (manifest_ db') <= nextTableId (manifest_ db) + 1 /\
        forall added removed, result = Some (added, removed) -> removed = map fst (handlesOf db group) /\
          Forall (fun it => tm_kind it.1 = TableKindPrimary) added /\ new_tables (nextTableId (manifest_ db)) (nextTableId (manifest_ db')) 1 added) as Ht
        by (apply compactGroup_tables; lia).
      destruct (compactPrimary group db) as [result db']. destruct Ht as (T1 & T2 & T3 & T4). split; [done|]. split; [done|]. split; [done|].
      intros added removed Hr. destruct (T4 _ _ Hr) as (_ & T5 & T6). destruct (Hc _ _ Hr) as (-> & C1 & C2). done. }
  destruct (match primary with [] => _ | _ => _ end) as [[[added removed]|] db1]; destruct Hp as (P1 & P2 & P3 & P4);
    [|split; [done|split; [done|split; [lia|done]]]].
  destruct (P4 _ _ eq_refl) as (-> & P5 & P6 & P7). pose proof (pp_ids _ _ P1).
  pose proof (compactIndexes_tables indexTables added primary db1 ltac:(lia) ltac:(lia)) as Hi.
  destruct (compactIndexes indexTables added primary db1) as [result db']. destruct Hi as (I1 & I2 & I3 & I4). pose proof (pp_ids _ _ I1).
  split; [by etransitivity|]. split; [congruence|]. split; [lia|]. intros all removed Hr.
  destruct (I4 _ _ Hr) as (indexes & more & -> & -> & K1 & K2 & K3). exists added, indexes, more.
  split; [done|]. split; [done|]. split; [done|]. split; [by apply (new_tables_app _ (nextTableId (manifest_ db1)))|]. done.
Qed.

End Compact.

End DbCompact.
