(* ===== verification/DbCaches.v ===== *)
(** The tables of the persistent database in their order: what the caches of handles
    hold after tables are added and removed. *)
From Stdlib Require Import ZArith Lia Strings.Byte Sorting.
From stdpp Require Import base list strings numbers option sorting.
From S2P Require Import Prelude SwString ByteMap NumberText Crypto DbCodec DbWal DbContents DbTable DbMemTable DbSortedTables DbReadModel DbStore DbVersions DbTiers DbFlush DbCompact.

Import SwString.
Import DbCodec.
Import DbContents.
Import DbVersions.
Import DbTiers.
Import DbFlush.
Import DbCompact.

Module DbCaches.

(** ** The order of tables *)

#[export] Instance newestFirst_trans : Transitive newestFirst_le.
Proof.
  intros a b c. unfold newestFirst_le, compareTableMetaNewestFirst_.
  destruct (Z.eqb_spec (tm_level b) (tm_level a)), (Z.eqb_spec (tm_level c) (tm_level b)), (Z.eqb_spec (tm_level c) (tm_level a));
    cbn [negb]; rewrite ?Z.ltb_ge; lia.
Qed.

#[export] Instance newestFirst_total : Total newestFirst_le.
Proof.
  intros a b. unfold newestFirst_le, compareTableMetaNewestFirst_.
  destruct (Z.eqb_spec (tm_level b) (tm_level a)), (Z.eqb_spec (tm_level a) (tm_level b)); cbn [negb]; rewrite !Z.ltb_ge; lia.
Qed.

Lemma newestFirst_ids a b : newestFirst_le a b -> newestFirst_le b a -> tm_fileId a = tm_fileId b.
Proof.
  unfold newestFirst_le, compareTableMetaNewestFirst_.
  destruct (Z.eqb_spec (tm_level b) (tm_level a)), (Z.eqb_spec (tm_level a) (tm_level b)); cbn [negb]; rewrite ?Z.ltb_ge; lia.
Qed.

Lemma newestFirst_level a b : tm_level a < tm_level b -> newestFirst_le a b.
Proof. unfold newestFirst_le, compareTableMetaNewestFirst_. intros H. destruct (Z.eqb_spec (tm_level b) (tm_level a)); [lia|]. apply Z.ltb_ge. lia. Qed.

Lemma newestFirst_id a b : tm_level a = tm_level b -> tm_fileId b <= tm_fileId a -> newestFirst_le a b.
Proof. unfold newestFirst_le, compareTableMetaNewestFirst_. intros -> H. rewrite Z.eqb_refl. apply Z.ltb_ge. lia. Qed.

Lemma newestFirst_levels a b : newestFirst_le a b -> tm_level a <= tm_level b.
Proof. unfold newestFirst_le, compareTableMetaNewestFirst_. destruct (Z.eqb_spec (tm_level b) (tm_level a)); [lia|]. cbn [negb]. rewrite Z.ltb_ge. lia. Qed.

Lemma NoDup_ids_inj (metas : list TableMeta_) a b : NoDup (map tm_fileId metas) -> a ∈ metas -> b ∈ metas -> tm_fileId a = tm_fileId b -> a = b.
Proof.
  induction metas as [|m metas IH]; [by intros _ ?%elem_of_nil|]. cbn [map]. intros [Hm Hn]%NoDup_cons Ha Hb He.
  apply elem_of_cons in Ha as [->|Ha], Hb as [->|Hb]; [done| | |by apply IH].
  - exfalso. apply Hm. rewrite He. apply list_elem_of_fmap. by exists b.
  - exfalso. apply Hm. rewrite <- He. apply list_elem_of_fmap. by exists a.
Qed.

Lemma filter_merge_sorted (p : TableMeta_ -> bool) metas : StronglySorted newestFirst_le (List.filter p (merge_sort newestFirst_le metas)).
Proof.
  pose proof (StronglySorted_merge_sort newestFirst_le metas) as H. induction H as [|a l H IH Hall]; [constructor|]. simpl.
  destruct (p a); [|done]. constructor; [done|]. apply list.Forall_forall. intros b [Hb _]%list_elem_of_In%List.filter_In.
  rewrite list.Forall_forall in Hall. by apply Hall, list_elem_of_In.
Qed.

Lemma filter_permutation {A} (p : A -> bool) l l' : l ≡ₚ l' -> List.filter p l ≡ₚ List.filter p l'.
Proof.
  induction 1 as [|x l l' _ IH|x y l|l l' l'' _ IH1 _ IH2]; simpl; [done| | |by etransitivity].
  - destruct (p x); [by constructor|done].
  - destruct (p x), (p y); try done. apply Permutation_swap.
Qed.

Definition isPrimary (meta : TableMeta_) : bool := tm_kind meta =? TableKindPrimary.

Section Caches.

Context `{E : EVP} `{C : Miniz} `{T : SortedTables}.

(** The primary tables, newest first. *)
Definition primaryMetas (db : SwEmbeddedDb) : list TableMeta_ := List.filter isPrimary (merge_sort newestFirst_le (tables (manifest_ db))).

Lemma primaryMetas_permutation db : primaryMetas db ≡ₚ List.filter isPrimary (tables (manifest_ db)).
Proof. apply filter_permutation, merge_sort_Permutation. Qed.

Lemma primaryMetas_elem db meta : meta ∈ primaryMetas db <-> meta ∈ tables (manifest_ db) /\ tm_kind meta = TableKindPrimary.
Proof.
  rewrite primaryMetas_permutation, list_elem_of_In, List.filter_In, <- list_elem_of_In. unfold isPrimary. by rewrite Z.eqb_eq.
Qed.

(** Any list of the primary tables in their order is theirs. *)
Lemma primaryMetas_unique db metas : NoDup (map tm_fileId (tables (manifest_ db))) -> StronglySorted newestFirst_le metas ->
  metas ≡ₚ List.filter isPrimary (tables (manifest_ db)) -> primaryMetas db = metas.
Proof.
  intros Hn Hs Hp. apply (StronglySorted_unique_strong newestFirst_le); [|apply filter_merge_sorted|done|by rewrite Hp, primaryMetas_permutation].
  intros a b Ha Hb Hab Hba. rewrite Hp, <- primaryMetas_permutation in Hb. apply primaryMetas_elem in Ha as [Ha _], Hb as [Hb _].
  apply (NoDup_ids_inj _ _ _ Hn Ha Hb). by apply newestFirst_ids.
Qed.

(** ** The caches *)

Definition cachedHandles (db : SwEmbeddedDb) : list table_handle :=
  omap (fun meta => ByteMap.find (tm_fileName meta) (tableHandles_ db)) (primaryMetas db).

(** All but the caches is the same, and what was known to be there still is. *)
Record rebuilt (db db' : SwEmbeddedDb) : Prop := {
  rb_mutable : mutable_ db' = mutable_ db;
  rb_immutables : immutables_ db' = immutables_ db;
  rb_files : files db' = files db;
  rb_flags : (closing_ db', flushScheduled_ db', compactionScheduled_ db', nextSequence_ db', backgroundPool_ db', options_ db') =
             (closing_ db, flushScheduled_ db, compactionScheduled_ db, nextSequence_ db, backgroundPool_ db, options_ db);
  rb_known : forall key, before (maxKnownPrimaryKey_ db) key = false -> before (maxKnownPrimaryKey_ db') key = false
}.

#[export] Instance rebuilt_preorder : PreOrder rebuilt.
Proof.
  split; [by intros db; split|]. intros a b c [A1 A2 A3 A4 A5] [B1 B2 B3 B4 B5]. split; [congruence|congruence|congruence|congruence|auto].
Qed.

Lemma cacheTable_fold handles metas : forall primary index known,
  let '(primary', index', known') := fold_left (cacheTable handles) metas (primary, index, known) in
  primary' = primary ++ omap (fun meta => ByteMap.find (tm_fileName meta) handles) (List.filter isPrimary metas) /\
  forall key, before known key = false -> before known' key = false.
Proof.
  induction metas as [|meta metas IH]; intros primary index known; cbn [fold_left]; [by rewrite app_nil_r|]. unfold cacheTable at 2. cbn [List.filter].
  unfold isPrimary at 1. destruct (ByteMap.find (tm_fileName meta) handles) as [h|] eqn:F.
  - destruct (tm_kind meta =? TableKindPrimary) eqn:Ek.
    + match goal with |- context [fold_left _ metas (?a, ?b, ?c)] => specialize (IH a b c); destruct (fold_left _ metas (a, b, c)) as [[primary' index'] known'] end.
      destruct IH as [-> IH]. split; [cbn; rewrite F; by rewrite <- app_assoc|]. intros key Hk. apply IH.
      destruct (negb (isEmpty (tableMaxKey h)) && _) eqn:B; [|done]. apply andb_true_iff in B as [B1 B2]. apply orb_true_iff in B2 as [B2|B2].
      * assert (known = []) as Ek0 by (by destruct known). destruct key as [|c key]; [by destruct (tableMaxKey h)|]. rewrite Ek0 in Hk. done.
      * destruct (before (tableMaxKey h) key) eqn:B3; [|done]. by rewrite (before_trans _ _ _ B2 B3) in Hk.
    + destruct (tm_kind meta =? TableKindIndex); apply IH.
  - specialize (IH primary index known). destruct (fold_left _ metas _) as [[primary' index'] known']. destruct IH as [-> IH]. split; [|done].
    destruct (tm_kind meta =? TableKindPrimary); [cbn; by rewrite F|done].
Qed.

Lemma rebuild_caches db : let db' := rebuildTableCachesLocked_ db in
  rebuilt db db' /\ manifest_ db' = manifest_ db /\ tableHandles_ db' = tableHandles_ db /\ primaryTableHandlesNewestFirst_ db' = cachedHandles db'.
Proof.
  unfold rebuildTableCachesLocked_. pose proof (cacheTable_fold (tableHandles_ db) (merge_sort newestFirst_le (tables (manifest_ db))) [] [] (maxKnownPrimaryKey_ db)) as H.
  destruct (fold_left _ _ _) as [[primary index] known]. destruct H as [-> H]. cbv zeta. split; [by split|]. split; [done|]. by split.
Qed.

(** ** Tables with their names and handles *)

Record tables_ok (db : SwEmbeddedDb) : Prop := {
  tb_minted : Forall (fun meta => minted 1 (nextTableId (manifest_ db)) (tm_level meta) meta /\ (tm_level meta = 0 \/ tm_level meta = 1)) (tables (manifest_ db));
  tb_ids : NoDup (map tm_fileId (tables (manifest_ db)));
  tb_wf : ByteMap.wf (tableHandles_ db);
  tb_handles : Forall (fun meta => is_Some (ByteMap.find (tm_fileName meta) (tableHandles_ db))) (tables (manifest_ db));
  tb_cache : primaryTableHandlesNewestFirst_ db = cachedHandles db;
  tb_next : 0 < nextTableId (manifest_ db) < 2 ^ 63
}.

(** Names tell tables apart. *)
Lemma minted_inj low high low' high' level level' a b : 0 <= low -> high <= 2 ^ 64 -> 0 <= low' -> high' <= 2 ^ 64 ->
  level = 0 \/ level = 1 -> level' = 0 \/ level' = 1 -> minted low high level a -> minted low' high' level' b ->
  tm_fileName a = tm_fileName b -> tm_fileId a = tm_fileId b.
Proof using Type.
  intros H1 H2 H3 H4 La Lb [A1 A2 A3] [B1 B2 B3]. rewrite A3, B3. intros He.
  destruct La as [-> | ->], Lb as [-> | ->]; try (by apply tableFileName_level in He); try (by symmetry in He; apply tableFileName_level in He);
    (apply tableFileName_inj in He; [done|unfold is_u64; lia..]).
Qed.

(** The versions of a table of the manifest. *)
Definition metaLayer (db : SwEmbeddedDb) (meta : TableMeta_) : Layer := fun key =>
  h ← ByteMap.find (tm_fileName meta) (tableHandles_ db); tableLayer (get_blobs db) h key.

Lemma column_metas db metas key : Forall (fun meta => is_Some (ByteMap.find (tm_fileName meta) (tableHandles_ db))) metas ->
  column (map (tableLayer (get_blobs db)) (omap (fun meta => ByteMap.find (tm_fileName meta) (tableHandles_ db)) metas)) key =
  column (map (metaLayer db) metas) key.
Proof.
  induction 1 as [|meta metas [h Hh] _ IH]; [done|]. unfold column in *. simpl. unfold metaLayer at 1. rewrite Hh. simpl.
  destruct (tableLayer (get_blobs db) h key); [f_equal|]; exact IH.
Qed.

Lemma tables_primary db : tables_ok db -> Forall (fun meta => is_Some (ByteMap.find (tm_fileName meta) (tableHandles_ db))) (primaryMetas db).
Proof.
  intros H. apply list.Forall_forall. intros meta [Hm _]%primaryMetas_elem. pose proof (tb_handles _ H) as Hh. rewrite list.Forall_forall in Hh. auto.
Qed.

(** The layers of the tables are those of the manifest's primary tables in order. *)
Lemma tableLayers_metas db key : tables_ok db -> column (tableLayers db) key = column (map (metaLayer db) (primaryMetas db)) key.
Proof. intros H. unfold tableLayers. rewrite (tb_cache _ H). apply column_metas, tables_primary, H. Qed.

Lemma top_metas db key : tables_ok db -> top (tableLayers db) key = top (map (metaLayer db) (primaryMetas db)) key.
Proof. intros H. unfold top. by rewrite tableLayers_metas. Qed.

(** *** Tables are added *)

Lemma install_fields newTables : forall db, let db' := fold_left (fun db it =>
    set_tableHandles_ (ByteMap.insert (tm_fileName it.1) it.2 (tableHandles_ db)) (set_manifest_ (addTables [it.1] (manifest_ db)) db)) newTables db in
  rebuilt db db' /\ maxKnownPrimaryKey_ db' = maxKnownPrimaryKey_ db /\
  manifest_ db' = addTables (map fst newTables) (manifest_ db) /\
  tableHandles_ db' = fold_left (fun m it => ByteMap.insert (tm_fileName it.1) it.2 m) newTables (tableHandles_ db).
Proof.
  induction newTables as [|it newTables IH]; intros db; cbn [fold_left map].
  - split; [reflexivity|]. split; [done|]. split; [|done]. unfold addTables. rewrite app_nil_r. by destruct (manifest_ db).
  - match goal with |- context [fold_left _ newTables ?d] => specialize (IH d) end. destruct IH as (I1 & I2 & I3 & I4).
    split; [etransitivity; [|exact I1]; by split|]. split; [exact I2|]. split; [|exact I4]. rewrite I3. unfold addTables. cbn. by rewrite <- app_assoc.
Qed.

Lemma find_installed (newTables : list (TableMeta_ * table_handle)) name : forall m, (forall it, it ∈ newTables -> tm_fileName it.1 <> name) ->
  ByteMap.find name (fold_left (fun m it => ByteMap.insert (tm_fileName it.1) it.2 m) newTables m) = ByteMap.find name m.
Proof using Type.
  induction newTables as [|it newTables IH]; intros m H; [done|]. cbn [fold_left]. rewrite IH by (intros it' Hi; apply H; by right).
  rewrite ByteMap.find_after_insert, decide_False; [done|]. apply H. left.
Qed.

Lemma wf_installed (newTables : list (TableMeta_ * table_handle)) : forall m, ByteMap.wf m ->
  ByteMap.wf (fold_left (fun m it => ByteMap.insert (tm_fileName it.1) it.2 m) newTables m).
Proof using Type. induction newTables as [|it newTables IH]; intros m W; [done|]. by apply IH, ByteMap.wf_insert. Qed.

Lemma find_new (newTables : list (TableMeta_ * table_handle)) it : NoDup (map (fun it => tm_fileName it.1) newTables) -> it ∈ newTables ->
  forall m, ByteMap.find (tm_fileName it.1) (fold_left (fun m it => ByteMap.insert (tm_fileName it.1) it.2 m) newTables m) = Some it.2.
Proof using Type.
  induction newTables as [|it' newTables IH]; [by intros _ ?%elem_of_nil|]. cbn [map fold_left]. intros [Hn Hnd]%NoDup_cons Hin m.
  apply elem_of_cons in Hin as [->|Hin]; [|by apply IH]. rewrite find_installed.
  - by rewrite ByteMap.find_after_insert, decide_True.
  - intros it Hi He. apply Hn. apply list_elem_of_fmap. by exists it.
Qed.

(** New tables at one level, with numbers of their own. *)
Record installable (db : SwEmbeddedDb) (level : Z) (newTables : list (TableMeta_ * table_handle)) : Prop := {
  is_level : level = 0 \/ level = 1;
  is_new : new_tables 1 (nextTableId (manifest_ db)) level newTables;
  is_apart : forall it meta, it ∈ newTables -> meta ∈ tables (manifest_ db) -> tm_fileId it.1 <> tm_fileId meta
}.

Lemma installed_names db level newTables : tables_ok db -> installable db level newTables ->
  NoDup (map (fun it => tm_fileName it.1) newTables) /\
  forall it meta, it ∈ newTables -> meta ∈ tables (manifest_ db) -> tm_fileName it.1 <> tm_fileName meta.
Proof.
  intros Ht [Hl [Hm Hn] Ha]. pose proof (tb_next _ Ht) as Hnext. pose proof (tb_minted _ Ht) as Hmi. rewrite list.Forall_forall in Hm. rewrite list.Forall_forall in Hmi. split.
  - clear Ha. induction newTables as [|it newTables IH]; [apply NoDup_nil_2|]. cbn [map] in *. apply NoDup_cons in Hn as [Hn1 Hn2]. apply NoDup_cons. split.
    + intros Hin. apply list_elem_of_fmap in Hin as (it' & He & Hin). apply Hn1, list_elem_of_fmap. exists it'. split; [|done].
      apply (minted_inj 1 (nextTableId (manifest_ db)) 1 (nextTableId (manifest_ db)) level level); try lia; try done; [apply Hm; left|apply Hm; by right].
    + apply IH; [|done]. intros it' Hi. apply Hm. by right.
  - intros it meta Hi Hme He. apply (Ha it meta Hi Hme). destruct (Hmi meta Hme) as [Hmm Hml].
    apply (minted_inj 1 (nextTableId (manifest_ db)) 1 (nextTableId (manifest_ db)) level (tm_level meta)); try lia; try done. by apply Hm.
Qed.

Lemma installTables_ok db level newTables : tables_ok db -> installable db level newTables ->
  let db' := installTables newTables db in
  rebuilt db db' /\ tables_ok db' /\ manifest_ db' = addTables (map fst newTables) (manifest_ db) /\
  (forall meta, meta ∈ tables (manifest_ db) -> ByteMap.find (tm_fileName meta) (tableHandles_ db') = ByteMap.find (tm_fileName meta) (tableHandles_ db)) /\
  (forall it, it ∈ newTables -> ByteMap.find (tm_fileName it.1) (tableHandles_ db') = Some it.2).
Proof.
  intros Ht Hi. destruct (installed_names _ _ _ Ht Hi) as [N1 N2]. unfold installTables.
  destruct (install_fields newTables db) as (F1 & F2 & F3 & F4). set (db1 := fold_left _ newTables db) in *.
  destruct (rebuild_caches db1) as (R1 & R2 & R3 & R4). set (db' := rebuildTableCachesLocked_ db1) in *. cbv zeta.
  assert (forall meta, meta ∈ tables (manifest_ db) -> ByteMap.find (tm_fileName meta) (tableHandles_ db') = ByteMap.find (tm_fileName meta) (tableHandles_ db)) as Hold.
  { intros meta Hm. rewrite R3, F4. apply find_installed. intros it Hit. by apply N2. }
  assert (forall it, it ∈ newTables -> ByteMap.find (tm_fileName it.1) (tableHandles_ db') = Some it.2) as Hnew.
  { intros it Hit. rewrite R3, F4. by apply find_new. }
  split; [by etransitivity|]. split; [|split; [congruence|done]]. destruct Ht as [T1 T2 T3 T4 T5 T6]. destruct Hi as [I1 [I2 I3] I4].
  assert (manifest_ db' = addTables (map fst newTables) (manifest_ db)) as Em by congruence.
  constructor; rewrite ?Em; cbn [addTables tables nextTableId].
  - apply Forall_app. split; [done|]. apply list.Forall_forall. intros meta Hin. apply list_elem_of_fmap in Hin as (it & -> & Hin).
    rewrite list.Forall_forall in I2. specialize (I2 it Hin). pose proof I2 as [_ Hl _]. rewrite Hl. done.
  - rewrite map_app, map_map. apply NoDup_app. split; [done|]. split; [|done]. intros id Hid1 Hid2.
    apply list_elem_of_fmap in Hid1 as (meta & -> & Hm), Hid2 as (it & He & Hit). by apply (I4 it meta).
  - rewrite R3, F4. by apply wf_installed.
  - apply Forall_app. split.
    + apply list.Forall_forall. intros meta Hm. rewrite Hold by done. rewrite list.Forall_forall in T4. auto.
    + apply list.Forall_forall. intros meta Hin. apply list_elem_of_fmap in Hin as (it & -> & Hit). rewrite Hnew by done. done.
  - done.
  - done.
Qed.

(** *** Tables are removed *)

Lemma tables_names db : tables_ok db -> NoDup (map tm_fileName (tables (manifest_ db))).
Proof.
  intros [T1 T2 _ _ _ T6]. induction (tables (manifest_ db)) as [|meta metas IH]; [apply NoDup_nil_2|]. cbn [map] in *.
  apply NoDup_cons in T2 as [T2 T3]. apply Forall_cons in T1 as [[T1 L1] T4]. apply NoDup_cons. split; [|by apply IH].
  intros Hin. apply list_elem_of_fmap in Hin as (meta' & He & Hin). apply T2, list_elem_of_fmap. exists meta'. split; [|done].
  rewrite list.Forall_forall in T4. destruct (T4 meta' Hin) as [T5 L5].
  apply (minted_inj 1 (nextTableId (manifest_ db)) 1 (nextTableId (manifest_ db)) (tm_level meta) (tm_level meta')); try lia; done.
Qed.

Definition notNamed (names : list (list byte)) (meta : TableMeta_) : bool := negb (bool_decide (tm_fileName meta ∈ names)).

Lemma notNamed_true names meta : notNamed names meta = true <-> tm_fileName meta ∉ names.
Proof using Type. unfold notNamed. rewrite negb_true_iff, bool_decide_eq_false. done. Qed.

Lemma removeTable_filter name metas : NoDup (map tm_fileName metas) -> removeTable name metas = List.filter (notNamed [name]) metas.
Proof using Type.
  induction metas as [|meta metas IH]; [done|]. cbn [map removeTable List.filter]. intros [Hn Hnd]%NoDup_cons. unfold notNamed at 1. case_bool_decide as D.
  - rewrite bool_decide_eq_true_2 by (rewrite D; left). cbn [negb]. clear IH. subst name. symmetry.
    induction metas as [|m metas IH]; [done|]. cbn [map List.filter] in *. rewrite not_elem_of_cons in Hn. destruct Hn as [Hn1 Hn2].
    apply NoDup_cons in Hnd as [_ Hnd]. rewrite (proj2 (notNamed_true _ _)); [by rewrite IH|]. rewrite list_elem_of_singleton. congruence.
  - rewrite bool_decide_eq_false_2 by (rewrite list_elem_of_singleton; congruence). cbn [negb]. by rewrite IH.
Qed.

Lemma filter_sublist {A} (p : A -> bool) l : List.filter p l `sublist_of` l.
Proof using Type. induction l as [|x l IH]; simpl; [constructor|]. destruct (p x); by constructor. Qed.

Lemma NoDup_filter_map {A B} (f : A -> B) p l : NoDup (map f l) -> NoDup (map f (List.filter p l)).
Proof using Type. intros H. eapply sublist_NoDup; [exact H|]. apply (fmap_sublist f), filter_sublist. Qed.

Lemma remove_fields toRemove : forall db, NoDup (map tm_fileName (tables (manifest_ db))) -> ByteMap.wf (tableHandles_ db) ->
  let db' := fold_left (fun db meta =>
      set_tableHandles_ (ByteMap.remove (tm_fileName meta) (tableHandles_ db))
        (set_manifest_ (set_tables (removeTable (tm_fileName meta) (tables (manifest_ db))) (manifest_ db)) db)) toRemove db in
  rebuilt db db' /\ manifest_ db' = set_tables (List.filter (notNamed (map tm_fileName toRemove)) (tables (manifest_ db))) (manifest_ db) /\
  ByteMap.wf (tableHandles_ db') /\
  forall name, name ∉ map tm_fileName toRemove -> ByteMap.find name (tableHandles_ db') = ByteMap.find name (tableHandles_ db).
Proof.
  induction toRemove as [|meta toRemove IH]; intros db Hn W; cbn [fold_left map].
  - split; [reflexivity|]. split; [|done].
    assert (List.filter (notNamed []) (tables (manifest_ db)) = tables (manifest_ db)) as ->; [|by destruct (manifest_ db)].
    induction (tables (manifest_ db)) as [|m l IHl]; [done|]. cbn [List.filter map] in *. apply NoDup_cons in Hn as [_ Hn].
    rewrite (proj2 (notNamed_true [] m)) by apply not_elem_of_nil. by rewrite IHl.
  - set (db1 := set_tableHandles_ _ _). specialize (IH db1).
    assert (tables (manifest_ db1) = List.filter (notNamed [tm_fileName meta]) (tables (manifest_ db))) as E1 by (cbn; by apply removeTable_filter).
    destruct IH as (I1 & I2 & I3 & I4).
    { rewrite E1. by apply NoDup_filter_map. }
    { by apply ByteMap.wf_remove. }
    split; [etransitivity; [|exact I1]; by split|]. split; [|split; [done|]].
    + rewrite I2, E1, DbContents.filter_both. unfold set_tables. cbn. f_equal. apply List.filter_ext. intros m. unfold notNamed.
      repeat case_bool_decide; try done; exfalso; pose proof (not_elem_of_nil (tm_fileName m)); rewrite ?elem_of_cons in *; tauto.
    + intros name Hname. rewrite not_elem_of_cons in Hname. destruct Hname as [N1 N2]. rewrite I4 by done. cbn.
      rewrite ByteMap.find_after_remove by done. by rewrite decide_False.
Qed.

Lemma removeTablesLocked_ok toRemove db : tables_ok db -> let db' := removeTablesLocked_ toRemove db in
  rebuilt db db' /\ tables_ok db' /\
  manifest_ db' = set_tables (List.filter (notNamed (map tm_fileName toRemove)) (tables (manifest_ db))) (manifest_ db) /\
  forall meta, meta ∈ tables (manifest_ db') -> ByteMap.find (tm_fileName meta) (tableHandles_ db') = ByteMap.find (tm_fileName meta) (tableHandles_ db).
Proof.
  intros Ht. pose proof (tables_names _ Ht) as Hn. unfold removeTablesLocked_.
  destruct (remove_fields toRemove db Hn (tb_wf _ Ht)) as (F1 & F2 & F3 & F4). set (db1 := fold_left _ toRemove db) in *.
  destruct (rebuild_caches (invalidateWriterReadCacheLocked_ db1)) as (R1 & R2 & R3 & R4). set (db' := rebuildTableCachesLocked_ _) in *. cbv zeta.
  assert (rebuilt db1 (invalidateWriterReadCacheLocked_ db1)) as R0 by by split.
  change (manifest_ (invalidateWriterReadCacheLocked_ db1)) with (manifest_ db1) in R2.
  change (tableHandles_ (invalidateWriterReadCacheLocked_ db1)) with (tableHandles_ db1) in R3.
  assert (forall meta, meta ∈ tables (manifest_ db') -> meta ∈ tables (manifest_ db) /\ tm_fileName meta ∉ map tm_fileName toRemove) as Hin.
  { intros meta. rewrite R2, F2. cbn [set_tables tables]. intros [H1 H2]%list_elem_of_In%List.filter_In. by rewrite list_elem_of_In, <- notNamed_true. }
  assert (forall meta, meta ∈ tables (manifest_ db') -> ByteMap.find (tm_fileName meta) (tableHandles_ db') = ByteMap.find (tm_fileName meta) (tableHandles_ db)) as Hfind.
  { intros meta Hm. rewrite R3. apply F4. by apply Hin. }
  split; [etransitivity; [exact F1|]; by etransitivity|]. split; [|split; [congruence|done]]. destruct Ht as [T1 T2 T3 T4 T5 T6].
  assert (manifest_ db' = set_tables (List.filter (notNamed (map tm_fileName toRemove)) (tables (manifest_ db))) (manifest_ db)) as Em by congruence.
  rewrite list.Forall_forall in T1, T4. constructor.
  - apply list.Forall_forall. intros meta Hm. rewrite Em. cbn [set_tables nextTableId]. by apply T1, Hin.
  - rewrite Em. by apply NoDup_filter_map.
  - by rewrite R3.
  - apply list.Forall_forall. intros meta Hm. rewrite Hfind by done. by apply T4, Hin.
  - done.
  - by rewrite Em.
Qed.

(** ** The primary tables after a change *)

Lemma sorted_newest_app a b c : StronglySorted newestFirst_le (a ++ c) -> (forall x y, x ∈ a -> y ∈ b -> newestFirst_le x y) ->
  (forall x y, x ∈ b -> y ∈ c -> newestFirst_le x y) -> StronglySorted newestFirst_le b -> StronglySorted newestFirst_le (a ++ b ++ c).
Proof using Type.
  intros (H1 & H2 & H3)%column_sorted_app Hab Hbc Hb. apply column_sorted_app. split; [done|]. split; [apply column_sorted_app; by split|].
  intros x y Hx [Hy|Hy]%elem_of_app; auto.
Qed.

(** New tables of one level that are newer than all of it. *)
Lemma primaryMetas_install db level added indexes a c :
  NoDup (map tm_fileId (tables (manifest_ db) ++ map fst (added ++ indexes))) ->
  Forall (fun it => tm_kind it.1 = TableKindPrimary) added -> Forall (fun it : TableMeta_ * table_handle => tm_kind it.1 = TableKindIndex) indexes ->
  (added = [] \/ exists it, added = [it]) -> primaryMetas db = a ++ c ->
  (forall it x, it ∈ added -> x ∈ a -> tm_level x < tm_level it.1) ->
  (forall it x, it ∈ added -> x ∈ c -> tm_level it.1 = level /\ (tm_level x = level /\ tm_fileId x < tm_fileId it.1 \/ level < tm_level x)) ->
  forall db', manifest_ db' = addTables (map fst (added ++ indexes)) (manifest_ db) -> primaryMetas db' = a ++ map fst added ++ c.
Proof.
  intros Hn Ha Hi Hone Hp Hl1 Hl2 db' Em. apply primaryMetas_unique.
  - by rewrite Em.
  - assert (StronglySorted newestFirst_le (a ++ c)) as Hs by (rewrite <- Hp; apply filter_merge_sorted). apply sorted_newest_app; [done| | |].
    + intros x y Hx Hy. apply list_elem_of_fmap in Hy as (it & -> & Hit). apply newestFirst_level. by apply Hl1.
    + intros x y Hx Hy. apply list_elem_of_fmap in Hx as (it & -> & Hit). destruct (Hl2 it y Hit Hy) as [E1 [[E2 E3]|E3]].
      * apply newestFirst_id; [congruence|lia].
      * apply newestFirst_level. lia.
    + destruct Hone as [->|[it ->]]; [constructor|]. constructor; constructor.
  - rewrite Em. cbn [addTables tables]. rewrite List.filter_app, <- primaryMetas_permutation, Hp, map_app, List.filter_app.
    assert (List.filter isPrimary (map fst added) = map fst added) as ->.
    { clear - Ha. induction Ha as [|it added Hk _ IH]; [done|]. cbn [map List.filter]. unfold isPrimary at 1. rewrite Hk. cbn. by rewrite IH. }
    assert (List.filter isPrimary (map fst indexes) = []) as ->.
    { clear - Hi. induction Hi as [|it indexes Hk _ IH]; [done|]. cbn [map List.filter]. unfold isPrimary at 1. rewrite Hk. cbn. by rewrite IH. }
    rewrite app_nil_r, <- app_assoc. apply Permutation_app_head, Permutation_app_comm.
Qed.

(** Tables that are gone. *)
Lemma primaryMetas_remove db a b c toRemove more : tables_ok db -> primaryMetas db = a ++ b ++ c -> b ≡ₚ toRemove ->
  Forall (fun meta => meta ∈ tables (manifest_ db) /\ tm_kind meta <> TableKindPrimary) more ->
  forall db', manifest_ db' = set_tables (List.filter (notNamed (map tm_fileName (toRemove ++ more))) (tables (manifest_ db))) (manifest_ db) ->
  primaryMetas db' = a ++ c.
Proof.
  intros Ht Hp Hb Hmore db' Em. pose proof (tables_names _ Ht) as Hnames. apply primaryMetas_unique.
  - rewrite Em. apply NoDup_filter_map, Ht.
  - pose proof (filter_merge_sorted isPrimary (tables (manifest_ db))) as Hs. fold (primaryMetas db) in Hs. rewrite Hp in Hs.
    apply column_sorted_app in Hs as (H1 & H2 & H3). apply column_sorted_app in H2 as (H2 & H4 & H5). apply column_sorted_app. split; [done|]. split; [done|].
    intros x y Hx Hy. apply H3; [done|]. apply elem_of_app. by right.
  - rewrite Em. cbn [set_tables tables].
    assert (forall p q (l : list TableMeta_), List.filter p (List.filter q l) = List.filter q (List.filter p l)) as Hcomm.
    { intros p q l. rewrite !DbContents.filter_both. apply List.filter_ext. intros x. apply andb_comm. }
    rewrite Hcomm, <- (filter_permutation _ _ _ (primaryMetas_permutation db)), Hp, !List.filter_app.
    set (names := map tm_fileName (toRemove ++ more)).
    assert (NoDup (map tm_fileName (a ++ b ++ c))) as Hnd.
    { rewrite <- Hp. assert (NoDup (map tm_fileName (List.filter isPrimary (tables (manifest_ db))))) as Hf by by apply NoDup_filter_map.
      revert Hf. apply NoDup_Permutation_proper. apply fmap_Permutation, primaryMetas_permutation. }
    assert (forall x, x ∈ primaryMetas db -> tm_fileName x ∈ names -> x ∈ b) as Hgone.
    { intros x Hx Hin. subst names. rewrite map_app, elem_of_app in Hin. apply primaryMetas_elem in Hx as [Hx Hk].
      assert (forall y, y ∈ tables (manifest_ db) -> tm_fileName x = tm_fileName y -> x = y) as Hinj.
      { intros y Hy He. apply (NoDup_ids_inj _ _ _ (tb_ids _ Ht) Hx Hy). pose proof (tb_minted _ Ht) as Hm. pose proof (tb_next _ Ht). rewrite list.Forall_forall in Hm.
        destruct (Hm x Hx) as [Mx Lx], (Hm y Hy) as [My Ly].
        apply (minted_inj 1 (nextTableId (manifest_ db)) 1 (nextTableId (manifest_ db)) (tm_level x) (tm_level y)); try lia; done. }
      destruct Hin as [Hin|Hin]; apply list_elem_of_fmap in Hin as (y & He & Hy).
      - rewrite <- Hb in Hy. assert (y ∈ primaryMetas db) as Hy' by (rewrite Hp; apply elem_of_app; right; apply elem_of_app; by left).
        apply primaryMetas_elem in Hy' as [Hy' _]. by rewrite (Hinj y Hy' He).
      - rewrite list.Forall_forall in Hmore. destruct (Hmore y Hy) as [Hy1 Hy2]. exfalso. apply Hy2. by rewrite <- (Hinj y Hy1 He). }
    assert (forall l, (forall x, x ∈ l -> x ∈ primaryMetas db /\ x ∉ b) -> List.filter (notNamed names) l = l) as Hkeep.
    { induction l as [|x l IH]; intros Hl; [done|]. cbn [List.filter]. rewrite (proj2 (notNamed_true names x)).
      - rewrite IH; [done|]. intros y Hy. apply Hl. by right.
      - intros Hin. destruct (Hl x ltac:(left)) as [H1 H2]. by apply H2, Hgone. }
    rewrite !map_app in Hnd. apply NoDup_app in Hnd as (_ & D1 & Hnd). apply NoDup_app in Hnd as (_ & D2 & _).
    rewrite (Hkeep a), (Hkeep c).
    + assert (List.filter (notNamed names) b = []) as ->; [|done]. assert (forall x, x ∈ b -> tm_fileName x ∈ names) as Hb'.
      { intros x Hx. subst names. rewrite map_app, elem_of_app. left. apply list_elem_of_fmap. exists x. split; [done|]. by rewrite <- Hb. }
      clear - Hb'. induction b as [|x b IH]; [done|]. cbn [List.filter]. destruct (notNamed names x) eqn:E.
      * apply notNamed_true in E. exfalso. apply E, Hb'. left.
      * apply IH. intros y Hy. apply Hb'. by right.
    + intros x Hx. split; [rewrite Hp; apply elem_of_app; right; apply elem_of_app; by right|]. intros Hxb. apply (D2 (tm_fileName x)); apply list_elem_of_fmap; by exists x.
    + intros x Hx. split; [rewrite Hp; apply elem_of_app; by left|]. intros Hxb. apply (D1 (tm_fileName x)); [apply list_elem_of_fmap; by exists x|].
      apply elem_of_app. left. apply list_elem_of_fmap. by exists x.
Qed.

End Caches.

End DbCaches.
