(* ===== verification/DbSystem.v ===== *)
(** The persistent database at work: requests of writers, the write service, snapshots,
    the flush task and the compaction task as steps that interleave, and what holds of
    the tables and memtables between them. *)
From Stdlib Require Import ZArith Lia Strings.Byte Sorting.
From stdpp Require Import base list strings numbers option sorting.
From S2P Require Import Prelude SwString ByteMap NumberText Crypto DbCodec DbWal DbContents DbTable DbMemTable DbSortedTables DbReadModel DbStore DbVersions DbTiers DbApply DbFlush DbCompact DbCaches.

Import SwString.
Import DbCodec.
Import DbContents.
Import DbVersions.
Import DbTiers.
Import DbApply.
Import DbFlush.
Import DbCompact.
Import DbCaches.

Module DbSystem.

Section System_.

Context `{E : EVP} `{C : Miniz} `{T : SortedTables} `{!SortedTablesLaws T}.

(** ** Steps *)

(** Where the flush task is: at the head of its loop, with the memtable it took, with
    the tables it wrote, or with the outcome; [FlushIdle] where no task runs. *)
Inductive FlushState :=
| FlushIdle
| FlushRound
| FlushTaken (mem : MemTable_)
| FlushReady (mem : MemTable_) (newTables : list (TableMeta_ * table_handle))
| FlushDone (flushed : bool) (mem : MemTable_).

Inductive CompactionState :=
| CompactionIdle
| CompactionReady (newTables : list (TableMeta_ * table_handle)) (toRemove : list TableMeta_).

(** The database, the numbers of the requests between their two locked parts, the
    batches that were applied, in the order they were, and the keys that came back (see
    [lateKeys]); the last two are there for the statement only. *)
Record System := mkSystem {
  sy_db : SwEmbeddedDb;
  sy_writers : list Z;
  sy_applied : list (Z * SwDbWriteBatch.t);
  sy_revived : list (list byte);
  sy_flush : FlushState;
  sy_compaction : CompactionState
}.

Definition initial (options : SwEmbeddedDbOptions) : System :=
  mkSystem (resetState options (mkFiles [] [] [] None)) [] [] [] FlushIdle CompactionIdle.

(** The keys that a batch writes though a newer batch has erased them, because a
    compaction has dropped the tombstone: no table and no memtable knows the key any
    more, so that the write is not found to be old and the key comes back. *)
Definition lateKeys (db : SwEmbeddedDb) (applied : list (Z * SwDbWriteBatch.t)) (s : Z) (batch : SwDbWriteBatch.t) : list (list byte) :=
  List.filter (fun key => match top (tiers db) key, ByteMap.find key (versionsOf applied) with
                          | None, Some (erased, None) => s <? erased
                          | _, _ => false
                          end) (map SwDbWriteBatch.op_primaryKey (SwDbWriteBatch.operations_ batch)).

(** The pool with the first of its tasks taken out, whichever it was. *)
Definition takesTask (task : Task) (db db' : SwEmbeddedDb) : Prop := exists before_ after,
  backgroundPool_ db = before_ ++ task :: after /\ db' = set_backgroundPool_ (before_ ++ after) db.

(** A request takes its number and is applied later, so that requests may be applied in
    another order than that of their numbers, and tasks run while requests are between
    the two.  Numbers of 64 bits and of files do not run out, and memtables and groups of
    tables have under 2^31 records. *)
Inductive step : System -> System -> Prop :=
| step_take db writers applied revived fl co s db' :
    nextSequence_ db < 2 ^ 64 - 1 -> takeSequence db = (s, db') ->
    step (mkSystem db writers applied revived fl co) (mkSystem db' (s :: writers) applied revived fl co)
| step_apply db before_ s after applied revived fl co batch walFrame :
    batch_good batch ->
    step (mkSystem db (before_ ++ s :: after) applied revived fl co)
      (mkSystem (submitApply s batch walFrame db) (before_ ++ after) (applied ++ [(s, batch)]) (revived ++ lateKeys db applied s batch) fl co)
| step_commit db writers applied revived fl co group target db' :
    drainWriteRequests_ db = (group, target, db') ->
    step (mkSystem db writers applied revived fl co) (mkSystem (commitWriteRequests_ group target db') writers applied revived fl co)
| step_snapshot db writers applied revived fl co snapshot db' :
    createSnapshot db = (snapshot, db') ->
    step (mkSystem db writers applied revived fl co) (mkSystem db' writers applied revived fl co)
| step_flush_start db writers applied revived co db' :
    takesTask FlushTask db db' ->
    step (mkSystem db writers applied revived FlushIdle co) (mkSystem db' writers applied revived FlushRound co)
| step_flush_take db writers applied revived co taken db' :
    takeImmutable db = (taken, db') ->
    step (mkSystem db writers applied revived FlushRound co)
      (mkSystem db' writers applied revived (match taken with Some mem => FlushTaken mem | None => FlushIdle end) co)
| step_flush_prepare db writers applied revived co mem result db' :
    zlen (mt_primary mem) < 2 ^ 31 -> zlen (secondary mem) < 2 ^ 31 -> nextTableId (manifest_ db) < 2 ^ 62 ->
    prepareFlush mem 0 db = (result, db') ->
    step (mkSystem db writers applied revived (FlushTaken mem) co)
      (mkSystem db' writers applied revived (match result with Ok newTables => FlushReady mem newTables | _ => FlushDone false mem end) co)
| step_flush_install db writers applied revived co mem newTables persisted flushed db' :
    installFlush persisted mem newTables db = (flushed, db') ->
    step (mkSystem db writers applied revived (FlushReady mem newTables) co) (mkSystem db' writers applied revived (FlushDone flushed mem) co)
| step_flush_drop db writers applied revived co flushed mem :
    step (mkSystem db writers applied revived (FlushDone flushed mem) co)
      (mkSystem (dropImmutable flushed mem db) writers applied revived (if flushed : bool then FlushRound else FlushIdle) co)
| step_compact db writers applied revived fl primaryTables indexTables db1 result db' :
    takesTask (CompactionTask primaryTables indexTables) db db1 ->
    zlen (concat (omap (fun it => tableAll it.2) (handlesOf db primaryTables))) < 2 ^ 31 -> zlen indexTables < 2 ^ 31 ->
    nextTableId (manifest_ db) < 2 ^ 62 ->
    runCompaction primaryTables indexTables db1 = (result, db') ->
    step (mkSystem db writers applied revived fl CompactionIdle)
      (match result with
       | Some (newTables, toRemove) => mkSystem db' writers applied revived fl (CompactionReady newTables toRemove)
       | None => mkSystem (set_compactionScheduled_ false db') writers applied revived fl CompactionIdle
       end)
| step_compacted db writers applied revived fl newTables toRemove persisted :
    step (mkSystem db writers applied revived fl (CompactionReady newTables toRemove))
      (mkSystem (finishCompaction persisted newTables toRemove db) writers applied revived fl CompactionIdle).

(** ** What most steps leave alone *)

(** The same memtable, but for the keys it remembers. *)
Record alike (m m' : MemTable_) : Prop := {
  al_primary : mt_primary m' = mt_primary m;
  al_secondary : secondary m' = secondary m;
  al_covers : covers m' = covers m;
  al_ok : MemTable.ok m -> MemTable.ok m'
}.

#[export] Instance alike_preorder : PreOrder alike.
Proof. split; [by intros m; split|]. intros a b c [A1 A2 A3 A4] [B1 B2 B3 B4]. split; [congruence|congruence|congruence|auto]. Qed.

Lemma alike_layer m m' key : alike m m' -> memLayer m' key = memLayer m key.
Proof using Type. intros [H _ _ _]. unfold memLayer. by rewrite H. Qed.

Lemma alike_mem_ok m m' : alike m m' -> mem_ok m -> mem_ok m'.
Proof using Type. intros [H _ _ _]. unfold mem_ok. by rewrite H. Qed.

(** The memtable that the flush task holds: it is still the oldest of the immutable
    ones. *)
Definition held (db : SwEmbeddedDb) (mem : MemTable_) : Prop :=
  MemTable.ok mem /\ mem_ok mem /\ blobFileId mem = 0 /\ exists first rest, immutables_ db = first :: rest /\
    mt_primary first = mt_primary mem /\ walId first = walId mem /\ maxSeq first = maxSeq mem.

(** The tables are the same, and blob files may have grown. *)
Record keeps (db db' : SwEmbeddedDb) : Prop := {
  kp_cache : primaryTableHandlesNewestFirst_ db' = primaryTableHandlesNewestFirst_ db;
  kp_handles : tableHandles_ db' = tableHandles_ db;
  kp_tables : tables (manifest_ db') = tables (manifest_ db);
  kp_closing : closing_ db' = closing_ db;
  kp_blobs : blobs_grow (get_blobs db) (get_blobs db');
  kp_ids : nextTableId (manifest_ db) <= nextTableId (manifest_ db');
  kp_fresh : fresh_blobs db -> fresh_blobs db'
}.

#[export] Instance keeps_preorder : PreOrder keeps.
Proof.
  split; [by intros db; split|]. intros a b c [A1 A2 A3 A4 A5 A6 A7] [B1 B2 B3 B4 B5 B6 B7]. split; try congruence; try lia; auto.
  by etransitivity.
Qed.

(** And the memtables are. *)
Record grows (db db' : SwEmbeddedDb) : Prop := {
  gr_keeps : keeps db db';
  gr_mutable : alike (mutable_ db) (mutable_ db');
  gr_immutables : Forall2 alike (immutables_ db) (immutables_ db');
  gr_known : forall key, before (maxKnownPrimaryKey_ db) key = false -> before (maxKnownPrimaryKey_ db') key = false
}.

#[export] Instance grows_preorder : PreOrder grows.
Proof.
  split; [by intros db; split|]. intros a b c [A1 A2 A3 A4] [B1 B2 B3 B4]. split; [by etransitivity|by etransitivity| |auto].
  clear - A3 B3. revert B3. generalize (immutables_ c).
  induction A3 as [|x y l l' Hxy _ IH]; intros l'' B3; inversion B3; subst; constructor; [by etransitivity|auto].
Qed.

Lemma alike_held db db' mem : Forall2 alike (immutables_ db) (immutables_ db') -> held db mem -> held db' mem.
Proof using Type.
  intros Ha (H1 & H2 & H3 & first & rest & E1 & H4 & H5 & H6). split; [done|]. split; [done|]. split; [done|]. rewrite E1 in Ha.
  inversion Ha as [|? first' ? rest' Hf _ X Y]; subst. exists first', rest'. split; [done|]. destruct Hf as [F1 _ F2 _]. unfold covers in F2.
  injection F2 as F3 _ _ F4. split; [congruence|]. split; congruence.
Qed.

Lemma Forall2_alike_refl l : Forall2 alike l l.
Proof using Type. induction l; by constructor. Qed.

Lemma same_immutables_held db db' mem : immutables_ db' = immutables_ db -> held db mem -> held db' mem.
Proof using Type. intros He. apply alike_held. rewrite He. apply Forall2_alike_refl. Qed.

Lemma prepared_grows db db' : prepared db db' -> grows db db'.
Proof using Type.
  intros [H1 H2 H3 H4]. unfold fixed in H1. injection H1 as I1 I2 I3 I4 I5 I6 I7 I8 I9 I10 I11 I12 I13 I14 I15.
  split; rewrite ?I3, ?I4; [by split|reflexivity|apply Forall2_alike_refl|by rewrite I7].
Qed.

Section Kept.

Context (db db' : SwEmbeddedDb) (Hk : keeps db db').

Lemma kept_tables : nextTableId (manifest_ db') < 2 ^ 63 -> tables_ok db -> tables_ok db'.
Proof using Hk.
  destruct Hk as [G1 G2 G3 _ _ G4 _]. intros Hl [T1 T2 T3 T4 T5 T6]. constructor; rewrite ?G3, ?G2; try done.
  - eapply Forall_impl; [exact T1|]. intros meta [Hm Hlev]. split; [|done]. by apply (minted_more 1 (nextTableId (manifest_ db))).
  - unfold cachedHandles, primaryMetas. rewrite G1, G2, G3. exact T5.
  - lia.
Qed.

Lemma kept_metas : primaryMetas db' = primaryMetas db.
Proof using Hk. unfold primaryMetas. by rewrite (kp_tables _ _ Hk). Qed.

Lemma kept_tableLayer h key : table_ok (get_blobs db) h -> tableLayer (get_blobs db') h key = tableLayer (get_blobs db) h key.
Proof using Hk. apply tableLayer_grows, Hk. Qed.

(** A primary table's handle can be read. *)
Lemma primary_handle meta : tables_ok db -> Forall (table_ok (get_blobs db)) (primaryTableHandlesNewestFirst_ db) -> meta ∈ primaryMetas db ->
  exists h, ByteMap.find (tm_fileName meta) (tableHandles_ db) = Some h /\ table_ok (get_blobs db) h.
Proof using Type.
  intros Ht Hok Hm. pose proof (tables_primary _ Ht) as Hh. rewrite list.Forall_forall in Hh. destruct (Hh meta Hm) as [h F].
  exists h. split; [done|]. rewrite (tb_cache _ Ht) in Hok. rewrite list.Forall_forall in Hok. apply Hok.
  unfold cachedHandles. apply list_elem_of_omap. by exists meta.
Qed.

Lemma kept_metaLayers metas key : tables_ok db -> Forall (table_ok (get_blobs db)) (primaryTableHandlesNewestFirst_ db) ->
  (forall meta, meta ∈ metas -> meta ∈ primaryMetas db) -> column (map (metaLayer db') metas) key = column (map (metaLayer db) metas) key.
Proof using Hk.
  intros Ht Hr. induction metas as [|meta metas IH]; intros Hm; [done|]. cbn [map]. rewrite !column_cons.
  assert (metaLayer db' meta key = metaLayer db meta key) as ->.
  { destruct (primary_handle meta Ht Hr) as (h & F & Hok); [apply Hm; left|]. unfold metaLayer. rewrite (kp_handles _ _ Hk), F. simpl.
    by apply kept_tableLayer. }
  rewrite IH by (intros m Hin; apply Hm; by right). done.
Qed.

Lemma kept_handles key handles : Forall (table_ok (get_blobs db)) handles ->
  column (map (tableLayer (get_blobs db')) handles) key = column (map (tableLayer (get_blobs db)) handles) key.
Proof using Hk. induction 1 as [|h handles Hok _ IH]; [done|]. cbn [map]. rewrite !column_cons, IH. by rewrite kept_tableLayer. Qed.

Lemma kept_tableLayers key : Forall (table_ok (get_blobs db)) (primaryTableHandlesNewestFirst_ db) ->
  column (tableLayers db') key = column (tableLayers db) key.
Proof using Hk. unfold tableLayers. rewrite (kp_cache _ _ Hk). apply kept_handles. Qed.

Lemma kept_readable : Forall (table_ok (get_blobs db)) (primaryTableHandlesNewestFirst_ db) ->
  Forall (table_ok (get_blobs db')) (primaryTableHandlesNewestFirst_ db').
Proof using Hk. rewrite (kp_cache _ _ Hk). intros H. eapply Forall_impl; [exact H|]. intros h. apply table_ok_grows, Hk. Qed.

End Kept.

Section Grown.

Context (db db' : SwEmbeddedDb) (Hg : grows db db').

Lemma Forall2_layers l l' key : Forall2 alike l l' -> column (map memLayer l') key = column (map memLayer l) key.
Proof using Type.
  induction 1 as [|m m' l l' Hm _ IH]; [done|]. cbn [map]. rewrite !column_cons, IH. by rewrite (alike_layer m m' key).
Qed.

Lemma grown_lower key : readable db -> column (lower db') key = column (lower db) key.
Proof using Hg.
  intros Hr. unfold lower. rewrite !column_app. f_equal; [|apply kept_tableLayers; [apply Hg|apply Hr]].
  apply Forall2_layers. apply Forall2_reverse, Hg.
Qed.

Lemma grown_column key : readable db -> column (tiers db') key = column (tiers db) key.
Proof using Hg.
  intros Hr. rewrite !tiers_lower, !column_cons, grown_lower by done. by rewrite (alike_layer _ _ key (gr_mutable _ _ Hg)).
Qed.

Lemma grown_readable : readable db -> readable db'.
Proof using Hg.
  intros Hr. pose proof Hr as [H1 H2 H3 H4]. constructor.
  - eapply alike_mem_ok; [apply Hg|done].
  - destruct Hg as [_ _ G _]. clear - G H2. revert H2. induction G as [|m m' l l' Hm _ IH]; [constructor|].
    intros [H3 H4]%Forall_cons. constructor; [by eapply alike_mem_ok|auto].
  - by apply (kept_readable db), H3; apply Hg.
  - intros key. rewrite grown_column by done. intros Hc. by apply (gr_known _ _ Hg), H4.
Qed.

Lemma grown_versions (known stored : Z -> Prop) (excused : list byte -> Prop) versions :
  versions_ok known stored excused versions db -> versions_ok known stored excused versions db'.
Proof using Hg.
  intros [H1 H2 H3 H4 H5]. constructor.
  - by apply grown_readable.
  - intros key. rewrite grown_column by done. apply H2.
  - intros key v. rewrite grown_lower by done. apply H3.
  - intros key v. rewrite (alike_layer _ _ key (gr_mutable _ _ Hg)). apply H4.
  - intros key. unfold top. rewrite grown_column by done. apply H5.
Qed.

(** Every memtable has its keys right and no blob file yet. *)
Definition memtables_ok (db : SwEmbeddedDb) : Prop := Forall (fun m => MemTable.ok m /\ blobFileId m = 0) (mutable_ db :: immutables_ db).

Lemma grown_memtables : memtables_ok db -> memtables_ok db'.
Proof using Hg.
  assert (forall m m', alike m m' -> MemTable.ok m /\ blobFileId m = 0 -> MemTable.ok m' /\ blobFileId m' = 0) as Ha.
  { intros m m' [_ _ A1 A2] [H1 H2]. split; [auto|]. unfold covers in A1. injection A1 as _ A1 _ _. congruence. }
  unfold memtables_ok. intros [H1 H2]%Forall_cons. constructor; [by eapply Ha; [apply Hg|]|]. destruct Hg as [_ _ G _].
  clear - G H2 Ha. revert H2. induction G as [|m m' l l' Hm _ IH]; [constructor|]. intros [H3 H4]%Forall_cons. constructor; [by eapply Ha|auto].
Qed.

End Grown.

(** ** The background tasks *)

(** What the flush task has written of its memtable. *)
Record newFlush (db : SwEmbeddedDb) (mem : MemTable_) (newTables : list (TableMeta_ * table_handle)) : Prop := {
  nf_installable : installable db 0 newTables;
  nf_tables : exists added indexes, newTables = added ++ indexes /\
    Forall (fun it => tm_kind it.1 = TableKindPrimary) added /\ Forall (fun it => tm_kind it.1 = TableKindIndex) indexes /\
    (mt_primary mem = [] /\ added = [] \/ exists meta h, added = [(meta, h)] /\ table_of mem db h) /\
    forall it x, it ∈ added -> x ∈ primaryMetas db -> tm_level x = 0 -> tm_fileId x < tm_fileId it.1
}.

Definition flushTables (fl : FlushState) : list (TableMeta_ * table_handle) :=
  match fl with FlushReady _ newTables => newTables | _ => [] end.

Definition flush_ok (db : SwEmbeddedDb) (fl : FlushState) : Prop :=
  match fl with
  | FlushIdle | FlushRound => True
  | FlushTaken mem => held db mem
  | FlushReady mem newTables => held db mem /\ newFlush db mem newTables
  | FlushDone flushed mem => held db mem /\
      (flushed = true -> forall key v, memLayer mem key = Some v -> agree (Some v) (top (tableLayers db) key))
  end.

(** A group of primary tables: there are only tables of level 0 before them, flushed
    since, and of level 1 behind them. *)
Record group_at (db : SwEmbeddedDb) (group F Ms O : list TableMeta_) : Prop := {
  ga_metas : primaryMetas db = F ++ Ms ++ O;
  ga_group : Ms ≡ₚ group;
  ga_newer : Forall (fun meta => tm_level meta = 0) F;
  ga_older : Forall (fun meta => tm_level meta = 1) O
}.

Definition indexes_of (db : SwEmbeddedDb) (metas : list TableMeta_) : Prop :=
  Forall (fun meta => meta ∈ tables (manifest_ db) /\ tm_kind meta <> TableKindPrimary) metas.

Definition task_ok (db : SwEmbeddedDb) (task : Task) : Prop :=
  match task with
  | FlushTask => True
  | CompactionTask primaryTables indexTables =>
      (exists F Ms O, group_at db primaryTables F Ms O) /\ indexes_of db (concat (map snd indexTables))
  end.

(** What the compaction task has made of its group. *)
Record newCompaction (db : SwEmbeddedDb) (newTables : list (TableMeta_ * table_handle)) (toRemove : list TableMeta_) : Prop := {
  nc_installable : installable db 1 newTables;
  nc_tables : exists group F Ms O more added indexes, group_at db group F Ms O /\ toRemove = group ++ more /\ indexes_of db more /\
    newTables = added ++ indexes /\
    Forall (fun it => tm_kind it.1 = TableKindPrimary) added /\ Forall (fun it => tm_kind it.1 = TableKindIndex) indexes /\
    (added = [] \/ exists meta h, added = [(meta, h)] /\ table_ok (get_blobs db) h) /\
    (forall it x, it ∈ added -> x ∈ primaryMetas db -> tm_level x = 1 -> tm_fileId x < tm_fileId it.1) /\
    forall key, let old := top (map (metaLayer db) Ms) key in let new := top (map (tableLayer (get_blobs db)) (map snd added)) key in
      new = old \/ new = None /\ O = [] /\ exists s, old = Some (s, None)
}.

Definition compactionTables (co : CompactionState) : list (TableMeta_ * table_handle) :=
  match co with CompactionReady newTables _ => newTables | CompactionIdle => [] end.

Definition compaction_ok (db : SwEmbeddedDb) (co : CompactionState) : Prop :=
  match co with CompactionIdle => True | CompactionReady newTables toRemove => newCompaction db newTables toRemove end.

Record background (db : SwEmbeddedDb) (fl : FlushState) (co : CompactionState) : Prop := {
  bg_tables : tables_ok db;
  bg_fresh : fresh_blobs db;
  bg_open : closing_ db = false;
  bg_flush : flush_ok db fl;
  bg_compaction : compaction_ok db co;
  bg_apart : forall a b, a ∈ flushTables fl -> b ∈ compactionTables co -> tm_fileId a.1 <> tm_fileId b.1
}.

(** *** They are kept *)

Section Background.

Context (db db' : SwEmbeddedDb).

Hypothesis (Hk : keeps db db')
  (Hr : Forall (table_ok (get_blobs db)) (primaryTableHandlesNewestFirst_ db)) (Ht : tables_ok db).

Lemma kept_installable level newTables : installable db level newTables -> installable db' level newTables.
Proof using Hk.
  intros [H1 [H2 H3] H4]. split; [done| |by rewrite (kp_tables _ _ Hk)]. split; [|done]. eapply Forall_impl; [exact H2|].
  intros it. apply minted_more; [lia|apply Hk].
Qed.

Lemma kept_newFlush mem newTables : newFlush db mem newTables -> newFlush db' mem newTables.
Proof using Hk.
  intros [H1 (added & indexes & H2 & H3 & H4 & H5 & H6)]. split; [by apply kept_installable|]. exists added, indexes.
  split; [done|]. split; [done|]. split; [done|]. split; [|by rewrite (kept_metas db db' Hk)].
  destruct H5 as [H5|(meta & h & H5 & [H7 H8])]; [by left|right]. exists meta, h. split; [done|]. split.
  - eapply table_ok_grows; [apply Hk|done].
  - intros key. rewrite <- H8. by apply (kept_tableLayer db).
Qed.

Lemma kept_flush fl : (forall mem, held db mem -> held db' mem) -> flush_ok db fl -> flush_ok db' fl.
Proof using Hk Hr.
  intros Hh. destruct fl as [| |mem|mem newTables|flushed mem]; cbn; try done.
  - apply Hh.
  - intros [H1 H2]. split; [by apply Hh|by apply kept_newFlush].
  - intros [H1 H2]. split; [by apply Hh|]. intros Hf key v Hv. unfold top. rewrite (kept_tableLayers db) by done.
    by apply H2.
Qed.

Lemma kept_group group F Ms O : group_at db group F Ms O -> group_at db' group F Ms O.
Proof using Hk. intros [H1 H2 H3 H4]. split; try done. by rewrite (kept_metas db). Qed.

Lemma kept_indexes metas : indexes_of db metas -> indexes_of db' metas.
Proof using Hk. unfold indexes_of. by rewrite (kp_tables _ _ Hk). Qed.

Lemma kept_task task : task_ok db task -> task_ok db' task.
Proof using Hk.
  destruct task as [|primaryTables indexTables]; [done|]. intros [(F & Ms & O & H1) H2]. split; [|by apply kept_indexes].
  exists F, Ms, O. by apply kept_group.
Qed.

Lemma group_elem group F Ms O meta : group_at db group F Ms O -> meta ∈ Ms -> meta ∈ primaryMetas db.
Proof using Type. intros [-> _ _ _] Hin. rewrite !elem_of_app. auto. Qed.

Lemma kept_newCompaction newTables toRemove : newCompaction db newTables toRemove -> newCompaction db' newTables toRemove.
Proof using Hk Hr Ht.
  intros [H1 (group & F & Ms & O & more & added & indexes & H2 & H3 & H4 & H5 & H6 & H7 & H8 & H9 & H10)]. split; [by apply kept_installable|].
  exists group, F, Ms, O, more, added, indexes. split; [by apply kept_group|]. split; [done|]. split; [by apply kept_indexes|].
  split; [done|]. split; [done|]. split; [done|]. split.
  { destruct H8 as [H8|(meta & h & H8 & Hok)]; [by left|right]. exists meta, h. split; [done|]. eapply table_ok_grows; [apply Hk|done]. }
  split; [by rewrite (kept_metas db)|]. intros key. cbv zeta. unfold top. rewrite (kept_metaLayers db db' Hk Ms) by (try done; intros meta; by eapply group_elem).
  rewrite (kept_handles db db' Hk key (map snd added)).
  - apply H10.
  - destruct H8 as [->|(meta & h & -> & Hok)]; [constructor|]. by constructor.
Qed.

Lemma kept_moved fl fl' co : nextTableId (manifest_ db') < 2 ^ 63 -> flush_ok db' fl' ->
  (forall a b, a ∈ flushTables fl' -> b ∈ compactionTables co -> tm_fileId a.1 <> tm_fileId b.1) ->
  background db fl co -> background db' fl' co.
Proof using Hk Hr Ht.
  intros Hl Hf Ha [H1 H2 H3 H4 H5 H6]. split; try done.
  - by apply (kept_tables db).
  - by apply Hk.
  - by rewrite (kp_closing _ _ Hk).
  - destruct co as [|newTables toRemove]; [done|]. by apply kept_newCompaction.
Qed.

Lemma kept_background fl co : (forall mem, held db mem -> held db' mem) -> nextTableId (manifest_ db') < 2 ^ 63 ->
  background db fl co -> background db' fl co.
Proof using Hk Hr Ht.
  intros Hh Hl Hb. pose proof Hb as [_ _ _ H1 _ H2]. apply (kept_moved fl); try done. by apply kept_flush.
Qed.

End Background.

(** ** The pool *)

Definition isFlush (task : Task) : bool := match task with FlushTask => true | CompactionTask _ _ => false end.

Definition countTasks (p : Task -> bool) (pool : list Task) : nat := length (List.filter p pool).

(** A task of each kind is in the pool or runs if the flag of the kind is set, and then
    only one. *)
Record scheduled (db : SwEmbeddedDb) (fl : FlushState) (co : CompactionState) : Prop := {
  sc_flush : (countTasks isFlush (backgroundPool_ db) + (if fl is FlushIdle then 0 else 1) = if flushScheduled_ db then 1 else 0)%nat;
  sc_compaction : (countTasks (fun task => negb (isFlush task)) (backgroundPool_ db) + (if co is CompactionIdle then 0 else 1) =
    if compactionScheduled_ db then 1 else 0)%nat;
  sc_tasks : Forall (task_ok db) (backgroundPool_ db)
}.

Definition flags (db : SwEmbeddedDb) := (flushScheduled_ db, compactionScheduled_ db, backgroundPool_ db).

Lemma kept_scheduled db db' fl co : keeps db db' -> flags db' = flags db -> scheduled db fl co -> scheduled db' fl co.
Proof using Type.
  intros Hk Hf [H1 H2 H3]. injection Hf as F1 F2 F3. split; rewrite ?F1, ?F2, ?F3; try done. eapply Forall_impl; [exact H3|].
  intros task. by apply kept_task.
Qed.

Lemma countTasks_app p a b : countTasks p (a ++ b) = (countTasks p a + countTasks p b)%nat.
Proof using Type. unfold countTasks. by rewrite List.filter_app, length_app. Qed.

(** ** The invariant *)

Record invariant (sys : System) : Prop := {
  iv_versions : versions_ok (fun n => n ∈ map fst (sy_applied sys)) (fun n => n ∈ map fst (sy_applied sys)) (fun key => key ∈ sy_revived sys)
    (versionsOf (sy_applied sys)) (sy_db sys);
  iv_memtables : memtables_ok (sy_db sys);
  iv_next : 0 < nextSequence_ (sy_db sys) < 2 ^ 64;
  iv_distinct : NoDup (sy_writers sys ++ map fst (sy_applied sys));
  iv_range : Forall (fun s => 0 < s < nextSequence_ (sy_db sys)) (sy_writers sys ++ map fst (sy_applied sys));
  iv_background : background (sy_db sys) (sy_flush sys) (sy_compaction sys);
  iv_scheduled : scheduled (sy_db sys) (sy_flush sys) (sy_compaction sys)
}.

End System_.

End DbSystem.
