(* ===== verification/DbStoreSpec.v ===== *)
(** The persistent database answers like a table: the invariant of DbSystem.v holds in
    every history, and a read sees of each key the write with the greatest number. *)
From Stdlib Require Import ZArith Lia Strings.Byte Sorting.
From stdpp Require Import base list strings numbers option sorting.
From S2P Require Import Prelude SwString ByteMap NumberText Crypto DbCodec DbWal DbContents DbTable DbMemTable DbSortedTables DbReadModel DbStore DbVersions DbTiers DbApply DbFlush DbCompact DbCaches DbSystem.

Import SwString.
Import DbCodec.
Import DbContents.
Import DbVersions.
Import DbTiers.
Import DbApply.
Import DbFlush.
Import DbCompact.
Import DbCaches.
Import DbSystem.

Module DbStoreSpec.

Section Spec.

Context `{E : EVP} `{C : Miniz} `{T : SortedTables} `{!SortedTablesLaws T}.

(** ** Steps that leave the tables and memtables as they are *)

(** What differs is none of what [grows] is about. *)
Lemma same_grows db db' : mutable_ db' = mutable_ db -> immutables_ db' = immutables_ db ->
  primaryTableHandlesNewestFirst_ db' = primaryTableHandlesNewestFirst_ db -> tableHandles_ db' = tableHandles_ db ->
  tables (manifest_ db') = tables (manifest_ db) -> nextTableId (manifest_ db') = nextTableId (manifest_ db) ->
  maxKnownPrimaryKey_ db' = maxKnownPrimaryKey_ db -> closing_ db' = closing_ db -> get_blobs db' = get_blobs db -> grows db db'.
Proof using Type.
  intros H1 H2 H3 H4 H5 H6 H7 H8 H9. split; rewrite ?H1, ?H2; [|reflexivity|apply Forall2_alike_refl|by rewrite H7].
  split; try done; [by rewrite H9|lia|]. unfold fresh_blobs. by rewrite H6, H9.
Qed.

Lemma grows_held db db' mem : grows db db' -> held db mem -> held db' mem.
Proof using Type. intros Hg. apply alike_held, Hg. Qed.

Lemma grows_invariant db db' writers applied revived fl co :
  invariant (mkSystem db writers applied revived fl co) -> grows db db' -> nextTableId (manifest_ db') < 2 ^ 63 ->
  nextSequence_ db' = nextSequence_ db -> flags db' = flags db -> invariant (mkSystem db' writers applied revived fl co).
Proof using Type.
  intros [H1 H2 H3 H4 H5 H6 H7] Hg Hl Hn Hf. cbn [sy_db sy_writers sy_applied sy_revived sy_flush sy_compaction] in *.
  constructor; cbn [sy_db sy_writers sy_applied sy_revived sy_flush sy_compaction]; rewrite ?Hn; try done.
  - by apply (grown_versions db db' Hg).
  - by apply (grown_memtables db).
  - exact (kept_background db db' (gr_keeps _ _ Hg) (rd_tables _ (vo_readable _ _ _ _ _ H1)) (bg_tables _ _ _ H6) fl co (fun mem => grows_held _ _ mem Hg) Hl H6).
  - apply (kept_scheduled db); [apply Hg|done|done].
Qed.

Lemma take_invariant db writers applied revived fl co s db' : nextSequence_ db < 2 ^ 64 - 1 -> takeSequence db = (s, db') ->
  invariant (mkSystem db writers applied revived fl co) -> invariant (mkSystem db' (s :: writers) applied revived fl co).
Proof using Type.
  unfold takeSequence. intros Hl [= <- <-] [H1 H2 H3 H4 H5 H6 H7]. cbn [sy_db sy_writers sy_applied sy_revived sy_flush sy_compaction] in *.
  assert (nextSequence_ db +u 1 = nextSequence_ db + 1) as En by (apply add64_small; lia). set (db' := set_nextSequence_ _ db).
  assert (nextSequence_ db' = nextSequence_ db + 1) as En' by exact En.
  assert (grows db db') as Hg by by apply same_grows.
  constructor; cbn [sy_db sy_writers sy_applied sy_revived sy_flush sy_compaction]; rewrite ?En'; try done.
  - by apply (grown_versions db db' Hg).
  - lia.
  - cbn [app]. apply NoDup_cons. split; [|done]. rewrite list.Forall_forall in H5. intros Hin. apply H5 in Hin. lia.
  - cbn [app]. constructor; [lia|]. eapply Forall_impl; [exact H5|]. intros n Hn. cbv beta in *. lia.
  - refine (kept_background db db' (gr_keeps _ _ Hg) (rd_tables _ (vo_readable _ _ _ _ _ H1)) (bg_tables _ _ _ H6) fl co (fun mem => grows_held _ _ mem Hg) _ H6). apply (tb_next _ (bg_tables _ _ _ H6)).
  - apply (kept_scheduled db); [apply Hg|done|done].
Qed.

Lemma commit_invariant db writers applied revived fl co group target db' : drainWriteRequests_ db = (group, target, db') ->
  invariant (mkSystem db writers applied revived fl co) -> invariant (mkSystem (commitWriteRequests_ group target db') writers applied revived fl co).
Proof using Type.
  unfold drainWriteRequests_. intros [= <- <- <-] Hinv. pose proof (proj2 (tb_next _ (bg_tables _ _ _ (iv_background _ Hinv)))) as Hl.
  apply (grows_invariant db); try done; unfold commitWriteRequests_; destruct (pendingWrites_ db); try done; by apply same_grows.
Qed.

(** *** Snapshots *)

Lemma ordered_alike m : MemTable.ok m -> alike m (MemTable.orderedPrimaryKeys m).2.
Proof using Type.
  intros Hm. destruct (MemTable.orderedPrimaryKeys_kept m Hm) as (H1 & H2 & H3 & _). split; try done.
  unfold MemTable.orderedPrimaryKeys. by destruct (primaryOrderDirty_ m).
Qed.

Lemma mergeMemTable_alike merged m : MemTable.ok m -> alike m (mergeMemTable merged m).2.
Proof using Type.
  intros Hm. pose proof (ordered_alike m Hm) as Ha. unfold mergeMemTable. by destruct (MemTable.orderedPrimaryKeys m) as [keys m'].
Qed.

Lemma mergeMemTables_alike mems : Forall MemTable.ok mems -> forall merged, Forall2 alike mems (mergeMemTables merged mems).2.
Proof using Type.
  induction 1 as [|m mems Hm _ IH]; intros merged; cbn [mergeMemTables]; [constructor|]. pose proof (mergeMemTable_alike merged m Hm) as Ha.
  destruct (mergeMemTable merged m) as [merged1 m1]. specialize (IH merged1). destruct (mergeMemTables merged1 mems) as [merged2 mems2]. by constructor.
Qed.

Lemma createSnapshot_grows db : memtables_ok db -> let db' := (createSnapshot db).2 in
  grows db db' /\ nextSequence_ db' = nextSequence_ db /\ flags db' = flags db /\ nextTableId (manifest_ db') = nextTableId (manifest_ db).
Proof using Type.
  intros [[Hm _] Hi]%Forall_cons. unfold createSnapshot. cbv zeta.
  assert (Forall MemTable.ok (immutables_ db)) as Hi' by (eapply Forall_impl; [exact Hi|]; by intros m [? _]).
  match goal with |- context [match buildReadModelLocked ?a ?b ?c ?d with _ => _ end] => set (rebuild := match buildReadModelLocked a b c d with Some _ => _ | None => _ end) end.
  assert (grows db rebuild.2 /\ nextSequence_ rebuild.2 = nextSequence_ db /\ flags rebuild.2 = flags db /\
    nextTableId (manifest_ rebuild.2) = nextTableId (manifest_ db)) as Hrebuild.
  { subst rebuild. unfold buildReadModelLocked. destruct (mergeTables _) as [merged|]; cbn [mbind option_bind]; [|done].
    pose proof (mergeMemTables_alike _ Hi' merged) as H1. destruct (mergeMemTables merged (immutables_ db)) as [merged1 immutables].
    pose proof (mergeMemTable_alike merged1 _ Hm) as H2. destruct (mergeMemTable merged1 (mutable_ db)) as [merged2 mutable]. cbn [fst snd] in *.
    split; [|done]. by split. }
  destruct (writerSnapshotState_ db) as [base|]; [|done]. destruct (_ =? _); [done|]. destruct (_ =? _); [|done].
  cbn [snd]. destruct (if writerOverlaySnapshot_ db is Some _ then _ else _); [done|]. split; [by apply same_grows|done].
Qed.

Lemma snapshot_invariant db writers applied revived fl co snapshot db' : createSnapshot db = (snapshot, db') ->
  invariant (mkSystem db writers applied revived fl co) -> invariant (mkSystem db' writers applied revived fl co).
Proof using Type.
  intros Hc Hinv. pose proof (createSnapshot_grows db (iv_memtables _ Hinv)) as H. rewrite Hc in H. destruct H as (H1 & H2 & H3 & H4).
  apply (grows_invariant db); try done. cbn in H4. rewrite H4. apply (tb_next _ (bg_tables _ _ _ (iv_background _ Hinv))).
Qed.

(** ** The flush task *)

Lemma countTasks_taken task before_ after (p : Task -> bool) :
  countTasks p (before_ ++ task :: after) = (countTasks p (before_ ++ after) + if p task then 1 else 0)%nat.
Proof using Type. rewrite !countTasks_app. unfold countTasks. cbn [List.filter]. destruct (p task); cbn [length]; lia. Qed.

Lemma flush_start_invariant db writers applied revived co db' : takesTask FlushTask db db' ->
  invariant (mkSystem db writers applied revived FlushIdle co) -> invariant (mkSystem db' writers applied revived FlushRound co).
Proof using Type.
  intros (before_ & after & Ep & ->) [H1 H2 H3 H4 H5 H6 H7]. cbn [sy_db sy_writers sy_applied sy_revived sy_flush sy_compaction] in *.
  set (db' := set_backgroundPool_ _ db). assert (grows db db') as Hg by by apply same_grows.
  constructor; cbn [sy_db sy_writers sy_applied sy_revived sy_flush sy_compaction]; try done.
  - by apply (grown_versions db db' Hg).
  - assert (background db' FlushIdle co) as [K1 K2 K3 K4 K5 K6].
    { refine (kept_background db db' (gr_keeps _ _ Hg) (rd_tables _ (vo_readable _ _ _ _ _ H1)) (bg_tables _ _ _ H6) _ co (fun mem => grows_held _ _ mem Hg) _ H6).
      apply (tb_next _ (bg_tables _ _ _ H6)). }
    by split.
  - destruct H7 as [S1 S2 S3]. rewrite Ep in S1, S2, S3. rewrite countTasks_taken in S1, S2. cbn [isFlush negb] in S1, S2.
    split; cbn [db' set_backgroundPool_ backgroundPool_ flushScheduled_ compactionScheduled_]; [destruct (flushScheduled_ db); lia|destruct co, (compactionScheduled_ db); lia|].
    apply Forall_app in S3 as [S3 [_ S4]%Forall_cons]. apply Forall_app. split; (eapply Forall_impl; [eassumption|]); intros task; apply (kept_task db db'), Hg.
Qed.

(** The flag of the flush goes down when its task ends. *)
Lemma flush_ends db writers applied revived fl co : fl <> FlushIdle -> invariant (mkSystem db writers applied revived fl co) ->
  invariant (mkSystem (set_flushScheduled_ false db) writers applied revived FlushIdle co).
Proof using Type.
  intros Hfl [H1 H2 H3 H4 H5 H6 H7]. cbn [sy_db sy_writers sy_applied sy_revived sy_flush sy_compaction] in *.
  set (db' := set_flushScheduled_ false db). assert (grows db db') as Hg by by apply same_grows.
  constructor; cbn [sy_db sy_writers sy_applied sy_revived sy_flush sy_compaction]; try done.
  - by apply (grown_versions db db' Hg).
  - assert (background db' fl co) as [K1 K2 K3 K4 K5 K6].
    { refine (kept_background db db' (gr_keeps _ _ Hg) (rd_tables _ (vo_readable _ _ _ _ _ H1)) (bg_tables _ _ _ H6) _ co (fun mem => grows_held _ _ mem Hg) _ H6).
      apply (tb_next _ (bg_tables _ _ _ H6)). }
    split; try done. intros a b ?%elem_of_nil. done.
  - destruct H7 as [S1 S2 S3]. split; cbn [db' set_flushScheduled_ backgroundPool_ flushScheduled_ compactionScheduled_]; [|done|].
    + destruct fl, (flushScheduled_ db); try done; lia.
    + eapply Forall_impl; [exact S3|]. intros task. apply (kept_task db db'), Hg.
Qed.

(** A step of the flush task that changes only where it is. *)
Lemma flush_moves db writers applied revived fl fl' co : fl <> FlushIdle -> fl' <> FlushIdle ->
  (forall a b, a ∈ flushTables fl' -> b ∈ compactionTables co -> tm_fileId a.1 <> tm_fileId b.1) ->
  flush_ok db fl' -> invariant (mkSystem db writers applied revived fl co) -> invariant (mkSystem db writers applied revived fl' co).
Proof using Type.
  intros N N' Hn Hf [H1 H2 H3 H4 H5 [K1 K2 K3 K4 K5 K6] [S1 S2 S3]]. cbn [sy_db sy_writers sy_applied sy_revived sy_flush sy_compaction] in *.
  constructor; cbn [sy_db sy_writers sy_applied sy_revived sy_flush sy_compaction]; try done.
  split; try done. by destruct fl, fl'.
Qed.

Lemma flush_take_invariant db writers applied revived co taken db' : takeImmutable db = (taken, db') ->
  invariant (mkSystem db writers applied revived FlushRound co) ->
  invariant (mkSystem db' writers applied revived (match taken with Some mem => FlushTaken mem | None => FlushIdle end) co).
Proof using Type.
  intros Ht Hinv. unfold takeImmutable in Ht. pose proof (bg_open _ _ _ (iv_background _ Hinv)) as Ho. cbn [sy_db] in Ho. rewrite Ho in Ht. destruct (immutables_ db) as [|mem rest] eqn:Ei.
  - injection Ht as <- <-. by apply (flush_ends db _ _ _ FlushRound).
  - injection Ht as <- <-. apply (flush_moves db _ _ _ FlushRound); try done; [by intros a b ?%elem_of_nil|]. pose proof (iv_memtables _ Hinv) as Hm. cbn [sy_db] in Hm.
    unfold memtables_ok in Hm. rewrite Ei in Hm. apply Forall_cons in Hm as [_ [[M1 M2] _]%Forall_cons].
    pose proof (rd_immutables _ (vo_readable _ _ _ _ _ (iv_versions _ Hinv))) as Hr. cbn [sy_db] in Hr. rewrite Ei in Hr. apply Forall_cons in Hr as [Hr _].
    split; [done|]. split; [done|]. split; [done|]. by exists mem, rest.
Qed.

Lemma prepared_invariant db db' writers applied revived fl co : prepared db db' -> nextTableId (manifest_ db') < 2 ^ 63 ->
  invariant (mkSystem db writers applied revived fl co) -> invariant (mkSystem db' writers applied revived fl co).
Proof using Type.
  intros Hp Hl Hinv. pose proof (pp_fixed _ _ Hp) as Hf. unfold fixed in Hf. injection Hf as F1 F2 F3 F4 F5 F6 F7 F8 F9 F10 F11 F12 F13 F14 F15.
  apply (grows_invariant db); try done; [by apply prepared_grows|]. unfold flags. congruence.
Qed.

(** Tables with new numbers are apart from all there are. *)
Lemma new_installable db low level newTables : tables_ok db -> (forall meta, meta ∈ tables (manifest_ db) -> tm_fileId meta < low) -> 1 <= low ->
  level = 0 \/ level = 1 -> new_tables low (nextTableId (manifest_ db)) level newTables -> installable db level newTables.
Proof using Type.
  intros Ht Ho Hl Hlev [H1 H2]. split; [done| |].
  - split; [|done]. eapply Forall_impl; [exact H1|]. intros it. apply minted_more; lia.
  - intros it meta Hit Hm. rewrite list.Forall_forall in H1. destruct (H1 it Hit) as [Hid _ _]. specialize (Ho meta Hm). lia.
Qed.

Lemma old_ids db meta : tables_ok db -> meta ∈ tables (manifest_ db) -> tm_fileId meta < nextTableId (manifest_ db).
Proof using Type. intros Ht Hm. pose proof (tb_minted _ Ht) as H. rewrite list.Forall_forall in H. destruct (H meta Hm) as [[? _ _] _]. lia. Qed.

Lemma installable_ids db level newTables it : installable db level newTables -> it ∈ newTables -> tm_fileId it.1 < nextTableId (manifest_ db).
Proof using Type. intros [_ [H _] _] Hit. rewrite list.Forall_forall in H. destruct (H it Hit) as [? _ _]. lia. Qed.

Lemma flush_prepare_invariant db writers applied revived co mem result db' :
  zlen (mt_primary mem) < 2 ^ 31 -> zlen (secondary mem) < 2 ^ 31 -> nextTableId (manifest_ db) < 2 ^ 62 ->
  prepareFlush mem 0 db = (result, db') -> invariant (mkSystem db writers applied revived (FlushTaken mem) co) ->
  invariant (mkSystem db' writers applied revived (match result with Ok newTables => FlushReady mem newTables | _ => FlushDone false mem end) co).
Proof using All.
  intros Hf1 Hf2 Hl Hp Hinv. pose proof (iv_background _ Hinv) as [K1 K2 K3 (K4 & K5 & K6 & K7) K8 K9]. cbn [sy_db sy_writers sy_flush sy_compaction] in *.
  pose proof (prepareFlush_ok mem db) as Ho. rewrite Hp in Ho. pose proof (tb_next _ K1) as Hnext.
  destruct Ho as (O1 & O2 & O3); [by split|done|lia|]. pose proof (prepared_invariant _ _ _ _ _ _ _ O1 O2 Hinv) as Hinv'.
  pose proof (pp_ids _ _ O1) as Hids. pose proof (pp_fixed _ _ O1) as Hfx. unfold fixed in Hfx. injection Hfx as _ _ _ _ _ _ _ _ _ _ _ _ _ _ F15.
  assert (held db' mem) as Hh by apply (bg_flush _ _ _ (iv_background _ Hinv')).
  pose proof (bg_tables _ _ _ (iv_background _ Hinv')) as Ht'. cbn [sy_db] in Ht'.
  destruct result as [all|e|]; [|by apply (flush_moves db' _ _ _ (FlushTaken mem)); try done; intros a b ?%elem_of_nil..].
  destruct (O3 all eq_refl) as (N1 & indexes & N2 & N3).
  assert (forall meta, meta ∈ tables (manifest_ db') -> tm_fileId meta < nextTableId (manifest_ db)) as Hold.
  { intros meta. rewrite F15. by apply old_ids. }
  assert (forall it, it ∈ all -> nextTableId (manifest_ db) <= tm_fileId it.1) as Hnew.
  { intros it Hit. destruct N1 as [N1 _]. rewrite list.Forall_forall in N1. by destruct (N1 it Hit) as [[? _] _ _]. }
  apply (flush_moves db' _ _ _ (FlushTaken mem)); try done.
  - intros a b Ha Hb. destruct co as [|newTables toRemove]; [by apply elem_of_nil in Hb|]. destruct K8 as [K8 _].
    specialize (Hnew a Ha). pose proof (installable_ids _ _ _ _ K8 Hb). lia.
  - split; [done|]. split; [apply (new_installable db' (nextTableId (manifest_ db))); auto; lia|].
    destruct N3 as [[E1 ->]|(meta & h & -> & E2 & E3)].
    + exists [], indexes. split; [done|]. split; [constructor|]. split; [done|]. split; [by left|]. by intros it x ?%elem_of_nil.
    + exists [(meta, h)], indexes. split; [done|]. split; [by constructor|]. split; [done|]. split; [right; by exists meta, h|].
      intros it x ->%list_elem_of_singleton [Hx _]%primaryMetas_elem _. specialize (Hnew (meta, h) ltac:(left)). specialize (Hold x Hx). lia.
Qed.

(** *** Tables change *)

Lemma agree_trans a b c : agree a b -> agree b c -> agree a c.
Proof using Type. intros [->|(-> & s & ->)] [->|(-> & s' & E')]; [by left|right; eauto|right; eauto|done]. Qed.

Lemma tables_changed (known stored : Z -> Prop) (excused : list byte -> Prop) versions db db' : versions_ok known stored excused versions db -> rebuilt db db' ->
  Forall (table_ok (get_blobs db')) (primaryTableHandlesNewestFirst_ db') -> ordered (tiers db') ->
  (forall key v, v ∈ column (tableLayers db') key -> v ∈ column (lower db) key) ->
  (forall key, agree (top (tiers db) key) (top (tiers db') key)) -> versions_ok known stored excused versions db'.
Proof using Type.
  intros [[H1 H2 H3 H4] H5 H6 Hmut H7] [R1 R2 R3 R4 R5] Hok Ho Hc Ha.
  assert (forall key v, v ∈ column (lower db') key -> v ∈ column (lower db) key) as Hl.
  { intros key v. unfold lower at 1. rewrite column_app, elem_of_app, R2. intros [Hv|Hv]; [|by apply Hc]. unfold lower. rewrite column_app, elem_of_app. by left. }
  constructor; [|done| | |].
  - constructor; rewrite ?R1, ?R2; try done. intros key Hne. apply R5, H4. intros Hnil. apply Hne. rewrite tiers_lower, column_cons in Hnil |- *.
    rewrite R1. destruct (memLayer (mutable_ db) key); [done|]. destruct (column (lower db') key) as [|v l] eqn:Ec; [done|].
    assert (v ∈ column (lower db) key) as Hv by (apply Hl; rewrite Ec; left). rewrite Hnil in Hv. by apply elem_of_nil in Hv.
  - intros key v Hv. by apply (H6 key), Hl.
  - intros key v. rewrite R1. apply Hmut.
  - intros key Hk. eapply agree_trans; [by apply H7|apply Ha].
Qed.

(** What the tiers are, with the tables of the manifest. *)
Lemma column_tiers db key : tables_ok db ->
  column (tiers db) key = column (memLayers db ++ map (metaLayer db) (primaryMetas db)) key.
Proof using Type. intros Ht. unfold tiers. by rewrite !column_app, tableLayers_metas. Qed.

Lemma cached_ok db : tables_ok db -> (forall meta, meta ∈ primaryMetas db -> exists h, ByteMap.find (tm_fileName meta) (tableHandles_ db) = Some h /\ table_ok (get_blobs db) h) ->
  Forall (table_ok (get_blobs db)) (primaryTableHandlesNewestFirst_ db).
Proof using Type.
  intros Ht H. rewrite (tb_cache _ Ht). apply list.Forall_forall. intros h Hh. unfold cachedHandles in Hh.
  apply list_elem_of_omap in Hh as (meta & Hm & F). destruct (H meta Hm) as (h' & F' & Hok). by assert (h = h') as -> by congruence.
Qed.

(** *** The tables of a flush are added *)

Lemma levels_of db meta : tables_ok db -> meta ∈ primaryMetas db -> tm_level meta = 0 \/ tm_level meta = 1.
Proof using Type.
  intros Ht [Hm _]%primaryMetas_elem. pose proof (tb_minted _ Ht) as H. rewrite list.Forall_forall in H. by destruct (H meta Hm).
Qed.

Section Install.

Context (known stored : Z -> Prop) (excused : list byte -> Prop) (versions : Versions) (db : SwEmbeddedDb) (mem : MemTable_) (newTables : list (TableMeta_ * table_handle)) (co : CompactionState).

Hypothesis (Hv : versions_ok known stored excused versions db) (Hb : background db (FlushReady mem newTables) co)
  (Htasks : Forall (task_ok db) (backgroundPool_ db)).

Let db1 := installTables newTables db.

(** The new primary table is the newest, and has what the memtable has. *)
Lemma flush_installed : exists added, tables_ok db1 /\ rebuilt db db1 /\ manifest_ db1 = addTables (map fst newTables) (manifest_ db) /\
  (forall it, it ∈ added -> it ∈ newTables /\ tm_level it.1 = 0) /\
  primaryMetas db1 = map fst added ++ primaryMetas db /\
  (forall meta, meta ∈ tables (manifest_ db) -> ByteMap.find (tm_fileName meta) (tableHandles_ db1) = ByteMap.find (tm_fileName meta) (tableHandles_ db)) /\
  (forall it, it ∈ newTables -> ByteMap.find (tm_fileName it.1) (tableHandles_ db1) = Some it.2) /\
  (mt_primary mem = [] /\ added = [] \/ exists meta h, added = [(meta, h)] /\ table_of mem db h).
Proof using Hb.
  destruct Hb as [K1 _ _ (K4 & K5 & added & indexes & K6 & K7 & K8 & K9 & K10) _ _].
  destruct (installTables_ok db 0 newTables K1 K5) as (I1 & I2 & I3 & I4 & I5). fold db1 in I1, I2, I3, I4, I5. exists added.
  assert (forall it, it ∈ added -> it ∈ newTables /\ tm_level it.1 = 0) as Hin.
  { intros it Hit. assert (it ∈ newTables) as Hn by (rewrite K6; apply elem_of_app; by left). split; [done|].
    destruct K5 as [_ [K5 _] _]. rewrite list.Forall_forall in K5. by destruct (K5 it Hn). }
  split; [done|]. split; [done|]. split; [done|]. split; [done|]. split; [|done].
  apply (primaryMetas_install db 0 added indexes [] (primaryMetas db)); try done.
  - rewrite <- K6. pose proof (tb_ids _ I2) as Hn. rewrite I3 in Hn. exact Hn.
  - destruct K9 as [[_ ->]|(meta & h & -> & _)]; [by left|right; by exists (meta, h)].
  - intros it x _ ?%elem_of_nil. done.
  - intros it x Hit Hx. split; [by apply Hin|]. destruct (levels_of db x K1 Hx) as [Hl|Hl]; [left|right; lia]. split; [done|]. by apply K10.
  - by rewrite I3, K6.
Qed.

Lemma installed_metaLayers metas key : (forall meta, meta ∈ metas -> meta ∈ primaryMetas db) ->
  column (map (metaLayer db1) metas) key = column (map (metaLayer db) metas) key.
Proof using Hb.
  destruct flush_installed as (added & _ & I1 & _ & _ & _ & I2 & _). induction metas as [|meta metas IH]; intros Hm; [done|].
  cbn [map]. rewrite !column_cons, IH by (intros m Hin; apply Hm; by right).
  assert (metaLayer db1 meta key = metaLayer db meta key) as ->; [|done]. unfold metaLayer, get_blobs. rewrite (rb_files _ _ I1), I2; [done|].
  apply (primaryMetas_elem db meta), Hm. left.
Qed.

Lemma installed_columns key : exists new, column (tableLayers db1) key = new ++ column (tableLayers db) key /\
  (new = [] /\ memLayer mem key = None \/ exists v, new = [v] /\ memLayer mem key = Some v).
Proof using Hb.
  destruct flush_installed as (added & I0 & I1 & _ & I3 & I4 & I5 & I6 & I7). pose proof (bg_tables _ _ _ Hb) as Ht.
  rewrite (tableLayers_metas db1), I4, map_app, column_app by done. rewrite (installed_metaLayers (primaryMetas db)), <- tableLayers_metas by auto.
  exists (column (map (metaLayer db1) (map fst added)) key). split; [done|]. destruct I7 as [[E1 ->]|(meta & h & -> & [_ H])].
  - left. split; [done|]. unfold memLayer. by rewrite E1.
  - cbn [map fst]. rewrite column_cons. assert (metaLayer db1 meta key = memLayer mem key) as ->.
    { unfold metaLayer, get_blobs. rewrite (rb_files _ _ I1). destruct (I3 (meta, h)) as [Hin _]; [left|]. specialize (I6 _ Hin). cbn [fst snd] in I6. rewrite I6. apply H. }
    destruct (memLayer mem key) as [v|]; [right; by exists v|by left].
Qed.

Lemma install_versions : versions_ok known stored excused versions db1.
Proof using Hv Hb.
  destruct flush_installed as (added & I0 & I1 & _ & I3 & I4 & I5 & I6 & I7). pose proof Hb as [K1 _ _ ((_ & _ & _ & first & rest & E1 & E2 & _) & _) _ _].
  assert (forall key, memLayer first key = memLayer mem key) as Hfirst by (intros key; unfold memLayer; by rewrite E2).
  set (a := memLayer (mutable_ db) :: map memLayer (reverse rest)).
  assert (memLayers db = a ++ [memLayer first]) as Ha by (unfold memLayers; by rewrite E1, reverse_cons, map_cons, map_app).
  assert (memLayers db1 = memLayers db) as Hmem by (unfold memLayers; by rewrite (rb_mutable _ _ I1), (rb_immutables _ _ I1)).
  assert (forall key, column (tiers db1) key = column ((a ++ [memLayer first]) ++ memLayer mem :: tableLayers db) key) as Hcol.
  { intros key. unfold tiers. rewrite Hmem, Ha, !column_app. f_equal. rewrite column_cons.
    destruct (installed_columns key) as (new & -> & [[-> ->]|(v & -> & ->)]); done. }
  assert (forall key, column (tiers db) key = column ((a ++ [memLayer first]) ++ tableLayers db) key) as Hcol0.
  { intros key. unfold tiers. by rewrite Ha. }
  apply (tables_changed known stored excused versions db); [done|done| | | |].
  - apply cached_ok; [done|]. intros meta Hm. rewrite I4, elem_of_app in Hm. unfold get_blobs. rewrite (rb_files _ _ I1). destruct Hm as [Hm|Hm].
    + apply list_elem_of_fmap in Hm as (it & -> & Hit). exists it.2. split; [by apply I6, I3|].
      destruct I7 as [[_ ->]|(meta & h & -> & H)]; [by apply elem_of_nil in Hit|]. apply list_elem_of_singleton in Hit as ->. apply H.
    + rewrite I5 by (by apply (primaryMetas_elem db meta)). by apply (primary_handle db meta K1 (rd_tables _ (vo_readable _ _ _ _ _ Hv))).
  - intros key. rewrite Hcol. revert key. change (ordered ((a ++ [memLayer first]) ++ memLayer mem :: tableLayers db)). rewrite <- app_assoc.
    apply (ordered_double a (memLayer first)); [done|]. intros key. pose proof (vo_ordered _ _ _ _ _ Hv key) as Ho. by rewrite Hcol0, <- app_assoc in Ho.
  - intros key v. destruct (installed_columns key) as (new & -> & Hn). unfold lower. rewrite column_app, !elem_of_app.
    intros [Hin|Hin]; [left|by right]. destruct Hn as [[-> _]|(w & -> & Hw)]; [by apply elem_of_nil in Hin|]. apply list_elem_of_singleton in Hin as ->.
    rewrite E1, reverse_cons, map_app, column_app, elem_of_app. right. cbn [map]. rewrite column_cons, Hfirst, Hw. left.
  - intros key. left. unfold top. rewrite Hcol, Hcol0, !column_app, !column_cons. rewrite Hfirst.
    destruct (column a key); [|done]. cbn [app]. by destruct (memLayer mem key).
Qed.

Lemma install_group group F Ms O : group_at db group F Ms O -> exists F', group_at db1 group F' Ms O.
Proof using Hb.
  intros [G1 G2 G3 G4]. destruct flush_installed as (added & _ & _ & _ & I3 & I4 & _). exists (map fst added ++ F). split; try done.
  - by rewrite I4, G1, <- !app_assoc.
  - apply Forall_app. split; [|done]. apply list.Forall_forall. intros meta Hm. apply list_elem_of_fmap in Hm as (it & -> & Hit). by apply I3.
Qed.

Lemma install_indexes metas : indexes_of db metas -> indexes_of db1 metas.
Proof using Hb.
  destruct flush_installed as (added & _ & _ & I2 & _). intros H. eapply Forall_impl; [exact H|]. intros meta [Hm Hk]. split; [|done].
  rewrite I2. apply elem_of_app. by left.
Qed.

Lemma install_tasks : Forall (task_ok db1) (backgroundPool_ db).
Proof using Hb Htasks.
  eapply Forall_impl; [exact Htasks|]. intros [|primaryTables indexTables]; [done|]. intros [(F & Ms & O & G) Hi].
  destruct (install_group _ _ _ _ G) as [F' G']. split; [by exists F', Ms, O|by apply install_indexes].
Qed.

Lemma install_background : background db1 (FlushDone true mem) co.
Proof using Hv Hb.
  destruct flush_installed as (added & I0 & I1 & I2 & I3 & I4 & I5 & I6 & I7). pose proof Hb as [K1 K2 K3 [K4 K5] K6 K7].
  assert (get_blobs db1 = get_blobs db) as Eb by (unfold get_blobs; by rewrite (rb_files _ _ I1)). pose proof (rb_flags _ _ I1) as Hf. injection Hf as F1 F2 F3 F4 F5 F6.
  split; try done.
  - unfold fresh_blobs. rewrite Eb, I2. exact K2.
  - congruence.
  - split; [eapply same_immutables_held; [apply I1|done]|]. intros _ key v Hm. left. unfold top.
    destruct (installed_columns key) as (new & -> & [[_ Hn]|(w & -> & Hw)]); [congruence|]. cbn. congruence.
  - assert (forall newTables' toRemove, co = CompactionReady newTables' toRemove -> newCompaction db1 newTables' toRemove) as Hco;
      [|destruct co; [done|by apply Hco]].
    intros newTables' toRemove Eco. rewrite Eco in K6, K7.
    destruct K6 as [N1 (group & F & Ms & O & more & added' & indexes & G & N2 & N3 & N4 & N5 & N6 & N7 & N8 & N9)].
    destruct (install_group _ _ _ _ G) as [F' G']. split.
    + destruct N1 as [M1 M2 M3]. split; [done|by rewrite I2|]. rewrite I2. intros it meta Hit [Hm|Hm]%elem_of_app; [by apply M3|].
      apply list_elem_of_fmap in Hm as (it' & -> & Hit'). intros He. by apply (K7 it' it Hit' Hit).
    + exists group, F', Ms, O, more, added', indexes. split; [done|]. split; [done|]. split; [by apply install_indexes|]. split; [done|]. split; [done|].
      split; [done|]. split; [by rewrite Eb|]. split.
      * intros it x Hit. rewrite I4, elem_of_app. intros [Hx|Hx] Hl; [|by apply N8]. apply list_elem_of_fmap in Hx as (it' & -> & Hit'). destruct (I3 it' Hit') as [_ Hl']. lia.
      * intros key. cbv zeta. rewrite Eb. assert (top (map (metaLayer db1) Ms) key = top (map (metaLayer db) Ms) key) as ->; [|apply N9].
        unfold top. by rewrite installed_metaLayers by (intros meta; by apply (group_elem db group F Ms O)).
  - by intros a b ?%elem_of_nil.
Qed.

End Install.

(** *** Groups are chosen *)

Definition atLevel (level : Z) (meta : TableMeta_) : bool := tm_level meta =? level.

Lemma levels_split l : StronglySorted newestFirst_le l -> (forall meta, meta ∈ l -> tm_level meta = 0 \/ tm_level meta = 1) ->
  l = List.filter (atLevel 0) l ++ List.filter (atLevel 1) l.
Proof using Type.
  induction 1 as [|meta l Hs IH Hall]; intros Hl; [done|]. cbn [List.filter].
  assert (forall level, atLevel level meta = (tm_level meta =? level)) as Ea by done. rewrite !Ea.
  destruct (Hl meta) as [E0|E1]; [left| |].
  - rewrite E0. cbn [Z.eqb app]. f_equal. apply IH. intros m Hm. apply Hl. by right.
  - rewrite E1. cbn [Z.eqb Pos.eqb app]. assert (forall m, m ∈ l -> tm_level m = 1) as Hone.
    { intros m Hm. rewrite list.Forall_forall in Hall. pose proof (newestFirst_levels _ _ (Hall m Hm)) as Hle. destruct (Hl m); [by right|lia|done]. }
    assert (List.filter (atLevel 0) l = [] /\ List.filter (atLevel 1) l = l) as [-> ->]; [|done].
    clear - Hone. induction l as [|m l IH]; [done|]. cbn [List.filter].
    assert (forall level, atLevel level m = (tm_level m =? level)) as -> by done. assert (atLevel 1 m = (tm_level m =? 1)) as -> by done.
    rewrite (Hone m) by left. cbn [Z.eqb Pos.eqb].
    destruct IH as [-> ->]; [|done]. intros m' Hm'. apply Hone. by right.
Qed.

Lemma primaryAt_metas db level : primaryAt level (tables (manifest_ db)) ≡ₚ List.filter (atLevel level) (primaryMetas db).
Proof using Type.
  rewrite (filter_permutation _ _ _ (primaryMetas_permutation db)), filter_both. unfold primaryAt. done.
Qed.

Lemma mergeGroup_cases l0 l1 : mergeGroup l0 l1 = [] \/ mergeGroup l0 l1 = l0 ++ l1 \/ mergeGroup l0 l1 = l0.
Proof using Type.
  unfold mergeGroup. destruct (_ || _); [|by left]. destruct (_ || _); (destruct (_ <? 2); [by left|right]); [by left|right]. by rewrite app_nil_r.
Qed.

Lemma chosen_group db : tables_ok db ->
  let metas := tables (manifest_ db) in exists F Ms O, group_at db (mergeGroup (primaryAt 0 metas) (primaryAt 1 metas)) F Ms O.
Proof using Type.
  intros Ht metas. pose proof (levels_split (primaryMetas db) (filter_merge_sorted _ _) (fun meta => levels_of db meta Ht)) as Hsplit.
  pose proof (primaryAt_metas db 0) as H0. pose proof (primaryAt_metas db 1) as H1. fold metas in H0, H1.
  set (a := List.filter (atLevel 0) (primaryMetas db)) in *. set (b := List.filter (atLevel 1) (primaryMetas db)) in *.
  assert (Forall (fun meta => tm_level meta = 0) a /\ Forall (fun meta => tm_level meta = 1) b) as [Ha Hb].
  { split; apply list.Forall_forall; intros meta Hm%list_elem_of_In; apply List.filter_In in Hm as [_ Hm]; by apply Z.eqb_eq in Hm. }
  destruct (mergeGroup_cases (primaryAt 0 metas) (primaryAt 1 metas)) as [->|[->| ->]].
  - exists a, [], b. by split.
  - exists [], (a ++ b), []. split; [by rewrite app_nil_r|by rewrite H0, H1|constructor|constructor].
  - exists [], a, b. split; [done|done|constructor|done].
Qed.

Lemma mergeGroup_elem l0 l1 meta : meta ∈ mergeGroup l0 l1 -> meta ∈ l0 \/ meta ∈ l1.
Proof using Type.
  destruct (mergeGroup_cases l0 l1) as [->|[->| ->]]; [by intros ?%elem_of_nil|by rewrite elem_of_app|by left].
Qed.

Lemma chosen_indexes db metas names : metas = tables (manifest_ db) -> forall m, indexes_of db (concat (map snd m)) ->
  indexes_of db (concat (map snd (fold_left (fun m name =>
      match mergeGroup (indexAt 0 name metas) (indexAt 1 name metas) with
      | [] => m
      | merge => ByteMap.insert name merge m
      end) names m))).
Proof using Type.
  intros ->. induction names as [|name names IH]; intros m Hm; [done|]. cbn [fold_left]. apply IH.
  destruct (mergeGroup _ _) as [|meta merge] eqn:Em; [done|]. apply list.Forall_forall. intros x Hx.
  apply list_elem_of_In, in_concat in Hx as (group & Hg & Hx). apply in_map_iff in Hg as ([name' group'] & <- & Hg).
  apply list_elem_of_In, ByteMap.insert_elem in Hg as [[= -> ->]|Hg].
  - apply list_elem_of_In in Hx. cbn [snd] in Hx. rewrite <- Em in Hx.
    assert (forall level, x ∈ indexAt level name (tables (manifest_ db)) -> x ∈ tables (manifest_ db) /\ tm_kind x <> TableKindPrimary) as Hi.
    { intros level [H1 H2]%list_elem_of_In%List.filter_In. split; [by apply list_elem_of_In|].
      apply andb_true_iff in H2 as [[H2 _]%andb_true_iff _]. apply Z.eqb_eq in H2. rewrite H2. done. }
    apply mergeGroup_elem in Hx as [Hx|Hx]; by apply Hi in Hx.
  - unfold indexes_of in Hm. rewrite list.Forall_forall in Hm. apply Hm, list_elem_of_In, in_concat. exists group'. split; [|done].
    apply in_map_iff. exists (name', group'). split; [done|by apply list_elem_of_In].
Qed.

Lemma compactL0_invariant db writers applied revived fl co : invariant (mkSystem db writers applied revived fl co) ->
  invariant (mkSystem (compactL0Locked db) writers applied revived fl co).
Proof using Type.
  intros Hinv. unfold compactL0Locked. destruct (compactionScheduled_ db || closing_ db) eqn:Ec; [done|]. apply orb_false_iff in Ec as [Ec _].
  set (metas := tables (manifest_ db)). set (primaryMerge := mergeGroup _ _). set (indexMerge := fold_left _ _ _).
  pose proof (chosen_group db (bg_tables _ _ _ (iv_background _ Hinv))) as Hp. cbv zeta in Hp. fold metas primaryMerge in Hp.
  assert (indexes_of db (concat (map snd indexMerge))) as Hi by (apply chosen_indexes; [done|constructor]).
  assert (invariant (mkSystem (set_backgroundPool_ (backgroundPool_ db ++ [CompactionTask primaryMerge indexMerge]) (set_compactionScheduled_ true db)) writers applied revived fl co)) as Hnew;
    [|by destruct primaryMerge, indexMerge]. clearbody primaryMerge indexMerge.
  destruct Hinv as [H1 H2 H3 H4 H5 H6 [S1 S2 S3]]. cbn [sy_db sy_writers sy_applied sy_revived sy_flush sy_compaction] in *.
  set (db' := set_backgroundPool_ _ _). assert (grows db db') as Hg by by apply same_grows.
  constructor; cbn [sy_db sy_writers sy_applied sy_revived sy_flush sy_compaction]; try done.
  - by apply (grown_versions db db' Hg).
  - refine (kept_background db db' (gr_keeps _ _ Hg) (rd_tables _ (vo_readable _ _ _ _ _ H1)) (bg_tables _ _ _ H6) _ co (fun mem => grows_held _ _ mem Hg) _ H6).
    apply (tb_next _ (bg_tables _ _ _ H6)).
  - rewrite Ec in S2. split; cbn [db' set_backgroundPool_ set_compactionScheduled_ backgroundPool_ flushScheduled_ compactionScheduled_].
    + rewrite countTasks_app. unfold countTasks at 2. cbn [List.filter isFlush length]. lia.
    + rewrite countTasks_app. unfold countTasks at 2. cbn [List.filter isFlush length negb]. lia.
    + apply Forall_app. split; [eapply Forall_impl; [exact S3|]; intros task; apply (kept_task db db'), Hg|]. constructor; [|constructor].
      apply (kept_task db db' (gr_keeps _ _ Hg)). by split.
Qed.

(** *** The end of a flush *)

Lemma restored_grows db db1 : tables_ok db -> rebuilt db db1 ->
  let db' := rebuildTableCachesLocked_ (set_tableHandles_ (tableHandles_ db) (set_manifest_ (manifest_ db) db1)) in
  grows db db' /\ nextSequence_ db' = nextSequence_ db /\ flags db' = flags db /\ manifest_ db' = manifest_ db.
Proof using Type.
  intros Ht [R1 R2 R3 R4 R5]. set (db2 := set_tableHandles_ _ _). destruct (rebuild_caches db2) as ([Q1 Q2 Q3 Q4 Q5] & Q6 & Q7 & Q8).
  set (db' := rebuildTableCachesLocked_ db2) in *. injection R4 as R6 R7 R8 R9 R10 R11. injection Q4 as Q9 Q10 Q11 Q12 Q13 Q14. cbv zeta.
  change (manifest_ db2) with (manifest_ db) in Q6. change (tableHandles_ db2) with (tableHandles_ db) in Q7.
  assert (mutable_ db' = mutable_ db) as Em by (rewrite Q1; exact R1). assert (immutables_ db' = immutables_ db) as Ei by (rewrite Q2; exact R2).
  assert (get_blobs db' = get_blobs db) as Eb by (unfold get_blobs; rewrite Q3; change (files db2) with (files db1); by rewrite R3).
  split; [|split; [rewrite Q12; exact R9|split; [|done]]].
  - split; rewrite ?Em, ?Ei; [|reflexivity|apply Forall2_alike_refl|].
    + split; [|done| | | | |].
      * rewrite Q8, (tb_cache _ Ht). unfold cachedHandles, primaryMetas. by rewrite Q6, Q7.
      * by rewrite Q6.
      * rewrite Q9. exact R6.
      * by rewrite Eb.
      * rewrite Q6. lia.
      * unfold fresh_blobs. by rewrite Eb, Q6.
    + intros key Hk. apply Q5. change (maxKnownPrimaryKey_ db2) with (maxKnownPrimaryKey_ db1). by apply R5.
  - unfold flags. rewrite Q10, Q11, Q13. change (flags db1 = flags db). unfold flags. congruence.
Qed.

Lemma flush_install_invariant db writers applied revived co mem newTables persisted flushed db' :
  installFlush persisted mem newTables db = (flushed, db') -> invariant (mkSystem db writers applied revived (FlushReady mem newTables) co) ->
  invariant (mkSystem db' writers applied revived (FlushDone flushed mem) co).
Proof using Type.
  intros Hi Hinv. pose proof (bg_tables _ _ _ (iv_background _ Hinv)) as Ht. pose proof (tb_next _ Ht) as Hnext. cbn [sy_db] in Ht, Hnext.
  unfold installFlush in Hi. cbv zeta in Hi.
  match type of Hi with context [installTables newTables ?d] => set (db0 := d) in * end.
  assert (invariant (mkSystem db0 writers applied revived (FlushReady mem newTables) co)) as [H1 H2 H3 H4 H5 H6 [S1 S2 S3]].
  { apply (grows_invariant db); try done. apply Hnext. }
  cbn [sy_db sy_writers sy_applied sy_revived sy_flush sy_compaction] in *.
  pose proof (install_versions _ _ _ _ db0 mem newTables co H1 H6) as V. pose proof (install_background _ _ _ _ db0 mem newTables co H1 H6) as B.
  pose proof (install_tasks db0 mem newTables co H6 S3) as Tk. destruct (flush_installed db0 mem newTables co H6) as (added & _ & Hr & Hm & _).
  set (db1 := installTables newTables db0) in *. pose proof (rb_flags _ _ Hr) as Hf. injection Hf as F1 F2 F3 F4 F5 F6.
  assert (invariant (mkSystem db1 writers applied revived (FlushDone true mem) co)) as Hinv1.
  { constructor; cbn [sy_db sy_writers sy_applied sy_revived sy_flush sy_compaction]; rewrite ?F4; try done.
    - unfold memtables_ok. by rewrite (rb_mutable _ _ Hr), (rb_immutables _ _ Hr).
    - split; rewrite ?F2, ?F3, ?F5; done. }
  destruct persisted; cbn [persistManifestLocked] in Hi.
  - assert (closing_ db1 = false) as Hopen by apply (bg_open _ _ _ (iv_background _ Hinv1)).
    match type of Hi with context [negb (closing_ ?d)] => set (db3 := d) in * end. change (closing_ db3) with (closing_ db1) in Hi. rewrite Hopen in Hi.
    cbn [negb] in Hi. injection Hi as <- <-. apply compactL0_invariant.
    pose proof (proj2 (tb_next _ (bg_tables _ _ _ (iv_background _ Hinv1)))) as Hn1.
    apply (grows_invariant db1); try done.
  - injection Hi as <- <-.
    match goal with |- context [set_manifest_ (manifest_ db) ?d] => set (db2 := d) end.
    assert (rebuilt db db2) as Hr2.
    { destruct Hr as [R1 R2 R3 R4 R5]. by split. }
    destruct (restored_grows db db2 Ht Hr2) as (G1 & G2 & G3 & G4). apply (flush_moves _ _ _ _ (FlushReady mem newTables)); try done; [by intros a b ?%elem_of_nil| |].
    + split; [|done]. apply (grows_held _ _ mem G1). apply (bg_flush _ _ _ (iv_background _ Hinv)).
    + apply (grows_invariant db); try done. rewrite G4. apply Hnext.
Qed.

(** *** The memtable is dropped *)

(** Without the memtable, which the tables cover by now, every key has what it had. *)
Lemma dropped_versions (known stored : Z -> Prop) (excused : list byte -> Prop) versions db mem first rest : versions_ok known stored excused versions db -> tables_ok db ->
  immutables_ db = first :: rest -> mt_primary first = mt_primary mem ->
  (forall key v, memLayer mem key = Some v -> agree (Some v) (top (tableLayers db) key)) ->
  versions_ok known stored excused versions (set_immutables_ rest db).
Proof using Type.
  intros [[H1 H2 H3 H4] H5 H6 Hmut H7] Ht Ei Ep Hm. set (db' := set_immutables_ rest db).
  set (a := memLayer (mutable_ db) :: map memLayer (reverse rest)).
  assert (tiers db = a ++ [memLayer first] ++ tableLayers db) as Et.
  { unfold tiers, memLayers. rewrite Ei, reverse_cons, map_cons, map_app, <- app_comm_cons, <- app_assoc. done. }
  assert (tiers db' = a ++ tableLayers db) as Et' by done.
  assert (forall key v, v ∈ column (tiers db') key -> v ∈ column (tiers db) key) as Hsub.
  { intros key v. rewrite Et, Et', !column_app, !elem_of_app. intros [?|?]; auto. }
  constructor.
  - constructor; try done.
    + rewrite Ei in H2. by apply Forall_cons in H2 as [_ H2].
    + intros key Hne. apply H4. intros Hnil. destruct (column (tiers db') key) as [|v l] eqn:Ec; [done|].
      assert (v ∈ column (tiers db) key) as Hv by (apply Hsub; rewrite Ec; left). rewrite Hnil in Hv. by apply elem_of_nil in Hv.
  - rewrite Et'. rewrite Et in H5. by eapply ordered_omit.
  - intros key v Hv. apply (H6 key). unfold lower in *. rewrite column_app, elem_of_app in Hv |- *. destruct Hv as [Hv|Hv]; [left|by right].
    rewrite Ei, reverse_cons, map_app, column_app, elem_of_app. by left.
  - exact Hmut.
  - intros key Hk. eapply agree_trans; [by apply H7|]. rewrite Et, Et', !top_app. destruct (top a key); [by left|].
    unfold top at 1. rewrite column_cons. change (memLayer first key) with (memLayer first key).
    assert (memLayer first key = memLayer mem key) as -> by (unfold memLayer; by rewrite Ep).
    destruct (memLayer mem key) as [v|] eqn:F; [by apply Hm|by left].
Qed.

Lemma flush_drop_invariant db writers applied revived flushed mem co : invariant (mkSystem db writers applied revived (FlushDone flushed mem) co) ->
  invariant (mkSystem (dropImmutable flushed mem db) writers applied revived (if flushed : bool then FlushRound else FlushIdle) co).
Proof using Type.
  intros Hinv. destruct flushed; cbn [dropImmutable negb]; [|by apply (flush_ends db _ _ _ (FlushDone false mem))].
  pose proof Hinv as [H1 H2 H3 H4 H5 H6 [S1 S2 S3]]. cbn [sy_db sy_writers sy_applied sy_revived sy_flush sy_compaction] in *.
  pose proof (bg_flush _ _ _ H6) as [(_ & _ & _ & first & rest & Ei & E1 & E2 & E3) Hm]. specialize (Hm eq_refl).
  unfold dropImmutable. cbn [negb]. rewrite Ei, E2, E3, !Z.eqb_refl. cbn [andb]. set (db' := set_immutables_ rest db).
  assert (keeps db db') as Hk by done.
  constructor; cbn [sy_db sy_writers sy_applied sy_revived sy_flush sy_compaction]; try done.
  - by apply (dropped_versions _ _ _ _ db mem first rest); try done; apply H6.
  - unfold memtables_ok in H2. rewrite Ei in H2. apply Forall_cons in H2 as [M1 [_ M2]%Forall_cons]. by constructor.
  - apply (kept_moved db db' Hk (rd_tables _ (vo_readable _ _ _ _ _ H1)) (bg_tables _ _ _ H6) (FlushDone true mem));
      [apply (tb_next _ (bg_tables _ _ _ H6))|done|by intros a b ?%elem_of_nil|done].
  - split; try done. eapply Forall_impl; [exact S3|]. intros task. by apply (kept_task db db').
Qed.

(** ** Requests are applied *)

Lemma known_versions (known stored : Z -> Prop) (excused : list byte -> Prop) versions db key v : (forall n, stored n -> known n) ->
  versions_ok known stored excused versions db -> v ∈ column (tiers db) key -> known v.1.
Proof using Type.
  intros Hn [_ H2 H3 H4 _] Hv. rewrite tiers_lower, column_cons in Hv. destruct (memLayer (mutable_ db) key) as [w|] eqn:F; [|by apply (H3 key)].
  apply elem_of_cons in Hv as [->|Hv]; [|by apply (H3 key)]. by eapply Hn, H4.
Qed.

Lemma rotated_versions (known stored : Z -> Prop) (excused : list byte -> Prop) versions db db' : (forall n, stored n -> known n) ->
  versions_ok known stored excused versions db -> keeps db db' -> maxKnownPrimaryKey_ db' = maxKnownPrimaryKey_ db ->
  mt_primary (mutable_ db') = [] -> immutables_ db' = immutables_ db ++ [mutable_ db] -> get_blobs db' = get_blobs db ->
  versions_ok known stored excused versions db'.
Proof using Type.
  intros Hn Hv Hk Hmax Hm Hi Hb. pose proof Hv as [[H1 H2 H3 H4] H5 H6 H7 H8].
  assert (lower db' = tiers db) as El.
  { unfold lower, tiers, memLayers, tableLayers. by rewrite Hi, reverse_app, reverse_singleton, map_app, Hb, (kp_cache _ _ Hk). }
  assert (forall key, column (tiers db') key = column (tiers db) key) as Ec.
  { intros key. rewrite tiers_lower, column_cons, El. unfold memLayer at 1. by rewrite Hm. }
  constructor.
  - constructor; [unfold mem_ok; rewrite Hm; constructor| | |].
    + rewrite Hi. apply Forall_app. split; [done|by constructor].
    + by apply (kept_readable db).
    + intros key. rewrite Ec, Hmax. apply H4.
  - intros key. rewrite Ec. apply H5.
  - intros key v. rewrite El. by apply (known_versions known stored excused versions).
  - intros key v. unfold memLayer. by rewrite Hm.
  - intros key. unfold top. rewrite Ec. apply H8.
Qed.

Lemma rotate_invariant db writers applied revived fl co : invariant (mkSystem db writers applied revived fl co) ->
  invariant (mkSystem (rotateMutableToImmutableLocked_ db) writers applied revived fl co).
Proof using Type.
  intros Hinv. unfold rotateMutableToImmutableLocked_. destruct (negb (hasRecords (mutable_ db))); [done|]. cbv zeta.
  match goal with |- context [mkSystem ?d] => set (db' := d) end. pose proof Hinv as [H1 H2 H3 H4 H5 H6 [S1 S2 S3]].
  cbn [sy_db sy_writers sy_applied sy_revived sy_flush sy_compaction] in *. assert (keeps db db') as Hk by done.
  constructor; cbn [sy_db sy_writers sy_applied sy_revived sy_flush sy_compaction]; try done.
  - by apply (rotated_versions _ _ _ _ db).
  - apply Forall_cons in H2 as [M1 M2]. constructor.
    + split; [|done]. pose proof MemTable.memTable_empty_ok as [K1 K2 K3 K4]. by constructor.
    + cbn [db' set_mutable_ set_manifest_ set_immutables_ immutables_]. apply Forall_app. split; [done|by constructor].
  - refine (kept_background db db' Hk (rd_tables _ (vo_readable _ _ _ _ _ H1)) (bg_tables _ _ _ H6) _ co _ _ H6).
    + intros mem (K1 & K2 & K3 & first & rest & K4 & K5). split; [done|]. split; [done|]. split; [done|]. exists first, (rest ++ [mutable_ db]).
      cbn [db' set_mutable_ set_manifest_ set_immutables_ immutables_]. by rewrite K4.
    + apply (tb_next _ (bg_tables _ _ _ H6)).
  - split; try done. eapply Forall_impl; [exact S3|]. intros task. by apply (kept_task db db').
Qed.

Lemma schedule_invariant db writers applied revived fl co : invariant (mkSystem db writers applied revived fl co) ->
  invariant (mkSystem (scheduleFlushLocked_ db) writers applied revived fl co).
Proof using Type.
  intros Hinv. unfold scheduleFlushLocked_. destruct (flushScheduled_ db || closing_ db || _) eqn:Ec; [done|].
  apply orb_false_iff in Ec as [[Ec _]%orb_false_iff _]. set (db' := set_backgroundPool_ _ _). assert (grows db db') as Hg by by apply same_grows.
  pose proof Hinv as [H1 H2 H3 H4 H5 H6 [S1 S2 S3]]. cbn [sy_db sy_writers sy_applied sy_revived sy_flush sy_compaction] in *.
  constructor; cbn [sy_db sy_writers sy_applied sy_revived sy_flush sy_compaction]; try done.
  - by apply (grown_versions db db' Hg).
  - refine (kept_background db db' (gr_keeps _ _ Hg) (rd_tables _ (vo_readable _ _ _ _ _ H1)) (bg_tables _ _ _ H6) _ co (fun mem => grows_held _ _ mem Hg) _ H6).
    apply (tb_next _ (bg_tables _ _ _ H6)).
  - rewrite Ec in S1. split; cbn [db' set_backgroundPool_ set_flushScheduled_ backgroundPool_ flushScheduled_ compactionScheduled_].
    + rewrite countTasks_app. unfold countTasks at 2. cbn [List.filter isFlush length]. lia.
    + rewrite countTasks_app. unfold countTasks at 2. cbn [List.filter isFlush length negb]. lia.
    + apply Forall_app. split; [eapply Forall_impl; [exact S3|]; intros task; apply (kept_task db db'), Hg|by constructor].
Qed.

(** A batch is in time for the keys that do not come back by it. *)
Lemma late_timely db applied revived s batch :
  (forall key, key ∉ revived -> agree (ByteMap.find key (versionsOf applied)) (top (tiers db) key)) ->
  timelyBatch (fun key => key ∈ revived ++ lateKeys db applied s batch) s batch (versionsOf applied) db.
Proof using Type.
  intros Ha. apply list.Forall_forall. intros op Hop. set (key := SwDbWriteBatch.op_primaryKey op). intros Hk Ht v Hv.
  rewrite elem_of_app in Hk. destruct (Ha key) as [E1|(_ & n & E1)]; [tauto|congruence|].
  assert (v = (n, None)) as -> by congruence. cbn [fst]. destruct (Z.ltb_spec s n) as [Hn|]; [|lia]. exfalso. apply Hk. right.
  apply list_elem_of_In, List.filter_In. split; [apply in_map, list_elem_of_In, Hop|]. rewrite Ht, E1. by apply Z.ltb_lt.
Qed.

Lemma applied_invariant db before_ s after applied revived fl co batch : batch_good batch ->
  invariant (mkSystem db (before_ ++ s :: after) applied revived fl co) ->
  invariant (mkSystem (applyBatchLockedMutable s batch db) (before_ ++ after) (applied ++ [(s, batch)]) (revived ++ lateKeys db applied s batch) fl co).
Proof using Type.
  intros Hbatch [H1 H2 H3 H4 H5 H6 [S1 S2 S3]]. cbn [sy_db sy_writers sy_applied sy_revived sy_flush sy_compaction] in *.
  assert ((before_ ++ s :: after) ++ map fst applied ≡ₚ (before_ ++ after) ++ map fst (applied ++ [(s, batch)])) as Hperm.
  { rewrite map_app, <- !app_assoc. apply Permutation_app_head. cbn [map fst]. rewrite <- app_comm_cons, app_assoc. apply Permutation_cons_append. }
  assert (0 < s < nextSequence_ db /\ s ∉ map fst applied) as [Hs Hnew].
  { rewrite list.Forall_forall in H5. split; [apply H5; rewrite !elem_of_app, elem_of_cons; auto|].
    rewrite <- app_assoc, <- app_comm_cons in H4. apply NoDup_app in H4 as (_ & _ & H4). apply NoDup_cons in H4 as [H4 _].
    rewrite elem_of_app in H4. tauto. }
  pose proof H2 as [[M1 M2] M3]%Forall_cons.
  set (numbers := fun n => n ∈ map fst (applied ++ [(s, batch)])). set (excused := fun key => key ∈ revived ++ lateKeys db applied s batch).
  assert (versions_ok (fun n => n ∈ map fst applied) numbers excused (versionsOf applied) db) as H1'.
  { destruct H1 as [V1 V2 V3 V4 V5]. constructor; try done.
    - intros key v Hv. unfold numbers. rewrite map_app, elem_of_app. left. by apply (V4 key).
    - intros key Hk. apply V5. intros Hr. apply Hk, elem_of_app. by left. }
  assert (numbers s) as Hs' by (unfold numbers; rewrite map_app, elem_of_app; right; left).
  destruct (applyBatchLockedMutable_ok _ _ _ s batch ltac:(unfold is_u64; lia) Hnew Hs' Hbatch _ _ M1 H1' (late_timely _ _ _ _ _ (vo_agree _ _ _ _ _ H1)))
    as [B1 B2 B3 B4 B5].
  set (db' := applyBatchLockedMutable s batch db) in *. unfold rest in B3.
  injection B3 as R1 R2 R3 R4 R5 R6 R7 R8 R9 R10 R11 R12 R13 R14 R15.
  assert (get_blobs db' = get_blobs db) as Rb by (unfold get_blobs; by rewrite R15).
  assert (keeps db db') as Hk.
  { split; rewrite ?R3, ?Rb; try done. unfold fresh_blobs. by rewrite R3, Rb. }
  constructor; cbn [sy_db sy_writers sy_applied sy_revived sy_flush sy_compaction]; rewrite ?R13, <- ?Hperm; try done.
  - assert (versionsOf (applied ++ [(s, batch)]) = applyVersions (versionsOf applied) (s, batch)) as -> by (unfold versionsOf; by rewrite fold_left_app).
    destruct B1 as [V1 V2 V3 V4 V5]. constructor; try done.
    intros key v Hv. rewrite map_app, elem_of_app. left. by apply (V3 key).
  - unfold memtables_ok. rewrite R4. constructor; [|done]. split; [done|]. destruct (cover_same s db) as (_ & _ & Hc). rewrite Hc in B5.
    unfold covers in B5. injection B5 as _ B5 _ _. congruence.
  - refine (kept_background db db' Hk (rd_tables _ (vo_readable _ _ _ _ _ H1)) (bg_tables _ _ _ H6) fl co _ _ H6).
    + intros mem. by apply same_immutables_held.
    + rewrite R3. apply (tb_next _ (bg_tables _ _ _ H6)).
  - split; rewrite ?R10, ?R11, ?R14; try done. eapply Forall_impl; [exact S3|]. intros task. by apply (kept_task db db').
Qed.

Lemma apply_invariant db before_ s after applied revived fl co batch walFrame : batch_good batch ->
  invariant (mkSystem db (before_ ++ s :: after) applied revived fl co) ->
  invariant (mkSystem (submitApply s batch walFrame db) (before_ ++ after) (applied ++ [(s, batch)]) (revived ++ lateKeys db applied s batch) fl co).
Proof using Type.
  intros Hbatch Hinv. apply (applied_invariant _ _ _ _ _ _ _ _ batch Hbatch) in Hinv. unfold submitApply. cbv zeta.
  set (db1 := applyBatchLockedMutable s batch db) in *.
  match goal with |- context [memTableBytes (options_ ?d)] => set (db2 := d) end.
  assert (invariant (mkSystem db2 (before_ ++ after) (applied ++ [(s, batch)]) (revived ++ lateKeys db applied s batch) fl co)) as Hinv2.
  { pose proof (proj2 (tb_next _ (bg_tables _ _ _ (iv_background _ Hinv)))) as Hl. cbn [sy_db] in Hl.
    assert (grows db1 db2 /\ nextTableId (manifest_ db2) = nextTableId (manifest_ db1) /\ nextSequence_ db2 = nextSequence_ db1 /\ flags db2 = flags db1) as (G1 & G2 & G3 & G4).
    { subst db2. unfold overlayMaybeCollapse. destruct (writerSnapshotState_ db1) as [base|]; [|split; [by apply same_grows|done]].
      destruct (_ || _); (split; [by apply same_grows|done]). }
    apply (grows_invariant db1); try done. by rewrite G2. }
  destruct (_ <=? _); [|done]. by apply schedule_invariant, rotate_invariant.
Qed.

(** ** The compaction task *)

Lemma handles_column db group key : column (map (tableLayer (get_blobs db)) (map snd (handlesOf db group))) key = column (map (metaLayer db) group) key.
Proof using Type.
  unfold handlesOf. induction group as [|meta group IH]; [done|]. cbn [map]. rewrite column_cons. unfold metaLayer at 1. cbn [omap list_omap mbind option_bind].
  destruct (ByteMap.find (tm_fileName meta) (tableHandles_ db)) as [h|]; cbn [mbind option_bind]; [|exact IH].
  cbn [map snd]. rewrite column_cons. by rewrite <- IH.
Qed.

(** A group that has all of level 1 has nothing behind it. *)
Lemma covered_nothing_older db group F Ms O : tables_ok db -> group_at db group F Ms O ->
  coversAllL1 (primaryAt 1 (tables (manifest_ db))) group = true -> O = [].
Proof using Type.
  intros Ht [G1 G2 G3 G4] Hc. destruct O as [|x O]; [done|]. exfalso. apply Forall_cons in G4 as [G4 _].
  assert (x ∈ primaryMetas db) as Hx by (rewrite G1, !elem_of_app; right; right; left). pose proof Hx as [Hx1 Hx2]%primaryMetas_elem.
  assert (x ∈ primaryAt 1 (tables (manifest_ db))) as Hat.
  { rewrite primaryAt_metas. apply list_elem_of_In, List.filter_In. split; [by apply list_elem_of_In|]. unfold atLevel. rewrite G4. done. }
  unfold coversAllL1 in Hc. rewrite forallb_forall in Hc. apply list_elem_of_In, Hc, bool_decide_eq_true, list_elem_of_fmap in Hat as (y & He & Hy).
  rewrite <- G2 in Hy. assert (y ∈ primaryMetas db) as Hy' by (rewrite G1, !elem_of_app; auto).
  pose proof Hy' as [Hy1 _]%primaryMetas_elem. pose proof (tb_minted _ Ht) as Hm. pose proof (tb_next _ Ht). rewrite list.Forall_forall in Hm.
  destruct (Hm x Hx1) as [Mx Lx], (Hm y Hy1) as [My Ly].
  assert (tm_fileId x = tm_fileId y) as Hid.
  { apply (minted_inj 1 (nextTableId (manifest_ db)) 1 (nextTableId (manifest_ db)) (tm_level x) (tm_level y)); try lia; done. }
  assert (NoDup (map tm_fileId (primaryMetas db))) as Hn.
  { assert (NoDup (map tm_fileId (List.filter isPrimary (tables (manifest_ db))))) as Hf by apply NoDup_filter_map, Ht.
    revert Hf. apply NoDup_Permutation_proper, fmap_Permutation, primaryMetas_permutation. }
  rewrite G1, !map_app in Hn. apply NoDup_app in Hn as (_ & _ & Hn). apply NoDup_app in Hn as (_ & Hn & _).
  apply (Hn (tm_fileId y)); [apply list_elem_of_fmap; by exists y|]. rewrite <- Hid. left.
Qed.

Lemma ordered_group db group F Ms O : tables_ok db -> ordered (tiers db) -> group_at db group F Ms O -> ordered (map (metaLayer db) Ms).
Proof using Type.
  intros Ht Ho [G1 _ _ _] key. specialize (Ho key). rewrite column_tiers, G1, !map_app, !column_app in Ho by done.
  apply column_sorted_app in Ho as (_ & Ho & _). apply column_sorted_app in Ho as (_ & Ho & _). by apply column_sorted_app in Ho as (Ho & _).
Qed.

Section Run.

Context (known stored : Z -> Prop) (excused : list byte -> Prop) (versions : Versions) (db db1 : SwEmbeddedDb) (fl : FlushState)
  (primaryTables : list TableMeta_) (indexTables : ByteMap.t (list TableMeta_)).

Hypothesis (Hv : versions_ok known stored excused versions db) (Hb : background db fl CompactionIdle)
  (Htask : task_ok db (CompactionTask primaryTables indexTables)) (Hdb1 : exists pool, db1 = set_backgroundPool_ pool db)
  (Hsize : zlen (concat (omap (fun it => tableAll it.2) (handlesOf db primaryTables))) < 2 ^ 31).

Lemma run_group : group_ok db1 primaryTables.
Proof using Hv Hb Htask Hdb1 Hsize.
  destruct Hdb1 as [pool ->]. split; [|exact Hsize]. destruct Htask as [(F & Ms & O & G) _]. apply list.Forall_forall. intros meta Hm.
  rewrite <- (ga_group _ _ _ _ _ G) in Hm. apply (primary_handle db meta); [apply Hb|apply Hv|by eapply group_elem].
Qed.

Lemma run_compaction newTables toRemove db' : runCompaction primaryTables indexTables db1 = (Some (newTables, toRemove), db') ->
  nextTableId (manifest_ db') < 2 ^ 63 -> zlen indexTables < 2 ^ 31 -> nextTableId (manifest_ db) < 2 ^ 62 ->
  background db' fl (CompactionReady newTables toRemove).
Proof using All.
  intros Hrun Hl Hi Hn. pose proof (bg_tables _ _ _ Hb) as Ht. pose proof (tb_next _ Ht) as Hnext.
  assert (nextTableId (manifest_ db1) = nextTableId (manifest_ db) /\ grows db db1 /\ get_blobs db1 = get_blobs db /\ tables (manifest_ db1) = tables (manifest_ db) /\
    nextSequence_ db1 = nextSequence_ db /\ handlesOf db1 primaryTables = handlesOf db primaryTables) as (D1 & D2 & D3 & D4 & D5 & D6).
  { destruct Hdb1 as [pool ->]. split; [done|]. split; [by apply same_grows|]. done. }
  pose proof (runCompaction_ok primaryTables indexTables db1 run_group ltac:(lia) ltac:(lia)) as Hr. rewrite Hrun in Hr.
  destruct Hr as (P1 & P2 & P3 & P4). destruct (P4 _ _ eq_refl) as (added & indexes & more & -> & -> & M2 & M3 & M4 & M5 & M6).
  pose proof (prepared_grows _ _ P1) as Hg1. assert (grows db db') as Hg by by etransitivity.
  assert (nextSequence_ db' = nextSequence_ db) as Eseq.
  { pose proof (pp_fixed _ _ P1) as Hf. unfold fixed in Hf. injection Hf as _ _ _ _ _ _ _ _ _ Hf _ _ _ _ _. congruence. }
  pose proof (kept_background db db' (gr_keeps _ _ Hg) (rd_tables _ (vo_readable _ _ _ _ _ Hv)) Ht fl CompactionIdle (fun mem => grows_held _ _ mem Hg) Hl Hb) as [K1 K2 K3 K4 _ _].
  assert (forall meta, meta ∈ tables (manifest_ db') -> tm_fileId meta < nextTableId (manifest_ db)) as Hold.
  { intros meta. rewrite (kp_tables _ _ (gr_keeps _ _ Hg)). by apply old_ids. }
  assert (forall it, it ∈ added ++ indexes -> nextTableId (manifest_ db) <= tm_fileId it.1) as Hnew.
  { intros it Hit. destruct M3 as [M3 _]. rewrite list.Forall_forall in M3. destruct (M3 it Hit) as [[? _] _ _]. lia. }
  split; try done.
  - destruct Htask as [(F & Ms & O & G) Hidx]. split; [apply (new_installable db' (nextTableId (manifest_ db))); auto; [lia|by rewrite <- D1]|].
    exists primaryTables, F, Ms, O, more, added, indexes. split; [by apply (kept_group db); [apply Hg|]|]. split; [done|]. split.
    { apply (kept_indexes db); [apply Hg|]. unfold indexes_of in *. rewrite list.Forall_forall in *. intros meta Hm. apply Hidx.
      eapply elem_of_sublist; [|exact M2]. done. }
    split; [done|]. split; [done|]. split; [done|]. rewrite P2, D3. split; [destruct M6 as [M6 _]; by rewrite D3 in M6|]. split.
    { intros it x Hit [Hx _]%primaryMetas_elem _. specialize (Hnew it ltac:(apply elem_of_app; by left)). specialize (Hold x Hx). lia. }
    intros key. cbv zeta. assert (top (map (metaLayer db') Ms) key = top (map (metaLayer db) Ms) key) as ->.
    { unfold top. rewrite (kept_metaLayers db db' (gr_keeps _ _ Hg) Ms); [done|done|apply Hv|intros meta; by eapply group_elem]. }
    destruct M6 as [_ M6]. destruct (M6 key) as (o & Ho & Hcase). rewrite D3, D4, D6 in *.
    assert (newest (map (metaLayer db) primaryTables) key o) as Ho'.
    { unfold newest in *. rewrite <- handles_column. exact Ho. }
    pose proof (newest_top (map (metaLayer db) Ms) (map (metaLayer db) primaryTables) key o (ordered_group _ _ _ _ _ Ht (vo_ordered _ _ _ _ _ Hv) G)
      (fmap_Permutation _ _ _ (ga_group _ _ _ _ _ G)) Ho') as ->.
    destruct Hcase as [Hcase|(Hcase & Hcov & s & ->)]; [by left|right]. split; [done|]. split; [by apply (covered_nothing_older db primaryTables F Ms)|].
    by exists s.
  - intros a b Ha Hb'. destruct fl as [| |mem|mem newTables|flushed mem]; try (by apply elem_of_nil in Ha). cbn [flushTables compactionTables] in *.
    pose proof (bg_flush _ _ _ Hb) as [_ [Hf _]]. pose proof (installable_ids _ _ _ _ Hf Ha). specialize (Hnew b Hb'). lia.
Qed.

End Run.

Lemma compact_invariant db writers applied revived fl primaryTables indexTables db1 result db' :
  takesTask (CompactionTask primaryTables indexTables) db db1 ->
  zlen (concat (omap (fun it => tableAll it.2) (handlesOf db primaryTables))) < 2 ^ 31 -> zlen indexTables < 2 ^ 31 ->
  nextTableId (manifest_ db) < 2 ^ 62 ->
  runCompaction primaryTables indexTables db1 = (result, db') -> invariant (mkSystem db writers applied revived fl CompactionIdle) ->
  invariant (match result with
             | Some (newTables, toRemove) => mkSystem db' writers applied revived fl (CompactionReady newTables toRemove)
             | None => mkSystem (set_compactionScheduled_ false db') writers applied revived fl CompactionIdle
             end).
Proof using All.
  intros (before_ & after & Ep & Edb) Hsize Hi Hn Hrun [H1 H2 H3 H4 H5 H6 [S1 S2 S3]]. cbn [sy_db sy_writers sy_applied sy_revived sy_flush sy_compaction] in *.
  rewrite Ep in S1, S2, S3. rewrite countTasks_taken in S1, S2. cbn [isFlush negb] in S1, S2. apply Forall_app in S3 as [S3 [Htask S4]%Forall_cons].
  pose proof (tb_next _ (bg_tables _ _ _ H6)) as Hnext. assert (exists pool, db1 = set_backgroundPool_ pool db) as Hdb1 by eauto.
  pose proof (run_group _ _ _ _ db db1 fl primaryTables indexTables H1 H6 Htask Hdb1 Hsize) as Hgroup.
  assert (nextTableId (manifest_ db1) = nextTableId (manifest_ db)) as D1 by by rewrite Edb.
  pose proof (runCompaction_ok primaryTables indexTables db1 Hgroup ltac:(lia) ltac:(lia)) as Hr. rewrite Hrun in Hr. destruct Hr as (P1 & P2 & P3 & _).
  assert (grows db db1) as Hg1 by (rewrite Edb; by apply same_grows). pose proof (prepared_grows _ _ P1) as Hg2.
  assert (grows db db') as Hg by by etransitivity. assert (nextTableId (manifest_ db') < 2 ^ 63) as Hl by lia.
  pose proof (pp_fixed _ _ P1) as Hf. unfold fixed in Hf. injection Hf as F1 F2 F3 F4 F5 F6 F7 F8 F9 F10 F11 F12 F13 F14 F15. subst db1.
  cbn [set_backgroundPool_ backgroundPool_ nextSequence_ flushScheduled_ compactionScheduled_] in F8, F9, F10, F11.
  assert (Forall (task_ok db') (before_ ++ after)) as Htasks.
  { apply Forall_app. split; (eapply Forall_impl; [eassumption|]); intros task; apply (kept_task db db'), Hg. }
  assert (forall co' scheduled_, (co' = CompactionIdle /\ scheduled_ = false \/ co' <> CompactionIdle /\ scheduled_ = true) ->
    background db' fl co' -> invariant (mkSystem (set_compactionScheduled_ scheduled_ db') writers applied revived fl co')) as Hdone.
  { intros co' scheduled_ Hco Hb'. set (db2 := set_compactionScheduled_ scheduled_ db'). assert (grows db' db2) as Hg' by by apply same_grows.
    assert (grows db db2) as Hg'' by by etransitivity.
    constructor; cbn [sy_db sy_writers sy_applied sy_revived sy_flush sy_compaction]; change (nextSequence_ db2) with (nextSequence_ db'); rewrite ?F10; try done.
    - by apply (grown_versions db db2 Hg'').
    - by apply (grown_memtables db).
    - refine (kept_background db' db2 (gr_keeps _ _ Hg') _ (bg_tables _ _ _ Hb') _ co' (fun mem => grows_held _ _ mem Hg') _ Hb'); [|exact Hl].
      apply (kept_readable db); [apply Hg|apply H1].
    - split; cbn [db2 set_compactionScheduled_ backgroundPool_ flushScheduled_ compactionScheduled_]; rewrite ?F11; [rewrite F8; lia| |].
      + destruct Hco as [[-> ->]|[Hco ->]]; [destruct (compactionScheduled_ db); lia|]. destruct co'; [done|destruct (compactionScheduled_ db); lia].
      + eapply Forall_impl; [exact Htasks|]. intros task. apply (kept_task db' db2), Hg'. }
  destruct result as [[newTables toRemove]|].
  - assert (db' = set_compactionScheduled_ true db') as ->.
    { assert (compactionScheduled_ db' = true) as Ec by (rewrite F9; destruct (compactionScheduled_ db); [done|lia]). clear - Ec. destruct db'. cbn in *. by subst. }
    apply Hdone; [by right|]. by eapply run_compaction.
  - apply Hdone; [by left|].
    exact (kept_background db db' (gr_keeps _ _ Hg) (rd_tables _ (vo_readable _ _ _ _ _ H1)) (bg_tables _ _ _ H6) fl CompactionIdle (fun mem => grows_held _ _ mem Hg) Hl H6).
Qed.

(** *** The merged tables take the place of their group *)

Section Replace.

Context (known stored : Z -> Prop) (excused : list byte -> Prop) (versions : Versions) (db : SwEmbeddedDb) (fl : FlushState) (newTables : list (TableMeta_ * table_handle))
  (toRemove : list TableMeta_).

Hypothesis (Hv : versions_ok known stored excused versions db) (Hb : background db fl (CompactionReady newTables toRemove)).

Let db2 := installTables newTables (removeTablesLocked_ toRemove db).

Lemma replaced : exists F Ms O added, tables_ok db2 /\ rebuilt db db2 /\ nextTableId (manifest_ db2) = nextTableId (manifest_ db) /\
  (forall meta, meta ∈ tables (manifest_ db2) -> meta ∈ tables (manifest_ db) \/ exists it, it ∈ newTables /\ meta = it.1) /\
  primaryMetas db = F ++ Ms ++ O /\ primaryMetas db2 = F ++ map fst added ++ O /\
  (forall meta, meta ∈ F ++ O -> ByteMap.find (tm_fileName meta) (tableHandles_ db2) = ByteMap.find (tm_fileName meta) (tableHandles_ db)) /\
  (forall it, it ∈ added -> ByteMap.find (tm_fileName it.1) (tableHandles_ db2) = Some it.2 /\ table_ok (get_blobs db) it.2 /\ tm_level it.1 = 1) /\
  (added = [] \/ exists it, added = [it]) /\
  forall key, let old := top (map (metaLayer db) Ms) key in let new := top (map (tableLayer (get_blobs db)) (map snd added)) key in
    new = old \/ new = None /\ O = [] /\ exists s, old = Some (s, None).
Proof using Hb.
  destruct Hb as [K1 _ _ _ [N1 (group & F & Ms & O & more & added & indexes & G & -> & N3 & N4 & N5 & N6 & N7 & N8 & N9)] _].
  destruct (removeTablesLocked_ok (group ++ more) db K1) as (R1 & R2 & R3 & R4). set (db1 := removeTablesLocked_ (group ++ more) db) in *.
  pose proof (primaryMetas_remove db F Ms O group more K1 (ga_metas _ _ _ _ _ G) (ga_group _ _ _ _ _ G) N3 db1 R3) as Hp1.
  assert (forall meta, meta ∈ tables (manifest_ db1) -> meta ∈ tables (manifest_ db)) as Hsub.
  { intros meta. rewrite R3. cbn [set_tables tables]. intros [H _]%list_elem_of_In%List.filter_In. by apply list_elem_of_In. }
  assert (nextTableId (manifest_ db1) = nextTableId (manifest_ db)) as En by by rewrite R3.
  assert (installable db1 1 newTables) as Hi.
  { destruct N1 as [M1 M2 M3]. split; [done|by rewrite En|]. intros it meta Hit Hm. apply M3; [done|by apply Hsub]. }
  destruct (installTables_ok db1 1 newTables R2 Hi) as (I1 & I2 & I3 & I4 & I5). fold db2 in I1, I2, I3, I4, I5.
  assert (forall it, it ∈ added -> it ∈ newTables /\ tm_level it.1 = 1) as Hin.
  { intros it Hit. assert (it ∈ newTables) as Hn by (rewrite N4; apply elem_of_app; by left). split; [done|].
    destruct N1 as [_ [N1 _] _]. rewrite list.Forall_forall in N1. by destruct (N1 it Hn). }
  exists F, Ms, O, added. split; [done|]. split; [by etransitivity|]. split; [rewrite I3; exact En|]. split.
  { intros meta. rewrite I3. cbn [addTables tables]. intros [Hm|Hm]%elem_of_app; [left; by apply Hsub|right].
    apply list_elem_of_fmap in Hm as (it & -> & Hit). by exists it. }
  split; [apply G|]. split; [|split; [|split; [|split; [|done]]]].
  - apply (primaryMetas_install db1 1 added indexes F O); try done.
    + rewrite <- N4. pose proof (tb_ids _ I2) as Hn. rewrite I3 in Hn. exact Hn.
    + destruct N7 as [->|(meta & h & -> & _)]; [by left|right; by exists (meta, h)].
    + intros it x Hit Hx. destruct (Hin it Hit) as [_ ->]. pose proof (ga_newer _ _ _ _ _ G) as Hf. rewrite list.Forall_forall in Hf. rewrite (Hf x Hx). lia.
    + intros it x Hit Hx. destruct (Hin it Hit) as [_ Hl]. split; [done|]. pose proof (ga_older _ _ _ _ _ G) as Hf. rewrite list.Forall_forall in Hf.
      specialize (Hf x Hx). left. split; [done|]. apply N8; [done| |done]. rewrite (ga_metas _ _ _ _ _ G), !elem_of_app. auto.
    + by rewrite I3, N4.
  - intros meta Hm. rewrite <- Hp1 in Hm. apply primaryMetas_elem in Hm as [Hm _]. rewrite I4 by done. by apply R4.
  - intros it Hit. destruct (Hin it Hit) as [H1 H2]. split; [by apply I5|]. split; [|done].
    destruct N7 as [->|(meta & h & -> & Hok)]; [by apply elem_of_nil in Hit|]. by apply list_elem_of_singleton in Hit as ->.
  - destruct N7 as [->|(meta & h & -> & _)]; [by left|right; by exists (meta, h)].
Qed.

Lemma replaced_columns : exists F Ms O N, (forall key, column (tableLayers db) key = column (F ++ Ms ++ O) key) /\
  (forall key, column (tableLayers db2) key = column (F ++ N ++ O) key) /\
  (forall key, column N key = [] \/ exists v, column N key = [v]) /\
  (forall key, let old := top Ms key in let new := top N key in new = old \/ new = None /\ O = [] /\ exists s, old = Some (s, None)).
Proof using Hv Hb.
  destruct replaced as (F & Ms & O & added & I1 & I2 & _ & _ & I4 & I5 & I6 & I7 & I8 & I9). pose proof (bg_tables _ _ _ Hb) as Ht.
  assert (get_blobs db2 = get_blobs db) as Eb by (unfold get_blobs; by rewrite (rb_files _ _ I2)).
  exists (map (metaLayer db) F), (map (metaLayer db) Ms), (map (metaLayer db) O), (map (tableLayer (get_blobs db)) (map snd added)).
  split; [intros key; by rewrite (tableLayers_metas db), I4, !map_app by done|].
  assert (forall metas key, (forall meta, meta ∈ metas -> meta ∈ F ++ O) -> column (map (metaLayer db2) metas) key = column (map (metaLayer db) metas) key) as Hsame.
  { induction metas as [|meta metas IH]; intros key Hm; [done|]. cbn [map]. rewrite !column_cons, IH by (intros m Hin; apply Hm; by right).
    assert (metaLayer db2 meta key = metaLayer db meta key) as ->; [|done]. unfold metaLayer. rewrite Eb, I6; [done|]. apply Hm. left. }
  split; [|split].
  - intros key. rewrite (tableLayers_metas db2), I5, !map_app, !column_app by done. rewrite (Hsame F), (Hsame O).
    + f_equal. f_equal. clear - I7 Eb. induction added as [|it added IH]; [done|]. cbn [map]. rewrite !column_cons, IH by (intros it' Hin; apply I7; by right).
      destruct (I7 it) as [F1 _]; [left|]. unfold metaLayer at 1. by rewrite F1, Eb.
    + intros meta Hm. apply elem_of_app. by right.
    + intros meta Hm. apply elem_of_app. by left.
  - intros key. destruct I8 as [->|[it ->]]; [by left|]. cbn [map]. rewrite column_cons. destruct (tableLayer _ _ _) as [v|]; [right; by exists v|by left].
  - intros key. destruct (I9 key) as [?|(? & -> & ?)]; [by left|right]. done.
Qed.

(** A key keeps its version in the tables, or loses a tombstone. *)
Lemma replaced_top key : agree (top (tableLayers db) key) (top (tableLayers db2) key).
Proof using Hv Hb.
  destruct replaced_columns as (F & Ms & O & N & C1 & C2 & _ & C4). unfold top. rewrite C1, C2. fold (top (F ++ Ms ++ O) key) (top (F ++ N ++ O) key).
  rewrite !top_app. destruct (top F key); [by left|]. destruct (C4 key) as [->|(-> & -> & s & ->)]; [by left|]. right. split; [done|]. by exists s.
Qed.

Lemma replace_versions : versions_ok known stored excused versions db2.
Proof using Hv Hb.
  destruct replaced as (F0 & Ms0 & O0 & added & I1 & I2 & _ & _ & I4 & I5 & I6 & I7 & _). pose proof (bg_tables _ _ _ Hb) as Ht.
  destruct replaced_columns as (F & Ms & O & N & C1 & C2 & C3 & C4).
  assert (get_blobs db2 = get_blobs db) as Eb by (unfold get_blobs; by rewrite (rb_files _ _ I2)).
  assert (memLayers db2 = memLayers db) as Hmem by (unfold memLayers; by rewrite (rb_mutable _ _ I2), (rb_immutables _ _ I2)).
  assert (forall key v, v ∈ column N key -> column N key = [v] /\ top Ms key = Some v) as HN.
  { intros key v Hin. destruct (C3 key) as [Hn|(w & Hw)]; [rewrite Hn in Hin; by apply elem_of_nil in Hin|]. rewrite Hw in *. apply list_elem_of_singleton in Hin as ->.
    split; [done|]. assert (top N key = Some w) as Ht' by (unfold top; by rewrite Hw). destruct (C4 key) as [He|(He & _)]; congruence. }
  apply (tables_changed known stored excused versions db); [done|done| | | |].
  - apply cached_ok; [done|]. intros meta Hm. rewrite I5, app_assoc, (Permutation_app_comm F0), <- app_assoc, elem_of_app in Hm. rewrite Eb. destruct Hm as [Hm|Hm].
    + apply list_elem_of_fmap in Hm as (it & -> & Hit). destruct (I7 it Hit) as (? & ? & _). by exists it.2.
    + rewrite I6 by done. apply (primary_handle db meta Ht (rd_tables _ (vo_readable _ _ _ _ _ Hv))). rewrite I4. rewrite !elem_of_app in *. tauto.
  - assert (ordered ((memLayers db ++ F) ++ N ++ O)) as Ho.
    { apply (ordered_merge (memLayers db ++ F) Ms); [exact HN|]. intros key. pose proof (vo_ordered _ _ _ _ _ Hv key) as Ho. unfold tiers in Ho.
      rewrite column_app, C1 in Ho. by rewrite <- app_assoc, column_app. }
    intros key. specialize (Ho key). rewrite <- app_assoc, column_app in Ho. unfold tiers. by rewrite column_app, Hmem, C2.
  - intros key v. rewrite C2, !column_app, !elem_of_app. unfold lower. rewrite column_app, elem_of_app, C1, !column_app, !elem_of_app.
    intros [Hin|[Hin|Hin]]; [tauto| |tauto]. destruct (HN key v Hin) as [_ Ht']. apply top_elem in Ht'. tauto.
  - intros key. unfold tiers. rewrite Hmem, !top_app. destruct (top (memLayers db) key); [by left|apply replaced_top].
Qed.

Lemma replace_background : background db2 fl CompactionIdle.
Proof using Hv Hb.
  pose proof replaced_top as Htop.
  destruct replaced as (F & Ms & O & added & I1 & I2 & I3 & I3' & I4 & I5 & I6 & I7 & _). pose proof Hb as [K1 K2 K3 K4 K5 K6].
  assert (get_blobs db2 = get_blobs db) as Eb by (unfold get_blobs; by rewrite (rb_files _ _ I2)).
  pose proof (rb_flags _ _ I2) as Hf. injection Hf as F1 F2 F3 F4 F5 F6.
  assert (forall mem, held db mem -> held db2 mem) as Hh by (intros mem; apply same_immutables_held, I2).
  split; try done.
  - unfold fresh_blobs. by rewrite Eb, I3.
  - congruence.
  - destruct fl as [| |mem|mem newTables'|flushed mem] eqn:Efl; cbn in K4 |- *; try done.
    + by apply Hh.
    + destruct K4 as [K4 [L1 (added' & indexes & L2 & L3 & L4 & L5 & L6)]]. split; [by apply Hh|]. split.
      * destruct L1 as [M1 M2 M3]. split; [done|by rewrite I3|]. intros it meta Hit Hm. destruct (I3' meta Hm) as [Hm'|(it' & Hit' & ->)]; [by apply M3|by apply (K6 it it')].
      * exists added', indexes. split; [done|]. split; [done|]. split; [done|]. split.
        { destruct L5 as [L5|(meta & h & L5 & [L7 L8])]; [by left|right]. exists meta, h. split; [done|]. split; by rewrite Eb. }
        intros it x Hit Hx Hl. apply L6; [done| |done]. rewrite I4. rewrite I5, !elem_of_app in Hx. rewrite !elem_of_app.
        destruct Hx as [Hx|[Hx|Hx]]; [tauto| |tauto]. apply list_elem_of_fmap in Hx as (it' & -> & Hit'). destruct (I7 it' Hit') as (_ & _ & Hl'). lia.
    + destruct K4 as [K4 Hd]. split; [by apply Hh|]. intros Hfl key v Hk. eapply agree_trans; [by apply Hd|].
      apply Htop.
  - by intros a b _ ?%elem_of_nil.
Qed.

End Replace.

Lemma compaction_ends db writers applied revived fl co : co <> CompactionIdle -> invariant (mkSystem db writers applied revived fl co) ->
  invariant (mkSystem (set_compactionScheduled_ false db) writers applied revived fl CompactionIdle).
Proof using Type.
  intros Hco [H1 H2 H3 H4 H5 H6 H7]. cbn [sy_db sy_writers sy_applied sy_revived sy_flush sy_compaction] in *.
  set (db' := set_compactionScheduled_ false db). assert (grows db db') as Hg by by apply same_grows.
  constructor; cbn [sy_db sy_writers sy_applied sy_revived sy_flush sy_compaction]; try done.
  - by apply (grown_versions db db' Hg).
  - assert (background db' fl co) as [K1 K2 K3 K4 K5 K6].
    { refine (kept_background db db' (gr_keeps _ _ Hg) (rd_tables _ (vo_readable _ _ _ _ _ H1)) (bg_tables _ _ _ H6) _ co (fun mem => grows_held _ _ mem Hg) _ H6).
      apply (tb_next _ (bg_tables _ _ _ H6)). }
    split; try done. by intros a b _ ?%elem_of_nil.
  - destruct H7 as [S1 S2 S3]. split; cbn [db' set_compactionScheduled_ backgroundPool_ flushScheduled_ compactionScheduled_]; [done| |].
    + destruct co, (compactionScheduled_ db); try done; lia.
    + eapply Forall_impl; [exact S3|]. intros task. apply (kept_task db db'), Hg.
Qed.

Lemma compacted_invariant db writers applied revived fl newTables toRemove persisted :
  invariant (mkSystem db writers applied revived fl (CompactionReady newTables toRemove)) ->
  invariant (mkSystem (finishCompaction persisted newTables toRemove db) writers applied revived fl CompactionIdle).
Proof using Type.
  intros Hinv. pose proof Hinv as [H1 H2 H3 H4 H5 H6 [S1 S2 S3]]. cbn [sy_db sy_writers sy_applied sy_revived sy_flush sy_compaction] in *.
  unfold finishCompaction. rewrite (bg_open _ _ _ H6). cbv zeta.
  pose proof (replace_versions _ _ _ _ db fl newTables toRemove H1 H6) as V. pose proof (replace_background _ _ _ _ db fl newTables toRemove H1 H6) as B.
  destruct (replaced db fl newTables toRemove H6) as (F & Ms & O & added & _ & Hr & Hn & _).
  set (db2 := installTables newTables (removeTablesLocked_ toRemove db)) in *. pose proof (rb_flags _ _ Hr) as Hf. injection Hf as F1 F2 F3 F4 F5 F6.
  destruct persisted; cbn [persistManifestLocked].
  - assert (compactionScheduled_ db = true /\ countTasks (fun task => negb (isFlush task)) (backgroundPool_ db) = 0%nat) as [Ec Ec'].
    { destruct (compactionScheduled_ db); split; done || lia. }
    assert (Forall isFlush (backgroundPool_ db)) as Hpool.
    { clear - Ec'. induction (backgroundPool_ db) as [|task pool IH]; [constructor|]. unfold countTasks in Ec'. cbn [List.filter] in Ec'.
      destruct (isFlush task) eqn:Ef; [|done]. constructor; [by rewrite Ef|]. by apply IH. }
    match goal with |- context [compactL0Locked ?d] => set (db3 := d) end.
    assert (invariant (mkSystem db3 writers applied revived fl CompactionIdle)) as Hinv3.
    { assert (grows db2 db3) as Hg by by apply same_grows. change (nextSequence_ db3) with (nextSequence_ db2).
      constructor; cbn [sy_db sy_writers sy_applied sy_revived sy_flush sy_compaction]; change (nextSequence_ db3) with (nextSequence_ db2); rewrite ?F4; try done.
      - by apply (grown_versions db2 db3 Hg).
      - change (memtables_ok db2). unfold memtables_ok. by rewrite (rb_mutable _ _ Hr), (rb_immutables _ _ Hr).
      - refine (kept_background db2 db3 (gr_keeps _ _ Hg) (rd_tables _ (vo_readable _ _ _ _ _ V)) (bg_tables _ _ _ B) _ _ (fun mem => grows_held _ _ mem Hg) _ B).
        apply (tb_next _ (bg_tables _ _ _ B)).
      - split; cbn [db3 set_compactionScheduled_ set_manifest_ set_files backgroundPool_ flushScheduled_ compactionScheduled_]; rewrite ?F2, ?F5; [done|by rewrite Ec'|].
        eapply Forall_impl; [exact Hpool|]. by intros []. }
    apply compactL0_invariant in Hinv3. set (db4 := compactL0Locked db3) in *.
    pose proof (proj2 (tb_next _ (bg_tables _ _ _ (iv_background _ Hinv3)))) as Hl4. apply (grows_invariant db4); try done.
  - destruct (restored_grows db db2 (bg_tables _ _ _ H6) Hr) as (G1 & G2 & G3 & G4). apply (compaction_ends _ _ _ _ _ (CompactionReady newTables toRemove)); [done|].
    apply (grows_invariant db); try done. rewrite G4. apply (tb_next _ (bg_tables _ _ _ H6)).
Qed.

(** ** Every history *)

Lemma system_step_invariant sys sys' : step sys sys' -> invariant sys -> invariant sys'.
Proof using All.
  destruct 1; intros Hinv.
  - by eapply take_invariant.
  - by apply apply_invariant.
  - by eapply commit_invariant.
  - by eapply snapshot_invariant.
  - by eapply flush_start_invariant.
  - by eapply flush_take_invariant.
  - by eapply flush_prepare_invariant.
  - by eapply flush_install_invariant.
  - by apply flush_drop_invariant.
  - by eapply compact_invariant.
  - by apply compacted_invariant.
Qed.

Lemma initial_invariant options : invariant (initial options).
Proof using Type.
  assert (MemTable.ok MemTable.empty) as Hm by apply MemTable.memTable_empty_ok.
  assert (tables_ok (sy_db (initial options))) as Ht by (constructor; try done; constructor).
  constructor; cbn; try done.
  - constructor; try done; [constructor; try done; constructor|intros key; constructor|by intros key v ?%elem_of_nil|by left].
  - by constructor.
  - constructor.
  - split; try done. by intros a b ?%elem_of_nil.
Qed.

Inductive history : System -> Prop :=
| history_initial options : history (initial options)
| history_step sys sys' : history sys -> step sys sys' -> history sys'.

Lemma history_invariant sys : history sys -> invariant sys.
Proof using All. induction 1 as [options|sys sys' _ IH Hs]; [apply initial_invariant|by eapply system_step_invariant]. Qed.

(** What a read of the table of all batches applied so far, in the order of their
    numbers, answers. *)
Definition tableAnswer (applied : list (Z * SwDbWriteBatch.t)) (key : list byte) : SwDbStatus.t * option (list byte * SecondaryKeys) :=
  match ByteMap.find key (tableAt applied) with
  | Some c => (SwDbStatus.success, Some (c_value c, c_secondaryKeys c))
  | None => (SwDbStatus.mk SwDbStatus.NotFound "primary key not found", None)
  end.

(** C6: The store refines a table.  However requests, the write service, snapshots,
    flushes and compactions interleave, and whether or not they fail to write the
    manifest, a read answers what the table of all batches applied so far holds under
    the key - where the batches take effect in the order of their sequence numbers, not
    in the order they were applied in.  Except for the keys that came back: those that a
    batch wrote after a newer batch had erased them and a compaction had dropped the
    tombstone, which it does although requests with older numbers are under way.
    Batches are made by put and erase and their operations have under 256 MiB; a
    request takes a number below 2^64 - 1, tables have numbers below 2^62, and
    memtables and the tables merged at once have under 2^31 records. *)
Theorem store_reads_latest sys key : history sys -> key ∉ sy_revived sys ->
  get (sy_db sys) key = tableAnswer (sy_applied sys) key.
Proof using All.
  intros H%history_invariant Hk. pose proof (iv_versions _ H) as Hv. rewrite (get_top _ _ (vo_readable _ _ _ _ _ Hv)).
  assert (NoDup (map fst (sy_applied sys))) as Hn by (pose proof (iv_distinct _ H) as Hd; by apply NoDup_app in Hd as (_ & _ & Hd)).
  unfold tableAnswer. rewrite <- live_versions, find_live by (try done; apply wf_versionsOf).
  destruct (vo_agree _ _ _ _ _ Hv key Hk) as [->|(-> & s & ->)]; [|done]. destruct (ByteMap.find key _) as [[s [c|]]|]; done.
Qed.

End Spec.

(** *** An example *)

Section Examples.

#[local] Existing Instance SwCrypto.addingEVP.
#[local] Instance exampleMiniz : Miniz := {| mz_crc32 := fun data => fold_left (fun crc b => wrap32 (crc * 31 + b2z b)) data 7 |}.

Definition early : SwDbWriteBatch.t :=
  SwDbWriteBatch.put (str "bob") (str "value of bob") [] (SwDbWriteBatch.put (str "ann") (str "first") [] SwDbWriteBatch.empty).

Definition late : SwDbWriteBatch.t := SwDbWriteBatch.put (str "ann") (str "second of ann") [] SwDbWriteBatch.empty.

(** Two requests are applied in the reverse order, each fills a memtable, and the
    first memtable is flushed, its values going to a blob file. *)
Definition taken1 : SwEmbeddedDb := (takeSequence (sy_db (initial (mkOptions 1 4)))).2.
Definition taken2 : SwEmbeddedDb := (takeSequence taken1).2.
Definition applied2 : SwEmbeddedDb := submitApply 2 late [] taken2.
Definition applied1 : SwEmbeddedDb := submitApply 1 early [] applied2.
Definition flushing : SwEmbeddedDb := set_backgroundPool_ [] applied1.
Definition flushedMem : MemTable_ := default MemTable.empty (head (immutables_ flushing)).
Definition flushedTables : list (TableMeta_ * table_handle) :=
  match (prepareFlush flushedMem 0 flushing).1 with Ok newTables => newTables | _ => [] end.
Definition written1 : SwEmbeddedDb := (prepareFlush flushedMem 0 flushing).2.
Definition installed1 : SwEmbeddedDb := (installFlush true flushedMem flushedTables written1).2.
Definition demo : System :=
  mkSystem (dropImmutable true flushedMem installed1) [] [(2, late); (1, early)] [] FlushRound CompactionIdle.

Lemma demo_good key value : zlen key + zlen value < 2 ^ 27 -> op_good (SwDbWriteBatch.putOperation key value []).
Proof.
  intros H. apply good_put.
  - split; [constructor|]. split; [done|constructor].
  - change (zlen (secondaryBytes [])) with 4. lia.
Qed.

Lemma early_good : batch_good early.
Proof. repeat constructor; by apply demo_good. Qed.

Lemma late_good : batch_good late.
Proof. repeat constructor; by apply demo_good. Qed.

Lemma take_some db mem : closing_ db = false -> head (immutables_ db) = Some mem -> takeImmutable db = (Some mem, db).
Proof. unfold takeImmutable. intros -> H. destruct (immutables_ db); [done|]. by injection H as ->. Qed.

Lemma result_ok {A} (r : result (list A)) : is_ok r = true -> r = Ok (match r with Ok x => x | _ => [] end).
Proof. by destruct r. Qed.

(** A step whose database is the one the operation gives. *)
Ltac step_by S d := eapply history_step; [|S; (etransitivity; [apply surjective_pairing|apply f_equal2; [vm_compute; reflexivity|unfold d; reflexivity]])].

Lemma demo_history : history demo.
Proof.
  eapply history_step; [|exact (step_flush_drop installed1 [] [(2, late); (1, early)] [] CompactionIdle true flushedMem)].
  step_by ltac:(refine (step_flush_install written1 _ _ _ _ flushedMem flushedTables true true _ _)) installed1.
  eapply history_step.
  2: { refine (step_flush_prepare flushing _ _ _ _ flushedMem (Ok flushedTables) written1 _ _ _ _); [vm_compute; reflexivity..|].
       etransitivity; [apply surjective_pairing|apply f_equal2; [|unfold written1; reflexivity]]. unfold flushedTables. apply result_ok. vm_compute. reflexivity. }
  eapply history_step; [|refine (step_flush_take flushing _ _ _ _ (Some flushedMem) _ _); apply take_some; vm_compute; reflexivity].
  eapply history_step; [|apply (step_flush_start applied1); exists [], []; split; [vm_compute; reflexivity|unfold flushing; reflexivity]].
  eapply history_step; [|unfold applied1; exact (step_apply applied2 [] 1 [] [(2, late)] [] _ _ early [] early_good)].
  eapply history_step; [|unfold applied2; exact (step_apply taken2 [] 2 [1] [] [] _ _ late [] late_good)].
  step_by ltac:(refine (step_take taken1 [1] [] [] _ _ 2 taken2 _ _); [done|]) taken2.
  step_by ltac:(refine (step_take (sy_db (initial (mkOptions 1 4))) [] [] [] _ _ 1 taken1 _ _); [done|]) taken1.
  exact (history_initial (mkOptions 1 4)).
Qed.

Example demo_answers :
  (get (sy_db demo) (str "ann"), get (sy_db demo) (str "bob")) =
  ((SwDbStatus.success, Some (str "second of ann", [])), (SwDbStatus.success, Some (str "value of bob", []))).
Proof. vm_compute. reflexivity. Qed.

Lemma store_reads_latest_witness : history demo /\ str "ann" ∉ sy_revived demo /\
  get (sy_db demo) (str "ann") = tableAnswer (sy_applied demo) (str "ann").
Proof.
  assert (str "ann" ∉ sy_revived demo) as Hk by apply not_elem_of_nil.
  split; [exact demo_history|]. split; [exact Hk|exact (store_reads_latest demo (str "ann") demo_history Hk)].
Defined.


(** A compaction may lose an erase.  Five requests have their numbers, the first is the
    last to be applied; the second erases the key that the first puts.  When the four
    tables are merged, no older table is left, and the tombstone is dropped. *)

(** One round of the flush task that finds a memtable and writes the manifest. *)
Definition flushRound (db : SwEmbeddedDb) : SwEmbeddedDb :=
  match takeImmutable db with
  | (None, db) => db
  | (Some mem, db) =>
      match prepareFlush mem 0 db with
      | (Ok newTables, db) => let '(flushed, db) := installFlush true mem newTables db in dropImmutable flushed mem db
      | (_, db) => dropImmutable false mem db
      end
  end.

Definition flushable (db : SwEmbeddedDb) : bool :=
  match takeImmutable db with
  | (None, _) => false
  | (Some mem, db) =>
      (zlen (mt_primary mem) <? 2 ^ 31) && (zlen (secondary mem) <? 2 ^ 31) && (nextTableId (manifest_ db) <? 2 ^ 62) &&
      match prepareFlush mem 0 db with
      | (Ok newTables, db) => (installFlush true mem newTables db).1
      | _ => false
      end
  end.

Lemma flushRound_history db writers applied revived co : history (mkSystem db writers applied revived FlushRound co) ->
  flushable db = true -> history (mkSystem (flushRound db) writers applied revived FlushRound co).
Proof.
  intros H. unfold flushable, flushRound. destruct (takeImmutable db) as [[mem|] db1] eqn:E1; [|done].
  intros [[[L1%Z.ltb_lt L2%Z.ltb_lt]%andb_true_iff L3%Z.ltb_lt]%andb_true_iff Hf]%andb_true_iff.
  destruct (prepareFlush mem 0 db1) as [[newTables| |] db2] eqn:E2; [|done..].
  destruct (installFlush true mem newTables db2) as [flushed db3] eqn:E3. cbn [fst] in Hf. subst flushed.
  eapply history_step; [|exact (step_flush_drop db3 writers applied revived co true mem)].
  eapply history_step; [|exact (step_flush_install db2 writers applied revived co mem newTables true true db3 E3)].
  eapply history_step; [|exact (step_flush_prepare db1 writers applied revived co mem (Ok newTables) db2 L1 L2 L3 E2)].
  eapply history_step; [exact H|exact (step_flush_take db writers applied revived co (Some mem) db1 E1)].
Qed.

Definition erasing : SwDbWriteBatch.t := SwDbWriteBatch.erase (str "ann") SwDbWriteBatch.empty.

Definition take (db : SwEmbeddedDb) : SwEmbeddedDb := (takeSequence db).2.

Definition another : SwDbWriteBatch.t := SwDbWriteBatch.put (str "bob") (str "value of bob") [] SwDbWriteBatch.empty.

Lemma erasing_good : batch_good erasing.
Proof. repeat constructor. Qed.

Lemma another_good : batch_good another.
Proof. repeat constructor; by apply demo_good. Qed.

Lemma take_history db writers applied revived fl co : history (mkSystem db writers applied revived fl co) ->
  nextSequence_ db < 2 ^ 64 - 1 -> history (mkSystem (take db) (nextSequence_ db :: writers) applied revived fl co).
Proof. intros H Hn. eapply history_step; [exact H|]. by apply step_take. Qed.

Definition numbered5 : SwEmbeddedDb := Nat.iter 5 take (sy_db (initial (mkOptions 1 4))).

Definition applied5 : SwEmbeddedDb :=
  submitApply 5 another [] (submitApply 4 another [] (submitApply 3 another [] (submitApply 2 erasing [] numbered5))).

Definition batches5 : list (Z * SwDbWriteBatch.t) := [(2, erasing); (3, another); (4, another); (5, another)].

Definition flushed4 : SwEmbeddedDb := Nat.iter 4 flushRound (set_backgroundPool_ [] applied5).

Definition compacting : list TableMeta_ * ByteMap.t (list TableMeta_) :=
  match backgroundPool_ flushed4 with CompactionTask primaryTables indexTables :: _ => (primaryTables, indexTables) | _ => ([], []) end.

Definition merged : option (list (TableMeta_ * table_handle) * list TableMeta_) * SwEmbeddedDb :=
  runCompaction compacting.1 compacting.2 (set_backgroundPool_ [] flushed4).

Definition compacted : SwEmbeddedDb :=
  match merged.1 with
  | Some (newTables, toRemove) => finishCompaction true newTables toRemove merged.2
  | None => merged.2
  end.

Definition revival : System :=
  mkSystem (submitApply 1 late [] compacted) [] (batches5 ++ [(1, late)]) [str "ann"] FlushRound CompactionIdle.

Lemma apply_history before_ s after db applied revived fl co batch late_ : history (mkSystem db (before_ ++ s :: after) applied revived fl co) ->
  batch_good batch -> lateKeys db applied s batch = late_ ->
  history (mkSystem (submitApply s batch [] db) (before_ ++ after) (applied ++ [(s, batch)]) (revived ++ late_) fl co).
Proof. intros H Hb <-. eapply history_step; [exact H|by apply step_apply]. Qed.

Lemma applied5_history : history (mkSystem applied5 [1] batches5 [] FlushIdle CompactionIdle).
Proof.
  refine (apply_history [] 5 [1] _ [(2, erasing); (3, another); (4, another)] [] _ _ another [] _ another_good _); [|vm_compute; reflexivity].
  refine (apply_history [5] 4 [1] _ [(2, erasing); (3, another)] [] _ _ another [] _ another_good _); [|vm_compute; reflexivity].
  refine (apply_history [5; 4] 3 [1] _ [(2, erasing)] [] _ _ another [] _ another_good _); [|vm_compute; reflexivity].
  refine (apply_history [5; 4; 3] 2 [1] numbered5 [] [] _ _ erasing [] _ erasing_good _); [|vm_compute; reflexivity].
  refine (take_history _ [4; 3; 2; 1] _ _ _ _ _ _); [|vm_compute; reflexivity]. refine (take_history _ [3; 2; 1] _ _ _ _ _ _); [|vm_compute; reflexivity].
  refine (take_history _ [2; 1] _ _ _ _ _ _); [|vm_compute; reflexivity]. refine (take_history _ [1] _ _ _ _ _ _); [|vm_compute; reflexivity].
  refine (take_history _ [] _ _ _ _ _ _); [|vm_compute; reflexivity]. exact (history_initial (mkOptions 1 4)).
Qed.

Lemma flushed4_history : history (mkSystem flushed4 [1] batches5 [] FlushRound CompactionIdle).
Proof.
  unfold flushed4. cbn [Nat.iter nat_rect]. do 4 (apply flushRound_history; [|vm_compute; reflexivity]).
  eapply history_step; [exact applied5_history|]. apply step_flush_start. exists [], []. split; [vm_compute; reflexivity|done].
Qed.

Lemma compacted_history : history (mkSystem compacted [1] batches5 [] FlushRound CompactionIdle).
Proof.
  unfold compacted. destruct merged.1 as [[newTables toRemove]|] eqn:Em; [|vm_compute in Em; discriminate].
  eapply history_step; [|apply step_compacted].
  eapply history_step; [exact flushed4_history|].
  refine (step_compact flushed4 _ _ _ _ compacting.1 compacting.2 (set_backgroundPool_ [] flushed4) (Some (newTables, toRemove)) merged.2 _ _ _ _ _).
  - exists [], []. split; [vm_compute; reflexivity|done].
  - vm_compute. reflexivity.
  - vm_compute. reflexivity.
  - vm_compute. reflexivity.
  - rewrite <- Em. unfold merged. apply surjective_pairing.
Qed.

Lemma revival_history : history revival.
Proof.
  refine (apply_history [] 1 [] compacted batches5 [] FlushRound CompactionIdle late [str "ann"] compacted_history late_good _).
  vm_compute. reflexivity.
Qed.

(** The erased key is back, with the value of the older request. *)
Example erase_lost : history revival /\ sy_applied revival = [(2, erasing); (3, another); (4, another); (5, another); (1, late)] /\
  get (sy_db revival) (str "ann") = (SwDbStatus.success, Some (str "second of ann", [])) /\
  tableAnswer (sy_applied revival) (str "ann") = (SwDbStatus.mk SwDbStatus.NotFound "primary key not found", None) /\
  sy_revived revival = [str "ann"].
Proof. split; [exact revival_history|]. repeat split; vm_compute; reflexivity. Qed.

End Examples.

End DbStoreSpec.
