(* ===== verification/HttpTypes.v ===== *)
(** The data model and the helpers of the HTTP/1.1 layer: SwHttpTypes.h and the
    header-parameter functions of SwHttpMultipart.h, under src/src/core/io/http. *)
From Stdlib Require Import ZArith Lia Strings.Byte.
From stdpp Require Import base list strings numbers gmap.
From S2P Require Import Prelude SwString.

Module SwHttpTypes.

Import SwString.

(** [SwMap<SwString, SwString>]. *)
Abbreviation StringMap := (gmap (list byte) (list byte)).

Record SwHttpLimits := mkLimits {
  maxRequestLineBytes : Z;
  maxHeaderBytes : Z;
  maxHeaderCount : Z;
  maxBodyBytes : Z;
  maxChunkSize : Z;
  maxPipelinedRequests : Z;
  maxPendingRequestBytes : Z;
  maxPendingRequestBytesGlobal : Z;
  maxConnections : Z;
  maxInFlightRequests : Z;
  maxThreadPoolQueuedDispatches : Z;
  maxMultipartParts : Z;
  maxMultipartPartHeadersBytes : Z;
  maxMultipartFieldBytes : Z;
  enableMultipartFileStreaming : bool;
  multipartTempDirectory : list byte
}.

(** The defaults. *)
Definition defaultLimits : SwHttpLimits :=
  mkLimits (8 * 1024) (32 * 1024) 100 (8 * 1024 * 1024) (2 * 1024 * 1024) 16 (16 * 1024 * 1024)
    (256 * 1024 * 1024) 4096 1024 1024 256 (16 * 1024) (2 * 1024 * 1024) true (str "http_multipart_tmp").

Definition set_maxRequestLineBytes (v : Z) (l : SwHttpLimits) : SwHttpLimits :=
  mkLimits v (maxHeaderBytes l) (maxHeaderCount l) (maxBodyBytes l) (maxChunkSize l)
     (maxPipelinedRequests l) (maxPendingRequestBytes l) (maxPendingRequestBytesGlobal l)
     (maxConnections l) (maxInFlightRequests l) (maxThreadPoolQueuedDispatches l)
     (maxMultipartParts l) (maxMultipartPartHeadersBytes l) (maxMultipartFieldBytes l)
     (enableMultipartFileStreaming l) (multipartTempDirectory l).

Record MultipartPart := mkPart {
  part_headers : StringMap;
  part_name : list byte;
  part_fileName : list byte;
  part_contentType : list byte;
  part_data : list byte;
  part_tempFilePath : list byte;
  part_sizeBytes : Z;
  part_storedOnDisk : bool;
  part_isFile : bool
}.

Record SwHttpRequest := mkRequest {
  method : list byte;
  target : list byte;
  path : list byte;
  queryString : list byte;
  protocol : list byte;
  headers : StringMap;
  queryParams : StringMap;
  pathParams : StringMap;
  body : list byte;
  keepAlive : bool;
  isChunkedBody : bool;
  isMultipartFormData : bool;
  isTls : bool;
  localPort : Z;
  peerAddress : list byte;
  peerPort : Z;
  multipartParts : list MultipartPart;
  formFields : StringMap
}.

Definition emptyRequest : SwHttpRequest :=
  mkRequest [] [] [] [] [] ∅ ∅ ∅ [] true false false false 0 [] 0 [] ∅.

Definition set_method (v : list byte) (r : SwHttpRequest) : SwHttpRequest :=
  mkRequest v (target r) (path r) (queryString r) (protocol r) (headers r) (queryParams r)
     (pathParams r) (body r) (keepAlive r) (isChunkedBody r) (isMultipartFormData r) (isTls r)
     (localPort r) (peerAddress r) (peerPort r) (multipartParts r) (formFields r).

Definition set_target (v : list byte) (r : SwHttpRequest) : SwHttpRequest :=
  mkRequest (method r) v (path r) (queryString r) (protocol r) (headers r) (queryParams r)
     (pathParams r) (body r) (keepAlive r) (isChunkedBody r) (isMultipartFormData r) (isTls r)
     (localPort r) (peerAddress r) (peerPort r) (multipartParts r) (formFields r).

Definition set_path (v : list byte) (r : SwHttpRequest) : SwHttpRequest :=
  mkRequest (method r) (target r) v (queryString r) (protocol r) (headers r) (queryParams r)
     (pathParams r) (body r) (keepAlive r) (isChunkedBody r) (isMultipartFormData r) (isTls r)
     (localPort r) (peerAddress r) (peerPort r) (multipartParts r) (formFields r).

Definition set_queryString (v : list byte) (r : SwHttpRequest) : SwHttpRequest :=
  mkRequest (method r) (target r) (path r) v (protocol r) (headers r) (queryParams r)
     (pathParams r) (body r) (keepAlive r) (isChunkedBody r) (isMultipartFormData r) (isTls r)
     (localPort r) (peerAddress r) (peerPort r) (multipartParts r) (formFields r).

Definition set_protocol (v : list byte) (r : SwHttpRequest) : SwHttpRequest :=
  mkRequest (method r) (target r) (path r) (queryString r) v (headers r) (queryParams r)
     (pathParams r) (body r) (keepAlive r) (isChunkedBody r) (isMultipartFormData r) (isTls r)
     (localPort r) (peerAddress r) (peerPort r) (multipartParts r) (formFields r).

Definition set_headers (v : StringMap) (r : SwHttpRequest) : SwHttpRequest :=
  mkRequest (method r) (target r) (path r) (queryString r) (protocol r) v (queryParams r)
     (pathParams r) (body r) (keepAlive r) (isChunkedBody r) (isMultipartFormData r) (isTls r)
     (localPort r) (peerAddress r) (peerPort r) (multipartParts r) (formFields r).

Definition set_queryParams (v : StringMap) (r : SwHttpRequest) : SwHttpRequest :=
  mkRequest (method r) (target r) (path r) (queryString r) (protocol r) (headers r) v
     (pathParams r) (body r) (keepAlive r) (isChunkedBody r) (isMultipartFormData r) (isTls r)
     (localPort r) (peerAddress r) (peerPort r) (multipartParts r) (formFields r).

Definition set_body (v : list byte) (r : SwHttpRequest) : SwHttpRequest :=
  mkRequest (method r) (target r) (path r) (queryString r) (protocol r) (headers r) (queryParams
     r) (pathParams r) v (keepAlive r) (isChunkedBody r) (isMultipartFormData r) (isTls r)
     (localPort r) (peerAddress r) (peerPort r) (multipartParts r) (formFields r).

Definition set_keepAlive (v : bool) (r : SwHttpRequest) : SwHttpRequest :=
  mkRequest (method r) (target r) (path r) (queryString r) (protocol r) (headers r) (queryParams
     r) (pathParams r) (body r) v (isChunkedBody r) (isMultipartFormData r) (isTls r) (localPort
     r) (peerAddress r) (peerPort r) (multipartParts r) (formFields r).

Definition set_isChunkedBody (v : bool) (r : SwHttpRequest) : SwHttpRequest :=
  mkRequest (method r) (target r) (path r) (queryString r) (protocol r) (headers r) (queryParams
     r) (pathParams r) (body r) (keepAlive r) v (isMultipartFormData r) (isTls r) (localPort r)
     (peerAddress r) (peerPort r) (multipartParts r) (formFields r).

Definition set_isMultipartFormData (v : bool) (r : SwHttpRequest) : SwHttpRequest :=
  mkRequest (method r) (target r) (path r) (queryString r) (protocol r) (headers r) (queryParams
     r) (pathParams r) (body r) (keepAlive r) (isChunkedBody r) v (isTls r) (localPort r)
     (peerAddress r) (peerPort r) (multipartParts r) (formFields r).

Definition set_multipartParts (v : list MultipartPart) (r : SwHttpRequest) : SwHttpRequest :=
  mkRequest (method r) (target r) (path r) (queryString r) (protocol r) (headers r) (queryParams
     r) (pathParams r) (body r) (keepAlive r) (isChunkedBody r) (isMultipartFormData r) (isTls
     r) (localPort r) (peerAddress r) (peerPort r) v (formFields r).

Definition set_formFields (v : StringMap) (r : SwHttpRequest) : SwHttpRequest :=
  mkRequest (method r) (target r) (path r) (queryString r) (protocol r) (headers r) (queryParams
     r) (pathParams r) (body r) (keepAlive r) (isChunkedBody r) (isMultipartFormData r) (isTls
     r) (localPort r) (peerAddress r) (peerPort r) (multipartParts r) v.

(** Limits a [std::size_t] can hold with room for the sums the parsers form, and
    bodies whose positions are [int]s. *)
Definition limits_ok (l : SwHttpLimits) : Prop :=
  0 <= maxRequestLineBytes l <= u64_max /\ 0 <= maxHeaderBytes l < 2 ^ 63 /\
  0 <= maxHeaderCount l < u64_max /\ 0 <= maxBodyBytes l < 2 ^ 31 /\
  0 <= maxPipelinedRequests l < u64_max /\ 0 <= maxMultipartPartHeadersBytes l < 2 ^ 63 /\
  0 <= maxMultipartFieldBytes l <= u64_max /\ 0 <= maxMultipartParts l <= u64_max.

(** ** Helpers *)

Definition swHttpHeaderContainsToken (headerValue tokenLower : list byte) : bool :=
  existsb (fun part => eqb (trimmed part) tokenLower) (split x2c (toLower headerValue)).

Definition swHttpHexValue (c : byte) : Z :=
  let v := b2z c in
  if (48 <=? v) && (v <=? 57) then v - 48
  else if (97 <=? v) && (v <=? 102) then 10 + (v - 97)
  else if (65 <=? v) && (v <=? 70) then 10 + (v - 65)
  else -1.

(** The digits up to the end or to [';'], with the test against overflow. *)
Fixpoint parseHex_loop (text : list byte) (outValue : Z) (sawDigit : bool) : option Z :=
  match text with
  | [] => if sawDigit then Some outValue else None
  | c :: rest =>
      if decide (c = x3b) then if sawDigit then Some outValue else None
      else
        let digit := swHttpHexValue c in
        if digit <? 0 then None
        else if (u64_max - digit) / 16 <? outValue then None
        else parseHex_loop rest (outValue * 16 + digit) true
  end.

Definition swHttpParseHexSize (text : list byte) : option Z :=
  let trimmed := trimmed text in
  if isEmpty trimmed then None else parseHex_loop trimmed 0 false.

Fixpoint swHttpPercentDecode (input : list byte) (plusAsSpace : bool) : option (list byte) :=
  match input with
  | [] => Some []
  | c :: rest =>
      if plusAsSpace && bool_decide (c = x2b) then cons x20 <$> swHttpPercentDecode rest plusAsSpace
      else if decide (c = x25) then
        match rest with
        | h :: l :: rest' =>
            let hi := swHttpHexValue h in
            let lo := swHttpHexValue l in
            if (hi <? 0) || (lo <? 0) then None
            else cons (z2b (Z.lor (Z.shiftl hi 4) lo)) <$> swHttpPercentDecode rest' plusAsSpace
        | _ => None
        end
      else cons c <$> swHttpPercentDecode rest plusAsSpace
  end.

(** [while (path.contains("//")) path.replace("//", "/")]: each turn shortens. *)
Fixpoint collapse_loop (fuel : nat) (path : list byte) : list byte :=
  match fuel with
  | O => path
  | S fuel' =>
      if contains (str "//") path then collapse_loop fuel' (replace (str "//") (str "/") path) else path
  end.

Definition swHttpNormalizePath (rawPath : list byte) : list byte :=
  if isEmpty rawPath then str "/"
  else
    let path := if startsWith (str "/") rawPath then rawPath else str "/" ++ rawPath in
    let path := collapse_loop (length path) path in
    if isEmpty path then str "/" else path.

(** One [key=value] of a query; a pair that does not decode is skipped. *)
Definition addQueryPair (pair : list byte) (queryParams : StringMap) : StringMap :=
  if isEmpty pair then queryParams
  else
    let eqPos := indexOf (str "=") 0 pair in
    let keyRaw := if 0 <=? eqPos then left eqPos pair else pair in
    let valRaw := if 0 <=? eqPos then midFrom (eqPos + 1) pair else [] in
    match swHttpPercentDecode keyRaw true, swHttpPercentDecode valRaw true with
    | Some key, Some value => <[key := value]> queryParams
    | _, _ => queryParams
    end.

Definition swHttpParseQueryString (query : list byte) : StringMap :=
  fold_left (fun queryParams pair => addQueryPair pair queryParams) (split x26 query) ∅.

(** ** Header parameters *)

Definition swHttpTrimQuotes_ (value : list byte) : list byte :=
  let out := trimmed value in
  if (2 <=? size out) && startsWith [x22] out && bool_decide (last out = Some x22)
  then mid 1 (to_int (size out) - 2) out else out.

Definition addHeaderParam (token : list byte) (params : StringMap) : StringMap :=
  let token := trimmed token in
  if isEmpty token then params
  else
    let eq := indexOf (str "=") 0 token in
    if eq <=? 0 then params
    else
      let key := toLower (trimmed (left eq token)) in
      let value := swHttpTrimQuotes_ (midFrom (eq + 1) token) in
      if isEmpty key then params else <[key := value]> params.

Definition swHttpParseHeaderParams_ (headerValue : list byte) : list byte * StringMap :=
  match split x3b headerValue with
  | [] => ([], ∅)
  | first :: tokens =>
      (toLower (trimmed first), fold_left (fun params token => addHeaderParam token params) tokens ∅)
  end.

Definition isAlphaNumeric (c : byte) : bool :=
  let v := b2z c in
  (48 <=? v) && (v <=? 57) || (65 <=? v) && (v <=? 90) || (97 <=? v) && (v <=? 122).

(** The characters of a boundary, RFC 2046. *)
Definition isBoundaryCharacter (c : byte) : bool :=
  isAlphaNumeric c || bool_decide (c ∈ str "'()+_,-./:=? ").

Definition swHttpExtractMultipartBoundary (contentType : list byte) : option (list byte) :=
  let (mainType, params) := swHttpParseHeaderParams_ contentType in
  if negb (eqb mainType (str "multipart/form-data")) then None
  else
    match params !! str "boundary" with
    | None => None
    | Some value =>
        let boundary := trimmed value in
        if isEmpty boundary || (70 <? size boundary) then None
        else if negb (forallb isBoundaryCharacter boundary) then None
        else if bool_decide (last boundary = Some x20) then None
        else Some boundary
    end.

End SwHttpTypes.
