(* ===== verification/HttpParser.v ===== *)
(** The incremental HTTP/1.1 request parser: src/src/core/io/http/SwHttpParser.h.

    [m_buffer] is the bytes the ring buffer holds (ByteRingBuffer.v shows that
    every operation of the buffer acts on them as on a list).  The multipart
    stream parser, which writes files, is an interface here: the class
    [MultipartStream] lists its operations and [MultipartLaws] what the parser
    relies on, that its input may be cut anywhere.  HttpMultipart.v has the parser
    itself, and HttpMultipartLaws.v proves its laws. *)
From Stdlib Require Import ZArith Lia Strings.Byte.
From stdpp Require Import base list strings numbers gmap.
From S2P Require Import Prelude SwString HttpTypes.

Import SwString SwHttpTypes.

(** [SwHttpMultipartStreamParser]: a failing operation gives the text of
    [outError]; the files written so far are part of the state. *)
Class MultipartStream := {
  mp : Type;
  mp_new : mp;
  mp_reset : mp -> mp;
  mp_begin : list byte -> SwHttpLimits -> list byte -> mp -> option (list byte) * mp;
  mp_feed : list byte -> mp -> option (list byte) * mp;
  mp_finish : mp -> (list byte + list MultipartPart * StringMap) * mp;
  mp_cleanup : mp -> mp
}.

(** [mp_ok n m]: [m] has begun, and has accepted [n] bytes since.  What is accepted
    whole is accepted in two pieces, with the same effect, as long as the
    positions in it are [int]s. *)
Class MultipartLaws (MS : MultipartStream) := {
  mp_ok : Z -> mp -> Prop;
  mp_begin_ok boundary limits dir m m' :
    limits_ok limits -> mp_begin boundary limits dir m = (None, m') -> mp_ok 0 m';
  mp_feed_ok n d m m' : mp_ok n m -> mp_feed d m = (None, m') -> mp_ok (n + zlen d) m';
  mp_feed_app n a b m m2 :
    mp_ok n m -> 0 <= n -> n + zlen (a ++ b) < 2147483648 ->
    mp_feed (a ++ b) m = (None, m2) <->
    exists m1, mp_feed a m = (None, m1) /\ mp_feed b m1 = (None, m2)
}.

Module SwHttpParser.

Inductive FeedStatus := StatusOk | StatusNeedMoreData | StatusError.

Inductive State :=
| RequestLine | Headers | BodyFixed | ChunkSize | ChunkData | ChunkDataCRLF | ChunkTrailers
| Complete | Error.

#[export] Instance State_eq_dec : EqDecision State.
Proof. solve_decision. Defined.

Section Parser.

Context `{MS : MultipartStream}.

(** The length of the contiguous view of a ring buffer that holds these bytes. *)
Variable contiguousSize : list byte -> Z.

Record t := mk {
  m_limits : SwHttpLimits;
  m_buffer : list byte;
  m_state : State;
  m_currentRequest : SwHttpRequest;
  m_headerBytes : Z;
  m_headerCount : Z;
  m_contentLengthRemaining : Z;
  m_chunkBytesRemaining : Z;
  m_chunkedBody : bool;
  m_bodyBytesReceived : Z;
  m_continueNeeded : bool;
  m_multipartStreamingActive : bool;
  m_multipartStreamParser : mp;
  m_feedOutputStart : Z;
  m_errorStatus : Z;
  m_errorMessage : list byte
}.

Definition make : t :=
  mk defaultLimits [] RequestLine emptyRequest 0 0 0 0 false 0 false false mp_new 0 0 [].

Definition set_m_limits (v : SwHttpLimits) (s : t) : t :=
  mk v (m_buffer s) (m_state s) (m_currentRequest s) (m_headerBytes s) (m_headerCount s)
     (m_contentLengthRemaining s) (m_chunkBytesRemaining s) (m_chunkedBody s)
     (m_bodyBytesReceived s) (m_continueNeeded s) (m_multipartStreamingActive s)
     (m_multipartStreamParser s) (m_feedOutputStart s) (m_errorStatus s) (m_errorMessage s).

Definition set_m_buffer (v : list byte) (s : t) : t :=
  mk (m_limits s) v (m_state s) (m_currentRequest s) (m_headerBytes s) (m_headerCount s)
     (m_contentLengthRemaining s) (m_chunkBytesRemaining s) (m_chunkedBody s)
     (m_bodyBytesReceived s) (m_continueNeeded s) (m_multipartStreamingActive s)
     (m_multipartStreamParser s) (m_feedOutputStart s) (m_errorStatus s) (m_errorMessage s).

Definition set_m_state (v : State) (s : t) : t :=
  mk (m_limits s) (m_buffer s) v (m_currentRequest s) (m_headerBytes s) (m_headerCount s)
     (m_contentLengthRemaining s) (m_chunkBytesRemaining s) (m_chunkedBody s)
     (m_bodyBytesReceived s) (m_continueNeeded s) (m_multipartStreamingActive s)
     (m_multipartStreamParser s) (m_feedOutputStart s) (m_errorStatus s) (m_errorMessage s).

Definition set_m_currentRequest (v : SwHttpRequest) (s : t) : t :=
  mk (m_limits s) (m_buffer s) (m_state s) v (m_headerBytes s) (m_headerCount s)
     (m_contentLengthRemaining s) (m_chunkBytesRemaining s) (m_chunkedBody s)
     (m_bodyBytesReceived s) (m_continueNeeded s) (m_multipartStreamingActive s)
     (m_multipartStreamParser s) (m_feedOutputStart s) (m_errorStatus s) (m_errorMessage s).

Definition set_m_headerBytes (v : Z) (s : t) : t :=
  mk (m_limits s) (m_buffer s) (m_state s) (m_currentRequest s) v (m_headerCount s)
     (m_contentLengthRemaining s) (m_chunkBytesRemaining s) (m_chunkedBody s)
     (m_bodyBytesReceived s) (m_continueNeeded s) (m_multipartStreamingActive s)
     (m_multipartStreamParser s) (m_feedOutputStart s) (m_errorStatus s) (m_errorMessage s).

Definition set_m_headerCount (v : Z) (s : t) : t :=
  mk (m_limits s) (m_buffer s) (m_state s) (m_currentRequest s) (m_headerBytes s) v
     (m_contentLengthRemaining s) (m_chunkBytesRemaining s) (m_chunkedBody s)
     (m_bodyBytesReceived s) (m_continueNeeded s) (m_multipartStreamingActive s)
     (m_multipartStreamParser s) (m_feedOutputStart s) (m_errorStatus s) (m_errorMessage s).

Definition set_m_contentLengthRemaining (v : Z) (s : t) : t :=
  mk (m_limits s) (m_buffer s) (m_state s) (m_currentRequest s) (m_headerBytes s) (m_headerCount
     s) v (m_chunkBytesRemaining s) (m_chunkedBody s) (m_bodyBytesReceived s) (m_continueNeeded
     s) (m_multipartStreamingActive s) (m_multipartStreamParser s) (m_feedOutputStart s)
     (m_errorStatus s) (m_errorMessage s).

Definition set_m_chunkBytesRemaining (v : Z) (s : t) : t :=
  mk (m_limits s) (m_buffer s) (m_state s) (m_currentRequest s) (m_headerBytes s) (m_headerCount
     s) (m_contentLengthRemaining s) v (m_chunkedBody s) (m_bodyBytesReceived s)
     (m_continueNeeded s) (m_multipartStreamingActive s) (m_multipartStreamParser s)
     (m_feedOutputStart s) (m_errorStatus s) (m_errorMessage s).

Definition set_m_chunkedBody (v : bool) (s : t) : t :=
  mk (m_limits s) (m_buffer s) (m_state s) (m_currentRequest s) (m_headerBytes s) (m_headerCount
     s) (m_contentLengthRemaining s) (m_chunkBytesRemaining s) v (m_bodyBytesReceived s)
     (m_continueNeeded s) (m_multipartStreamingActive s) (m_multipartStreamParser s)
     (m_feedOutputStart s) (m_errorStatus s) (m_errorMessage s).

Definition set_m_bodyBytesReceived (v : Z) (s : t) : t :=
  mk (m_limits s) (m_buffer s) (m_state s) (m_currentRequest s) (m_headerBytes s) (m_headerCount
     s) (m_contentLengthRemaining s) (m_chunkBytesRemaining s) (m_chunkedBody s) v
     (m_continueNeeded s) (m_multipartStreamingActive s) (m_multipartStreamParser s)
     (m_feedOutputStart s) (m_errorStatus s) (m_errorMessage s).

Definition set_m_continueNeeded (v : bool) (s : t) : t :=
  mk (m_limits s) (m_buffer s) (m_state s) (m_currentRequest s) (m_headerBytes s) (m_headerCount
     s) (m_contentLengthRemaining s) (m_chunkBytesRemaining s) (m_chunkedBody s)
     (m_bodyBytesReceived s) v (m_multipartStreamingActive s) (m_multipartStreamParser s)
     (m_feedOutputStart s) (m_errorStatus s) (m_errorMessage s).

Definition set_m_multipartStreamingActive (v : bool) (s : t) : t :=
  mk (m_limits s) (m_buffer s) (m_state s) (m_currentRequest s) (m_headerBytes s) (m_headerCount
     s) (m_contentLengthRemaining s) (m_chunkBytesRemaining s) (m_chunkedBody s)
     (m_bodyBytesReceived s) (m_continueNeeded s) v (m_multipartStreamParser s)
     (m_feedOutputStart s) (m_errorStatus s) (m_errorMessage s).

Definition set_m_multipartStreamParser (v : mp) (s : t) : t :=
  mk (m_limits s) (m_buffer s) (m_state s) (m_currentRequest s) (m_headerBytes s) (m_headerCount
     s) (m_contentLengthRemaining s) (m_chunkBytesRemaining s) (m_chunkedBody s)
     (m_bodyBytesReceived s) (m_continueNeeded s) (m_multipartStreamingActive s) v
     (m_feedOutputStart s) (m_errorStatus s) (m_errorMessage s).

Definition set_m_feedOutputStart (v : Z) (s : t) : t :=
  mk (m_limits s) (m_buffer s) (m_state s) (m_currentRequest s) (m_headerBytes s) (m_headerCount
     s) (m_contentLengthRemaining s) (m_chunkBytesRemaining s) (m_chunkedBody s)
     (m_bodyBytesReceived s) (m_continueNeeded s) (m_multipartStreamingActive s)
     (m_multipartStreamParser s) v (m_errorStatus s) (m_errorMessage s).

Definition set_m_errorStatus (v : Z) (s : t) : t :=
  mk (m_limits s) (m_buffer s) (m_state s) (m_currentRequest s) (m_headerBytes s) (m_headerCount
     s) (m_contentLengthRemaining s) (m_chunkBytesRemaining s) (m_chunkedBody s)
     (m_bodyBytesReceived s) (m_continueNeeded s) (m_multipartStreamingActive s)
     (m_multipartStreamParser s) (m_feedOutputStart s) v (m_errorMessage s).

Definition set_m_errorMessage (v : list byte) (s : t) : t :=
  mk (m_limits s) (m_buffer s) (m_state s) (m_currentRequest s) (m_headerBytes s) (m_headerCount
     s) (m_contentLengthRemaining s) (m_chunkBytesRemaining s) (m_chunkedBody s)
     (m_bodyBytesReceived s) (m_continueNeeded s) (m_multipartStreamingActive s)
     (m_multipartStreamParser s) (m_feedOutputStart s) (m_errorStatus s) v.

(** [f] on the current request. *)
Definition onRequest (f : SwHttpRequest -> SwHttpRequest) (s : t) : t :=
  set_m_currentRequest (f (m_currentRequest s)) s.

Definition setLimits (limits : SwHttpLimits) (s : t) : t := set_m_limits limits s.

Definition resetCurrentRequest (s : t) : t :=
  mk (m_limits s) (m_buffer s) (m_state s) emptyRequest 0 0 0 0 false 0 false false
     (mp_reset (m_multipartStreamParser s)) (m_feedOutputStart s) (m_errorStatus s) (m_errorMessage s).

(** [reset(releaseStorage)]: [clear] and [release] both leave no byte. *)
Definition reset (s : t) : t :=
  let s := resetCurrentRequest (set_m_buffer [] s) in
  set_m_errorMessage [] (set_m_errorStatus 0 (set_m_state RequestLine s)).

Definition hasError (s : t) : bool := bool_decide (m_state s = Error).

Definition isAwaitingHeaders (s : t) : bool := bool_decide (m_state s = RequestLine \/ m_state s = Headers).

Definition isAwaitingBody (s : t) : bool :=
  bool_decide (m_state s ∈ [BodyFixed; ChunkSize; ChunkData; ChunkDataCRLF; ChunkTrailers]).

Definition hasPartialRequest (s : t) : bool :=
  bool_decide (m_state s <> RequestLine) || negb (isEmpty (m_buffer s)).

Definition bufferedDataSize (s : t) : Z := zlen (m_buffer s).

Definition takeBufferedData (s : t) : list byte * t := (m_buffer s, set_m_buffer [] s).

Definition takeContinueNeeded (s : t) : bool * t := (m_continueNeeded s, set_m_continueNeeded false s).

Definition maxFeedAppendBytes_ : Z := 64 * 1024.

(** ** Validation *)

Definition isTokenCharacter_ (c : byte) : bool :=
  isAlphaNumeric c || bool_decide (c ∈ str "!#$%&'*+-.^_`|~").

Definition isValidToken_ (value : list byte) : bool :=
  negb (isEmpty value) && forallb isTokenCharacter_ value.

Definition isValidHeaderValue_ (value : list byte) : bool :=
  forallb (fun c => negb ((b2z c <? 0x20) && negb (bool_decide (c = x09)) || (b2z c =? 0x7f))) value.

Definition isValidRequestTarget_ (target : list byte) : bool :=
  negb (isEmpty target) &&
  forallb (fun c => negb ((b2z c <=? 0x20) || (b2z c =? 0x7f) || bool_decide (c = x23))) target.

Fixpoint parseDecimal_loop (text : list byte) (outValue : Z) : option Z :=
  match text with
  | [] => Some outValue
  | c :: rest =>
      if (b2z c <? 48) || (57 <? b2z c) then None
      else
        let digit := b2z c - 48 in
        if (u64_max - digit) / 10 <? outValue then None
        else parseDecimal_loop rest (outValue * 10 + digit)
  end.

Definition parseDecimalSize_ (text : list byte) : option Z :=
  if isEmpty text then None else parseDecimal_loop text 0.

(** ** Errors and lines *)

(** [setError_(status, message)]; the caller returns [false]. *)
Definition setError_ (status : Z) (message : list byte) (s : t) : t :=
  let s :=
    if m_multipartStreamingActive s
    then set_m_multipartStreamingActive false (set_m_multipartStreamParser (mp_cleanup (m_multipartStreamParser s)) s)
    else s in
  set_m_errorMessage message (set_m_errorStatus status (set_m_continueNeeded false (set_m_state Error s))).

Definition refuse (status : Z) (message : string) : M t bool :=
  modify (setError_ status (str message));; mret false.

Definition crlf : list byte := [x0d; x0a].

(** [popLine_]: the line, if there is a complete one, and the bytes after it. *)
Definition popLine_ (s : t) : option (list byte * t) :=
  let eol := match find crlf (m_buffer s) with Some i => to_int i | None => -1 end in
  if eol <? 0 then None
  else Some (take (Z.to_nat eol) (m_buffer s), set_m_buffer (drop (Z.to_nat (eol + 2)) (m_buffer s)) s).

Definition pendingBufferExceedsLimit_ (usedBytes maxBytes : Z) (s : t) : bool :=
  if maxBytes <? usedBytes then true else maxBytes -u usedBytes <? zlen (m_buffer s).

(** No complete line: too much pending is an error. *)
Definition awaitLine (usedBytes maxBytes status : Z) (message : string) : M t bool :=
  s ← get;
  if pendingBufferExceedsLimit_ usedBytes maxBytes s then refuse status message else mret false.

(** ** The request line *)

Definition parseTarget_ (target : list byte) : M t bool :=
  let effectiveTarget := trimmed target in
  let lowerTarget := toLower effectiveTarget in
  let effectiveTarget :=
    if startsWith (str "http://") lowerTarget || startsWith (str "https://") lowerTarget then
      let authorityPos := indexOf (str "://") 0 effectiveTarget in
      let pathPos := if 0 <=? authorityPos then indexOf (str "/") (authorityPos + 3) effectiveTarget else -1 in
      if 0 <=? pathPos then midFrom pathPos effectiveTarget else str "/"
    else effectiveTarget in
  let queryPos := indexOf (str "?") 0 effectiveTarget in
  let rawPath := if 0 <=? queryPos then left queryPos effectiveTarget else effectiveTarget in
  let query := if 0 <=? queryPos then midFrom (queryPos + 1) effectiveTarget else [] in
  let rawPath := if isEmpty rawPath then str "/" else rawPath in
  match swHttpPercentDecode rawPath false with
  | None => mret false
  | Some decodedPath =>
      modify (onRequest (fun r => set_queryParams (swHttpParseQueryString query)
        (set_queryString query (set_path (swHttpNormalizePath decodedPath) r))));;
      mret true
  end.

(** The request line once it is complete. *)
Definition parseRequestLine_line (line : list byte) : M t bool :=
  s ← get;
  if maxRequestLineBytes (m_limits s) <? size line then refuse 414 "Request line too long"
  else
    let firstSpace := indexOf (str " ") 0 line in
    let secondSpace := if 0 <=? firstSpace then indexOf (str " ") (firstSpace + 1) line else -1 in
    let thirdSpace := if 0 <=? secondSpace then indexOf (str " ") (secondSpace + 1) line else -1 in
    if (firstSpace <=? 0) || (secondSpace <=? firstSpace + 1) ||
       (to_int (size line) <=? secondSpace + 1) || (0 <=? thirdSpace)
    then refuse 400 "Malformed request line"
    else
      let method := left firstSpace line in
      let target := mid (firstSpace + 1) (secondSpace - firstSpace - 1) line in
      let protocol := midFrom (secondSpace + 1) line in
      if negb (isValidToken_ method) || negb (isValidRequestTarget_ target) ||
         (negb (eqb protocol (str "HTTP/1.0")) && negb (eqb protocol (str "HTTP/1.1")))
      then refuse 400 "Malformed request line"
      else
        modify (onRequest (fun r => set_protocol protocol (set_target target (set_method (toUpper method) r))));;
        ok ← parseTarget_ target;
        if negb ok then refuse 400 "Malformed target"
        else
          modify (onRequest (fun r => set_keepAlive (eqb protocol (str "HTTP/1.1")) r));;
          modify (set_m_state Headers);;
          mret true.

Definition parseRequestLine_ : M t bool :=
  s ← get;
  match popLine_ s with
  | None => awaitLine 0 (maxRequestLineBytes (m_limits s)) 414 "Request line too long"
  | Some (line, s) => put s;; parseRequestLine_line line
  end.

(** ** Multipart bodies *)

Definition prepareMultipartStreaming_ : M t bool :=
  modify (fun s => set_m_multipartStreamParser (mp_reset (m_multipartStreamParser s))
    (set_m_multipartStreamingActive false s));;
  s ← get;
  if negb (enableMultipartFileStreaming (m_limits s)) then mret true
  else
    match headers (m_currentRequest s) !! str "content-type" with
    | None => mret true
    | Some contentType =>
        if negb (startsWith (str "multipart/form-data") (toLower contentType)) then mret true
        else
          match swHttpExtractMultipartBoundary contentType with
          | None => refuse 400 "Missing multipart boundary"
          | Some boundary =>
              let (streamError, parser) :=
                mp_begin boundary (m_limits s) (multipartTempDirectory (m_limits s)) (m_multipartStreamParser s) in
              modify (set_m_multipartStreamParser parser);;
              match streamError with
              | Some [] => refuse 500 "Unable to initialize multipart streaming"
              | Some e => modify (setError_ 500 e);; mret false
              | None =>
                  modify (set_m_multipartStreamingActive true);;
                  modify (onRequest (set_isMultipartFormData true));;
                  mret true
              end
          end
    end.

Definition malformedMultipart (streamError : list byte) : M t bool :=
  match streamError with
  | [] => refuse 400 "Malformed multipart body"
  | e => modify (setError_ 400 e);; mret false
  end.

(** The loop over the contiguous runs of the ring buffer. *)
Fixpoint feedMultipart_loop (fuel : nat) (remaining : Z) : M t bool :=
  match fuel with
  | O => out_of_fuel
  | S fuel' =>
      if remaining <=? 0 then mret true
      else
        s ← get;
        let contiguous := Z.min remaining (contiguousSize (m_buffer s)) in
        if contiguous =? 0 then refuse 400 "Multipart buffer state mismatch"
        else
          let (streamError, parser) :=
            mp_feed (take (Z.to_nat contiguous) (m_buffer s)) (m_multipartStreamParser s) in
          modify (set_m_multipartStreamParser parser);;
          match streamError with
          | Some e => malformedMultipart e
          | None =>
              modify (fun s => set_m_buffer (drop (Z.to_nat contiguous) (m_buffer s)) s);;
              feedMultipart_loop fuel' (remaining -u contiguous)
          end
  end.

Definition feedMultipartFromBuffer_ (bytes : Z) : M t bool := feedMultipart_loop (S (Z.to_nat bytes)) bytes.

Definition finalizeMultipartStreaming_ : M t bool :=
  s ← get;
  if negb (m_multipartStreamingActive s) then mret true
  else
    let (finished, parser) := mp_finish (m_multipartStreamParser s) in
    modify (set_m_multipartStreamParser parser);;
    match finished with
    | inl streamError => malformedMultipart streamError
    | inr (parts, fields) =>
        modify (onRequest (fun r => set_isMultipartFormData true (set_formFields fields (set_multipartParts parts r))));;
        modify (set_m_multipartStreamingActive false);;
        mret true
    end.

(** ** Headers *)

Definition header (key : string) (s : t) : option (list byte) := headers (m_currentRequest s) !! str key.

Definition present {A} (o : option A) : bool := match o with Some _ => true | None => false end.

Definition isHttp11 (s : t) : bool := eqb (protocol (m_currentRequest s)) (str "HTTP/1.1").

(** The Host header of an HTTP/1.1 request. *)
Definition badHost (host : list byte) : bool :=
  isEmpty host || containsChar x2c host || containsChar x20 host || containsChar x09 host.

(** The Connection header. *)
Definition applyConnection (s : t) : t :=
  match header "connection" s with
  | None => s
  | Some value =>
      let conn := toLower value in
      if swHttpHeaderContainsToken conn (str "close") then onRequest (set_keepAlive false) s
      else if swHttpHeaderContainsToken conn (str "keep-alive") then onRequest (set_keepAlive true) s
      else s
  end.

(** A Transfer-Encoding other than [chunked]. *)
Definition unsupportedCoding (value : list byte) : bool :=
  match split x2c (toLower (trimmed value)) with
  | [coding] => negb (eqb (trimmed coding) (str "chunked"))
  | _ => true
  end.

(** What remains of [finalizeHeaders_] once the body's framing is known. *)
Definition finalizeHeaders_framing (chunked : bool) (contentLength : option Z) : M t bool :=
  s ← get;
  if chunked && present contentLength then refuse 400 "Conflicting body framing"
  else
    let length := default 0 contentLength in
    let hasBody := chunked || (0 <? length) in
    let expect := header "expect" s in
    if match expect with
       | Some e => negb (isHttp11 s) || negb (eqb (toLower (trimmed e)) (str "100-continue"))
       | None => false
       end
    then refuse 417 "Expectation Failed"
    else if maxBodyBytes (m_limits s) <? length then refuse 413 "Body too large"
    else
      (if hasBody && present expect then modify (set_m_continueNeeded true) else mret tt);;
      if chunked then
        modify (fun s => set_m_chunkedBody true (onRequest (set_isChunkedBody true) s));;
        ok ← prepareMultipartStreaming_;
        if negb ok then mret false else modify (set_m_state ChunkSize);; mret true
      else if 0 <? length then
        ok ← prepareMultipartStreaming_;
        if negb ok then mret false
        else modify (fun s => set_m_state BodyFixed (set_m_contentLengthRemaining length s));; mret true
      else modify (set_m_state Complete);; mret true.

Definition finalizeHeaders_ : M t bool :=
  s ← get;
  if isHttp11 s && negb (present (header "host" s)) then refuse 400 "Missing Host header"
  else if isHttp11 s && match header "host" s with Some host => badHost host | None => false end
  then refuse 400 "Invalid Host header"
  else
    modify applyConnection;;
    s ← get;
    let te := header "transfer-encoding" s in
    if present te && negb (isHttp11 s) then refuse 400 "Transfer-Encoding requires HTTP/1.1"
    else if match te with Some value => unsupportedCoding value | None => false end
    then refuse 400 "Unsupported Transfer-Encoding"
    else
      match header "content-length" s with
      | None => finalizeHeaders_framing (present te) None
      | Some lengthText =>
          match parseDecimalSize_ (trimmed lengthText) with
          | None => refuse 400 "Invalid Content-Length"
          | Some contentLength => finalizeHeaders_framing (present te) (Some contentLength)
          end
      end.

Definition isFramingHeader (key : list byte) : bool :=
  eqb key (str "content-length") || eqb key (str "transfer-encoding") || eqb key (str "host").

(** One header line, counted; [true] when the loop goes on. *)
Definition parseHeaderLine (line : list byte) : M t bool :=
  s ← get;
  let colon := indexOf (str ":") 0 line in
  if colon <=? 0 then refuse 400 "Malformed header"
  else
    modify (set_m_headerCount (m_headerCount s +u 1));;
    if maxHeaderCount (m_limits s) <? m_headerCount s +u 1 then refuse 431 "Too many headers"
    else
      let rawKey := left colon line in
      if negb (isValidToken_ rawKey) then refuse 400 "Malformed header name"
      else
        let key := toLower rawKey in
        let value := trimmed (midFrom (colon + 1) line) in
        if negb (isValidHeaderValue_ value) then refuse 400 "Malformed header value"
        else
          match headers (m_currentRequest s) !! key with
          | Some old =>
              if isFramingHeader key then refuse 400 "Duplicate framing/authority header"
              else
                modify (onRequest (fun r => set_headers (<[key := old ++ str ", " ++ value]> (headers r)) r));;
                mret true
          | None =>
              modify (onRequest (fun r => set_headers (<[key := value]> (headers r)) r));;
              mret true
          end.

Fixpoint parseHeaders_loop (fuel : nat) : M t bool :=
  match fuel with
  | O => out_of_fuel
  | S fuel' =>
      s ← get;
      match popLine_ s with
      | None => awaitLine (m_headerBytes s) (maxHeaderBytes (m_limits s)) 431 "Headers too large"
      | Some (line, s) =>
          let headerBytes := m_headerBytes s +u (size line +u 2) in
          put (set_m_headerBytes headerBytes s);;
          if maxHeaderBytes (m_limits s) <? headerBytes then refuse 431 "Headers too large"
          else if isEmpty line then finalizeHeaders_
          else
            ok ← parseHeaderLine line;
            if negb ok then mret false else parseHeaders_loop fuel'
      end
  end.

Definition parseHeaders_ : M t bool := s ← get; parseHeaders_loop (S (length (m_buffer s))).

(** ** Bodies *)

(** [take] bytes of the buffer go to the body, or to the multipart parser. *)
Definition takeBody (take_ : Z) : M t bool :=
  s ← get;
  let received := m_bodyBytesReceived s +u take_ in
  modify (set_m_bodyBytesReceived received);;
  if maxBodyBytes (m_limits s) <? received then refuse 413 "Body too large"
  else if m_multipartStreamingActive s then feedMultipartFromBuffer_ take_
  else
    modify (fun s =>
      set_m_buffer (drop (Z.to_nat take_) (m_buffer s))
        (onRequest (fun r => set_body (body r ++ take (Z.to_nat take_) (m_buffer s)) r) s));;
    mret true.

Definition parseFixedBody_ : M t bool :=
  s ← get;
  if m_contentLengthRemaining s =? 0 then modify (set_m_state Complete);; mret true
  else if isEmpty (m_buffer s) then mret false
  else
    let take_ := Z.min (m_contentLengthRemaining s) (zlen (m_buffer s)) in
    ok ← takeBody take_;
    if negb ok then mret false
    else
      modify (fun s => set_m_contentLengthRemaining (m_contentLengthRemaining s -u take_) s);;
      s ← get;
      if m_contentLengthRemaining s =? 0 then
        ok ← finalizeMultipartStreaming_;
        if negb ok then mret false else modify (set_m_state Complete);; mret true
      else mret false.

Definition parseChunkSize_line (line : list byte) : M t bool :=
  s ← get;
  if maxRequestLineBytes (m_limits s) <? size line then refuse 400 "Chunk size line too long"
  else
    match swHttpParseHexSize line with
    | None => refuse 400 "Invalid chunk size"
    | Some chunkSize =>
        if maxChunkSize (m_limits s) <? chunkSize then refuse 413 "Chunk too large"
        else if (maxBodyBytes (m_limits s) <? m_bodyBytesReceived s) ||
                (maxBodyBytes (m_limits s) -u m_bodyBytesReceived s <? chunkSize)
        then refuse 413 "Body too large"
        else
          modify (set_m_chunkBytesRemaining chunkSize);;
          modify (set_m_state (if chunkSize =? 0 then ChunkTrailers else ChunkData));;
          mret true
    end.

Definition parseChunkSize_ : M t bool :=
  s ← get;
  match popLine_ s with
  | None => awaitLine 0 (maxRequestLineBytes (m_limits s)) 400 "Chunk size line too long"
  | Some (line, s) => put s;; parseChunkSize_line line
  end.

Definition parseChunkData_ : M t bool :=
  s ← get;
  if m_chunkBytesRemaining s =? 0 then modify (set_m_state ChunkDataCRLF);; mret true
  else if isEmpty (m_buffer s) then mret false
  else
    let take_ := Z.min (m_chunkBytesRemaining s) (zlen (m_buffer s)) in
    ok ← takeBody take_;
    if negb ok then mret false
    else
      modify (fun s => set_m_chunkBytesRemaining (m_chunkBytesRemaining s -u take_) s);;
      s ← get;
      if m_chunkBytesRemaining s =? 0 then modify (set_m_state ChunkDataCRLF);; mret true
      else mret false.

Definition parseChunkDataCrlf_ : M t bool :=
  s ← get;
  match m_buffer s with
  | a :: b :: rest =>
      if negb (bool_decide (a = x0d)) || negb (bool_decide (b = x0a)) then refuse 400 "Malformed chunk delimiter"
      else put (set_m_state ChunkSize (set_m_buffer rest s));; mret true
  | _ => mret false
  end.

Definition parseTrailerLine (line : list byte) : M t bool :=
  s ← get;
  let colon := indexOf (str ":") 0 line in
  if (colon <=? 0) || negb (isValidToken_ (left colon line)) ||
     negb (isValidHeaderValue_ (trimmed (midFrom (colon + 1) line)))
  then refuse 400 "Malformed trailer"
  else if isFramingHeader (toLower (left colon line)) then refuse 400 "Forbidden framing trailer"
  else
    modify (set_m_headerCount (m_headerCount s +u 1));;
    if maxHeaderCount (m_limits s) <? m_headerCount s +u 1 then refuse 431 "Too many headers and trailers"
    else mret true.

Fixpoint parseChunkTrailers_loop (fuel : nat) : M t bool :=
  match fuel with
  | O => out_of_fuel
  | S fuel' =>
      s ← get;
      match popLine_ s with
      | None => awaitLine (m_headerBytes s) (maxHeaderBytes (m_limits s)) 431 "Trailers too large"
      | Some (line, s) =>
          let headerBytes := m_headerBytes s +u (size line +u 2) in
          put (set_m_headerBytes headerBytes s);;
          if maxHeaderBytes (m_limits s) <? headerBytes then refuse 431 "Trailers too large"
          else if isEmpty line then
            ok ← finalizeMultipartStreaming_;
            if negb ok then mret false else modify (set_m_state Complete);; mret true
          else
            ok ← parseTrailerLine line;
            if negb ok then mret false else parseChunkTrailers_loop fuel'
      end
  end.

Definition parseChunkTrailers_ : M t bool := s ← get; parseChunkTrailers_loop (S (length (m_buffer s))).

(** ** Feeding *)

(** A parser with the requests it has put out. *)
Definition World : Type := t * list SwHttpRequest.

Definition onParser {A} (m : M t A) : M World A := fun w =>
  let (r, s) := m w.1 in (r, (s, w.2)).

Definition finalizeRequest_ : M World unit :=
  '(s, out) ← get;
  let out := out ++ [m_currentRequest s] in
  if maxPipelinedRequests (m_limits s) <? zlen out -u m_feedOutputStart s
  then put (setError_ 400 (str "Too many pipelined requests") s, out)
  else put (set_m_state RequestLine (resetCurrentRequest s), out).

(** One turn of [drainAvailable_]: whether it made progress. *)
Definition drainStep : M World bool :=
  '(s, _) ← get;
  match m_state s with
  | RequestLine => onParser parseRequestLine_
  | Headers => onParser parseHeaders_
  | BodyFixed => onParser parseFixedBody_
  | ChunkSize => onParser parseChunkSize_
  | ChunkData => onParser parseChunkData_
  | ChunkDataCRLF => onParser parseChunkDataCrlf_
  | ChunkTrailers => onParser parseChunkTrailers_
  | Complete => finalizeRequest_;; mret true
  | Error => mret false
  end.

(** The loop, until a turn makes no progress; whether any did. *)
Fixpoint drain_loop (fuel : nat) (progressed : bool) : M World bool :=
  match fuel with
  | O => out_of_fuel
  | S fuel' =>
      loopProgress ← drainStep;
      if (loopProgress : bool) then drain_loop fuel' true else mret progressed
  end.

Definition status (progressed : bool) (s : t) : FeedStatus :=
  if decide (m_state s = Error) then StatusError
  else if progressed then StatusOk else StatusNeedMoreData.

Definition drainAvailable_ (progressed : bool) : M World bool :=
  '(s, _) ← get;
  drain_loop (2 * length (m_buffer s) + 3) progressed.

(** The data, appended at most 64 KiB at a time and drained each time. *)
Fixpoint feed_loop (fuel : nat) (data : list byte) (progressed : bool) : M World bool :=
  match fuel with
  | O => out_of_fuel
  | S fuel' =>
      match data with
      | [] => mret progressed
      | _ =>
          let take_ := Z.min (zlen data) maxFeedAppendBytes_ in
          modify (fun w => (set_m_buffer (m_buffer w.1 ++ take (Z.to_nat take_) data) w.1, w.2));;
          progressed ← drainAvailable_ progressed;
          '(s, _) ← get;
          if decide (m_state s = Error) then mret progressed
          else feed_loop fuel' (drop (Z.to_nat take_) data) progressed
      end
  end.

(** [discardFeedOutputs_]: the requests of this call go; deleting their files is
    left to the operating system's side of the interface. *)
Definition discardFeedOutputs_ (outputStart : Z) : M World unit :=
  modify (fun w => (w.1, take (Z.to_nat outputStart) w.2)).

Definition feed (data : list byte) : M World FeedStatus :=
  '(s, out) ← get;
  let outputStart := zlen out in
  put (set_m_feedOutputStart outputStart s, out);;
  progressed ← (match data with
                | [] => drainAvailable_ false
                | _ => feed_loop (S (length data)) data false
                end);
  '(s, _) ← get;
  (if decide (m_state s = Error) then discardFeedOutputs_ outputStart else mret tt);;
  mret (status progressed s).

End Parser.

End SwHttpParser.
