(* ===== verification/HttpMultipart.v ===== *)
(** The multipart/form-data stream parser: SwHttpMultipartStreamParser and the
    functions around it in src/src/core/io/http/SwHttpMultipart.h, as the instance
    of the interface of HttpParser.v.

    The files parts are written to are the operating system's: the class [Files]
    lists the calls, with a [std::FILE] as the path it was opened for.  [m_buffer]
    is the bytes of the ring buffer, as in HttpParser.v. *)
From Stdlib Require Import ZArith Lia Strings.Byte.
From stdpp Require Import base list strings numbers gmap.
From S2P Require Import Prelude SwString HttpTypes HttpParser.

Import SwString SwHttpTypes.

(** Directories, names for temporary files (clock and entropy included), and files. *)
Class Files := {
  fs : Type;
  fs_init : fs;
  absolutePath : list byte -> list byte;
  mkpathAbsolute : list byte -> fs -> bool * fs;
  makeTempFilePath : list byte -> Z -> fs -> list byte * fs;
  openBinaryExclusive : list byte -> fs -> bool * fs;
  writeBuffered : list byte -> list byte -> fs -> bool * fs;
  closeFile : list byte -> fs -> fs;
  removeFile : list byte -> fs -> fs
}.

(** Bytes are written in one call or in two, to the same effect. *)
Class FilesLaws (F : Files) : Prop :=
  writeBuffered_app path a b f f2 :
    writeBuffered path (a ++ b) f = (true, f2) <->
    exists f1, writeBuffered path a f = (true, f1) /\ writeBuffered path b f1 = (true, f2).

(** Files in memory, the temporary ones numbered. *)
Definition memoryWrite (path data : list byte) (f : gmap (list byte) (list byte)) : bool * gmap (list byte) (list byte) :=
  match f !! path with Some held => (true, <[path := held ++ data]> f) | None => (false, f) end.

Lemma memoryWrite_app path a b f f2 :
  memoryWrite path (a ++ b) f = (true, f2) <-> exists f1, memoryWrite path a f = (true, f1) /\ memoryWrite path b f1 = (true, f2).
Proof.
  unfold memoryWrite. destruct (f !! path) as [held|] eqn:E.
  - split.
    + intros [= <-]. eexists. split; [done|]. rewrite lookup_insert_eq, insert_insert_eq. by rewrite <-app_assoc.
    + intros (f1 & [= <-] & H2). rewrite lookup_insert_eq, insert_insert_eq in H2. injection H2 as <-. by rewrite <-app_assoc.
  - split; [done|]. by intros (f1 & H1 & _).
Qed.

Definition memoryFiles : Files := {|
  fs := gmap (list byte) (list byte);
  fs_init := ∅;
  absolutePath path := str "/srv/" ++ path;
  mkpathAbsolute _ f := (true, f);
  makeTempFilePath dir n f := (dir ++ str "/part" ++ [z2b n], f);
  openBinaryExclusive path f := match f !! path with None => (true, <[path := []]> f) | Some _ => (false, f) end;
  writeBuffered := memoryWrite;
  closeFile _ f := f;
  removeFile path f := delete path f
|}.

#[export] Instance memoryFiles_laws : FilesLaws memoryFiles := memoryWrite_app.

Module SwHttpMultipartStreamParser.

Inductive State := NeedInitialBoundary | NeedPartHeaders | NeedPartData | Done | Error.

#[export] Instance State_eq_dec : EqDecision State.
Proof. solve_decision. Defined.

Section Parser.

Context `{F : Files}.

(** The length of the contiguous view of a ring buffer that holds these bytes. *)
Variable contiguousSize : list byte -> Z.

Record t := mk {
  m_state : State;
  m_limits : SwHttpLimits;
  m_tempDirectory : list byte;
  m_delimiter : list byte;
  m_boundaryMarker : list byte;
  m_buffer : list byte;
  m_parts : list MultipartPart;
  m_formFields : StringMap;
  m_currentPart : MultipartPart;
  m_currentPartBytes : Z;
  m_totalInputBytes : Z;
  m_hasCurrentPart : bool;
  m_fileCounter : Z;
  m_currentFile : option (list byte);
  m_files : fs
}.

Definition emptyPart : MultipartPart := mkPart ∅ [] [] [] [] [] 0 false false.

Definition make : t :=
  mk NeedInitialBoundary defaultLimits [] [] [] [] [] ∅ emptyPart 0 0 false 0 None fs_init.

Definition set_m_state (v : State) (s : t) : t :=
  mk v (m_limits s) (m_tempDirectory s) (m_delimiter s) (m_boundaryMarker s) (m_buffer s)
     (m_parts s) (m_formFields s) (m_currentPart s) (m_currentPartBytes s) (m_totalInputBytes s)
     (m_hasCurrentPart s) (m_fileCounter s) (m_currentFile s) (m_files s).

Definition set_m_buffer (v : list byte) (s : t) : t :=
  mk (m_state s) (m_limits s) (m_tempDirectory s) (m_delimiter s) (m_boundaryMarker s) v (m_parts
     s) (m_formFields s) (m_currentPart s) (m_currentPartBytes s) (m_totalInputBytes s)
     (m_hasCurrentPart s) (m_fileCounter s) (m_currentFile s) (m_files s).

Definition set_m_parts (v : list MultipartPart) (s : t) : t :=
  mk (m_state s) (m_limits s) (m_tempDirectory s) (m_delimiter s) (m_boundaryMarker s) (m_buffer
     s) v (m_formFields s) (m_currentPart s) (m_currentPartBytes s) (m_totalInputBytes s)
     (m_hasCurrentPart s) (m_fileCounter s) (m_currentFile s) (m_files s).

Definition set_m_formFields (v : StringMap) (s : t) : t :=
  mk (m_state s) (m_limits s) (m_tempDirectory s) (m_delimiter s) (m_boundaryMarker s) (m_buffer
     s) (m_parts s) v (m_currentPart s) (m_currentPartBytes s) (m_totalInputBytes s)
     (m_hasCurrentPart s) (m_fileCounter s) (m_currentFile s) (m_files s).

Definition set_m_currentPart (v : MultipartPart) (s : t) : t :=
  mk (m_state s) (m_limits s) (m_tempDirectory s) (m_delimiter s) (m_boundaryMarker s) (m_buffer
     s) (m_parts s) (m_formFields s) v (m_currentPartBytes s) (m_totalInputBytes s)
     (m_hasCurrentPart s) (m_fileCounter s) (m_currentFile s) (m_files s).

Definition set_m_currentPartBytes (v : Z) (s : t) : t :=
  mk (m_state s) (m_limits s) (m_tempDirectory s) (m_delimiter s) (m_boundaryMarker s) (m_buffer
     s) (m_parts s) (m_formFields s) (m_currentPart s) v (m_totalInputBytes s) (m_hasCurrentPart s)
     (m_fileCounter s) (m_currentFile s) (m_files s).

Definition set_m_totalInputBytes (v : Z) (s : t) : t :=
  mk (m_state s) (m_limits s) (m_tempDirectory s) (m_delimiter s) (m_boundaryMarker s) (m_buffer
     s) (m_parts s) (m_formFields s) (m_currentPart s) (m_currentPartBytes s) v (m_hasCurrentPart s)
     (m_fileCounter s) (m_currentFile s) (m_files s).

Definition set_m_hasCurrentPart (v : bool) (s : t) : t :=
  mk (m_state s) (m_limits s) (m_tempDirectory s) (m_delimiter s) (m_boundaryMarker s) (m_buffer
     s) (m_parts s) (m_formFields s) (m_currentPart s) (m_currentPartBytes s) (m_totalInputBytes s)
     v (m_fileCounter s) (m_currentFile s) (m_files s).

Definition set_m_fileCounter (v : Z) (s : t) : t :=
  mk (m_state s) (m_limits s) (m_tempDirectory s) (m_delimiter s) (m_boundaryMarker s) (m_buffer
     s) (m_parts s) (m_formFields s) (m_currentPart s) (m_currentPartBytes s) (m_totalInputBytes s)
     (m_hasCurrentPart s) v (m_currentFile s) (m_files s).

Definition set_m_currentFile (v : option (list byte)) (s : t) : t :=
  mk (m_state s) (m_limits s) (m_tempDirectory s) (m_delimiter s) (m_boundaryMarker s) (m_buffer
     s) (m_parts s) (m_formFields s) (m_currentPart s) (m_currentPartBytes s) (m_totalInputBytes s)
     (m_hasCurrentPart s) (m_fileCounter s) v (m_files s).

Definition set_m_files (v : fs) (s : t) : t :=
  mk (m_state s) (m_limits s) (m_tempDirectory s) (m_delimiter s) (m_boundaryMarker s) (m_buffer
     s) (m_parts s) (m_formFields s) (m_currentPart s) (m_currentPartBytes s) (m_totalInputBytes s)
     (m_hasCurrentPart s) (m_fileCounter s) (m_currentFile s) v.

Definition set_part_data (v : list byte) (p : MultipartPart) : MultipartPart :=
  mkPart (part_headers p) (part_name p) (part_fileName p) (part_contentType p) v
     (part_tempFilePath p) (part_sizeBytes p) (part_storedOnDisk p) (part_isFile p).

Definition set_part_tempFilePath (v : list byte) (p : MultipartPart) : MultipartPart :=
  mkPart (part_headers p) (part_name p) (part_fileName p) (part_contentType p) (part_data p) v
     (part_sizeBytes p) (part_storedOnDisk p) (part_isFile p).

Definition set_part_sizeBytes (v : Z) (p : MultipartPart) : MultipartPart :=
  mkPart (part_headers p) (part_name p) (part_fileName p) (part_contentType p) (part_data p)
     (part_tempFilePath p) v (part_storedOnDisk p) (part_isFile p).

Definition set_part_storedOnDisk (v : bool) (p : MultipartPart) : MultipartPart :=
  mkPart (part_headers p) (part_name p) (part_fileName p) (part_contentType p) (part_data p)
     (part_tempFilePath p) (part_sizeBytes p) v (part_isFile p).

(** ** Temporary files *)

Definition closeCurrentFile_ (s : t) : t :=
  match m_currentFile s with
  | Some path => set_m_currentFile None (set_m_files (closeFile path (m_files s)) s)
  | None => s
  end.

Definition removeFile_ (filePath : list byte) (s : t) : t :=
  if isEmpty filePath then s else set_m_files (removeFile filePath (m_files s)) s.

Definition cleanupTemporaryFiles (s : t) : t :=
  let currentPath :=
    if m_hasCurrentPart s && part_storedOnDisk (m_currentPart s) then part_tempFilePath (m_currentPart s) else [] in
  let s := closeCurrentFile_ s in
  let s := removeFile_ currentPath s in
  fold_left (fun s part => if part_storedOnDisk part then removeFile_ (part_tempFilePath part) s else s) (m_parts s) s.

Definition failAndCleanup_ (s : t) : t := cleanupTemporaryFiles (set_m_state Error s).

(** ** Starting *)

(** [reset] keeps the file counter. *)
Definition reset (s : t) : t :=
  let s := cleanupTemporaryFiles s in
  mk NeedInitialBoundary defaultLimits [] [] [] [] [] ∅ emptyPart 0 0 false (m_fileCounter s) (m_currentFile s) (m_files s).

Definition begin (boundary : list byte) (limits : SwHttpLimits) (tempDirectory : list byte) : M t unit :=
  modify reset;;
  fail_if (isEmpty boundary || (70 <? size boundary)) "Missing multipart boundary";;
  s ← get;
  let tempDirectory := if isEmpty tempDirectory then str "http_multipart_tmp" else tempDirectory in
  let streaming := enableMultipartFileStreaming limits in
  let tempDirectory := if streaming then absolutePath tempDirectory else tempDirectory in
  let (made, files) := if streaming then mkpathAbsolute tempDirectory (m_files s) else (true, m_files s) in
  put (mk (m_state s) limits tempDirectory [] [] (m_buffer s) (m_parts s) (m_formFields s) (m_currentPart s)
          (m_currentPartBytes s) (m_totalInputBytes s) (m_hasCurrentPart s) (m_fileCounter s) (m_currentFile s) files);;
  fail_if (negb made) "Unable to create multipart temp directory";;
  let delimiter := str "--" ++ boundary in
  modify (fun s =>
    mk (m_state s) (m_limits s) (m_tempDirectory s) delimiter ([x0d; x0a] ++ delimiter) (m_buffer s) (m_parts s)
       (m_formFields s) (m_currentPart s) (m_currentPartBytes s) (m_totalInputBytes s) (m_hasCurrentPart s)
       (m_fileCounter s) (m_currentFile s) (m_files s)).

(** ** Boundaries *)

(** The byte of the ring buffer at [i], NUL past its end. *)
Definition at_ (i : Z) (s : t) : byte := nth (Z.to_nat i) (m_buffer s) x00.

Definition isAt (c : byte) (i : Z) (s : t) : bool := bool_decide (at_ i s = c).

Definition consume (n : Z) (s : t) : t := set_m_buffer (drop (Z.to_nat n) (m_buffer s)) s.

(** [m_buffer.indexOf]: [int], -1 when there is none. *)
Definition bufferIndexOf (needle : list byte) (s : t) : Z :=
  match find needle (m_buffer s) with Some i => to_int i | None => -1 end.

(** Whether what is buffered agrees with the delimiter, as far as both go. *)
Definition agreesFrom (prefixBytes : Z) (s : t) : bool :=
  let available := if prefixBytes <? zlen (m_buffer s) then Z.min (zlen (m_delimiter s)) (zlen (m_buffer s) -u prefixBytes) else 0 in
  bool_decide (zslice (m_buffer s) prefixBytes available = take (Z.to_nat available) (m_delimiter s)).

(** The first boundary, after [prefixBytes] of an empty line; the answers are [changed]. *)
Definition boundaryAt (finalInput : bool) (prefixBytes : Z) : M t bool :=
  s ← get;
  let bytes := zlen (m_buffer s) in
  if negb (agreesFrom prefixBytes s) then throw "Malformed multipart boundary"
  else
    let suffix := prefixBytes + zlen (m_delimiter s) in
    if bytes <? suffix + 2 then mret false
    else if isAt x2d suffix s && isAt x2d (suffix + 1) s then
      let closeEnd := suffix + 2 in
      if (bytes =? closeEnd) && negb finalInput then mret false
      else if (bytes =? closeEnd + 1) && negb finalInput && isAt x0d closeEnd s then mret false
      else if bytes =? closeEnd + 1 then throw "Malformed multipart closing boundary"
      else if negb (bytes =? closeEnd) && (negb (isAt x0d closeEnd s) || negb (isAt x0a (closeEnd + 1) s))
      then throw "Malformed multipart closing boundary"
      else
        let crlf := (closeEnd + 2 <=? bytes) && isAt x0d closeEnd s && isAt x0a (closeEnd + 1) s in
        modify (consume (if crlf then closeEnd + 2 else closeEnd));;
        modify (set_m_state Done);;
        mret true
    else if negb (isAt x0d suffix s) || negb (isAt x0a (suffix + 1) s)
    then throw "Malformed multipart boundary delimiter"
    else
      modify (consume (suffix + 2));;
      modify (set_m_state NeedPartHeaders);;
      mret true.

Definition consumeInitialBoundary_ (finalInput : bool) : M t bool :=
  s ← get;
  if (0 <? zlen (m_buffer s)) && isAt x0d 0 s then
    if zlen (m_buffer s) <? 2 then mret false
    else if negb (isAt x0a 1 s) then throw "Malformed multipart boundary"
    else boundaryAt finalInput 2
  else boundaryAt finalInput 0.

(** ** Part headers *)

(** [split] at CR LF, its argument a C string: a last part is kept only when it is
    not empty. *)
Fixpoint splitLines_loop (fuel : nat) (text : list byte) : list (list byte) :=
  match fuel with
  | O => []
  | S fuel' =>
      match find [x0d; x0a] text with
      | Some i => beforeNul (take (Z.to_nat i) text) :: splitLines_loop fuel' (drop (Z.to_nat i + 2) text)
      | None => if isEmpty text then [] else [beforeNul text]
      end
  end.

Definition splitLines (text : list byte) : list (list byte) := splitLines_loop (S (length text)) text.

Definition isTokenCharacter (c : byte) : bool := isAlphaNumeric c || bool_decide (c ∈ str "!#$%&'*+-.^_`|~").

Definition isValueCharacter (c : byte) : bool :=
  negb ((b2z c <? 0x20) && negb (bool_decide (c = x09)) || (b2z c =? 0x7f)).

Definition addPartHeader (line : list byte) (outHeaders : StringMap) : result StringMap :=
  if isEmpty line then Ok outHeaders
  else
    let colon := indexOf (str ":") 0 line in
    if colon <=? 0 then Err "Malformed multipart part header"
    else
      let rawKey := left colon line in
      if isEmpty rawKey || negb (forallb isTokenCharacter rawKey) then Err "Malformed multipart part header"
      else
        let key := toLower rawKey in
        let value := trimmed (midFrom (colon + 1) line) in
        if negb (forallb isValueCharacter value) then Err "Malformed multipart part header"
        else
          match outHeaders !! key with
          | Some _ => Err "Duplicate multipart part header"
          | None => Ok (<[key := value]> outHeaders)
          end.

Fixpoint addPartHeaders (lines : list (list byte)) (outHeaders : StringMap) : result StringMap :=
  match lines with
  | [] => Ok outHeaders
  | line :: lines =>
      match addPartHeader line outHeaders with
      | Ok outHeaders => addPartHeaders lines outHeaders
      | r => r
      end
  end.

Definition swHttpParseMultipartHeaders_ (rawHeaders : list byte) (limits : SwHttpLimits) : result StringMap :=
  if maxMultipartPartHeadersBytes limits <? zlen rawHeaders then Err "Multipart part headers too large"
  else addPartHeaders (splitLines rawHeaders) ∅.

(** The part its headers announce. *)
Definition partOf (partHeaders dispositionParams : StringMap) : MultipartPart :=
  let fileName := default [] (dispositionParams !! str "filename") in
  mkPart partHeaders (default [] (dispositionParams !! str "name")) fileName
    (default [] (partHeaders !! str "content-type")) [] [] 0 false (negb (isEmpty fileName)).

(** The attempts to create a temporary file under a name not taken yet. *)
Fixpoint openTempFile (attempts : nat) (s : t) : t :=
  match attempts with
  | O => s
  | S attempts' =>
      match m_currentFile s with
      | Some _ => s
      | None =>
          let (path, files) := makeTempFilePath (m_tempDirectory s) (m_fileCounter s) (m_files s) in
          let (opened, files) := openBinaryExclusive path files in
          let s := set_m_fileCounter (m_fileCounter s +u 1) (set_m_files files s) in
          let s := set_m_currentPart (set_part_tempFilePath path (m_currentPart s)) s in
          openTempFile attempts' (if opened then set_m_currentFile (Some path) s else s)
      end
  end.

(** A part whose headers have been read. *)
Definition startPart (partHeaders : StringMap) : M t bool :=
  match partHeaders !! str "content-disposition" with
  | None => throw "Missing Content-Disposition in multipart part"
  | Some disposition =>
      let (dispositionType, dispositionParams) := swHttpParseHeaderParams_ disposition in
      if negb (eqb dispositionType (str "form-data")) then throw "Unsupported multipart Content-Disposition"
      else
        modify (fun s => set_m_hasCurrentPart true (set_m_currentPartBytes 0
          (set_m_currentPart (partOf partHeaders dispositionParams) s)));;
        s ← get;
        (if part_isFile (m_currentPart s) && enableMultipartFileStreaming (m_limits s) then
           modify (fun s => openTempFile 16 (set_m_currentPart (set_part_storedOnDisk true (m_currentPart s)) s));;
           s ← get;
           fail_if (match m_currentFile s with None => true | _ => false end) "Unable to open multipart temp file"
         else mret tt);;
        modify (set_m_state NeedPartData);;
        mret true
  end.

Definition consumePartHeaders_ : M t bool :=
  s ← get;
  let headerEnd := bufferIndexOf [x0d; x0a; x0d; x0a] s in
  if headerEnd <? 0 then
    if maxMultipartPartHeadersBytes (m_limits s) +u 4 <? zlen (m_buffer s) then throw "Multipart part headers too large"
    else mret false
  else
    partHeaders ← of_result (swHttpParseMultipartHeaders_ (take (Z.to_nat headerEnd) (m_buffer s)) (m_limits s));
    modify (consume (headerEnd + 4));;
    startPart partHeaders.

(** ** Part data *)

Definition appendCurrentData_ (data : list byte) : M t unit :=
  s ← get;
  let len := zlen data in
  if len =? 0 then mret tt
  else if negb (m_hasCurrentPart s) then throw "Multipart state mismatch"
  else if u64_max - len <? m_currentPartBytes s then throw "Multipart part too large"
  else
    modify (fun s => set_m_currentPartBytes (m_currentPartBytes s +u len) s);;
    modify (fun s => set_m_currentPart (set_part_sizeBytes (m_currentPartBytes s) (m_currentPart s)) s);;
    s ← get;
    if part_isFile (m_currentPart s) && enableMultipartFileStreaming (m_limits s) then
      match m_currentFile s with
      | None => throw "Multipart file stream not open"
      | Some path =>
          let (written, files) := writeBuffered path data (m_files s) in
          modify (set_m_files files);;
          fail_if (negb written) "Unable to write multipart file data"
      end
    else
      let held := zlen (part_data (m_currentPart s)) in
      fail_if (negb (part_isFile (m_currentPart s)) &&
               ((maxMultipartFieldBytes (m_limits s) <? held) || (maxMultipartFieldBytes (m_limits s) -u held <? len)))
        "Multipart form field too large";;
      modify (fun s => set_m_currentPart (set_part_data (part_data (m_currentPart s) ++ data) (m_currentPart s)) s).

Fixpoint appendAndConsume_loop (fuel : nat) (remaining : Z) : M t unit :=
  match fuel with
  | O => out_of_fuel
  | S fuel' =>
      if remaining <=? 0 then mret tt
      else
        s ← get;
        let chunk := Z.min remaining (contiguousSize (m_buffer s)) in
        fail_if (chunk =? 0) "Multipart buffer state mismatch";;
        appendCurrentData_ (take (Z.to_nat chunk) (m_buffer s));;
        modify (consume chunk);;
        appendAndConsume_loop fuel' (remaining -u chunk)
  end.

Definition appendAndConsumeCurrentData_ (len : Z) : M t unit := appendAndConsume_loop (S (Z.to_nat len)) len.

Definition finalizeCurrentPart_ : M t unit :=
  s ← get;
  fail_if (negb (m_hasCurrentPart s)) "Multipart state mismatch";;
  modify closeCurrentFile_;;
  s ← get;
  let part := m_currentPart s in
  (if negb (part_isFile part) && negb (isEmpty (part_name part))
   then modify (fun s => set_m_formFields (<[part_name part := part_data part]> (m_formFields s)) s)
   else mret tt);;
  s ← get;
  fail_if (maxMultipartParts (m_limits s) <=? zlen (m_parts s)) "Too many multipart parts";;
  modify (fun s => set_m_hasCurrentPart false (set_m_currentPartBytes 0
    (set_m_currentPart emptyPart (set_m_parts (m_parts s ++ [m_currentPart s]) s)))).

(** What stands after a marker at the front of the buffer. *)
Inductive AfterMarker :=
| Undecided
| NotADelimiter
| Delimiter (closing : bool) (delimiterBytes : Z).

Definition afterMarker (finalInput : bool) (s : t) : AfterMarker :=
  let markerEnd := zlen (m_boundaryMarker s) in
  let bytes := zlen (m_buffer s) in
  if bytes <? markerEnd + 2 then Undecided
  else if isAt x0d markerEnd s && isAt x0a (markerEnd + 1) s then Delimiter false (markerEnd + 2)
  else if isAt x2d markerEnd s && isAt x2d (markerEnd + 1) s then
    let closeEnd := markerEnd + 2 in
    if bytes =? closeEnd then if finalInput then Delimiter true closeEnd else Undecided
    else if bytes =? closeEnd + 1 then
      if negb finalInput && isAt x0d closeEnd s then Undecided else NotADelimiter
    else if isAt x0d closeEnd s && isAt x0a (closeEnd + 1) s then Delimiter true (closeEnd + 2)
    else NotADelimiter
  else NotADelimiter.

Fixpoint consumePartData_loop (fuel : nat) (finalInput changed : bool) : M t bool :=
  match fuel with
  | O => out_of_fuel
  | S fuel' =>
      s ← get;
      let markerPos := bufferIndexOf (m_boundaryMarker s) s in
      if markerPos <? 0 then
        let keep := if isEmpty (m_boundaryMarker s) then 0 else zlen (m_boundaryMarker s) - 1 in
        if keep <? zlen (m_buffer s) then
          appendAndConsumeCurrentData_ (zlen (m_buffer s) -u keep);;
          mret true
        else mret changed
      else
        (if 0 <? markerPos then appendAndConsumeCurrentData_ markerPos else mret tt);;
        let changed := changed || (0 <? markerPos) in
        s ← get;
        match afterMarker finalInput s with
        | Undecided => mret changed
        | NotADelimiter =>
            appendAndConsumeCurrentData_ (zlen (m_boundaryMarker s));;
            consumePartData_loop fuel' finalInput true
        | Delimiter closing delimiterBytes =>
            modify (consume delimiterBytes);;
            finalizeCurrentPart_;;
            modify (set_m_state (if closing then Done else NeedPartHeaders));;
            mret true
        end
  end.

Definition consumePartData_ (finalInput : bool) : M t bool :=
  s ← get;
  if negb (m_hasCurrentPart s) then throw "Multipart state mismatch"
  else consumePartData_loop (S (length (m_buffer s))) finalInput false.

(** ** The parser *)

(** [if (!m()) { failAndCleanup_(); return false; }] *)
Definition orCleanup {A} (m : M t A) : M t A := fun s =>
  match m s with
  | (Err e, s') => (Err e, failAndCleanup_ s')
  | r => r
  end.

Definition processStep (finalInput : bool) : M t bool :=
  s ← get;
  match m_state s with
  | Error => throw "Malformed multipart body"
  | Done => mret false
  | NeedInitialBoundary => orCleanup (consumeInitialBoundary_ finalInput)
  | NeedPartHeaders => orCleanup consumePartHeaders_
  | NeedPartData => orCleanup (consumePartData_ finalInput)
  end.

Fixpoint process_loop (fuel : nat) (finalInput : bool) : M t unit :=
  match fuel with
  | O => out_of_fuel
  | S fuel' =>
      changed ← processStep finalInput;
      if (changed : bool) then process_loop fuel' finalInput else mret tt
  end.

Definition process_ (finalInput : bool) : M t unit :=
  s ← get; process_loop (S (length (m_buffer s))) finalInput.

Definition feed (data : list byte) : M t unit :=
  s ← get;
  (if 0 <? zlen data then
     if (maxBodyBytes (m_limits s) <? m_totalInputBytes s) ||
        (maxBodyBytes (m_limits s) -u m_totalInputBytes s <? zlen data)
     then orCleanup (throw "Multipart body too large")
     else
       modify (fun s => set_m_buffer (m_buffer s ++ data)
         (set_m_totalInputBytes (m_totalInputBytes s +u zlen data) s))
   else mret tt);;
  process_ false.

Definition finish : M t (list MultipartPart * StringMap) :=
  process_ true;;
  s ← get;
  if negb (bool_decide (m_state s = Done)) then orCleanup (throw "Incomplete multipart body")
  else if m_hasCurrentPart s then orCleanup (throw "Incomplete multipart part")
  else
    put (set_m_parts [] (set_m_formFields ∅ s));;
    mret (m_parts s, m_formFields s).

(** ** The interface of the HTTP parser *)

(** The text of [outError], if the call failed. *)
Definition reported {A} (r : result A) : option (list byte) :=
  match r with Ok _ => None | Err e => Some (str e) | NoFuel => Some [] end.

Definition streamParser : MultipartStream := {|
  mp := t;
  mp_new := make;
  mp_reset := reset;
  mp_begin boundary limits dir s := let (r, s) := begin boundary limits dir s in (reported r, s);
  mp_feed data s := let (r, s) := feed data s in (reported r, s);
  mp_finish s :=
    match finish s with
    | (Ok parts, s) => (inr parts, s)
    | (Err e, s) => (inl (str e), s)
    | (NoFuel, s) => (inl [], s)
    end;
  mp_cleanup := cleanupTemporaryFiles
|}.

End Parser.

End SwHttpMultipartStreamParser.
