(* ===== verification/HttpParserLaws.v ===== *)
(** One turn of the HTTP parser of HttpParser.v, step by step: what each parsing
    function leaves alone, the invariant it keeps, and that it does the same with
    more bytes waiting behind those it reads. *)
From Stdlib Require Import ZArith Lia Strings.Byte.
From stdpp Require Import base list strings numbers gmap.
From S2P Require Import Prelude SwString HttpTypes HttpParser.

Import SwString SwHttpTypes.

Module ParserLaws.

Import SwHttpParser.

Section Programs.

Context `{MS : MultipartStream}.

Implicit Types (s : t).

(** ** Programs that do not look at the buffer *)

(** The two fields the parsing of a line leaves alone. *)
Inductive outside := Buffer (b : list byte) | Start (n : Z).

Definition over (o : outside) : t -> t :=
  match o with Buffer b => set_m_buffer b | Start n => set_m_feedOutputStart n end.

(** [m] neither reads nor writes them. *)
Definition framed {A} (m : M t A) : Prop := forall o s, m (over o s) = ((m s).1, over o (m s).2).

Lemma framed_ret {A} (a : A) : framed (mret a).
Proof. done. Qed.

Lemma framed_bind {A B} (m : M t A) (k : A -> M t B) :
  framed m -> (forall a, framed (k a)) -> framed (mbind k m).
Proof.
  intros Hm Hk o s. unfold mbind, M_bind. rewrite Hm. destruct (m s) as [[a|e|] s']; simpl; [apply Hk|done|done].
Qed.

Lemma framed_get {B} (k : t -> M t B) :
  (forall o s, k (over o s) = k s) -> (forall s, framed (k s)) -> framed (mbind k get).
Proof. intros Hg Hk o s. unfold mbind, M_bind, get. simpl. rewrite Hg. apply Hk. Qed.

Lemma framed_modify f : (forall o s, f (over o s) = over o (f s)) -> framed (modify f).
Proof. intros Hf o s. unfold modify. simpl. by rewrite Hf. Qed.

Lemma framed_if {A} (c : bool) (m1 m2 : M t A) : framed m1 -> framed m2 -> framed (if c then m1 else m2).
Proof. by destruct c. Qed.

Lemma setError_over status msg o s : setError_ status msg (over o s) = over o (setError_ status msg s).
Proof. destruct s, o; simpl; unfold setError_; simpl; by destruct m_multipartStreamingActive0. Qed.

Lemma framed_refuse status msg : framed (refuse status msg).
Proof. apply framed_bind; [apply framed_modify; intros; apply setError_over|intros; apply framed_ret]. Qed.

Lemma applyConnection_over o s : applyConnection (over o s) = over o (applyConnection s).
Proof.
  assert (header "connection" (over o s) = header "connection" s) as H by by destruct o.
  unfold applyConnection. rewrite H. destruct (header "connection" s); [|done].
  destruct (swHttpHeaderContainsToken _ _); [by destruct o|]. destruct (swHttpHeaderContainsToken _ _); by destruct o.
Qed.

(** What a framed program leaves as it was. *)
Lemma framed_buffer {A} (m : M t A) s : framed m -> m_buffer (m s).2 = m_buffer s.
Proof.
  intros Hm. specialize (Hm (Buffer (m_buffer s)) s). replace (over (Buffer (m_buffer s)) s) with s in Hm by by destruct s.
  rewrite (surjective_pairing (m s)) in Hm. injection Hm as Hm. by rewrite Hm at 1.
Qed.

Lemma framed_start {A} (m : M t A) s : framed m -> m_feedOutputStart (m s).2 = m_feedOutputStart s.
Proof.
  intros Hm. specialize (Hm (Start (m_feedOutputStart s)) s).
  replace (over (Start (m_feedOutputStart s)) s) with s in Hm by by destruct s.
  rewrite (surjective_pairing (m s)) in Hm. injection Hm as Hm. by rewrite Hm at 1.
Qed.

(** ** Total correctness of a program of the parser *)

(** [m] returns from [s], with an answer and a state in [Q]. *)
Definition wp {A} (m : M t A) (Q : A -> t -> Prop) (s : t) : Prop :=
  exists a s', m s = (Ok a, s') /\ Q a s'.

Lemma wp_ret {A} (a : A) (Q : A -> t -> Prop) s : Q a s -> wp (mret a) Q s.
Proof. intros H. by exists a, s. Qed.

Lemma wp_bind {A B} (m : M t A) (k : A -> M t B) (R : A -> t -> Prop) Q s :
  wp m R s -> (forall a s', R a s' -> wp (k a) Q s') -> wp (mbind k m) Q s.
Proof. intros (a & s' & Hm & HR) Hk. unfold wp, mbind, M_bind. rewrite Hm. by apply Hk. Qed.

Lemma wp_get {B} (k : t -> M t B) Q s : wp (k s) Q s -> wp (mbind k get) Q s.
Proof. done. Qed.

Lemma wp_modify {B} f (k : unit -> M t B) Q s : wp (k tt) Q (f s) -> wp (mbind k (modify f)) Q s.
Proof. done. Qed.

Lemma wp_put {B} s' (k : unit -> M t B) Q s : wp (k tt) Q s' -> wp (mbind k (put s')) Q s.
Proof. done. Qed.

Lemma wp_weaken {A} (m : M t A) (R Q : A -> t -> Prop) s :
  wp m R s -> (forall a s', R a s' -> Q a s') -> wp m Q s.
Proof. intros (a & s' & Hm & HR) HQ. exists a, s'. auto. Qed.

Lemma wp_run {A} (m : M t A) Q s a s' : wp m Q s -> m s = (Ok a, s') -> Q a s'.
Proof. intros (b & s1 & Hm & HQ) H. rewrite H in Hm. by injection Hm as -> ->. Qed.

Lemma wp_framed {A} (m : M t A) Q s : framed m -> wp m Q s ->
  wp m (fun a s' => Q a s' /\ m_buffer s' = m_buffer s /\ m_feedOutputStart s' = m_feedOutputStart s) s.
Proof.
  intros Hf (a & s' & Hm & HQ). exists a, s'. pose proof (framed_buffer m s Hf). pose proof (framed_start m s Hf).
  rewrite Hm in *. auto.
Qed.

(** An answer of [true] in [Q], or an error under the same limits. *)
Definition outcome (L : SwHttpLimits) (Q : t -> Prop) (b : bool) (s : t) : Prop :=
  m_limits s = L /\ if b then Q s else m_state s = Error.

Lemma setError_state status msg s : m_state (setError_ status msg s) = Error.
Proof. unfold setError_. by destruct (m_multipartStreamingActive s). Qed.

Lemma setError_limits status msg s : m_limits (setError_ status msg s) = m_limits s.
Proof. unfold setError_. by destruct (m_multipartStreamingActive s). Qed.

Lemma outcome_setError L Q status msg s : m_limits s = L -> outcome L Q false (setError_ status msg s).
Proof. intros H. split; [by rewrite setError_limits|apply setError_state]. Qed.

Lemma wp_refuse L Q status msg s : m_limits s = L -> wp (refuse status msg) (outcome L Q) s.
Proof. intros H. apply wp_modify, wp_ret, outcome_setError, H. Qed.

(** [if (!m()) return false; k]. *)
Lemma wp_then L R Q m k s : wp m (outcome L R) s ->
  (forall s', m_limits s' = L -> R s' -> wp k (outcome L Q) s') ->
  wp (ok ← m; if negb ok then mret false else k) (outcome L Q) s.
Proof. intros Hm Hk. apply (wp_bind _ _ _ _ _ Hm). intros [] s' [HL HR]; simpl; [by apply Hk|by apply wp_ret]. Qed.

End Programs.

Ltac frame_step :=
  lazymatch goal with
  | |- framed (mret _) => apply framed_ret
  | |- framed (refuse _ _) => apply framed_refuse
  | |- framed (mbind _ get) => apply framed_get; [intros [] ?; reflexivity|intros ?]
  | |- framed (modify (setError_ _ _)) => apply framed_modify; intros; apply setError_over
  | |- framed (modify applyConnection) => apply framed_modify; intros; apply applyConnection_over
  | |- framed (modify _) => apply framed_modify; intros [] ?; reflexivity
  | |- framed (mbind _ _) => apply framed_bind; [|intros ?]
  | |- framed (match ?x with _ => _ end) =>
      lazymatch type of x with bool => apply framed_if | _ => destruct x end
  | |- framed _ => solve [eauto with frame]
  end.

Ltac frame := repeat frame_step.

Create HintDb frame.

Section Framed.

Context `{MS : MultipartStream}.

Lemma framed_parseTarget target : framed (parseTarget_ target).
Proof. unfold parseTarget_. destruct (swHttpPercentDecode _ _); frame. Qed.
#[local] Hint Resolve framed_parseTarget : frame.

Lemma framed_requestLine line : framed (parseRequestLine_line line).
Proof. unfold parseRequestLine_line. frame. Qed.

Lemma framed_prepare : framed prepareMultipartStreaming_.
Proof. unfold prepareMultipartStreaming_. frame. Qed.
#[local] Hint Resolve framed_prepare : frame.

Lemma framed_malformed e : framed (malformedMultipart e).
Proof. unfold malformedMultipart. frame. Qed.
#[local] Hint Resolve framed_malformed : frame.

Lemma framed_finalizeMultipart : framed finalizeMultipartStreaming_.
Proof. unfold finalizeMultipartStreaming_. frame. Qed.
#[local] Hint Resolve framed_finalizeMultipart : frame.

Lemma framed_framing chunked len : framed (finalizeHeaders_framing chunked len).
Proof. unfold finalizeHeaders_framing. frame. Qed.
#[local] Hint Resolve framed_framing : frame.

Lemma framed_finalizeHeaders : framed finalizeHeaders_.
Proof. unfold finalizeHeaders_. frame. Qed.

Lemma framed_headerLine line : framed (parseHeaderLine line).
Proof. unfold parseHeaderLine. frame. Qed.

Lemma framed_chunkSize line : framed (parseChunkSize_line line).
Proof. unfold parseChunkSize_line. frame. Qed.

Lemma framed_trailerLine line : framed (parseTrailerLine line).
Proof. unfold parseTrailerLine. frame. Qed.

End Framed.

#[export] Hint Resolve framed_requestLine framed_headerLine framed_chunkSize framed_trailerLine
  framed_finalizeHeaders framed_finalizeMultipart : frame.

Section Invariant.

Context `{ML : MultipartLaws}.

Implicit Types (s : t).

(** ** The invariant *)

(** The counters agree with the request and stay within the limits. *)
Definition counted (L : SwHttpLimits) (s : t) : Prop :=
  m_limits s = L /\
  Z.of_nat (base.size (headers (m_currentRequest s))) <= m_headerCount s <= maxHeaderCount L /\
  0 <= m_headerBytes s <= maxHeaderBytes L /\
  zlen (body (m_currentRequest s)) <= m_bodyBytesReceived s <= maxBodyBytes L /\
  (m_multipartStreamingActive s = true -> mp_ok (m_bodyBytesReceived s) (m_multipartStreamParser s)).

(** What is left of the body, by the state of the parser. *)
Definition phase (L : SwHttpLimits) (s : t) : Prop :=
  match m_state s with
  | RequestLine | Headers => m_bodyBytesReceived s = 0
  | BodyFixed =>
      0 < m_contentLengthRemaining s /\ m_bodyBytesReceived s + m_contentLengthRemaining s <= maxBodyBytes L
  | ChunkData =>
      0 < m_chunkBytesRemaining s /\ m_bodyBytesReceived s + m_chunkBytesRemaining s <= maxBodyBytes L
  | _ => True
  end.

(** Between two turns of the loop. *)
Definition running (L : SwHttpLimits) (s : t) : Prop := counted L s /\ phase L s.

Definition inv (L : SwHttpLimits) (s : t) : Prop := m_limits s = L /\ (m_state s = Error \/ running L s).

(** A running parser in the state [st]. *)
Definition at_ (L : SwHttpLimits) (st : State) (s : t) : Prop := m_state s = st /\ running L s.

Lemma counted_limits L s : counted L s -> m_limits s = L.
Proof. by intros [H _]. Qed.

End Invariant.

(** [counted], field by field. *)
Ltac count := refine (conj _ (conj _ (conj _ (conj _ _)))); try assumption; try done.

(** Branch on the condition of the program. *)
Ltac wp_case :=
  lazymatch goal with
  | |- wp (match ?c with _ => _ end) _ _ => destruct c eqn:?
  | |- wp (let (_, _) := ?c in _) _ _ => destruct c eqn:?
  end.

Ltac refuse_it := apply wp_refuse; first [assumption | by apply counted_limits | by (eapply counted_limits; eassumption)].

Section Lines.

Context `{ML : MultipartLaws}.
Context (L : SwHttpLimits) (HL : limits_ok L).

Implicit Types (s : t).

Lemma wp_parseTarget target s : at_ L RequestLine s -> wp (parseTarget_ target) (fun _ => at_ L RequestLine) s.
Proof.
  intros H. unfold parseTarget_. destruct (swHttpPercentDecode _ _); [|by apply wp_ret].
  apply wp_modify, wp_ret. exact H.
Qed.

Lemma wp_requestLine line s : at_ L RequestLine s ->
  wp (parseRequestLine_line line) (outcome L (at_ L Headers)) s.
Proof.
  intros H. unfold parseRequestLine_line. apply wp_get.
  assert (m_limits s = L) as Hl by apply H. 
  cbv zeta. do 3 (wp_case; [refuse_it|]).
  apply wp_modify. eapply wp_bind; [apply wp_parseTarget; exact H|].
  intros [] s' [Hs' [Hc Hp]]; simpl; [|refuse_it].
  apply wp_modify, wp_modify, wp_ret. split; [apply Hc|].
  split; [done|]. split; [exact Hc|]. unfold phase in *. rewrite Hs' in Hp. exact Hp.
Qed.

Lemma wp_prepare s : counted L s -> m_bodyBytesReceived s = 0 ->
  wp prepareMultipartStreaming_ (outcome L (fun s' => counted L s' /\ m_bodyBytesReceived s' = 0)) s.
Proof.
  intros H H0. unfold prepareMultipartStreaming_. apply wp_modify, wp_get.
  assert (counted L (set_m_multipartStreamParser (mp_reset (m_multipartStreamParser s)) (set_m_multipartStreamingActive false s))) as H'.
  { destruct H as (? & ? & ? & ? & _). count. }
  assert (m_limits s = L) as Hl by apply H.
  wp_case; [by apply wp_ret|]. wp_case; [|by apply wp_ret]. wp_case; [by apply wp_ret|].
  wp_case; [|refuse_it]. wp_case. apply wp_modify. wp_case.
  - wp_case; [refuse_it|]. apply wp_modify, wp_ret, outcome_setError, Hl.
  - apply wp_modify, wp_modify, wp_ret. split; [done|]. destruct H' as (? & ? & ? & ? & _).
    split; [|exact H0]. count. simpl in *. rewrite H0. intros _. rewrite Hl in *. eapply mp_begin_ok; eassumption.
Qed.

Lemma wp_finalizeMultipart s : counted L s ->
  wp finalizeMultipartStreaming_ (outcome L (fun s' => counted L s' /\ m_bodyBytesReceived s' = m_bodyBytesReceived s)) s.
Proof.
  intros H. unfold finalizeMultipartStreaming_. apply wp_get. assert (m_limits s = L) as Hl by apply H.
  wp_case; [by apply wp_ret|]. wp_case. apply wp_modify. wp_case.
  - unfold malformedMultipart. wp_case; [refuse_it|]. apply wp_modify, wp_ret, outcome_setError, Hl.
  - wp_case. apply wp_modify, wp_modify, wp_ret. split; [done|]. split; [|done].
    destruct H as (? & ? & ? & ? & _). count.
Qed.

Lemma parseDecimal_nonneg text v : 0 <= v -> forall r, parseDecimal_loop text v = Some r -> 0 <= r.
Proof.
  revert v. induction text as [|c text IH]; intros v Hv r; cbn [parseDecimal_loop]; [congruence|].
  destruct ((b2z c <? 48) || _) eqn:E; [done|]. cbv zeta. destruct (_ <? v); [done|]. apply IH. lia.
Qed.

(** What [finalizeHeaders_] leads to. *)
Definition framed_body (s : t) : Prop := running L s /\ (m_state s = Complete \/ m_state s = BodyFixed \/ m_state s = ChunkSize).

Lemma wp_framing chunked len s : at_ L Headers s -> (forall n, len = Some n -> 0 <= n) ->
  wp (finalizeHeaders_framing chunked len) (outcome L framed_body) s.
Proof.
  intros (Hs & Hc & Hp) Hlen. unfold finalizeHeaders_framing. apply wp_get.
  assert (m_limits s = L) as Hl by apply Hc. unfold phase in Hp. rewrite Hs in Hp.
  wp_case; [refuse_it|]. cbv zeta. wp_case; [refuse_it|]. wp_case; [refuse_it|]. 
  eapply (wp_bind _ _ (fun _ s' => counted L s' /\ m_bodyBytesReceived s' = 0)).
  { wp_case; [by exists tt, (set_m_continueNeeded true s)|by apply wp_ret]. }
  clear Hs Hc Hp. intros _ s1 [Hc Hp]. wp_case; [|wp_case].
  - apply wp_modify. eapply wp_then; [by apply wp_prepare|]. intros s2 _ [Hc2 H2]. apply wp_modify, wp_ret.
    split; [apply Hc2|]. split; [|auto]. by split.
  - eapply wp_then; [by apply wp_prepare|]. intros s2 _ [Hc2 H2]. apply wp_modify, wp_ret.
    split; [apply Hc2|]. split; [|auto]. split; [done|]. pose proof (f_equal maxBodyBytes Hl). unfold phase. simpl. lia.
  - apply wp_modify, wp_ret. split; [apply Hc|]. split; [|auto]. by split.
Qed.

Lemma wp_finalizeHeaders s : at_ L Headers s -> wp finalizeHeaders_ (outcome L framed_body) s.
Proof.
  intros H. unfold finalizeHeaders_. apply wp_get. assert (m_limits s = L) as Hl by apply H.
  do 2 (wp_case; [refuse_it|]). apply wp_modify, wp_get.
  assert (at_ L Headers (applyConnection s)) as H1.
  { unfold applyConnection. destruct (header "connection" s); [|exact H]. destruct (swHttpHeaderContainsToken _ _); [exact H|].
    destruct (swHttpHeaderContainsToken _ _); exact H. }
  clear Hl. assert (m_limits (applyConnection s) = L) as Hl by apply H1. cbv zeta.
  do 2 (wp_case; [refuse_it|]). wp_case; [wp_case|].
  - apply wp_framing; [done|]. intros n [= <-]. unfold parseDecimalSize_ in *. destruct (isEmpty _); [done|].
    by eapply parseDecimal_nonneg; [|eassumption].
  - refuse_it.
  - by apply wp_framing.
Qed.

Lemma insert_size (key value : list byte) (m : StringMap) : (base.size (<[key := value]> m) <= S (base.size m))%nat.
Proof.
  rewrite map_size_insert. destruct (m !! key); simpl; lia.
Qed.

Lemma wp_headerLine line s : at_ L Headers s -> wp (parseHeaderLine line) (outcome L (at_ L Headers)) s.
Proof.
  intros H. unfold parseHeaderLine. apply wp_get. assert (m_limits s = L) as Hl by apply H.
  wp_case; [refuse_it|]. apply wp_modify. wp_case; [refuse_it|]. cbv zeta.
  do 2 (wp_case; [refuse_it|]).
  destruct H as (Hs & (H1 & H2 & H3 & H4 & H5) & H6). rewrite Hl in *.
  assert (m_headerCount s +u 1 = m_headerCount s + 1) as Hw. { apply add64_small. destruct HL as (_ & _ & ? & _). unfold u64_max in *. lia. }
  rewrite Hw in *.
  assert (forall key value, Z.of_nat (base.size (<[key := value]> (headers (m_currentRequest s)))) <= m_headerCount s + 1) as Hi.
  { intros key value. pose proof (insert_size key value (headers (m_currentRequest s))). lia. }
  wp_case; [wp_case; [refuse_it|]|].
  all: apply wp_modify, wp_ret; split; [exact Hl|]; split; [exact Hs|]; split; [|exact H6].
  all: count; simpl; split; [apply Hi|lia].
Qed.

Lemma wp_trailerLine line s : at_ L ChunkTrailers s -> wp (parseTrailerLine line) (outcome L (at_ L ChunkTrailers)) s.
Proof.
  intros H. unfold parseTrailerLine. apply wp_get. assert (m_limits s = L) as Hl by apply H. cbv zeta.
  do 2 (wp_case; [refuse_it|]). apply wp_modify. wp_case; [refuse_it|].
  apply wp_ret. destruct H as (Hs & (H1 & H2 & H3 & H4 & H5) & H6). rewrite Hl in *.
  assert (m_headerCount s +u 1 = m_headerCount s + 1) as Hw. { apply add64_small. destruct HL as (_ & _ & ? & _). unfold u64_max in *. lia. }
  rewrite Hw in *. split; [done|]. split; [done|]. split; [|exact H6]. count. simpl. lia.
Qed.

Lemma parseHex_nonneg text v saw : 0 <= v -> forall r, parseHex_loop text v saw = Some r -> 0 <= r.
Proof.
  revert v saw. induction text as [|c text IH]; intros v saw Hv r; cbn [parseHex_loop].
  - destruct saw; congruence.
  - destruct (decide _); [destruct saw; congruence|]. cbv zeta. destruct (swHttpHexValue c <? 0) eqn:E; [done|].
    destruct (_ <? v); [done|]. apply IH. lia.
Qed.

Lemma wp_chunkSizeLine line s : at_ L ChunkSize s ->
  wp (parseChunkSize_line line) (outcome L (fun s' => running L s' /\ (m_state s' = ChunkTrailers \/ m_state s' = ChunkData))) s.
Proof.
  intros H. unfold parseChunkSize_line. apply wp_get. assert (m_limits s = L) as Hl by apply H.
  wp_case; [refuse_it|]. wp_case; [|refuse_it]. do 2 (wp_case; [refuse_it|]).
  apply wp_modify, wp_modify, wp_ret. split; [done|].
  assert (0 <= z) as Hz. { unfold swHttpParseHexSize in *. destruct (isEmpty _); [done|]. by eapply parseHex_nonneg; [|eassumption]. }
  destruct H as (Hs & (H1 & H2 & H3 & H4 & H5) & H6). rewrite Hl in *.
  split; [split; [count|]|simpl; destruct (z =? 0); auto]. unfold phase. simpl. destruct (z =? 0) eqn:E; [done|]. simpl.
  destruct (Z.ltb_spec (maxBodyBytes L) (m_bodyBytesReceived s)); [done|]. simpl in *.
  rewrite sub64_small in * by (destruct HL as (_ & _ & _ & ? & _); unfold u64_max in *; lia). lia.
Qed.

End Lines.
End ParserLaws.
