(* ===== verification/HttpParserSteps.v ===== *)
(** One turn of the HTTP parser of HttpParser.v: it returns, it keeps the
    invariant, it makes progress or rests, and it does the same when more bytes
    wait behind those it reads. *)
From Stdlib Require Import ZArith Lia Strings.Byte.
From stdpp Require Import base list strings numbers gmap.
From S2P Require Import Prelude SwString HttpTypes HttpParser HttpParserLaws.

Import SwString SwHttpTypes.

Module ParserSteps.

Import SwHttpParser ParserLaws.

Section Steps.

Context `{ML : MultipartLaws}.
Context (contiguousSize : list byte -> Z).
Context (contiguousSize_range : forall l, l <> [] -> 0 < contiguousSize l <= zlen l).
Context (L : SwHttpLimits) (HL : limits_ok L).

Implicit Types (s : t) (d : list byte).

(** More bytes behind those the parser holds. *)
Definition more (d : list byte) (s : t) : t := set_m_buffer (m_buffer s ++ d) s.

(** Refused, with the parser in its error state. *)
Definition failed (x : result bool * t) : Prop := x.1 = Ok false /\ m_state x.2 = Error.

(** The same result, or two refusals. *)
Definition alike (x y : result bool * t) : Prop := x = y \/ failed x /\ failed y.

Lemma alike_refl x : alike x x.
Proof. by left. Qed.

Lemma framed_more (m : M t bool) d s : framed m -> m (more d s) = ((m s).1, more d (m s).2).
Proof.
  intros Hm. change (more d s) with (over (Buffer (m_buffer s ++ d)) s). rewrite (Hm (Buffer (m_buffer s ++ d)) s). unfold more. by rewrite (framed_buffer m s Hm).
Qed.

(** What [m] did from [s] it does with [d] behind: it consumes the same and goes on
    the same; where it waited it goes on from where it was; where it refused it
    still refuses, unless the bytes were cut between a CR and its LF. *)
Definition extends (m : M t bool) (d : list byte) (s : t) (b : bool) (s1 : t) : Prop :=
  (b = true -> m (more d s) = (Ok true, more d s1)) /\
  (b = false -> m_state s1 <> Error -> alike (m (more d s)) (m (more d s1))) /\
  (b = false -> m_state s1 = Error -> zlen (m_buffer s) + zlen d < 2147483648 ->
     last (m_buffer s) <> Some x0d -> failed (m (more d s))).

Definition rank (s : t) : nat := 2 * length (m_buffer s) + (if decide (m_state s = Complete) then 1 else 0).

(** A parser that waits for bytes holds few. *)
Definition rests (s : t) : Prop :=
  running L s /\ zlen (m_buffer s) <= Z.max (Z.max (maxRequestLineBytes L) (maxHeaderBytes L)) 1.

(** A turn from [s]. *)
Definition turn (s : t) (b : bool) (s1 : t) : Prop :=
  m_feedOutputStart s1 = m_feedOutputStart s /\
  (exists k, m_buffer s1 = drop k (m_buffer s)) /\
  (if b then running L s1 /\ (rank s1 < rank s)%nat else m_limits s1 = L /\ (m_state s1 = Error \/ rests s1 /\ m_state s1 = m_state s)).

Lemma turn_refused s s2 k status msg :
  m_feedOutputStart s2 = m_feedOutputStart s -> m_buffer s2 = drop k (m_buffer s) -> m_limits s2 = L ->
  turn s false (setError_ status msg s2).
Proof.
  intros Hf Hb Hl. unfold turn. rewrite setError_limits, setError_state.
  split; [|split; [exists k|by auto]]; unfold setError_; by destruct (m_multipartStreamingActive s2).
Qed.

Lemma turn_after s s2 k s1 : m_feedOutputStart s2 = m_feedOutputStart s -> m_buffer s2 = drop k (m_buffer s) ->
  m_state s2 = m_state s -> turn s2 false s1 -> turn s false s1.
Proof.
  intros Hf Hb Hs (H1 & [j H2] & H3). split; [congruence|]. split; [|by rewrite <-Hs]. exists (k + j)%nat. by rewrite H2, Hb, drop_drop.
Qed.

Lemma turn_rests s : rests s -> turn s false s.
Proof. intros H. split; [done|]. split; [by exists 0%nat|]. split; [apply H|by right]. Qed.

Lemma last_drop_cr k (l : list byte) : last l <> Some x0d -> last (drop k l) <> Some x0d.
Proof.
  intros H E. apply H. rewrite <-(take_drop k l), last_app, E. done.
Qed.

(** ** Lines *)

Lemma popLine_Some s line s1 : popLine_ s = Some (line, s1) ->
  exists n, (n = length line + 2)%nat /\ (n <= length (m_buffer s))%nat /\
    s1 = set_m_buffer (drop n (m_buffer s)) s /\
    forall d, popLine_ (more d s) = Some (line, more d s1).
Proof.
  unfold popLine_. destruct (find crlf (m_buffer s)) as [i|] eqn:E; [|done]. cbv zeta.
  destruct (Z.ltb_spec (to_int i) 0); [done|]. intros [= <- <-].
  pose proof (find_Some _ _ _ E) as (H0 & H1 & _). pose proof (to_int_le i H0). change (zlen crlf) with 2 in H1.
  exists (Z.to_nat (to_int i + 2)). split; [rewrite length_take; lia|]. split; [lia|]. split; [done|].
  intros d. unfold more. cbn [m_buffer set_m_buffer]. rewrite (find_app _ _ d _ E). cbv zeta.
  destruct (Z.ltb_spec (to_int i) 0); [lia|]. rewrite take_app_le, drop_app_le by lia. done.
Qed.

(** A line that more bytes complete reaches past the bytes there were. *)
Lemma popLine_completed d s line s1 : popLine_ s = None -> popLine_ (more d s) = Some (line, s1) ->
  zlen (m_buffer s) + zlen d < 2147483648 ->
  zlen (m_buffer s) <= zlen line \/ zlen (m_buffer s) = zlen line + 1 /\ last (m_buffer s) = Some x0d.
Proof.
  unfold popLine_, more. cbn [m_buffer set_m_buffer]. intros Hn Hs Hd.
  destruct (find crlf (m_buffer s ++ d)) as [i|] eqn:E; [|done]. cbv zeta in Hs.
  pose proof (find_Some _ _ _ E) as (H0 & H1 & H2). change (zlen crlf) with 2 in H1. rewrite zlen_app in H1.
  rewrite to_int_small in Hs by lia. destruct (Z.ltb_spec i 0); [done|]. injection Hs as <- _.
  rewrite length_take, length_app.
  destruct (Z.le_gt_cases (zlen (m_buffer s)) i); [left; lia|].
  destruct (decide (zlen (m_buffer s) = i + 1)) as [Hi|Hi].
  - right. split; [lia|]. assert ((m_buffer s ++ d) !! Z.to_nat i = Some x0d) as Hc.
    { rewrite H2, lookup_app_r by (rewrite length_take; lia). rewrite length_take, length_app.
      replace (_ - _)%nat with 0%nat by lia. done. }
    rewrite lookup_app_l in Hc by lia. rewrite last_lookup. replace (pred _) with (Z.to_nat i) by lia. done.
  - exfalso. destruct (find crlf (m_buffer s)) as [j|] eqn:Ej.
    + pose proof (find_Some _ _ _ Ej) as (Hj0 & Hj & _). change (zlen crlf) with 2 in Hj. cbv zeta in Hn.
      rewrite to_int_small in Hn by lia. destruct (Z.ltb_spec j 0); [lia|done].
    + apply (f_equal (take (length (m_buffer s)))) in H2. rewrite take_app_length in H2.
      rewrite app_assoc, take_app_ge in H2 by (rewrite length_app, length_take, length_app; change (length crlf) with 2%nat; lia).
      rewrite <-app_assoc in H2. destruct (find_occurs crlf (take (Z.to_nat i) (m_buffer s ++ d)) (take (length (m_buffer s) - length (take (Z.to_nat i) (m_buffer s ++ d) ++ crlf)) (drop (Z.to_nat i + length crlf) (m_buffer s ++ d)))) as [j Hj].
      congruence.
Qed.

(** A turn that reads one line. *)
Definition one_line (status : Z) (message : string) (proc : list byte -> M t bool) : M t bool :=
  s ← get;
  match popLine_ s with
  | None => awaitLine 0 (maxRequestLineBytes (m_limits s)) status message
  | Some (line, s) => put s;; proc line
  end.

Lemma one_line_extends status message st Q proc d s b s1 :
  st <> Error -> (forall line, framed (proc line)) ->
  (forall line s, at_ L st s -> wp (proc line) (outcome L Q) s) ->
  (forall line s, at_ L st s -> maxRequestLineBytes L < zlen line -> failed (proc line s)) ->
  at_ L st s -> one_line status message proc s = (Ok b, s1) -> extends (one_line status message proc) d s b s1.
Proof.
  intros Hst Hf Hw Hlong Hs. assert (m_limits s = L) as Hl by apply Hs.
  assert (0 <= maxRequestLineBytes L <= u64_max) as Hm by apply HL.
  unfold one_line. m_run. destruct (popLine_ s) as [[line s']|] eqn:E.
  - apply popLine_Some in E as (n & Hn & Hn' & -> & Hmore). intros H.
    assert (at_ L st (set_m_buffer (drop n (m_buffer s)) s)) as Hs' by exact Hs.
    pose proof (wp_run _ _ _ _ _ (Hw line _ Hs') H) as [_ Ho].
    unfold extends. rewrite Hmore, framed_more by done. rewrite H. cbn [fst snd].
    destruct b; [by split_and!|]. by split_and!.
  - unfold awaitLine. m_run. rewrite Hl. unfold pendingBufferExceedsLimit_ at 1.
    destruct (Z.ltb_spec (maxRequestLineBytes L) 0); [lia|]. rewrite sub64_small by (unfold u64_max in *; lia).
    destruct (Z.ltb_spec (maxRequestLineBytes L - 0) (zlen (m_buffer s))).
    + intros [= <- <-]. split_and!; [done|intros _ Hne; by rewrite setError_state in Hne|].
      intros _ _ Hd Hcr. destruct (popLine_ (more d s)) as [[line s']|] eqn:E'.
      * destruct (popLine_completed _ _ _ _ E E' Hd) as [Hlen|[_ Hc]]; [|done].
        apply Hlong; [|lia]. apply popLine_Some in E' as (n & _ & _ & -> & _). exact Hs.
      * unfold pendingBufferExceedsLimit_. change (m_limits (more d s)) with (m_limits s). rewrite Hl.
        destruct (Z.ltb_spec (maxRequestLineBytes L) 0); [lia|]. rewrite sub64_small by (unfold u64_max in *; lia).
        unfold more. cbn [m_buffer set_m_buffer]. rewrite zlen_app.
        destruct (Z.ltb_spec (maxRequestLineBytes L - 0) (zlen (m_buffer s) + zlen d)); [|lia].
        split; [done|apply setError_state].
    + intros [= <- <-]. split_and!; [done|intros; apply alike_refl|]. intros _ He. exfalso. apply Hst. rewrite <-He. by destruct Hs.
Qed.

Lemma one_line_turn status message st Q proc s :
  (forall line, framed (proc line)) ->
  (forall line s, at_ L st s -> wp (proc line) (outcome L Q) s) -> (forall s, Q s -> running L s) ->
  at_ L st s -> wp (one_line status message proc) (turn s) s.
Proof.
  intros Hf Hw HQ Hs. assert (m_limits s = L) as Hl by apply Hs.
  assert (0 <= maxRequestLineBytes L <= u64_max) as Hm by apply HL.
  unfold one_line. apply wp_get. destruct (popLine_ s) as [[line s']|] eqn:E.
  - apply popLine_Some in E as (n & Hn & Hn' & -> & _). apply wp_put. eapply wp_weaken.
    { apply wp_framed; [apply Hf|]. apply Hw. exact Hs. }
    intros b s1 ([Hl1 Ho] & Hb & Hst). cbn [m_buffer set_m_buffer] in Hb. split; [done|]. split; [by eexists|].
    destruct b; [|by split; [|left]]. split; [by apply HQ|]. unfold rank. rewrite Hb, length_drop.
    destruct (decide _), (decide _); lia.
  - unfold awaitLine. apply wp_get. rewrite Hl. unfold pendingBufferExceedsLimit_.
    destruct (Z.ltb_spec (maxRequestLineBytes L) 0); [lia|]. rewrite sub64_small by (unfold u64_max in *; lia).
    destruct (Z.ltb_spec (maxRequestLineBytes L - 0) (zlen (m_buffer s))).
    + by apply wp_modify, wp_ret, (turn_refused s s 0).
    + apply wp_ret, turn_rests. split; [apply Hs|]. lia.
Qed.

(** ** Lists of lines, up to an empty one *)

Fixpoint lines_loop (status : Z) (message : string) (proc : list byte -> M t bool) (fin : M t bool) (fuel : nat) : M t bool :=
  match fuel with
  | O => out_of_fuel
  | S fuel' =>
      s ← get;
      match popLine_ s with
      | None => awaitLine (m_headerBytes s) (maxHeaderBytes (m_limits s)) status message
      | Some (line, s) =>
          let headerBytes := m_headerBytes s +u (size line +u 2) in
          put (set_m_headerBytes headerBytes s);;
          if maxHeaderBytes (m_limits s) <? headerBytes then refuse status message
          else if isEmpty line then fin
          else
            ok ← proc line;
            if negb ok then mret false else lines_loop status message proc fin fuel'
      end
  end.

Section Lines.

Context (status : Z) (message : string) (proc : list byte -> M t bool) (fin : M t bool) (st : State) (Q : t -> Prop).
Context (Hst : st <> Error) (Hproc : forall line, framed (proc line)) (Hfin : framed fin).
Context (Wproc : forall line s, at_ L st s -> wp (proc line) (outcome L (at_ L st)) s).
Context (Wfin : forall s, at_ L st s -> wp fin (outcome L Q) s) (HQ : forall s, Q s -> running L s).

Abbreviation loop := (lines_loop status message proc fin).

Lemma lines_fuel n1 n2 s : (length (m_buffer s) < n1)%nat -> (length (m_buffer s) < n2)%nat -> loop n1 s = loop n2 s.
Proof.
  revert n2 s. induction n1 as [|n1 IH]; intros [|n2] s H1 H2; [lia..|]. cbn [lines_loop]. m_run.
  destruct (popLine_ s) as [[line s']|] eqn:E; [|done]. apply popLine_Some in E as (n & Hn & Hn' & -> & _).
  destruct (_ <? _); [done|]. destruct (isEmpty line); [done|].
  match goal with |- context [proc line ?s1] => pose proof (framed_buffer _ s1 (Hproc line)) as Hb; destruct (proc line s1) as [[[]|?|] s2] end;
    [|done..]. simpl in Hb |- *. apply IH; rewrite Hb, length_drop; lia.
Qed.

Definition lines : M t bool := s ← get; loop (S (length (m_buffer s))).

(** The state after a line has been counted. *)
Definition counted_line (line : list byte) (s : t) : t := set_m_headerBytes (m_headerBytes s +u (size line +u 2)) s.

Lemma lines_unfold s :
  lines s =
  match popLine_ s with
  | None => awaitLine (m_headerBytes s) (maxHeaderBytes (m_limits s)) status message s
  | Some (line, s') =>
      let s2 := counted_line line s' in
      if maxHeaderBytes (m_limits s2) <? m_headerBytes s2 then refuse status message s2
      else if isEmpty line then fin s2
      else mbind (fun ok : bool => if negb ok then mret false else lines) (proc line) s2
  end.
Proof.
  unfold lines at 1, mbind at 1, M_bind, get. cbn [lines_loop]. unfold mbind at 1, M_bind, get.
  destruct (popLine_ s) as [[line s']|] eqn:E; [|done]. apply popLine_Some in E as (n & Hn & Hn' & -> & _).
  unfold mbind at 1, M_bind, put. cbv zeta. cbn [m_limits counted_line m_headerBytes set_m_headerBytes set_m_buffer].
  destruct (_ <? _); [done|]. destruct (isEmpty line); [done|]. unfold mbind, M_bind.
  match goal with |- context [proc line ?s1] => pose proof (framed_buffer _ s1 (Hproc line)) as Hb end.
  destruct (proc line _) as [[[]|?|] s2] eqn:E2 in |- *; [|done..]. rewrite E2 in Hb. simpl in Hb |- *.
  apply lines_fuel; rewrite ?Hb, ?length_drop; lia.
Qed.

Lemma counted_line_at line s : at_ L st s ->
  (maxHeaderBytes (m_limits (counted_line line s)) <? m_headerBytes (counted_line line s)) = false ->
  at_ L st (counted_line line s).
Proof.
  intros (Hs & (H1 & H2 & H3 & H4 & H5) & H6) H. cbn [m_limits counted_line m_headerBytes set_m_headerBytes] in H.
  rewrite H1 in H. pose proof (wrap64_range (m_headerBytes s + (size line +u 2))) as Hr. unfold is_u64 in Hr.
  fold (m_headerBytes s +u (size line +u 2)) in Hr. split; [done|]. split; [count|exact H6]. simpl. lia.
Qed.


Lemma awaitLine_spec used max s : 0 <= used <= max -> max <= u64_max ->
  awaitLine used max status message s =
  if max - used <? zlen (m_buffer s) then (Ok false, setError_ status (str message) s) else (Ok false, s).
Proof.
  intros H1 H2. unfold awaitLine. m_run. unfold pendingBufferExceedsLimit_.
  destruct (Z.ltb_spec max used); [lia|]. rewrite sub64_small by (unfold u64_max in *; lia). by destruct (_ <? _).
Qed.

Lemma header_limits s : at_ L st s -> 0 <= m_headerBytes s <= maxHeaderBytes L /\ maxHeaderBytes L < 2 ^ 63 /\ maxHeaderBytes L <= u64_max.
Proof. intros (_ & (_ & _ & H & _) & _). destruct HL as (_ & ? & _). unfold u64_max in *. lia. Qed.

(** Trying a line: an induction on the bytes left. *)
Lemma lines_turn s : at_ L st s -> wp lines (turn s) s.
Proof.
  remember (length (m_buffer s)) as n eqn:Hn. revert s Hn. induction (lt_wf n) as [n _ IH]. intros s -> Hs.
  assert (m_limits s = L) as Hl by apply Hs. pose proof (header_limits s Hs) as (Hb1 & Hb2 & Hb3).
  unfold wp. rewrite lines_unfold. destruct (popLine_ s) as [[line s']|] eqn:E.
  - apply popLine_Some in E as (k & Hk & Hk' & -> & _). cbv zeta.
    set (s2 := counted_line line _). assert (m_buffer s2 = drop k (m_buffer s)) as Hb by done.
    assert (m_feedOutputStart s2 = m_feedOutputStart s) as Hf by done.
    destruct (_ <? _) eqn:El.
    + eexists _, _. split; [reflexivity|]. by eapply turn_refused.
    + apply (counted_line_at line (set_m_buffer (drop k (m_buffer s)) s)) in El; [|exact Hs].
      fold s2 in El. destruct (isEmpty line).
      * destruct (wp_framed _ _ _ Hfin (Wfin s2 El)) as (b & s3 & -> & [Hl3 Ho] & Hb3' & Hf3). exists b, s3. split; [done|].
        split; [by rewrite Hf3|]. split; [exists k; by rewrite Hb3'|]. destruct b; [|by split; [|left]].
        split; [by apply HQ|]. unfold rank. rewrite Hb3', Hb, length_drop. destruct (decide _), (decide _); lia.
      * destruct (wp_framed _ _ _ (Hproc line) (Wproc line s2 El)) as (b & s3 & Hrun & [Hl3 Ho] & Hb3' & Hf3).
        unfold mbind, M_bind. rewrite Hrun. destruct b; simpl.
        -- destruct (IH (length (m_buffer s3))) with (s := s3) as (b & s4 & Hrun4 & Hf4 & [j Hj] & Ho4);
             [rewrite Hb3', Hb, length_drop; lia|done|done|].
           exists b, s4. split; [done|]. split; [by rewrite Hf4, Hf3|]. split; [exists (k + j)%nat; by rewrite Hj, Hb3', Hb, drop_drop|].
           destruct b; [|by rewrite (proj1 Hs), <-(proj1 Ho)]. destruct Ho4 as [? Ho4]. split; [done|]. unfold rank in *. rewrite Hb3', Hb, length_drop in Ho4.
           destruct (decide (m_state s3 = Complete)), (decide (m_state s = Complete)); lia.
        -- exists false, s3. split; [done|]. split; [by rewrite Hf3|]. split; [exists k; by rewrite Hb3', Hb|]. by split; [|left].
  - rewrite Hl, awaitLine_spec by lia. destruct (_ <? _) eqn:El; (eexists _, _; split; [reflexivity|]).
    + by apply (turn_refused s s 0).
    + apply turn_rests. split; [apply Hs|]. lia.
Qed.


Lemma lines_extends d s b s1 : at_ L st s -> lines s = (Ok b, s1) -> extends lines d s b s1.
Proof.
  remember (length (m_buffer s)) as n eqn:Hn. revert s Hn b s1. induction (lt_wf n) as [n _ IH]. intros s -> b s1 Hs.
  assert (m_limits s = L) as Hl by apply Hs. pose proof (header_limits s Hs) as (Hb1 & Hb2 & Hb3).
  unfold extends. rewrite lines_unfold, (lines_unfold (more d s)). destruct (popLine_ s) as [[line s']|] eqn:E.
  - apply popLine_Some in E as (k & Hk & Hk' & -> & ->). cbv zeta.
    change (counted_line line (more d ?x)) with (more d (counted_line line x)).
    set (s2 := counted_line line _). assert (m_buffer s2 = drop k (m_buffer s)) as Hb by done.
    change (m_limits (more d s2)) with (m_limits s2). change (m_headerBytes (more d s2)) with (m_headerBytes s2).
    destruct (_ <? _) eqn:El.
    + rewrite framed_more by apply framed_refuse. intros [= <- <-]. split_and!; [done|intros _ H; by rewrite setError_state in H|].
      intros _ _ _ _. split; [done|apply setError_state].
    + apply (counted_line_at line (set_m_buffer (drop k (m_buffer s)) s)) in El; [|exact Hs].
      fold s2 in El. destruct (isEmpty line).
      * rewrite framed_more by done. intros H. pose proof (wp_run _ _ _ _ _ (Wfin s2 El) H) as [_ Ho]. rewrite H.
        destruct b; by split_and!.
      * destruct (wp_framed _ _ _ (Hproc line) (Wproc line s2 El)) as (b3 & s3 & Hrun & [Hl3 Ho] & Hb3' & Hf3).
        unfold mbind, M_bind. rewrite framed_more, Hrun by done. destruct b3; simpl.
        -- intros H. destruct (IH (length (m_buffer s3))) with (s := s3) (b := b) (s1 := s1) as (H1 & H2 & H3);
             [rewrite Hb3', Hb, length_drop; lia|done|done|done|]. split_and!; [done|done|].
           intros Hf He Hd Hcr. apply H3; [done|done|rewrite Hb3', Hb, length_drop; lia|].
           rewrite Hb3', Hb. by apply last_drop_cr.
        -- intros [= <- <-]. by split_and!.
  - rewrite Hl, awaitLine_spec by lia. destruct (Z.ltb_spec (maxHeaderBytes L - m_headerBytes s) (zlen (m_buffer s))).
    + intros [= <- <-]. split_and!; [done|intros _ H'; by rewrite setError_state in H'|]. intros _ _ Hd Hcr.
      destruct (popLine_ (more d s)) as [[line s']|] eqn:E'.
      * pose proof (popLine_completed _ _ _ _ E E' Hd) as Hlen. apply popLine_Some in E' as (k & Hk & Hk' & -> & _).
        unfold more in Hk'. cbn [m_buffer set_m_buffer] in Hk'. rewrite length_app in Hk'.
        cbn [m_limits counted_line m_headerBytes set_m_headerBytes set_m_buffer more].
        rewrite Hl, !add64_small by (unfold size; try (rewrite add64_small; unfold size); lia).
        destruct (Z.ltb_spec (maxHeaderBytes L) (m_headerBytes s + (size line + 2))); [|unfold size in *; destruct Hlen as [?|[? ?]]; lia].
        split; [done|apply setError_state].
      * change (m_headerBytes (more d s)) with (m_headerBytes s). change (m_limits (more d s)) with (m_limits s).
        rewrite Hl, awaitLine_spec by lia. unfold more at 1. cbn [m_buffer set_m_buffer]. rewrite zlen_app.
        destruct (Z.ltb_spec (maxHeaderBytes L - m_headerBytes s) (zlen (m_buffer s) + zlen d)); [|lia].
        split; [done|apply setError_state].
    + intros [= <- <-]. split_and!; [done| |intros _ He; exfalso; apply Hst; rewrite <-He; by destruct Hs].
      intros _ _. left. by rewrite (lines_unfold (more d s)).
Qed.


End Lines.

(** ** Bodies *)

(** What taking the bytes [a] for the body does to all but the buffer. *)
Definition absorb (a : list byte) (s : t) : option t :=
  let s := set_m_bodyBytesReceived (m_bodyBytesReceived s + zlen a) s in
  if m_multipartStreamingActive s then
    match mp_feed a (m_multipartStreamParser s) with
    | (None, parser) => Some (set_m_multipartStreamParser parser s)
    | _ => None
    end
  else Some (onRequest (fun r => set_body (body r ++ a) r) s).

Lemma absorb_counted a s s1 : counted L s -> m_bodyBytesReceived s + zlen a <= maxBodyBytes L ->
  absorb a s = Some s1 -> counted L s1.
Proof.
  intros (H1 & H2 & H3 & H4 & H5) Ha. unfold absorb. cbn [m_multipartStreamingActive set_m_bodyBytesReceived].
  destruct (m_multipartStreamingActive s) eqn:Hact.
  - cbn [m_multipartStreamParser set_m_bodyBytesReceived]. destruct (mp_feed a _) as [[e|] m'] eqn:Hm; [done|]. intros [= <-].
    count; simpl; [lia|]. intros _. by eapply mp_feed_ok; [apply H5|].
  - intros [= <-]. count; simpl; [rewrite zlen_app; lia|by rewrite Hact].
Qed.

(** Every field a body leaves alone. *)
Lemma absorb_over o a s : absorb a (over o s) = over o <$> absorb a s.
Proof.
  destruct s, o; unfold absorb; simpl; destruct m_multipartStreamingActive0; simpl; try done;
    by destruct (mp_feed _ _) as [[?|] ?].
Qed.

(** The rest of a body goes on from where the first bytes left. *)
Lemma absorb_app a b s : counted L s -> m_bodyBytesReceived s + zlen (a ++ b) < 2147483648 ->
  absorb (a ++ b) s = absorb a s ≫= absorb b.
Proof.
  intros (H1 & H2 & H3 & H4 & H5) Hab. unfold absorb. cbn [m_multipartStreamingActive set_m_bodyBytesReceived m_multipartStreamParser].
  destruct (m_multipartStreamingActive s) eqn:Hact.
  - pose proof (fun m2 => mp_feed_app _ a b _ m2 (H5 eq_refl) ltac:(lia) Hab) as Happ. 
    destruct (mp_feed (a ++ b) _) as [[e|] m2] eqn:E2.
    + destruct (mp_feed a _) as [[e1|] m1] eqn:E1; [done|]. simpl. rewrite Hact.
      destruct (mp_feed b m1) as [[e3|] m3] eqn:E3; [done|]. destruct (Happ m3) as [_ Hc].
      discriminate Hc. by exists m1.
    + destruct (Happ m2) as [(m1 & -> & E3) _]; [done|]. simpl. rewrite Hact, E3. rewrite zlen_app. f_equal. unfold set_m_multipartStreamParser, set_m_bodyBytesReceived. simpl. f_equal; lia.
  - simpl. rewrite Hact, zlen_app. f_equal. unfold onRequest, set_m_currentRequest, set_m_bodyBytesReceived. simpl.
    f_equal; [unfold set_body; simpl; by rewrite app_assoc|lia].
Qed.

(** The loop over the contiguous runs feeds the bytes as one. *)
Lemma feedMultipart_spec fuel r k s : (Z.to_nat r < fuel)%nat -> 0 < r <= zlen (m_buffer s) ->
  m_limits s = L -> 0 <= k -> k + r < 2147483648 -> mp_ok k (m_multipartStreamParser s) ->
  match mp_feed (take (Z.to_nat r) (m_buffer s)) (m_multipartStreamParser s) with
  | (None, parser) =>
      feedMultipart_loop contiguousSize fuel r s =
      (Ok true, set_m_buffer (drop (Z.to_nat r) (m_buffer s)) (set_m_multipartStreamParser parser s))
  | _ => wp (feedMultipart_loop contiguousSize fuel r) (fun b s' => b = false /\ m_state s' = Error /\ turn s b s') s
  end.
Proof.
  revert r k s. induction fuel as [|fuel IH]; intros r k s Hf Hr Hl Hk Hkr Hok; [lia|].
  cbn [feedMultipart_loop]. unfold wp. destruct (Z.leb_spec r 0); [lia|]. m_run.
  pose proof (contiguousSize_range (m_buffer s)) as Hc. destruct (m_buffer s) as [|x0 l0] eqn:Hb; [simpl in Hr; lia|].
  rewrite <-Hb in *. specialize (Hc ltac:(by rewrite Hb)). clear Hb x0 l0. cbv zeta.
  set (c := Z.min r (contiguousSize (m_buffer s))). destruct (Z.eqb_spec c 0); [lia|].
  assert (take (Z.to_nat r) (m_buffer s) = take (Z.to_nat c) (m_buffer s) ++ take (Z.to_nat (r - c)) (drop (Z.to_nat c) (m_buffer s))) as Hsplit.
  { rewrite take_take_drop. f_equal. lia. }
  pose proof (fun m2 => mp_feed_app k _ (take (Z.to_nat (r - c)) (drop (Z.to_nat c) (m_buffer s))) _ m2 Hok Hk
    ltac:(rewrite <-Hsplit, length_take; lia)) as Happ. rewrite <-Hsplit in Happ.
  destruct (mp_feed (take (Z.to_nat c) (m_buffer s)) _) as [[e|] m1] eqn:Ea.
  - assert (exists e' m', mp_feed (take (Z.to_nat r) (m_buffer s)) (m_multipartStreamParser s) = (Some e', m')) as (e' & m' & ->).
    { destruct (mp_feed (take (Z.to_nat r) _) _) as [[e'|] m'] eqn:E'; [by eauto|].
      destruct (Happ m') as [(m2 & Hm2 & _) _]; [done|]. congruence. }
    unfold malformedMultipart. destruct e; m_run; (eexists _, _; split; [reflexivity|]; split; [done|]; split; [apply setError_state|by apply (turn_refused s _ 0)]).
  - set (s1 := set_m_buffer (drop (Z.to_nat c) (m_buffer s)) (set_m_multipartStreamParser m1 s)).
    change (set_m_buffer (drop (Z.to_nat c) (m_buffer (set_m_multipartStreamParser m1 s))) (set_m_multipartStreamParser m1 s)) with s1.
    rewrite sub64_small by lia. pose proof (mp_feed_ok _ _ _ _ Hok Ea) as Hok1. rewrite length_take in Hok1.
    destruct (Z.eq_dec c r) as [Hcr|Hcr].
    + rewrite Hcr in Ea. rewrite Ea. destruct fuel; [lia|]. cbn [feedMultipart_loop]. destruct (Z.leb_spec (r - c) 0); [|lia].
      unfold s1. by rewrite Hcr.
    + specialize (IH (r - c) (k + c) s1 ltac:(lia)). cbn [m_buffer m_limits m_multipartStreamParser set_m_buffer s1] in IH.
      replace (k + Z.of_nat (Z.to_nat c `min` length (m_buffer s))) with (k + c) in Hok1 by lia.
      specialize (IH ltac:(rewrite length_drop; lia) Hl ltac:(lia) ltac:(lia) Hok1).
      cbn [m_multipartStreamParser set_m_multipartStreamParser] in IH.
      destruct (mp_feed (take (Z.to_nat r) _) _) as [[e2|] m2] eqn:E2.
      * destruct (mp_feed (take (Z.to_nat (r - c)) _) m1) as [[e3|] m3] eqn:E3.
        -- destruct IH as (b & s' & Hrun & -> & He & Ht). exists false, s'. split; [exact Hrun|]. split; [done|]. split; [done|].
           by eapply (turn_after s s1); [..|exact Ht].
        -- destruct (Happ m3) as [_ Hc3]. discriminate Hc3. by exists m1.
      * destruct (Happ m2) as [(m1' & Hm1 & Hm2) _]; [done|]. injection Hm1 as <-. rewrite Hm2 in IH. rewrite IH. f_equal.
        unfold s1. rewrite drop_drop. replace (Z.to_nat c + Z.to_nat (r - c))%nat with (Z.to_nat r) by lia. done.
Qed.


Lemma takeBody_spec r s : counted L s -> 0 < r <= zlen (m_buffer s) -> m_bodyBytesReceived s + r <= maxBodyBytes L ->
  match absorb (take (Z.to_nat r) (m_buffer s)) s with
  | Some s1 => takeBody contiguousSize r s = (Ok true, set_m_buffer (drop (Z.to_nat r) (m_buffer s)) s1)
  | None => wp (takeBody contiguousSize r) (fun b s' => b = false /\ m_state s' = Error /\ turn s b s') s
  end.
Proof.
  intros (H1 & H2 & H3 & H4 & H5) Hr Hm. assert (maxBodyBytes L < 2 ^ 31) as HB by apply HL.
  unfold takeBody, absorb, wp. m_run. cbn [m_multipartStreamingActive set_m_bodyBytesReceived m_multipartStreamParser m_limits].
  rewrite add64_small, H1 by lia. destruct (Z.ltb_spec (maxBodyBytes L) (m_bodyBytesReceived s + r)); [lia|].
  rewrite length_take, Nat.min_l, Z2Nat.id by lia. destruct (m_multipartStreamingActive s) eqn:Hact; [|done].
  unfold feedMultipartFromBuffer_. set (s1 := set_m_bodyBytesReceived _ s).
  pose proof (feedMultipart_spec (S (Z.to_nat r)) r (m_bodyBytesReceived s) s1 ltac:(lia)) as Hspec.
  specialize (Hspec Hr H1 ltac:(lia) ltac:(lia) (H5 eq_refl)). cbn [m_buffer m_multipartStreamParser set_m_bodyBytesReceived s1] in Hspec.
  destruct (mp_feed _ _) as [[e|] m']; [|exact Hspec].
  destruct Hspec as (b & s' & Hrun & -> & He & Ht). exists false, s'. split; [exact Hrun|]. split; [done|]. split; [done|].
  by apply (turn_after s s1 0).
Qed.

(** The two kinds of body: [true] for the data of a chunk. *)
Definition rem (c : bool) (s : t) : Z := if c then m_chunkBytesRemaining s else m_contentLengthRemaining s.

Definition set_rem (c : bool) (v : Z) (s : t) : t :=
  if c then set_m_chunkBytesRemaining v s else set_m_contentLengthRemaining v s.

Definition body_state (c : bool) : State := if c then ChunkData else BodyFixed.

Definition body_done (c : bool) : M t bool :=
  if c then modify (set_m_state ChunkDataCRLF);; mret true
  else
    ok ← finalizeMultipartStreaming_;
    if negb ok then mret false else modify (set_m_state Complete);; mret true.

Definition body_step (c : bool) : M t bool :=
  if c then parseChunkData_ contiguousSize else parseFixedBody_ contiguousSize.

Lemma body_step_unfold c :
  body_step c =
  (s ← get;
   if rem c s =? 0 then modify (set_m_state (if c then ChunkDataCRLF else Complete));; mret true
   else if isEmpty (m_buffer s) then mret false
   else
     let take_ := Z.min (rem c s) (zlen (m_buffer s)) in
     ok ← takeBody contiguousSize take_;
     if negb ok then mret false
     else
       modify (fun s => set_rem c (rem c s -u take_) s);;
       s ← get;
       if rem c s =? 0 then body_done c else mret false).
Proof. by destruct c. Qed.

Lemma rem_set_rem c v s : rem c (set_rem c v s) = v.
Proof. by destruct c. Qed.

Lemma at_body c s : at_ L (body_state c) s <->
  m_state s = body_state c /\ counted L s /\ 0 < rem c s /\ m_bodyBytesReceived s + rem c s <= maxBodyBytes L.
Proof.
  unfold at_, running, phase, rem. split.
  - intros (Hs & Hc & Hp). rewrite Hs in Hp. by destruct c.
  - intros (Hs & Hc & Hp). rewrite Hs. by destruct c.
Qed.

(** The turn once [r] bytes have been absorbed. *)
Definition body_next (c : bool) (r : Z) (s s1 : t) : result bool * t :=
  let s2 := set_rem c (rem c s - r) (set_m_buffer (drop (Z.to_nat r) (m_buffer s)) s1) in
  if rem c s - r =? 0 then body_done c s2 else (Ok false, s2).

Lemma absorb_rem c a s s1 : absorb a s = Some s1 -> rem c s1 = rem c s /\ m_state s1 = m_state s /\ m_buffer s1 = m_buffer s /\
  m_feedOutputStart s1 = m_feedOutputStart s /\ m_bodyBytesReceived s1 = m_bodyBytesReceived s + zlen a.
Proof.
  unfold absorb. cbv zeta. destruct (m_multipartStreamingActive _); [|intros [= <-]; by destruct c].
  destruct (mp_feed _ _) as [[e|] m']; [done|]. intros [= <-]. by destruct c.
Qed.

Lemma body_runs_on c s : at_ L (body_state c) s -> m_buffer s <> [] ->
  let r := Z.min (rem c s) (zlen (m_buffer s)) in
  match absorb (take (Z.to_nat r) (m_buffer s)) s with
  | Some s1 => body_step c s = body_next c r s s1
  | None => wp (body_step c) (fun b s' => b = false /\ m_state s' = Error /\ turn s b s') s
  end.
Proof.
  intros Hs Hb r. assert (isEmpty (m_buffer s) = false) as Hne by by destruct (m_buffer s). apply at_body in Hs as (Hs & Hc & Hr & Hm). assert (0 < zlen (m_buffer s)) by (destruct (m_buffer s); simpl; [done|lia]).
  pose proof (takeBody_spec r s Hc ltac:(lia) ltac:(lia)) as Hspec. assert (maxBodyBytes L < 2 ^ 31) as HB by apply HL.
  assert (0 <= m_bodyBytesReceived s) as Hrec by (destruct Hc as (_ & _ & _ & ? & _); lia).
  destruct (absorb _ s) as [s1|] eqn:Ea.
  - pose proof (absorb_rem c _ _ _ Ea) as (Hrem & _). unfold body_next.
    rewrite body_step_unfold. m_run. destruct (Z.eqb_spec (rem c s) 0); [lia|].
    rewrite Hne. cbv zeta. fold r. rewrite Hspec. simpl. replace (rem c (set_m_buffer _ s1)) with (rem c s1) by by destruct c.
    rewrite rem_set_rem, Hrem, sub64_small by lia. by destruct (_ =? 0).
  - rewrite body_step_unfold. destruct Hspec as (b & s' & Hrun & -> & He & Ht). exists false, s'. split; [|done].
    m_run. destruct (Z.eqb_spec (rem c s) 0); [lia|]. rewrite Hne. cbv zeta. fold r. by rewrite Hrun.
Qed.

Lemma framed_body_done c : framed (body_done c).
Proof. destruct c; unfold body_done; frame. Qed.

Lemma wp_body_done c s : counted L s -> m_state s = body_state c ->
  wp (body_done c) (outcome L (running L)) s.
Proof.
  intros Hc Hs. destruct c.
  - apply wp_modify, wp_ret. split; [apply Hc|]. by split.
  - eapply wp_then; [by apply wp_finalizeMultipart|]. intros s1 Hl [Hc1 _]. apply wp_modify, wp_ret. split; [done|]. by split.
Qed.


(** The state a turn over a body leaves, before its end is looked at. *)
Lemma body_absorbed c r s s1 : at_ L (body_state c) s -> 0 < r <= rem c s -> r <= zlen (m_buffer s) ->
  absorb (take (Z.to_nat r) (m_buffer s)) s = Some s1 ->
  let s2 := set_rem c (rem c s - r) (set_m_buffer (drop (Z.to_nat r) (m_buffer s)) s1) in
  counted L s2 /\ m_state s2 = body_state c /\ m_feedOutputStart s2 = m_feedOutputStart s /\
  m_buffer s2 = drop (Z.to_nat r) (m_buffer s) /\ (r < rem c s -> at_ L (body_state c) s2).
Proof.
  intros Hs Hr Hb Ha s2. apply at_body in Hs as (Hs & Hc & Hr0 & Hm).
  assert (zlen (take (Z.to_nat r) (m_buffer s)) = r) as Hlen by (rewrite length_take; lia).
  pose proof (absorb_counted _ _ _ Hc ltac:(rewrite Hlen; lia) Ha) as Hc1.
  pose proof (absorb_rem c _ _ _ Ha) as (Hrem & Hst & _ & Hf & Hrec). rewrite Hlen in Hrec.
  assert (counted L s2) as Hc2 by by destruct c. split; [done|].
  assert (m_state s2 = body_state c) as Hs2 by (rewrite <-Hs, <-Hst; by destruct c). split; [done|].
  split; [rewrite <-Hf; by destruct c|]. split; [by destruct c|]. intros Hlt. apply at_body. split; [done|]. split; [done|].
  unfold s2 at 1 3. rewrite rem_set_rem. assert (m_bodyBytesReceived s2 = m_bodyBytesReceived s1) as -> by by destruct c. lia.
Qed.

Lemma body_turn c s : at_ L (body_state c) s -> wp (body_step c) (turn s) s.
Proof.
  intros Hs. pose proof (body_runs_on c s Hs) as Hrun. cbv zeta in Hrun.
  pose proof (proj1 (at_body c s) Hs) as (Hst & Hc & Hr & Hm).
  destruct (decide (m_buffer s = [])) as [Hb|Hb].
  - exists false, s. split; [|apply turn_rests; split; [apply Hs|rewrite Hb; simpl; lia]].
    rewrite body_step_unfold. m_run. destruct (Z.eqb_spec (rem c s) 0); [lia|]. by rewrite Hb.
  - specialize (Hrun Hb). set (r := Z.min (rem c s) (zlen (m_buffer s))) in *.
    assert (0 < zlen (m_buffer s)) by (destruct (m_buffer s); simpl; [done|lia]).
    destruct (absorb _ s) as [s1|] eqn:Ea; [|eapply wp_weaken; [exact Hrun|]; by intros b s' (-> & _ & ?)].
    unfold wp. rewrite Hrun. unfold body_next. set (s2 := set_rem c _ _).
    destruct (body_absorbed c r s s1 Hs ltac:(lia) ltac:(lia) Ea) as (Hc2 & Hs2 & Hf2 & Hb2 & Hat). fold s2 in Hc2, Hs2, Hf2, Hb2, Hat.
    destruct (Z.eqb_spec (rem c s - r) 0).
    + destruct (wp_framed _ _ _ (framed_body_done c) (wp_body_done c s2 Hc2 Hs2)) as (b & s3 & Hrun3 & [Hl3 Ho] & Hb3 & Hf3).
      exists b, s3. split; [done|]. split; [by rewrite Hf3|]. split; [exists (Z.to_nat r); by rewrite Hb3, Hb2|].
      destruct b; [|by split; [|left]]. split; [done|]. unfold rank. rewrite Hb3, Hb2, length_drop.
      destruct (decide _), (decide _); lia.
    + exists false, s2. split; [done|]. split; [done|]. split; [by eexists|]. split; [apply Hc2|right].
      split; [|by rewrite Hs2]. split; [apply Hat; lia|]. rewrite Hb2, drop_ge by lia. simpl. lia.
Qed.

Lemma more_nil s : more [] s = s.
Proof. destruct s. unfold more. simpl. by rewrite app_nil_r. Qed.

Lemma absorb_buffer a b s : absorb a (set_m_buffer b s) = set_m_buffer b <$> absorb a s.
Proof. apply (absorb_over (Buffer b)). Qed.

Lemma absorb_set_rem c v a s : absorb a (set_rem c v s) = set_rem c v <$> absorb a s.
Proof.
  destruct s, c; unfold absorb; simpl; destruct m_multipartStreamingActive0; simpl; try done;
    by destruct (mp_feed _ _) as [[?|] ?].
Qed.

(** Without the buffer, [body_next] is determined by what was absorbed and what is left. *)
Lemma body_next_eq c r s s1 r' s' s1' b b' v v' :
  rem c s - r = rem c s' - r' -> drop (Z.to_nat r) (m_buffer s) = drop (Z.to_nat r') (m_buffer s') ->
  set_m_buffer b (set_rem c v s1) = set_m_buffer b' (set_rem c v' s1') ->
  body_next c r s s1 = body_next c r' s' s1'.
Proof.
  intros H1 H2 H3. unfold body_next. rewrite <-H1, <-H2.
  assert (forall l w x, set_rem c w (set_m_buffer l x) = set_rem c w (set_m_buffer l (set_m_buffer b (set_rem c v x)))) as E1 by by destruct c.
  assert (forall l w x, set_rem c w (set_m_buffer l x) = set_rem c w (set_m_buffer l (set_m_buffer b' (set_rem c v' x)))) as E2 by by destruct c.
  by rewrite (E1 _ _ s1), H3, <-E2.
Qed.

(** The turn with more bytes takes the same, and then what it can of the others. *)
Lemma body_more c d s : at_ L (body_state c) s -> m_buffer s <> [] ->
  let r := Z.min (rem c s) (zlen (m_buffer s)) in
  let r' := Z.min (rem c s) (zlen (m_buffer s) + zlen d) in
  match absorb (take (Z.to_nat r) (m_buffer s)) s ≫= absorb (take (Z.to_nat (r' - r)) d) with
  | Some s1 => body_step c (more d s) = body_next c r' (more d s) (set_m_buffer (m_buffer s ++ d) s1)
  | None => failed (body_step c (more d s))
  end.
Proof.
  intros Hs Hb r r'. pose proof (proj1 (at_body c s) Hs) as (Hst & Hc & Hr & Hm).
  assert (maxBodyBytes L < 2 ^ 31) as HB by apply HL.
  assert (m_buffer (more d s) = m_buffer s ++ d) as Hmd by done.
  pose proof (body_runs_on c (more d s) Hs ltac:(rewrite Hmd; by destruct (m_buffer s))) as H. cbv zeta in H.
  replace (rem c (more d s)) with (rem c s) in H by by destruct c. rewrite Hmd, zlen_app in H. fold r' in H.
  assert (take (Z.to_nat r') (m_buffer s ++ d) = take (Z.to_nat r) (m_buffer s) ++ take (Z.to_nat (r' - r)) d) as Hsplit.
  { destruct (Z.le_gt_cases (rem c s) (zlen (m_buffer s))).
    - rewrite take_app_le by lia. replace (Z.to_nat (r' - r)) with 0%nat by lia. rewrite take_0, app_nil_r. f_equal. lia.
    - rewrite take_app_ge by lia. rewrite (take_ge (m_buffer s)) by lia. do 2 f_equal. lia. }
  rewrite Hsplit in H. unfold more in H at 1. rewrite absorb_buffer, absorb_app in H; [|done|].
  2: { rewrite <-Hsplit, length_take, length_app. lia. }
  destruct (absorb _ s ≫= _) as [s1|]; [exact H|]. destruct H as (b & s' & Hrun & -> & He & _).
  unfold failed. by rewrite Hrun.
Qed.

Lemma body_extends c d s b s1 : at_ L (body_state c) s -> body_step c s = (Ok b, s1) -> extends (body_step c) d s b s1.
Proof.
  intros Hs Hrun. pose proof (proj1 (at_body c s) Hs) as (Hst & Hc & Hr & Hm).
  assert (forall s', m_state s' = body_state c -> m_state s' <> Error) as Hne by (intros s' ->; by destruct c).
  destruct (decide (m_buffer s = [])) as [Hb|Hb].
  { rewrite body_step_unfold in Hrun. revert Hrun. m_run. destruct (Z.eqb_spec (rem c s) 0); [lia|]. rewrite Hb. simpl. intros [= <- <-].
    split_and!; [done|intros; apply alike_refl|]. intros _ He. by apply Hne in Hst. }
  pose proof (body_runs_on c s Hs Hb) as H1. pose proof (body_more c d s Hs Hb) as H2. cbv zeta in H1, H2.
  set (r := Z.min (rem c s) (zlen (m_buffer s))) in *. set (r' := Z.min (rem c s) (zlen (m_buffer s) + zlen d)) in *.
  assert (0 < zlen (m_buffer s)) by (destruct (m_buffer s); simpl; [done|lia]).
  destruct (absorb _ s) as [sa|] eqn:Ea; simpl in H2.
  2: { destruct H1 as (b' & s' & Hrun' & -> & He & _). rewrite Hrun in Hrun'. injection Hrun' as -> ->. by split_and!. }
  destruct (body_absorbed c r s sa Hs ltac:(lia) ltac:(lia) Ea) as (Hc2 & Hs2 & _ & Hb2 & Hat).
  rewrite Hrun in H1. unfold body_next in H1. set (s2 := set_rem c _ _) in *. destruct (Z.eqb_spec (rem c s - r) 0).
  - (* the body is complete *)
    assert (absorb [] sa = Some sa) as Hnil.
    { pose proof (absorb_app (take (Z.to_nat r) (m_buffer s)) [] s Hc) as Happ. rewrite app_nil_r, Ea in Happ. symmetry. apply Happ.
      rewrite length_take. assert (maxBodyBytes L < 2 ^ 31) as HB by apply HL. lia. }
    assert (r' = r) as Hr' by lia. rewrite Hr', Z.sub_diag in H2. cbn [Z.to_nat take] in H2. rewrite take_0, Hnil in H2.
    assert (body_next c r (more d s) (set_m_buffer (m_buffer s ++ d) sa) = body_done c (more d s2)) as H3.
    { unfold body_next. replace (rem c (more d s)) with (rem c s) by by destruct c. rewrite e. simpl (0 =? 0). f_equal.
      unfold s2, more. cbn [m_buffer set_m_buffer]. rewrite e, drop_app_le by lia. by destruct c. }
    rewrite H3, (framed_more _ _ _ (framed_body_done c)), <-H1 in H2. cbn [fst snd] in H2.
    pose proof (wp_run _ _ _ _ _ (wp_body_done c s2 Hc2 Hs2) (eq_sym H1)) as [_ Ho].
    unfold extends. rewrite H2. destruct b; by split_and!.
  - (* more is to come *)
    injection H1 as -> ->. split_and!; [done| |intros _ He; by apply Hne in Hs2]. intros _ _.
    assert (m_buffer s2 = []) as Hb2' by (rewrite Hb2; apply drop_ge; lia).
    assert (rem c s2 = rem c s - r) as Hrem2 by apply rem_set_rem.
    destruct (decide (d = [])) as [->|Hd].
    { rewrite !more_nil, Hrun, body_step_unfold. m_run. rewrite Hrem2. destruct (Z.eqb_spec (rem c s - r) 0); [lia|].
      rewrite Hb2'. apply alike_refl. }
    assert (at_ L (body_state c) s2) as Hat2 by (apply Hat; lia). clear Hat.
    assert (m_buffer (more d s2) = d) as Hmd by (unfold more; simpl; by rewrite Hb2').
    pose proof (body_runs_on c (more d s2) Hat2 ltac:(by rewrite Hmd)) as H3. cbv zeta in H3.
    replace (rem c (more d s2)) with (rem c s2) in H3 by by destruct c. rewrite Hmd, Hrem2 in H3.
    replace (r' - r) with (Z.min (rem c s - r) (zlen d)) in H2 by lia.
    assert (more d s2 = set_rem c (rem c s - r) (set_m_buffer d sa)) as Hm2.
    { unfold more. rewrite Hb2'. unfold s2. by destruct c. }
    rewrite Hm2, absorb_set_rem, absorb_buffer in H3.
    destruct (absorb _ sa) as [sb|]; simpl in H3.
    + left. rewrite H2, Hm2, H3. rewrite <-Hm2. apply (body_next_eq _ _ _ _ _ _ _ [] [] 0 0).
      * replace (rem c (more d s)) with (rem c s) by by destruct c. replace (rem c (more d s2)) with (rem c s2) by by destruct c. lia.
      * rewrite Hmd. unfold more. cbn [m_buffer set_m_buffer]. rewrite drop_app_ge by lia. f_equal. lia.
      * by destruct c.
    + right. split; [done|]. destruct H3 as (b & s' & Hrun' & -> & He & _). unfold failed. by rewrite Hm2, Hrun'.
Qed.


(** ** Every turn *)

(** The parsing function of a state. *)
Definition parse (st : State) : M t bool :=
  match st with
  | RequestLine => parseRequestLine_
  | Headers => parseHeaders_
  | BodyFixed => parseFixedBody_ contiguousSize
  | ChunkSize => parseChunkSize_
  | ChunkData => parseChunkData_ contiguousSize
  | ChunkDataCRLF => parseChunkDataCrlf_
  | ChunkTrailers => parseChunkTrailers_
  | Complete | Error => mret false
  end.

Definition trailers_done : M t bool :=
  ok ← finalizeMultipartStreaming_;
  if negb ok then mret false else modify (set_m_state Complete);; mret true.

Lemma parseHeaders_lines s : parseHeaders_ s = lines 431 "Headers too large" parseHeaderLine finalizeHeaders_ s.
Proof.
  unfold parseHeaders_, lines. m_run. generalize (S (length (m_buffer s))) as n. intros n. revert s.
  induction n as [|n IH]; intros s; [done|]. cbn [parseHeaders_loop lines_loop]. m_run.
  destruct (popLine_ s) as [[line s']|]; [|done]. cbv zeta. destruct (_ <? _); [done|]. destruct (isEmpty line); [done|].
  destruct (parseHeaderLine line _) as [[[]|?|] s2]; [apply IH|done..].
Qed.

Lemma parseChunkTrailers_lines s : parseChunkTrailers_ s = lines 431 "Trailers too large" parseTrailerLine trailers_done s.
Proof.
  unfold parseChunkTrailers_, lines. m_run. generalize (S (length (m_buffer s))) as n. intros n. revert s.
  induction n as [|n IH]; intros s; [done|]. cbn [parseChunkTrailers_loop lines_loop]. m_run.
  destruct (popLine_ s) as [[line s']|]; [|done]. cbv zeta. destruct (_ <? _); [done|]. destruct (isEmpty line); [done|].
  destruct (parseTrailerLine line _) as [[[]|?|] s2]; [apply IH|done..].
Qed.

Lemma framed_trailers_done : framed trailers_done.
Proof. unfold trailers_done. frame. Qed.

Lemma wp_trailers_done s : at_ L ChunkTrailers s -> wp trailers_done (outcome L (running L)) s.
Proof.
  intros [Hs [Hc Hp]]. eapply wp_then; [by apply wp_finalizeMultipart|]. intros s1 Hl [Hc1 _].
  apply wp_modify, wp_ret. split; [done|]. by split.
Qed.

Lemma crlf_turn s : at_ L ChunkDataCRLF s -> wp parseChunkDataCrlf_ (turn s) s.
Proof.
  intros [Hs Hr]. unfold parseChunkDataCrlf_. apply wp_get. destruct (m_buffer s) as [|a [|b rest]] eqn:Hb.
  - apply wp_ret, turn_rests. split; [done|]. rewrite Hb. simpl. lia.
  - apply wp_ret, turn_rests. split; [done|]. rewrite Hb. simpl. lia.
  - destruct (_ || _); [apply wp_modify, wp_ret, (turn_refused s s 0); [done|done|apply Hr]|].
    apply wp_put, wp_ret. split; [done|]. split; [exists 2%nat; by rewrite Hb|]. split; [split; [apply Hr|done]|].
    unfold rank. rewrite Hb, Hs. simpl. lia.
Qed.

Lemma crlf_extends d s b s1 : at_ L ChunkDataCRLF s -> parseChunkDataCrlf_ s = (Ok b, s1) -> extends parseChunkDataCrlf_ d s b s1.
Proof.
  intros [Hs Hr]. unfold extends, parseChunkDataCrlf_. m_run. unfold more. cbn [m_buffer set_m_buffer].
  destruct (m_buffer s) as [|x [|y rest]] eqn:Hb; cbn [app].
  1,2: intros [= <- <-]; split_and!; [done| |by rewrite Hs]; intros _ _; rewrite Hb; apply alike_refl.
  destruct (_ || _).
  - intros [= <- <-]. split_and!; [done|intros _ H; by rewrite setError_state in H|]. intros; split; [done|apply setError_state].
  - intros [= <- <-]. by split_and!.
Qed.

(** A state in which bytes are parsed. *)
Definition parsing (s : t) : Prop := running L s /\ m_state s <> Complete /\ m_state s <> Error.

Lemma framed_body_running s : framed_body L s -> running L s.
Proof. by intros [H _]. Qed.

Lemma parse_turn s : parsing s -> wp (parse (m_state s)) (turn s) s.
Proof.
  intros (Hr & H1 & H2). assert (at_ L (m_state s) s) as Hs by done. destruct (m_state s) eqn:E; [..|done|done].
  - eapply one_line_turn with (Q := at_ L Headers); [apply framed_requestLine|intros; by apply wp_requestLine|by intros ? []|done].
  - unfold parse, wp. rewrite parseHeaders_lines. eapply lines_turn with (st := Headers) (Q := framed_body L);
      [apply framed_headerLine|apply framed_finalizeHeaders|intros; by apply wp_headerLine|intros; by apply wp_finalizeHeaders|apply framed_body_running|done].
  - by apply (body_turn false).
  - eapply one_line_turn with (Q := fun s' => running L s' /\ (m_state s' = ChunkTrailers \/ m_state s' = ChunkData));
      [apply framed_chunkSize|intros; by apply wp_chunkSizeLine|by intros ? []|done].
  - by apply (body_turn true).
  - by apply crlf_turn.
  - unfold parse, wp. rewrite parseChunkTrailers_lines. eapply lines_turn with (st := ChunkTrailers) (Q := running L);
      [apply framed_trailerLine|apply framed_trailers_done|intros; by apply wp_trailerLine|intros; by apply wp_trailers_done|done|done].
Qed.

Lemma extends_eq (m m' : M t bool) d s b s1 : (forall s, m s = m' s) -> extends m' d s b s1 -> extends m d s b s1.
Proof. intros H. unfold extends. by rewrite !H. Qed.

Lemma parse_extends d s b s1 : parsing s -> parse (m_state s) s = (Ok b, s1) -> extends (parse (m_state s)) d s b s1.
Proof.
  intros (Hr & H1 & H2) Hrun. assert (at_ L (m_state s) s) as Hs by done. destruct (m_state s) eqn:E; [..|done|done].
  - eapply one_line_extends with (st := RequestLine) (Q := at_ L Headers); [done|apply framed_requestLine|intros; by apply wp_requestLine| |done|done].
    intros line s' [_ [[Hl _] _]] Hlong. unfold parseRequestLine_line, size. m_run. rewrite Hl.
    destruct (Z.ltb_spec (maxRequestLineBytes L) (zlen line)); [|lia]. split; [done|apply setError_state].
  - eapply extends_eq; [apply parseHeaders_lines|]. cbn [parse] in Hrun. rewrite parseHeaders_lines in Hrun.
    eapply lines_extends with (st := Headers) (Q := framed_body L);
      [done|apply framed_headerLine|apply framed_finalizeHeaders|intros; by apply wp_headerLine|intros; by apply wp_finalizeHeaders|done|done].
  - by apply (body_extends false).
  - eapply one_line_extends with (st := ChunkSize) (Q := fun s' => running L s' /\ (m_state s' = ChunkTrailers \/ m_state s' = ChunkData));
      [done|apply framed_chunkSize|intros; by apply wp_chunkSizeLine| |done|done].
    intros line s' [_ [[Hl _] _]] Hlong. unfold parseChunkSize_line, size. m_run. rewrite Hl.
    destruct (Z.ltb_spec (maxRequestLineBytes L) (zlen line)); [|lia]. split; [done|apply setError_state].
  - by apply (body_extends true).
  - by apply crlf_extends.
  - eapply extends_eq; [apply parseChunkTrailers_lines|]. cbn [parse] in Hrun. rewrite parseChunkTrailers_lines in Hrun.
    eapply lines_extends with (st := ChunkTrailers) (Q := running L);
      [done|apply framed_trailerLine|apply framed_trailers_done|intros; by apply wp_trailerLine|intros; by apply wp_trailers_done|done|done].
Qed.

End Steps.

Section Unaware.

Context `{MS : MultipartStream}.
Context (contiguousSize : list byte -> Z).

Implicit Types (s : t).

(** ** The index of the first request of the call matters to no parsing function *)

Definition unaware {A} (m : M t A) : Prop :=
  forall n s, m (set_m_feedOutputStart n s) = ((m s).1, set_m_feedOutputStart n (m s).2).

Lemma unaware_framed {A} (m : M t A) : framed m -> unaware m.
Proof. intros Hm n s. apply (Hm (Start n)). Qed.

Lemma unaware_bind {A B} (m : M t A) (k : A -> M t B) : unaware m -> (forall a, unaware (k a)) -> unaware (mbind k m).
Proof. intros Hm Hk n s. unfold mbind, M_bind. rewrite Hm. destruct (m s) as [[a|e|] s']; simpl; [apply Hk|done|done]. Qed.

Lemma unaware_get {B} (k : t -> M t B) : (forall n s s', k (set_m_feedOutputStart n s) s' = k s s') -> (forall s, unaware (k s)) -> unaware (mbind k get).
Proof. intros Hg Hk n s. unfold mbind, M_bind, get. simpl. rewrite Hg. apply Hk. Qed.

Lemma unaware_awaitLine used max status message : unaware (awaitLine used max status message).
Proof.
  intros n s. unfold awaitLine. m_run. change (pendingBufferExceedsLimit_ used max (set_m_feedOutputStart n s)) with (pendingBufferExceedsLimit_ used max s).
  destruct (pendingBufferExceedsLimit_ used max s); [|done]. apply (unaware_framed _ (framed_refuse status message)).
Qed.

Lemma popLine_start n s : popLine_ (set_m_feedOutputStart n s) = prod_map id (set_m_feedOutputStart n) <$> popLine_ s.
Proof. unfold popLine_. cbn [m_buffer set_m_feedOutputStart]. cbv zeta. by destruct (_ <? 0). Qed.

Lemma unaware_one_line status message proc : (forall line, framed (proc line)) -> unaware (one_line status message proc).
Proof.
  intros Hf n s. unfold one_line. m_run. rewrite popLine_start. destruct (popLine_ s) as [[line s1]|]; simpl.
  - apply (unaware_framed _ (Hf line)).
  - apply unaware_awaitLine.
Qed.

Lemma unaware_lines status message proc fin : (forall line, framed (proc line)) -> framed fin ->
  unaware (lines status message proc fin).
Proof.
  intros Hf Hfin n s. unfold lines. m_run. cbn [m_buffer set_m_feedOutputStart]. generalize (S (length (m_buffer s))) as fuel.
  intros fuel. revert n s. induction fuel as [|fuel IH]; intros n s; [done|]. cbn [lines_loop]. m_run. rewrite popLine_start.
  destruct (popLine_ s) as [[line s1]|]; simpl; [|apply unaware_awaitLine]. cbv zeta.
  change (m_limits (set_m_feedOutputStart n s1)) with (m_limits s1). set (hb := m_headerBytes s1 +u (size line +u 2)).
  change (set_m_headerBytes hb (set_m_feedOutputStart n s1)) with (set_m_feedOutputStart n (set_m_headerBytes hb s1)).
  destruct (_ <? hb); [apply unaware_framed, framed_refuse|]. destruct (isEmpty line); [by apply unaware_framed|].
  rewrite (unaware_framed _ (Hf line)). destruct (proc line _) as [[[]|?|] s2]; simpl; [apply IH|done..].
Qed.

Lemma unaware_feedMultipart fuel r : unaware (feedMultipart_loop contiguousSize fuel r).
Proof.
  revert r. induction fuel as [|fuel IH]; intros r; [done|]. cbn [feedMultipart_loop]. destruct (_ <=? _); [done|].
  apply unaware_get; [done|]. intros s. cbv zeta. destruct (_ =? _); [apply unaware_framed, framed_refuse|].
  destruct (mp_feed _ _) as [[e|] m']; (apply unaware_bind; [done|]; intros _); [apply unaware_framed, framed_malformed|].
  apply unaware_bind; [done|]. intros _. apply IH.
Qed.

Lemma unaware_takeBody r : unaware (takeBody contiguousSize r).
Proof.
  unfold takeBody. apply unaware_get; [done|]. intros s. apply unaware_bind; [done|]. intros _.
  destruct (_ <? _); [apply unaware_framed, framed_refuse|]. destruct (m_multipartStreamingActive s); [apply unaware_feedMultipart|done].
Qed.

Lemma unaware_body c : unaware (body_step contiguousSize c).
Proof.
  rewrite body_step_unfold. apply unaware_get; [by destruct c|]. intros s. destruct (_ =? _); [by destruct c|]. destruct (isEmpty _); [done|].
  apply unaware_bind; [apply unaware_takeBody|]. intros []; simpl; [|done]. apply unaware_bind; [by destruct c|]. intros _.
  apply unaware_get; [by destruct c|]. intros s1. destruct (_ =? _); [apply unaware_framed, framed_body_done|done].
Qed.

Lemma unaware_parse st : unaware (parse contiguousSize st).
Proof.
  destruct st; [..|done|done].
  - apply (unaware_one_line 414 "Request line too long" parseRequestLine_line), framed_requestLine.
  - intros n s. unfold parse. rewrite !parseHeaders_lines. apply unaware_lines; [apply framed_headerLine|apply framed_finalizeHeaders].
  - apply (unaware_body false).
  - apply (unaware_one_line 400 "Chunk size line too long" parseChunkSize_line), framed_chunkSize.
  - apply (unaware_body true).
  - intros n s. unfold parse, parseChunkDataCrlf_. m_run. cbn [m_buffer set_m_feedOutputStart].
    destruct (m_buffer s) as [|a [|b rest]]; [done|done|]. destruct (_ || _); [|done]. apply (unaware_framed _ (framed_refuse 400 _)).
  - intros n s. unfold parse. rewrite !parseChunkTrailers_lines. apply unaware_lines; [apply framed_trailerLine|apply framed_trailers_done].
Qed.

End Unaware.

End ParserSteps.
