(* ===== verification/HttpMultipartLaws.v ===== *)
(** The multipart parser of HttpMultipart.v may be fed its input in any pieces: the
    laws of the interface of HttpParser.v. *)
From Stdlib Require Import ZArith Lia Strings.Byte.
From stdpp Require Import base list strings numbers gmap.
From S2P Require Import Prelude SwString HttpTypes HttpParser HttpMultipart.

Import SwString SwHttpTypes.

Module StreamParserLaws.

Import SwHttpMultipartStreamParser.

Section Laws.

Context `{FL : FilesLaws}.
Context (contiguousSize : list byte -> Z).
Context (contiguousSize_range : forall l, l <> [] -> 0 < contiguousSize l <= zlen l).

Implicit Types (s : t) (d : list byte).

(** ** Programs that do not look at the buffer *)

(** The two fields a call of [feed] sets. *)
Inductive outside := Buffer (b : list byte) | Total (n : Z).

Definition over (o : outside) : t -> t :=
  match o with Buffer b => set_m_buffer b | Total n => set_m_totalInputBytes n end.

(** [m] neither reads nor writes them. *)
Definition blind {A} (m : M t A) : Prop := forall o s, m (over o s) = ((m s).1, over o (m s).2).

(** More bytes behind those the parser holds. *)
Definition more d s : t := over (Total (m_totalInputBytes s + zlen d)) (over (Buffer (m_buffer s ++ d)) s).

Lemma blind_ret {A} (a : A) : blind (mret a).
Proof. done. Qed.

Lemma blind_throw {A} msg : blind (throw (A := A) msg).
Proof. done. Qed.

Lemma blind_fail_if c msg : blind (fail_if c msg).
Proof. by destruct c. Qed.

Lemma blind_bind {A B} (m : M t A) (k : A -> M t B) : blind m -> (forall a, blind (k a)) -> blind (mbind k m).
Proof.
  intros Hm Hk o s. unfold mbind, M_bind. rewrite Hm. destruct (m s) as [[a|e|] s']; simpl; [apply Hk|done|done].
Qed.

Lemma blind_get {B} (k : t -> M t B) : (forall o s s', k (over o s) s' = k s s') -> (forall s, blind (k s)) -> blind (mbind k get).
Proof. intros Hg Hk o s. unfold mbind, M_bind, get. simpl. rewrite Hg. apply Hk. Qed.

Lemma blind_modify f : (forall o s, f (over o s) = over o (f s)) -> blind (modify f).
Proof. intros Hf o s. unfold modify. simpl. by rewrite Hf. Qed.

Lemma blind_keeps {A} (m : M t A) s : blind m ->
  m_buffer (m s).2 = m_buffer s /\ m_totalInputBytes (m s).2 = m_totalInputBytes s.
Proof.
  intros Hm. pose proof (Hm (Buffer (m_buffer s)) s) as Hb. pose proof (Hm (Total (m_totalInputBytes s)) s) as Ht.
  replace (over (Buffer (m_buffer s)) s) with s in Hb by by destruct s.
  replace (over (Total (m_totalInputBytes s)) s) with s in Ht by by destruct s.
  rewrite (surjective_pairing (m s)) in Hb, Ht. injection Hb as Hb. injection Ht as Ht. split; [by rewrite Hb at 1|by rewrite Ht at 1].
Qed.

Lemma blind_more {A} (m : M t A) d s : blind m -> m (more d s) = ((m s).1, more d (m s).2).
Proof. intros Hm. unfold more at 1. rewrite !Hm. unfold more. destruct (blind_keeps m s Hm) as [-> ->]. done. Qed.

(** ** Data *)

Definition outcome {A} (x : result A * t) : option t := match x with (Ok _, s) => Some s | _ => None end.

(** [a] is taken as data of the part. *)
Definition takes (a : list byte) (s : t) : option t := outcome (appendCurrentData_ a s).

Lemma blind_append a : blind (appendCurrentData_ a).
Proof.
  unfold appendCurrentData_. apply blind_get; [by intros []|]. intros s. destruct (_ =? _); [done|]. destruct (negb _); [done|].
  destruct (_ <? _); [done|]. do 2 (apply blind_bind; [apply blind_modify; by intros []|]; intros _).
  apply blind_get; [by intros []|]. intros s1. destruct (_ && _).
  - destruct (m_currentFile s1); [|done]. destruct (writeBuffered _ _ _) as [w f].
    apply blind_bind; [apply blind_modify; by intros []|]. intros _. apply blind_fail_if.
  - apply blind_bind; [apply blind_fail_if|]. intros _. apply blind_modify. by intros [].
Qed.

Lemma takes_over a o s : takes a (over o s) = over o <$> takes a s.
Proof. unfold takes. rewrite blind_append. by destruct (appendCurrentData_ a s) as [[]]. Qed.

Lemma takes_consume a n s : takes a (consume n s) = set_m_buffer (drop (Z.to_nat n) (m_buffer s)) <$> takes a s.
Proof. apply (takes_over a (Buffer _)). Qed.

Lemma takes_nil s : takes [] s = Some s.
Proof. done. Qed.

(** Limits with which the sums below stay in range, and what a part may have taken. *)
Definition counts (s : t) : Prop :=
  limits_ok (m_limits s) /\ 0 <= m_currentPartBytes s /\
  m_currentPartBytes s + zlen (m_buffer s) <= m_totalInputBytes s <= maxBodyBytes (m_limits s).

(** The sizes the part has once [n] bytes are in it. *)
Definition sized (n : Z) (s : t) : t :=
  set_m_currentPart (set_part_sizeBytes n (m_currentPart s)) (set_m_currentPartBytes n s).

Definition with_data (a : list byte) (s : t) : t := set_m_currentPart (set_part_data a (m_currentPart s)) s.

Lemma takes_eq a s : 0 < zlen a -> m_hasCurrentPart s = true -> 0 <= m_currentPartBytes s -> m_currentPartBytes s + zlen a <= u64_max ->
  takes a s =
  let s1 := sized (m_currentPartBytes s + zlen a) s in
  if part_isFile (m_currentPart s) && enableMultipartFileStreaming (m_limits s) then
    match m_currentFile s with
    | None => None
    | Some path => match writeBuffered path a (m_files s) with (true, f) => Some (set_m_files f s1) | _ => None end
    end
  else
    let held := zlen (part_data (m_currentPart s)) in
    if negb (part_isFile (m_currentPart s)) &&
       ((maxMultipartFieldBytes (m_limits s) <? held) || (maxMultipartFieldBytes (m_limits s) -u held <? zlen a))
    then None
    else Some (with_data (part_data (m_currentPart s) ++ a) s1).
Proof.
  intros Ha Hh H0 Hab. unfold takes, appendCurrentData_. m_run. destruct (Z.eqb_spec (zlen a) 0); [lia|]. rewrite Hh.
  destruct (Z.ltb_spec (u64_max - zlen a) (m_currentPartBytes s)); [lia|]. cbn [negb]. cbv beta iota.
  cbn [m_currentPart m_limits m_files m_currentFile set_m_currentPart set_m_currentPartBytes m_currentPartBytes part_isFile part_data set_part_sizeBytes].
  rewrite add64_small by (unfold u64_max in *; lia). cbv zeta.
  destruct (_ && enableMultipartFileStreaming _).
  - destruct (m_currentFile s); [|done]. by destruct (writeBuffered _ _ _) as [[] f].
  - by destruct (negb _ && _).
Qed.

Lemma sized_files n n1 f f1 s : set_m_files f (sized n (set_m_files f1 (sized n1 s))) = set_m_files f (sized n s).
Proof. done. Qed.

Lemma sized_data a a1 n n1 s : with_data a (sized n (with_data a1 (sized n1 s))) = with_data a (sized n s).
Proof. done. Qed.

(** Taken at once or in two pieces. *)
Lemma takes_app a b s : limits_ok (m_limits s) -> 0 <= m_currentPartBytes s -> m_currentPartBytes s + zlen (a ++ b) <= u64_max ->
  takes (a ++ b) s = takes a s ≫= takes b.
Proof.
  intros HL H0 Hab. assert (0 <= maxMultipartFieldBytes (m_limits s) <= u64_max) as HF by apply HL.
  destruct (decide (a = [])) as [->|Ha]; [done|]. destruct (decide (b = [])) as [->|Hb]; [rewrite app_nil_r; by destruct (takes a s)|].
  rewrite zlen_app in Hab. assert (0 < zlen a) by (destruct a; simpl; [done|lia]). assert (0 < zlen b) by (destruct b; simpl; [done|lia]).
  destruct (m_hasCurrentPart s) eqn:Hh.
  2: { unfold takes, appendCurrentData_. m_run. rewrite zlen_app, Hh. destruct (Z.eqb_spec (zlen a + zlen b) 0); [lia|]. by destruct (Z.eqb_spec (zlen a) 0); [lia|]. }
  rewrite (takes_eq (a ++ b)), (takes_eq a) by (rewrite ?zlen_app; done || lia). cbv zeta. rewrite zlen_app.
  destruct (_ && enableMultipartFileStreaming _) eqn:Est.
  - destruct (m_currentFile s) as [path|] eqn:Hf; [|done]. pose proof (writeBuffered_app path a b (m_files s)) as Hw.
    destruct (writeBuffered path (a ++ b) (m_files s)) as [[] f2] eqn:E2.
    + destruct (proj1 (Hw f2) eq_refl) as (f1 & -> & E). simpl. rewrite takes_eq by (simpl; done || lia). simpl. rewrite Est, Hf, E.
      rewrite <-Z.add_assoc. by rewrite sized_files.
    + destruct (writeBuffered path a (m_files s)) as [[] f1] eqn:E1; [|done]. simpl. rewrite takes_eq by (simpl; done || lia). simpl. rewrite Est, Hf.
      destruct (writeBuffered path b f1) as [[] f3] eqn:E3; [|done]. exfalso.
      discriminate (proj2 (Hw f3) (ex_intro _ f1 (conj eq_refl E3))).
  - set (held := zlen (part_data (m_currentPart s))). destruct (part_isFile (m_currentPart s)) eqn:Hfile.
    + simpl. rewrite takes_eq by (simpl; done || lia). simpl. rewrite Hfile. simpl in Est |- *. rewrite Est. simpl. f_equal.
      cbn [part_data m_currentPartBytes sized set_m_currentPart set_m_currentPartBytes m_currentPart set_part_data set_part_sizeBytes].
      by rewrite <-app_assoc, <-Z.add_assoc, sized_data.
    + simpl. destruct (Z.ltb_spec (maxMultipartFieldBytes (m_limits s)) held); simpl; [done|].
      rewrite sub64_small by (unfold u64_max in *; lia).
      destruct (Z.ltb_spec (maxMultipartFieldBytes (m_limits s) - held) (zlen a)); simpl.
      { by destruct (Z.ltb_spec (maxMultipartFieldBytes (m_limits s) - held) (zlen a + zlen b)); [|lia]. }
      rewrite takes_eq by (simpl; done || lia). simpl. rewrite Hfile. simpl. rewrite zlen_app. fold held.
      destruct (Z.ltb_spec (maxMultipartFieldBytes (m_limits s)) (held + zlen a)); [lia|]. simpl.
      rewrite sub64_small by (unfold u64_max in *; lia).
      destruct (Z.ltb_spec (maxMultipartFieldBytes (m_limits s) - (held + zlen a)) (zlen b)),
        (Z.ltb_spec (maxMultipartFieldBytes (m_limits s) - held) (zlen a + zlen b)); try lia; [done|].
      f_equal. by rewrite <-app_assoc, <-Z.add_assoc, sized_data.
Qed.

(** What taking data leaves alone. *)
Definition same_shape s s1 : Prop :=
  m_limits s1 = m_limits s /\ m_state s1 = m_state s /\ m_boundaryMarker s1 = m_boundaryMarker s /\ m_buffer s1 = m_buffer s /\
  m_totalInputBytes s1 = m_totalInputBytes s /\ m_hasCurrentPart s1 = m_hasCurrentPart s /\ m_delimiter s1 = m_delimiter s.

Lemma takes_shape a s s1 : 0 <= m_currentPartBytes s -> takes a s = Some s1 ->
  same_shape s s1 /\ m_currentPartBytes s1 = m_currentPartBytes s + zlen a.
Proof.
  intros H0 H. destruct (decide (a = [])) as [->|Ha]; [injection H as <-; split; [done|simpl; lia]|].
  assert (0 < zlen a) by (destruct a; simpl; [done|lia]). pose proof H as H'. unfold takes, appendCurrentData_ in H'. revert H'. m_run.
  destruct (Z.eqb_spec (zlen a) 0); [lia|]. destruct (m_hasCurrentPart s) eqn:Hh; [|done].
  destruct (Z.ltb_spec (u64_max - zlen a) (m_currentPartBytes s)); [done|]. intros _.
  rewrite takes_eq in H by (done || lia). cbv zeta in H. destruct (_ && enableMultipartFileStreaming _).
  - destruct (m_currentFile s); [|done]. destruct (writeBuffered _ _ _) as [[] f]; [|done]. injection H as <-. split; [|done]. unfold same_shape. by rewrite Hh.
  - destruct (negb _ && _); [done|]. injection H as <-. split; [|done]. unfold same_shape. by rewrite Hh.
Qed.

Lemma consume_0 s : consume 0 s = s.
Proof. by destruct s. Qed.

Lemma takes_None a s : takes a s = None -> exists e s', appendCurrentData_ a s = (Err e, s').
Proof.
  unfold takes, appendCurrentData_. m_run. destruct (_ =? _); [done|]. destruct (negb _); [by eauto|]. destruct (_ <? _); [by eauto|].
  cbn [m_currentPart m_limits m_files m_currentFile set_m_currentPart set_m_currentPartBytes].
  destruct (_ && enableMultipartFileStreaming _).
  - destruct (m_currentFile s); [|by eauto]. destruct (writeBuffered _ _ _) as [[] f]; [done|by eauto].
  - destruct (negb _ && _); [by eauto|done].
Qed.

(** The loop over the contiguous runs takes them as one. *)
Lemma appendAndConsume_spec n s : limits_ok (m_limits s) -> 0 <= m_currentPartBytes s ->
  0 <= n <= zlen (m_buffer s) -> m_currentPartBytes s + n <= u64_max ->
  match takes (take (Z.to_nat n) (m_buffer s)) s with
  | Some s1 => appendAndConsumeCurrentData_ contiguousSize n s = (Ok tt, consume n s1)
  | None => exists e s', appendAndConsumeCurrentData_ contiguousSize n s = (Err e, s')
  end.
Proof.
  unfold appendAndConsumeCurrentData_. intros HL H0 Hn Hb. assert (Z.to_nat n < S (Z.to_nat n))%nat as Hf by lia. revert Hf.
  generalize (S (Z.to_nat n)) as fuel. intros fuel. revert n s HL H0 Hn Hb. induction fuel as [|fuel IH]; intros n s HL H0 Hn Hb Hf; [lia|].
  cbn [appendAndConsume_loop]. destruct (Z.leb_spec n 0).
  { replace n with 0 by lia. rewrite take_0, takes_nil, consume_0. done. }
  m_run. destruct (decide (m_buffer s = [])) as [E|E]; [rewrite E in Hn; simpl in Hn; lia|].
  pose proof (contiguousSize_range _ E) as Hc. set (c := Z.min n (contiguousSize (m_buffer s))). destruct (Z.eqb_spec c 0); [lia|]. cbv beta iota.
  assert (take (Z.to_nat n) (m_buffer s) = take (Z.to_nat c) (m_buffer s) ++ take (Z.to_nat (n - c)) (drop (Z.to_nat c) (m_buffer s))) as ->.
  { rewrite take_take_drop. f_equal. lia. }
  rewrite takes_app; [|done|done|rewrite zlen_app, !length_take, length_drop; lia].
  destruct (takes (take (Z.to_nat c) (m_buffer s)) s) as [s1|] eqn:E1; simpl.
  - destruct (takes_shape _ _ _ H0 E1) as ((HL1 & _ & _ & Hb1 & _) & Hp1). rewrite length_take in Hp1.
    unfold takes in E1. destruct (appendCurrentData_ _ s) as [[[]|?|] s1'] eqn:Ea; [|done..]. injection E1 as ->.
    rewrite sub64_small by (unfold u64_max in *; lia).
    specialize (IH (n - c) (consume c s1)). cbn [m_limits m_currentPartBytes m_buffer consume set_m_buffer] in IH. rewrite HL1, Hb1 in IH.
    specialize (IH HL ltac:(lia) ltac:(rewrite length_drop; lia) ltac:(lia) ltac:(lia)).
    rewrite takes_consume in IH. destruct (takes _ s1) as [s2|] eqn:E2; cbn [fmap option_fmap option_map] in IH; [|exact IH].
    rewrite IH. f_equal. destruct (takes_shape _ s1 s2 ltac:(lia) E2) as ((_ & _ & _ & Hb2 & _) & _).
    unfold consume. cbn [m_buffer set_m_buffer]. rewrite Hb2, Hb1, drop_drop.
    replace (Z.to_nat c + Z.to_nat (n - c))%nat with (Z.to_nat n) by lia. done.
  - destruct (takes_None _ _ E1) as (e & s' & ->). by eauto.
Qed.

(** ** One step at a time *)

(** A piece of data, a marker that is none, or a delimiter. *)
Definition dataStep : M t bool :=
  s ← get;
  let markerPos := bufferIndexOf (m_boundaryMarker s) s in
  if markerPos <? 0 then
    let keep := if isEmpty (m_boundaryMarker s) then 0 else zlen (m_boundaryMarker s) - 1 in
    if keep <? zlen (m_buffer s) then
      appendAndConsumeCurrentData_ contiguousSize (zlen (m_buffer s) -u keep);;
      mret true
    else mret false
  else if 0 <? markerPos then
    appendAndConsumeCurrentData_ contiguousSize markerPos;;
    mret true
  else
    match afterMarker false s with
    | Undecided => mret false
    | NotADelimiter =>
        appendAndConsumeCurrentData_ contiguousSize (zlen (m_boundaryMarker s));;
        mret true
    | Delimiter closing delimiterBytes =>
        modify (consume delimiterBytes);;
        finalizeCurrentPart_;;
        modify (set_m_state (if closing then Done else NeedPartHeaders));;
        mret true
    end.

Definition step : M t bool :=
  s ← get;
  match m_state s with
  | NeedPartData => if negb (m_hasCurrentPart s) then throw "Multipart state mismatch" else dataStep
  | NeedPartHeaders => consumePartHeaders_
  | NeedInitialBoundary => consumeInitialBoundary_ false
  | Done => mret false
  | Error => throw "Malformed multipart body"
  end.

(** What a parser that has begun looks like, [n] bytes later. *)
Definition begun (n : Z) s : Prop :=
  limits_ok (m_limits s) /\ 0 <= n <= maxBodyBytes (m_limits s) /\
  2 < zlen (m_boundaryMarker s) /\ 0 <= m_currentPartBytes s /\ m_currentPartBytes s + zlen (m_buffer s) <= n /\
  (m_state s = NeedPartData -> m_hasCurrentPart s = true).

Lemma blind_finalize : blind finalizeCurrentPart_.
Proof.
  unfold finalizeCurrentPart_. apply blind_get; [by intros []|]. intros s. apply blind_bind; [apply blind_fail_if|]. intros _.
  apply blind_bind; [apply blind_modify; intros [] s1; unfold closeCurrentFile_; simpl; by destruct (m_currentFile _)|]. intros _.
  apply blind_get; [by intros []|]. intros s1. apply blind_bind; [destruct (_ && _); [|done]; apply blind_modify; by intros []|]. intros _.
  apply blind_get; [by intros []|]. intros s2. apply blind_bind; [apply blind_fail_if|]. intros _. apply blind_modify. by intros [].
Qed.

(** What [step] does to a parser that has begun. *)
Definition steps_ok n s (x : result bool * t) : Prop :=
  match x with
  | (Ok true, s1) => begun n s1 /\ (length (m_buffer s1) < length (m_buffer s))%nat
  | (Ok false, s1) => s1 = s
  | (Err _, _) => True
  | (NoFuel, _) => False
  end.

Lemma find_index sub l : zlen l < 2147483648 -> find sub l = None \/ exists i, find sub l = Some i /\ to_int i = i /\ 0 <= i /\ i + zlen sub <= zlen l.
Proof.
  intros Hl. destruct (find sub l) as [i|] eqn:E; [right|by left]. pose proof (find_Some _ _ _ E) as (H0 & H1 & _).
  exists i. split; [done|]. rewrite to_int_small by lia. lia.
Qed.

Lemma openTempFile_over attempts o s : openTempFile attempts (over o s) = over o (openTempFile attempts s).
Proof.
  revert s. induction attempts as [|k IH]; intros s; [done|]. cbn [openTempFile].
  assert (m_currentFile (over o s) = m_currentFile s /\ m_tempDirectory (over o s) = m_tempDirectory s /\
    m_fileCounter (over o s) = m_fileCounter s /\ m_files (over o s) = m_files s) as (-> & -> & -> & ->) by by destruct o.
  destruct (m_currentFile s); [done|].
  destruct (makeTempFilePath _ _ _) as [path f]. destruct (openBinaryExclusive _ _) as [[] f1]; rewrite <-IH; by destruct o.
Qed.

Lemma openTempFile_shape attempts s : same_shape s (openTempFile attempts s) /\ m_currentPartBytes (openTempFile attempts s) = m_currentPartBytes s.
Proof.
  revert s. induction attempts as [|k IH]; intros s; [done|]. cbn [openTempFile].
  destruct (m_currentFile s); [done|]. destruct (makeTempFilePath _ _ _) as [path f]. destruct (openBinaryExclusive _ _) as [[] f1];
    cbv zeta; match goal with |- context [openTempFile k ?x] => exact (IH x) end.
Qed.

Lemma blind_startPart partHeaders : blind (startPart partHeaders).
Proof.
  unfold startPart. destruct (_ !! _); [|done]. destruct (swHttpParseHeaderParams_ _) as [ty ps]. destruct (negb _); [done|].
  apply blind_bind; [apply blind_modify; by intros []|]. intros _. apply blind_get; [by intros []|]. intros s.
  apply blind_bind; [|intros _; apply blind_bind; [apply blind_modify; by intros []|done]].
  destruct (_ && _); [|done]. apply blind_bind; [|intros _; apply blind_get; [by intros []|]; intros s1; apply blind_fail_if].
  apply blind_modify. intros o s1. rewrite <-openTempFile_over. by destruct o.
Qed.

(** A part started with [s]'s bytes. *)
Lemma startPart_begun partHeaders n s : begun n s ->
  match startPart partHeaders s with
  | (Ok b, s1) => b = true /\ begun n s1 /\ m_buffer s1 = m_buffer s
  | (Err _, _) => True
  | (NoFuel, _) => False
  end.
Proof.
  intros (HL & Hn & Hk & H0 & Hp & _). unfold startPart. m_run. destruct (_ !! _); [|done]. destruct (swHttpParseHeaderParams_ _) as [ty ps].
  destruct (negb _); [done|]. cbn [m_currentPart m_limits set_m_hasCurrentPart set_m_currentPartBytes set_m_currentPart].
  destruct (_ && enableMultipartFileStreaming _).
  - match goal with |- context [openTempFile 16 ?x] => pose proof (openTempFile_shape 16 x) as Hshape; generalize dependent (openTempFile 16 x) end.
    intros s2 ((E1 & E2 & E3 & E4 & E5 & E6 & _) & E7).
    cbn [m_limits m_state m_boundaryMarker m_buffer m_totalInputBytes m_hasCurrentPart m_currentPartBytes set_m_currentPart set_m_hasCurrentPart set_m_currentPartBytes] in *.
    destruct (m_currentFile s2); [|done]. cbv beta iota. split; [done|]. split; [|done]. unfold begun.
    cbn [m_limits m_totalInputBytes m_boundaryMarker m_currentPartBytes m_buffer m_hasCurrentPart m_state set_m_state].
    rewrite E1, E3, E4, E6, E7. split_and!; try done; lia.
  - split; [done|]. split; [|done]. unfold begun.
    cbn [m_limits m_totalInputBytes m_boundaryMarker m_currentPartBytes m_buffer m_hasCurrentPart m_state set_m_state set_m_currentPart set_m_hasCurrentPart set_m_currentPartBytes].
    split_and!; try done; lia.
Qed.

Lemma begun_consume n k s : begun n s -> 0 <= k -> begun n (consume k s).
Proof.
  intros (HL & Hn & Hk & H0 & Hp & Hh) Hk0. unfold begun. simpl. rewrite length_drop. split_and!; try done; try lia.
Qed.

Lemma begun_state n st s : begun n s -> st <> NeedPartData -> begun n (set_m_state st s).
Proof. intros (HL & Hn & Hk & H0 & Hp & Hh) Hst. unfold begun. simpl. by split_and!; try done; try lia. Qed.

Lemma initial_ok n s : begun n s -> steps_ok n s (consumeInitialBoundary_ false s).
Proof.
  intros Hs. assert (forall p, 0 <= p -> steps_ok n s (boundaryAt false p s)) as Hp.
  2: { unfold consumeInitialBoundary_. unfold mbind at 1, M_bind at 1, get. destruct (_ && _); [|by apply Hp].
       destruct (_ <? 2); [done|]. destruct (negb _); [done|by apply Hp]. }
  intros p Hp. unfold boundaryAt, steps_ok. m_run. destruct (negb (agreesFrom p s)); [done|]. cbv zeta.
  destruct (Z.ltb_spec (zlen (m_buffer s)) (p + zlen (m_delimiter s) + 2)); [done|].
  assert (forall k st, 0 < k -> st <> NeedPartData ->
    begun n (set_m_state st (consume k s)) /\ (length (m_buffer (set_m_state st (consume k s))) < length (m_buffer s))%nat) as Hc.
  { intros k st Hk Hst. split; [apply begun_state; [apply begun_consume; [done|lia]|done]|]. simpl. rewrite length_drop. lia. }
  destruct (_ && _).
  - destruct (_ && negb false); [done|]. destruct (_ && isAt x0d _ s); [done|]. destruct (_ =? _ + 1); [done|]. destruct (negb _ && _); [done|].
    apply Hc; [|done]. destruct (_ && _ && _); lia.
  - destruct (_ || _); [done|]. apply Hc; [lia|done].
Qed.

Lemma headers_ok n s : begun n s -> steps_ok n s (consumePartHeaders_ s).
Proof.
  intros Hs. pose proof Hs as (HL & Hn & Hk & H0 & Hp & _). assert (maxBodyBytes (m_limits s) < 2 ^ 31) as HB by apply HL.
  unfold consumePartHeaders_, steps_ok, bufferIndexOf. m_run.
  destruct (find_index [x0d; x0a; x0d; x0a] (m_buffer s) ltac:(lia)) as [->|(i & -> & Hi & Hi0 & Hi1)].
  { change (-1 <? 0) with true. cbv iota zeta. by destruct (_ <? _). }
  cbv zeta. rewrite Hi. destruct (Z.ltb_spec i 0); [lia|]. destruct (swHttpParseMultipartHeaders_ _ _) as [ph|e|] eqn:E; [|done|].
  - cbv beta iota. pose proof (startPart_begun ph n (consume (i + 4) s) (begun_consume n (i + 4) s Hs ltac:(lia))) as Hpart.
    destruct (startPart ph _) as [[b|e|] s1]; [|done|done]. destruct Hpart as (-> & Hpart & ->). split; [done|]. simpl in Hi1 |- *. rewrite length_drop. lia.
  - unfold swHttpParseMultipartHeaders_ in E. destruct (_ <? _); [done|]. revert E. generalize (∅ : StringMap).
    induction (splitLines _) as [|line lines IH]; intros m; cbn [addPartHeaders]; [done|].
    destruct (addPartHeader line m) as [m1|e|] eqn:E1; [apply IH|done|]. intros _. unfold addPartHeader in E1.
    destruct (isEmpty line); [done|]. cbv zeta in E1. destruct (_ <=? 0); [done|]. destruct (_ || _); [done|].
    destruct (negb _); [done|]. by destruct (m !! _).
Qed.

(** Data of the part, [k] bytes of it. *)
Lemma append_step k n s : begun n s -> 0 <= k <= zlen (m_buffer s) ->
  match takes (take (Z.to_nat k) (m_buffer s)) s with
  | Some s1 => appendAndConsumeCurrentData_ contiguousSize k s = (Ok tt, consume k s1) /\ begun n (consume k s1) /\
      m_buffer (consume k s1) = drop (Z.to_nat k) (m_buffer s) /\ same_shape s s1
  | None => exists e s', appendAndConsumeCurrentData_ contiguousSize k s = (Err e, s')
  end.
Proof.
  intros (HL & Hn & Hk & H0 & Hp & Hh) Hr. assert (maxBodyBytes (m_limits s) < 2 ^ 31) as HB by apply HL.
  pose proof (appendAndConsume_spec k s HL H0 Hr ltac:(unfold u64_max; lia)) as Hspec.
  destruct (takes _ s) as [s1|] eqn:E; [|done]. destruct (takes_shape _ _ _ H0 E) as (Hshape & E8). pose proof Hshape as (E1 & E2 & E3 & E4 & E5 & E6 & E7).
  split; [done|]. split; [|split; [unfold consume; cbn [m_buffer set_m_buffer]; by rewrite E4|done]].
  unfold begun, consume. cbn [m_limits m_totalInputBytes m_boundaryMarker m_currentPartBytes m_buffer m_hasCurrentPart m_state set_m_buffer].
  rewrite E1, E2, E3, E4, E6, E8, length_take, length_drop. split_and!; try done; lia.
Qed.

Lemma finalize_begun n s : begun n s ->
  match finalizeCurrentPart_ s with
  | (Ok _, s1) => begun n (set_m_state Done s1) /\ begun n (set_m_state NeedPartHeaders s1) /\ m_buffer s1 = m_buffer s
  | (Err _, _) => True
  | (NoFuel, _) => False
  end.
Proof.
  intros (HL & Hn & Hk & H0 & Hp & Hh). unfold finalizeCurrentPart_. m_run. destruct (negb _); [done|]. cbv beta iota zeta.
  assert (exists f file, closeCurrentFile_ s = set_m_currentFile file (set_m_files f s)) as (f & file & ->).
  { unfold closeCurrentFile_. destruct (m_currentFile s) eqn:E; [by eauto|]. exists (m_files s), None. rewrite <-E. by destruct s. }
  destruct (_ && _); cbv beta iota;
    cbn [m_limits m_parts m_formFields set_m_formFields set_m_currentFile set_m_files];
    (destruct (_ <=? _); [done|]); cbv beta iota; unfold begun;
    cbn [m_limits m_totalInputBytes m_boundaryMarker m_currentPartBytes m_buffer m_hasCurrentPart m_state set_m_state set_m_formFields
         set_m_currentFile set_m_files set_m_hasCurrentPart set_m_currentPartBytes set_m_currentPart set_m_parts]; split_and!; try done; lia.
Qed.

Lemma afterMarker_consumes closing k s : afterMarker false s = Delimiter closing k -> 0 < k /\ 2 <= k.
Proof.
  unfold afterMarker. destruct (_ <? _); [done|]. destruct (_ && _); [intros [= _ <-]; lia|]. destruct (_ && _); [|done]. cbv zeta.
  destruct (_ =? _); [done|]. destruct (_ =? _); [by destruct (_ && _)|]. destruct (_ && _); [|done]. intros [= _ <-]. lia.
Qed.

Lemma bufferIndexOf_spec needle n s : begun n s ->
  find needle (m_buffer s) = None /\ bufferIndexOf needle s = -1 \/
  exists i, find needle (m_buffer s) = Some i /\ bufferIndexOf needle s = i /\ 0 <= i /\ i + zlen needle <= zlen (m_buffer s).
Proof.
  intros (HL & Hn & Hk & H0 & Hp & Hh). assert (maxBodyBytes (m_limits s) < 2 ^ 31) as HB by apply HL. unfold bufferIndexOf.
  destruct (find_index needle (m_buffer s) ltac:(lia)) as [->|(i & -> & Hi & Hi0 & Hi1)]; [by left|right]. by exists i.
Qed.

Lemma isEmpty_long (l : list byte) : 2 < zlen l -> isEmpty l = false.
Proof. by destruct l. Qed.

Lemma dataStep_ok n s : begun n s -> steps_ok n s (dataStep s).
Proof.
  intros Hs. pose proof Hs as (HL & Hn & Hk & H0 & Hp & _). assert (maxBodyBytes (m_limits s) < 2 ^ 31) as HB by apply HL.
  unfold dataStep, steps_ok. m_run. rewrite (isEmpty_long _ Hk). cbv zeta.
  destruct (bufferIndexOf_spec (m_boundaryMarker s) n s Hs) as [[_ ->]|(i & _ & -> & Hi0 & Hi1)].
  - change (-1 <? 0) with true. cbv iota. destruct (Z.ltb_spec (zlen (m_boundaryMarker s) - 1) (zlen (m_buffer s))); [|done].
    rewrite sub64_small by lia. set (k := zlen (m_buffer s) - _). pose proof (append_step k n s Hs ltac:(lia)) as Ha.
    destruct (takes _ s) as [s1|]; [|by destruct Ha as (e & s' & ->)]. destruct Ha as (-> & Hb & Hl & _). split; [done|]. rewrite Hl, length_drop. lia.
  - destruct (Z.ltb_spec i 0); [lia|]. destruct (Z.ltb_spec 0 i).
    + pose proof (append_step i n s Hs ltac:(lia)) as Ha.
      destruct (takes _ s) as [s1|]; [|by destruct Ha as (e & s' & ->)]. destruct Ha as (-> & Hb & Hl & _). split; [done|]. rewrite Hl, length_drop. lia.
    + destruct (afterMarker false s) as [| |closing k] eqn:Ea; [done| |].
      * pose proof (append_step (zlen (m_boundaryMarker s)) n s Hs ltac:(lia)) as Ha.
        destruct (takes _ s) as [s1|]; [|by destruct Ha as (e & s' & ->)]. destruct Ha as (-> & Hb & Hl & _). split; [done|]. rewrite Hl, length_drop. lia.
      * apply afterMarker_consumes in Ea. pose proof (finalize_begun n _ (begun_consume n k s Hs ltac:(lia))) as Hf.
        destruct (finalizeCurrentPart_ _) as [[[]|e|] s1]; [|done|done]. destruct Hf as (Hf1 & Hf2 & Hb).
        split; [by destruct closing|]. assert (length (m_buffer s1) < length (m_buffer s))%nat as Hl by (rewrite Hb; simpl; rewrite length_drop; lia).
        by destruct closing.
Qed.

Lemma step_ok n s : begun n s -> steps_ok n s (step s).
Proof.
  intros Hs. unfold step. unfold mbind at 1, M_bind at 1, get. destruct (m_state s) eqn:E; [by apply initial_ok|by apply headers_ok| |done|done].
  destruct (negb _); [done|]. by apply dataStep_ok.
Qed.

(** ** All the steps *)

(** Where the steps lead: to a parser at rest, or to a refusal. *)
Inductive runs : t -> option t -> Prop :=
| runs_rest s : step s = (Ok false, s) -> runs s (Some s)
| runs_on s s1 r : step s = (Ok true, s1) -> runs s1 r -> runs s r
| runs_fail s e s1 : step s = (Err e, s1) -> runs s None.

Lemma runs_fun s r1 r2 : runs s r1 -> runs s r2 -> r1 = r2.
Proof.
  intros H. revert r2. induction H as [s H|s s1 r H Hr IH|s e s1 H]; intros r2 H2;
    inversion H2 as [? H3|? s3 ? H3 H4|? ? ? H3]; subst; rewrite H in H3; try done.
  injection H3 as <-. by apply IH.
Qed.

Lemma runs_total n s : begun n s -> exists r, runs s r /\ forall s1, r = Some s1 -> begun n s1.
Proof.
  remember (length (m_buffer s)) as len eqn:Hlen. revert s Hlen. induction (lt_wf len) as [len _ IH]. intros s -> Hs.
  pose proof (step_ok n s Hs) as Hst. destruct (step s) as [[[]|e|] s1] eqn:E; [|simpl in Hst; subst| |done].
  - destruct Hst as [Hs1 Hlt]. destruct (IH _ Hlt s1 eq_refl Hs1) as (r & Hr & Hb). exists r. split; [by eapply runs_on|done].
  - exists (Some s). split; [by apply runs_rest|]. by intros ? [= <-].
  - exists None. split; [by eapply runs_fail|done].
Qed.

(** ** Searching *)

Lemma find_drop sub j l : (j <= length l)%nat ->
  match find sub l with
  | Some i => Z.of_nat j <= i -> find sub (drop j l) = Some (i - Z.of_nat j)
  | None => find sub (drop j l) = None
  end.
Proof.
  revert l. induction j as [|j IH]; intros l Hj.
  - rewrite drop_0. destruct (find sub l); [|done]. intros _. f_equal. lia.
  - destruct l as [|c l]; [simpl in Hj; lia|]. cbn [drop]. specialize (IH l ltac:(simpl in Hj; lia)). cbn [find].
    destruct (hasPrefix sub (c :: l)); [lia|]. destruct (find sub l) as [i|]; simpl; [|done].
    intros Hi. rewrite IH by lia. f_equal. lia.
Qed.

(** What is found early is found without the bytes that follow. *)
Lemma find_early sub l d i : find sub (l ++ d) = Some i -> i + zlen sub <= zlen l -> find sub l = Some i.
Proof.
  revert i. induction l as [|c l IH]; intros i H Hi.
  - pose proof (find_Some _ _ _ H) as (H0 & _). simpl in Hi. assert (sub = []) as -> by (destruct sub; simpl in *; [done|lia]).
    assert (i = 0) as -> by (simpl in *; lia). done.
  - cbn [app find] in H |- *. destruct (hasPrefix sub (c :: l ++ d)) eqn:E.
    + injection H as <-. assert (hasPrefix sub (c :: l) = true) as ->; [|done]. apply hasPrefix_spec in E as [rest E]. apply hasPrefix_spec.
      exists (drop (length sub) (c :: l)). rewrite <-(take_drop (length sub) (c :: l)) at 1. f_equal.
      rewrite <-(take_app_le (c :: l) d) by (simpl in *; lia). cbn [app]. rewrite E. apply take_app_length.
    + apply fmap_Some in H as (j & Hj & ->). simpl in Hi. rewrite (IH j Hj ltac:(lia)).
      destruct (hasPrefix sub (c :: l)) eqn:E2; [|done]. apply hasPrefix_spec in E2 as [rest E2]. exfalso. apply not_true_iff_false in E. apply E.
      apply hasPrefix_spec. exists (rest ++ d). by rewrite app_comm_cons, E2, app_assoc.
Qed.

(** ** Data taken early *)

Lemma step_data n s : begun n s -> m_state s = NeedPartData -> step s = dataStep s.
Proof. intros (_ & _ & _ & _ & _ & Hh) Hs. unfold step. unfold mbind at 1, M_bind at 1, get. rewrite Hs. by rewrite Hh. Qed.

(** A step that takes [k] bytes as data. *)
Lemma runs_take k n s : begun n s -> m_state s = NeedPartData -> 0 < k <= zlen (m_buffer s) ->
  dataStep s = (appendAndConsumeCurrentData_ contiguousSize k;; mret true) s ->
  match takes (take (Z.to_nat k) (m_buffer s)) s with
  | Some s1 => step s = (Ok true, consume k s1) /\ begun n (consume k s1)
  | None => exists e s1, step s = (Err e, s1)
  end.
Proof.
  intros Hs Hst Hk Hd. rewrite <-(step_data n s Hs Hst) in Hd. pose proof (append_step k n s Hs ltac:(lia)) as Ha.
  revert Hd. m_run. destruct (takes _ s) as [s1|].
  - destruct Ha as (-> & Hb & _). done.
  - destruct Ha as (e & s' & ->). intros H. by eexists _, _.
Qed.

(** The bytes before the next marker, and all but the last of those in which there is
    none, may be taken now rather than later. *)
Definition surely_data (j : Z) s : Prop :=
  match find (m_boundaryMarker s) (m_buffer s) with
  | Some i => j <= i
  | None => j + zlen (m_boundaryMarker s) - 1 <= zlen (m_buffer s)
  end.

(** How many bytes the next step takes, when it takes some before a marker. *)
Lemma dataStep_surely n s : begun n s ->
  match find (m_boundaryMarker s) (m_buffer s) with
  | Some i => 0 < i -> dataStep s = (appendAndConsumeCurrentData_ contiguousSize i;; mret true) s
  | None => let k := zlen (m_buffer s) - (zlen (m_boundaryMarker s) - 1) in
      0 < k -> dataStep s = (appendAndConsumeCurrentData_ contiguousSize k;; mret true) s
  end.
Proof.
  intros Hs. pose proof Hs as (HL & Hn & Hk & H0 & Hp & _). assert (maxBodyBytes (m_limits s) < 2 ^ 31) as HB by apply HL.
  unfold dataStep. m_run. rewrite (isEmpty_long _ Hk). cbv zeta.
  destruct (bufferIndexOf_spec (m_boundaryMarker s) n s Hs) as [[-> ->]|(i & -> & -> & Hi0 & Hi1)].
  - change (-1 <? 0) with true. cbv iota. intros Hk1. destruct (Z.ltb_spec (zlen (m_boundaryMarker s) - 1) (zlen (m_buffer s))); [|lia].
    by rewrite sub64_small by lia.
  - destruct (Z.ltb_spec i 0); [lia|]. intros Hi. destruct (Z.ltb_spec 0 i); [done|lia].
Qed.

(** All the bytes the next step takes before a marker. *)
Definition next_data s : Z :=
  match find (m_boundaryMarker s) (m_buffer s) with
  | Some i => i
  | None => zlen (m_buffer s) - (zlen (m_boundaryMarker s) - 1)
  end.

Lemma surely_next j s : surely_data j s -> j <= next_data s.
Proof. unfold surely_data, next_data. destruct (find _ _); lia. Qed.

Lemma next_data_range n s : begun n s -> next_data s <= zlen (m_buffer s).
Proof.
  intros (_ & _ & Hk & _). unfold next_data. destruct (find _ _) as [i|] eqn:E; [|lia].
  pose proof (find_Some _ _ _ E) as (? & ? & _). lia.
Qed.

Lemma runs_next n s : begun n s -> m_state s = NeedPartData -> 0 < next_data s ->
  match takes (take (Z.to_nat (next_data s)) (m_buffer s)) s with
  | Some s1 => step s = (Ok true, consume (next_data s) s1) /\ begun n (consume (next_data s) s1)
  | None => exists e s1, step s = (Err e, s1)
  end.
Proof.
  intros Hs Hst Hd. pose proof (next_data_range n s Hs) as Hr. apply runs_take; [done|done|lia|].
  pose proof (dataStep_surely n s Hs) as H. unfold next_data in *. destruct (find _ _); by apply H.
Qed.

Lemma shift j n s : begun n s -> m_state s = NeedPartData -> 0 <= j -> surely_data j s ->
  match takes (take (Z.to_nat j) (m_buffer s)) s with
  | Some s1 => forall r, runs s r -> runs (consume j s1) r
  | None => runs s None
  end.
Proof.
  intros Hs Hst Hj Hsure. pose proof (surely_next j s Hsure) as Hle. pose proof (next_data_range n s Hs) as Hr.
  pose proof Hs as (HL & Hn & Hk & H0 & Hp & _). assert (maxBodyBytes (m_limits s) < 2 ^ 31) as HB by apply HL.
  destruct (Z.eq_dec j 0) as [->|Hj0]; [rewrite take_0, takes_nil, consume_0; done|].
  pose proof (runs_next n s Hs Hst ltac:(lia)) as Hnext. set (k := next_data s) in *.
  assert (take (Z.to_nat k) (m_buffer s) = take (Z.to_nat j) (m_buffer s) ++ take (Z.to_nat (k - j)) (drop (Z.to_nat j) (m_buffer s))) as Hsplit.
  { rewrite take_take_drop. f_equal. lia. }
  rewrite Hsplit, takes_app in Hnext; [|done|done|rewrite <-Hsplit, length_take; unfold u64_max; lia].
  pose proof (append_step j n s Hs ltac:(lia)) as Hstep. destruct (takes (take (Z.to_nat j) _) s) as [s1|] eqn:E1; simpl in Hnext; [|destruct Hnext as (e & s' & Hnext); by eapply runs_fail].
  destruct Hstep as (_ & Hs1 & Hb1 & (F1 & F2 & F3 & F4 & _)). intros r Hruns.
  destruct (Z.eq_dec j k) as [->|Hjk].
  - replace (k - k) with 0 in Hnext by lia. rewrite take_0, takes_nil in Hnext. destruct Hnext as [Hnext _].
    inversion Hruns as [? H3|? s3 ? H3 H4|? ? ? H3]; subst; rewrite Hnext in H3; [done|by injection H3 as <-|done].
  - assert (next_data (consume j s1) = k - j) as Hn1.
    { unfold k, next_data. rewrite Hb1. change (m_boundaryMarker (consume j s1)) with (m_boundaryMarker s1). rewrite F3.
      pose proof (find_drop (m_boundaryMarker s) (Z.to_nat j) (m_buffer s) ltac:(lia)) as Hf. rewrite length_drop.
      unfold surely_data in Hsure. destruct (find _ (m_buffer s)) as [i|]; [rewrite Hf by lia; lia|rewrite Hf; lia]. }
    pose proof (runs_next n (consume j s1) Hs1 ltac:(simpl; congruence) ltac:(lia)) as Hnext1. rewrite Hn1, Hb1, takes_consume, F4 in Hnext1.
    destruct (takes _ s1) as [s2|] eqn:E2; simpl in Hnext1, Hnext.
    + destruct Hnext as [Hnext _], Hnext1 as [Hnext1 _].
      inversion Hruns as [? H3|? s3 ? H3 H4|? ? ? H3]; subst; rewrite Hnext in H3; [done| |done]. injection H3 as <-.
      eapply runs_on; [exact Hnext1|].
      destruct (takes_shape _ s1 s2 ltac:(destruct Hs1 as (_ & _ & _ & ? & _); exact H) E2) as ((_ & _ & _ & G4 & _) & _).
      replace (consume (k - j) (set_m_buffer (drop (Z.to_nat j) (m_buffer s)) s2)) with (consume k s2); [done|].
      unfold consume. cbn [m_buffer set_m_buffer]. rewrite drop_drop, G4, F4.
      replace (Z.to_nat j + Z.to_nat (k - j))%nat with (Z.to_nat k) by lia. done.
    + destruct Hnext as (e & s' & Hnext), Hnext1 as (e1 & s1' & Hnext1).
      rewrite (runs_fun _ _ _ Hruns (runs_fail _ _ _ Hnext)). by eapply runs_fail.
Qed.

(** ** A step with more bytes waiting *)

Lemma buffer_more d s : m_buffer (more d s) = m_buffer s ++ d.
Proof. done. Qed.

Lemma isAt_more c i d s : 0 <= i < zlen (m_buffer s) -> isAt c i (more d s) = isAt c i s.
Proof. intros Hi. unfold isAt, at_. rewrite buffer_more, app_nth1 by lia. done. Qed.

Lemma consume_more k d s : 0 <= k <= zlen (m_buffer s) -> consume k (more d s) = more d (consume k s).
Proof.
  intros Hk. unfold consume. rewrite buffer_more, drop_app_le by lia. by destruct s.
Qed.

Lemma afterMarker_more d s : afterMarker false s <> Undecided -> afterMarker false (more d s) = afterMarker false s.
Proof.
  unfold afterMarker. change (m_boundaryMarker (more d s)) with (m_boundaryMarker s). rewrite buffer_more, zlen_app.
  set (k := zlen (m_boundaryMarker s)). assert (0 <= k) by lia. clearbody k. cbv zeta. simpl negb. cbn [andb].
  destruct (Z.ltb_spec (zlen (m_buffer s)) (k + 2)); [done|]. destruct (Z.ltb_spec (zlen (m_buffer s) + zlen d) (k + 2)); [lia|].
  rewrite !(isAt_more _ k), !(isAt_more _ (k + 1)) by lia. destruct (_ && _); [done|]. destruct (_ && _); [|done].
  destruct (Z.eqb_spec (zlen (m_buffer s)) (k + 2)); [done|]. destruct (Z.eqb_spec (zlen (m_buffer s) + zlen d) (k + 2)); [lia|].
  rewrite !(isAt_more _ (k + 2)) by lia.
  destruct (Z.eqb_spec (zlen (m_buffer s)) (k + 2 + 1)).
  - destruct (isAt x0d (k + 2) s); [done|]. cbn [andb]. by destruct (_ =? _).
  - destruct (Z.eqb_spec (zlen (m_buffer s) + zlen d) (k + 2 + 1)); [lia|]. by rewrite !(isAt_more _ (k + 2 + 1)) by lia.
Qed.

(** The same answer, or a refusal too. *)
Definition follows (d : list byte) (x y : result bool * t) : Prop :=
  match x with
  | (Ok true, s1) => y = (Ok true, more d s1)
  | (Ok false, _) => True
  | _ => exists e s2, y = (Err e, s2)
  end.

Lemma follows_blind (m : M t bool) d s : blind m -> (forall s1, m s <> (NoFuel, s1)) -> follows d (m s) (m (more d s)).
Proof.
  intros Hm Hf. rewrite blind_more by done. destruct (m s) as [[[]|e|] s1] eqn:E; simpl; [done|done|by eauto|]. by destruct (Hf s1).
Qed.

Lemma agreesFrom_more p d s : 0 <= p -> zlen (m_buffer s) + zlen d < 2147483648 ->
  (agreesFrom p s = false -> agreesFrom p (more d s) = false) /\
  (p + zlen (m_delimiter s) <= zlen (m_buffer s) -> agreesFrom p (more d s) = agreesFrom p s).
Proof.
  intros Hp Hlen. unfold agreesFrom. change (m_delimiter (more d s)) with (m_delimiter s). rewrite buffer_more, zlen_app. cbv zeta. split.
  - destruct (Z.ltb_spec p (zlen (m_buffer s))); [|done]. destruct (Z.ltb_spec p (zlen (m_buffer s) + zlen d)); [|lia].
    rewrite !sub64_small by lia. intros H1%bool_decide_eq_false. apply bool_decide_eq_false. intros H2. apply H1.
    set (a := Z.min (zlen (m_delimiter s)) (zlen (m_buffer s) - p)) in *. set (a' := Z.min _ (_ + _ - p)) in *.
    apply (f_equal (take (Z.to_nat a))) in H2. rewrite take_take, Nat.min_l in H2 by lia. rewrite <-H2.
    unfold zslice. rewrite drop_app_le by lia. rewrite take_take, Nat.min_l by lia. rewrite take_app_le by (rewrite length_drop; lia). done.
  - intros Hd. destruct (Z.ltb_spec p (zlen (m_buffer s))), (Z.ltb_spec p (zlen (m_buffer s) + zlen d)); try lia.
    + rewrite !sub64_small by lia. rewrite !Z.min_l by lia. unfold zslice. rewrite drop_app_le by lia.
      by rewrite take_app_le by (rewrite length_drop; lia).
    + assert (zlen (m_delimiter s) = 0) as -> by lia. rewrite !sub64_small by lia. rewrite Z.min_l by lia. done.
    + done.
Qed.

Lemma boundaryAt_more p d s : 0 <= p -> zlen (m_buffer s) + zlen d < 2147483648 ->
  follows d (boundaryAt false p s) (boundaryAt false p (more d s)).
Proof.
  intros Hp Hlen. destruct (agreesFrom_more p d s Hp Hlen) as [A1 A2]. unfold boundaryAt. m_run.
  change (m_delimiter (more d s)) with (m_delimiter s). rewrite buffer_more, zlen_app. cbv zeta.
  destruct (agreesFrom p s) eqn:Ha; cbn [negb]; [|rewrite A1 by done; simpl; by eauto].
  set (x := p + zlen (m_delimiter s)) in *. destruct (Z.ltb_spec (zlen (m_buffer s)) (x + 2)); [done|]. rewrite A2 by lia. cbn [negb].
  destruct (Z.ltb_spec (zlen (m_buffer s) + zlen d) (x + 2)); [lia|]. rewrite !(isAt_more _ x), !(isAt_more _ (x + 1)) by lia.
  destruct (_ && _).
  - destruct (Z.eqb_spec (zlen (m_buffer s)) (x + 2)); [done|]. destruct (Z.eqb_spec (zlen (m_buffer s) + zlen d) (x + 2)); [lia|].
    rewrite !(isAt_more _ (x + 2)) by lia. cbn [andb negb].
    destruct (Z.eqb_spec (zlen (m_buffer s)) (x + 2 + 1)).
    + cbn [andb]. destruct (isAt x0d (x + 2) s); [done|]. cbn [andb negb orb]. rewrite andb_false_r. destruct (_ =? _); simpl; by eauto.
    + destruct (Z.eqb_spec (zlen (m_buffer s) + zlen d) (x + 2 + 1)); [lia|]. cbn [andb]. rewrite !(isAt_more _ (x + 2 + 1)) by lia.
      destruct (_ || _); [simpl; by eauto|]. destruct (Z.leb_spec (x + 2 + 2) (zlen (m_buffer s))); [|lia].
      destruct (Z.leb_spec (x + 2 + 2) (zlen (m_buffer s) + zlen d)); [|lia]. simpl. f_equal. rewrite consume_more by (destruct (_ && _); lia). done.
  - destruct (_ || _); [simpl; by eauto|]. simpl. f_equal. rewrite consume_more by lia. done.
Qed.

Lemma initial_more d s : zlen (m_buffer s) + zlen d < 2147483648 ->
  follows d (consumeInitialBoundary_ false s) (consumeInitialBoundary_ false (more d s)).
Proof.
  intros Hlen. unfold consumeInitialBoundary_. unfold mbind, M_bind, get. rewrite buffer_more, zlen_app.
  destruct (Z.ltb_spec 0 (zlen (m_buffer s))); cbn [andb].
  2: { unfold boundaryAt at 1. m_run. unfold agreesFrom. destruct (Z.ltb_spec 0 (zlen (m_buffer s))); [lia|]. cbv zeta.
       rewrite bool_decide_eq_true_2 by (by rewrite zslice_0). cbn [negb]. by destruct (Z.ltb_spec (zlen (m_buffer s)) (0 + zlen (m_delimiter s) + 2)); [|lia]. }
  destruct (Z.ltb_spec 0 (zlen (m_buffer s) + zlen d)); [|lia]. cbn [andb]. rewrite (isAt_more _ 0) by lia.
  destruct (isAt x0d 0 s); [|by apply boundaryAt_more].
  destruct (Z.ltb_spec (zlen (m_buffer s)) 2); [done|]. destruct (Z.ltb_spec (zlen (m_buffer s) + zlen d) 2); [lia|].
  rewrite (isAt_more _ 1) by lia. destruct (negb (isAt x0a 1 s)); [simpl; by eauto|by apply boundaryAt_more].
Qed.

Lemma headers_eq s :
  consumePartHeaders_ s =
  (let headerEnd := bufferIndexOf [x0d; x0a; x0d; x0a] s in
   if headerEnd <? 0 then
     if maxMultipartPartHeadersBytes (m_limits s) +u 4 <? zlen (m_buffer s) then throw "Multipart part headers too large"
     else mret false
   else
     partHeaders ← of_result (swHttpParseMultipartHeaders_ (take (Z.to_nat headerEnd) (m_buffer s)) (m_limits s));
     modify (consume (headerEnd + 4));;
     startPart partHeaders) s.
Proof. done. Qed.

Lemma headers_more d n s : begun n s -> begun (n + zlen d) (more d s) ->
  follows d (consumePartHeaders_ s) (consumePartHeaders_ (more d s)).
Proof.
  intros Hs Hs'. pose proof Hs as (HL & Hn & Hk & H0 & Hp & _). assert (maxBodyBytes (m_limits s) < 2 ^ 31) as HB by apply HL.
  assert (0 <= maxMultipartPartHeadersBytes (m_limits s) < 2 ^ 63) as HM by apply HL.
  assert (zlen (m_buffer s) + zlen d < 2147483648) as Hlen.
  { destruct Hs' as (_ & Hn' & _ & _ & Hp' & _). rewrite buffer_more, zlen_app in Hp'. simpl in Hn', Hp'. lia. }
  rewrite (headers_eq s), (headers_eq (more d s)). change (m_limits (more d s)) with (m_limits s).
  set (sep := [x0d; x0a; x0d; x0a]). assert (zlen sep = 4) as Hsep by done.
  destruct (bufferIndexOf_spec sep n s Hs) as [[Hf ->]|(i & Hf & -> & Hi0 & Hi1)].
  - change (-1 <? 0) with true. cbv iota zeta. rewrite add64_small by lia.
    destruct (Z.ltb_spec (maxMultipartPartHeadersBytes (m_limits s) + 4) (zlen (m_buffer s))); [|done]. unfold throw at 1. cbn [follows].
    destruct (bufferIndexOf_spec sep _ _ Hs') as [[_ ->]|(i & Hf' & -> & Hi0 & Hi1)].
    + change (-1 <? 0) with true. cbv iota. rewrite buffer_more, zlen_app.
      destruct (Z.ltb_spec (maxMultipartPartHeadersBytes (m_limits s) + 4) (zlen (m_buffer s) + zlen d)); [|lia]. m_run. by eexists _, _.
    + destruct (Z.ltb_spec i 0); [lia|]. rewrite buffer_more in *. rewrite zlen_app in Hi1.
      destruct (Z.le_gt_cases (i + 4) (zlen (m_buffer s))); [by rewrite (find_early _ _ _ _ Hf') in Hf by lia|].
      assert (maxMultipartPartHeadersBytes (m_limits s) < zlen (take (Z.to_nat i) (m_buffer s ++ d))) by (rewrite length_take, length_app; lia).
      unfold swHttpParseMultipartHeaders_. destruct (Z.ltb_spec (maxMultipartPartHeadersBytes (m_limits s)) (zlen (take (Z.to_nat i) (m_buffer s ++ d)))); [|lia].
      m_run. by eexists _, _.
  - destruct (bufferIndexOf_spec sep _ _ Hs') as [[Hf' _]|(i' & Hf' & -> & _)]; rewrite buffer_more, (find_app _ _ d _ Hf) in Hf'; [done|].
    injection Hf' as <-. cbv zeta. destruct (Z.ltb_spec i 0); [lia|]. rewrite buffer_more, take_app_le by lia.
    destruct (swHttpParseMultipartHeaders_ _ _) as [ph|e|] eqn:Ep; unfold mbind, M_bind, of_result; [|simpl; by eexists _, _|].
    + unfold modify. rewrite consume_more by lia. apply follows_blind; [apply blind_startPart|]. intros s1 E.
      pose proof (startPart_begun ph n _ (begun_consume n (i + 4) s Hs ltac:(lia))) as Hb. by rewrite E in Hb.
    + pose proof (headers_ok n s Hs) as Hok. revert Hok. unfold consumePartHeaders_, steps_ok. m_run. fold sep.
      destruct (bufferIndexOf_spec sep n s Hs) as [[? _]|(i2 & Hf2 & -> & _)]; [congruence|]. rewrite Hf in Hf2. injection Hf2 as <-.
      cbv zeta. destruct (Z.ltb_spec i 0); [lia|]. by rewrite Ep.
Qed.

Lemma takes_more a d s : takes a (more d s) = (over (Total (m_totalInputBytes s + zlen d)) ∘ over (Buffer (m_buffer s ++ d))) <$> takes a s.
Proof. unfold more. rewrite !takes_over. by destruct (takes a s). Qed.

Lemma take_more j n d s s1 : begun n s -> 0 <= j <= zlen (m_buffer s) -> takes (take (Z.to_nat j) (m_buffer s)) s = Some s1 ->
  exists s2, takes (take (Z.to_nat j) (m_buffer (more d s))) (more d s) = Some s2 /\ consume j s2 = more d (consume j s1).
Proof.
  intros (_ & _ & _ & H0 & _) Hj H. rewrite buffer_more, take_app_le, takes_more, H by lia. eexists. split; [reflexivity|].
  destruct (takes_shape _ _ _ H0 H) as ((_ & _ & _ & Hb & Ht & _) & _). rewrite <-Hb, <-Ht.
  rewrite <-consume_more by (rewrite Hb; lia). done.
Qed.

(** At a marker. *)
Lemma dataStep_marker n s : begun n s -> find (m_boundaryMarker s) (m_buffer s) = Some 0 ->
  dataStep s =
  match afterMarker false s with
  | Undecided => (Ok false, s)
  | NotADelimiter => (appendAndConsumeCurrentData_ contiguousSize (zlen (m_boundaryMarker s));; mret true) s
  | Delimiter closing k => (finalizeCurrentPart_;; modify (set_m_state (if closing then Done else NeedPartHeaders));; mret true) (consume k s)
  end.
Proof.
  intros Hs Hf. unfold dataStep. m_run. destruct (bufferIndexOf_spec (m_boundaryMarker s) n s Hs) as [[? _]|(i & Hi & -> & _)]; [congruence|].
  rewrite Hf in Hi. injection Hi as <-. cbv zeta. change (0 <? 0) with false. cbv iota. by destruct (afterMarker false s).
Qed.

Lemma afterMarker_in n s closing k : begun n s -> afterMarker false s = Delimiter closing k -> 0 <= k <= zlen (m_buffer s).
Proof.
  intros (_ & _ & Hk & _) H. unfold afterMarker in H. cbv zeta in H. simpl in H. set (m := zlen (m_boundaryMarker s)) in *. clearbody m.
  destruct (Z.ltb_spec (zlen (m_buffer s)) (m + 2)); [done|]. destruct (_ && _); [injection H as _ <-; lia|]. destruct (_ && _); [|done].
  destruct (Z.eqb_spec (zlen (m_buffer s)) (m + 2)); [done|]. destruct (Z.eqb_spec (zlen (m_buffer s)) (m + 2 + 1)); [by destruct (isAt _ _ _)|].
  destruct (_ && _); [|done]. injection H as _ <-. lia.
Qed.

(** At a marker, a step is followed by the same step. *)
Lemma marker_more d n s : begun n s -> begun (n + zlen d) (more d s) -> find (m_boundaryMarker s) (m_buffer s) = Some 0 ->
  follows d (dataStep s) (dataStep (more d s)).
Proof.
  intros Hs Hs' Hf. pose proof Hs as (_ & _ & Hk & _). assert (zlen (m_boundaryMarker s) <= zlen (m_buffer s)) as Hle by (pose proof (find_Some _ _ _ Hf) as (_ & ? & _); lia).
  rewrite (dataStep_marker n s Hs Hf), (dataStep_marker _ _ Hs').
  2: { change (m_boundaryMarker (more d s)) with (m_boundaryMarker s). by rewrite buffer_more, (find_app _ _ d _ Hf). }
  change (m_boundaryMarker (more d s)) with (m_boundaryMarker s).
  destruct (afterMarker false s) as [| |closing k] eqn:Ea; [done| |]; rewrite afterMarker_more, Ea by congruence.
  - pose proof (append_step (zlen (m_boundaryMarker s)) n s Hs ltac:(lia)) as H1.
    pose proof (append_step (zlen (m_boundaryMarker s)) _ _ Hs' ltac:(rewrite buffer_more, zlen_app; lia)) as H2.
    unfold mbind, M_bind. destruct (takes _ s) as [s1|] eqn:E1.
    + destruct (take_more (zlen (m_boundaryMarker s)) n d s s1 Hs ltac:(lia) E1) as (s2 & E2 & E3). rewrite E2 in H2.
      destruct H1 as (-> & _), H2 as (-> & _). by rewrite E3.
    + destruct H1 as (e & s' & ->). rewrite buffer_more, take_app_le, takes_more, E1 in H2 by lia. destruct H2 as (e2 & s2 & ->). simpl. by eexists _, _.
  - rewrite consume_more by by eapply afterMarker_in. apply follows_blind.
    + apply blind_bind; [apply blind_finalize|]. intros _. apply blind_bind; [|done]. apply blind_modify. by intros [].
    + intros s1. m_run. pose proof (finalize_begun n _ (begun_consume n k s Hs ltac:(by apply (afterMarker_in n s closing k)))) as Hfin.
      by destruct (finalizeCurrentPart_ (consume k s)) as [[[]|e|] s2].
Qed.

(** The data before a marker stays data. *)
Lemma surely_more d s : surely_data (next_data s) (more d s).
Proof.
  unfold surely_data, next_data. change (m_boundaryMarker (more d s)) with (m_boundaryMarker s). rewrite buffer_more, zlen_app.
  destruct (find _ (m_buffer s)) as [i|] eqn:E; [by rewrite (find_app _ _ d _ E)|].
  destruct (find _ (m_buffer s ++ d)) as [i|] eqn:E2; [|lia].
  destruct (Z.le_gt_cases (zlen (m_buffer s) - (zlen (m_boundaryMarker s) - 1)) i); [done|].
  by rewrite (find_early _ _ _ _ E2) in E by lia.
Qed.

Lemma step_eq s :
  step s =
  match m_state s with
  | NeedPartData => if negb (m_hasCurrentPart s) then throw "Multipart state mismatch" else dataStep
  | NeedPartHeaders => consumePartHeaders_
  | NeedInitialBoundary => consumeInitialBoundary_ false
  | Done => mret false
  | Error => throw "Malformed multipart body"
  end s.
Proof. done. Qed.

(** From where a step led, the bytes that follow lead where they did. *)
Lemma step_more d n s : begun n s -> begun (n + zlen d) (more d s) ->
  match step s with
  | (Ok true, s1) => forall r, runs (more d s) r -> runs (more d s1) r
  | (Ok false, _) => True
  | _ => runs (more d s) None
  end.
Proof.
  intros Hs Hs'. assert (forall x, step s = x -> follows d x (step (more d s)) ->
    match x with
    | (Ok true, s1) => forall r, runs (more d s) r -> runs (more d s1) r
    | (Ok false, _) => True
    | _ => runs (more d s) None
    end) as Hfollow.
  { intros [[[]|e|] s1] _ Hf; simpl in Hf; [|done|..].
    - intros r Hr. inversion Hr as [? H3|? s3 ? H3 H4|? ? ? H3]; subst; rewrite Hf in H3; [done|by injection H3 as <-|done].
    - destruct Hf as (e2 & s2 & Hf). by eapply runs_fail.
    - destruct Hf as (e2 & s2 & Hf). by eapply runs_fail. }
  pose proof Hs' as (_ & Hn' & _ & _ & Hp' & _). rewrite buffer_more, zlen_app in Hp'.
  assert (maxBodyBytes (m_limits s) < 2 ^ 31) as HB by apply Hs. change (m_limits (more d s)) with (m_limits s) in Hn'.
  destruct (m_state s) eqn:Est.
  - apply Hfollow; [done|]. rewrite (step_eq s), (step_eq (more d s)). change (m_state (more d s)) with (m_state s). rewrite Est.
    apply initial_more. destruct Hs as (_ & _ & _ & ? & _). simpl in Hp'. lia.
  - apply Hfollow; [done|]. rewrite (step_eq s), (step_eq (more d s)). change (m_state (more d s)) with (m_state s). rewrite Est. by eapply headers_more.
  - pose proof (next_data_range n s Hs) as Hr. destruct (Z.le_gt_cases (next_data s) 0) as [Hd|Hd].
    + pose proof (step_data n s Hs Est) as E1. pose proof (step_data _ _ Hs' Est) as E2. rewrite E1.
      destruct (find (m_boundaryMarker s) (m_buffer s)) as [i|] eqn:Ef.
      * unfold next_data in Hd. rewrite Ef in Hd. pose proof (find_Some _ _ _ Ef) as (? & _). assert (i = 0) as -> by lia.
        apply Hfollow; [done|]. rewrite E2. by eapply marker_more.
      * assert (dataStep s = (Ok false, s)) as ->; [|done]. unfold next_data in Hd. rewrite Ef in Hd. destruct Hs as (? & ? & Hk & ?).
        unfold dataStep, bufferIndexOf. m_run. rewrite Ef, (isEmpty_long _ Hk). cbv zeta. change (-1 <? 0) with true. cbv iota.
        by destruct (Z.ltb_spec (zlen (m_boundaryMarker s) - 1) (zlen (m_buffer s))); [lia|].
    + pose proof (runs_next n s Hs Est Hd) as Hnext. pose proof (shift (next_data s) _ _ Hs' Est ltac:(lia) (surely_more d s)) as Hshift.
      destruct (takes (take _ (m_buffer s)) s) as [s1|] eqn:E1.
      * destruct Hnext as [-> _]. destruct (take_more (next_data s) n d s s1 Hs ltac:(lia) E1) as (s2 & E2 & E3).
        rewrite E2, E3 in Hshift. exact Hshift.
      * rewrite buffer_more, take_app_le, takes_more, E1 in Hshift by lia. simpl in Hshift.
        by destruct Hnext as (e & s1 & ->).
  - by rewrite step_eq, Est.
  - apply Hfollow; [done|]. rewrite (step_eq s), (step_eq (more d s)). change (m_state (more d s)) with (m_state s). rewrite Est. by eexists _, _.
Qed.

Lemma begun_more d n s : begun n s -> begun (n + zlen d) s -> begun (n + zlen d) (more d s).
Proof.
  intros (HL & Hn & Hk & H0 & Hp & Hh) (_ & Hn' & _). unfold begun. change (m_limits (more d s)) with (m_limits s).
  change (m_boundaryMarker (more d s)) with (m_boundaryMarker s). change (m_currentPartBytes (more d s)) with (m_currentPartBytes s).
  rewrite buffer_more, zlen_app. split_and!; try done; lia.
Qed.

Lemma runs_more d n s r : begun n s -> begun (n + zlen d) s -> runs s r ->
  match r with
  | Some s1 => forall r', runs (more d s) r' -> runs (more d s1) r'
  | None => runs (more d s) None
  end.
Proof.
  intros Hs Hs' H. induction H as [s H|s s1 r H Hr IH|s e s1 H]; [done|..];
    pose proof (step_more d n s Hs (begun_more d n s Hs Hs')) as Hm; rewrite H in Hm; [|done].
  pose proof (step_ok n s Hs) as H1. pose proof (step_ok _ s Hs') as H1'. rewrite H in H1, H1'. destruct H1 as [H1 _], H1' as [H1' _].
  specialize (IH H1 H1'). destruct r as [s2|]; [intros r' Hr'; by apply IH, Hm|].
  destruct (runs_total _ _ (begun_more d n s Hs Hs')) as (r' & Hr' & _). by rewrite (runs_fun _ _ _ IH (Hm _ Hr')) at 1.
Qed.

(** ** The loops of the code *)

(** What a loop that starts at [s] and answers [x] has done, in steps. *)
Definition does (n : Z) (ch : bool) (s : t) (x : result bool * t) : Prop :=
  match x with
  | (Ok c, s1) =>
      begun n s1 /\ (s1 = s /\ c = ch /\ step s = (Ok false, s) \/
                     c = true /\ (length (m_buffer s1) < length (m_buffer s))%nat /\ forall r, runs s1 r -> runs s r)
  | (Err _, _) => runs s None
  | (NoFuel, _) => False
  end.

Lemma does_after n ch ch' s s1 x : step s = (Ok true, s1) -> (length (m_buffer s1) < length (m_buffer s))%nat ->
  does n ch' s1 x -> ch' = true -> does n ch s x.
Proof.
  intros H Hl Hx ->. destruct x as [[c|e|] s2]; simpl in *; [|by eapply runs_on|done].
  destruct Hx as (Hb & [(-> & -> & Hs)|(-> & Hl2 & Hr)]); (split; [done|right]); (split; [done|]); (split; [lia|]);
    intros r Hr'; (eapply runs_on; [done|]); auto.
Qed.

Lemma does_step n ch s x : begun n s -> step s = x ->
  match x with (Ok true, _) => does n ch s x | (Ok false, _) => True | _ => does n ch s x end.
Proof.
  intros Hs <-. pose proof (step_ok n s Hs) as Hok. destruct (step s) as [[[]|e|] s1] eqn:E; simpl in *; [|done|by eapply runs_fail|done].
  destruct Hok as [Hb Hl]. split; [done|right]. split; [done|]. split; [done|]. intros r Hr. by eapply runs_on.
Qed.

Lemma dataLoop_does n fuel ch s : begun n s -> m_state s = NeedPartData -> (length (m_buffer s) < fuel)%nat ->
  does n ch s (consumePartData_loop contiguousSize fuel false ch s).
Proof.
  revert ch s. induction fuel as [|fuel IH]; intros ch s Hs Hst Hf; [lia|].
  assert (forall ch' s', begun n s' -> m_state s' = NeedPartData -> (length (m_buffer s') <= length (m_buffer s))%nat ->
    find (m_boundaryMarker s') (m_buffer s') = Some 0 ->
    does n ch' s' (match afterMarker false s' with
      | Undecided => mret ch'
      | NotADelimiter =>
          appendAndConsumeCurrentData_ contiguousSize (zlen (m_boundaryMarker s'));;
          consumePartData_loop contiguousSize fuel false true
      | Delimiter closing delimiterBytes =>
          modify (consume delimiterBytes);;
          finalizeCurrentPart_;;
          modify (set_m_state (if closing then Done else NeedPartHeaders));;
          mret true
      end s')) as Hat.
  { intros ch' s' Hs' Hst' Hl' Hm. pose proof (dataStep_marker n s' Hs' Hm) as Hd. rewrite <-(step_data n s' Hs' Hst') in Hd.
    pose proof Hs' as (_ & _ & Hk & _). pose proof (find_Some _ _ _ Hm) as (_ & Hle & _).
    destruct (afterMarker false s') as [| |closing k] eqn:Ea.
    - split; [done|left]. by split_and!.
    - pose proof (append_step (zlen (m_boundaryMarker s')) n s' Hs' ltac:(lia)) as Ha. revert Hd. m_run. destruct (takes _ s') as [s1|].
      + destruct Ha as (-> & Hb & Hlen & (_ & F2 & _)). intros Hd. assert (length (m_buffer (consume (zlen (m_boundaryMarker s')) s1)) < length (m_buffer s'))%nat
          by (rewrite Hlen, length_drop; lia).
        eapply does_after; [exact Hd|done|apply IH; [done|simpl; congruence|lia]|done].
      + destruct Ha as (e & s2 & ->). intros Hd. by eapply runs_fail.
    - pose proof (does_step n ch' s' _ Hs' Hd) as Hx. revert Hx. m_run. destruct (finalizeCurrentPart_ (consume k s')) as [[[]|e|] s2]; done. }
  cbn [consumePartData_loop]. unfold mbind at 1, M_bind at 1, get. pose proof (runs_next n s Hs Hst) as Hnext.
  pose proof (step_data n s Hs Hst) as Hsd. pose proof Hs as (HL & Hn & Hk & H0 & Hp & _). rewrite (isEmpty_long _ Hk).
  assert (maxBodyBytes (m_limits s) < 2 ^ 31) as HB by apply HL. unfold next_data in Hnext. cbv zeta.
  destruct (bufferIndexOf_spec (m_boundaryMarker s) n s Hs) as [[Hfd E]|(i & Hfd & E & Hi0 & Hi1)]; rewrite E, Hfd in *.
  - change (-1 <? 0) with true. cbv iota. destruct (Z.ltb_spec (zlen (m_boundaryMarker s) - 1) (zlen (m_buffer s))).
    + rewrite sub64_small by lia. specialize (Hnext ltac:(lia)). set (k := zlen (m_buffer s) - _) in *.
      pose proof (append_step k n s Hs ltac:(lia)) as Ha. m_run. destruct (takes _ s) as [s1|].
      * destruct Ha as (-> & _), Hnext as [Hnext _]. exact (does_step n ch s _ Hs Hnext).
      * destruct Ha as (e & s2 & ->), Hnext as (e2 & s3 & Hnext). by eapply runs_fail.
    + split; [done|left]. split; [done|]. split; [done|]. rewrite Hsd. unfold dataStep. m_run. rewrite E, (isEmpty_long _ Hk). change (-1 <? 0) with true.
      cbv iota zeta. by destruct (Z.ltb_spec (zlen (m_boundaryMarker s) - 1) (zlen (m_buffer s))); [lia|].
  - destruct (Z.ltb_spec i 0); [lia|]. destruct (Z.ltb_spec 0 i).
    + specialize (Hnext ltac:(lia)). pose proof (append_step i n s Hs ltac:(lia)) as Ha.
      unfold mbind at 1, M_bind at 1. destruct (takes _ s) as [s1|].
      * destruct Ha as (-> & Hb & Hlen & (_ & F2 & F3 & F4 & _)), Hnext as [Hnext _].
        assert (length (m_buffer (consume i s1)) < length (m_buffer s))%nat as Hlt by (rewrite Hlen, length_drop; lia).
        eapply does_after; [exact Hnext|done| |exact (orb_true_r ch)]. unfold mbind at 1, M_bind at 1. apply Hat; [done|simpl; congruence|lia|].
        rewrite Hlen. change (m_boundaryMarker (consume i s1)) with (m_boundaryMarker s1). rewrite F3.
        pose proof (find_drop (m_boundaryMarker s) (Z.to_nat i) (m_buffer s) ltac:(lia)) as Hfd2. rewrite Hfd in Hfd2. rewrite Hfd2 by lia. f_equal. lia.
      * destruct Ha as (e & s2 & ->), Hnext as (e2 & s3 & Hnext). by eapply runs_fail.
    + rewrite orb_false_r. unfold mbind at 1, M_bind at 1, mret at 1, M_ret at 1. unfold mbind at 1, M_bind at 1.
      apply Hat; [done|done|lia|]. rewrite Hfd. f_equal. lia.
Qed.

Lemma processStep_does n s : begun n s -> does n false s (processStep contiguousSize false s).
Proof.
  intros Hs. unfold processStep. unfold mbind at 1, M_bind at 1, get.
  assert (forall m : M t bool, step s = m s -> does n false s (orCleanup m s)) as Hstep.
  { intros m Hm. pose proof (step_ok n s Hs) as Hok. pose proof (does_step n false s _ Hs Hm) as Hd. rewrite Hm in Hok.
    unfold orCleanup. destruct (m s) as [[[]|e|] s1]; [done| |exact Hd|done]. simpl in Hok. subst. split; [done|left]. by split_and!. }
  destruct (m_state s) eqn:Est.
  - apply Hstep. by rewrite step_eq, Est.
  - apply Hstep. by rewrite step_eq, Est.
  - unfold orCleanup, consumePartData_. unfold mbind at 1, M_bind at 1, get. pose proof Hs as (_ & _ & _ & _ & _ & Hh). rewrite Hh by done. cbn [negb].
    pose proof (dataLoop_does n (S (length (m_buffer s))) false s) as Hd. specialize (Hd Hs Est ltac:(lia)).
    destruct (consumePartData_loop _ _ _ _ _) as [[c|e|] s1]; exact Hd.
  - split; [done|left]. split_and!; [done|done|]. by rewrite step_eq, Est.
  - eapply runs_fail. by rewrite step_eq, Est.
Qed.

(** [process_] goes where the steps lead, and its fuel is enough. *)
Lemma process_runs n s : begun n s ->
  match process_ contiguousSize false s with
  | (Ok _, s1) => runs s (Some s1)
  | (Err _, _) => runs s None
  | (NoFuel, _) => False
  end.
Proof.
  unfold process_. unfold mbind at 1, M_bind at 1, get. assert (length (m_buffer s) < S (length (m_buffer s)))%nat as Hf by lia. revert Hf.
  generalize (S (length (m_buffer s))) as fuel. intros fuel. revert s. induction fuel as [|fuel IH]; intros s Hf Hs; [lia|].
  cbn [process_loop]. unfold mbind, M_bind. pose proof (processStep_does n s Hs) as Hd. destruct (processStep _ _ s) as [[c|e|] s1]; [|exact Hd|exact Hd].
  destruct Hd as (Hb & [(-> & -> & Hst)|(-> & Hl & Hr)]); [by apply (runs_rest s)|]. specialize (IH s1 ltac:(lia) Hb).
  destruct (process_loop _ fuel _ s1) as [[[]|e|] s2]; auto.
Qed.

(** ** What the steps leave alone *)

Definition steady {A} (m : M t A) : Prop :=
  forall s, m_limits (m s).2 = m_limits s /\ m_totalInputBytes (m s).2 = m_totalInputBytes s.

Lemma steady_bind {A B} (m : M t A) (k : A -> M t B) : steady m -> (forall a, steady (k a)) -> steady (mbind k m).
Proof.
  intros Hm Hk s. unfold mbind, M_bind. specialize (Hm s). destruct (m s) as [[a|e|] s']; [|done|done]. simpl in Hm.
  destruct Hm as [<- <-]. apply Hk.
Qed.

Lemma steady_get {B} (k : t -> M t B) : (forall s, steady (k s)) -> steady (mbind k get).
Proof. intros Hk. by apply steady_bind. Qed.

Lemma steady_fail_if c msg : steady (fail_if c msg).
Proof. by destruct c. Qed.

Ltac steady_step :=
  lazymatch goal with
  | |- steady (mret _) => done
  | |- steady (throw _) => done
  | |- steady (of_result _) => done
  | |- steady out_of_fuel => done
  | |- steady (fail_if _ _) => apply steady_fail_if
  | |- steady (mbind _ get) => apply steady_get; intros ?
  | |- steady (mbind _ _) => apply steady_bind; [|intros ?]
  | |- steady (match ?x with _ => _ end) => destruct x
  | |- steady (modify _) => done
  end.

Lemma steady_append a : steady (appendCurrentData_ a).
Proof. unfold appendCurrentData_. cbv zeta. repeat steady_step. Qed.

Lemma steady_appendAndConsume n : steady (appendAndConsumeCurrentData_ contiguousSize n).
Proof.
  unfold appendAndConsumeCurrentData_. generalize (S (Z.to_nat n)) as fuel. intros fuel. revert n.
  induction fuel as [|fuel IH]; intros n; cbn [appendAndConsume_loop]; cbv zeta; repeat steady_step; [apply steady_append|apply IH].
Qed.

Lemma steady_finalize : steady finalizeCurrentPart_.
Proof.
  unfold finalizeCurrentPart_. cbv zeta. repeat (steady_step || (intros s'; unfold modify, closeCurrentFile_; simpl; by destruct (m_currentFile s'))).
Qed.

Lemma steady_startPart ph : steady (startPart ph).
Proof.
  unfold startPart. cbv zeta. destruct (_ !! _); [|done]. destruct (swHttpParseHeaderParams_ _). destruct (negb _); [done|].
  apply steady_bind; [done|]. intros _. apply steady_get. intros s. apply steady_bind; [|done]. destruct (_ && _); [|done].
  apply steady_bind; [|intros _; apply steady_get; intros ?; apply steady_fail_if].
  intros s1. unfold modify. cbn [snd].
  match goal with |- context [openTempFile 16 ?x] => destruct (openTempFile_shape 16 x) as ((E1 & _ & _ & _ & E5 & _) & _) end.
  by rewrite E1, E5.
Qed.

Lemma steady_step_ : steady step.
Proof.
  unfold step. apply steady_get. intros s. destruct (m_state s); [| | |done|done].
  - unfold consumeInitialBoundary_, boundaryAt. cbv zeta. repeat steady_step.
  - unfold consumePartHeaders_. cbv zeta. repeat first [steady_step|apply steady_startPart].
  - destruct (negb _); [done|]. unfold dataStep. cbv zeta. repeat first [steady_step|apply steady_appendAndConsume|apply steady_finalize].
Qed.

Lemma runs_steady s s1 : runs s (Some s1) -> m_limits s1 = m_limits s /\ m_totalInputBytes s1 = m_totalInputBytes s.
Proof.
  intros H. remember (Some s1) as r eqn:Er. revert s1 Er. induction H as [s H|s s2 r H Hr IH|s e s2 H]; intros s1 Er; [by injection Er as ->| |done].
  destruct (IH _ Er) as [-> ->]. pose proof (steady_step_ s) as Hs. by rewrite H in Hs.
Qed.

(** ** The laws of the interface *)

(** [n] bytes have been accepted. *)
Definition accepted (n : Z) s : Prop := begun n s /\ m_totalInputBytes s = n.

Lemma more_nothing s : more [] s = s.
Proof. destruct s. unfold more. simpl. by rewrite app_nil_r, Z.add_0_r. Qed.

Lemma more_app a b s : more b (more a s) = more (a ++ b) s.
Proof. destruct s. unfold more. simpl. by rewrite <-app_assoc, zlen_app, Z.add_assoc. Qed.

Lemma feed_runs n d s : accepted n s ->
  if maxBodyBytes (m_limits s) <? n + zlen d then exists e s1, feed contiguousSize d s = (Err e, s1)
  else
    begun (n + zlen d) (more d s) /\
    match feed contiguousSize d s with
    | (Ok _, s1) => runs (more d s) (Some s1)
    | (Err _, _) => runs (more d s) None
    | (NoFuel, _) => False
    end.
Proof.
  intros [Hs Ht]. pose proof Hs as (HL & Hn & Hk & H0 & Hp & Hh). assert (maxBodyBytes (m_limits s) < 2 ^ 31) as HB by apply HL.
  unfold feed. unfold mbind at 1 3, M_bind at 1 3, get. rewrite Ht. destruct (Z.ltb_spec (maxBodyBytes (m_limits s)) n); [lia|].
  rewrite sub64_small by lia. cbn [orb].
  destruct (Z.ltb_spec (maxBodyBytes (m_limits s)) (n + zlen d)).
  { destruct (Z.ltb_spec 0 (zlen d)); [|lia]. destruct (Z.ltb_spec (maxBodyBytes (m_limits s) - n) (zlen d)); [|lia]. m_run. by eexists _, _. }
  assert (begun (n + zlen d) s) as Hs' by (unfold begun; split_and!; try done; lia).
  pose proof (begun_more d n s Hs Hs') as Hm. split; [done|]. pose proof (process_runs _ _ Hm) as Hrun.
  destruct (Z.ltb_spec 0 (zlen d)).
  - destruct (Z.ltb_spec (maxBodyBytes (m_limits s) - n) (zlen d)); [lia|]. unfold mbind, M_bind, modify.
    rewrite Ht, add64_small by lia. unfold more in Hrun at 1. rewrite Ht in Hrun. exact Hrun.
  - assert (d = []) as -> by (destruct d; simpl in *; [done|lia]). rewrite more_nothing in *. exact Hrun.
Qed.

Lemma feed_accepted n d s s1 : accepted n s -> feed contiguousSize d s = (Ok tt, s1) ->
  runs (more d s) (Some s1) /\ accepted (n + zlen d) s1 /\ n + zlen d <= maxBodyBytes (m_limits s) /\ m_limits s1 = m_limits s.
Proof.
  intros Hs H. pose proof (feed_runs n d s Hs) as Hf. rewrite H in Hf.
  destruct (Z.ltb_spec (maxBodyBytes (m_limits s)) (n + zlen d)); [by destruct Hf as (e & s2 & ?)|]. destruct Hf as [Hb Hr].
  destruct (runs_steady _ _ Hr) as [E1 E2]. split; [done|]. split; [|by split].
  destruct (runs_total _ _ Hb) as (r & Hr2 & Hb2). rewrite (runs_fun _ _ _ Hr2 Hr) in Hb2. split; [by apply Hb2|]. rewrite E2. simpl. by rewrite (proj2 Hs).
Qed.

(** Cutting the input makes no difference. *)
Lemma feed_split n a b s s2 : accepted n s ->
  feed contiguousSize (a ++ b) s = (Ok tt, s2) <->
  exists s1, feed contiguousSize a s = (Ok tt, s1) /\ feed contiguousSize b s1 = (Ok tt, s2).
Proof.
  intros Hs. split.
  - intros H. destruct (feed_accepted n _ s s2 Hs H) as (Hr & _ & Hle & _). rewrite zlen_app in Hle.
    pose proof (feed_runs n a s Hs) as Ha. destruct (Z.ltb_spec (maxBodyBytes (m_limits s)) (n + zlen a)); [lia|]. destruct Ha as [Hb Ha].
    assert (begun (n + zlen a + zlen b) (more a s)) as Hb'.
    { destruct Hb as (HL' & Hn' & Hk' & H0' & Hp' & Hh'). change (m_limits (more a s)) with (m_limits s) in *. unfold begun. change (m_limits (more a s)) with (m_limits s). split_and!; try done; lia. }
    rewrite <-more_app in Hr. destruct (feed contiguousSize a s) as [[[]|e|] s1] eqn:E; [| |done].
    + exists s1. split; [done|]. destruct (feed_accepted n a s s1 Hs E) as (_ & Hs1 & _ & El).
      pose proof (runs_more b _ _ _ Hb Hb' Ha _ Hr) as Hr1. pose proof (feed_runs _ b s1 Hs1) as Hf.
      rewrite El in Hf. destruct (Z.ltb_spec (maxBodyBytes (m_limits s)) (n + zlen a + zlen b)); [lia|]. destruct Hf as [_ Hf].
      destruct (feed contiguousSize b s1) as [[[]|e|] s3]; [|by pose proof (runs_fun _ _ _ Hf Hr1)|done].
      pose proof (runs_fun _ _ _ Hf Hr1) as [= ->]. done.
    + pose proof (runs_more b _ _ _ Hb Hb' Ha) as Hr1. by pose proof (runs_fun _ _ _ Hr1 Hr).
  - intros (s1 & E1 & E2). destruct (feed_accepted n a s s1 Hs E1) as (Hr1 & Hs1 & Hle1 & El).
    destruct (feed_accepted _ b s1 s2 Hs1 E2) as (Hr2 & _ & Hle2 & _). rewrite El in Hle2.
    pose proof (feed_runs n (a ++ b) s Hs) as Hf. rewrite zlen_app in Hf.
    destruct (Z.ltb_spec (maxBodyBytes (m_limits s)) (n + (zlen a + zlen b))); [lia|]. destruct Hf as [Hb Hf].
    pose proof (feed_runs n a s Hs) as Ha. destruct (Z.ltb_spec (maxBodyBytes (m_limits s)) (n + zlen a)); [lia|]. destruct Ha as [Hba _].
    assert (begun (n + zlen a + zlen b) (more a s)) as Hb'.
    { destruct Hba as (HL' & Hn' & Hk' & H0' & Hp' & Hh'). change (m_limits (more a s)) with (m_limits s) in *. unfold begun. change (m_limits (more a s)) with (m_limits s). split_and!; try done; lia. }
    assert (exists r, runs (more (a ++ b) s) r) as [r Hr].
    { destruct (feed contiguousSize (a ++ b) s) as [[[]|e|] s3]; [by eexists|by eexists|done]. }
    pose proof Hr as Hr'. rewrite <-more_app in Hr'. pose proof (runs_more b _ _ _ Hba Hb' Hr1 _ Hr') as Hr3.
    rewrite (runs_fun _ _ _ Hr3 Hr2) in Hr. destruct (feed contiguousSize (a ++ b) s) as [[[]|e|] s3]; [|by pose proof (runs_fun _ _ _ Hf Hr)|done].
    pose proof (runs_fun _ _ _ Hf Hr) as [= ->]. done.
Qed.

Lemma begin_accepted boundary limits dir s s1 : limits_ok limits -> begin boundary limits dir s = (Ok tt, s1) -> accepted 0 s1.
Proof.
  intros HL. unfold begin. m_run. destruct (_ || _); [done|]. cbv beta iota zeta.
  destruct (if enableMultipartFileStreaming limits then _ else _) as [[] f]; [|done]. cbv beta iota. intros [= <-].
  split; [|done]. split; [done|]. destruct HL as (_ & _ & _ & HB & _). split; [simpl; lia|]. split; [simpl; lia|].
  split; [simpl; lia|]. split; [simpl; lia|done].
Qed.

#[export] Instance streamParser_laws : MultipartLaws (streamParser contiguousSize).
Proof.
  refine (Build_MultipartLaws (streamParser contiguousSize) accepted _ _ _).
  - intros boundary limits dir s s1 HL H. simpl in H. destruct (begin boundary limits dir s) as [[[]|e|] s2] eqn:E; [|done..].
    injection H as <-. by eapply begin_accepted.
  - intros n d s s1 Hs H. simpl in H. destruct (feed contiguousSize d s) as [[[]|e|] s2] eqn:E; [|done..]. injection H as <-.
    by apply (feed_accepted n d s).
  - intros n a b s s2 Hs _ _. pose proof (feed_split n a b s s2 Hs) as Hsplit. simpl. split.
    + destruct (feed contiguousSize (a ++ b) s) as [[[]|e|] s3] eqn:E; [|done..]. intros [= <-].
      destruct (proj1 Hsplit eq_refl) as (s1 & E1 & E2). exists s1. by rewrite E1, E2.
    + intros (s1 & H1 & H2). destruct (feed contiguousSize a s) as [[[]|e|] s3] eqn:E1; [|done..]. injection H1 as <-.
      destruct (feed contiguousSize b s3) as [[[]|e|] s4] eqn:E2; [|done..]. injection H2 as <-. by rewrite (proj2 Hsplit) by eauto.
Qed.

End Laws.

End StreamParserLaws.
