(* ===== verification/HttpMultipartSpec.v ===== *)
(** The multipart parser of HttpMultipart.v: feeding in pieces is feeding at once,
    and the parts of a well-formed form come out as they were written. *)
From Stdlib Require Import ZArith Lia Strings.Byte.
From stdpp Require Import base list strings numbers gmap.
From S2P Require Import Prelude SwString HttpTypes HttpParser HttpMultipart HttpMultipartLaws.

Import SwString SwHttpTypes.

Module StreamParserSpec.

Import SwHttpMultipartStreamParser StreamParserLaws.

Section Spec.

Context `{FL : FilesLaws}.
Context (contiguousSize : list byte -> Z).

Implicit Types (s : t).

(** A call of [feed] per piece, up to the first that is refused. *)
Fixpoint feedAll (ps : list (list byte)) : M t unit :=
  match ps with
  | [] => mret tt
  | p :: ps => feed contiguousSize p;; feedAll ps
  end.

(** ** A form *)

(** A part as it is written: its header lines and its data. *)
Record Field := mkField { field_headers : list byte; field_data : list byte }.

Definition endOfHeaders : list byte := [x0d; x0a; x0d; x0a].

Definition marker (boundary : list byte) : list byte := [x0d; x0a] ++ str "--" ++ boundary.

(** What follows a delimiter. *)
Fixpoint after (boundary : list byte) (fields : list Field) : list byte :=
  match fields with
  | [] => str "--" ++ [x0d; x0a]
  | f :: fields => [x0d; x0a] ++ (field_headers f ++ endOfHeaders) ++ (field_data f ++ marker boundary) ++ after boundary fields
  end.

Definition form (boundary : list byte) (fields : list Field) : list byte := (str "--" ++ boundary) ++ after boundary fields.

(** The part [f] stands for, kept in memory: its header lines are those of a form
    part, and its data does not hold the delimiter. *)
Definition in_memory (boundary : list byte) (limits : SwHttpLimits) (f : Field) (part : MultipartPart) : Prop :=
  find endOfHeaders (field_headers f ++ endOfHeaders) = Some (zlen (field_headers f)) /\
  find (marker boundary) (field_data f ++ marker boundary) = Some (zlen (field_data f)) /\
  exists partHeaders disposition params,
    swHttpParseMultipartHeaders_ (field_headers f) limits = Ok partHeaders /\
    partHeaders !! str "content-disposition" = Some disposition /\
    swHttpParseHeaderParams_ disposition = (str "form-data", params) /\
    part = set_part_data (field_data f) (set_part_sizeBytes (zlen (field_data f)) (partOf partHeaders params)) /\
    (if part_isFile part then enableMultipartFileStreaming limits = false
     else zlen (field_data f) <= maxMultipartFieldBytes limits).

(** The named fields of a form, the last of a name. *)
Definition record_field (fields : StringMap) (part : MultipartPart) : StringMap :=
  if negb (part_isFile part) && negb (isEmpty (part_name part)) then <[part_name part := part_data part]> fields else fields.

Context (contiguousSize_range : forall l, l <> [] -> 0 < contiguousSize l <= zlen l).
Context (boundary : list byte) (limits : SwHttpLimits) (HL : limits_ok limits).

(** ** At rest *)

Definition resting (n : Z) s : Prop := accepted n s /\ runs contiguousSize s (Some s).

Lemma feed_resting n d s s1 : accepted n s -> feed contiguousSize d s = (Ok tt, s1) -> resting (n + zlen d) s1.
Proof.
  intros Hs H. destruct (feed_accepted contiguousSize contiguousSize_range n d s s1 Hs H) as (Hr & Ha & _). split; [done|].
  remember (Some s1) as r eqn:Er. revert Er. clear H. induction Hr as [s2 H|s2 s3 r H Hr IH|s2 e s3 H]; intros Er; [|by apply IH|done].
  injection Er as ->. by apply runs_rest.
Qed.

Lemma feed_nothing n s : resting n s -> feed contiguousSize [] s = (Ok tt, s).
Proof.
  intros [Hs Hr]. pose proof (feed_runs contiguousSize contiguousSize_range n [] s Hs) as Hf. destruct Hs as [Hb _]. pose proof Hb as (_ & Hn & _).
  rewrite more_nothing in Hf. destruct (Z.ltb_spec (maxBodyBytes (m_limits s)) (n + zlen (@nil byte))); [simpl in *; lia|].
  destruct Hf as [_ Hf]. destruct (feed contiguousSize [] s) as [[[]|e|] s1]; [|by pose proof (runs_fun _ _ _ _ Hf Hr)|done].
  by pose proof (runs_fun _ _ _ _ Hf Hr) as [= ->].
Qed.

Lemma feedAll_concat n ps s s1 : resting n s ->
  feedAll ps s = (Ok tt, s1) <-> feed contiguousSize (concat ps) s = (Ok tt, s1).
Proof.
  revert n s. induction ps as [|p ps IH]; intros n s Hs; cbn [feedAll concat].
  - by rewrite (feed_nothing n s Hs).
  - rewrite (feed_split contiguousSize contiguousSize_range n p (concat ps) s s1 (proj1 Hs)). unfold mbind, M_bind. split.
    + destruct (feed contiguousSize p s) as [[[]|e|] s2] eqn:E; [|done..]. intros H. exists s2. split; [done|].
      by apply (IH _ s2 (feed_resting _ _ _ _ (proj1 Hs) E)).
    + intros (s2 & E & H). rewrite E. by apply (IH _ s2 (feed_resting _ _ _ _ (proj1 Hs) E)).
Qed.

Lemma feedAll_returns n ps s : accepted n s -> (feedAll ps s).1 <> NoFuel.
Proof.
  revert n s. induction ps as [|p ps IH]; intros n s Hs; cbn [feedAll]; [done|]. unfold mbind, M_bind.
  pose proof (feed_runs contiguousSize contiguousSize_range n p s Hs) as Hf. destruct (feed contiguousSize p s) as [[[]|e|] s1] eqn:E; [|done|].
  - apply (IH (n + zlen p)). apply (feed_accepted contiguousSize contiguousSize_range n p s s1 Hs E).
  - destruct (_ <? _); [by destruct Hf as (? & ? & ?)|by destruct Hf].
Qed.

(** A parser that has begun: nothing buffered, no part yet. *)
Definition started s : Prop :=
  m_limits s = limits /\ m_delimiter s = str "--" ++ boundary /\ m_boundaryMarker s = marker boundary /\
  m_state s = NeedInitialBoundary /\ m_buffer s = [] /\ m_parts s = [] /\ m_formFields s = ∅ /\
  m_hasCurrentPart s = false /\ m_currentFile s = None.

Lemma cleanup_closes s : m_currentFile (cleanupTemporaryFiles s) = None.
Proof.
  unfold cleanupTemporaryFiles. cbv zeta. assert (forall p s, m_currentFile (removeFile_ p s) = m_currentFile s) as Hr.
  { intros p s1. unfold removeFile_. by destruct (isEmpty p). }
  assert (forall l s1, m_currentFile s1 = None -> m_currentFile (fold_left (fun s part => if part_storedOnDisk part
    then removeFile_ (part_tempFilePath part) s else s) l s1) = None) as Hf.
  { induction l as [|p l IH]; intros s1 H; [done|]. simpl. apply IH. destruct (part_storedOnDisk p); [by rewrite Hr|done]. }
  apply Hf. rewrite Hr. unfold closeCurrentFile_. by destruct (m_currentFile s) eqn:E.
Qed.

Lemma begin_started dir s s1 : begin boundary limits dir s = (Ok tt, s1) -> started s1 /\ resting 0 s1.
Proof.
  intros H. pose proof (begin_accepted boundary limits dir s s1 HL H) as Ha. assert (started s1) as Hs.
  { revert H. unfold begin. m_run. destruct (_ || _); [done|]. cbv beta iota zeta.
    destruct (if enableMultipartFileStreaming limits then _ else _) as [[] f]; [|done]. cbv beta iota. intros [= <-].
    unfold started. cbn. split_and!; try done. apply cleanup_closes. }
  split; [done|]. split; [done|]. apply runs_rest. destruct Hs as (El & Ed & Em & Es & Eb & _). rewrite step_eq, Es.
  unfold consumeInitialBoundary_, boundaryAt, agreesFrom. m_run. rewrite Eb. simpl. rewrite Eb, Ed. simpl.
  destruct (Z.ltb_spec 0 (zlen (str "--" ++ boundary) + 2)); [done|]. lia.
Qed.

(** ** Step by step through a form *)

(** Between two parts: [parts] have come out and [data] is still to be read. *)
Definition between (parts : list MultipartPart) (fields : StringMap) (data : list byte) s : Prop :=
  m_limits s = limits /\ m_delimiter s = str "--" ++ boundary /\ m_boundaryMarker s = marker boundary /\ m_buffer s = data /\
  m_parts s = parts /\ m_formFields s = fields /\ m_hasCurrentPart s = false /\ m_currentFile s = None.

(** In a part, [data] still to be read. *)
Definition within (part : MultipartPart) (parts : list MultipartPart) (fields : StringMap) (data : list byte) s : Prop :=
  m_limits s = limits /\ m_delimiter s = str "--" ++ boundary /\ m_boundaryMarker s = marker boundary /\ m_buffer s = data /\
  m_parts s = parts /\ m_formFields s = fields /\ m_hasCurrentPart s = true /\ m_currentFile s = None /\
  m_state s = NeedPartData /\ m_currentPart s = part /\ m_currentPartBytes s = part_sizeBytes part.

Lemma zlen_marker : zlen (marker boundary) = 4 + zlen boundary.
Proof. unfold marker. rewrite !zlen_app. simpl. lia. Qed.

(** Right after a delimiter. *)
Definition resumes (fields : list Field) : State := match fields with [] => Done | _ => NeedPartHeaders end.

Definition tail_of (fields : list Field) : list byte :=
  match fields with
  | [] => []
  | f :: fields => (field_headers f ++ endOfHeaders) ++ (field_data f ++ marker boundary) ++ after boundary fields
  end.

Lemma isAt_app j c (l k : list byte) i s : m_buffer s = l ++ k -> i = zlen l + Z.of_nat j -> isAt c i s = bool_decide (nth j k x00 = c).
Proof.
  intros E ->. unfold isAt, at_. rewrite E. replace (Z.to_nat (zlen l + Z.of_nat j)) with (length l + j)%nat by lia. by rewrite app_nth2_plus.
Qed.

(** The first delimiter. *)
Lemma first_delimiter fields n s : begun n s -> between [] ∅ (form boundary fields) s -> m_state s = NeedInitialBoundary ->
  exists s1, step contiguousSize s = (Ok true, s1) /\ m_state s1 = resumes fields /\ between [] ∅ (tail_of fields) s1.
Proof.
  intros Hb (El & Ed & Em & Eb & Ep & Ef & Eh & Ec) Es. rewrite step_eq, Es. pose proof Hb as (_ & Hn & _ & H0 & Hsz & _).
  assert (maxBodyBytes (m_limits s) < 2 ^ 31) as HB by (rewrite El; apply HL).
  unfold consumeInitialBoundary_. m_run. assert (isAt x0d 0 s = false) as -> by (unfold isAt, at_; rewrite Eb; done).
  rewrite andb_false_r. unfold boundaryAt. m_run. unfold form in Eb. remember (str "--" ++ boundary) as D eqn:ED. rename Eb into Hbuf.
  assert (4 <= zlen (after boundary fields)) as Hlong.
  { destruct fields as [|f fields]; [simpl; lia|]. cbn [after]. rewrite !zlen_app. unfold endOfHeaders. simpl. lia. }
  assert (agreesFrom 0 s = true) as ->.
  { unfold agreesFrom. rewrite Hbuf, Ed, zlen_app. apply bool_decide_eq_true.
    destruct (Z.ltb_spec 0 (zlen D + zlen (after boundary fields))); [|lia].
    rewrite Hbuf, zlen_app in Hsz. rewrite sub64_small by lia. rewrite Z.min_l by lia. unfold zslice. rewrite drop_0, Nat2Z.id.
    by rewrite take_app_length, firstn_all. }
  cbn [negb]. rewrite Ed, Hbuf, zlen_app, Z.add_0_l. cbv zeta. destruct (Z.ltb_spec (zlen D + zlen (after boundary fields)) (zlen D + 2)); [lia|].
  rewrite !(isAt_app 0 _ D _ (zlen D) s Hbuf), !(isAt_app 1 _ D _ (zlen D + 1) s Hbuf) by lia.
  destruct fields as [|f fields].
  - change (zlen (after boundary [])) with 4. change (nth 0 (after boundary []) x00) with x2d. change (nth 1 (after boundary []) x00) with x2d.
    rewrite !(isAt_app 2 _ D _ (zlen D + 2) s Hbuf), !(isAt_app 3 _ D _ (zlen D + 2 + 1) s Hbuf) by lia.
    change (nth 2 (after boundary []) x00) with x0d. change (nth 3 (after boundary []) x00) with x0a. rewrite !(bool_decide_true (_ = _)) by done.
    destruct (Z.eqb_spec (zlen D + 4) (zlen D + 2)); [lia|]. destruct (Z.eqb_spec (zlen D + 4) (zlen D + 2 + 1)); [lia|].
    destruct (Z.leb_spec (zlen D + 2 + 2) (zlen D + 4)); [|lia]. cbn.
    eexists. split; [done|]. split; [done|]. unfold between, consume. cbn. rewrite Hbuf.
    replace (Z.to_nat (zlen D + 2 + 2)) with (length (D ++ after boundary [])) by (rewrite length_app; simpl; lia).
    rewrite drop_all, Ed, ED. done.
  - change (nth 0 (after boundary (f :: fields)) x00) with x0d. change (nth 1 (after boundary (f :: fields)) x00) with x0a. cbn -[after].
    eexists. split; [done|]. split; [done|]. unfold between, consume. cbn -[after]. rewrite Hbuf. cbn [after].
    replace (Z.to_nat (zlen D + 2)) with (length (D ++ [x0d; x0a])) by (rewrite length_app; simpl; lia).
    rewrite app_assoc, drop_app_length, Ed, ED. done.
Qed.

(** The headers of a part. *)
Lemma part_headers_read f part parts fields rest n s : begun n s ->
  between parts fields ((field_headers f ++ endOfHeaders) ++ rest) s -> m_state s = NeedPartHeaders -> in_memory boundary limits f part ->
  exists s1, step contiguousSize s = (Ok true, s1) /\
    within (set_part_data [] (set_part_sizeBytes 0 part)) parts fields rest s1.
Proof.
  intros Hb (El & Ed & Em & Eb & Ep & Ef & Eh & Ec) Es (Hh & _ & ph & disp & params & Hparse & Hdisp & Hform & -> & Hmem).
  rewrite step_eq, Es, headers_eq. cbv zeta.
  destruct (bufferIndexOf_spec endOfHeaders n s Hb) as [[Hn _]|(i & Hi & E & _)]; rewrite Eb in *.
  { by rewrite (find_app _ _ rest _ Hh) in Hn. }
  unfold endOfHeaders in E. rewrite E. rewrite (find_app _ _ rest _ Hh) in Hi. injection Hi as <-. destruct (Z.ltb_spec (zlen (field_headers f)) 0); [lia|].
  rewrite Nat2Z.id, <-app_assoc, take_app_length, El, Hparse. m_run. unfold startPart. rewrite Hdisp, Hform.
  assert (eqb (str "form-data") (str "form-data") = true) as -> by by apply eqb_eq. m_run. cbn [negb].
  cbn [m_currentPart m_limits set_m_hasCurrentPart set_m_currentPartBytes set_m_currentPart consume set_m_buffer]. rewrite El.
  change (part_isFile (set_part_data _ (set_part_sizeBytes _ (partOf ph params)))) with (part_isFile (partOf ph params)) in Hmem.
  assert (part_isFile (partOf ph params) && enableMultipartFileStreaming limits = false) as ->.
  { destruct (part_isFile (partOf ph params)); [by rewrite Hmem|done]. }
  eexists. split; [done|]. unfold within, consume. cbn -[endOfHeaders]. rewrite Eb.
  replace (Z.to_nat (zlen (field_headers f) + 4)) with (length (field_headers f ++ endOfHeaders)) by (rewrite length_app; simpl; lia).
  by rewrite drop_app_length.
Qed.

(** Its data. *)
Lemma part_data_read data part parts fields rest n s : begun n s -> 0 < zlen data ->
  within (set_part_data [] (set_part_sizeBytes 0 part)) parts fields ((data ++ marker boundary) ++ rest) s ->
  find (marker boundary) (data ++ marker boundary) = Some (zlen data) ->
  (if part_isFile part then enableMultipartFileStreaming limits = false else zlen data <= maxMultipartFieldBytes limits) ->
  exists s1, step contiguousSize s = (Ok true, s1) /\
    within (set_part_data data (set_part_sizeBytes (zlen data) part)) parts fields (marker boundary ++ rest) s1.
Proof.
  intros Hb Hd (El & Ed & Em & Eb & Ep & Ef & Eh & Ec & Es & Ecp & Ecb) Hfind Hmem.
  pose proof Hb as (_ & Hn & _ & H0 & Hsz & _). assert (maxBodyBytes (m_limits s) < 2 ^ 31) as HB by (rewrite El; apply HL).
  assert (find (m_boundaryMarker s) (m_buffer s) = Some (zlen data)) as Hf by (rewrite Em, Eb; by apply find_app).
  assert (next_data s = zlen data) as Hnd by (unfold next_data; by rewrite Hf).
  pose proof (runs_next contiguousSize contiguousSize_range n s Hb Es ltac:(lia)) as Hstep. rewrite Hnd, Nat2Z.id, Eb, <-app_assoc, take_app_length in Hstep.
  simpl in Ecb. rewrite takes_eq in Hstep; [|done|done|done|rewrite Eb, !zlen_app in Hsz; unfold u64_max; lia]. cbv zeta in Hstep.
  rewrite Ecp, El in Hstep. cbn [part_isFile part_data set_part_data set_part_sizeBytes] in Hstep.
  assert (part_isFile part && enableMultipartFileStreaming limits = false) as E1 by (destruct (part_isFile part); [by rewrite Hmem|done]).
  assert (negb (part_isFile part) && ((maxMultipartFieldBytes limits <? zlen (@nil byte)) || (maxMultipartFieldBytes limits -u zlen (@nil byte) <? zlen data)) = false) as E2.
  { destruct (part_isFile part); [done|]. assert (0 <= maxMultipartFieldBytes limits <= u64_max) by apply HL. cbn [negb andb]. change (zlen (@nil byte)) with 0.
    rewrite sub64_small by (unfold u64_max in *; lia). destruct (Z.ltb_spec (maxMultipartFieldBytes limits) 0), (Z.ltb_spec (maxMultipartFieldBytes limits - 0) (zlen data)); lia || done. }
  rewrite E1, E2, Ecb in Hstep. destruct Hstep as [Hstep _]. eexists. split; [exact Hstep|].
  unfold within, consume, with_data, sized. cbn. rewrite Eb, Ecp, Nat2Z.id, <-app_assoc, drop_app_length. split_and!; try done.
Qed.

(** The delimiter behind it. *)
Lemma part_ends part parts fields more n s : begun n s ->
  within part parts fields (marker boundary ++ after boundary more) s -> zlen parts < maxMultipartParts limits ->
  exists s1, step contiguousSize s = (Ok true, s1) /\ m_state s1 = resumes more /\
    between (parts ++ [part]) (record_field fields part) (tail_of more) s1.
Proof.
  intros Hb (El & Ed & Em & Eb & Ep & Ef & Eh & Ec & Es & Ecp & Ecb) Hmax.
  assert (find (m_boundaryMarker s) (m_buffer s) = Some 0) as Hf.
  { rewrite Em, Eb. apply (find_first _ []); [intros k Hk; simpl in Hk; lia|]. apply hasPrefix_spec. by exists (after boundary more). }
  rewrite (step_data contiguousSize n s Hb Es), (dataStep_marker contiguousSize n s Hb Hf).
  assert (exists closing k, afterMarker false s = Delimiter closing k /\ (if closing then Done else NeedPartHeaders) = resumes more /\
    drop (Z.to_nat k) (m_buffer s) = tail_of more) as (closing & k & -> & Hcl & Hk).
  { unfold afterMarker. cbv zeta. rewrite Em. remember (marker boundary) as D eqn:ED. rewrite Eb, zlen_app.
    assert (4 <= zlen (after boundary more)) as Hlong.
    { destruct more as [|f fs]; [done|]. cbn [after]. rewrite !zlen_app. unfold endOfHeaders. simpl. lia. }
    destruct (Z.ltb_spec (zlen D + zlen (after boundary more)) (zlen D + 2)); [lia|].
    rewrite !(isAt_app 0 _ D _ (zlen D) s Eb), !(isAt_app 1 _ D _ (zlen D + 1) s Eb) by lia. destruct more as [|f fs].
    - change (nth 0 (after boundary []) x00) with x2d. change (nth 1 (after boundary []) x00) with x2d. change (zlen (after boundary [])) with 4.
      rewrite !(isAt_app 2 _ D _ (zlen D + 2) s Eb), !(isAt_app 3 _ D _ (zlen D + 2 + 1) s Eb) by lia.
      change (nth 2 (after boundary []) x00) with x0d. change (nth 3 (after boundary []) x00) with x0a.
      rewrite (bool_decide_false (x2d = x0d)), (bool_decide_false (x2d = x0a)) by done. rewrite !(bool_decide_true (_ = _)) by done. cbn [andb].
      destruct (Z.eqb_spec (zlen D + 4) (zlen D + 2)); [lia|]. destruct (Z.eqb_spec (zlen D + 4) (zlen D + 2 + 1)); [lia|].
      eexists _, _. split; [done|]. split; [done|].
      replace (Z.to_nat (zlen D + 2 + 2)) with (length (D ++ after boundary [])) by (rewrite length_app; simpl; lia). by rewrite drop_all.
    - change (nth 0 (after boundary (f :: fs)) x00) with x0d. change (nth 1 (after boundary (f :: fs)) x00) with x0a.
      rewrite !(bool_decide_true (_ = _)) by done. eexists _, _. split; [done|]. split; [done|]. cbn [after].
      replace (Z.to_nat (zlen D + 2)) with (length (D ++ [x0d; x0a])) by (rewrite length_app; simpl; lia). by rewrite app_assoc, drop_app_length. }
  unfold finalizeCurrentPart_, closeCurrentFile_. m_run. change (m_hasCurrentPart (consume k s)) with (m_hasCurrentPart s).
  rewrite Eh. cbn [negb]. cbv beta iota. change (m_currentFile (consume k s)) with (m_currentFile s). rewrite Ec.
  change (m_currentPart (consume k s)) with (m_currentPart s). rewrite Ecp.
  unfold record_field. destruct (negb (part_isFile part) && negb (isEmpty (part_name part)));
    cbv beta iota; cbn [m_limits m_parts set_m_formFields m_currentPart m_formFields consume set_m_buffer]; rewrite El, Ep;
    (destruct (Z.leb_spec (maxMultipartParts limits) (zlen parts)); [lia|]); (eexists; split; [done|]; split; [done|]);
    unfold between; cbn; rewrite Hk, ?Ef, Ecp, Ep; done.
Qed.

(** One part, from its headers to the delimiter behind it. *)
Lemma part_runs f part parts fields more n s : begun n s ->
  between parts fields (tail_of (f :: more)) s -> m_state s = NeedPartHeaders -> in_memory boundary limits f part ->
  zlen parts < maxMultipartParts limits ->
  exists s1, (forall r, runs contiguousSize s1 r -> runs contiguousSize s r) /\ begun n s1 /\ m_state s1 = resumes more /\
    between (parts ++ [part]) (record_field fields part) (tail_of more) s1.
Proof.
  intros Hb Hs Es Hin Hmax. assert (forall s s1, begun n s -> step contiguousSize s = (Ok true, s1) -> begun n s1) as Hnext.
  { intros s1 s2 H1 H2. pose proof (step_ok contiguousSize contiguousSize_range n s1 H1) as H. rewrite H2 in H. apply H. }
  destruct (part_headers_read f part parts fields _ n s Hb Hs Es Hin) as (s1 & H1 & Hs1). pose proof (Hnext _ _ Hb H1) as Hb1.
  destruct Hin as (_ & Hfind & ph & _ & params & _ & _ & _ & Epart & Hmem).
  assert (exists s2, (forall r, runs contiguousSize s2 r -> runs contiguousSize s1 r) /\ begun n s2 /\
    within part parts fields (marker boundary ++ after boundary more) s2) as (s2 & H2 & Hb2 & Hs2).
  { destruct (decide (field_data f = [])) as [E|E].
    - exists s1. split; [done|]. split; [done|]. rewrite E in Hs1, Epart. by rewrite Epart in Hs1 |- *.
    - assert (0 < zlen (field_data f)) as Hd by (destruct (field_data f); [done|simpl; lia]).
      destruct (part_data_read _ _ _ _ _ n s1 Hb1 Hd Hs1 Hfind Hmem) as (s2 & H2 & Hs2). exists s2. split; [intros r Hr; by eapply runs_on|].
      split; [by eapply Hnext|]. by rewrite Epart in Hs2 |- *. }
  destruct (part_ends _ _ _ _ n s2 Hb2 Hs2 Hmax) as (s3 & H3 & E3 & Hs3). exists s3. split; [|split; [by eapply Hnext|done]].
  intros r Hr. eapply runs_on; [exact H1|]. apply H2. by eapply runs_on.
Qed.

Lemma form_runs fs ps parts fields n s : begun n s -> Forall2 (in_memory boundary limits) fs ps ->
  between parts fields (tail_of fs) s -> m_state s = resumes fs -> zlen parts + zlen fs <= maxMultipartParts limits ->
  exists s1, runs contiguousSize s (Some s1) /\ m_state s1 = Done /\
    between (parts ++ ps) (fold_left record_field ps fields) [] s1.
Proof.
  intros Hb Hf. revert parts fields s Hb. induction Hf as [|f part fs ps Hin Hf IH]; intros parts fields s Hb Hs Es Hmax.
  - exists s. split; [apply runs_rest; by rewrite step_eq, Es|]. split; [done|]. by rewrite app_nil_r.
  - destruct (part_runs f part parts fields fs n s Hb Hs Es Hin) as (s1 & H1 & Hb1 & E1 & Hs1); [simpl in Hmax; lia|].
    destruct (IH _ _ s1 Hb1 Hs1 E1) as (s2 & H2 & E2 & Hs2); [rewrite zlen_app; simpl in *; lia|].
    exists s2. split; [by apply H1|]. split; [done|]. by rewrite <-app_assoc in Hs2.
Qed.

(** ** What the parser promises *)

(** C5: the parser may be fed its input in any pieces.  After a successful [begin] a
    call per piece always returns, and the calls are all accepted, and lead where
    they do, exactly when one call with all the bytes is accepted and leads there. *)
Theorem pieces_as_one dir s0 s ps : begin boundary limits dir s0 = (Ok tt, s) ->
  (feedAll ps s).1 <> NoFuel /\
  forall s1, feedAll ps s = (Ok tt, s1) <-> feed contiguousSize (concat ps) s = (Ok tt, s1).
Proof.
  intros H. destruct (begin_started dir s0 s H) as (_ & Hr). split.
  - by apply (feedAll_returns 0), Hr.
  - intros s1. by apply (feedAll_concat 0).
Qed.

(** C4: what a form holds comes out of it.  A form written part by part, each part in
    memory, within the limits and with data that does not hold the delimiter, is
    accepted however it is cut into pieces, and [finish] puts out exactly its parts,
    in order, with their data, and its named fields. *)
Theorem form_parts dir s0 s fs parts pieces : begin boundary limits dir s0 = (Ok tt, s) ->
  Forall2 (in_memory boundary limits) fs parts -> zlen fs <= maxMultipartParts limits ->
  concat pieces = form boundary fs -> zlen (form boundary fs) <= maxBodyBytes limits ->
  exists s1 s2, feedAll pieces s = (Ok tt, s1) /\
    finish contiguousSize s1 = (Ok (parts, fold_left record_field parts ∅), s2).
Proof.
  intros H Hf Hmax Hcat Hsize. destruct (begin_started dir s0 s H) as ((El & Ed & Em & Es & Eb & Ep & Ef & Eh & Ec) & Hr).
  pose proof (feed_runs contiguousSize contiguousSize_range 0 (form boundary fs) s (proj1 Hr)) as Hfeed. rewrite El in Hfeed.
  destruct (Z.ltb_spec (maxBodyBytes limits) (0 + zlen (form boundary fs))); [lia|]. destruct Hfeed as [Hb Hfeed].
  destruct (first_delimiter fs _ _ Hb) as (s1 & H1 & E1 & Hs1); [unfold between, StreamParserLaws.more; cbn; by rewrite Eb|done|].
  assert (begun (0 + zlen (form boundary fs)) s1) as Hb1.
  { pose proof (step_ok contiguousSize contiguousSize_range _ _ Hb) as Hok. rewrite H1 in Hok. apply Hok. }
  destruct (form_runs fs parts [] ∅ _ s1 Hb1 Hf Hs1 E1) as (s2 & H2 & E2 & Hs2); [simpl; lia|].
  assert (runs contiguousSize (StreamParserLaws.more (form boundary fs) s) (Some s2)) as Hruns by by eapply runs_on.
  exists s2. destruct Hs2 as (El2 & _ & _ & Eb2 & Ep2 & Ef2 & Eh2 & _).
  assert (feed contiguousSize (concat pieces) s = (Ok tt, s2)) as Hwhole.
  { rewrite Hcat. destruct (feed contiguousSize (form boundary fs) s) as [[[]|e|] s3]; [|by pose proof (runs_fun _ _ _ _ Hfeed Hruns)|done].
    by pose proof (runs_fun _ _ _ _ Hfeed Hruns) as [= ->]. }
  eexists. split; [by apply (feedAll_concat 0)|]. assert (processStep contiguousSize true s2 = (Ok false, s2)) as Hstep by (unfold processStep; m_run; by rewrite E2).
  unfold finish, process_. m_run. rewrite Eb2. cbn [length process_loop]. m_run. rewrite Hstep. cbv beta iota. rewrite E2, Eh2, Ep2, Ef2. done.
Qed.

End Spec.
(** ** On a concrete input *)

(** Limits under which files stay in memory. *)
Definition memory_limits : SwHttpLimits :=
  mkLimits (8 * 1024) (32 * 1024) 100 (8 * 1024 * 1024) (2 * 1024 * 1024) 16 (16 * 1024 * 1024)
    (256 * 1024 * 1024) 4096 1024 1024 256 (16 * 1024) (2 * 1024 * 1024) false [].

Lemma memory_limits_ok : limits_ok memory_limits.
Proof. unfold limits_ok. vm_compute. repeat split; discriminate. Qed.

(** A ring buffer that shows at most three bytes in a row. *)
Definition threeBytes (l : list byte) : Z := Z.min (zlen l) 3.

Lemma threeBytes_range l : l <> [] -> 0 < threeBytes l <= zlen l.
Proof. intros Hl. unfold threeBytes. destruct l; [done|]. simpl length. lia. Qed.

Definition begun_parser : t (F := memoryFiles) := (begin (F := memoryFiles) (str "B") memory_limits [] make).2.

Lemma begun_parser_ok : begin (F := memoryFiles) (str "B") memory_limits [] make = (Ok tt, begun_parser).
Proof. apply injective_projections; [vm_compute; reflexivity|reflexivity]. Qed.

(** A field, and a file whose data has a line break in it. *)
Definition example_fields : list Field :=
  [mkField (str "Content-Disposition: form-data; name=n") (str "v");
   mkField (str "Content-Disposition: form-data; name=f; filename=a.txt" ++ [x0d; x0a] ++ str "Content-Type: text/plain") (str "one" ++ [x0d; x0a] ++ str "-- two")].

(** The part of its header lines. *)
Definition part_of (f : Field) : MultipartPart :=
  match swHttpParseMultipartHeaders_ (field_headers f) memory_limits with
  | Ok partHeaders =>
      set_part_data (field_data f) (set_part_sizeBytes (zlen (field_data f))
        (partOf partHeaders (swHttpParseHeaderParams_ (default [] (partHeaders !! str "content-disposition"))).2))
  | _ => emptyPart
  end.

(** Whether a field is one of [in_memory], decided. *)
Definition checked (f : Field) : bool :=
  bool_decide (find endOfHeaders (field_headers f ++ endOfHeaders) = Some (zlen (field_headers f))) &&
  bool_decide (find (marker (str "B")) (field_data f ++ marker (str "B")) = Some (zlen (field_data f))) &&
  (zlen (field_data f) <=? maxMultipartFieldBytes memory_limits) &&
  match swHttpParseMultipartHeaders_ (field_headers f) memory_limits with
  | Ok partHeaders =>
      match partHeaders !! str "content-disposition" with
      | Some disposition => bool_decide ((swHttpParseHeaderParams_ disposition).1 = str "form-data")
      | None => false
      end
  | _ => false
  end.

Lemma checked_in_memory f : checked f = true -> in_memory (str "B") memory_limits f (part_of f).
Proof.
  unfold checked. rewrite !andb_true_iff. intros [[[H1%bool_decide_eq_true H2%bool_decide_eq_true] H3%Z.leb_le] H4].
  split; [done|]. split; [done|]. unfold part_of. destruct (swHttpParseMultipartHeaders_ _ _) as [ph|e|]; [|done..].
  destruct (ph !! _) as [d|] eqn:Ed; [|done]. apply bool_decide_eq_true in H4. exists ph, d, (swHttpParseHeaderParams_ d).2.
  split; [done|]. split; [done|]. split; [by rewrite <-H4; destruct (swHttpParseHeaderParams_ d)|]. simpl default.
  split; [done|]. by destruct (part_isFile _).
Qed.

Lemma pieces_as_one_witness :
  (feedAll threeBytes [str "--B"; [x0d; x0a]; str "Content"] begun_parser).1 <> NoFuel /\
  forall s1, feedAll threeBytes [str "--B"; [x0d; x0a]; str "Content"] begun_parser = (Ok tt, s1) <->
    feed threeBytes (concat [str "--B"; [x0d; x0a]; str "Content"]) begun_parser = (Ok tt, s1).
Proof.
  apply (pieces_as_one threeBytes threeBytes_range (str "B") memory_limits memory_limits_ok [] make begun_parser _ begun_parser_ok).
Defined.

Lemma form_parts_witness :
  exists s1 s2, feedAll threeBytes [take 50 (form (str "B") example_fields); drop 50 (form (str "B") example_fields)] begun_parser = (Ok tt, s1) /\
    finish threeBytes s1 = (Ok (map part_of example_fields, <[str "n" := str "v"]> ∅), s2) /\
    map part_data (map part_of example_fields) = [str "v"; str "one" ++ [x0d; x0a] ++ str "-- two"].
Proof.
  destruct (form_parts threeBytes threeBytes_range (str "B") memory_limits memory_limits_ok [] make begun_parser example_fields (map part_of example_fields)
    [take 50 (form (str "B") example_fields); drop 50 (form (str "B") example_fields)]) as (s1 & s2 & H1 & H2).
  - exact begun_parser_ok.
  - apply Forall2_fmap_r, Forall_Forall2_diag, Forall_forall. intros f Hf. apply checked_in_memory.
    apply (proj1 (forallb_forall checked example_fields)); [vm_compute; reflexivity|by apply list_elem_of_In].
  - vm_compute. discriminate.
  - cbn [concat]. rewrite app_nil_r. apply take_drop.
  - vm_compute. discriminate.
  - exists s1, s2. split; [exact H1|]. split; [|vm_compute; reflexivity].
    assert (fold_left record_field (map part_of example_fields) ∅ = <[str "n" := str "v"]> (∅ : StringMap)) as <- by (vm_compute; reflexivity).
    exact H2.
Defined.

(** A control character is refused in a part header, but not behind a NUL: the
    lines are cut at the first NUL before they are looked at. *)
Example header_behind_nul :
  let name := str "Content-Disposition: form-data" in
  swHttpParseMultipartHeaders_ (name ++ [x01]) memory_limits = Err "Malformed multipart part header" /\
  match swHttpParseMultipartHeaders_ (name ++ [x00; x01]) memory_limits with
  | Ok partHeaders => partHeaders !! str "content-disposition" = Some (str "form-data")
  | _ => False
  end.
Proof. vm_compute. split; reflexivity. Qed.

End StreamParserSpec.
