(* ===== verification/HttpParserSpec.v ===== *)
(** The HTTP parser of HttpParser.v: cutting the input anywhere does not change
    what is parsed, and no input makes it hold or put out more than its limits. *)
From Stdlib Require Import ZArith Lia Strings.Byte.
From stdpp Require Import base list strings numbers gmap.
From S2P Require Import Prelude SwString HttpTypes HttpParser HttpParserLaws HttpParserSteps HttpMultipart HttpMultipartLaws.

Import SwString SwHttpTypes.

Module ParserSpec.

Import SwHttpParser ParserLaws ParserSteps.

Section Spec.

Context `{ML : MultipartLaws}.
Context (contiguousSize : list byte -> Z).

Implicit Types (s : t) (w : World) (d : list byte).

Abbreviation drainStep := (drainStep contiguousSize).

(** ** Draining, as a relation *)

Inductive drains : World -> World -> Prop :=
| drains_rest w w1 : drainStep w = (Ok false, w1) -> drains w w1
| drains_on w w1 w2 : drainStep w = (Ok true, w1) -> drains w1 w2 -> drains w w2.

Definition stopped w : Prop := m_state w.1 = Error.

(** The bytes [d] come in. *)
Definition arrive d w : World := (more d w.1, w.2).

(** The index of the first request of this call. *)
Definition counting_from (n : Z) w : World := (set_m_feedOutputStart n w.1, w.2).

(** The state in which a call of [feed] starts. *)
Definition entered w : World := counting_from (zlen w.2) w.

(** The pieces [feed] appends. *)
Fixpoint blocks_loop (fuel : nat) (data : list byte) : list (list byte) :=
  match fuel with
  | O => []
  | S fuel' =>
      match data with
      | [] => []
      | _ =>
          let n := Z.to_nat (Z.min (zlen data) maxFeedAppendBytes_) in
          take n data :: blocks_loop fuel' (drop n data)
      end
  end.

Definition blocks (data : list byte) : list (list byte) :=
  match data with [] => [[]] | _ => blocks_loop (S (length data)) data end.

(** Pieces that come in one by one, each drained, until one is refused. *)
Inductive intake : list (list byte) -> World -> World -> Prop :=
| intake_nil w : intake [] w w
| intake_stop d ds w w1 : drains (arrive d w) w1 -> stopped w1 -> intake (d :: ds) w w1
| intake_on d ds w w1 w2 : drains (arrive d w) w1 -> ~ stopped w1 -> intake ds w1 w2 -> intake (d :: ds) w w2.

(** Calls of [feed], as long as they are accepted. *)
Fixpoint feeds (pieces : list (list byte)) w : option World :=
  match pieces with
  | [] => Some w
  | p :: ps =>
      match feed contiguousSize p w with
      | (Ok StatusError, _) => None
      | (Ok _, w1) => feeds ps w1
      | _ => None
      end
  end.

(** What a request put out may hold. *)
Definition request_ok (L : SwHttpLimits) (r : SwHttpRequest) : Prop :=
  zlen (body r) <= maxBodyBytes L /\ Z.of_nat (base.size (headers r)) <= maxHeaderCount L.

Definition winv (L : SwHttpLimits) w : Prop :=
  inv L w.1 /\ 0 <= m_feedOutputStart w.1 <= zlen w.2 /\
  Forall (request_ok L) (drop (Z.to_nat (m_feedOutputStart w.1)) w.2) /\
  (~ stopped w -> zlen w.2 - m_feedOutputStart w.1 <= maxPipelinedRequests L).

Context (contiguousSize_range : forall l, l <> [] -> 0 < contiguousSize l <= zlen l).
Context (L : SwHttpLimits) (HL : limits_ok L).

(** ** One turn *)

Lemma drainStep_parse w : parsing L w.1 ->
  drainStep w = let (r, s1) := parse contiguousSize (m_state w.1) w.1 in (r, (s1, w.2)).
Proof.
  intros (_ & H1 & H2). destruct w as [s out]. unfold SwHttpParser.drainStep, onParser. m_run. simpl in *.
  destruct (m_state s); done.
Qed.

Lemma drainStep_stopped w : stopped w -> drainStep w = (Ok false, w).
Proof. destruct w as [s out]. unfold stopped, SwHttpParser.drainStep. m_run. simpl. by intros ->. Qed.

(** The request that is complete goes out, or is one too many. *)
Definition finalized w : World :=
  let out := w.2 ++ [m_currentRequest w.1] in
  if maxPipelinedRequests L <? zlen out - m_feedOutputStart w.1
  then (setError_ 400 (str "Too many pipelined requests") w.1, out)
  else (set_m_state RequestLine (resetCurrentRequest w.1), out).

Lemma drainStep_complete w : m_limits w.1 = L -> m_state w.1 = Complete ->
  0 <= m_feedOutputStart w.1 <= zlen w.2 -> zlen w.2 - m_feedOutputStart w.1 <= maxPipelinedRequests L ->
  drainStep w = (Ok true, finalized w).
Proof.
  destruct w as [s out]. cbn [fst snd]. intros Hl Hs Hf Hm. unfold SwHttpParser.drainStep, finalizeRequest_, finalized. m_run.
  cbn [fst snd]. rewrite Hs, Hl, sub64_small by (destruct HL as (_ & _ & _ & _ & ? & _); unfold u64_max in *; rewrite zlen_app; simpl; lia).
  by destruct (_ <? _).
Qed.

Lemma reset_running s : m_limits s = L -> running L (set_m_state RequestLine (resetCurrentRequest s)).
Proof.
  intros Hl. destruct HL as (_ & ? & ? & ? & _). split; [|done]. split; [done|].
  simpl. rewrite map_size_empty. split; [lia|]. split; [lia|]. split; [lia|done].
Qed.

Lemma drainStep_ok w : winv L w ->
  exists b w1, drainStep w = (Ok b, w1) /\ winv L w1 /\ m_feedOutputStart w1.1 = m_feedOutputStart w.1 /\
    (exists k, m_buffer w1.1 = drop k (m_buffer w.1)) /\ (exists new, w1.2 = w.2 ++ new) /\
    (if b then (rank w1.1 < rank w.1)%nat else stopped w1 \/ rests L w1.1).
Proof.
  intros Hw. pose proof Hw as (Hi & Hf & Ho & Hn). destruct (decide (stopped w)) as [He|He].
  { rewrite drainStep_stopped by done. exists false, w. split; [done|]. split; [done|]. split; [done|].
    split; [by exists 0%nat|]. split; [exists []; by rewrite app_nil_r|by left]. }
  specialize (Hn He). destruct Hi as [Hl [Hr|Hr]]; [done|]. destruct (decide (m_state w.1 = Complete)) as [Hc|Hc].
  - rewrite drainStep_complete by done. exists true, (finalized w). split; [done|]. unfold finalized. rewrite zlen_app. simpl zlen.
    assert (Forall (request_ok L) (drop (Z.to_nat (m_feedOutputStart w.1)) (w.2 ++ [m_currentRequest w.1]))) as Ho'.
    { rewrite drop_app_le by lia. apply Forall_app. split; [done|]. apply Forall_singleton.
      destruct Hr as [(_ & ? & _ & ? & _) _]. split; lia. }
    destruct (Z.ltb_spec (maxPipelinedRequests L) (zlen w.2 + Z.of_nat 1 - m_feedOutputStart w.1)).
    + set (s1 := setError_ 400 (str "Too many pipelined requests") w.1).
      assert (m_feedOutputStart s1 = m_feedOutputStart w.1 /\ m_buffer s1 = m_buffer w.1) as [Hf1 Hb1]
        by (unfold s1, setError_; by destruct (m_multipartStreamingActive w.1)).
      assert (m_state s1 = Error /\ m_limits s1 = L) as [Hs1 Hl1] by (split; [apply setError_state|by unfold s1; rewrite setError_limits]).
      unfold winv, stopped. cbn [fst snd]. rewrite Hf1, Hs1, zlen_app. split.
      { split; [split; [done|by left]|]. split; [lia|]. by split. }
      split; [done|]. split; [exists 0%nat; by rewrite Hb1|]. split; [by eexists|].
      unfold rank. rewrite Hb1, Hs1, Hc. simpl. lia.
    + unfold winv. cbn [fst snd]. rewrite zlen_app. split.
      { split; [split; [done|right; by apply reset_running]|]. split; [simpl; lia|]. split; [done|]. intros _. simpl. lia. }
      split; [done|]. split; [by exists 0%nat|]. split; [by eexists|]. unfold rank. rewrite Hc. simpl. lia.
  - assert (parsing L w.1) as Hp by done. rewrite drainStep_parse by done.
    destruct (parse_turn contiguousSize contiguousSize_range L HL w.1 Hp) as (b & s1 & -> & Hf1 & Hb1 & Ht).
    exists b, (s1, w.2). split; [done|]. unfold winv, stopped. cbn [fst snd]. rewrite Hf1. split.
    { split; [|done]. destruct b.
      - split; [apply Ht|right; apply Ht].
      - destruct Ht as [? [Ht|[[Ht _] _]]]; split; auto. }
    split; [done|]. split; [done|]. split; [exists []; by rewrite app_nil_r|]. destruct b; [apply Ht|].
    destruct Ht as [_ [?|[? _]]]; auto.
Qed.

(** ** A turn with more bytes waiting *)

Lemma winv_arrive d w : winv L w -> winv L (arrive d w).
Proof. intros (H & ? & ? & ?). split; [|done]. exact H. Qed.

Definition walike (x y : result bool * World) : Prop :=
  x = y \/ exists wx wy, x = (Ok false, wx) /\ y = (Ok false, wy) /\ stopped wx /\ stopped wy.

Lemma drainStep_more d w b w1 : winv L w -> drainStep w = (Ok b, w1) ->
  (b = true -> drainStep (arrive d w) = (Ok true, arrive d w1)) /\
  (b = false -> ~ stopped w1 -> walike (drainStep (arrive d w)) (drainStep (arrive d w1))) /\
  (b = false -> stopped w1 -> zlen (m_buffer w.1) + zlen d < 2147483648 -> last (m_buffer w.1) <> Some x0d ->
     exists w2, drainStep (arrive d w) = (Ok false, w2) /\ stopped w2).
Proof.
  intros (Hi & Hf & Ho & Hn) Hrun. destruct (decide (stopped w)) as [He|He].
  { rewrite drainStep_stopped in Hrun by done. injection Hrun as <- <-. split_and!; [done|done|]. intros.
    exists (arrive d w). split; [by apply drainStep_stopped|done]. }
  specialize (Hn He). destruct Hi as [Hl [Hr|Hr]]; [done|]. destruct (decide (m_state w.1 = Complete)) as [Hc|Hc].
  - rewrite drainStep_complete in Hrun by done. injection Hrun as <- <-. split_and!; [|done|done]. intros _.
    rewrite drainStep_complete by done. f_equal. unfold finalized, arrive. cbn [fst snd].
    change (m_feedOutputStart (more d w.1)) with (m_feedOutputStart w.1). change (m_currentRequest (more d w.1)) with (m_currentRequest w.1).
    destruct (_ <? _); [|done]. cbn [fst snd]. f_equal. unfold setError_. by destruct w as [[] ?]; simpl; destruct m_multipartStreamingActive0.
  - assert (parsing L w.1) as Hp by done. rewrite drainStep_parse in Hrun by done.
    assert (drainStep (arrive d w) = let (r, s1) := parse contiguousSize (m_state w.1) (more d w.1) in (r, (s1, w.2))) as Hm
      by (by rewrite drainStep_parse).
    destruct (parse_turn contiguousSize contiguousSize_range L HL w.1 Hp) as (b' & s1 & Hrun1 & Hf1 & Hb1 & Ht).
    rewrite Hrun1 in Hrun. injection Hrun as <- <-.
    pose proof (parse_extends contiguousSize contiguousSize_range L HL d w.1 b' s1 Hp Hrun1) as (E1 & E2 & E3).
    unfold stopped. cbn [fst snd]. rewrite Hm. split_and!.
    + intros Hb. by rewrite E1.
    + intros -> Hne. destruct Ht as [Hl1 [?|[[Hr1 _] Hs1]]]; [done|].
      assert (drainStep (arrive d (s1, w.2)) = let (r, s2) := parse contiguousSize (m_state w.1) (more d s1) in (r, (s2, w.2))) as ->.
      { rewrite drainStep_parse; [by rewrite <-Hs1|]. split; [done|]. simpl. by rewrite Hs1. }
      destruct (E2 eq_refl Hne) as [->|[[F1 F2] [F3 F4]]]; [by left|]. right.
      destruct (parse _ _ (more d w.1)) as [r2 s2], (parse _ _ (more d s1)) as [r3 s3]. simpl in *. subst.
      by exists (s2, w.2), (s3, w.2).
    + intros -> Hs1 Hd Hcr. destruct (E3 eq_refl Hs1 Hd Hcr) as [F1 F2].
      destruct (parse _ _ (more d w.1)) as [r2 s2]. simpl in *. subst. by exists (s2, w.2).
Qed.

(** ** Draining *)

Lemma drains_fun w w1 w2 : drains w w1 -> drains w w2 -> w1 = w2.
Proof.
  intros H. revert w2. induction H as [w w1 H|w w1 w' H Hd IH]; intros w2 H2;
    inversion H2 as [? ? H3|? w3 ? H3 H4]; subst; rewrite H in H3; [congruence|done|done|].
  injection H3 as <-. by apply IH.
Qed.

(** What a drain keeps, adds and ends in. *)
Definition drained w w1 : Prop :=
  winv L w1 /\ m_feedOutputStart w1.1 = m_feedOutputStart w.1 /\
  (exists k, m_buffer w1.1 = drop k (m_buffer w.1)) /\ (exists new, w1.2 = w.2 ++ new) /\
  (stopped w1 \/ rests L w1.1).

Lemma drain_loop_drains fuel p w : winv L w -> (rank w.1 < fuel)%nat ->
  exists p1 w1, drain_loop contiguousSize fuel p w = (Ok p1, w1) /\ drains w w1 /\ drained w w1.
Proof.
  revert p w. induction fuel as [|fuel IH]; intros p w Hw Hf; [lia|]. cbn [drain_loop]. m_run.
  destruct (drainStep_ok w Hw) as (b & w1 & Hrun & Hw1 & Hs & [k Hb] & [new Ho] & Hr). rewrite Hrun. destruct b.
  - destruct (IH true w1 Hw1 ltac:(lia)) as (p2 & w2 & Hrun2 & Hd & Hw2 & Hs2 & [k2 Hb2] & [new2 Ho2] & Hr2).
    exists p2, w2. split; [done|]. split; [by eapply drains_on|]. split; [done|]. split; [congruence|].
    split; [exists (k + k2)%nat; by rewrite Hb2, Hb, drop_drop|]. split; [|done]. exists (new ++ new2). by rewrite Ho2, Ho, app_assoc.
  - exists p, w1. split; [done|]. split; [by apply drains_rest|]. split; [done|]. split; [done|]. split; [by eexists|]. split; [by eexists|done].
Qed.

(** The fuel of [drainAvailable_] is enough. *)
Lemma drainAvailable_drains p w : winv L w ->
  exists p1 w1, drainAvailable_ contiguousSize p w = (Ok p1, w1) /\ drains w w1 /\ drained w w1.
Proof.
  intros Hw. destruct w as [s out]. unfold drainAvailable_. m_run. apply drain_loop_drains; [done|]. simpl. unfold rank.
  destruct (decide _); lia.
Qed.

Lemma drains_total w : winv L w -> exists w1, drains w w1 /\ drained w w1.
Proof. intros Hw. destruct (drainAvailable_drains false w Hw) as (_ & w1 & _ & ?). by exists w1. Qed.

Lemma drains_drained w w1 : winv L w -> drains w w1 -> drained w w1.
Proof. intros Hw Hd. destruct (drains_total w Hw) as (w2 & Hd2 & ?). by rewrite (drains_fun _ _ _ Hd Hd2). Qed.

Lemma drains_stopped w w1 : stopped w -> drains w w1 -> w1 = w.
Proof. intros H Hd. eapply drains_fun; [done|]. by apply drains_rest, drainStep_stopped. Qed.

(** ** More bytes after a drain *)

Lemma arrive_arrive a b w : arrive b (arrive a w) = arrive (a ++ b) w.
Proof. destruct w as [[] ?]. unfold arrive, more. simpl. by rewrite app_assoc. Qed.

Lemma arrive_nil w : arrive [] w = w.
Proof. destruct w. unfold arrive. simpl. by rewrite more_nil. Qed.

(** Draining first makes no difference to what comes of the bytes that follow. *)
Lemma drains_arrive d w w1 w2 : winv L w -> drains w w1 -> ~ stopped w1 -> drains (arrive d w) w2 ->
  exists w3, drains (arrive d w1) w3 /\ (w3 = w2 \/ stopped w3 /\ stopped w2).
Proof.
  intros Hw H. revert w2. induction H as [w w1 H|w w0 w1 H Hd IH]; intros w2 Hne H2.
  - destruct (drainStep_more d w _ _ Hw H) as (_ & Hm & _). specialize (Hm eq_refl Hne).
    destruct (drainStep_ok w Hw) as (b & w1' & Hrun & Hw1 & _). rewrite Hrun in H. injection H as -> ->.
    destruct Hm as [E|(wx & wy & Ex & Ey & Sx & Sy)].
    + exists w2. split; [|by left]. inversion H2 as [? ? H3|? w3 ? H3 H4]; subst; rewrite E in H3;
        [by apply drains_rest|by eapply drains_on].
    + exists wy. split; [by apply drains_rest|]. right. split; [done|].
      inversion H2 as [? ? H3|? w3 ? H3 H4]; subst; rewrite Ex in H3; [by injection H3 as <-|done].
  - destruct (drainStep_more d w _ _ Hw H) as (Hm & _). specialize (Hm eq_refl).
    destruct (drainStep_ok w Hw) as (b & w0' & Hrun & Hw0 & _). rewrite Hrun in H. injection H as -> ->.
    apply IH; [done|done|]. inversion H2 as [? ? H3|? w3 ? H3 H4]; subst; rewrite Hm in H3; [done|by injection H3 as <-].
Qed.

(** What is refused stays refused, unless it was cut inside a line's end. *)
Lemma drains_arrive_stopped d w w1 : winv L w -> drains w w1 -> stopped w1 ->
  zlen (m_buffer w.1) + zlen d < 2147483648 -> last (m_buffer w.1) <> Some x0d ->
  exists w2, drains (arrive d w) w2 /\ stopped w2.
Proof.
  intros Hw H. induction H as [w w1 H|w w0 w1 H Hd IH]; intros He Hlen Hcr.
  - destruct (drainStep_more d w _ _ Hw H) as (_ & _ & Hm). destruct (Hm eq_refl He Hlen Hcr) as (w2 & ? & ?).
    exists w2. split; [by apply drains_rest|done].
  - destruct (drainStep_more d w _ _ Hw H) as (Hm & _). specialize (Hm eq_refl).
    destruct (drainStep_ok w Hw) as (b & w0' & Hrun & Hw0 & _ & [k Hb] & _). rewrite Hrun in H. injection H as -> ->.
    destruct IH as (w2 & Hd2 & Hs2); [done|done|rewrite Hb, length_drop; lia|rewrite Hb; by apply last_drop_cr|].
    exists w2. split; [by eapply drains_on|done].
Qed.

(** ** Requests of earlier calls *)

Lemma counting_from_twice m n w : counting_from m (counting_from n w) = counting_from m w.
Proof. done. Qed.

(** Where the counting of the call's requests starts does not matter while they are not too many. *)
Lemma drains_from n w w1 : winv L w -> drains w w1 -> ~ stopped w1 ->
  0 <= n <= zlen w.2 -> zlen w1.2 - n <= maxPipelinedRequests L ->
  drains (counting_from n w) (counting_from n w1).
Proof.
  intros Hw H. induction H as [w w1 H|w w0 w1 H Hd IH]; intros Hne Hn Hmax.
  - apply drains_rest. destruct Hw as ([Hl [Hr|Hr]] & Hf & _ & Hp).
    { rewrite drainStep_stopped in H by done. injection H as ->. done. }
    destruct (decide (stopped w)) as [He|He]; [rewrite drainStep_stopped in H by done; by injection H as ->|].
    destruct (decide (m_state w.1 = Complete)) as [Hc|Hc]; [by rewrite drainStep_complete in H by auto|].
    rewrite drainStep_parse in H |- * by done. cbn [counting_from fst snd].
    change (m_state (set_m_feedOutputStart n w.1)) with (m_state w.1). rewrite unaware_parse.
    destruct (parse _ _ w.1) as [r s1]. simpl. by injection H as -> <-.
  - destruct (drainStep_ok w Hw) as (b & w0' & Hrun & Hw0 & _ & _ & [new Ho] & _). rewrite H in Hrun. injection Hrun as <- <-.
    assert (~ stopped w0) as Hne0 by (intros He; apply drains_stopped in Hd; [by subst|done]).
    destruct (drains_drained _ _ Hw0 Hd) as (_ & _ & _ & [new' Ho'] & _).
    eapply (drains_on _ (counting_from n w0)); [|apply IH; [done|done|rewrite Ho, zlen_app; lia|done]].
    rewrite Ho', Ho, !zlen_app in Hmax.
    destruct Hw as ([Hl [Hr|Hr]] & Hf & _ & Hp); [by rewrite drainStep_stopped in H|].
    destruct (decide (stopped w)) as [He|He]; [by rewrite drainStep_stopped in H|]. specialize (Hp He).
    destruct (decide (m_state w.1 = Complete)) as [Hc|Hc].
    + rewrite drainStep_complete in H by done. injection H as <-.
      rewrite drainStep_complete by (done || (cbn [counting_from fst snd m_feedOutputStart set_m_feedOutputStart]; lia)). f_equal.
      unfold finalized, stopped in *. cbn [counting_from fst snd m_feedOutputStart set_m_feedOutputStart m_currentRequest] in *.
      destruct (Z.ltb_spec (maxPipelinedRequests L) (zlen (w.2 ++ [m_currentRequest w.1]) - m_feedOutputStart w.1)).
      { exfalso. apply Hne0. apply setError_state. }
      cbn [snd] in Ho. apply (f_equal length) in Ho. rewrite !length_app in Ho. simpl in Ho. rewrite zlen_app. simpl zlen.
      destruct (Z.ltb_spec (maxPipelinedRequests L) (zlen w.2 + Z.of_nat 1 - n)); [lia|done].
    + rewrite drainStep_parse in H |- * by done. cbn [counting_from fst snd].
      change (m_state (set_m_feedOutputStart n w.1)) with (m_state w.1). rewrite unaware_parse.
      destruct (parse _ _ w.1) as [r s1]. simpl. by injection H as -> <-.
Qed.

(** ** Feeding *)

(** A parser between two calls: as it was made, or as a call left it. *)
Definition ready w : Prop := inv L w.1 /\ ~ stopped w /\ drains (entered w) (entered w).

Lemma winv_entered w : inv L w.1 -> winv L (entered w).
Proof.
  intros H. split; [exact H|]. unfold entered. simpl. split; [lia|]. rewrite drop_ge by lia. split; [done|]. intros _.
  destruct HL as (_ & _ & _ & _ & ? & _). lia.
Qed.

Lemma blocks_loop_concat fuel data : (length data < fuel)%nat -> concat (blocks_loop fuel data) = data.
Proof.
  revert data. induction fuel as [|fuel IH]; intros data Hf; [lia|]. cbn [blocks_loop]. destruct data as [|x data]; [done|].
  cbn [concat]. rewrite IH; [apply take_drop|]. rewrite length_drop. unfold maxFeedAppendBytes_. simpl in *. lia.
Qed.

Lemma blocks_concat data : concat (blocks data) = data.
Proof. destruct data; [done|]. apply blocks_loop_concat. lia. Qed.

Lemma intake_fun ds w w1 w2 : intake ds w w1 -> intake ds w w2 -> w1 = w2.
Proof.
  intros H. revert w2. induction H as [w|d ds w w1 Hd Hs|d ds w w1 w2 Hd Hs Hi IH]; intros w3 H3;
    inversion H3 as [|? ? ? ? Hd' Hs'|? ? ? w4 ? Hd' Hs' Hi']; subst; try done.
  - by eapply drains_fun.
  - by rewrite (drains_fun _ _ _ Hd Hd') in Hs.
  - by rewrite (drains_fun _ _ _ Hd Hd') in Hs.
  - apply IH. by rewrite (drains_fun _ _ _ Hd Hd').
Qed.

(** What follows from taking bytes in. *)
Lemma intake_later ds w w1 : winv L w -> intake ds w w1 ->
  winv L w1 /\ m_feedOutputStart w1.1 = m_feedOutputStart w.1 /\ (exists new, w1.2 = w.2 ++ new) /\
  (ds <> [] -> stopped w1 \/ rests L w1.1).
Proof.
  intros Hw H. induction H as [w|d ds w w1 Hd Hs|d ds w w1 w2 Hd Hs Hi IH].
  - split; [done|]. split; [done|]. split; [exists []; by rewrite app_nil_r|done].
  - destruct (drains_drained _ _ (winv_arrive d w Hw) Hd) as (? & ? & _ & ? & ?). by split_and!.
  - destruct (drains_drained _ _ (winv_arrive d w Hw) Hd) as (Hw1 & Hf1 & _ & [new Ho] & Hr). simpl in Ho.
    destruct (IH Hw1) as (Hw2 & Hf2 & [new2 Ho2] & Hr2). split; [done|]. split; [by rewrite Hf2, Hf1|].
    split; [exists (new ++ new2); by rewrite Ho2, Ho, app_assoc|]. intros _. destruct ds; [inversion Hi; by subst|by apply Hr2].
Qed.

(** [feed] takes the bytes in block by block, and never runs out of fuel. *)
Lemma feed_loop_intake fuel data p w : winv L w -> (length data < fuel)%nat -> data <> [] ->
  exists p1 w1, feed_loop contiguousSize fuel data p w = (Ok p1, w1) /\ intake (blocks_loop fuel data) w w1.
Proof.
  revert data p w. induction fuel as [|fuel IH]; intros data p w Hw Hf Hne; [lia|]. cbn [feed_loop blocks_loop].
  assert (forall A (x y : A), match data with [] => x | _ => y end = y) as Hd by by destruct data.
  rewrite !Hd. cbv zeta. set (n := Z.to_nat (Z.min (zlen data) maxFeedAppendBytes_)).
  assert (0 < n)%nat as Hn by (unfold n, maxFeedAppendBytes_; destruct data; simpl in *; [done|lia]). clearbody n.
  m_run. change (set_m_buffer (m_buffer w.1 ++ take n data) w.1, w.2) with (arrive (take n data) w).
  destruct (drainAvailable_drains p _ (winv_arrive (take n data) w Hw)) as (p1 & w1 & Hrun & Hdr & Hw1 & _).
  rewrite Hrun. destruct w1 as [s1 out1]. destruct (decide (m_state s1 = Error)).
  - exists p1, (s1, out1). split; [done|]. by apply intake_stop.
  - destruct (decide (drop n data = [])) as [E|E].
    + exists p1, (s1, out1). split; [|eapply intake_on; [done|done|]; rewrite E; destruct fuel; apply intake_nil].
      rewrite E. destruct fuel; [|done]. destruct data; simpl in *; [done|lia].
    + destruct (IH (drop n data) p1 (s1, out1)) as (p2 & w2 & Hrun2 & Hi); [done| |done|].
      { rewrite length_drop. destruct data; simpl in *; [done|lia]. }
      exists p2, w2. split; [done|]. by eapply intake_on.
Qed.

Lemma feed_intake data w : inv L w.1 ->
  exists st w1, feed contiguousSize data w = (Ok st, if decide (stopped w1) then (w1.1, w.2) else w1) /\
    intake (blocks data) (entered w) w1 /\ (st = StatusError <-> stopped w1).
Proof.
  intros Hi. pose proof (winv_entered w Hi) as Hw.
  assert (exists p w1, (match data with
                | [] => drainAvailable_ contiguousSize false
                | _ => feed_loop contiguousSize (S (length data)) data false
                end) (entered w) = (Ok p, w1) /\ intake (blocks data) (entered w) w1) as (p & w1 & Hrun & Hin).
  { destruct data as [|x data]; [|apply feed_loop_intake; [done|lia|done]].
    destruct (drainAvailable_drains false _ Hw) as (p & w1 & Hrun & Hd & _). exists p, w1. split; [done|].
    pose proof (arrive_nil (entered w)) as E.
    destruct (decide (stopped w1)); [apply intake_stop; [by rewrite E|done]|eapply intake_on; [rewrite E|..]; [done|done|apply intake_nil]]. }
  destruct (intake_later _ _ _ Hw Hin) as (_ & _ & [new Ho] & _).
  exists (status p w1.1), w1. split; [|split; [done|]].
  - unfold feed. destruct w as [s out]. m_run. unfold entered, counting_from in Hrun. cbn [fst snd] in Hrun. rewrite Hrun.
    destruct w1 as [s1 out1]. unfold stopped, discardFeedOutputs_. cbn [fst snd] in *. destruct (decide (m_state s1 = Error)); [|done].
    m_run. unfold entered, counting_from in Ho. cbn [snd] in Ho. rewrite Ho, Nat2Z.id. cbn [fst snd]. by rewrite take_app_length.
  - unfold status, stopped. destruct (decide _); [done|]. by destruct p.
Qed.


(** ** Fragments *)

Lemma drains_again w w1 : winv L w -> drains w w1 -> ~ stopped w1 -> drains w1 w1.
Proof.
  intros Hw Hd Hs.
  destruct (drains_arrive [] w w1 w1 Hw Hd Hs) as (w3 & Hd3 & [->|[_ ?]]); [by rewrite arrive_nil|by rewrite arrive_nil in Hd3|done].
Qed.

(** Bytes that come in two parts, the first accepted, are drained as one. *)
Lemma drains_join a b w w1 w2 : winv L w -> drains (arrive a w) w1 -> ~ stopped w1 -> drains (arrive b w1) w2 -> ~ stopped w2 ->
  drains (arrive (a ++ b) w) w2.
Proof.
  intros Hw H1 Hs1 H2 Hs2. destruct (drains_total _ (winv_arrive (a ++ b) w Hw)) as (w3 & H3 & _).
  pose proof H3 as H3'. rewrite <-arrive_arrive in H3'. destruct (drains_arrive b _ w1 w3 (winv_arrive a w Hw) H1 Hs1 H3') as (w4 & H4 & Hw4).
  rewrite (drains_fun _ _ _ H2 H4) in *. by destruct Hw4 as [->|[? _]].
Qed.

Lemma intake_drains ds w w1 : winv L w -> drains w w -> intake ds w w1 -> ~ stopped w1 -> drains (arrive (concat ds) w) w1.
Proof.
  intros Hw Hd H. induction H as [w|d ds w w1 Hd1 Hs|d ds w w1 w2 Hd1 Hs Hi IH]; intros Hs1.
  - simpl. by rewrite arrive_nil.
  - done.
  - destruct (drains_drained _ _ (winv_arrive d w Hw) Hd1) as (Hw1 & _). cbn [concat].
    eapply drains_join; [done|exact Hd1|done| |done]. apply IH; [done| |done]. by apply (drains_again (arrive d w)); [apply winv_arrive|..].
Qed.

(** Pieces that do not end inside a line's end are taken in when the whole is. *)
Lemma intake_complete ds tail w w2 : winv L w -> drains w w -> ~ stopped w ->
  Forall (fun d => last d <> Some x0d) ds ->
  zlen (m_buffer w.1) + zlen (concat ds ++ tail) < 2147483648 ->
  drains (arrive (concat ds ++ tail) w) w2 -> ~ stopped w2 ->
  exists w1, intake ds w w1 /\ ~ stopped w1 /\ drains w1 w1 /\ drains (arrive tail w1) w2 /\
    zlen (m_buffer w1.1) <= zlen (m_buffer w.1) + zlen (concat ds).
Proof.
  intros Hw Hd Hs Hcr. revert w Hw Hd Hs. induction Hcr as [|d ds Hcr Hds IH]; intros w Hw Hd Hs Hlen H2 Hs2.
  - exists w. split; [apply intake_nil|]. by split_and!; [..|simpl; lia].
  - cbn [concat] in *. rewrite <-app_assoc in H2, Hlen. rewrite <-arrive_arrive in H2. rewrite zlen_app in Hlen.
    destruct (drains_total _ (winv_arrive d w Hw)) as (w1 & Hd1 & Hw1 & _ & [k Hb] & _).
    assert (zlen (m_buffer w1.1) <= zlen (m_buffer w.1) + zlen d) as Hlen1.
    { rewrite Hb, length_drop. unfold arrive, more. simpl. rewrite length_app. lia. }
    assert (~ stopped w1) as Hs1.
    { intros Hst. destruct (decide (d = [])) as [->|Hne].
      - rewrite arrive_nil in Hd1. by rewrite (drains_fun _ _ _ Hd1 Hd) in Hst.
      - destruct (drains_arrive_stopped (concat ds ++ tail) _ _ (winv_arrive d w Hw) Hd1 Hst) as (w3 & Hd3 & Hs3).
        + unfold arrive, more. simpl. rewrite zlen_app. lia.
        + unfold arrive, more. simpl. rewrite last_app. by destruct (last d) eqn:El; [|apply last_None in El].
        + by rewrite (drains_fun _ _ _ H2 Hd3) in Hs2. }
    destruct (drains_arrive _ _ _ _ (winv_arrive d w Hw) Hd1 Hs1 H2) as (w3 & Hd3 & [->|[_ ?]]); [|done].
    destruct (IH w1) as (w4 & Hi & Hs4 & Hd4 & Ht & Hb4); [done|by apply (drains_again (arrive d w)); [apply winv_arrive|..]|done|lia|done|done|].
    exists w4. split; [by eapply intake_on|]. split_and!; [done..|]. rewrite zlen_app. lia.
Qed.


Lemma feeds_cons p ps w w1 : feeds (p :: ps) w = Some w1 -> inv L w.1 ->
  exists w2, intake (blocks p) (entered w) w2 /\ ~ stopped w2 /\ feeds ps w2 = Some w1.
Proof.
  intros H Hi. cbn [feeds] in H. destruct (feed_intake p w Hi) as (st & w2 & Hrun & Hin & Hst). rewrite Hrun in H.
  assert (st <> StatusError) as Hne by by destruct st. assert (~ stopped w2) as Hs by (by intros ?%Hst).
  exists w2. split; [done|]. split; [done|]. destruct (decide (stopped w2)); [done|]. by destruct st.
Qed.

Lemma feeds_intake p ps w w2 : inv L w.1 -> intake (blocks p) (entered w) w2 -> ~ stopped w2 -> feeds (p :: ps) w = feeds ps w2.
Proof.
  intros Hi Hin Hs. cbn [feeds]. destruct (feed_intake p w Hi) as (st & w3 & Hrun & Hin3 & Hst).
  rewrite <-(intake_fun _ _ _ _ Hin Hin3) in *. rewrite Hrun. destruct (decide (stopped w2)); [done|].
  destruct st; [done|done|]. by destruct (Hs (proj1 Hst eq_refl)).
Qed.

(** A drained parser is ready for the next call. *)
Lemma ready_drained w : winv L w -> drains w w -> ~ stopped w -> ready w.
Proof.
  intros Hw Hd Hs. split; [apply Hw|]. split; [done|]. apply drains_from; [done..|lia|].
  destruct HL as (_ & _ & _ & _ & ? & _). lia.
Qed.

Lemma intake_ready p w w1 : ready w -> intake (blocks p) (entered w) w1 -> ~ stopped w1 ->
  drains (arrive p (entered w)) w1 /\ winv L w1 /\ ready w1 /\ m_feedOutputStart w1.1 = zlen w.2 /\ zlen w.2 <= zlen w1.2.
Proof.
  intros (Hi & Hs & Hd) Hin Hs1. pose proof (winv_entered w Hi) as Hw.
  pose proof (intake_drains _ _ _ Hw Hd Hin Hs1) as Hd1. rewrite blocks_concat in Hd1.
  destruct (intake_later _ _ _ Hw Hin) as (Hw1 & Hf & [new Ho] & _). split; [done|]. split; [done|].
  split; [apply ready_drained; [done| |done]; by apply (drains_again (arrive p (entered w))); [apply winv_arrive|..]|].
  split; [done|]. rewrite Ho, zlen_app. simpl. lia.
Qed.

Lemma feeds_drains ps w w1 : ready w -> feeds ps w = Some w1 -> zlen w1.2 - zlen w.2 <= maxPipelinedRequests L ->
  drains (arrive (concat ps) (entered w)) (counting_from (zlen w.2) w1) /\ ready w1 /\ zlen w.2 <= zlen w1.2.
Proof.
  revert w. induction ps as [|p ps IH]; intros w Hw H Hmax.
  - injection H as <-. simpl. rewrite arrive_nil. split; [apply Hw|]. split; [done|lia].
  - destruct (feeds_cons _ _ _ _ H (proj1 Hw)) as (w2 & Hin & Hs2 & H2).
    destruct (intake_ready _ _ _ Hw Hin Hs2) as (Hd2 & Hw2 & Hr2 & Hf2 & Ho2).
    destruct (IH w2 Hr2 H2 ltac:(lia)) as (Hd1 & Hr1 & Ho1). split; [|split; [done|lia]]. cbn [concat].
    pose proof (winv_entered w (proj1 Hw)) as Hwe. pose proof (winv_entered w2 (proj1 Hr2)) as Hwe2.
    assert (~ stopped (counting_from (zlen w2.2) w1)) as Hs1 by apply Hr1.
    eapply drains_join; [done|exact Hd2|done| |done].
    apply (drains_from (zlen w.2)) in Hd1; [|by apply winv_arrive|done|simpl; lia|simpl; lia].
    unfold entered in Hd1 at 1. replace w2 with (counting_from (zlen w.2) w2) at 1; [exact Hd1|].
    rewrite <-Hf2. by destruct w2 as [[] ?].
Qed.

Lemma drains_feeds ps w w1 : ready w -> zlen (m_buffer w.1) + zlen (concat ps) < 2147483648 ->
  drains (arrive (concat ps) (entered w)) w1 -> ~ stopped w1 ->
  Forall (fun d => last d <> Some x0d) (concat (map blocks ps)) ->
  exists w2, feeds ps w = Some w2 /\ counting_from (zlen w.2) w2 = w1.
Proof.
  revert w w1. induction ps as [|p ps IH]; intros w w1 Hw Hlen Hd Hs Hcr.
  - exists w. split; [done|]. simpl in Hd. rewrite arrive_nil in Hd. by eapply drains_fun; [apply Hw|].
  - cbn [concat map] in *. apply Forall_app in Hcr as [Hp Hcr]. pose proof (winv_entered w (proj1 Hw)) as Hwe.
    destruct (intake_complete (blocks p) (concat ps) (entered w) w1) as (w2 & Hin & Hs2 & Hd2 & Ht & Hb); 
      [done|apply Hw|apply Hw|done|by rewrite blocks_concat|by rewrite blocks_concat|done|]. rewrite blocks_concat in Hb.
    destruct (intake_ready _ _ _ Hw Hin Hs2) as (_ & Hw2 & Hr2 & Hf2 & Ho2).
    destruct (drains_drained _ _ (winv_arrive _ _ Hw2) Ht) as ((_ & _ & _ & Hmax) & Hf1 & _ & [new Ho1] & _). specialize (Hmax Hs).
    simpl in Hf1, Ho1. rewrite Hf1, Hf2 in Hmax.
    destruct (IH w2 (counting_from (zlen w2.2) w1) Hr2) as (w3 & H3 & E3).
    + rewrite zlen_app in Hlen. simpl in Hb. lia.
    + apply (drains_from (zlen w2.2) (arrive (concat ps) w2) w1); [by apply winv_arrive|done|done|simpl; lia|rewrite Ho1, zlen_app in *; lia].
    + done.
    + done.
    + exists w3. split; [by rewrite (feeds_intake _ _ _ w2 (proj1 Hw))|].
      apply (f_equal (counting_from (zlen w.2))) in E3. rewrite !counting_from_twice in E3. rewrite E3, <-Hf2, <-Hf1. by destruct w1 as [[] ?].
Qed.

Lemma ready_make limits out : limits = L -> ready (setLimits limits make, out).
Proof.
  intros ->. pose proof HL as (? & ? & ? & ? & ?).
  assert (running L (setLimits L make)) as Hr.
  { split; [|done]. split; [done|]. simpl. rewrite map_size_empty. split; [lia|]. split; [lia|]. split; [lia|done]. }
  split; [split; [done|right; exact Hr]|]. split; [done|]. apply drains_rest. unfold SwHttpParser.drainStep. m_run. simpl.
  unfold onParser, parseRequestLine_, awaitLine. m_run. simpl. unfold pendingBufferExceedsLimit_. simpl.
  destruct (Z.ltb_spec (maxRequestLineBytes L) 0); [lia|]. rewrite sub64_small by (unfold u64_max in *; lia).
  destruct (Z.ltb_spec (maxRequestLineBytes L - 0) (Z.of_nat 0)); [lia|done].
Qed.


(** ** What the parser promises *)

(** C2: how the input is cut into calls of [feed] does not matter.  Whatever the
    pieces, when every call accepts its piece and the calls together put out no more
    requests than one call may, then the parser and the requests are the ones that a
    single drain of all the bytes gives.  Conversely, when the bytes are accepted as
    a whole and no piece (nor any of the 64 KiB blocks in which [feed] appends it)
    ends in a CR, every call accepts, with the same result.  Only the index from
    which the last call counts its requests differs. *)
Theorem fragments_as_one ps w :
  ready w -> zlen (m_buffer w.1) + zlen (concat ps) < 2147483648 ->
  (forall w1, feeds ps w = Some w1 -> zlen w1.2 - zlen w.2 <= maxPipelinedRequests L ->
     drains (arrive (concat ps) (entered w)) (counting_from (zlen w.2) w1)) /\
  (forall w1, drains (arrive (concat ps) (entered w)) w1 -> ~ stopped w1 ->
     Forall (fun d => last d <> Some x0d) (concat (map blocks ps)) ->
     exists w2, feeds ps w = Some w2 /\ counting_from (zlen w.2) w2 = w1).
Proof.
  intros Hw Hlen. split.
  - intros w1 H Hmax. by apply feeds_drains.
  - intros w1 Hd Hs Hcr. by apply drains_feeds.
Qed.

(** C3: a call of [feed] always returns, whatever the bytes, and keeps the parser
    within its limits.  Either it reports an error, and the requests of the call are
    taken back; or it leaves no more bytes buffered than the longest line or header
    section allowed, and puts out at most [maxPipelinedRequests] requests, none with
    a body or a number of headers beyond the limits. *)
Theorem feed_bounded data w : inv L w.1 ->
  exists st w1, feed contiguousSize data w = (Ok st, w1) /\ inv L w1.1 /\
    (st = StatusError /\ stopped w1 /\ w1.2 = w.2 \/
     st <> StatusError /\ ~ stopped w1 /\
     zlen (m_buffer w1.1) <= Z.max (Z.max (maxRequestLineBytes L) (maxHeaderBytes L)) 1 /\
     exists new, w1.2 = w.2 ++ new /\ zlen new <= maxPipelinedRequests L /\ Forall (request_ok L) new).
Proof.
  intros Hi. destruct (feed_intake data w Hi) as (st & w1 & Hrun & Hin & Hst). pose proof (winv_entered w Hi) as Hw.
  destruct (intake_later _ _ _ Hw Hin) as ((Hi1 & _ & Ho1 & Hn1) & Hf & [new Ho] & Hr). rewrite Hrun.
  destruct (decide (stopped w1)) as [Hs|Hs].
  - exists st, (w1.1, w.2). split; [done|]. split; [done|]. left. split; [by apply Hst|done].
  - exists st, w1. split; [done|]. split; [done|]. right. split; [by intros ?%Hst|]. split; [done|]. split.
    + destruct Hr as [?|[_ ?]]; [|done|done]. intros E. destruct data; [done|]. apply (f_equal (@concat byte)) in E. by rewrite blocks_concat in E.
    + exists new. specialize (Hn1 Hs). rewrite Hf in Ho1, Hn1. simpl in Ho, Ho1, Hn1. rewrite Ho in Ho1, Hn1.
      rewrite Nat2Z.id, drop_app_length in Ho1. rewrite zlen_app in Hn1. split; [done|]. split; [lia|done].
Qed.

End Spec.

(** ** On a concrete input *)

(** A ring buffer that shows at most seven bytes in a row. *)
Definition view (l : list byte) : Z := Z.min (zlen l) 7.

Lemma view_range l : l <> [] -> 0 < view l <= zlen l.
Proof. intros Hl. unfold view. destruct l; [done|]. simpl length. lia. Qed.

#[local] Instance view_multipart : MultipartStream :=
  SwHttpMultipartStreamParser.streamParser (F := memoryFiles) view.

#[local] Instance view_multipart_laws : MultipartLaws view_multipart :=
  StreamParserLaws.streamParser_laws view view_range.

(** Two requests, the first with a chunked body, the second with a form. *)
Definition request_text : list byte :=
  str "POST /a%20b//c?x=1&y=%41 HTTP/1.1" ++ crlf ++ str "Host: h" ++ crlf ++
  str "Transfer-Encoding: chunked" ++ crlf ++ crlf ++
  str "3" ++ crlf ++ str "abc" ++ crlf ++ str "0" ++ crlf ++ crlf ++
  str "POST /form HTTP/1.1" ++ crlf ++ str "Host: h" ++ crlf ++ str "Content-Length: 68" ++ crlf ++
  str "Content-Type: multipart/form-data; boundary=B" ++ crlf ++ crlf ++
  str "--B" ++ crlf ++ str "Content-Disposition: form-data; name=n" ++ crlf ++ crlf ++ str "Hello, world!!" ++ crlf ++ str "--B--".

Definition fresh : World := (setLimits defaultLimits make, []).

Definition pieces : list (list byte) := [take 50 request_text; take 90 (drop 50 request_text); drop 140 request_text].


Lemma default_limits_ok : limits_ok defaultLimits.
Proof. unfold limits_ok. vm_compute. repeat split; discriminate. Qed.

Lemma fresh_ready : ready view defaultLimits fresh.
Proof. apply ready_make; [exact default_limits_ok|reflexivity]. Qed.

Lemma fragments_as_one_witness :
  (zlen (m_buffer fresh.1) + zlen (concat pieces) < 2147483648) /\
  match feeds view pieces fresh with
  | Some w1 => map body w1.2 = [str "abc"; []] /\
      drains view (arrive (concat pieces) (entered fresh)) (counting_from 0 w1)
  | None => False
  end.
Proof.
  assert (zlen (m_buffer fresh.1) + zlen (concat pieces) < 2147483648) as Hlen by (vm_compute; reflexivity).
  split; [exact Hlen|].
  destruct (fragments_as_one view view_range defaultLimits default_limits_ok pieces fresh fresh_ready Hlen) as [H _].
  assert (match feeds view pieces fresh with
    | Some w1 => (zlen w1.2 <=? 16) && bool_decide (map body w1.2 = [str "abc"; []]) | None => false end = true) as Hn
    by (vm_compute; reflexivity).
  destruct (feeds view pieces fresh) as [w1|]; [|discriminate].
  apply andb_prop in Hn as [Hn1%Z.leb_le Hn2%bool_decide_eq_true]. split; [exact Hn2|].
  apply (H w1 eq_refl). change (zlen w1.2 - 0 <= 16). lia.
Defined.

(** Half a request is accepted and held. *)
Lemma feed_bounded_witness :
  exists st w1, feed view (take 50 request_text) fresh = (Ok st, w1) /\ inv defaultLimits w1.1 /\
    (st = StatusError /\ stopped w1 /\ w1.2 = [] \/
     st <> StatusError /\ ~ stopped w1 /\ zlen (m_buffer w1.1) <= Z.max (Z.max (maxRequestLineBytes defaultLimits) (maxHeaderBytes defaultLimits)) 1 /\
     exists new, w1.2 = [] ++ new /\ zlen new <= maxPipelinedRequests defaultLimits /\ Forall (request_ok defaultLimits) new).
Proof. exact (feed_bounded view view_range defaultLimits default_limits_ok (take 50 request_text) fresh (proj1 fresh_ready)). Defined.

(** A request line of exactly the length allowed is accepted whole, and refused when
    the input is cut between its CR and its LF: the bound on what may be pending
    counts the CR. *)
Example line_at_limit :
  let w0 := (setLimits (set_maxRequestLineBytes 14 defaultLimits) make, []) in
  let line := str "GET / HTTP/1.1" in
  match feed view (line ++ crlf) w0, feed view (line ++ [x0d]) w0 with
  | (Ok _, (s1, _)), (Ok StatusError, (s2, _)) => m_state s1 = Headers /\ m_errorStatus s2 = 414
  | _, _ => False
  end.
Proof. vm_compute. split; reflexivity. Qed.

End ParserSpec.
