(* ===== verification/HttpRouter.v ===== *)
(** SwHttpRouter (src/src/core/io/http/SwHttpRouter.h): the table of routes, by which a
    request finds its handler and a named route its URL; and the responses of
    SwHttpTypes.h it answers with.

    Handlers and filters are functions the router is given.  An asynchronous handler
    is handed a request and a responder: what the router does with it is the value
    [Started], which names the handler, the request, and what the responder makes of a
    response before it passes it on. *)
From Stdlib Require Import ZArith Lia Strings.Byte.
From stdpp Require Import base list strings numbers gmap.
From S2P Require Import Prelude SwString HttpTypes.

Import SwString.
Import SwHttpTypes.

Module SwHttpResponse.

(** The hand-over of the raw socket is not part of it. *)
Record t := mk {
  status : Z;
  reason : list byte;
  headers : StringMap;
  body : list byte;
  useChunkedTransfer : bool;
  chunkedParts : list (list byte);
  hasFile : bool;
  filePath : list byte;
  fileOffset : Z;
  fileLength : Z;
  fileTotalSize : Z;
  streamChunkBytes : Z;
  headOnly : bool;
  closeConnection : bool
}.

Definition make : t := mk 200 (str "OK") ∅ [] false [] false [] 0 0 0 0 false false.

Definition set_status (v : Z) (r : t) : t :=
  mk v (reason r) (headers r) (body r) (useChunkedTransfer r) (chunkedParts r) (hasFile r) (filePath r)
    (fileOffset r) (fileLength r) (fileTotalSize r) (streamChunkBytes r) (headOnly r) (closeConnection r).

Definition set_reason (v : list byte) (r : t) : t :=
  mk (status r) v (headers r) (body r) (useChunkedTransfer r) (chunkedParts r) (hasFile r) (filePath r)
    (fileOffset r) (fileLength r) (fileTotalSize r) (streamChunkBytes r) (headOnly r) (closeConnection r).

Definition set_headers (v : StringMap) (r : t) : t :=
  mk (status r) (reason r) v (body r) (useChunkedTransfer r) (chunkedParts r) (hasFile r) (filePath r)
    (fileOffset r) (fileLength r) (fileTotalSize r) (streamChunkBytes r) (headOnly r) (closeConnection r).

Definition set_body (v : list byte) (r : t) : t :=
  mk (status r) (reason r) (headers r) v (useChunkedTransfer r) (chunkedParts r) (hasFile r) (filePath r)
    (fileOffset r) (fileLength r) (fileTotalSize r) (streamChunkBytes r) (headOnly r) (closeConnection r).

Definition set_closeConnection (v : bool) (r : t) : t :=
  mk (status r) (reason r) (headers r) (body r) (useChunkedTransfer r) (chunkedParts r) (hasFile r) (filePath r)
    (fileOffset r) (fileLength r) (fileTotalSize r) (streamChunkBytes r) (headOnly r) v.

Definition swHttpStatusReason (status : Z) : list byte :=
  str (match status with
  | 101 => "Switching Protocols"
  | 200 => "OK"
  | 201 => "Created"
  | 204 => "No Content"
  | 206 => "Partial Content"
  | 301 => "Moved Permanently"
  | 302 => "Found"
  | 304 => "Not Modified"
  | 400 => "Bad Request"
  | 417 => "Expectation Failed"
  | 403 => "Forbidden"
  | 404 => "Not Found"
  | 405 => "Method Not Allowed"
  | 408 => "Request Timeout"
  | 411 => "Length Required"
  | 429 => "Too Many Requests"
  | 413 => "Payload Too Large"
  | 414 => "URI Too Long"
  | 416 => "Range Not Satisfiable"
  | 426 => "Upgrade Required"
  | 431 => "Request Header Fields Too Large"
  | 308 => "Permanent Redirect"
  | 500 => "Internal Server Error"
  | 501 => "Not Implemented"
  | 502 => "Bad Gateway"
  | 503 => "Service Unavailable"
  | 504 => "Gateway Timeout"
  | _ => "HTTP Response"
  end)%string.

Definition swHttpTextResponse (status : Z) (bodyText contentType : list byte) : t :=
  set_body bodyText (set_headers {[str "content-type" := contentType]} (set_reason (swHttpStatusReason status)
    (set_status status make))).

Definition plainText : list byte := str "text/plain; charset=utf-8".

End SwHttpResponse.

Module SwHttpRouter.

Import SwHttpResponse (make, set_status, set_reason, set_headers, set_body, set_closeConnection,
  swHttpStatusReason, swHttpTextResponse, plainText).

Inductive TrailingSlashPolicy := Ignore | RedirectToNoSlash | RedirectToSlash.

Inductive ParamConstraint := None_ | Int | Alpha | Alnum | Hex | Slug | Uuid.

#[export] Instance ParamConstraint_eq : EqDecision ParamConstraint.
Proof. solve_decision. Defined.

(** A segment of each type, with the fields the type uses. *)
Inductive RouteSegment :=
| LiteralSegment (literal : list byte)
| ParameterSegment (name : list byte) (constraint : ParamConstraint)
| WildcardSegment (name : list byte).

(** ** Patterns *)

Definition endsWith (suffix s : list byte) : bool :=
  if size s <? size suffix then false else eqb (drop (length s - length suffix) s) suffix.

Definition chop (n : Z) (s : list byte) : list byte := take (length s - Z.to_nat n) s.

Definition normalizePattern_ (pattern : list byte) : list byte :=
  let normalized := trimmed pattern in
  let normalized := if isEmpty normalized then str "/" else normalized in
  let normalized := if startsWith (str "/") normalized then normalized else str "/" ++ normalized in
  let normalized := collapse_loop (length normalized) normalized in
  if (1 <? size normalized) && endsWith (str "/") normalized then chop 1 normalized else normalized.

Definition splitPath_ (path : list byte) : list (list byte) :=
  let normalized := swHttpNormalizePath path in
  if eqb normalized (str "/") then []
  else List.filter (fun part => negb (isEmpty part)) (split x2f normalized).

Definition parseConstraint_ (token : list byte) : option (list byte * ParamConstraint) :=
  let paren := indexOf (str "(") 0 token in
  if paren <? 0 then if isEmpty token then None else Some (token, None_)
  else if negb (endsWith (str ")") token) then None
  else
    let name := trimmed (left paren token) in
    let spec := toLower (trimmed (mid (paren + 1) (to_int (size token) - paren - 2) token)) in
    if isEmpty name then None
    else if eqb spec (str "int") then Some (name, Int)
    else if eqb spec (str "alpha") then Some (name, Alpha)
    else if eqb spec (str "alnum") then Some (name, Alnum)
    else if eqb spec (str "hex") then Some (name, Hex)
    else if eqb spec (str "slug") then Some (name, Slug)
    else if eqb spec (str "uuid") then Some (name, Uuid)
    else None.

(** The name of a wildcard token. *)
Definition wildcardName (token : list byte) : list byte :=
  let name := midFrom 1 token in if isEmpty name then str "wildcard" else name.

(** The loop of [compilePattern_]: the segments and their score. *)
Fixpoint compile_loop (parts : list (list byte)) : option (list RouteSegment * Z) :=
  match parts with
  | [] => Some ([], 0)
  | token :: parts' =>
      if startsWith (str ":") token then
        '(name, constraint) ← parseConstraint_ (midFrom 1 token);
        '(segments, score) ← compile_loop parts';
        Some (ParameterSegment name constraint :: segments, (if decide (constraint = None_) then 30 else 50) + score)
      else if startsWith (str "*") token then Some ([WildcardSegment (wildcardName token)], 1)
      else
        '(segments, score) ← compile_loop parts';
        Some (LiteralSegment token :: segments, 100 + score)
  end.

Definition compilePattern_ (pattern : list byte) : option (list RouteSegment * Z) := compile_loop (splitPath_ pattern).

(** ** Matching *)

Definition inRange (lo hi c : byte) : bool := (b2z lo <=? b2z c) && (b2z c <=? b2z hi).
Definition isDigit_ := inRange x30 x39.
Definition isLower_ := inRange x61 x7a.
Definition isUpper_ := inRange x41 x5a.

Definition isHex_ (c : byte) : bool := isDigit_ c || inRange x61 x66 c || inRange x41 x46 c.

(** A UUID, from the position [i]. *)
Fixpoint isUuid_from (i : Z) (value : list byte) : bool :=
  match value with
  | [] => true
  | c :: value' =>
      (if (i =? 8) || (i =? 13) || (i =? 18) || (i =? 23) then bool_decide (c = x2d) else isHex_ c) && isUuid_from (i + 1) value'
  end.

Definition constraintCharacter (constraint : ParamConstraint) (c : byte) : bool :=
  match constraint with
  | Int => isDigit_ c
  | Alpha => isLower_ c || isUpper_ c
  | Alnum => isLower_ c || isUpper_ c || isDigit_ c
  | Hex => isHex_ c
  | Slug => isLower_ c || isUpper_ c || isDigit_ c || bool_decide (c ∈ [x2d; x5f; x2e])
  | None_ | Uuid => true
  end.

Definition checkConstraint_ (constraint : ParamConstraint) (value : list byte) : bool :=
  if decide (constraint = None_) then true
  else if isEmpty value then false
  else if decide (constraint = Uuid) then (size value =? 36) && isUuid_from 0 value
  else forallb (constraintCharacter constraint) value.

(** The parts with slashes between them. *)
Definition joinRest (parts : list (list byte)) : list byte :=
  fold_left (fun rest part => (if isEmpty rest then rest else rest ++ str "/") ++ part) parts [].

(** The loop of [matchSegments_], on what is left of the pattern and the path; the
    parameters are empty at first ([paramsOut.clear()]). *)
Fixpoint matchSegments_ (routeSegments : list RouteSegment) (pathSegments : list (list byte)) (paramsOut : StringMap) : option StringMap :=
  match routeSegments, pathSegments with
  | WildcardSegment name :: _, _ => Some (<[name := joinRest pathSegments]> paramsOut)
  | [], [] => Some paramsOut
  | [], _ :: _ => None
  | _ :: _, [] => None
  | LiteralSegment literal :: routeSegments', current :: pathSegments' =>
      if eqb current literal then matchSegments_ routeSegments' pathSegments' paramsOut else None
  | ParameterSegment name constraint :: routeSegments', current :: pathSegments' =>
      if checkConstraint_ constraint current then matchSegments_ routeSegments' pathSegments' (<[name := current]> paramsOut)
      else None
  end.

(** ** The router *)

Section Router.

(** Asynchronous handlers. *)
Context {AsyncCallback : Type}.

Abbreviation Callback := (SwHttpRequest -> SwHttpResponse.t).
Abbreviation Filter := (SwHttpRequest -> SwHttpResponse.t -> SwHttpResponse.t).

Record SwHttpRouteEntry := mkEntry {
  entry_method : list byte;
  entry_pattern : list byte;
  entry_name : list byte;
  segments : list RouteSegment;
  specificityScore : Z;
  isAsync : bool;
  callback : option Callback;
  asyncCallback : option AsyncCallback
}.

Record t := mk {
  m_routes : list SwHttpRouteEntry;
  m_notFoundHandler : option Callback;
  m_responseFilters : list Filter;
  m_namedPatterns : StringMap;
  m_trailingSlashPolicy : TrailingSlashPolicy
}.

Definition make : t := mk [] None [] ∅ Ignore.

(** [insert] before the first route of a smaller score. *)
Fixpoint insertRoute (entry : SwHttpRouteEntry) (routes : list SwHttpRouteEntry) : list SwHttpRouteEntry :=
  match routes with
  | [] => [entry]
  | route :: routes' =>
      if specificityScore route <? specificityScore entry then entry :: routes else route :: insertRoute entry routes'
  end.

(** What [addNamedRoute] and [addNamedRouteAsync] have in common. *)
Definition addEntry (routeName method pattern : list byte) (isAsync : bool) (callback : option Callback)
    (asyncCallback : option AsyncCallback) (router : t) : t :=
  let method := toUpper (trimmed method) in
  let method := if isEmpty method then str "*" else method in
  let pattern := normalizePattern_ pattern in
  match compilePattern_ pattern with
  | None => router
  | Some (segments, score) =>
      let name := trimmed routeName in
      let entry := mkEntry method pattern name segments score isAsync callback asyncCallback in
      mk (insertRoute entry (m_routes router)) (m_notFoundHandler router) (m_responseFilters router)
        (if isEmpty name then m_namedPatterns router else <[name := pattern]> (m_namedPatterns router))
        (m_trailingSlashPolicy router)
  end.

Definition addNamedRoute (routeName method pattern : list byte) (callback : option Callback) (router : t) : t :=
  match callback with
  | None => router
  | Some _ => addEntry routeName method pattern false callback None router
  end.

Definition addNamedRouteAsync (routeName method pattern : list byte) (callback : option AsyncCallback) (router : t) : t :=
  match callback with
  | None => router
  | Some _ => addEntry routeName method pattern true None callback router
  end.

Definition addRoute (method pattern : list byte) (callback : option Callback) (router : t) : t :=
  addNamedRoute [] method pattern callback router.

Definition addRouteAsync (method pattern : list byte) (callback : option AsyncCallback) (router : t) : t :=
  addNamedRouteAsync [] method pattern callback router.

Definition hasRouteName (routeName : list byte) (router : t) : bool := bool_decide (is_Some (m_namedPatterns router !! routeName)).

Definition routePattern (routeName : list byte) (router : t) : list byte := default [] (m_namedPatterns router !! routeName).

Definition setNotFoundHandler (callback : option Callback) (router : t) : t :=
  mk (m_routes router) callback (m_responseFilters router) (m_namedPatterns router) (m_trailingSlashPolicy router).

(** A filter that is a function; an empty one is ignored. *)
Definition addResponseFilter (filter : Filter) (router : t) : t :=
  mk (m_routes router) (m_notFoundHandler router) (m_responseFilters router ++ [filter]) (m_namedPatterns router)
    (m_trailingSlashPolicy router).

Definition clearResponseFilters (router : t) : t :=
  mk (m_routes router) (m_notFoundHandler router) [] (m_namedPatterns router) (m_trailingSlashPolicy router).

Definition setTrailingSlashPolicy (policy : TrailingSlashPolicy) (router : t) : t :=
  mk (m_routes router) (m_notFoundHandler router) (m_responseFilters router) (m_namedPatterns router) policy.

Definition applyResponseFilters_ (router : t) (request : SwHttpRequest) (response : SwHttpResponse.t) : SwHttpResponse.t :=
  fold_left (fun response filter => filter request response) (m_responseFilters router) response.

(** *** Building URLs *)

Definition hexDigit_ (value : Z) : byte := z2b (if value <? 10 then 48 + value else 65 + (value - 10)).

Definition percentEncode_ (text : list byte) : list byte :=
  flat_map (fun c =>
    if isLower_ c || isUpper_ c || isDigit_ c || bool_decide (c ∈ [x2d; x5f; x2e; x7e]) then [c]
    else [x25; hexDigit_ (Z.land (Z.shiftr (b2z c) 4) 15); hexDigit_ (Z.land (b2z c) 15)]) text.

(** The parameters come in the order of the map. *)
Fixpoint queryText (first : bool) (queryParams : list (list byte * list byte)) : list byte :=
  match queryParams with
  | [] => []
  | (key, val) :: queryParams' =>
      (if first then str "?" else str "&") ++ percentEncode_ key ++ str "=" ++ percentEncode_ val ++ queryText false queryParams'
  end.

Definition appendQueryString_ (url : list byte) (queryParams : list (list byte * list byte)) : list byte :=
  url ++ queryText true queryParams.

(** The segment a token of a pattern becomes. *)
Definition urlSegment (pathParams : StringMap) (token : list byte) : option (list byte) :=
  if startsWith (str ":") token then
    '(key, constraint) ← parseConstraint_ (midFrom 1 token);
    segment ← pathParams !! key;
    if checkConstraint_ constraint segment then Some segment else None
  else if startsWith (str "*") token then pathParams !! wildcardName token
  else Some token.

Fixpoint urlPath (first : bool) (pathParams : StringMap) (parts : list (list byte)) : option (list byte) :=
  match parts with
  | [] => Some []
  | token :: parts' =>
      segment ← urlSegment pathParams token;
      rest ← urlPath false pathParams parts';
      Some ((if first then [] else str "/") ++ segment ++ rest)
  end.

Definition buildUrl (routeName : list byte) (pathParams : StringMap) (queryParams : list (list byte * list byte)) (router : t) : option (list byte) :=
  pattern ← m_namedPatterns router !! routeName;
  path ← urlPath true pathParams (splitPath_ pattern);
  Some (appendQueryString_ (swHttpNormalizePath (str "/" ++ path)) queryParams).

(** *** Dispatch *)

(** The redirect, laid over the response the caller passes. *)
Definition shouldRedirectTrailingSlash_ (router : t) (request : SwHttpRequest) (response : SwHttpResponse.t) : option SwHttpResponse.t :=
  match m_trailingSlashPolicy router with
  | Ignore => None
  | policy =>
      let path := swHttpNormalizePath (path request) in
      if eqb path (str "/") then None
      else
        let hasTrailingSlash := endsWith (str "/") path in
        match (match policy with
               | RedirectToNoSlash => if hasTrailingSlash then Some (chop 1 path) else None
               | _ => if negb hasTrailingSlash then Some (path ++ str "/") else None
               end) with
        | None => None
        | Some path =>
            let location := path ++ (if isEmpty (queryString request) then [] else str "?" ++ queryString request) in
            Some (set_closeConnection (negb (keepAlive request)) (set_body []
              (set_headers (<[str "content-length" := str "0"]> (<[str "location" := location]> (SwHttpResponse.headers response)))
              (set_reason (swHttpStatusReason 308) (set_status 308 response)))))
        end
  end.

Definition methodMatch (entry : SwHttpRouteEntry) (method : list byte) : bool :=
  eqb (entry_method entry) (str "*") || eqb (entry_method entry) method ||
  (eqb method (str "HEAD") && eqb (entry_method entry) (str "GET")).

Fixpoint insertMethod (method : list byte) (methods : list (list byte)) : list (list byte) :=
  match methods with
  | [] => [method]
  | m :: methods' => if before method m then method :: methods else m :: insertMethod method methods'
  end.

Definition appendUniqueMethod_ (methods : list (list byte)) (method : list byte) : list (list byte) :=
  if bool_decide (method ∈ methods) then methods else insertMethod method methods.

(** The loop over the routes: the first one for the path and the method, with the
    parameters; or whether the path is another method's, and the methods it has. *)
Inductive lookup :=
| Found (entry : SwHttpRouteEntry) (params : StringMap)
| NotFound (pathMatchedOtherMethod : bool) (allowedMethods : list (list byte)).

Fixpoint findRoute (pathSegments : list (list byte)) (method : list byte) (routes : list SwHttpRouteEntry)
    (pathMatchedOtherMethod : bool) (allowedMethods : list (list byte)) : lookup :=
  match routes with
  | [] => NotFound pathMatchedOtherMethod allowedMethods
  | entry :: routes' =>
      match matchSegments_ (segments entry) pathSegments ∅ with
      | None => findRoute pathSegments method routes' pathMatchedOtherMethod allowedMethods
      | Some params =>
          if methodMatch entry method then Found entry params
          else findRoute pathSegments method routes' true
                 (if eqb (entry_method entry) (str "*") then allowedMethods
                  else appendUniqueMethod_ allowedMethods (entry_method entry))
      end
  end.

Definition lookupRoute (router : t) (request : SwHttpRequest) : lookup :=
  findRoute (splitPath_ (path request)) (toUpper (method request)) (m_routes router) false [].

Definition allowValue (methods : list (list byte)) : list byte :=
  fold_left (fun value m => (if isEmpty value then value else value ++ str ", ") ++ m) methods [].

Definition withClose (request : SwHttpRequest) (response : SwHttpResponse.t) : SwHttpResponse.t :=
  set_closeConnection (negb (keepAlive request)) response.

Definition methodNotAllowed (request : SwHttpRequest) (allowedMethods : list (list byte)) : SwHttpResponse.t :=
  let response := withClose request (swHttpTextResponse 405 (str "Method Not Allowed") plainText) in
  match allowedMethods with
  | [] => response
  | _ :: _ => set_headers (<[str "allow" := allowValue allowedMethods]> (SwHttpResponse.headers response)) response
  end.

Definition set_pathParams (v : StringMap) (r : SwHttpRequest) : SwHttpRequest :=
  mkRequest (method r) (target r) (path r) (queryString r) (protocol r) (headers r) (queryParams r)
     v (body r) (keepAlive r) (isChunkedBody r) (isMultipartFormData r) (isTls r) (localPort r)
     (peerAddress r) (peerPort r) (multipartParts r) (formFields r).

(** [route(request, response, applyResponseFilters)]: the response when it answers true. *)
Definition route (router : t) (request : SwHttpRequest) (response : SwHttpResponse.t) (applyResponseFilters : bool) : option SwHttpResponse.t :=
  let filtered request response := if applyResponseFilters then applyResponseFilters_ router request response else response in
  match shouldRedirectTrailingSlash_ router request response with
  | Some response => Some (filtered request response)
  | None =>
      match lookupRoute router request with
      | Found entry params =>
          let routedRequest := set_pathParams params request in
          let response :=
            match callback entry with
            | Some callback => callback routedRequest
            | None => withClose request (swHttpTextResponse 500 (str "Async route requires async dispatch") plainText)
            end in
          Some (filtered routedRequest response)
      | NotFound true allowedMethods => Some (filtered request (methodNotAllowed request allowedMethods))
      | NotFound false _ =>
          match m_notFoundHandler router with
          | Some handler => Some (filtered request (handler request))
          | None => None
          end
      end
  end.

Inductive dispatched :=
| NotRouted
| Responded (response : SwHttpResponse.t)
| Started (callback : AsyncCallback) (request : SwHttpRequest) (filtered : SwHttpResponse.t -> SwHttpResponse.t).

(** [routeAsync] with a responder. *)
Definition routeAsync (router : t) (request : SwHttpRequest) (applyResponseFilters : bool) : dispatched :=
  let filtered request response := if applyResponseFilters then applyResponseFilters_ router request response else response in
  match shouldRedirectTrailingSlash_ router request SwHttpResponse.make with
  | Some response => Responded (filtered request response)
  | None =>
      match lookupRoute router request with
      | Found entry params =>
          let routedRequest := set_pathParams params request in
          match asyncCallback entry, callback entry with
          | Some asyncCallback, _ => Started asyncCallback routedRequest (filtered routedRequest)
          | None, Some callback => Responded (filtered routedRequest (callback routedRequest))
          | None, None => Responded (filtered routedRequest (withClose request (swHttpTextResponse 500 (str "Route callback missing") plainText)))
          end
      | NotFound true allowedMethods => Responded (filtered request (methodNotAllowed request allowedMethods))
      | NotFound false _ =>
          match m_notFoundHandler router with
          | Some handler => Responded (filtered request (handler request))
          | None => NotRouted
          end
      end
  end.

Definition willRouteAsync (router : t) (request : SwHttpRequest) : bool :=
  match shouldRedirectTrailingSlash_ router request SwHttpResponse.make with
  | Some _ => false
  | None =>
      match lookupRoute router request with
      | Found entry _ => isAsync entry
      | NotFound _ _ => false
      end
  end.

End Router.

End SwHttpRouter.
