(* ===== verification/HttpRequestLine.v ===== *)
(** A client asks with a request line for a URL of this host: what the parser of
    HttpParser.v reads of it. *)
From Stdlib Require Import ZArith Lia Strings.Byte.
From stdpp Require Import base list strings numbers gmap.
From S2P Require Import Prelude SwString HttpTypes HttpParser.

Import SwString SwHttpTypes.

Module RequestLine.

Section Asking.

Context `{MS : MultipartStream}.

(** The line a client asks with, when it is given a URL of this host. *)
Definition requestLine (method target : list byte) : list byte := method ++ str " " ++ target ++ str " HTTP/1.1".

(** A byte a target may hold; and one that also stands for itself in a path. *)
Definition targetByte (c : byte) : bool := negb ((b2z c <=? 0x20) || (b2z c =? 0x7f) || bool_decide (c = x23)).

Definition plainByte (c : byte) : bool := targetByte c && negb (bool_decide (c ∈ [x3f; x25])).

(** A target that fits into the request line. *)
Definition line_ok (s : SwHttpParser.t) (method target : list byte) : Prop :=
  SwHttpParser.isValidToken_ method = true /\ zlen (requestLine method target) < 2147483648 /\
  zlen (requestLine method target) <= maxRequestLineBytes (SwHttpParser.m_limits s).

Lemma decode_plain p : Forall plainByte p -> swHttpPercentDecode p false = Some p.
Proof using Type.
  induction 1 as [|c p Hc _ IH]; [done|]. cbn [swHttpPercentDecode andb]. rewrite decide_False; [by rewrite IH|].
  intros ->. by vm_compute in Hc.
Qed.

Lemma target_blank c : targetByte c -> isBlank c = false.
Proof using Type. by destruct c. Qed.

Lemma method_spaceless method : SwHttpParser.isValidToken_ method = true -> x20 ∉ method.
Proof using Type.
  unfold SwHttpParser.isValidToken_. rewrite andb_true_iff, forallb_forall. intros [_ H] Hin%list_elem_of_In. apply H in Hin. by vm_compute in Hin.
Qed.

Lemma target_spaceless target : Forall targetByte target -> x20 ∉ target.
Proof using Type. rewrite list.Forall_forall. intros H Hin%H. by vm_compute in Hin. Qed.

Lemma target_valid target : target <> [] -> Forall targetByte target -> SwHttpParser.isValidRequestTarget_ target = true.
Proof using Type.
  intros Hn H. unfold SwHttpParser.isValidRequestTarget_. destruct target; [done|]. apply forallb_forall. intros c Hc%list_elem_of_In.
  rewrite list.Forall_forall in H. by apply Is_true_true, (H c).
Qed.

Lemma plain_target p : Forall plainByte p -> Forall targetByte p.
Proof using Type. intros H. eapply Forall_impl; [exact H|]. intros c Hc. apply andb_prop_elim in Hc. tauto. Qed.

Lemma requestLine_length method target : zlen (requestLine method target) = zlen method + zlen target + 10.
Proof using Type. unfold requestLine. rewrite !zlen_app. change (zlen (str " ")) with 1. change (zlen (str " HTTP/1.1")) with 9. lia. Qed.

Lemma requestLine_protocol method target : drop (Z.to_nat (zlen method + 1 + zlen target + 1)) (requestLine method target) = str "HTTP/1.1".
Proof using Type.
  replace (Z.to_nat (zlen method + 1 + zlen target + 1)) with (length (method ++ str " " ++ target ++ str " ")) by (rewrite !length_app; simpl; lia).
  replace (requestLine method target) with ((method ++ str " " ++ target ++ str " ") ++ str "HTTP/1.1") by (unfold requestLine; by rewrite <- !app_assoc).
  by rewrite drop_app_length.
Qed.

(** Where the spaces are. *)
Lemma requestLine_spaces method target : x20 ∉ method -> x20 ∉ target -> zlen (requestLine method target) < 2147483648 ->
  indexOf (str " ") 0 (requestLine method target) = zlen method /\
  indexOf (str " ") (zlen method + 1) (requestLine method target) = zlen method + 1 + zlen target /\
  indexOf (str " ") (zlen method + 1 + zlen target + 1) (requestLine method target) = -1.
Proof using Type.
  intros Hm Ht Hs. rewrite requestLine_length in Hs. split; [apply indexOf_char; [done|lia]|]. split.
  - unfold requestLine. rewrite (app_assoc method). replace (zlen method + 1) with (zlen (method ++ str " ")) by (rewrite zlen_app; simpl; lia).
    apply indexOf_char_from; [done|]. rewrite zlen_app. change (zlen (str " ")) with 1. lia.
  - unfold indexOf, findFrom. rewrite requestLine_protocol. by destruct (_ <=? _).
Qed.

(** What is between them. *)
Lemma requestLine_pieces method target : target <> [] -> zlen (requestLine method target) < 2147483648 ->
  left (zlen method) (requestLine method target) = method /\
  mid (zlen method + 1) (zlen method + 1 + zlen target - zlen method - 1) (requestLine method target) = target /\
  midFrom (zlen method + 1 + zlen target + 1) (requestLine method target) = str "HTTP/1.1".
Proof using Type.
  intros Ht Hs. split; [apply left_app|]. split; [|by rewrite midFrom_drop, requestLine_protocol by lia].
  unfold requestLine in *. rewrite (app_assoc method) in *. replace (zlen method + 1) with (zlen (method ++ str " ")) at 1 by (rewrite zlen_app; simpl; lia).
  replace (zlen method + 1 + zlen target - zlen method - 1) with (zlen target) by lia. by apply mid_app.
Qed.

(** The target is taken apart at its first question mark. *)
Lemma parse_target p q s : p = x2f :: drop 1 p -> Forall plainByte p -> (q = [] \/ q = x3f :: drop 1 q) -> Forall targetByte q -> zlen (p ++ q) < 2147483648 ->
  SwHttpParser.parseTarget_ (p ++ q) s =
  (Ok true, SwHttpParser.onRequest (fun r => set_queryParams (swHttpParseQueryString (drop 1 q)) (set_queryString (drop 1 q) (set_path (swHttpNormalizePath p) r))) s).
Proof using Type.
  intros Hp Hplain Hq Hquery Hs. unfold SwHttpParser.parseTarget_.
  rewrite trimmed_id.
  2: { apply Forall_app. split; [apply plain_target in Hplain|]; (eapply Forall_impl; [eassumption|]; intros c; apply target_blank). }
  assert (startsWith (str "http://") (toLower (p ++ q)) || startsWith (str "https://") (toLower (p ++ q)) = false) as -> by by rewrite Hp.
  change (str "?") with [x3f]. assert (x3f ∉ p) as Hno by (rewrite list.Forall_forall in Hplain; intros H%Hplain; by vm_compute in H).
  assert (isEmpty p = false) as Hne by by rewrite Hp. rewrite zlen_app in Hs. destruct Hq as [->|Hq].
  - rewrite app_nil_r, indexOf_absent by done. change (0 <=? -1) with false. cbv iota. rewrite Hne, decode_plain by done. done.
  - destruct q as [|c query]; [done|]. injection Hq as ->. cbn [drop] in *.
    rewrite indexOf_char by (done || lia). destruct (Z.leb_spec 0 (zlen p)); [|lia]. cbv iota.
    rewrite left_app, midFrom_drop by (rewrite ?zlen_app; lia). rewrite Hne, decode_plain by done.
    replace (Z.to_nat (zlen p + 1)) with (length (p ++ [x3f])) by (rewrite length_app; simpl; lia). by rewrite (cons_middle x3f p query), app_assoc, drop_app_length.
Qed.

(** The whole line is accepted. *)
Lemma line_parsed method p q s : line_ok s method (p ++ q) -> p = x2f :: drop 1 p -> Forall plainByte p ->
  (q = [] \/ q = x3f :: drop 1 q) -> Forall targetByte q ->
  exists s', SwHttpParser.parseRequestLine_line (requestLine method (p ++ q)) s = (Ok true, s') /\
    let request := SwHttpParser.m_currentRequest s' in
    SwHttpTypes.method request = toUpper method /\ path request = swHttpNormalizePath p /\ queryString request = drop 1 q /\
    queryParams request = swHttpParseQueryString (drop 1 q).
Proof using Type.
  intros (Hm & Hs & Hl) Hp Hplain Hq Hquery. set (target := p ++ q) in *.
  assert (Forall targetByte target) as Ht by (apply Forall_app; split; [by apply plain_target|done]).
  assert (target <> []) as Hne by (unfold target; by rewrite Hp). pose proof (target_spaceless _ Ht) as Hsp. pose proof (method_spaceless _ Hm) as Hsm.
  assert (0 < zlen method) as Hm0 by (destruct method; [done|simpl; lia]). assert (0 < zlen target) as Ht0 by (destruct target; [done|simpl; lia]).
  destruct (requestLine_spaces method target Hsm Hsp Hs) as (I1 & I2 & I3). destruct (requestLine_pieces method target Hne Hs) as (P1 & P2 & P3).
  pose proof (requestLine_length method target) as Elen. unfold SwHttpParser.parseRequestLine_line. m_run. unfold size.
  destruct (Z.ltb_spec (maxRequestLineBytes (SwHttpParser.m_limits s)) (zlen (requestLine method target))); [lia|].
  rewrite I1. destruct (Z.leb_spec 0 (zlen method)); [|lia]. rewrite I2. destruct (Z.leb_spec 0 (zlen method + 1 + zlen target)); [|lia]. rewrite I3.
  destruct (Z.leb_spec (zlen method) 0); [lia|]. destruct (Z.leb_spec (zlen method + 1 + zlen target) (zlen method + 1)); [lia|].
  rewrite to_int_small by lia. destruct (Z.leb_spec (zlen (requestLine method target)) (zlen method + 1 + zlen target + 1)); [lia|]. cbn [orb].
  rewrite P1, P2, P3.
  rewrite Hm, target_valid by done. change (eqb (str "HTTP/1.1") (str "HTTP/1.0")) with false. change (eqb (str "HTTP/1.1") (str "HTTP/1.1")) with true.
  change (0 <=? -1) with false. cbn [negb orb andb]. cbv beta. unfold target. rewrite parse_target; [|done..|].
  - by eexists.
  - fold target. lia.
Qed.

End Asking.

End RequestLine.
