(* ===== verification/HttpRouterSpec.v ===== *)
(** What the router of HttpRouter.v does: paths and their segments, the choice of a
    route, URLs that find their way back, redirects. *)
From Stdlib Require Import ZArith Lia Strings.Byte Sorting.Sorted.
From stdpp Require Import base list strings numbers gmap.
From S2P Require Import Prelude SwString HttpTypes HttpParser HttpMultipart HttpRouter HttpRequestLine.

Import SwString.
Import SwHttpTypes.
Import RequestLine.

Module RouterSpec.

Import SwHttpRouter.
Import SwHttpResponse (make, set_status, set_reason, set_headers, set_body, set_closeConnection, swHttpStatusReason, swHttpTextResponse, plainText).

(** ** Paths *)

Definition slash : byte := x2f.

(** What stands between slashes, empty parts left out. *)
Definition components (s : list byte) : list (list byte) := List.filter (fun part => negb (isEmpty part)) (split slash s).

Lemma split_loop_app part a b :
  List.filter (fun p => negb (isEmpty p)) (split_loop slash part (a ++ slash :: b)) =
  List.filter (fun p => negb (isEmpty p)) (split_loop slash part a) ++ components b.
Proof.
  revert part. induction a as [|c a IH]; intros part.
  - cbn [app split_loop]. rewrite decide_True by done. by destruct part.
  - cbn [app split_loop]. destruct (decide (c = slash)); [|apply IH]. cbn [List.filter]. rewrite IH. by destruct (negb (isEmpty part)).
Qed.

Lemma components_app a b : components (a ++ slash :: b) = components a ++ components b.
Proof. apply split_loop_app. Qed.

Lemma components_slash a : components (slash :: a) = components a.
Proof. apply (components_app []). Qed.

Lemma components_replace s : components (replace (str "//") (str "/") s) = components s.
Proof.
  unfold replace. generalize (length s) as fuel. intros fuel. revert s. induction fuel as [|fuel IH]; intros s; [done|]. cbn [replace_loop].
  destruct (find (str "//") s) as [i|] eqn:Ef; [|done]. apply find_Some in Ef as (_ & _ & Es). rewrite Es at 3.
  change (str "/" ++ ?x) with (slash :: x). change (str "//" ++ ?x) with (slash :: slash :: x).
  by rewrite !components_app, components_slash, IH.
Qed.

Lemma components_collapse fuel s : components (collapse_loop fuel s) = components s.
Proof.
  revert s. induction fuel as [|fuel IH]; intros s; [done|]. cbn [collapse_loop]. destruct (contains _ _); [|done]. by rewrite IH, components_replace.
Qed.

Lemma startsWith_slash s : startsWith (str "/") s = true <-> exists t, s = slash :: t.
Proof. unfold startsWith. apply hasPrefix_spec. Qed.

Lemma components_normalize p : components (swHttpNormalizePath p) = components p.
Proof.
  unfold swHttpNormalizePath. destruct p as [|c p]; [done|]. cbn [isEmpty]. set (q := if startsWith _ _ then _ else _).
  assert (components q = components (c :: p)) as Hq by (unfold q; destruct (startsWith _ _); [done|apply components_slash]).
  assert (components (collapse_loop (length q) q) = components (c :: p)) as Hc by by rewrite components_collapse.
  destruct (collapse_loop (length q) q) eqn:Ec; [|exact Hc]. done.
Qed.

(** Normalising a path makes no difference to its parts. *)
Lemma splitPath_components p : splitPath_ p = components p.
Proof.
  unfold splitPath_. rewrite <-components_normalize. destruct (eqb _ _) eqn:E; [|done]. apply bool_decide_eq_true in E. by rewrite E.
Qed.

Lemma replace_loop_length fuel s : (length (replace_loop fuel (str "//") (str "/") s) <= length s)%nat /\
  (fuel <> O -> contains (str "//") s = true -> (length (replace_loop fuel (str "//") (str "/") s) < length s)%nat).
Proof.
  revert s. induction fuel as [|fuel IH]; intros s; [split; [done|by intros []]|]. cbn [replace_loop]. unfold contains.
  destruct (find (str "//") s) as [i|] eqn:Ef; [|by split]. apply find_Some in Ef as (Hi & Hl & Es).
  change (zlen (str "//")) with 2 in Hl. change (length (str "//")) with 2%nat in *. destruct (IH (drop (Z.to_nat i + 2) s)) as [Hle _]. revert Hle.
  rewrite !length_app, length_take, length_drop. change (length (str "/")) with 1%nat. split; [|intros _ _]; lia.
Qed.

Lemma collapse_no_double fuel s : (length s <= fuel)%nat -> contains (str "//") (collapse_loop fuel s) = false.
Proof.
  revert s. induction fuel as [|fuel IH]; intros s Hf; [by destruct s; [|simpl in Hf; lia]|]. cbn [collapse_loop].
  destruct (contains (str "//") s) eqn:Ec; [|done]. apply IH. unfold replace.
  destruct s as [|c s]; [done|]. destruct (replace_loop_length (length (c :: s)) (c :: s)) as [_ Hlt]. specialize (Hlt ltac:(done) Ec). lia.
Qed.

Lemma replace_starts s : startsWith (str "/") s = true -> startsWith (str "/") (replace (str "//") (str "/") s) = true.
Proof.
  rewrite startsWith_slash. intros [t ->]. unfold replace. cbn [length replace_loop]. destruct (find _ _) as [i|] eqn:Ef; [|done].
  destruct (Z.to_nat i) as [|n]; [done|]. done.
Qed.

Lemma collapse_starts fuel s : startsWith (str "/") s = true -> startsWith (str "/") (collapse_loop fuel s) = true.
Proof.
  revert s. induction fuel as [|fuel IH]; intros s Hs; [done|]. cbn [collapse_loop]. destruct (contains _ _); [|done]. by apply IH, replace_starts.
Qed.

(** A path that begins with one slash, and has no two in a row. *)
Definition normal_path (p : list byte) : Prop := startsWith (str "/") p = true /\ contains (str "//") p = false.

Lemma collapse_normal s : startsWith (str "/") s = true -> normal_path (collapse_loop (length s) s).
Proof. intros Hs. split; [by apply collapse_starts|by apply collapse_no_double]. Qed.

Lemma normalize_normal p : normal_path (swHttpNormalizePath p).
Proof.
  unfold swHttpNormalizePath. destruct p as [|c p]; [by split|]. cbn [isEmpty]. set (q := if startsWith _ _ then _ else _).
  assert (startsWith (str "/") q = true) as Hq by (unfold q; destruct (startsWith (str "/") (c :: p)) eqn:E; done).
  destruct (collapse_normal q Hq) as [H1 H2]. destruct (collapse_loop (length q) q) eqn:E; [by split|]. by split.
Qed.

Lemma normalize_id p : normal_path p -> swHttpNormalizePath p = p.
Proof.
  intros [H1 H2]. unfold swHttpNormalizePath. destruct p as [|c p]; [done|]. cbn [isEmpty]. rewrite H1.
  assert (collapse_loop (length (c :: p)) (c :: p) = c :: p) as ->; [|done]. cbn [length collapse_loop]. by rewrite H2.
Qed.

Lemma contains_app sub a b : contains sub (a ++ b) = false -> contains sub a = false.
Proof. unfold contains. destruct (find sub a) eqn:E; [|done]. by rewrite (find_app _ _ _ _ E). Qed.

(** Two slashes in a row. *)
Lemma contains_double s : contains (str "//") s = true <-> exists a b, s = a ++ slash :: slash :: b.
Proof.
  unfold contains. split.
  - destruct (find _ s) eqn:E; [|done]. intros _. apply find_Some in E as (_ & _ & ->). by eexists _, _.
  - intros (a & b & ->). change (a ++ slash :: slash :: b) with (a ++ str "//" ++ b). by destruct (find_occurs (str "//") a b) as [i ->].
Qed.

Lemma endsWith_slash s : endsWith (str "/") s = true <-> exists t, s = t ++ [slash].
Proof.
  unfold endsWith, size. change (zlen (str "/")) with 1. change (length (str "/")) with 1%nat. destruct (Z.ltb_spec (zlen s) 1).
  - split; [done|]. intros [t ->]. rewrite zlen_app in *. simpl in *. lia.
  - unfold eqb. rewrite bool_decide_eq_true. split.
    + intros E. exists (take (length s - 1) s). change [slash] with (str "/"). by rewrite <-E, take_drop.
    + intros [t ->]. rewrite length_app. replace (length t + length [slash] - 1)%nat with (length t) by (simpl; lia). by rewrite drop_app_length.
Qed.

Lemma chop_snoc t c : chop 1 (t ++ [c]) = t.
Proof. unfold chop. rewrite length_app. replace (length t + length [c] - Z.to_nat 1)%nat with (length t) by (simpl; lia). by rewrite take_app_length. Qed.

(** ** Redirects *)

Section Redirects.

Context {AsyncCallback : Type}.
Implicit Types (router : @t AsyncCallback) (request : SwHttpRequest).

(** The path the policy leads to. *)
Lemma redirect_cases router request response :
  match shouldRedirectTrailingSlash_ router request response with
  | None => True
  | Some redirect => exists path', normal_path path' /\ components path' = components (path request) /\ path' <> str "/" /\
      (match m_trailingSlashPolicy router with Ignore => False | RedirectToNoSlash => endsWith (str "/") path' = false | RedirectToSlash => endsWith (str "/") path' = true end) /\
      redirect = set_closeConnection (negb (keepAlive request)) (set_body [] (set_headers (<[str "content-length" := str "0"]> (<[str "location" := path' ++ (if isEmpty (queryString request) then [] else str "?" ++ queryString request)]> (SwHttpResponse.headers response)))
        (set_reason (swHttpStatusReason 308) (set_status 308 response))))
  end.
Proof.
  unfold shouldRedirectTrailingSlash_. pose proof (normalize_normal (path request)) as [H1 H2]. pose proof (components_normalize (path request)) as Hc.
  set (p := swHttpNormalizePath (path request)) in *. destruct (m_trailingSlashPolicy router); [done| |]; (destruct (eqb p (str "/")) eqn:Ep; [done|]; apply bool_decide_eq_false in Ep).
  - destruct (endsWith (str "/") p) eqn:Ee; [|done]. apply endsWith_slash in Ee as [q Eq]. rewrite Eq, chop_snoc.
    assert (q <> []) as Hq by (intros ->; by rewrite Eq in Ep).
    assert (endsWith (str "/") q = false) as Hend.
    { destruct (endsWith (str "/") q) eqn:E2; [|done]. apply endsWith_slash in E2 as [r Er]. rewrite <-H2. symmetry. apply contains_double.
      exists r, []. by rewrite Eq, Er, <-app_assoc. }
    exists q. split; [split|split_and!].
    + rewrite Eq in H1. apply startsWith_slash in H1 as [t Et]. apply startsWith_slash. destruct q as [|c q]; [done|]. injection Et as -> _. by exists q.
    + rewrite Eq in H2. by eapply contains_app.
    + rewrite <-Hc, Eq, components_app. by rewrite app_nil_r.
    + intros ->. by rewrite (proj2 (endsWith_slash (str "/"))) in Hend by (by exists []).
    + done.
    + done.
  - destruct (endsWith (str "/") p) eqn:Ee; [done|]. cbn [negb]. exists (p ++ str "/"). split; [split|split_and!].
    + apply startsWith_slash in H1 as [t Et]. apply startsWith_slash. rewrite Et. by eexists.
    + destruct (contains (str "//") (p ++ str "/")) eqn:E2; [|done]. apply contains_double in E2 as (a & b & E2). exfalso.
      destruct b as [|c b] using rev_ind.
      * change (p ++ str "/") with (p ++ [slash]) in E2. replace (a ++ [slash; slash]) with ((a ++ [slash]) ++ [slash]) in E2 by by rewrite <-app_assoc.
        apply app_inj_tail in E2 as [E2 _]. rewrite (proj2 (endsWith_slash p)) in Ee by (by exists a). done.
      * replace (a ++ slash :: slash :: b ++ [c]) with ((a ++ slash :: slash :: b) ++ [c]) in E2 by by rewrite <-app_assoc.
        apply app_inj_tail in E2 as [E2 _]. rewrite (proj2 (contains_double p)) in H2 by (by eexists _, _). done.
    + rewrite <-Hc. change (p ++ str "/") with (p ++ slash :: []). rewrite components_app. by rewrite app_nil_r.
    + intros E. apply (f_equal length) in E. rewrite length_app in E. apply startsWith_slash in H1 as [t Et]. rewrite Et in E. simpl in E. lia.
    + apply endsWith_slash. by exists p.
    + done.
Qed.

(** A normal path that ends as the policy wants is left alone. *)
Lemma redirect_done router request response : normal_path (path request) ->
  (match m_trailingSlashPolicy router with Ignore => True | RedirectToNoSlash => endsWith (str "/") (path request) = false | RedirectToSlash => endsWith (str "/") (path request) = true end) ->
  shouldRedirectTrailingSlash_ router request response = None.
Proof.
  intros Hp Hend. unfold shouldRedirectTrailingSlash_. destruct (m_trailingSlashPolicy router); [done| |];
    (rewrite normalize_id by done; rewrite Hend; by destruct (eqb _ _)).
Qed.

(** A normal path is a target. *)
Lemma normal_target p : normal_path p -> p = slash :: drop 1 p.
Proof. intros [[t ->]%startsWith_slash _]. done. Qed.

(** C25: a redirect stays on this host, and is final.  When the router redirects a
    request for its trailing slash, the answer is 308 with a location on this host, that
    is, a path that begins with one slash and has no two in a row, followed by the query
    string as it was; the path has the same parts as the one asked for.  The path stands
    in the location as it was decoded.  If it has no question mark, percent sign, number
    sign, blank or control character, and the query string has no number sign, blank or
    control character, then the parser accepts a request line for the location, within
    the limit for its length, reads the path and the query string back from it, and the
    router does not redirect that request again. *)
Theorem redirect_safe `{MS : MultipartStream} router request response redirect :
  shouldRedirectTrailingSlash_ router request response = Some redirect -> exists path' location,
  SwHttpResponse.status redirect = 308 /\
  SwHttpResponse.headers redirect !! str "location" = Some location /\
  location = path' ++ (if isEmpty (queryString request) then [] else str "?" ++ queryString request) /\
  normal_path path' /\ splitPath_ path' = splitPath_ (path request) /\
  (Forall plainByte path' -> Forall targetByte (queryString request) -> forall asked s, line_ok s asked location ->
   exists s', SwHttpParser.parseRequestLine_line (requestLine asked location) s = (Ok true, s') /\
     let again := SwHttpParser.m_currentRequest s' in
     path again = path' /\ queryString again = queryString request /\
     forall response', shouldRedirectTrailingSlash_ router again response' = None).
Proof.
  intros H. pose proof (redirect_cases router request response) as Hc. rewrite H in Hc. destruct Hc as (path' & Hn & Hs & _ & Hend & ->).
  set (query := if isEmpty (queryString request) then [] else str "?" ++ queryString request).
  exists path', (path' ++ query). split; [done|]. split.
  { cbn. rewrite lookup_insert_ne by done. by rewrite lookup_insert_eq. }
  split; [done|]. split; [done|]. rewrite !splitPath_components. split; [done|]. intros Hp Hq asked s Hl.
  assert ((query = [] \/ query = x3f :: drop 1 query) /\ Forall targetByte query /\ drop 1 query = queryString request) as (Q1 & Q2 & Q3).
  { subst query. destruct (queryString request) as [|c q]; cbn [isEmpty]; [split; [by left|by split]|]. split; [by right|]. split; [by constructor|done]. }
  destruct (line_parsed asked path' query s Hl (normal_target _ Hn) Hp Q1 Q2) as (s' & E & _ & E1 & E2 & _). exists s'. split; [exact E|].
  rewrite normalize_id in E1 by done. cbv zeta. split; [done|]. split; [congruence|]. intros response'. apply redirect_done; rewrite E1; [done|].
  by destruct (m_trailingSlashPolicy router).
Qed.

End Redirects.

(** ** The choice of a route *)

Section Choice.

Context {AsyncCallback : Type}.

Abbreviation Entry := (@SwHttpRouteEntry AsyncCallback).
Abbreviation Callback := (SwHttpRequest -> SwHttpResponse.t).

(** The path and the method of a request are an entry's. *)
Definition matches (parts : list (list byte)) (method : list byte) (entry : Entry) : bool :=
  bool_decide (is_Some (matchSegments_ (segments entry) parts ∅)) && methodMatch entry method.

(** The path is, the method is not. *)
Definition elsewhere (parts : list (list byte)) (method : list byte) (entry : Entry) : bool :=
  bool_decide (is_Some (matchSegments_ (segments entry) parts ∅)) && negb (methodMatch entry method).

Fixpoint firstOf (p : Entry -> bool) (routes : list Entry) : option Entry :=
  match routes with
  | [] => None
  | entry :: routes' => if p entry then Some entry else firstOf p routes'
  end.

(** The methods to allow, each once. *)
Definition methodsOf (routes : list Entry) : list (list byte) :=
  fold_left (fun methods entry => if eqb (entry_method entry) (str "*") then methods else appendUniqueMethod_ methods (entry_method entry)) routes [].

Lemma findRoute_first parts method (routes : list Entry) other allowed :
  findRoute parts method routes other allowed =
  match firstOf (matches parts method) routes with
  | Some entry => Found entry (default ∅ (matchSegments_ (segments entry) parts ∅))
  | None => NotFound (other || existsb (elsewhere parts method) routes)
      (fold_left (fun methods entry => if eqb (entry_method entry) (str "*") then methods else appendUniqueMethod_ methods (entry_method entry))
        (List.filter (elsewhere parts method) routes) allowed)
  end.
Proof.
  revert other allowed. induction routes as [|entry routes IH]; intros other allowed; cbn [findRoute firstOf existsb List.filter fold_left]; [by rewrite orb_false_r|].
  unfold matches at 1, elsewhere at 1 3. destruct (matchSegments_ (segments entry) parts ∅) as [params|] eqn:E.
  - rewrite bool_decide_true by by eexists. cbn [andb]. destruct (methodMatch entry method); cbn [negb]; [by rewrite E|].
    rewrite IH. destruct (firstOf _ routes); [done|]. cbn [fold_left orb]. by rewrite orb_true_r.
  - rewrite bool_decide_false by (by intros []). cbn [andb]. by rewrite IH.
Qed.

(** Routes by falling score. *)
Fixpoint descending (routes : list Entry) : Prop :=
  match routes with
  | [] => True
  | entry :: routes' => Forall (fun e => specificityScore e <= specificityScore entry) routes' /\ descending routes'
  end.

Lemma insertRoute_In (e x : Entry) routes : In x (insertRoute e routes) <-> x = e \/ In x routes.
Proof.
  induction routes as [|r routes IH]; simpl; [intuition|]. destruct (_ <? _); simpl; [intuition|]. rewrite IH. intuition.
Qed.

Lemma insertRoute_descending (e : Entry) routes : descending routes -> descending (insertRoute e routes).
Proof.
  induction routes as [|r routes IH]; [by repeat constructor|]. intros [Hr Hd]. cbn [insertRoute]. destruct (Z.ltb_spec (specificityScore r) (specificityScore e)).
  - split; [|done]. constructor; [lia|]. eapply Forall_impl; [exact Hr|]. intros x Hx. simpl in Hx. lia.
  - split; [|by apply IH]. apply List.Forall_forall. intros x [-> |Hx]%insertRoute_In; [done|]. rewrite List.Forall_forall in Hr. by apply Hr.
Qed.

(** The better of two: the later one only if it scores more. *)
Definition better (best : option Entry) (e : Entry) : option Entry :=
  match best with
  | Some b => if specificityScore b <? specificityScore e then Some e else best
  | None => Some e
  end.

Lemma firstOf_In p routes (e : Entry) : firstOf p routes = Some e -> In e routes /\ p e = true.
Proof. induction routes as [|r routes IH]; [done|]. simpl. destruct (p r) eqn:E; [intros [= <-]; auto|]. intros H. apply IH in H as []. auto. Qed.

Lemma firstOf_insert p (e : Entry) routes : descending routes ->
  firstOf p (insertRoute e routes) = if p e then better (firstOf p routes) e else firstOf p routes.
Proof.
  induction routes as [|r routes IH]; intros Hd; [simpl; by destruct (p e)|]. destruct Hd as [Hr Hd]. cbn [insertRoute].
  destruct (Z.ltb_spec (specificityScore r) (specificityScore e)) as [Hlt|Hge].
  - cbn [firstOf]. destruct (p e); [|done]. destruct (p r); cbn [better].
    + destruct (Z.ltb_spec (specificityScore r) (specificityScore e)); [done|lia].
    + destruct (firstOf p routes) as [b|] eqn:Eb; [|done]. apply firstOf_In in Eb as [Hb _]. rewrite List.Forall_forall in Hr. specialize (Hr b Hb). cbn [better].
      destruct (Z.ltb_spec (specificityScore b) (specificityScore e)); [done|lia].
  - cbn [firstOf]. rewrite IH by done. destruct (p r); [|done]. destruct (p e); [|done]. cbn [better].
    destruct (Z.ltb_spec (specificityScore r) (specificityScore e)); [lia|done].
Qed.

(** A registration. *)
Record Registration := mkRegistration {
  routeName : list byte;
  routeMethod : list byte;
  pattern : list byte;
  handler : Callback + AsyncCallback
}.

Definition register (router : t) (r : Registration) : t :=
  match handler r with
  | inl callback => addNamedRoute (routeName r) (routeMethod r) (pattern r) (Some callback) router
  | inr callback => addNamedRouteAsync (routeName r) (routeMethod r) (pattern r) (Some callback) router
  end.

(** The entry of a registration, if its pattern is well formed. *)
Definition entryOf (r : Registration) : option Entry :=
  let method := toUpper (trimmed (routeMethod r)) in
  let pattern := normalizePattern_ (pattern r) in
  '(segments, score) ← compilePattern_ pattern;
  Some (mkEntry (if isEmpty method then str "*" else method) pattern (trimmed (routeName r)) segments score
    (match handler r with inl _ => false | inr _ => true end)
    (match handler r with inl callback => Some callback | inr _ => None end)
    (match handler r with inl _ => None | inr callback => Some callback end)).

Definition registered (rs : list Registration) : t := fold_left register rs SwHttpRouter.make.

Lemma register_routes router r :
  m_routes (register router r) = match entryOf r with Some e => insertRoute e (m_routes router) | None => m_routes router end /\
  m_trailingSlashPolicy (register router r) = m_trailingSlashPolicy router.
Proof.
  unfold register, entryOf, addNamedRoute, addNamedRouteAsync, addEntry. cbv zeta. destruct (handler r);
    destruct (compilePattern_ _) as [[segs score]|]; by split.
Qed.

(** The entries in the order of their registration. *)
Definition entries (rs : list Registration) : list Entry := omap entryOf rs.

Lemma registered_snoc rs r : registered (rs ++ [r]) = register (registered rs) r.
Proof. unfold registered. by rewrite fold_left_app. Qed.

Lemma entries_snoc rs r : entries (rs ++ [r]) = entries rs ++ match entryOf r with Some e => [e] | None => [] end.
Proof. unfold entries. rewrite omap_app. cbn. by destruct (entryOf r). Qed.

Lemma registered_descending rs : descending (m_routes (registered rs)).
Proof.
  induction rs as [|r rs IH] using rev_ind; [done|]. rewrite registered_snoc, (proj1 (register_routes _ r)). destruct (entryOf r); [by apply insertRoute_descending|done].
Qed.

Lemma registered_In rs e : In e (m_routes (registered rs)) <-> In e (entries rs).
Proof.
  induction rs as [|r rs IH] using rev_ind; [done|]. rewrite registered_snoc, entries_snoc, (proj1 (register_routes _ r)), in_app_iff. destruct (entryOf r) as [e'|]; [|simpl; tauto].
  rewrite insertRoute_In, IH. simpl. intuition.
Qed.

(** The first of the best. *)
Lemma registered_choice p rs :
  match firstOf p (m_routes (registered rs)) with
  | Some e => p e = true /\ exists before after, entries rs = before ++ e :: after /\
      Forall (fun x => p x = true -> specificityScore x < specificityScore e) before /\
      Forall (fun x => p x = true -> specificityScore x <= specificityScore e) after
  | None => Forall (fun x => p x = false) (entries rs)
  end.
Proof.
  induction rs as [|r rs IH] using rev_ind; [constructor|]. rewrite registered_snoc, entries_snoc, (proj1 (register_routes _ r)).
  destruct (entryOf r) as [n|]; [|rewrite app_nil_r; exact IH]. rewrite firstOf_insert by apply registered_descending. destruct (p n) eqn:En.
  - unfold better. destruct (firstOf p (m_routes (registered rs))) as [b|].
    + destruct IH as (Hb & bs & as_ & Ee & Hbs & Has). destruct (Z.ltb_spec (specificityScore b) (specificityScore n)).
      * split; [done|]. exists (entries rs), []. split; [done|]. split; [|constructor]. rewrite Ee. apply Forall_app_2; [|constructor].
        -- eapply Forall_impl; [exact Hbs|]. intros x Hx Hp. specialize (Hx Hp). lia.
        -- done.
        -- eapply Forall_impl; [exact Has|]. intros x Hx Hp. specialize (Hx Hp). lia.
      * split; [done|]. exists bs, (as_ ++ [n]). rewrite Ee, <-app_assoc. split; [done|]. split; [done|]. apply Forall_app_2; [done|]. by repeat constructor.
    + split; [done|]. exists (entries rs), []. split; [done|]. split; [|constructor]. eapply Forall_impl; [exact IH|]. intros x Hx Hp. by rewrite Hx in Hp.
  - destruct (firstOf p (m_routes (registered rs))) as [b|].
    + destruct IH as (Hb & bs & as_ & Ee & Hbs & Has). split; [done|]. exists bs, (as_ ++ [n]). rewrite Ee, <-app_assoc. split; [done|]. split; [done|].
      apply Forall_app_2; [done|]. constructor; [|constructor]. by rewrite En.
    + apply Forall_app_2; [done|]. by constructor.
Qed.

(** *** The methods to allow *)

Abbreviation rising := (StronglySorted (fun a b => before a b = true)).

Lemma insertMethod_In m x methods : In x (insertMethod m methods) <-> x = m \/ In x methods.
Proof. induction methods as [|y methods IH]; simpl; [intuition|]. destruct (before m y); simpl; [intuition|]. rewrite IH. intuition. Qed.

Lemma insertMethod_rising m methods : rising methods -> ~ In m methods -> rising (insertMethod m methods).
Proof.
  induction 1 as [|y methods Hs IH Hall]; intros Hn; [by repeat constructor|]. cbn [insertMethod]. rewrite List.Forall_forall in Hall. destruct (before m y) eqn:E.
  - constructor; [by constructor; [|apply List.Forall_forall]|]. constructor; [done|]. apply List.Forall_forall. intros x Hx. eapply before_trans; [exact E|by apply Hall].
  - assert (before y m = true) as E2.
    { destruct (before y m) eqn:E2; [done|]. exfalso. apply Hn. left. by apply before_total. }
    constructor; [apply IH; intros H; apply Hn; by right|]. apply List.Forall_forall. intros x [-> |Hx]%insertMethod_In; [done|by apply Hall].
Qed.

Lemma appendUnique_spec methods m : rising methods ->
  rising (appendUniqueMethod_ methods m) /\ forall x, In x (appendUniqueMethod_ methods m) <-> x = m \/ In x methods.
Proof.
  intros Hs. unfold appendUniqueMethod_. destruct (bool_decide (m ∈ methods)) eqn:E.
  - apply bool_decide_eq_true, list_elem_of_In in E. split; [done|]. intros x. split; [auto|]. by intros [-> |].
  - apply bool_decide_eq_false in E. rewrite list_elem_of_In in E. split; [by apply insertMethod_rising|]. intros x. apply insertMethod_In.
Qed.

Lemma allowed_spec (routes : list Entry) allowed : rising allowed ->
  let methods := fold_left (fun methods entry => if eqb (entry_method entry) (str "*") then methods else appendUniqueMethod_ methods (entry_method entry)) routes allowed in
  rising methods /\ forall x, In x methods <-> In x allowed \/ exists e, In e routes /\ entry_method e = x /\ x <> str "*".
Proof.
  revert allowed. induction routes as [|e routes IH]; intros allowed Ha; cbn [fold_left].
  - split; [done|]. intros x. split; [auto|]. by intros [?|(? & [] & _)].
  - destruct (eqb (entry_method e) (str "*")) eqn:E.
    + apply bool_decide_eq_true in E. destruct (IH allowed Ha) as [H1 H2]. split; [done|]. intros x. rewrite H2. split; (intros [?|(e' & He & Hm & Hx)]; [by left|right]).
      * exists e'. split; [by right|done].
      * destruct He as [-> |He]; [congruence|]. by exists e'.
    + apply bool_decide_eq_false in E. destruct (appendUnique_spec allowed (entry_method e) Ha) as [Hr Hi]. destruct (IH _ Hr) as [H1 H2]. split; [done|]. intros x. rewrite H2, Hi. split.
      * intros [[-> |H]|(e' & He & Hm & Hx)]; [right; exists e; split; [by left|done]|by left|right; exists e'; split; [by right|done]].
      * intros [H|(e' & [-> |He] & Hm & Hx)]; [left; by right|left; by left|right; by exists e'].
Qed.

(** C22: the most specific route wins, and ties go to the one registered first.  Whatever
    routes were registered, in whatever order, the router's choice for a request is an
    entry for its path and method such that every such entry registered before it
    scores strictly less, and every one registered after it no more.  There is no
    choice exactly when no registered entry is for this path and method; then the
    router knows whether other methods have the path, and which: each once, in order. *)
Theorem most_specific_route rs request :
  let parts := splitPath_ (path request) in
  let method := toUpper (method request) in
  match lookupRoute (registered rs) request with
  | Found e params =>
      matchSegments_ (segments e) parts ∅ = Some params /\ methodMatch e method = true /\
      exists before after, entries rs = before ++ e :: after /\
        Forall (fun x => matches parts method x = true -> specificityScore x < specificityScore e) before /\
        Forall (fun x => matches parts method x = true -> specificityScore x <= specificityScore e) after
  | NotFound other allowed =>
      Forall (fun x => matches parts method x = false) (entries rs) /\
      (other = true <-> exists e, In e (entries rs) /\ elsewhere parts method e = true) /\
      rising allowed /\
      forall m, In m allowed <-> exists e, In e (entries rs) /\ elsewhere parts method e = true /\ entry_method e = m
  end.
Proof.
  intros parts m0. unfold lookupRoute. rewrite findRoute_first. fold parts m0. pose proof (registered_choice (matches parts m0) rs) as Hc.
  destruct (firstOf _ _) as [e|].
  - destruct Hc as [Hm Hc]. unfold matches in Hm. apply andb_true_iff in Hm as [[params Hp]%bool_decide_eq_true Hm]. rewrite Hp. split; [done|]. split; [done|exact Hc].
  - split; [done|]. destruct (allowed_spec (List.filter (elsewhere parts m0) (m_routes (registered rs))) [] (SSorted_nil _)) as [Hr Hi]. split; [|split; [exact Hr|]].
    + cbn [orb]. rewrite existsb_exists. split; intros (e & He & Hx); exists e; (split; [by apply registered_In|done]).
    + intros m. rewrite Hi. split.
      * intros [[]|(e & He & Hm & _)]. apply filter_In in He as [He Hx]. exists e. split; [by apply registered_In|done].
      * intros (e & He & Hx & Hm). right. exists e. split; [apply filter_In; split; [by apply registered_In|done]|]. split; [done|].
        unfold elsewhere, methodMatch in Hx. apply andb_true_iff in Hx as [_ Hx]. intros E. rewrite Hm, E in Hx. done.
Qed.

(** *** Both ways to dispatch *)

Definition entry_ok (e : Entry) : Prop :=
  if isAsync e then callback e = None /\ is_Some (asyncCallback e) else is_Some (callback e) /\ asyncCallback e = None.

Lemma registered_ok rs e : In e (entries rs) -> entry_ok e.
Proof.
  intros He. unfold entries in He. apply list_elem_of_In, list_elem_of_omap in He as (r & _ & Hr). unfold entryOf in Hr.
  destruct (compilePattern_ _) as [[segs score]|]; [|done]. injection Hr as <-. unfold entry_ok. cbn. destruct (handler r); by split.
Qed.

(** A router with these routes, filters, not-found handler and policy. *)
Definition same_routes (router : t) (rs : list Registration) : Prop := m_routes router = m_routes (registered rs).

(** C23: asynchronous dispatch agrees with synchronous dispatch.  Whatever the routes,
    filters, not-found handler and redirect policy: if [willRouteAsync] answers false,
    then [routeAsync] responds with what [route] answers, or both refuse; if it answers
    true, then [routeAsync] starts the asynchronous handler of the route chosen, with
    the request and its path parameters, and with the response filters laid over its
    responder. *)
Theorem dispatch_agrees router rs request filters : same_routes router rs ->
  if willRouteAsync router request then
    exists e params callback, lookupRoute router request = Found e params /\ asyncCallback e = Some callback /\
      routeAsync router request filters = Started callback (set_pathParams params request)
        (fun response => if (filters : bool) then applyResponseFilters_ router (set_pathParams params request) response else response)
  else routeAsync router request filters = match route router request make filters with Some response => Responded response | None => NotRouted end.
Proof.
  intros Hr. unfold willRouteAsync, routeAsync, route. destruct (shouldRedirectTrailingSlash_ router request make) as [redirect|]; [done|].
  destruct (lookupRoute router request) as [e params|other allowed] eqn:El; [|destruct other; [done|]; by destruct (m_notFoundHandler router)].
  assert (entry_ok e) as He.
  { unfold lookupRoute in El. rewrite findRoute_first in El. destruct (firstOf _ _) as [e'|] eqn:Ef; [|done]. injection El as -> _.
    apply firstOf_In in Ef as [Ef _]. rewrite Hr in Ef. apply registered_In in Ef. by eapply registered_ok. }
  unfold entry_ok in He. destruct (isAsync e).
  - destruct He as [Hc [callback Ha]]. exists e, params, callback. split; [done|]. split; [done|]. by rewrite Ha.
  - destruct He as [[callback Hc] Ha]. by rewrite Ha, Hc.
Qed.

End Choice.

(** ** URLs *)

(** *** Queries *)

Lemma percentEncode_plain s c : c ∈ percentEncode_ s -> c <> x26 /\ c <> x3d.
Proof.
  unfold percentEncode_. intros H. apply list_elem_of_In, in_flat_map in H as (d & _ & H). revert H. generalize c.
  clear. destruct d; vm_compute; intros c H; repeat (destruct H as [<-|H]; [done|]); done.
Qed.

Lemma percentEncode_character c rest : swHttpPercentDecode (percentEncode_ [c] ++ rest) true = cons c <$> swHttpPercentDecode rest true.
Proof. by destruct c. Qed.

Lemma percentEncode_decoded s : swHttpPercentDecode (percentEncode_ s) true = Some s.
Proof.
  induction s as [|c s IH]; [done|]. change (percentEncode_ (c :: s)) with (percentEncode_ ([c] ++ s)). unfold percentEncode_. rewrite flat_map_app.
  fold (percentEncode_ [c]) (percentEncode_ s). by rewrite percentEncode_character, IH.
Qed.

Lemma split_loop_clean d part a b : d ∉ a -> split_loop d part (a ++ d :: b) = (part ++ a) :: split_loop d [] b.
Proof.
  revert part. induction a as [|c a IH]; intros part Ha; cbn [app split_loop].
  - rewrite decide_True by done. by rewrite app_nil_r.
  - rewrite not_elem_of_cons in Ha. rewrite decide_False by (intros ->; by destruct Ha). rewrite IH by apply Ha. by rewrite <-app_assoc.
Qed.

Lemma split_loop_last d part a : d ∉ a -> split_loop d part a = if isEmpty (part ++ a) then [] else [part ++ a].
Proof.
  revert part. induction a as [|c a IH]; intros part Ha; cbn [split_loop]; [by rewrite app_nil_r|].
  rewrite not_elem_of_cons in Ha. rewrite decide_False by (intros ->; by destruct Ha). rewrite IH by apply Ha. by rewrite <-app_assoc.
Qed.

(** An encoded query is what a target may hold. *)
Lemma percentEncode_target s : Forall targetByte (percentEncode_ s).
Proof.
  unfold percentEncode_. induction s as [|c s IH]; [constructor|]. cbn [flat_map]. apply Forall_app. split; [|exact IH]. clear.
  by destruct c; repeat constructor.
Qed.

Lemma query_target first query : Forall targetByte (queryText first query).
Proof.
  revert first. induction query as [|[k v] query IH]; intros first; cbn [queryText]; [constructor|]. rewrite !Forall_app.
  split_and!; [by destruct first; constructor|apply percentEncode_target|by constructor|apply percentEncode_target|apply IH].
Qed.

Definition pairText (p : list byte * list byte) : list byte := percentEncode_ p.1 ++ str "=" ++ percentEncode_ p.2.

Lemma pairText_plain p : x26 ∉ pairText p.
Proof.
  unfold pairText. rewrite !not_elem_of_app. split_and!; [|refine (bool_decide_eq_false_1 _ _); reflexivity|];
    intros H; by destruct (percentEncode_plain _ _ H).
Qed.

Lemma queryText_pairs p ps : queryText true (p :: ps) = x3f :: pairText p ++ flat_map (fun p => x26 :: pairText p) ps.
Proof.
  destruct p as [k v]. assert (forall ps, queryText false ps = flat_map (fun p => x26 :: pairText p) ps) as H.
  { induction ps0 as [|[k' v'] ps0 IH]; [done|]. cbn [queryText flat_map]. rewrite IH. unfold pairText. cbn [fst snd app]. by rewrite <-!app_assoc. }
  cbn [queryText]. rewrite H. unfold pairText. cbn [fst snd app]. by rewrite <-?app_assoc.
Qed.

Lemma split_pairs p ps : split x26 (pairText p ++ flat_map (fun p => x26 :: pairText p) ps) = map pairText (p :: ps).
Proof.
  unfold split. revert p. induction ps as [|q ps IH]; intros p; cbn [flat_map map].
  - rewrite app_nil_r, split_loop_last by apply pairText_plain. cbn [app]. unfold pairText. by destruct (percentEncode_ p.1).
  - rewrite <-app_comm_cons, split_loop_clean by apply pairText_plain. cbn [app]. by rewrite IH.
Qed.

Lemma addQueryPair_text p m : zlen (pairText p) < 2147483648 -> addQueryPair (pairText p) m = <[p.1 := p.2]> m.
Proof.
  intros Hs. unfold addQueryPair. assert (isEmpty (pairText p) = false) as -> by (unfold pairText; by destruct (percentEncode_ p.1)).
  assert (indexOf (str "=") 0 (pairText p) = zlen (percentEncode_ p.1)) as ->.
  { apply indexOf_char; [|unfold pairText in Hs; rewrite zlen_app in Hs; lia]. intros H. by destruct (percentEncode_plain _ _ H). }
  destruct (Z.leb_spec 0 (zlen (percentEncode_ p.1))); [|lia]. cbv zeta. rewrite midFrom_drop by lia.
  unfold pairText at 1. rewrite left_app. replace (Z.to_nat (zlen (percentEncode_ p.1) + 1)) with (length (percentEncode_ p.1 ++ str "=")) by (rewrite length_app; simpl; lia).
  unfold pairText. rewrite (app_assoc _ (str "=")), drop_app_length. by rewrite !percentEncode_decoded.
Qed.

(** The parameters of a query come back, in their order. *)
Lemma query_parsed p ps : zlen (queryText true (p :: ps)) < 2147483648 ->
  exists query, queryText true (p :: ps) = x3f :: query /\
    swHttpParseQueryString query = fold_left (fun m q => <[q.1 := q.2]> m) (p :: ps) (∅ : StringMap).
Proof.
  rewrite queryText_pairs. intros Hs. eexists. split; [done|]. unfold swHttpParseQueryString. rewrite split_pairs.
  assert (Forall (fun q => zlen (pairText q) < 2147483648) (p :: ps)) as Hall.
  { cbn [length] in Hs. rewrite length_app in Hs. constructor; [lia|]. assert (zlen (flat_map (fun p => x26 :: pairText p) ps) < 2147483648) as Hs' by lia.
    clear Hs. induction ps as [|q ps IH]; [constructor|]. cbn [flat_map] in Hs'. rewrite length_app in Hs'. cbn [length] in Hs'. constructor; [lia|]. apply IH. lia. }
  clear Hs. generalize (∅ : StringMap). induction Hall as [|q qs Hq _ IH]; intros m; [done|]. cbn [map fold_left]. by rewrite addQueryPair_text, IH.
Qed.

(** *** Paths *)

(** A segment that stays one. *)
Definition clean (v : list byte) : Prop := v <> [] /\ slash ∉ v.

Lemma components_clean v : clean v -> components v = [v].
Proof. intros [H1 H2]. unfold components, split. rewrite split_loop_last by done. by destruct v. Qed.

Lemma split_loop_parts part s : slash ∉ part -> Forall clean (List.filter (fun p => negb (isEmpty p)) (split_loop slash part s)).
Proof.
  revert part. induction s as [|c s IH]; intros part Hp; cbn [split_loop].
  - destruct part; repeat constructor; done.
  - destruct (decide (c = slash)).
    + cbn [List.filter]. destruct part; cbn [isEmpty negb]; [|constructor; [done|]]; apply IH, not_elem_of_nil.
    + apply IH. rewrite not_elem_of_app. split; [done|]. rewrite not_elem_of_cons. split; [congruence|apply not_elem_of_nil].
Qed.

Lemma components_parts s : Forall clean (components s).
Proof. apply split_loop_parts, not_elem_of_nil. Qed.

(** What a URL path made of segments splits into. *)
Lemma urlPath_components first params parts p : urlPath first params parts = Some p ->
  exists vs, Forall2 (fun token v => urlSegment params token = Some v) parts vs /\
    components p = flat_map components vs /\ (first = false -> p = [] \/ exists q, p = slash :: q).
Proof.
  revert first p. induction parts as [|token parts IH]; intros first p; cbn [urlPath].
  - intros [= <-]. exists []. split; [constructor|]. split; [done|by left].
  - destruct (urlSegment params token) as [v|] eqn:Ev; [|done]. cbn [mbind option_bind]. destruct (urlPath false params parts) as [r|] eqn:Er; [|done].
    cbn [mbind option_bind]. intros [= <-]. destruct (IH _ _ Er) as (vs & Hvs & Hc & Hr). specialize (Hr eq_refl). exists (v :: vs). split; [by constructor|]. split.
    + assert (components (v ++ r) = components v ++ components r) as H.
      { destruct Hr as [-> |[q ->]]; [by rewrite !app_nil_r|]. by rewrite components_app, components_slash. }
      cbn [flat_map]. rewrite <-Hc, <-H. destruct first; [done|apply components_slash].
    + intros ->. right. by eexists.
Qed.

(** The parameters the router reads from a URL built with [params]: a wildcard's value
    without empty parts. *)
Fixpoint expected (params : StringMap) (segs : list RouteSegment) (out : StringMap) : StringMap :=
  match segs with
  | [] => out
  | LiteralSegment _ :: segs' => expected params segs' out
  | ParameterSegment name _ :: segs' => expected params segs' (<[name := default [] (params !! name)]> out)
  | WildcardSegment name :: _ => <[name := joinRest (components (default [] (params !! name)))]> out
  end.

(** The values of unconstrained parameters stay one segment each. *)
Definition reversible (params : StringMap) (segs : list RouteSegment) : Prop :=
  Forall (fun seg => match seg with ParameterSegment name None_ => forall v, params !! name = Some v -> clean v | _ => True end) segs.

(** A wildcard stands at the end of the pattern only. *)
Fixpoint wildcard_last (parts : list (list byte)) : Prop :=
  match parts with
  | [] => True
  | token :: parts' => (startsWith (str "*") token = true -> parts' = []) /\ wildcard_last parts'
  end.

Lemma isUuid_from_slash i v : isUuid_from i v = true -> slash ∉ v.
Proof.
  revert i. induction v as [|c v IH]; intros i; [intros _; apply not_elem_of_nil|]. cbn [isUuid_from]. rewrite andb_true_iff. intros [Hc Hv].
  rewrite not_elem_of_cons. split; [|by eapply IH]. intros <-. by destruct (_ || _).
Qed.

Lemma checkConstraint_clean constraint v : constraint <> None_ -> checkConstraint_ constraint v = true -> clean v.
Proof.
  intros Hn. unfold checkConstraint_. rewrite decide_False by done. destruct v as [|c v]; [done|]. cbn [isEmpty].
  set (w := c :: v). intros H. split; [done|]. destruct (decide (constraint = Uuid)).
  - apply andb_true_iff in H as [_ H]. by eapply isUuid_from_slash.
  - rewrite forallb_forall in H. intros Hin. apply list_elem_of_In in Hin. specialize (H _ Hin). by destruct constraint.
Qed.

Lemma match_url params parts segs score vs : compile_loop parts = Some (segs, score) -> Forall clean parts -> wildcard_last parts ->
  reversible params segs -> Forall2 (fun token v => urlSegment params token = Some v) parts vs ->
  forall out, matchSegments_ segs (flat_map components vs) out = Some (expected params segs out).
Proof.
  intros Hc Hp Hw Hr Hvs. revert segs score Hc Hp Hw Hr. induction Hvs as [|token v parts vs Hv Hvs IH]; intros segs score Hc Hp Hw Hr out.
  { by injection Hc as <- _. }
  apply Forall_cons_1 in Hp as [Ht Hp]. destruct Hw as [Hl Hw]. cbn [compile_loop] in Hc. unfold urlSegment in Hv. destruct (startsWith (str ":") token).
  - destruct (parseConstraint_ (midFrom 1 token)) as [[name constraint]|]; [|done]. cbn [mbind option_bind] in Hc, Hv.
    destruct (compile_loop parts) as [[segs' score']|]; [|done]. cbn [mbind option_bind] in Hc. injection Hc as <- _.
    destruct (params !! name) as [v0|] eqn:Ev; [|done]. cbn [mbind option_bind] in Hv. destruct (checkConstraint_ constraint v0) eqn:Ec; [|done]. injection Hv as ->.
    apply Forall_cons_1 in Hr as [Hn Hr]. assert (clean v) as Hcl.
    { destruct (decide (constraint = None_)) as [-> |Hne]; [by apply Hn|by eapply checkConstraint_clean]. }
    cbn [flat_map expected]. rewrite components_clean by done. cbn [app matchSegments_]. rewrite Ec, Ev. by eapply IH.
  - destruct (startsWith (str "*") token).
    + injection Hc as <- _. rewrite (Hl eq_refl) in Hvs. inversion Hvs; subst. cbn [flat_map expected matchSegments_]. rewrite app_nil_r.
      by rewrite Hv.
    + destruct (compile_loop parts) as [[segs' score']|]; [|done]. cbn [mbind option_bind] in Hc. injection Hc as <- _. injection Hv as <-.
      apply Forall_cons_1 in Hr as [_ Hr]. cbn [flat_map expected]. rewrite components_clean by done. cbn [app matchSegments_]. unfold eqb.
      rewrite bool_decide_true by done. by eapply IH.
Qed.

Section URLs.

Context {AsyncCallback : Type}.

(** The pattern of a name is that of an entry with this name. *)
Lemma named_entry (rs : list (@Registration AsyncCallback)) name pattern : m_namedPatterns (registered rs) !! name = Some pattern ->
  exists e, In e (entries rs) /\ entry_name e = name /\ entry_pattern e = pattern /\ compilePattern_ pattern = Some (segments e, specificityScore e).
Proof.
  induction rs as [|r rs IH] using rev_ind; [by cbn; rewrite lookup_empty|]. rewrite registered_snoc, entries_snoc. intros H.
  assert (m_namedPatterns (registered rs) !! name = Some pattern \/ exists e, entryOf r = Some e /\ entry_name e = name /\ entry_pattern e = pattern /\ compilePattern_ pattern = Some (segments e, specificityScore e)) as [Hold|(e & -> & He)].
  - revert H. unfold register, addNamedRoute, addNamedRouteAsync, addEntry, entryOf. cbv zeta. destruct (handler r);
      (destruct (compilePattern_ (normalizePattern_ _)) as [[segs score]|] eqn:Ec; [|by left]); cbn [m_namedPatterns];
      (destruct (isEmpty (trimmed (routeName r))); [by left|]);
      (destruct (decide (trimmed (routeName r) = name)) as [<-|Hne]; [rewrite lookup_insert_eq; intros [= <-]; right; by eexists|rewrite lookup_insert_ne by done; by left]).
  - destruct (IH Hold) as (e & He & Hrest). exists e. split; [apply in_app_iff; by left|done].
  - exists e. split; [apply in_app_iff; right; by left|done].
Qed.

(** C24: a URL built for a named route leads back to it.  When [buildUrl] succeeds, the
    URL is a path, normal, with a query behind it, and there is an entry of this name.  If
    the path - the pattern's own text and the values put into it, which are not encoded -
    has no question mark, percent sign, number sign, blank or control character, then the
    parser accepts a request line for the URL, within the limit for its length, and reads
    the path and the query parameters from it; and if moreover the route's wildcard, if
    any, is last in its pattern, and the values of its unconstrained parameters are not
    empty and hold no slash, then the entry's pattern matches the path of that request and
    gives every parameter its value back, the wildcard's without empty parts. *)
Theorem url_finds_its_route `{MS : MultipartStream} (rs : list (@Registration AsyncCallback)) name params query url asked s :
  buildUrl name params query (registered rs) = Some url -> line_ok s asked url ->
  exists p e, url = p ++ queryText true query /\ normal_path p /\ In e (entries rs) /\ entry_name e = name /\
    (Forall plainByte p -> exists s', SwHttpParser.parseRequestLine_line (requestLine asked url) s = (Ok true, s') /\
     let request := SwHttpParser.m_currentRequest s' in
     path request = p /\ queryParams request = fold_left (fun m kv => <[kv.1 := kv.2]> m) query (∅ : StringMap) /\
     (wildcard_last (splitPath_ (entry_pattern e)) -> reversible params (segments e) ->
      matchSegments_ (segments e) (splitPath_ (path request)) ∅ = Some (expected params (segments e) ∅))).
Proof.
  unfold buildUrl. destruct (m_namedPatterns (registered rs) !! name) as [pattern|] eqn:En; [|done]. cbn [mbind option_bind].
  destruct (urlPath true params (splitPath_ pattern)) as [urlPath_|] eqn:Ep; [|done]. cbn [mbind option_bind]. intros [= <-] Hl.
  destruct (named_entry rs name pattern En) as (e & He & Hn & <- & Hc). set (p := swHttpNormalizePath (str "/" ++ urlPath_)) in *. exists p, e.
  pose proof (normalize_normal (str "/" ++ urlPath_)) as Hp. fold p in Hp.
  split; [done|]. split; [done|]. split; [done|]. split; [done|]. intros Hplain.
  destruct (line_parsed asked p (queryText true query) s Hl (normal_target _ Hp) Hplain) as (s' & E & _ & E1 & _ & E2);
    [destruct query as [|[? ?] ?]; [by left|by right]|apply query_target|].
  exists s'. split; [exact E|]. cbv zeta. rewrite normalize_id in E1 by done. split; [done|]. rewrite E1, E2. split.
  - destruct query as [|kv query]; [done|]. destruct (query_parsed kv query) as (q & Eq & Hq); [|by rewrite Eq].
    destruct Hl as (_ & Hs & _). rewrite requestLine_length in Hs. unfold appendQueryString_ in Hs. rewrite zlen_app in Hs. lia.
  - intros Hw Hr. unfold p. rewrite splitPath_components, components_normalize. change (str "/" ++ urlPath_) with (slash :: urlPath_). rewrite components_slash.
    destruct (urlPath_components _ _ _ _ Ep) as (vs & Hvs & -> & _). unfold compilePattern_ in Hc.
    eapply match_url; [exact Hc| |exact Hw|exact Hr|exact Hvs]. rewrite splitPath_components. apply components_parts.
Qed.

End URLs.

(** ** Examples *)

Definition example_routes : list (@Registration nat) := [
  mkRegistration (str "file") (str "get") (str "users/:id(int)//*path/") (inl (fun _ => swHttpTextResponse 200 (str "file") plainText));
  mkRegistration [] (str "POST") (str "/users/:id/avatar") (inr 7%nat);
  mkRegistration [] (str "GET") (str "/users/:id") (inl (fun _ => swHttpTextResponse 200 (str "user") plainText))].

Definition example_request (m p : string) : SwHttpRequest := set_queryString (str "q=1") (set_path (str p) (set_method (str m) emptyRequest)).

Definition example_params : StringMap := {[str "id" := str "42"; str "path" := str "a//b"]}.

(** A parser that has just been made. *)
#[local] Instance example_multipart : MultipartStream := SwHttpMultipartStreamParser.streamParser (F := memoryFiles) (fun l => zlen l).

Definition fresh : SwHttpParser.t := SwHttpParser.make.

Lemma redirect_safe_witness :
  let router := setTrailingSlashPolicy RedirectToNoSlash (registered example_routes) in
  let request := example_request "GET" "//users//42/" in
  exists redirect, shouldRedirectTrailingSlash_ router request make = Some redirect /\
  SwHttpResponse.headers redirect !! str "location" = Some (str "/users/42?q=1") /\
  exists s', SwHttpParser.parseRequestLine_line (requestLine (str "GET") (str "/users/42?q=1")) fresh = (Ok true, s') /\
    let again := SwHttpParser.m_currentRequest s' in
    path again = str "/users/42" /\ queryString again = str "q=1" /\
    forall response', shouldRedirectTrailingSlash_ router again response' = None.
Proof.
  intros router request. destruct (shouldRedirectTrailingSlash_ router request make) as [redirect|] eqn:E; [|vm_compute in E; discriminate E].
  exists redirect. split; [reflexivity|].
  assert ((r ← shouldRedirectTrailingSlash_ router request make; SwHttpResponse.headers r !! str "location") = Some (str "/users/42?q=1")) as El by (vm_compute; reflexivity).
  rewrite E in El. cbn [mbind option_bind] in El. split; [exact El|].
  destruct (redirect_safe router request make redirect E) as (path' & location & _ & H1 & H2 & _ & _ & H3). rewrite El in H1. injection H1 as <-.
  change (str "/users/42?q=1") with (str "/users/42" ++ str "?q=1") in H2. apply app_inv_tail in H2 as <-.
  apply H3; [repeat constructor|repeat constructor|]. split; [vm_compute; reflexivity|]. split; [vm_compute; reflexivity|vm_compute; discriminate].
Defined.

Lemma dispatch_agrees_witness :
  let router := addResponseFilter (fun _ r => set_status 201 r) (registered example_routes) in
  let request := example_request "post" "/users/42/avatar" in
  same_routes router example_routes /\ willRouteAsync router request = true /\
  if willRouteAsync router request then
    exists e params callback, lookupRoute router request = Found e params /\ asyncCallback e = Some callback /\
      routeAsync router request true = Started callback (set_pathParams params request)
        (fun response => if true then applyResponseFilters_ router (set_pathParams params request) response else response)
  else routeAsync router request true = match route router request make true with Some response => Responded response | None => NotRouted end.
Proof.
  intros router request. split; [reflexivity|]. split; [vm_compute; reflexivity|].
  exact (dispatch_agrees router example_routes request true eq_refl).
Defined.

Lemma url_finds_its_route_witness :
  let url := str "/users/42/a/b?x%20y=a%26b" in
  buildUrl (str "file") example_params [(str "x y", str "a&b")] (registered example_routes) = Some url /\ line_ok fresh (str "GET") url /\
  exists e, In e (entries example_routes) /\ entry_name e = str "file" /\
  exists s', SwHttpParser.parseRequestLine_line (requestLine (str "GET") url) fresh = (Ok true, s') /\
    let request := SwHttpParser.m_currentRequest s' in
    path request = str "/users/42/a/b" /\ queryParams request = {[str "x y" := str "a&b"]} /\
    matchSegments_ (segments e) (splitPath_ (path request)) ∅ = Some {[str "id" := str "42"; str "path" := str "a/b"]}.
Proof.
  intros url. assert (buildUrl (str "file") example_params [(str "x y", str "a&b")] (registered example_routes) = Some url) as H by (vm_compute; reflexivity).
  assert (line_ok fresh (str "GET") url) as Hl by (split; [vm_compute; reflexivity|split; [vm_compute; reflexivity|vm_compute; discriminate]]).
  split; [exact H|]. split; [exact Hl|].
  destruct (url_finds_its_route example_routes (str "file") example_params [(str "x y", str "a&b")] url (str "GET") fresh H Hl) as (p & e & Hu & _ & He & Hn & Hp).
  exists e. split; [exact He|]. split; [exact Hn|].
  assert (url = str "/users/42/a/b" ++ queryText true [(str "x y", str "a&b")]) as Eu by (vm_compute; reflexivity).
  rewrite Eu in Hu. apply app_inv_tail in Hu as <-.
  destruct Hp as (s' & E & E1 & E2 & E3); [repeat constructor|]. exists s'. split; [exact E|]. split; [exact E1|]. split; [exact E2|].
  apply (in_map (fun e => (entry_name e, entry_pattern e, segments e))) in He. rewrite Hn in He.
  assert (map (fun e => (entry_name e, entry_pattern e, segments e)) (entries example_routes) =
    [(str "file", str "/users/:id(int)/*path", [LiteralSegment (str "users"); ParameterSegment (str "id") Int; WildcardSegment (str "path")]);
     ([], str "/users/:id/avatar", [LiteralSegment (str "users"); ParameterSegment (str "id") None_; LiteralSegment (str "avatar")]);
     ([], str "/users/:id", [LiteralSegment (str "users"); ParameterSegment (str "id") None_])]) as Em by (vm_compute; reflexivity).
  rewrite Em in He. destruct He as [He|[He|[He|[]]]]; [|discriminate He..].
  apply pair_equal_spec in He as [[_ Epattern]%pair_equal_spec Esegments]. rewrite E3; rewrite <- ?Epattern, <- ?Esegments.
  - vm_compute. reflexivity.
  - vm_compute. repeat split; (discriminate || reflexivity).
  - repeat constructor.
Defined.

(** A wildcard matches also nothing, and counts: this one outranks the pattern of the path itself. *)
Example wildcard_outranks : match lookupRoute (registered example_routes) (example_request "GET" "/users/42") with
  Found e _ => entry_pattern e = str "/users/:id(int)/*path" | NotFound _ _ => False end.
Proof. vm_compute. reflexivity. Qed.

(** A parameter is put into the path as it is: one with a slash leads elsewhere. *)
Example unencoded_parameter : buildUrl (str "u") {[str "id" := str "1/avatar?"]} []
    (registered [mkRegistration (AsyncCallback := nat) (str "u") (str "GET") (str "/users/:id") (inl (fun _ => make))]) = Some (str "/users/1/avatar?").
Proof. vm_compute. reflexivity. Qed.

(** One with a question mark, too: what follows it is the query, and the route is not
    the one the URL was built for. *)
Example question_mark_splits :
  buildUrl (str "u") {[str "id" := str "1?x"]} []
    (registered [mkRegistration (AsyncCallback := nat) (str "u") (str "GET") (str "/users/:id") (inl (fun _ => make))]) = Some (str "/users/1?x") /\
  let request := SwHttpParser.m_currentRequest (SwHttpParser.parseRequestLine_line (requestLine (str "GET") (str "/users/1?x")) fresh).2 in
  path request = str "/users/1" /\ queryString request = str "x".
Proof. vm_compute. repeat split. Qed.

(** A redirect that is not final: the path was decoded, and is not encoded in the
    location; the question mark makes its end a query, and the router redirects again,
    to another path. *)
Example redirected_twice :
  let router := setTrailingSlashPolicy RedirectToSlash (registered example_routes) in
  let ask target := SwHttpParser.m_currentRequest (SwHttpParser.parseRequestLine_line (requestLine (str "GET") target) fresh).2 in
  let location target := r ← shouldRedirectTrailingSlash_ router (ask target) make; SwHttpResponse.headers r !! str "location" in
  location (str "/a%3Fb") = Some (str "/a?b/") /\ location (str "/a?b/") = Some (str "/a/?b/") /\ location (str "/a/?b/") = None.
Proof. vm_compute. repeat split. Qed.

(** What a pattern has behind a wildcard is not matched, but built. *)
Example behind_wildcard :
  match compilePattern_ (str "/f/*p/edit") with
  | Some (segments, _) => matchSegments_ segments [str "f"; str "x"] ∅ = Some {[str "p" := str "x"]}
  | None => False
  end /\
  urlPath true {[str "p" := str "x"]} (splitPath_ (str "/f/*p/edit")) = Some (str "f/x/edit").
Proof. split; reflexivity. Qed.

End RouterSpec.
