(* ===== verification/Interleaving.v ===== *)
(** Programs that share a memory: atomic actions and loops, composed as a monad, and the
    interleavings of a list of them; what a program does alone; and a rule by which an
    invariant of all interleavings is proved one program at a time.

    Interleavings are sequentially consistent: an action reads and writes the memory the
    action before it left. *)
From Stdlib Require Import ZArith Lia.
From stdpp Require Import base list relations.

(** * Programs *)

(** An action changes the memory, may record events, and goes on with what it has read.
    [Loop body next] repeats the body as long as it answers true. *)
Inductive prog {M E : Type} (A : Type) : Type :=
| Ret (a : A)
| Act (update : M -> M) (event : M -> list E) (next : M -> prog A)
| Loop (body : prog bool) (next : prog A).

Arguments prog : clear implicits.
Arguments Ret {M E A} a.
Arguments Act {M E A} update event next.
Arguments Loop {M E A} body next.

Section Interleaving.

Context {M E : Type}.

Fixpoint bind {A B : Type} (f : A -> prog M E B) (p : prog M E A) : prog M E B :=
  match p with
  | Ret a => f a
  | Act update event next => Act update event (fun m => bind f (next m))
  | Loop body next => Loop body (bind f next)
  end.

#[global] Instance prog_ret : MRet (prog M E) := fun A => Ret.
#[global] Instance prog_bind : MBind (prog M E) := fun A B => bind.

(** The atomic actions. *)
Definition load {A : Type} (f : M -> A) : prog M E A := Act (fun m => m) (fun _ => []) (fun m => Ret (f m)).

Definition store (update : M -> M) : prog M E unit := Act update (fun _ => []) (fun _ => Ret tt).

Definition exchange {A : Type} (f : M -> A) (update : M -> M) : prog M E A := Act update (fun _ => []) (fun m => Ret (f m)).

Definition storeAnd (event : M -> list E) (update : M -> M) : prog M E unit := Act update event (fun _ => Ret tt).

(** * Interleavings *)

Definition turn {A : Type} (p : prog M E A) (m : M) : option (M * list E * prog M E A) :=
  match p with
  | Ret _ => None
  | Act update event next => Some (update m, event m, next m)
  | Loop body next => Some (m, [], bind (fun again : bool => if again then Loop body next else next) body)
  end.

Record config := mkConfig { memory : M; threads : list (prog M E unit); trace : list E }.

(** Thread [k] takes a turn. *)
Definition stepThread (k : nat) (c : config) : option config :=
  p ← threads c !! k;
  '(m, es, p') ← turn p (memory c);
  Some (mkConfig m (<[k := p']> (threads c)) (trace c ++ es)).

Inductive step (c c' : config) : Prop :=
| step_thread k : stepThread k c = Some c' -> step c c'.

(** A schedule: the threads that take turns; those that have ended let theirs pass. *)
Definition run (schedule : list nat) (c : config) : config :=
  fold_left (fun c k => default c (stepThread k c)) schedule c.

Lemma run_steps schedule c : rtc step c (run schedule c).
Proof.
  revert c. induction schedule as [|k ks IH]; intros c; [done|]. cbn [run fold_left].
  destruct (stepThread k c) as [c'|] eqn:E1; [|apply IH]. cbn [default]. eapply rtc_l; [by eapply step_thread|apply IH].
Qed.

Lemma run_app ks ks' c : run (ks ++ ks') c = run ks' (run ks c).
Proof. unfold run. apply fold_left_app. Qed.

(** Whether all memories of a run are as they should be. *)
Fixpoint runs (ok : M -> bool) (schedule : list nat) (c : config) : bool :=
  match schedule with
  | [] => true
  | k :: ks =>
      match stepThread k c with
      | Some c' => ok (memory c') && runs ok ks c'
      | None => runs ok ks c
      end
  end.

Lemma runs_rtc (R : config -> config -> Prop) (ok : M -> bool) ks c :
  (forall a b, step a b -> ok (memory b) = true -> R a b) -> runs ok ks c = true -> rtc R c (run ks c).
Proof.
  intros HR. revert c. induction ks as [|k ks IH]; intros c; [done|]. cbn [runs run fold_left]. destruct (stepThread k c) as [c'|] eqn:E1; [|apply IH].
  intros [? ?]%andb_true_iff. cbn [default]. eapply rtc_l; [|by apply IH]. apply HR; [by eapply step_thread|done].
Qed.

Lemma lookup_set {A} (l : list A) k x y : l !! k = Some x -> <[k := y]> l !! k = Some y.
Proof. intros Hk. apply list_lookup_insert_eq. by eapply lookup_lt_Some. Qed.

Lemma run_turn k n c p m es p' : threads c !! k = Some p -> turn p (memory c) = Some (m, es, p') ->
  run (replicate (S n) k) c = run (replicate n k) (mkConfig m (<[k := p']> (threads c)) (trace c ++ es)).
Proof. intros Hk Ht. cbn [replicate run fold_left]. unfold stepThread at 2. rewrite Hk. cbn [mbind option_bind]. by rewrite Ht. Qed.

(** ** A program alone *)

Inductive alone : forall {A : Type}, prog M E A -> M -> A -> M -> list E -> Prop :=
| alone_ret {A} (a : A) m : alone (Ret a) m a m []
| alone_act {A} update event (next : M -> prog M E A) m a m' es :
    alone (next m) (update m) a m' es -> alone (Act update event next) m a m' (event m ++ es)
| alone_break {A} body (next : prog M E A) m m1 es1 a m' es :
    alone body m false m1 es1 -> alone next m1 a m' es -> alone (Loop body next) m a m' (es1 ++ es)
| alone_again {A} body (next : prog M E A) m m1 es1 a m' es :
    alone body m true m1 es1 -> alone (Loop body next) m1 a m' es -> alone (Loop body next) m a m' (es1 ++ es).

Lemma alone_bind {A B} (p : prog M E A) (f : A -> prog M E B) m a m1 es1 b m2 es2 :
  alone p m a m1 es1 -> alone (f a) m1 b m2 es2 -> alone (bind f p) m b m2 (es1 ++ es2).
Proof.
  intros H. revert f b m2 es2. induction H as [|A update event next m a m' es H IH|A body next m m1 es1 a m' es Hb _ Hn IH|A body next m m1 es1 a m' es Hb _ Hn IH];
    intros f b m2 es2 Hf; cbn [bind]; [done| | |].
  - rewrite <- app_assoc. apply (alone_act update event (fun m => bind f (next m))). by apply IH.
  - rewrite <- app_assoc. eapply alone_break; [exact Hb|]. by apply IH.
  - rewrite <- app_assoc. eapply alone_again; [exact Hb|]. apply (IH f b m2 es2 Hf).
Qed.

(** A context runs a program before it does anything of its own. *)
Definition context {A} (K : prog M E A -> prog M E unit) : Prop :=
  (forall update event next, K (Act update event next) = Act update event (fun m => K (next m))) /\
  (forall body next, K (Loop body next) = Loop body (K next)).

(** What a program does alone is an interleaving in which only its thread takes turns. *)
Lemma alone_run {A} (p : prog M E A) m a m' es : alone p m a m' es ->
  forall K k c, context K -> memory c = m -> threads c !! k = Some (K p) ->
  exists n, run (replicate n k) c = mkConfig m' (<[k := K (Ret a)]> (threads c)) (trace c ++ es).
Proof.
  induction 1 as [A a m|A update event next m a m' es H IH|A body next m m1 es1 a m' es Hb IHb Hn IHn|A body next m m1 es1 a m' es Hb IHb Hn IHn];
    intros K k c [HA HL] Hm Hk.
  - exists 0%nat. destruct c; simpl in *; subst. rewrite app_nil_r, list_insert_id by done. done.
  - rewrite HA in Hk.
    edestruct (IH K k (mkConfig (update m) (<[k := K (next m)]> (threads c)) (trace c ++ event m))) as [n Hn]; [done|done|by eapply lookup_set|].
    exists (S n). rewrite (run_turn k n c _ _ _ _ Hk) by (by rewrite Hm). rewrite Hn. cbn. by rewrite list_insert_insert_eq, <- app_assoc.
  - rewrite HL in Hk. set (rest := fun again : bool => if again then Loop body (K next) else K next).
    edestruct (IHb (bind rest) k (mkConfig m (<[k := bind rest body]> (threads c)) (trace c))) as [n1 H1]; [done|done|by eapply lookup_set|].
    edestruct (IHn K k (mkConfig m1 (<[k := K next]> (threads c)) (trace c ++ es1))) as [n2 H2]; [done|done|by eapply lookup_set|].
    exists (S (n1 + n2)). rewrite (run_turn k _ c _ m [] (bind rest body) Hk) by (by rewrite Hm). rewrite replicate_add, run_app, app_nil_r, H1. cbn in *.
    rewrite list_insert_insert_eq, H2. cbn. by rewrite list_insert_insert_eq, <- app_assoc.
  - rewrite HL in Hk. set (rest := fun again : bool => if again then Loop body (K next) else K next).
    edestruct (IHb (bind rest) k (mkConfig m (<[k := bind rest body]> (threads c)) (trace c))) as [n1 H1]; [done|done|by eapply lookup_set|].
    edestruct (IHn K k (mkConfig m1 (<[k := K (Loop body next)]> (threads c)) (trace c ++ es1))) as [n2 H2]; [done|done| |].
    { cbn. rewrite HL. by eapply lookup_set. }
    exists (S (n1 + n2)). rewrite (run_turn k _ c _ m [] (bind rest body) Hk) by (by rewrite Hm). rewrite replicate_add, run_app, app_nil_r, H1. cbn in *.
    rewrite HL in H2. rewrite list_insert_insert_eq, H2. cbn. by rewrite list_insert_insert_eq, <- app_assoc.
Qed.

(** * Invariants, one program at a time

    Every thread has a ghost state that says how far it is; the invariant speaks of the
    memory, the trace and all ghost states.  [safe k p g Q]: from ghost state [g], every
    action of [p] as thread [k] can move the ghost state such that the invariant is kept,
    and the end of [p] meets [Q].  The invariant also sees a history of the memory. *)

Context {G H : Type} (record : H -> M -> H) (permitted : M -> Prop) (Inv : M -> list E -> list G -> H -> Prop) (ended : G -> Prop).

Fixpoint safe (k : nat) {A : Type} (p : prog M E A) (g : G) (Q : A -> G -> Prop) : Prop :=
  match p with
  | Ret a => Q a g
  | Act update event next => forall m t gs h, permitted m -> permitted (update m) -> Inv m t gs h -> gs !! k = Some g ->
      exists g', Inv (update m) (t ++ event m) (<[k := g']> gs) (record h (update m)) /\ safe k (next m) g' Q
  | Loop body next => exists J : G -> Prop, J g /\
      forall g', J g' -> safe k body g' (fun (again : bool) g'' => if again then J g'' else safe k next g'' Q)
  end.

Lemma safe_act {A} k update event (next : M -> prog M E A) g (Q : A -> G -> Prop) :
  (forall m t gs h, permitted m -> permitted (update m) -> Inv m t gs h -> gs !! k = Some g ->
     exists g', Inv (update m) (t ++ event m) (<[k := g']> gs) (record h (update m)) /\ safe k (next m) g' Q) ->
  safe k (Act update event next) g Q.
Proof. done. Qed.

Lemma safe_mono {A} k (p : prog M E A) g (Q Q' : A -> G -> Prop) : (forall a g, Q a g -> Q' a g) -> safe k p g Q -> safe k p g Q'.
Proof.
  revert g Q Q'. induction p as [A a|A update event next IH|A body IHb next IHn]; intros g Q Q' HQ Hs; cbn [safe] in *.
  - by apply HQ.
  - intros m t gs h Hp Hp' Hi Hg. destruct (Hs m t gs h Hp Hp' Hi Hg) as (g' & ? & ?). exists g'. split; [done|]. by eapply IH.
  - destruct Hs as (J & Hj & Hs). exists J. split; [done|]. intros g' Hg'. eapply IHb; [|by apply Hs].
    intros [|] g''; [done|]. by apply IHn.
Qed.

Lemma safe_bind {A B} k (f : A -> prog M E B) (p : prog M E A) g (Q : B -> G -> Prop) :
  safe k p g (fun a g' => safe k (f a) g' Q) -> safe k (bind f p) g Q.
Proof.
  revert B f g Q. induction p as [A a|A update event next IH|A body IHb next IHn]; intros B f g Q Hs; cbn [safe bind] in *.
  - done.
  - intros m t gs h Hp Hp' Hi Hg. destruct (Hs m t gs h Hp Hp' Hi Hg) as (g' & ? & ?). exists g'. split; [done|]. by apply IH.
  - destruct Hs as (J & Hj & Hs). exists J. split; [done|]. intros g' Hg'. eapply safe_mono; [|by apply Hs].
    intros [|] g''; [done|]. by apply IHn.
Qed.

(** Programs with the ghost states their threads are in; at the end it is an [ended] one. *)
Definition safe_all (ps : list (prog M E unit)) (gs : list G) : Prop :=
  length ps = length gs /\ forall k p g, ps !! k = Some p -> gs !! k = Some g -> safe k p g (fun _ => ended).

(** What is reached through permitted memories, with its history. *)
Inductive reach (c0 : config) (h0 : H) : config -> H -> Prop :=
| reach_start : reach c0 h0 c0 h0
| reach_step c h c' : reach c0 h0 c h -> step c c' -> permitted (memory c') -> reach c0 h0 c' (record h (memory c')).

Hypothesis Inv_again : forall m t gs h, Inv m t gs h -> Inv m t gs (record h m).

Lemma safe_turn k (p : prog M E unit) g m m' es p' t gs h : turn p m = Some (m', es, p') -> permitted m -> permitted m' -> Inv m t gs h -> gs !! k = Some g ->
  safe k p g (fun _ => ended) ->
  exists g', Inv m' (t ++ es) (<[k := g']> gs) (record h m') /\ safe k p' g' (fun _ => ended).
Proof.
  destruct p as [[]|update event next|body next]; cbn [turn safe]; intros Ht Hm Hm' Hi Hg Hs; [done| |]; injection Ht as <- <- <-.
  - by apply Hs.
  - exists g. rewrite app_nil_r, list_insert_id by done. split; [by apply Inv_again|]. apply safe_bind.
    destruct Hs as (J & Hj & Hs). eapply safe_mono; [|by apply Hs]. intros [|] g'; [|done]. cbn [safe]. intros Hg'. by exists J.
Qed.

(** The invariant holds in every configuration reached. *)
Theorem safe_reach c0 h0 gs0 c h : permitted (memory c0) -> Inv (memory c0) (trace c0) gs0 h0 -> safe_all (threads c0) gs0 ->
  reach c0 h0 c h -> permitted (memory c) /\ exists gs, Inv (memory c) (trace c) gs h /\ safe_all (threads c) gs.
Proof.
  intros Hp0 Hi0 Hs0. induction 1 as [|c h c' _ [Hp (gs & Hi & Hl & Hs)] [k Hk] Hp']; [by eauto|].
  split; [done|]. unfold stepThread in Hk. destruct (threads c !! k) as [p|] eqn:Ep; [|done]. cbn [mbind option_bind] in Hk.
  destruct (turn p (memory c)) as [[[m es] p']|] eqn:Et; [|done]. injection Hk as <-. cbn in *.
  destruct (lookup_lt_is_Some_2 gs k) as [g Hg]; [rewrite <- Hl; by eapply lookup_lt_Some|].
  destruct (safe_turn k p g (memory c) m es p' (trace c) gs h) as (g' & Hi' & Hs'); eauto.
  exists (<[k := g']> gs). split; [done|]. split; [by rewrite !length_insert|].
  intros k' q g'' Hq Hg''. destruct (decide (k' = k)) as [->|Hne].
  - apply lookup_lt_Some in Ep as H1. apply lookup_lt_Some in Hg as H2. rewrite list_lookup_insert_eq in Hq by done. rewrite list_lookup_insert_eq in Hg'' by done. by simplify_eq.
  - rewrite list_lookup_insert_ne in Hq by done. rewrite list_lookup_insert_ne in Hg'' by done. by apply (Hs k').
Qed.

End Interleaving.
