(* ===== verification/NoCopyRing.v ===== *)
(** NoCopyRingBuffer (src/src/core/remote/SwIpcNoCopyRingBuffer.h): a ring of slots in
    memory that processes share.  A publisher takes a slot, fills it and publishes it;
    readers hold a slot by its reference count while they read it in place; registered
    consumers say how far they have read, and what they still need is not overwritten.

    Every access to the mutable shared memory is an action of its own, in the order of
    the code, and so is every byte that is copied; processes are programs whose actions
    interleave (Interleaving.v).  What the header says of the layout never changes after
    the creation, and is an argument. *)
From Stdlib Require Import ZArith Lia Strings.Byte.
From stdpp Require Import base list strings gmap numbers.
From S2P Require Import Prelude Interleaving.

Module NoCopyRingBuffer.

(** * The shared memory *)

Record ConsumerEntry := mkEntry {
  id : Z;               (* 0 = free, 1 = claiming *)
  pid : Z;
  reserved : Z;
  cursor : Z;           (* next seq needed *)
  lastSeenMs : Z
}.

Definition kClaimingConsumerId : Z := 1.
Definition kDefaultConsumerTtlMs : Z := 5000.
Definition kInvalidIndex : Z := 4294967295.
Definition kMagic : Z := 0x4E434231.
Definition kVersion : Z := 1.

(** The part of the header that is written once. *)
Record Header := mkHeader {
  magic : Z;
  version : Z;
  typeId : Z;
  metaTypeId : Z;
  totalBytes : Z;
  capacity : Z;
  maxBytes : Z;
  metaOffset : Z;
  dataOffset : Z;
  slotMetaBytes : Z;
  slotStrideBytes : Z;
  maxConsumers : Z;
  consumerTtlMs : Z
}.

(** ** Layout *)

Definition alignUpSize (v align : Z) : Z :=
  if align =? 0 then v
  else let r := v mod align in if r =? 0 then v else v +u (align - r).

Section Ring.

(** [MetaT], its zero bytes, and the size of a [SlotMeta] with it; [MaxConsumers]. *)
Context {Meta : Type} (zeroMeta : Meta) (sizeofSlotMeta MaxConsumers : Z).

(** 152 bytes and 32 for each consumer. *)
Definition sizeofHeader : Z := 152 + 32 * MaxConsumers.

(** The size of the mapping, and [metaOffsetOut], [dataOffsetOut], [strideOut]. *)
Definition computeTotalBytes_ (capacity maxBytes : Z) : Z * (Z * Z * Z) :=
  let align := 64 in
  let headerBytes := alignUpSize sizeofHeader align in
  let metaBytes := alignUpSize (capacity *u sizeofSlotMeta) align in
  let stride := alignUpSize maxBytes align in
  let dataBytes := capacity *u stride in
  (headerBytes +u metaBytes +u dataBytes, (wrap32 headerBytes, wrap32 (headerBytes +u metaBytes), wrap32 stride)).

(** Where slot [index] has its metadata and its data, from the start of the mapping. *)
Definition slotMetaAddress (H : Header) (index : Z) : option Z :=
  if capacity H <=? index then None else Some (metaOffset H +u index *u sizeofSlotMeta).

Definition slotDataAddress (H : Header) (index : Z) : option Z :=
  if capacity H <=? index then None else Some (dataOffset H +u index *u slotStrideBytes H).

(** What a new header says. *)
Definition initHeader (typeId metaTypeId capacity maxBytes : Z) : result Header :=
  if capacity =? 0 then Err "NoCopyRingBuffer: capacity=0"%string
  else if maxBytes =? 0 then Err "NoCopyRingBuffer: maxBytes=0"%string
  else
    let '(total, (metaOffset, dataOffset, stride)) := computeTotalBytes_ capacity maxBytes in
    Ok (mkHeader kMagic kVersion typeId metaTypeId total capacity maxBytes metaOffset dataOffset (wrap32 sizeofSlotMeta)
      stride MaxConsumers kDefaultConsumerTtlMs).

(** [validateHeaderOrThrow_], of a mapping of [mappedBytes]. *)
Definition validateHeader (typeId_ metaTypeId_ mappedBytes : Z) (H : Header) : result unit :=
  if negb (magic H =? kMagic) || negb (version H =? kVersion) then Err "NoCopyRingBuffer: SHM layout mismatch"%string
  else if negb (typeId H =? typeId_) then Err "NoCopyRingBuffer: SHM type mismatch"%string
  else if negb (metaTypeId H =? metaTypeId_) then Err "NoCopyRingBuffer: SHM meta type mismatch"%string
  else if (capacity H =? 0) || (maxBytes H =? 0) then Err "NoCopyRingBuffer: invalid header"%string
  else if negb (slotMetaBytes H =? sizeofSlotMeta) then Err "NoCopyRingBuffer: slot meta mismatch"%string
  else if (maxConsumers H =? 0) || (MaxConsumers <? maxConsumers H) then Err "NoCopyRingBuffer: consumer table mismatch"%string
  else if (metaOffset H =? 0) || (dataOffset H =? 0) then Err "NoCopyRingBuffer: invalid offsets"%string
  else if mappedBytes <? totalBytes H then Err "NoCopyRingBuffer: truncated mapping"%string
  else Ok tt.

(** ** What changes *)

(** A [SlotMeta] and the bytes of its slot. *)
Record Slot := mkSlot {
  seq : Z;
  refCount : Z;
  bytes : Z;
  publishTimeUs : Z;
  meta : Meta;
  data : list byte
}.

(** Beside the memory: the monotonic clock in milliseconds, and the counter by which each
    process numbers its consumers. *)
Record Shared := mkShared {
  nextSeq : Z;
  lastSeq : Z;
  dropped : Z;
  consumers : list ConsumerEntry;
  slots : list Slot;
  clock : Z;
  counters : gmap Z Z
}.

(** What a slot holds for its readers. *)
Definition Content : Type := list byte * Meta * Z.

Definition contentOf (s : Slot) : Content := (take (Z.to_nat (bytes s)) (data s), meta s, publishTimeUs s).

(** The events a trace has: a message becomes visible; a reader has read one. *)
Inductive Event :=
| Published (seq : Z) (content : Content)
| Received (seq : Z) (content : Content).

Abbreviation P := (prog Shared Event).

Definition set_seq v s := mkSlot v (refCount s) (bytes s) (publishTimeUs s) (meta s) (data s).
Definition set_refCount v s := mkSlot (seq s) v (bytes s) (publishTimeUs s) (meta s) (data s).
Definition set_bytes v s := mkSlot (seq s) (refCount s) v (publishTimeUs s) (meta s) (data s).
Definition set_publishTimeUs v s := mkSlot (seq s) (refCount s) (bytes s) v (meta s) (data s).
Definition set_meta v s := mkSlot (seq s) (refCount s) (bytes s) (publishTimeUs s) v (data s).
Definition set_data v s := mkSlot (seq s) (refCount s) (bytes s) (publishTimeUs s) (meta s) v.

Definition set_id v e := mkEntry v (pid e) (reserved e) (cursor e) (lastSeenMs e).
Definition set_pid v e := mkEntry (id e) v (reserved e) (cursor e) (lastSeenMs e).
Definition set_reserved v e := mkEntry (id e) (pid e) v (cursor e) (lastSeenMs e).
Definition set_cursor v e := mkEntry (id e) (pid e) (reserved e) v (lastSeenMs e).
Definition set_lastSeenMs v e := mkEntry (id e) (pid e) (reserved e) (cursor e) v.

Definition set_nextSeq v m := mkShared v (lastSeq m) (dropped m) (consumers m) (slots m) (clock m) (counters m).
Definition set_lastSeq v m := mkShared (nextSeq m) v (dropped m) (consumers m) (slots m) (clock m) (counters m).
Definition set_dropped v m := mkShared (nextSeq m) (lastSeq m) v (consumers m) (slots m) (clock m) (counters m).
Definition set_consumers v m := mkShared (nextSeq m) (lastSeq m) (dropped m) v (slots m) (clock m) (counters m).
Definition set_slots v m := mkShared (nextSeq m) (lastSeq m) (dropped m) (consumers m) v (clock m) (counters m).
Definition set_clock v m := mkShared (nextSeq m) (lastSeq m) (dropped m) (consumers m) (slots m) v (counters m).
Definition set_counters v m := mkShared (nextSeq m) (lastSeq m) (dropped m) (consumers m) (slots m) (clock m) v.

Definition emptyEntry : ConsumerEntry := mkEntry 0 0 0 0 0.
Definition emptySlot : Slot := mkSlot 0 0 0 0 zeroMeta [].

Definition entry (j : nat) (m : Shared) : ConsumerEntry := default emptyEntry (consumers m !! j).
Definition slot (i : nat) (m : Shared) : Slot := default emptySlot (slots m !! i).

Definition onEntry (j : nat) (f : ConsumerEntry -> ConsumerEntry) (m : Shared) : Shared := set_consumers (alter f j (consumers m)) m.
Definition onSlot (i : nat) (f : Slot -> Slot) (m : Shared) : Shared := set_slots (alter f i (slots m)) m.

(** Memory as it is mapped. *)
Definition initShared (H : Header) (now : Z) : Shared :=
  mkShared 0 0 0 (replicate (Z.to_nat MaxConsumers) emptyEntry)
    (replicate (Z.to_nat (capacity H)) (mkSlot 0 0 0 0 zeroMeta (replicate (Z.to_nat (maxBytes H)) x00))) now ∅.

(** * Operations *)

Definition slotMeta_ (H : Header) (index : Z) : option nat := if capacity H <=? index then None else Some (Z.to_nat index).
Definition slotData_ (H : Header) (index : Z) : option nat := if capacity H <=? index then None else Some (Z.to_nat index).

Definition consumerEntry_ (H : Header) (index : Z) : option nat :=
  if maxConsumers H <=? index then None else if MaxConsumers <=? index then None else Some (Z.to_nat index).

Definition nowMs : P Z := load clock.

(** The entries there are. *)
Definition entryCount (H : Header) : nat := Z.to_nat (Z.min (maxConsumers H) MaxConsumers).

Definition ttl (H : Header) : Z := if consumerTtlMs H =? 0 then kDefaultConsumerTtlMs else consumerTtlMs H.

(** Whether a consumer was last seen too long ago. *)
Definition expired (H : Header) (now seen : Z) : bool := (seen <? now) && (ttl H <? now - seen).

(** *** Publishing *)

(** The loop of [minConsumerCursor_], over the entries from [i] on. *)
Fixpoint minCursor_loop (H : Header) (now : Z) (n i : nat) (minCur : Z) : P Z :=
  match n with
  | O => mret minCur
  | S n =>
      id ← load (fun m => id (entry i m));
      if (id =? 0) || (id =? kClaimingConsumerId) then minCursor_loop H now n (S i) minCur
      else
        seen ← load (fun m => lastSeenMs (entry i m));
        if seen =? 0 then minCursor_loop H now n (S i) minCur
        else if expired H now seen then minCursor_loop H now n (S i) minCur
        else
          cur ← load (fun m => cursor (entry i m));
          if cur =? 0 then minCursor_loop H now n (S i) minCur
          else minCursor_loop H now n (S i) (if cur <? minCur then cur else minCur)
  end.

Definition minConsumerCursor_ (H : Header) : P Z :=
  last ← load lastSeq;
  now ← nowMs;
  minCursor_loop H now (entryCount H) 0 (last +u 1).

Record WriteLease := mkWriteLease {
  w_slot : nat;
  w_seq : Z;
  oldSeq : Z;
  capacityBytes : Z
}.

(** [WriteLease::isValid]; its destructor cancels what is not committed. *)
Definition writable (w : WriteLease) : bool := negb (w_seq w =? 0).

(** The publisher gives the slot back as it was, and drops the message. *)
Definition giveBack (i : nat) (oldSeq : Z) : P (option WriteLease) :=
  store (onSlot i (set_seq oldSeq));;
  store (fun m => set_dropped (dropped m +u 1) m);;
  mret None.

Definition beginWrite (H : Header) : P (option WriteLease) :=
  if (capacity H =? 0) || (maxBytes H =? 0) then mret None
  else
    taken ← exchange nextSeq (fun m => set_nextSeq (nextSeq m +u 1) m);
    let seq' := taken +u 1 in
    let idx := wrap32 (seq' mod capacity H) in
    match slotMeta_ H idx with
    | None => mret None
    | Some i =>
        oldSeq ← exchange (fun m => seq (slot i m)) (onSlot i (set_seq 0));
        minCursor ← minConsumerCursor_ H;
        if negb (oldSeq =? 0) && (minCursor <=? oldSeq) then giveBack i oldSeq
        else
          readers ← load (fun m => refCount (slot i m));
          if negb (readers =? 0) then giveBack i oldSeq
          else
            match slotData_ H idx with
            | None => giveBack i oldSeq
            | Some _ =>
                store (onSlot i (set_bytes 0));;
                store (onSlot i (set_publishTimeUs 0));;
                store (onSlot i (set_meta zeroMeta));;
                mret (Some (mkWriteLease i seq' oldSeq (maxBytes H)))
            end
    end.

(** The slot stays unpublished. *)
Definition cancelWrite_ : P unit := store (fun m => set_dropped (dropped m +u 1) m).

(** The notification of the subscribers, that comes last, is not part of it. *)
Definition commitWrite_ (H : Header) (w : WriteLease) (n : Z) : P bool :=
  if (n =? 0) || (maxBytes H <? n) then cancelWrite_;; mret false
  else
    store (onSlot (w_slot w) (set_bytes n));;
    now ← nowMs;
    store (onSlot (w_slot w) (set_publishTimeUs (now *u 1000)));;
    storeAnd (fun m => [Published (w_seq w) (contentOf (slot (w_slot w) m))]) (onSlot (w_slot w) (set_seq (w_seq w)));;
    store (set_lastSeq (w_seq w));;
    mret true.

(** [std::memcpy] into a slot, byte by byte. *)
Fixpoint copyIn (i : nat) (at_ : nat) (bs : list byte) : P unit :=
  match bs with
  | [] => mret tt
  | b :: bs => store (onSlot i (fun s => set_data (<[at_ := b]> (data s)) s));; copyIn i (S at_) bs
  end.

Definition publishCopy (H : Header) (bs : list byte) (v : Meta) : P bool :=
  let n := zlen bs in
  if (n =? 0) || (maxBytes H <? n) then mret false
  else
    lease ← beginWrite H;
    match lease with
    | None => mret false
    | Some w =>
        if negb (writable w) then cancelWrite_;; mret false
        else
          copyIn (w_slot w) 0 bs;;
          store (onSlot (w_slot w) (set_meta v));;
          commitWrite_ H w n
    end.

(** *** Reading *)

Record ReadLease := mkReadLease {
  r_slot : nat;
  r_seq : Z;
  consumerIndex_ : Z;
  consumerId_ : Z
}.

(** The slot of a message, held, unless it is not there (any more). *)
Definition hold (H : Header) (s : Z) : P (option nat) :=
  let idx := wrap32 (s mod capacity H) in
  match slotMeta_ H idx with
  | None => mret None
  | Some i =>
      have ← load (fun m => seq (slot i m));
      if negb (have =? s) then mret None
      else
        exchange (fun m => refCount (slot i m)) (onSlot i (fun x => set_refCount (wrap32 (refCount x + 1)) x));;
        have2 ← load (fun m => seq (slot i m));
        if negb (have2 =? s) then
          store (onSlot i (fun x => set_refCount (wrap32 (refCount x - 1)) x));;
          mret None
        else
          match slotData_ H idx with
          | None => store (onSlot i (fun x => set_refCount (wrap32 (refCount x - 1)) x));; mret None
          | Some _ => mret (Some i)
          end
  end.

(** [NoCopyRingBuffer::acquire], [readLatest]: without a consumer. *)
Definition acquire (H : Header) (s : Z) : P (option ReadLease) :=
  if (s =? 0) || (capacity H =? 0) then mret None
  else
    held ← hold H s;
    mret (match held with Some i => Some (mkReadLease i s kInvalidIndex 0) | None => None end).

Definition readLatest (H : Header) : P (option ReadLease) :=
  s ← load lastSeq;
  acquire H s.

(** The loop that raises the cursor of entry [j]. *)
Definition raiseCursor (j : nat) (next : Z) (rest : P unit) : P unit :=
  Loop (cur ← load (fun m => cursor (entry j m));
        if next <=? cur then mret false
        else
          swapped ← exchange (fun m => cursor (entry j m) =? cur)
                      (fun m => if cursor (entry j m) =? cur then onEntry j (set_cursor next) m else m);
          mret (negb swapped)) rest.

Definition touch (j : nat) : P unit :=
  now ← nowMs;
  store (onEntry j (set_lastSeenMs now)).

Definition keepUpInMapping_ (H : Header) (consumerIndex consumerId next : Z) : P unit :=
  if next =? 0 then mret tt
  else if (maxConsumers H <=? consumerIndex) || (MaxConsumers <=? consumerIndex) then mret tt
  else
    let j := Z.to_nat consumerIndex in
    id ← load (fun m => id (entry j m));
    if negb (id =? consumerId) then mret tt
    else raiseCursor j next (touch j).

Definition release_ (H : Header) (l : ReadLease) : P unit :=
  store (onSlot (r_slot l) (fun x => set_refCount (wrap32 (refCount x - 1)) x));;
  if negb (consumerId_ l =? 0) && negb (consumerIndex_ l =? kInvalidIndex)
  then keepUpInMapping_ H (consumerIndex_ l) (consumerId_ l) (r_seq l +u 1)
  else mret tt.

(** *** Consumers *)

(** [mapped]: whether it still has the mapping. *)
Record Consumer := mkConsumer {
  mapped : bool;
  consumerIndex : Z;
  consumerId : Z
}.

Definition noConsumer : Consumer := mkConsumer false kInvalidIndex 0.

Definition isValid (c : Consumer) : bool := mapped c && negb (consumerId c =? 0) && negb (consumerIndex c =? kInvalidIndex).

Definition makeConsumerId_ (process : Z) : P Z :=
  n ← exchange (fun m => default 0 (counters m !! process))
        (fun m => set_counters (<[process := wrap32 (default 0 (counters m !! process) + 1)]> (counters m)) m);
  mret (Z.lor (Z.shiftl process 32) (wrap32 (n + 1))).

(** The first loop of [registerInMapping_]: an entry that has the id already. *)
Fixpoint reuse_loop (process myId now : Z) (n i : nat) : P (option nat) :=
  match n with
  | O => mret None
  | S n =>
      id ← load (fun m => id (entry i m));
      if negb (id =? myId) then reuse_loop process myId now n (S i)
      else
        store (onEntry i (set_pid process));;
        last ← load lastSeq;
        store (onEntry i (set_cursor (last +u 1)));;
        store (onEntry i (set_lastSeenMs now));;
        mret (Some i)
  end.

Definition claim (i : nat) (expected : Z) : P bool :=
  exchange (fun m => id (entry i m) =? expected)
    (fun m => if id (entry i m) =? expected then onEntry i (set_id kClaimingConsumerId) m else m).

(** What the second loop does with an entry it has claimed. *)
Definition initEntry (process myId now : Z) (i : nat) : P unit :=
  store (onEntry i (set_pid process));;
  store (onEntry i (set_reserved 0));;
  last ← load lastSeq;
  store (onEntry i (set_cursor (last +u 1)));;
  store (onEntry i (set_lastSeenMs now));;
  store (onEntry i (set_id myId)).

(** The second loop: a free or stale entry. *)
Fixpoint claim_loop (H : Header) (process myId now : Z) (n i : nat) : P (option nat) :=
  match n with
  | O => mret None
  | S n =>
      id ← load (fun m => id (entry i m));
      claimed ← (if id =? 0 then claim i 0
                 else if id =? kClaimingConsumerId then mret false
                 else
                   seen ← load (fun m => lastSeenMs (entry i m));
                   if negb ((seen =? 0) || expired H now seen) then mret false else claim i id);
      if (claimed : bool) then initEntry process myId now i;; mret (Some i)
      else claim_loop H process myId now n (S i)
  end.

Definition registerInMapping_ (H : Header) (process : Z) : P Consumer :=
  myId ← makeConsumerId_ process;
  now ← nowMs;
  reused ← reuse_loop process myId now (entryCount H) 0;
  match reused with
  | Some i => mret (mkConsumer true (Z.of_nat i) myId)
  | None =>
      claimed ← claim_loop H process myId now (entryCount H) 0;
      mret (match claimed with Some i => mkConsumer true (Z.of_nat i) myId | None => noConsumer end)
  end.

(** The consumer, registered again if its entry is another's, and whether it is. *)
Definition ensureRegistered_ (H : Header) (process : Z) (c : Consumer) : P (Consumer * bool) :=
  let again := (c' ← registerInMapping_ H process; mret (c', isValid c')) in
  if negb (mapped c) then mret (c, false)
  else if negb (consumerId c =? 0) && negb (consumerIndex c =? kInvalidIndex) then
    match consumerEntry_ H (consumerIndex c) with
    | Some j => id ← load (fun m => id (entry j m)); if id =? consumerId c then mret (c, true) else again
    | None => again
    end
  else again.

Definition keepUp (H : Header) (process next : Z) (c : Consumer) : P Consumer :=
  '(c, registered) ← ensureRegistered_ H process c;
  if negb registered || (next =? 0) then mret c
  else
    match consumerEntry_ H (consumerIndex c) with
    | None => mret c
    | Some j => raiseCursor j next (touch j);; mret c
    end.

Definition consumerAcquire (H : Header) (process s : Z) (c : Consumer) : P (Consumer * option ReadLease) :=
  '(c, registered) ← ensureRegistered_ H process c;
  if negb registered || (s =? 0) || (capacity H =? 0) then mret (c, None)
  else
    match consumerEntry_ H (consumerIndex c) with Some j => touch j | None => mret tt end;;
    held ← hold H s;
    mret (c, match held with Some i => Some (mkReadLease i s (consumerIndex c) (consumerId c)) | None => None end).

Definition consumerReadLatest (H : Header) (process : Z) (c : Consumer) : P (Consumer * option ReadLease) :=
  '(c, registered) ← ensureRegistered_ H process c;
  if negb registered then mret (c, None)
  else
    s ← load lastSeq;
    consumerAcquire H process s c.

Definition unregister (H : Header) (c : Consumer) : P unit :=
  if negb (mapped c) then mret tt
  else if negb (consumerIndex c =? kInvalidIndex) && negb (consumerId c =? 0) then
    match consumerEntry_ H (consumerIndex c) with
    | None => mret tt
    | Some j =>
        id ← load (fun m => id (entry j m));
        if id =? consumerId c then store (onEntry j (set_id 0)) else mret tt
    end
  else mret tt.

(** * Processes

    What is run: a publisher publishes copies, or writes in place; readers and consumers
    read what they acquire, byte by byte, and release it; time passes. *)

(** Reading through a lease: the size, the bytes, the metadata, the time. *)
Fixpoint copyOut (i : nat) (at_ n : nat) : P (list byte) :=
  match n with
  | O => mret []
  | S n =>
      b ← load (fun m => default x00 (data (slot i m) !! at_));
      bs ← copyOut i (S at_) n;
      mret (b :: bs)
  end.

Definition readOut (l : ReadLease) : P unit :=
  n ← load (fun m => bytes (slot (r_slot l) m));
  bs ← copyOut (r_slot l) 0 (Z.to_nat n);
  v ← load (fun m => meta (slot (r_slot l) m));
  time ← load (fun m => publishTimeUs (slot (r_slot l) m));
  storeAnd (fun _ => [Received (r_seq l) (bs, v, time)]) (fun m => m).

Definition readAndRelease (H : Header) (l : option ReadLease) : P unit :=
  match l with
  | Some l => readOut l;; release_ H l
  | None => mret tt
  end.

Inductive Publish :=
| Copy (bs : list byte) (v : Meta)
| InPlace (writes : list (Z * byte)) (v : option Meta) (commit : option Z).

(** A client writes within [capacityBytes]. *)
Fixpoint writeBytes (w : WriteLease) (writes : list (Z * byte)) : P unit :=
  match writes with
  | [] => mret tt
  | (at_, b) :: writes =>
      (if (0 <=? at_) && (at_ <? capacityBytes w) then store (onSlot (w_slot w) (fun s => set_data (<[Z.to_nat at_ := b]> (data s)) s))
       else mret tt);;
      writeBytes w writes
  end.

Definition publish (H : Header) (op : Publish) : P unit :=
  match op with
  | Copy bs v => publishCopy H bs v;; mret tt
  | InPlace writes v commit =>
      lease ← beginWrite H;
      match lease with
      | None => mret tt
      | Some w =>
          if negb (writable w) then cancelWrite_
          else
            writeBytes w writes;;
            match v with Some v => store (onSlot (w_slot w) (set_meta v)) | None => mret tt end;;
            match commit with
            | Some n => commitWrite_ H w (wrap32 n);; mret tt
            | None => cancelWrite_
            end
      end
  end.

Inductive Consume :=
| KeepUp (next : Z)
| Acquire (s : Z)
| ReadLatest
| Unregister.

Definition consume (H : Header) (process : Z) (op : Consume) (c : Consumer) : P Consumer :=
  match op with
  | KeepUp next => keepUp H process next c
  | Acquire s => '(c, l) ← consumerAcquire H process s c; readAndRelease H l;; mret c
  | ReadLatest => '(c, l) ← consumerReadLatest H process c; readAndRelease H l;; mret c
  | Unregister => unregister H c;; mret noConsumer
  end.

Inductive Client :=
| Publisher (ops : list Publish)
| Reader (seqs : list (option Z))      (* the messages to read, the latest for [None] *)
| ConsumerClient (process : Z) (ops : list Consume)
| Time (ticks : list Z).

Fixpoint inTurn {A B : Type} (f : B -> A -> P A) (ops : list B) (a : A) : P A :=
  match ops with
  | [] => mret a
  | op :: ops => a' ← f op a; inTurn f ops a'
  end.

Definition program (H : Header) (client : Client) : P unit :=
  match client with
  | Publisher ops => inTurn (fun op _ => publish H op) ops tt
  | Reader seqs =>
      inTurn (fun s _ => l ← match s with Some s => acquire H s | None => readLatest H end; readAndRelease H l) seqs tt
  | ConsumerClient process ops =>
      c ← registerInMapping_ H process;
      c ← inTurn (consume H process) ops c;
      unregister H c
  | Time ticks => inTurn (fun d _ => store (fun m => set_clock (clock m + Z.max 0 d) m)) ticks tt
  end.

Definition start (H : Header) (now : Z) (clients : list Client) : config :=
  mkConfig (initShared H now) (program H <$> clients) [].

(** * The layout *)

Lemma alignUp_spec v : 0 <= v < 18446744073709551552 -> v <= alignUpSize v 64 < v + 64 /\ alignUpSize v 64 mod 64 = 0.
Proof.
  intros Hv. unfold alignUpSize. cbn [Z.eqb]. pose proof (Z.mod_pos_bound v 64 ltac:(lia)) as Hm. destruct (Z.eqb_spec (v mod 64) 0) as [E|E]; [lia|].
  rewrite add64_small by lia. split; [lia|]. pose proof (Z.div_mod v 64 ltac:(lia)) as Hd.
  replace (v + (64 - v mod 64)) with ((v / 64 + 1) * 64) by lia. apply Z.mod_mul. lia.
Qed.

(** Sizes for which no offset is cut to its low 32 bits. *)
Definition fits (capacity maxBytes : Z) : Prop :=
  0 < capacity /\ 0 < maxBytes <= 4294967232 /\ 24 <= sizeofSlotMeta < 4294967296 /\ 0 < MaxConsumers /\
  sizeofHeader + capacity * sizeofSlotMeta <= 4294967168.

(** The slots of the mapping are apart.  For sizes whose offsets fit 32 bits, a new
    header passes the validation of whoever opens the mapping; every slot has its
    metadata behind the header and before the data, its bytes at a multiple of 64 and
    within the mapping; and two slots share nothing. *)
Theorem slots_are_apart type_ metaType capacity_ maxBytes_ H : fits capacity_ maxBytes_ -> initHeader type_ metaType capacity_ maxBytes_ = Ok H ->
  validateHeader type_ metaType (totalBytes H) H = Ok tt /\
  (forall i, 0 <= i < capacity_ -> exists a b, slotMetaAddress H i = Some a /\ slotDataAddress H i = Some b /\
     sizeofHeader <= a /\ a + sizeofSlotMeta <= dataOffset H /\ dataOffset H <= b /\ b + maxBytes_ <= totalBytes H /\ b mod 64 = 0 /\
     forall j a' b', i < j < capacity_ -> slotMetaAddress H j = Some a' -> slotDataAddress H j = Some b' ->
       a + sizeofSlotMeta <= a' /\ b + maxBytes_ <= b').
Proof.
  intros (Hcap & Hmax & Hmeta & Hcons & Hsum). unfold initHeader, computeTotalBytes_. rewrite (proj2 (Z.eqb_neq capacity_ 0)), (proj2 (Z.eqb_neq maxBytes_ 0)) by lia.
  assert (0 < sizeofHeader) as Hh by (unfold sizeofHeader; lia). assert (24 * capacity_ <= capacity_ * sizeofSlotMeta) as Hcap' by nia.
  rewrite mul64_small by lia. destruct (alignUp_spec sizeofHeader ltac:(lia)) as [Hh1 Hh2]. destruct (alignUp_spec (capacity_ * sizeofSlotMeta) ltac:(lia)) as [Hm1 Hm2].
  destruct (alignUp_spec maxBytes_ ltac:(lia)) as [Hs1 Hs2].
  set (header := alignUpSize sizeofHeader 64) in *. set (metas := alignUpSize (capacity_ * sizeofSlotMeta) 64) in *. set (stride := alignUpSize maxBytes_ 64) in *.
  clearbody header metas stride. assert (stride <= 4294967232) as Hs3 by (pose proof (Z.div_mod stride 64); lia).
  assert (0 <= capacity_ * stride < 18446744069414584320) as Hprod by nia.
  rewrite (mul64_small capacity_ stride), (add64_small header metas), (add64_small (header + metas)) by lia. unfold wrap32. rewrite !Z.mod_small by lia.
  intros [= <-]. cbn [totalBytes dataOffset metaOffset]. split.
  { unfold validateHeader. cbn. rewrite !Z.eqb_refl. cbn. rewrite !(proj2 (Z.eqb_neq _ 0)), (proj2 (Z.ltb_ge _ _)), (proj2 (Z.ltb_ge _ _)) by lia. done. }
  assert (forall k, 0 <= k < capacity_ -> slotMetaAddress (mkHeader kMagic kVersion type_ metaType (header + metas + capacity_ * stride) capacity_ maxBytes_ header
      (header + metas) sizeofSlotMeta stride MaxConsumers kDefaultConsumerTtlMs) k = Some (header + k * sizeofSlotMeta) /\
    slotDataAddress (mkHeader kMagic kVersion type_ metaType (header + metas + capacity_ * stride) capacity_ maxBytes_ header
      (header + metas) sizeofSlotMeta stride MaxConsumers kDefaultConsumerTtlMs) k = Some (header + metas + k * stride)) as Haddr.
  { intros k Hk. unfold slotMetaAddress, slotDataAddress. cbn. destruct (Z.leb_spec capacity_ k); [lia|].
    assert (0 <= k * sizeofSlotMeta <= capacity_ * sizeofSlotMeta) by nia. assert (0 <= k * stride <= capacity_ * stride) by nia.
    rewrite (mul64_small k sizeofSlotMeta), (mul64_small k stride), !add64_small by lia. done. }
  assert (forall n k k', 0 <= n -> k < k' -> k * n + n <= k' * n) as Hmono by (intros n k k' ? ?; clear - H H0; nia).
  intros i Hi. destruct (Haddr i Hi) as [-> ->]. eexists _, _. split; [done|]. split; [done|].
  pose proof (Hmono sizeofSlotMeta i capacity_ ltac:(lia) ltac:(lia)). pose proof (Hmono stride i capacity_ ltac:(lia) ltac:(lia)).
  assert (0 <= i * sizeofSlotMeta) by nia. assert (0 <= i * stride) by nia. repeat (split; [lia|]). split.
  { apply Z.mod_divide; [lia|]. apply Z.mod_divide in Hh2, Hm2, Hs2; [|lia..]. repeat apply Z.divide_add_r; [done|done|by apply Z.divide_mul_r]. }
  intros j a' b' Hj. destruct (Haddr j ltac:(lia)) as [-> ->]. intros [= <-] [= <-].
  pose proof (Hmono sizeofSlotMeta i j ltac:(lia) ltac:(lia)). pose proof (Hmono stride i j ltac:(lia) ltac:(lia)). split; lia.
Qed.

End Ring.

(** With 48 bytes of metadata and room for 8 consumers. *)
Lemma slots_are_apart_witness : exists H, initHeader 48 8 1 2 100 1000 = Ok H /\ fits 48 8 100 1000 /\
  validateHeader 48 8 1 2 (totalBytes H) H = Ok tt /\
  (forall i, 0 <= i < 100 -> exists a b, slotMetaAddress 48 H i = Some a /\ slotDataAddress H i = Some b /\
     sizeofHeader 8 <= a /\ a + 48 <= dataOffset H /\ dataOffset H <= b /\ b + 1000 <= totalBytes H /\ b mod 64 = 0 /\
     forall j a' b', i < j < 100 -> slotMetaAddress 48 H j = Some a' -> slotDataAddress H j = Some b' -> a + 48 <= a' /\ b + 1000 <= b').
Proof.
  eexists. split; [reflexivity|]. assert (fits 48 8 100 1000) as Hf by (unfold fits, sizeofHeader; lia). split; [exact Hf|].
  exact (slots_are_apart 48 8 1 2 100 1000 _ Hf eq_refl).
Defined.

(** With slots of nearly 4 GiB the distance between them, cut to 32 bits, is none. *)
Example stride_cut : match initHeader 48 8 1 2 4 4294967295 with
  Ok H => slotStrideBytes H = 0 /\ slotDataAddress H 1 = slotDataAddress H 2 /\ validateHeader 48 8 1 2 (totalBytes H) H = Ok tt | _ => False end.
Proof. vm_compute. repeat split; reflexivity. Qed.

End NoCopyRingBuffer.
