(* ===== verification/NoCopyRingSpec.v ===== *)
(** What the ring buffer of NoCopyRing.v guarantees under all interleavings: with one
    publisher, readers get whole messages, and what a consumer still needs is kept. *)
From Stdlib Require Import ZArith Lia Strings.Byte.
From stdpp Require Import base list strings gmap numbers relations.
From S2P Require Import Prelude Interleaving NoCopyRing.

Module NoCopyRingSpec.

Import NoCopyRingBuffer.

Section Spec.

Context {Meta : Type} (zeroMeta : Meta) (MaxConsumers : Z) (H : Header).

(** Which threads publish. *)
Context (kinds : list bool).

Abbreviation Shared := (@Shared Meta).
Abbreviation Event := (@Event Meta).
Abbreviation Content := (@Content Meta).
Abbreviation Slot := (@Slot Meta).
Abbreviation slot := (slot zeroMeta).
Abbreviation P := (prog Shared Event).
Abbreviation entryCount := (entryCount MaxConsumers H).

Record header_ok : Prop := {
  ok_capacity : 0 < capacity H < 4294967296;
  ok_maxBytes : 0 < maxBytes H < 4294967296;
  ok_consumers : maxConsumers H < 4294967296
}.

(** * What is guaranteed *)

(** Readers get what was published before, and messages come in increasing order. *)
Definition sound (t : list Event) : Prop :=
  (forall t1 s c t2, t = t1 ++ Received s c :: t2 -> Published s c ∈ t1) /\
  (forall t1 s c t2 s' c', t = t1 ++ Published s c :: t2 -> Published s' c' ∈ t1 -> s' < s).

(** The place of message [s]. *)
Definition place (s : Z) : nat := Z.to_nat (wrap32 (s mod capacity H)).

(** A registered consumer, seen in time, that has not gone past message [s]. *)
Definition needs (j : nat) (s : Z) (m : Shared) : Prop :=
  (j < entryCount)%nat /\ id (entry j m) <> 0 /\ id (entry j m) <> kClaimingConsumerId /\
  lastSeenMs (entry j m) <> 0 /\ expired H (clock m) (lastSeenMs (entry j m)) = false /\ 0 < cursor (entry j m) <= s.

#[export] Instance needs_decision j s m : Decision (needs j s m).
Proof. unfold needs. apply _. Defined.

(** The sequence numbers have not run out. *)
Definition permitted (m : Shared) : Prop := nextSeq m < 18446744073709551615.

(** * Ghost states *)

(** How far the publisher is in its look at the consumers: the entry it comes to, the
    time it took, the least cursor so far. *)
Inductive scan :=
| ScanStart
| ScanAt (j : nat) (now minCur : Z)
| ScanEnd (minCur : Z).

Inductive pub :=
| PIdle
| PTook (s : Z)                                           (* it has the number [s] *)
| PTaken (s : Z) (i : nat) (old : Z) (sc : scan)          (* slot [i] shows 0 instead of [old] *)
| PWriting (s : Z) (i : nat)                              (* it writes message [s] to slot [i] *)
| PLast (s : Z).                                          (* message [s] is visible *)

Inductive ghost :=
| GIdle
| GCounted (i : nat)                                      (* a reader has counted itself *)
| GHolding (i : nat) (s : Z) (c : Content)                (* and holds message [s] *)
| GPub (p : pub).

Definition counts (i : nat) (g : ghost) : nat :=
  match g with
  | GCounted i' | GHolding i' _ _ => if decide (i = i') then 1%nat else 0%nat
  | _ => 0%nat
  end.

Definition is_pub (g : ghost) : bool := match g with GPub _ => true | _ => false end.

Definition count (i : nat) (gs : list ghost) : nat := sum_list_with (counts i) gs.

(** * The invariant *)

Definition unpublished (s : Z) (t : list Event) : Prop := forall c, Published s c ∉ t.

Definition phase_ok (sl : list Slot) (next : Z) (t : list Event) (gs : list ghost) (p : pub) : Prop :=
  match p with
  | PIdle => True
  | PTook s => s = next /\ 0 < s /\ unpublished s t
  | PTaken s i old _ => s = next /\ 0 < s /\ unpublished s t /\ i = place s /\
      exists x, sl !! i = Some x /\ seq x = 0 /\ (old <> 0 -> Published old (contentOf x) ∈ t /\ place old = i)
  | PWriting s i => s = next /\ 0 < s /\ unpublished s t /\ i = place s /\
      (exists x, sl !! i = Some x /\ seq x = 0) /\ forall k s' c, gs !! k <> Some (GHolding i s' c)
  | PLast s => 0 <= s <= next
  end.

Record Slots (sl : list Slot) (next last : Z) (t : list Event) (gs : list ghost) : Prop := {
  si_len : length sl = Z.to_nat (capacity H);
  si_last : 0 <= last <= next;
  si_pub : forall k k' p p', gs !! k = Some (GPub p) -> gs !! k' = Some (GPub p') -> k = k';
  si_ref : forall i x, sl !! i = Some x -> refCount x = Z.of_nat (count i gs);
  si_data : forall i x, sl !! i = Some x -> zlen (data x) = maxBytes H /\ 0 <= bytes x <= maxBytes H;
  si_seq : forall i x, sl !! i = Some x -> seq x <> 0 -> Published (seq x) (contentOf x) ∈ t /\ place (seq x) = i;
  si_events : forall s c, Published s c ∈ t -> 0 < s <= next;
  si_sound : sound t;
  si_hold : forall k i s c, gs !! k = Some (GHolding i s c) -> Published s c ∈ t /\ exists x, sl !! i = Some x /\ contentOf x = c;
  si_phase : forall k p, gs !! k = Some (GPub p) -> phase_ok sl next t gs p
}.

(** What the publisher has found of a consumer that needs message [s]. *)
Definition scan_ok (j : nat) (s : Z) (m : Shared) (sc : scan) : Prop :=
  match sc with
  | ScanStart => True
  | ScanAt k now minCur => now <= clock m /\ ((j < k)%nat -> minCur <= s)
  | ScanEnd minCur => minCur <= s
  end.

(** Message [s] is kept: for consumer [j], which needs it since [n0] numbers were given. *)
Definition kept (j : nat) (s n0 : Z) (m : Shared) (t : list Event) (gs : list ghost) : Prop :=
  n0 < s ->
  (forall c, Published s c ∈ t ->
     (exists x, slots m !! place s = Some x /\ seq x = s) \/
     exists k s' sc, gs !! k = Some (GPub (PTaken s' (place s) s sc))) /\
  (forall k s' i sc, gs !! k = Some (GPub (PTaken s' i s sc)) -> scan_ok j s m sc).

(** Since when a consumer needs a message. *)
Definition History : Type := nat -> Z -> option Z.

Definition record (h : History) (m : Shared) : History := fun j s =>
  if decide (needs j s m) then Some (match h j s with Some n0 => n0 | None => nextSeq m end) else None.

Definition Inv (m : Shared) (t : list Event) (gs : list ghost) (h : History) : Prop :=
  Slots (slots m) (nextSeq m) (lastSeq m) t gs /\ (Z.of_nat (length gs) < 4294967296 /\ is_pub <$> gs = kinds) /\
  forall j s n0, h j s = Some n0 -> needs j s m /\ n0 <= nextSeq m /\ kept j s n0 m t gs.

Abbreviation safe := (safe record permitted Inv).
Abbreviation safe_all := (safe_all record permitted Inv).

(** ** Counting *)

Lemma count_insert i k g g' gs : gs !! k = Some g -> (count i (<[k := g']> gs) + counts i g = count i gs + counts i g')%nat.
Proof.
  unfold count. revert k. induction gs as [|x gs IH]; intros [|k] Hk; [done|done| |].
  - simpl in Hk. simplify_eq. simpl. lia.
  - change (<[S k := g']> (x :: gs)) with (x :: <[k := g']> gs). cbn [sum_list_with]. specialize (IH k Hk). lia.
Qed.

Lemma count_le i gs : (count i gs <= length gs)%nat.
Proof.
  unfold count. induction gs as [|x gs IH]; cbn; [lia|]. destruct x; cbn; try case_decide; lia.
Qed.

Lemma count_zero i gs k s c : count i gs = 0%nat -> gs !! k <> Some (GHolding i s c).
Proof.
  intros Hc Hk. pose proof (count_insert i k _ GIdle gs Hk) as Hi. cbn in Hi. rewrite decide_True in Hi by done. lia.
Qed.

(** ** Traces *)

Lemma snoc_split {A} (t t1 t2 : list A) e x : t ++ [e] = t1 ++ x :: t2 ->
  (exists t2', t = t1 ++ x :: t2') \/ (t = t1 /\ e = x).
Proof.
  destruct t2 as [|y t2 _] using rev_ind; intros Heq.
  - apply app_inj_tail in Heq as [-> ->]. by right.
  - rewrite app_comm_cons, app_assoc in Heq. apply app_inj_tail in Heq as [-> _]. left. by eexists.
Qed.

Lemma sound_app t e : sound t ->
  match e with
  | Published s _ => forall s' c, Published s' c ∈ t -> s' < s
  | Received s c => Published s c ∈ t
  end -> sound (t ++ [e]).
Proof.
  intros [Hr Hp] He. split; intros t1 s c t2.
  - intros [[t2' ->]|[-> ->]]%snoc_split; [by eapply Hr|done].
  - intros s' c' [[t2' ->]|[-> ->]]%snoc_split; [by eapply Hp|]. apply He.
Qed.

Lemma sound_unique t s c c' : sound t -> Published s c ∈ t -> Published s c' ∈ t -> c = c'.
Proof.
  intros [_ Hp] (t1 & t2 & ->)%list_elem_of_split Hc'. apply elem_of_app in Hc' as [Hc'|[Hc'|Hc']%elem_of_cons].
  - pose proof (Hp t1 s c t2 s c' eq_refl Hc'). lia.
  - congruence.
  - apply list_elem_of_split in Hc' as (t3 & t4 & ->).
    pose proof (Hp (t1 ++ Published s c :: t3) s c' t4 s c) as Hlt. rewrite <- app_assoc in Hlt. specialize (Hlt eq_refl). enough (s < s) by lia. apply Hlt, elem_of_app. right. constructor.
Qed.

(** ** What leaves the slots alone *)

(** Programs that do not touch the slots and the numbers, and let time pass only forward. *)
Definition aside (u : Shared -> Shared) : Prop := forall m,
  slots (u m) = slots m /\ nextSeq (u m) = nextSeq m /\ lastSeq (u m) = lastSeq m /\ clock m <= clock (u m).

Fixpoint quiet {A : Type} (p : P A) : Prop :=
  match p with
  | Ret _ => True
  | Act update event next => aside update /\ (forall m, event m = []) /\ forall m, quiet (next m)
  | Loop body next => quiet body /\ quiet next
  end.

Ltac by_aside := intros ?; cbn; repeat case_match; cbn; repeat split; lia.

Lemma quiet_bind {A B} (p : P A) (f : A -> P B) : quiet p -> (forall a, quiet (f a)) -> quiet (bind f p).
Proof.
  revert B f. induction p as [A a|A update event next IH|A body IHb next IHn]; intros B f; cbn; [by auto| |].
  - intros (? & ? & Hn) Hf. split; [done|]. split; [done|]. intros m. by apply IH.
  - intros [? ?] Hf. split; [done|]. by apply IHn.
Qed.

Lemma kept_start j s n0 m t gs : Slots (slots m) (nextSeq m) (lastSeq m) t gs -> nextSeq m <= n0 -> kept j s n0 m t gs.
Proof.
  intros Hs Hle Hlt. split.
  - intros c Hc. apply (si_events _ _ _ _ _ Hs) in Hc. lia.
  - intros k s' i sc Hk. destruct (si_phase _ _ _ _ _ Hs _ _ Hk) as (_ & _ & _ & _ & x & _ & _ & Hx).
    assert (s <> 0) as Hn0 by (pose proof (si_last _ _ _ _ _ Hs); lia). destruct (Hx Hn0) as [Hp _]. apply (si_events _ _ _ _ _ Hs) in Hp. lia.
Qed.

(** How an action keeps the invariant. *)
Lemma inv_step m t gs h u es k g g' : Inv m t gs h -> gs !! k = Some g -> is_pub g' = is_pub g -> nextSeq m <= nextSeq (u m) ->
  Slots (slots (u m)) (nextSeq (u m)) (lastSeq (u m)) (t ++ es) (<[k := g']> gs) ->
  (forall j s n0, needs j s m -> needs j s (u m) -> kept j s n0 m t gs -> kept j s n0 (u m) (t ++ es) (<[k := g']> gs)) ->
  Inv (u m) (t ++ es) (<[k := g']> gs) (record h (u m)).
Proof.
  intros (Hs & [Hl Hk] & Hh) Hg Hg' Hnext Hs' Hkept. split; [done|]. split.
  { rewrite length_insert. split; [done|]. rewrite list_fmap_insert, Hg', list_insert_id; [done|]. by rewrite list_lookup_fmap, Hg. }
  intros j s n0. unfold record.
  case_decide as Hn; [|done]. destruct (h j s) as [n1|] eqn:E; intros [= <-]; (split; [done|]).
  - destruct (Hh j s n1 E) as (? & ? & ?). split; [lia|]. by apply Hkept.
  - split; [done|]. by apply kept_start.
Qed.

Lemma Inv_again m t gs h : Inv m t gs h -> Inv m t gs (record h m).
Proof.
  intros (Hs & Hl & Hh). split; [done|]. split; [done|]. intros j s n0. unfold record.
  case_decide as Hn; [|done]. destruct (h j s) as [n1|] eqn:E; intros [= <-]; (split; [done|]).
  - by apply (Hh j s n1).
  - split; [done|]. by apply kept_start.
Qed.

Lemma scan_mono j s m m' sc : clock m <= clock m' -> scan_ok j s m sc -> scan_ok j s m' sc.
Proof. destruct sc; cbn; [done| |done]. intros ? [? ?]. split; [lia|done]. Qed.

Lemma quiet_safe {A} k (p : P A) g (Q : A -> ghost -> Prop) : quiet p -> (forall a, Q a g) -> safe k p g Q.
Proof.
  revert g Q. induction p as [A a|A update event next IH|A body IHb next IHn]; intros g Q; cbn; [by auto| |].
  - intros (Ha & He & Hn) HQ m t gs h Hp Hp' Hi Hg. exists g. split; [|by apply IH].
    rewrite He, app_nil_r, list_insert_id by done. destruct Hi as (Hs & Hl & Hh). destruct (Ha m) as (E1 & E2 & E3 & Hc).
    rewrite <- (list_insert_id gs k g Hg), <- (app_nil_r t). eapply inv_step; [done|done|done|cbn; lia| |]; rewrite ?app_nil_r, ?list_insert_id by done.
    + by rewrite E1, E2, E3.
    + intros j s n0 _ _ Hkept Hlt. destruct (Hkept Hlt) as [K1 K2]. rewrite E1. split; [done|].
      intros k' s' i sc Hk'. eapply scan_mono; [done|]. by eapply K2.
  - intros [Hb Hn] HQ. exists (fun g' => g' = g). split; [done|]. intros g' ->. apply IHb; [done|]. intros [|]; [done|]. by apply IHn.
Qed.

Lemma safe_quiet_bind {A B} k (p : P A) (f : A -> P B) g (Q : B -> ghost -> Prop) :
  quiet p -> (forall a, safe k (f a) g Q) -> safe k (bind f p) g Q.
Proof. intros Hq Hf. apply safe_bind. by apply quiet_safe. Qed.

Lemma aside_act {A} k u (next : Shared -> P A) g (Q : A -> ghost -> Prop) : aside u -> (forall m, safe k (next m) g Q) ->
  safe k (Act u (fun _ => []) next) g Q.
Proof. intros Hu Hn. apply (safe_quiet_bind k (Act u (fun _ => []) Ret) next); [done|exact Hn]. Qed.

(** ** What the publisher does *)

Lemma alter_Some {A} (f : A -> A) i i' (l : list A) y : alter f i l !! i' = Some y ->
  exists x, l !! i' = Some x /\ (i' = i /\ y = f x \/ i' <> i /\ y = x).
Proof.
  destruct (decide (i' = i)) as [->|Hne].
  - rewrite list_lookup_alter_eq. intros (x & -> & ->)%fmap_Some. eauto.
  - rewrite list_lookup_alter_ne by done. eauto.
Qed.

Lemma phase_ok_insert sl next t gs k g p : (forall i s c, g <> GHolding i s c) ->
  phase_ok sl next t gs p -> phase_ok sl next t (<[k := g]> gs) p.
Proof.
  intros Hg. destruct p; cbn; try done. intros (? & ? & ? & ? & ? & Hh). repeat (split; [done|]).
  intros k' s' c [(_ & E & _)|[_ E]]%list_lookup_insert_Some; [by apply (Hg i s' c)|by eapply Hh].
Qed.

(** An action of the publisher on slot [i] and the numbers, with what it records. *)
Lemma slots_publisher sl next last t gs k p p' i f next' last' es :
  Slots sl next last t gs -> gs !! k = Some (GPub p) ->
  (forall x, sl !! i = Some x ->
     refCount (f x) = refCount x /\ zlen (data (f x)) = maxBytes H /\ 0 <= bytes (f x) <= maxBytes H /\
     (seq (f x) <> 0 -> Published (seq (f x)) (contentOf (f x)) ∈ t ++ es /\ place (seq (f x)) = i) /\
     (contentOf (f x) = contentOf x \/ forall k s c, gs !! k <> Some (GHolding i s c))) ->
  next <= next' -> 0 <= last' <= next' -> sound (t ++ es) -> (forall s c, Published s c ∈ es -> 0 < s <= next') ->
  phase_ok (alter f i sl) next' (t ++ es) gs p' -> Slots (alter f i sl) next' last' (t ++ es) (<[k := GPub p']> gs).
Proof.
  intros Hs Hk Hf Hnext Hlast Hsound Hes Hp'. split.
  - rewrite length_alter. apply Hs.
  - done.
  - intros k1 k2 p1 p2 [(-> & _ & _)|[? K1]]%list_lookup_insert_Some [(-> & _ & _)|[? K2]]%list_lookup_insert_Some; try done;
      by eapply (si_pub _ _ _ _ _ Hs).
  - intros i' y (x & Hx & Hy)%alter_Some. pose proof (count_insert i' k _ (GPub p') gs Hk) as Hc. cbn in Hc.
    replace (count i' (<[k := GPub p']> gs)) with (count i' gs) by lia. destruct Hy as [[-> ->]|[_ ->]]; [|by apply Hs].
    destruct (Hf x Hx) as [-> _]. by apply Hs.
  - intros i' y (x & Hx & [[-> ->]|[_ ->]])%alter_Some; [|by eapply Hs]. destruct (Hf x Hx) as (_ & ? & ? & _). done.
  - intros i' y (x & Hx & [[-> ->]|[_ ->]])%alter_Some Hn.
    + by apply (Hf x Hx).
    + destruct (si_seq _ _ _ _ _ Hs i' x Hx Hn). split; [|done]. apply elem_of_app. by left.
  - intros s c [Hc|Hc]%elem_of_app; [|by eapply Hes]. apply (si_events _ _ _ _ _ Hs) in Hc. lia.
  - done.
  - intros k' i' s c [(_ & E & _)|[_ E]]%list_lookup_insert_Some; [done|]. destruct (si_hold _ _ _ _ _ Hs _ _ _ _ E) as (Hc & x & Hx & He).
    split; [apply elem_of_app; by left|]. destruct (decide (i' = i)) as [->|Hne].
    + exists (f x). rewrite list_lookup_alter_eq, Hx. split; [done|]. destruct (Hf x Hx) as (_ & _ & _ & _ & [->|Hn]); [done|by destruct (Hn k' s c)].
    + exists x. by rewrite list_lookup_alter_ne.
  - intros k' p1 [(-> & [= <-] & _)|[Hne E]]%list_lookup_insert_Some; [by apply phase_ok_insert|].
    destruct Hne. symmetry. by eapply (si_pub _ _ _ _ _ Hs).
Qed.

(** The same without an event, in the slot of its phase. *)
Definition taken (g : ghost) : bool := match g with GPub (PTaken _ _ _ _) => true | _ => false end.

Lemma kept_frame j s n0 m m' t es gs k g g' : gs !! k = Some g -> taken g = false -> taken g' = false ->
  (forall c x, Published s c ∈ t -> slots m !! place s = Some x -> seq x = s -> exists x', slots m' !! place s = Some x' /\ seq x' = s) -> clock m <= clock m' ->
  (forall c, Published s c ∈ es -> exists x, slots m' !! place s = Some x /\ seq x = s) ->
  kept j s n0 m t gs -> kept j s n0 m' (t ++ es) (<[k := g']> gs).
Proof.
  intros Hk Hg Hg' Hsl Hclock Hes Hkept Hlt. destruct (Hkept Hlt) as [K1 K2]. split.
  - intros c [Hc|Hc]%elem_of_app; [|left; by eapply Hes]. destruct (K1 c Hc) as [(x & Hx & Hseq)|(k' & s' & sc & Hk')].
    + left. by eapply Hsl.
    + right. exists k', s', sc. rewrite list_lookup_insert_ne; [done|]. intros <-. rewrite Hk in Hk'. injection Hk' as ->. done.
  - intros k' s' i sc [(_ & -> & _)|[_ E]]%list_lookup_insert_Some; [done|]. eapply scan_mono; [done|]. by eapply K2.
Qed.

Lemma slots_move sl next last t gs k p p' next' last' : Slots sl next last t gs -> gs !! k = Some (GPub p) ->
  next <= next' -> 0 <= last' <= next' -> phase_ok sl next' t gs p' -> Slots sl next' last' t (<[k := GPub p']> gs).
Proof.
  intros Hs Hk Hn Hl Hp'. pose proof (slots_publisher sl next last t gs k p p' 0%nat (fun x => x) next' last' [] Hs Hk) as Hm.
  rewrite app_nil_r, (list_alter_id (fun x => x)) in Hm by done. apply Hm; try done.
  - intros x Hx. split; [done|]. destruct (si_data _ _ _ _ _ Hs _ _ Hx). repeat (split; [done|]). split; [|by left]. by eapply si_seq.
  - apply Hs.
  - intros s c Hc. by apply elem_of_nil in Hc.
Qed.

(** The publisher goes on with its look at the consumers. *)
Lemma inv_scan m t gs h k s i old sc sc' : Inv m t gs h -> gs !! k = Some (GPub (PTaken s i old sc)) ->
  (forall j, needs j old m -> scan_ok j old m sc -> scan_ok j old m sc') ->
  Inv m (t ++ []) (<[k := GPub (PTaken s i old sc')]> gs) (record h m).
Proof.
  intros Hi Hk Hsc. pose proof Hi as (Hs & _). eapply (inv_step m t gs h (fun m => m)); [done|done|done|cbn; lia| |]; rewrite ?app_nil_r.
  - eapply slots_move; [done|done|lia|apply Hs|]. apply (si_phase _ _ _ _ _ Hs _ _ Hk).
  - intros j s0 n0 Hn _ Hkept Hlt. destruct (Hkept Hlt) as [K1 K2]. split.
    + intros c Hc. destruct (K1 c Hc) as [?|(k' & s' & sc0 & Hk')]; [by left|]. right.
      destruct (decide (k' = k)) as [->|Hne]; [|exists k', s', sc0; by rewrite list_lookup_insert_ne].
      rewrite Hk in Hk'. injection Hk' as -> -> -> ->. exists k, s', sc'. apply list_lookup_insert_eq. by eapply lookup_lt_Some.
    + intros k' s' i' sc0 [(<- & [= <- <- <- <-] & _)|[_ E]]%list_lookup_insert_Some; [|by eapply K2].
      apply Hsc; [done|]. by eapply K2.
Qed.

(** To the next action. *)
Ltac go := unfold mbind, mret, prog_bind, prog_ret, load, store, exchange, storeAnd; cbn [bind].
Ltac act := go; apply safe_act; cbn beta.

(** The publisher comes to entry [j], or to the end. *)
Definition scanTo (j : nat) (now minCur : Z) : scan := if decide (j = entryCount) then ScanEnd minCur else ScanAt j now minCur.

Lemma scanTo_ok j0 s m j now minCur : (j0 < entryCount)%nat -> now <= clock m -> ((j0 < j)%nat -> minCur <= s) -> scan_ok j0 s m (scanTo j now minCur).
Proof. intros Hj Hn Hm. unfold scanTo. case_decide as E; cbn; [apply Hm; lia|done]. Qed.

Lemma minCursor_safe k s i old now n j minCur (Q : Z -> ghost -> Prop) : (j + n)%nat = entryCount ->
  (forall minCur, Q minCur (GPub (PTaken s i old (ScanEnd minCur)))) ->
  safe k (minCursor_loop H now n j minCur) (GPub (PTaken s i old (scanTo j now minCur))) Q.
Proof.
  intros Hn HQ. revert j minCur Hn. induction n as [|n IH]; intros j minCur Hn.
  - cbn. unfold scanTo. rewrite decide_True by lia. apply HQ.
  - assert (scanTo j now minCur = ScanAt j now minCur) as Ej by (unfold scanTo; by rewrite decide_False by lia).
    assert (forall m j0, needs j0 old m -> scan_ok j0 old m (ScanAt j now minCur) -> (j0 <> j \/ minCur <= old) -> scan_ok j0 old m (scanTo (S j) now minCur)) as Hskip.
    { intros m j0 (Hlt & _) [? Hmin] Hor. apply scanTo_ok; [done|done|]. intros Hj0. destruct Hor; [|done]. apply Hmin. lia. }
    rewrite Ej. cbn [minCursor_loop]. act. intros m t gs h _ _ Hi Hg. destruct ((id (entry j m) =? 0) || (id (entry j m) =? kClaimingConsumerId)) eqn:Eid.
    { exists (GPub (PTaken s i old (scanTo (S j) now minCur))). split; [|go; apply IH; lia].
      eapply inv_scan; [done|done|]. intros j0 Hj0 Hok. apply Hskip; [done|done|]. left. intros ->. destruct Hj0 as (_ & ? & ? & _).
      apply orb_true_iff in Eid as [?%Z.eqb_eq|?%Z.eqb_eq]; done. }
    exists (GPub (PTaken s i old (ScanAt j now minCur))). split; [by eapply inv_scan|]. clear m t gs h Hi Hg Eid. act.
    intros m t gs h _ _ Hi Hg.
    destruct ((lastSeenMs (entry j m) =? 0) || expired H now (lastSeenMs (entry j m))) eqn:Eseen.
    { exists (GPub (PTaken s i old (scanTo (S j) now minCur))). split.
      - eapply inv_scan; [done|done|]. intros j0 Hj0 Hok. apply Hskip; [done|done|]. left. intros ->. destruct Hj0 as (_ & _ & _ & Hseen & Hexp & _).
        destruct Hok as [Hnow _]. apply orb_true_iff in Eseen as [?%Z.eqb_eq|He]; [done|]. unfold expired in He, Hexp.
        apply andb_true_iff in He as [?%Z.ltb_lt ?%Z.ltb_lt]. apply andb_false_iff in Hexp as [?%Z.ltb_ge|?%Z.ltb_ge]; lia.
      - go. destruct (lastSeenMs (entry j m) =? 0); [apply IH; lia|]. destruct (expired H now (lastSeenMs (entry j m))); [apply IH; lia|done]. }
    apply orb_false_iff in Eseen as [E1 E2]. exists (GPub (PTaken s i old (ScanAt j now minCur))). split; [by eapply inv_scan|]. go. rewrite ?E1, ?E2.
    clear m t gs h Hi Hg E1 E2. act. intros m t gs h _ _ Hi Hg.
    set (minCur' := if cursor (entry j m) =? 0 then minCur else if cursor (entry j m) <? minCur then cursor (entry j m) else minCur).
    exists (GPub (PTaken s i old (scanTo (S j) now minCur'))). split.
    + eapply inv_scan; [done|done|]. intros j0 Hj0 [Hnow Hmin]. pose proof Hj0 as (Hlt & _ & _ & _ & _ & Hcur). apply scanTo_ok; [done|done|].
      intros Hj. unfold minCur'. destruct (decide (j0 = j)) as [->|Hne].
      * destruct (Z.eqb_spec (cursor (entry j m)) 0); [lia|]. destruct (Z.ltb_spec (cursor (entry j m)) minCur); lia.
      * specialize (Hmin ltac:(lia)). destruct (Z.eqb_spec (cursor (entry j m)) 0); [done|]. destruct (Z.ltb_spec (cursor (entry j m)) minCur); lia.
    + go. unfold minCur'. destruct (cursor (entry j m) =? 0); apply IH; lia.
Qed.

Lemma minConsumerCursor_safe k s i old (Q : Z -> ghost -> Prop) :
  (forall minCur, Q minCur (GPub (PTaken s i old (ScanEnd minCur)))) ->
  safe k (minConsumerCursor_ MaxConsumers H) (GPub (PTaken s i old ScanStart)) Q.
Proof.
  intros HQ. unfold minConsumerCursor_. apply safe_quiet_bind; [done|]. intros last. act. intros m t gs h _ _ Hi Hg.
  exists (GPub (PTaken s i old (scanTo 0 (clock m) (last +u 1)))). split; [|apply minCursor_safe; [lia|done]].
  eapply inv_scan; [done|done|]. intros j0 [Hlt _] _. apply scanTo_ok; [done|done|lia].
Qed.

(** An action of the publisher outside its look at the consumers: on slot [i], the
    numbers, or neither. *)
Lemma inv_publisher m t gs h k p p' u i f es : Inv m t gs h -> gs !! k = Some (GPub p) -> taken (GPub p) = false -> taken (GPub p') = false ->
  slots (u m) = alter f i (slots m) -> clock m <= clock (u m) ->
  (forall x, slots m !! i = Some x ->
     refCount (f x) = refCount x /\ zlen (data (f x)) = maxBytes H /\ 0 <= bytes (f x) <= maxBytes H /\
     (seq (f x) <> 0 -> Published (seq (f x)) (contentOf (f x)) ∈ t ++ es /\ place (seq (f x)) = i) /\
     (contentOf (f x) = contentOf x \/ forall k s c, gs !! k <> Some (GHolding i s c)) /\ (seq (f x) = seq x \/ seq x = 0)) ->
  nextSeq m <= nextSeq (u m) -> 0 <= lastSeq (u m) <= nextSeq (u m) -> sound (t ++ es) ->
  (forall s c, Published s c ∈ es -> 0 < s <= nextSeq (u m) /\ place s = i /\ forall x, slots m !! i = Some x -> seq (f x) = s) ->
  (es = [] \/ exists x, slots m !! i = Some x) ->
  phase_ok (alter f i (slots m)) (nextSeq (u m)) (t ++ es) gs p' ->
  Inv (u m) (t ++ es) (<[k := GPub p']> gs) (record h (u m)).
Proof.
  intros Hi Hk Hp Hp' Esl Hclock Hf Hnext Hlast Hsound Hes Hex Hph. pose proof Hi as (Hs & _). eapply inv_step; [done|done|done|cbn; lia| |].
  - rewrite Esl. eapply slots_publisher; try done.
    + intros x Hx. destruct (Hf x Hx) as (? & ? & ? & ? & ? & _). done.
    + intros s c Hc. by destruct (Hes s c Hc).
  - intros j s n0 _ _ Hkept. eapply kept_frame; [done|done|done| |done| |done].
    + intros c x Hc Hx Hseq. rewrite Esl. destruct (decide (place s = i)) as [E|Hne]; [|by rewrite list_lookup_alter_ne by done; eauto].
      rewrite E in *. rewrite list_lookup_alter_eq, Hx. exists (f x). split; [done|]. destruct (Hf x Hx) as (_ & _ & _ & _ & _ & [?|?]); [congruence|].
      apply (si_events _ _ _ _ _ Hs) in Hc. lia.
    + intros c Hc. destruct (Hes s c Hc) as (_ & E & Hseq). destruct Hex as [->|[x Hx]]; [by apply elem_of_nil in Hc|].
      exists (f x). rewrite Esl, E, list_lookup_alter_eq, Hx. split; [done|]. by apply Hseq.
Qed.

(** It gives the slot it has taken back, or decides to write. *)
Lemma inv_back m t gs h k s i old sc : Inv m t gs h -> gs !! k = Some (GPub (PTaken s i old sc)) ->
  Inv (onSlot i (set_seq old) m) (t ++ []) (<[k := GPub PIdle]> gs) (record h (onSlot i (set_seq old) m)).
Proof.
  intros Hi Hk. pose proof Hi as (Hs & _). pose proof (si_phase _ _ _ _ _ Hs _ _ Hk) as (_ & _ & _ & _ & x & Hx & H0 & Hold).
  eapply inv_step; [done|done|done|cbn; lia| |].
  - eapply slots_publisher; [done|done| |cbn; lia|apply Hs|rewrite app_nil_r; apply Hs| |done].
    + rewrite app_nil_r. intros y Hy. assert (y = x) as -> by congruence. split; [done|]. destruct (si_data _ _ _ _ _ Hs _ _ Hx).
      split; [done|]. split; [done|]. split; [exact Hold|by left].
    + intros s' c Hc. by apply elem_of_nil in Hc.
  - intros j s0 n0 _ _ Hkept Hlt. destruct (Hkept Hlt) as [K1 K2]. rewrite app_nil_r. split.
    + intros c Hc. left. cbn. destruct (K1 c Hc) as [(y & Hy & Hseq)|(k' & s' & sc' & Hk')].
      * destruct (decide (place s0 = i)) as [E|Hne]; [|by rewrite list_lookup_alter_ne by done; eauto].
        rewrite E in *. apply (si_events _ _ _ _ _ Hs) in Hc. assert (y = x) as -> by congruence. lia.
      * assert (k' = k) as -> by (by eapply (si_pub _ _ _ _ _ Hs)). rewrite Hk in Hk'. injection Hk' as -> -> -> ->.
        exists (set_seq s0 x). by rewrite list_lookup_alter_eq, Hx.
    + intros k' s' i' sc' [(_ & [=] & _)|[_ E]]%list_lookup_insert_Some. eapply scan_mono; [|by eapply K2]. cbn. lia.
Qed.

Lemma inv_decide m t gs h k s i old minCur x : Inv m t gs h -> gs !! k = Some (GPub (PTaken s i old (ScanEnd minCur))) ->
  old = 0 \/ old < minCur -> slots m !! i = Some x -> refCount x = 0 ->
  Inv m (t ++ []) (<[k := GPub (PWriting s i)]> gs) (record h m).
Proof.
  intros Hi Hk Hold Hx Hr. pose proof Hi as (Hs & _). pose proof (si_phase _ _ _ _ _ Hs _ _ Hk) as (? & ? & ? & ? & y & Hy & Hy0 & _).
  eapply (inv_step m t gs h (fun m => m)); [done|done|done|cbn; lia| |]; rewrite app_nil_r.
  - eapply slots_move; [done|done|lia|apply Hs|]. cbn. repeat (split; [done|]). split; [by exists y|].
    intros k' s' c. apply count_zero. pose proof (si_ref _ _ _ _ _ Hs _ _ Hx). lia.
  - intros j s0 n0 _ _ Hkept Hlt. destruct (Hkept Hlt) as [K1 K2]. split.
    + intros c Hc. destruct (K1 c Hc) as [?|(k' & s' & sc' & Hk')]; [by left|]. exfalso.
      assert (k' = k) as -> by (by eapply (si_pub _ _ _ _ _ Hs)). rewrite Hk in Hk'. injection Hk' as -> -> -> <-.
      pose proof (K2 _ _ _ _ Hk) as Hsc. cbn in Hsc. apply (si_events _ _ _ _ _ Hs) in Hc. lia.
    + intros k' s' i' sc' [(_ & [=] & _)|[_ E]]%list_lookup_insert_Some. by eapply K2.
Qed.

Lemma inv_take m t gs h k s i : Inv m t gs h -> gs !! k = Some (GPub (PTook s)) -> i = place s -> is_Some (slots m !! i) ->
  Inv (onSlot i (set_seq 0) m) (t ++ []) (<[k := GPub (PTaken s i (seq (slot i m)) ScanStart)]> gs) (record h (onSlot i (set_seq 0) m)).
Proof.
  intros Hi Hk Hpl [x Hx]. pose proof Hi as (Hs & _). pose proof (si_phase _ _ _ _ _ Hs _ _ Hk) as (? & ? & ?).
  assert (slot i m = x) as Ex by (unfold slot; by rewrite Hx). rewrite Ex. eapply inv_step; [done|done|done|cbn; lia| |].
  - eapply slots_publisher; [done|done| |cbn; lia|apply Hs|rewrite app_nil_r; apply Hs| | ].
    + intros y Hy. split; [done|]. destruct (si_data _ _ _ _ _ Hs _ _ Hy). split; [done|]. split; [done|]. split; [by intros ?|by left].
    + intros s' c Hc. by apply elem_of_nil in Hc.
    + rewrite app_nil_r. cbn. repeat (split; [done|]). exists (set_seq 0 x). rewrite list_lookup_alter_eq, Hx. split; [done|]. split; [done|].
      intros Hn. exact (si_seq _ _ _ _ _ Hs i x Hx Hn).
  - intros j s0 n0 _ _ Hkept Hlt. destruct (Hkept Hlt) as [K1 K2]. rewrite app_nil_r. split.
    + intros c Hc. cbn. destruct (K1 c Hc) as [(y & Hy & Hseq)|(k' & s' & sc' & Hk')].
      * destruct (decide (place s0 = i)) as [E|Hne]; [|left; by rewrite list_lookup_alter_ne by done; eauto].
        right. rewrite E in *. assert (y = x) as -> by congruence. rewrite Hseq. exists k, s, ScanStart.
        apply list_lookup_insert_eq. by eapply lookup_lt_Some.
      * assert (k' = k) as -> by (by eapply (si_pub _ _ _ _ _ Hs)). rewrite Hk in Hk'. done.
    + intros k' s' i' sc' [(_ & [= <- <- <- <-] & _)|[_ E]]%list_lookup_insert_Some; [done|]. eapply scan_mono; [|by eapply K2]. cbn. lia.
Qed.

Context (Hok : header_ok).

Lemma slot_index_range s : wrap32 (s mod capacity H) = s mod capacity H /\ 0 <= s mod capacity H < capacity H.
Proof.
  destruct Hok as [Hc _ _]. pose proof (Z.mod_pos_bound s (capacity H) ltac:(lia)). split; [|lia]. unfold wrap32. apply Z.mod_small. lia.
Qed.

Lemma slotMeta_place s : slotMeta_ H (wrap32 (s mod capacity H)) = Some (place s) /\ slotData_ H (wrap32 (s mod capacity H)) = Some (place s).
Proof.
  unfold slotMeta_, slotData_, place. destruct (slot_index_range s) as [-> ?]. by destruct (Z.leb_spec (capacity H) (s mod capacity H)); [lia|].
Qed.

Lemma place_Some m t gs h s : Inv m t gs h -> exists x, slots m !! place s = Some x /\ slot (place s) m = x.
Proof.
  intros (Hs & _). destruct (lookup_lt_is_Some_2 (slots m) (place s)) as [x Hx].
  - rewrite (si_len _ _ _ _ _ Hs). unfold place. destruct (slot_index_range s) as [-> ?]. lia.
  - exists x. split; [done|]. unfold slot. by rewrite Hx.
Qed.

(** While it writes, what it writes is its own. *)
Lemma write_act {A} k s i f (next : Shared -> P A) (Q : A -> ghost -> Prop) :
  (forall x, refCount (f x) = refCount x /\ seq (f x) = seq x /\ length (data (f x)) = length (data x) /\
     (0 <= bytes x <= maxBytes H -> 0 <= bytes (f x) <= maxBytes H)) ->
  (forall m, safe k (next m) (GPub (PWriting s i)) Q) -> safe k (Act (onSlot i f) (fun _ => []) next) (GPub (PWriting s i)) Q.
Proof.
  intros Hf HQ. act. intros m t gs h _ _ Hi Hg. exists (GPub (PWriting s i)). split; [|apply HQ].
  pose proof Hi as (Hs & _). pose proof (si_phase _ _ _ _ _ Hs _ _ Hg) as (? & ? & ? & ? & (y & Hy & Hy0) & Hno).
  eapply inv_publisher; [done|done|done|done|done|cbn; lia| |cbn; lia|apply Hs|rewrite app_nil_r; apply Hs| |by left|].
  - intros x Hx. destruct (Hf x) as (? & Hseq & Hlen & ?). destruct (si_data _ _ _ _ _ Hs _ _ Hx) as [Hd ?]. assert (x = y) as -> by congruence.
    split; [done|]. split; [congruence|]. split; [by auto|]. split; [congruence|]. split; [by right|]. by left.
  - intros s' c Hc. by apply elem_of_nil in Hc.
  - rewrite app_nil_r. cbn. repeat (split; [done|]). split; [|done]. exists (f y). rewrite list_lookup_alter_eq, Hy. split; [done|].
    destruct (Hf y) as (_ & -> & _). done.
Qed.

Lemma giveBack_safe k s i old sc (Q : option WriteLease -> ghost -> Prop) : Q None (GPub PIdle) ->
  safe k (giveBack i old) (GPub (PTaken s i old sc)) Q.
Proof.
  intros HQ. unfold giveBack. act. intros m t gs h _ _ Hi Hg. exists (GPub PIdle). split; [by eapply inv_back|].
  apply aside_act; [by_aside|]. by intros _.
Qed.

(** The publisher is given a slot to write, or nothing. *)
Definition begun (l : option WriteLease) (g : ghost) : Prop :=
  match l with
  | None => g = GPub PIdle
  | Some w => g = GPub (PWriting (w_seq w) (w_slot w)) /\ w_seq w <> 0 /\ capacityBytes w = maxBytes H
  end.

Lemma beginWrite_safe k (Q : option WriteLease -> ghost -> Prop) : (forall l g, begun l g -> Q l g) ->
  safe k (beginWrite zeroMeta MaxConsumers H) (GPub PIdle) Q.
Proof.
  intros HQ. unfold beginWrite. destruct ((capacity H =? 0) || (maxBytes H =? 0)); [by apply HQ|].
  act. intros m t gs h Hp _ Hi Hg. exists (GPub (PTook (nextSeq m +u 1))). unfold permitted in Hp. pose proof Hi as (Hs & _).
  pose proof (si_last _ _ _ _ _ Hs) as Hl. rewrite add64_small by lia. split.
  { eapply (inv_publisher m t gs h k PIdle _ _ 0%nat (fun x => x)); [done|done|done|done| |cbn; lia| |cbn; lia|cbn; lia| | |by left|].
    - cbn. by rewrite list_alter_id.
    - intros x Hx. destruct (si_data _ _ _ _ _ Hs _ _ Hx). repeat (split; [done|]). rewrite app_nil_r. split; [by apply (si_seq _ _ _ _ _ Hs)|].
      split; by left.
    - rewrite app_nil_r. apply Hs.
    - intros s c Hc. by apply elem_of_nil in Hc.
    - rewrite app_nil_r. cbn. split; [done|]. split; [lia|]. intros c Hc. apply (si_events _ _ _ _ _ Hs) in Hc. lia. }
  generalize (nextSeq m + 1) as s. clear m t gs h Hp Hi Hg Hs Hl. intros s. destruct (slotMeta_place s) as [-> Edata].
  act. intros m t gs h _ _ Hi Hg. destruct (place_Some m t gs h s Hi) as (x & Hx & ->).
  assert (0 < s) as Hpos by (pose proof Hi as (Hs & _); by apply (si_phase _ _ _ _ _ Hs _ _ Hg)).
  exists (GPub (PTaken s (place s) (seq x) ScanStart)). split.
  { replace (seq x) with (seq (slot (place s) m)) by (unfold slot; by rewrite Hx). eapply inv_take; try done. }
  generalize (seq x) as old. clear m t gs h Hi Hg x Hx. intros old. apply safe_bind. apply minConsumerCursor_safe. intros minCur.
  destruct (negb (old =? 0) && (minCur <=? old)) eqn:Eold; [by apply giveBack_safe, HQ|].
  act. intros m t gs h _ _ Hi Hg. destruct (place_Some m t gs h s Hi) as (x & Hx & ->).
  destruct (Z.eqb_spec (refCount x) 0) as [Hr|Hr]; cbn [negb].
  - exists (GPub (PWriting s (place s))). split.
    { eapply inv_decide; [done|done| |done|done]. apply andb_false_iff in Eold as [Eold%negb_false_iff%Z.eqb_eq|Eold%Z.leb_gt]; lia. }
    rewrite Edata. go. do 3 (apply write_act; [intros y; cbn; repeat split; lia|intros _]). apply HQ. cbn. split; [done|]. split; [lia|done].
  - exists (GPub (PTaken s (place s) old (ScanEnd minCur))). split; [by eapply inv_scan|]. by apply giveBack_safe, HQ.
Qed.

(** The publisher goes on without the slots: [u] changes the numbers at most. *)
Lemma inv_number m t gs h k p p' u : Inv m t gs h -> gs !! k = Some (GPub p) -> taken (GPub p) = false -> taken (GPub p') = false ->
  slots (u m) = slots m -> clock m = clock (u m) -> nextSeq (u m) = nextSeq m -> 0 <= lastSeq (u m) <= nextSeq m ->
  phase_ok (slots m) (nextSeq m) t gs p' -> Inv (u m) (t ++ []) (<[k := GPub p']> gs) (record h (u m)).
Proof.
  intros Hi Hk Hp Hp' Esl Eclock Enext Elast Hph. pose proof Hi as (Hs & _).
  eapply (inv_publisher m t gs h k p _ _ 0%nat (fun x => x)); try done; rewrite ?app_nil_r, ?Enext; try lia; try apply Hs.
  - by rewrite list_alter_id.
  - intros x Hx. destruct (si_data _ _ _ _ _ Hs _ _ Hx). repeat (split; [done|]). split; [by apply (si_seq _ _ _ _ _ Hs)|]. split; by left.
  - intros s c Hc. by apply elem_of_nil in Hc.
  - by left.
  - by rewrite (list_alter_id (fun x => x)).
Qed.

Lemma cancel_safe k s i (Q : unit -> ghost -> Prop) : Q tt (GPub PIdle) -> safe k cancelWrite_ (GPub (PWriting s i)) Q.
Proof.
  intros HQ. unfold cancelWrite_. act. intros m t gs h _ _ Hi Hg. exists (GPub PIdle). split; [|exact HQ].
  pose proof Hi as (Hs & _). eapply inv_number; try done. apply Hs.
Qed.

Lemma commitWrite_safe k w n (Q : bool -> ghost -> Prop) : 0 <= n -> (forall b, Q b (GPub PIdle)) ->
  safe k (commitWrite_ zeroMeta H w n) (GPub (PWriting (w_seq w) (w_slot w))) Q.
Proof.
  intros Hn HQ. unfold commitWrite_. destruct ((n =? 0) || (maxBytes H <? n)) eqn:E.
  { apply safe_bind, cancel_safe. apply HQ. }
  apply orb_false_iff in E as [?%Z.eqb_neq ?%Z.ltb_ge]. destruct w as [i s old cap]. cbn [w_seq w_slot].
  go. apply write_act; [intros x; cbn; repeat split; lia|]. intros _. apply aside_act; [by_aside|]. intros m0. generalize (clock m0) as now. intros now. clear m0.
  apply write_act; [intros x; cbn; repeat split; lia|]. intros _.
  act. intros m t gs h _ _ Hi Hg. pose proof Hi as (Hs & _). pose proof (si_phase _ _ _ _ _ Hs _ _ Hg) as (Hs1 & Hs2 & Hun & Hpl & (x & Hx & Hx0) & Hno).
  assert (slot i m = x) as Ex by (unfold slot; by rewrite Hx). exists (GPub (PLast s)). split.
  - rewrite Ex. eapply inv_publisher; [done|done|done|done|done|cbn; lia| |cbn; lia|apply Hs| | |right; by exists x|cbn; lia].
    + intros y Hy. assert (y = x) as -> by congruence. destruct (si_data _ _ _ _ _ Hs _ _ Hx). repeat (split; [done|]). split; [|split; [by left|by right]].
      intros _. split; [|done]. apply elem_of_app. right. apply list_elem_of_singleton. done.
    + apply sound_app; [apply Hs|]. intros s' c Hc. pose proof (si_events _ _ _ _ _ Hs _ _ Hc). destruct (decide (s' = s)) as [->|]; [|lia].
      by destruct (Hun c).
    + intros s' c Hc. apply list_elem_of_singleton in Hc. injection Hc as -> ->. cbn. split; [lia|]. done.
  - act. clear dependent m t gs h. intros m t gs h _ _ Hi Hg. exists (GPub PIdle). split; [|apply HQ].
    pose proof Hi as (Hs & _). pose proof (si_phase _ _ _ _ _ Hs _ _ Hg). eapply inv_number; try done.
Qed.

Lemma copyIn_safe k s i bs (Q : unit -> ghost -> Prop) at_ : Q tt (GPub (PWriting s i)) -> safe k (copyIn i at_ bs) (GPub (PWriting s i)) Q.
Proof.
  intros HQ. revert at_. induction bs as [|b bs IH]; intros at_; [done|]. cbn [copyIn]. go.
  apply write_act; [|by intros _]. intros x. cbn. rewrite length_insert. repeat split; lia.
Qed.

Lemma writeBytes_safe k w writes (Q : unit -> ghost -> Prop) : Q tt (GPub (PWriting (w_seq w) (w_slot w))) ->
  safe k (writeBytes w writes) (GPub (PWriting (w_seq w) (w_slot w))) Q.
Proof.
  intros HQ. induction writes as [|[at_ b] writes IH]; [done|]. cbn [writeBytes]. destruct ((0 <=? at_) && (at_ <? capacityBytes w)); go; [|done].
  apply write_act; [|by intros _]. intros x. cbn. rewrite length_insert. repeat split; lia.
Qed.

Lemma publish_safe k op (Q : unit -> ghost -> Prop) : (forall u, Q u (GPub PIdle)) ->
  safe k (publish zeroMeta MaxConsumers H op) (GPub PIdle) Q.
Proof.
  intros HQ. destruct op as [bs v|writes v commit]; cbn [publish].
  - apply safe_bind. unfold publishCopy. destruct ((zlen bs =? 0) || (maxBytes H <? zlen bs)); [apply HQ|].
    apply safe_bind, beginWrite_safe. intros [w|] g; cbn [begun]; [|intros ->; apply HQ]. intros (-> & Hw & _).
    unfold writable. rewrite (proj2 (Z.eqb_neq _ _) Hw). cbn [negb]. apply safe_bind, copyIn_safe.
    go. apply write_act; [intros x; cbn; repeat split; lia|]. intros _. apply commitWrite_safe; [lia|]. intros _. apply HQ.
  - apply safe_bind, beginWrite_safe. intros [w|] g; cbn [begun]; [|intros ->; apply HQ]. intros (-> & Hw & _).
    unfold writable. rewrite (proj2 (Z.eqb_neq _ _) Hw). cbn [negb]. apply safe_bind, writeBytes_safe.
    assert (safe k (match commit with Some n => commitWrite_ zeroMeta H w (wrap32 n);; mret tt | None => cancelWrite_ end) (GPub (PWriting (w_seq w) (w_slot w))) Q) as Hc.
    { destruct commit as [n|]; [|apply cancel_safe, HQ]. apply safe_bind, commitWrite_safe; [apply Z.mod_pos_bound; lia|]. intros _. apply HQ. }
    destruct v as [v|]; [|exact Hc]. go. apply write_act; [intros x; cbn; repeat split; lia|]. intros _. exact Hc.
Qed.

(** ** What readers do *)

Lemma inv_aside m t gs h k g u : Inv m t gs h -> gs !! k = Some g -> aside u -> Inv (u m) (t ++ []) (<[k := g]> gs) (record h (u m)).
Proof.
  intros Hi Hg Hu. pose proof Hi as (Hs & _). destruct (Hu m) as (E1 & E2 & E3 & Hc). eapply inv_step; [done|done|done|cbn; lia| |]; rewrite app_nil_r, list_insert_id by done.
  - by rewrite E1, E2, E3.
  - intros j s n0 _ _ Hkept Hlt. destruct (Hkept Hlt) as [K1 K2]. rewrite E1. split; [done|].
    intros k' s' i sc Hk'. eapply scan_mono; [done|]. by eapply K2.
Qed.

(** A look at the memory, with what the invariant says of it. *)
Lemma look_act {A} k g (next : Shared -> P A) (Q : A -> ghost -> Prop) :
  (forall m t gs h, Inv m t gs h -> gs !! k = Some g -> safe k (next m) g Q) -> safe k (Act (fun m => m) (fun _ => []) next) g Q.
Proof.
  intros Hn. act. intros m t gs h _ _ Hi Hg. exists g. split; [|by eapply Hn]. by apply (inv_aside m t gs h k g (fun m => m)); [..|by_aside].
Qed.

Definition reading (g : ghost) : Prop := forall p, g <> GPub p.

(** A reader counts itself in or out of slot [i], and may have found message [s]. *)
Lemma inv_reader m t gs h k g g' i x v : Inv m t gs h -> gs !! k = Some g -> reading g -> reading g' -> slots m !! i = Some x ->
  v + Z.of_nat (counts i g) = refCount x + Z.of_nat (counts i g') -> (forall i', i' <> i -> counts i' g = counts i' g') ->
  (forall i' s c, g' = GHolding i' s c -> i' = i /\ seq x = s /\ s <> 0 /\ contentOf x = c) ->
  Inv (onSlot i (set_refCount v) m) (t ++ []) (<[k := g']> gs) (record h (onSlot i (set_refCount v) m)).
Proof.
  intros Hi Hk Hg Hg' Hx Hv Hother Hhold. pose proof Hi as (Hs & _).
  assert (forall i' y, alter (set_refCount v) i (slots m) !! i' = Some y ->
    exists y0, slots m !! i' = Some y0 /\ seq y = seq y0 /\ bytes y = bytes y0 /\ data y = data y0 /\ contentOf y = contentOf y0) as Hy.
  { intros i' y (y0 & Hy0 & [[_ ->]|[_ ->]])%alter_Some; by exists y0. }
  assert (forall i' y, slots m !! i' = Some y -> exists y', alter (set_refCount v) i (slots m) !! i' = Some y' /\ seq y' = seq y /\ contentOf y' = contentOf y) as Hy'.
  { intros i' y Hy0. destruct (decide (i' = i)) as [->|Hne]; [|rewrite list_lookup_alter_ne by done; eauto].
    rewrite list_lookup_alter_eq, Hy0. by exists (set_refCount v y). }
  eapply inv_step; [done|done| |cbn; lia| |]; rewrite ?app_nil_r.
  - destruct g as [| | |p], g' as [| | |p']; try done; [by destruct (Hg' p')|by destruct (Hg' p')|by destruct (Hg' p')|by destruct (Hg p)..].
  - split; cbn [slots nextSeq lastSeq onSlot set_slots].
    + rewrite length_alter. apply Hs.
    + apply Hs.
    + intros k1 k2 p1 p2 [(_ & E & _)|[_ E1]]%list_lookup_insert_Some; [by destruct (Hg' p1)|].
      intros [(_ & E & _)|[_ E2]]%list_lookup_insert_Some; [by destruct (Hg' p2)|]. by eapply (si_pub _ _ _ _ _ Hs).
    + intros i' y (y0 & Hy0 & Heq)%alter_Some. pose proof (count_insert i' k _ g' gs Hk) as Hc. pose proof (si_ref _ _ _ _ _ Hs _ _ Hy0) as Hr.
      destruct Heq as [[-> ->]|[Hne ->]]; [|rewrite <- (Hother i' Hne) in Hc; lia]. assert (y0 = x) as -> by congruence. cbn. lia.
    + intros i' y (y0 & Hy0 & _ & -> & -> & _)%Hy. by apply (si_data _ _ _ _ _ Hs i').
    + intros i' y (y0 & Hy0 & -> & _ & _ & ->)%Hy. by apply (si_seq _ _ _ _ _ Hs).
    + apply Hs.
    + apply Hs.
    + intros k' i' s c [(_ & E & _)|[_ E]]%list_lookup_insert_Some.
      * destruct (Hhold i' s c E) as (-> & Hseq & Hn & Hc). destruct (si_seq _ _ _ _ _ Hs i x Hx ltac:(congruence)) as [Hp _].
        rewrite Hseq, Hc in Hp. split; [done|]. destruct (Hy' i x Hx) as (y' & ? & _ & ?). exists y'. split; congruence.
      * destruct (si_hold _ _ _ _ _ Hs _ _ _ _ E) as (Hp & y & Hy0 & Hc). split; [done|]. destruct (Hy' i' y Hy0) as (y' & ? & _ & ?).
        exists y'. split; congruence.
    + intros k' p [(_ & E & _)|[_ E]]%list_lookup_insert_Some; [by destruct (Hg' p)|]. pose proof (si_phase _ _ _ _ _ Hs _ _ E) as Hph.
      destruct p as [|s|s i' old sc|s i'|s]; cbn in *; try done.
      * destruct Hph as (? & ? & ? & ? & y & Hy0 & Hn & Hold). repeat (split; [done|]). destruct (Hy' i' y Hy0) as (y' & ? & E1 & E2).
        exists y'. split; [done|]. split; [congruence|]. by rewrite E2.
      * destruct Hph as (? & ? & ? & ? & (y & Hy0 & Hn) & Hno). repeat (split; [done|]). split.
        -- destruct (Hy' i' y Hy0) as (y' & ? & ? & _). exists y'. split; [done|congruence].
        -- intros k0 s' c [(_ & E0 & _)|[_ E0]]%list_lookup_insert_Some; [|by eapply Hno]. destruct (Hhold i' s' c E0) as (-> & Hseq & Hs0 & _). congruence.
  - intros j s n0 _ _ Hkept. rewrite <- (app_nil_r t). eapply (kept_frame j s n0 m); [done| | | |cbn; lia| |done].
    + destruct g; try done. by destruct (Hg p).
    + destruct g'; try done. by destruct (Hg' p).
    + intros c y _ Hy0 Hseq. destruct (Hy' _ y Hy0) as (y' & ? & ? & _). exists y'. split; [done|congruence].
    + intros c Hc. by apply elem_of_nil in Hc.
Qed.

Lemma count_bound m t gs h i x : Inv m t gs h -> slots m !! i = Some x -> 0 <= refCount x < 4294967296.
Proof.
  intros (Hs & [Hl _] & _) Hx. rewrite (si_ref _ _ _ _ _ Hs i x Hx). pose proof (count_le i gs). lia.
Qed.

Lemma held m t gs h k i s d v time : Inv m t gs h -> gs !! k = Some (GHolding i s (d, v, time)) ->
  Published s (d, v, time) ∈ t /\ bytes (slot i m) = zlen d /\ (exists rest, data (slot i m) = d ++ rest) /\
  meta (slot i m) = v /\ publishTimeUs (slot i m) = time.
Proof.
  intros (Hs & _) Hk. destruct (si_hold _ _ _ _ _ Hs _ _ _ _ Hk) as (Hp & x & Hx & Hc).
  assert (slot i m = x) as -> by (unfold slot; by rewrite Hx). destruct (si_data _ _ _ _ _ Hs _ _ Hx) as [Hd Hb].
  unfold contentOf in Hc. injection Hc as <- <- <-. split; [done|]. split; [rewrite length_take; lia|]. split; [|done].
  exists (drop (Z.to_nat (bytes x)) (data x)). by rewrite take_drop.
Qed.

Lemma onSlot_ext i f f' (m : Shared) x : slots m !! i = Some x -> f x = f' x -> onSlot i f m = onSlot i f' m.
Proof. intros Hx Hf. unfold onSlot. f_equal. apply list_alter_ext; [|done]. intros y Hy. assert (y = x) as -> by congruence. done. Qed.

(** A reader counts itself out. *)
Lemma uncount_act {A} k i g (next : Shared -> P A) (Q : A -> ghost -> Prop) : reading g -> counts i g = 1%nat ->
  (forall i', i' <> i -> counts i' g = 0%nat) -> (exists s, i = place s) -> (forall m, safe k (next m) GIdle Q) ->
  safe k (Act (onSlot i (fun x => set_refCount (wrap32 (refCount x - 1)) x)) (fun _ => []) next) g Q.
Proof.
  intros Hr H1 H0 [s ->] Hn. act. intros m t gs h _ _ Hi Hg. exists GIdle. split; [|apply Hn].
  destruct (place_Some m t gs h s Hi) as (x & Hx & _). pose proof (count_bound m t gs h _ x Hi Hx). pose proof Hi as (Hs & _).
  pose proof (count_insert (place s) k _ GIdle gs Hg) as Hc. pose proof (si_ref _ _ _ _ _ Hs _ _ Hx). rewrite H1 in Hc. cbn in Hc.
  rewrite (onSlot_ext _ _ (set_refCount (refCount x - 1)) m x Hx) by (unfold wrap32; rewrite Z.mod_small by lia; done).
  eapply inv_reader; [done|done|done|done|done|rewrite H1; cbn; lia|exact H0|done].
Qed.

Lemma hold_safe k s (Q : option nat -> ghost -> Prop) : s <> 0 -> Q None GIdle -> (forall c, Q (Some (place s)) (GHolding (place s) s c)) ->
  safe k (hold zeroMeta H s) GIdle Q.
Proof.
  intros Hs0 HQ HQ'. unfold hold. destruct (slotMeta_place s) as [-> ->]. go. apply aside_act; [by_aside|]. intros m0.
  destruct (negb (seq (slot (place s) m0) =? s)); [done|]. clear m0. go.
  assert (forall i', i' <> place s -> counts i' (GCounted (place s)) = 0%nat) as Hother by (intros i' ?; cbn; by rewrite decide_False).
  assert (counts (place s) (GCounted (place s)) = 1%nat) as Hone by (cbn; by rewrite decide_True).
  act. intros m t gs h _ _ Hi Hg. exists (GCounted (place s)). split.
  { destruct (place_Some m t gs h s Hi) as (x & Hx & _). pose proof (count_bound m t gs h _ x Hi Hx). pose proof Hi as (Hs & [Hl _] & _).
    pose proof (count_insert (place s) k _ (GCounted (place s)) gs Hg) as Hc. pose proof (si_ref _ _ _ _ _ Hs _ _ Hx). rewrite Hone in Hc. cbn [counts] in Hc.
    pose proof (count_le (place s) (<[k := GCounted (place s)]> gs)) as Hle. rewrite length_insert in Hle.
    rewrite (onSlot_ext _ _ (set_refCount (refCount x + 1)) m x Hx) by (unfold wrap32; rewrite Z.mod_small by lia; done).
    eapply inv_reader; [done|done|done|done|done|rewrite Hone; cbn; lia| |done]. intros i' Hne. by rewrite Hother. }
  clear m t gs h Hi Hg. act. intros m t gs h _ _ Hi Hg. destruct (place_Some m t gs h s Hi) as (x & Hx & ->).
  destruct (Z.eqb_spec (seq x) s) as [Hseq|Hseq]; cbn [negb].
  - exists (GHolding (place s) s (contentOf x)). split; [|apply HQ'].
    assert (onSlot (place s) (set_refCount (refCount x)) m = m) as E.
    { rewrite (onSlot_ext _ _ (fun x => x) m x Hx) by (by destruct x). unfold onSlot. rewrite list_alter_id by done. by destruct m. }
    assert (forall i' s' c, GHolding (place s) s (contentOf x) = GHolding i' s' c -> i' = place s /\ seq x = s' /\ s' <> 0 /\ contentOf x = c) as Hh
      by (by intros i' s' c [= <- <- <-]).
    pose proof (inv_reader m t gs h k _ (GHolding (place s) s (contentOf x)) _ x (refCount x) Hi Hg ltac:(done) ltac:(done) Hx ltac:(cbn; lia) ltac:(done) Hh) as Hnew.
    by rewrite E in Hnew.
  - exists (GCounted (place s)). split; [by eapply (inv_aside m t gs h k _ (fun m => m)); [done|done|by_aside]|]. go.
    apply uncount_act; [done|done|done|by exists s|]. by intros _.
Qed.

(** Holding the slot, it reads what was published. *)
Lemma copyOut_safe k i s d v time (Q : list byte -> ghost -> Prop) at_ n : (at_ + n = length d)%nat ->
  Q (drop at_ d) (GHolding i s (d, v, time)) -> safe k (copyOut zeroMeta i at_ n) (GHolding i s (d, v, time)) Q.
Proof.
  revert at_ Q. induction n as [|n IH]; intros at_ Q Hn HQ; cbn [copyOut].
  - rewrite drop_ge in HQ by lia. exact HQ.
  - go. apply look_act. intros m t gs h Hi Hg.
    destruct (held m t gs h k i s d v time Hi Hg) as (_ & _ & [rest Hd] & _). rewrite Hd, lookup_app_l by lia.
    destruct (lookup_lt_is_Some_2 d at_ ltac:(lia)) as [b Hb]. rewrite Hb. cbn [default].
    apply safe_bind. apply IH; [lia|]. rewrite (drop_S d b at_ Hb) in HQ. exact HQ.
Qed.

Lemma inv_received m t gs h k i s c : Inv m t gs h -> gs !! k = Some (GHolding i s c) -> Published s c ∈ t ->
  Inv m (t ++ [Received s c]) (<[k := GHolding i s c]> gs) (record h m).
Proof.
  intros Hi Hg Hp. pose proof Hi as (Hs & _).
  assert (forall s' c', Published s' c' ∈ t ++ [Received s c] <-> Published s' c' ∈ t) as Hin.
  { intros s' c'. rewrite elem_of_app, list_elem_of_singleton. split; [|by left]. intros [?|[=]]. done. }
  eapply (inv_step m t gs h (fun m => m)); [done|done|done|cbn; lia| |]; rewrite list_insert_id by done.
  - split; try apply Hs.
    + intros i' x Hx Hn. rewrite Hin. by apply (si_seq _ _ _ _ _ Hs).
    + intros s' c'. rewrite Hin. apply Hs.
    + apply sound_app; [apply Hs|done].
    + intros k' i' s' c'. rewrite Hin. apply Hs.
    + intros k' p Hk. pose proof (si_phase _ _ _ _ _ Hs _ _ Hk) as Hph. unfold phase_ok, unpublished in *. destruct p; try done.
      * destruct Hph as (? & ? & ?). split; [done|]. split; [done|]. intros c'. by rewrite Hin.
      * destruct Hph as (? & ? & ? & ? & x & ? & ? & Hold). split; [done|]. split; [done|]. split; [intros c'; by rewrite Hin|]. split; [done|].
        exists x. split; [done|]. split; [done|]. by rewrite Hin.
      * destruct Hph as (? & ? & ? & ?). split; [done|]. split; [done|]. split; [|done]. intros c'. by rewrite Hin.
  - intros j s' n0 _ _ Hkept Hlt. destruct (Hkept Hlt) as [K1 K2]. split; [|done]. intros c' Hc'. apply (K1 c'). by apply Hin.
Qed.

Lemma readOut_safe k l c (Q : unit -> ghost -> Prop) : Q tt (GHolding (r_slot l) (r_seq l) c) ->
  safe k (readOut zeroMeta l) (GHolding (r_slot l) (r_seq l) c) Q.
Proof.
  intros HQ. destruct c as [[d v] time]. unfold readOut. go. apply look_act. intros m t gs h Hi Hg.
  destruct (held m t gs h k _ _ d v time Hi Hg) as (_ & -> & _). rewrite Nat2Z.id. apply safe_bind, copyOut_safe; [lia|]. rewrite drop_0.
  clear m t gs h Hi Hg. go. apply look_act. intros m t gs h Hi Hg. destruct (held m t gs h k _ _ d v time Hi Hg) as (_ & _ & _ & -> & _).
  clear m t gs h Hi Hg. go. apply look_act. intros m t gs h Hi Hg. destruct (held m t gs h k _ _ d v time Hi Hg) as (_ & _ & _ & _ & ->).
  clear m t gs h Hi Hg. act. intros m t gs h _ _ Hi Hg. exists (GHolding (r_slot l) (r_seq l) (d, v, time)). split; [|exact HQ].
  destruct (held m t gs h k _ _ d v time Hi Hg) as (Hp & _). by apply inv_received.
Qed.

(** ** What consumers do aside *)

Lemma quiet_act {A} u (next : Shared -> P A) : aside u -> (forall m, quiet (next m)) -> quiet (Act u (fun _ => []) next).
Proof. done. Qed.

Lemma quiet_loop {A} body (next : P A) : quiet body -> quiet next -> quiet (Loop body next).
Proof. done. Qed.

Ltac solve_quiet := repeat (go; match goal with
  | |- quiet (Ret _) => exact I
  | |- quiet (Act _ _ _) => apply quiet_act; [by_aside|intros ?]
  | |- quiet (Loop _ _) => apply quiet_loop
  | |- quiet (if ?b then _ else _) => destruct b
  | |- quiet (match ?o with _ => _ end) => destruct o
  | |- quiet (bind _ _) => apply quiet_bind; [|intros ?]
  | |- _ => solve [auto]
  end).

Lemma raiseCursor_quiet j next rest : quiet rest -> quiet (raiseCursor (Meta:=Meta) j next rest).
Proof. intros Hr. unfold raiseCursor. solve_quiet. Qed.

Lemma touch_quiet j : quiet (touch (Meta:=Meta) j).
Proof. unfold touch, nowMs. solve_quiet. Qed.

Lemma keepUpInMapping_quiet index x next : quiet (keepUpInMapping_ (Meta:=Meta) MaxConsumers H index x next).
Proof. unfold keepUpInMapping_. pose proof touch_quiet. pose proof raiseCursor_quiet. solve_quiet. Qed.

Lemma reuse_quiet process myId now n i : quiet (reuse_loop (Meta:=Meta) process myId now n i).
Proof. revert i. induction n as [|n IH]; intros i; [done|]. cbn [reuse_loop]. solve_quiet. Qed.

Lemma claim_quiet process myId now n i : quiet (claim_loop (Meta:=Meta) H process myId now n i).
Proof. revert i. induction n as [|n IH]; intros i; [done|]. cbn [claim_loop]. unfold claim, initEntry. solve_quiet. Qed.

Lemma registerInMapping_quiet process : quiet (registerInMapping_ (Meta:=Meta) MaxConsumers H process).
Proof. unfold registerInMapping_, makeConsumerId_, nowMs. pose proof reuse_quiet. pose proof claim_quiet. solve_quiet. Qed.

Lemma ensureRegistered_quiet process c : quiet (ensureRegistered_ (Meta:=Meta) MaxConsumers H process c).
Proof. unfold ensureRegistered_. pose proof registerInMapping_quiet. solve_quiet. Qed.

Lemma unregister_quiet c : quiet (unregister (Meta:=Meta) MaxConsumers H c).
Proof. unfold unregister. solve_quiet. Qed.

Lemma keepUp_quiet process next c : quiet (keepUp (Meta:=Meta) MaxConsumers H process next c).
Proof.
  unfold keepUp. pose proof ensureRegistered_quiet. pose proof raiseCursor_quiet. pose proof touch_quiet. solve_quiet.
Qed.

(** *** Reading and releasing *)

Lemma readAndRelease_safe k l c (Q : unit -> ghost -> Prop) : (exists s, r_slot l = place s) -> Q tt GIdle ->
  safe k (readAndRelease zeroMeta MaxConsumers H (Some l)) (GHolding (r_slot l) (r_seq l) c) Q.
Proof.
  intros Hp HQ. cbn [readAndRelease]. apply safe_bind, readOut_safe. unfold release_. go.
  apply uncount_act; [done|cbn; by rewrite decide_True|intros i' ?; cbn; by rewrite decide_False|done|]. intros _.
  destruct (_ && _); [|exact HQ]. apply quiet_safe; [apply keepUpInMapping_quiet|]. by intros [].
Qed.

Lemma acquired_safe {A} k s (f : nat -> A) (Q : option A -> ghost -> Prop) : s <> 0 -> Q None GIdle ->
  (forall c, Q (Some (f (place s))) (GHolding (place s) s c)) ->
  safe k (held ← hold zeroMeta H s; mret (match held with Some i => Some (f i) | None => None end)) GIdle Q.
Proof. intros Hs HQ HQ'. apply safe_bind, hold_safe; [done|exact HQ|exact HQ']. Qed.

Lemma reader_safe k s (Q : unit -> ghost -> Prop) : Q tt GIdle ->
  safe k (l ← acquire zeroMeta H s; readAndRelease zeroMeta MaxConsumers H l) GIdle Q.
Proof.
  intros HQ. apply safe_bind. unfold acquire. destruct ((s =? 0) || (capacity H =? 0)) eqn:E; [exact HQ|].
  apply orb_false_iff in E as [E%Z.eqb_neq _]. apply (acquired_safe k s (fun i => mkReadLease i s kInvalidIndex 0)); [done|exact HQ|].
  intros c. apply (readAndRelease_safe k (mkReadLease (place s) s kInvalidIndex 0)); [by exists s|exact HQ].
Qed.

(** What a consumer is given, if anything: a message it holds. *)
Definition given (l : option ReadLease) (g : ghost) : Prop :=
  match l with
  | None => g = GIdle
  | Some l => exists c, g = GHolding (r_slot l) (r_seq l) c /\ r_slot l = place (r_seq l)
  end.

Lemma consumerAcquire_safe k process s c (Q : Consumer * option ReadLease -> ghost -> Prop) : (forall c l g, given l g -> Q (c, l) g) ->
  safe k (consumerAcquire zeroMeta MaxConsumers H process s c) GIdle Q.
Proof.
  intros HQ. unfold consumerAcquire. apply safe_quiet_bind; [apply ensureRegistered_quiet|]. intros [c' registered].
  destruct (negb registered || (s =? 0) || (capacity H =? 0)) eqn:E; [by apply HQ|].
  apply orb_false_iff in E as [[_ E%Z.eqb_neq]%orb_false_iff _]. apply safe_quiet_bind.
  { pose proof touch_quiet. solve_quiet. }
  intros _. apply safe_bind, hold_safe; [done|by apply HQ|]. intros content. apply HQ. cbn. by exists content.
Qed.

Lemma consume_safe k process op c (Q : Consumer -> ghost -> Prop) : (forall c, Q c GIdle) ->
  safe k (consume zeroMeta MaxConsumers H process op c) GIdle Q.
Proof.
  intros HQ. assert (forall c l g, given l g -> safe k (readAndRelease zeroMeta MaxConsumers H l;; mret c) g Q) as Hread.
  { intros c0 [l|] g; cbn [given]; [|intros ->; apply HQ]. intros (content & -> & Hp).
    apply safe_bind, readAndRelease_safe; [by eexists|apply HQ]. }
  destruct op as [next|s| |]; cbn [consume].
  - apply quiet_safe; [apply keepUp_quiet|exact HQ].
  - apply safe_bind, consumerAcquire_safe. exact Hread.
  - apply safe_bind. unfold consumerReadLatest. apply safe_quiet_bind; [apply ensureRegistered_quiet|]. intros [c' registered].
    destruct (negb registered); [apply HQ|]. go. apply aside_act; [by_aside|]. intros m. apply consumerAcquire_safe. exact Hread.
  - apply safe_quiet_bind; [apply unregister_quiet|]. intros _. apply HQ.
Qed.

(** ** Every program *)

Definition ghost_of (client : @Client Meta) : ghost := match client with Publisher _ => GPub PIdle | _ => GIdle end.

Lemma inTurn_safe {A B} k (f : B -> A -> P A) (J : ghost -> Prop) (Q : A -> ghost -> Prop) ops a g : J g ->
  (forall op a g, J g -> safe k (f op a) g (fun _ g' => J g')) -> (forall a g, J g -> Q a g) -> safe k (inTurn f ops a) g Q.
Proof.
  intros Hg Hf HQ. revert a g Hg. induction ops as [|op ops IH]; intros a g Hg; cbn [inTurn]; [by apply HQ|].
  apply safe_bind. eapply safe_mono; [|by apply Hf]. intros a' g' Hg'. by apply IH.
Qed.

(** Where a program ends. *)
Definition ended (g : ghost) : Prop := g = GIdle \/ g = GPub PIdle.

Lemma program_safe k client : safe k (program zeroMeta MaxConsumers H client) (ghost_of client) (fun _ => ended).
Proof.
  assert (forall (u : unit) g, g = GIdle -> ended g) as Hend by (intros _ g ->; by left).
  destruct client as [ops|seqs|process ops|ticks]; cbn [program ghost_of].
  - apply (inTurn_safe k _ (fun g => g = GPub PIdle)); [done| |intros _ g ->; by right]. intros op u g ->. by apply publish_safe.
  - apply (inTurn_safe k _ (fun g => g = GIdle)); [done| |done]. intros [s|] u g ->.
    + by apply reader_safe.
    + unfold readLatest. go. apply aside_act; [by_aside|]. intros m. by apply reader_safe.
  - apply safe_quiet_bind; [apply registerInMapping_quiet|]. intros c. apply safe_bind.
    apply (inTurn_safe k _ (fun g => g = GIdle)); [done|intros op c' g ->; by apply consume_safe|]. intros c' g ->.
    apply quiet_safe; [apply unregister_quiet|by left].
  - apply quiet_safe; [|by left]. generalize tt as u. induction ticks as [|d ticks IH]; intros u; [done|]. cbn [inTurn]. solve_quiet.
Qed.

(** One client at most is a publisher. *)
Definition isPublisher (client : @Client Meta) : bool := match client with Publisher _ => true | _ => false end.

Definition one_publisher (clients : list (@Client Meta)) : Prop := (length (List.filter isPublisher clients) <= 1)%nat.

Lemma one_publisher_unique clients k k' c c' : one_publisher clients -> clients !! k = Some c -> clients !! k' = Some c' ->
  isPublisher c = true -> isPublisher c' = true -> k = k'.
Proof.
  unfold one_publisher. intros Hone Hk Hk' Hc Hc'. destruct (Nat.lt_trichotomy k k') as [Hlt|[->|Hlt]]; [|done|]; exfalso.
  - apply take_drop_middle in Hk as E. rewrite <- E, List.filter_app in Hone. cbn in Hone. rewrite Hc in Hone.
    assert (In c' (List.filter isPublisher (drop (S k) clients))) as Hin.
    { apply filter_In. split; [|done]. apply list_elem_of_In. rewrite list_elem_of_lookup. exists (k' - S k)%nat. rewrite lookup_drop. by replace (S k + (k' - S k))%nat with k' by lia. }
    rewrite length_app in Hone. cbn in Hone. destruct (List.filter isPublisher (drop (S k) clients)); [done|]. cbn in Hone. lia.
  - apply take_drop_middle in Hk' as E. rewrite <- E, List.filter_app in Hone. cbn in Hone. rewrite Hc' in Hone.
    assert (In c (List.filter isPublisher (drop (S k') clients))) as Hin.
    { apply filter_In. split; [|done]. apply list_elem_of_In. rewrite list_elem_of_lookup. exists (k - S k')%nat. rewrite lookup_drop. by replace (S k' + (k - S k'))%nat with k by lia. }
    rewrite length_app in Hone. cbn in Hone. destruct (List.filter isPublisher (drop (S k') clients)); [done|]. cbn in Hone. lia.
Qed.

Lemma count_idle i clients : count i (ghost_of <$> clients) = 0%nat.
Proof. unfold count. induction clients as [|c cs IH]; [done|]. cbn. rewrite IH. by destruct c. Qed.

Definition noHistory : History := fun _ _ => None.

Lemma inv_start now clients : kinds = isPublisher <$> clients -> one_publisher clients -> Z.of_nat (length clients) < 4294967296 ->
  Inv (initShared zeroMeta MaxConsumers H now) [] (ghost_of <$> clients) noHistory.
Proof.
  intros Hkinds Hone Hlen. split; [|split; [|done]].
  2: { rewrite length_fmap. split; [done|]. rewrite Hkinds, <- list_fmap_compose. apply list_fmap_ext. by intros ? []. }
  destruct Hok as [Hcap Hmax _].
  assert (forall k p, (ghost_of <$> clients) !! k = Some (GPub p) -> p = PIdle /\ exists c, clients !! k = Some c /\ isPublisher c = true) as Hpub.
  { intros k p. rewrite list_lookup_fmap, fmap_Some. intros (c & Hc & Hp). destruct c; try done. injection Hp as ->. split; [done|]. by eexists. }
  split; cbn [slots nextSeq lastSeq initShared].
  - by rewrite length_replicate.
  - lia.
  - intros k k' p p' (_ & c & ? & ?)%Hpub (_ & c' & ? & ?)%Hpub. by eapply one_publisher_unique.
  - intros i x [-> _]%lookup_replicate. by rewrite count_idle.
  - intros i x [-> _]%lookup_replicate. cbn. rewrite length_replicate. lia.
  - by intros i x [-> _]%lookup_replicate.
  - intros s c Hc. by apply elem_of_nil in Hc.
  - split; [by intros []|by intros []].
  - intros k i s c. rewrite list_lookup_fmap, fmap_Some. intros (cl & _ & E). by destruct cl.
  - intros k p [-> _]%Hpub. done.
Qed.

(** What the processes can do, as long as there are numbers left. *)
Definition within (c c' : config (M:=Shared) (E:=Event)) : Prop := step c c' /\ permitted (memory c').

Lemma within_reach c0 h0 c c' h : reach record permitted c0 h0 c h -> rtc within c c' -> exists h', reach record permitted c0 h0 c' h'.
Proof.
  intros Hr Hw. revert h Hr. induction Hw as [c|c c1 c' [Hs Hp] _ IH]; intros h Hr; [by exists h|].
  eapply IH. by eapply reach_step.
Qed.

Lemma within_inv now clients c h : kinds = isPublisher <$> clients -> one_publisher clients -> Z.of_nat (length clients) < 4294967296 ->
  reach record permitted (start zeroMeta MaxConsumers H now clients) noHistory c h ->
  permitted (memory c) /\ exists gs, Inv (memory c) (trace c) gs h /\ safe_all ended (threads c) gs.
Proof.
  intros Hkinds Hone Hlen Hr.
  destruct (safe_reach record permitted Inv ended Inv_again (start zeroMeta MaxConsumers H now clients) noHistory (ghost_of <$> clients) c h) with (4 := Hr) as [Hp Hi].
  - cbn. unfold permitted. cbn. lia.
  - by apply inv_start.
  - cbn. split; [by rewrite !length_fmap|]. intros k p g Hp Hg. rewrite list_lookup_fmap, fmap_Some in Hp. rewrite list_lookup_fmap, fmap_Some in Hg.
    destruct Hp as (c1 & Hc1 & ->). destruct Hg as (c2 & Hc2 & ->). assert (c1 = c2) as -> by congruence. apply program_safe.
  - done.
Qed.

(** The history remembers since when a consumer needs a message, all the while. *)
Lemma within_needs c0 h0 c c' h j s n : reach record permitted c0 h0 c h -> (exists n0, h j s = Some n0 /\ n0 <= n) ->
  rtc (fun a b => within a b /\ needs j s (memory b)) c c' ->
  exists h' n0, reach record permitted c0 h0 c' h' /\ h' j s = Some n0 /\ n0 <= n.
Proof.
  intros Hr Hn Hw. revert h Hr Hn. induction Hw as [c|c c1 c' [[Hs Hp] Hneed] _ IH]; intros h Hr (n0 & Hh & Hle); [by exists h, n0|].
  eapply IH; [by eapply reach_step|]. exists n0. unfold record. rewrite decide_True, Hh by done. done.
Qed.

(** A need has a beginning in the history. *)
Lemma needs_since now clients c h j s : reach record permitted (start zeroMeta MaxConsumers H now clients) noHistory c h ->
  needs j s (memory c) -> is_Some (h j s).
Proof.
  intros Hr Hn. destruct Hr as [|c h c' _ _ _].
  - exfalso. destruct Hn as (_ & Hid & _). apply Hid. unfold entry, start, initShared. cbn.
    destruct (replicate (Z.to_nat MaxConsumers) emptyEntry !! j) eqn:E; [|done]. by apply lookup_replicate in E as [-> _].
  - unfold record. rewrite decide_True by done. by destruct (h j s).
Qed.

End Spec.

Section Claims.

Context {Meta : Type} (zeroMeta : Meta) (MaxConsumers : Z) (H : Header).

(** C9: readers get whole messages.  Whatever publisher, readers and consumers there are,
    one publisher at most, and however their accesses to the shared memory interleave:
    what a reader has read through a lease is what the publisher had published under this
    number before, all bytes, the metadata and the time; and numbers increase. *)
Theorem messages_are_whole now clients c : header_ok H -> one_publisher clients -> Z.of_nat (length clients) < 4294967296 ->
  rtc within (start zeroMeta MaxConsumers H now clients) c ->
  (forall t1 s content t2, trace c = t1 ++ Received s content :: t2 -> Published s content ∈ t1) /\
  (forall t1 s content t2 s' content', trace c = t1 ++ Published s content :: t2 -> Published s' content' ∈ t1 -> s' < s).
Proof.
  intros Hok Hone Hlen Hw. destruct (within_reach MaxConsumers H _ noHistory _ _ noHistory (reach_start _ _ _ _) Hw) as [h Hr].
  destruct (within_inv zeroMeta MaxConsumers H (isPublisher <$> clients) Hok now clients c h) as (_ & gs & (Hs & _) & _); try done. apply Hs.
Qed.

(** What a consumer has needed since before it was published. *)
Definition needed_since (clients : list (@Client Meta)) (now : Z) (j : nat) (s : Z) (c : config) : Prop :=
  exists c0, rtc within (start zeroMeta MaxConsumers H now clients) c0 /\ needs MaxConsumers H j s (memory c0) /\
    nextSeq (memory c0) < s /\ rtc (fun a b => within a b /\ needs MaxConsumers H j s (memory b)) c0 c.

Lemma needed_inv now clients c j s : header_ok H -> one_publisher clients -> Z.of_nat (length clients) < 4294967296 ->
  needed_since clients now j s c ->
  exists gs h n0, Inv MaxConsumers H (isPublisher <$> clients) (memory c) (trace c) gs h /\
    safe_all (record MaxConsumers H) permitted (Inv MaxConsumers H (isPublisher <$> clients)) ended (threads c) gs /\
    n0 < s /\ kept H j s n0 (memory c) (trace c) gs /\ needs MaxConsumers H j s (memory c) /\ permitted (memory c).
Proof.
  intros Hok Hone Hlen (c0 & Hw0 & Hn0 & Hlt & Hw).
  destruct (within_reach MaxConsumers H _ noHistory _ _ noHistory (reach_start _ _ _ _) Hw0) as [h0 Hr0].
  destruct (needs_since zeroMeta MaxConsumers H now clients c0 h0 j s Hr0 Hn0) as [n0 Hh0].
  destruct (within_inv zeroMeta MaxConsumers H (isPublisher <$> clients) Hok now clients c0 h0) as (_ & gs0 & (_ & _ & Hi0) & _); try done.
  destruct (Hi0 j s n0 Hh0) as (_ & Hle & _).
  destruct (within_needs MaxConsumers H _ _ _ c h0 j s (nextSeq (memory c0)) Hr0 ltac:(by exists n0) Hw) as (h & n1 & Hr & Hh & Hle1).
  destruct (within_inv zeroMeta MaxConsumers H (isPublisher <$> clients) Hok now clients c h) as (Hperm & gs & Hi & Hs); try done.
  pose proof Hi as (_ & _ & Hk). destruct (Hk j s n1 Hh) as (? & _ & ?). exists gs, h, n1. split; [done|]. split; [done|]. split; [lia|]. done.
Qed.

Lemma kept_slot now clients c j s content : header_ok H -> one_publisher clients -> Z.of_nat (length clients) < 4294967296 ->
  needed_since clients now j s c -> Published s content ∈ trace c ->
  exists x, slots (memory c) !! place H s = Some x /\ contentOf x = content /\ 0 < s <= nextSeq (memory c) /\ 0 <= bytes x <= zlen (data x) /\
    (seq x = s \/ seq x = 0 /\ exists k ops p, clients !! k = Some (Publisher ops) /\ threads c !! k = Some p /\ forall u, p <> Ret u).
Proof.
  intros Hok Hone Hlen Hn Hp. destruct (needed_inv now clients c j s Hok Hone Hlen Hn) as (gs & h & n0 & (Hs & [_ Hkinds] & _) & [Hl Hsafe] & Hlt & Hk & _).
  destruct (Hk Hlt) as [K1 _]. pose proof (si_events _ _ _ _ _ _ Hs _ _ Hp) as Hpos.
  assert (forall x, slots (memory c) !! place H s = Some x -> Published s (contentOf x) ∈ trace c ->
    contentOf x = content /\ 0 < s <= nextSeq (memory c) /\ 0 <= bytes x <= zlen (data x)) as Hx0.
  { intros x Hx Hpx. destruct (si_data _ _ _ _ _ _ Hs _ _ Hx). split; [|split; [done|lia]]. by eapply sound_unique; [apply Hs|..]. }
  destruct (K1 content Hp) as [(x & Hx & Hseq)|(k & s' & sc & Hg)].
  - exists x. destruct (si_seq _ _ _ _ _ _ Hs _ _ Hx) as [Hp' _]; [lia|]. rewrite Hseq in Hp'. destruct (Hx0 x Hx Hp') as (? & ? & ?). repeat (split; [done|]). by left.
  - destruct (si_phase _ _ _ _ _ _ Hs _ _ Hg) as (_ & _ & _ & _ & x & Hx & Hseq & Hold). destruct (Hx0 x Hx) as (? & ? & ?); [apply Hold; lia|].
    exists x. split; [done|]. split; [done|]. split; [done|]. split; [done|]. right. split; [done|]. exists k.
    assert ((isPublisher <$> clients) !! k = Some true) as Hc by (by rewrite <- Hkinds, list_lookup_fmap, Hg).
    rewrite list_lookup_fmap, fmap_Some in Hc. destruct Hc as (cl & Hcl & Hpub). destruct cl as [ops| | |]; try done. exists ops.
    destruct (lookup_lt_is_Some_2 (threads c) k) as [p Hpk]; [rewrite Hl; by eapply lookup_lt_Some|]. exists p. split; [done|]. split; [done|].
    intros u ->. pose proof (Hsafe k _ _ Hpk Hg) as Hend. cbn in Hend. destruct Hend as [Hend|Hend]; done.
Qed.

(** ** A consumer alone *)

Abbreviation Shared := (@Shared Meta).
Abbreviation Slot := (@Slot Meta).
Abbreviation slot := (slot zeroMeta).
Abbreviation P := (prog Shared (@Event Meta)).

Ltac go := unfold mbind, mret, prog_bind, prog_ret, load, store, exchange, storeAnd; cbn [bind].

Lemma act_alone {A} (u : Shared -> Shared) (next : Shared -> P A) m a m' es : alone (next m) (u m) a m' es ->
  alone (Act u (fun _ => []) next) m a m' es.
Proof. intros Ha. apply (alone_act u (fun _ => []) next m a m' es Ha). Qed.

Lemma touch_alone j (m : Shared) : alone (touch j) m tt (onEntry j (set_lastSeenMs (clock m)) m) [].
Proof. unfold touch, nowMs. go. apply act_alone, act_alone. apply alone_ret. Qed.

Lemma slot_onSlot i f (m : Shared) x : slots m !! i = Some x -> slot i (onSlot i f m) = f x.
Proof. intros Hx. unfold slot, onSlot. cbn. by rewrite list_lookup_alter_eq, Hx. Qed.

Lemma entry_onEntry j f (m : Shared) e : consumers m !! j = Some e -> entry j (onEntry j f m) = f e.
Proof. intros He. unfold entry, onEntry. cbn. by rewrite list_lookup_alter_eq, He. Qed.

Definition countIn (s : Z) : Shared -> Shared := onSlot (place H s) (fun x => set_refCount (wrap32 (refCount x + 1)) x).
Definition countOut (s : Z) : Shared -> Shared := onSlot (place H s) (fun x => set_refCount (wrap32 (refCount x - 1)) x).

Lemma hold_alone m s x : header_ok H -> slots m !! place H s = Some x -> seq x = s -> alone (hold zeroMeta H s) m (Some (place H s)) (countIn s m) [].
Proof.
  intros Hok Hx Hseq. assert (slot (place H s) m = x) as Ex by (unfold slot; by rewrite Hx).
  unfold hold. destruct (slotMeta_place H Hok s) as [-> ->]. go. apply act_alone. rewrite Ex, Hseq, Z.eqb_refl. cbn [negb].
  go. apply act_alone, act_alone. rewrite (slot_onSlot _ _ _ x Hx). cbn. rewrite Hseq, Z.eqb_refl. cbn [negb]. apply alone_ret.
Qed.

Lemma copyOut_alone i m d rest n at_ : data (slot i m) = d ++ rest -> (at_ + n = length d)%nat ->
  alone (copyOut zeroMeta i at_ n) m (drop at_ d) m [].
Proof.
  intros Hd. revert at_. induction n as [|n IH]; intros at_ Hn; cbn [copyOut].
  - rewrite drop_ge by lia. apply alone_ret.
  - destruct (lookup_lt_is_Some_2 d at_ ltac:(lia)) as [b Hb]. rewrite (drop_S d b at_ Hb). go. apply act_alone.
    rewrite Hd, lookup_app_l, Hb by lia. cbn [default]. apply (alone_bind _ _ m (drop (S at_) d) m [] (b :: drop (S at_) d) m []); [apply IH; lia|].
    apply alone_ret.
Qed.

Lemma readOut_alone m l x : slots m !! r_slot l = Some x -> 0 <= bytes x <= zlen (data x) ->
  alone (readOut zeroMeta l) m tt m [Received (r_seq l) (contentOf x)].
Proof.
  intros Hx Hb. assert (slot (r_slot l) m = x) as Ex by (unfold slot; by rewrite Hx). unfold readOut. go. apply act_alone. rewrite Ex.
  pose proof (copyOut_alone (r_slot l) m (take (Z.to_nat (bytes x)) (data x)) (drop (Z.to_nat (bytes x)) (data x)) (Z.to_nat (bytes x)) 0) as Hc.
  rewrite Ex, take_drop, length_take, drop_0 in Hc. specialize (Hc eq_refl ltac:(lia)).
  apply (alone_bind _ _ m _ m [] tt m [Received (r_seq l) (contentOf x)] Hc). go. apply act_alone, act_alone. rewrite Ex.
  apply (alone_act (fun m => m) (fun _ => [Received (r_seq l) (contentOf x)]) (fun _ => Ret tt) m tt m []). apply alone_ret.
Qed.

Lemma raiseCursor_alone j next (m : Shared) : cursor (entry j m) < next -> let m1 := onEntry j (set_cursor next) m in
  alone (raiseCursor j next (touch j)) m tt (onEntry j (set_lastSeenMs (clock m1)) m1) [].
Proof.
  intros Hlt m1. unfold raiseCursor. eapply (alone_break _ _ m m1 []); [|apply touch_alone].
  go. apply act_alone. destruct (Z.leb_spec next (cursor (entry j m))) as [?|_]; [lia|]. apply act_alone. rewrite Z.eqb_refl. apply alone_ret.
Qed.

(** A registered consumer acquires, reads and releases what is there, and goes past it. *)
Lemma acquire_alone m process j s x : header_ok H -> slots m !! place H s = Some x -> seq x = s -> 0 < s < 18446744073709551615 ->
  0 <= bytes x <= zlen (data x) -> needs MaxConsumers H j s m -> let cons := mkConsumer true (Z.of_nat j) (id (entry j m)) in
  exists m', alone (consume zeroMeta MaxConsumers H process (Acquire s) cons) m cons m' [Received s (contentOf x)] /\ s < cursor (entry j m').
Proof.
  intros Hok Hx Hseq Hs Hb Hn cons. pose proof Hn as (Hj & Hid & _ & _ & _ & Hcur). destruct Hok as [Hc Hm Hmax] eqn:E. clear E.
  assert (consumerEntry_ MaxConsumers H (Z.of_nat j) = Some j) as Hentry.
  { unfold consumerEntry_. unfold entryCount in Hj. destruct (Z.leb_spec (maxConsumers H) (Z.of_nat j)); [lia|].
    destruct (Z.leb_spec MaxConsumers (Z.of_nat j)); [lia|]. by rewrite Nat2Z.id. }
  assert ((Z.of_nat j =? kInvalidIndex) = false) as Hind by (apply Z.eqb_neq; unfold kInvalidIndex; unfold entryCount in Hj; lia).
  assert ((id (entry j m) =? 0) = false) as Hid0 by by apply Z.eqb_neq.
  assert (exists e, consumers m !! j = Some e) as [e He].
  { unfold entry in Hid. destruct (consumers m !! j) as [e|]; [by exists e|done]. }
  assert (entry j m = e) as Ee by (unfold entry; by rewrite He). set (m1 := onEntry j (set_lastSeenMs (clock m)) m). set (m2 := countIn s m1).
  set (l := mkReadLease (place H s) s (Z.of_nat j) (id (entry j m))).
  assert (alone (consumerAcquire zeroMeta MaxConsumers H process s cons) m (cons, Some l) m2 []) as Ha.
  { unfold consumerAcquire. apply (alone_bind _ _ m (cons, true) m []).
    - unfold ensureRegistered_, cons. cbn [mapped consumerId consumerIndex negb]. rewrite Hid0, Hind, Hentry. cbn [negb andb].
      go. apply act_alone. rewrite Z.eqb_refl. apply alone_ret.
    - cbn [negb orb consumerIndex consumerId cons]. destruct (Z.eqb_spec s 0) as [?|_]; [lia|]. destruct (Z.eqb_spec (capacity H) 0) as [?|_]; [lia|].
      cbn [orb]. rewrite Hentry. apply (alone_bind _ _ m tt m1 []); [apply touch_alone|].
      apply (alone_bind _ _ m1 (Some (place H s)) m2 []); [by apply (hold_alone m1 s x)|]. apply alone_ret. }
  set (x2 := set_refCount (wrap32 (refCount x + 1)) x).
  assert (slots m2 !! place H s = Some x2) as Hx2.
  { unfold m2, countIn, onSlot. cbn. by rewrite list_lookup_alter_eq, Hx. }
  set (m3 := countOut s m2). assert (consumers m3 !! j = Some (set_lastSeenMs (clock m) e)) as He3 by (cbn; by rewrite list_lookup_alter_eq, He).
  assert (entry j m3 = set_lastSeenMs (clock m) e) as Ee3 by (unfold entry; by rewrite He3).
  pose proof (raiseCursor_alone j (s + 1) m3) as Hraise. rewrite Ee3 in Hraise. cbn [set_lastSeenMs cursor] in Hraise. rewrite Ee in Hcur.
  specialize (Hraise ltac:(lia)). cbn zeta in Hraise.
  set (m5 := onEntry j (set_lastSeenMs (clock (onEntry j (set_cursor (s + 1)) m3))) (onEntry j (set_cursor (s + 1)) m3)) in Hraise.
  exists m5. split.
  - cbn [consume]. apply (alone_bind _ _ m (cons, Some l) m2 [] cons m5 [Received s (contentOf x)] Ha).
    apply (alone_bind _ _ m2 tt m5 [Received s (contentOf x)] cons m5 []); [|apply alone_ret]. cbn [readAndRelease].
    apply (alone_bind _ _ m2 tt m2 [Received s (contentOf x)] tt m5 []); [by apply (readOut_alone m2 l x2)|].
    unfold release_. go. apply act_alone. change (onSlot (r_slot l) _ m2) with m3. cbn [l consumerId_ consumerIndex_ r_seq]. rewrite Hid0, Hind. cbn [negb andb].
    rewrite add64_small by lia. unfold keepUpInMapping_. destruct (Z.eqb_spec (s + 1) 0) as [?|_]; [lia|].
    unfold entryCount in Hj. destruct (Z.leb_spec (maxConsumers H) (Z.of_nat j)) as [?|_]; [lia|]. destruct (Z.leb_spec MaxConsumers (Z.of_nat j)) as [?|_]; [lia|].
    cbn [orb]. rewrite Nat2Z.id. go. apply act_alone. rewrite Ee3, Ee. cbn [set_lastSeenMs id]. rewrite Z.eqb_refl. cbn [negb]. exact Hraise.
  - unfold m5. rewrite (entry_onEntry j _ _ (set_cursor (s + 1) (set_lastSeenMs (clock m) e))); [cbn; lia|].
    unfold onEntry. cbn [consumers set_consumers]. rewrite list_lookup_alter_eq, He3. done.
Qed.

(** ** Claims *)

(** C10: what a consumer needs is not overwritten.  While a registered consumer is seen in
    time and has not gone past message [s], from before [s] had a number until now: once
    [s] is published its slot holds it, unchanged; and it shows its number, unless the
    publisher is just looking whether it may take the slot. *)
Theorem needed_message_is_kept now clients c j s content : header_ok H -> one_publisher clients -> Z.of_nat (length clients) < 4294967296 ->
  needed_since clients now j s c -> Published s content ∈ trace c ->
  exists x, slots (memory c) !! place H s = Some x /\ contentOf x = content /\
    (seq x = s \/ seq x = 0 /\ exists k ops p, clients !! k = Some (Publisher ops) /\ threads c !! k = Some p /\ forall u, p <> Ret u).
Proof.
  intros Hok Hone Hlen Hn Hp. destruct (kept_slot now clients c j s content Hok Hone Hlen Hn Hp) as (x & Hx & Hc & _ & _ & Hor). by exists x.
Qed.

(** The program of a consumer with operations left. *)
Definition consumer_program (process : Z) (ops : list Consume) (consumer : Consumer) : P unit :=
  bind (unregister MaxConsumers H) (inTurn (consume zeroMeta MaxConsumers H process) ops consumer).

(** C11: what a consumer needs it receives.  In the same situation, as soon as the message
    shows its number, the consumer's own turns are enough: when its next operation is to
    acquire it, it receives what was published, and has then gone past it. *)
Theorem needed_message_is_received now clients c j s content k process ops : header_ok H -> one_publisher clients ->
  Z.of_nat (length clients) < 4294967296 ->
  needed_since clients now j s c -> Published s content ∈ trace c -> seq (slot (place H s) (memory c)) <> 0 ->
  let consumer := mkConsumer true (Z.of_nat j) (id (entry j (memory c))) in
  threads c !! k = Some (consumer_program process (Acquire s :: ops) consumer) ->
  exists n, let c' := run (replicate n k) c in
    trace c' = trace c ++ [Received s content] /\ threads c' !! k = Some (consumer_program process ops consumer) /\
    s < cursor (entry j (memory c')).
Proof.
  intros Hok Hone Hlen Hn Hp Hseq consumer Hk.
  destruct (needed_inv now clients c j s Hok Hone Hlen Hn) as (_ & _ & _ & _ & _ & _ & _ & Hneeds & Hperm). unfold permitted in Hperm.
  destruct (kept_slot now clients c j s content Hok Hone Hlen Hn Hp) as (x & Hx & Hc & Hpos & Hb & Hor).
  assert (slot (place H s) (memory c) = x) as Ex by (unfold slot; by rewrite Hx). rewrite Ex in Hseq.
  destruct Hor as [Hor|[? _]]; [|done].
  destruct (acquire_alone (memory c) process j s x Hok Hx Hor ltac:(lia) Hb Hneeds) as (m' & Ha & Hcur).
  destruct (alone_run _ _ _ _ _ Ha (fun p => bind (unregister MaxConsumers H) (bind (inTurn (consume zeroMeta MaxConsumers H process) ops) p))
    k c ltac:(done) eq_refl Hk) as [n Hrun]. exists n. rewrite Hrun, <- Hc. cbn. split; [done|]. split; [|done]. by eapply lookup_set.
Qed.

End Claims.

(** ** Examples *)

(** Two slots of four bytes, four consumers. *)
Definition example_header : Header := mkHeader kMagic kVersion 7 8 512 2 4 320 384 32 64 4 5000.

Definition example_clients : list (@Client Z) :=
  [Publisher [Copy [x61; x62] 5; InPlace [(0, x63); (3, x64)] (Some 6) (Some 4); Copy [x65] 7; Copy [x66] 8]; ConsumerClient 3 [Acquire 1];
   Reader [Some 2; None]; Time [10; 10]].

Definition example_start : config := start 0 4 example_header 10 example_clients.

(** The consumer registers; the publisher goes on until it has published two messages and
    found that it may not overwrite the first; time passes in between. *)
Definition example_before : list nat := replicate 14 1%nat.
Definition example_after : list nat := replicate 40 0%nat ++ [3%nat] ++ replicate 50 0%nat ++ [3%nat] ++ replicate 40 0%nat.

Lemma example_header_ok : header_ok example_header.
Proof. split; cbn; lia. Qed.

Definition example_middle : config := run example_before example_start.
Definition example_end : config := run example_after example_middle.

Lemma example_within ks c : runs (fun m : @Shared Z => nextSeq m <? 18446744073709551615) ks c = true -> rtc within c (run ks c).
Proof. apply runs_rtc. intros a b Hs Hb%Z.ltb_lt. by split. Qed.

Lemma example_needed : needed_since 0 4 example_header example_clients 10 0 1 example_end.
Proof.
  exists example_middle. split; [apply example_within; vm_compute; reflexivity|].
  split; [apply (bool_decide_unpack _); vm_compute; exact I|]. split; [vm_compute; reflexivity|].
  eapply (runs_rtc _ (fun m => (nextSeq m <? 18446744073709551615) && bool_decide (needs 4 example_header 0 1 m))); [|vm_compute; reflexivity].
  intros a b Hs [Hb%Z.ltb_lt Hn%bool_decide_eq_true]%andb_true_iff. done.
Qed.

Lemma messages_are_whole_witness :
  let c := run (example_before ++ example_after ++ replicate 60 2%nat ++ replicate 60 1%nat) example_start in
  trace c = [Published 1 ([x61; x62], 5, 10000); Published 2 ([x63; x00; x00; x64], 6, 20000); Received 2 ([x63; x00; x00; x64], 6, 20000);
             Received 2 ([x63; x00; x00; x64], 6, 20000); Received 1 ([x61; x62], 5, 10000)] /\
  (forall t1 s content t2, trace c = t1 ++ Received s content :: t2 -> Published s content ∈ t1) /\
  (forall t1 s content t2 s' content', trace c = t1 ++ Published s content :: t2 -> Published s' content' ∈ t1 -> s' < s).
Proof.
  intros c. split; [vm_compute; reflexivity|].
  apply (messages_are_whole 0 4 example_header 10 example_clients c example_header_ok); [vm_compute; lia|vm_compute; reflexivity|].
  apply example_within. vm_compute. reflexivity.
Defined.

Lemma needed_message_is_kept_witness : Published 1 ([x61; x62], 5, 10000) ∈ trace example_end /\
  exists x, slots (memory example_end) !! place example_header 1 = Some x /\ contentOf x = ([x61; x62], 5, 10000) /\
    (seq x = 1 \/ seq x = 0 /\ exists k ops p, example_clients !! k = Some (Publisher ops) /\ threads example_end !! k = Some p /\ forall u, p <> Ret u).
Proof.
  assert (Published 1 ([x61; x62], 5, 10000) ∈ trace example_end) as Hp by (apply list_elem_of_lookup; exists 0%nat; vm_compute; reflexivity).
  split; [exact Hp|].
  apply (needed_message_is_kept 0 4 example_header 10 example_clients example_end 0 1 _ example_header_ok); [vm_compute; lia|vm_compute; reflexivity|exact example_needed|exact Hp].
Defined.

Lemma needed_message_is_received_witness : exists n, let c' := run (replicate n 1%nat) example_end in
  trace c' = trace example_end ++ [Received 1 ([x61; x62], 5, 10000)] /\
  threads c' !! 1%nat = Some (consumer_program 0 4 example_header 3 [] (mkConsumer true 0 (id (entry 0 (memory example_end))))) /\
  1 < cursor (entry 0 (memory c')).
Proof.
  apply (needed_message_is_received 0 4 example_header 10 example_clients example_end 0 1 _ 1 3 [] example_header_ok);
    [vm_compute; lia|vm_compute; reflexivity|exact example_needed|apply list_elem_of_lookup; exists 0%nat; vm_compute; reflexivity|vm_compute; discriminate|].
  reflexivity.
Defined.

(** Two publishers can write one slot at once, as a slot that shows 0 is taken without a
    question: the first publishes a message that neither of them wrote. *)
Example two_publishers : let header := mkHeader kMagic kVersion 7 8 448 1 4 320 384 32 64 4 5000 in
  trace (run (replicate 13 0%nat ++ replicate 60 1%nat ++ replicate 60 0%nat)
    (start 0 4 header 10 [Publisher [Copy [x61; x62] 5]; Publisher [Copy [x63; x64] 6]])) =
  [Published 2 ([x63; x64], 6, 10000); Published 1 ([x63; x62], 5, 10000)].
Proof. vm_compute. reflexivity. Qed.

(** A consumer that leaves after its time can free the entry another one has claimed
    meanwhile, whose messages are then overwritten. *)
Example late_unregister :
  let c := run (replicate 14 0%nat ++ [0%nat; 3%nat] ++ replicate 20 1%nat ++ [0%nat] ++ replicate 100 2%nat)
    (start 0 4 example_header 10 [ConsumerClient 3 [Unregister]; ConsumerClient 5 [KeepUp 1]; Publisher [Copy [x61] 1; Copy [x62] 2; Copy [x63] 3]; Time [6000]]) in
  (cursor (entry 0 (memory c)), id (entry 0 (memory c)), trace c) =
  (1, 0, [Published 1 ([x61], 1, 6010000); Published 2 ([x62], 2, 6010000); Published 3 ([x63], 3, 6010000)]).
Proof. vm_compute. reflexivity. Qed.

End NoCopyRingSpec.
